(* ===== verification/_CoqProject ===== *)
-Q . S2P
Prelude.v
Stream.v
WireIo.v
Str.v
Text.v
FsPath.v
Delta.v
DeltaFacts.v
Flist.v
FlistFacts.v
Flist27.v
Flist31.v
Flist31Facts.v
FlistTheorems.v
Multiplex.v
Glob.v
Filter.v
FilesFrom.v
Chmod.v
Session.v
RemoteArgs.v
Handshake.v
Lines.v
Daemon.v
DaemonFacts.v
DaemonConfig.v
DaemonArgs.v
DaemonServer.v
DaemonClient.v
DaemonSession.v
DaemonServerFacts.v
DaemonUnderstood.v
WinPath.v
Metadata.v
StopAt.v
FileSystem.v
MemoryFs.v
SyncPlan.v
Values.v
Core.v
Cli.v
Options.v
OptionsFacts.v
SyncWalk.v
Sync.v
SyncFacts.v
SyncDeletes.v
MemoryFsFacts.v
SyncWalkFacts.v
SyncCopy.v
SyncOutcome.v
SyncAgain.v
DeflatedTokens.v
DeflatedFacts.v
TransferSums.v
Transfer.v
TransferFacts.v
TransferSend.v
TransferReceive.v
TransferTheorems.v
TransferSafety.v
RemoteFiles.v
RemoteOrder.v
RemoteSources.v
RemoteWire.v
RemotePush.v
RemotePull.v
RemoteRuns.v
RemoteConfined.v
RemoteMemory.v
Batch.v
BatchFacts.v
Exchange.v
ExchangeMemory.v
RemoteShell.v
Plan.v
PlanFacts.v
Sidecar.v
SidecarFacts.v
Output.v
