(* ===== verification/Prelude.v ===== *)
(** * rsync-win: a verification library for its protocol and core logic

    rsync-win is an rsync client and daemon for Windows, a Rust workspace under
    src/crates. This library models the parts of it that compute: the codecs of the
    wire protocol, the delta engine, the filters, the permission rules, the command
    line and the plan made of it, the set-up of remote-shell sessions, both sides of
    the daemon protocol, the local sync with its file system in memory, the transfer
    of a file, the pushes and pulls of a remote shell, batch files and sidecars of
    metadata. Every definition follows the Rust function of the same name; where a
    name had to change, or a part of a function was given one, a comment says so.

    ** The program and the files that model it

    - rsync-protocol/src/io.rs, version.rs: integers, indexes, strings, versions.
      WireIo, with their properties.
    - rsync-protocol/src/flist.rs: file lists.  Flist has the data, path validation,
      allocation budgets, the batch builder and the internal format; Flist27 and
      Flist31 the writers and readers of protocols 27 and 31; FlistFacts and
      Flist31Facts the lemmas, FlistTheorems the properties.
    - rsync-protocol/src/session.rs: Multiplex has the framing of streams, Session the
      errors, operands and the choice of algorithms, RemoteArgs the command line of
      the server and its quoting, Handshake the handshakes, DeflatedTokens the tokens of
      a file under compression; their properties are beside them and in DeflatedFacts.
    - rsync-protocol/src/daemon.rs, rsync-cli/src/execute/daemon_client.rs and
      rsync-cli/src/daemon_server/mod.rs: Daemon and DaemonClient are the client,
      DaemonConfig, DaemonArgs and DaemonServer the server, Lines the line reader they
      share; DaemonFacts, DaemonSession, DaemonServerFacts and DaemonUnderstood (what the
      server makes of a client's arguments) their properties.
    - rsync-delta/src: Delta, with a Module for each of rollsum.rs, signature.rs,
      matcher.rs and apply.rs; DeltaFacts.
    - rsync-filter/src: Glob and Filter (matcher.rs, rule.rs), FilesFrom
      (files_from.rs), with their properties.
    - rsync-core/src: Chmod is chmod.rs, Core is lib.rs: metadata policies, what a
      request for metadata loses, and the report with its diagnostics.
    - rsync-cli/src/cli.rs, options.rs, options/values.rs, plan/limits.rs: Cli has the
      record of all options and its default, Values numbers with units, Options the
      tables of options, their parser and the loop over the arguments; OptionsFacts.
      StopAt has the limits on the time of a transfer of plan/mod.rs, with a calendar.
    - rsync-transport/src/remote_shell.rs, tcp.rs: RemoteShell, the command that starts
      the server on another machine, and in its Module Connect the way to a daemon,
      with proxies and connecting programs (rsync-cli/src/execute/daemon_client.rs).
    - rsync-cli/src/plan, app.rs (execute_or_render), execute/remote_shell.rs (the
      commands) and the options execute/local.rs gives a sync: Plan.  Its functions go
      from the record of options to the plan of a transfer: filter rules here and as
      arguments there, modes, what of the metadata is lost, diagnostics and conflicts,
      operands, the command of the remote shell, the second attempt with protocol 27 and
      the choice of what is executed.  PlanFacts is about plans and those who carry them
      out.
    - rsync-cli/src/output.rs and format/actions.rs, names.rs, report.rs: Output, exit
      codes, flags of the output, logs and the report of the actions of a run.
    - rsync-cli/src/batch.rs and its replay in execute/local.rs: Batch; BatchFacts.
    - rsync-fs/src: FsPath has the paths of the standard library and their text,
      Metadata metadata.rs, FileSystem the trait of walk.rs as a class with its default methods, MemoryFs the
      file system in memory that implements it.  SyncPlan, SyncWalk and Sync are
      sync.rs: options and the plan of deletions, the walk of a tree, the engine.
      SyncFacts, SyncDeletes and SyncWalkFacts have what holds over every file system,
      MemoryFsFacts what holds of the one in memory; SyncCopy,
      SyncOutcome and SyncAgain what a sync makes of it.
    - rsync-cli/src/transfer: TransferSums has checksum.rs, sum_head.rs, limits.rs and
      the compression of progress.rs, Transfer has delta.rs and tokens.rs.
      TransferFacts is about heads and signatures, TransferSend about what a sender puts
      out, TransferReceive about what a receiver makes of it; TransferTheorems and
      TransferSafety have the properties.
    - rsync-winfs/src/path.rs: WinPath, the checks of names and volumes before a pull.
    - rsync-winfs/src/sidecar.rs, metadata.rs, streams.rs, links.rs, security.rs, vss.rs
      and the sidecars of rsync-cli/src/execute/local.rs: Sidecar, as far as no call of
      the Windows API is needed; SidecarFacts.
    - rsync-cli/src/remote: RemoteFiles and RemoteSources are flist.rs, the canonical
      order of a list and the walk of the sources; RemoteWire, RemotePush and RemotePull
      are receive.rs, send.rs, push.rs, pull.rs and security.rs, both protocols;
      RemoteRuns the whole runs.  RemoteOrder has what holds of the numbering of a
      list, RemoteConfined where a pull writes, RemoteMemory the same with the file
      system in memory.  Exchange and ExchangeMemory put the sender of a push and the
      receiver of a pull together.

    The parts interact as in the program.  The codecs are generic over a reader or a
    writer: the classes Read and Write of Stream, with the laws ReadLaws and WriteLaws.
    A file list is proved against these laws, and Multiplex discharges them for the
    multiplexed streams, so that what holds of a codec on a plain stream holds on a
    multiplexed one.  A duplex pairs a reader and a writer into the transport the
    handshakes and the daemon protocol talk over.  Filters, chmod rules and the
    arguments a client sends meet in the daemon server's DaemonArgs.  The sync is
    written against the class PortableFileSystem: what it leaves alone is proved for
    every instance, what it makes for the instance MemoryFs.  A transfer reads local
    files through the class Source and its tokens through Read, plain or by way of
    DeflatedTokens, whose compressor is the class Zlib: sender and receiver are proved
    over all of these at once.  A push and a pull use all of this: the file lists, the
    multiplexed streams, the filters, the transfer of a file, and the destination by way
    of the class LocalFiles, whose instance for the file system in memory evaluates.
    The plan of a command line is where these meet: Options makes the record, Plan the
    plan, whose arguments RemoteArgs and RemoteShell turn into a command and DaemonArgs
    reads on the other side.  The files a plan reads are the class Files.

    ** How the code is modelled

    - Integers are Z, kept at their width where the code can wrap or truncate
      ([as_u32], [as_i32] and so on are the casts); a usize that only counts is a nat.
      Bit operations are those of Z.
    - [Result<A, E>] is [result A E].  A function that takes [&mut S] and may fail is
      an [M S E A], which keeps the state reached when it fails.  Stateful writers and
      readers are records beside their stream.
    - A byte string is a list of Z.  A [str] is its UTF-8 bytes in the file lists, and
      a list of characters in the components that work on characters, which decode and
      encode where the code does; Str and Text have the methods of [str].
    - An error message built by [format!] is kept as its format string; of an error
      with context, the context.
    - Loops that are not structural have fuel: a glob the length of its pattern, a
      delta loop the length of its target, the loops of a reader the bytes its stream
      can still deliver ([budget], and for lines [events], which counts interruptions
      too).  The fuel is part of the definition, not of a theorem: the round trips
      show that it suffices where the code succeeds, and the properties on
      termination that more of it changes nothing.  The walk of a tree has a fuel for
      its depth, and is shown to end for any fuel above the depth of a tree without
      links, and never where a link is copied that leads to its own directory; the
      links of the file system in memory have the limit the code gives them.  The
      receiver of a file has the length that was announced, which is shown to be enough
      on any bytes; the loops of a sender have the bytes its file can give.
    - A path is the list of its components as the standard library parses them, for
      Windows or for other systems (the class Platform).  The state of a sync is one
      record: the file system, the report and the lists the loop fills.
    - Third-party code is a class with the laws that are relied on: the digests md4 and
      md5, the strong checksum of a block, zlib.  Of the compressor the laws say that it
      takes its input, that a sync flush after input brings out all of it and ends with the
      marker 00 00 ff ff, and that the decompressor gives back what was taken; that the
      marker does not also end an earlier piece of the flush, where the writer would stop
      too soon, is a hypothesis about the file that is sent ([no_early_tail]).  The clock, the process id and the
      secrets file of the daemon server are arguments, as are the clock readings of a
      sync, of a transfer and of the limits of a plan.  Floating-point numbers of sizes
      and rates are those of the standard library's IEEE 754 specification.

    ** What is shown

    - Round trips: what a writer sends its reader takes back, for integers, strings,
      delta-coded indexes, the three file-list formats (attributes, hard links, ids and
      batches included), chmod rules, lists of files, daemon operands and answers, filter
      rules sent as arguments, batch files and the displayed command of a remote shell.
    - Refinement: multiplexed streams deliver what is written, in pieces of any size and
      among messages, and so carry every codec; the client and the server of
      the daemon protocol come to the same understanding on each other's bytes.
    - The command line and its plan: short options are their long forms, in clusters or
      not; archive mode is its letters; the server is asked for what is planned, reads
      the rules that are planned, and is asked for it again by a second attempt; the
      command of the remote shell runs the planned server; what is executed has no
      conflicting options and, where that is asked for, no loss of metadata.
    - Batch files: what is recorded is read back, its replay restores the files, and on
      any bytes stays below its destination, on Windows where no name begins with a drive.
    - Reports: names forge no lines in --out-format and the log; the last item of --info
      and --debug decides a flag.
    - Sidecars: a manifest gives back what it was given, and what is captured of a file
      is such; it is a file of the sidecar directory; the holes of a sparse file are what
      its ranges leave.
    - Time: the days of a date are counted as the calendar does, and a limit lies within
      the range its text allows.
    - The delta engine: the delta of a target rebuilds it under a stated absence of
      collisions, and applies safely without it; the index finds what a plain search
      finds; the rolling checksum is the recomputed one.
    - Transfers: what a receiver asks for is what the sender reads; what the sender puts
      out against it makes the file, uncompressed or compressed in the zlibx mode; and on
      any bytes a receiver stays within the announced length, accepts a file by its checksum only, and ends.
    - Remote transfers: what a pull requests is what a push serves, request for request,
      until the receiver has every file; the indexes of a list are those of the other
      end; whatever the server sends, a pull writes below its destination only, and a
      dry one nothing.
    - Filters: the memoised matcher decides the language of the pattern's tokens, and
      the first matching rule decides a path.
    - Safety: the paths readers accept, the records of a list of files, the command
      given to a shell, what the daemon server serves and to whom, module paths.
    - The local sync: a plain copy gives every visible entry its outcome and touches
      nothing else, a second one changes nothing, a dry run never does; deletions are
      confined to what the source lacks and no rule protects, and planned contents
      first; the walk of a tree is its visible nodes; the file system in memory keeps
      its invariant.
    - Handshakes: which versions, checksums and seeds come out of which bytes.
    - Behaviour that the code does not mean to have is shown as such: a varlong that
      cannot be read back, a stale owner name, escapes that have no effect in filters,
      a module path that a drive letter leads out of, arguments that end as another
      protocol would have them, a newer file that is safe from one sync only, a
      protected entry that goes with its directory, a walk without an end, excludes of -C
      that change their place, comparisons that two sides or two attempts understand
      differently, a path whose separators are lost, an owner named none, a name that
      makes lines of its own in a manifest or in the itemized changes, an exit code taken
      from the name of a file, a flag that no later option takes back, a quote of another
      kind that ends a text in a script.

    ** What is not modelled, and why

    The compression of tokens is zlib's; processes, sockets, the terminal, the local
    file system and the Windows API are I/O.  The bandwidth limiter sleeps by the
    clock.  Help and the rendered plan (the rendering in app.rs) are text for a reader,
    and so are the texts of errors inside a diagnostic and the display of a bandwidth
    limit.  Of the sidecars, the calls that ask Windows for what they hold or give it
    back are left out, and the loops that write and read their files; of the daemon
    server, the loops that serve files and the log, of its configuration the checks
    that ask the file system; of a transfer, the progress meter.  A pull is shown to
    stay below its destination where the destination holds no links that lead out of
    it, as the file system in memory resolves links by name; the composition of push
    and pull covers the requests and answers of protocol 31, not the statistics after
    them. *)

From stdpp Require Export base tactics list numbers option strings gmap.
From Stdlib Require Export ZArith Lia Ascii.

#[global] Open Scope Z_scope.

(** ** Results and the state-and-error monad

    A Rust [Result<A, E>] is a [result A E]; a function that takes [&mut S]
    and returns [Result<A, E>] is an [M S E A].  An error keeps the state
    reached so far, as a Rust [&mut] borrow does. *)

Inductive result (A E : Type) : Type :=
| Ok (a : A)
| Err (e : E).
Arguments Ok {A E} a.
Arguments Err {A E} e.

#[export] Instance result_eq_dec {A E} `{EqDecision A, EqDecision E} :
  EqDecision (result A E).
Proof. solve_decision. Defined.

Definition is_ok {A E} (r : result A E) : bool :=
  match r with Ok _ => true | Err _ => false end.

(** The value of a result that is known to be there. *)
Definition the {A E} (r : result A E) : is_ok r = true → A :=
  match r with Ok a => λ _, a | Err _ => λ H, match diff_false_true H with end end.

Lemma the_ok {A E} (r : result A E) H : r = Ok (the r H).
Proof. by destruct r. Qed.

(** [r.and_then(f)]; [let? x := r in k] is [let x = r?; k]. *)
Definition and_then {A B E} (r : result A E) (f : A → result B E) : result B E :=
  match r with Ok a => f a | Err e => Err e end.
Notation "'let?' x := r 'in' k" := (and_then r (λ x, k))
  (at level 10, x pattern, r at level 100, k at level 200).

(** [Option::ok_or]. *)
Definition ok_or {A E} (o : option A) (e : E) : result A E :=
  match o with Some a => Ok a | None => Err e end.

(** [Option::is_some]. *)
Definition is_some {A} (o : option A) : bool :=
  match o with Some _ => true | None => false end.

(** [Result::map_err]. *)
Definition map_err {A E E'} (f : E → E') (r : result A E) : result A E' :=
  match r with Ok a => Ok a | Err e => Err (f e) end.

Definition M (S E A : Type) : Type := S → result A E * S.

#[export] Instance M_ret {S E} : MRet (M S E) := λ A a s, (Ok a, s).
#[export] Instance M_bind {S E} : MBind (M S E) := λ A B f m s,
  match m s with
  | (Ok a, s') => f a s'
  | (Err e, s') => (Err e, s')
  end.

Definition throw {S E A} (e : E) : M S E A := λ s, (Err e, s).

(** A pure fallible computation inside the monad ([?] on a local result). *)
Definition lift {S E A} (r : result A E) : M S E A := λ s, (r, s).

(** Reading and replacing the state. *)
Definition get {S E} : M S E S := λ s, (Ok s, s).
Definition put {S E} (s : S) : M S E unit := λ _, (Ok tt, s).

(** [?] with a [From] conversion of the error. *)
Definition with_err {S E E' A} (f : E → E') (m : M S E A) : M S E' A :=
  λ s, let '(r, s') := m s in (map_err f r, s').

(** Running a computation on one half of a pair of mutable borrows. *)
Definition on_fst {S T E A} (m : M S E A) : M (S * T) E A :=
  λ p, let '(r, s') := m p.1 in (r, (s', p.2)).
Definition on_snd {S T E A} (m : M T E A) : M (S * T) E A :=
  λ p, let '(r, t') := m p.2 in (r, (p.1, t')).

(** [for x in xs { f(x)?; }] *)
Fixpoint for_each {S E A} (f : A → M S E unit) (xs : list A) : M S E unit :=
  match xs with
  | [] => mret ()
  | x :: xs => f x ≫= λ _, for_each f xs
  end.

(** [for _ in 0..count { entries.push(m?) }] *)
Fixpoint collect {S E A} (count : nat) (m : M S E A) : M S E (list A) :=
  match count with
  | O => mret []
  | S count => m ≫= λ x, collect count m ≫= λ xs, mret (x :: xs)
  end.

Lemma bind_ok {S E A B} (m : M S E A) (f : A → M S E B) s a s' :
  m s = (Ok a, s') → (m ≫= f) s = f a s'.
Proof. intros H. unfold mbind, M_bind. by rewrite H. Qed.

Lemma bind_err {S E A B} (m : M S E A) (f : A → M S E B) s e s' :
  m s = (Err e, s') → (m ≫= f) s = (Err e, s').
Proof. intros H. unfold mbind, M_bind. by rewrite H. Qed.

Lemma bind_ret {S E A B} (a : A) (f : A → M S E B) : (mret a ≫= f) = f a.
Proof. reflexivity. Qed.

Lemma bind_ext {S E A B} (m : M S E A) (f g : A → M S E B) s :
  (∀ a s, f a s = g a s) → (m ≫= f) s = (m ≫= g) s.
Proof. intros Hfg. unfold mbind, M_bind. by destruct (m s) as [[a|] s']. Qed.

(** Two continuations that agree on what [m] actually returns. *)
Lemma bind_ext_ok {S E A B} (m : M S E A) (f g : A → M S E B) s :
  (∀ a s', m s = (Ok a, s') → f a s' = g a s') → (m ≫= f) s = (m ≫= g) s.
Proof. intros Hfg. unfold mbind, M_bind. destruct (m s) as [[a|] s']; auto. Qed.

Lemma bind_assoc {S E A B C} (m : M S E A) (f : A → M S E B) (g : B → M S E C) s :
  ((m ≫= f) ≫= g) s = (m ≫= λ a, f a ≫= g) s.
Proof. unfold mbind, M_bind. by destruct (m s) as [[a|] s']. Qed.

Lemma bind_ok_inv {S E A B} (m : M S E A) (f : A → M S E B) s b s' :
  (m ≫= f) s = (Ok b, s') → ∃ a s1, m s = (Ok a, s1) ∧ f a s1 = (Ok b, s').
Proof.
  unfold mbind, M_bind. destruct (m s) as [[a|e] s1]; [|discriminate].
  intros H. by exists a, s1.
Qed.

Lemma and_then_Ok {A B E} (r : result A E) (f : A → result B E) b :
  and_then r f = Ok b → ∃ a, r = Ok a ∧ f a = Ok b.
Proof. destruct r as [a|]; [|discriminate]. intros H. by exists a. Qed.

Lemma lift_ok_inv {S E A} (r : result A E) (s s' : S) a :
  lift r s = (Ok a, s') → r = Ok a ∧ s' = s.
Proof. unfold lift. by intros [= -> <-]. Qed.

Lemma with_err_ok_inv {S E E' A} (f : E → E') (m : M S E A) s a s' :
  with_err f m s = (Ok a, s') → m s = (Ok a, s').
Proof. unfold with_err. destruct (m s) as [[]?]; cbn; by intros [= -> ->]. Qed.

(** Take a successful run apart: [step H as x] names the value of the first
    action; [H] becomes the run of the rest. *)
Tactic Notation "run_step" hyp(H) "as" simple_intropattern(x) ident(Hx) :=
  let s := fresh "s" in apply bind_ok_inv in H as (x & s & Hx & H).

(** The same with a name for the state in between. *)
Tactic Notation "run_step" hyp(H) "as" simple_intropattern(x) ident(Hx) "to" ident(s) :=
  apply bind_ok_inv in H as (x & s & Hx & H).

(** Discharge the early exits of a run that succeeded. *)
Ltac run_guard H :=
  match type of H with
  | (if ?b then throw _ else _) _ = (Ok _, _) =>
      let Hb := fresh "Hguard" in
      destruct b eqn:Hb; [discriminate H|]
  end.

(** ** Machine integers

    A [uN] or [iN] value is the integer it denotes.  Casts ([as]) wrap, and the
    [checked_*] operations return [None] out of range. *)

Definition in_u8 (z : Z) : Prop := 0 ≤ z < 2 ^ 8.
Definition in_u32 (z : Z) : Prop := 0 ≤ z < 2 ^ 32.
Definition in_u64 (z : Z) : Prop := 0 ≤ z < 2 ^ 64.
Definition in_i32 (z : Z) : Prop := - 2 ^ 31 ≤ z < 2 ^ 31.
Definition in_i64 (z : Z) : Prop := - 2 ^ 63 ≤ z < 2 ^ 63.

Definition u16_max : Z := 65535.
Definition u32_max : Z := 4294967295.
Definition i32_max : Z := 2147483647.
Definition i64_max : Z := 9223372036854775807.

Definition as_u8 (z : Z) : Z := z mod 2 ^ 8.
Definition as_u16 (z : Z) : Z := z mod 2 ^ 16.
Definition as_u32 (z : Z) : Z := z mod 2 ^ 32.
Definition as_u64 (z : Z) : Z := z mod 2 ^ 64.
Definition as_i32 (z : Z) : Z := (z + 2 ^ 31) mod 2 ^ 32 - 2 ^ 31.
Definition as_i64 (z : Z) : Z := (z + 2 ^ 63) mod 2 ^ 64 - 2 ^ 63.

Definition checked_i32 (z : Z) : option Z :=
  if (- 2 ^ 31 <=? z) && (z <? 2 ^ 31) then Some z else None.
Definition checked_usize (z : Z) : option Z :=
  if (0 <=? z) && (z <? 2 ^ 64) then Some z else None.
Definition saturating_usize (z : Z) : Z := Z.max 0 (Z.min z (2 ^ 64 - 1)).

(** [!x] on a [u8]. *)
Definition not_u8 (z : Z) : Z := Z.lxor z 255.
(** [!x] on a [u32]. *)
Definition not_u32 (z : Z) : Z := Z.lxor z u32_max.

Lemma as_i32_id z : in_i32 z → as_i32 z = z.
Proof. unfold in_i32, as_i32. intros H. rewrite Z.mod_small; lia. Qed.

Lemma as_i64_id z : in_i64 z → as_i64 z = z.
Proof. unfold in_i64, as_i64. intros H. rewrite Z.mod_small; lia. Qed.

Lemma as_u32_id z : in_u32 z → as_u32 z = z.
Proof. unfold in_u32, as_u32. intros H. rewrite Z.mod_small; lia. Qed.

Lemma as_u8_id z : in_u8 z → as_u8 z = z.
Proof. unfold in_u8, as_u8. intros H. rewrite Z.mod_small; lia. Qed.

Lemma as_i32_mod z : as_i32 (z mod 2 ^ 32) = as_i32 z.
Proof.
  unfold as_i32. by rewrite Zplus_mod_idemp_l.
Qed.

Lemma as_i64_mod z : as_i64 (z mod 2 ^ 64) = as_i64 z.
Proof.
  unfold as_i64. by rewrite Zplus_mod_idemp_l.
Qed.

Lemma as_u32_as_i32 z : as_u32 (as_i32 z) = as_u32 z.
Proof.
  unfold as_u32, as_i32.
  rewrite Zminus_mod_idemp_l. f_equal. lia.
Qed.

(** Two integers that differ by a multiple of the modulus. *)
Lemma mod_shift x y m k : x = y + k * m → x mod m = y mod m.
Proof.
  intros ->. destruct (Z.eq_dec m 0) as [->|]; [by rewrite Z.mul_0_r, Z.add_0_r|].
  by apply Z.mod_add.
Qed.

Lemma lor_bound n a b :
  0 ≤ n → 0 ≤ a < 2 ^ n → 0 ≤ b < 2 ^ n → 0 ≤ Z.lor a b < 2 ^ n.
Proof.
  intros Hn Ha Hb. split; [apply Z.lor_nonneg; lia|].
  assert (Hz : Z.land (Z.lor a b) (Z.ones n) = Z.lor a b).
  { rewrite Z.land_lor_distr_l, !Z.land_ones by done. by rewrite !Z.mod_small. }
  rewrite <-Hz, Z.land_ones by done. apply Z.mod_pos_bound. lia.
Qed.

Lemma lor_shiftl a b n :
  0 ≤ a → 0 ≤ n → 0 ≤ b < 2 ^ n → Z.lor (Z.shiftl a n) b = a * 2 ^ n + b.
Proof.
  intros Ha Hn Hb.
  assert (Hland : Z.land (Z.shiftl a n) b = 0).
  { rewrite <-(Z.mod_small b (2 ^ n)) by done. rewrite <-Z.land_ones by done.
    rewrite (Z.land_comm b), Z.land_assoc, Z.land_ones by done.
    by rewrite Z.shiftl_mul_pow2, Z.mod_mul by lia. }
  rewrite <-Z.lxor_lor by done. rewrite <-Z.add_nocarry_lxor by done.
  by rewrite Z.shiftl_mul_pow2.
Qed.

(** ** Facts about bytes settled by evaluation over their finite range *)

Definition all_below (n : nat) (p : Z → bool) : bool :=
  forallb (λ i, p (Z.of_nat i)) (seq 0 n).

Lemma all_below_spec n p z :
  all_below n p = true → 0 ≤ z < Z.of_nat n → p z = true.
Proof.
  unfold all_below. rewrite forallb_forall. intros H Hz.
  rewrite <-(Z2Nat.id z) by lia. apply H, in_seq. lia.
Qed.

(** Decide a boolean fact about an integer [z] below [n] by computation. *)
Ltac by_range z n :=
  pattern z;
  match goal with
  | |- (fun x => @?p x = true) _ =>
      apply (all_below_spec n p z); [vm_compute; reflexivity | lia]
  end.

(** Evaluate the closed upper bound of [H : z < bound]. *)
Ltac eval_bound H :=
  match type of H with
  | _ < ?b => let v := eval vm_compute in b in change b with v in *
  end.

(** ** Chunks of a slice ([slice::chunks]) *)

Fixpoint chunks_fuel {A} (fuel n : nat) (l : list A) : list (list A) :=
  match fuel, l with
  | O, _ | _, [] => []
  | S fuel, _ => take n l :: chunks_fuel fuel n (drop n l)
  end.

Definition chunks {A} (n : nat) (l : list A) : list (list A) :=
  chunks_fuel (length l) n l.

Section chunks.
Context {A : Type}.
Implicit Types (l : list A) (n fuel : nat).

Lemma chunks_fuel_irrel f1 f2 n l :
  (0 < n)%nat → (length l ≤ f1)%nat → (length l ≤ f2)%nat →
  chunks_fuel f1 n l = chunks_fuel f2 n l.
Proof.
  intros Hn. revert f2 l. induction f1 as [|f1 IH]; intros [|f2] [|a l] H1 H2;
    simpl in H1, H2; try done; try lia.
  cbn [chunks_fuel]. f_equal.
  apply IH; rewrite length_drop; simpl; lia.
Qed.

Lemma chunks_fuel_enough fuel n l :
  (0 < n)%nat → (length l ≤ fuel)%nat → chunks_fuel fuel n l = chunks n l.
Proof. intros. by apply chunks_fuel_irrel. Qed.

Lemma chunks_nil n : chunks n (@nil A) = [].
Proof. reflexivity. Qed.

Lemma chunks_cons n l :
  (0 < n)%nat → l ≠ [] → chunks n l = take n l :: chunks n (drop n l).
Proof.
  intros Hn Hl. destruct l as [|a l]; [done|]. unfold chunks at 1.
  cbn [length chunks_fuel]. f_equal. apply chunks_fuel_enough; [done|].
  rewrite length_drop. simpl. lia.
Qed.

Lemma concat_chunks n l : (0 < n)%nat → concat (chunks n l) = l.
Proof.
  intros Hn. induction l as [l IH] using (induction_ltof1 _ length).
  destruct l as [|a l]; [done|]. rewrite chunks_cons by done. cbn [concat].
  rewrite IH by (unfold ltof; rewrite length_drop; simpl; lia).
  apply take_drop.
Qed.

Lemma chunks_bounds n l :
  (0 < n)%nat → Forall (λ c, 0 < length c ≤ n)%nat (chunks n l).
Proof.
  intros Hn. induction l as [l IH] using (induction_ltof1 _ length).
  destruct l as [|a l]; [constructor|]. rewrite chunks_cons by done.
  constructor; [rewrite length_take; simpl; lia|].
  apply IH. unfold ltof. rewrite length_drop. simpl. lia.
Qed.
End chunks.

(** ** Updates of one field of a record *)

(** A record rebuilt from its fields, from which the update of each is derived. *)
Class Fields (R : Type) := rebuild : R → R.

Class Setter {R A : Type} (field : R → A) := set_field : (A → A) → R → R.
Arguments set_field {R A} field {_} f r.

Ltac make_setter :=
  match goal with
  | |- @Setter ?R ?A ?field =>
      let inst := constr:(_ : Fields R) in
      let body := eval hnf in (@rebuild R inst) in
      match eval pattern field in body with
      | ?g _ => let s := eval cbv beta in (λ (f : A → A) (r : R), g (λ r, f (field r)) r) in exact s
      end
  end.
#[export] Hint Extern 1 (Setter _) => make_setter : typeclass_instances.

Notation "r <| field := v |>" := (set_field field (λ _, v) r)
  (at level 1, field at next level, left associativity).
Notation "r <| field ::= f |>" := (set_field field f r)
  (at level 1, field at next level, left associativity).
