(* ===== verification/Stream.v ===== *)
(** * Byte streams: what the code asks of [std::io::Read] and [std::io::Write]

    Every codec of the program is generic over a reader or a writer.  This file
    states those two interfaces as type classes with their laws, gives the
    instances for byte slices and vectors, and builds the calculus in which the
    codecs are verified: [writes m bs], [reads m bs a] and their composition
    [coupled w r a] (what [w] writes, [r] reads back as [a]).

    The handshakes run on a [T: Read + Write].  At the end, such a transport is modelled
    as a reader of what the peer sends beside a writer of what it receives;
    [talks m ins outs a] says that [m] takes [ins] from the peer, sends it [outs] and
    returns [a]. *)

From S2P Require Import Prelude.

(** ** I/O errors

    A [std::io::Error] is its kind and message; a message built by [format!] is
    kept as its format string. *)

Inductive ErrorKind := InvalidData | InvalidInput | UnexpectedEof.

Record io_error := IoError { err_kind : ErrorKind; err_msg : string }.

#[export] Instance ErrorKind_eq_dec : EqDecision ErrorKind.
Proof. solve_decision. Defined.
#[export] Instance io_error_eq_dec : EqDecision io_error.
Proof. solve_decision. Defined.

(** ** The interfaces *)

(** A reader: [read_exact n] returns the next [n] bytes or fails, and [budget]
    bounds the bytes a reader can still deliver (loops that consume input
    recurse on it). *)
Class Read (R : Type) := {
  read_exact : nat → M R io_error (list Z);
  budget : R → nat;
}.

(** [avail r bs]: the reader [r] is about to deliver [bs]. *)
Class ReadLaws (R : Type) `{Read R} := {
  avail : R → list Z → Prop;
  read_exact_avail r bs rest :
    avail r (bs ++ rest) →
    ∃ r', read_exact (length bs) r = (Ok bs, r') ∧ avail r' rest;
  read_exact_budget n r bs r' :
    read_exact n r = (Ok bs, r') →
    length bs = n ∧ (budget r' + n ≤ budget r)%nat;
}.

Class Write (W : Type) := {
  write_all : list Z → M W io_error unit;
  flush : M W io_error unit;
}.

(** [emits w bs w']: going from [w] to [w'] has sent [bs]; [ready w]: the
    writer accepts data. *)
Class WriteLaws (W : Type) `{Write W} := {
  ready : W → Prop;
  emits : W → list Z → W → Prop;
  emits_nil w : emits w [] w;
  emits_app w1 w2 w3 bs1 bs2 :
    emits w1 bs1 w2 → emits w2 bs2 w3 → emits w1 (bs1 ++ bs2) w3;
  write_all_emits w bs :
    ready w → ∃ w', write_all bs w = (Ok (), w') ∧ emits w bs w' ∧ ready w';
  flush_emits w :
    ready w → ∃ w', flush w = (Ok (), w') ∧ emits w [] w' ∧ ready w';
}.

(** ** Slices and vectors *)

(** [impl Read for &[u8]]: a short slice is consumed and reported. *)
Definition slice_read_exact (n : nat) : M (list Z) io_error (list Z) := λ l,
  if (length l <? n)%nat
  then (Err (IoError UnexpectedEof "failed to fill whole buffer"), [])
  else (Ok (take n l), drop n l).

#[export] Instance slice_read : Read (list Z) :=
  {| read_exact := slice_read_exact; budget := length |}.

#[export, program] Instance slice_read_laws : ReadLaws (list Z) :=
  {| avail r bs := r = bs |}.
Next Obligation.
  intros r bs rest ->. exists rest. split; [|done].
  cbn. unfold slice_read_exact. destruct (Nat.ltb_spec (length (bs ++ rest)) (length bs)).
  - rewrite length_app in *. lia.
  - by rewrite take_app_length, drop_app_length.
Qed.
Next Obligation.
  intros n r bs r'. cbn. unfold slice_read_exact.
  destruct (Nat.ltb_spec (length r) n); intros; simplify_eq.
  rewrite length_take, length_drop. lia.
Qed.

(** [impl Write for Vec<u8>]: appending never fails. *)
#[export] Instance vec_write : Write (list Z) :=
  {| write_all bs := λ out, (Ok (), out ++ bs); flush := mret () |}.

#[export, program] Instance vec_write_laws : WriteLaws (list Z) :=
  {| ready _ := True; emits w bs w' := w' = w ++ bs |}.
Next Obligation. intros. cbn. by rewrite app_nil_r. Qed.
Next Obligation. intros. cbn in *. subst. by rewrite app_assoc. Qed.
Next Obligation. intros. cbn. eauto. Qed.
Next Obligation. intros w _. exists w. cbn. by rewrite app_nil_r. Qed.

(** ** Reading calculus *)

Section reads.
Context {R : Type} `{ReadLaws R}.

(** [m] consumes exactly [bs] and returns [a], whatever follows. *)
Definition reads {E A} (m : M R E A) (bs : list Z) (a : A) : Prop :=
  ∀ r rest, avail r (bs ++ rest) → ∃ r', m r = (Ok a, r') ∧ avail r' rest.

(** [m] fails with [e] when the stream starts with [bs]. *)
Definition reads_err {E A} (m : M R E A) (bs : list Z) (e : E) : Prop :=
  ∀ r rest, avail r (bs ++ rest) → ∃ r', m r = (Err e, r').

Context {E A B : Type}.
Implicit Types (m : M R E A) (f : A → M R E B).

Lemma reads_ret (a : A) : reads (mret a : M R E A) [] a.
Proof. intros r rest Hr. by exists r. Qed.

Lemma reads_bind m f bs1 bs2 a b :
  reads m bs1 a → reads (f a) bs2 b → reads (m ≫= f) (bs1 ++ bs2) b.
Proof.
  intros Hm Hf r rest. rewrite <-app_assoc. intros Hr.
  destruct (Hm _ _ Hr) as (r1 & Hr1 & Ha1).
  destruct (Hf _ _ Ha1) as (r2 & Hr2 & Ha2).
  exists r2. split; [|done]. by rewrite (bind_ok _ _ _ _ _ Hr1).
Qed.

(** The same with the consumed bytes split by an equation. *)
Lemma reads_split m f bs bs1 bs2 a b :
  bs = bs1 ++ bs2 → reads m bs1 a → reads (f a) bs2 b → reads (m ≫= f) bs b.
Proof. intros ->. apply reads_bind. Qed.

Lemma reads_last m f bs a b :
  reads m bs a → reads (f a) [] b → reads (m ≫= f) bs b.
Proof. apply reads_split. by rewrite app_nil_r. Qed.

Lemma reads_bind_nil m f bs a b :
  reads m [] a → reads (f a) bs b → reads (m ≫= f) bs b.
Proof. apply (reads_bind _ _ []). Qed.

Lemma reads_lift (x : result A E) a : x = Ok a → reads (lift x) [] a.
Proof. intros ->. intros r rest Hr. by exists r. Qed.

Lemma reads_with_err {E'} (g : E → E') m bs a :
  reads m bs a → reads (with_err g m) bs a.
Proof.
  intros Hm r rest Hr. destruct (Hm r rest Hr) as (r' & Hr' & Ha).
  exists r'. split; [|done]. unfold with_err. by rewrite Hr'.
Qed.

Lemma reads_err_throw (e : E) : reads_err (throw e : M R E A) [] e.
Proof. intros r rest _. by exists r. Qed.

Lemma reads_err_here m f bs e : reads_err m bs e → reads_err (m ≫= f) bs e.
Proof.
  intros Hm r rest Hr. destruct (Hm r rest Hr) as [r' Hr'].
  exists r'. by apply bind_err.
Qed.

Lemma reads_err_bind m f bs1 bs2 a e :
  reads m bs1 a → reads_err (f a) bs2 e → reads_err (m ≫= f) (bs1 ++ bs2) e.
Proof.
  intros Hm Hf r rest. rewrite <-app_assoc. intros Hr.
  destruct (Hm _ _ Hr) as (r1 & Hr1 & Ha1).
  destruct (Hf _ _ Ha1) as (r2 & Hr2). exists r2.
  by rewrite (bind_ok _ _ _ _ _ Hr1).
Qed.

Lemma reads_err_with_err {E'} (g : E → E') m bs e :
  reads_err m bs e → reads_err (with_err g m) bs (g e).
Proof.
  intros Hm r rest Hr. destruct (Hm r rest Hr) as (r' & Hr').
  exists r'. unfold with_err. by rewrite Hr'.
Qed.
End reads.

(** ** Progress

    [consumes n m]: a successful run of [m] takes at least [n] bytes, and its
    budget says so. *)

Section consumes.
Context {R : Type} `{ReadLaws R} {E : Type}.

Definition consumes {A} (n : nat) (m : M R E A) : Prop :=
  ∀ r a r', m r = (Ok a, r') → (budget r' + n ≤ budget r)%nat.

Context {A B : Type}.

Lemma consumes_bind n1 n2 (m : M R E A) (f : A → M R E B) :
  consumes n1 m → (∀ a, consumes n2 (f a)) → consumes (n1 + n2) (m ≫= f).
Proof.
  intros Hm Hf r b r' (a & r1 & H1 & H2)%bind_ok_inv.
  specialize (Hm _ _ _ H1). specialize (Hf _ _ _ _ H2). lia.
Qed.

Lemma consumes_weaken n n' (m : M R E A) : (n' ≤ n)%nat → consumes n m → consumes n' m.
Proof. intros Hn Hm r a r' Hr. specialize (Hm _ _ _ Hr). lia. Qed.

(** Only the first action matters for a lower bound. *)
Lemma consumes_first n (m : M R E A) (f : A → M R E B) :
  consumes n m → (∀ a, consumes 0 (f a)) → consumes n (m ≫= f).
Proof. intros Hm Hf. rewrite <-(Nat.add_0_r n). by apply consumes_bind. Qed.

Lemma consumes_ret (a : A) : consumes 0 (mret a : M R E A).
Proof. intros r ? ? [= _ <-]. lia. Qed.

Lemma consumes_throw (e : E) : consumes 0 (throw e : M R E A).
Proof. by intros r a r' ?. Qed.

Lemma consumes_lift (x : result A E) : consumes 0 (lift x : M R E A).
Proof. intros r a r' [_ ->]%lift_ok_inv. lia. Qed.

Lemma consumes_if n (b : bool) (m1 m2 : M R E A) :
  consumes n m1 → consumes n m2 → consumes n (if b then m1 else m2).
Proof. intros ??. by destruct b. Qed.
End consumes.

Lemma consumes_with_err {R} `{ReadLaws R} {E E' A} (g : E → E') n (m : M R E A) :
  consumes n m → consumes n (with_err g m).
Proof. intros Hm r a r' Hr%with_err_ok_inv. exact (Hm _ _ _ Hr). Qed.

Lemma consumes_exact {R} `{ReadLaws R} n : consumes (R:=R) n (read_exact n).
Proof. intros r bs r' [_ Hr]%read_exact_budget. exact Hr. Qed.

Lemma reads_exact {R} `{ReadLaws R} bs n :
  length bs = n → reads (R:=R) (read_exact n) bs bs.
Proof. intros <- r rest Hr. by apply read_exact_avail. Qed.

(** On a slice, [reads] is an equation about the function. *)
Lemma reads_slice {E A} (m : M (list Z) E A) bs a rest :
  reads m bs a → m (bs ++ rest) = (Ok a, rest).
Proof. intros Hm. by destruct (Hm (bs ++ rest) rest eq_refl) as (? & ? & ->). Qed.

Lemma reads_slice_all {E A} (m : M (list Z) E A) bs a :
  reads m bs a → m bs = (Ok a, []).
Proof.
  intros Hm. pose proof (reads_slice m bs a [] Hm) as Hs.
  by rewrite app_nil_r in Hs.
Qed.

Lemma reads_err_slice {E A} (m : M (list Z) E A) bs e :
  reads_err m bs e → (m bs).1 = Err e.
Proof.
  intros Hm. destruct (Hm bs [] ltac:(by rewrite app_nil_r)) as [r' Hr'].
  by rewrite Hr'.
Qed.

(** ** Writing calculus *)

Section writes.
Context {W : Type} `{WriteLaws W}.

Definition writes {E A} (m : M W E A) (bs : list Z) (a : A) : Prop :=
  ∀ w, ready w → ∃ w', m w = (Ok a, w') ∧ emits w bs w' ∧ ready w'.

Context {E A B : Type}.
Implicit Types (m : M W E A) (f : A → M W E B).

Lemma writes_ret (a : A) : writes (mret a : M W E A) [] a.
Proof. intros w Hw. exists w. eauto using emits_nil. Qed.

Lemma writes_bind m f bs1 bs2 a b :
  writes m bs1 a → writes (f a) bs2 b → writes (m ≫= f) (bs1 ++ bs2) b.
Proof.
  intros Hm Hf w Hw. destruct (Hm w Hw) as (w1 & Hw1 & He1 & Hr1).
  destruct (Hf w1 Hr1) as (w2 & Hw2 & He2 & Hr2).
  exists w2. split; [by rewrite (bind_ok _ _ _ _ _ Hw1)|].
  eauto using emits_app.
Qed.

Lemma writes_lift (x : result A E) a : x = Ok a → writes (lift x) [] a.
Proof. intros ->. intros w Hw. exists w. eauto using emits_nil. Qed.

Lemma writes_with_err {E'} (g : E → E') m bs a :
  writes m bs a → writes (with_err g m) bs a.
Proof.
  intros Hm w Hw. destruct (Hm w Hw) as (w' & Hw' & Hr).
  exists w'. split; [|done]. unfold with_err. by rewrite Hw'.
Qed.

Lemma writes_all bs : writes (write_all bs) bs ().
Proof. intros w Hw. by apply write_all_emits. Qed.

Lemma writes_flush : writes flush [] ().
Proof. intros w Hw. by apply flush_emits. Qed.
End writes.

(** On a vector, [writes] is an equation about the function. *)
Lemma writes_vec {E A} (m : M (list Z) E A) bs a out :
  writes m bs a → m out = (Ok a, out ++ bs).
Proof. intros Hm. by destruct (Hm out I) as (? & ? & -> & _). Qed.

(** ** Coupling: a writer and the reader that takes its bytes back *)

Section coupled.
Context {R : Type} `{ReadLaws R} {W : Type} `{WriteLaws W}.

(** What [w] writes, [r] reads back as [a]. *)
Definition coupled {E E' A} (w : M W E unit) (r : M R E' A) (a : A) : Prop :=
  ∃ bs, writes w bs () ∧ reads r bs a.

Context {E E' A B : Type}.

Lemma coupled_ret (a : A) : coupled (mret () : M W E unit) (mret a : M R E' A) a.
Proof. exists []. split; [apply writes_ret | apply reads_ret]. Qed.

Lemma coupled_bind (w1 w2 : M W E unit) (r1 : M R E' A) (r2 : A → M R E' B) a b :
  coupled w1 r1 a → coupled w2 (r2 a) b →
  coupled (w1 ≫= λ _, w2) (r1 ≫= r2) b.
Proof.
  intros (bs1 & Hw1 & Hr1) (bs2 & Hw2 & Hr2). exists (bs1 ++ bs2).
  split; [eapply writes_bind | eapply reads_bind]; eauto.
Qed.

(** The writer does something the reader has no counterpart for, or the
    reverse: neither touches the stream. *)
Lemma coupled_writer_skip (w1 : M W E unit) w2 (r : M R E' B) b :
  writes w1 [] () → coupled w2 r b → coupled (w1 ≫= λ _, w2) r b.
Proof.
  intros Hw1 (bs & Hw2 & Hr). exists bs. split; [|done].
  by apply (writes_bind _ _ [] bs _ _ Hw1).
Qed.

Lemma coupled_reader_skip (w : M W E unit) (r1 : M R E' A) (r2 : A → M R E' B) a b :
  reads r1 [] a → coupled w (r2 a) b → coupled w (r1 ≫= r2) b.
Proof.
  intros Hr1 (bs & Hw & Hr2). exists bs. split; [done|].
  by apply (reads_bind_nil _ _ _ a).
Qed.

Lemma coupled_with_err {E1 E2} (g1 : E → E1) (g2 : E' → E2)
    (w : M W E unit) (r : M R E' A) a :
  coupled w r a → coupled (with_err g1 w) (with_err g2 r) a.
Proof.
  intros (bs & Hw & Hr). exists bs.
  split; [by apply writes_with_err | by apply reads_with_err].
Qed.
End coupled.

(** Element by element. *)
Lemma coupled_for_each {R} `{ReadLaws R} {W} `{WriteLaws W} {E E' A B}
    (f : A → M W E unit) (r : M R E' B) (xs : list A) (ys : list B) :
  Forall2 (λ x y, coupled (f x) r y) xs ys →
  coupled (for_each f xs) (collect (length ys) r) ys.
Proof.
  induction 1 as [|x y xs ys Hx _ IH]; cbn [for_each collect length].
  - apply coupled_ret.
  - eapply coupled_bind; [exact Hx|]. destruct IH as (bs & Hw & Hr).
    exists bs. split; [done|]. eapply reads_last; [exact Hr|apply reads_ret].
Qed.

(** Two writes that one read takes back. *)
Lemma coupled_assoc {R} `{ReadLaws R} {W} `{WriteLaws W} {E E' A}
    (w1 w2 w3 : M W E unit) (r : M R E' A) a :
  coupled ((w1 ≫= λ _, w2) ≫= λ _, w3) r a →
  coupled (w1 ≫= λ _, w2 ≫= λ _, w3) r a.
Proof.
  intros (bs & Hw & Hr). exists bs. split; [|done]. intros w Hready.
  destruct (Hw w Hready) as (w' & Hw' & He). exists w'. split; [|done].
  rewrite <-Hw'. unfold mbind, M_bind. by destruct (w1 w) as [[[]|]?].
Qed.

Lemma coupled_unassoc {R} `{ReadLaws R} {W} `{WriteLaws W} {E E' A}
    (w1 w2 w3 : M W E unit) (r : M R E' A) a :
  coupled (w1 ≫= λ _, w2 ≫= λ _, w3) r a →
  coupled ((w1 ≫= λ _, w2) ≫= λ _, w3) r a.
Proof.
  intros (bs & Hw & Hr). exists bs. split; [|done]. intros w Hready.
  destruct (Hw w Hready) as (w' & Hw' & He). exists w'. split; [|done].
  rewrite <-Hw'. unfold mbind, M_bind. by destruct (w1 w) as [[[]|]?].
Qed.

(** The consequence for the concrete vector and slice. *)
Lemma coupled_bytes {E E' A} (w : M (list Z) E unit) (r : M (list Z) E' A) a :
  coupled w r a →
  ∃ bs, w [] = (Ok (), bs) ∧ ∀ rest, r (bs ++ rest) = (Ok a, rest).
Proof.
  intros (bs & Hw & Hr). exists bs. split; [by rewrite (writes_vec _ _ _ [] Hw)|].
  intros rest. by apply reads_slice.
Qed.

(** ** Codecs that thread a state beside the stream

    A method that borrows both a state [&mut T] and a stream is an
    [M (T * _) E A]. *)

Section stateful.
Context {R : Type} `{ReadLaws R} {W : Type} `{WriteLaws W} {T : Type}.

Definition writes_st {E A} (m : M (T * W) E A) (t : T) (bs : list Z) (a : A) (t' : T) : Prop :=
  ∀ w, ready w → ∃ w', m (t, w) = (Ok a, (t', w')) ∧ emits w bs w' ∧ ready w'.

Definition reads_st {E A} (m : M (T * R) E A) (t : T) (bs : list Z) (a : A) (t' : T) : Prop :=
  ∀ r rest, avail r (bs ++ rest) →
    ∃ r', m (t, r) = (Ok a, (t', r')) ∧ avail r' rest.

Context {E A B : Type}.

Lemma writes_st_bind (m : M (T * W) E A) (f : A → M (T * W) E B) t t1 t2 bs1 bs2 a b :
  writes_st m t bs1 a t1 → writes_st (f a) t1 bs2 b t2 →
  writes_st (m ≫= f) t (bs1 ++ bs2) b t2.
Proof.
  intros Hm Hf w Hw. destruct (Hm w Hw) as (w1 & Hw1 & He1 & Hr1).
  destruct (Hf w1 Hr1) as (w2 & Hw2 & He2 & Hr2). exists w2.
  split; [by rewrite (bind_ok _ _ _ _ _ Hw1)|]. eauto using emits_app.
Qed.

Lemma reads_st_bind (m : M (T * R) E A) (f : A → M (T * R) E B) t t1 t2 bs1 bs2 a b :
  reads_st m t bs1 a t1 → reads_st (f a) t1 bs2 b t2 →
  reads_st (m ≫= f) t (bs1 ++ bs2) b t2.
Proof.
  intros Hm Hf r rest. rewrite <-app_assoc. intros Hr.
  destruct (Hm _ _ Hr) as (r1 & Hr1 & Ha1).
  destruct (Hf _ _ Ha1) as (r2 & Hr2 & Ha2).
  exists r2. split; [|done]. by rewrite (bind_ok _ _ _ _ _ Hr1).
Qed.

(** Steps that leave the stream alone. *)
Lemma writes_st_pure (m : M (T * W) E A) (f : A → M (T * W) E B) t t1 t2 bs a b :
  (∀ w, m (t, w) = (Ok a, (t1, w))) → writes_st (f a) t1 bs b t2 →
  writes_st (m ≫= f) t bs b t2.
Proof.
  intros Hm Hf w Hw. rewrite (bind_ok _ _ _ _ _ (Hm w)). by apply Hf.
Qed.

Lemma reads_st_pure (m : M (T * R) E A) (f : A → M (T * R) E B) t t1 t2 bs a b :
  (∀ r, m (t, r) = (Ok a, (t1, r))) → reads_st (f a) t1 bs b t2 →
  reads_st (m ≫= f) t bs b t2.
Proof.
  intros Hm Hf r rest Hr. rewrite (bind_ok _ _ _ _ _ (Hm r)). by apply Hf.
Qed.

Lemma writes_st_get (f : T → M (T * W) E B) t t' bs b :
  writes_st (f t) t bs b t' → writes_st (on_fst get ≫= f) t bs b t'.
Proof. intros Hf w Hw. by apply Hf. Qed.

Lemma writes_st_put (f : unit → M (T * W) E B) t t1 t' bs b :
  writes_st (f ()) t1 bs b t' → writes_st (on_fst (put t1) ≫= f) t bs b t'.
Proof. intros Hf w Hw. by apply Hf. Qed.

Lemma writes_st_lift (x : result A E) (f : A → M (T * W) E B) t t' bs a b :
  x = Ok a → writes_st (f a) t bs b t' → writes_st (lift x ≫= f) t bs b t'.
Proof. intros -> Hf w Hw. by apply Hf. Qed.

Lemma reads_st_get (f : T → M (T * R) E B) t t' bs b :
  reads_st (f t) t bs b t' → reads_st (on_fst get ≫= f) t bs b t'.
Proof. intros Hf r rest Hr. by apply Hf. Qed.

Lemma reads_st_put (f : unit → M (T * R) E B) t t1 t' bs b :
  reads_st (f ()) t1 bs b t' → reads_st (on_fst (put t1) ≫= f) t bs b t'.
Proof. intros Hf r rest Hr. by apply Hf. Qed.

Lemma reads_st_lift (x : result A E) t a :
  x = Ok a → reads_st (lift x : M (T * R) E A) t [] a t.
Proof. intros -> r rest Hr. by exists r. Qed.

Lemma writes_st_on_snd (m : M W E A) t bs a :
  writes m bs a → writes_st (on_snd m) t bs a t.
Proof.
  intros Hm w Hw. destruct (Hm w Hw) as (w' & Hw' & Hr).
  exists w'. split; [|done]. unfold on_snd. cbn. by rewrite Hw'.
Qed.

Lemma reads_st_on_snd (m : M R E A) t bs a :
  reads m bs a → reads_st (on_snd m) t bs a t.
Proof.
  intros Hm r rest Hr. destruct (Hm r rest Hr) as (r' & Hr' & Ha).
  exists r'. split; [|done]. unfold on_snd. cbn. by rewrite Hr'.
Qed.

Lemma reads_st_ret (a : A) t : reads_st (mret a : M (T * R) E A) t [] a t.
Proof. intros r rest Hr. by exists r. Qed.

Lemma writes_st_ret (a : A) t : writes_st (mret a : M (T * W) E A) t [] a t.
Proof. intros w Hw. exists w. eauto using emits_nil. Qed.

(** Writer and reader start in the same state and end in the same state. *)
Definition coupled_st {E E' A} (w : M (T * W) E unit) (r : M (T * R) E' A)
    (t : T) (a : A) (t' : T) : Prop :=
  ∃ bs, writes_st w t bs () t' ∧ reads_st r t bs a t'.
End stateful.

Create HintDb stream.
#[export] Hint Resolve reads_ret reads_exact writes_ret writes_all
  reads_with_err writes_with_err coupled_with_err : stream.

(** A search with this database proves lower bounds of straight-line readers. *)
Create HintDb progress.
#[export] Hint Resolve consumes_ret consumes_throw consumes_lift consumes_if
  consumes_with_err consumes_first consumes_bind : progress.
#[export] Hint Extern 4 (consumes 0 (read_exact _)) =>
  eapply (consumes_weaken _ 0); [lia|apply consumes_exact] : progress.

Record duplex (R W : Type) := Duplex { incoming : R; outgoing : W }.
Arguments Duplex {R W} incoming outgoing.
Arguments incoming {R W} d.
Arguments outgoing {R W} d.

#[export] Instance duplex_read {R W} `{Read R} : Read (duplex R W) :=
  {| read_exact n := λ t, let '(r, i) := read_exact n (incoming t) in (r, Duplex i (outgoing t));
     budget t := budget (incoming t) |}.

#[export] Instance duplex_write {R W} `{Write W} : Write (duplex R W) :=
  {| write_all bs := λ t, let '(r, o) := write_all bs (outgoing t) in (r, Duplex (incoming t) o);
     flush := λ t, let '(r, o) := flush (outgoing t) in (r, Duplex (incoming t) o) |}.

(** The laws of the reading half, for a writing half that stays at [w0]. *)
Program Definition duplex_read_laws {R W} `{ReadLaws R} (w0 : W) : ReadLaws (duplex R W) :=
  {| avail t bs := avail (incoming t) bs ∧ outgoing t = w0 |}.
Next Obligation.
  intros R W ?? w0 t bs rest [Ha Hw]. destruct (read_exact_avail _ _ _ Ha) as (i & Hi & Ha').
  exists (Duplex i (outgoing t)). cbn. by rewrite Hi.
Qed.
Next Obligation.
  intros R W ?? w0 n t bs t'. cbn. destruct (read_exact n (incoming t)) as [r i] eqn:Hi.
  intros [= -> <-]. by apply read_exact_budget in Hi.
Qed.

#[export, program] Instance duplex_write_laws {R W} `{WriteLaws W} : WriteLaws (duplex R W) :=
  {| ready t := ready (outgoing t);
     emits t bs t' := emits (outgoing t) bs (outgoing t') ∧ incoming t' = incoming t |}.
Next Obligation. intros. split; [apply emits_nil|done]. Qed.
Next Obligation.
  intros R W ?? t1 t2 t3 bs1 bs2 [He1 Hi1] [He2 Hi2]. cbn in *.
  split; [by eapply emits_app|congruence].
Qed.
Next Obligation.
  intros R W ?? t bs Hr. destruct (write_all_emits _ bs Hr) as (o & Ho & He & Hr').
  exists (Duplex (incoming t) o). cbn. by rewrite Ho.
Qed.
Next Obligation.
  intros R W ?? t Hr. destruct (flush_emits _ Hr) as (o & Ho & He & Hr').
  exists (Duplex (incoming t) o). cbn. by rewrite Ho.
Qed.

Section talks.
Context {R : Type} `{ReadLaws R} {W : Type} `{WriteLaws W}.

Definition talks {E A} (m : M (duplex R W) E A) (ins outs : list Z) (a : A) : Prop :=
  ∀ t rest, avail (incoming t) (ins ++ rest) → ready (outgoing t) →
    ∃ t', m t = (Ok a, t') ∧ avail (incoming t') rest ∧
      emits (outgoing t) outs (outgoing t') ∧ ready (outgoing t').

(** [m] fails with [e], having taken [ins] and sent [outs]. *)
Definition talks_err {E A} (m : M (duplex R W) E A) (ins outs : list Z) (e : E) : Prop :=
  ∀ t rest, avail (incoming t) (ins ++ rest) → ready (outgoing t) →
    ∃ t', m t = (Err e, t') ∧ avail (incoming t') rest ∧
      emits (outgoing t) outs (outgoing t').

Context {E A B : Type}.
Implicit Types (m : M (duplex R W) E A) (f : A → M (duplex R W) E B).

Lemma talks_ret (a : A) : talks (mret a : M (duplex R W) E A) [] [] a.
Proof. intros t rest Ha Hr. exists t. eauto using emits_nil. Qed.

Lemma talks_lift (x : result A E) a : x = Ok a → talks (lift x) [] [] a.
Proof. intros ->. apply talks_ret. Qed.

Lemma talks_bind m f ins1 ins2 outs1 outs2 a b :
  talks m ins1 outs1 a → talks (f a) ins2 outs2 b →
  talks (m ≫= f) (ins1 ++ ins2) (outs1 ++ outs2) b.
Proof.
  intros Hm Hf t rest. rewrite <-app_assoc. intros Ha Hr.
  destruct (Hm _ _ Ha Hr) as (t1 & Ht1 & Ha1 & He1 & Hr1).
  destruct (Hf _ _ Ha1 Hr1) as (t2 & Ht2 & Ha2 & He2 & Hr2).
  exists t2. split; [by rewrite (bind_ok _ _ _ _ _ Ht1)|]. eauto using emits_app.
Qed.

(** Sequencing with the bytes split by equations, and where one side is silent. *)
Lemma talks_step m f ins ins1 ins2 outs outs1 outs2 a b :
  ins = ins1 ++ ins2 → outs = outs1 ++ outs2 →
  talks m ins1 outs1 a → talks (f a) ins2 outs2 b → talks (m ≫= f) ins outs b.
Proof. intros -> ->. apply talks_bind. Qed.

Lemma talks_quiet m f ins outs a b :
  talks m [] [] a → talks (f a) ins outs b → talks (m ≫= f) ins outs b.
Proof. by apply talks_step. Qed.

Lemma talks_hear m f ins1 ins2 outs a b :
  talks m ins1 [] a → talks (f a) ins2 outs b → talks (m ≫= f) (ins1 ++ ins2) outs b.
Proof. by apply talks_step. Qed.

Lemma talks_say m f ins outs1 outs2 a b :
  talks m [] outs1 a → talks (f a) ins outs2 b → talks (m ≫= f) ins (outs1 ++ outs2) b.
Proof. by apply talks_step. Qed.

(** The rest is silent. *)
Lemma talks_last m f ins outs a b :
  talks m ins outs a → talks (f a) [] [] b → talks (m ≫= f) ins outs b.
Proof. apply talks_step; by rewrite app_nil_r. Qed.

Lemma talks_err_bind m f ins1 ins2 outs1 outs2 a e :
  talks m ins1 outs1 a → talks_err (f a) ins2 outs2 e →
  talks_err (m ≫= f) (ins1 ++ ins2) (outs1 ++ outs2) e.
Proof.
  intros Hm Hf t rest. rewrite <-app_assoc. intros Ha Hr.
  destruct (Hm _ _ Ha Hr) as (t1 & Ht1 & Ha1 & He1 & Hr1).
  destruct (Hf _ _ Ha1 Hr1) as (t2 & Ht2 & Ha2 & He2).
  exists t2. split; [by rewrite (bind_ok _ _ _ _ _ Ht1)|]. eauto using emits_app.
Qed.

Lemma talks_err_here m f ins outs e : talks_err m ins outs e → talks_err (m ≫= f) ins outs e.
Proof.
  intros Hm t rest Ha Hr. destruct (Hm _ _ Ha Hr) as (t' & Ht & Hrest).
  exists t'. split; [by apply bind_err|done].
Qed.

Lemma talks_err_lift (x : result A E) e : x = Err e → talks_err (lift x) [] [] e.
Proof. intros -> t rest Ha Hr. exists t. eauto using emits_nil. Qed.

Lemma talks_with_err {E'} (g : E → E') m ins outs a :
  talks m ins outs a → talks (with_err g m) ins outs a.
Proof.
  intros Hm t rest Ha Hr. destruct (Hm _ _ Ha Hr) as (t' & Ht & Hrest).
  exists t'. split; [unfold with_err; by rewrite Ht|done].
Qed.

(** A codec that only reads, and one that only writes. *)
Lemma talks_reads m ins a :
  (∀ w0, @reads (duplex R W) _ (duplex_read_laws w0) E A m ins a) → talks m ins [] a.
Proof.
  intros Hm t rest Ha Hr. destruct (Hm (outgoing t) t rest) as (t' & Ht & Ha' & Hw); [done|].
  exists t'. rewrite Hw. eauto using emits_nil.
Qed.

Lemma talks_writes m outs a : writes m outs a → talks m [] outs a.
Proof.
  intros Hm t rest Ha Hr. destruct (Hm t Hr) as (t' & Ht & [He Hi] & Hr').
  exists t'. rewrite Hi. eauto.
Qed.
End talks.

(** The bytes a writer produces. *)
Definition bytes_of {E A} (m : M (list Z) E A) : list Z := (m []).2.

Lemma bytes_of_writes {E A} (m : M (list Z) E A) bs a : writes m bs a → bytes_of m = bs.
Proof. intros Hm. unfold bytes_of. by rewrite (writes_vec _ _ _ [] Hm). Qed.

Lemma coupled_reads {R} `{ReadLaws R} {E E' A} (w : M (list Z) E unit) (r : M R E' A) a :
  coupled w r a → reads r (bytes_of w) a.
Proof. intros (bs & Hw & Hr). by rewrite (bytes_of_writes _ _ _ Hw). Qed.
