(* ===== verification/WireIo.v ===== *)
(** * Scalar codecs and versions of the wire protocol: crates/rsync-protocol/src/io.rs and version.rs

    Little-endian integers, rsync's varint and varlong, the delta-coded file
    indexes of protocol 30 and later, counted byte strings and vstrings; then the
    negotiation of a protocol version, and the properties of them all. *)

From S2P Require Import Prelude Stream.

(** ** Little-endian integers *)

(** [to_le_bytes] and [from_le_bytes] of an [n]-byte integer. *)
Fixpoint le_encode (n : nat) (z : Z) : list Z :=
  match n with
  | O => []
  | S n => z mod 256 :: le_encode n (z / 256)
  end.

Fixpoint le_decode (bs : list Z) : Z :=
  match bs with
  | [] => 0
  | b :: bs => b + 256 * le_decode bs
  end.

Definition RSYNC_INDEX_DONE : Z := -1.
Definition RSYNC_INDEX_FLIST_EOF : Z := -2.
Definition RSYNC_INDEX_FLIST_OFFSET : Z := -101.

Record RsyncIndexState := {
  prev_positive : Z;
  prev_negative : Z;
}.

Definition RsyncIndexState_default : RsyncIndexState :=
  {| prev_positive := -1; prev_negative := 1 |}.

Definition invalid_data (msg : string) : io_error := IoError InvalidData msg.
Definition invalid_input (msg : string) : io_error := IoError InvalidInput msg.

Section io.
Context {R : Type} `{Read R} {W : Type} `{Write W}.

Definition read_u8 : M R io_error Z :=
  buf ← read_exact 1; mret (hd 0 buf).

Definition write_u8 (value : Z) : M W io_error unit := write_all [value].

Definition read_u16_le : M R io_error Z :=
  buf ← read_exact 2; mret (le_decode buf).

Definition write_u16_le (value : Z) : M W io_error unit :=
  write_all (le_encode 2 value).

Definition read_i32_le : M R io_error Z :=
  buf ← read_exact 4; mret (as_i32 (le_decode buf)).

Definition write_i32_le (value : Z) : M W io_error unit :=
  write_all (le_encode 4 value).

Definition read_u32_le : M R io_error Z :=
  buf ← read_exact 4; mret (le_decode buf).

Definition write_u32_le (value : Z) : M W io_error unit :=
  write_all (le_encode 4 value).

Definition read_i64_le : M R io_error Z :=
  buf ← read_exact 8; mret (as_i64 (le_decode buf)).

Definition write_i64_le (value : Z) : M W io_error unit :=
  write_all (le_encode 8 value).

(** *** varint and varlong *)

Definition varint_extra_bytes (first : Z) : nat :=
  if first <=? 0x7f then 0
  else if first <=? 0xbf then 1
  else if first <=? 0xdf then 2
  else if first <=? 0xef then 3
  else if first <=? 0xf7 then 4
  else if first <=? 0xfb then 5
  else 6.

Definition read_varint : M R io_error Z :=
  first ← read_u8;
  let extra := varint_extra_bytes first in
  if (4 <? extra)%nat then throw (invalid_data "rsync varint exceeds u32 width")
  else
    bytes ← (if (extra =? 0)%nat
             then mret (<[0%nat := first]> (replicate 5 0))
             else tail ← read_exact extra;
                  let bit := Z.shiftl 1 (8 - Z.of_nat extra) in
                  mret (<[extra := Z.land first (bit - 1)]>
                          (tail ++ replicate (5 - extra) 0)));
    mret (le_decode (take 4 bytes)).

(** [while count > min && bytes[count] == 0 { count -= 1 }] *)
Fixpoint trim_count (bytes : list Z) (min count : nat) : nat :=
  if (min <? count)%nat && (nth count bytes 0 =? 0) then
    match count with
    | O => O
    | S count => trim_count bytes min count
    end
  else count.

(** The prefix byte and final count chosen by the two writers: [count] is the
    trimmed count and [bit] the first value byte that does not fit beside
    the length marker. *)
Definition varnum_prefix (bytes : list Z) (min count : nat) (bit : Z) : Z * nat :=
  if bit <=? nth count bytes 0 then (not_u8 (bit - 1), S count)
  else if (min <? count)%nat
       then (Z.lor (nth count bytes 0) (not_u8 (bit * 2 - 1)), count)
       else (nth count bytes 0, count).

Definition write_varint (value : Z) : M W io_error unit :=
  if i32_max <? value
  then throw (invalid_input "rsync varint value exceeds non-negative i32 range")
  else
    let bytes := 0 :: le_encode 4 value in
    let count := trim_count bytes 1 4 in
    let bit := Z.shiftl 1 (7 - Z.of_nat count + 1) in
    let '(b0, count) := varnum_prefix bytes 1 count bit in
    write_all (take count (<[0%nat := b0]> bytes)).

Definition read_varlong (min_bytes : nat) : M R io_error Z :=
  if negb ((1 <=? min_bytes)%nat && (min_bytes <=? 8)%nat)
  then throw (invalid_input "rsync varlong min_bytes must be in 1..=8")
  else
    prefix ← read_exact min_bytes;
    let extra := varint_extra_bytes (hd 0 prefix) in
    if (8 <? min_bytes + extra)%nat
    then throw (invalid_data "rsync varlong exceeds u64 width")
    else
      bytes ← (if (extra =? 0)%nat
               then mret (tl prefix ++ hd 0 prefix :: replicate (8 - min_bytes) 0)
               else tail ← read_exact extra;
                    let bit := Z.shiftl 1 (8 - Z.of_nat extra) in
                    mret (<[(min_bytes + extra - 1)%nat :=
                             Z.land (hd 0 prefix) (bit - 1)]>
                      (tl prefix ++ tail ++
                       replicate (8 - (min_bytes - 1 + extra)) 0)));
      mret (le_decode bytes).

(** The shift [7 - count + min_bytes] is a usize: at a count of 8 its first step underflows,
    which panics with overflow checks, and without them wraps back to the value here. *)
Definition write_varlong (value : Z) (min_bytes : nat) : M W io_error unit :=
  if negb ((1 <=? min_bytes)%nat && (min_bytes <=? 8)%nat)
  then throw (invalid_input "rsync varlong min_bytes must be in 1..=8")
  else
    let bytes := 0 :: le_encode 8 value in
    let count := trim_count bytes min_bytes 8 in
    let bit := Z.shiftl 1 (7 - Z.of_nat count + Z.of_nat min_bytes) in
    let '(b0, count) := varnum_prefix bytes min_bytes count bit in
    write_all (take count (<[0%nat := b0]> bytes)).

(** *** Delta-coded file indexes *)

(** The part of the reader after the sign is known: decode one number. *)
Definition read_index_number (prev byte : Z) : M R io_error Z :=
  if byte =? 0xfe then
    high_or_diff ← read_u8;
    low_or_absolute ← read_u8;
    if negb (Z.land high_or_diff 0x80 =? 0) then
      mid ← read_exact 2;
      mret (as_i32 (le_decode
        (low_or_absolute :: mid ++ [Z.land high_or_diff (not_u8 0x80)])))
    else
      lift (ok_or (checked_i32 (prev + (Z.shiftl high_or_diff 8 + low_or_absolute)))
              (invalid_data "rsync index delta overflow"))
  else
    lift (ok_or (checked_i32 (prev + byte)) (invalid_data "rsync index delta overflow")).

Definition read_rsync_index : M (RsyncIndexState * R) io_error Z :=
  byte ← on_snd read_u8;
  if byte =? 0 then mret RSYNC_INDEX_DONE
  else
    '(negative, byte) ← (if byte =? 0xff
                         then byte ← on_snd read_u8; mret (true, byte)
                         else mret (false, byte));
    state ← on_fst get;
    let prev := if negative : bool then prev_negative state else prev_positive state in
    number ← on_snd (read_index_number prev byte);
    on_fst (put (if negative
                 then {| prev_positive := prev_positive state; prev_negative := number |}
                 else {| prev_positive := number; prev_negative := prev_negative state |}));;
    if negative
    then lift (ok_or (checked_i32 (- number))
                 (invalid_data "rsync negative index overflow"))
    else mret number.

(** The bytes of an index once its state is updated: the sign marker, then the
    delta in one byte, or [0xfe] and the number or the delta. *)
Definition write_index_number (number diff : Z) : M W io_error unit :=
  if (diff <? 0xfe) && (0 <? diff) then write_u8 (as_u8 diff)
  else if negb ((0 <=? diff) && (diff <=? 0x7fff)) then
    let bytes := le_encode 4 number in
    write_u8 0xfe;;
    write_u8 (Z.lor (nth 3 bytes 0) 0x80);;
    write_u8 (nth 0 bytes 0);;
    write_u8 (nth 1 bytes 0);;
    write_u8 (nth 2 bytes 0)
  else
    write_u8 0xfe;;
    write_u8 (as_u8 (Z.shiftr diff 8));;
    write_u8 (as_u8 diff).

Definition write_index_bytes (number diff : Z) (negative : bool) : M W io_error unit :=
  (if negative then write_u8 0xff else mret ());;
  write_index_number number diff.

Definition write_rsync_index (index : Z) : M (RsyncIndexState * W) io_error unit :=
  if 0 <=? index then
    state ← on_fst get;
    diff ← lift (ok_or (checked_i32 (index - prev_positive state))
                   (invalid_input "rsync index underflow"));
    on_fst (put {| prev_positive := index; prev_negative := prev_negative state |});;
    on_snd (write_index_bytes index diff false)
  else if index =? RSYNC_INDEX_DONE then on_snd (write_u8 0)
  else
    number ← lift (ok_or (checked_i32 (- index)) (invalid_input "rsync index overflow"));
    state ← on_fst get;
    diff ← lift (ok_or (checked_i32 (number - prev_negative state))
                   (invalid_input "rsync index underflow"));
    on_fst (put {| prev_positive := prev_positive state; prev_negative := number |});;
    on_snd (write_index_bytes number diff true).

(** *** Counted byte strings *)

Definition read_bytes_with_u32_len (max_len : Z) : M R io_error (list Z) :=
  len ← read_u32_le;
  if max_len <? len
  then throw (invalid_data "wire byte string length {len} exceeds limit {max_len}")
  else read_exact (Z.to_nat len).

Definition write_bytes_with_u32_len (bytes : list Z) : M W io_error unit :=
  if u32_max <? Z.of_nat (length bytes)
  then throw (invalid_input "wire byte string is too large for a u32 length")
  else write_u32_le (Z.of_nat (length bytes));; write_all bytes.

Definition read_vstring (max_len : Z) : M R io_error (list Z) :=
  first ← read_u8;
  len ← (if negb (Z.land first 0x80 =? 0)
         then low ← read_u8; mret (Z.land first (Z.lnot 0x80) * 0x100 + low)
         else mret first);
  if max_len <? len
  then throw (invalid_data "rsync vstring length {len} exceeds limit {max_len}")
  else read_exact (Z.to_nat len).

Definition write_vstring (bytes : list Z) : M W io_error unit :=
  let len := Z.of_nat (length bytes) in
  if 0x7fff <? len then throw (invalid_input "rsync vstring is too large")
  else
    (if 0x80 <=? len then write_u8 (Z.lor (as_u8 (len / 0x100)) 0x80) else mret ());;
    write_u8 (Z.land len 0xff);;
    write_all bytes.
End io.

(** ** Little-endian facts *)

Lemma length_le_encode n z : length (le_encode n z) = n.
Proof. revert z. induction n; simpl; auto. Qed.

Lemma le_decode_encode n z : le_decode (le_encode n z) = z mod 256 ^ Z.of_nat n.
Proof.
  revert z. induction n as [|n IH]; intros z.
  - cbn. by rewrite Z.mod_1_r.
  - cbn [le_encode le_decode]. rewrite IH.
    rewrite Nat2Z.inj_succ, Z.pow_succ_r by lia.
    rewrite Z.rem_mul_r by lia. lia.
Qed.

Lemma le_encode_bytes n z : Forall in_u8 (le_encode n z).
Proof.
  revert z. induction n as [|n IH]; intros z; simpl; constructor; [|apply IH].
  unfold in_u8. pose proof (Z.mod_pos_bound z 256). lia.
Qed.

Lemma le_encode_nth n z i : in_u8 (nth i (le_encode n z) 0).
Proof.
  destruct (nth_in_or_default i (le_encode n z) 0) as [Hin| ->];
    [|unfold in_u8; lia].
  pose proof (le_encode_bytes n z) as Hb. rewrite List.Forall_forall in Hb.
  by apply Hb.
Qed.

Lemma le_decode_encode_id n z :
  0 ≤ z < 256 ^ Z.of_nat n → le_decode (le_encode n z) = z.
Proof. intros Hz. by rewrite le_decode_encode, Z.mod_small. Qed.

Lemma nth_le_encode n z i :
  (i < n)%nat → nth i (le_encode n z) 0 = z / 256 ^ Z.of_nat i mod 256.
Proof.
  revert z i. induction n as [|n IH]; intros z [|i] Hi; try lia; cbn [le_encode nth].
  - by rewrite Z.div_1_r.
  - rewrite IH by lia. rewrite Nat2Z.inj_succ, Z.pow_succ_r by lia.
    by rewrite Z.div_div by lia.
Qed.

(** [b & !0x80] on a byte clears the top bit. *)
Lemma mask_top_bit b : 0 ≤ b < 128 → Z.land (Z.lor b 0x80) (not_u8 0x80) = b.
Proof.
  intros Hb. apply Z.eqb_eq. by_range b 128%nat.
Qed.

Lemma top_bit_set b : 0 ≤ b < 128 → (Z.land (Z.lor b 0x80) 0x80 =? 0) = false.
Proof.
  intros Hb. apply negb_true_iff. by_range b 128%nat.
Qed.

Lemma top_bit_clear b : 0 ≤ b < 128 → (Z.land b 0x80 =? 0) = true.
Proof. intros Hb. by_range b 128%nat. Qed.

(** ** Trimming and prefix bytes of varint and varlong *)

Lemma trim_count_spec bytes min count :
  (min ≤ count)%nat →
  let c := trim_count bytes min count in
  (min ≤ c ≤ count)%nat ∧
  (∀ i, (c < i ≤ count)%nat → nth i bytes 0 = 0) ∧
  (c = min ∨ nth c bytes 0 ≠ 0).
Proof.
  induction count as [|count IH]; intros Hle; cbn [trim_count].
  - assert (min = 0)%nat as -> by lia. rewrite andb_false_l.
    split_and!; [lia..|intros; lia|by left].
  - destruct (Nat.ltb_spec min (S count)) as [Hlt|Hge]; simpl andb.
    + destruct (Z.eqb_spec (nth (S count) bytes 0) 0) as [E|E].
      * destruct (IH ltac:(lia)) as (H1 & H2 & H3). split_and!; [lia..| |done].
        intros i Hi. destruct (decide (i = S count)) as [->|]; [done|].
        apply H2. lia.
      * split_and!; [lia..|intros; lia|by right].
    + split_and!; [lia..|intros; lia|left; lia].
Qed.

(** The prefix byte announces how many bytes follow the minimum and keeps the
    top value byte in its free low bits. *)
Definition prefix_good (b0 top : Z) (e : nat) : bool :=
  (varint_extra_bytes b0 =? e)%nat &&
  (if (e =? 0)%nat then b0 =? top
   else Z.land b0 (Z.shiftl 1 (8 - Z.of_nat e) - 1) =? top).

Lemma varnum_prefix_spec bytes min c b0 c' :
  (min ≤ c)%nat →
  in_u8 (nth c bytes 0) →
  (∀ i, (c < i)%nat → nth i bytes 0 = 0) →
  varnum_prefix bytes min c (Z.shiftl 1 (7 - Z.of_nat c + Z.of_nat min)) = (b0, c') →
  (c' - min ≤ 6)%nat →
  (c ≤ c' ≤ S c)%nat ∧ prefix_good b0 (nth c' bytes 0) (c' - min) = true.
Proof.
  intros Hmin Hu8 Hz. remember (c - min)%nat as e eqn:He.
  replace (7 - Z.of_nat c + Z.of_nat min) with (7 - Z.of_nat e) by lia.
  unfold varnum_prefix. remember (nth c bytes 0) as top eqn:Htop.
  unfold in_u8 in Hu8.
  destruct (Z.leb_spec (Z.shiftl 1 (7 - Z.of_nat e)) top) as [Hbit|Hbit].
  - intros ? Hc'; simplify_eq. split; [lia|]. rewrite (Hz (S c)) by lia.
    replace (S c - min)%nat with (S (c - min)) in * by lia.
    assert (c - min ≤ 5)%nat as Hc5 by lia.
    destruct (c - min)%nat as [|[|[|[|[|[|]]]]]]; try lia; by vm_compute.
  - destruct (Nat.ltb_spec min c); intros ? Hc'; simplify_eq;
      (split; [lia|]); remember (nth c' bytes 0) as top eqn:Htop in Hu8, Hbit |- *;
      clear Htop Hz.
    + assert (1 ≤ c' - min)%nat by lia. revert Hbit Hc'.
      destruct (c' - min)%nat as [|[|[|[|[|[|[|]]]]]]]; intros Hbit Hc'; try lia;
        eval_bound Hbit.
      * by_range top 64%nat.
      * by_range top 32%nat.
      * by_range top 16%nat.
      * by_range top 8%nat.
      * by_range top 4%nat.
      * by_range top 2%nat.
    + assert (c' = min) as -> by lia. rewrite Nat.sub_diag in *. eval_bound Hbit.
      by_range top 128%nat.
Qed.

Lemma insert_replicate_zeros k n (bs : list Z) :
  (k ≤ length bs)%nat → (k < n)%nat → (length bs ≤ n)%nat →
  (∀ i, (k < i)%nat → nth i bs 0 = 0) →
  take (length bs) (<[k := nth k bs 0]> (take k bs ++ replicate (n - k) 0)) = bs.
Proof.
  revert n bs. induction k as [|k IH]; intros n bs Hk Hn Hlen Hz.
  - destruct n as [|n]; [lia|]. destruct bs as [|b bs]; [done|]. cbn. f_equal.
    simpl in Hlen. rewrite take_replicate, Nat.min_l by lia.
    assert (Hz' : ∀ i, nth i bs 0 = 0) by (intros i; apply (Hz (S i)); lia).
    clear -Hz'. induction bs as [|b bs IH]; [done|]. cbn. f_equal.
    + symmetry. apply (Hz' 0%nat).
    + apply IH. intros i. apply (Hz' (S i)).
  - destruct bs as [|b bs]; [simpl in Hk; lia|]. destruct n as [|n]; [lia|].
    cbn. f_equal. simpl in *. apply IH; [lia..|].
    intros i Hi. apply (Hz (S i)). lia.
Qed.

(** ** Scalars: what is written and read *)

Section scalars.
Context {R : Type} `{ReadLaws R} {W : Type} `{WriteLaws W}.

Lemma reads_u8 b : reads (R:=R) read_u8 [b] b.
Proof.
  apply (reads_bind _ _ [b] []  [b]); [by apply reads_exact | apply reads_ret].
Qed.

Lemma writes_u8 b : writes (W:=W) (write_u8 b) [b] ().
Proof. apply writes_all. Qed.

Lemma reads_le n (g : list Z → Z) bs :
  length bs = n →
  reads (R:=R) (buf ← read_exact n; mret (g buf)) bs (g bs).
Proof.
  intros Hlen. rewrite <-(app_nil_r bs) at 1.
  eapply reads_bind; [by apply reads_exact | apply reads_ret].
Qed.

Lemma coupled_le n (g : list Z → Z) z z' :
  g (le_encode n z) = z' →
  coupled (W:=W) (R:=R) (write_all (le_encode n z))
    (buf ← read_exact n; mret (g buf)) z'.
Proof.
  intros <-. exists (le_encode n z).
  split; [apply writes_all | apply reads_le, length_le_encode].
Qed.

Lemma coupled_u8 b : coupled (W:=W) (R:=R) (write_u8 b) read_u8 b.
Proof. exists [b]. split; [apply writes_u8 | apply reads_u8]. Qed.

Lemma coupled_u16_le z :
  0 ≤ z < 2 ^ 16 → coupled (W:=W) (R:=R) (write_u16_le z) read_u16_le z.
Proof. intros. by apply coupled_le, le_decode_encode_id. Qed.

Lemma coupled_u32_le z :
  in_u32 z → coupled (W:=W) (R:=R) (write_u32_le z) read_u32_le z.
Proof. intros. by apply coupled_le, le_decode_encode_id. Qed.

Lemma coupled_i32_le z :
  coupled (W:=W) (R:=R) (write_i32_le z) read_i32_le (as_i32 z).
Proof. apply coupled_le. rewrite le_decode_encode. apply as_i32_mod. Qed.

Lemma coupled_i64_le z :
  coupled (W:=W) (R:=R) (write_i64_le z) read_i64_le (as_i64 z).
Proof. apply coupled_le. rewrite le_decode_encode. apply as_i64_mod. Qed.
End scalars.

(** ** varint and varlong *)

Lemma take_insert_head (bs : list Z) b0 b c :
  (0 < c)%nat → take c (<[0%nat := b0]> (b :: bs)) = b0 :: take (c - 1) bs.
Proof. intros Hc. destruct c; [lia|]. cbn. by rewrite Nat.sub_0_r. Qed.

(** The common part of the two writers: the trimmed buffer of an [n]-byte value
    and the count after the prefix byte is chosen. *)
Lemma varnum_layout n z min b0 c' :
  (1 ≤ min ≤ n)%nat →
  let bytes := 0 :: le_encode n z in
  let c := trim_count bytes min n in
  varnum_prefix bytes min c (Z.shiftl 1 (7 - Z.of_nat c + Z.of_nat min)) = (b0, c') →
  (c' - min ≤ 6)%nat →
  (min ≤ c' ≤ S n)%nat ∧
  prefix_good b0 (nth c' bytes 0) (c' - min) = true ∧
  (∀ i, (c' < i)%nat → nth i bytes 0 = 0).
Proof.
  intros Hmin bytes c Hpre Hc'.
  destruct (trim_count_spec bytes min n) as (Hc & Hz & _); [lia|].
  fold c in Hc, Hz.
  assert (Hz' : ∀ i, (c < i)%nat → nth i bytes 0 = 0).
  { intros i Hi. destruct (Nat.le_gt_cases i n) as [Hin|Hin]; [apply Hz; lia|].
    apply nth_overflow. unfold bytes. cbn [length]. rewrite length_le_encode. lia. }
  destruct (varnum_prefix_spec bytes min c b0 c') as [H1 H2]; try done; [lia| |].
  - unfold bytes. destruct c; [unfold in_u8; cbn; lia|]. apply le_encode_nth.
  - split_and!; [lia..|done|]. intros i Hi. apply Hz'. lia.
Qed.

Lemma prefix_good_inv b0 top e :
  prefix_good b0 top e = true →
  varint_extra_bytes b0 = e ∧
  (e = 0%nat → b0 = top) ∧
  (e ≠ 0%nat → Z.land b0 (Z.shiftl 1 (8 - Z.of_nat e) - 1) = top).
Proof.
  unfold prefix_good. rewrite andb_true_iff, Nat.eqb_eq. intros [H1 H2].
  split; [done|]. destruct (Nat.eqb_spec e 0); split; intros; try done;
    by apply Z.eqb_eq.
Qed.

Section varnum.
Context {R : Type} `{ReadLaws R} {W : Type} `{WriteLaws W}.

Lemma reads_varint_bytes b0 bs c' :
  (1 ≤ c' ≤ 5)%nat → length bs = 4%nat →
  prefix_good b0 (nth (c' - 1) bs 0) (c' - 1) = true →
  (∀ i, (c' - 1 < i)%nat → nth i bs 0 = 0) →
  reads (R:=R) read_varint (b0 :: take (c' - 1) bs) (le_decode bs).
Proof.
  intros Hc Hlen (He & He0 & He1)%prefix_good_inv Hz.
  pose proof (insert_replicate_zeros (c' - 1) 5 bs
                ltac:(lia) ltac:(lia) ltac:(lia) Hz) as Hrebuild.
  rewrite Hlen in Hrebuild. rewrite <-Hrebuild at 2.
  eapply reads_split with (bs1 := [b0]); [done|apply reads_u8|]. cbv zeta.
  rewrite He. destruct (Nat.ltb_spec 4 (c' - 1)); [lia|].
  eapply reads_last; [|apply reads_ret]. clear Hrebuild.
  destruct (Nat.eqb_spec (c' - 1) 0) as [E|E].
  - rewrite E in *. rewrite (He0 eq_refl). apply reads_ret.
  - rewrite <-(He1 E). eapply reads_last; [|apply reads_ret].
    apply reads_exact. rewrite length_take. lia.
Qed.

Lemma reads_varlong_bytes min b0 bs c' :
  (1 ≤ min ≤ c')%nat → (c' ≤ 8)%nat → length bs = 8%nat →
  prefix_good b0 (nth (c' - 1) bs 0) (c' - min) = true →
  (∀ i, (c' - 1 < i)%nat → nth i bs 0 = 0) →
  reads (R:=R) (read_varlong min) (b0 :: take (c' - 1) bs) (le_decode bs).
Proof.
  intros Hmin Hc Hlen (He & He0 & He1)%prefix_good_inv Hz.
  pose proof (insert_replicate_zeros (c' - 1) 8 bs
                ltac:(lia) ltac:(lia) ltac:(lia) Hz) as Hrebuild.
  rewrite Hlen in Hrebuild. rewrite take_ge in Hrebuild
    by (rewrite length_insert, length_app, length_take, length_replicate; lia).
  assert (take (c' - 1) bs = take (min - 1) bs ++ take (c' - min) (drop (min - 1) bs))
    as Hsplit by (rewrite take_take_drop; f_equal; lia).
  unfold read_varlong.
  destruct (Nat.leb_spec 1 min), (Nat.leb_spec min 8); try lia. cbn [negb andb].
  rewrite <-Hrebuild at 2.
  eapply reads_split with (bs1 := b0 :: take (min - 1) bs);
    [by rewrite Hsplit|apply reads_exact; simpl; rewrite length_take; lia|].
  cbv zeta. cbn [hd tl]. rewrite He.
  destruct (Nat.ltb_spec 8 (min + (c' - min))); [lia|].
  eapply reads_last; [|apply reads_ret]. clear Hrebuild.
  destruct (Nat.eqb_spec (c' - min) 0) as [E|E].
  - assert (c' = min) as -> by lia. rewrite E. cbn [take].
    rewrite <-(He0 E), insert_app_r_alt by (rewrite length_take; lia).
    rewrite length_take, Nat.min_l, Nat.sub_diag by lia.
    replace (8 - (min - 1))%nat with (S (8 - min)) by lia. apply reads_ret.
  - rewrite <-(He1 E), Hsplit, <-app_assoc.
    replace (min + (c' - min) - 1)%nat with (c' - 1)%nat by lia.
    replace (min - 1 + (c' - min))%nat with (c' - 1)%nat by lia.
    eapply reads_last; [|apply reads_ret].
    apply reads_exact. rewrite length_take, length_drop. lia.
Qed.

(** The count after the prefix byte only leaves the buffer when the top byte
    of the value leaves no room for the length marker. *)
Lemma varlong_prefix_count z min b0 c' :
  (1 ≤ min ≤ 8)%nat → 0 ≤ z < 2 ^ 64 →
  let bytes := 0 :: le_encode 8 z in
  let c := trim_count bytes min 8 in
  varnum_prefix bytes min c (Z.shiftl 1 (7 - Z.of_nat c + Z.of_nat min)) = (b0, c') →
  if 2 ^ (55 + Z.of_nat min) <=? z
  then c' = 9%nat ∧ b0 = not_u8 (2 ^ (Z.of_nat min - 1) - 1)
  else (c' ≤ 8)%nat.
Proof.
  intros Hmin Hz bytes c. destruct (trim_count_spec bytes min 8) as (Hc & _ & Hne); [lia|].
  fold c in Hc, Hne.
  assert (Htop : nth 8 bytes 0 = z / 2 ^ 56).
  { cbn [nth bytes]. rewrite nth_le_encode by lia. apply Z.mod_small.
    change (256 ^ Z.of_nat 7) with (2 ^ 56).
    split; [apply Z.div_pos; lia|apply Z.div_lt_upper_bound; lia]. }
  assert (Hpow : 2 ^ (55 + Z.of_nat min) = 2 ^ 56 * 2 ^ (Z.of_nat min - 1))
    by (rewrite <-Z.pow_add_r by lia; f_equal; lia).
  assert (Hpos : 0 < 2 ^ (Z.of_nat min - 1)) by (apply Z.pow_pos_nonneg; lia).
  unfold varnum_prefix. rewrite Z.shiftl_1_l.
  destruct (Z.leb_spec (2 ^ (55 + Z.of_nat min)) z) as [Hbig|Hsmall].
  - assert (Htopge : 2 ^ (Z.of_nat min - 1) ≤ nth 8 bytes 0)
      by (rewrite Htop; apply Z.div_le_lower_bound; lia).
    assert (c = 8%nat) as ->.
    { unfold c. cbn [trim_count]. destruct (Z.eqb_spec (nth 8 bytes 0) 0); [lia|].
      by rewrite andb_false_r. }
    replace (7 - Z.of_nat 8 + Z.of_nat min) with (Z.of_nat min - 1) by lia.
    destruct (Z.leb_spec (2 ^ (Z.of_nat min - 1)) (nth 8 bytes 0)); [|lia].
    intros; by simplify_eq.
  - case_match eqn:Hle; [|destruct (min <? c)%nat; intros; simplify_eq; lia].
    intros; simplify_eq. apply Z.leb_le in Hle.
    destruct (decide (c = 8%nat)) as [E|]; [|lia]. rewrite E, Htop in Hle.
    replace (7 - Z.of_nat 8 + Z.of_nat min) with (Z.of_nat min - 1) in Hle by lia.
    assert (z / 2 ^ 56 < 2 ^ (Z.of_nat min - 1)) by (apply Z.div_lt_upper_bound; lia).
    lia.
Qed.

Lemma write_varnum_layout n z min b0 c' :
  (1 ≤ min ≤ n)%nat →
  let bytes := 0 :: le_encode n z in
  let c := trim_count bytes min n in
  varnum_prefix bytes min c (Z.shiftl 1 (7 - Z.of_nat c + Z.of_nat min)) = (b0, c') →
  (c' - min ≤ 6)%nat →
  (min ≤ c' ≤ S n)%nat ∧
  prefix_good b0 (nth (c' - 1) (le_encode n z) 0) (c' - min) = true ∧
  (∀ i, (c' - 1 < i)%nat → nth i (le_encode n z) 0 = 0).
Proof.
  intros Hmin bytes c Hpre Hc'.
  destruct (varnum_layout n z min b0 c' Hmin Hpre Hc') as (H1' & H2' & H3').
  split; [done|]. destruct c' as [|c']; [lia|]. cbn [nth] in H2'.
  replace (S c' - 1)%nat with c' by lia. split; [done|].
  intros i Hi. apply (H3' (S i)). lia.
Qed.

Lemma coupled_varint z :
  0 ≤ z ≤ i32_max → coupled (W:=W) (R:=R) (write_varint z) read_varint z.
Proof.
  intros Hz. unfold write_varint. destruct (Z.ltb_spec i32_max z); [lia|]. cbv zeta.
  replace (7 - Z.of_nat (trim_count (0 :: le_encode 4 z) 1 4) + 1)
    with (7 - Z.of_nat (trim_count (0 :: le_encode 4 z) 1 4) + Z.of_nat 1) by lia.
  destruct (varnum_prefix _ _ _ _) as [b0 c'] eqn:Hpre.
  destruct (trim_count_spec (0 :: le_encode 4 z) 1 4) as ([_ Hc4] & _); [lia|].
  assert (c' ≤ 5)%nat.
  { revert Hpre. unfold varnum_prefix. repeat case_match; intros; simplify_eq; lia. }
  destruct (write_varnum_layout 4 z 1 b0 c' ltac:(lia) Hpre ltac:(lia))
    as (H1' & H2' & H3').
  exists (b0 :: take (c' - 1) (le_encode 4 z)). split.
  - rewrite take_insert_head by lia. apply writes_all.
  - rewrite <-(le_decode_encode_id 4 z) at 2 by (unfold i32_max in *; lia).
    apply reads_varint_bytes; [lia|apply length_le_encode|done..].
Qed.

Lemma writes_varlong z min b0 c' :
  (1 ≤ min ≤ 8)%nat →
  let bytes := 0 :: le_encode 8 z in
  let c := trim_count bytes min 8 in
  varnum_prefix bytes min c (Z.shiftl 1 (7 - Z.of_nat c + Z.of_nat min)) = (b0, c') →
  (1 ≤ c')%nat →
  writes (W:=W) (write_varlong z min) (b0 :: take (c' - 1) (le_encode 8 z)) ().
Proof.
  intros Hmin bytes c Hpre Hc'. unfold write_varlong.
  destruct (Nat.leb_spec 1 min), (Nat.leb_spec min 8); try lia. cbn [negb andb].
  cbv zeta. fold bytes. fold c. rewrite Hpre.
  unfold bytes. rewrite take_insert_head by lia. apply writes_all.
Qed.

Lemma coupled_varlong z min :
  (2 ≤ min ≤ 8)%nat → 0 ≤ z < 2 ^ (55 + Z.of_nat min) →
  coupled (W:=W) (R:=R) (write_varlong z min) (read_varlong min) z.
Proof.
  intros Hmin Hz. assert (0 ≤ z < 2 ^ 64).
  { split; [lia|]. eapply Z.lt_le_trans; [apply Hz|]. apply Z.pow_le_mono_r; lia. }
  destruct (varnum_prefix (0 :: le_encode 8 z) min
    (trim_count (0 :: le_encode 8 z) min 8)
    (Z.shiftl 1 (7 - Z.of_nat (trim_count (0 :: le_encode 8 z) min 8) + Z.of_nat min)))
    as [b0 c'] eqn:Hpre.
  pose proof (varlong_prefix_count z min b0 c' ltac:(lia) ltac:(lia) Hpre) as Hc'.
  destruct (Z.leb_spec (2 ^ (55 + Z.of_nat min)) z); [lia|].
  destruct (write_varnum_layout 8 z min b0 c' ltac:(lia) Hpre ltac:(lia))
    as (H1' & H2' & H3').
  eexists. split; [apply (writes_varlong z min b0 c'); [lia|done|lia]|].
  rewrite <-(le_decode_encode_id 8 z) at 2 by lia.
  apply reads_varlong_bytes; [lia..|apply length_le_encode|done|done].
Qed.

(** Values past the bound are written and cannot be read back. *)
Lemma varlong_too_wide z min :
  (3 ≤ min ≤ 8)%nat → 2 ^ (55 + Z.of_nat min) ≤ z < 2 ^ 64 →
  ∃ bs, writes (W:=W) (write_varlong z min) bs () ∧
    reads_err (R:=R) (read_varlong min) bs
      (invalid_data "rsync varlong exceeds u64 width").
Proof.
  intros Hmin Hz.
  assert (0 < 2 ^ (55 + Z.of_nat min)) by (apply Z.pow_pos_nonneg; lia).
  destruct (varnum_prefix (0 :: le_encode 8 z) min
    (trim_count (0 :: le_encode 8 z) min 8)
    (Z.shiftl 1 (7 - Z.of_nat (trim_count (0 :: le_encode 8 z) min 8) + Z.of_nat min)))
    as [b0 c'] eqn:Hpre.
  pose proof (varlong_prefix_count z min b0 c' ltac:(lia) ltac:(lia) Hpre) as Hc'.
  destruct (Z.leb_spec (2 ^ (55 + Z.of_nat min)) z); [|lia].
  destruct Hc' as [-> Hb0].
  eexists. split; [apply (writes_varlong z min b0 9); [lia|done|lia]|].
  rewrite (take_ge (le_encode 8 z)) by (rewrite length_le_encode; lia).
  rewrite <-(take_drop (min - 1) (le_encode 8 z)), app_comm_cons.
  unfold read_varlong.
  destruct (Nat.leb_spec 1 min), (Nat.leb_spec min 8); try lia. cbn [negb andb].
  eapply reads_err_bind.
  { apply reads_exact. cbn [length]. rewrite length_take, length_le_encode. lia. }
  cbv zeta. cbn [hd].
  assert (8 < min + varint_extra_bytes b0)%nat as Hwide.
  { subst b0. clear -Hmin.
    destruct min as [|[|[|[|[|[|[|[|[|]]]]]]]]]; try lia; vm_compute; lia. }
  destruct (Nat.ltb_spec 8 (min + varint_extra_bytes b0)); [|lia].
  intros r rest _. by exists r.
Qed.
End varnum.

(** ** Counted strings *)

Section counted.
Context {R : Type} `{ReadLaws R} {W : Type} `{WriteLaws W}.

Lemma coupled_bytes_with_u32_len bytes max_len :
  Z.of_nat (length bytes) ≤ max_len → Z.of_nat (length bytes) ≤ u32_max →
  coupled (W:=W) (R:=R) (write_bytes_with_u32_len bytes)
    (read_bytes_with_u32_len max_len) bytes.
Proof.
  intros Hmax Hu32. unfold write_bytes_with_u32_len, read_bytes_with_u32_len.
  destruct (Z.ltb_spec u32_max (Z.of_nat (length bytes))); [lia|].
  eapply coupled_bind.
  { apply coupled_u32_le. unfold in_u32, u32_max in *. lia. }
  cbv beta. destruct (Z.ltb_spec max_len (Z.of_nat (length bytes))); [lia|].
  exists bytes. split; [apply writes_all|apply reads_exact; lia].
Qed.

(** An announced length above the limit is refused before any allocation. *)
Lemma counted_length_limit len max_len :
  in_u32 len → max_len < len →
  reads_err (R:=R) (read_bytes_with_u32_len max_len) (le_encode 4 len)
    (invalid_data "wire byte string length {len} exceeds limit {max_len}").
Proof.
  intros Hlen Hmax. rewrite <-(app_nil_r (le_encode 4 len)).
  eapply reads_err_bind.
  { apply (reads_le 4 le_decode), length_le_encode. }
  rewrite le_decode_encode_id by (unfold in_u32 in *; lia). cbv beta.
  destruct (Z.ltb_spec max_len len); [apply reads_err_throw|lia].
Qed.

Lemma vstring_len_bytes n :
  0x80 ≤ n ≤ 0x7fff →
  Z.lor (as_u8 (n / 0x100)) 0x80 = n / 0x100 + 0x80.
Proof.
  intros Hn. assert (0 ≤ n / 256 < 128)
    by (split; [apply Z.div_pos; lia|apply Z.div_lt_upper_bound; lia]).
  unfold as_u8. rewrite Z.mod_small by lia.
  remember (n / 0x100) as q eqn:E. clear E. apply Z.eqb_eq. by_range q 128%nat.
Qed.

Lemma vstring_high_byte q :
  0 ≤ q < 128 →
  (Z.land (q + 0x80) 0x80 =? 0) = false ∧
  Z.land (q + 0x80) (Z.lnot 0x80) = q.
Proof.
  intros Hq. split; [apply negb_true_iff|apply Z.eqb_eq]; by_range q 128%nat.
Qed.

(** What a vstring looks like on the wire: one or two bytes of length. *)
Definition vstring_bytes (bytes : list Z) : list Z :=
  let n := Z.of_nat (length bytes) in
  (if 0x80 <=? n then [n / 0x100 + 0x80] else []) ++ [n mod 256] ++ bytes.

Lemma writes_vstring bytes :
  Z.of_nat (length bytes) ≤ 0x7fff →
  writes (W:=W) (write_vstring bytes) (vstring_bytes bytes) ().
Proof.
  intros Hlen. unfold write_vstring, vstring_bytes. cbv zeta.
  destruct (Z.ltb_spec 0x7fff (Z.of_nat (length bytes))); [lia|].
  change 0xff with (Z.ones 8). rewrite Z.land_ones by lia.
  eapply writes_bind; [|eapply writes_bind; [apply writes_u8|apply writes_all]].
  destruct (Z.leb_spec 0x80 (Z.of_nat (length bytes))); [|apply writes_ret].
  rewrite vstring_len_bytes by lia. apply writes_u8.
Qed.

Lemma reads_vstring bytes max_len :
  Z.of_nat (length bytes) ≤ max_len → Z.of_nat (length bytes) ≤ 0x7fff →
  reads (R:=R) (read_vstring max_len) (vstring_bytes bytes) bytes.
Proof.
  intros Hmax Hlen. unfold vstring_bytes. cbv zeta.
  remember (Z.of_nat (length bytes)) as n eqn:Hn.
  assert (Htail : ∀ len, len = n →
    reads (R:=R) (if max_len <? len
      then throw (invalid_data "rsync vstring length {len} exceeds limit {max_len}")
      else read_exact (Z.to_nat len)) bytes bytes).
  { intros ? ->. destruct (Z.ltb_spec max_len n); [lia|]. apply reads_exact. lia. }
  destruct (Z.leb_spec 0x80 n).
  - assert (0 ≤ n / 256 < 128)
      by (split; [apply Z.div_pos; lia|apply Z.div_lt_upper_bound; lia]).
    destruct (vstring_high_byte (n / 256)) as [Hbit Hmask]; [done|].
    eapply reads_bind; [apply reads_u8|]. rewrite Hbit. cbn [negb].
    eapply reads_bind; [|apply Htail].
    { eapply reads_last; [apply reads_u8|apply reads_ret]. }
    rewrite Hmask. pose proof (Z.div_mod n 256). lia.
  - cbn [app]. rewrite Z.mod_small by lia.
    eapply (reads_bind _ _ [n] bytes); [apply reads_u8|].
    rewrite top_bit_clear by lia. cbn [negb].
    eapply reads_bind_nil; [apply reads_ret|]. by apply Htail.
Qed.

Lemma coupled_vstring bytes max_len :
  Z.of_nat (length bytes) ≤ max_len → Z.of_nat (length bytes) ≤ 0x7fff →
  coupled (W:=W) (R:=R) (write_vstring bytes) (read_vstring max_len) bytes.
Proof.
  intros Hmax Hlen. exists (vstring_bytes bytes).
  split; [by apply writes_vstring|by apply reads_vstring].
Qed.
End counted.

(** ** Delta-coded indexes *)

(** The invariant of the coder state: both previous values come from indexes
    already sent (or their initial values). *)
Definition index_state_ok (s : RsyncIndexState) : Prop :=
  -1 ≤ prev_positive s ≤ i32_max ∧ 1 ≤ prev_negative s ≤ i32_max.

(** What the writer accepts in state [s]: the delta and, for a negative index,
    its negation must fit an [i32]. *)
Definition index_ok (s : RsyncIndexState) (index : Z) : Prop :=
  in_i32 index ∧ (0 ≤ index → index - prev_positive s ≤ i32_max) ∧ index ≠ - 2 ^ 31.

Definition index_next (s : RsyncIndexState) (index : Z) : RsyncIndexState :=
  if 0 <=? index
  then {| prev_positive := index; prev_negative := prev_negative s |}
  else if index =? RSYNC_INDEX_DONE then s
  else {| prev_positive := prev_positive s; prev_negative := - index |}.

Lemma checked_i32_some z : in_i32 z → checked_i32 z = Some z.
Proof.
  unfold in_i32, checked_i32. intros Hz.
  destruct (Z.leb_spec (- 2 ^ 31) z), (Z.ltb_spec z (2 ^ 31)); try lia. done.
Qed.

Lemma index_next_ok s index :
  index_state_ok s → index_ok s index → index_state_ok (index_next s index).
Proof.
  unfold index_state_ok, index_ok, index_next, in_i32, i32_max, RSYNC_INDEX_DONE.
  intros Hs Hi. destruct (Z.leb_spec 0 index), (Z.eqb_spec index (-1));
    cbn [prev_positive prev_negative]; lia.
Qed.

Section rsync_index.
Context {R : Type} `{ReadLaws R} {W : Type} `{WriteLaws W}.

Lemma index_number_short prev diff :
  1 ≤ diff ≤ 0xfd → in_i32 (prev + diff) →
  reads (R:=R) (read_index_number prev diff) [] (prev + diff).
Proof.
  intros Hd Hi. unfold read_index_number. destruct (Z.eqb_spec diff 0xfe); [lia|].
  apply reads_lift. by rewrite checked_i32_some.
Qed.

Lemma index_number_delta prev diff :
  0 ≤ diff ≤ 0x7fff → in_i32 (prev + diff) →
  reads (R:=R) (read_index_number prev 0xfe) [diff / 256; diff mod 256] (prev + diff).
Proof.
  intros Hd Hi. assert (0 ≤ diff / 256 < 128)
    by (split; [apply Z.div_pos; lia|apply Z.div_lt_upper_bound; lia]).
  unfold read_index_number. cbn [Z.eqb].
  apply (reads_bind _ _ [_] [diff mod 256] (diff / 256)); [apply reads_u8|].
  apply (reads_bind _ _ [_] [] (diff mod 256)); [apply reads_u8|].
  rewrite top_bit_clear by done. cbn [negb].
  apply reads_lift. rewrite Z.shiftl_mul_pow2 by lia.
  replace (diff / 256 * 2 ^ 8 + diff mod 256) with diff
    by (pose proof (Z.div_mod diff 256); lia).
  by rewrite checked_i32_some.
Qed.

Lemma index_number_absolute prev number :
  0 ≤ number ≤ i32_max →
  let bytes := le_encode 4 number in
  reads (R:=R) (read_index_number prev 0xfe)
    [Z.lor (nth 3 bytes 0) 0x80; nth 0 bytes 0; nth 1 bytes 0; nth 2 bytes 0] number.
Proof.
  intros Hn bytes. unfold i32_max in Hn.
  assert (Hb3 : 0 ≤ nth 3 bytes 0 < 128).
  { unfold bytes. rewrite nth_le_encode by lia.
    change (256 ^ Z.of_nat 3) with 16777216.
    assert (0 ≤ number / 16777216 < 128)
      by (split; [apply Z.div_pos; lia|apply Z.div_lt_upper_bound; lia]).
    rewrite Z.mod_small; lia. }
  unfold read_index_number. cbn [Z.eqb].
  eapply (reads_bind _ _ [_]); [apply reads_u8|].
  eapply (reads_bind _ _ [_]); [apply reads_u8|].
  rewrite top_bit_set by done. cbn [negb].
  eapply (reads_bind _ _ [_; _] []); [by apply reads_exact|].
  cbn [app]. rewrite mask_top_bit by done.
  change [nth 0 bytes 0; nth 1 bytes 0; nth 2 bytes 0; nth 3 bytes 0] with bytes.
  unfold bytes. rewrite le_decode_encode_id by lia.
  rewrite as_i32_id by (unfold in_i32; lia). apply reads_ret.
Qed.

Lemma index_delta_coupled prev diff :
  0 ≤ diff ≤ 0x7fff → in_i32 (prev + diff) →
  ∃ first bs, (first ≠ 0 ∧ first ≠ 0xff) ∧
    writes (W:=W) (write_u8 0xfe;; write_u8 (as_u8 (Z.shiftr diff 8));;
                   write_u8 (as_u8 diff)) (first :: bs) () ∧
    reads (R:=R) (read_index_number prev first) bs (prev + diff).
Proof.
  intros Hd Hi. exists 0xfe, [diff / 256; diff mod 256]. split; [lia|].
  rewrite Z.shiftr_div_pow2 by lia. unfold as_u8.
  assert (0 ≤ diff / 2 ^ 8 < 128)
    by (split; [apply Z.div_pos; lia|apply Z.div_lt_upper_bound; lia]).
  rewrite (Z.mod_small (diff / _)) by lia.
  split; [|by apply index_number_delta].
  repeat (eapply (writes_bind _ _ [_]); [apply writes_u8|]). apply writes_u8.
Qed.

Lemma index_absolute_coupled prev number :
  0 ≤ number ≤ i32_max →
  let bytes := le_encode 4 number in
  ∃ first bs, (first ≠ 0 ∧ first ≠ 0xff) ∧
    writes (W:=W) (write_u8 0xfe;; write_u8 (Z.lor (nth 3 bytes 0) 0x80);;
                   write_u8 (nth 0 bytes 0);; write_u8 (nth 1 bytes 0);;
                   write_u8 (nth 2 bytes 0)) (first :: bs) () ∧
    reads (R:=R) (read_index_number prev first) bs number.
Proof.
  intros Hn bytes. eexists 0xfe, _. split; [lia|].
  split; [|by apply index_number_absolute].
  repeat (eapply (writes_bind _ _ [_]); [apply writes_u8|]). apply writes_u8.
Qed.

Lemma index_number_coupled prev number :
  0 ≤ number ≤ i32_max → in_i32 (number - prev) →
  ∃ first bs, (first ≠ 0 ∧ first ≠ 0xff) ∧
    writes (W:=W) (write_index_number number (number - prev)) (first :: bs) () ∧
    reads (R:=R) (read_index_number prev first) bs number.
Proof.
  intros Hn Hd. remember (number - prev) as diff eqn:Ediff.
  assert (Hi : in_i32 (prev + diff)) by (unfold in_i32, i32_max in *; lia).
  assert (number = prev + diff) by lia. clear Ediff. subst number.
  unfold write_index_number.
  destruct (Z.ltb_spec diff 0xfe), (Z.ltb_spec 0 diff); cbn [andb].
  1: { exists diff, []. split; [lia|]. rewrite as_u8_id by (unfold in_u8; lia).
       split; [apply writes_u8|apply index_number_short; [lia|done]]. }
  all: destruct (Z.leb_spec 0 diff) as [H0d|H0d], (Z.leb_spec diff 0x7fff) as [H7|H7];
    cbn [andb negb]; try lia.
  (* the remaining cases are a short delta or an absolute number *)
  all: lazymatch type of H0d with
    | 0 <= _ => lazymatch type of H7 with
      | _ <= _ => by apply index_delta_coupled
      | _ => by apply index_absolute_coupled
      end
    | _ => by apply index_absolute_coupled
    end.
Qed.

Lemma reads_index_positive s first bs number :
  first ≠ 0 → first ≠ 0xff → 0 ≤ number →
  reads (read_index_number (prev_positive s) first) bs number →
  reads_st (R:=R) read_rsync_index s (first :: bs) number (index_next s number).
Proof.
  intros Hf0 Hff Hpos Hr. unfold read_rsync_index.
  apply (reads_st_bind _ _ s s _ [first] bs first); [apply reads_st_on_snd, reads_u8|].
  destruct (Z.eqb_spec first 0); [done|]. destruct (Z.eqb_spec first 0xff); [done|].
  eapply reads_st_pure; [done|]. eapply reads_st_get. cbv zeta.
  rewrite <-(app_nil_r bs). eapply reads_st_bind; [by apply reads_st_on_snd|].
  eapply reads_st_put. unfold index_next.
  destruct (Z.leb_spec 0 number); [|lia]. apply reads_st_ret.
Qed.

Lemma reads_index_negative s first bs number :
  first ≠ 0 → 2 ≤ number ≤ i32_max →
  reads (read_index_number (prev_negative s) first) bs number →
  reads_st (R:=R) read_rsync_index s (0xff :: first :: bs) (- number)
    (index_next s (- number)).
Proof.
  intros Hf0 Hn Hr. unfold read_rsync_index.
  apply (reads_st_bind _ _ s s _ [0xff] (first :: bs) 0xff);
    [apply reads_st_on_snd, reads_u8|]. cbn [Z.eqb].
  apply (reads_st_bind _ _ s s _ [first] bs (true, first)).
  { rewrite <-(app_nil_r [first]).
    eapply reads_st_bind; [apply reads_st_on_snd, reads_u8|apply reads_st_ret]. }
  eapply reads_st_get. cbv zeta.
  rewrite <-(app_nil_r bs). eapply reads_st_bind; [by apply reads_st_on_snd|].
  eapply reads_st_put. unfold index_next, RSYNC_INDEX_DONE.
  destruct (Z.leb_spec 0 (- number)); [lia|].
  destruct (Z.eqb_spec (- number) (-1)); [lia|]. rewrite Z.opp_involutive.
  apply reads_st_lift. rewrite checked_i32_some; [done|].
  unfold in_i32, i32_max in *. lia.
Qed.

(** One index, from equal states to equal states. *)
Lemma coupled_index s index :
  index_state_ok s → index_ok s index →
  coupled_st (W:=W) (R:=R) (write_rsync_index index) read_rsync_index s index
    (index_next s index).
Proof.
  intros Hs Hi. unfold index_state_ok, index_ok, in_i32 in *.
  unfold write_rsync_index. destruct (Z.leb_spec 0 index) as [Hpos|Hneg].
  - destruct (index_number_coupled (prev_positive s) index)
      as (first & bs & [Hf0 Hff] & Hw & Hr); [unfold i32_max; lia| |].
    { unfold in_i32, i32_max in *. lia. }
    exists (first :: bs). split; [|by apply reads_index_positive].
    eapply writes_st_get, writes_st_lift.
    { rewrite checked_i32_some; [done|]. unfold in_i32, i32_max in *. lia. }
    eapply writes_st_put. unfold index_next.
    destruct (Z.leb_spec 0 index); [|lia]. apply writes_st_on_snd.
    by apply (writes_bind _ _ [] _ ()); [apply writes_ret|].
  - destruct (Z.eqb_spec index RSYNC_INDEX_DONE) as [->|Hdone].
    { exists [0]. split; [apply writes_st_on_snd, writes_u8|].
      apply (reads_st_bind _ _ s s _ [0] [] 0); [apply reads_st_on_snd, reads_u8|].
      apply reads_st_ret. }
    unfold RSYNC_INDEX_DONE in Hdone.
    destruct (index_number_coupled (prev_negative s) (- index))
      as (first & bs & [Hf0 Hff] & Hw & Hr); [unfold i32_max; lia| |].
    { unfold in_i32, i32_max in *. lia. }
    exists (0xff :: first :: bs). split.
    + eapply writes_st_lift.
      { rewrite checked_i32_some; [done|]. unfold in_i32. lia. }
      eapply writes_st_get, writes_st_lift.
      { rewrite checked_i32_some; [done|]. unfold in_i32, i32_max in *. lia. }
      eapply writes_st_put. unfold index_next, RSYNC_INDEX_DONE.
      destruct (Z.leb_spec 0 index); [lia|]. destruct (Z.eqb_spec index (-1)); [lia|].
      apply writes_st_on_snd. by apply (writes_bind _ _ [0xff] _ ()); [apply writes_u8|].
    + replace index with (- - index) by lia.
      apply reads_index_negative; [done|unfold i32_max; lia|done].
Qed.

(** A stream of indexes, each accepted in the state the earlier ones leave. *)
Fixpoint indexes_ok (s : RsyncIndexState) (indexes : list Z) : Prop :=
  match indexes with
  | [] => True
  | i :: indexes => index_ok s i ∧ indexes_ok (index_next s i) indexes
  end.

(** Reading [n] indexes in a row. *)
Fixpoint read_indexes (n : nat) : M (RsyncIndexState * R) io_error (list Z) :=
  match n with
  | O => mret []
  | S n => i ← read_rsync_index; later ← read_indexes n; mret (i :: later)
  end.

Lemma coupled_indexes s indexes :
  index_state_ok s → indexes_ok s indexes →
  ∃ s', coupled_st (W:=W) (R:=R) (for_each write_rsync_index indexes)
          (read_indexes (length indexes)) s indexes s'.
Proof.
  revert s. induction indexes as [|i indexes IH]; intros s Hs Hok.
  - exists s, []. split; [apply writes_st_ret|apply reads_st_ret].
  - destruct Hok as [Hi Hok].
    destruct (coupled_index s i Hs Hi) as (bs1 & Hw1 & Hr1).
    destruct (IH (index_next s i)) as (s' & bs2 & Hw2 & Hr2);
      [by apply index_next_ok|done|].
    exists s', (bs1 ++ bs2). split; [by eapply writes_st_bind|].
    eapply reads_st_bind; [done|]. rewrite <-(app_nil_r bs2).
    eapply reads_st_bind; [done|]. apply reads_st_ret.
Qed.
End rsync_index.

Definition MIN_PROTOCOL_VERSION : Z := 20.
Definition MAX_PROTOCOL_VERSION : Z := 32.

Record ProtocolVersion := { version_value : Z }.

Inductive VersionError :=
| InvalidPeer (peer : Z)
| UnsupportedOld (peer minimum : Z)
| InvalidSelected (version : Z).

#[export] Instance ProtocolVersion_eq_dec : EqDecision ProtocolVersion.
Proof. solve_decision. Defined.
#[export] Instance VersionError_eq_dec : EqDecision VersionError.
Proof. solve_decision. Defined.

(** [ProtocolVersion::selected] *)
Definition selected (value : Z) : result ProtocolVersion VersionError :=
  if negb ((MIN_PROTOCOL_VERSION <=? value) && (value <=? MAX_PROTOCOL_VERSION))
  then Err (InvalidSelected value)
  else Ok {| version_value := value |}.

Definition negotiate_protocol_version_with_local (peer_version local_max : Z) :
    result ProtocolVersion VersionError :=
  if peer_version =? 0 then Err (InvalidPeer peer_version)
  else if peer_version <? MIN_PROTOCOL_VERSION
  then Err (UnsupportedOld peer_version MIN_PROTOCOL_VERSION)
  else if local_max <? MIN_PROTOCOL_VERSION then Err (InvalidSelected local_max)
  else selected (Z.min (Z.min peer_version local_max) MAX_PROTOCOL_VERSION).

Definition negotiate_protocol_version (peer_version : Z) :
    result ProtocolVersion VersionError :=
  negotiate_protocol_version_with_local peer_version MAX_PROTOCOL_VERSION.

Definition read_peer_version {R} `{Read R} : M R io_error Z := read_u32_le.

Definition write_local_version_with {W} `{Write W} (version : Z) : M W io_error unit :=
  write_u32_le version.

Definition write_local_version {W} `{Write W} : M W io_error unit :=
  write_local_version_with MAX_PROTOCOL_VERSION.

(** [selected] cannot fail in [negotiate_protocol_version_with_local]: what is
    negotiated is the smaller of the two versions, capped by the maximum. *)
Lemma negotiate_spec peer local_max :
  negotiate_protocol_version_with_local peer local_max =
  (if peer =? 0 then Err (InvalidPeer 0)
   else if peer <? 20 then Err (UnsupportedOld peer 20)
   else if local_max <? 20 then Err (InvalidSelected local_max)
   else Ok {| version_value := Z.min (Z.min peer local_max) 32 |}).
Proof.
  unfold negotiate_protocol_version_with_local, selected,
    MIN_PROTOCOL_VERSION, MAX_PROTOCOL_VERSION.
  destruct (Z.eqb_spec peer 0) as [->|]; [done|].
  destruct (Z.ltb_spec peer 20); [done|]. destruct (Z.ltb_spec local_max 20); [done|].
  by replace (negb _) with false by lia.
Qed.

(** Two peers that start from their own maxima agree. *)
Lemma negotiate_symmetric a b :
  20 ≤ a → 20 ≤ b →
  negotiate_protocol_version_with_local a b = negotiate_protocol_version_with_local b a.
Proof.
  intros Ha Hb. rewrite !negotiate_spec.
  replace (a =? 0) with false by lia. replace (b =? 0) with false by lia.
  replace (a <? 20) with false by lia. replace (b <? 20) with false by lia.
  by rewrite (Z.min_comm a b).
Qed.

(** Variable-length integers round-trip: every non-negative [i32]
    through [write_varint] and [read_varint], and every value below
    [2 ^ (55 + min_bytes)] through [write_varlong] and [read_varlong] with the
    same [min_bytes]; in both cases the reader consumes exactly what the writer
    sent. *)
Theorem variable_length_round_trip {R} `{ReadLaws R} {W} `{WriteLaws W} :
  (∀ v, 0 ≤ v ≤ i32_max → coupled (W:=W) (R:=R) (write_varint v) read_varint v) ∧
  (∀ v min, (2 ≤ min ≤ 8)%nat → 0 ≤ v < 2 ^ (55 + Z.of_nat min) →
     coupled (W:=W) (R:=R) (write_varlong v min) (read_varlong min) v).
Proof. split; [apply coupled_varint|apply coupled_varlong]. Qed.

(** [write_varlong] accepts values that [read_varlong] refuses: from
    [2 ^ (55 + min_bytes)] on (for [min_bytes] of three or more) the writer
    sends bytes on which the reader fails. *)
Theorem varlong_writer_exceeds_reader {R} `{ReadLaws R} {W} `{WriteLaws W} v min :
  (3 ≤ min ≤ 8)%nat → 2 ^ (55 + Z.of_nat min) ≤ v < 2 ^ 64 →
  ∃ bs, writes (W:=W) (write_varlong v min) bs () ∧
    reads_err (R:=R) (read_varlong min) bs (invalid_data "rsync varlong exceeds u64 width").
Proof. apply varlong_too_wide. Qed.

Lemma varlong_writer_exceeds_reader_witness :
  ∃ bs, writes (W:=list Z) (write_varlong (2 ^ 58) 3) bs () ∧
    reads_err (R:=list Z) (read_varlong 3) bs
      (invalid_data "rsync varlong exceeds u64 width").
Proof. apply (varlong_writer_exceeds_reader (2 ^ 58) 3); lia. Defined.

(** A stream of file-list indexes, delta-coded against the previous
    positive and the previous negative one, round-trips: reader and writer that
    start in the same state read and write the same indexes and end in the same
    state. *)
Theorem index_stream_round_trip {R} `{ReadLaws R} {W} `{WriteLaws W} s indexes :
  index_state_ok s → indexes_ok s indexes →
  ∃ s', coupled_st (W:=W) (R:=R) (for_each write_rsync_index indexes)
          (read_indexes (length indexes)) s indexes s'.
Proof. apply coupled_indexes. Qed.

Lemma index_stream_round_trip_witness :
  ∃ s', coupled_st (W:=list Z) (R:=list Z) (for_each write_rsync_index [0; 300; -1; -101; 2])
          (read_indexes 5) {| prev_positive := -1; prev_negative := 1 |}
          [0; 300; -1; -101; 2] s'.
Proof.
  apply (index_stream_round_trip {| prev_positive := -1; prev_negative := 1 |}
    [0; 300; -1; -101; 2]).
  - vm_compute. repeat split; congruence.
  - cbn. unfold index_ok, in_i32. repeat split; cbn; try lia; vm_compute; congruence.
Defined.

(** Counted byte strings and rsync strings round-trip within their
    limits, and a counted string announced as longer than the limit is refused
    on its length alone, before anything is read or allocated for it. *)
Theorem strings_round_trip {R} `{ReadLaws R} {W} `{WriteLaws W} bytes max_len :
  Z.of_nat (length bytes) ≤ max_len →
  (Z.of_nat (length bytes) ≤ u32_max →
    coupled (W:=W) (R:=R) (write_bytes_with_u32_len bytes)
      (read_bytes_with_u32_len max_len) bytes) ∧
  (Z.of_nat (length bytes) ≤ 0x7fff →
    coupled (W:=W) (R:=R) (write_vstring bytes) (read_vstring max_len) bytes) ∧
  (∀ len, in_u32 len → max_len < len →
    reads_err (R:=R) (read_bytes_with_u32_len max_len) (le_encode 4 len)
      (invalid_data "wire byte string length {len} exceeds limit {max_len}")).
Proof.
  intros Hmax. split_and!.
  - by apply coupled_bytes_with_u32_len.
  - by apply coupled_vstring.
  - intros len. apply counted_length_limit.
Qed.

Lemma strings_round_trip_witness :
  (Z.of_nat 3 ≤ u32_max →
    coupled (W:=list Z) (R:=list Z) (write_bytes_with_u32_len [1; 2; 3])
      (read_bytes_with_u32_len 10) [1; 2; 3]) ∧
  (Z.of_nat 3 ≤ 0x7fff →
    coupled (W:=list Z) (R:=list Z) (write_vstring [1; 2; 3]) (read_vstring 10) [1; 2; 3]) ∧
  (∀ len, in_u32 len → 10 < len →
    reads_err (R:=list Z) (read_bytes_with_u32_len 10) (le_encode 4 len)
      (invalid_data "wire byte string length {len} exceeds limit {max_len}")).
Proof. apply (strings_round_trip [1; 2; 3] 10). cbn. lia. Defined.

(** Version negotiation selects the smallest of the peer's version,
    the local maximum and 32, refuses 0, a peer below 20 and a local maximum
    below 20 with their own errors and in this order, and two peers that each
    negotiate with the other's version agree. *)
Theorem negotiation_spec peer local_max :
  negotiate_protocol_version_with_local peer local_max =
    (if peer =? 0 then Err (InvalidPeer 0)
     else if peer <? 20 then Err (UnsupportedOld peer 20)
     else if local_max <? 20 then Err (InvalidSelected local_max)
     else Ok {| version_value := Z.min (Z.min peer local_max) 32 |}) ∧
  (20 ≤ peer → 20 ≤ local_max →
     negotiate_protocol_version_with_local peer local_max =
     negotiate_protocol_version_with_local local_max peer).
Proof. split; [apply negotiate_spec|apply negotiate_symmetric]. Qed.
