(* ===== verification/Str.v ===== *)
(** * Rust strings

    A [str] is its UTF-8 bytes, as in Rust.  This file has the decoder behind
    [from_utf8] and [chars], the encoder behind [char::encode_utf8], their round
    trips, and the [str] methods the program uses with ASCII patterns (an ASCII
    byte never occurs inside a longer UTF-8 sequence, so these work on bytes). *)

From S2P Require Import Prelude.

Definition str := list Z.

(** A string literal of the source. *)
Fixpoint lit (s : string) : str :=
  match s with
  | EmptyString => []
  | String a s => Z.of_nat (Ascii.nat_of_ascii a) :: lit s
  end.

Definition ch (a : ascii) : Z := Z.of_nat (Ascii.nat_of_ascii a).
Arguments ch a%_char.

(** ** UTF-8 *)

(** Unicode scalar values: [char]. *)
Definition is_scalar (c : Z) : bool :=
  (0 <=? c) && (c <? 0xD800) || (0xDFFF <? c) && (c <? 0x110000).

Definition encode_utf8 (c : Z) : str :=
  if c <? 0x80 then [c]
  else if c <? 0x800 then [0xC0 + c / 64; 0x80 + c mod 64]
  else if c <? 0x10000 then [0xE0 + c / 4096; 0x80 + c / 64 mod 64; 0x80 + c mod 64]
  else [0xF0 + c / 262144; 0x80 + c / 4096 mod 64; 0x80 + c / 64 mod 64; 0x80 + c mod 64].

Definition is_cont (b : Z) : bool := (0x80 <=? b) && (b <? 0xC0).

(** The decoder: [None] where [str::from_utf8] reports an error. *)
Fixpoint decode_utf8 (bytes : list Z) : option (list Z) :=
  match bytes with
  | [] => Some []
  | b0 :: r0 =>
      if (0 <=? b0) && (b0 <? 0x80) then cons b0 <$> decode_utf8 r0
      else match r0 with
      | [] => None
      | b1 :: r1 =>
          if negb (is_cont b1) then None
          else if (0xC2 <=? b0) && (b0 <? 0xE0)
          then cons ((b0 - 0xC0) * 64 + (b1 - 0x80)) <$> decode_utf8 r1
          else match r1 with
          | [] => None
          | b2 :: r2 =>
              let c := (b0 - 0xE0) * 4096 + (b1 - 0x80) * 64 + (b2 - 0x80) in
              if negb (is_cont b2) then None
              else if (0xE0 <=? b0) && (b0 <? 0xF0)
              then if (0x800 <=? c) && is_scalar c then cons c <$> decode_utf8 r2 else None
              else match r2 with
              | [] => None
              | b3 :: r3 =>
                  let c := (b0 - 0xF0) * 262144 + (b1 - 0x80) * 4096 +
                           (b2 - 0x80) * 64 + (b3 - 0x80) in
                  if is_cont b3 && (0xF0 <=? b0) && (b0 <? 0xF5) &&
                     (0x10000 <=? c) && is_scalar c
                  then cons c <$> decode_utf8 r3 else None
              end
          end
      end
  end.

Definition valid_utf8 (bytes : list Z) : bool :=
  match decode_utf8 bytes with Some _ => true | None => false end.

(** [String::from_utf8] and [str::from_utf8]. *)
Definition from_utf8 (bytes : list Z) : option str :=
  if valid_utf8 bytes then Some bytes else None.

Definition chars (s : str) : list Z := default [] (decode_utf8 s).

(** [chars.collect::<String>()] *)
Definition encode_chars (cs : list Z) : str := concat (encode_utf8 <$> cs).

Lemma encode_chars_app s t : encode_chars (s ++ t) = encode_chars s ++ encode_chars t.
Proof. unfold encode_chars. by rewrite fmap_app, concat_app. Qed.

Ltac divmod := Z.to_euclidean_division_equations; lia.

Lemma decode_encode_char c rest :
  is_scalar c = true → decode_utf8 (encode_utf8 c ++ rest) = cons c <$> decode_utf8 rest.
Proof.
  intros Hc. assert (Hr : 0 ≤ c < 0xD800 ∨ 0xDFFF < c < 0x110000)
    by (unfold is_scalar in Hc; lia).
  unfold encode_utf8.
  destruct (Z.ltb_spec c 0x80); [|destruct (Z.ltb_spec c 0x800);
    [|destruct (Z.ltb_spec c 0x10000)]]; cbn [app decode_utf8]; unfold is_cont.
  - destruct (Z.leb_spec 0 c), (Z.ltb_spec c 0x80); try lia. done.
  - replace ((0 <=? 0xC0 + c / 64) && (0xC0 + c / 64 <? 0x80)) with false by divmod.
    replace (negb _) with false by divmod.
    replace ((0xC2 <=? 0xC0 + c / 64) && _) with true by divmod.
    do 2 f_equal. divmod.
  - replace ((0 <=? 0xE0 + c / 4096) && (0xE0 + c / 4096 <? 0x80)) with false by divmod.
    replace (negb ((128 <=? 0x80 + c / 64 mod 64) && _)) with false by divmod.
    replace ((0xC2 <=? 0xE0 + c / 4096) && _) with false by divmod.
    replace (negb _) with false by divmod.
    replace ((0xE0 <=? 0xE0 + c / 4096) && (_ <? 0xF0)) with true by divmod.
    replace ((0xE0 + c / 4096 - 0xE0) * 4096 + (0x80 + c / 64 mod 64 - 0x80) * 64 +
             (0x80 + c mod 64 - 0x80)) with c by divmod.
    rewrite Hc. by destruct (Z.leb_spec 0x800 c); [|lia].
  - replace ((0 <=? 0xF0 + c / 262144) && (0xF0 + c / 262144 <? 0x80)) with false by divmod.
    replace (negb ((128 <=? 0x80 + c / 4096 mod 64) && _)) with false by divmod.
    replace ((0xC2 <=? 0xF0 + c / 262144) && _) with false by divmod.
    replace (negb _) with false by divmod.
    replace ((0xE0 <=? 0xF0 + c / 262144) && (_ <? 0xF0)) with false by divmod.
    replace ((0xF0 + c / 262144 - 0xF0) * 262144 + (0x80 + c / 4096 mod 64 - 0x80) * 4096 +
             (0x80 + c / 64 mod 64 - 0x80) * 64 + (0x80 + c mod 64 - 0x80)) with c by divmod.
    rewrite Hc.
    replace (_ && (0xF0 <=? _) && _ && _ && true) with true by divmod. done.
Qed.

Lemma decode_encode_chars cs :
  forallb is_scalar cs = true → decode_utf8 (encode_chars cs) = Some cs.
Proof.
  unfold encode_chars. induction cs as [|c cs IH]; cbn; [done|].
  intros [Hc Hcs]%andb_prop. rewrite decode_encode_char by done. by rewrite IH.
Qed.

(** One decoded character is the encoding it came from. *)
Lemma decode_step bytes cs :
  decode_utf8 bytes = Some cs →
  bytes = [] ∧ cs = [] ∨
  ∃ c rest cs', bytes = encode_utf8 c ++ rest ∧ cs = c :: cs' ∧
    is_scalar c = true ∧ decode_utf8 rest = Some cs' ∧ (length rest < length bytes)%nat.
Proof.
  destruct bytes as [|b0 r0]; cbn [decode_utf8]; [left; by simplify_eq|right; revert H].
  destruct ((0 <=? b0) && (b0 <? 0x80)) eqn:H0.
  { intros (cs' & Hr & ->)%fmap_Some. exists b0, r0, cs'.
    unfold encode_utf8, is_scalar. split_and!; try done; [|lia|cbn; lia].
    by replace (b0 <? 0x80) with true by lia. }
  destruct r0 as [|b1 r1]; [done|].
  destruct (is_cont b1) eqn:H1; cbn [negb]; [|done].
  destruct ((0xC2 <=? b0) && (b0 <? 0xE0)) eqn:H2.
  { intros (cs' & Hr & ->)%fmap_Some. unfold is_cont in *.
    eexists _, r1, cs'. split; [|split_and!; [done|unfold is_scalar; lia|done|cbn; lia]].
    unfold encode_utf8. set (c := _ + (b1 - 128)).
    replace (c <? 0x80) with false by lia. replace (c <? 0x800) with true by lia.
    unfold c. cbn. repeat f_equal; divmod. }
  destruct r1 as [|b2 r2]; [done|].
  destruct (is_cont b2) eqn:H3; cbn [negb]; [|done].
  destruct ((0xE0 <=? b0) && (b0 <? 0xF0)) eqn:H4.
  { set (c := _ + (b2 - 128)). destruct ((0x800 <=? c) && is_scalar c) eqn:H5; [|done].
    intros (cs' & Hr & ->)%fmap_Some. unfold is_cont in *. apply andb_prop in H5 as [H5 H6].
    exists c, r2, cs'. split; [|split_and!; [done|done|done|cbn; lia]].
    unfold encode_utf8.
    replace (c <? 0x80) with false by lia. replace (c <? 0x800) with false by lia.
    replace (c <? 0x10000) with true by lia.
    unfold c. cbn. repeat f_equal; divmod. }
  destruct r2 as [|b3 r3]; [done|]. set (c := _ + (b3 - 128)).
  destruct (_ && is_scalar c) eqn:H5; [|done].
  intros (cs' & Hr & ->)%fmap_Some. unfold is_cont in *. apply andb_prop in H5 as [H5 H6].
  exists c, r3, cs'. split; [|split_and!; [done|done|done|cbn; lia]].
  unfold encode_utf8.
  replace (c <? 0x80) with false by lia. replace (c <? 0x800) with false by lia.
  replace (c <? 0x10000) with false by lia.
  unfold c. cbn. repeat f_equal; divmod.
Qed.

Lemma encode_decode_chars bytes cs :
  decode_utf8 bytes = Some cs → encode_chars cs = bytes ∧ forallb is_scalar cs = true.
Proof.
  revert cs. induction bytes as [bytes IH] using (induction_ltof1 _ length).
  intros cs [[-> ->]|(c & rest & cs' & -> & -> & Hc & Hr & Hlen)]%decode_step; [done|].
  destruct (IH rest Hlen cs' Hr) as [<- Hall]. cbn. by rewrite Hc, Hall.
Qed.

(** ** [str] methods *)

(** [s.contains(c)] for an ASCII character or a byte. *)
Definition contains (s : list Z) (b : Z) : bool := existsb (Z.eqb b) s.

Definition starts_with (s prefix : list Z) : bool :=
  bool_decide (take (length prefix) s = prefix).
Definition ends_with (s suffix : list Z) : bool :=
  (length suffix <=? length s)%nat &&
  bool_decide (drop (length s - length suffix) s = suffix).

(** [strip_prefix], [strip_suffix]. *)
Definition strip_prefix (s prefix : list Z) : option (list Z) :=
  if starts_with s prefix then Some (drop (length prefix) s) else None.
Definition strip_suffix (s suffix : list Z) : option (list Z) :=
  if ends_with s suffix then Some (take (length s - length suffix) s) else None.

(** [s.split(c)]: never empty. *)
Fixpoint split_on (b : Z) (s : list Z) : list (list Z) :=
  match s with
  | [] => [[]]
  | x :: s =>
      if x =? b then [] :: split_on b s
      else match split_on b s with
           | [] => [[x]]
           | c :: cs => (x :: c) :: cs
           end
  end.

(** [s.split_once(c)] *)
Fixpoint split_once (b : Z) (s : list Z) : option (list Z * list Z) :=
  match s with
  | [] => None
  | x :: s =>
      if x =? b then Some ([], s)
      else match split_once b s with
           | None => None
           | Some (l, r) => Some (x :: l, r)
           end
  end.

(** [s.trim_start_matches(c)], [s.trim_end_matches(c)] *)
Fixpoint trim_start_matches (b : Z) (s : list Z) : list Z :=
  match s with
  | x :: s' => if x =? b then trim_start_matches b s' else s
  | [] => []
  end.
Definition trim_end_matches (b : Z) (s : list Z) : list Z :=
  rev (trim_start_matches b (rev s)).

Definition to_ascii_uppercase (s : list Z) : list Z :=
  (λ b, if (97 <=? b) && (b <=? 122) then b - 32 else b) <$> s.
Definition to_ascii_lowercase (s : list Z) : list Z :=
  (λ b, if (65 <=? b) && (b <=? 90) then b + 32 else b) <$> s.

(** [s.replace(c, d)] for single characters. *)
Definition replace_char (c d : Z) (s : list Z) : list Z :=
  (λ b, if b =? c then d else b) <$> s.

(** [[..].join(sep)] *)
Fixpoint join (sep : list Z) (parts : list (list Z)) : list Z :=
  match parts with
  | [] => []
  | [p] => p
  | p :: parts => p ++ sep ++ join sep parts
  end.

(** [char::is_control]: the category Cc. *)
Definition is_control (c : Z) : bool :=
  (0 <=? c) && (c <? 0x20) || (0x7F <=? c) && (c <? 0xA0).

Lemma contains_spec s b : contains s b = true ↔ b ∈ s.
Proof.
  unfold contains. rewrite existsb_exists. split.
  - intros (x & Hx & ->%Z.eqb_eq). by apply list_elem_of_In.
  - intros Hb. exists b. split; [by apply list_elem_of_In|apply Z.eqb_refl].
Qed.

Lemma not_contains s b : contains s b = false ↔ b ∉ s.
Proof. rewrite <-contains_spec. by destruct (contains s b). Qed.

Lemma split_on_ne b s : split_on b s ≠ [].
Proof.
  destruct s as [|x s]; cbn; [done|]. destruct (x =? b); [done|].
  by destruct (split_on b s).
Qed.

(** Splitting and joining by the same character are inverse. *)
Lemma join_split_on b s : join [b] (split_on b s) = s.
Proof.
  induction s as [|x s IH]; [done|]. cbn [split_on].
  pose proof (split_on_ne b s) as Hne. destruct (Z.eqb_spec x b) as [->|Hx].
  - destruct (split_on b s) as [|c cs]; [done|].
    change (join [b] ([] :: c :: cs)) with ([] ++ [b] ++ join [b] (c :: cs)).
    by rewrite IH.
  - destruct (split_on b s) as [|c [|c' cs]]; [done| |]; rewrite <-IH; done.
Qed.

Lemma split_on_plain b s : b ∉ s → split_on b s = [s].
Proof.
  induction s as [|x s IH]; [done|]. rewrite not_elem_of_cons. intros [Hx Hs]. cbn.
  destruct (Z.eqb_spec x b) as [->|_]; [done|]. by rewrite IH.
Qed.

Lemma split_on_app b s t :
  b ∉ s → split_on b (s ++ b :: t) = s :: split_on b t.
Proof.
  induction s as [|x s IH]; cbn; [by rewrite Z.eqb_refl|].
  rewrite not_elem_of_cons. intros [Hx Hs].
  destruct (Z.eqb_spec x b) as [->|_]; [done|]. by rewrite IH.
Qed.

Lemma split_on_join b parts :
  parts ≠ [] → Forall (λ p, b ∉ p) parts → split_on b (join [b] parts) = parts.
Proof.
  induction parts as [|p [|q parts] IH]; [done| |].
  - intros _ [H _]%Forall_cons. by apply split_on_plain.
  - intros _ [H Hs]%Forall_cons.
    change (join [b] (p :: q :: parts)) with (p ++ b :: join [b] (q :: parts)).
    rewrite split_on_app by done. f_equal. by apply IH.
Qed.

Lemma replace_char_id c d s : c ∉ s → replace_char c d s = s.
Proof.
  intros Hc. unfold replace_char. rewrite <-(list_fmap_id s) at 2.
  apply list_fmap_ext. intros i x Hx. cbn.
  destruct (Z.eqb_spec x c) as [->|]; [|done].
  by apply list_elem_of_lookup_2 in Hx.
Qed.

(** ** [String::from_utf8_lossy]

    The length of the maximal prefix to keep or to replace, as in the standard
    library's [Utf8Chunks]. *)

Definition in_range (lo hi : Z) (b : Z) : bool := (lo <=? b) && (b <=? hi).

Definition second_ok (b0 b1 : Z) : bool :=
  (b0 =? 0xE0) && in_range 0xA0 0xBF b1 || in_range 0xE1 0xEC b0 && is_cont b1 ||
  (b0 =? 0xED) && in_range 0x80 0x9F b1 || in_range 0xEE 0xEF b0 && is_cont b1 ||
  (b0 =? 0xF0) && in_range 0x90 0xBF b1 || in_range 0xF1 0xF3 b0 && is_cont b1 ||
  (b0 =? 0xF4) && in_range 0x80 0x8F b1.

(** [(valid, n)]: the next [n] bytes are one character, or one error.  A
    position past the end reads as 0. *)
Definition utf8_chunk (b0 : Z) (rest : list Z) : bool * nat :=
  let at_ i := nth i rest 0 in
  if b0 <? 0x80 then (true, 1%nat)
  else if in_range 0xC2 0xDF b0
  then if is_cont (at_ 0%nat) then (true, 2%nat) else (false, 1%nat)
  else if in_range 0xE0 0xEF b0
  then if second_ok b0 (at_ 0%nat)
       then if is_cont (at_ 1%nat) then (true, 3%nat) else (false, 2%nat)
       else (false, 1%nat)
  else if in_range 0xF0 0xF4 b0
  then if second_ok b0 (at_ 0%nat)
       then if is_cont (at_ 1%nat)
            then if is_cont (at_ 2%nat) then (true, 4%nat) else (false, 3%nat)
            else (false, 2%nat)
       else (false, 1%nat)
  else (false, 1%nat).

Definition replacement_char : str := [0xEF; 0xBF; 0xBD].

(** Each chunk has at least one byte, so the length of the input is enough fuel. *)
Fixpoint from_utf8_lossy_fuel (fuel : nat) (bytes : list Z) : str :=
  match fuel, bytes with
  | O, _ | _, [] => []
  | S fuel, b0 :: rest =>
      let '(valid, n) := utf8_chunk b0 rest in
      (if valid then take n bytes else replacement_char) ++
      from_utf8_lossy_fuel fuel (drop n bytes)
  end.

Definition from_utf8_lossy (bytes : list Z) : str :=
  from_utf8_lossy_fuel (length bytes) bytes.

Example lossy_truncated : from_utf8_lossy [97; 0xE2; 0x82; 98] = [97; 0xEF; 0xBF; 0xBD; 98].
Proof. reflexivity. Qed.

(** ** Characters

    Where a component works on characters, its strings are lists of them. *)

(** [char::is_whitespace]: Unicode's White_Space. *)
Definition is_whitespace (c : Z) : bool :=
  in_range 9 13 c || (c =? 32) || (c =? 0x85) || (c =? 0xA0) || (c =? 0x1680) ||
  in_range 0x2000 0x200A c || (c =? 0x2028) || (c =? 0x2029) || (c =? 0x202F) ||
  (c =? 0x205F) || (c =? 0x3000).

Fixpoint trim_start_by (p : Z → bool) (s : list Z) : list Z :=
  match s with
  | c :: s' => if p c then trim_start_by p s' else s
  | [] => []
  end.

(** [str::trim] and [trim_end_matches] with a predicate. *)
Definition trim_by (p : Z → bool) (s : list Z) : list Z :=
  rev (trim_start_by p (rev (trim_start_by p s))).
Definition trim (s : list Z) : list Z := trim_by is_whitespace s.

(** [split_once] and [split] with a predicate. *)
Fixpoint split_once_by (p : Z → bool) (s : list Z) : option (list Z * list Z) :=
  match s with
  | [] => None
  | c :: s =>
      if p c then Some ([], s)
      else match split_once_by p s with
           | None => None
           | Some (l, r) => Some (c :: l, r)
           end
  end.

Fixpoint split_by (p : Z → bool) (s : list Z) : list (list Z) :=
  match s with
  | [] => [[]]
  | c :: s =>
      if p c then [] :: split_by p s
      else match split_by p s with
           | [] => [[c]]
           | x :: xs => (c :: x) :: xs
           end
  end.

(** [Utf8Error::valid_up_to] *)
Fixpoint valid_up_to_fuel (fuel : nat) (bytes : list Z) : nat :=
  match fuel, bytes with
  | S fuel, b0 :: rest =>
      let '(valid, n) := utf8_chunk b0 rest in
      if valid then (n + valid_up_to_fuel fuel (drop n bytes))%nat else 0%nat
  | _, _ => 0%nat
  end.
Definition valid_up_to (bytes : list Z) : nat := valid_up_to_fuel (length bytes) bytes.

(** ** ASCII classes and numbers *)

Definition is_ascii (c : Z) : bool := in_range 0 127 c.
Definition is_ascii_alphabetic (c : Z) : bool := in_range 65 90 c || in_range 97 122 c.
Definition is_ascii_digit (c : Z) : bool := in_range 48 57 c.
Definition is_ascii_alphanumeric (c : Z) : bool := is_ascii_alphabetic c || is_ascii_digit c.
Definition is_ascii_graphic (c : Z) : bool := in_range 33 126 c.
Definition is_ascii_whitespace (c : Z) : bool :=
  (c =? 9) || (c =? 10) || (c =? 12) || (c =? 13) || (c =? 32).

(** [s.contains("...")] for a string. *)
Fixpoint contains_str (s needle : list Z) : bool :=
  starts_with s needle ||
  match s with [] => false | _ :: s => contains_str s needle end.

(** [format!("{n}")] for an integer. *)
Fixpoint digits_from (fuel : nat) (n : Z) (later : list Z) : list Z :=
  match fuel with
  | O => later
  | S fuel =>
      let here := (48 + n mod 10) :: later in
      if n <? 10 then here else digits_from fuel (n / 10) here
  end.
Definition decimal (n : Z) : list Z :=
  if n <? 0 then ch "-" :: digits_from (S (Z.to_nat (Z.log2 (- n)))) (- n) []
  else digits_from (S (Z.to_nat (Z.log2 n))) n [].

Example decimal_seed : decimal (-2147483648) = lit "-2147483648".
Proof. vm_compute. reflexivity. Qed.
Example decimal_zero : decimal 0 = lit "0".
Proof. vm_compute. reflexivity. Qed.
