(* ===== verification/Text.v ===== *)
(** * Text of line protocols: the [str] methods beyond single characters

    Splitting at a string, trimming at one end, the lines of a text and unsigned
    numbers, as the standard library's [str] has them.  Strings are lists of
    characters. *)

From S2P Require Import Prelude Str.

(** [s.split_once("..")] and [s.rsplit_once(c)] *)
Fixpoint split_once_str (sep s : list Z) : option (list Z * list Z) :=
  if starts_with s sep then Some ([], drop (length sep) s)
  else match s with
  | [] => None
  | c :: s =>
      match split_once_str sep s with
      | None => None
      | Some (l, r) => Some (c :: l, r)
      end
  end.

Definition rsplit_once (b : Z) (s : list Z) : option (list Z * list Z) :=
  match split_once b (rev s) with
  | None => None
  | Some (r, l) => Some (rev l, rev r)
  end.

Definition trim_start (s : list Z) : list Z := trim_start_by is_whitespace s.
Definition trim_end (s : list Z) : list Z := rev (trim_start_by is_whitespace (rev s)).

Definition split_whitespace (s : list Z) : list (list Z) :=
  List.filter (λ part, bool_decide (part ≠ [])) (split_by is_whitespace s).

(** [s.trim_start_matches("..")] for a non-empty string. *)
Fixpoint trim_start_str_fuel (fuel : nat) (prefix s : list Z) : list Z :=
  match fuel with
  | O => s
  | S fuel =>
      match strip_prefix s prefix with
      | Some s => trim_start_str_fuel fuel prefix s
      | None => s
      end
  end.
Definition trim_start_str (prefix s : list Z) : list Z :=
  trim_start_str_fuel (length s) prefix s.

(** [format!("{n:x}")] *)
Fixpoint hex_from (fuel : nat) (n : Z) (later : list Z) : list Z :=
  match fuel with
  | O => later
  | S fuel =>
      let d := n mod 16 in
      let here := (if d <? 10 then 48 + d else 87 + d) :: later in
      if n <? 16 then here else hex_from fuel (n / 16) here
  end.
Definition hexadecimal (n : Z) : list Z := hex_from (S (Z.to_nat (Z.log2 n))) n [].

(** [str::lines]: a carriage return belongs to a line feed that follows it, and
    nothing follows the last one. *)
Fixpoint lines_of (pieces : list (list Z)) : list (list Z) :=
  match pieces with
  | [] => []
  | [piece] => if bool_decide (piece = []) then [] else [piece]
  | piece :: pieces => default piece (strip_suffix piece [13]) :: lines_of pieces
  end.
Definition lines (s : list Z) : list (list Z) := lines_of (split_on 10 s).

(** [s.parse()] at an unsigned type of maximum [max]: an optional plus sign and
    decimal digits. *)
Definition digits_value (digits : list Z) (n : Z) : Z :=
  fold_left (λ n c, 10 * n + (c - 48)) digits n.

Definition parse_unsigned (max : Z) (s : list Z) : option Z :=
  let digits := match s with c :: s' => if c =? ch "+" then s' else s | [] => [] end in
  if bool_decide (digits ≠ []) && forallb is_ascii_digit digits then
    let n := digits_value digits 0 in
    if n <=? max then Some n else None
  else None.

(** ** Numbers *)

Lemma digits_value_app s t n : digits_value (s ++ t) n = digits_value t (digits_value s n).
Proof. apply fold_left_app. Qed.

Lemma digits_from_value fuel n later :
  0 ≤ n < 10 * 2 ^ Z.of_nat fuel →
  digits_value (digits_from (S fuel) n later) 0 = digits_value later n.
Proof.
  revert n later. induction fuel as [|fuel IH]; intros n later Hn;
    cbn [digits_from]; destruct (Z.ltb_spec n 10) as [Hs|Hs]; try (cbn in Hn; lia).
  1, 2: cbn; f_equal; rewrite Z.mod_small by lia; lia.
  change (if n / 10 <? 10 then _ else _)
    with (digits_from (S fuel) (n / 10) ((48 + n mod 10) :: later)).
  rewrite IH.
  - cbn. f_equal. pose proof (Z.div_mod n 10). lia.
  - rewrite Nat2Z.inj_succ, Z.pow_succ_r in Hn by lia.
    split; [by apply Z.div_pos; lia|]. apply Z.div_lt_upper_bound; lia.
Qed.

Lemma digits_from_digits fuel n later :
  0 ≤ n → forallb is_ascii_digit later = true →
  forallb is_ascii_digit (digits_from fuel n later) = true.
Proof.
  revert n later. induction fuel as [|fuel IH]; intros n later Hn Hl; [done|].
  assert (Hd : forallb is_ascii_digit ((48 + n mod 10) :: later) = true).
  { cbn. apply andb_true_iff. split; [|done]. unfold is_ascii_digit, in_range.
    pose proof (Z.mod_pos_bound n 10). lia. }
  cbn [digits_from]. destruct (n <? 10); [done|]. apply IH; [|done].
  by apply Z.div_pos.
Qed.

Lemma digits_from_ne fuel n later : digits_from (S fuel) n later ≠ [].
Proof.
  revert n later. induction fuel as [|fuel IH]; intros n later.
  - cbn. by destruct (n <? 10).
  - cbn [digits_from]. destruct (n <? 10); [done|]. apply IH.
Qed.

Lemma decimal_digits n : 0 ≤ n → forallb is_ascii_digit (decimal n) = true.
Proof.
  intros Hn. unfold decimal. destruct (Z.ltb_spec n 0); [lia|].
  by apply digits_from_digits.
Qed.

Lemma decimal_ne n : decimal n ≠ [].
Proof. unfold decimal. destruct (n <? 0); [done|]. apply digits_from_ne. Qed.

Lemma decimal_value n : 0 ≤ n → digits_value (decimal n) 0 = n.
Proof.
  intros Hn. unfold decimal. destruct (Z.ltb_spec n 0); [lia|].
  rewrite digits_from_value; [done|]. rewrite Z2Nat.id by apply Z.log2_nonneg.
  destruct (decide (n = 0)) as [->|Hp]; [done|].
  pose proof (Z.log2_spec n ltac:(lia)) as [_ Hl].
  rewrite Z.pow_succ_r in Hl by apply Z.log2_nonneg. lia.
Qed.

Lemma digit_plain c : is_ascii_digit c = true → 48 ≤ c ≤ 57.
Proof. unfold is_ascii_digit, in_range. lia. Qed.

Lemma parse_decimal max n : 0 ≤ n ≤ max → parse_unsigned max (decimal n) = Some n.
Proof.
  intros Hn. pose proof (decimal_digits n ltac:(lia)) as Hd.
  pose proof (decimal_ne n) as Hne. pose proof (decimal_value n ltac:(lia)) as Hv.
  unfold parse_unsigned. destruct (decimal n) as [|c s] eqn:E; [done|].
  destruct (Z.eqb_spec c (ch "+")) as [->|_]; [by cbn in Hd|].
  rewrite bool_decide_true, Hd, Hv by done. cbn [andb].
  destruct (Z.leb_spec n max); [done|lia].
Qed.

Lemma digits_value_nonneg digits n :
  0 ≤ n → forallb is_ascii_digit digits = true → 0 ≤ digits_value digits n.
Proof.
  revert n. induction digits as [|c digits IH]; intros n Hn Hd; [done|]. cbn in *.
  apply andb_true_iff in Hd as [Hc Hd]. apply digit_plain in Hc. apply IH; [lia|done].
Qed.

Lemma parse_unsigned_range max s n : parse_unsigned max s = Some n → 0 ≤ n ≤ max.
Proof.
  unfold parse_unsigned. destruct (_ && _) eqn:Hd; [|done].
  apply andb_true_iff in Hd as [_ Hd].
  destruct (Z.leb_spec (digits_value (match s with c :: s' => if c =? ch "+" then s' else s | [] => [] end) 0) max);
    [|done]. intros [= <-]. split; [|done]. by apply digits_value_nonneg.
Qed.

(** ** Splitting *)

Lemma starts_with_app s t : starts_with (s ++ t) s = true.
Proof. unfold starts_with. rewrite take_app_length. by apply bool_decide_true. Qed.

Lemma strip_prefix_app s t : strip_prefix (s ++ t) s = Some t.
Proof. unfold strip_prefix. by rewrite starts_with_app, drop_app_length. Qed.

Lemma strip_prefix_inv s prefix t : strip_prefix s prefix = Some t → s = prefix ++ t.
Proof.
  unfold strip_prefix, starts_with. case_bool_decide as H; [|done]. intros [= <-].
  rewrite <-H at 1. by rewrite take_drop.
Qed.

Lemma split_once_plain b s : b ∉ s → split_once b s = None.
Proof.
  induction s as [|x s IH]; [done|]. rewrite not_elem_of_cons. intros [Hx Hs]. cbn.
  destruct (Z.eqb_spec x b); [congruence|]. by rewrite IH.
Qed.

Lemma split_once_app b s t : b ∉ s → split_once b (s ++ b :: t) = Some (s, t).
Proof.
  induction s as [|x s IH]; cbn; [by rewrite Z.eqb_refl|].
  rewrite not_elem_of_cons. intros [Hx Hs].
  destruct (Z.eqb_spec x b); [congruence|]. by rewrite IH.
Qed.

Lemma split_once_inv b s l r : split_once b s = Some (l, r) → s = l ++ b :: r ∧ b ∉ l.
Proof.
  revert l. induction s as [|x s IH]; intros l; [done|]. cbn.
  destruct (Z.eqb_spec x b) as [->|Hx]; [intros [= <- <-]; split; [done|apply not_elem_of_nil]|].
  destruct (split_once b s) as [[l' r']|]; [|done]. intros [= <- <-].
  destruct (IH _ eq_refl) as [-> Hl]. split; [done|]. rewrite not_elem_of_cons. by split.
Qed.

Lemma split_once_none b s : split_once b s = None → b ∉ s.
Proof.
  induction s as [|x s IH]; cbn; [intros _; apply not_elem_of_nil|].
  destruct (Z.eqb_spec x b) as [->|Hx]; [done|].
  destruct (split_once b s) as [[l r]|]; [done|]. intros _. rewrite not_elem_of_cons.
  split; [done|]. by apply IH.
Qed.

Lemma rsplit_once_app b s t : b ∉ t → rsplit_once b (s ++ b :: t) = Some (s, t).
Proof.
  intros Ht. unfold rsplit_once. rewrite rev_app_distr. cbn [rev]. rewrite <-app_assoc.
  cbn [app]. rewrite split_once_app; [by rewrite !rev_involutive|].
  by rewrite list_elem_of_In, <-in_rev, <-list_elem_of_In.
Qed.

Lemma rsplit_once_inv b s l r : rsplit_once b s = Some (l, r) → s = l ++ b :: r ∧ b ∉ r.
Proof.
  unfold rsplit_once. destruct (split_once b (rev s)) as [[r' l']|] eqn:E; [|done].
  intros [= <- <-]. apply split_once_inv in E as [E Hr].
  rewrite <-(rev_involutive s), E, rev_app_distr. cbn [rev]. rewrite <-app_assoc.
  split; [done|]. revert Hr. by rewrite !list_elem_of_In, <-in_rev.
Qed.

(** ** ASCII characters and their encoding *)

Lemma encode_ascii b c :
  0 ≤ b < 128 → is_scalar c = true → b ∈ encode_utf8 c → c = b.
Proof.
  unfold is_scalar, encode_utf8. intros Hb Hs.
  pose proof (Z.mod_pos_bound c 64). pose proof (Z.mod_pos_bound (c / 64) 64).
  pose proof (Z.mod_pos_bound (c / 4096) 64). pose proof (Z.div_pos c 64).
  pose proof (Z.div_pos c 4096). pose proof (Z.div_pos c 262144).
  repeat case_match; rewrite !elem_of_cons, elem_of_nil; intros Hin;
    repeat destruct Hin as [Hin|Hin]; try done; lia.
Qed.

Lemma encode_utf8_ne c : encode_utf8 c ≠ [].
Proof. unfold encode_utf8. by repeat case_match. Qed.

Lemma encode_chars_snoc s c : encode_chars (s ++ [c]) = encode_chars s ++ encode_utf8 c.
Proof. unfold encode_chars. rewrite fmap_app, concat_app. cbn. by rewrite app_nil_r. Qed.

Lemma encode_chars_no_ascii b s :
  0 ≤ b < 128 → forallb is_scalar s = true → b ∉ s → b ∉ encode_chars s.
Proof.
  intros Hb Hs Hn Hin. apply Hn. unfold encode_chars in Hin.
  rewrite list_elem_of_In, in_concat in Hin. destruct Hin as (bytes & Hbytes & Hin).
  apply list_elem_of_In, list_elem_of_fmap in Hbytes as (c & -> & Hc).
  rewrite forallb_forall in Hs. apply list_elem_of_In in Hin.
  apply (encode_ascii b c) in Hin as ->; [done..|]. by apply Hs, list_elem_of_In.
Qed.

Lemma encode_chars_last b s :
  0 ≤ b < 128 → forallb is_scalar s = true → last (encode_chars s) = Some b → last s = Some b.
Proof.
  intros Hb Hs. destruct s as [|c s _] using rev_ind; [done|].
  rewrite encode_chars_snoc, last_snoc. rewrite forallb_app in Hs. cbn in Hs.
  rewrite andb_true_r in Hs. apply andb_true_iff in Hs as [_ Hs].
  destruct (encode_utf8 c) as [|x bytes _] eqn:E using rev_ind; [by apply encode_utf8_ne in E|].
  rewrite app_assoc, last_snoc. intros [= ->]. f_equal. apply (encode_ascii b c); [done..|].
  rewrite E, elem_of_app, list_elem_of_singleton. by right.
Qed.

(** ASCII text is its own encoding. *)
Lemma encode_chars_ascii s : forallb is_ascii s = true → encode_chars s = s.
Proof.
  induction s as [|c s IH]; [done|]. cbn. intros [Hc Hs]%andb_true_iff.
  unfold encode_chars in *. cbn. rewrite IH by done. unfold encode_utf8.
  unfold is_ascii, in_range in Hc. by replace (c <? 0x80) with true by lia.
Qed.

Lemma ascii_scalars s : forallb is_ascii s = true → forallb is_scalar s = true.
Proof.
  rewrite !forallb_forall. intros Hs c Hc. specialize (Hs c Hc).
  unfold is_ascii, in_range in Hs. unfold is_scalar. lia.
Qed.

Lemma strip_suffix_last s b : last s ≠ Some b → strip_suffix s [b] = None.
Proof.
  intros Hs. unfold strip_suffix, ends_with.
  destruct s as [|x s _] using rev_ind; [done|]. rewrite last_snoc in Hs.
  rewrite length_app. cbn [length]. replace (length s + 1 - 1)%nat with (length s) by lia.
  rewrite drop_app_length, bool_decide_false by congruence. by rewrite andb_false_r.
Qed.

(** ** Lines *)

Definition no_break (line : list Z) : Prop := 10 ∉ line ∧ 13 ∉ line.

Lemma no_break_app s t : no_break s → no_break t → no_break (s ++ t).
Proof. unfold no_break. set_solver. Qed.

(** Lines that were written with their line feeds. *)
Lemma split_written pieces :
  Forall (λ l, 10 ∉ l) pieces →
  split_on 10 (concat ((.++ [10]) <$> pieces)) = pieces ++ [[]].
Proof.
  induction 1 as [|l pieces Hl Hps IH]; [done|].
  rewrite fmap_cons. cbn [concat]. rewrite <-app_assoc.
  change ([10] ++ ?t) with (10 :: t). by rewrite split_on_app, IH by done.
Qed.

Lemma lines_written pieces :
  Forall no_break pieces → lines (concat ((.++ [10]) <$> pieces)) = pieces.
Proof.
  intros Hall. unfold lines. rewrite split_written; [|eapply Forall_impl; [exact Hall|by intros ? []]].
  induction Hall as [|l pieces [Hn Hr] Hps IH]; [done|]. cbn [app lines_of].
  destruct (pieces ++ [[]]) as [|p ps] eqn:Hp; [by destruct pieces|].
  rewrite <-Hp in IH |- *. rewrite IH. rewrite strip_suffix_last; [done|].
  intros Hlast. apply Hr. by eapply last_Some_elem_of.
Qed.

(** ** Trimming *)

Definition tidy (s : list Z) : Prop :=
  (∀ c, head s = Some c → is_whitespace c = false) ∧
  (∀ c, last s = Some c → is_whitespace c = false).

Lemma trim_start_head p s c : head (trim_start_by p s) = Some c → p c = false.
Proof.
  induction s as [|x s IH]; [done|]. cbn [trim_start_by]. destruct (p x) eqn:Hx; [done|].
  by intros [= <-].
Qed.

Lemma trim_start_suffix p s : ∃ before, s = before ++ trim_start_by p s.
Proof.
  induction s as [|x s [before IH]]; [by exists []|]. cbn [trim_start_by]. destruct (p x).
  - exists (x :: before). cbn [app]. by f_equal.
  - by exists [].
Qed.

Lemma trim_start_id p s : (∀ c, head s = Some c → p c = false) → trim_start_by p s = s.
Proof. destruct s as [|x s]; [done|]. intros Hx. cbn [trim_start_by]. by rewrite Hx. Qed.

Lemma last_rev {A} (s : list A) : last (rev s) = head s.
Proof. destruct s as [|x s]; [done|]. cbn [rev]. by rewrite last_snoc. Qed.
Lemma head_rev {A} (s : list A) : head (rev s) = last s.
Proof. rewrite <-(rev_involutive s) at 2. by rewrite last_rev. Qed.

Lemma trim_tidy s : tidy (trim s).
Proof.
  unfold trim, trim_by. split; intros c.
  - rewrite head_rev. destruct (trim_start_suffix is_whitespace (rev (trim_start_by is_whitespace s)))
      as [before Hb].
    intros Hc. apply (trim_start_head is_whitespace s). rewrite <-last_rev, Hb, last_app, Hc. done.
  - rewrite last_rev. apply trim_start_head.
Qed.

Lemma trim_id s : tidy s → trim s = s.
Proof.
  intros [Hh Hl]. unfold trim, trim_by. rewrite (trim_start_id _ s) by done.
  rewrite trim_start_id by (intros c; rewrite head_rev; apply Hl). apply rev_involutive.
Qed.

(** What has a character that is not white space is not trimmed away. *)
Lemma trim_ne c s : is_whitespace c = false → trim (c :: s) ≠ [].
Proof.
  intros Hc. unfold trim, trim_by. cbn [trim_start_by]. rewrite Hc. cbn [rev].
  assert (Hne : ∀ l, trim_start_by is_whitespace (l ++ [c]) ≠ []).
  { induction l as [|x l IH]; cbn [app trim_start_by]; [by rewrite Hc|].
    by destruct (is_whitespace x). }
  intros Hr. apply (Hne (rev s)). apply (f_equal (@rev Z)) in Hr. by rewrite rev_involutive in Hr.
Qed.
