(* ===== verification/FsPath.v ===== *)
(** * Paths and ordered maps: [Path], [PathBuf] and [BTreeMap] of the standard library

    The file-system crates compare, order and store paths by their components, so a
    path is the list of them.  A name is a list of characters.  Paths are those of
    either platform, without the UNC and verbatim prefixes of Windows; [windows] says
    which platform it is where that matters.  At the end, paths and their text: the text
    of a parsed path parses as that path again, so that what is written as text and
    parsed later names the same file. *)

From stdpp Require Import sorting.
From S2P Require Import Prelude Str Text.

Class Platform := windows : bool.

(** ** Components *)

Inductive Component :=
| Prefix (drive : Z)
| RootDir
| CurDir
| ParentDir
| Normal (name : list Z).

Abbreviation PathBuf := (list Component).

#[export] Instance Component_eq_dec : EqDecision Component.
Proof. solve_decision. Defined.

#[export] Instance Component_countable : Countable Component.
Proof.
  refine (inj_countable'
    (λ c, match c with
          | Prefix d => inl (inl d)
          | RootDir => inl (inr 0%nat)
          | CurDir => inl (inr 1%nat)
          | ParentDir => inl (inr 2%nat)
          | Normal name => inr name
          end : Z + nat + list Z)
    (λ x, match x with
          | inl (inl d) => Prefix d
          | inl (inr 0%nat) => RootDir
          | inl (inr 1%nat) => CurDir
          | inl (inr _) => ParentDir
          | inr name => Normal name
          end) _).
  by intros [].
Defined.

Definition is_normal (c : Component) : bool :=
  match c with Normal _ => true | _ => false end.

(** A path as [normalize_portable_path] leaves it. *)
Definition portable (p : PathBuf) : Prop := Forall (λ c, is_normal c = true) p.

(** ** Text to components and back *)

Definition is_separator `{Platform} (c : Z) : bool :=
  (c =? ch "/") || windows && (c =? ch "\").

Definition has_drive `{Platform} (s : list Z) : bool :=
  windows && match s with c :: d :: _ => is_ascii_alphabetic c && (d =? ch ":") | _ => false end.

Definition component (part : list Z) : list Component :=
  if bool_decide (part = []) || bool_decide (part = lit ".") then []
  else if bool_decide (part = lit "..") then [ParentDir]
  else [Normal part].

Definition rooted_components `{Platform} (s : list Z) : list Component :=
  match split_by is_separator s with
  | [] => []
  | first :: parts =>
      (if bool_decide (first = []) && bool_decide (parts ≠ []) then [RootDir]
       else if bool_decide (first = lit ".") then [CurDir]
       else component first) ++ concat (component <$> parts)
  end.

(** [Path::new(s).components()] *)
Definition parse_path `{Platform} (s : list Z) : PathBuf :=
  if has_drive s then Prefix (nth 0 s 0) :: rooted_components (drop 2 s)
  else rooted_components s.

(** [path.to_string_lossy()] *)
Fixpoint relative_text (p : PathBuf) : list Z :=
  match p with
  | [] => []
  | c :: p' =>
      match c with
      | Prefix d => [d; ch ":"]
      | RootDir => [ch "/"]
      | CurDir => lit "."
      | ParentDir => lit ".."
      | Normal name => name
      end ++ match c, p' with
             | (Prefix _ | RootDir), _ | _, [] => []
             | _, _ => [ch "/"]
             end ++ relative_text p'
  end.

(** ** The methods of [Path] *)

Definition is_absolute `{Platform} (p : PathBuf) : bool :=
  match p with
  | Prefix _ :: RootDir :: _ => true
  | RootDir :: _ => negb windows
  | _ => false
  end.

Definition drop_cur_dir (p : PathBuf) : PathBuf :=
  match p with CurDir :: p => p | _ => p end.

(** [self.push(path)] and [self.join(path)]: a path with a prefix replaces [self], one
    with a root all but the prefix of [self]. *)
Definition path_join (self path : PathBuf) : PathBuf :=
  match path with
  | Prefix _ :: _ => path
  | RootDir :: _ => match self with Prefix d :: _ => Prefix d :: path | _ => path end
  | _ => match self with
         | [] | [Prefix _] => self ++ path
         | _ => self ++ drop_cur_dir path
         end
  end.

Arguments path_join : simpl never.

(** [path.parent()]; [pop] is the same with the path left as it is at [None]. *)
Definition parent (p : PathBuf) : option PathBuf :=
  match last p with
  | Some (Normal _ | CurDir | ParentDir) => Some (take (length p - 1) p)
  | _ => None
  end.

Definition file_name (p : PathBuf) : option (list Z) :=
  match last p with Some (Normal name) => Some name | _ => None end.

Definition path_starts_with (p prefix : PathBuf) : bool :=
  bool_decide (take (length prefix) p = prefix).

Definition with_file_name `{Platform} (p : PathBuf) (name : list Z) : PathBuf :=
  path_join (match file_name p with Some _ => default p (parent p) | None => p end)
       (parse_path name).

(** [path.extension()] *)
Definition extension (p : PathBuf) : option (list Z) :=
  match file_name p with
  | None => None
  | Some name =>
      match split_once (ch ".") (rev name) with
      | Some (after, before) => if bool_decide (before = []) then None else Some (rev after)
      | None => None
      end
  end.

(** ** Their order *)

Section lexicographic.
Context {A : Type} (cmp : A → A → comparison).

Fixpoint lex_cmp (l1 l2 : list A) : comparison :=
  match l1, l2 with
  | [], [] => Eq
  | [], _ => Lt
  | _, [] => Gt
  | x :: l1, y :: l2 =>
      match cmp x y with Eq => lex_cmp l1 l2 | o => o end
  end.

Hypothesis cmp_eq : ∀ x y, cmp x y = Eq ↔ x = y.
Hypothesis cmp_opp : ∀ x y, cmp y x = CompOpp (cmp x y).
Hypothesis cmp_trans : ∀ x y z, cmp x y = Lt → cmp y z = Lt → cmp x z = Lt.

Lemma lex_cmp_eq l1 l2 : lex_cmp l1 l2 = Eq ↔ l1 = l2.
Proof using cmp_eq.
  revert l2. induction l1 as [|x l1 IH]; intros [|y l2]; cbn; try done.
  destruct (cmp x y) eqn:E.
  - apply cmp_eq in E as ->. rewrite IH. naive_solver.
  - split; [done|]. intros [= -> ->]. by rewrite (proj2 (cmp_eq y y) eq_refl) in E.
  - split; [done|]. intros [= -> ->]. by rewrite (proj2 (cmp_eq y y) eq_refl) in E.
Qed.

Lemma lex_cmp_opp l1 l2 : lex_cmp l2 l1 = CompOpp (lex_cmp l1 l2).
Proof using cmp_opp.
  revert l2. induction l1 as [|x l1 IH]; intros [|y l2]; cbn; try done.
  rewrite cmp_opp. destruct (cmp x y); cbn; auto.
Qed.

Lemma lex_cmp_trans l1 l2 l3 :
  lex_cmp l1 l2 = Lt → lex_cmp l2 l3 = Lt → lex_cmp l1 l3 = Lt.
Proof using cmp_eq cmp_trans.
  revert l2 l3. induction l1 as [|x l1 IH]; intros [|y l2] [|z l3]; cbn; try done.
  destruct (cmp x y) eqn:E1; try done.
  - apply cmp_eq in E1 as ->. destruct (cmp y z); naive_solver.
  - intros _. destruct (cmp y z) eqn:E2; try done.
    + apply cmp_eq in E2 as ->. by rewrite E1.
    + by rewrite (cmp_trans _ _ _ E1 E2).
Qed.

(** What a list starts with comes before it. *)
Lemma lex_cmp_prefix l x l' : lex_cmp l (l ++ x :: l') = Lt.
Proof using cmp_eq.
  induction l as [|y l IH]; [done|]. cbn. by rewrite (proj2 (cmp_eq y y) eq_refl).
Qed.
End lexicographic.

(** Components are ordered by their kind first. *)
Definition component_key (c : Component) : list Z :=
  match c with
  | Prefix d => [0; d]
  | RootDir => [1]
  | CurDir => [2]
  | ParentDir => [3]
  | Normal name => 4 :: name
  end.

Definition component_cmp (c d : Component) : comparison :=
  lex_cmp Z.compare (component_key c) (component_key d).

(** [left.cmp(&right)] *)
Definition path_cmp (p q : PathBuf) : comparison := lex_cmp component_cmp p q.

Definition path_le (p q : PathBuf) : Prop := path_cmp p q ≠ Gt.

#[export] Instance path_le_dec p q : Decision (path_le p q).
Proof. unfold path_le. apply _. Defined.

Lemma component_cmp_eq c d : component_cmp c d = Eq ↔ c = d.
Proof.
  unfold component_cmp. rewrite lex_cmp_eq by apply Z.compare_eq_iff.
  destruct c, d; cbn; naive_solver.
Qed.

Lemma component_cmp_opp c d : component_cmp d c = CompOpp (component_cmp c d).
Proof. apply lex_cmp_opp. intros x y. apply Z.compare_antisym. Qed.

Lemma component_cmp_trans c d e :
  component_cmp c d = Lt → component_cmp d e = Lt → component_cmp c e = Lt.
Proof.
  apply lex_cmp_trans; [apply Z.compare_eq_iff|].
  intros x y z. rewrite !Z.compare_lt_iff. lia.
Qed.

Lemma path_cmp_eq p q : path_cmp p q = Eq ↔ p = q.
Proof. apply lex_cmp_eq, component_cmp_eq. Qed.

Lemma path_cmp_opp p q : path_cmp q p = CompOpp (path_cmp p q).
Proof. apply lex_cmp_opp, component_cmp_opp. Qed.

Lemma path_cmp_trans p q r : path_cmp p q = Lt → path_cmp q r = Lt → path_cmp p r = Lt.
Proof. apply lex_cmp_trans; [apply component_cmp_eq | apply component_cmp_trans]. Qed.

(** A directory comes before what it contains. *)
Lemma path_cmp_prefix p c q : path_cmp p (p ++ c :: q) = Lt.
Proof. apply lex_cmp_prefix, component_cmp_eq. Qed.

#[export] Instance path_le_trans : Transitive path_le.
Proof.
  intros p q r. unfold path_le.
  destruct (path_cmp p q) eqn:E1, (path_cmp q r) eqn:E2; try done; intros _ _.
  - apply path_cmp_eq in E1 as ->. by rewrite E2.
  - apply path_cmp_eq in E1 as ->. by rewrite E2.
  - apply path_cmp_eq in E2 as <-. by rewrite E1.
  - by rewrite (path_cmp_trans _ _ _ E1 E2).
Qed.

#[export] Instance path_le_total : Total path_le.
Proof.
  intros p q. unfold path_le. rewrite (path_cmp_opp p q). destruct (path_cmp p q); cbn; auto.
Qed.

#[export] Instance path_le_antisymm : AntiSymm (=) path_le.
Proof.
  intros p q. unfold path_le. rewrite (path_cmp_opp p q).
  destruct (path_cmp p q) eqn:E; cbn; try done. by apply path_cmp_eq in E.
Qed.

(** ** [BTreeMap<PathBuf, V>]

    A map, iterated in the order of its keys. *)

Section btree.
Context {V : Type}.
Implicit Types m : gmap PathBuf V.

Definition key_le (x y : PathBuf * V) : Prop := path_le x.1 y.1.

#[export] Instance key_le_dec x y : Decision (key_le x y).
Proof. unfold key_le. apply _. Defined.
#[export] Instance key_le_trans : Transitive key_le.
Proof. intros x y z. apply path_le_trans. Qed.
#[export] Instance key_le_total : Total key_le.
Proof. intros x y. apply path_le_total. Qed.

(** [map.iter()] *)
Definition btree_iter (m : gmap PathBuf V) : list (PathBuf * V) :=
  merge_sort key_le (map_to_list m).

(** [map.keys()] *)
Definition btree_keys (m : gmap PathBuf V) : list PathBuf := (btree_iter m).*1.

Lemma btree_iter_perm m : btree_iter m ≡ₚ map_to_list m.
Proof. apply merge_sort_Permutation. Qed.

Lemma elem_of_btree_iter m k v : (k, v) ∈ btree_iter m ↔ m !! k = Some v.
Proof. by rewrite btree_iter_perm, elem_of_map_to_list. Qed.

Lemma elem_of_btree_keys m k : k ∈ btree_keys m ↔ is_Some (m !! k).
Proof.
  unfold btree_keys. rewrite list_elem_of_fmap. split.
  - intros ([k' v] & -> & Hin%elem_of_btree_iter). by exists v.
  - intros [v Hv]. exists (k, v). split; [done|]. by apply elem_of_btree_iter.
Qed.

Lemma NoDup_btree_keys m : NoDup (btree_keys m).
Proof. unfold btree_keys. rewrite btree_iter_perm. apply NoDup_fst_map_to_list. Qed.

Lemma btree_iter_sorted m : StronglySorted key_le (btree_iter m).
Proof. apply StronglySorted_merge_sort; apply _. Qed.
End btree.

(** ** Lemmas *)

Lemma portable_app p q : portable (p ++ q) ↔ portable p ∧ portable q.
Proof. apply Forall_app. Qed.

Lemma portable_snoc p name : portable p → portable (p ++ [Normal name]).
Proof. intros Hp. apply portable_app. split; [done|]. by repeat constructor. Qed.

Lemma path_join_portable self path : portable path → path_join self path = self ++ path.
Proof.
  intros Hp. unfold path_join. destruct path as [|c path].
  - destruct self as [|[] []]; cbn; by rewrite ?app_nil_r.
  - apply Forall_cons in Hp as [Hc _]. destruct c; try done.
    by destruct self as [|[] []].
Qed.

Lemma portable_path_join self path : portable self → portable path → portable (path_join self path).
Proof. intros Hs Hp. rewrite path_join_portable by done. by apply portable_app. Qed.

Lemma parent_snoc p name : parent (p ++ [Normal name]) = Some p.
Proof.
  unfold parent. rewrite last_snoc, length_app. cbn.
  rewrite Nat.add_sub. by rewrite take_app_length.
Qed.

Lemma parent_nil : parent [] = None.
Proof. reflexivity. Qed.

Lemma file_name_snoc p name : file_name (p ++ [Normal name]) = Some name.
Proof. unfold file_name. by rewrite last_snoc. Qed.

(** A portable path is empty, or a name below its parent. *)
Lemma portable_inv p :
  portable p → p = [] ∨ ∃ q name, p = q ++ [Normal name] ∧ portable q.
Proof.
  intros Hp. destruct p as [|c p] using rev_ind; [by left|right].
  apply portable_app in Hp as [Hp Hc]. apply Forall_cons in Hc as [Hc _].
  destruct c; try done. eauto.
Qed.

Lemma portable_parent p q : portable p → parent p = Some q → portable q.
Proof.
  intros [->|(r & name & -> & Hr)]%portable_inv; [done|].
  rewrite parent_snoc. by intros [= <-].
Qed.

Lemma path_starts_with_spec p prefix :
  path_starts_with p prefix = true ↔ ∃ q, p = prefix ++ q.
Proof.
  unfold path_starts_with. rewrite bool_decide_eq_true. split.
  - intros H. exists (drop (length prefix) p). rewrite <-H at 1. by rewrite take_drop.
  - intros [q ->]. by rewrite take_app_length.
Qed.

Create HintDb portable.
#[export] Hint Resolve portable_snoc portable_path_join : portable.

Example parse_dots : parse_path (H:=false) (lit "./a//b/../.") =
  [CurDir; Normal (lit "a"); Normal (lit "b"); ParentDir].
Proof. vm_compute. reflexivity. Qed.
Example parse_drive : parse_path (H:=true) (lit "C:\x/y") =
  [Prefix (ch "C"); RootDir; Normal (lit "x"); Normal (lit "y")].
Proof. vm_compute. reflexivity. Qed.
Example text_of_parsed : relative_text (parse_path (H:=true) (lit "C:\x/y")) = lit "C:/x/y".
Proof. vm_compute. reflexivity. Qed.
Example two_extensions : extension [Normal (lit "a.tar.gz")] = Some (lit "gz").
Proof. vm_compute. reflexivity. Qed.
Example hidden_file : extension [Normal (lit ".profile")] = None.
Proof. vm_compute. reflexivity. Qed.

Section text.
Context `{Platform}.

Lemma split_by_plain (p : Z → bool) s :
  forallb (λ c, negb (p c)) s = true → split_by p s = [s].
Proof.
  induction s as [|c s IH]; [done|]. cbn. intros [Hc Hs]%andb_true_iff.
  destruct (p c); [done|]. by rewrite IH.
Qed.

Lemma split_by_app (p : Z → bool) s c t :
  forallb (λ c, negb (p c)) s = true → p c = true →
  split_by p (s ++ c :: t) = s :: split_by p t.
Proof.
  intros Hs Hc. induction s as [|d s IH]; cbn in *; [by rewrite Hc|].
  apply andb_true_iff in Hs as [Hd Hs]. destruct (p d); [done|]. by rewrite IH.
Qed.

(** The pieces hold no separator, and put together again they are the text. *)
Lemma split_by_pieces (p : Z → bool) s :
  Forall (λ piece, forallb (λ c, negb (p c)) piece = true) (split_by p s).
Proof.
  induction s as [|c s IH]; cbn; [by repeat constructor|].
  destruct (p c) eqn:Hc; [by constructor|].
  inversion IH as [|piece pieces Hp Hps Heq]; subst; [by repeat constructor; cbn; rewrite Hc|].
  constructor; [|done]. cbn. by rewrite Hc.
Qed.

Lemma split_by_head (p : Z → bool) s first pieces :
  split_by p s = first :: pieces →
  ∃ later, s = first ++ later ∧ match later with [] => True | c :: _ => p c = true end.
Proof.
  revert first pieces. induction s as [|c s IH]; intros first pieces; cbn.
  { intros [= <- _]. by exists []. }
  destruct (p c) eqn:Hc; [intros [= <- _]; by exists (c :: s)|].
  destruct (split_by p s) as [|piece pieces'] eqn:Hs.
  { intros [= <- _]. destruct s as [|d s]; [by exists []|]. cbn in Hs. by destruct (p d), (split_by p s). }
  intros [= <- _]. destruct (IH _ _ eq_refl) as (later & -> & Hl). by exists later.
Qed.

(** ** The components of a parsed path *)

Definition no_separator (s : list Z) : Prop := forallb (λ c, negb (is_separator c)) s = true.

(** A component below the first: it is the text of its piece. *)
Inductive below_first : Component → list Z → Prop :=
| below_parent : below_first ParentDir (lit "..")
| below_name name :
    no_separator name → name ≠ [] → name ≠ lit "." → name ≠ lit ".." →
    below_first (Normal name) name.

Lemma component_below piece c :
  no_separator piece → c ∈ component piece → below_first c piece.
Proof.
  intros Hp. unfold component. case_bool_decide as H1; [by intros ?%not_elem_of_nil|].
  case_bool_decide as H2; [by intros ?%not_elem_of_nil|]. cbn.
  case_bool_decide as H3; intros ->%list_elem_of_singleton; [subst; constructor|by constructor].
Qed.

Lemma component_text c text : below_first c text → component text = [c].
Proof.
  destruct 1 as [|name Hs Hne Hd Hdd]; [reflexivity|]. unfold component.
  by rewrite !bool_decide_eq_false_2 by done.
Qed.

Lemma below_no_separator c text : below_first c text → no_separator text.
Proof.
  destruct 1; [|done]. unfold no_separator. cbn. unfold is_separator. by destruct windows.
Qed.

Lemma below_nonempty c text : below_first c text → text ≠ [].
Proof. by destruct 1. Qed.

Lemma components_below pieces :
  Forall no_separator pieces →
  ∃ texts, Forall2 below_first (concat (component <$> pieces)) texts.
Proof.
  induction 1 as [|piece pieces Hp Hps [texts IH]]; [by exists []|].
  rewrite fmap_cons. cbn [concat].
  assert (Hone : ∃ head, Forall2 below_first (component piece) head).
  { pose proof (component_below piece) as Hc. unfold component in *.
    case_bool_decide; [by exists []|]. case_bool_decide; [by exists []|]. cbn in *.
    case_bool_decide; eexists [_]; constructor; [|constructor| |constructor];
      (apply Hc; [done|by left]). }
  destruct Hone as [head Hhead]. exists (head ++ texts). by apply Forall2_app.
Qed.

(** ** Their text, and its pieces *)

Lemma separator_slash : is_separator (ch "/") = true.
Proof. reflexivity. Qed.

Lemma below_text c text : below_first c text →
  ∀ p, relative_text (c :: p) = text ++ match p with [] => [] | _ => [ch "/"] end ++ relative_text p.
Proof. by destruct 1; intros []. Qed.

Lemma split_below c text cs texts :
  below_first c text → Forall2 below_first cs texts →
  split_by is_separator (relative_text (c :: cs)) = text :: texts.
Proof.
  intros Hc Hcs. revert c text Hc. induction Hcs as [|d dtext cs texts Hd Hcs IH]; intros c text Hc;
    rewrite (below_text c text Hc).
  - cbn. rewrite app_nil_r. apply split_by_plain. by eapply below_no_separator.
  - cbn [app]. rewrite split_by_app, (IH _ _ Hd); [done| |done]. by eapply below_no_separator.
Qed.

Lemma components_of_texts cs texts :
  Forall2 below_first cs texts → concat (component <$> texts) = cs.
Proof.
  induction 1 as [|c text cs texts Hc Hcs IH]; [done|]. rewrite fmap_cons. cbn [concat].
  by rewrite (component_text c text Hc), IH.
Qed.

(** What [rooted_components] gives. *)
Definition rooted (p : PathBuf) : Prop :=
  ∃ top cs texts, p = top ++ cs ∧ Forall2 below_first cs texts ∧
    (top = [] ∨ top = [RootDir] ∨ top = [CurDir]).

Lemma rooted_components_rooted s : rooted (rooted_components s).
Proof.
  unfold rooted_components. pose proof (split_by_pieces is_separator s) as Hp.
  destruct (split_by is_separator s) as [|first pieces]; [by exists [], [], []; auto|].
  apply Forall_cons in Hp as [Hf Hps]. destruct (components_below pieces Hps) as [texts Htexts].
  case_match; [by exists [RootDir], (concat (component <$> pieces)), texts; auto|].
  destruct (bool_decide (first = lit ".")); [by exists [CurDir], (concat (component <$> pieces)), texts; auto|].
  destruct (components_below (first :: pieces)) as [all Hall]; [by constructor|].
  rewrite fmap_cons in Hall. cbn [concat] in Hall. exists [], (component first ++ concat (component <$> pieces)), all. auto.
Qed.

Lemma rooted_text p : rooted p → rooted_components (relative_text p) = p.
Proof.
  intros (top & cs & texts & -> & Hcs & Htop). unfold rooted_components.
  destruct Htop as [->|[->| ->]]; cbn [app].
  - destruct Hcs as [|c text cs texts Hc Hcs]; [reflexivity|]. rewrite (split_below c text _ texts) by done.
    rewrite (bool_decide_eq_false_2 (text = [])) by by eapply below_nonempty. cbn [andb].
    rewrite bool_decide_eq_false_2 by by destruct Hc.
    by rewrite (component_text c text Hc), (components_of_texts cs texts).
  - change (relative_text (RootDir :: cs)) with ([] ++ ch "/" :: relative_text cs).
    rewrite split_by_app by done. rewrite bool_decide_eq_true_2 by done.
    destruct Hcs as [|c text cs texts Hc Hcs]; [reflexivity|]. rewrite (split_below c text _ texts) by done.
    rewrite bool_decide_eq_true_2 by done. cbn [andb app]. f_equal.
    apply components_of_texts. by constructor.
  - destruct Hcs as [|c text cs texts Hc Hcs].
    { cbn. unfold is_separator. by destruct windows. }
    change (relative_text (CurDir :: c :: cs)) with (lit "." ++ ch "/" :: relative_text (c :: cs)).
    rewrite split_by_app; [|cbn; unfold is_separator; by destruct windows|done].
    rewrite (split_below c text _ texts) by done. cbn [bool_decide andb].
    rewrite bool_decide_eq_false_2 by done. cbn [andb]. rewrite bool_decide_eq_true_2 by done.
    cbn [app]. f_equal. apply components_of_texts. by constructor.
Qed.

(** A text without a drive whose path has none either. *)
Lemma text_without_drive s :
  has_drive s = false → has_drive (relative_text (rooted_components s)) = false.
Proof.
  unfold has_drive. intros Hs. destruct windows eqn:Hw; [|done]. cbn [andb] in *.
  unfold rooted_components. destruct (split_by is_separator s) as [|first pieces] eqn:Hsplit; [done|].
  pose proof (split_by_pieces is_separator s) as Hp. rewrite Hsplit in Hp.
  apply Forall_cons in Hp as [Hf _].
  destruct (split_by_head _ _ _ _ Hsplit) as (later & -> & Hlater).
  destruct (bool_decide (first = []) && bool_decide (pieces ≠ [])) eqn:Hroot;
    [cbn; by destruct (relative_text _)|].
  destruct (decide (first = lit ".")) as [->|Hdot];
    [rewrite bool_decide_eq_true_2 by done; by destruct (concat _)|].
  rewrite (bool_decide_eq_false_2 (first = lit ".")) by done.
  destruct (decide (first = [])) as [->|Hne].
  { rewrite bool_decide_eq_true_2 in Hroot by done. cbn in Hroot.
    apply bool_decide_eq_false, dec_stable in Hroot as ->. reflexivity. }
  assert (Hc : ∃ c, below_first c first ∧ component first = [c]).
  { destruct (decide (first = lit "..")) as [->|Hdd]; [exists ParentDir|exists (Normal first)].
    - split; [constructor|reflexivity].
    - assert (Hb : below_first (Normal first) first) by by constructor.
      split; [done|by apply component_text]. }
  destruct Hc as (c & Hc & ->). cbn [app]. rewrite (below_text c first Hc).
  destruct first as [|c0 [|c1 first]]; [done| |exact Hs].
  destruct (concat _); cbn; [done|]. by rewrite andb_false_r.
Qed.

(** The text of a parsed path parses as that path. *)
Lemma parse_text_of_parsed s : parse_path (relative_text (parse_path s)) = parse_path s.
Proof.
  pose proof (rooted_text _ (rooted_components_rooted s)) as Hr.
  unfold parse_path at 2 3. destruct (has_drive s) eqn:Hs.
  - pose proof (rooted_text _ (rooted_components_rooted (drop 2 s))) as Hd.
    unfold has_drive in Hs. destruct windows eqn:Hw; [cbn [andb] in Hs|done].
    destruct s as [|c [|d s]]; [done..|]. apply andb_true_iff in Hs as [Hc _].
    change (drop 2 (c :: d :: s)) with s in *. cbn [nth]. unfold parse_path.
    assert (Hdrive : has_drive (relative_text (Prefix c :: rooted_components s)) = true)
      by (unfold has_drive; rewrite Hw; cbn; by rewrite Hc).
    rewrite Hdrive. cbn [relative_text app nth].
    change (drop 2 (c :: ch ":" :: ?t)) with t. by rewrite Hd.
  - unfold parse_path. by rewrite (text_without_drive s Hs).
Qed.

(** A name that a parsed path has parses as itself, but where it begins with a drive. *)
Lemma parse_name name :
  below_first (Normal name) name → has_drive name = false → parse_path name = [Normal name].
Proof.
  intros Hb Hd. unfold parse_path. rewrite Hd. unfold rooted_components.
  rewrite split_by_plain by (by eapply below_no_separator). cbn [fmap list_fmap concat].
  inversion Hb as [|? Hs Hne Hdot Hdd]; subst.
  rewrite (bool_decide_eq_false_2 (name = [])), (bool_decide_eq_false_2 (name = lit ".")) by done.
  cbn [andb]. by rewrite (component_text (Normal name) name), app_nil_r.
Qed.

Lemma parsed_names s name : Normal name ∈ parse_path s → below_first (Normal name) name.
Proof.
  assert (Hr : ∀ s, Normal name ∈ rooted_components s → below_first (Normal name) name).
  { intros t Hin. destruct (rooted_components_rooted t) as (top & cs & texts & Heq & Hcs & Htop).
    rewrite Heq in Hin. apply elem_of_app in Hin as [Hin|Hin].
    { destruct Htop as [->|[->| ->]]; by repeat (apply elem_of_cons in Hin as [?|Hin]; try done);
        apply not_elem_of_nil in Hin. }
    apply list_elem_of_lookup in Hin as [i Hi].
    destruct (Forall2_lookup_l _ _ _ _ _ Hcs Hi) as (text & _ & Hb).
    by inversion Hb; subst. }
  unfold parse_path. destruct (has_drive s); [|apply Hr].
  intros [?|Hin]%elem_of_cons; [done|by eapply Hr].
Qed.

(** Parsing and its text keep to the characters there were, and slashes and dots. *)
Lemma split_by_Forall (P : Z → Prop) (p : Z → bool) s :
  Forall P s → Forall (Forall P) (split_by p s).
Proof.
  induction 1 as [|c s Hc Hs IH]; cbn; [by repeat constructor|].
  destruct (p c); [by constructor|]. destruct IH; by repeat constructor.
Qed.

Definition component_chars (P : Z → Prop) (c : Component) : Prop :=
  match c with Prefix d => P d | Normal name => Forall P name | _ => True end.

Lemma relative_text_Forall (P : Z → Prop) p :
  P (ch "/") → P (ch ".") → P (ch ":") → Forall (component_chars P) p →
  Forall P (relative_text p).
Proof.
  intros Hs Hd Hc. induction 1 as [|c p Hcc Hp IH]; [constructor|]. cbn [relative_text].
  apply Forall_app; split; [destruct c; by repeat constructor|].
  apply Forall_app; split; [|done]. destruct c, p; by repeat constructor.
Qed.

Lemma component_Forall (P : Z → Prop) piece :
  Forall P piece → Forall (component_chars P) (component piece).
Proof. intros Hp. unfold component. repeat case_match; by repeat constructor. Qed.

Lemma parse_path_Forall (P : Z → Prop) s :
  Forall P s → Forall (component_chars P) (parse_path s).
Proof.
  assert (Hr : ∀ s, Forall P s → Forall (component_chars P) (rooted_components s)).
  { intros t Ht. unfold rooted_components. pose proof (split_by_Forall P is_separator t Ht) as Hp.
    destruct Hp as [|first pieces Hf Hps]; [constructor|]. apply Forall_app; split.
    - repeat case_match; repeat constructor. by apply component_Forall.
    - apply Forall_concat, Forall_fmap. eapply Forall_impl; [exact Hps|]. apply component_Forall. }
  intros Hs. unfold parse_path. destruct (has_drive s) eqn:Hd; [|by apply Hr].
  constructor; [|by apply Hr, Forall_drop]. unfold has_drive in Hd.
  destruct Hs; [by rewrite andb_false_r in Hd|done].
Qed.

Lemma parsed_text_Forall (P : Z → Prop) s :
  P (ch "/") → P (ch ".") → P (ch ":") → Forall P s → Forall P (relative_text (parse_path s)).
Proof. intros. by apply relative_text_Forall, parse_path_Forall. Qed.
End text.
