(* ===== verification/Delta.v ===== *)
(** * The delta engine: crates/rsync-delta/src

    Rolling checksum (rollsum.rs), block signatures (signature.rs), delta
    generation (matcher.rs) and application (apply.rs).  A [usize] is a [nat];
    bytes and checksum words are integers. *)

From stdpp Require Import sorting.
From S2P Require Import Prelude Stream WireIo.

(** ** rollsum.rs *)

Module Rollsum.

Record RollingChecksum := {
  a : Z;
  b : Z;
  len : nat;
}.

#[export] Instance RollingChecksum_eq_dec : EqDecision RollingChecksum.
Proof. solve_decision. Defined.

Definition mod_u16 (value : Z) : Z := value mod 65536.

(** [i64::from(byte as i8)] *)
Definition signed_byte (byte : Z) : Z := (byte + 128) mod 256 - 128.

Definition block_step (acc : Z * Z) (byte : Z) : Z * Z :=
  let a := mod_u16 (acc.1 + signed_byte byte) in
  let b := mod_u16 (acc.2 + a) in
  (a, b).

Definition from_block (block : list Z) : RollingChecksum :=
  let '(a, b) := fold_left block_step block (0, 0) in
  {| a := as_u16 a; b := as_u16 b; len := length block |}.

(** [None] is the panic of the [assert!]. *)
Definition roll (self : RollingChecksum) (outgoing incoming : Z) : option RollingChecksum :=
  if (0 <? len self)%nat then
    let outgoing := signed_byte outgoing in
    let incoming := signed_byte incoming in
    let a' := mod_u16 (a self - outgoing + incoming) in
    let b' := mod_u16 (b self - Z.of_nat (len self) * outgoing + a') in
    Some {| a := a'; b := b'; len := len self |}
  else None.

Definition digest (self : RollingChecksum) : Z :=
  Z.lor (Z.shiftl (b self) 16) (a self).

Definition rolling_checksum (block : list Z) : Z := digest (from_block block).

(** The sums the checksum keeps, before reduction. *)
Fixpoint sum_bytes (l : list Z) : Z :=
  match l with [] => 0 | x :: l => signed_byte x + sum_bytes l end.

Fixpoint weighted_sum (l : list Z) : Z :=
  match l with
  | [] => 0
  | x :: l => Z.of_nat (length (x :: l)) * signed_byte x + weighted_sum l
  end.

Lemma mod_u16_mod z : mod_u16 z = z mod 65536.
Proof. reflexivity. Qed.

Lemma fold_block_step l a0 b0 :
  fold_left block_step l (mod_u16 a0, mod_u16 b0) =
  (mod_u16 (a0 + sum_bytes l),
   mod_u16 (b0 + Z.of_nat (length l) * a0 + weighted_sum l)).
Proof.
  revert a0 b0. induction l as [|x l IH]; intros a0 b0.
  - cbn. f_equal; f_equal; lia.
  - cbn [fold_left]. unfold block_step at 2. cbn [fst snd]. unfold mod_u16 in *.
    rewrite Zplus_mod_idemp_l.
    replace ((b0 mod 65536 + (a0 + signed_byte x) mod 65536) mod 65536)
      with ((b0 + (a0 + signed_byte x)) mod 65536)
      by (symmetry; rewrite Zplus_mod_idemp_l, Zplus_mod_idemp_r; reflexivity).
    rewrite IH. cbn [sum_bytes weighted_sum length]. rewrite Nat2Z.inj_succ.
    f_equal; f_equal; lia.
Qed.

(** The closed form of a fresh checksum. *)
Lemma from_block_sums l :
  from_block l =
  {| a := mod_u16 (sum_bytes l); b := mod_u16 (weighted_sum l); len := length l |}.
Proof.
  unfold from_block. pose proof (fold_block_step l 0 0) as Hf.
  change (mod_u16 0) with 0 in Hf. rewrite Hf. unfold as_u16, mod_u16.
  change (2 ^ 16) with 65536. rewrite !Z.mod_mod by lia. f_equal; f_equal; lia.
Qed.

Lemma sum_bytes_app l1 l2 : sum_bytes (l1 ++ l2) = sum_bytes l1 + sum_bytes l2.
Proof. induction l1; simpl; lia. Qed.

Lemma weighted_sum_snoc l y :
  weighted_sum (l ++ [y]) = weighted_sum l + sum_bytes l + signed_byte y.
Proof.
  induction l as [|x l IH]; [cbn; lia|].
  cbn [app weighted_sum sum_bytes]. rewrite IH. cbn [length].
  rewrite length_app. cbn [length]. lia.
Qed.

Lemma roll_window x w y :
  roll (from_block (x :: w)) x y = Some (from_block (w ++ [y])).
Proof.
  rewrite !from_block_sums. unfold roll. cbn [len length a b].
  rewrite sum_bytes_app, weighted_sum_snoc, length_app. cbn [length sum_bytes weighted_sum].
  change (0 <? S (length w))%nat with true. cbn iota. f_equal.
  assert (Ha : mod_u16 (mod_u16 (signed_byte x + sum_bytes w) - signed_byte x +
      signed_byte y) = mod_u16 (sum_bytes w + (signed_byte y + 0))).
  { apply (mod_shift _ _ _ (- ((signed_byte x + sum_bytes w) / 65536))).
    unfold mod_u16. rewrite Z.mod_eq by lia. lia. }
  f_equal; [done| |lia]. rewrite Ha. unfold mod_u16.
  rewrite Zplus_mod_idemp_r.
  match goal with |- context [(?z mod 65536 - _)] =>
    apply (mod_shift _ _ _ (- (z / 65536))); rewrite (Z.mod_eq z) by lia end.
  lia.
Qed.

(** The rolled checksums of all windows of length [n] of [data]. *)
Fixpoint roll_along (c : RollingChecksum) (outgoing incoming : list Z) :
    option (list RollingChecksum) :=
  match outgoing, incoming with
  | o :: outgoing, i :: incoming =>
      c' ← roll c o i;
      rest ← roll_along c' outgoing incoming;
      Some (c' :: rest)
  | _, _ => Some []
  end.

Lemma digest_bound l : in_u32 (rolling_checksum l).
Proof.
  unfold rolling_checksum, digest. rewrite from_block_sums. cbn [a b]. unfold in_u32.
  pose proof (Z.mod_pos_bound (sum_bytes l) 65536).
  pose proof (Z.mod_pos_bound (weighted_sum l) 65536). unfold mod_u16.
  split.
  - apply Z.lor_nonneg. split; [apply Z.shiftl_nonneg; lia|lia].
  - apply Z.log2_lt_cancel. change (Z.log2 (2 ^ 32)) with 32.
    rewrite Z.log2_lor by (try apply Z.shiftl_nonneg; lia).
    apply Z.max_lub_lt.
    + destruct (Z.eqb_spec (weighted_sum l mod 65536) 0) as [->|]; [reflexivity|].
      rewrite Z.log2_shiftl by lia.
      assert (Z.log2 (weighted_sum l mod 65536) < 16) by (apply Z.log2_lt_pow2; lia). lia.
    + destruct (Z.eqb_spec (sum_bytes l mod 65536) 0) as [->|]; [reflexivity|].
      assert (Z.log2 (sum_bytes l mod 65536) < 16) by (apply Z.log2_lt_pow2; lia). lia.
Qed.
End Rollsum.

(** ** signature.rs *)

Module Signature.
Import Rollsum.

Inductive SignatureError := ZeroBlockSize.

(** [trait StrongChecksum] *)
Class StrongChecksum (S : Type) := strong_digest : S → list Z → list Z.

Record BlockSignature := {
  index : nat;
  offset : nat;
  sig_len : nat;
  weak : Z;
  strong : list Z;
}.

#[export] Instance BlockSignature_eq_dec : EqDecision BlockSignature.
Proof. solve_decision. Defined.

Definition fnv_prime : Z := 0x100000001b3.

Definition fnv1a64 (bytes : list Z) (seed : Z) : Z :=
  fold_left (λ hash byte, as_u64 (Z.lxor hash byte * fnv_prime)) bytes seed.

Inductive DeterministicStrongChecksum := Deterministic.

#[export] Instance deterministic_digest : StrongChecksum DeterministicStrongChecksum :=
  λ _ block,
    let first := fnv1a64 block 0xcbf29ce484222325 in
    let second := fnv1a64 block (Z.lxor 0x9e3779b97f4a7c15 (Z.of_nat (length block))) in
    le_encode 8 first ++ le_encode 8 second.

Definition block_signature {S} `{StrongChecksum S} (strong_checksum : S)
    (block_size index : nat) (block : list Z) : BlockSignature :=
  {| index := index; offset := index * block_size; sig_len := length block;
     weak := rolling_checksum block; strong := strong_digest strong_checksum block |}.

Definition generate_signatures_with {S} `{StrongChecksum S} (basis : list Z)
    (block_size : nat) (strong_checksum : S) : result (list BlockSignature) SignatureError :=
  if (block_size =? 0)%nat then Err ZeroBlockSize
  else Ok (imap (block_signature strong_checksum block_size) (chunks block_size basis)).

Definition generate_test_signatures (basis : list Z) (block_size : nat) :
    result (list BlockSignature) SignatureError :=
  generate_signatures_with basis block_size Deterministic.

(** [slice::chunks] gives the blocks at multiples of the block size. *)
Lemma lookup_chunks {A} n (l : list A) i :
  (0 < n)%nat →
  chunks n l !! i =
    if (i * n <? length l)%nat then Some (take n (drop (i * n) l)) else None.
Proof.
  intros Hn. revert l. induction i as [|i IH]; intros l.
  - destruct l as [|x l]; [done|]. by rewrite chunks_cons.
  - destruct l as [|x l]; [by rewrite Nat.mul_comm|].
    rewrite chunks_cons by done. rewrite lookup_cons, IH, length_drop, drop_drop.
    replace (S i * n)%nat with (n + i * n)%nat by lia.
    destruct (Nat.ltb_spec (i * n) (length (x :: l) - n)),
      (Nat.ltb_spec (n + i * n) (length (x :: l))); try lia; done.
Qed.

(** What a signature list says about its basis. *)
Definition describes {S} `{StrongChecksum S} (strong_checksum : S) (basis : list Z)
    (s : BlockSignature) : Prop :=
  (0 < sig_len s)%nat ∧ (offset s + sig_len s ≤ length basis)%nat ∧
  weak s = rolling_checksum (take (sig_len s) (drop (offset s) basis)) ∧
  strong s = strong_digest strong_checksum (take (sig_len s) (drop (offset s) basis)).

Lemma generate_describes {S} `{StrongChecksum S} (sc : S) basis n sigs :
  generate_signatures_with basis n sc = Ok sigs →
  Forall (describes sc basis) sigs.
Proof.
  unfold generate_signatures_with. destruct (Nat.eqb_spec n 0); [done|].
  intros ?; simplify_eq. apply Forall_lookup. intros i s.
  rewrite list_lookup_imap, lookup_chunks by lia.
  destruct (Nat.ltb_spec (i * n) (length basis)); [|done].
  cbn. intros ?; simplify_eq. unfold describes, block_signature.
  cbn [sig_len offset weak strong].
  assert (Hlen : length (take n (drop (i * n) basis)) = (n `min` (length basis - i * n))%nat)
    by (rewrite length_take, length_drop; lia).
  assert (Htake : take (length (take n (drop (i * n) basis))) (drop (i * n) basis) =
                  take n (drop (i * n) basis)).
  { destruct (Nat.le_ge_cases n (length basis - i * n)).
    - rewrite Hlen, Nat.min_l by lia. done.
    - rewrite !take_ge; [done|rewrite length_drop; lia..]. }
  rewrite Htake, Hlen. split_and!; [lia..|done|done].
Qed.
End Signature.

(** ** matcher.rs *)

Module Matcher.
Import Rollsum Signature.

Inductive DeltaToken :=
| Literal (bytes : list Z)
| Copy (offset len : nat).

#[export] Instance DeltaToken_eq_dec : EqDecision DeltaToken.
Proof. solve_decision. Defined.

Record SignatureIndex := {
  signatures : list BlockSignature;
  lengths_desc : list nat;
  by_len_and_weak : gmap (nat * Z) (list nat);
}.

#[export] Instance ge_decision : RelDecision ge.
Proof. intros x y. unfold ge. apply _. Defined.
#[export] Instance ge_total : Total ge.
Proof. intros x y. unfold ge. lia. Qed.
#[export] Instance ge_transitive : Transitive ge.
Proof. intros x y z. unfold ge. lia. Qed.

(** [entry(key).or_default().push(index)] *)
Definition push_entry (m : gmap (nat * Z) (list nat)) (key : nat * Z) (i : nat) :
    gmap (nat * Z) (list nat) :=
  <[key := default [] (m !! key) ++ [i]]> m.

Fixpoint index_signatures (i : nat) (sigs : list BlockSignature)
    (lengths : gset nat) (m : gmap (nat * Z) (list nat)) :
    gset nat * gmap (nat * Z) (list nat) :=
  match sigs with
  | [] => (lengths, m)
  | s :: sigs =>
      index_signatures (S i) sigs ({[sig_len s]} ∪ lengths)
        (push_entry m (sig_len s, weak s) i)
  end.

Definition new_index (sigs : list BlockSignature) : SignatureIndex :=
  let '(lengths, m) := index_signatures 0 sigs ∅ ∅ in
  {| signatures := sigs;
     lengths_desc := merge_sort ge (elements lengths);
     by_len_and_weak := m |}.

(** The first candidate whose strong checksum agrees. *)
Fixpoint find_strong (sigs : list BlockSignature) (candidates : list nat)
    (digest : list Z) : option BlockSignature :=
  match candidates with
  | [] => None
  | i :: candidates =>
      match sigs !! i with
      | Some s => if decide (strong s = digest) then Some s
                  else find_strong sigs candidates digest
      | None => find_strong sigs candidates digest
      end
  end.

Fixpoint find_match_lengths {S} `{StrongChecksum S} (self : SignatureIndex)
    (lengths : list nat) (target : list Z) (pos : nat) (strong_checksum : S) :
    option BlockSignature :=
  match lengths with
  | [] => None
  | len :: lengths =>
      let continue := find_match_lengths self lengths target pos strong_checksum in
      if (length target - pos <? len)%nat then continue
      else
        let candidate := take len (drop pos target) in
        let weak := rolling_checksum candidate in
        match by_len_and_weak self !! (len, weak) with
        | None => continue
        | Some signature_indexes =>
            let strong := strong_digest strong_checksum candidate in
            match find_strong (signatures self) signature_indexes strong with
            | Some s => Some s
            | None => continue
            end
        end
  end.

Definition find_match {S} `{StrongChecksum S} (self : SignatureIndex)
    (target : list Z) (pos : nat) (strong_checksum : S) : option BlockSignature :=
  find_match_lengths self (lengths_desc self) target pos strong_checksum.

Definition flush_literal (tokens : list DeltaToken) (literal : list Z) : list DeltaToken :=
  match literal with
  | [] => tokens
  | _ => tokens ++ [Literal literal]
  end.

(** The [while pos < target.len()] loop; a signature of length 0 would keep it
    from advancing, so it runs on fuel and [None] is "out of fuel". *)
Fixpoint delta_loop {S} `{StrongChecksum S} (fuel : nat) (idx : SignatureIndex)
    (target : list Z) (strong_checksum : S) (pos : nat)
    (tokens : list DeltaToken) (literal : list Z) : option (list DeltaToken) :=
  if (pos <? length target)%nat then
    match fuel with
    | O => None
    | S fuel =>
        match find_match idx target pos strong_checksum with
        | Some s =>
            delta_loop fuel idx target strong_checksum (pos + sig_len s)
              (flush_literal tokens literal ++ [Copy (offset s) (sig_len s)]) []
        | None =>
            delta_loop fuel idx target strong_checksum (pos + 1)
              tokens (literal ++ [nth pos target 0])
        end
    end
  else Some (flush_literal tokens literal).

Definition generate_delta_with {S} `{StrongChecksum S} (sigs : list BlockSignature)
    (target : list Z) (strong_checksum : S) : option (list DeltaToken) :=
  match target, sigs with
  | [], _ => Some []
  | _, [] => Some [Literal target]
  | _, _ => delta_loop (length target) (new_index sigs) target strong_checksum 0 [] []
  end.

Definition generate_test_delta (sigs : list BlockSignature) (target : list Z) :
    option (list DeltaToken) :=
  generate_delta_with sigs target Deterministic.
End Matcher.

(** ** apply.rs *)

Module Apply.
Import Matcher.

Inductive ApplyError := CopyOutOfBounds (offset len basis_len : nat).

#[export] Instance ApplyError_eq_dec : EqDecision ApplyError.
Proof. solve_decision. Defined.

(** [basis.get(offset..end)] *)
Definition slice_get (basis : list Z) (start stop : nat) : option (list Z) :=
  if (start <=? stop)%nat && (stop <=? length basis)%nat
  then Some (take (stop - start) (drop start basis)) else None.

(** [offset.checked_add(len)] on a 64-bit [usize]. *)
Definition checked_add_usize (x y : nat) : option nat :=
  if Z.of_nat x + Z.of_nat y <? 2 ^ 64 then Some (x + y)%nat else None.

Fixpoint apply_tokens (basis : list Z) (tokens : list DeltaToken) (output : list Z) :
    result (list Z) ApplyError :=
  match tokens with
  | [] => Ok output
  | Literal bytes :: tokens => apply_tokens basis tokens (output ++ bytes)
  | Copy offset len :: tokens =>
      let out_of_bounds := CopyOutOfBounds offset len (length basis) in
      match checked_add_usize offset len with
      | None => Err out_of_bounds
      | Some stop =>
          match slice_get basis offset stop with
          | None => Err out_of_bounds
          | Some bytes => apply_tokens basis tokens (output ++ bytes)
          end
      end
  end.

Definition apply_delta (basis : list Z) (tokens : list DeltaToken) :
    result (list Z) ApplyError :=
  apply_tokens basis tokens [].
End Apply.
