(* ===== verification/DeltaFacts.v ===== *)
(** * Facts about the delta engine

    The hash index of the matcher against a plain search, and the loop of the
    generator against the basis and the target. *)

From stdpp Require Import sorting.
From S2P Require Import Prelude Stream WireIo Delta.
Import Rollsum Signature Matcher Apply.

(** ** The hash index *)

(** The positions, from [i] on, of the signatures with a given key. *)
Fixpoint positions (i : nat) (sigs : list BlockSignature) (key : nat * Z) : list nat :=
  match sigs with
  | [] => []
  | s :: sigs =>
      if decide ((sig_len s, weak s) = key) then i :: positions (S i) sigs key
      else positions (S i) sigs key
  end.

Lemma index_signatures_map i sigs lengths m key :
  default [] ((index_signatures i sigs lengths m).2 !! key) =
  default [] (m !! key) ++ positions i sigs key.
Proof.
  revert i lengths m. induction sigs as [|s sigs IH]; intros i lengths m; cbn.
  - by rewrite app_nil_r.
  - rewrite IH. unfold push_entry. case_decide as Hk.
    + subst key. rewrite lookup_insert_eq. cbn. by rewrite <-app_assoc.
    + by rewrite lookup_insert_ne.
Qed.

Lemma index_signatures_lengths i sigs lengths m n :
  n ∈ (index_signatures i sigs lengths m).1 ↔
  n ∈ lengths ∨ ∃ s, s ∈ sigs ∧ sig_len s = n.
Proof.
  revert i lengths m. induction sigs as [|s sigs IH]; intros i lengths m; cbn.
  - set_solver.
  - rewrite IH. set_solver.
Qed.

Section new_index.
Context (sigs : list BlockSignature).

Lemma new_index_signatures : signatures (new_index sigs) = sigs.
Proof. unfold new_index. by destruct (index_signatures _ _ _ _). Qed.

Lemma new_index_lookup key :
  default [] (by_len_and_weak (new_index sigs) !! key) = positions 0 sigs key.
Proof.
  unfold new_index. pose proof (index_signatures_map 0 sigs ∅ ∅ key) as Hm.
  destruct (index_signatures _ _ _ _). cbn in *. by rewrite Hm, lookup_empty.
Qed.

Lemma new_index_lengths n :
  n ∈ lengths_desc (new_index sigs) ↔ ∃ s, s ∈ sigs ∧ sig_len s = n.
Proof.
  unfold new_index. pose proof (index_signatures_lengths 0 sigs ∅ ∅ n) as Hm.
  destruct (index_signatures _ _ _ _) as [ls m]. cbn in *.
  rewrite merge_sort_Permutation, elem_of_elements, Hm. set_solver.
Qed.

Lemma new_index_sorted : StronglySorted ge (lengths_desc (new_index sigs)).
Proof.
  unfold new_index. destruct (index_signatures _ _ _ _).
  apply (StronglySorted_merge_sort ge).
Qed.
End new_index.

(** ** The search, without the index *)

(** [s] matches the target at [pos]. *)
Definition sig_matches {S} `{StrongChecksum S} (sc : S) (target : list Z) (pos : nat)
    (s : BlockSignature) : Prop :=
  let candidate := take (sig_len s) (drop pos target) in
  (sig_len s ≤ length target - pos)%nat ∧
  weak s = rolling_checksum candidate ∧
  strong s = strong_digest sc candidate.

#[export] Instance sig_matches_dec {S} `{StrongChecksum S} (sc : S) target pos s :
  Decision (sig_matches sc target pos s).
Proof. unfold sig_matches. apply _. Defined.

(** The longest signature of a list; the first one among equals. *)
Fixpoint first_longest (sigs : list BlockSignature) : option BlockSignature :=
  match sigs with
  | [] => None
  | s :: sigs =>
      match first_longest sigs with
      | Some t => if (sig_len s <? sig_len t)%nat then Some t else Some s
      | None => Some s
      end
  end.

Definition reference_match {S} `{StrongChecksum S} (sigs : list BlockSignature)
    (target : list Z) (pos : nat) (sc : S) : option BlockSignature :=
  first_longest (filter (sig_matches sc target pos) sigs).

Lemma first_longest_none sigs : first_longest sigs = None → sigs = [].
Proof. destruct sigs; cbn; [done|]. repeat case_match; done. Qed.

Lemma first_longest_in sigs s : first_longest sigs = Some s → s ∈ sigs.
Proof.
  revert s. induction sigs as [|t sigs IH]; intros s; cbn; [done|].
  repeat case_match; intros; simplify_eq; set_solver.
Qed.

(** The first of the elements of maximal length. *)
Lemma first_longest_max n sigs :
  Forall (λ s, sig_len s ≤ n)%nat sigs →
  ∀ s rest, filter (λ s, sig_len s = n) sigs = s :: rest → first_longest sigs = Some s.
Proof.
  induction 1 as [|t sigs Ht Hall IH]; intros s rest; [done|].
  rewrite filter_cons. case_decide as Htn; cbn [first_longest].
  - intros ?; simplify_eq. destruct (first_longest sigs) as [u|] eqn:Hu; [|done].
    apply first_longest_in in Hu. rewrite Forall_forall in Hall.
    specialize (Hall u Hu). cbn in Hall. destruct (Nat.ltb_spec (sig_len s) (sig_len u)); [lia|done].
  - intros Hf. rewrite (IH s rest Hf).
    assert (sig_len s = n).
    { assert (Hin : s ∈ filter (λ s, sig_len s = n) sigs) by (rewrite Hf; set_solver).
      by apply list_elem_of_filter in Hin as [? _]. }
    destruct (Nat.ltb_spec (sig_len t) (sig_len s)); [done|lia].
Qed.

Lemma find_strong_positions pre sigs key d :
  find_strong (pre ++ sigs) (positions (length pre) sigs key) d =
  head (filter (λ s, (sig_len s, weak s) = key ∧ strong s = d) sigs).
Proof.
  revert pre. induction sigs as [|s sigs IH]; intros pre; [done|].
  specialize (IH (pre ++ [s])). rewrite <-app_assoc, length_app, Nat.add_1_r in IH.
  cbn [positions]. rewrite filter_cons. cbn [app] in IH.
  destruct (decide ((sig_len s, weak s) = key)) as [Hk|Hk].
  - cbn [find_strong]. rewrite list_lookup_middle by done.
    repeat case_decide; naive_solver.
  - rewrite IH. case_decide; naive_solver.
Qed.

Section find_match.
Context {S : Type} `{StrongChecksum S} (sc : S).
Context (sigs : list BlockSignature) (target : list Z) (pos : nat).

Abbreviation matches := (filter (sig_matches sc target pos) sigs).

Lemma find_candidates n :
  (n ≤ length target - pos)%nat →
  let candidate := take n (drop pos target) in
  find_strong sigs (positions 0 sigs (n, rolling_checksum candidate))
    (strong_digest sc candidate) =
  head (filter (λ s, sig_len s = n) matches).
Proof.
  intros Hn candidate. rewrite (find_strong_positions [] sigs).
  rewrite list_filter_filter. f_equal. apply list_filter_iff. intros s.
  unfold sig_matches, candidate. split.
  - intros [Hk Hs]. simplify_eq. by split_and!.
  - intros [Hlen (_ & Hw & Hs)]. subst n. split; [by f_equal|done].
Qed.

Lemma find_match_lengths_eq ls :
  StronglySorted ge ls → (∀ s, s ∈ matches → sig_len s ∈ ls) →
  find_match_lengths (new_index sigs) ls target pos sc = first_longest matches.
Proof.
  induction 1 as [|n ls Hsorted IH Hge]; intros Hin.
  - destruct matches as [|s ms]; [done|]. specialize (Hin s). set_solver.
  - assert (Hnext : filter (λ s, sig_len s = n) matches = [] →
      find_match_lengths (new_index sigs) ls target pos sc = first_longest matches).
    { intros Hnone. apply IH. intros s Hs. specialize (Hin s Hs).
      apply elem_of_cons in Hin as [Hn|]; [|done].
      assert (Hs' : s ∈ filter (λ s, sig_len s = n) matches)
        by (apply list_elem_of_filter; done).
      rewrite Hnone in Hs'. by apply elem_of_nil in Hs'. }
    cbn [find_match_lengths].
    destruct (Nat.ltb_spec (length target - pos) n) as [Hlt|Hle].
    { apply Hnext. destruct (filter _ matches) as [|s ms] eqn:Hf; [done|].
      assert (Hs : s ∈ filter (λ s, sig_len s = n) matches) by (rewrite Hf; set_solver).
      apply list_elem_of_filter in Hs as [Hlen Hs].
      apply list_elem_of_filter in Hs as [[Hle _] _]. lia. }
    pose proof (find_candidates n Hle) as Hc. cbv zeta in Hc.
    rewrite <-new_index_lookup in Hc. rewrite new_index_signatures.
    assert (Hfound : match head (filter (λ s, sig_len s = n) matches) with
                     | Some s => Some s
                     | None => find_match_lengths (new_index sigs) ls target pos sc
                     end = first_longest matches).
    { destruct (filter _ matches) as [|s ms] eqn:Hf; cbn [head]; [by apply Hnext|].
      symmetry. apply (first_longest_max n _) with (rest := ms); [|done].
      apply Forall_forall. intros t Ht. specialize (Hin t Ht).
      apply elem_of_cons in Hin as [->|Hin]; [done|].
      rewrite Forall_forall in Hge. by apply Hge. }
    rewrite <-Hfound, <-Hc.
    by destruct (by_len_and_weak (new_index sigs) !! _).
Qed.

Lemma find_match_eq :
  find_match (new_index sigs) target pos sc = reference_match sigs target pos sc.
Proof.
  apply find_match_lengths_eq; [apply new_index_sorted|].
  intros s [_ Hs]%list_elem_of_filter. apply new_index_lengths. eauto.
Qed.

Lemma find_match_some s :
  find_match (new_index sigs) target pos sc = Some s →
  s ∈ sigs ∧ sig_matches sc target pos s.
Proof.
  rewrite find_match_eq. intros Hs%first_longest_in.
  by apply list_elem_of_filter in Hs as [??].
Qed.
End find_match.

(** ** Applying tokens *)

Lemma apply_tokens_app basis t1 t2 out :
  apply_tokens basis (t1 ++ t2) out =
  match apply_tokens basis t1 out with
  | Ok out => apply_tokens basis t2 out
  | Err e => Err e
  end.
Proof.
  revert out. induction t1 as [|[bs|o n] t1 IH]; intros out; cbn; [done|apply IH|].
  by destruct (checked_add_usize o n) as [stop|]; [destruct (slice_get basis o stop)|].
Qed.

Lemma apply_literal basis literal out :
  apply_tokens basis (flush_literal [] literal) out = Ok (out ++ literal).
Proof. destruct literal; cbn; [by rewrite app_nil_r|done]. Qed.

Lemma flush_literal_app tokens literal :
  flush_literal tokens literal = tokens ++ flush_literal [] literal.
Proof. destruct literal; cbn; [by rewrite app_nil_r|done]. Qed.

Lemma apply_copy basis offset n out :
  (offset + n ≤ length basis)%nat → Z.of_nat (length basis) < 2 ^ 64 →
  apply_tokens basis [Copy offset n] out = Ok (out ++ take n (drop offset basis)).
Proof.
  intros Hin Hbasis. cbn [apply_tokens]. unfold checked_add_usize, slice_get.
  destruct (Z.ltb_spec (Z.of_nat offset + Z.of_nat n) (2 ^ 64)); [|lia].
  destruct (Nat.leb_spec offset (offset + n)), (Nat.leb_spec (offset + n) (length basis));
    try lia. cbn [andb]. do 4 f_equal. lia.
Qed.

(** A token the basis can serve. *)
Definition token_in_range (basis : list Z) (t : DeltaToken) : Prop :=
  match t with
  | Literal _ => True
  | Copy offset n => (offset + n ≤ length basis)%nat
  end.

(** The bytes a token stands for. *)
Definition token_bytes (basis : list Z) (t : DeltaToken) : list Z :=
  match t with
  | Literal bytes => bytes
  | Copy offset n => take n (drop offset basis)
  end.

Lemma apply_tokens_in_range basis tokens out :
  Z.of_nat (length basis) < 2 ^ 64 → Forall (token_in_range basis) tokens →
  apply_tokens basis tokens out = Ok (out ++ concat (token_bytes basis <$> tokens)).
Proof.
  intros Hbasis Hall. revert out.
  induction Hall as [|[bs|o n] tokens Ht Hall IH]; intros out.
  - cbn. by rewrite app_nil_r.
  - cbn. by rewrite IH, <-app_assoc.
  - change (Copy o n :: tokens) with ([Copy o n] ++ tokens).
    rewrite apply_tokens_app, apply_copy by done. rewrite IH. cbn.
    by rewrite <-app_assoc.
Qed.

(** The first token out of range stops the application. *)
Lemma apply_tokens_out_of_range basis pre offset n tokens out :
  Forall (token_in_range basis) pre → (length basis < offset + n)%nat →
  Z.of_nat (length basis) < 2 ^ 64 →
  apply_tokens basis (pre ++ Copy offset n :: tokens) out =
    Err (CopyOutOfBounds offset n (length basis)).
Proof.
  intros Hpre Hout Hbasis. rewrite apply_tokens_app, apply_tokens_in_range by done.
  cbn [apply_tokens]. unfold checked_add_usize, slice_get.
  destruct (Z.of_nat offset + Z.of_nat n <? 2 ^ 64); [|done].
  destruct (Nat.leb_spec (offset + n) (length basis)); [lia|].
  by rewrite andb_false_r.
Qed.

(** ** The generating loop *)

(** The shape of a delta: literals are not empty and never adjacent, copies are
    not empty. *)
Fixpoint delta_normal (tokens : list DeltaToken) : Prop :=
  match tokens with
  | [] => True
  | Literal bytes :: rest =>
      bytes ≠ [] ∧
      match rest with Literal _ :: _ => False | _ => True end ∧ delta_normal rest
  | Copy _ n :: rest => (0 < n)%nat ∧ delta_normal rest
  end.

(** The delta the generator is meant to produce: at each position the longest
    matching block, the earliest one among equals, or else a literal byte. *)
Inductive greedy {S} `{StrongChecksum S} (sc : S) (sigs : list BlockSignature)
    (target : list Z) : nat → list Z → list DeltaToken → Prop :=
| greedy_end pos literal :
    (length target ≤ pos)%nat →
    greedy sc sigs target pos literal (flush_literal [] literal)
| greedy_copy pos literal s rest :
    (pos < length target)%nat → reference_match sigs target pos sc = Some s →
    greedy sc sigs target (pos + sig_len s) [] rest →
    greedy sc sigs target pos literal
      (flush_literal [] literal ++ Copy (offset s) (sig_len s) :: rest)
| greedy_literal pos literal rest :
    (pos < length target)%nat → reference_match sigs target pos sc = None →
    greedy sc sigs target (pos + 1) (literal ++ [nth pos target 0]) rest →
    greedy sc sigs target pos literal rest.

Section loop.
Context {S : Type} `{StrongChecksum S} (sc : S).
Context (sigs : list BlockSignature) (target : list Z).

Lemma delta_loop_greedy fuel pos tokens literal out :
  delta_loop fuel (new_index sigs) target sc pos tokens literal = Some out →
  ∃ rest, out = tokens ++ rest ∧ greedy sc sigs target pos literal rest.
Proof.
  revert pos tokens literal. induction fuel as [|fuel IH]; intros pos tokens literal;
    cbn [delta_loop]; destruct (Nat.ltb_spec pos (length target)); try done.
  1, 3: intros ?; simplify_eq; rewrite flush_literal_app; eexists; split; [done|];
    by apply greedy_end.
  rewrite find_match_eq. destruct (reference_match sigs target pos sc) as [s|] eqn:Hs.
  - intros (rest & -> & Hrest)%IH.
    exists (flush_literal [] literal ++ Copy (offset s) (sig_len s) :: rest).
    split; [|by apply greedy_copy]. by rewrite flush_literal_app, <-!app_assoc.
  - intros (rest & -> & Hrest)%IH. exists rest. split; [done|]. by apply greedy_literal.
Qed.

Lemma reference_match_some pos s :
  reference_match sigs target pos sc = Some s →
  s ∈ sigs ∧ sig_matches sc target pos s.
Proof. rewrite <-find_match_eq. apply find_match_some. Qed.

(** Each turn of the loop advances, so the target's length is enough fuel. *)
Lemma delta_loop_total fuel pos tokens literal :
  Forall (λ s, 0 < sig_len s)%nat sigs → (length target ≤ pos + fuel)%nat →
  is_Some (delta_loop fuel (new_index sigs) target sc pos tokens literal).
Proof.
  intros Hpos. revert pos tokens literal.
  induction fuel as [|fuel IH]; intros pos tokens literal Hfuel;
    cbn [delta_loop]; destruct (Nat.ltb_spec pos (length target)); try (by eexists); [lia|].
  destruct (find_match _ _ _ _) as [s|] eqn:Hs; apply IH; [|lia].
  apply find_match_some in Hs as [Hin _]. rewrite Forall_forall in Hpos.
  specialize (Hpos s Hin). cbn in Hpos. lia.
Qed.

Context (basis : list Z) (Hsigs : Forall (describes sc basis) sigs).

Lemma describes_match pos s :
  reference_match sigs target pos sc = Some s →
  describes sc basis s ∧ sig_matches sc target pos s.
Proof.
  intros [Hin Hm]%reference_match_some. split; [|done].
  rewrite Forall_forall in Hsigs. by apply Hsigs.
Qed.

Lemma greedy_in_range pos literal rest :
  greedy sc sigs target pos literal rest → Forall (token_in_range basis) rest.
Proof.
  induction 1 as [pos [|x l] Hpos|pos [|x l] s rest Hpos [(?&?&_) _]%describes_match _ IH|];
    cbn; repeat constructor; cbn; done.
Qed.

Lemma greedy_normal pos literal rest :
  greedy sc sigs target pos literal rest → delta_normal rest.
Proof.
  induction 1 as [pos [|x l] Hpos|pos [|x l] s rest Hpos [(?&?&_) _]%describes_match _ IH|];
    cbn; done.
Qed.

(** The output always has the length of the target, collisions or not. *)
Lemma greedy_length pos literal rest :
  greedy sc sigs target pos literal rest → (pos ≤ length target)%nat →
  length (concat (token_bytes basis <$> rest)) =
  (length literal + (length target - pos))%nat.
Proof.
  induction 1 as [pos literal Hpos
    |pos literal s rest Hpos [(?&?&_) [Hlen _]]%describes_match _ IH
    |pos literal rest Hpos _ _ IH]; intros Hle.
  - destruct literal; cbn; rewrite ?length_app; cbn; lia.
  - assert (Hf : length (concat (token_bytes basis <$> flush_literal [] literal)) =
      length literal) by (destruct literal; cbn; rewrite ?length_app; cbn; lia).
    rewrite fmap_app, concat_app, length_app, Hf. cbn.
    rewrite length_app, length_take, length_drop, IH by lia. cbn. lia.
  - rewrite IH, length_app by lia. cbn. lia.
Qed.

(** Equal checksums mean equal windows. *)
Definition collision_free : Prop :=
  ∀ n i j, (i + n ≤ length basis)%nat → (j + n ≤ length target)%nat →
    let block := take n (drop i basis) in
    let window := take n (drop j target) in
    rolling_checksum block = rolling_checksum window →
    strong_digest sc block = strong_digest sc window → block = window.

Lemma greedy_bytes pos literal rest :
  collision_free → greedy sc sigs target pos literal rest →
  concat (token_bytes basis <$> rest) = literal ++ drop pos target.
Proof.
  intros Hfree. induction 1 as [pos literal Hpos
    |pos literal s rest Hpos [(?&?&Hw&Hs) (Hlen&Hw'&Hs')]%describes_match _ IH
    |pos literal rest Hpos _ _ IH].
  - rewrite drop_ge by done. destruct literal; cbn; [done|by rewrite app_nil_r].
  - assert (Hf : concat (token_bytes basis <$> flush_literal [] literal) = literal)
      by (destruct literal; cbn; rewrite ?app_nil_r; done).
    rewrite fmap_app, concat_app, Hf. cbn. f_equal. rewrite IH. cbn.
    rewrite <-drop_drop, (Hfree (sig_len s) (offset s) pos) by (congruence || lia).
    apply take_drop.
  - rewrite IH, <-app_assoc. f_equal. cbn.
    destruct (lookup_lt_is_Some_2 target pos Hpos) as [x Hx].
    rewrite (nth_lookup_Some _ _ _ _ Hx), Nat.add_1_r. symmetry. by apply drop_S.
Qed.
End loop.

Lemma generate_delta_greedy {S} `{StrongChecksum S} (sc : S) sigs target out :
  generate_delta_with sigs target sc = Some out →
  greedy sc sigs target 0 [] out.
Proof.
  unfold generate_delta_with. destruct target as [|x target]; [|destruct sigs as [|s sigs]].
  - intros ?; simplify_eq. by apply (greedy_end _ _ _ 0 []).
  - intros ?; simplify_eq.
    assert (Hgo : ∀ rest pre, pre ++ rest = x :: target →
      greedy sc [] (x :: target) (length pre) pre (flush_literal [] (x :: target))).
    { induction rest as [|y rest IH]; intros pre Heq; rewrite <-Heq.
      - rewrite app_nil_r. by apply greedy_end.
      - apply greedy_literal; [rewrite length_app; cbn; lia|done|].
        rewrite nth_middle. rewrite Heq.
        specialize (IH (pre ++ [y])). rewrite <-app_assoc, length_app in IH.
        by apply IH. }
    by apply (Hgo (x :: target) []).
  - intros (rest & -> & Hrest)%delta_loop_greedy. done.
Qed.

Lemma generate_delta_total {S} `{StrongChecksum S} (sc : S) sigs target :
  Forall (λ s, 0 < sig_len s)%nat sigs → is_Some (generate_delta_with sigs target sc).
Proof.
  intros Hpos. unfold generate_delta_with.
  destruct target as [|x target]; [by eexists|].
  destruct sigs as [|s sigs]; [by eexists|]. by apply delta_loop_total.
Qed.

Lemma roll_along_windows w x incoming :
  roll_along (from_block (x :: w)) (x :: w ++ incoming) incoming =
  Some ((λ i, from_block (take (S (length w)) (drop (S i) (x :: w ++ incoming)))) <$>
        seq 0 (length incoming)).
Proof.
  revert w x. induction incoming as [|y incoming IH]; intros w x.
  - destruct w; done.
  - cbn [roll_along length seq fmap list_fmap]. rewrite roll_window. cbn [mbind option_bind].
    assert (Hsplit : ∃ x' w', w ++ [y] = x' :: w' ∧ length w' = length w).
    { destruct w as [|x' w']; [by exists y, []|].
      exists x', (w' ++ [y]). split; [done|]. rewrite length_app. cbn. lia. }
    destruct Hsplit as (x' & w' & Hw & Hlen).
    assert (Hrest : w ++ y :: incoming = x' :: w' ++ incoming)
      by (rewrite app_comm_cons, <-Hw, <-app_assoc; done).
    rewrite Hw, Hrest, IH. cbn [option_bind mbind]. f_equal. f_equal.
    + f_equal. cbn [drop]. rewrite <-Hlen. symmetry.
      exact (take_app_length (x' :: w') incoming).
    + rewrite <-fmap_S_seq, <-list_fmap_compose. apply list_fmap_ext.
      intros i j _. cbn. by rewrite Hlen.
Qed.

Lemma generate_signatures_ok {S} `{StrongChecksum S} (sc : S) basis n :
  (0 < n)%nat → ∃ sigs, generate_signatures_with basis n sc = Ok sigs.
Proof.
  intros Hn. unfold generate_signatures_with.
  destruct (Nat.eqb_spec n 0); [lia|]. by eexists.
Qed.

Lemma describes_positive {S} `{StrongChecksum S} (sc : S) basis sigs :
  Forall (describes sc basis) sigs → Forall (λ s, 0 < sig_len s)%nat sigs.
Proof. intros Hall. eapply Forall_impl; [exact Hall|]. by intros s (?&_). Qed.

(** ** Properties *)

(** Signatures for witnesses: the identity as strong checksum has no collisions. *)
Inductive IdentityChecksum := Identity.
#[export] Instance identity_digest : StrongChecksum IdentityChecksum := λ _ block, block.

Lemma identity_collision_free basis target : collision_free Identity target basis.
Proof. by intros n i j _ _ block window _ Heq. Qed.

(** Rolling the checksum along the data one byte at a time gives, at
    every step, exactly the checksum computed afresh from the window: the
    incremental update of rollsum.rs is equivalent to [from_block]. *)
Theorem rolling_equals_recomputing w x incoming :
  let data := x :: w ++ incoming in
  let n := S (length w) in
  roll_along (from_block (x :: w)) data incoming =
  Some ((λ i, from_block (take n (drop (S i) data))) <$> seq 0 (length incoming)).
Proof. apply roll_along_windows. Qed.

(** The matcher's index (lengths sorted, buckets by length and weak
    checksum) finds the same block as a search of the whole signature list: the
    longest signature that matches the target at [pos], the first one among
    equals. *)
Theorem find_match_is_reference {S} `{StrongChecksum S} (sc : S) sigs target pos :
  find_match (new_index sigs) target pos sc = reference_match sigs target pos sc.
Proof. apply find_match_eq. Qed.

(** On the signatures of any basis the generating loop terminates
    within one turn per target byte, its tokens are the greedy delta in normal
    form, every copy lies inside the basis, and the application succeeds with an
    output as long as the target, whatever the checksums are. *)
Theorem generate_delta_safe {S} `{StrongChecksum S} (sc : S) basis target n sigs :
  generate_signatures_with basis n sc = Ok sigs → Z.of_nat (length basis) < 2 ^ 64 →
  ∃ tokens output,
    generate_delta_with sigs target sc = Some tokens ∧
    greedy sc sigs target 0 [] tokens ∧ delta_normal tokens ∧
    apply_delta basis tokens = Ok output ∧ length output = length target.
Proof.
  intros Hsigs%generate_describes Hbasis.
  destruct (generate_delta_total sc sigs target) as [tokens Ht];
    [by eapply describes_positive|].
  pose proof (generate_delta_greedy _ _ _ _ Ht) as Hg.
  exists tokens. eexists. split_and!; [done|done|by eapply greedy_normal| |].
  - apply (apply_tokens_in_range _ _ [] Hbasis). by eapply greedy_in_range.
  - pose proof (greedy_length _ _ _ _ Hsigs _ _ _ Hg) as Hlen. cbn in Hlen. cbn. lia.
Qed.

Lemma generate_delta_safe_witness :
  ∃ tokens output,
    generate_delta_with [block_signature Deterministic 2 0 [1; 2]] [3; 1; 2]
      Deterministic = Some tokens ∧
    greedy Deterministic [block_signature Deterministic 2 0 [1; 2]] [3; 1; 2] 0 [] tokens ∧
    delta_normal tokens ∧
    apply_delta [1; 2] tokens = Ok output ∧ length output = 3%nat.
Proof.
  apply (generate_delta_safe Deterministic [1; 2] [3; 1; 2] 2); vm_compute; reflexivity.
Defined.

(** C3. The delta of a target against the signatures of a basis
    reconstructs the target from the basis, when no block of the basis and
    window of the target collide on both checksums. *)
Theorem delta_round_trip {S} `{StrongChecksum S} (sc : S) basis target n :
  (0 < n)%nat → Z.of_nat (length basis) < 2 ^ 64 → collision_free sc target basis →
  ∃ sigs tokens,
    generate_signatures_with basis n sc = Ok sigs ∧
    generate_delta_with sigs target sc = Some tokens ∧
    apply_delta basis tokens = Ok target.
Proof.
  intros Hn Hbasis Hfree. destruct (generate_signatures_ok sc basis n Hn) as [sigs Hsigs].
  pose proof (generate_describes _ _ _ _ Hsigs) as Hdesc.
  destruct (generate_delta_total sc sigs target) as [tokens Ht];
    [by eapply describes_positive|].
  pose proof (generate_delta_greedy _ _ _ _ Ht) as Hg.
  exists sigs, tokens. split_and!; [done|done|]. unfold apply_delta.
  rewrite apply_tokens_in_range by (done || by eapply greedy_in_range).
  f_equal. by apply (greedy_bytes _ _ _ _ Hdesc _ _ _ Hfree Hg).
Qed.

Lemma delta_round_trip_witness :
  ∃ sigs tokens,
    generate_signatures_with [1; 2; 3; 4; 5] 2 Identity = Ok sigs ∧
    generate_delta_with sigs [9; 3; 4; 7] Identity = Some tokens ∧
    apply_delta [1; 2; 3; 4; 5] tokens = Ok [9; 3; 4; 7].
Proof.
  apply (delta_round_trip Identity); [lia|vm_compute; reflexivity|].
  apply identity_collision_free.
Defined.

(** C40. Applying tokens concatenates the literals and the copied ranges of
    the basis; the first copy that reaches past the end of the basis makes it
    fail with that copy, before any later token is looked at. *)
Theorem apply_delta_spec basis tokens :
  Z.of_nat (length basis) < 2 ^ 64 →
  (Forall (token_in_range basis) tokens →
    apply_delta basis tokens = Ok (concat (token_bytes basis <$> tokens))) ∧
  (∀ before offset n after,
    tokens = before ++ Copy offset n :: after →
    Forall (token_in_range basis) before → (length basis < offset + n)%nat →
    apply_delta basis tokens = Err (CopyOutOfBounds offset n (length basis))).
Proof.
  intros Hbasis. split.
  - intros Hall. by apply (apply_tokens_in_range _ _ []).
  - intros before offset n after -> Hpre Hout. by apply apply_tokens_out_of_range.
Qed.

Lemma apply_delta_spec_witness :
  apply_delta [1; 2; 3] [Literal [7]; Copy 1 2] = Ok [7; 2; 3] ∧
  apply_delta [1; 2; 3] [Copy 0 1; Copy 2 2; Copy 9 9] = Err (CopyOutOfBounds 2 2 3).
Proof.
  split.
  - apply (apply_delta_spec [1; 2; 3] [Literal [7]; Copy 1 2]); [vm_compute; reflexivity|].
    repeat constructor.
  - apply (apply_delta_spec [1; 2; 3] [Copy 0 1; Copy 2 2; Copy 9 9])
      with (before := [Copy 0 1]) (after := [Copy 9 9]);
      [vm_compute; reflexivity|reflexivity|repeat constructor|cbn; lia].
Defined.
