(* ===== verification/Flist.v ===== *)
(** * File lists: the data and the helpers of crates/rsync-protocol/src/flist.rs

    The wire types, path validation, allocation budgets, the batch builder and
    the internal codec.  The protocol-27 and protocol-31 codecs are in
    Flist27.v and Flist31.v.

    A [PathBuf] is its text: paths with unpaired surrogates, which the code maps
    through [to_string_lossy], are outside the model.  Indexes ([usize]) are
    [nat]. *)

From S2P Require Import Prelude Stream WireIo Str.

(** ** Constants *)

Definition XMIT_TOP_DIR : Z := 0x01.
Definition XMIT_SAME_MODE : Z := 0x02.
Definition XMIT_SAME_NAME : Z := 0x20.
Definition XMIT_LONG_NAME : Z := 0x40.
Definition XMIT_SAME_TIME : Z := 0x80.
Definition XMIT31_TOP_DIR : Z := Z.shiftl 1 0.
Definition XMIT31_SAME_MODE : Z := Z.shiftl 1 1.
Definition XMIT31_EXTENDED_FLAGS : Z := Z.shiftl 1 2.
Definition XMIT31_SAME_UID : Z := Z.shiftl 1 3.
Definition XMIT31_SAME_GID : Z := Z.shiftl 1 4.
Definition XMIT31_SAME_NAME : Z := Z.shiftl 1 5.
Definition XMIT31_LONG_NAME : Z := Z.shiftl 1 6.
Definition XMIT31_SAME_TIME : Z := Z.shiftl 1 7.
Definition XMIT31_HLINKED : Z := Z.shiftl 1 9.
Definition XMIT31_USER_NAME_FOLLOWS : Z := Z.shiftl 1 10.
Definition XMIT31_GROUP_NAME_FOLLOWS : Z := Z.shiftl 1 11.
Definition XMIT31_HLINK_FIRST : Z := Z.shiftl 1 12.
Definition XMIT31_MOD_NSEC : Z := Z.shiftl 1 13.
Definition XMIT31_SAME_ATIME : Z := Z.shiftl 1 14.
Definition XMIT31_CRTIME_EQ_MTIME : Z := Z.shiftl 1 17.

(** Octal 170000, 100000, 040000 and 120000. *)
Definition S_IFMT : Z := 0xF000.
Definition S_IFREG : Z := 0x8000.
Definition S_IFDIR : Z := 0x4000.
Definition S_IFLNK : Z := 0xA000.
Definition MAX_INLINE_XATTR_VALUE : nat := 32.

(** Octal permissions 644, 755 and 777. *)
Definition RSYNC_REGULAR_FILE_MODE : Z := Z.lor S_IFREG 0x1A4.
Definition RSYNC_DIRECTORY_MODE : Z := Z.lor S_IFDIR 0x1ED.
Definition RSYNC_SYMLINK_MODE : Z := Z.lor S_IFLNK 0x1FF.
Definition DEFAULT_MAX_FILE_LIST_ENTRIES : Z := 100000.
Definition DEFAULT_MAX_FILE_LIST_PATH_LEN : Z := 32 * 1024.

(** ** Data *)

Inductive WireFileType := File | Directory | Symlink.

Record FileListEntry := {
  fle_path : str;
  fle_file_type : WireFileType;
  fle_len : Z;
  fle_mtime_unix : option Z;
}.

Record RsyncHardLinkGroup := { device : Z; inode : Z }.

Record RsyncXattrPayload := { xattr_name : str; xattr_value : list Z }.

Record RsyncFileListMetadata := {
  uid : option Z;
  gid : option Z;
  user_name : option str;
  group_name : option str;
  atime_unix : option Z;
  crtime_unix : option Z;
  xattrs : list RsyncXattrPayload;
}.

(** [RsyncFileListMetadata::default()] *)
Definition default_metadata : RsyncFileListMetadata :=
  {| uid := None; gid := None; user_name := None; group_name := None;
     atime_unix := None; crtime_unix := None; xattrs := [] |}.

Record RsyncFileListEntry := {
  path : str;
  file_type : WireFileType;
  len : Z;
  mtime_unix : Z;
  mode : Z;
  checksum : option (list Z);
  hardlink_group : option RsyncHardLinkGroup;
  metadata : RsyncFileListMetadata;
}.

Record FileListBatch := {
  base_index : nat;
  entries : list RsyncFileListEntry;
  is_final : bool;
}.

Record RsyncFileListOptions := {
  include_checksums : bool;
  preserve_owner : bool;
  preserve_group : bool;
  numeric_ids : bool;
  opt_acls : bool;
  opt_xattrs : bool;
  fake_super : bool;
  atimes : bool;
  crtimes : bool;
}.

(** [RsyncFileListOptions::default()] *)
Definition default_options : RsyncFileListOptions :=
  {| include_checksums := false; preserve_owner := false; preserve_group := false;
     numeric_ids := false; opt_acls := false; opt_xattrs := false; fake_super := false;
     atimes := false; crtimes := false |}.

Inductive FileListError :=
| Io (e : io_error)
| InvalidFileType (byte : Z)
| InvalidUtf8
| BackslashInPath (path : str)
| UnsafePath (path : str)
| LengthTooLarge (len : Z)
| PathTooLong (len : nat)
| UnsupportedMode (mode : Z)
| MissingChecksum (path : str)
| InvalidXattrName (name : str)
| XattrValueTooLarge (name : str) (len : nat).

#[export] Instance WireFileType_eq_dec : EqDecision WireFileType.
Proof. solve_decision. Defined.
#[export] Instance RsyncHardLinkGroup_eq_dec : EqDecision RsyncHardLinkGroup.
Proof. solve_decision. Defined.
#[export] Instance RsyncXattrPayload_eq_dec : EqDecision RsyncXattrPayload.
Proof. solve_decision. Defined.
#[export] Instance RsyncFileListMetadata_eq_dec : EqDecision RsyncFileListMetadata.
Proof. solve_decision. Defined.
#[export] Instance RsyncFileListEntry_eq_dec : EqDecision RsyncFileListEntry.
Proof. solve_decision. Defined.
#[export] Instance FileListError_eq_dec : EqDecision FileListError.
Proof. solve_decision. Defined.

(** Hard-link groups are keys of the writer's map. *)
#[export, program] Instance RsyncHardLinkGroup_countable : Countable RsyncHardLinkGroup :=
  inj_countable' (λ g, (device g, inode g)) (λ p, {| device := p.1; inode := p.2 |}) _.
Next Obligation. by intros []. Qed.

(** [?] on an [io::Result] inside a function that returns [FileListError]. *)
Definition io {S A} (m : M S io_error A) : M S FileListError A := with_err Io m.

Definition bad_data (msg : string) : FileListError := Io (IoError InvalidData msg).
Definition bad_input (msg : string) : FileListError := Io (IoError InvalidInput msg).

(** [flags & BIT != 0] *)
Definition has (flags bit : Z) : bool := negb (Z.land flags bit =? 0).

(** ** File types *)

Definition from_byte (byte : Z) : result WireFileType FileListError :=
  if byte =? 1 then Ok File
  else if byte =? 2 then Ok Directory
  else if byte =? 3 then Ok Symlink
  else Err (InvalidFileType byte).

(** [file_type as u8] *)
Definition to_byte (t : WireFileType) : Z :=
  match t with File => 1 | Directory => 2 | Symlink => 3 end.

Definition file_type_from_mode (mode : Z) : result WireFileType FileListError :=
  let kind := Z.land mode S_IFMT in
  if kind =? S_IFREG then Ok File
  else if kind =? S_IFDIR then Ok Directory
  else if kind =? S_IFLNK then Ok Symlink
  else Err (UnsupportedMode mode).

(** ** Paths *)

Definition wire_path_bytes (path : str) : list Z := replace_char (ch "\") (ch "/") path.

Definition is_numbered_reserved_name (stem prefix : str) : bool :=
  match strip_prefix stem prefix with
  | None => false
  | Some number => existsb (λ d, bool_decide (number = [d]))
      [ch "1"; ch "2"; ch "3"; ch "4"; ch "5"; ch "6"; ch "7"; ch "8"; ch "9"]
  end.

Definition is_reserved_windows_name (component : str) : bool :=
  let stem := match split_once (ch ".") component with
              | Some (stem, _) => stem
              | None => component
              end in
  let stem := to_ascii_uppercase (trim_end_matches (ch " ") stem) in
  existsb (λ name, bool_decide (stem = lit name)) ["CON"; "PRN"; "AUX"; "NUL"]%string ||
  is_numbered_reserved_name stem (lit "COM") ||
  is_numbered_reserved_name stem (lit "LPT").

(** The characters of the [matches!] in [validate_wire_path]; the third from
    last but three is the double quote. *)
Definition forbidden_char (c : Z) : bool :=
  existsb (Z.eqb c) [ch "<"; ch ">"; ch ":"; 34; ch "|"; ch "?"; ch "*"].

(** One turn of the loop over the components: [true] is [return Err]. *)
Definition unsafe_component (component : str) : bool :=
  bool_decide (component = []) || bool_decide (component = lit ".") ||
  bool_decide (component = lit "..") ||
  ends_with component (lit " ") || ends_with component (lit ".") ||
  existsb (λ c, is_control c || forbidden_char c) (chars component) ||
  is_reserved_windows_name component.

Definition validate_wire_path (path : str) : result unit FileListError :=
  if bool_decide (path = lit ".") then Ok ()
  else if bool_decide (path = []) || starts_with path (lit "/") then Err (UnsafePath path)
  else if existsb unsafe_component (split_on (ch "/") path) then Err (UnsafePath path)
  else Ok ().

Definition wire_path_from_bytes (path_bytes : list Z) : result str FileListError :=
  match from_utf8 path_bytes with
  | None => Err InvalidUtf8
  | Some path =>
      if contains path (ch "\") then Err (BackslashInPath path)
      else let? _ := validate_wire_path path in Ok path
  end.

(** [path == Path::new(".")]: equality of components.  On Windows both slashes
    separate; interior [.] components and empty ones are dropped. *)
Definition is_current_dir (path : str) : bool :=
  match split_on (ch "/") (replace_char (ch "\") (ch "/") path) with
  | first :: rest =>
      bool_decide (first = lit ".") &&
      forallb (λ c, bool_decide (c = []) || bool_decide (c = lit ".")) rest
  | [] => false
  end.

Fixpoint common_prefix (limit : nat) (l r : list Z) : nat :=
  match limit, l, r with
  | S limit, x :: l, y :: r => if x =? y then S (common_prefix limit l r) else O
  | _, _, _ => O
  end.

(** [zip], [take(255)], [take_while], [count] *)
Definition common_prefix_len (l r : list Z) : nat := common_prefix 255 l r.

(** ** Allocation budgets *)

(** [max_alloc.filter(|limit| *limit > 0)] *)
Definition positive_limit (max_alloc : option Z) : option Z :=
  match max_alloc with
  | Some limit => if 0 <? limit then Some limit else None
  | None => None
  end.

(** [AllocationBudget::new(max_alloc).check(label, bytes)] *)
Definition budget_check (max_alloc : option Z) (bytes : Z) : result unit FileListError :=
  match positive_limit max_alloc with
  | Some limit =>
      if limit <? bytes
      then Err (bad_data
        "{label} would require a {bytes} byte allocation, exceeding --max-alloc={limit}")
      else Ok ()
  | None => Ok ()
  end.

Section alloc.
(** [std::mem::size_of::<RsyncFileListEntry>()], which the compiler chooses. *)
Context (size_of_entry : Z).

Definition FILE_LIST_ENTRY_ALLOC_OVERHEAD : Z := size_of_entry + 64.

Definition add_len (total : Z) (bytes : list Z) : Z :=
  saturating_usize (total + Z.of_nat (length bytes)).

Definition estimated_file_list_entry_alloc (entry : RsyncFileListEntry) : Z :=
  let total := add_len FILE_LIST_ENTRY_ALLOC_OVERHEAD (path entry) in
  let total := match user_name (metadata entry) with
               | Some name => add_len total name
               | None => total
               end in
  let total := match group_name (metadata entry) with
               | Some name => add_len total name
               | None => total
               end in
  fold_left (λ total x, add_len (add_len total (xattr_name x)) (xattr_value x))
    (xattrs (metadata entry)) total.

Definition estimated_rsync_file_list_entry_alloc (entry : RsyncFileListEntry) : Z :=
  estimated_file_list_entry_alloc entry.

(** The loop of [check_rsync_file_list_budget]. *)
Fixpoint check_budget_from (max_alloc : option Z) (total : Z)
    (entries : list RsyncFileListEntry) : result unit FileListError :=
  match entries with
  | [] => Ok ()
  | entry :: entries =>
      let? total := ok_or (checked_usize (total + estimated_file_list_entry_alloc entry))
        (bad_data "file-list allocation estimate overflow") in
      let? _ := budget_check max_alloc total in
      check_budget_from max_alloc total entries
  end.

Definition check_rsync_file_list_budget (entries : list RsyncFileListEntry)
    (max_alloc : option Z) : result unit FileListError :=
  check_budget_from max_alloc 0 entries.

(** ** The batch builder *)

Record FileListBatchBuilder := {
  max_entries : nat;
  max_alloc : option Z;
  next_base_index : nat;
  current_entries : list RsyncFileListEntry;
  current_alloc : Z;
}.

Definition with_max_alloc (max_entries : nat) (max_alloc : option Z) :
    result FileListBatchBuilder FileListError :=
  if (max_entries =? 0)%nat
  then Err (bad_input "file-list batch size must be greater than zero")
  else Ok {| max_entries := max_entries; max_alloc := max_alloc; next_base_index := 0;
             current_entries := []; current_alloc := 0 |}.

Definition new_builder (max_entries : nat) : result FileListBatchBuilder FileListError :=
  with_max_alloc max_entries None.

Definition should_flush_before (self : FileListBatchBuilder) (entry_alloc : Z) : bool :=
  match current_entries self with
  | [] => false
  | _ =>
      if (max_entries self <=? length (current_entries self))%nat then true
      else match positive_limit (max_alloc self) with
           | Some limit => limit <? saturating_usize (current_alloc self + entry_alloc)
           | None => false
           end
  end.

Definition push_current (entry : RsyncFileListEntry) (entry_alloc : Z) :
    M FileListBatchBuilder FileListError unit :=
  self ← get;
  lift (budget_check (max_alloc self) entry_alloc);;
  put {| max_entries := max_entries self; max_alloc := max_alloc self;
         next_base_index := next_base_index self;
         current_entries := current_entries self ++ [entry];
         current_alloc := saturating_usize (current_alloc self + entry_alloc) |}.

Definition emit (final : bool) : M FileListBatchBuilder FileListError FileListBatch :=
  self ← get;
  put {| max_entries := max_entries self; max_alloc := max_alloc self;
         next_base_index := next_base_index self + length (current_entries self);
         current_entries := []; current_alloc := 0 |};;
  mret {| base_index := next_base_index self; entries := current_entries self;
          is_final := final |}.

Definition push (entry : RsyncFileListEntry) :
    M FileListBatchBuilder FileListError (option FileListBatch) :=
  let entry_alloc := estimated_file_list_entry_alloc entry in
  self ← get;
  if should_flush_before self entry_alloc then
    batch ← emit false;
    push_current entry entry_alloc;;
    mret (Some batch)
  else
    push_current entry entry_alloc;;
    self ← get;
    if (max_entries self <=? length (current_entries self))%nat
    then batch ← emit false; mret (Some batch)
    else mret None.

Definition finish : M FileListBatchBuilder FileListError FileListBatch := emit true.
End alloc.

(** ** Small codecs shared by the file-list formats *)

Section codecs.
Context {R : Type} `{Read R} {W : Type} `{Write W}.

Definition write_rsync_long (value : Z) : M W FileListError unit :=
  if value <=? i32_max then io (write_i32_le value)
  else
    lift (if value <=? i64_max then Ok () else Err (LengthTooLarge value));;
    io (write_i32_le (-1));;
    io (write_i64_le value).

Definition read_rsync_long : M R FileListError Z :=
  value ← io read_i32_le;
  if 0 <=? value then mret value
  else if negb (value =? -1) then throw (bad_data "negative protocol long marker")
  else
    value ← io read_i64_le;
    if value <? 0 then throw (bad_data "negative protocol long value")
    else mret value.

Definition read_ignored_name : M R FileListError unit :=
  len ← io read_u8;
  io (read_exact (Z.to_nat len));;
  mret ().

Definition read_checksum : M R FileListError (list Z) := io (read_exact 16).

(** ** The internal list *)

Definition write_internal_entry (entry : FileListEntry) : M W FileListError unit :=
  io (write_bytes_with_u32_len (fle_path entry));;
  io (write_u8 (to_byte (fle_file_type entry)));;
  lift (if fle_len entry <=? i64_max then Ok () else Err (LengthTooLarge (fle_len entry)));;
  io (write_i64_le (fle_len entry));;
  io (write_i64_le (default (-1) (fle_mtime_unix entry))).

Definition write_internal_file_list (entries : list FileListEntry) :
    M W FileListError unit :=
  let count := Z.of_nat (length entries) in
  lift (if count <=? u32_max then Ok () else Err (bad_input "file list has too many entries"));;
  io (write_u32_le count);;
  for_each write_internal_entry entries.

Definition read_internal_entry (max_path_len : Z) : M R FileListError FileListEntry :=
  path_bytes ← io (read_bytes_with_u32_len max_path_len);
  path ← lift (wire_path_from_bytes path_bytes);
  byte ← io read_u8;
  file_type ← lift (from_byte byte);
  len ← io read_i64_le;
  if len <? 0 then throw (bad_data "negative file length")
  else
    mtime ← io read_i64_le;
    mret {| fle_path := path; fle_file_type := file_type; fle_len := as_u64 len;
            fle_mtime_unix := if 0 <=? mtime then Some mtime else None |}.

Definition read_internal_file_list (max_entries max_path_len : Z) :
    M R FileListError (list FileListEntry) :=
  count ← io read_u32_le;
  if max_entries <? count
  then throw (bad_data "file list entry count {count} exceeds limit {max_entries}")
  else collect (Z.to_nat count) (read_internal_entry max_path_len).

Definition write_file_list := write_internal_file_list.
Definition read_file_list := read_internal_file_list.
End codecs.
