(* ===== verification/FlistFacts.v ===== *)
(** * Facts about file-list data

    What an accepted wire path cannot contain, the batch builder against the
    plain list of its entries, and the internal codec. *)

From S2P Require Import Prelude Stream WireIo Str Flist.

(** ** Splitting valid text at an ASCII character *)

Lemma split_on_prefix b pre s :
  b ∉ pre →
  split_on b (pre ++ s) =
  match split_on b s with c :: cs => (pre ++ c) :: cs | [] => [pre] end.
Proof.
  induction pre as [|x pre IH]; intros Hb; cbn [app split_on].
  - pose proof (split_on_ne b s). by destruct (split_on b s).
  - apply not_elem_of_cons in Hb as [Hx Hb]. destruct (Z.eqb_spec x b); [congruence|].
    rewrite IH by done. pose proof (split_on_ne b s). by destruct (split_on b s).
Qed.

Lemma encode_utf8_ascii b c :
  0 ≤ b < 0x80 → is_scalar c = true → b ∈ encode_utf8 c → c = b.
Proof.
  intros Hb Hc. assert (Hr : 0 ≤ c < 0x110000) by (unfold is_scalar in Hc; lia).
  unfold encode_utf8.
  destruct (c <? 0x80); [|destruct (c <? 0x800); [|destruct (c <? 0x10000)]];
    rewrite ?elem_of_cons, elem_of_nil; intros; divmod.
Qed.

Lemma valid_utf8_chars s :
  valid_utf8 s = true →
  encode_chars (chars s) = s ∧ forallb is_scalar (chars s) = true.
Proof.
  unfold valid_utf8, chars. destruct (decode_utf8 s) as [cs|] eqn:Hs; [|done].
  intros _. by apply encode_decode_chars.
Qed.

Lemma encode_chars_valid cs : forallb is_scalar cs = true → valid_utf8 (encode_chars cs) = true.
Proof. intros Hcs. unfold valid_utf8. by rewrite decode_encode_chars. Qed.

(** An ASCII byte of a valid string is one of its characters. *)
Lemma ascii_in_chars b s :
  0 ≤ b < 0x80 → valid_utf8 s = true → b ∈ s → b ∈ chars s.
Proof.
  intros Hb [Henc Hall]%valid_utf8_chars. rewrite <-Henc at 1. unfold encode_chars.
  revert Hall. generalize (chars s) as cs. clear s Henc. intros cs.
  induction cs as [|c cs IH]; cbn; [by rewrite elem_of_nil|].
  intros [Hc Hall]%andb_prop [Hin|Hin]%elem_of_app; apply elem_of_cons; [left|right].
  - by rewrite (encode_utf8_ascii b c).
  - by apply IH.
Qed.

Lemma split_on_valid b s :
  0 ≤ b < 0x80 → valid_utf8 s = true →
  Forall (λ c, valid_utf8 c = true) (split_on b s).
Proof.
  intros Hb [Henc Hall]%valid_utf8_chars. rewrite <-Henc. clear Henc.
  revert Hall. generalize (chars s) as cs. clear s. intros cs.
  enough (forallb is_scalar cs = true →
    Forall (λ part, ∃ ds, part = encode_chars ds ∧ forallb is_scalar ds = true)
      (split_on b (encode_chars cs))) as Hgo.
  { intros Hcs%Hgo. eapply Forall_impl; [exact Hcs|].
    intros part (ds & -> & Hds). by apply encode_chars_valid. }
  induction cs as [|c cs IH]; cbn [forallb]; intros Hall.
  { constructor; [by exists []|constructor]. }
  apply andb_prop in Hall as [Hc Hall]. specialize (IH Hall).
  change (encode_chars (c :: cs)) with (encode_utf8 c ++ encode_chars cs).
  destruct (decide (c = b)) as [->|Hcb].
  - unfold encode_utf8. replace (b <? 0x80) with true by lia.
    cbn [app split_on]. rewrite Z.eqb_refl. constructor; [by exists []|done].
  - rewrite split_on_prefix by (intros Hin; by apply encode_utf8_ascii in Hin).
    destruct (split_on b (encode_chars cs)) as [|part parts];
      [by repeat constructor; exists [c]; cbn; rewrite app_nil_r, Hc|].
    apply Forall_cons in IH as [(ds & -> & Hds) Hparts]. constructor; [|done].
    exists (c :: ds). cbn. by rewrite Hc, Hds.
Qed.

Lemma elem_of_split_on b s part x : part ∈ split_on b s → x ∈ part → x ∈ s.
Proof.
  revert part. induction s as [|y s IH]; intros part; cbn [split_on].
  - rewrite list_elem_of_singleton. intros ->. by rewrite elem_of_nil.
  - destruct (y =? b).
    + intros [->|Hp]%elem_of_cons Hx; [by apply elem_of_nil in Hx|].
      apply elem_of_cons. right. by apply (IH part).
    + destruct (split_on b s) as [|c cs] eqn:Hs.
      * rewrite list_elem_of_singleton. intros -> [->|[]%elem_of_nil]%elem_of_cons.
        apply elem_of_cons. by left.
      * intros [->|Hp]%elem_of_cons Hx; apply elem_of_cons.
        -- apply elem_of_cons in Hx as [->|Hx]; [by left|right].
           apply (IH c); [apply elem_of_cons; by left|done].
        -- right. apply (IH part); [apply elem_of_cons; by right|done].
Qed.

(** ** Accepted paths *)

Lemma wire_path_inv bytes path :
  wire_path_from_bytes bytes = Ok path →
  path = bytes ∧ valid_utf8 path = true ∧ (ch "\") ∉ path ∧ validate_wire_path path = Ok ().
Proof.
  unfold wire_path_from_bytes, from_utf8. destruct (valid_utf8 bytes) eqn:Hv; [|done].
  destruct (contains bytes (ch "\")) eqn:Hb; [done|].
  destruct (validate_wire_path bytes) as [[]|] eqn:Hp; cbn; [|done].
  intros ?; simplify_eq. split_and!; try done.
  intros Hin%contains_spec. congruence.
Qed.

(** What the components of an accepted path are free of. *)
Definition safe_component (c : str) : Prop :=
  c ≠ [] ∧ c ≠ lit "." ∧ c ≠ lit ".." ∧
  ends_with c (lit " ") = false ∧ ends_with c (lit ".") = false ∧
  is_reserved_windows_name c = false ∧
  ∀ b, b ∈ c → b ≠ ch "/" ∧ b ≠ ch "\" ∧ ¬ (0 ≤ b < 0x20) ∧ b ≠ 0x7F ∧
    forbidden_char b = false.

Lemma split_on_no_sep b s : Forall (λ c, b ∉ c) (split_on b s).
Proof.
  induction s as [|x s IH]; cbn; [by repeat constructor; apply not_elem_of_nil|].
  destruct (Z.eqb_spec x b); [constructor; [by apply not_elem_of_nil|done]|].
  destruct (split_on b s) as [|c cs]; repeat constructor.
  - by apply not_elem_of_cons; split; [|apply not_elem_of_nil].
  - apply Forall_cons in IH as [Hc _]. by apply not_elem_of_cons.
  - by apply Forall_cons in IH as [_ ?].
Qed.

Lemma existsb_false_elem {A} (p : A → bool) l x :
  existsb p l = false → x ∈ l → p x = false.
Proof.
  intros Hl Hx. destruct (p x) eqn:Hp; [|done].
  assert (existsb p l = true) by (apply existsb_exists; exists x;
    split; [by apply list_elem_of_In|done]). congruence.
Qed.

Lemma unsafe_component_false c :
  valid_utf8 c = true → (ch "/") ∉ c → (ch "\") ∉ c → unsafe_component c = false →
  safe_component c.
Proof.
  intros Hv Hs Hb. unfold unsafe_component.
  intros [[[[[[H1 H2]%orb_false_iff H3]%orb_false_iff H4]%orb_false_iff
    H5]%orb_false_iff H6]%orb_false_iff H7]%orb_false_iff.
  apply bool_decide_eq_false in H1, H2, H3. split_and!; try done.
  intros b Hin. split; [by intros ->|]. split; [by intros ->|].
  assert (Hbyte : ∀ P : Prop, (0 ≤ b < 0x80 → is_control b || forbidden_char b = false → P) →
    (¬ 0 ≤ b < 0x80 → P) → P).
  { intros P Hyes Hno. destruct (decide (0 ≤ b < 0x80)) as [Hr|Hr]; [|by apply Hno].
    apply Hyes; [done|]. apply (existsb_false_elem _ _ b H6). by apply ascii_in_chars. }
  apply Hbyte; intros Hr.
  - intros [Hc Hf]%orb_false_iff. unfold is_control in Hc. split_and!; [lia|lia|done].
  - split_and!; [lia|lia|]. destruct (forbidden_char b) eqn:Hf; [|done].
    apply existsb_exists in Hf as (x & Hx & ->%Z.eqb_eq). cbn in Hx.
    repeat destruct Hx as [<-|Hx]; try lia. all: exfalso; apply Hr; vm_compute; split; congruence.
Qed.

Lemma wire_path_safe bytes path :
  wire_path_from_bytes bytes = Ok path → path = lit "." ∨
  Forall safe_component (split_on (ch "/") path).
Proof.
  intros (-> & Hv & Hb & Hok)%wire_path_inv. unfold validate_wire_path in Hok.
  case_bool_decide as Hdot; [by left|right].
  case_match; [done|].
  case_match eqn:Hex; [done|]. apply Forall_forall. intros c Hc.
  pose proof (split_on_valid (ch "/") bytes ltac:(by vm_compute) Hv) as Hvs.
  pose proof (split_on_no_sep (ch "/") bytes) as Hss. rewrite Forall_forall in Hvs, Hss.
  apply unsafe_component_false; [by apply Hvs|by apply Hss| |by apply (existsb_false_elem _ _ _ Hex)].
  intros Hin. apply Hb. by apply (elem_of_split_on (ch "/") _ c).
Qed.

(** A path the writer sends as it is and the reader accepts. *)
Definition wire_path_ok (path : str) : Prop := wire_path_from_bytes path = Ok path.

Lemma wire_path_bytes_ok path : wire_path_ok path → wire_path_bytes path = path.
Proof. intros (_ & _ & Hb & _)%wire_path_inv. by apply replace_char_id. Qed.

(** ** The batch builder *)

Section builder.
Context (size_of_entry : Z) (Hsize : 0 ≤ size_of_entry).

Abbreviation alloc := (estimated_file_list_entry_alloc size_of_entry).

(** The estimate of a whole batch. *)
Definition total_alloc (es : list RsyncFileListEntry) : Z :=
  fold_left (λ total e, saturating_usize (total + alloc e)) es 0.

Definition within (max_alloc : option Z) (bytes : Z) : Prop :=
  match positive_limit max_alloc with Some limit => bytes ≤ limit | None => True end.

Lemma budget_check_within max_alloc bytes :
  budget_check max_alloc bytes = Ok () ↔ within max_alloc bytes.
Proof.
  unfold budget_check, within. destruct (positive_limit max_alloc) as [limit|]; [|done].
  destruct (Z.ltb_spec limit bytes); split; done || lia.
Qed.

Lemma total_alloc_snoc es e :
  total_alloc (es ++ [e]) = saturating_usize (total_alloc es + alloc e).
Proof. unfold total_alloc. by rewrite fold_left_app. Qed.

Record builder_ok (max : nat) (limit : option Z) (self : FileListBatchBuilder) : Prop := {
  builder_max : max_entries self = max;
  builder_limit : max_alloc self = limit;
  builder_room : (length (current_entries self) < max)%nat;
  builder_alloc : current_alloc self = total_alloc (current_entries self);
  builder_within : within limit (current_alloc self);
}.

(** An intermediate batch. *)
Definition batch_ok (max : nat) (limit : option Z) (b : FileListBatch) : Prop :=
  entries b ≠ [] ∧ (length (entries b) ≤ max)%nat ∧ is_final b = false ∧
  within limit (total_alloc (entries b)).

Lemma new_builder_ok max limit :
  (0 < max)%nat →
  ∃ self, with_max_alloc max limit = Ok self ∧ builder_ok max limit self ∧
    next_base_index self = 0%nat ∧ current_entries self = [].
Proof.
  intros Hmax. unfold with_max_alloc. destruct (Nat.eqb_spec max 0); [lia|].
  eexists. split; [done|]. split; [|done]. constructor; cbn; try done.
  unfold within, positive_limit. destruct limit as [l|]; [|done].
  destruct (Z.ltb_spec 0 l); [lia|done].
Qed.

Lemma alloc_nonneg e : 0 ≤ alloc e.
Proof.
  unfold estimated_file_list_entry_alloc, FILE_LIST_ENTRY_ALLOC_OVERHEAD.
  assert (Hadd : ∀ t b, 0 ≤ add_len t b) by (intros; unfold add_len, saturating_usize; lia).
  match goal with |- 0 ≤ fold_left _ _ ?t => assert (0 ≤ t)
    by (destruct (user_name _), (group_name _); apply Hadd) end.
  revert H. generalize (xattrs (metadata e)) as xs. intros xs.
  match goal with |- 0 ≤ ?t → _ => generalize t end.
  induction xs as [|x xs IH]; intros t Ht; [done|]. cbn. by apply IH, Hadd.
Qed.

Lemma saturating_mono x y : x ≤ y → saturating_usize x ≤ saturating_usize y.
Proof. unfold saturating_usize. lia. Qed.

(** The builder after [emit] and after [push_current]. *)
Definition flushed (self : FileListBatchBuilder) : FileListBatchBuilder :=
  {| max_entries := max_entries self; max_alloc := max_alloc self;
     next_base_index := next_base_index self + length (current_entries self);
     current_entries := []; current_alloc := 0 |}.
Definition joined (e : RsyncFileListEntry) (self : FileListBatchBuilder) :
    FileListBatchBuilder :=
  {| max_entries := max_entries self; max_alloc := max_alloc self;
     next_base_index := next_base_index self;
     current_entries := current_entries self ++ [e];
     current_alloc := saturating_usize (current_alloc self + alloc e) |}.
Definition batch_of (self : FileListBatchBuilder) (final : bool) : FileListBatch :=
  {| base_index := next_base_index self; entries := current_entries self;
     is_final := final |}.

Lemma emit_eq final self : emit final self = (Ok (batch_of self final), flushed self).
Proof. reflexivity. Qed.

Lemma push_current_eq e self :
  within (max_alloc self) (alloc e) →
  push_current e (alloc e) self = (Ok (), joined e self).
Proof.
  intros Hcheck%budget_check_within. unfold push_current.
  rewrite (bind_ok get _ self self self) by done.
  by rewrite (bind_ok (lift _) _ self () self) by (unfold lift; by rewrite Hcheck).
Qed.

Lemma within_zero limit : within limit 0.
Proof.
  unfold within, positive_limit. destruct limit as [l|]; [|done].
  destruct (Z.ltb_spec 0 l); [lia|done].
Qed.

Lemma within_single limit e :
  within limit (alloc e) → within limit (saturating_usize (0 + alloc e)).
Proof.
  unfold within. pose proof (alloc_nonneg e). destruct (positive_limit limit); [|done].
  unfold saturating_usize. lia.
Qed.

Lemma flushed_ok max limit self :
  (0 < max)%nat → builder_ok max limit self → builder_ok max limit (flushed self).
Proof.
  intros Hmax [? ? ? ? ?]. constructor; cbn; try done. apply within_zero.
Qed.

Lemma batch_of_ok max limit self :
  builder_ok max limit self → current_entries self ≠ [] →
  batch_ok max limit (batch_of self false).
Proof.
  intros [? ? ? Halloc ?] Hne. unfold batch_ok. cbn [batch_of entries is_final]. rewrite <-Halloc.
  split_and!; [done|lia|done|done].
Qed.

(** Without a flush the entry fits. *)
Lemma no_flush_within max limit self e :
  builder_ok max limit self → within limit (alloc e) →
  should_flush_before self (alloc e) = false →
  within limit (current_alloc (joined e self)).
Proof.
  intros [Hmax Hlimit Hroom Halloc Hwithin] He. unfold should_flush_before. cbn.
  destruct (current_entries self) as [|x xs] eqn:Hcur.
  { intros _. rewrite Halloc. by apply within_single. }
  rewrite Hmax, Hlimit. unfold within.
  destruct (Nat.leb_spec max (length (x :: xs))); [lia|].
  destruct (positive_limit limit); [lia|done].
Qed.

Definition push_result (max : nat) (limit : option Z) (self : FileListBatchBuilder)
    (e : RsyncFileListEntry) (ob : option FileListBatch)
    (self' : FileListBatchBuilder) : Prop :=
  match ob with
  | None => next_base_index self' = next_base_index self ∧
      current_entries self' = current_entries self ++ [e]
  | Some b => batch_ok max limit b ∧ base_index b = next_base_index self ∧
      next_base_index self' = (next_base_index self + length (entries b))%nat ∧
      current_entries self ++ [e] = entries b ++ current_entries self'
  end.

Lemma push_flush max limit self e :
  builder_ok max limit self → within limit (alloc e) →
  should_flush_before self (alloc e) = true →
  push size_of_entry e self = (Ok (Some (batch_of self false)), joined e (flushed self)) ∧
  builder_ok max limit (joined e (flushed self)) ∧
  push_result max limit self e (Some (batch_of self false)) (joined e (flushed self)).
Proof.
  intros Hok He Hflush.
  assert (Hne : current_entries self ≠ [])
    by (intros Hnil; unfold should_flush_before in Hflush; by rewrite Hnil in Hflush).
  pose proof (batch_of_ok _ _ _ Hok Hne) as Hbatch.
  destruct Hok as [Hmax Hlimit Hroom Halloc Hwithin].
  split; [|split; [|done]].
  - unfold push. rewrite (bind_ok get _ self self self) by done. rewrite Hflush.
    rewrite (bind_ok _ _ _ _ _ (emit_eq false self)).
    rewrite (bind_ok _ _ _ () (joined e (flushed self))); [done|].
    apply push_current_eq. cbn. by rewrite Hlimit.
  - assert (1 < max)%nat.
    { destruct (current_entries self) as [|x xs] eqn:Hcur; [done|].
      cbn in Hroom. lia. }
    constructor; cbn; try done. by apply within_single.
Qed.

Lemma push_join max limit self e :
  builder_ok max limit self → within limit (alloc e) →
  should_flush_before self (alloc e) = false →
  ∃ ob self', push size_of_entry e self = (Ok ob, self') ∧
    builder_ok max limit self' ∧ push_result max limit self e ob self'.
Proof.
  intros Hok He Hflush. pose proof (no_flush_within _ _ _ _ Hok He Hflush) as Hw.
  destruct Hok as [Hmax Hlimit Hroom Halloc Hwithin].
  assert (Htotal : current_alloc (joined e self) = total_alloc (current_entries (joined e self)))
    by (cbn [joined current_alloc current_entries]; rewrite total_alloc_snoc; congruence).
  assert (Hlen : length (current_entries (joined e self)) = S (length (current_entries self)))
    by (cbn; rewrite length_app; cbn; lia).
  unfold push. rewrite (bind_ok get _ self self self) by done. rewrite Hflush.
  rewrite (bind_ok _ _ _ () (joined e self))
    by (apply push_current_eq; by rewrite Hlimit).
  rewrite (bind_ok get _ _ (joined e self) (joined e self)) by done.
  destruct (Nat.leb_spec (max_entries (joined e self))
    (length (current_entries (joined e self)))) as [Hfull|Hfree];
    change (max_entries (joined e self)) with (max_entries self) in *.
  - exists (Some (batch_of (joined e self) false)), (flushed (joined e self)).
    split; [done|]. split.
    + constructor; cbn; try done; [lia|apply within_zero].
    + unfold push_result, batch_ok. rewrite app_nil_r. split_and!; try done.
      * intros Hnil. cbn in Hnil. by destruct (current_entries self).
      * cbn [entries batch_of]. lia.
      * cbn [entries batch_of]. by rewrite <-Htotal.
  - exists None, (joined e self). split; [done|]. split; [|done].
    constructor; cbn [joined max_entries max_alloc]; try done. lia.
Qed.

(** One [push]: the new entry joins the current ones, and what is emitted is
    the front of them. *)
Lemma push_spec max limit self e :
  builder_ok max limit self → within limit (alloc e) →
  ∃ ob self', push size_of_entry e self = (Ok ob, self') ∧
    builder_ok max limit self' ∧ push_result max limit self e ob self'.
Proof.
  intros Hok He. destruct (should_flush_before self (alloc e)) eqn:Hflush.
  - eexists _, _. by apply push_flush.
  - by apply push_join.
Qed.

(** Pushing every entry of a list, then finishing. *)
Fixpoint push_all (es : list RsyncFileListEntry) :
    M FileListBatchBuilder FileListError (list FileListBatch) :=
  match es with
  | [] => mret []
  | e :: es =>
      ob ← push size_of_entry e;
      later ← push_all es;
      mret (match ob with Some b => b :: later | None => later end)
  end.

Definition batch_list (max : nat) (limit : option Z) (es : list RsyncFileListEntry) :
    result (list FileListBatch) FileListError :=
  let? self := with_max_alloc max limit in
  ((batches ← push_all es; last ← finish; mret (batches ++ [last])) self).1.

(** Batches that tile a list of entries, starting at index [base]. *)
Fixpoint tiles (base : nat) (batches : list FileListBatch)
    (es : list RsyncFileListEntry) : Prop :=
  match batches with
  | [] => es = []
  | b :: batches => base_index b = base ∧
      ∃ rest, es = entries b ++ rest ∧ tiles (base + length (entries b)) batches rest
  end.

Lemma tiles_snoc base batches es last :
  tiles base batches es → base_index last = (base + length es)%nat →
  tiles base (batches ++ [last]) (es ++ entries last).
Proof.
  revert base es. induction batches as [|b batches IH]; intros base es; cbn.
  - intros -> Hlast. split; [cbn in *; lia|]. exists []. by rewrite app_nil_r.
  - intros (Hb & rest & -> & Ht) Hlast. split; [done|].
    exists (rest ++ entries last). split; [by rewrite app_assoc|].
    apply IH; [done|]. rewrite Hlast, length_app. lia.
Qed.

Lemma push_all_spec max limit self es :
  builder_ok max limit self → Forall (λ e, within limit (alloc e)) es →
  ∃ batches self' done,
    push_all es self = (Ok batches, self') ∧ builder_ok max limit self' ∧
    Forall (batch_ok max limit) batches ∧
    tiles (next_base_index self) batches done ∧
    current_entries self ++ es = done ++ current_entries self' ∧
    next_base_index self' = (next_base_index self + length done)%nat.
Proof.
  intros Hok Hall. revert self Hok.
  induction Hall as [|e es He Hall IH]; intros self Hok.
  - exists [], self, []. split_and!; try done; cbn; rewrite ?app_nil_r; done || lia.
  - destruct (push_spec max limit self e Hok He) as (ob & self1 & Hpush & Hok1 & Hres).
    destruct (IH self1 Hok1) as (bs & self' & done & Hrun & Hok' & Hbs & Ht & Hsplit & Hnext).
    assert (Hgo : push_all (e :: es) self =
      (Ok (match ob with Some b => b :: bs | None => bs end), self')).
    { cbn [push_all]. rewrite (bind_ok _ _ _ _ _ Hpush).
      by rewrite (bind_ok _ _ _ _ _ Hrun). }
    destruct ob as [b|]; cbn [push_result] in Hres.
    + destruct Hres as (Hb & Hbase & Hnext1 & Heq).
      exists (b :: bs), self', (entries b ++ done). split_and!; try done.
      * by constructor.
      * cbn. split; [done|]. exists done. by rewrite <-Hnext1.
      * by rewrite (cons_middle e), app_assoc, Heq, <-!app_assoc, Hsplit.
      * rewrite length_app. lia.
    + destruct Hres as [Hnext1 Heq]. exists bs, self', done.
      rewrite <-Hnext1. split_and!; try done.
      rewrite <-Hsplit, Heq. by rewrite <-app_assoc.
Qed.

Lemma batch_list_spec max limit es :
  (0 < max)%nat → Forall (λ e, within limit (alloc e)) es →
  ∃ batches last,
    batch_list max limit es = Ok (batches ++ [last]) ∧
    tiles 0 (batches ++ [last]) es ∧ Forall (batch_ok max limit) batches ∧
    is_final last = true ∧ (length (entries last) < max)%nat ∧
    within limit (total_alloc (entries last)).
Proof.
  intros Hmax Hall.
  destruct (new_builder_ok max limit Hmax) as (self & Hnew & Hok & Hbase & Hcur).
  destruct (push_all_spec max limit self es Hok Hall)
    as (bs & self' & done & Hrun & [? ? ? Halloc ?] & Hbs & Ht & Hsplit & Hnext).
  exists bs, (batch_of self' true). unfold batch_list. rewrite Hnew. cbn [and_then].
  rewrite (bind_ok _ _ _ _ _ Hrun). rewrite (bind_ok _ _ _ _ _ (emit_eq true self')).
  rewrite Hcur in Hsplit. cbn [app] in Hsplit. subst es.
  split_and!; try done.
  - rewrite Hbase in *. by apply (tiles_snoc _ _ _ (batch_of self' true)).
  - cbn [entries batch_of]. by rewrite <-Halloc.
Qed.
End builder.

(** ** The internal codec *)

Section internal.
Context {R : Type} `{ReadLaws R} {W : Type} `{WriteLaws W}.

Lemma coupled_io {A} (w : M W io_error unit) (r : M R io_error A) a :
  coupled w r a → coupled (io w) (io r) a.
Proof. apply coupled_with_err. Qed.

Lemma coupled_writer_lift {A} (x : result unit FileListError) (w : M W FileListError unit)
    (r : M R FileListError A) a :
  x = Ok () → coupled w r a → coupled (lift x ≫= λ _, w) r a.
Proof. intros Hx. by apply coupled_writer_skip, writes_lift. Qed.

Lemma coupled_reader_lift {A B} (x : result A FileListError) a (w : M W FileListError unit)
    (r : A → M R FileListError B) b :
  x = Ok a → coupled w (r a) b → coupled w (lift x ≫= r) b.
Proof. intros Hx. by apply coupled_reader_skip, reads_lift. Qed.

Lemma coupled_reader_ret {A} (w : M W FileListError unit) (r : M R FileListError unit)
    (a : A) : coupled w r () → coupled w (r ≫= λ _, mret a) a.
Proof.
  intros (bs & Hw & Hr). exists bs. split; [done|].
  eapply reads_last; [done|apply reads_ret].
Qed.

Lemma coupled_last {A B} (w : M W FileListError unit) (r : M R FileListError A)
    (f : A → M R FileListError B) a b :
  coupled w r a → f a = mret b → coupled w (r ≫= f) b.
Proof.
  intros (bs & Hw & Hr) Hf. exists bs. split; [done|].
  eapply reads_last; [done|]. rewrite Hf. apply reads_ret.
Qed.

Lemma file_type_byte t : from_byte (to_byte t) = Ok t.
Proof. by destruct t. Qed.

(** An entry the internal codec carries unchanged. *)
Definition internal_entry_ok (max_path_len : Z) (e : FileListEntry) : Prop :=
  wire_path_ok (fle_path e) ∧
  Z.of_nat (length (fle_path e)) ≤ Z.min max_path_len u32_max ∧
  0 ≤ fle_len e ≤ i64_max ∧
  match fle_mtime_unix e with Some t => 0 ≤ t ≤ i64_max | None => True end.

Lemma coupled_internal_entry max_path_len e :
  internal_entry_ok max_path_len e →
  coupled (W:=W) (R:=R) (write_internal_entry e) (read_internal_entry max_path_len) e.
Proof.
  intros (Hpath & Hlen & Hsize & Htime). unfold write_internal_entry, read_internal_entry.
  eapply coupled_bind; [apply coupled_io, coupled_bytes_with_u32_len; lia|].
  eapply coupled_reader_lift; [exact Hpath|].
  eapply coupled_bind; [apply coupled_io, coupled_u8|].
  eapply coupled_reader_lift; [apply file_type_byte|].
  eapply coupled_writer_lift; [by destruct (Z.leb_spec (fle_len e) i64_max); [|lia]|].
  eapply coupled_bind; [apply coupled_io, coupled_i64_le|].
  unfold i64_max in *. rewrite as_i64_id by (unfold in_i64; lia).
  destruct (Z.ltb_spec (fle_len e) 0); [lia|].
  eapply coupled_last; [apply coupled_io, coupled_i64_le|].
  unfold as_u64. rewrite Z.mod_small by lia.
  destruct e as [p t n [time|]]; cbn in *; [|done].
  rewrite as_i64_id by (unfold in_i64; lia). by destruct (Z.leb_spec 0 time); [|lia].
Qed.

Lemma coupled_internal_list max_entries max_path_len es :
  Forall (internal_entry_ok max_path_len) es →
  Z.of_nat (length es) ≤ Z.min max_entries u32_max →
  coupled (W:=W) (R:=R) (write_internal_file_list es)
    (read_internal_file_list max_entries max_path_len) es.
Proof.
  intros Hall Hlen. unfold write_internal_file_list, read_internal_file_list. cbv zeta.
  eapply coupled_writer_lift;
    [by destruct (Z.leb_spec (Z.of_nat (length es)) u32_max); [|lia]|].
  eapply coupled_bind.
  { apply coupled_io, coupled_u32_le. unfold in_u32, u32_max in *. lia. }
  cbv beta. destruct (Z.ltb_spec max_entries (Z.of_nat (length es))); [lia|].
  rewrite Nat2Z.id. apply coupled_for_each.
  apply Forall_Forall2_diag. eapply Forall_impl; [exact Hall|].
  intros e. apply coupled_internal_entry.
Qed.

Lemma coupled_rsync_long v :
  0 ≤ v ≤ i64_max →
  coupled (W:=W) (R:=R) (write_rsync_long v) read_rsync_long v.
Proof.
  intros Hv. unfold write_rsync_long, read_rsync_long, i64_max, i32_max in *.
  destruct (Z.leb_spec v 2147483647).
  - eapply coupled_last; [apply coupled_io, coupled_i32_le|].
    rewrite as_i32_id by (unfold in_i32; lia). by destruct (Z.leb_spec 0 v); [|lia].
  - eapply coupled_writer_lift; [by destruct (Z.leb_spec v 9223372036854775807); [|lia]|].
    eapply coupled_bind; [apply coupled_io, coupled_i32_le|].
    change (as_i32 (-1)) with (-1). cbn [Z.leb Z.eqb negb].
    eapply coupled_last; [apply coupled_io, coupled_i64_le|].
    rewrite as_i64_id by (unfold in_i64; lia). by destruct (Z.ltb_spec v 0); [lia|].
Qed.
End internal.
