(* ===== verification/Flist27.v ===== *)
(** * The protocol-27 file list: flist.rs, [Rsync27FileListWriter] and
      [read_rsync27_file_list]

    The writer is a state beside the stream; the reader's local variables are
    arguments of its loop.  The loop recurses on the entries it may still accept
    ([max_entries - entries.len()]), so it needs no fuel. *)

From S2P Require Import Prelude Stream WireIo Str Flist FlistFacts.

Module Rsync27.

Record FileListWriter := {
  include_checksums : bool;
  last_mode : option Z;
  last_mtime : option Z;
  finished : bool;
}.

Definition new (include_checksums : bool) : FileListWriter :=
  {| include_checksums := include_checksums; last_mode := None; last_mtime := None;
     finished := false |}.

(** [status |= bit] under a condition. *)
Definition set_if (b : bool) (bit flags : Z) : Z := if b then Z.lor flags bit else flags.

Definition entry_status (self : FileListWriter) (entry : RsyncFileListEntry) : Z :=
  let status := XMIT_LONG_NAME in
  let status := set_if (bool_decide (last_mode self = Some (mode entry)))
                  XMIT_SAME_MODE status in
  let status := set_if (bool_decide (last_mtime self = Some (mtime_unix entry)))
                  XMIT_SAME_TIME status in
  set_if (bool_decide (file_type entry = Directory) && is_current_dir (path entry))
    XMIT_TOP_DIR status.

Section codec.
Context {R : Type} `{Read R} {W : Type} `{Write W}.

(** The fields of an entry after its status byte. *)
Definition write_entry_fields (self : FileListWriter) (status : Z)
    (entry : RsyncFileListEntry) : M W FileListError unit :=
  let path_bytes := wire_path_bytes (path entry) in
  (if has status XMIT_LONG_NAME then
     lift (if Z.of_nat (length path_bytes) <=? i32_max then Ok ()
           else Err (PathTooLong (length path_bytes)));;
     io (write_i32_le (Z.of_nat (length path_bytes)))
   else io (write_u8 (as_u8 (Z.of_nat (length path_bytes)))));;
  io (write_all path_bytes);;
  write_rsync_long (len entry);;
  (if has status XMIT_SAME_TIME then mret () else
     mtime ← lift (ok_or (checked_i32 (mtime_unix entry))
       (bad_input "mtime is outside protocol 27 time_t range"));
     io (write_i32_le mtime));;
  (if has status XMIT_SAME_MODE then mret ()
   else io (write_i32_le (as_i32 (mode entry))));;
  (if include_checksums self && bool_decide (file_type entry = File) then
     checksum ← lift (ok_or (checksum entry) (MissingChecksum (path entry)));
     io (write_all checksum)
   else mret ()).

(** One turn of the loop of [write_batch]. *)
Definition write_entry (entry : RsyncFileListEntry) :
    M (FileListWriter * W) FileListError unit :=
  self ← on_fst get;
  let status := entry_status self entry in
  on_snd (io (write_u8 status));;
  on_snd (write_entry_fields self status entry);;
  on_fst (put {| include_checksums := include_checksums self;
                 last_mode := Some (mode entry);
                 last_mtime := Some (mtime_unix entry);
                 finished := finished self |}).

Definition write_batch (entries : list RsyncFileListEntry) :
    M (FileListWriter * W) FileListError unit :=
  self ← on_fst get;
  if finished self
  then throw (bad_input "cannot write entries after finishing file-list")
  else for_each write_entry entries.

Definition finish : M (FileListWriter * W) FileListError unit :=
  self ← on_fst get;
  if finished self then mret ()
  else
    on_snd (io (write_u8 0));;
    on_fst (put {| include_checksums := include_checksums self;
                   last_mode := last_mode self; last_mtime := last_mtime self;
                   finished := true |}).

(** A writer that lives for one call. *)
Definition with_state {S T E A} (s : S) (m : M (S * T) E A) : M T E A :=
  λ t, let '(r, p) := m (s, t) in (r, p.2).

Definition write_rsync27_file_list_with_options (entries : list RsyncFileListEntry)
    (include_checksums : bool) : M W FileListError unit :=
  with_state (new include_checksums) (write_batch entries;; finish).

Definition write_rsync27_file_list (entries : list RsyncFileListEntry) :
    M W FileListError unit :=
  write_rsync27_file_list_with_options entries false.

(** [read_u8(reader)? as usize] *)
Definition read_u8_usize : M R FileListError nat :=
  byte ← io read_u8; mret (Z.to_nat byte).

(** The name: the inherited prefix of the previous one and a suffix. *)
Definition read_path_bytes (max_path_len : Z) (same_name : bool) (last_path : list Z)
    (read_suffix_len : M R FileListError nat) : M R FileListError (list Z) :=
  inherited ← (if same_name then read_u8_usize else mret 0%nat);
  if (length last_path <? inherited)%nat
  then throw (bad_data "file list inherited name prefix exceeds previous path")
  else
    suffix_len ← read_suffix_len;
    total_len ← lift (ok_or (checked_usize (Z.of_nat inherited + Z.of_nat suffix_len))
      (bad_data "file name length overflow"));
    if max_path_len <? total_len
    then throw (bad_data "file path length {total_len} exceeds limit {max_path_len}")
    else
      suffix ← io (read_exact (Z.to_nat total_len - inherited));
      mret (take inherited last_path ++ suffix).

(** The length of the suffix, long form or byte. *)
Definition read_suffix_len27 (status : Z) : M R FileListError nat :=
  if has status XMIT_LONG_NAME then
    len ← io read_i32_le;
    if len <? 0 then throw (bad_data "negative file name length")
    else mret (Z.to_nat len)
  else read_u8_usize.

(** One turn of the reader's loop after the status byte: the entry and the
    path bytes the next entry may inherit from. *)
Definition read_entry (max_path_len : Z) (expect_checksums : bool) (status : Z)
    (last_path : list Z) (last_mode last_mtime : option Z) :
    M R FileListError (RsyncFileListEntry * list Z) :=
  path_bytes ← read_path_bytes max_path_len (has status XMIT_SAME_NAME) last_path
    (read_suffix_len27 status);
  len ← read_rsync_long;
  mtime ← (if has status XMIT_SAME_TIME
           then lift (ok_or last_mtime
             (bad_data "file list repeated mtime without previous value"))
           else io read_i32_le);
  mode ← (if has status XMIT_SAME_MODE
          then lift (ok_or last_mode
            (bad_data "file list repeated mode without previous value"))
          else mode ← io read_i32_le; mret (as_u32 mode));
  path ← lift (wire_path_from_bytes path_bytes);
  file_type ← lift (file_type_from_mode mode);
  checksum ← (if expect_checksums && bool_decide (file_type = File)
              then checksum ← read_checksum; mret (Some checksum)
              else mret None);
  mret ({| path := path; file_type := file_type; len := len; mtime_unix := mtime;
           mode := mode; checksum := checksum; hardlink_group := None;
           metadata := default_metadata |}, path_bytes).

Fixpoint read_entries (remaining : nat) (max_path_len : Z) (expect_checksums : bool)
    (last_path : list Z) (last_mode last_mtime : option Z) :
    M R FileListError (list RsyncFileListEntry) :=
  status ← io read_u8;
  if status =? 0 then mret []
  else match remaining with
  | O => throw (bad_data "file list entry count exceeds limit {max_entries}")
  | S remaining =>
      '(entry, path_bytes) ← read_entry max_path_len expect_checksums status
         last_path last_mode last_mtime;
      later ← read_entries remaining max_path_len expect_checksums
         path_bytes (Some (mode entry)) (Some (mtime_unix entry));
      mret (entry :: later)
  end.

Definition read_rsync27_file_list_with_options (max_entries : nat) (max_path_len : Z)
    (expect_checksums : bool) : M R FileListError (list RsyncFileListEntry) :=
  read_entries max_entries max_path_len expect_checksums [] None None.

Definition read_rsync27_file_list (max_entries : nat) (max_path_len : Z) :
    M R FileListError (list RsyncFileListEntry) :=
  read_rsync27_file_list_with_options max_entries max_path_len false.
End codec.

(** ** The round trip *)

(** What is left of an entry after the protocol-27 wire. *)
Definition on_wire (checksums : bool) (e : RsyncFileListEntry) : RsyncFileListEntry :=
  {| path := wire_path_bytes (path e); file_type := file_type e; len := len e;
     mtime_unix := mtime_unix e; mode := mode e;
     checksum := if checksums && bool_decide (file_type e = File)
                 then checksum e else None;
     hardlink_group := None; metadata := default_metadata |}.

(** Entries protocol 27 can carry. *)
Definition entry_ok (checksums : bool) (max_path_len : Z) (e : RsyncFileListEntry) : Prop :=
  let wire_path := wire_path_bytes (path e) in
  wire_path_ok wire_path ∧
  Z.of_nat (length wire_path) ≤ Z.min max_path_len i32_max ∧
  0 ≤ len e ≤ i64_max ∧ in_i32 (mtime_unix e) ∧ in_u32 (mode e) ∧
  file_type_from_mode (mode e) = Ok (file_type e) ∧
  (checksums = true → file_type e = File → ∃ c, checksum e = Some c ∧ length c = 16%nat).

Section facts.
Context {R : Type} `{ReadLaws R} {W : Type} `{WriteLaws W}.

(** The three conditional bits are recovered from the status byte. *)
Lemma status_bits (m t d : bool) :
  let status := set_if d XMIT_TOP_DIR (set_if t XMIT_SAME_TIME
    (set_if m XMIT_SAME_MODE XMIT_LONG_NAME)) in
  has status XMIT_LONG_NAME = true ∧ has status XMIT_SAME_NAME = false ∧
  has status XMIT_SAME_TIME = t ∧ has status XMIT_SAME_MODE = m ∧
  (status =? 0) = false.
Proof. by destruct m, t, d. Qed.

Lemma coupled_path max_path_len path_bytes last_path status :
  has status XMIT_LONG_NAME = true →
  Z.of_nat (length path_bytes) ≤ Z.min max_path_len i32_max →
  coupled (W:=W) (R:=R)
    (io (write_i32_le (Z.of_nat (length path_bytes)));; io (write_all path_bytes))
    (read_path_bytes max_path_len false last_path (read_suffix_len27 status))
    path_bytes.
Proof.
  intros Hlong Hlen. unfold read_path_bytes, read_suffix_len27.
  eapply coupled_reader_skip; [apply reads_ret|].
  destruct (Nat.ltb_spec (length last_path) 0); [lia|]. rewrite Hlong.
  unfold i32_max in Hlen.
  eapply coupled_bind.
  { eapply coupled_last; [apply coupled_io, coupled_i32_le|].
    rewrite as_i32_id by (unfold in_i32; lia).
    by destruct (Z.ltb_spec (Z.of_nat (length path_bytes)) 0); [lia|]. }
  eapply coupled_reader_lift.
  { rewrite Nat2Z.id. unfold checked_usize.
    destruct (Z.leb_spec 0 (Z.of_nat 0 + Z.of_nat (length path_bytes))); [|lia].
    destruct (Z.ltb_spec (Z.of_nat 0 + Z.of_nat (length path_bytes)) (2 ^ 64)); [|lia].
    done. }
  cbv beta. destruct (Z.ltb_spec max_path_len
    (Z.of_nat 0 + Z.of_nat (length path_bytes))); [lia|].
  eapply coupled_last; [|reflexivity].
  apply coupled_io. exists path_bytes. split; [apply writes_all|].
  apply reads_exact. lia.
Qed.

Lemma coupled_writer_bind_lift {A B} (x : result A FileListError) a
    (w : A → M W FileListError unit) (r : M R FileListError B) b :
  x = Ok a → coupled (w a) r b → coupled (lift x ≫= w) r b.
Proof.
  intros Hx (bs & Hw & Hr). exists bs. split; [|done].
  by apply (writes_bind _ _ [] bs a _ (writes_lift _ _ Hx)).
Qed.

Lemma coupled_mtime last e :
  in_i32 (mtime_unix e) →
  let same := bool_decide (last = Some (mtime_unix e)) in
  coupled (W:=W) (R:=R)
    (if same then mret () else
       mtime ← lift (ok_or (checked_i32 (mtime_unix e))
         (bad_input "mtime is outside protocol 27 time_t range"));
       io (write_i32_le mtime))
    (if same
     then lift (ok_or last (bad_data "file list repeated mtime without previous value"))
     else io read_i32_le) (mtime_unix e).
Proof.
  intros Ht. cbv zeta. case_bool_decide as Hsame.
  - subst last. exists []. split; [apply writes_ret|by apply reads_lift].
  - eapply coupled_writer_bind_lift; [by rewrite checked_i32_some|].
    rewrite <-(as_i32_id (mtime_unix e)) at 2 by done. apply coupled_io, coupled_i32_le.
Qed.

Lemma coupled_mode last e :
  in_u32 (mode e) →
  let same := bool_decide (last = Some (mode e)) in
  coupled (W:=W) (R:=R)
    (if same then mret () else io (write_i32_le (as_i32 (mode e))))
    (if same
     then lift (ok_or last (bad_data "file list repeated mode without previous value"))
     else mode ← io read_i32_le; mret (as_u32 mode)) (mode e).
Proof.
  intros Hm. cbv zeta. case_bool_decide as Hsame.
  - subst last. exists []. split; [apply writes_ret|by apply reads_lift].
  - eapply coupled_last; [apply coupled_io, coupled_i32_le|].
    by rewrite !as_u32_as_i32, as_u32_id.
Qed.

Lemma coupled_checksum include (e : RsyncFileListEntry) :
  (include = true → file_type e = File → ∃ c, checksum e = Some c ∧ length c = 16%nat) →
  let with_checksum := include && bool_decide (file_type e = File) in
  coupled (W:=W) (R:=R)
    (if with_checksum then
       checksum ← lift (ok_or (checksum e) (MissingChecksum (path e)));
       io (write_all checksum)
     else mret ())
    (if with_checksum then checksum ← read_checksum; mret (Some checksum) else mret None)
    (if with_checksum then checksum e else None).
Proof.
  intros Hc. cbv zeta. destruct (include && _) eqn:Hwith; [|apply coupled_ret].
  apply andb_prop in Hwith as [Hi Hf%bool_decide_eq_true].
  destruct (Hc Hi Hf) as (c & Hsome & Hlen).
  eapply coupled_writer_bind_lift; [by rewrite Hsome|]. rewrite Hsome.
  eapply coupled_last; [|reflexivity]. unfold read_checksum. apply coupled_io.
  exists c. split; [apply writes_all|by apply reads_exact].
Qed.

(** One entry, the writer's memory being the reader's. *)
Lemma coupled_entry self max_path_len last_path e :
  entry_ok (include_checksums self) max_path_len e →
  let status := entry_status self e in
  coupled (W:=W) (R:=R) (write_entry_fields self status e)
    (read_entry max_path_len (include_checksums self) status last_path
       (last_mode self) (last_mtime self))
    (on_wire (include_checksums self) e, wire_path_bytes (path e)).
Proof.
  intros (Hpath & Hlen & Hsize & Htime & Hmode & Htype & Hsum). cbv zeta.
  destruct (status_bits (bool_decide (last_mode self = Some (mode e)))
    (bool_decide (last_mtime self = Some (mtime_unix e)))
    (bool_decide (file_type e = Directory) && is_current_dir (path e)))
    as (Hlong & Hsame & Hbt & Hbm & _).
  unfold entry_status. cbv zeta. unfold write_entry_fields, read_entry. cbv zeta.
  rewrite Hlong, Hsame, Hbt, Hbm.
  apply coupled_assoc. eapply coupled_bind.
  { apply coupled_unassoc.
    eapply coupled_writer_lift; [by replace (_ <=? i32_max) with true by lia|].
    by apply coupled_path. }
  cbv beta. eapply coupled_bind; [by apply coupled_rsync_long|].
  eapply coupled_bind; [by apply coupled_mtime|].
  eapply coupled_bind; [by apply coupled_mode|].
  eapply coupled_reader_lift; [exact Hpath|].
  eapply coupled_reader_lift; [exact Htype|].
  eapply coupled_last; [by apply coupled_checksum|done].
Qed.

(** The memory of writer and reader after an entry. *)
Definition remember (self : FileListWriter) (e : RsyncFileListEntry) : FileListWriter :=
  {| include_checksums := include_checksums self; last_mode := Some (mode e);
     last_mtime := Some (mtime_unix e); finished := finished self |}.

Lemma write_entry27_writes self e bs :
  writes (W:=W) (io (write_u8 (entry_status self e));;
                 write_entry_fields self (entry_status self e) e) bs () →
  writes_st (W:=W) (write_entry e) self bs () (remember self e).
Proof.
  intros Hw. unfold write_entry. apply writes_st_get. cbv zeta.
  intros w Hready. destruct (Hw w Hready) as (w' & Hw' & He).
  exists w'. split; [|done]. apply bind_ok_inv in Hw' as ([] & w1 & Hs1 & Hs2).
  rewrite (bind_ok _ _ _ () (self, w1)) by (unfold on_snd; cbn; by rewrite Hs1).
  rewrite (bind_ok _ _ _ () (self, w')) by (unfold on_snd; cbn; by rewrite Hs2).
  done.
Qed.

(** The whole list, up to the terminating byte. *)
Lemma entries27_coupled include max_path_len es self last_path remaining :
  include_checksums self = include → finished self = false →
  Forall (entry_ok include max_path_len) es → (length es ≤ remaining)%nat →
  coupled (W:=W) (R:=R)
    (with_state self (for_each write_entry es;; finish))
    (read_entries remaining max_path_len include last_path
       (last_mode self) (last_mtime self))
    (on_wire include <$> es).
Proof.
  intros Hinc Hfin Hall. revert self last_path remaining Hinc Hfin.
  induction Hall as [|e es He Hall IH]; intros self last_path remaining Hinc Hfin Hlen.
  - exists [0]. split.
    + intros w Hw. destruct (write_all_emits w [0] Hw) as (w' & Hw' & Hout).
      exists w'. split; [|done]. unfold with_state. cbn [for_each].
      rewrite bind_ret. unfold finish. rewrite (bind_ok _ _ _ self (self, w)) by done.
      rewrite Hfin.
      rewrite (bind_ok _ _ _ () (self, w'))
        by (unfold on_snd, io, with_err, write_u8; cbn; by rewrite Hw').
      done.
    + destruct remaining; cbn [read_entries];
        apply (reads_bind _ _ [0] [] 0); try apply reads_with_err, reads_u8; apply reads_ret.
  - destruct remaining as [|remaining]; [cbn in Hlen; lia|].
    destruct (coupled_entry self max_path_len last_path e) as (bs1 & Hw1 & Hr1);
      [by rewrite Hinc|].
    destruct (IH (remember self e) (wire_path_bytes (path e)) remaining)
      as (bs2 & Hw2 & Hr2); [done|done|cbn in Hlen; lia|].
    exists ((entry_status self e :: bs1) ++ bs2). split.
    + assert (Hstep : writes_st (W:=W) (write_entry e) self
        ([entry_status self e] ++ bs1) () (remember self e)).
      { apply write_entry27_writes.
        eapply writes_bind; [apply writes_with_err, writes_u8|done]. }
      intros w Hw. destruct (Hstep w Hw) as (w1 & Hw1' & He1 & Hready1).
      destruct (Hw2 w1 Hready1) as (w2 & Hw2' & He2 & Hready2).
      exists w2. split; [|split; [by eapply emits_app|done]].
      rewrite <-Hw2'. unfold with_state. cbn [for_each].
      unfold mbind, M_bind. by rewrite Hw1'.
    + cbn [read_entries].
      destruct (status_bits (bool_decide (last_mode self = Some (mode e)))
        (bool_decide (last_mtime self = Some (mtime_unix e)))
        (bool_decide (file_type e = Directory) && is_current_dir (path e)))
        as (_ & _ & _ & _ & Hz).
      change ((entry_status self e :: bs1) ++ bs2)
        with ([entry_status self e] ++ bs1 ++ bs2).
      eapply reads_bind; [apply reads_with_err, reads_u8|].
      unfold entry_status at 1. rewrite Hz.
      eapply reads_bind; [by rewrite <-Hinc|]. cbn beta iota.
      rewrite Hinc. eapply reads_last; [exact Hr2|]. apply reads_ret.
Qed.
End facts.

(** ** What the reader accepts, on any input *)

(** The facts every decoded entry satisfies. *)
Definition entry_checked (max_path_len : Z) (e : RsyncFileListEntry) : Prop :=
  wire_path_ok (path e) ∧ Z.of_nat (length (path e)) ≤ max_path_len ∧
  file_type_from_mode (mode e) = Ok (file_type e).

Section sound.
Context {R : Type} `{ReadLaws R}.

Lemma read_path_bytes_length max_path_len same last_path (m : M R FileListError nat) r bs r' :
  read_path_bytes max_path_len same last_path m r = (Ok bs, r') →
  Z.of_nat (length bs) ≤ max_path_len.
Proof.
  unfold read_path_bytes. intros Hrun.
  run_step Hrun as inherited Hin. run_guard Hrun.
  run_step Hrun as suffix_len Hs. run_step Hrun as total Ht.
  apply lift_ok_inv in Ht as [Ht ->]. run_guard Hrun.
  run_step Hrun as suffix Hread. apply with_err_ok_inv in Hread.
  apply read_exact_budget in Hread as [Hlen _].
  injection Hrun as <- <-. rewrite length_app, length_take, Hlen.
  unfold ok_or, checked_usize in Ht. case_match; simplify_eq.
  case_match; simplify_eq. lia.
Qed.

Lemma read_entry27_checked max_path_len checksums status last_path lm lt r e bs r' :
  read_entry max_path_len checksums status last_path lm lt r = (Ok (e, bs), r') →
  entry_checked max_path_len e.
Proof.
  unfold read_entry. intros Hrun.
  run_step Hrun as bytes Hbytes. apply read_path_bytes_length in Hbytes as Hlen.
  run_step Hrun as n Hn. run_step Hrun as t Ht. run_step Hrun as m Hm.
  run_step Hrun as p Hp. apply lift_ok_inv in Hp as [Hp ->].
  run_step Hrun as ft Hft. apply lift_ok_inv in Hft as [Hft ->].
  run_step Hrun as c Hc. injection Hrun as <- <- <-.
  pose proof Hp as (-> & _)%wire_path_inv. split_and!; [done|cbn; lia|done].
Qed.

Lemma read_entries27_checked remaining max_path_len checksums last_path lm lt r es r' :
  read_entries remaining max_path_len checksums last_path lm lt r = (Ok es, r') →
  (length es ≤ remaining)%nat ∧ Forall (entry_checked max_path_len) es.
Proof.
  revert last_path lm lt r es r'.
  induction remaining as [|remaining IH]; intros last_path lm lt r es r' Hrun;
    cbn [read_entries] in Hrun; run_step Hrun as status Hstatus;
    destruct (status =? 0); try discriminate Hrun;
    try (injection Hrun as <- <-; cbn; by split; [lia|constructor]).
  run_step Hrun as [e bs] He. apply read_entry27_checked in He.
  run_step Hrun as later Hlater. apply IH in Hlater as [Hlen Hall].
  injection Hrun as <- <-. cbn. split; [lia|by constructor].
Qed.
End sound.
End Rsync27.
