(* ===== verification/Flist31.v ===== *)
(** * The protocol-31 file list: flist.rs, [Rsync31FileListWriter] and
      [read_rsync31_file_list_with_metadata]

    The writer's fields and the reader's local variables are records.  Flags are
    integers, tested bit by bit as in the code. *)

From S2P Require Import Prelude Stream WireIo Str Flist FlistFacts Flist27.
Import Rsync27(set_if, with_state, read_u8_usize, read_path_bytes).

Module Rsync31.

Record FileListWriter := {
  options : RsyncFileListOptions;
  last_path : list Z;
  last_mode : option Z;
  last_mtime : option Z;
  last_uid : option Z;
  last_gid : option Z;
  last_atime : option Z;
  hardlink_groups : gmap RsyncHardLinkGroup nat;
  next_index : nat;
  finished : bool;
}.

Definition new (options : RsyncFileListOptions) : FileListWriter :=
  {| options := options; last_path := []; last_mode := None; last_mtime := None;
     last_uid := None; last_gid := None; last_atime := None; hardlink_groups := ∅;
     next_index := 0; finished := false |}.

(** The values the writer sends for an entry's optional fields. *)
Definition entry_uid (e : RsyncFileListEntry) : Z := default 0 (uid (metadata e)).
Definition entry_gid (e : RsyncFileListEntry) : Z := default 0 (gid (metadata e)).
Definition entry_atime (e : RsyncFileListEntry) : Z :=
  default (mtime_unix e) (atime_unix (metadata e)).
Definition entry_crtime (e : RsyncFileListEntry) : Z :=
  default (mtime_unix e) (crtime_unix (metadata e)).

(** The hard-link bits of an entry, the index it refers to, and the groups
    after it. *)
Definition hardlink_step (self : FileListWriter) (entry : RsyncFileListEntry) :
    Z * option nat * gmap RsyncHardLinkGroup nat :=
  if bool_decide (file_type entry = File) then
    match hardlink_group entry with
    | Some group =>
        match hardlink_groups self !! group with
        | Some first_index => (XMIT31_HLINKED, Some first_index, hardlink_groups self)
        | None => (Z.lor XMIT31_HLINKED XMIT31_HLINK_FIRST, None,
                   <[group := next_index self]> (hardlink_groups self))
        end
    | None => (0, None, hardlink_groups self)
    end
  else (0, None, hardlink_groups self).

Definition entry_flags (self : FileListWriter) (entry : RsyncFileListEntry)
    (hardlink_flags : Z) (inherited : nat) (suffix : list Z) : Z :=
  let opts := options self in
  let flags := set_if (bool_decide (file_type entry = Directory) &&
                       is_current_dir (path entry)) XMIT31_TOP_DIR 0 in
  let flags := Z.lor flags hardlink_flags in
  let flags := set_if (bool_decide (last_mode self = Some (mode entry)))
                 XMIT31_SAME_MODE flags in
  let flags := set_if (bool_decide (last_mtime self = Some (mtime_unix entry)))
                 XMIT31_SAME_TIME flags in
  let flags := Z.lor flags XMIT31_MOD_NSEC in
  let flags :=
    if negb (preserve_owner opts) || bool_decide (last_uid self = Some (entry_uid entry))
    then Z.lor flags XMIT31_SAME_UID
    else if negb (numeric_ids opts) && is_some (user_name (metadata entry))
    then Z.lor flags XMIT31_USER_NAME_FOLLOWS else flags in
  let flags :=
    if negb (preserve_group opts) || bool_decide (last_gid self = Some (entry_gid entry))
    then Z.lor flags XMIT31_SAME_GID
    else if negb (numeric_ids opts) && is_some (group_name (metadata entry))
    then Z.lor flags XMIT31_GROUP_NAME_FOLLOWS else flags in
  let flags := set_if (atimes opts && bool_decide (file_type entry ≠ Directory) &&
                       bool_decide (last_atime self = Some (entry_atime entry)))
                 XMIT31_SAME_ATIME flags in
  let flags := set_if (crtimes opts && bool_decide (entry_crtime entry = mtime_unix entry))
                 XMIT31_CRTIME_EQ_MTIME flags in
  let flags := set_if (0 <? inherited)%nat XMIT31_SAME_NAME flags in
  let flags := set_if (255 <? length suffix)%nat XMIT31_LONG_NAME flags in
  if flags =? 0 then XMIT31_EXTENDED_FLAGS else flags.

Definition record_entry_state (self : FileListWriter) (path_bytes : list Z)
    (entry : RsyncFileListEntry) : FileListWriter :=
  let opts := options self in
  {| options := opts;
     last_path := path_bytes;
     last_mode := Some (mode entry);
     last_mtime := Some (mtime_unix entry);
     last_uid := if preserve_owner opts then Some (entry_uid entry) else last_uid self;
     last_gid := if preserve_group opts then Some (entry_gid entry) else last_gid self;
     last_atime := if atimes opts && bool_decide (file_type entry ≠ Directory)
                   then Some (entry_atime entry) else last_atime self;
     hardlink_groups := hardlink_groups self;
     next_index := S (next_index self);
     finished := finished self |}.

Definition set_groups (self : FileListWriter) (groups : gmap RsyncHardLinkGroup nat) :
    FileListWriter :=
  {| options := options self; last_path := last_path self; last_mode := last_mode self;
     last_mtime := last_mtime self; last_uid := last_uid self; last_gid := last_gid self;
     last_atime := last_atime self; hardlink_groups := groups;
     next_index := next_index self; finished := finished self |}.

Section writer.
Context {W : Type} `{Write W}.

(** [write_varint(writer, x.len() as u32)] *)
Definition write_varint_len (n : nat) : M W FileListError unit :=
  io (write_varint (as_u32 (Z.of_nat n))).

Definition write_name (name : str) : M W FileListError unit :=
  if (255 <? length name)%nat
  then throw (bad_input "protocol 31 user/group name exceeds 255 bytes")
  else
    io (write_u8 (as_u8 (Z.of_nat (length name))));;
    io (write_all name).

Definition write_id0_name (name : str) : M W FileListError unit :=
  io (write_varint 0);; write_name name.

Definition nonnegative_time (value : Z) : result Z FileListError :=
  if 0 <=? value then Ok value
  else Err (bad_input "negative protocol 31 timestamp is not supported").

Definition write_empty_acl_payload (file_type : WireFileType) : M W FileListError unit :=
  io (write_varint 0);;
  io (write_u8 0);;
  (if bool_decide (file_type = Directory)
   then io (write_varint 0);; io (write_u8 0)
   else mret ()).

Definition write_xattr (xattr : RsyncXattrPayload) : M W FileListError unit :=
  if bool_decide (xattr_name xattr = []) || contains (xattr_name xattr) 0
  then throw (InvalidXattrName (xattr_name xattr))
  else if (MAX_INLINE_XATTR_VALUE <? length (xattr_value xattr))%nat
  then throw (XattrValueTooLarge (xattr_name xattr) (length (xattr_value xattr)))
  else
    write_varint_len (length (xattr_name xattr) + 1);;
    write_varint_len (length (xattr_value xattr));;
    io (write_all (xattr_name xattr));;
    io (write_u8 0);;
    io (write_all (xattr_value xattr)).

Definition write_xattr_payload (xs : list RsyncXattrPayload) : M W FileListError unit :=
  io (write_varint 0);;
  write_varint_len (length xs);;
  for_each write_xattr xs.

Definition write_rsync31_metadata_payloads (entry : RsyncFileListEntry)
    (options : RsyncFileListOptions) : M W FileListError unit :=
  (if opt_acls options && bool_decide (file_type entry ≠ Symlink)
   then write_empty_acl_payload (file_type entry) else mret ());;
  (if opt_xattrs options then write_xattr_payload (xattrs (metadata entry))
   else mret ()).

Definition write_entry_name (flags : Z) (inherited : nat) (suffix : list Z) :
    M W FileListError unit :=
  (if has flags XMIT31_SAME_NAME
   then io (write_u8 (as_u8 (Z.of_nat inherited))) else mret ());;
  (if has flags XMIT31_LONG_NAME then
     lift (if Z.of_nat (length suffix) <=? u32_max then Ok ()
           else Err (PathTooLong (length suffix)));;
     io (write_varint (Z.of_nat (length suffix)))
   else io (write_u8 (as_u8 (Z.of_nat (length suffix)))));;
  io (write_all suffix).

(** An owner or group: the id unless it is the previous one, and its name. *)
Definition write_owner (preserve : bool) (flags same_bit name_bit id : Z)
    (name : option str) : M W FileListError unit :=
  if preserve && negb (has flags same_bit) then
    io (write_varint id);;
    (if has flags name_bit then write_name (default [] name) else mret ())
  else mret ().

(** The fields of an entry that is not a reference to an earlier one. *)
Definition write_entry_fields (options : RsyncFileListOptions) (flags : Z)
    (entry : RsyncFileListEntry) : M W FileListError unit :=
  io (write_varlong (len entry) 3);;
  (if has flags XMIT31_SAME_TIME then mret () else
     mtime ← lift (if 0 <=? mtime_unix entry then Ok (mtime_unix entry) else Err (bad_input
       "negative mtime is not supported by protocol 31 ordinary-file flist writer"));
     io (write_varlong mtime 4));;
  (if has flags XMIT31_MOD_NSEC then io (write_varint 0) else mret ());;
  (if has flags XMIT31_SAME_MODE then mret ()
   else io (write_i32_le (as_i32 (mode entry))));;
  (if crtimes options && negb (has flags XMIT31_CRTIME_EQ_MTIME) then
     t ← lift (nonnegative_time (entry_crtime entry)); io (write_varlong t 4)
   else mret ());;
  (if atimes options && bool_decide (file_type entry ≠ Directory) &&
      negb (has flags XMIT31_SAME_ATIME) then
     t ← lift (nonnegative_time (entry_atime entry)); io (write_varlong t 4)
   else mret ());;
  write_owner (preserve_owner options) flags XMIT31_SAME_UID XMIT31_USER_NAME_FOLLOWS
    (entry_uid entry) (user_name (metadata entry));;
  write_owner (preserve_group options) flags XMIT31_SAME_GID XMIT31_GROUP_NAME_FOLLOWS
    (entry_gid entry) (group_name (metadata entry));;
  (if include_checksums options && bool_decide (file_type entry = File) then
     checksum ← lift (ok_or (checksum entry) (MissingChecksum (path entry)));
     io (write_all checksum)
   else mret ());;
  write_rsync31_metadata_payloads entry options.

(** The whole of one entry on the stream. *)
Definition write_entry_bytes (self : FileListWriter) (entry : RsyncFileListEntry) :
    M W FileListError unit :=
  let path_bytes := wire_path_bytes (path entry) in
  let inherited := common_prefix_len (last_path self) path_bytes in
  let suffix := drop inherited path_bytes in
  let '(hardlink_flags, hardlink_reference, _) := hardlink_step self entry in
  let flags := entry_flags self entry hardlink_flags inherited suffix in
  io (write_varint flags);;
  write_entry_name flags inherited suffix;;
  match hardlink_reference with
  | Some first_index =>
      lift (if Z.of_nat first_index <=? u32_max then Ok () else Err (bad_input
        "hardlink file-list index exceeds protocol 31 varint range"));;
      io (write_varint (Z.of_nat first_index));;
      write_rsync31_metadata_payloads entry (options self)
  | None => write_entry_fields (options self) flags entry
  end.

(** One turn of the loop of [write_batch]. *)
Definition write_entry (entry : RsyncFileListEntry) :
    M (FileListWriter * W) FileListError unit :=
  self ← on_fst get;
  on_fst (put (set_groups self (hardlink_step self entry).2));;
  on_snd (write_entry_bytes self entry);;
  on_fst (put (record_entry_state (set_groups self (hardlink_step self entry).2)
                 (wire_path_bytes (path entry)) entry)).

Definition write_batch (entries : list RsyncFileListEntry) :
    M (FileListWriter * W) FileListError unit :=
  self ← on_fst get;
  if finished self
  then throw (bad_input "cannot write entries after finishing file-list")
  else for_each write_entry entries.

(** What [finish] writes: the end marker, no error, and the id lists. *)
Definition write_end (options : RsyncFileListOptions) : M W FileListError unit :=
  io (write_varint 0);;
  io (write_varint 0);;
  (if negb (numeric_ids options) then
     (if preserve_owner options || opt_acls options
      then write_id0_name (lit "root") else mret ());;
     (if preserve_group options || opt_acls options
      then write_id0_name (lit "root") else mret ())
   else mret ()).

Definition set_finished (self : FileListWriter) : FileListWriter :=
  {| options := options self; last_path := last_path self; last_mode := last_mode self;
     last_mtime := last_mtime self; last_uid := last_uid self; last_gid := last_gid self;
     last_atime := last_atime self; hardlink_groups := hardlink_groups self;
     next_index := next_index self; finished := true |}.

Definition finish : M (FileListWriter * W) FileListError unit :=
  self ← on_fst get;
  if finished self then mret ()
  else on_snd (write_end (options self));; on_fst (put (set_finished self)).

Definition write_rsync31_file_list_with_metadata (entries : list RsyncFileListEntry)
    (options : RsyncFileListOptions) : M W FileListError unit :=
  with_state (new options) (write_batch entries;; finish).

Definition write_rsync31_file_list_with_options (entries : list RsyncFileListEntry)
    (checksums : bool) : M W FileListError unit :=
  write_rsync31_file_list_with_metadata entries
    {| include_checksums := checksums; preserve_owner := false; preserve_group := false;
       numeric_ids := false; opt_acls := false; opt_xattrs := false;
       fake_super := false; atimes := false; crtimes := false |}.

Definition write_rsync31_file_list (entries : list RsyncFileListEntry) :
    M W FileListError unit :=
  write_rsync31_file_list_with_options entries false.

(** [u64::try_from(usize)] does not fail on the 64-bit targets. *)
Definition write_rsync31_file_list_batch_with_metadata (batch : FileListBatch)
    (options : RsyncFileListOptions) : M W FileListError unit :=
  let count := Z.of_nat (length (entries batch)) in
  lift (if count <=? u32_max then Ok ()
        else Err (bad_input "file-list batch has too many entries"));;
  io (write_varlong (Z.of_nat (base_index batch)) 3);;
  io (write_u8 (if is_final batch then 1 else 0));;
  io (write_u32_le count);;
  write_rsync31_file_list_with_metadata (entries batch) options.

Definition write_rsync31_file_list_batch (batch : FileListBatch) :
    M W FileListError unit :=
  write_rsync31_file_list_batch_with_metadata batch default_options.
End writer.

(** ** The reader *)

Record FileListReader := {
  r_entries : list RsyncFileListEntry;
  r_last_path : list Z;
  r_last_mode : option Z;
  r_last_mtime : option Z;
  r_last_uid : option Z;
  r_last_gid : option Z;
  r_last_user_name : option str;
  r_last_group_name : option str;
  r_last_atime : option Z;
}.

Definition reader_start : FileListReader :=
  {| r_entries := []; r_last_path := []; r_last_mode := None; r_last_mtime := None;
     r_last_uid := None; r_last_gid := None; r_last_user_name := None;
     r_last_group_name := None; r_last_atime := None |}.

(** The end of the loop: the entry joins the list and becomes the previous one. *)
Definition remember (options : RsyncFileListOptions) (st : FileListReader)
    (entry : RsyncFileListEntry) (path_bytes : list Z) : FileListReader :=
  let md := metadata entry in
  {| r_entries := r_entries st ++ [entry];
     r_last_path := path_bytes;
     r_last_mode := Some (mode entry);
     r_last_mtime := Some (mtime_unix entry);
     r_last_uid := if preserve_owner options then uid md else r_last_uid st;
     r_last_gid := if preserve_group options then gid md else r_last_gid st;
     r_last_user_name :=
       if preserve_owner options && is_some (user_name md)
       then user_name md else r_last_user_name st;
     r_last_group_name :=
       if preserve_group options && is_some (group_name md)
       then group_name md else r_last_group_name st;
     r_last_atime := if atimes options && bool_decide (file_type entry ≠ Directory)
                     then atime_unix md else r_last_atime st |}.

Section reader.
Context {R : Type} `{Read R}.

(** [read_varint(reader)? as usize] *)
Definition read_varint_usize : M R FileListError nat :=
  v ← io read_varint; mret (Z.to_nat v).

Definition time_from_wire (value : Z) (msg : string) : result Z FileListError :=
  if value <=? i64_max then Ok value else Err (bad_data msg).

Definition read_protocol_time : M R FileListError Z :=
  value ← io (read_varlong 4);
  lift (time_from_wire value "protocol 31 {field} is outside i64 range").

Definition read_name : M R FileListError str :=
  len ← read_u8_usize;
  bytes ← io (read_exact len);
  lift (ok_or (from_utf8 bytes) InvalidUtf8).

Definition read_empty_acl_payload : M R FileListError unit :=
  ndx ← io read_varint;
  if negb (ndx =? 0) then throw (bad_data "unsupported ACL payload index {ndx}")
  else
    flags ← io read_u8;
    if negb (flags =? 0) then throw (bad_data "unsupported ACL payload flags {flags}")
    else mret ().

Definition read_xattr : M R FileListError RsyncXattrPayload :=
  name_len ← read_varint_usize;
  value_len ← read_varint_usize;
  if (name_len =? 0)%nat then throw (InvalidXattrName [])
  else
    name_bytes ← io (read_exact name_len);
    if negb (bool_decide (last name_bytes = Some 0))
    then throw (InvalidXattrName (from_utf8_lossy name_bytes))
    else
      name ← lift (ok_or (from_utf8 (take (length name_bytes - 1) name_bytes)) InvalidUtf8);
      value ← io (read_exact value_len);
      mret {| xattr_name := name; xattr_value := value |}.

Definition read_xattr_payload : M R FileListError (list RsyncXattrPayload) :=
  ndx ← io read_varint;
  if negb (ndx =? 0) then throw (bad_data "unsupported xattr payload index {ndx}")
  else
    count ← read_varint_usize;
    collect count read_xattr.

Definition read_rsync31_metadata_payloads (file_type : WireFileType)
    (options : RsyncFileListOptions) : M R FileListError (list RsyncXattrPayload) :=
  (if opt_acls options && bool_decide (file_type ≠ Symlink) then
     read_empty_acl_payload;;
     (if bool_decide (file_type = Directory) then read_empty_acl_payload else mret ())
   else mret ());;
  (if opt_xattrs options || fake_super options then read_xattr_payload else mret []).

Definition read_suffix_len31 (flags : Z) : M R FileListError nat :=
  if has flags XMIT31_LONG_NAME then read_varint_usize else read_u8_usize.

Definition read_hardlink_reference (flags : Z) (count : nat) :
    M R FileListError (option nat) :=
  if has flags XMIT31_HLINKED && negb (has flags XMIT31_HLINK_FIRST) then
    first_index ← read_varint_usize;
    if (count <=? first_index)%nat
    then throw (bad_data
      "hardlink reference {first_index} exceeds file-list entries read so far")
    else mret (Some first_index)
  else mret None.

Definition read_owner (preserve : bool) (flags same_bit name_bit : Z)
    (last_id : option Z) (last_name : option str) :
    M R FileListError (option Z * option str) :=
  if preserve then
    if has flags same_bit then mret (last_id, last_name)
    else
      id ← io read_varint;
      name ← (if has flags name_bit then name ← read_name; mret (Some name)
              else mret None);
      mret (Some id, name)
  else if negb (has flags same_bit) then
    io read_varint;;
    (if has flags name_bit then read_ignored_name else mret ());;
    mret (None, None)
  else mret (None, None).

Definition read_mtime (flags : Z) (last : option Z) : M R FileListError Z :=
  if has flags XMIT31_SAME_TIME
  then lift (ok_or last (bad_data "file list repeated mtime without previous value"))
  else
    value ← io (read_varlong 4);
    lift (time_from_wire value "protocol 31 mtime is outside i64 range").

Definition read_mode (flags : Z) (last : option Z) : M R FileListError Z :=
  if has flags XMIT31_SAME_MODE
  then lift (ok_or last (bad_data "file list repeated mode without previous value"))
  else mode ← io read_i32_le; mret (as_u32 mode).

Definition read_atime (options : RsyncFileListOptions) (flags : Z)
    (file_type : WireFileType) (last : option Z) : M R FileListError (option Z) :=
  if atimes options && bool_decide (file_type ≠ Directory) then
    if has flags XMIT31_SAME_ATIME
    then t ← lift (ok_or last
           (bad_data "file list repeated atime without previous value"));
         mret (Some t)
    else t ← read_protocol_time; mret (Some t)
  else mret None.

Definition read_crtime (options : RsyncFileListOptions) (flags mtime : Z) :
    M R FileListError (option Z) :=
  if crtimes options then
    if has flags XMIT31_CRTIME_EQ_MTIME then mret (Some mtime)
    else t ← read_protocol_time; mret (Some t)
  else mret None.

(** An entry that is not a reference. *)
Definition read_entry_fields (options : RsyncFileListOptions) (flags : Z)
    (st : FileListReader) (path : str) : M R FileListError RsyncFileListEntry :=
  len ← io (read_varlong 3);
  mtime ← read_mtime flags (r_last_mtime st);
  (if has flags XMIT31_MOD_NSEC then io read_varint else mret 0);;
  mode ← read_mode flags (r_last_mode st);
  crtime ← read_crtime options flags mtime;
  file_type ← lift (file_type_from_mode mode);
  atime ← read_atime options flags file_type (r_last_atime st);
  '(uid, user_name) ← read_owner (preserve_owner options) flags XMIT31_SAME_UID
     XMIT31_USER_NAME_FOLLOWS (r_last_uid st) (r_last_user_name st);
  '(gid, group_name) ← read_owner (preserve_group options) flags XMIT31_SAME_GID
     XMIT31_GROUP_NAME_FOLLOWS (r_last_gid st) (r_last_group_name st);
  checksum ← (if include_checksums options && bool_decide (file_type = File)
              then checksum ← read_checksum; mret (Some checksum)
              else mret None);
  let hardlink_group :=
    if has flags XMIT31_HLINKED
    then Some {| device := 0; inode := Z.of_nat (length (r_entries st)) |} else None in
  xs ← read_rsync31_metadata_payloads file_type options;
  mret {| path := path; file_type := file_type; len := len; mtime_unix := mtime;
          mode := mode; checksum := checksum; hardlink_group := hardlink_group;
          metadata := {| uid := uid; gid := gid; user_name := user_name;
                         group_name := group_name; atime_unix := atime;
                         crtime_unix := crtime; xattrs := xs |} |}.

Definition set_xattrs (md : RsyncFileListMetadata) (xs : list RsyncXattrPayload) :
    RsyncFileListMetadata :=
  {| uid := uid md; gid := gid md; user_name := user_name md;
     group_name := group_name md; atime_unix := atime_unix md;
     crtime_unix := crtime_unix md; xattrs := xs |}.

(** An entry that repeats [first], the entry at [first_index]. *)
Definition read_link_entry (options : RsyncFileListOptions) (first_index : nat)
    (first : RsyncFileListEntry) (path : str) : M R FileListError RsyncFileListEntry :=
  let group := default {| device := 0; inode := Z.of_nat first_index |}
                 (hardlink_group first) in
  xs ← read_rsync31_metadata_payloads (file_type first) options;
  mret {| path := path; file_type := file_type first; len := len first;
          mtime_unix := mtime_unix first; mode := mode first;
          checksum := checksum first; hardlink_group := Some group;
          metadata := set_xattrs (metadata first) xs |}.

(** One turn of the loop after the flags. *)
Definition read_entry (max_path_len : Z) (options : RsyncFileListOptions)
    (flags : Z) (st : FileListReader) :
    M R FileListError (RsyncFileListEntry * list Z) :=
  path_bytes ← read_path_bytes max_path_len (has flags XMIT31_SAME_NAME)
    (r_last_path st) (read_suffix_len31 flags);
  path ← lift (wire_path_from_bytes path_bytes);
  reference ← read_hardlink_reference flags (length (r_entries st));
  entry ← match reference ≫= λ i, pair i <$> r_entries st !! i with
          | Some (first_index, first) => read_link_entry options first_index first path
          | None => read_entry_fields options flags st path
          end;
  mret (entry, path_bytes).

Fixpoint read_entries (remaining : nat) (max_path_len : Z)
    (options : RsyncFileListOptions) (st : FileListReader) :
    M R FileListError (list RsyncFileListEntry) :=
  flags ← io read_varint;
  if flags =? 0 then
    io_error ← io read_varint;
    if negb (io_error =? 0)
    then throw (bad_data "remote sender reported file-list I/O error {io_error}")
    else mret (r_entries st)
  else match remaining with
  | O => throw (bad_data "file list entry count exceeds limit {max_entries}")
  | S remaining =>
      '(entry, path_bytes) ← read_entry max_path_len options flags st;
      read_entries remaining max_path_len options (remember options st entry path_bytes)
  end.

(** Each turn consumes at least two bytes; [budget] bounds the turns. *)
Fixpoint id_list_loop (fuel : nat) : M R FileListError unit :=
  match fuel with
  | O => throw (Io (IoError UnexpectedEof "failed to fill whole buffer"))
  | S fuel =>
      id ← io read_varint;
      if id =? 0 then read_ignored_name
      else read_ignored_name;; id_list_loop fuel
  end.

Definition read_id_list_terminator : M R FileListError unit :=
  λ r, id_list_loop (S (budget r)) r.

Definition read_rsync31_file_list_with_metadata (max_entries : nat) (max_path_len : Z)
    (options : RsyncFileListOptions) : M R FileListError (list RsyncFileListEntry) :=
  entries ← read_entries max_entries max_path_len options reader_start;
  (if negb (numeric_ids options) then
     (if preserve_owner options || opt_acls options
      then read_id_list_terminator else mret ());;
     (if preserve_group options || opt_acls options
      then read_id_list_terminator else mret ())
   else mret ());;
  mret entries.

Definition read_rsync31_file_list_with_options (max_entries : nat) (max_path_len : Z)
    (expect_checksums : bool) : M R FileListError (list RsyncFileListEntry) :=
  read_rsync31_file_list_with_metadata max_entries max_path_len
    {| include_checksums := expect_checksums; preserve_owner := false;
       preserve_group := false; numeric_ids := false; opt_acls := false;
       opt_xattrs := false; fake_super := false; atimes := false; crtimes := false |}.

Definition read_rsync31_file_list (max_entries : nat) (max_path_len : Z) :
    M R FileListError (list RsyncFileListEntry) :=
  read_rsync31_file_list_with_options max_entries max_path_len false.

Definition read_rsync31_file_list_batch_with_metadata (max_entries : Z)
    (max_path_len : Z) (options : RsyncFileListOptions) :
    M R FileListError FileListBatch :=
  base_index ← io (read_varlong 3);
  byte ← io read_u8;
  is_final ← (if byte =? 0 then mret false
              else if byte =? 1 then mret true
              else throw (bad_data "invalid file-list batch final flag {value}"));
  count ← io read_u32_le;
  if max_entries <? count
  then throw (bad_data "file-list batch entry count {count} exceeds limit {max_entries}")
  else
    entries ← read_rsync31_file_list_with_metadata (Z.to_nat count) max_path_len options;
    if negb (Z.of_nat (length entries) =? count)
    then throw (bad_data
      "file-list batch header declared {count} entries but decoded {}")
    else mret {| base_index := Z.to_nat base_index; entries := entries;
                 is_final := is_final |}.

Definition read_rsync31_file_list_batch (max_entries : Z) (max_path_len : Z) :
    M R FileListError FileListBatch :=
  read_rsync31_file_list_batch_with_metadata max_entries max_path_len default_options.
End reader.
End Rsync31.
