(* ===== verification/Flist31Facts.v ===== *)
(** * Facts about the protocol-31 file list

    The flag bits, the codecs of the single fields, and the round trip of
    entries and lists, the writer's and the reader's memories being related. *)

From S2P Require Import Prelude Stream WireIo Str Flist FlistFacts Flist27 Flist31.
Import Rsync27(set_if, with_state, read_u8_usize, read_path_bytes).
Import Rsync31.

(** ** Flags *)

Lemma has_shiftl f k : 0 ≤ k → has f (Z.shiftl 1 k) = Z.testbit f k.
Proof.
  intros Hk. unfold has. rewrite Z.shiftl_1_l. destruct (Z.testbit f k) eqn:Hb.
  - apply negb_true_iff, Z.eqb_neq. intros Hz.
    assert (Z.testbit (Z.land f (2 ^ k)) k = true)
      by (rewrite Z.land_spec, Hb, Z.pow2_bits_true; done).
    rewrite Hz, Z.bits_0 in *. done.
  - apply negb_false_iff, Z.eqb_eq. apply Z.bits_inj'. intros n Hn.
    rewrite Z.land_spec, Z.bits_0. destruct (Z.eq_dec n k) as [->|].
    + by rewrite Hb.
    + rewrite Z.pow2_bits_false by lia. apply andb_false_r.
Qed.

Lemma testbit_set_if b m f n :
  Z.testbit (set_if b m f) n = (b && Z.testbit m n) || Z.testbit f n.
Proof. destruct b; cbn; [rewrite Z.lor_spec; apply orb_comm|done]. Qed.

Lemma set_if_else (c d : bool) m1 m2 f :
  (if c then Z.lor f m1 else if d then Z.lor f m2 else f) =
  set_if (negb c && d) m2 (set_if c m1 f).
Proof. by destruct c, d. Qed.

Lemma set_if_bound n b m f :
  0 ≤ n → 0 ≤ m < 2 ^ n → 0 ≤ f < 2 ^ n → 0 ≤ set_if b m f < 2 ^ n.
Proof. intros. destruct b; [by apply lor_bound|done]. Qed.

(** What the flags of an entry say. *)
Record flags_say (self : FileListWriter) (e : RsyncFileListEntry) (linked first : bool)
    (inherited : nat) (suffix : list Z) (flags : Z) : Prop := {
  f_nonzero : (flags =? 0) = false;
  f_range : 0 ≤ flags ≤ i32_max;
  f_mode : has flags XMIT31_SAME_MODE = bool_decide (last_mode self = Some (mode e));
  f_mtime : has flags XMIT31_SAME_TIME = bool_decide (last_mtime self = Some (mtime_unix e));
  f_nsec : has flags XMIT31_MOD_NSEC = true;
  f_hlinked : has flags XMIT31_HLINKED = linked;
  f_first : has flags XMIT31_HLINK_FIRST = first;
  f_uid : has flags XMIT31_SAME_UID =
    negb (preserve_owner (options self)) || bool_decide (last_uid self = Some (entry_uid e));
  f_uname : has flags XMIT31_USER_NAME_FOLLOWS =
    negb (negb (preserve_owner (options self)) ||
          bool_decide (last_uid self = Some (entry_uid e))) &&
    (negb (numeric_ids (options self)) && is_some (user_name (metadata e)));
  f_gid : has flags XMIT31_SAME_GID =
    negb (preserve_group (options self)) || bool_decide (last_gid self = Some (entry_gid e));
  f_gname : has flags XMIT31_GROUP_NAME_FOLLOWS =
    negb (negb (preserve_group (options self)) ||
          bool_decide (last_gid self = Some (entry_gid e))) &&
    (negb (numeric_ids (options self)) && is_some (group_name (metadata e)));
  f_atime : has flags XMIT31_SAME_ATIME =
    atimes (options self) && bool_decide (file_type e ≠ Directory) &&
    bool_decide (last_atime self = Some (entry_atime e));
  f_crtime : has flags XMIT31_CRTIME_EQ_MTIME =
    crtimes (options self) && bool_decide (entry_crtime e = mtime_unix e);
  f_same_name : has flags XMIT31_SAME_NAME = (0 <? inherited)%nat;
  f_long_name : has flags XMIT31_LONG_NAME = (255 <? length suffix)%nat;
}.

(** Evaluate the bits of closed masks, then the boolean skeleton. *)
Ltac eval_bits :=
  repeat rewrite ?testbit_set_if, ?Z.lor_spec;
  repeat match goal with
  | |- context [Z.testbit ?m ?n] =>
      let v := eval vm_compute in (Z.testbit m n) in
      lazymatch v with
      | true => change (Z.testbit m n) with true
      | false => change (Z.testbit m n) with false
      end
  end;
  rewrite ?andb_false_r, ?andb_true_r, ?orb_false_r, ?orb_true_r, ?orb_false_l, ?andb_assoc;
  try reflexivity.


Lemma entry_flags_say self e linked first inherited suffix :
  let hl := set_if first XMIT31_HLINK_FIRST (set_if linked XMIT31_HLINKED 0) in
  flags_say self e linked first inherited suffix (entry_flags self e hl inherited suffix).
Proof.
  intros hl. unfold entry_flags. cbv zeta. rewrite !set_if_else.
  match goal with |- context [if ?f =? 0 then _ else _] => set (flags := f) end.
  assert (Hbit : Z.testbit flags 13 = true) by (unfold flags, hl; eval_bits).
  assert (Hnz : (flags =? 0) = false).
  { apply Z.eqb_neq. intros Hz. rewrite Hz, Z.bits_0 in Hbit. done. }
  rewrite Hnz.
  assert (Hrange : 0 ≤ flags < 2 ^ 18).
  { unfold flags, hl. repeat (apply set_if_bound || apply lor_bound);
      try (vm_compute; split; congruence); lia. }
  constructor; try done; [unfold i32_max; lia|..];
    (unfold XMIT31_SAME_MODE, XMIT31_SAME_TIME, XMIT31_MOD_NSEC, XMIT31_HLINKED,
      XMIT31_HLINK_FIRST, XMIT31_SAME_UID, XMIT31_USER_NAME_FOLLOWS, XMIT31_SAME_GID,
      XMIT31_GROUP_NAME_FOLLOWS, XMIT31_SAME_ATIME, XMIT31_CRTIME_EQ_MTIME,
      XMIT31_SAME_NAME, XMIT31_LONG_NAME;
     rewrite has_shiftl by lia; unfold flags, hl; eval_bits).
Qed.

(** ** Names with an inherited prefix *)

Lemma common_prefix_spec limit l r :
  let n := common_prefix limit l r in
  (n ≤ limit)%nat ∧ (n ≤ length l)%nat ∧ (n ≤ length r)%nat ∧ take n l = take n r.
Proof.
  revert l r. induction limit as [|limit IH]; intros l r; cbn; [split_and!; lia || done|].
  destruct l as [|x l], r as [|y r]; cbn; try (split_and!; lia || done).
  destruct (Z.eqb_spec x y) as [->|]; cbn; [|split_and!; lia || done].
  destruct (IH l r) as (? & ? & ? & Heq). split_and!; try lia. by rewrite Heq.
Qed.

Section fields.
Context {R : Type} `{ReadLaws R} {W : Type} `{WriteLaws W}.

Lemma coupled_if {E E' A} (b : bool) (w1 w2 : M W E unit) (r1 r2 : M R E' A) a :
  (b = true → coupled w1 r1 a) → (b = false → coupled w2 r2 a) →
  coupled (if b then w1 else w2) (if b then r1 else r2) a.
Proof. destruct b; auto. Qed.

(** A byte or a varint that is a length. *)
Lemma coupled_u8_usize n :
  coupled (W:=W) (R:=R) (io (write_u8 (Z.of_nat n))) read_u8_usize n.
Proof.
  unfold read_u8_usize. eapply coupled_last; [apply coupled_io, coupled_u8|].
  by rewrite Nat2Z.id.
Qed.

Lemma coupled_varint_usize n :
  Z.of_nat n ≤ i32_max →
  coupled (W:=W) (R:=R) (io (write_varint (Z.of_nat n))) read_varint_usize n.
Proof.
  intros Hn. unfold read_varint_usize.
  eapply coupled_last; [apply coupled_io, coupled_varint; lia|]. by rewrite Nat2Z.id.
Qed.

Lemma coupled_varint_len n :
  Z.of_nat n ≤ i32_max →
  coupled (W:=W) (R:=R) (write_varint_len n) read_varint_usize n.
Proof.
  intros Hn. unfold write_varint_len. unfold i32_max in Hn.
  rewrite as_u32_id by (unfold in_u32; lia). by apply coupled_varint_usize.
Qed.

Lemma coupled_exact {E E'} (g : io_error → E) (g' : io_error → E') bs n :
  length bs = n →
  coupled (W:=W) (R:=R) (with_err g (write_all bs)) (with_err g' (read_exact n)) bs.
Proof.
  intros Hn. apply coupled_with_err. exists bs.
  split; [apply writes_all|by apply reads_exact].
Qed.

Lemma coupled_suffix_len flags n :
  has flags XMIT31_LONG_NAME = (255 <? n)%nat → Z.of_nat n ≤ i32_max →
  coupled (W:=W) (R:=R)
    (if has flags XMIT31_LONG_NAME then
       lift (if Z.of_nat n <=? u32_max then Ok () else Err (PathTooLong n));;
       io (write_varint (Z.of_nat n))
     else io (write_u8 (as_u8 (Z.of_nat n))))
    (read_suffix_len31 flags) n.
Proof.
  intros Hlong Hn. unfold read_suffix_len31, i32_max in *.
  apply coupled_if; rewrite Hlong; intros Hcase.
  - eapply coupled_writer_lift;
      [unfold u32_max; by destruct (Z.leb_spec (Z.of_nat n) 4294967295); [|lia]|].
    by apply coupled_varint_usize.
  - apply Nat.ltb_ge in Hcase. rewrite as_u8_id by (unfold in_u8; lia).
    apply coupled_u8_usize.
Qed.

Lemma coupled_entry_name flags max_path_len last_path path_bytes :
  let inherited := common_prefix_len last_path path_bytes in
  let suffix := drop inherited path_bytes in
  has flags XMIT31_SAME_NAME = (0 <? inherited)%nat →
  has flags XMIT31_LONG_NAME = (255 <? length suffix)%nat →
  Z.of_nat (length path_bytes) ≤ Z.min max_path_len i32_max →
  coupled (W:=W) (R:=R) (write_entry_name flags inherited suffix)
    (read_path_bytes max_path_len (has flags XMIT31_SAME_NAME) last_path
       (read_suffix_len31 flags)) path_bytes.
Proof.
  intros inherited suffix Hsame Hlong Hlen.
  destruct (common_prefix_spec 255 last_path path_bytes) as (H255 & Hl & Hr & Htake).
  fold (common_prefix_len last_path path_bytes) in *. fold inherited in H255, Hl, Hr, Htake.
  assert (Hsuffix : length suffix = (length path_bytes - inherited)%nat)
    by (unfold suffix; by rewrite length_drop).
  unfold write_entry_name, read_path_bytes.
  eapply (coupled_bind _ _ _ _ inherited).
  { rewrite as_u8_id by (unfold in_u8; lia).
    apply coupled_if; intros Hb; [apply coupled_u8_usize|].
    replace inherited with 0%nat by (rewrite Hsame in Hb;
      apply Nat.ltb_ge in Hb; lia). apply coupled_ret. }
  cbv beta. destruct (Nat.ltb_spec (length last_path) inherited); [lia|].
  eapply coupled_bind; [apply coupled_suffix_len; [done|lia]|].
  unfold i32_max in Hlen.
  eapply coupled_reader_lift.
  { unfold checked_usize.
    destruct (Z.leb_spec 0 (Z.of_nat inherited + Z.of_nat (length suffix))); [|lia].
    destruct (Z.ltb_spec (Z.of_nat inherited + Z.of_nat (length suffix)) (2 ^ 64)); [|lia].
    done. }
  cbv beta.
  destruct (Z.ltb_spec max_path_len (Z.of_nat inherited + Z.of_nat (length suffix))); [lia|].
  eapply coupled_last; [apply coupled_exact; lia|].
  rewrite Htake. unfold suffix. by rewrite take_drop.
Qed.

(** ** Times, modes, owners *)

Lemma coupled_wire_time t (g : Z → result Z FileListError) msg :
  0 ≤ t < 2 ^ 59 → g t = Ok t →
  coupled (W:=W) (R:=R) (t' ← lift (g t); io (write_varlong t' 4))
    (value ← io (read_varlong 4); lift (time_from_wire value msg)) t.
Proof.
  intros Ht Hg. eapply Rsync27.coupled_writer_bind_lift; [exact Hg|].
  destruct (coupled_varlong (R:=R) (W:=W) t 4) as (bs & Hw & Hr); [lia|lia|].
  exists bs. split; [by apply writes_with_err|].
  eapply reads_last; [by apply reads_with_err|]. apply reads_lift.
  unfold time_from_wire, i64_max. by destruct (Z.leb_spec t 9223372036854775807); [|lia].
Qed.

Lemma coupled_mtime31 flags last t :
  has flags XMIT31_SAME_TIME = bool_decide (last = Some t) → 0 ≤ t < 2 ^ 59 →
  coupled (W:=W) (R:=R)
    (if has flags XMIT31_SAME_TIME then mret () else
       mtime ← lift (if 0 <=? t then Ok t else Err (bad_input
         "negative mtime is not supported by protocol 31 ordinary-file flist writer"));
       io (write_varlong mtime 4))
    (read_mtime flags last) t.
Proof.
  intros Hflag Ht. unfold read_mtime. apply coupled_if; rewrite Hflag.
  - intros ->%bool_decide_eq_true. exists []. split; [apply writes_ret|by apply reads_lift].
  - intros _. apply (coupled_wire_time t (λ t, if 0 <=? t then Ok t else Err _)); [done|].
    by destruct (Z.leb_spec 0 t); [|lia].
Qed.

Lemma coupled_mode31 flags last m :
  has flags XMIT31_SAME_MODE = bool_decide (last = Some m) → in_u32 m →
  coupled (W:=W) (R:=R)
    (if has flags XMIT31_SAME_MODE then mret () else io (write_i32_le (as_i32 m)))
    (read_mode flags last) m.
Proof.
  intros Hflag Hm. unfold read_mode. apply coupled_if; rewrite Hflag.
  - intros ->%bool_decide_eq_true. exists []. split; [apply writes_ret|by apply reads_lift].
  - intros _. eapply coupled_last; [apply coupled_io, coupled_i32_le|].
    by rewrite !as_u32_as_i32, as_u32_id.
Qed.

Lemma coupled_nsec flags {A} (w : M W FileListError unit) (r : M R FileListError A) a :
  has flags XMIT31_MOD_NSEC = true → coupled w r a →
  coupled ((if has flags XMIT31_MOD_NSEC then io (write_varint 0) else mret ());; w)
    ((if has flags XMIT31_MOD_NSEC then io read_varint else mret 0);; r) a.
Proof.
  intros -> Hw. eapply coupled_bind; [|exact Hw].
  apply coupled_io, coupled_varint. unfold i32_max. lia.
Qed.

Lemma nonnegative_time_ok t : 0 ≤ t → nonnegative_time t = Ok t.
Proof. intros Ht. unfold nonnegative_time. by destruct (Z.leb_spec 0 t); [|lia]. Qed.

Lemma coupled_protocol_time t :
  0 ≤ t < 2 ^ 59 →
  coupled (W:=W) (R:=R) (t' ← lift (nonnegative_time t); io (write_varlong t' 4))
    (t' ← read_protocol_time; mret (Some t')) (Some t).
Proof.
  intros Ht. eapply coupled_last; [|reflexivity]. unfold read_protocol_time.
  apply coupled_wire_time; [done|]. apply nonnegative_time_ok. lia.
Qed.

Lemma coupled_crtime options flags e :
  has flags XMIT31_CRTIME_EQ_MTIME =
    crtimes options && bool_decide (entry_crtime e = mtime_unix e) →
  (crtimes options = true → 0 ≤ entry_crtime e < 2 ^ 59) →
  coupled (W:=W) (R:=R)
    (if crtimes options && negb (has flags XMIT31_CRTIME_EQ_MTIME) then
       t ← lift (nonnegative_time (entry_crtime e)); io (write_varlong t 4)
     else mret ())
    (read_crtime options flags (mtime_unix e))
    (if crtimes options then Some (entry_crtime e) else None).
Proof.
  intros Hflag Ht. unfold read_crtime.
  destruct (crtimes options); cbn [andb] in *; [|apply coupled_ret].
  rewrite Hflag. case_bool_decide as Heq; cbn [negb].
  - rewrite Heq. apply coupled_ret.
  - by apply coupled_protocol_time, Ht.
Qed.

Lemma coupled_atime options flags e last :
  has flags XMIT31_SAME_ATIME =
    atimes options && bool_decide (file_type e ≠ Directory) &&
    bool_decide (last = Some (entry_atime e)) →
  (atimes options = true → file_type e ≠ Directory → 0 ≤ entry_atime e < 2 ^ 59) →
  coupled (W:=W) (R:=R)
    (if atimes options && bool_decide (file_type e ≠ Directory) &&
        negb (has flags XMIT31_SAME_ATIME) then
       t ← lift (nonnegative_time (entry_atime e)); io (write_varlong t 4)
     else mret ())
    (read_atime options flags (file_type e) last)
    (if atimes options && bool_decide (file_type e ≠ Directory)
     then Some (entry_atime e) else None).
Proof.
  intros Hflag Ht. unfold read_atime. rewrite Hflag.
  destruct (atimes options); cbn [andb] in *; [|apply coupled_ret].
  case_bool_decide as Hdir; cbn [andb negb] in *; [|apply coupled_ret].
  case_bool_decide as Heq; cbn [negb].
  - rewrite Heq. apply coupled_ret.
  - apply coupled_protocol_time. by apply Ht.
Qed.

Lemma coupled_name name :
  (length name ≤ 255)%nat → valid_utf8 name = true →
  coupled (W:=W) (R:=R) (write_name name) read_name name.
Proof.
  intros Hlen Hvalid. unfold write_name, read_name.
  destruct (Nat.ltb_spec 255 (length name)); [lia|].
  rewrite as_u8_id by (unfold in_u8; lia).
  eapply coupled_bind; [apply coupled_u8_usize|].
  destruct (coupled_exact Io Io name (length name) eq_refl) as (bs & Hw & Hr).
  exists bs. split; [done|]. eapply reads_last; [exact Hr|].
  apply reads_lift. unfold from_utf8. by rewrite Hvalid.
Qed.

(** What a decoded owner is: the previous one if it has the same id. *)
Definition decoded_name (numeric : bool) (last_id : option Z) (last_name : option str)
    (id : Z) (name : option str) : option str :=
  if bool_decide (last_id = Some id) then last_name
  else if numeric then None else name.

Definition name_ok (name : option str) : Prop :=
  match name with
  | Some n => (length n ≤ 255)%nat ∧ valid_utf8 n = true
  | None => True
  end.

Lemma coupled_owner preserve numeric flags same_bit name_bit last_id last_name id name :
  has flags same_bit = negb preserve || bool_decide (last_id = Some id) →
  has flags name_bit = negb (negb preserve || bool_decide (last_id = Some id)) &&
    (negb numeric && is_some name) →
  (preserve = true → 0 ≤ id ≤ i32_max) →
  (preserve = true → numeric = false → name_ok name) →
  coupled (W:=W) (R:=R) (write_owner preserve flags same_bit name_bit id name)
    (read_owner preserve flags same_bit name_bit last_id last_name)
    (if preserve then (Some id, decoded_name numeric last_id last_name id name)
     else (None, None)).
Proof.
  intros Hsame Hname Hid Hok. unfold write_owner, read_owner, decoded_name.
  destruct preserve; cbn [negb orb andb] in *.
  2: { rewrite Hsame. cbn [negb]. apply coupled_ret. }
  rewrite Hsame. case_bool_decide as Hlast; cbn [negb andb] in *.
  { rewrite Hlast. apply coupled_ret. }
  eapply coupled_bind; [apply coupled_io, coupled_varint; auto|].
  rewrite Hname. destruct numeric; cbn [negb andb].
  { apply (coupled_reader_skip _ _ _ None); [apply reads_ret|apply coupled_ret]. }
  destruct name as [n|]; cbn [is_some default].
  - eapply coupled_last; [|reflexivity]. eapply coupled_last; [|reflexivity].
    destruct (Hok eq_refl eq_refl). by apply coupled_name.
  - apply (coupled_reader_skip _ _ _ None); [apply reads_ret|apply coupled_ret].
Qed.

(** ** Payloads *)

Lemma coupled_acl_one :
  coupled (W:=W) (R:=R) (io (write_varint 0);; io (write_u8 0)) read_empty_acl_payload ().
Proof.
  unfold read_empty_acl_payload.
  eapply coupled_bind; [apply coupled_io, coupled_varint; unfold i32_max; lia|].
  cbn [Z.eqb negb]. eapply coupled_last; [apply coupled_io, coupled_u8|done].
Qed.

Definition xattr_ok (x : RsyncXattrPayload) : Prop :=
  xattr_name x ≠ [] ∧ 0 ∉ xattr_name x ∧ valid_utf8 (xattr_name x) = true ∧
  Z.of_nat (length (xattr_name x)) < i32_max ∧
  (length (xattr_value x) ≤ MAX_INLINE_XATTR_VALUE)%nat.

Lemma coupled_xattr x :
  xattr_ok x → coupled (W:=W) (R:=R) (write_xattr x) read_xattr x.
Proof.
  intros (Hne & Hnul & Hvalid & Hlen & Hvalue). unfold write_xattr, read_xattr.
  rewrite bool_decide_false by done.
  assert (Hc : contains (xattr_name x) 0 = false)
    by (apply not_true_iff_false; intros Hc%contains_spec; done).
  rewrite Hc. cbn [orb]. unfold MAX_INLINE_XATTR_VALUE, i32_max in *.
  destruct (Nat.ltb_spec 32 (length (xattr_value x))); [lia|].
  eapply coupled_bind; [apply coupled_varint_len; unfold i32_max; lia|].
  eapply coupled_bind; [apply coupled_varint_len; unfold i32_max; lia|].
  destruct (Nat.eqb_spec (length (xattr_name x) + 1) 0); [lia|].
  apply coupled_assoc. eapply (coupled_bind _ _ _ _ (xattr_name x ++ [0])).
  { exists (xattr_name x ++ [0]). split.
    - eapply writes_bind; apply writes_with_err; [apply writes_all|apply writes_u8].
    - apply reads_with_err, reads_exact. by rewrite length_app. }
  rewrite last_snoc, bool_decide_true by done. cbn [negb].
  rewrite length_app, Nat.add_sub, take_app_length.
  eapply coupled_reader_lift; [unfold from_utf8; by rewrite Hvalid|].
  eapply coupled_last; [by apply coupled_exact|]. by destruct x.
Qed.

Lemma coupled_xattrs xs :
  Forall xattr_ok xs → Z.of_nat (length xs) ≤ i32_max →
  coupled (W:=W) (R:=R) (write_xattr_payload xs) read_xattr_payload xs.
Proof.
  intros Hall Hlen. unfold write_xattr_payload, read_xattr_payload.
  eapply coupled_bind; [apply coupled_io, coupled_varint; unfold i32_max; lia|].
  cbn [Z.eqb negb]. eapply coupled_bind; [by apply coupled_varint_len|].
  apply coupled_for_each, Forall_Forall2_diag.
  eapply Forall_impl; [exact Hall|]. apply coupled_xattr.
Qed.

Definition payload_ok (options : RsyncFileListOptions) (e : RsyncFileListEntry) : Prop :=
  (fake_super options = true → opt_xattrs options = true) ∧
  (opt_xattrs options = true → Forall xattr_ok (xattrs (metadata e)) ∧
     Z.of_nat (length (xattrs (metadata e))) ≤ i32_max).

Definition payload_on_wire (options : RsyncFileListOptions) (e : RsyncFileListEntry) :
    list RsyncXattrPayload :=
  if opt_xattrs options then xattrs (metadata e) else [].

Lemma coupled_payloads options e t :
  file_type e = t → payload_ok options e →
  coupled (W:=W) (R:=R) (write_rsync31_metadata_payloads e options)
    (read_rsync31_metadata_payloads t options) (payload_on_wire options e).
Proof.
  intros <- [Hfake Hx]. unfold write_rsync31_metadata_payloads,
    read_rsync31_metadata_payloads, payload_on_wire.
  eapply coupled_bind.
  { apply coupled_if; intros _; [|apply coupled_ret]. unfold write_empty_acl_payload.
    apply coupled_assoc. eapply coupled_bind; [apply coupled_acl_one|].
    apply coupled_if; intros _; [apply coupled_acl_one|apply coupled_ret]. }
  cbv beta. destruct (opt_xattrs options); cbn [orb].
  - destruct Hx; [done|]. by apply coupled_xattrs.
  - destruct (fake_super options); [by discriminate Hfake|]. apply coupled_ret.
Qed.
End fields.

(** ** Entries *)

(** What protocol 31 keeps of an entry under the negotiated options. *)
Definition wire_entry (options : RsyncFileListOptions) (group : option RsyncHardLinkGroup)
    (e : RsyncFileListEntry) : RsyncFileListEntry :=
  {| path := wire_path_bytes (path e); file_type := file_type e; len := len e;
     mtime_unix := mtime_unix e; mode := mode e;
     checksum := if include_checksums options && bool_decide (file_type e = File)
                 then checksum e else None;
     hardlink_group := group;
     metadata :=
       {| uid := if preserve_owner options then Some (entry_uid e) else None;
          gid := if preserve_group options then Some (entry_gid e) else None;
          user_name := if preserve_owner options && negb (numeric_ids options)
                       then user_name (metadata e) else None;
          group_name := if preserve_group options && negb (numeric_ids options)
                        then group_name (metadata e) else None;
          atime_unix := if atimes options && bool_decide (file_type e ≠ Directory)
                        then Some (entry_atime e) else None;
          crtime_unix := if crtimes options then Some (entry_crtime e) else None;
          xattrs := payload_on_wire options e |} |}.

(** Entries protocol 31 can carry. *)
Record entry_ok (options : RsyncFileListOptions) (max_path_len : Z)
    (e : RsyncFileListEntry) : Prop := {
  ok_path : wire_path_ok (wire_path_bytes (path e));
  ok_path_len : Z.of_nat (length (wire_path_bytes (path e))) ≤ Z.min max_path_len i32_max;
  ok_len : 0 ≤ len e < 2 ^ 58;
  ok_mtime : 0 ≤ mtime_unix e < 2 ^ 59;
  ok_mode : in_u32 (mode e);
  ok_type : file_type_from_mode (mode e) = Ok (file_type e);
  ok_uid : preserve_owner options = true → 0 ≤ entry_uid e ≤ i32_max;
  ok_gid : preserve_group options = true → 0 ≤ entry_gid e ≤ i32_max;
  ok_uname : preserve_owner options = true → numeric_ids options = false →
    name_ok (user_name (metadata e));
  ok_gname : preserve_group options = true → numeric_ids options = false →
    name_ok (group_name (metadata e));
  ok_atime : atimes options = true → file_type e ≠ Directory → 0 ≤ entry_atime e < 2 ^ 59;
  ok_crtime : crtimes options = true → 0 ≤ entry_crtime e < 2 ^ 59;
  ok_checksum : include_checksums options = true → file_type e = File →
    ∃ c, checksum e = Some c ∧ length c = 16%nat;
  ok_payload : payload_ok options e;
}.

(** Links to one file carry the same attributes. *)
Definition same_inode (e1 e2 : RsyncFileListEntry) : Prop :=
  len e1 = len e2 ∧ mtime_unix e1 = mtime_unix e2 ∧ mode e1 = mode e2 ∧
  checksum e1 = checksum e2 ∧ entry_uid e1 = entry_uid e2 ∧ entry_gid e1 = entry_gid e2 ∧
  user_name (metadata e1) = user_name (metadata e2) ∧
  group_name (metadata e1) = group_name (metadata e2) ∧
  entry_atime e1 = entry_atime e2 ∧ entry_crtime e1 = entry_crtime e2.

(** A naming of ids: either every id has a name or none has. *)
Definition uniform (names : Z → option str) : Prop :=
  (∀ id, names id = None) ∨ (∀ id, is_Some (names id)).

(** The lists protocol 31 carries faithfully. *)
Record list_ok (options : RsyncFileListOptions) (max_path_len : Z)
    (user_of group_of : Z → option str) (es : list RsyncFileListEntry) : Prop := {
  ok_entries : Forall (entry_ok options max_path_len) es;
  ok_count : Z.of_nat (length es) ≤ i32_max;
  ok_links : ∀ e1 e2 g, e1 ∈ es → e2 ∈ es → file_type e1 = File → file_type e2 = File →
    hardlink_group e1 = Some g → hardlink_group e2 = Some g → same_inode e1 e2;
  ok_users : preserve_owner options = true → numeric_ids options = false →
    uniform user_of ∧ Forall (λ e, user_name (metadata e) = user_of (entry_uid e)) es;
  ok_groups : preserve_group options = true → numeric_ids options = false →
    uniform group_of ∧ Forall (λ e, group_name (metadata e) = group_of (entry_gid e)) es;
}.

(** The hard-link group an entry gets on the wire: the index of the first link. *)
Definition group_on_wire (self : FileListWriter) (e : RsyncFileListEntry) :
    option RsyncHardLinkGroup :=
  if bool_decide (file_type e = File) then
    match hardlink_group e with
    | Some g =>
        Some {| device := 0;
                inode := Z.of_nat (default (next_index self) (hardlink_groups self !! g)) |}
    | None => None
    end
  else None.

(** The name a reader holds for the last id. *)
Definition held_name (numeric : bool) (names : Z → option str) (last_id : option Z) :
    option str :=
  match last_id with
  | Some id => if numeric then None else names id
  | None => None
  end.

(** Writer and reader remember the same. *)
Record agree (options' : RsyncFileListOptions) (user_of group_of : Z → option str)
    (all : list RsyncFileListEntry) (w : FileListWriter) (r : FileListReader) : Prop := {
  ag_options : options w = options';
  ag_path : last_path w = r_last_path r;
  ag_mode : last_mode w = r_last_mode r;
  ag_mtime : last_mtime w = r_last_mtime r;
  ag_uid : preserve_owner options' = true → last_uid w = r_last_uid r;
  ag_gid : preserve_group options' = true → last_gid w = r_last_gid r;
  ag_uname : preserve_owner options' = true →
    r_last_user_name r = held_name (numeric_ids options') user_of (last_uid w);
  ag_gname : preserve_group options' = true →
    r_last_group_name r = held_name (numeric_ids options') group_of (last_gid w);
  ag_atime : atimes options' = true → last_atime w = r_last_atime r;
  ag_index : next_index w = length (r_entries r);
  ag_links : ∀ g i, hardlink_groups w !! g = Some i → ∃ e0,
    e0 ∈ all ∧ file_type e0 = File ∧ hardlink_group e0 = Some g ∧
    r_entries r !! i =
      Some (wire_entry options' (Some {| device := 0; inode := Z.of_nat i |}) e0);
}.

Lemma decoded_name_held numeric names last_id id name :
  (numeric = false → name = names id) →
  decoded_name numeric last_id (held_name numeric names last_id) id name =
  (if numeric then None else name).
Proof.
  intros Hname. unfold decoded_name, held_name. case_bool_decide as Hlast; [|done].
  subst last_id. destruct numeric; [done|]. by rewrite Hname.
Qed.

Lemma held_name_next numeric names last_id id name (last : option str) :
  (numeric = false → uniform names ∧ name = names id) →
  last = held_name numeric names last_id →
  (if is_some (if numeric then None else name) then if numeric then None else name else last) =
  held_name numeric names (Some id).
Proof.
  intros Hname ->. unfold held_name. destruct numeric; cbn [is_some].
  - by destruct last_id.
  - destruct Hname as [[Hnone|Hsome] ->]; [done| |].
    + rewrite !Hnone. cbn. destruct last_id; [apply Hnone|done].
    + by destruct (Hsome id) as [n ->].
Qed.

(** ** One entry *)

Section entry.
Context {R : Type} `{ReadLaws R} {W : Type} `{WriteLaws W}.
Context (opts : RsyncFileListOptions) (max_path_len : Z).
Context (user_of group_of : Z → option str) (all : list RsyncFileListEntry).
Context (Hall : list_ok opts max_path_len user_of group_of all).
Context (w : FileListWriter) (r : FileListReader).
Context (Hagree : agree opts user_of group_of all w r).
Context (e : RsyncFileListEntry) (Hin : e ∈ all).

Lemma this_ok : entry_ok opts max_path_len e.
Proof. pose proof (ok_entries _ _ _ _ _ Hall) as He. rewrite Forall_forall in He. by apply He. Qed.

Lemma this_user :
  preserve_owner opts = true → numeric_ids opts = false →
  uniform user_of ∧ user_name (metadata e) = user_of (entry_uid e).
Proof.
  intros Hp Hn. destruct (ok_users _ _ _ _ _ Hall Hp Hn) as [Hu He].
  rewrite Forall_forall in He. split; [done|by apply He].
Qed.

Lemma this_group :
  preserve_group opts = true → numeric_ids opts = false →
  uniform group_of ∧ group_name (metadata e) = group_of (entry_gid e).
Proof.
  intros Hp Hn. destruct (ok_groups _ _ _ _ _ Hall Hp Hn) as [Hu He].
  rewrite Forall_forall in He. split; [done|by apply He].
Qed.

(** The owner pair as the reader returns it. *)
Lemma decoded_user :
  (if preserve_owner opts
   then (Some (entry_uid e), decoded_name (numeric_ids opts) (r_last_uid r)
           (r_last_user_name r) (entry_uid e) (user_name (metadata e)))
   else (None, None)) =
  (uid (metadata (wire_entry opts None e)), user_name (metadata (wire_entry opts None e))).
Proof.
  cbn. destruct (preserve_owner opts) eqn:Hp; [|done]. cbn [andb].
  rewrite (ag_uname _ _ _ _ _ _ Hagree Hp), <-(ag_uid _ _ _ _ _ _ Hagree Hp).
  rewrite decoded_name_held; [by destruct (numeric_ids opts)|].
  intros Hn. by apply this_user.
Qed.

Lemma decoded_group :
  (if preserve_group opts
   then (Some (entry_gid e), decoded_name (numeric_ids opts) (r_last_gid r)
           (r_last_group_name r) (entry_gid e) (group_name (metadata e)))
   else (None, None)) =
  (gid (metadata (wire_entry opts None e)), group_name (metadata (wire_entry opts None e))).
Proof.
  cbn. destruct (preserve_group opts) eqn:Hp; [|done]. cbn [andb].
  rewrite (ag_gname _ _ _ _ _ _ Hagree Hp), <-(ag_gid _ _ _ _ _ _ Hagree Hp).
  rewrite decoded_name_held; [by destruct (numeric_ids opts)|].
  intros Hn. by apply this_group.
Qed.

Lemma coupled_fields linked first inherited suffix flags :
  flags_say w e linked first inherited suffix flags →
  coupled (W:=W) (R:=R) (write_entry_fields opts flags e)
    (read_entry_fields opts flags r (wire_path_bytes (path e)))
    (wire_entry opts (if linked then Some {| device := 0;
                        inode := Z.of_nat (length (r_entries r)) |} else None) e).
Proof.
  intros Hf. pose proof this_ok as Hok.
  pose proof (ag_options _ _ _ _ _ _ Hagree) as Hopts.
  unfold write_entry_fields, read_entry_fields.
  eapply coupled_bind; [apply coupled_io, coupled_varlong; [lia|apply (ok_len _ _ _ Hok)]|].
  eapply coupled_bind.
  { apply coupled_mtime31; [|apply (ok_mtime _ _ _ Hok)].
    rewrite (f_mtime _ _ _ _ _ _ _ Hf). by rewrite (ag_mtime _ _ _ _ _ _ Hagree). }
  apply coupled_nsec; [apply (f_nsec _ _ _ _ _ _ _ Hf)|].
  eapply coupled_bind.
  { apply coupled_mode31; [|apply (ok_mode _ _ _ Hok)].
    rewrite (f_mode _ _ _ _ _ _ _ Hf). by rewrite (ag_mode _ _ _ _ _ _ Hagree). }
  eapply coupled_bind.
  { apply coupled_crtime; [|apply (ok_crtime _ _ _ Hok)].
    rewrite (f_crtime _ _ _ _ _ _ _ Hf). by rewrite Hopts. }
  eapply coupled_reader_lift; [apply (ok_type _ _ _ Hok)|].
  eapply coupled_bind.
  { apply coupled_atime; [|apply (ok_atime _ _ _ Hok)].
    rewrite (f_atime _ _ _ _ _ _ _ Hf), Hopts.
    destruct (atimes opts) eqn:Hat; [|done].
    by rewrite (ag_atime _ _ _ _ _ _ Hagree Hat). }
  eapply coupled_bind.
  { apply (coupled_owner (preserve_owner opts) (numeric_ids opts));
      [| |apply (ok_uid _ _ _ Hok)|apply (ok_uname _ _ _ Hok)];
      rewrite ?(f_uid _ _ _ _ _ _ _ Hf), ?(f_uname _ _ _ _ _ _ _ Hf), Hopts;
      destruct (preserve_owner opts) eqn:Hp; try done;
      by rewrite (ag_uid _ _ _ _ _ _ Hagree Hp). }
  rewrite decoded_user. cbn beta iota.
  eapply coupled_bind.
  { apply (coupled_owner (preserve_group opts) (numeric_ids opts));
      [| |apply (ok_gid _ _ _ Hok)|apply (ok_gname _ _ _ Hok)];
      rewrite ?(f_gid _ _ _ _ _ _ _ Hf), ?(f_gname _ _ _ _ _ _ _ Hf), Hopts;
      destruct (preserve_group opts) eqn:Hp; try done;
      by rewrite (ag_gid _ _ _ _ _ _ Hagree Hp). }
  rewrite decoded_group. cbn beta iota.
  eapply coupled_bind; [apply Rsync27.coupled_checksum, (ok_checksum _ _ _ Hok)|].
  eapply coupled_last; [apply (coupled_payloads _ _ _ eq_refl), (ok_payload _ _ _ Hok)|].
  rewrite (f_hlinked _ _ _ _ _ _ _ Hf). done.
Qed.

(** A reference repeats the attributes of the first link. *)
Lemma link_on_wire e0 g i :
  e0 ∈ all → file_type e0 = File → file_type e = File →
  hardlink_group e0 = Some g → hardlink_group e = Some g →
  let first := wire_entry opts (Some {| device := 0; inode := i |}) e0 in
  {| path := wire_path_bytes (path e); file_type := file_type first; len := len first;
     mtime_unix := mtime_unix first; mode := mode first; checksum := checksum first;
     hardlink_group := Some (default {| device := 0; inode := i |} (hardlink_group first));
     metadata := set_xattrs (metadata first) (payload_on_wire opts e) |} =
  wire_entry opts (Some {| device := 0; inode := i |}) e.
Proof.
  intros Hin0 Ht0 Ht Hg0 Hg.
  destruct (ok_links _ _ _ _ _ Hall e0 e g) as
    (Hlen & Hmtime & Hmode & Hsum & Huid & Hgid & Hun & Hgn & Hat & Hct); try done.
  cbv zeta. unfold wire_entry, set_xattrs. cbn.
  by rewrite Hlen, Hmtime, Hmode, Hsum, Huid, Hgid, Hun, Hgn, Hat, Hct, Ht0, Ht.
Qed.

Lemma coupled_link e0 g i :
  e0 ∈ all → file_type e0 = File → file_type e = File →
  hardlink_group e0 = Some g → hardlink_group e = Some g →
  let first := wire_entry opts (Some {| device := 0; inode := Z.of_nat i |}) e0 in
  coupled (W:=W) (R:=R) (write_rsync31_metadata_payloads e opts)
    (read_link_entry opts i first (wire_path_bytes (path e)))
    (wire_entry opts (Some {| device := 0; inode := Z.of_nat i |}) e).
Proof.
  intros Hin0 Ht0 Ht Hg0 Hg first. unfold read_link_entry.
  eapply coupled_last.
  { apply coupled_payloads; [|apply (ok_payload _ _ _ this_ok)]. cbn. congruence. }
  f_equal. by apply (link_on_wire e0 g (Z.of_nat i)).
Qed.

(** The group bits of an entry and what they mean for the reader. *)
Lemma hardlink_cases :
  (∃ linked, hardlink_step w e =
      (set_if linked XMIT31_HLINK_FIRST (set_if linked XMIT31_HLINKED 0), None,
       (hardlink_step w e).2) ∧
    group_on_wire w e = (if linked then Some {| device := 0;
      inode := Z.of_nat (length (r_entries r)) |} else None)) ∨
  (∃ e0 g i, hardlink_step w e =
      (set_if false XMIT31_HLINK_FIRST (set_if true XMIT31_HLINKED 0), Some i,
       (hardlink_step w e).2) ∧
    group_on_wire w e = Some {| device := 0; inode := Z.of_nat i |} ∧
    e0 ∈ all ∧ file_type e0 = File ∧ file_type e = File ∧
    hardlink_group e0 = Some g ∧ hardlink_group e = Some g ∧
    r_entries r !! i =
      Some (wire_entry opts (Some {| device := 0; inode := Z.of_nat i |}) e0)).
Proof.
  unfold hardlink_step, group_on_wire.
  case_bool_decide as Hfile; [|left; by exists false].
  destruct (hardlink_group e) as [g|] eqn:Hg; [|left; by exists false].
  destruct (hardlink_groups w !! g) as [i|] eqn:Hlook.
  - right. destruct (ag_links _ _ _ _ _ _ Hagree g i Hlook) as (e0 & ? & ? & ? & ?).
    exists e0, g, i. by split_and!.
  - left. exists true. cbn [default]. split; [done|].
    by rewrite (ag_index _ _ _ _ _ _ Hagree).
Qed.

Lemma index_in_range i e0 :
  r_entries r !! i = Some e0 → (length (r_entries r) ≤ length all)%nat →
  Z.of_nat i ≤ i32_max ∧ (i < length (r_entries r))%nat.
Proof.
  intros Hi%lookup_lt_Some Hlen. pose proof (ok_count _ _ _ _ _ Hall). lia.
Qed.

Lemma coupled_reference flags i e0 linked first inherited suffix :
  flags_say w e linked first inherited suffix flags → linked = true → first = false →
  r_entries r !! i = Some e0 → (length (r_entries r) ≤ length all)%nat →
  coupled (W:=W) (R:=R)
    (lift (if Z.of_nat i <=? u32_max then Ok () else Err (bad_input
       "hardlink file-list index exceeds protocol 31 varint range"));;
     io (write_varint (Z.of_nat i)))
    (read_hardlink_reference flags (length (r_entries r))) (Some i).
Proof.
  intros Hf -> -> Hi Hlen. destruct (index_in_range i e0 Hi Hlen) as [Hmax Hlt].
  unfold read_hardlink_reference.
  rewrite (f_hlinked _ _ _ _ _ _ _ Hf), (f_first _ _ _ _ _ _ _ Hf). cbn [andb negb].
  unfold i32_max in Hmax.
  eapply coupled_writer_lift;
    [unfold u32_max; by destruct (Z.leb_spec (Z.of_nat i) 4294967295); [|lia]|].
  eapply coupled_last; [by apply coupled_varint_usize|].
  by destruct (Nat.leb_spec (length (r_entries r)) i); [lia|].
Qed.

(** The name, before whatever tells a reference from a full entry. *)
Lemma coupled_named linked first inherited suffix flags
    (w_tail : M W FileListError unit)
    (r_tail : str → M R FileListError RsyncFileListEntry) a :
  inherited = common_prefix_len (last_path w) (wire_path_bytes (path e)) →
  suffix = drop inherited (wire_path_bytes (path e)) →
  flags_say w e linked first inherited suffix flags →
  coupled w_tail (r_tail (wire_path_bytes (path e))) a →
  coupled (write_entry_name flags inherited suffix;; w_tail)
    (path_bytes ← read_path_bytes max_path_len (has flags XMIT31_SAME_NAME)
       (r_last_path r) (read_suffix_len31 flags);
     path ← lift (wire_path_from_bytes path_bytes);
     entry ← r_tail path; mret (entry, path_bytes)) (a, wire_path_bytes (path e)).
Proof.
  intros -> -> Hf Htail. pose proof this_ok as Hok.
  eapply coupled_bind.
  { rewrite <-(ag_path _ _ _ _ _ _ Hagree).
    apply coupled_entry_name; [apply (f_same_name _ _ _ _ _ _ _ Hf)
      |apply (f_long_name _ _ _ _ _ _ _ Hf)|apply (ok_path_len _ _ _ Hok)]. }
  eapply coupled_reader_lift; [apply (ok_path _ _ _ Hok)|].
  by eapply coupled_last.
Qed.

Lemma reads_ext {A} (m m' : M R FileListError A) bs a :
  (∀ x, m x = m' x) → reads m bs a → reads m' bs a.
Proof. intros Heq Hm x rest Hx. rewrite <-Heq. by apply Hm. Qed.

(** [read_entry] with its two last steps as one. *)
Lemma read_entry_tail flags (x : R) :
  read_entry max_path_len opts flags r x =
  (path_bytes ← read_path_bytes max_path_len (has flags XMIT31_SAME_NAME)
     (r_last_path r) (read_suffix_len31 flags);
   path ← lift (wire_path_from_bytes path_bytes);
   entry ← (reference ← read_hardlink_reference flags (length (r_entries r));
            match reference ≫= λ i, pair i <$> r_entries r !! i with
            | Some (first_index, first) => read_link_entry opts first_index first path
            | None => read_entry_fields opts flags r path
            end);
   mret (entry, path_bytes)) x.
Proof.
  unfold read_entry. apply bind_ext. intros bytes y. apply bind_ext. intros p z.
  symmetry. apply bind_assoc.
Qed.

(** The flags and the rest of an entry, on the wire one after the other. *)
Definition on_wire_as (w_bytes : M W FileListError unit) (a : RsyncFileListEntry) : Prop :=
  ∃ flags bs1 bs2, (flags =? 0) = false ∧
    writes w_bytes (bs1 ++ bs2) () ∧ reads (R:=R) (io read_varint) bs1 flags ∧
    reads (R:=R) (read_entry max_path_len opts flags r) bs2 (a, wire_path_bytes (path e)).

Lemma on_wire_as_intro linked first inherited suffix flags w_tail a :
  inherited = common_prefix_len (last_path w) (wire_path_bytes (path e)) →
  suffix = drop inherited (wire_path_bytes (path e)) →
  flags_say w e linked first inherited suffix flags →
  coupled (R:=R) w_tail
    (reference ← read_hardlink_reference flags (length (r_entries r));
     match reference ≫= λ i, pair i <$> r_entries r !! i with
     | Some (first_index, first) =>
         read_link_entry opts first_index first (wire_path_bytes (path e))
     | None => read_entry_fields opts flags r (wire_path_bytes (path e))
     end) a →
  on_wire_as (io (write_varint flags);; write_entry_name flags inherited suffix;; w_tail) a.
Proof.
  intros Hinh Hsuf Hf Htail.
  destruct (coupled_named _ _ _ _ _ _ (λ p,
    reference ← read_hardlink_reference flags (length (r_entries r));
    match reference ≫= λ i, pair i <$> r_entries r !! i with
    | Some (first_index, first) => read_link_entry opts first_index first p
    | None => read_entry_fields opts flags r p
    end) _ Hinh Hsuf Hf Htail) as (bs2 & Hw2 & Hr2).
  destruct (coupled_io (write_varint flags) read_varint flags
    (coupled_varint flags (f_range _ _ _ _ _ _ _ Hf))) as (bs1 & Hw1 & Hr1).
  exists flags, bs1, bs2. split_and!; [apply (f_nonzero _ _ _ _ _ _ _ Hf)| |done|].
  - by eapply writes_bind.
  - eapply reads_ext; [|exact Hr2]. intros x. symmetry. apply read_entry_tail.
Qed.

Lemma entry_on_wire :
  (length (r_entries r) ≤ length all)%nat →
  on_wire_as (write_entry_bytes w e) (wire_entry opts (group_on_wire w e) e).
Proof.
  intros Hlen. unfold write_entry_bytes. cbv zeta.
  rewrite (ag_options _ _ _ _ _ _ Hagree).
  destruct hardlink_cases as
    [(linked & -> & ->)|(e0 & g & i & -> & -> & Hin0 & Ht0 & Ht & Hg0 & Hg & Hi)].
  - pose proof (entry_flags_say w e linked linked) as Hf. cbv zeta in Hf.
    eapply on_wire_as_intro; [done|done|apply Hf|].
    eapply (coupled_reader_skip _ _ _ None); [|eapply coupled_fields, Hf].
    unfold read_hardlink_reference.
    rewrite (f_hlinked _ _ _ _ _ _ _ (Hf _ _)), (f_first _ _ _ _ _ _ _ (Hf _ _)).
    rewrite andb_negb_r. apply reads_ret.
  - pose proof (entry_flags_say w e true false) as Hf. cbv zeta in Hf.
    eapply on_wire_as_intro; [done|done|apply Hf|].
    apply coupled_assoc. eapply coupled_bind; [by eapply coupled_reference|].
    cbn [option_bind mbind]. rewrite Hi. by eapply coupled_link.
Qed.

Definition next_writer : FileListWriter :=
  record_entry_state (set_groups w (hardlink_step w e).2) (wire_path_bytes (path e)) e.
Definition next_reader : FileListReader :=
  remember opts r (wire_entry opts (group_on_wire w e) e) (wire_path_bytes (path e)).

(** The groups after the entry: still first links among the entries read. *)
Lemma links_next g i :
  (hardlink_step w e).2 !! g = Some i → ∃ e0,
    e0 ∈ all ∧ file_type e0 = File ∧ hardlink_group e0 = Some g ∧
    (r_entries r ++ [wire_entry opts (group_on_wire w e) e]) !! i =
      Some (wire_entry opts (Some {| device := 0; inode := Z.of_nat i |}) e0).
Proof.
  assert (Hold : hardlink_groups w !! g = Some i → ∃ e0,
    e0 ∈ all ∧ file_type e0 = File ∧ hardlink_group e0 = Some g ∧
    (r_entries r ++ [wire_entry opts (group_on_wire w e) e]) !! i =
      Some (wire_entry opts (Some {| device := 0; inode := Z.of_nat i |}) e0)).
  { intros Hg. destruct (ag_links _ _ _ _ _ _ Hagree g i Hg) as (e0 & ? & ? & ? & Hi).
    exists e0. split_and!; try done. by apply lookup_app_l_Some. }
  unfold hardlink_step, group_on_wire in *. case_bool_decide as Hfile; [|done].
  destruct (hardlink_group e) as [ge|] eqn:Hge; [|done].
  destruct (hardlink_groups w !! ge) as [i'|] eqn:Hlook; [done|]. cbn [snd].
  intros [[-> <-]|[_ Hg]]%lookup_insert_Some; [|by apply Hold].
  exists e. split_and!; try done. rewrite (ag_index _ _ _ _ _ _ Hagree).
  by rewrite list_lookup_middle.
Qed.

Lemma agree_next : agree opts user_of group_of all next_writer next_reader.
Proof.
  pose proof (ag_options _ _ _ _ _ _ Hagree) as Hopts.
  unfold next_writer, next_reader, record_entry_state, remember.
  constructor; cbn [options last_path last_mode last_mtime last_uid last_gid last_atime
    hardlink_groups next_index finished set_groups r_entries r_last_path r_last_mode
    r_last_mtime r_last_uid r_last_gid r_last_user_name r_last_group_name r_last_atime];
    try rewrite Hopts; try done.
  - intros Hp. cbn. by rewrite Hp.
  - intros Hp. cbn. by rewrite Hp.
  - intros Hp. rewrite Hp. cbn [wire_entry metadata user_name]. rewrite Hp. cbn [andb].
    rewrite <-(held_name_next (numeric_ids opts) user_of (last_uid w) (entry_uid e)
      (user_name (metadata e)) (r_last_user_name r)).
    + by destruct (numeric_ids opts).
    + intros Hn. by apply this_user.
    + apply (ag_uname _ _ _ _ _ _ Hagree Hp).
  - intros Hp. rewrite Hp. cbn [wire_entry metadata group_name]. rewrite Hp. cbn [andb].
    rewrite <-(held_name_next (numeric_ids opts) group_of (last_gid w) (entry_gid e)
      (group_name (metadata e)) (r_last_group_name r)).
    + by destruct (numeric_ids opts).
    + intros Hn. by apply this_group.
    + apply (ag_gname _ _ _ _ _ _ Hagree Hp).
  - intros Ha. rewrite Ha. cbn [wire_entry metadata atime_unix file_type andb].
    rewrite Ha. cbn [andb]. case_bool_decide; [done|].
    apply (ag_atime _ _ _ _ _ _ Hagree Ha).
  - rewrite length_app. cbn. pose proof (ag_index _ _ _ _ _ _ Hagree). lia.
  - intros g i. apply links_next.
Qed.
End entry.

(** ** Lists *)

Lemma agree_start opts user_of group_of all :
  agree opts user_of group_of all (new opts) reader_start.
Proof. by constructor. Qed.

(** The decoded list: each entry with the group of its first link. *)
Fixpoint wire_entries (options : RsyncFileListOptions) (self : FileListWriter)
    (es : list RsyncFileListEntry) : list RsyncFileListEntry :=
  match es with
  | [] => []
  | e :: es =>
      wire_entry options (group_on_wire self e) e ::
      wire_entries options (next_writer self e) es
  end.

Section lists.
Context {R : Type} `{ReadLaws R} {W : Type} `{WriteLaws W}.
Context (opts : RsyncFileListOptions) (max_path_len : Z).
Context (user_of group_of : Z → option str) (all : list RsyncFileListEntry).
Context (Hall : list_ok opts max_path_len user_of group_of all).

Lemma write_entry_writes self e bs :
  writes (W:=W) (write_entry_bytes self e) bs () →
  writes_st (W:=W) (write_entry e) self bs () (next_writer self e).
Proof.
  intros Hw. unfold write_entry. apply writes_st_get, writes_st_put.
  intros w Hready. destruct (Hw w Hready) as (w' & Hw' & He). exists w'. split; [|done].
  by rewrite (bind_ok _ _ _ () (set_groups self (hardlink_step self e).2, w'))
    by (unfold on_snd; cbn; by rewrite Hw').
Qed.

(** The entries of a batch, one after the other: afterwards the reader has
    them all and waits for the next flags. *)
Lemma entries_coupled es remaining w r :
  agree opts user_of group_of all w r → (∀ e, e ∈ es → e ∈ all) →
  (length (r_entries r) + length es ≤ length all)%nat → (length es ≤ remaining)%nat →
  ∃ bs w' r',
    writes_st (W:=W) (for_each write_entry es) w bs () w' ∧
    agree opts user_of group_of all w' r' ∧ finished w' = finished w ∧
    r_entries r' = r_entries r ++ wire_entries opts w es ∧
    ∀ x rest, avail (R:=R) x (bs ++ rest) → ∃ x', avail x' rest ∧
      read_entries remaining max_path_len opts r x =
      read_entries (remaining - length es) max_path_len opts r' x'.
Proof.
  revert remaining w r. induction es as [|e es IH]; intros remaining w r Hagree Hin Hlen Hrem.
  - exists [], w, r. split_and!; [apply writes_st_ret|done|done|by rewrite app_nil_r|].
    intros x rest Hx. exists x. by rewrite Nat.sub_0_r.
  - cbn [length] in Hlen, Hrem. destruct remaining as [|remaining]; [lia|].
    assert (He : e ∈ all) by (apply Hin, elem_of_cons; by left).
    destruct (entry_on_wire (R:=R) (W:=W) _ _ _ _ _ Hall w r Hagree e He)
      as (flags & bs1 & bs2 & Hnz & Hw & Hr1 & Hr2); [lia|].
    destruct (IH remaining (next_writer w e) (next_reader opts w r e))
      as (bs & w' & r' & Hws & Hag & Hfin & Hents & Hrd).
    { by eapply agree_next. }
    { intros e' He'. apply Hin, elem_of_cons. by right. }
    { cbn. rewrite length_app. cbn. lia. }
    { lia. }
    exists ((bs1 ++ bs2) ++ bs), w', r'. split_and!; [| done | done | |].
    + eapply writes_st_bind; [by apply write_entry_writes|done].
    + rewrite Hents. cbn. by rewrite <-app_assoc.
    + intros x rest Hx. rewrite <-!app_assoc in Hx.
      destruct (Hr1 _ _ Hx) as (x1 & Hx1 & Ha1).
      destruct (Hr2 _ _ Ha1) as (x2 & Hx2 & Ha2).
      destruct (Hrd _ _ Ha2) as (x3 & Ha3 & Heq). exists x3. split; [done|].
      cbn [read_entries length]. rewrite (bind_ok _ _ _ _ _ Hx1), Hnz.
      by rewrite (bind_ok _ _ _ _ _ Hx2).
Qed.
End lists.

(** ** The id lists *)

Section id_lists.
Context {R : Type} `{ReadLaws R} {W : Type} `{WriteLaws W}.

Lemma consumes_varint : consumes (R:=R) 1 read_varint.
Proof.
  unfold read_varint, read_u8. apply consumes_first.
  - apply consumes_first; [apply consumes_exact|eauto with progress].
  - intros first. apply consumes_if; [auto with progress|].
    apply consumes_first; [|eauto with progress]. apply consumes_if; [auto with progress|].
    apply (consumes_first 0); eauto with progress.
Qed.

Lemma consumes_ignored_name : consumes (R:=R) 0 read_ignored_name.
Proof. unfold read_ignored_name, io, read_u8. eauto 10 with progress. Qed.

(** [S (budget r)] turns are enough: more fuel changes nothing. *)
Lemma id_list_fuel fuel1 fuel2 (r : R) :
  (budget r < fuel1)%nat → (budget r < fuel2)%nat →
  id_list_loop fuel1 r = id_list_loop fuel2 r.
Proof.
  revert fuel2 r. induction fuel1 as [|fuel1 IH]; intros [|fuel2] r H1' H2'; try lia.
  cbn [id_list_loop]. unfold mbind at 1 3, M_bind.
  destruct (io read_varint r) as [[id|err] r1] eqn:Hid; [|done].
  apply with_err_ok_inv, consumes_varint in Hid.
  destruct (id =? 0); [done|]. unfold mbind, M_bind.
  destruct (read_ignored_name r1) as [[u|err] r2] eqn:Hname; [|done].
  apply consumes_ignored_name in Hname. apply IH; lia.
Qed.

Lemma coupled_id0 name :
  (length name ≤ 255)%nat →
  coupled (W:=W) (R:=R) (write_id0_name name) read_id_list_terminator ().
Proof.
  intros Hlen.
  destruct (coupled_io (R:=R) (W:=W) _ _ _ (coupled_varint 0 ltac:(unfold i32_max; lia)))
    as (bs1 & Hw1 & Hr1).
  assert (Hname : coupled (W:=W) (R:=R) (write_name name) read_ignored_name ()).
  { unfold write_name, read_ignored_name. destruct (Nat.ltb_spec 255 (length name)); [lia|].
    eapply coupled_bind; [apply coupled_io, coupled_u8|]. cbv beta.
    rewrite as_u8_id by (unfold in_u8; lia). rewrite Nat2Z.id.
    eapply coupled_last; [by apply coupled_exact|done]. }
  destruct Hname as (bs2 & Hw2 & Hr2). exists (bs1 ++ bs2).
  split; [by eapply writes_bind|].
  assert (Hloop : ∀ fuel, reads (R:=R) (id_list_loop (S fuel)) (bs1 ++ bs2) ()).
  { intros fuel. cbn [id_list_loop]. eapply reads_bind; [exact Hr1|]. by cbn [Z.eqb]. }
  intros r rest Hr. by apply Hloop.
Qed.

(** The end of a list: the zero flags, no error, and the id lists. *)
Lemma end_coupled opts remaining max_path_len st :
  coupled (W:=W) (R:=R) (write_end opts)
    (entries ← read_entries remaining max_path_len opts st;
     (if negb (numeric_ids opts) then
        (if preserve_owner opts || opt_acls opts then read_id_list_terminator else mret ());;
        (if preserve_group opts || opt_acls opts then read_id_list_terminator else mret ())
      else mret ());;
     mret entries) (r_entries st).
Proof.
  unfold write_end. apply coupled_assoc. eapply coupled_bind.
  - destruct remaining; cbn [read_entries];
      (eapply coupled_bind; [apply coupled_io, coupled_varint; unfold i32_max; lia|]);
      (eapply coupled_last; [apply coupled_io, coupled_varint; unfold i32_max; lia|done]).
  - eapply coupled_last; [|reflexivity]. apply coupled_if; intros _; [|apply coupled_ret].
    eapply coupled_bind; (apply coupled_if; intros _; [|apply coupled_ret]);
      apply coupled_id0; cbn; lia.
Qed.
End id_lists.

(** ** The whole file list *)

Section round_trip.
Context {R : Type} `{ReadLaws R} {W : Type} `{WriteLaws W}.
Context (opts : RsyncFileListOptions) (max_path_len : Z).
Context (user_of group_of : Z → option str) (es : list RsyncFileListEntry).
Context (Hall : list_ok opts max_path_len user_of group_of es).

Lemma list_coupled max_entries :
  (length es ≤ max_entries)%nat →
  coupled (W:=W) (R:=R) (write_rsync31_file_list_with_metadata es opts)
    (read_rsync31_file_list_with_metadata max_entries max_path_len opts)
    (wire_entries opts (new opts) es).
Proof.
  intros Hmax.
  destruct (entries_coupled (R:=R) (W:=W) opts max_path_len user_of group_of es Hall es
    max_entries (new opts) reader_start) as (bs & w' & r' & Hw & Hag & Hfin & Hents & Hrd);
    [apply agree_start|done|done|done|].
  destruct (end_coupled (W:=W) (R:=R) opts (max_entries - length es) max_path_len r')
    as (bs_end & Hwe & Hre).
  exists (bs ++ bs_end). split.
  - intros w Hready. destruct (Hw w Hready) as (w1 & Hrun1 & He1 & Hready1).
    destruct (Hwe w1 Hready1) as (w2 & Hrun2 & He2 & Hready2).
    exists w2. split; [|split; [by eapply emits_app|done]].
    unfold write_rsync31_file_list_with_metadata, with_state.
    rewrite (bind_ok _ _ _ () (w', w1)) by (unfold write_batch; exact Hrun1).
    unfold finish. rewrite (bind_ok _ _ _ w' (w', w1)) by done.
    rewrite Hfin. cbn [new finished]. rewrite (ag_options _ _ _ _ _ _ Hag).
    by rewrite (bind_ok _ _ _ () (w', w2)) by (unfold on_snd; cbn; by rewrite Hrun2).
  - intros x rest Hx. rewrite <-app_assoc in Hx.
    destruct (Hrd _ _ Hx) as (x1 & Ha1 & Heq).
    destruct (Hre _ _ Ha1) as (x2 & Hrun & Ha2). exists x2. split; [|done].
    rewrite Hents in Hrun. cbn [reader_start r_entries app] in Hrun. rewrite <-Hrun.
    unfold read_rsync31_file_list_with_metadata. unfold mbind at 1 4, M_bind.
    by rewrite Heq.
Qed.
End round_trip.

Lemma wire_entries_length opts w es : length (wire_entries opts w es) = length es.
Proof. revert w. induction es as [|e es IH]; intros w; cbn; [done|]. by rewrite IH. Qed.

Section batches.
Context {R : Type} `{ReadLaws R} {W : Type} `{WriteLaws W}.

Lemma batch_coupled opts max_entries max_path_len user_of group_of b :
  list_ok opts max_path_len user_of group_of (entries b) →
  Z.of_nat (length (entries b)) ≤ max_entries → Z.of_nat (base_index b) < 2 ^ 58 →
  coupled (W:=W) (R:=R) (write_rsync31_file_list_batch_with_metadata b opts)
    (read_rsync31_file_list_batch_with_metadata max_entries max_path_len opts)
    {| base_index := base_index b; entries := wire_entries opts (new opts) (entries b);
       is_final := is_final b |}.
Proof.
  intros Hall Hmax Hbase. pose proof (ok_count _ _ _ _ _ Hall) as Hcount.
  unfold write_rsync31_file_list_batch_with_metadata,
    read_rsync31_file_list_batch_with_metadata, i32_max in *. cbv zeta.
  eapply coupled_writer_lift.
  { unfold u32_max.
    by destruct (Z.leb_spec (Z.of_nat (length (entries b))) 4294967295); [|lia]. }
  eapply coupled_bind; [apply coupled_io, coupled_varlong; lia|].
  eapply coupled_bind; [apply coupled_io, coupled_u8|].
  apply (coupled_reader_skip _ _ _ (is_final b)).
  { destruct (is_final b); cbn [Z.eqb]; apply reads_ret. }
  eapply coupled_bind; [apply coupled_io, coupled_u32_le; unfold in_u32; lia|].
  cbv beta. destruct (Z.ltb_spec max_entries (Z.of_nat (length (entries b)))); [lia|].
  eapply coupled_last; [apply (list_coupled _ _ _ _ _ Hall); lia|].
  cbv beta. rewrite wire_entries_length, Z.eqb_refl. cbn [negb]. by rewrite Nat2Z.id.
Qed.

(** ** What the reader accepts, on any input *)

Lemma read_link_entry_path opts i first p (r : R) e r' :
  read_link_entry opts i first p r = (Ok e, r') →
  path e = p ∧ file_type e = file_type first ∧ mode e = mode first.
Proof.
  unfold read_link_entry. intros Hrun. run_step Hrun as xs Hxs.
  by injection Hrun as <- <-.
Qed.

Lemma read_entry_fields_path opts flags st p (r : R) e r' :
  read_entry_fields opts flags st p r = (Ok e, r') →
  path e = p ∧ file_type_from_mode (mode e) = Ok (file_type e).
Proof.
  unfold read_entry_fields. intros Hrun.
  run_step Hrun as n Hn. run_step Hrun as t Ht. run_step Hrun as ns Hns.
  run_step Hrun as m Hm. run_step Hrun as c Hc.
  run_step Hrun as ft Hft. apply lift_ok_inv in Hft as [Hft ->].
  run_step Hrun as a Ha. run_step Hrun as [u un] Hu. run_step Hrun as [g gn] Hg.
  run_step Hrun as sum Hsum. run_step Hrun as xs Hxs. by injection Hrun as <- <-.
Qed.

Lemma read_entry_checked opts max_path_len flags st (r : R) e bs r' :
  Forall (Rsync27.entry_checked max_path_len) (r_entries st) →
  read_entry max_path_len opts flags st r = (Ok (e, bs), r') →
  Rsync27.entry_checked max_path_len e.
Proof.
  intros Hst. unfold read_entry. intros Hrun.
  run_step Hrun as bytes Hbytes. apply Rsync27.read_path_bytes_length in Hbytes as Hlen.
  run_step Hrun as p Hp. apply lift_ok_inv in Hp as [Hp ->].
  pose proof Hp as (-> & _)%wire_path_inv.
  run_step Hrun as ref Href. run_step Hrun as entry He. injection Hrun as <- <- <-.
  destruct (ref ≫= _) as [[i first]|] eqn:Hfirst.
  - apply bind_Some in Hfirst as (i' & -> & Hi).
    apply fmap_Some in Hi as (first' & Hi & [= -> ->]).
    apply read_link_entry_path in He as (Hpath & Htype & Hmode).
    rewrite Forall_lookup in Hst. destruct (Hst _ _ Hi) as (_ & _ & Hfm).
    unfold Rsync27.entry_checked. rewrite Hpath, Htype, Hmode. by split_and!.
  - apply read_entry_fields_path in He as (Hpath & Hfm).
    unfold Rsync27.entry_checked. rewrite Hpath. by split_and!.
Qed.

Lemma read_entries_checked remaining opts max_path_len st (r : R) es r' :
  Forall (Rsync27.entry_checked max_path_len) (r_entries st) →
  read_entries remaining max_path_len opts st r = (Ok es, r') →
  (length es ≤ length (r_entries st) + remaining)%nat ∧
  Forall (Rsync27.entry_checked max_path_len) es.
Proof.
  revert st r r'. induction remaining as [|remaining IH]; intros st r r' Hst Hrun;
    cbn [read_entries] in Hrun; run_step Hrun as flags Hflags;
    (destruct (flags =? 0);
     [run_step Hrun as err Herr; destruct (negb (err =? 0)); [discriminate Hrun|];
      injection Hrun as <- <-; split; [lia|done]|]).
  - discriminate Hrun.
  - run_step Hrun as [e bs] He. apply read_entry_checked in He; [|done].
    apply IH in Hrun as [Hlen Hall].
    + cbn in Hlen. rewrite length_app in Hlen. cbn in Hlen. split; [lia|done].
    + cbn. apply Forall_app. split; [done|by constructor].
Qed.
End batches.

(** ** Hard links on the wire *)

Section links.
Context (opts : RsyncFileListOptions).

(** The writer's map gives different groups different, earlier indexes. *)
Definition groups_ok (w : FileListWriter) : Prop :=
  (∀ g i, hardlink_groups w !! g = Some i → (i < next_index w)%nat) ∧
  (∀ g g' i, hardlink_groups w !! g = Some i → hardlink_groups w !! g' = Some i → g = g').

Definition final_writer (w : FileListWriter) (es : list RsyncFileListEntry) :
    FileListWriter := fold_left next_writer es w.

Lemma next_writer_groups w e :
  hardlink_groups (next_writer w e) = hardlink_groups w ∨
  ∃ g, hardlink_groups w !! g = None ∧ file_type e = File ∧ hardlink_group e = Some g ∧
    hardlink_groups (next_writer w e) = <[g := next_index w]> (hardlink_groups w).
Proof.
  unfold next_writer, record_entry_state, set_groups, hardlink_step. cbn.
  case_bool_decide; [|by left]. destruct (hardlink_group e) as [g|]; [|by left].
  destruct (hardlink_groups w !! g) eqn:Hg; [by left|]. right. by exists g.
Qed.

Lemma next_writer_subset w e : hardlink_groups w ⊆ hardlink_groups (next_writer w e).
Proof.
  destruct (next_writer_groups w e) as [->|(g & Hg & _ & _ & ->)]; [done|].
  by apply insert_subseteq.
Qed.

Lemma next_writer_ok w e : groups_ok w → groups_ok (next_writer w e).
Proof.
  intros [Hlt Hinj]. unfold groups_ok.
  change (next_index (next_writer w e)) with (S (next_index w)).
  destruct (next_writer_groups w e) as [->|(g & Hg & _ & _ & ->)].
  - split; [|done]. intros g i Hi. specialize (Hlt g i Hi). lia.
  - split.
    + intros g' i [[_ <-]|[_ Hi]]%lookup_insert_Some; [lia|].
      specialize (Hlt g' i Hi). lia.
    + intros g1 g2 i [[<- <-]|[H1 Hi1]]%lookup_insert_Some
        [[<- Heq]|[H2 Hi2]]%lookup_insert_Some; try done.
      * specialize (Hlt _ _ Hi2). lia.
      * subst. specialize (Hlt _ _ Hi1). lia.
      * by apply (Hinj _ _ i).
Qed.

Lemma final_writer_subset w es : hardlink_groups w ⊆ hardlink_groups (final_writer w es).
Proof.
  revert w. induction es as [|e es IH]; intros w; [done|]. cbn.
  etrans; [apply next_writer_subset|apply IH].
Qed.

Lemma final_writer_ok w es : groups_ok w → groups_ok (final_writer w es).
Proof.
  revert w. induction es as [|e es IH]; intros w Hw; [done|].
  by apply IH, next_writer_ok.
Qed.

(** The decoded group is the index the final map gives to the original one. *)
Lemma wire_entries_group w es i e g :
  es !! i = Some e → file_type e = File → hardlink_group e = Some g →
  ∃ k d, hardlink_groups (final_writer w es) !! g = Some k ∧
    wire_entries opts w es !! i = Some d ∧
    hardlink_group d = Some {| device := 0; inode := Z.of_nat k |}.
Proof.
  revert w i. induction es as [|e' es IH]; intros w i Hi Hfile Hg; [done|].
  destruct i as [|i]; [|by apply IH].
  injection Hi as ->. cbn [wire_entries lookup list_lookup].
  set (k := default (next_index w) (hardlink_groups w !! g)).
  exists k, (wire_entry opts (group_on_wire w e) e). split_and!; [|done|].
  - apply (lookup_weaken (hardlink_groups (next_writer w e)));
      [|apply (final_writer_subset (next_writer w e) es)].
    unfold k, next_writer, record_entry_state, set_groups, hardlink_step. cbn.
    rewrite bool_decide_true by done. rewrite Hg.
    destruct (hardlink_groups w !! g) as [i|] eqn:Hl; cbn; [done|].
    by rewrite lookup_insert_eq.
  - cbn. unfold group_on_wire. by rewrite bool_decide_true, Hg.
Qed.

Lemma wire_groups_faithful es i j ei ej gi gj :
  es !! i = Some ei → es !! j = Some ej → file_type ei = File → file_type ej = File →
  hardlink_group ei = Some gi → hardlink_group ej = Some gj →
  ∃ di dj, wire_entries opts (new opts) es !! i = Some di ∧
    wire_entries opts (new opts) es !! j = Some dj ∧
    (hardlink_group di = hardlink_group dj ↔ gi = gj).
Proof.
  intros Hi Hj Hfi Hfj Hgi Hgj.
  destruct (wire_entries_group (new opts) es i ei gi) as (ki & di & Hki & Hdi & Hgdi); try done.
  destruct (wire_entries_group (new opts) es j ej gj) as (kj & dj & Hkj & Hdj & Hgdj); try done.
  exists di, dj. split_and!; [done|done|]. rewrite Hgdi, Hgdj.
  destruct (final_writer_ok (new opts) es) as [_ Hinj]; [done|]. split.
  - intros [= Heq]. assert (ki = kj) as -> by lia. by apply (Hinj _ _ kj).
  - intros ->. by simplify_eq.
Qed.
End links.
