(* ===== verification/FlistTheorems.v ===== *)
(** * The properties of the file-list codecs *)

From S2P Require Import Prelude Stream WireIo Str Text FsPath Flist FlistFacts Flist27 Flist31.
From S2P Require Import Flist31Facts.

(** ** Sample entries *)

Definition sample_dir : RsyncFileListEntry :=
  {| path := lit "."; file_type := Directory; len := 0; mtime_unix := 1700000000;
     mode := RSYNC_DIRECTORY_MODE; checksum := None; hardlink_group := None;
     metadata := default_metadata |}.

Definition sample_link (name : str) : RsyncFileListEntry :=
  {| path := name; file_type := File; len := 5; mtime_unix := 1700000000;
     mode := RSYNC_REGULAR_FILE_MODE; checksum := None;
     hardlink_group := Some {| device := 7; inode := 42 |};
     metadata := {| uid := Some 1000; gid := Some 100; user_name := None;
                    group_name := None; atime_unix := None; crtime_unix := None;
                    xattrs := [] |} |}.

Definition sample_list : list RsyncFileListEntry :=
  [sample_dir; sample_link (lit "dir/a.txt"); sample_link (lit "dir/ab.txt")].

Definition sample_options : RsyncFileListOptions :=
  {| include_checksums := false; preserve_owner := true; preserve_group := true;
     numeric_ids := true; opt_acls := true; opt_xattrs := false; fake_super := false;
     atimes := true; crtimes := false |}.

Ltac small := vm_compute; first [split; congruence | congruence | reflexivity].

Lemma sample_ok : list_ok sample_options 100 (λ _, None) (λ _, None) sample_list.
Proof.
  constructor.
  - repeat constructor; cbn [metadata sample_link sample_dir];
      try (intros; small); try done; try small.
  - small.
  - intros e1 e2 g. unfold sample_list. rewrite !elem_of_cons, !elem_of_nil.
    intros [->|[->|[->|[]]]] [->|[->|[->|[]]]]; try done;
      intros; repeat split.
  - done.
  - done.
Qed.

Lemma sample27_ok : Forall (Rsync27.entry_ok false 100) sample_list.
Proof.
  repeat constructor; cbn [metadata sample_link sample_dir];
    try (intros; small); try done; try small.
Qed.

(** ** What a received path names

    Stated of the components of the path as [std::path] parses it, on either platform,
    and not by the checks of the readers. *)

Definition device_names : list str :=
  (lit <$> ["CON"; "PRN"; "AUX"; "NUL"]%string) ++
  ((λ n, lit "COM" ++ [ch "0" + n]) <$> [1; 2; 3; 4; 5; 6; 7; 8; 9]) ++
  ((λ n, lit "LPT" ++ [ch "0" + n]) <$> [1; 2; 3; 4; 5; 6; 7; 8; 9]).

(** Windows opens a device for its name in any case, whatever extension follows. *)
Definition names_device (name : list Z) : Prop :=
  ∃ stem blanks rest, name = stem ++ blanks ++ rest ∧ Forall (eq (ch " ")) blanks ∧
    (rest = [] ∨ ∃ extension, rest = ch "." :: extension) ∧ to_ascii_uppercase stem ∈ device_names.

(** A name of one file below a directory, on Windows too: there is no drive and no
    stream in it, and it stays as it is when it is used. *)
Record plain_file_name (name : list Z) : Prop := {
  name_given : name ≠ [] ∧ name ≠ lit "." ∧ name ≠ lit "..";
  name_chars c : c ∈ name →
    c ∉ [ch "<"; ch ">"; ch ":"; 34; ch "/"; ch "\"; ch "|"; ch "?"; ch "*"] ∧
    ¬ (0 ≤ c < 0x20) ∧ ¬ (0x7F ≤ c < 0xA0);
  name_end : last name ≠ Some (ch " ") ∧ last name ≠ Some (ch ".");
  name_no_device : ¬ names_device name;
}.

(** A path that joined to a directory is that directory, or is below it by names: it has
    no drive, no root and no parent in it. *)
Definition confined (p : PathBuf) : Prop :=
  p = [CurDir] ∨ ∃ names, names ≠ [] ∧ Forall plain_file_name names ∧ p = Normal <$> names.

Record entry_safe (max_path_len : Z) (e : RsyncFileListEntry) : Prop := {
  safe_text : valid_utf8 (path e) = true;
  safe_length : Z.of_nat (length (path e)) ≤ max_path_len;
  safe_place (platform : Platform) : confined (parse_path (chars (path e)));
  safe_mode : Z.land (mode e) 0xF000 =
    match file_type e with File => 0x8000 | Directory => 0x4000 | Symlink => 0xA000 end;
}.

(** ** Properties *)

Lemma scalars_of_part b s part :
  forallb is_scalar s = true → part ∈ split_on b s → forallb is_scalar part = true.
Proof.
  rewrite !forallb_forall. intros Hs Hp c Hc%list_elem_of_In. apply Hs, list_elem_of_In.
  by apply (elem_of_split_on b _ part).
Qed.

Lemma encode_split b s :
  0 ≤ b < 128 → forallb is_scalar s = true →
  split_on b (encode_chars s) = encode_chars <$> split_on b s.
Proof.
  intros Hb Hs.
  assert (Hjoin : ∀ parts, encode_chars (join [b] parts) = join [b] (encode_chars <$> parts)).
  { induction parts as [|p [|q parts] IH]; [done|done|]. rewrite fmap_cons.
    change (encode_chars (p ++ [b] ++ join [b] (q :: parts)) =
            encode_chars p ++ [b] ++ join [b] (encode_chars <$> q :: parts)).
    rewrite !encode_chars_app, IH. do 2 f_equal.
    apply encode_chars_ascii. cbn. unfold is_ascii, in_range. lia. }
  rewrite <-(join_split_on b s) at 1. rewrite Hjoin. apply split_on_join.
  - intros Hn%fmap_nil_inv. by apply split_on_ne in Hn.
  - apply Forall_fmap, Forall_forall. intros part Hp. apply encode_chars_no_ascii; [done| |].
    + by eapply scalars_of_part.
    + pose proof (split_on_no_sep b s) as Hno. rewrite Forall_forall in Hno. by apply Hno.
Qed.

Lemma split_on_elem b s c : c ∈ s → c = b ∨ ∃ part, part ∈ split_on b s ∧ c ∈ part.
Proof.
  induction s as [|x s IH]; [by intros ?%not_elem_of_nil|]. cbn [split_on].
  destruct (Z.eqb_spec x b) as [->|Hx]; intros [->|Hc]%elem_of_cons; [by left| | |].
  - destruct (IH Hc) as [->|(part & Hp & Hin)]; [by left|right]. exists part. by rewrite elem_of_cons; auto.
  - right. destruct (split_on b s) as [|part parts]; eexists; (split; [left|by left]).
  - destruct (IH Hc) as [->|(part & Hp & Hin)]; [by left|right].
    destruct (split_on b s) as [|q parts]; [by apply not_elem_of_nil in Hp|].
    apply elem_of_cons in Hp as [->|Hp]; eexists; (split; [by left|by right]) || (split; [by right|done]).
Qed.

Lemma separators_are_slashes `{Platform} s :
  (ch "\") ∉ s → split_by is_separator s = split_on (ch "/") s.
Proof.
  induction s as [|c s IH]; [done|]. rewrite not_elem_of_cons. intros [Hc Hs]. cbn [split_by split_on].
  rewrite IH by done. unfold is_separator. rewrite (proj2 (Z.eqb_neq c (ch "\"))) by auto.
  by rewrite andb_false_r, orb_false_r.
Qed.

Lemma blanks_trimmed stem blanks :
  last stem ≠ Some (ch " ") → Forall (eq (ch " ")) blanks →
  trim_end_matches (ch " ") (stem ++ blanks) = stem.
Proof.
  intros Hlast Hb. unfold trim_end_matches. rewrite rev_app_distr.
  assert (Hr : Forall (eq (ch " ")) (rev blanks)) by (by apply Forall_rev).
  induction Hr as [|x xs <- _ IH]; [|exact IH]. cbn [app].
  destruct stem as [|c stem _] using rev_ind; [done|]. rewrite last_snoc in Hlast.
  rewrite rev_app_distr. cbn. rewrite (proj2 (Z.eqb_neq c _)) by congruence. cbn.
  by rewrite rev_involutive.
Qed.

(** No device has a blank or a dot in its name, and the name of each is reserved. *)
Lemma device_stem stem :
  to_ascii_uppercase stem ∈ device_names → (ch " ") ∉ stem ∧ (ch ".") ∉ stem ∧ forallb is_ascii stem = true.
Proof.
  intros Hin.
  assert (Hall : Forall (λ device, forallb (λ b, (48 <=? b) && (b <=? 90)) device = true) device_names)
    by (repeat constructor).
  rewrite Forall_forall in Hall. specialize (Hall _ Hin). rewrite forallb_forall in Hall.
  assert (Hstem : ∀ c, c ∈ stem → 48 ≤ c ≤ 122).
  { intros c Hc. assert (Hup : In (if (97 <=? c) && (c <=? 122) then c - 32 else c) (to_ascii_uppercase stem)).
    { apply list_elem_of_In. by apply (list_elem_of_fmap_2 (λ b, if (97 <=? b) && (b <=? 122) then b - 32 else b)). }
    specialize (Hall _ Hup). destruct ((97 <=? c) && (c <=? 122)) eqn:E; lia. }
  split_and!.
  - intros Hc%Hstem. vm_compute in Hc. by destruct Hc.
  - intros Hc%Hstem. vm_compute in Hc. by destruct Hc.
  - apply forallb_forall. intros c Hc%list_elem_of_In%Hstem. unfold is_ascii, in_range. lia.
Qed.

Lemma device_reserved name : names_device name → is_reserved_windows_name (encode_chars name) = true.
Proof.
  intros (stem & blanks & rest & -> & Hb & Hrest & Hin).
  destruct (device_stem stem Hin) as (Hblank & Hdot & Hascii).
  assert (Hhead : encode_chars (stem ++ blanks) = stem ++ blanks).
  { apply encode_chars_ascii. rewrite forallb_app, Hascii. cbn. apply forallb_forall.
    intros c Hc%list_elem_of_In. rewrite Forall_forall in Hb. by rewrite <-(Hb c Hc). }
  assert (Hno : (ch ".") ∉ stem ++ blanks).
  { intros [Hc|Hc]%elem_of_app; [done|]. rewrite Forall_forall in Hb. by specialize (Hb _ Hc). }
  assert (Htrim : trim_end_matches (ch " ") (stem ++ blanks) = stem).
  { apply blanks_trimmed; [|done]. intros [s ->]%last_Some. apply Hblank, elem_of_app. by right; left. }
  unfold is_reserved_windows_name. rewrite app_assoc, encode_chars_app, Hhead.
  assert (Hstem : match split_once (ch ".") ((stem ++ blanks) ++ encode_chars rest) with
                  | Some (before, _) => before | None => (stem ++ blanks) ++ encode_chars rest end
                  = stem ++ blanks).
  { destruct Hrest as [->|[extension ->]].
    - by rewrite app_nil_r, split_once_plain.
    - change (encode_chars (ch "." :: extension)) with (ch "." :: encode_chars extension).
      by rewrite split_once_app. }
  rewrite Hstem, Htrim. generalize dependent (to_ascii_uppercase stem).
  intros device Hin. revert device Hin. apply Forall_forall. repeat constructor.
Qed.

Lemma ends_in_ascii b s :
  0 ≤ b < 128 → forallb is_scalar s = true → ends_with (encode_chars s) [b] = false → last s ≠ Some b.
Proof.
  intros Hb Hs Hends Hl. apply last_Some in Hl as [s' ->]. revert Hends.
  rewrite encode_chars_snoc. unfold encode_utf8. rewrite (proj2 (Z.ltb_lt b 0x80)) by lia.
  unfold ends_with. rewrite length_app. cbn [length]. rewrite (proj2 (Nat.leb_le _ _)) by lia.
  by rewrite Nat.add_sub, drop_app_length, bool_decide_eq_true_2.
Qed.

Lemma encodes_as_itself text part : forallb is_ascii text = true → part = text → encode_chars part = text.
Proof. intros Ht ->. by apply encode_chars_ascii. Qed.

Lemma accepted_component part :
  forallb is_scalar part = true → (ch "/") ∉ part → (ch "\") ∉ part →
  unsafe_component (encode_chars part) = false → plain_file_name part.
Proof.
  intros Hs Hslash Hback. unfold unsafe_component.
  intros [[[[[[H1 H2]%orb_false_iff H3]%orb_false_iff H4]%orb_false_iff
    H5]%orb_false_iff H6]%orb_false_iff H7]%orb_false_iff.
  apply bool_decide_eq_false in H1, H2, H3. split.
  - split_and!; [intros E; apply H1|intros E; apply H2|intros E; apply H3]; by apply encodes_as_itself.
  - intros c Hc. assert (Hchars : chars (encode_chars part) = part) by (unfold chars; by rewrite decode_encode_chars).
    rewrite Hchars in H6.
    apply (existsb_false_elem _ _ c) in H6 as [Hcontrol Hforbidden]%orb_false_iff; [|done].
    unfold is_control in Hcontrol. split_and!; [|lia|lia].
    assert (Hno : c ≠ ch "/" ∧ c ≠ ch "\") by (split; by intros ->).
    unfold forbidden_char in Hforbidden. cbn [existsb] in Hforbidden.
    rewrite !orb_false_iff, !Z.eqb_neq in Hforbidden. rewrite !not_elem_of_cons.
    destruct Hno, Hforbidden as (? & ? & ? & ? & ? & ? & ? & _). split_and!; try done.
    apply not_elem_of_nil.
  - split; by apply ends_in_ascii.
  - intros Hdevice%device_reserved. congruence.
Qed.

Lemma plain_component name : plain_file_name name → component name = [Normal name].
Proof.
  intros [(H1 & H2 & H3) _ _ _]. unfold component. by rewrite !bool_decide_eq_false_2.
Qed.

Lemma received_confined (platform : Platform) path :
  wire_path_ok path → confined (parse_path (chars path)).
Proof.
  intros (_ & Hv & Hback & Hok)%wire_path_inv.
  destruct (valid_utf8_chars path Hv) as [Henc Hscalar]. set (s := chars path) in *.
  assert (Hback' : (ch "\") ∉ s).
  { intros Hin. apply Hback. rewrite <-Henc. unfold encode_chars. rewrite list_elem_of_In, in_concat.
    exists [ch "\"]. split; [|by left]. apply list_elem_of_In.
    by apply (list_elem_of_fmap_2 encode_utf8 s (ch "\")). }
  unfold validate_wire_path in Hok. case_bool_decide as Hdot.
  { left. subst s. subst path. unfold parse_path. by destruct platform. }
  right. case_match; [done|]. case_match eqn:Hsafe; [done|].
  rewrite <-Henc, encode_split in Hsafe by done.
  set (names := split_on (ch "/") s) in *.
  assert (Hplain : Forall plain_file_name names).
  { apply Forall_forall. intros part Hp. apply accepted_component.
    - by eapply scalars_of_part.
    - pose proof (split_on_no_sep (ch "/") s) as Hno. rewrite Forall_forall in Hno. by apply Hno.
    - intros Hin. apply Hback'. by apply (elem_of_split_on (ch "/") _ part).
    - apply (existsb_false_elem _ _ _ Hsafe). by apply list_elem_of_fmap_2. }
  assert (Hcolon : (ch ":") ∉ s).
  { intros [E|(part & Hp & Hin)]%(split_on_elem (ch "/")); [done|].
    rewrite Forall_forall in Hplain. destruct (Hplain part Hp) as [_ Hc _ _].
    destruct (Hc _ Hin) as [Hno _]. apply Hno. rewrite !elem_of_cons. tauto. }
  exists names. split_and!; [by apply split_on_ne|done|].
  assert (has_drive s = false) as Hdrive.
  { unfold has_drive. destruct s as [|c [|d s']]; rewrite ?andb_false_r; try done.
    rewrite (proj2 (Z.eqb_neq d (ch ":"))), !andb_false_r; [done|].
    intros ->. apply Hcolon. by right; left. }
  unfold parse_path. rewrite Hdrive. unfold rooted_components.
  rewrite separators_are_slashes by done. fold names.
  destruct names as [|first names'] eqn:Hnames; [by apply split_on_ne in Hnames|].
  apply Forall_cons in Hplain as [Hfirst Hplain]. pose proof Hfirst as [(Hf1 & Hf2 & _) _ _ _].
  rewrite bool_decide_eq_false_2, (bool_decide_eq_false_2 (first = lit ".")) by done. cbn [andb].
  rewrite plain_component by done. cbn [fmap list_fmap app]. f_equal.
  clear -Hplain. induction Hplain as [|name names Hn _ IH]; [done|].
  cbn [fmap list_fmap concat]. by rewrite plain_component, IH.
Qed.

Lemma checked_safe max_path_len e : Rsync27.entry_checked max_path_len e → entry_safe max_path_len e.
Proof.
  intros (Hpath & Hlen & Hmode). split.
  - by apply wire_path_inv in Hpath as (_ & Hv & _).
  - done.
  - intros platform. by apply received_confined.
  - unfold file_type_from_mode in Hmode.
    destruct (Z.eqb_spec (Z.land (mode e) S_IFMT) S_IFREG) as [E|_]; [by injection Hmode as <-|].
    destruct (Z.eqb_spec (Z.land (mode e) S_IFMT) S_IFDIR) as [E|_]; [by injection Hmode as <-|].
    destruct (Z.eqb_spec (Z.land (mode e) S_IFMT) S_IFLNK) as [E|_]; [by injection Hmode as <-|done].
Qed.

(** A path the readers accept is the bytes received, valid UTF-8, and
    either [.] or a relative path whose every component is non-empty, not [.] or
    [..], free of both slashes, control characters and the characters Windows
    reserves, does not end in a space or a dot and is not a reserved device
    name: it cannot leave the destination directory. *)
Theorem wire_path_is_safe bytes path :
  wire_path_from_bytes bytes = Ok path →
  path = bytes ∧ valid_utf8 path = true ∧
  (path = lit "." ∨ Forall safe_component (split_on (ch "/") path)).
Proof.
  intros Hp. pose proof (wire_path_safe _ _ Hp) as Hsafe.
  by apply wire_path_inv in Hp as (-> & Hv & _).
Qed.

Lemma wire_path_is_safe_witness :
  lit "a/b.txt" = lit "a/b.txt" ∧ valid_utf8 (lit "a/b.txt") = true ∧
  (lit "a/b.txt" = lit "." ∨ Forall safe_component (split_on (ch "/") (lit "a/b.txt"))).
Proof. apply (wire_path_is_safe (lit "a/b.txt")). vm_compute. reflexivity. Defined.

(** Pushing every entry of a list into a batch builder and finishing it
    gives batches that tile the list in order from index 0: none is lost, none
    is repeated and every base index is the number of entries before it.  Every
    batch but the last has between one entry and the maximum and is not final,
    the last is final, and none exceeds the allocation limit. *)
Theorem batches_tile_the_list size_of_entry max limit es :
  0 ≤ size_of_entry → (0 < max)%nat →
  Forall (λ e, within limit (estimated_file_list_entry_alloc size_of_entry e)) es →
  ∃ batches last,
    batch_list size_of_entry max limit es = Ok (batches ++ [last]) ∧
    tiles 0 (batches ++ [last]) es ∧
    Forall (batch_ok size_of_entry max limit) batches ∧
    is_final last = true ∧ (length (entries last) < max)%nat ∧
    within limit (total_alloc size_of_entry (entries last)).
Proof. intros Hsize Hmax Hall. by apply batch_list_spec. Qed.

Lemma batches_tile_the_list_witness :
  ∃ batches last,
    batch_list 232 2 (Some 1000) sample_list = Ok (batches ++ [last]) ∧
    tiles 0 (batches ++ [last]) sample_list ∧
    Forall (batch_ok 232 2 (Some 1000)) batches ∧
    is_final last = true ∧ (length (entries last) < 2)%nat ∧
    within (Some 1000) (total_alloc 232 (entries last)).
Proof.
  apply (batches_tile_the_list 232 2 (Some 1000) sample_list); [lia|lia|].
  repeat constructor; vm_compute; congruence.
Defined.

(** The internal file-list format round-trips. *)
Theorem internal_list_round_trip {R} `{ReadLaws R} {W} `{WriteLaws W}
    max_entries max_path_len es :
  Forall (internal_entry_ok max_path_len) es →
  Z.of_nat (length es) ≤ Z.min max_entries u32_max →
  coupled (W:=W) (R:=R) (write_file_list es) (read_file_list max_entries max_path_len) es.
Proof. apply coupled_internal_list. Qed.

Lemma internal_list_round_trip_witness :
  let es := [{| fle_path := lit "a"; fle_file_type := File; fle_len := 3;
                fle_mtime_unix := Some 7 |}] in
  coupled (W:=list Z) (R:=list Z) (write_file_list es) (read_file_list 1 10) es.
Proof.
  apply (internal_list_round_trip 1 10); [|vm_compute; congruence].
  repeat constructor; vm_compute; congruence.
Defined.

(** What the protocol-27 writer sends, the reader takes back: the
    entries in order, with checksums exactly when both sides include them, and
    nothing is left over.  Repeated modes and times, which are sent once, come
    back as they were. *)
Theorem rsync27_round_trip {R} `{ReadLaws R} {W} `{WriteLaws W}
    checksums max_entries max_path_len es :
  Forall (Rsync27.entry_ok checksums max_path_len) es → (length es ≤ max_entries)%nat →
  coupled (W:=W) (R:=R) (Rsync27.write_rsync27_file_list_with_options es checksums)
    (Rsync27.read_rsync27_file_list_with_options max_entries max_path_len checksums)
    (Rsync27.on_wire checksums <$> es).
Proof.
  intros Hall Hlen.
  exact (Rsync27.entries27_coupled checksums max_path_len es (Rsync27.new checksums) []
    max_entries eq_refl eq_refl Hall Hlen).
Qed.

Lemma rsync27_round_trip_witness :
  coupled (W:=list Z) (R:=list Z)
    (Rsync27.write_rsync27_file_list_with_options sample_list false)
    (Rsync27.read_rsync27_file_list_with_options 3 100 false)
    (Rsync27.on_wire false <$> sample_list).
Proof. apply (rsync27_round_trip false 3 100 sample_list); [apply sample27_ok|cbn; lia]. Defined.

(** C2. What the protocol-31 writer sends of a list that the format can carry
    ([list_ok]), the reader takes back under the same options: every entry in order with
    the attributes the options keep, names, times, modes and owners that repeat the
    previous entry's included, hard links resolved to the first link, and nothing left
    over, the id lists included.  Such a list has at most 2^31 - 1 entries, whose paths
    the reader accepts and whose lengths (below 2^58), times (from 1970 on), ids (up to
    2^31 - 1), names and extended attributes are within the widths of the wire and of the
    limits; their modes are those of their types; links to one file
    agree in its attributes; files have the checksums that are asked for; and where names
    of owners or groups are sent, each id has one name throughout, and either all ids have
    names or none has, since the reader otherwise gives an entry the name of an earlier
    owner. *)
Theorem rsync31_round_trip {R} `{ReadLaws R} {W} `{WriteLaws W}
    opts max_entries max_path_len user_of group_of es :
  list_ok opts max_path_len user_of group_of es → (length es ≤ max_entries)%nat →
  coupled (W:=W) (R:=R) (Rsync31.write_rsync31_file_list_with_metadata es opts)
    (Rsync31.read_rsync31_file_list_with_metadata max_entries max_path_len opts)
    (wire_entries opts (Rsync31.new opts) es).
Proof. intros Hall Hmax. by apply (list_coupled _ _ user_of group_of). Qed.

Lemma rsync31_round_trip_witness :
  coupled (W:=list Z) (R:=list Z)
    (Rsync31.write_rsync31_file_list_with_metadata sample_list sample_options)
    (Rsync31.read_rsync31_file_list_with_metadata 3 100 sample_options)
    (wire_entries sample_options (Rsync31.new sample_options) sample_list).
Proof.
  apply (rsync31_round_trip sample_options 3 100 (λ _, None) (λ _, None) sample_list);
    [apply sample_ok|cbn; lia].
Defined.

(** A batch of a protocol-31 list round-trips with its base index and
    its final flag. *)
Theorem rsync31_batch_round_trip {R} `{ReadLaws R} {W} `{WriteLaws W}
    opts max_entries max_path_len user_of group_of b :
  list_ok opts max_path_len user_of group_of (entries b) →
  Z.of_nat (length (entries b)) ≤ max_entries → Z.of_nat (base_index b) < 2 ^ 58 →
  coupled (W:=W) (R:=R) (Rsync31.write_rsync31_file_list_batch_with_metadata b opts)
    (Rsync31.read_rsync31_file_list_batch_with_metadata max_entries max_path_len opts)
    {| base_index := base_index b;
       entries := wire_entries opts (Rsync31.new opts) (entries b);
       is_final := is_final b |}.
Proof. apply batch_coupled. Qed.

Lemma rsync31_batch_round_trip_witness :
  coupled (W:=list Z) (R:=list Z)
    (Rsync31.write_rsync31_file_list_batch_with_metadata
       {| base_index := 300; entries := sample_list; is_final := true |} sample_options)
    (Rsync31.read_rsync31_file_list_batch_with_metadata 10 100 sample_options)
    {| base_index := 300;
       entries := wire_entries sample_options (Rsync31.new sample_options) sample_list;
       is_final := true |}.
Proof.
  apply (rsync31_batch_round_trip sample_options 10 100 (λ _, None) (λ _, None)
    {| base_index := 300; entries := sample_list; is_final := true |});
    [apply sample_ok|vm_compute; congruence|vm_compute; reflexivity].
Defined.

(** Two files of a list are in the same hard-link group after the
    protocol-31 wire exactly when they were before it. *)
Theorem hard_links_survive opts es i j ei ej gi gj :
  es !! i = Some ei → es !! j = Some ej → file_type ei = File → file_type ej = File →
  hardlink_group ei = Some gi → hardlink_group ej = Some gj →
  ∃ di dj, wire_entries opts (Rsync31.new opts) es !! i = Some di ∧
    wire_entries opts (Rsync31.new opts) es !! j = Some dj ∧
    (hardlink_group di = hardlink_group dj ↔ gi = gj).
Proof. apply wire_groups_faithful. Qed.

Lemma hard_links_survive_witness :
  ∃ di dj, wire_entries sample_options (Rsync31.new sample_options) sample_list !! 1%nat = Some di ∧
    wire_entries sample_options (Rsync31.new sample_options) sample_list !! 2%nat = Some dj ∧
    (hardlink_group di = hardlink_group dj ↔
     {| device := 7; inode := 42 |} = {| device := 7; inode := 42 |}).
Proof.
  apply (hard_links_survive sample_options sample_list 1 2
    (sample_link (lit "dir/a.txt")) (sample_link (lit "dir/ab.txt"))); reflexivity.
Defined.

(** C4. On any input, honest or not, a file list the protocol-27 or the protocol-31
    reader returns has at most the allowed number of entries, and every entry is safe: its
    path is text within the length limit which, parsed on either platform, is [.] or one
    or more plain names, without a drive, a root or a parent and none of them a device of
    Windows, so that joined to the destination it stays below it; and its mode is that of
    its file type. *)
Theorem readers_accept_only_safe_lists {R} `{ReadLaws R}
    max_entries max_path_len checksums opts (r : R) es r' :
  Rsync27.read_rsync27_file_list_with_options max_entries max_path_len checksums r =
    (Ok es, r') ∨
  Rsync31.read_rsync31_file_list_with_metadata max_entries max_path_len opts r =
    (Ok es, r') →
  (length es ≤ max_entries)%nat ∧ Forall (entry_safe max_path_len) es.
Proof.
  intros Hrun.
  enough ((length es ≤ max_entries)%nat ∧ Forall (Rsync27.entry_checked max_path_len) es) as [Hl Hall].
  { split; [done|]. eapply Forall_impl; [exact Hall|]. apply checked_safe. }
  destruct Hrun as [Hrun|Hrun].
  - by apply Rsync27.read_entries27_checked in Hrun.
  - unfold Rsync31.read_rsync31_file_list_with_metadata in Hrun.
    run_step Hrun as entries Hentries. run_step Hrun as u Hu. injection Hrun as <- <-.
    by apply read_entries_checked in Hentries; [|constructor].
Qed.

Definition one_file : RsyncFileListEntry :=
  {| path := lit "a"; file_type := File; len := 1; mtime_unix := 2;
     mode := RSYNC_REGULAR_FILE_MODE; checksum := None; hardlink_group := None;
     metadata := default_metadata |}.

Lemma readers_accept_only_safe_lists_witness :
  (length [one_file] ≤ 1)%nat ∧ Forall (entry_safe 10) [one_file].
Proof.
  apply (readers_accept_only_safe_lists 1 10 false default_options
    [0x40; 1; 0; 0; 0; 97; 1; 0; 0; 0; 2; 0; 0; 0; 0xA4; 0x81; 0; 0; 0] _ []).
  left. vm_compute. reflexivity.
Defined.

(** The loop over an id list ends within the bytes of the input: any
    two amounts of fuel above the reader's budget give the same run, so the
    fuel [read_id_list_terminator] uses never runs out first. *)
Theorem id_list_loop_terminates {R} `{ReadLaws R} fuel (r : R) :
  (budget r < fuel)%nat →
  Rsync31.id_list_loop fuel r = Rsync31.read_id_list_terminator r.
Proof. intros Hfuel. apply id_list_fuel; [done|lia]. Qed.

Lemma id_list_loop_terminates_witness :
  Rsync31.id_list_loop 100 [5; 1; 65; 0; 0] = Rsync31.read_id_list_terminator [5; 1; 65; 0; 0].
Proof. apply (id_list_loop_terminates 100). cbn. lia. Defined.

Definition owned (name : str) (id : Z) (user : option str) : RsyncFileListEntry :=
  {| path := name; file_type := File; len := 0; mtime_unix := 1;
     mode := RSYNC_REGULAR_FILE_MODE; checksum := None; hardlink_group := None;
     metadata := {| uid := Some id; gid := None; user_name := user; group_name := None;
                    atime_unix := None; crtime_unix := None; xattrs := [] |} |}.

Definition owner_options : RsyncFileListOptions :=
  {| include_checksums := false; preserve_owner := true; preserve_group := false;
     numeric_ids := false; opt_acls := false; opt_xattrs := false; fake_super := false;
     atimes := false; crtimes := false |}.

(** The protocol-31 reader keeps the last owner name it saw even when
    the last owner had none: after a named owner and an unnamed one, a second
    entry of the unnamed owner comes back under the first one's name. *)
Theorem stale_owner_name :
  let es := [owned (lit "a") 1 (Some (lit "alice")); owned (lit "b") 2 None;
             owned (lit "c") 2 None] in
  let bytes := (Rsync31.write_rsync31_file_list_with_metadata es owner_options []).2 in
  ∃ a b c,
    Rsync31.read_rsync31_file_list_with_metadata 3 10 owner_options bytes = (Ok [a; b; c], []) ∧
    user_name (metadata b) = None ∧ uid (metadata c) = Some 2 ∧
    user_name (metadata c) = Some (lit "alice").
Proof. vm_compute. do 3 eexists. split; [reflexivity|]. done. Qed.
