(* ===== verification/Multiplex.v ===== *)
(** * Multiplexed streams: crates/rsync-protocol/src/session.rs,
      [MultiplexedReader] and [MultiplexedWriter]

    A multiplexed stream carries data frames and message frames.  The reader and
    the writer are instances of the stream interfaces over an inner reader or
    writer, so every codec verified against those interfaces is verified over a
    multiplexed stream: after the definitions comes the framing as a relation between
    bytes and the data they carry, and the laws of the interfaces. *)

From S2P Require Import Prelude Stream WireIo Str Flist.

Definition RSYNC_MULTIPLEX_DATA_TAG : Z := 7.
Definition RSYNC_MULTIPLEX_ERROR_CODE : Z := 1.

Record MultiplexReadState := {
  remaining : nat;
  messages : list str;
}.

Definition mux_start : MultiplexReadState := {| remaining := 0; messages := [] |}.

Definition set_remaining (st : MultiplexReadState) (n : nat) : MultiplexReadState :=
  {| remaining := n; messages := messages st |}.

Definition push_message (st : MultiplexReadState) (message : str) : MultiplexReadState :=
  {| remaining := remaining st; messages := messages st ++ [message] |}.

(** [trim_end_matches(['\r', '\n'])] *)
Fixpoint trim_start_newlines (s : list Z) : list Z :=
  match s with
  | x :: s' => if (x =? 13) || (x =? 10) then trim_start_newlines s' else s
  | [] => []
  end.
Definition trim_end_newlines (s : str) : str := rev (trim_start_newlines (rev s)).

Section reader.
Context {R : Type} `{Read R}.

(** What one message frame does to the state: an error ends the read. *)
Definition handle_message (tag : Z) (payload : list Z) :
    M (MultiplexReadState * R) io_error unit :=
  let message := trim_end_newlines (from_utf8_lossy payload) in
  let code := Z.max 0 (tag - RSYNC_MULTIPLEX_DATA_TAG) in
  if code =? RSYNC_MULTIPLEX_ERROR_CODE
  then throw (IoError InvalidData "remote shell emitted an rsync error message: {0}")
  else if tag <? RSYNC_MULTIPLEX_DATA_TAG
  then throw (IoError InvalidData
    "remote shell emitted an unsupported multiplex message tag {tag} with {len} bytes")
  else if bool_decide (message = []) then mret ()
  else st ← on_fst get; on_fst (put (push_message st message)).

(** The loop of [read_next_multiplex_frame]: each turn reads a header of four
    bytes, so the reader's budget bounds the turns. *)
Fixpoint next_frame_loop (fuel : nat) : M (MultiplexReadState * R) io_error unit :=
  match fuel with
  | O => throw (IoError UnexpectedEof "failed to fill whole buffer")
  | S fuel =>
      header ← on_snd (read_exact 4);
      let raw := le_decode header in
      let tag := Z.shiftr raw 24 in
      let len := Z.to_nat (Z.land raw 0x00ffffff) in
      if tag =? RSYNC_MULTIPLEX_DATA_TAG then
        st ← on_fst get; on_fst (put (set_remaining st len))
      else
        payload ← (if (0 <? len)%nat then on_snd (read_exact len) else mret []);
        handle_message tag payload;;
        next_frame_loop fuel
  end.

Definition read_next_multiplex_frame : M (MultiplexReadState * R) io_error unit :=
  λ p, next_frame_loop (S (budget p.2)) p.

(** The loop of [MultiplexedReader::read] for a buffer of [want] bytes. *)
Fixpoint fill_loop (fuel want : nat) : M (MultiplexReadState * R) io_error (list Z) :=
  match want with
  | O => mret []
  | _ =>
      match fuel with
      | O => throw (IoError UnexpectedEof "failed to fill whole buffer")
      | S fuel =>
          st ← on_fst get;
          (if (remaining st =? 0)%nat then read_next_multiplex_frame else mret ());;
          st ← on_fst get;
          if (remaining st =? 0)%nat then fill_loop fuel want
          else
            let read_len := Nat.min (remaining st) want in
            bytes ← on_snd (read_exact read_len);
            on_fst (put (set_remaining st (remaining st - read_len)));;
            later ← fill_loop fuel (want - read_len);
            mret (bytes ++ later)
      end
  end.

(** [read] fills the whole buffer or fails, so it is also [read_exact]. *)
Definition multiplexed_read (n : nat) : M (MultiplexReadState * R) io_error (list Z) :=
  λ p, fill_loop (S (budget p.2)) n p.

#[export] Instance multiplexed_reader : Read (MultiplexReadState * R) :=
  {| read_exact := multiplexed_read; budget p := budget p.2 |}.

Definition read_multiplexed_i32 : M (MultiplexReadState * R) io_error Z := read_i32_le.
Definition read_multiplexed_long : M (MultiplexReadState * R) FileListError Z :=
  read_rsync_long.
End reader.

Section writer.
Context {W : Type} `{Write W}.

Definition write_multiplex_data_frame (payload : list Z) : M W io_error unit :=
  let len := Z.of_nat (length payload) in
  if 0x00ffffff <? len
  then throw (invalid_input "rsync multiplex payload exceeds 24-bit frame length")
  else
    write_u32_le (Z.lor (Z.shiftl RSYNC_MULTIPLEX_DATA_TAG 24) len);;
    write_all payload.

(** [MultiplexedWriter::write]: the state is the inner writer beside the
    frame size.  All of a non-empty buffer is written, so this is [write_all]. *)
Definition multiplexed_write (buf : list Z) : M (W * nat) io_error unit := λ p,
  match buf with
  | [] => (Ok (), p)
  | _ =>
      if (p.2 =? 0)%nat
      then (Err (invalid_input "rsync multiplex frame size must be greater than zero"), p)
      else on_fst (for_each write_multiplex_data_frame (chunks p.2 buf)) p
  end.

#[export] Instance multiplexed_writer : Write (W * nat) :=
  {| write_all := multiplexed_write; flush := on_fst flush |}.
End writer.

(** ** Frame headers *)

Definition frame_header (tag len : Z) : list Z := le_encode 4 (tag * 2 ^ 24 + len).

Lemma frame_header_fields tag len :
  0 ≤ tag < 256 → 0 ≤ len < 2 ^ 24 →
  let raw := le_decode (frame_header tag len) in
  Z.shiftr raw 24 = tag ∧ Z.land raw 0x00ffffff = len.
Proof.
  intros Htag Hlen raw. unfold raw, frame_header.
  rewrite le_decode_encode_id by lia. split.
  - rewrite Z.shiftr_div_pow2 by lia. rewrite Z.div_add_l by lia.
    rewrite Z.div_small by lia. lia.
  - change 0x00ffffff with (Z.ones 24). rewrite Z.land_ones by lia.
    rewrite Z.add_comm, Z.mod_add by lia. by apply Z.mod_small.
Qed.

(** [framed n enc data]: with [n] bytes of the current data frame outstanding,
    the bytes [enc] carry [data].  Messages other than errors may lie between
    data frames. *)
Inductive framed : nat → list Z → list Z → Prop :=
| framed_end : framed 0 [] []
| framed_data n p enc data :
    (0 < n)%nat → length p = n → framed 0 enc data → framed n (p ++ enc) (p ++ data)
| framed_frame n enc data :
    Z.of_nat n < 2 ^ 24 → framed n enc data →
    framed 0 (frame_header RSYNC_MULTIPLEX_DATA_TAG (Z.of_nat n) ++ enc) data
| framed_message tag payload enc data :
    8 < tag < 256 → Z.of_nat (length payload) < 2 ^ 24 → framed 0 enc data →
    framed 0 (frame_header tag (Z.of_nat (length payload)) ++ payload ++ enc) data.

Lemma framed_pos n enc data :
  framed n enc data → (0 < n)%nat →
  ∃ p enc' data', length p = n ∧ enc = p ++ enc' ∧ data = p ++ data' ∧ framed 0 enc' data'.
Proof. intros Hf Hn. destruct Hf; try lia. by exists p, enc, data. Qed.

(** A data frame can be read in parts. *)
Lemma framed_split n enc data k :
  framed n enc data → (k ≤ n)%nat → (0 < n)%nat →
  ∃ p enc' data', length p = k ∧ enc = p ++ enc' ∧ data = p ++ data' ∧
    framed (n - k) enc' data'.
Proof.
  intros Hf Hk Hn. destruct (framed_pos _ _ _ Hf Hn) as (p & enc' & data' & Hp & -> & -> & Hf').
  exists (take k p), (drop k p ++ enc'), (drop k p ++ data').
  rewrite !app_assoc, take_drop. split_and!; try done.
  - rewrite length_take. lia.
  - destruct (decide (k = n)) as [->|].
    + rewrite Nat.sub_diag, drop_ge by lia. done.
    + apply framed_data; [lia|rewrite length_drop; lia|done].
Qed.

Lemma framed_app enc1 data1 enc2 data2 n :
  framed n enc1 data1 → framed 0 enc2 data2 → framed n (enc1 ++ enc2) (data1 ++ data2).
Proof.
  intros Hf1 Hf2. induction Hf1; rewrite <-?app_assoc; try done.
  - by apply framed_data.
  - by apply framed_frame.
  - by apply framed_message.
Qed.

Section reader.
Context {R : Type} `{ReadLaws R}.

(** A multiplexed reader delivers what the rest of its frames carry. *)
Definition mux_avail (p : MultiplexReadState * R) (data : list Z) : Prop :=
  ∃ enc more, framed (remaining p.1) enc data ∧ avail p.2 (enc ++ more).

Lemma read_inner n (st : MultiplexReadState) (r r' : R) bs :
  read_exact n r = (Ok bs, r') → on_snd (read_exact n) (st, r) = (Ok bs, (st, r')).
Proof. intros Hr. unfold on_snd. cbn. by rewrite Hr. Qed.

(** A message that is no error leaves the frame position alone. *)
Lemma handle_message_ok tag payload (st : MultiplexReadState) (r : R) :
  8 < tag →
  ∃ st', handle_message tag payload (st, r) = (Ok (), (st', r)) ∧
    remaining st' = remaining st.
Proof.
  intros Htag. unfold handle_message, RSYNC_MULTIPLEX_ERROR_CODE, RSYNC_MULTIPLEX_DATA_TAG.
  destruct (Z.eqb_spec (Z.max 0 (tag - 7)) 1); [lia|].
  destruct (Z.ltb_spec tag 7); [lia|].
  case_bool_decide; [by exists st|]. eexists. split; [done|]. done.
Qed.

Lemma next_frame_loop_spec enc data : ∀ fuel st (r : R) more,
  framed 0 enc data → data ≠ [] → remaining st = 0%nat → avail r (enc ++ more) →
  (budget r < fuel)%nat →
  ∃ st' r' enc', next_frame_loop fuel (st, r) = (Ok (), (st', r')) ∧
    framed (remaining st') enc' data ∧ avail r' (enc' ++ more) ∧ (budget r' < budget r)%nat.
Proof.
  intros fuel st r more Hf. remember 0%nat as n eqn:Hn. revert fuel st r Hn.
  induction Hf as [|n p enc data Hpos Hp Hf IH|n enc data Hlen Hf IH
    |tag payload enc data Htag Hlen Hf IH];
    intros fuel st r Hn Hne Hst Ha Hfuel; [done|lia| |].
  - destruct fuel as [|fuel]; [lia|]. cbn [next_frame_loop].
    rewrite <-app_assoc in Ha.
    destruct (read_exact_avail r _ _ Ha) as (r1 & Hr1 & Ha1).
    change (length (frame_header _ _)) with 4%nat in Hr1.
    pose proof (read_exact_budget _ _ _ _ Hr1) as [_ Hb].
    rewrite (bind_ok _ _ _ _ _ (read_inner 4 st r r1 _ Hr1)).
    destruct (frame_header_fields RSYNC_MULTIPLEX_DATA_TAG (Z.of_nat n)) as [-> ->];
      [by vm_compute|lia|].
    change (RSYNC_MULTIPLEX_DATA_TAG =? RSYNC_MULTIPLEX_DATA_TAG) with true. cbn iota.
    eexists _, r1, enc. split; [reflexivity|]. cbn [remaining set_remaining].
    rewrite Nat2Z.id. split_and!; [done|done|lia].
  - destruct fuel as [|fuel]; [lia|]. cbn [next_frame_loop].
    rewrite <-!app_assoc in Ha.
    destruct (read_exact_avail r _ _ Ha) as (r1 & Hr1 & Ha1).
    change (length (frame_header _ _)) with 4%nat in Hr1.
    pose proof (read_exact_budget _ _ _ _ Hr1) as [_ Hb].
    rewrite (bind_ok _ _ _ _ _ (read_inner 4 st r r1 _ Hr1)).
    destruct (frame_header_fields tag (Z.of_nat (length payload))) as [-> ->]; [lia|lia|].
    destruct (Z.eqb_spec tag RSYNC_MULTIPLEX_DATA_TAG) as [->|_];
      [unfold RSYNC_MULTIPLEX_DATA_TAG in Htag; lia|].
    rewrite Nat2Z.id.
    assert (Hpay : ∃ r2, (if (0 <? length payload)%nat
        then on_snd (read_exact (length payload)) else mret []) (st, r1) =
        (Ok payload, (st, r2)) ∧ avail r2 (enc ++ more) ∧ (budget r2 ≤ budget r1)%nat).
    { destruct (Nat.ltb_spec 0 (length payload)) as [Hl|Hl].
      - destruct (read_exact_avail r1 _ _ Ha1) as (r2 & Hr2 & Ha2). exists r2.
        pose proof (read_exact_budget _ _ _ _ Hr2) as [_ Hb2].
        split_and!; [by apply read_inner|done|lia].
      - destruct payload; [|cbn in Hl; lia]. by exists r1. }
    destruct Hpay as (r2 & Hr2 & Ha2 & Hb2). rewrite (bind_ok _ _ _ _ _ Hr2).
    destruct (handle_message_ok tag payload st r2) as (st2 & Hm & Hrem); [lia|].
    rewrite (bind_ok _ _ _ _ _ Hm).
    destruct (IH fuel st2 r2) as (st' & r' & enc' & Hrun & Hf' & Ha' & Hb');
      [done|done|congruence|done|lia|].
    exists st', r', enc'. split_and!; [done|done|done|lia].
Qed.

Lemma read_frame_spec st (r : R) enc more data :
  framed 0 enc data → data ≠ [] → remaining st = 0%nat → avail r (enc ++ more) →
  ∃ st' r' enc', read_next_multiplex_frame (st, r) = (Ok (), (st', r')) ∧
    framed (remaining st') enc' data ∧ avail r' (enc' ++ more) ∧ (budget r' < budget r)%nat.
Proof. intros. apply (next_frame_loop_spec enc data); try done. cbn. lia. Qed.

(** Reading inside a data frame. *)
Lemma read_in_frame st (r : R) enc more data k :
  framed (remaining st) enc data → avail r (enc ++ more) → (0 < k ≤ remaining st)%nat →
  ∃ p r' enc' data', length p = k ∧ data = p ++ data' ∧
    read_exact k r = (Ok p, r') ∧ framed (remaining st - k) enc' data' ∧
    avail r' (enc' ++ more) ∧ (budget r' < budget r)%nat.
Proof.
  intros Hf Ha Hk.
  destruct (framed_split _ _ _ k Hf) as (p & enc' & data' & Hp & -> & -> & Hf'); [lia|lia|].
  rewrite <-app_assoc in Ha. destruct (read_exact_avail r _ _ Ha) as (r' & Hr & Ha').
  rewrite Hp in Hr. pose proof (read_exact_budget _ _ _ _ Hr) as [_ Hb].
  exists p, r', enc', data'. split_and!; try done. lia.
Qed.

Lemma fill_loop_spec fuel : ∀ st (r : R) enc more bs rest,
  framed (remaining st) enc (bs ++ rest) → avail r (enc ++ more) → (budget r < fuel)%nat →
  ∃ st' r' enc', fill_loop fuel (length bs) (st, r) = (Ok bs, (st', r')) ∧
    framed (remaining st') enc' rest ∧ avail r' (enc' ++ more).
Proof.
  induction fuel as [|fuel IH]; intros st r enc more bs rest Hf Ha Hfuel; [lia|].
  destruct bs as [|b bs]; [by exists st, r, enc|].
  (* the state in which data is read *)
  assert (Hready : ∃ st1 r1 enc1,
    (if (remaining st =? 0)%nat then read_next_multiplex_frame else mret ()) (st, r) =
      (Ok (), (st1, r1)) ∧ framed (remaining st1) enc1 ((b :: bs) ++ rest) ∧
    avail r1 (enc1 ++ more) ∧
    (remaining st1 = 0%nat → budget r1 < budget r)%nat ∧ (budget r1 ≤ budget r)%nat).
  { destruct (Nat.eqb_spec (remaining st) 0) as [Hz|Hz].
    - rewrite Hz in Hf.
      destruct (read_frame_spec st r enc more ((b :: bs) ++ rest))
        as (st1 & r1 & enc1 & Hrun & Hf1 & Ha1 & Hb1); try done.
      exists st1, r1, enc1. split_and!; try done. lia.
    - exists st, r, enc. by split_and!. }
  destruct Hready as (st1 & r1 & enc1 & Hrun & Hf1 & Ha1 & Hb0 & Hb1).
  cbn [length fill_loop]. rewrite (bind_ok (on_fst get) _ _ st (st, r)) by done.
  rewrite (bind_ok _ _ _ _ _ Hrun).
  rewrite (bind_ok (on_fst get) _ _ st1 (st1, r1)) by done.
  destruct (Nat.eqb_spec (remaining st1) 0) as [Hz|Hz].
  { apply (IH st1 r1 enc1 more (b :: bs)); [done|done|]. specialize (Hb0 Hz). lia. }
  set (k := Nat.min (remaining st1) (S (length bs))).
  destruct (read_in_frame st1 r1 enc1 more ((b :: bs) ++ rest) k Hf1 Ha1)
    as (p & r2 & enc2 & data2 & Hp & Hdata & Hr2 & Hf2 & Ha2 & Hb2); [lia|].
  rewrite (bind_ok _ _ _ _ _ (read_inner k st1 r1 r2 p Hr2)).
  rewrite (bind_ok (on_fst (put _)) _ _ () (set_remaining st1 (remaining st1 - k), r2)) by done.
  assert (Hbs : b :: bs = p ++ drop k (b :: bs) ∧ data2 = drop k (b :: bs) ++ rest).
  { pose proof (f_equal (take k) Hdata) as Ht. pose proof (f_equal (drop k) Hdata) as Hd.
    rewrite take_app_le in Ht by (cbn; lia). rewrite drop_app_le in Hd by (cbn; lia).
    rewrite <-Hp in Ht at 2. rewrite take_app_length in Ht.
    rewrite <-Hp in Hd at 2. rewrite drop_app_length in Hd.
    split; [by rewrite <-Ht, take_drop|done]. }
  destruct Hbs as [Hbs Hdata2].
  destruct (IH (set_remaining st1 (remaining st1 - k)) r2 enc2 more (drop k (b :: bs)) rest)
    as (st' & r' & enc' & Hrest & Hf' & Ha'); [by rewrite <-Hdata2|done|lia|].
  exists st', r', enc'. split_and!; [|done|done].
  rewrite length_drop in Hrest. cbn [length] in Hrest.
  rewrite (bind_ok _ _ _ _ _ Hrest). unfold mret, M_ret. by rewrite <-Hbs.
Qed.

(** ** Progress *)

Definition mux_budget (p : MultiplexReadState * R) : nat := budget p.2.

Lemma on_snd_read_budget n p bs p' :
  on_snd (read_exact n) p = (Ok bs, p') →
  length bs = n ∧ (mux_budget p' + n ≤ mux_budget p)%nat.
Proof.
  destruct p as [st r]. unfold on_snd, mux_budget. cbn.
  destruct (read_exact n r) as [res r'] eqn:Hr. intros [= -> <-]. cbn.
  by apply read_exact_budget in Hr.
Qed.

Lemma next_frame_loop_budget fuel p u p' :
  next_frame_loop fuel p = (Ok u, p') → (mux_budget p' < mux_budget p)%nat.
Proof.
  revert p. induction fuel as [|fuel IH]; intros p Hrun; [discriminate Hrun|].
  cbn [next_frame_loop] in Hrun. run_step Hrun as header Hh to s.
  apply on_snd_read_budget in Hh as [_ Hh]. cbv zeta in Hrun.
  destruct (Z.shiftr _ _ =? _).
  - run_step Hrun as st Hst. injection Hst as <- <-. injection Hrun as <- <-.
    unfold mux_budget in *. cbn. lia.
  - run_step Hrun as payload Hp to s0. run_step Hrun as v Hm to s1. apply IH in Hrun.
    assert (Hp' : (mux_budget s0 ≤ mux_budget s)%nat).
    { destruct (0 <? _)%nat; [apply on_snd_read_budget in Hp; lia|].
      by injection Hp as <- <-. }
    assert (Hm' : mux_budget s1 = mux_budget s0).
    { unfold handle_message in Hm. cbv zeta in Hm.
      repeat (case_match; [discriminate Hm|]). case_bool_decide; by injection Hm as <- <-. }
    lia.
Qed.

Lemma fill_loop_budget fuel n p bs p' :
  fill_loop fuel n p = (Ok bs, p') →
  length bs = n ∧ (mux_budget p' + n ≤ mux_budget p)%nat.
Proof.
  revert n p bs p'. induction fuel as [|fuel IH]; intros [|n] p bs p' Hrun;
    cbn [fill_loop] in Hrun; try discriminate Hrun;
    try (injection Hrun as <- <-; cbn; lia).
  run_step Hrun as st Hst. injection Hst as <- <-.
  run_step Hrun as u Hu to s0.
  assert (Hb : (mux_budget s0 ≤ mux_budget p)%nat).
  { destruct (remaining p.1 =? 0)%nat; [|by injection Hu as <- <-].
    apply next_frame_loop_budget in Hu. unfold mux_budget in *. cbn in *. lia. }
  run_step Hrun as st Hst. injection Hst as <- <-.
  destruct (remaining s0.1 =? 0)%nat.
  { apply IH in Hrun. unfold mux_budget in *. cbn in *. lia. }
  run_step Hrun as got Hgot. apply on_snd_read_budget in Hgot as [Hlen Hgot].
  run_step Hrun as v Hv. injection Hv as <- <-.
  run_step Hrun as later Hlater. apply IH in Hlater as [Hl2 Hb2].
  injection Hrun as <- <-. rewrite length_app. unfold mux_budget in *. cbn in *. lia.
Qed.
End reader.

(** The multiplexed reader keeps the promises of a reader. *)
#[export, program] Instance multiplexed_reader_laws {R} `{ReadLaws R} :
    ReadLaws (MultiplexReadState * R) :=
  {| avail := mux_avail |}.
Next Obligation.
  intros R HR HL [st r] bs rest (enc & more & Hf & Ha).
  destruct (fill_loop_spec (S (budget r)) st r enc more bs rest Hf Ha)
    as (st' & r' & enc' & Hrun & Hf' & Ha'); [lia|].
  exists (st', r'). split; [done|]. by exists enc', more.
Qed.
Next Obligation.
  intros R HR HL n p bs p' Hrun. by apply fill_loop_budget in Hrun.
Qed.

(** ** The writer *)

Section writer.
Context {W : Type} `{WriteLaws W}.

Definition mux_ready (p : W * nat) : Prop :=
  ready p.1 ∧ (0 < p.2)%nat ∧ Z.of_nat p.2 < 2 ^ 24.

(** What was emitted on the inner writer frames the data. *)
Definition mux_emits (p : W * nat) (data : list Z) (p' : W * nat) : Prop :=
  p'.2 = p.2 ∧ ∃ enc, framed 0 enc data ∧ emits p.1 enc p'.1.

Lemma write_frame_writes payload :
  (0 < length payload)%nat → Z.of_nat (length payload) < 2 ^ 24 →
  writes (W:=W) (write_multiplex_data_frame payload)
    (frame_header RSYNC_MULTIPLEX_DATA_TAG (Z.of_nat (length payload)) ++ payload) ().
Proof.
  intros Hpos Hlen. unfold write_multiplex_data_frame. cbv zeta.
  destruct (Z.ltb_spec 0x00ffffff (Z.of_nat (length payload))); [lia|].
  eapply writes_bind; [|apply writes_all].
  rewrite lor_shiftl by (done || lia). apply writes_all.
Qed.

Lemma framed_one payload enc data :
  (0 < length payload)%nat → Z.of_nat (length payload) < 2 ^ 24 → framed 0 enc data →
  framed 0 ((frame_header RSYNC_MULTIPLEX_DATA_TAG (Z.of_nat (length payload)) ++ payload)
            ++ enc) (payload ++ data).
Proof. intros ???. rewrite <-app_assoc. apply framed_frame; [done|]. by apply framed_data. Qed.

Lemma write_frames_writes frames :
  Forall (λ p, (0 < length p)%nat ∧ Z.of_nat (length p) < 2 ^ 24) frames →
  ∃ enc, writes (W:=W) (for_each write_multiplex_data_frame frames) enc () ∧
    framed 0 enc (concat frames).
Proof.
  induction 1 as [|p frames [Hpos Hlen] _ (enc & Hw & Hf)].
  - exists []. split; [apply writes_ret|constructor].
  - eexists. split; [|by apply framed_one].
    cbn [for_each]. eapply writes_bind; [by apply write_frame_writes|done].
Qed.

Lemma mux_write_emits (p : W * nat) data :
  mux_ready p →
  ∃ p', multiplexed_write data p = (Ok (), p') ∧ mux_emits p data p' ∧ mux_ready p'.
Proof.
  destruct p as [w n]. intros (Hw & Hn & Hmax). cbn in *.
  unfold multiplexed_write. destruct data as [|b data].
  { exists (w, n). split_and!; [done| |done]. split; [done|].
    exists []. split; [constructor|apply emits_nil]. }
  cbn [snd]. destruct (Nat.eqb_spec n 0); [lia|].
  destruct (write_frames_writes (chunks n (b :: data))) as (enc & Hwr & Hf).
  { eapply Forall_impl; [by apply (chunks_bounds n (b :: data))|]. intros c Hc. cbn in Hc. lia. }
  rewrite concat_chunks in Hf by lia. destruct (Hwr w Hw) as (w' & Hrun & He & Hr).
  exists (w', n). unfold on_fst. cbn [fst snd]. rewrite Hrun. split_and!; [done| |done].
  split; [done|]. by exists enc.
Qed.
End writer.

#[export, program] Instance multiplexed_writer_laws {W} `{WriteLaws W} : WriteLaws (W * nat) :=
  {| ready := mux_ready; emits := mux_emits |}.
Next Obligation.
  intros W HW HL w. split; [done|]. exists []. split; [constructor|apply emits_nil].
Qed.
Next Obligation.
  intros W HW HL w1 w2 w3 bs1 bs2 [Hn1 (e1 & Hf1 & He1)] [Hn2 (e2 & Hf2 & He2)].
  split; [congruence|]. exists (e1 ++ e2). split; [by apply framed_app|].
  by eapply emits_app.
Qed.
Next Obligation. intros W HW HL w bs. apply mux_write_emits. Qed.
Next Obligation.
  intros W HW HL [w n] (Hw & Hn & Hmax). destruct (flush_emits w Hw) as (w' & Hrun & He & Hr).
  exists (w', n). cbn. unfold on_fst. cbn. rewrite Hrun. split_and!; [done| |done].
  split; [done|]. exists []. split; [constructor|done].
Qed.

(** ** Fuel *)

Section fuel.
Context {R : Type} `{ReadLaws R}.

Lemma handle_message_budget tag payload (p : MultiplexReadState * R) u p' :
  handle_message tag payload p = (Ok u, p') → mux_budget p' = mux_budget p.
Proof.
  unfold handle_message. cbv zeta. repeat (case_match; [done|]).
  case_bool_decide; by intros [= <- <-].
Qed.

Lemma payload_budget n (p p' : MultiplexReadState * R) payload :
  (if (0 <? n)%nat then on_snd (read_exact n) else mret []) p = (Ok payload, p') →
  (mux_budget p' ≤ mux_budget p)%nat.
Proof.
  destruct (0 <? n)%nat; [|by intros [= _ <-]].
  intros [_ Hb]%on_snd_read_budget. lia.
Qed.

Lemma next_frame_fuel f1 f2 (p : MultiplexReadState * R) :
  (mux_budget p < f1)%nat → (mux_budget p < f2)%nat →
  next_frame_loop f1 p = next_frame_loop f2 p.
Proof.
  revert f2 p. induction f1 as [|f1 IH]; intros [|f2] p H1 H2; try lia.
  cbn [next_frame_loop]. apply bind_ext_ok. intros header p1 [_ Hh]%on_snd_read_budget.
  cbv zeta. destruct (Z.shiftr _ _ =? _); [done|].
  apply bind_ext_ok. intros payload p2 Hp%payload_budget.
  apply bind_ext_ok. intros u p3 Hm%handle_message_budget. apply IH; lia.
Qed.

Lemma read_frame_budget (p : MultiplexReadState * R) u p' :
  (if (remaining p.1 =? 0)%nat then read_next_multiplex_frame else mret ()) p = (Ok u, p') →
  (mux_budget p' < mux_budget p)%nat ∨ p' = p ∧ remaining p.1 ≠ 0%nat.
Proof.
  destruct (Nat.eqb_spec (remaining p.1) 0).
  - intros Hb%next_frame_loop_budget. by left.
  - intros [= _ <-]. by right.
Qed.

Lemma fill_loop_fuel f1 f2 n (p : MultiplexReadState * R) :
  (mux_budget p < f1)%nat → (mux_budget p < f2)%nat → fill_loop f1 n p = fill_loop f2 n p.
Proof.
  revert f2 n p. induction f1 as [|f1 IH]; intros [|f2] [|n] p H1 H2; try lia; try done.
  cbn [fill_loop]. apply bind_ext_ok. intros st p0 [= <- Hp0].
  assert (p0 = p) as -> by (by destruct p). clear Hp0.
  apply bind_ext_ok. intros u p1 Hframe%read_frame_budget.
  apply bind_ext_ok. intros st p2 [= <- Hp2].
  assert (p2 = p1) as -> by (by destruct p1). clear Hp2.
  destruct (Nat.eqb_spec (remaining p1.1) 0) as [Hz|Hz].
  - destruct Hframe as [Hlt|[-> Hne]]; [apply IH; lia|done].
  - assert (Hle : (mux_budget p1 ≤ mux_budget p)%nat) by (destruct Hframe as [|[-> _]]; lia).
    apply bind_ext_ok. intros bytes p3 [Hlen Hb]%on_snd_read_budget.
    apply bind_ext_ok. intros v p4 [= _ <-]. unfold mbind, M_bind.
    rewrite (IH f2); [done| |]; unfold mux_budget in *; cbn in *; lia.
Qed.
End fuel.

(** ** Properties *)

(** One data frame: the length of its payload in three bytes, the tag, the payload. *)
Definition data_frame (payload : list Z) : list Z :=
  let len := Z.of_nat (length payload) in
  [len mod 256; len / 256 mod 256; len / 65536 mod 256; RSYNC_MULTIPLEX_DATA_TAG] ++ payload.

(** The bytes of [frames], with messages of the peer that are no errors before, between
    and after them. *)
Inductive among_messages : list (list Z) → list Z → Prop :=
| no_more_frames : among_messages [] []
| next_frame payload frames wire :
    among_messages frames wire → among_messages (payload :: frames) (data_frame payload ++ wire)
| next_message tag payload frames wire :
    8 < tag < 256 → Z.of_nat (length payload) < 2 ^ 24 → among_messages frames wire →
    among_messages frames (frame_header tag (Z.of_nat (length payload)) ++ payload ++ wire).

(** Reads of the given sizes, one after the other. *)
Fixpoint read_pieces {R} `{Read R} (sizes : list nat) : M R io_error (list (list Z)) :=
  match sizes with
  | [] => mret []
  | size :: sizes =>
      piece ← read_exact size; pieces ← read_pieces sizes; mret (piece :: pieces)
  end.

Lemma data_frame_header payload :
  Z.of_nat (length payload) < 2 ^ 24 →
  frame_header RSYNC_MULTIPLEX_DATA_TAG (Z.of_nat (length payload)) ++ payload = data_frame payload.
Proof.
  intros Hlen. unfold data_frame. f_equal. unfold frame_header, RSYNC_MULTIPLEX_DATA_TAG.
  pose proof (Nat2Z.is_nonneg (length payload)) as Hpos. revert Hlen Hpos.
  generalize (Z.of_nat (length payload)). intros len Hlen Hpos. cbn [le_encode].
  rewrite !Z.div_div by lia. change (256 * 256) with 65536. change (65536 * 256) with (2 ^ 24).
  assert (Hpart : ∀ k m, 0 < k → 7 * 2 ^ 24 = m * k → (7 * 2 ^ 24 + len) / k = len / k + m)
    by (intros k m Hk ->; by rewrite Z.add_comm, Z.div_add by lia).
  rewrite (Hpart 256 (7 * 65536)), (Hpart 65536 (7 * 256)), (Hpart (2 ^ 24) 7) by (lia || done).
  rewrite (Z.div_small len (2 ^ 24)) by lia.
  replace (7 * 2 ^ 24 + len) with (len + 7 * 65536 * 256) by lia.
  rewrite Z.mod_add by lia. change (7 * 65536) with (7 * 256 * 256). rewrite !Z.mod_add by lia. done.
Qed.

Definition frame_sized (payload : list Z) : Prop :=
  (0 < length payload)%nat ∧ Z.of_nat (length payload) < 2 ^ 24.

Lemma among_messages_framed frames wire :
  among_messages frames wire → Forall frame_sized frames → framed 0 wire (concat frames).
Proof.
  induction 1 as [|payload frames wire _ IH|tag payload frames wire Htag Hlen _ IH]; intros Hall.
  - constructor.
  - apply Forall_cons in Hall as [[Hpos Hlen] Hall]. rewrite <-data_frame_header by done.
    by apply framed_one; auto.
  - by apply framed_message; auto.
Qed.

Lemma among_no_messages frames : among_messages frames (concat (data_frame <$> frames)).
Proof. induction frames as [|payload frames IH]; by constructor. Qed.

Section written.
Context {W : Type} `{WriteLaws W}.

Lemma frames_written frames :
  Forall frame_sized frames →
  writes (W := W) (for_each write_multiplex_data_frame frames) (concat (data_frame <$> frames)) ().
Proof.
  induction 1 as [|payload frames [Hpos Hlen] _ IH]; [apply writes_ret|].
  cbn [for_each fmap list_fmap concat]. eapply writes_bind; [|exact IH].
  rewrite <-data_frame_header by done. by apply write_frame_writes.
Qed.

Lemma chunks_sized n bytes :
  (0 < n)%nat → Z.of_nat n < 2 ^ 24 → Forall frame_sized (chunks n bytes).
Proof.
  intros Hn Hmax. eapply Forall_impl; [by apply chunks_bounds|].
  intros payload Hp. cbn in Hp. unfold frame_sized. lia.
Qed.

Lemma pieces_written n bufs : ∀ w : W,
  (0 < n)%nat → Z.of_nat n < 2 ^ 24 → ready w →
  ∃ w', for_each write_all bufs (w, n) = (Ok (), (w', n)) ∧ ready w' ∧
    emits w (concat (data_frame <$> concat (chunks n <$> bufs))) w'.
Proof.
  induction bufs as [|buf bufs IH]; intros w Hn Hmax Hw.
  { exists w. split_and!; [done|done|apply emits_nil]. }
  assert (Hone : ∃ w1, write_all buf (w, n) = (Ok (E := io_error) (), (w1, n)) ∧ ready w1 ∧
    emits w (concat (data_frame <$> chunks n buf)) w1).
  { cbn [write_all multiplexed_writer]. unfold multiplexed_write. destruct buf as [|b buf]; [exists w; split_and!; [done|done|apply emits_nil]|].
    cbn [snd]. rewrite (proj2 (Nat.eqb_neq n 0)) by lia. unfold on_fst. cbn [fst snd].
    destruct (frames_written _ (chunks_sized n (b :: buf) Hn Hmax) w Hw) as (w1 & Hrun & He & Hw1).
    exists w1. by rewrite Hrun. }
  destruct Hone as (w1 & Hrun1 & Hw1 & He1).
  destruct (IH w1 Hn Hmax Hw1) as (w2 & Hrun2 & Hw2 & He2). exists w2. split_and!; [|done|].
  - cbn [for_each]. by rewrite (bind_ok _ _ _ _ _ Hrun1).
  - rewrite fmap_cons. cbn [concat]. rewrite fmap_app, concat_app. by eapply emits_app.
Qed.
End written.

Lemma pieces_read {R} `{ReadLaws R} sizes : ∀ (p : MultiplexReadState * R) data,
  avail p data → (sum_list sizes ≤ length data)%nat →
  ∃ pieces p', read_pieces sizes p = (Ok pieces, p') ∧ length <$> pieces = sizes ∧
    concat pieces = take (sum_list sizes) data ∧ avail p' (drop (sum_list sizes) data).
Proof.
  induction sizes as [|size sizes IH]; intros p data Ha Hlen; [by exists [], p|].
  change (size + sum_list sizes ≤ length data)%nat in Hlen. rewrite <-(take_drop size data) in Ha.
  destruct (read_exact_avail p _ _ Ha) as (p1 & Hrun1 & Ha1).
  rewrite length_take, Nat.min_l in Hrun1 by (cbn in *; lia).
  destruct (IH p1 (drop size data) Ha1) as (pieces & p2 & Hrun2 & Hsizes & Hbytes & Ha2);
    [rewrite length_drop; cbn in *; lia|].
  exists (take size data :: pieces), p2. cbn [read_pieces]. rewrite (bind_ok _ _ _ _ _ Hrun1).
  rewrite (bind_ok _ _ _ _ _ Hrun2). rewrite drop_drop in Ha2. split_and!; [done| | |done].
  - rewrite fmap_cons, Hsizes, length_take, Nat.min_l by (cbn in *; lia). done.
  - cbn [concat sum_list]. rewrite Hbytes. by rewrite take_take_drop.
Qed.

(** C15. What is written through a [MultiplexedWriter], buffer by buffer with any legal
    frame size, goes out as data frames of at most that size, in order; and a fresh
    [MultiplexedReader] that gets those frames, with whatever messages of the peer before,
    between and after them that are no errors, gives the same bytes to reads of any sizes,
    which need not fall on the ends of the buffers or of the frames. *)
Theorem multiplexed_writes_are_read {R} `{ReadLaws R} {W} `{WriteLaws W}
    (bufs : list (list Z)) (n : nat) (w : W) :
  (0 < n)%nat → Z.of_nat n < 2 ^ 24 → ready w →
  let frames := concat (chunks n <$> bufs) in
  (∃ w' w'', for_each write_all bufs (w, n) = (Ok (), (w', n)) ∧
     flush (w', n) = (Ok (), (w'', n)) ∧ emits w (concat (data_frame <$> frames)) w'') ∧
  ∀ (r : R) wire more sizes, among_messages frames wire → avail r (wire ++ more) →
    (sum_list sizes ≤ length (concat bufs))%nat →
    ∃ pieces p, read_pieces sizes (mux_start, r) = (Ok pieces, p) ∧
      length <$> pieces = sizes ∧ concat pieces = take (sum_list sizes) (concat bufs).
Proof.
  intros Hn Hmax Hw frames. split.
  - destruct (pieces_written n bufs w Hn Hmax Hw) as (w' & Hrun & Hw' & He).
    destruct (flush_emits w' Hw') as (w'' & Hflush & He' & _). exists w', w''. split_and!; [done| |].
    + cbn. unfold on_fst. cbn. by rewrite Hflush.
    + rewrite <-(app_nil_r (concat _)). by eapply emits_app.
  - intros r wire more sizes Hwire Ha Hsizes.
    assert (Hframes : concat frames = concat bufs ∧ Forall frame_sized frames).
    { clear Hwire Hsizes. unfold frames. induction bufs as [|buf bufs' [IH1 IH2]]; [done|].
      rewrite fmap_cons. cbn [concat]. rewrite concat_app, IH1, concat_chunks by done.
      split; [done|]. apply Forall_app. split; [by apply chunks_sized|done]. }
    destruct Hframes as [Hbytes Hsized].
    destruct (pieces_read sizes (mux_start, r) (concat bufs)) as (pieces & p & Hrun & Hl & Hc & _);
      [|done|by exists pieces, p].
    exists wire, more. split; [|done]. cbn [fst remaining mux_start]. rewrite <-Hbytes.
    by apply among_messages_framed.
Qed.

(** Two buffers in frames of three bytes, with a message between them, read in pieces of
    one, four and two bytes. *)
Lemma multiplexed_writes_are_read_witness :
  (∃ w' w'', for_each write_all [[1; 2; 3; 4]; [5; 6; 7]] ([] : list Z, 3%nat) = (Ok (), (w', 3%nat)) ∧
     flush (w', 3%nat) = (Ok (), (w'', 3%nat)) ∧
     w'' = [3; 0; 0; 7; 1; 2; 3; 1; 0; 0; 7; 4; 3; 0; 0; 7; 5; 6; 7]) ∧
  ∃ pieces p, read_pieces [1; 4; 2]%nat (mux_start,
      [3; 0; 0; 7; 1; 2; 3; 1; 0; 0; 7; 4] ++ [2; 0; 0; 9; 104; 105] ++ [3; 0; 0; 7; 5; 6; 7]) =
      (Ok pieces, p) ∧
    length <$> pieces = [1; 4; 2]%nat ∧ concat pieces = [1; 2; 3; 4; 5; 6; 7].
Proof.
  destruct (multiplexed_writes_are_read (R := list Z) (W := list Z) [[1; 2; 3; 4]; [5; 6; 7]] 3 [])
    as [(w' & w'' & Hw & Hflush & He) Hread]; [lia|lia|done|].
  split; [exists w', w''; split; [exact Hw|split; [exact Hflush|exact He]]|].
  apply (Hread _ ([3; 0; 0; 7; 1; 2; 3; 1; 0; 0; 7; 4] ++ [2; 0; 0; 9; 104; 105] ++ [3; 0; 0; 7; 5; 6; 7])
    [] [1; 4; 2]%nat); [|reflexivity|cbn; lia].
  apply (next_frame [1; 2; 3]), (next_frame [4]), (next_message 9 [104; 105]); [lia|reflexivity|].
  apply (next_frame [5; 6; 7] []), no_more_frames.
Defined.

(** A multiplexed connection is transparent: whatever a program sends
    through a [MultiplexedWriter] (in frames of any legal size), a program that
    reads those bytes back through a fresh [MultiplexedReader] gets, so every
    codec that round-trips on plain streams does so on multiplexed ones. *)
Theorem multiplex_transparent {R} `{ReadLaws R} {W} `{WriteLaws W} {E E' A}
    (send : M (W * nat) E unit) (receive : M (MultiplexReadState * R) E' A) a n (w : W) :
  coupled send receive a → (0 < n)%nat → Z.of_nat n < 2 ^ 24 → ready w →
  ∃ w' enc, send (w, n) = (Ok (), (w', n)) ∧ emits w enc w' ∧
    ∀ (r : R) more, avail r (enc ++ more) →
      ∃ p, receive (mux_start, r) = (Ok a, p) ∧ mux_avail p [].
Proof.
  intros (data & Hw & Hr) Hn Hmax Hready.
  destruct (Hw (w, n)) as ([w' n'] & Hrun & [Hn' (enc & Hf & He)] & _); [by split_and!|].
  cbn in *. subst n'. exists w', enc. split_and!; [done|done|].
  intros r more Ha. apply (Hr (mux_start, r) []). rewrite app_nil_r. by exists enc, more.
Qed.

Lemma multiplex_transparent_witness :
  ∃ w' enc, write_i32_le (W:=list Z * nat) 70000 ([], 3%nat) = (Ok (), (w', 3%nat)) ∧
    emits [] enc w' ∧
    ∀ r more, avail (R:=list Z) r (enc ++ more) →
      ∃ p, read_multiplexed_i32 (mux_start, r) = (Ok 70000, p) ∧ mux_avail p [].
Proof.
  apply (multiplex_transparent (write_i32_le 70000) read_multiplexed_i32 70000 3 []);
    [|lia|lia|done].
  apply (coupled_i32_le 70000).
Defined.

(** The reader delivers exactly the data the frames carry, wherever
    the frame boundaries and however many messages lie in between, stays in step
    with the frames, and never runs out of the fuel its loops are given: more
    fuel gives the same run. *)
Theorem multiplexed_read_delivers {R} `{ReadLaws R} st (r : R) enc more bs rest :
  framed (remaining st) enc (bs ++ rest) → avail r (enc ++ more) →
  (∃ st' r' enc', multiplexed_read (length bs) (st, r) = (Ok bs, (st', r')) ∧
     framed (remaining st') enc' rest ∧ avail r' (enc' ++ more)) ∧
  (∀ fuel n, (budget r < fuel)%nat → fill_loop fuel n (st, r) = multiplexed_read n (st, r)).
Proof.
  intros Hf Ha. split.
  - apply (fill_loop_spec _ st r enc more bs rest Hf Ha). cbn. lia.
  - intros fuel n Hfuel. apply fill_loop_fuel; unfold mux_budget; cbn; lia.
Qed.

Definition sample_frames : list Z :=
  [1; 0; 0; 7; 65; 2; 0; 0; 9; 104; 105; 2; 0; 0; 7; 66; 67].

Lemma multiplexed_read_delivers_witness :
  (∃ st' r' enc', multiplexed_read (length [65; 66; 67]) (mux_start, sample_frames) =
       (Ok [65; 66; 67], (st', r')) ∧
     framed (remaining st') enc' [] ∧ avail (R:=list Z) r' (enc' ++ [])) ∧
  (∀ fuel n, (budget sample_frames < fuel)%nat →
     fill_loop fuel n (mux_start, sample_frames) = multiplexed_read n (mux_start, sample_frames)).
Proof.
  apply (multiplexed_read_delivers mux_start sample_frames sample_frames []
    [65; 66; 67] []); [|reflexivity].
  apply (framed_frame 1 ([65] ++ _)); [reflexivity|].
  apply (framed_data 1 [65] _ [66; 67]); [lia|reflexivity|].
  apply (framed_message 9 [104; 105] (frame_header 7 2 ++ [66; 67])); [lia|reflexivity|].
  apply (framed_frame 2 ([66; 67] ++ [])); [reflexivity|].
  apply (framed_data 2 [66; 67] [] []); [lia|reflexivity|constructor].
Defined.

(** When a frame is due, an error message from the peer or a message
    with a tag below the data tag ends the read with an error, and no data is
    made up. *)
Theorem multiplexed_read_errors {R} `{ReadLaws R} st (r : R) tag payload more n :
  remaining st = 0%nat → (0 < n)%nat → Z.of_nat (length payload) < 2 ^ 24 →
  avail r (frame_header tag (Z.of_nat (length payload)) ++ payload ++ more) →
  0 ≤ tag < 7 ∨ tag = 8 →
  ∃ p, multiplexed_read n (st, r) =
    (Err (IoError InvalidData
       (if tag =? 8 then "remote shell emitted an rsync error message: {0}"
        else "remote shell emitted an unsupported multiplex message tag {tag} with {len} bytes")),
     p).
Proof.
  intros Hst Hn Hlen Ha Htag. destruct n as [|n]; [lia|].
  unfold multiplexed_read. cbn [fill_loop].
  rewrite (bind_ok (on_fst get) _ _ st (st, r)) by done.
  rewrite Hst. cbn [Nat.eqb].
  destruct (read_exact_avail r _ _ Ha) as (r1 & Hr1 & Ha1).
  change (length (frame_header _ _)) with 4%nat in Hr1.
  destruct (read_exact_avail r1 _ _ Ha1) as (r2 & Hr2 & Ha2).
  assert (Hpay : ∃ r2, (if (0 <? length payload)%nat
      then on_snd (read_exact (length payload)) else mret []) (st, r1) = (Ok payload, (st, r2))).
  { destruct (Nat.ltb_spec 0 (length payload)); [exists r2; by apply read_inner|].
    destruct payload; [by exists r1|cbn in *; lia]. }
  destruct Hpay as [r3 Hpay]. exists (st, r3). apply bind_err.
  unfold read_next_multiplex_frame. cbn [next_frame_loop].
  rewrite (bind_ok _ _ _ _ _ (read_inner 4 st r r1 _ Hr1)).
  destruct (frame_header_fields tag (Z.of_nat (length payload))) as [-> ->]; [lia|lia|].
  unfold RSYNC_MULTIPLEX_DATA_TAG. destruct (Z.eqb_spec tag 7); [lia|].
  rewrite Nat2Z.id, (bind_ok _ _ _ _ _ Hpay). apply bind_err.
  unfold handle_message, RSYNC_MULTIPLEX_ERROR_CODE, RSYNC_MULTIPLEX_DATA_TAG.
  destruct (Z.eqb_spec (Z.max 0 (tag - 7)) 1), (Z.eqb_spec tag 8); try lia; [done|].
  by destruct (Z.ltb_spec tag 7); [|lia].
Qed.

Lemma multiplexed_read_errors_witness :
  ∃ p, multiplexed_read 1 (mux_start, [2; 0; 0; 8; 104; 105]) =
    (Err (IoError InvalidData "remote shell emitted an rsync error message: {0}"), p).
Proof.
  apply (multiplexed_read_errors mux_start [2; 0; 0; 8; 104; 105] 8 [104; 105] [] 1);
    first [reflexivity|lia|by right].
Defined.
