(* ===== verification/Glob.v ===== *)
(** * Filter globs: crates/rsync-filter/src/matcher.rs, [glob_matches]

    In the filter components a [str] is the list of its characters.  The matcher
    works on positions of two character vectors with a memo table, as the code
    does; every recursive call moves to a later pattern position, so a fuel of
    the pattern's length is enough.

    The matcher is shown against a plain reading of the pattern: the pattern is a list of
    tokens, each token is a set of strings, and the memoised search decides
    whether the text is in their concatenation. *)

From S2P Require Import Prelude Str.

Definition normalize_step (st : list Z * bool) (c : Z) : list Z * bool :=
  let '(normalized, previous_was_separator) := st in
  let c := if c =? ch "\" then ch "/" else c in
  if c =? ch "/" then
    if previous_was_separator then (normalized, true) else (normalized ++ [c], true)
  else (normalized ++ [c], false).

Definition normalize_filter_path (path : list Z) : list Z :=
  (fold_left normalize_step path ([], false)).1.

Record CharacterClass := {
  negated : bool;
  ranges : list (Z * Z);
}.

(** The loop of [CharacterClass::parse] on the pattern from [pos] on. *)
Fixpoint class_items (rest : list Z) (pos : nat) (ranges : list (Z * Z)) (saw_item : bool) :
    option (list (Z * Z) * nat) :=
  match rest with
  | [] => None
  | c :: rest1 =>
      if (c =? ch "]") && saw_item then Some (ranges, S pos)
      else match rest1 with
      | dash :: last :: rest3 =>
          if (dash =? ch "-") && negb (last =? ch "]")
          then class_items rest3 (pos + 3) (ranges ++ [(c, last)]) true
          else class_items rest1 (S pos) (ranges ++ [(c, c)]) true
      | _ => class_items rest1 (S pos) (ranges ++ [(c, c)]) true
      end
  end.

Definition is_negation (c : option Z) : bool :=
  bool_decide (c = Some (ch "!")) || bool_decide (c = Some (ch "^")).

Definition parse_class (pattern : list Z) (open_pos : nat) : option (CharacterClass * nat) :=
  let pos := S open_pos in
  let negated := is_negation (pattern !! pos) in
  let pos := if negated then S pos else pos in
  match class_items (drop pos pattern) pos [] false with
  | Some (ranges, next) => Some ({| negated := negated; ranges := ranges |}, next)
  | None => None
  end.

Definition class_matches (self : CharacterClass) (c : Z) : bool :=
  let matched := existsb (λ r, (r.1 <=? c) && (c <=? r.2)) (ranges self) in
  negb (Bool.eqb matched (negated self)).

Definition memo := gmap (nat * nat) bool.

(** [while pattern.get(end) == Some(&'*') { end += 1 }] *)
Fixpoint star_end (rest : list Z) (pos : nat) : nat :=
  match rest with
  | c :: rest => if c =? ch "*" then star_end rest (S pos) else pos
  | [] => pos
  end.

(** The [while let] of [match_star]: [matches_from] is the recursive call. *)
Fixpoint star_loop (matches_from : nat → memo → bool * memo) (recursive : bool)
    (rest : list Z) (pos : nat) (m : memo) : bool * memo :=
  match rest with
  | [] => (false, m)
  | c :: rest =>
      if negb recursive && (c =? ch "/") then (false, m)
      else
        let '(r, m) := matches_from (S pos) m in
        if r then (true, m) else star_loop matches_from recursive rest (S pos) m
  end.

(** [cond && call] where the call updates the memo. *)
Definition and_call (cond : bool) (call : memo → bool * memo) (m : memo) : bool * memo :=
  if cond then call m else (false, m).

Fixpoint glob_matches_at (fuel : nat) (pattern : list Z) (pattern_pos : nat)
    (text : list Z) (text_pos : nat) (m : memo) : bool * memo :=
  match fuel with
  | O => (false, m)
  | S fuel =>
      match m !! (pattern_pos, text_pos) with
      | Some result => (result, m)
      | None =>
          let at_ p t := glob_matches_at fuel pattern p text t in
          let head := text !! text_pos in
          let '(result, m) :=
            match pattern !! pattern_pos with
            | None => (bool_decide (text_pos = length text), m)
            | Some c =>
                if c =? ch "*" then
                  let stop := star_end (drop pattern_pos pattern) pattern_pos in
                  let recursive := (2 <=? stop - pattern_pos)%nat in
                  let '(r, m) := at_ stop text_pos m in
                  if r then (true, m)
                  else star_loop (at_ stop) recursive (drop text_pos text) text_pos m
                else if c =? ch "?" then
                  and_call (match head with Some c => negb (c =? ch "/") | None => false end)
                    (at_ (S pattern_pos) (S text_pos)) m
                else if c =? ch "[" then
                  match parse_class pattern pattern_pos with
                  | None => and_call (bool_decide (head = Some (ch "[")))
                              (at_ (S pattern_pos) (S text_pos)) m
                  | Some (class, next_pattern_pos) =>
                      match head with
                      | None => (false, m)
                      | Some c =>
                          and_call (negb (c =? ch "/") && class_matches class c)
                            (at_ next_pattern_pos (S text_pos)) m
                      end
                  end
                else if c =? ch "\" then
                  match pattern !! S pattern_pos with
                  | None => and_call (bool_decide (head = Some (ch "\")))
                              (at_ (S pattern_pos) (S text_pos)) m
                  | Some literal =>
                      and_call (bool_decide (head = Some literal))
                        (at_ (S (S pattern_pos)) (S text_pos)) m
                  end
                else
                  and_call (bool_decide (head = Some c))
                    (at_ (S pattern_pos) (S text_pos)) m
            end in
          (result, <[(pattern_pos, text_pos) := result]> m)
      end
  end.

Definition glob_matches (pattern text : list Z) : bool :=
  let pattern := normalize_filter_path pattern in
  let text := normalize_filter_path text in
  (glob_matches_at (S (length pattern)) pattern 0 text 0 ∅).1.

Example glob_star : glob_matches (lit "src/*.rs") (lit "src/lib.rs") = true.
Proof. vm_compute. reflexivity. Qed.
Example glob_star_separator : glob_matches (lit "src/*.rs") (lit "src/nested/lib.rs") = false.
Proof. vm_compute. reflexivity. Qed.
Example glob_recursive : glob_matches (lit "src/**.rs") (lit "src/nested/lib.rs") = true.
Proof. vm_compute. reflexivity. Qed.
Example glob_class : glob_matches (lit "file[0-9!].tx?") (lit "file7.txt") = true.
Proof. vm_compute. reflexivity. Qed.

(** ** Tokens *)

Inductive token :=
| TStar (recursive : bool)
| TAny
| TClass (class : CharacterClass)
| TLit (c : Z).

Fixpoint tokens_at (fuel : nat) (pattern : list Z) (pos : nat) : list token :=
  match fuel with
  | O => []
  | S fuel =>
      match pattern !! pos with
      | None => []
      | Some c =>
          if c =? ch "*" then
            let stop := star_end (drop pos pattern) pos in
            TStar (2 <=? stop - pos)%nat :: tokens_at fuel pattern stop
          else if c =? ch "?" then TAny :: tokens_at fuel pattern (S pos)
          else if c =? ch "[" then
            match parse_class pattern pos with
            | None => TLit (ch "[") :: tokens_at fuel pattern (S pos)
            | Some (class, next) => TClass class :: tokens_at fuel pattern next
            end
          else if c =? ch "\" then
            match pattern !! S pos with
            | None => TLit (ch "\") :: tokens_at fuel pattern (S pos)
            | Some literal => TLit literal :: tokens_at fuel pattern (S (S pos))
            end
          else TLit c :: tokens_at fuel pattern (S pos)
      end
  end.

Definition tokens (pattern : list Z) (pos : nat) : list token :=
  tokens_at (S (length pattern)) pattern pos.

(** The strings a token list stands for: a star is any string without a
    separator (or any string at all, when doubled), a question mark and a class
    are one character that is no separator. *)
Inductive in_tokens : list token → list Z → Prop :=
| in_nil : in_tokens [] []
| in_star recursive ts u v :
    (recursive = false → ch "/" ∉ u) → in_tokens ts v → in_tokens (TStar recursive :: ts) (u ++ v)
| in_any ts c v : c ≠ ch "/" → in_tokens ts v → in_tokens (TAny :: ts) (c :: v)
| in_class ts class c v :
    c ≠ ch "/" → class_matches class c = true → in_tokens ts v →
    in_tokens (TClass class :: ts) (c :: v)
| in_lit ts c v : in_tokens ts v → in_tokens (TLit c :: ts) (c :: v).

(** A direct decision procedure for that set. *)
Fixpoint star_match (later : list Z → bool) (recursive : bool) (text : list Z) : bool :=
  later text ||
  match text with
  | [] => false
  | c :: text => if negb recursive && (c =? ch "/") then false
                 else star_match later recursive text
  end.

Fixpoint tok_match (ts : list token) (text : list Z) : bool :=
  match ts with
  | [] => bool_decide (text = [])
  | TStar recursive :: ts => star_match (tok_match ts) recursive text
  | TAny :: ts =>
      match text with c :: text => negb (c =? ch "/") && tok_match ts text | [] => false end
  | TClass class :: ts =>
      match text with
      | c :: text => negb (c =? ch "/") && class_matches class c && tok_match ts text
      | [] => false
      end
  | TLit l :: ts =>
      match text with c :: text => (c =? l) && tok_match ts text | [] => false end
  end.

Lemma star_match_spec (later : list Z → bool) recursive text :
  star_match later recursive text = true ↔
  ∃ u v, text = u ++ v ∧ (recursive = false → ch "/" ∉ u) ∧ later v = true.
Proof.
  induction text as [|c text IH]; cbn [star_match].
  - rewrite orb_false_r. split.
    + intros Hl. exists [], []. split_and!; [done|by intros _ ?%elem_of_nil|done].
    + intros (u & v & Heq & _ & Hl). symmetry in Heq. by apply app_nil in Heq as [-> ->].
  - rewrite orb_true_iff. split.
    + intros [Hl|Hstar].
      { exists [], (c :: text). split_and!; [done|by intros _ ?%elem_of_nil|done]. }
      destruct (negb recursive && (c =? ch "/")) eqn:Hc; [done|].
      apply IH in Hstar as (u & v & -> & Hu & Hl). exists (c :: u), v.
      split_and!; [done| |done]. intros Hr [Heq|Hin]%elem_of_cons; [|by apply Hu].
      subst recursive c. by rewrite Z.eqb_refl in Hc.
    + intros ([|c' u] & v & Heq & Hu & Hl); cbn in Heq.
      { left. by subst v. }
      injection Heq as -> ->. right.
      assert (Hc : negb recursive && (c' =? ch "/") = false).
      { destruct recursive; [done|]. cbn. apply Z.eqb_neq. intros ->.
        apply Hu; [done|apply elem_of_cons; by left]. }
      rewrite Hc. apply IH. exists u, v. split_and!; [done| |done].
      intros Hr Hin. apply (Hu Hr), elem_of_cons. by right.
Qed.

Lemma tok_match_spec ts text : tok_match ts text = true ↔ in_tokens ts text.
Proof.
  revert text. induction ts as [|[r| |class|l] ts IH]; intros text; cbn [tok_match].
  - rewrite bool_decide_eq_true. split; [intros ->; constructor|by inversion 1].
  - rewrite star_match_spec. split.
    + intros (u & v & -> & Hu & Hv). constructor; [done|by apply IH].
    + inversion 1; subst. eexists _, _. split_and!; [done|done|by apply IH].
  - destruct text as [|c text]; [by split; [|inversion 1]|].
    rewrite andb_true_iff, negb_true_iff, Z.eqb_neq, IH.
    split; [intros [??]; by constructor|by inversion 1].
  - destruct text as [|c text]; [by split; [|inversion 1]|].
    rewrite !andb_true_iff, negb_true_iff, Z.eqb_neq, IH.
    split; [intros [[??] ?]; by constructor|by inversion 1].
  - destruct text as [|c text]; [by split; [|inversion 1]|].
    rewrite andb_true_iff, Z.eqb_eq, IH.
    split; [intros [-> ?]; by constructor|by inversion 1].
Qed.

(** ** Positions move forward *)

Lemma star_end_ge rest pos : (pos ≤ star_end rest pos)%nat.
Proof.
  revert pos. induction rest as [|c rest IH]; intros pos; cbn; [lia|].
  destruct (c =? ch "*"); [|lia]. specialize (IH (S pos)). lia.
Qed.

Lemma star_end_gt pattern pos c :
  pattern !! pos = Some c → c = ch "*" → (pos < star_end (drop pos pattern) pos)%nat.
Proof.
  intros Hc ->. rewrite (drop_S _ _ _ Hc). cbn [star_end]. rewrite Z.eqb_refl.
  pose proof (star_end_ge (drop (S pos) pattern) (S pos)). lia.
Qed.

Lemma class_items_ge rest pos rs saw rs' next :
  class_items rest pos rs saw = Some (rs', next) → (pos < next)%nat.
Proof.
  remember (length rest) as n eqn:Hn. revert rest pos rs saw Hn.
  induction n as [n IH] using lt_wf_ind. intros rest pos rs saw Hn.
  destruct rest as [|c rest]; cbn [class_items]; [done|].
  destruct ((c =? ch "]") && saw); [intros; simplify_eq; lia|].
  cbn in Hn.
  destruct rest as [|dash [|last rest]]; try (intros Hgo; apply (IH (length rest)) in Hgo; cbn in *; lia).
  - intros Hgo. eapply (IH 0%nat) in Hgo; cbn in *; lia.
  - intros Hgo. eapply (IH 1%nat) in Hgo; cbn in *; lia.
  - destruct ((dash =? ch "-") && negb (last =? ch "]")); intros Hgo.
    + eapply (IH (length rest)) in Hgo; cbn in *; lia.
    + eapply (IH (length (dash :: last :: rest))) in Hgo; cbn in *; lia.
Qed.

Lemma parse_class_gt pattern pos class next :
  parse_class pattern pos = Some (class, next) → (pos < next)%nat.
Proof.
  unfold parse_class. destruct (class_items _ _ _ _) as [[rs n]|] eqn:Hc; [|done].
  intros ?; simplify_eq. apply class_items_ge in Hc.
  destruct (is_negation _); lia.
Qed.

Lemma tokens_fuel f1 f2 pattern pos :
  (length pattern - pos < f1)%nat → (length pattern - pos < f2)%nat →
  tokens_at f1 pattern pos = tokens_at f2 pattern pos.
Proof.
  revert f2 pos. induction f1 as [|f1 IH]; intros [|f2] pos H1 H2; try lia.
  cbn [tokens_at]. destruct (pattern !! pos) as [c|] eqn:Hc; [|done].
  pose proof (lookup_lt_Some _ _ _ Hc) as Hlt.
  destruct (Z.eqb_spec c (ch "*")) as [Hs|].
  { pose proof (star_end_gt _ _ _ Hc Hs). f_equal. apply IH; lia. }
  destruct (c =? ch "?"); [f_equal; apply IH; lia|].
  destruct (c =? ch "[").
  { destruct (parse_class pattern pos) as [[class next]|] eqn:Hp; f_equal; try (apply IH; lia).
    apply parse_class_gt in Hp. apply IH; lia. }
  destruct (c =? ch "\"); [destruct (pattern !! S pos)|]; f_equal; apply IH; lia.
Qed.

Lemma tokens_unfold fuel pattern pos :
  (length pattern - pos < fuel)%nat → tokens pattern pos = tokens_at fuel pattern pos.
Proof. intros Hf. apply tokens_fuel; lia. Qed.

(** ** The memoised search *)

Section search.
Context (pattern text : list Z).

Definition spec (p t : nat) : bool := tok_match (tokens pattern p) (drop t text).

(** Every stored answer is right. *)
Definition memo_ok (m : memo) : Prop :=
  ∀ p t b, m !! (p, t) = Some b → (t ≤ length text)%nat → b = spec p t.

Definition answers (r : bool * memo) (b : bool) : Prop := r.1 = b ∧ memo_ok r.2.

Lemma memo_insert m p t b :
  memo_ok m → ((t ≤ length text)%nat → b = spec p t) → memo_ok (<[(p, t) := b]> m).
Proof.
  intros Hm Hb p' t' b' [[[= -> ->] <-]|[_ Hl]]%lookup_insert_Some Ht; [by apply Hb|].
  by apply Hm.
Qed.

Lemma and_call_answers cond call m b :
  memo_ok m → (cond = true → answers (call m) b) → answers (and_call cond call m) (cond && b).
Proof. intros Hm Hc. unfold and_call. destruct cond; [by apply Hc|done]. Qed.

(** The rest of the text at [t]. *)
Lemma drop_head t c : text !! t = Some c → drop t text = c :: drop (S t) text.
Proof. apply drop_S. Qed.

Lemma drop_none t : text !! t = None → drop t text = [].
Proof. intros Ht%lookup_ge_None. by apply drop_ge. Qed.

Lemma star_loop_answers stop recursive (call : nat → memo → bool * memo) :
  (∀ t m, (t ≤ length text)%nat → memo_ok m → answers (call t m) (spec stop t)) →
  ∀ rest t m, drop t text = rest → memo_ok m →
  answers (star_loop call recursive rest t m)
    (match rest with
     | [] => false
     | c :: rest => if negb recursive && (c =? ch "/") then false
                    else star_match (tok_match (tokens pattern stop)) recursive rest
     end).
Proof.
  intros Hcall rest. induction rest as [|c rest IH]; intros t m Hrest Hm; [done|].
  cbn [star_loop]. destruct (negb recursive && (c =? ch "/")); [done|].
  assert (Ht : (t < length text)%nat).
  { destruct (decide (t < length text)%nat); [done|]. by rewrite drop_ge in Hrest by lia. }
  assert (Hnext : drop (S t) text = rest).
  { destruct (lookup_lt_is_Some_2 text t Ht) as [x Hx].
    rewrite (drop_S _ _ _ Hx) in Hrest. by injection Hrest. }
  destruct (Hcall (S t) m) as [Hr Hm']; [lia|done|].
  destruct (call (S t) m) as [r m'] eqn:Hc. cbn [fst snd] in Hr, Hm'. subst r.
  unfold spec. rewrite Hnext.
  destruct (tok_match (tokens pattern stop) rest) eqn:Htok.
  - split; [|done]. by destruct rest; cbn [star_match]; rewrite Htok.
  - destruct rest as [|c' rest']; cbn [star_match]; rewrite Htok; cbn [orb].
    + by apply (IH (S t) m').
    + by apply (IH (S t) m').
Qed.

(** A step that takes one character of the text. *)
Lemma head_call_answers (cond : Z → bool) call (f : list Z → bool) t m :
  memo_ok m →
  (∀ m, (S t ≤ length text)%nat → memo_ok m → answers (call m) (f (drop (S t) text))) →
  answers (and_call (match text !! t with Some c => cond c | None => false end) call m)
    (match drop t text with c :: rest => cond c && f rest | [] => false end).
Proof.
  intros Hm Hcall. destruct (text !! t) as [c|] eqn:Hc.
  - rewrite (drop_S _ _ _ Hc). apply and_call_answers; [done|]. intros _.
    apply Hcall; [|done]. by apply lookup_lt_Some in Hc.
  - apply lookup_ge_None in Hc. by rewrite drop_ge.
Qed.

Lemma head_is l (o : option Z) :
  bool_decide (o = Some l) = match o with Some c => c =? l | None => false end.
Proof.
  destruct o as [c|]; [|by apply bool_decide_eq_false].
  destruct (Z.eqb_spec c l) as [->|Hne]; [by apply bool_decide_eq_true|].
  apply bool_decide_eq_false. congruence.
Qed.

(** One step of the search, the recursive calls answered. *)
Lemma glob_matches_at_answers fuel : ∀ p t m,
  (length pattern - p < fuel)%nat → (t ≤ length text)%nat → memo_ok m →
  answers (glob_matches_at fuel pattern p text t m) (spec p t).
Proof.
  induction fuel as [|fuel IH]; intros p t m Hfuel Ht Hm; [lia|].
  cbn [glob_matches_at]. destruct (m !! (p, t)) as [b|] eqn:Hmemo.
  { split; [by apply Hm|done]. }
  match goal with |- answers (let '(_, _) := ?body in _) _ =>
    enough (Hbody : answers body (spec p t));
    [destruct body as [b m']; destruct Hbody as [Hb Hm']; cbn [fst snd] in *; subst b;
     split; [done|]; by apply memo_insert|] end.
  unfold spec. rewrite (tokens_unfold (S fuel)) by done. cbn [tokens_at].
  assert (Hcall : ∀ p' t' m', (p < p')%nat → (t' ≤ length text)%nat → memo_ok m' →
    (p < length pattern)%nat →
    answers (glob_matches_at fuel pattern p' text t' m')
      (tok_match (tokens_at fuel pattern p') (drop t' text))).
  { intros p' t' m' Hp' Ht' Hm' Hp. rewrite <-(tokens_unfold fuel) by lia.
    apply IH; [lia|done|done]. }
  destruct (pattern !! p) as [c|] eqn:Hc.
  2: { split; [|done]. cbn. case_bool_decide as Hl; symmetry.
       - apply bool_decide_eq_true. subst t. by apply drop_ge.
       - apply bool_decide_eq_false. intros Hd. apply (f_equal length) in Hd.
         rewrite length_drop in Hd. cbn in Hd. lia. }
  pose proof (lookup_lt_Some _ _ _ Hc) as Hp.
  destruct (Z.eqb_spec c (ch "*")) as [Hs|].
  { pose proof (star_end_gt _ _ _ Hc Hs) as Hstop.
    set (stop := star_end (drop p pattern) p) in *. cbn [tok_match].
    destruct (Hcall stop t m) as [Hr Hm']; [done|done|done|done|].
    destruct (glob_matches_at fuel pattern stop text t m) as [r m'] eqn:Hrun.
    cbn [fst snd] in Hr, Hm'. subst r.
    destruct (tok_match (tokens_at fuel pattern stop) (drop t text)) eqn:Htok.
    { split; [|done]. destruct (drop t text); cbn [star_match]; by rewrite Htok. }
    assert (Hloop := star_loop_answers stop (2 <=? stop - p)%nat
      (λ t0 m0, glob_matches_at fuel pattern stop text t0 m0)).
    unfold spec in Hloop. rewrite (tokens_unfold fuel) in Hloop by lia.
    specialize (Hloop (λ t0 m0 Ht0 Hm0, Hcall stop t0 m0 Hstop Ht0 Hm0 Hp)
      (drop t text) t m' eq_refl Hm').
    destruct (drop t text) as [|c' rest]; cbn [star_match]; by rewrite Htok. }
  destruct (c =? ch "?").
  { apply (head_call_answers (λ c, negb (c =? ch "/"))); [done|]. intros; apply Hcall; lia || done. }
  destruct (c =? ch "[").
  { destruct (parse_class pattern p) as [[class next]|] eqn:Hclass.
    - apply parse_class_gt in Hclass.
      assert (Hgo := head_call_answers (λ c, negb (c =? ch "/") && class_matches class c)
        (glob_matches_at fuel pattern next text (S t)) (tok_match (tokens_at fuel pattern next))
        t m Hm (λ m0 Ht0 Hm0, Hcall next (S t) m0 Hclass Ht0 Hm0 Hp)).
      cbn [tok_match]. by destruct (text !! t).
    - rewrite head_is. apply (head_call_answers (λ c, c =? ch "[")); [done|].
      intros; apply Hcall; lia || done. }
  destruct (c =? ch "\").
  { destruct (pattern !! S p) as [literal|] eqn:Hnext; rewrite head_is.
    - apply (head_call_answers (λ c, c =? literal)); [done|]. intros; apply Hcall; lia || done.
    - apply (head_call_answers (λ c, c =? ch "\")); [done|]. intros; apply Hcall; lia || done. }
  rewrite head_is. apply (head_call_answers (λ c0, c0 =? c)); [done|].
  intros; apply Hcall; lia || done.
Qed.

Lemma memo_empty : memo_ok ∅.
Proof.
  intros p t b Hl. change ((∅ : gmap (nat * nat) bool) !! (p, t) = Some b) in Hl.
  by rewrite lookup_empty in Hl.
Qed.
End search.

Lemma glob_matches_spec pattern text :
  glob_matches pattern text = true ↔
  in_tokens (tokens (normalize_filter_path pattern) 0) (normalize_filter_path text).
Proof.
  unfold glob_matches. rewrite <-tok_match_spec.
  destruct (glob_matches_at_answers (normalize_filter_path pattern) (normalize_filter_path text)
    (S (length (normalize_filter_path pattern))) 0 0 ∅) as [-> _];
    [lia|lia|apply memo_empty|]. unfold spec. by rewrite drop_0.
Qed.

(** ** Path normalisation *)

Fixpoint normalized (previous_was_separator : bool) (path : list Z) : list Z :=
  match path with
  | [] => []
  | c :: path =>
      let c := if c =? ch "\" then ch "/" else c in
      if c =? ch "/" then
        if previous_was_separator then normalized true path else c :: normalized true path
      else c :: normalized false path
  end.

Lemma normalize_fold path acc b :
  (fold_left normalize_step path (acc, b)).1 = acc ++ normalized b path.
Proof.
  revert acc b. induction path as [|c path IH]; intros acc b; cbn [fold_left normalized].
  - by rewrite app_nil_r.
  - unfold normalize_step at 2. cbv zeta.
    destruct (_ =? ch "/"); [destruct b|]; rewrite IH; rewrite <-?app_assoc; done.
Qed.

Lemma normalize_eq path : normalize_filter_path path = normalized false path.
Proof. unfold normalize_filter_path. by rewrite normalize_fold. Qed.

Lemma normalized_no_backslash b path : (ch "\") ∉ normalized b path.
Proof.
  revert b. induction path as [|c path IH]; intros b; cbn; [by apply not_elem_of_nil|].
  destruct (Z.eqb_spec c (ch "\")) as [->|Hc]; [|destruct (Z.eqb_spec c (ch "/"))].
  - change (ch "/" =? ch "/") with true. cbn iota.
    destruct b; [apply IH|]. apply not_elem_of_cons. by split; [|apply IH].
  - destruct b; [apply IH|]. apply not_elem_of_cons. split; [congruence|apply IH].
  - apply not_elem_of_cons. split; [congruence|apply IH].
Qed.

Lemma normalized_idemp b path : normalized b (normalized b path) = normalized b path.
Proof.
  revert b. induction path as [|c path IH]; intros b; cbn [normalized]; [done|].
  destruct (Z.eqb_spec c (ch "\")) as [->|Hc]; [|destruct (Z.eqb_spec c (ch "/")) as [->|Hs]].
  - change (ch "/" =? ch "/") with true. cbn iota. destruct b; [apply IH|].
    cbn [normalized]. change (ch "/" =? ch "\") with false.
    change (ch "/" =? ch "/") with true. cbn iota. by rewrite IH.
  - destruct b; [apply IH|]. cbn [normalized]. change (ch "/" =? ch "\") with false.
    change (ch "/" =? ch "/") with true. cbn iota. by rewrite IH.
  - cbn [normalized]. destruct (Z.eqb_spec c (ch "\")); [done|].
    destruct (Z.eqb_spec c (ch "/")); [done|]. by rewrite IH.
Qed.

Lemma normalize_idemp path :
  normalize_filter_path (normalize_filter_path path) = normalize_filter_path path.
Proof. rewrite !normalize_eq. apply normalized_idemp. Qed.

(** Matching does not see the spelling of the separators. *)
Lemma glob_matches_normalize pattern text :
  glob_matches (normalize_filter_path pattern) (normalize_filter_path text) =
  glob_matches pattern text.
Proof. unfold glob_matches. by rewrite !normalize_idemp. Qed.

(** A backslash is a separator already. *)
Lemma normalized_replace b path :
  normalized b (replace_char (ch "\") (ch "/") path) = normalized b path.
Proof.
  revert b. induction path as [|c path IH]; intros b; [done|].
  change (replace_char (ch "\") (ch "/") (c :: path)) with
    ((if c =? ch "\" then ch "/" else c) :: replace_char (ch "\") (ch "/") path).
  cbn [normalized]. destruct (Z.eqb_spec c (ch "\")) as [->|Hc].
  - change (ch "/" =? ch "\") with false. cbn iota. by rewrite !IH.
  - destruct (Z.eqb_spec c (ch "\")); [done|]. by rewrite !IH.
Qed.
