(* ===== verification/Filter.v ===== *)
(** * Filter rules: crates/rsync-filter/src/rule.rs and [RuleSet] of matcher.rs

    Strings are lists of characters; the bytes of a filter file are decoded where
    the code decodes them.  After the definitions, their properties. *)

From S2P Require Import Prelude Str Glob.

Inductive RuleAction :=
  Include | Exclude | Hide | Show | Protect | Risk | ClearList | Merge | DirMerge.
Inductive RuleSide := Sender | Receiver.
Inductive EntryKind := FileEntry | DirectoryEntry.

#[export] Instance RuleAction_eq_dec : EqDecision RuleAction.
Proof. solve_decision. Defined.
#[export] Instance EntryKind_eq_dec : EqDecision EntryKind.
Proof. solve_decision. Defined.

Record Pattern := {
  raw : list Z;
  body : list Z;
  anchored : bool;
  directory_only : bool;
  has_path_separator : bool;
  match_directory_prefix : option (list Z);
}.

Record Rule := {
  action : RuleAction;
  pattern : option Pattern;
  sender_side : bool;
  receiver_side : bool;
  perishable : bool;
}.

Inductive ParseRuleError :=
| EmptyRule
| MissingPattern
| EmptyPattern
| UnknownRule (rule : list Z)
| InvalidModifier (modifier : Z)
| InvalidUtf8 (offset : nat)
| UnexpectedNul (offset : nat).

#[export] Instance Pattern_eq_dec : EqDecision Pattern.
Proof. solve_decision. Defined.
#[export] Instance Rule_eq_dec : EqDecision Rule.
Proof. solve_decision. Defined.

(** ** Patterns *)

(** [while let Some(stripped) = body.strip_prefix("./") { body = stripped }] *)
Fixpoint strip_dot_slash (s : list Z) : list Z :=
  match s with
  | c1 :: c2 :: s' =>
      if (c1 =? ch ".") && (c2 =? ch "/") then strip_dot_slash s' else s
  | _ => s
  end.

Definition drop_last (s : list Z) : list Z := take (length s - 1) s.

Definition parse_pattern (input : list Z) : result Pattern ParseRuleError :=
  let raw := trim input in
  if bool_decide (raw = []) then Err MissingPattern
  else
    let body := normalize_filter_path raw in
    let anchored := starts_with body [ch "/"] in
    let body := if anchored then drop 1 body else body in
    let directory_only := ends_with body [ch "/"] in
    let body := if directory_only then drop_last body else body in
    let body := strip_dot_slash body in
    if bool_decide (body = []) then Err EmptyPattern
    else Ok {| raw := raw; body := body; anchored := anchored;
               directory_only := directory_only;
               has_path_separator := contains body (ch "/");
               match_directory_prefix := strip_suffix body (lit "/***") |}.

Definition normalize_candidate_path (path : list Z) : list Z :=
  trim_end_matches (ch "/")
    (strip_dot_slash (trim_start_matches (ch "/") (normalize_filter_path path))).

(** The path itself and what follows each separator. *)
Fixpoint suffixes_after (path : list Z) : list (list Z) :=
  match path with
  | [] => []
  | c :: path => if c =? ch "/" then path :: suffixes_after path else suffixes_after path
  end.
Definition path_suffixes (path : list Z) : list (list Z) := path :: suffixes_after path.

(** [body.contains("**")] *)
Fixpoint contains_double_star (s : list Z) : bool :=
  match s with
  | c1 :: (c2 :: _) as rest => (c1 =? ch "*") && (c2 =? ch "*") || contains_double_star rest
  | _ => false
  end.

(** [path.rsplit('/').next()] *)
Definition basename (path : list Z) : list Z := default [] (last (split_on (ch "/") path)).

Definition pattern_matches (self : Pattern) (path : list Z) (kind : EntryKind) : bool :=
  if directory_only self && bool_decide (kind ≠ DirectoryEntry) then false
  else
    let path := normalize_candidate_path path in
    if bool_decide (path = []) then false
    else if bool_decide (kind = DirectoryEntry) &&
            match match_directory_prefix self with
            | Some prefix => bool_decide (path = prefix)
            | None => false
            end then true
    else if anchored self then glob_matches (body self) path
    else if has_path_separator self || contains_double_star (body self)
    then existsb (glob_matches (body self)) (path_suffixes path)
    else glob_matches (body self) (basename path).

(** ** Rules *)

Definition default_sides (action : RuleAction) : bool * bool :=
  match action with
  | Hide | Show => (true, false)
  | Protect | Risk => (false, true)
  | Include | Exclude | ClearList | Merge | DirMerge => (true, true)
  end.

Record ModifierState := { m_sender : bool; m_receiver : bool; m_perishable : bool }.

Definition no_modifiers : ModifierState :=
  {| m_sender := false; m_receiver := false; m_perishable := false |}.

(** The sides of a rule: the modifiers' if they name any. *)
Definition rule_sides (action : RuleAction) (modifiers : ModifierState) : bool * bool :=
  if m_sender modifiers || m_receiver modifiers
  then (m_sender modifiers, m_receiver modifiers) else default_sides action.

Definition new_rule (action : RuleAction) (pattern : list Z) : result Rule ParseRuleError :=
  let '(sender_side, receiver_side) := default_sides action in
  let? p := parse_pattern pattern in
  Ok {| action := action; pattern := Some p; sender_side := sender_side;
        receiver_side := receiver_side; perishable := false |}.

Definition include := new_rule Include.
Definition exclude := new_rule Exclude.
Definition protect := new_rule Protect.
Definition risk := new_rule Risk.

Definition with_modifiers (action : RuleAction) (pattern : list Z)
    (modifiers : ModifierState) : result Rule ParseRuleError :=
  let '(sender_side, receiver_side) := rule_sides action modifiers in
  let? p := parse_pattern pattern in
  Ok {| action := action; pattern := Some p; sender_side := sender_side;
        receiver_side := receiver_side; perishable := m_perishable modifiers |}.

Definition without_pattern (action : RuleAction) (modifiers : ModifierState) : Rule :=
  let '(sender_side, receiver_side) := rule_sides action modifiers in
  {| action := action; pattern := None; sender_side := sender_side;
     receiver_side := receiver_side; perishable := m_perishable modifiers |}.

Definition short_action (marker : Z) : option RuleAction :=
  if marker =? ch "+" then Some Include
  else if marker =? ch "-" then Some Exclude
  else if marker =? ch "H" then Some Hide
  else if marker =? ch "S" then Some Show
  else if marker =? ch "P" then Some Protect
  else if marker =? ch "R" then Some Risk
  else if marker =? ch "!" then Some ClearList
  else if marker =? ch "." then Some Merge
  else if marker =? ch ":" then Some DirMerge
  else None.

Definition long_action (keyword : list Z) : option RuleAction :=
  if bool_decide (keyword = lit "include") then Some Include
  else if bool_decide (keyword = lit "exclude") then Some Exclude
  else if bool_decide (keyword = lit "hide") then Some Hide
  else if bool_decide (keyword = lit "show") then Some Show
  else if bool_decide (keyword = lit "protect") then Some Protect
  else if bool_decide (keyword = lit "risk") then Some Risk
  else if bool_decide (keyword = lit "clear") || bool_decide (keyword = lit "clear-list")
  then Some ClearList
  else if bool_decide (keyword = lit "merge") then Some Merge
  else if bool_decide (keyword = lit "dir-merge") then Some DirMerge
  else None.

Fixpoint parse_modifiers_from (input : list Z) (st : ModifierState) :
    result ModifierState ParseRuleError :=
  match input with
  | [] => Ok st
  | c :: input =>
      if c =? ch "," then parse_modifiers_from input st
      else if c =? ch "s" then parse_modifiers_from input
        {| m_sender := true; m_receiver := m_receiver st; m_perishable := m_perishable st |}
      else if c =? ch "r" then parse_modifiers_from input
        {| m_sender := m_sender st; m_receiver := true; m_perishable := m_perishable st |}
      else if c =? ch "p" then parse_modifiers_from input
        {| m_sender := m_sender st; m_receiver := m_receiver st; m_perishable := true |}
      else if existsb (Z.eqb c) [ch "e"; ch "n"; ch "w"; ch "x"; ch "-"; ch "+"; ch "!"]
      then parse_modifiers_from input st
      else Err (InvalidModifier c)
  end.

Definition parse_modifiers (input : list Z) : result ModifierState ParseRuleError :=
  parse_modifiers_from input no_modifiers.

Definition split_rule_head (input : list Z) : result (list Z * list Z) ParseRuleError :=
  match split_once_by is_whitespace input with
  | None => Err MissingPattern
  | Some (head, pattern) =>
      let pattern := trim pattern in
      if bool_decide (pattern = []) then Err MissingPattern else Ok (head, pattern)
  end.

Definition parse_rule_head (head : list Z) :
    result (RuleAction * ModifierState) ParseRuleError :=
  match head with
  | [] => Err EmptyRule
  | first :: later =>
      match short_action first with
      | Some action =>
          let? modifiers := parse_modifiers (trim_start_matches (ch ",") later) in
          Ok (action, modifiers)
      | None =>
          let '(keyword, modifiers) := default (head, []) (split_once (ch ",") head) in
          let? action := ok_or (long_action keyword) (UnknownRule head) in
          let? modifiers := parse_modifiers modifiers in
          Ok (action, modifiers)
      end
  end.

Definition parse_filter (input : list Z) : result Rule ParseRuleError :=
  let trimmed := trim input in
  if bool_decide (trimmed = []) then Err EmptyRule
  else if bool_decide (trimmed = lit "!") then Ok (without_pattern ClearList no_modifiers)
  else
    let? (head, pattern) := split_rule_head trimmed in
    let? (action, modifiers) := parse_rule_head head in
    if bool_decide (action = ClearList) then Ok (without_pattern action modifiers)
    else with_modifiers action pattern modifiers.

(** ** Filter files *)

(** The records between NULs, each decoded; [offset] counts the bytes before. *)
Fixpoint decode_records (records : list (list Z)) (offset : nat) :
    result (list (list Z)) ParseRuleError :=
  match records with
  | [] => Ok []
  | record :: records =>
      let next := (offset + length record + 1)%nat in
      if bool_decide (record = []) then decode_records records next
      else
        let? text := ok_or (decode_utf8 record) (InvalidUtf8 (offset + valid_up_to record)) in
        let? later := decode_records records next in
        Ok (text :: later)
  end.

(** [input.iter().position(|byte| *byte == 0)] *)
Fixpoint position_of (b : Z) (bytes : list Z) : option nat :=
  match bytes with
  | [] => None
  | x :: bytes => if x =? b then Some 0%nat else S <$> position_of b bytes
  end.

Definition strip_carriage_return (record : list Z) : list Z :=
  default record (strip_suffix record [13]).

Definition parse_filter_records (input : list Z) (from0 : bool) :
    result (list (list Z)) ParseRuleError :=
  if from0 then decode_records (split_on 0 input) 0
  else
    match position_of 0 input with
    | Some offset => Err (UnexpectedNul offset)
    | None =>
        let? text := ok_or (decode_utf8 input) (InvalidUtf8 (valid_up_to input)) in
        Ok (strip_carriage_return <$> split_on 10 text)
    end.

Definition normalize_filter_record (record : list Z) : option (list Z) :=
  let trimmed := trim record in
  if bool_decide (trimmed = []) || starts_with trimmed (lit "#") then None
  else match strip_prefix trimmed (lit "\#") with
  | Some stripped => Some (ch "#" :: stripped)
  | None =>
      match strip_prefix trimmed (lit "\ ") with
      | Some stripped => Some (ch " " :: stripped)
      | None => Some trimmed
      end
  end.

Definition starts_with_explicit_rule (record : list Z) : bool :=
  match record with
  | [] => false
  | first :: _ =>
      match short_action first with
      | Some _ => true
      | None =>
          match split_once_by is_whitespace record with
          | None => false
          | Some (head, _) =>
              let keyword := match split_once (ch ",") head with
                             | Some (keyword, _) => keyword
                             | None => head
                             end in
              match long_action keyword with Some _ => true | None => false end
          end
      end
  end.

(** The rule of one record; [None] for a comment or a blank line. *)
Definition parse_record (default_action : RuleAction) (record : list Z) :
    result (option Rule) ParseRuleError :=
  match normalize_filter_record record with
  | None => Ok None
  | Some record =>
      let? rule := (if starts_with_explicit_rule record then parse_filter record
                    else new_rule default_action record) in
      Ok (Some rule)
  end.

Fixpoint parse_records (default_action : RuleAction) (records : list (list Z)) :
    result (list Rule) ParseRuleError :=
  match records with
  | [] => Ok []
  | record :: records =>
      let? rule := parse_record default_action record in
      let? later := parse_records default_action records in
      Ok (match rule with Some rule => rule :: later | None => later end)
  end.

Definition parse_filter_file (input : list Z) (from0 : bool) (default_action : RuleAction) :
    result (list Rule) ParseRuleError :=
  let? records := parse_filter_records input from0 in
  parse_records default_action records.

(** ** Rule sets *)

Definition applies_to (self : Rule) (side : RuleSide) : bool :=
  match side with Sender => sender_side self | Receiver => receiver_side self end.

Definition rule_matches (self : Rule) (path : list Z) (kind : EntryKind) : bool :=
  match pattern self with
  | Some pattern => pattern_matches pattern path kind
  | None => false
  end.

Definition is_merge_directive (action : RuleAction) : bool :=
  match action with Merge | DirMerge => true | _ => false end.

Record MatchDecision := {
  decided_action : RuleAction;
  matched_rule_index : option nat;
}.

Definition decision_included (self : MatchDecision) : bool :=
  match decided_action self with Exclude | Hide => false | _ => true end.

Definition RuleSet := list Rule.

Definition push_rule (self : RuleSet) (rule : Rule) : RuleSet :=
  if bool_decide (action rule = ClearList) then [] else self ++ [rule].

(** The loop of [decide_for_side]; [decide] is the same without the side. *)
Fixpoint decide_from (index : nat) (rules : list Rule) (relevant : Rule → bool)
    (path : list Z) (kind : EntryKind) : MatchDecision :=
  match rules with
  | [] => {| decided_action := Include; matched_rule_index := None |}
  | rule :: rules =>
      if is_merge_directive (action rule) then decide_from (S index) rules relevant path kind
      else if relevant rule && rule_matches rule path kind
      then {| decided_action := action rule; matched_rule_index := Some index |}
      else decide_from (S index) rules relevant path kind
  end.

Definition decide_path (self : RuleSet) (path : list Z) (kind : EntryKind) : MatchDecision :=
  decide_from 0 self (λ _, true) path kind.

Definition decide_for_side (self : RuleSet) (path : list Z) (kind : EntryKind)
    (side : RuleSide) : MatchDecision :=
  decide_from 0 self (λ rule, applies_to rule side) path kind.

Definition is_included (self : RuleSet) (path : list Z) (kind : EntryKind) : bool :=
  decision_included (decide_path self path kind).

Definition is_included_for_side (self : RuleSet) (path : list Z) (kind : EntryKind)
    (side : RuleSide) : bool :=
  decision_included (decide_for_side self path kind side).

(** A rule that decides an entry for those the loop looks at. *)
Definition decides (relevant : Rule → bool) (path : list Z) (kind : EntryKind)
    (rule : Rule) : Prop :=
  is_merge_directive (action rule) = false ∧ relevant rule = true ∧
  rule_matches rule path kind = true.

(** The decision a rule list must give: that of the first deciding rule. *)
Definition first_decision (rules : list Rule) (relevant : Rule → bool) (path : list Z)
    (kind : EntryKind) (base : nat) (d : MatchDecision) : Prop :=
  match matched_rule_index d with
  | Some index => ∃ before rule after,
      rules = before ++ rule :: after ∧ index = (base + length before)%nat ∧
      Forall (λ r, ¬ decides relevant path kind r) before ∧
      decides relevant path kind rule ∧ decided_action d = action rule
  | None => Forall (λ r, ¬ decides relevant path kind r) rules ∧
      decided_action d = Include
  end.

Lemma first_decision_skip rule rules relevant path kind base d :
  ¬ decides relevant path kind rule →
  first_decision rules relevant path kind (S base) d →
  first_decision (rule :: rules) relevant path kind base d.
Proof.
  unfold first_decision. intros Hrule. destruct (matched_rule_index d) as [index|].
  - intros (before & r & after & -> & -> & Hbefore & Hr & Ha).
    exists (rule :: before), r, after. cbn. split_and!; [done|lia|by constructor|done|done].
  - intros [Hall Ha]. split; [by constructor|done].
Qed.

Lemma decide_from_first base rules relevant path kind :
  first_decision rules relevant path kind base (decide_from base rules relevant path kind).
Proof.
  revert base. induction rules as [|rule rules IH]; intros base; cbn [decide_from].
  - by split.
  - destruct (is_merge_directive (action rule)) eqn:Hmerge.
    { apply first_decision_skip; [|apply IH]. intros (H & _). congruence. }
    destruct (relevant rule && rule_matches rule path kind) eqn:Hm.
    + apply andb_prop in Hm as [Hrel Hmatch]. exists [], rule, rules.
      split_and!; [done|cbn; lia|done|by split_and!|done].
    + apply first_decision_skip; [|apply IH].
      intros (_ & Hrel & Hmatch). by rewrite Hrel, Hmatch in Hm.
Qed.

(** ** Properties *)

(** C35. The memoised matcher decides its specification: a text matches a
    pattern exactly when it is one of the strings the pattern's tokens stand
    for, with separators normalised on both sides.  In particular a single star
    and a question mark never cross a separator and a double star may. *)
Theorem glob_matches_iff pattern text :
  glob_matches pattern text = true ↔
  in_tokens (tokens (normalize_filter_path pattern) 0) (normalize_filter_path text).
Proof. apply glob_matches_spec. Qed.

(** For either side, and without regard to sides, a rule set decides an
    entry by its first rule that is no merge directive, applies to the side and
    matches; an entry no rule decides is included. *)
Theorem first_matching_rule_decides rules path kind side :
  first_decision rules (λ _, true) path kind 0 (decide_path rules path kind) ∧
  first_decision rules (λ rule, applies_to rule side) path kind 0
    (decide_for_side rules path kind side).
Proof. split; apply decide_from_first. Qed.

(** A backslash in a pattern is always a separator: normalisation
    turns it into a slash before matching, so the escape handling of the matcher
    is never reached and a pattern cannot name a literal star. *)
Theorem backslash_never_escapes pattern text :
  glob_matches pattern text = glob_matches (replace_char (ch "\") (ch "/") pattern) text ∧
  (ch "\") ∉ normalize_filter_path pattern.
Proof.
  split; [|rewrite normalize_eq; apply normalized_no_backslash].
  unfold glob_matches. by rewrite !normalize_eq, normalized_replace.
Qed.

(** The escape that keeps a leading space in a filter file has no effect:
    the record [\ x] is unescaped to a leading space and the pattern parser then
    trims it, so it gives the same rule pattern as [x]. *)
Theorem escaped_space_is_lost :
  ∃ r1 r2, parse_filter_file (lit "\ x") false Exclude = Ok [r1] ∧
    parse_filter_file (lit "x") false Exclude = Ok [r2] ∧
    r1 = r2.
Proof. eexists _, _. split_and!; vm_compute; reflexivity. Qed.
