(* ===== verification/FilesFrom.v ===== *)
(** * Lists of files to transfer: crates/rsync-filter/src/files_from.rs

    A list is bytes, with records ended by NUL or by line ends; its records are
    lists of characters.  After the definitions: what a record may name, and round
    trips. *)

From S2P Require Import Prelude Str Glob Filter.

Inductive FilesFromError :=
| FfInvalidUtf8 (offset : nat)
| FfUnexpectedNul (offset : nat).

Inductive FilesFromPathError :=
| FfEmpty
| FfNulByte (record : list Z)
| FfRootEscape (record : list Z).

(** [strip_single_trailing_carriage_return] is [strip_carriage_return]. *)
Definition parse_line_records (input : list Z) : list (list Z) :=
  List.filter (λ record, bool_decide (record ≠ [])) (strip_carriage_return <$> split_on 10 input).

(** The loop of [parse_nul_records]; [offset] counts the bytes before. *)
Fixpoint parse_nul_records_from (records : list (list Z)) (offset : nat) :
    result (list (list Z)) FilesFromError :=
  match records with
  | [] => Ok []
  | record :: records =>
      let next := (offset + length record + 1)%nat in
      if bool_decide (record ≠ []) then
        let? text := ok_or (decode_utf8 record) (FfInvalidUtf8 (offset + valid_up_to record)) in
        let? later := parse_nul_records_from records next in
        Ok (text :: later)
      else parse_nul_records_from records next
  end.

Definition parse_nul_records (input : list Z) : result (list (list Z)) FilesFromError :=
  parse_nul_records_from (split_on 0 input) 0.

Definition parse_files_from (input : list Z) : list (list Z) := parse_line_records input.

Definition parse_files_from_bytes (input : list Z) (from0 : bool) :
    result (list (list Z)) FilesFromError :=
  if from0 then parse_nul_records input
  else
    match position_of 0 input with
    | Some offset => Err (FfUnexpectedNul offset)
    | None =>
        let? text := ok_or (decode_utf8 input) (FfInvalidUtf8 (valid_up_to input)) in
        Ok (parse_line_records text)
    end.

Definition parse_files_from0 (input : list Z) : result (list (list Z)) FilesFromError :=
  parse_files_from_bytes input true.

(** [Path::components] of a path without backslash, colon and leading slash, where
    both platforms agree: there is no prefix and no root, empty components and
    interior dots are skipped. *)
Inductive Component := CurDir | ParentDir | Normal (name : list Z).

Definition component_of (leading : bool) (part : list Z) : list Component :=
  if bool_decide (part = []) then []
  else if bool_decide (part = lit ".") then if leading then [CurDir] else []
  else if bool_decide (part = lit "..") then [ParentDir]
  else [Normal part].

Definition components (path : list Z) : list Component :=
  match split_on (ch "/") path with
  | [] => []
  | first :: later => component_of true first ++ flat_map (component_of false) later
  end.

Definition escapes (component : Component) : bool :=
  match component with ParentDir => true | CurDir | Normal _ => false end.

Definition normalize_files_from_record (record : list Z) :
    result (list Z) FilesFromPathError :=
  let normalized := strip_dot_slash (normalize_filter_path record) in
  if bool_decide (normalized = []) then Err FfEmpty
  else if contains normalized 0 then Err (FfNulByte record)
  else if starts_with normalized [ch "/"] || contains normalized (ch ":")
  then Err (FfRootEscape record)
  else if existsb escapes (components normalized) then Err (FfRootEscape record)
  else Ok normalized.

Fixpoint normalize_files_from_records (records : list (list Z)) :
    result (list (list Z)) FilesFromPathError :=
  match records with
  | [] => Ok []
  | record :: records =>
      let? path := normalize_files_from_record record in
      let? later := normalize_files_from_records records in
      Ok (path :: later)
  end.

Example lines : parse_files_from_bytes
    (lit "My Documents/file name.txt" ++ [13; 10] ++ lit " trailing-space " ++ [10]) false =
  Ok [lit "My Documents/file name.txt"; lit " trailing-space "].
Proof. vm_compute. reflexivity. Qed.
Example nul_in_lines : parse_files_from_bytes (lit "one" ++ [0] ++ lit "two") false =
  Err (FfUnexpectedNul 3).
Proof. vm_compute. reflexivity. Qed.
Example nul_offset : parse_files_from0 (lit "ok" ++ [0; 255]) = Err (FfInvalidUtf8 3).
Proof. vm_compute. reflexivity. Qed.
Example dots : normalize_files_from_record (lit ".\src\\lib.rs") = Ok (lit "src/lib.rs").
Proof. vm_compute. reflexivity. Qed.
Example parent : normalize_files_from_record (lit "a/../b") = Err (FfRootEscape (lit "a/../b")).
Proof. vm_compute. reflexivity. Qed.

(** ** Records that name something inside the transfer root *)

(** Relative, spelled with single slashes, without parent components, drive letters
    and stream names, and not led by a dot component. *)
Record safe_record (path : list Z) : Prop := {
  safe_nonempty : path ≠ [];
  safe_chars : ∀ c, c ∈ path → c ≠ 0 ∧ c ≠ ch ":" ∧ c ≠ ch "\";
  safe_parents : lit ".." ∉ split_on (ch "/") path;
  safe_relative : ∀ later, path ≠ ch "/" :: later;
  safe_leading : ∀ later, path ≠ lit "./" ++ later;
  safe_slashes : ∀ front back, path ≠ front ++ lit "//" ++ back;
}.

Lemma strip_dot_slash_cases s :
  (∃ later, s = lit "./" ++ later ∧ strip_dot_slash s = strip_dot_slash later) ∨
  ((∀ later, s ≠ lit "./" ++ later) ∧ strip_dot_slash s = s).
Proof.
  destruct s as [|c1 [|c2 later]]; [by right..|]. cbn [strip_dot_slash].
  destruct (Z.eqb_spec c1 (ch ".")) as [->|H1]; [|right; split; [|done]; intros l [=]; done].
  destruct (Z.eqb_spec c2 (ch "/")) as [->|H2]; [|right; split; [|done]; intros l [=]; done].
  left. by exists later.
Qed.

Lemma strip_dot_slash_spec s :
  (∃ front, s = front ++ strip_dot_slash s) ∧
  (∀ later, strip_dot_slash s ≠ lit "./" ++ later).
Proof.
  induction s as [s IH] using (induction_ltof1 _ length).
  destruct (strip_dot_slash_cases s) as [(later & Hs & ->)|[Hno ->]].
  - destruct (IH later) as [[front Hf] Hl]; [unfold ltof; subst; cbn; lia|].
    split; [|done]. exists (lit "./" ++ front). by rewrite <-app_assoc, <-Hf.
  - split; [by exists []|done].
Qed.

Lemma normalized_true_head path later : normalized true path ≠ ch "/" :: later.
Proof.
  induction path as [|c path IH]; [done|]. cbn [normalized].
  destruct (Z.eqb_spec (if c =? ch "\" then ch "/" else c) (ch "/")) as [|Hc]; [done|].
  by intros [=].
Qed.

Lemma normalized_no_double b path front back :
  normalized b path ≠ front ++ lit "//" ++ back.
Proof.
  revert b front. induction path as [|c path IH]; intros b front; cbn [normalized];
    [by destruct front|].
  destruct (Z.eqb_spec (if c =? ch "\" then ch "/" else c) (ch "/")) as [->|Hc].
  - destruct b; [apply IH|]. destruct front as [|d front]; cbn [app].
    + intros [= H]. by apply normalized_true_head in H.
    + intros [= _ H]. by apply IH in H.
  - destruct front as [|d front]; cbn [app]; [by intros [=]|].
    intros [= _ H]. by apply IH in H.
Qed.

(** Without backslashes and double slashes there is nothing to normalise. *)
Lemma normalized_fixed b path :
  (ch "\") ∉ path → (∀ front back, path ≠ front ++ lit "//" ++ back) →
  (b = true → ∀ later, path ≠ ch "/" :: later) → normalized b path = path.
Proof.
  revert b. induction path as [|c path IH]; intros b Hb Hd Hh; [done|]. cbn [normalized].
  rewrite not_elem_of_cons in Hb. destruct Hb as [Hc Hb].
  destruct (Z.eqb_spec c (ch "\")) as [->|_]; [done|].
  assert (Hd' : ∀ front back, path ≠ front ++ lit "//" ++ back).
  { intros front back ->. by apply (Hd (c :: front) back). }
  destruct (Z.eqb_spec c (ch "/")) as [->|Hs].
  - destruct b; [by destruct (Hh eq_refl path)|]. f_equal. apply IH; [done..|].
    intros _ later ->. by apply (Hd [] later).
  - f_equal. by apply IH.
Qed.

Lemma escapes_parents path :
  existsb escapes (components path) = false ↔ lit ".." ∉ split_on (ch "/") path.
Proof.
  assert (Hone : ∀ leading part,
    existsb escapes (component_of leading part) = bool_decide (part = lit "..")).
  { intros leading part. unfold component_of.
    repeat case_bool_decide; subst; try done; by destruct leading. }
  assert (Hmany : ∀ parts, existsb escapes (flat_map (component_of false) parts) = false ↔
                           lit ".." ∉ parts).
  { induction parts as [|part parts IH]; cbn [flat_map]; [split; [|done]; intros _; apply not_elem_of_nil|].
    rewrite existsb_app, Hone, orb_false_iff, IH, not_elem_of_cons, bool_decide_eq_false.
    split; intros [H1 H2]; (split; [intros E; by destruct H1|done]). }
  unfold components. pose proof (split_on_ne (ch "/") path).
  destruct (split_on (ch "/") path) as [|part parts]; [done|].
  rewrite existsb_app, Hone, orb_false_iff, Hmany, not_elem_of_cons, bool_decide_eq_false.
  split; intros [H1 H2]; (split; [intros E; by destruct H1|done]).
Qed.

Lemma starts_with_slash s : starts_with s [ch "/"] = false ↔ ∀ later, s ≠ ch "/" :: later.
Proof.
  unfold starts_with. destruct s as [|c s]; [by split|]. rewrite bool_decide_eq_false. cbn.
  rewrite take_0. split; [intros H later [=]; congruence|intros H [= ->]; by apply (H s)].
Qed.

(** The spelling the function gives a record before it looks at it. *)
Definition canonical (record : list Z) : list Z :=
  strip_dot_slash (normalize_filter_path record).

Lemma canonical_facts record :
  ((ch "\") ∉ canonical record) ∧ (∀ later, canonical record ≠ lit "./" ++ later) ∧
  (∀ front back, canonical record ≠ front ++ lit "//" ++ back).
Proof.
  unfold canonical. destruct (strip_dot_slash_spec (normalize_filter_path record))
    as [[pre Hpre] Hl]. rewrite normalize_eq in *. split_and!; [|done|].
  - intros H. apply (normalized_no_backslash false record). rewrite Hpre.
    apply elem_of_app. by right.
  - intros front back H. apply (normalized_no_double false record (pre ++ front) back).
    by rewrite Hpre, H, <-app_assoc.
Qed.

Lemma canonical_safe path : safe_record path → canonical path = path.
Proof.
  intros [_ Hc _ _ Hl Hs]. unfold canonical. rewrite normalize_eq, normalized_fixed; [|..].
  - by destruct (strip_dot_slash_cases path) as [(later & -> & _)|[_ ?]]; [destruct (Hl later)|].
  - intros Hin. by apply Hc in Hin as (_ & _ & ?).
  - done.
  - done.
Qed.

Lemma accepted_record record path :
  normalize_files_from_record record = Ok path ↔
  path = canonical record ∧ safe_record path.
Proof.
  unfold normalize_files_from_record. fold (canonical record). cbv zeta.
  destruct (canonical_facts record) as (Hb & Hl & Hd). split.
  - case_bool_decide as Hne; [done|].
    destruct (contains (canonical record) 0) eqn:H0; [done|].
    destruct (starts_with _ _ || _) eqn:Hr; [done|].
    destruct (existsb escapes _) eqn:He; [done|]. intros [= <-]. split; [done|].
    apply orb_false_iff in Hr as [Hr Hcol%not_contains].
    pose proof (proj1 (starts_with_slash _) Hr) as Hrel.
    apply not_contains in H0. apply escapes_parents in He.
    split; try done. intros c Hc. split_and!; by intros ->.
  - intros [-> [Hne Hc Hp Hr _ _]]. case_bool_decide; [done|].
    rewrite (proj2 (not_contains _ 0)), (proj2 (starts_with_slash _)),
      (proj2 (not_contains _ _)), (proj2 (escapes_parents _)); try done;
      intros Hin; by destruct (Hc _ Hin) as (? & ? & ?).
Qed.

(** A record is accepted exactly when its canonical spelling (backslashes to
    slashes, runs of slashes to one, leading dot components dropped) stays within the
    transfer root, and then it yields that spelling; the safe records are exactly
    the fixed points, so normalising twice is normalising once. *)
Theorem files_from_records_stay_inside record path :
  (normalize_files_from_record record = Ok path ↔
     path = canonical record ∧ safe_record path) ∧
  (normalize_files_from_record path = Ok path ↔ safe_record path).
Proof.
  split; [apply accepted_record|]. rewrite accepted_record. split; [by intros []|].
  intros H. by rewrite canonical_safe.
Qed.

(** ** Writing a list and reading it back *)

Definition terminated (eol : list Z) (records : list (list Z)) : list Z :=
  concat ((λ record, record ++ eol) <$> records).

(** The records of a NUL-separated and of a line-separated list. *)
Definition nul_record (record : list Z) : Prop :=
  record ≠ [] ∧ forallb is_scalar record = true ∧ (0 ∉ record).
Definition line_record (record : list Z) : Prop :=
  nul_record record ∧ (10 ∉ record) ∧ ends_with record [13] = false.

Lemma encode_utf8_nonzero c :
  is_scalar c = true → c ≠ 0 → (0 ∉ encode_utf8 c) ∧ encode_utf8 c ≠ [].
Proof.
  unfold is_scalar, encode_utf8. intros Hs Hc.
  repeat case_match; rewrite !not_elem_of_cons; split_and!; try apply not_elem_of_nil; try done;
    try (intros H'; pose proof (Z.mod_pos_bound c 64); pose proof (Z.div_pos c 64);
         pose proof (Z.mod_pos_bound (c / 64) 64); pose proof (Z.mod_pos_bound (c / 4096) 64);
         pose proof (Z.div_pos c 4096); pose proof (Z.div_pos c 262144); lia).
Qed.

Lemma encode_chars_nonzero s :
  forallb is_scalar s = true → 0 ∉ s → s ≠ [] → (0 ∉ encode_chars s) ∧ encode_chars s ≠ [].
Proof.
  intros Hs H0 Hne. split.
  - unfold encode_chars. rewrite list_elem_of_In, in_concat.
    intros (bytes & Hb & Hin). apply list_elem_of_In, list_elem_of_fmap in Hb as (c & -> & Hc).
    rewrite forallb_forall in Hs.
    destruct (encode_utf8_nonzero c) as [H _];
      [by apply Hs, list_elem_of_In|by intros ->|]. by apply H, list_elem_of_In.
  - destruct s as [|c s]; [done|]. cbn in Hs. apply andb_prop in Hs as [Hc _].
    rewrite not_elem_of_cons in H0. destruct H0 as [H0 _].
    destruct (encode_utf8_nonzero c) as [_ H]; [done..|].
    unfold encode_chars. cbn. by destruct (encode_utf8 c).
Qed.

Lemma split_terminated b parts :
  Forall (λ part, b ∉ part) parts →
  split_on b (concat ((λ part, part ++ [b]) <$> parts)) = parts ++ [[]].
Proof.
  induction 1 as [|part parts Hp _ IH]; [done|]. cbn.
  rewrite <-app_assoc. cbn. rewrite split_on_app by done. f_equal. apply IH.
Qed.

Lemma parse_nul_terminated records offset :
  Forall nul_record records →
  parse_nul_records_from ((encode_chars <$> records) ++ [[]]) offset = Ok records.
Proof.
  intros H. revert offset. induction H as [|record records (Hne & Hs & H0) _ IH];
    intros offset; [done|]. cbn [fmap list_fmap app parse_nul_records_from].
  destruct (encode_chars_nonzero record Hs H0 Hne) as [_ He].
  case_bool_decide; [|done]. rewrite decode_encode_chars by done. cbn [ok_or and_then].
  by rewrite IH.
Qed.

Lemma encode_terminated b records :
  encode_chars (terminated [b] records) =
  concat ((λ part, part ++ encode_chars [b]) <$> (encode_chars <$> records)).
Proof.
  unfold terminated. induction records as [|record records IH]; [done|].
  cbn [fmap list_fmap concat]. rewrite !encode_chars_app. f_equal. apply IH.
Qed.

Lemma strip_cr_plain record eol :
  ends_with record [13] = false → eol = [] ∨ eol = [13] →
  strip_carriage_return (record ++ eol) = record.
Proof.
  unfold strip_carriage_return, strip_suffix. intros Hr [->| ->].
  - by rewrite app_nil_r, Hr.
  - unfold ends_with. rewrite length_app. cbn [length].
    replace (1 <=? length record + 1)%nat with true by (symmetry; apply Nat.leb_le; lia).
    replace (length record + 1 - 1)%nat with (length record) by lia.
    rewrite drop_app_length, bool_decide_true by done. cbn. by rewrite take_app_length.
Qed.

Lemma parse_lines_terminated cr records :
  Forall line_record records → cr = [] ∨ cr = [13] →
  parse_line_records (terminated (cr ++ [10]) records) = records.
Proof.
  intros H Hcr. unfold parse_line_records, terminated.
  replace ((λ record, record ++ cr ++ [10]) <$> records)
    with ((λ part, part ++ [10]) <$> ((λ record, record ++ cr) <$> records)).
  2: { rewrite <-list_fmap_compose. apply list_fmap_ext. intros _ record _. cbn.
       by rewrite <-app_assoc. }
  rewrite split_terminated.
  - rewrite fmap_app, List.filter_app. cbn. rewrite app_nil_r.
    induction H as [|record records ((Hne & _) & _ & He) _ IH]; [done|].
    cbn. rewrite strip_cr_plain by done. rewrite bool_decide_true by done. f_equal. apply IH.
  - apply Forall_fmap. eapply Forall_impl; [exact H|]. intros record (_ & H10 & _). cbn.
    rewrite not_elem_of_app. split; [done|]. destruct Hcr as [->| ->]; [apply not_elem_of_nil|].
    by rewrite list_elem_of_singleton.
Qed.

Lemma position_none b bytes : b ∉ bytes → position_of b bytes = None.
Proof.
  induction bytes as [|x bytes IH]; [done|]. rewrite not_elem_of_cons. intros [Hx Hb]. cbn.
  destruct (Z.eqb_spec x b) as [->|_]; [done|]. by rewrite IH.
Qed.

Lemma terminated_chars P eol records :
  Forall (λ c, P c) eol → Forall (Forall P) records → Forall P (terminated eol records).
Proof.
  intros He. unfold terminated. induction 1 as [|record records Hr _ IH]; [constructor|].
  cbn. rewrite !Forall_app. done.
Qed.

Lemma not_elem_Forall (b : Z) s : b ∉ s ↔ Forall (λ c, c ≠ b) s.
Proof. rewrite Forall_forall. split; [by intros H c Hc ->|]. intros H Hb. by apply (H b). Qed.

Lemma encode_chars_no_nul s : forallb is_scalar s = true → 0 ∉ s → 0 ∉ encode_chars s.
Proof.
  intros Hs H0. destruct (decide (s = [])) as [->|]; [apply not_elem_of_nil|].
  by apply encode_chars_nonzero.
Qed.

Lemma forallb_Forall (p : Z → bool) s : forallb p s = true ↔ Forall (λ c, p c = true) s.
Proof. rewrite forallb_forall, Forall_forall. by setoid_rewrite list_elem_of_In. Qed.

Lemma scalars_terminated eol records :
  forallb is_scalar eol = true → Forall (λ r, forallb is_scalar r = true) records →
  forallb is_scalar (terminated eol records) = true.
Proof.
  rewrite !forallb_Forall. intros He Hr. apply terminated_chars; [done|].
  eapply Forall_impl; [exact Hr|]. intros r. by rewrite forallb_Forall.
Qed.

(** A list written as UTF-8 with a NUL after every record is read back by
    [--from0] as the same records, whatever characters but NUL they hold; and one
    written with line ends, LF or CR LF, is read back where the records hold no line
    feed and do not end in a carriage return. *)
Theorem files_from_round_trip records cr :
  Forall nul_record records →
  parse_files_from0 (encode_chars (terminated [0] records)) = Ok records ∧
  (Forall line_record records → cr = [] ∨ cr = [13] →
   parse_files_from_bytes (encode_chars (terminated (cr ++ [10]) records)) false = Ok records).
Proof.
  intros Hn. split.
  - unfold parse_files_from0, parse_files_from_bytes, parse_nul_records.
    rewrite encode_terminated. change (encode_chars [0]) with [0].
    rewrite split_terminated; [by apply parse_nul_terminated|].
    apply Forall_fmap. eapply Forall_impl; [exact Hn|]. intros r (_ & Hs & H0).
    by apply encode_chars_no_nul.
  - intros Hl Hcr. unfold parse_files_from_bytes.
    assert (Heol : forallb is_scalar (cr ++ [10]) = true ∧ 0 ∉ cr ++ [10]).
    { destruct Hcr as [->| ->]; (split; [done|]); rewrite not_elem_Forall;
        repeat constructor; done. }
    destruct Heol as [Heol Heol0].
    assert (Hsc : forallb is_scalar (terminated (cr ++ [10]) records) = true).
    { apply scalars_terminated; [done|]. eapply Forall_impl; [exact Hn|]. by intros r (_ & ? & _). }
    rewrite position_none.
    + rewrite decode_encode_chars by done. cbn [ok_or and_then].
      by rewrite parse_lines_terminated.
    + apply encode_chars_no_nul; [done|]. apply not_elem_Forall, terminated_chars.
      * by apply not_elem_Forall.
      * eapply Forall_impl; [exact Hn|]. intros r (_ & _ & ?). by apply not_elem_Forall.
Qed.

Lemma files_from_round_trip_witness :
  parse_files_from0 (encode_chars (terminated [0] [lit "one" ++ [10] ++ lit "line"; [0x20AC]])) =
    Ok [lit "one" ++ [10] ++ lit "line"; [0x20AC]] ∧
  parse_files_from_bytes (encode_chars (terminated [13; 10] [lit "two words"; [0x20AC]])) false =
    Ok [lit "two words"; [0x20AC]].
Proof.
  assert (H0 : ∀ b s, contains s b = false → b ∉ s).
  { intros b s H Hin. apply contains_spec in Hin. congruence. }
  split.
  - apply (files_from_round_trip [lit "one" ++ [10] ++ lit "line"; [0x20AC]] []).
    repeat constructor; try (vm_compute; discriminate); apply H0; vm_compute; reflexivity.
  - apply (files_from_round_trip [lit "two words"; [0x20AC]] [13]); [..|by right];
    repeat constructor; try (vm_compute; discriminate); apply H0; vm_compute; reflexivity.
Defined.
