(* ===== verification/Chmod.v ===== *)
(** * Permission rules: crates/rsync-core/src/chmod.rs

    Strings are lists of characters; modes are integers.  Octal constants are
    written in hexadecimal, with the octal form beside them.  The specification at the
    end speaks of one bit at a time: class (user, group, other) and permission (read,
    write, execute).  A printer of rules, inverse to the parser, shows that every
    accepted list of rules has a written form. *)

From S2P Require Import Prelude Str.

Inductive ChmodTarget := AllTargets | Files | Directories.
Inductive ChmodFileKind := File | Directory.
Inductive SymbolicOp := Add | Remove | Assign.

#[export] Instance ChmodFileKind_eq_dec : EqDecision ChmodFileKind.
Proof. solve_decision. Defined.
#[export] Instance SymbolicOp_eq_dec : EqDecision SymbolicOp.
Proof. solve_decision. Defined.

(** [WhoMask]: the bits of its byte. *)
Definition USER : Z := 1.
Definition GROUP : Z := 2.
Definition OTHER : Z := 4.
Definition ALL : Z := Z.lor (Z.lor USER GROUP) OTHER.

Definition who_contains (who bit : Z) : bool := negb (Z.land who bit =? 0).

(** [if cond { bits |= extra }] *)
Definition or_if (cond : bool) (extra bits : Z) : Z := if cond then Z.lor bits extra else bits.

(** 700, 070 and 007. *)
Definition permission_bits (who : Z) : Z :=
  or_if (who_contains who OTHER) 0x7
    (or_if (who_contains who GROUP) 0x38 (or_if (who_contains who USER) 0x1C0 0)).

(** 4000 and 2000. *)
Definition setid_bits (who : Z) : Z :=
  or_if (who_contains who GROUP) 0x400 (or_if (who_contains who USER) 0x800 0).

(** 1000. *)
Definition sticky_bits (who : Z) : Z :=
  if who_contains who OTHER || (who =? ALL) then 0x200 else 0.

Definition class_bits (who user group other : Z) : Z :=
  or_if (who_contains who OTHER) other
    (or_if (who_contains who GROUP) group (or_if (who_contains who USER) user 0)).

Definition copy_class_bits (who permissions source_shift : Z) : Z :=
  let source := Z.land (Z.shiftr permissions source_shift) 7 in
  or_if (who_contains who OTHER) source
    (or_if (who_contains who GROUP) (Z.shiftl source 3)
      (or_if (who_contains who USER) (Z.shiftl source 6) 0)).

Record PermissionMask := {
  read : bool;
  write : bool;
  exec : bool;
  conditional_exec : bool;
  setid : bool;
  sticky : bool;
  copy_user : bool;
  copy_group : bool;
  copy_other : bool;
}.

Definition empty_mask : PermissionMask :=
  {| read := false; write := false; exec := false; conditional_exec := false;
     setid := false; sticky := false; copy_user := false; copy_group := false;
     copy_other := false |}.

Definition mask_is_empty (self : PermissionMask) : bool :=
  negb (read self) && negb (write self) && negb (exec self) &&
  negb (conditional_exec self) && negb (setid self) && negb (sticky self) &&
  negb (copy_user self) && negb (copy_group self) && negb (copy_other self).

(** 111: any execute bit. *)
Definition grants_exec (self : PermissionMask) (permissions : Z) (kind : ChmodFileKind) : bool :=
  exec self ||
  (conditional_exec self &&
   (bool_decide (kind = Directory) || negb (Z.land permissions 0x49 =? 0))).

(** 400 040 004, 200 020 002 and 100 010 001. *)
Definition to_bits (self : PermissionMask) (who permissions : Z) (kind : ChmodFileKind) : Z :=
  let bits := or_if (read self) (class_bits who 0x100 0x20 0x4) 0 in
  let bits := or_if (write self) (class_bits who 0x80 0x10 0x2) bits in
  let bits := or_if (grants_exec self permissions kind) (class_bits who 0x40 0x8 0x1) bits in
  let bits := or_if (setid self) (setid_bits who) bits in
  let bits := or_if (sticky self) (sticky_bits who) bits in
  let bits := or_if (copy_user self) (copy_class_bits who permissions 6) bits in
  let bits := or_if (copy_group self) (copy_class_bits who permissions 3) bits in
  or_if (copy_other self) (copy_class_bits who permissions 0) bits.

Definition special_clear_bits (self : PermissionMask) (who : Z) : Z :=
  or_if (sticky self) (sticky_bits who) (or_if (setid self) (setid_bits who) 0).

Record SymbolicMode := { who : Z; op : SymbolicOp; perms : PermissionMask }.

Definition symbolic_apply (self : SymbolicMode) (permissions : Z) (kind : ChmodFileKind) : Z :=
  let set_bits := to_bits (perms self) (who self) permissions kind in
  match op self with
  | Add => Z.lor permissions set_bits
  | Remove => Z.land permissions (not_u32 set_bits)
  | Assign =>
      let clear_bits := Z.lor (permission_bits (who self))
                          (special_clear_bits (perms self) (who self)) in
      Z.lor (Z.land permissions (not_u32 clear_bits)) set_bits
  end.

Inductive ChmodAction :=
| Numeric (mode : Z)
| Symbolic (mode : SymbolicMode).

Record ChmodRule := { target : ChmodTarget; action : ChmodAction }.

Definition ChmodRules := list ChmodRule.

Definition rule_matches (self : ChmodRule) (kind : ChmodFileKind) : bool :=
  match target self, kind with
  | AllTargets, _ | Files, File | Directories, Directory => true
  | _, _ => false
  end.

Definition rule_apply (self : ChmodRule) (permissions : Z) (kind : ChmodFileKind) : Z :=
  match action self with
  | Numeric mode => mode
  | Symbolic symbolic => symbolic_apply symbolic permissions kind
  end.

(** 7777. *)
Definition apply (self : ChmodRules) (wire_mode : Z) (kind : ChmodFileKind) : Z :=
  let type_bits := Z.land wire_mode (not_u32 0xFFF) in
  let permissions :=
    fold_left (λ permissions rule,
      if rule_matches rule kind then rule_apply rule permissions kind else permissions)
      self (Z.land wire_mode 0xFFF) in
  Z.lor type_bits permissions.

(** ** Parsing *)

Inductive RsyncCoreError :=
| UnsupportedFeature (feature : list Z)
| InvalidArgument (name : string) (reason : list Z).

Definition invalid_chmod (value reason : list Z) : RsyncCoreError :=
  InvalidArgument "chmod" (reason ++ lit ": `" ++ value ++ lit "`").

(** The target prefix of a component. *)
Definition split_target (part : list Z) : ChmodTarget * list Z :=
  match part with
  | c :: later =>
      if (c =? ch "F") || (c =? ch "f") then (Files, later)
      else if (c =? ch "D") || (c =? ch "d") then (Directories, later)
      else (AllTargets, part)
  | [] => (AllTargets, part)
  end.

Fixpoint parse_who_from (expression : list Z) (who : Z) : Z * list Z :=
  match expression with
  | [] => (who, [])
  | c :: later =>
      if c =? ch "u" then parse_who_from later (Z.lor who USER)
      else if c =? ch "g" then parse_who_from later (Z.lor who GROUP)
      else if c =? ch "o" then parse_who_from later (Z.lor who OTHER)
      else if c =? ch "a" then parse_who_from later (Z.lor who ALL)
      else (who, expression)
  end.

Definition parse_who (expression : list Z) : Z * list Z :=
  let '(who, later) := parse_who_from expression 0 in
  (if who =? 0 then ALL else who, later).

(** One arm of the match of [parse_permissions]. *)
Definition set_permission (c : Z) (mask : PermissionMask) : option PermissionMask :=
  let hit a := c =? a in
  if existsb hit [ch "r"; ch "w"; ch "x"; ch "X"; ch "s"; ch "t"; ch "u"; ch "g"; ch "o"]
  then Some
    {| read := hit (ch "r") || read mask; write := hit (ch "w") || write mask;
       exec := hit (ch "x") || exec mask;
       conditional_exec := hit (ch "X") || conditional_exec mask;
       setid := hit (ch "s") || setid mask; sticky := hit (ch "t") || sticky mask;
       copy_user := hit (ch "u") || copy_user mask;
       copy_group := hit (ch "g") || copy_group mask;
       copy_other := hit (ch "o") || copy_other mask |}
  else None.

Fixpoint parse_permissions_from (full permissions : list Z) (mask : PermissionMask) :
    result PermissionMask RsyncCoreError :=
  match permissions with
  | [] => Ok mask
  | c :: later =>
      match set_permission c mask with
      | Some mask => parse_permissions_from full later mask
      | None => Err (invalid_chmod full (lit "unsupported chmod permission `" ++ [c] ++ lit "`"))
      end
  end.

Definition parse_permissions (full permissions : list Z) : result PermissionMask RsyncCoreError :=
  parse_permissions_from full permissions empty_mask.

Definition parse_symbolic_rule (full part : list Z) : result ChmodRule RsyncCoreError :=
  let '(target, expression) := split_target part in
  if bool_decide (expression = [])
  then Err (invalid_chmod full (lit "missing chmod expression after file type prefix"))
  else
    let '(who, later) := parse_who expression in
    match later with
    | [] => Err (invalid_chmod full (lit "missing chmod operation"))
    | op_char :: permissions =>
        let? op := (if op_char =? ch "+" then Ok Add
                    else if op_char =? ch "-" then Ok Remove
                    else if op_char =? ch "=" then Ok Assign
                    else Err (invalid_chmod full
                                (lit "expected chmod operation +, -, or ="))) in
        let? perms := parse_permissions full permissions in
        if mask_is_empty perms && bool_decide (op ≠ Assign)
        then Err (invalid_chmod full
                    (lit "chmod + and - operations require at least one permission"))
        else Ok {| target := target;
                   action := Symbolic {| who := who; op := op; perms := perms |} |}
    end.

Definition is_octal_digit (c : Z) : bool := (ch "0" <=? c) && (c <=? ch "7").

(** [u32::from_str_radix(digits, 8)] on octal digits. *)
Definition from_octal (digits : list Z) : Z :=
  fold_left (λ value c, value * 8 + (c - ch "0")) digits 0.

Definition parse_numeric_rule (full part : list Z) : result ChmodRule RsyncCoreError :=
  let '(target, digits) := split_target part in
  if (1 <=? length digits)%nat && (length digits <=? 4)%nat && forallb is_octal_digit digits
  then Ok {| target := target; action := Numeric (Z.land (from_octal digits) 0xFFF) |}
  else parse_symbolic_rule full part.

Fixpoint parse_parts (value : list Z) (parts : list (list Z)) : result ChmodRules RsyncCoreError :=
  match parts with
  | [] => Ok []
  | raw_part :: parts =>
      let part := trim raw_part in
      if bool_decide (part = []) then Err (invalid_chmod value (lit "empty chmod component"))
      else
        let? rule := parse_numeric_rule value part in
        let? later := parse_parts value parts in
        Ok (rule :: later)
  end.

(** [ChmodRules::from_str] *)
Definition from_str (value : list Z) : result ChmodRules RsyncCoreError :=
  parse_parts value (split_on (ch ",") value).

(** The examples of the unit tests: 100755 to 100644, 040700 to 040755 and so on. *)
Definition chmod (rules : string) (mode : Z) (kind : ChmodFileKind) : result Z RsyncCoreError :=
  let? rules := from_str (lit rules) in Ok (apply rules mode kind).

Example chmod_numeric : chmod "0644" 0x81ED File = Ok 0x81A4.
Proof. vm_compute. reflexivity. Qed.
Example chmod_split : chmod "Dug=rwx,Dgo=rx,Fu=rw,Fgo=r" 0x41C0 Directory = Ok 0x41ED.
Proof. vm_compute. reflexivity. Qed.
Example chmod_layered : chmod "u=rw,go=r,u+x,g-w,o-r" 0x8000 File = Ok 0x81E0.
Proof. vm_compute. reflexivity. Qed.
Example chmod_conditional : chmod "a+X" 0x81E4 File = Ok 0x81ED.
Proof. vm_compute. reflexivity. Qed.
Example chmod_copy : chmod "g=u,o=g" 0x81E8 File = Ok 0x81FF.
Proof. vm_compute. reflexivity. Qed.
Example chmod_special : chmod "u+s,g+s,o+t,a-st" 0x81FF File = Ok 0x81FF.
Proof. vm_compute. reflexivity. Qed.

(** ** The specification of a symbolic rule *)

Inductive Class := User | Group | Other.
Inductive Permission := Readable | Writable | Executable.

Definition class_shift (c : Class) : Z :=
  match c with User => 6 | Group => 3 | Other => 0 end.
Definition permission_index (p : Permission) : Z :=
  match p with Readable => 2 | Writable => 1 | Executable => 0 end.
Definition class_flag (c : Class) : Z :=
  match c with User => USER | Group => GROUP | Other => OTHER end.

Definition mode_bit (mode : Z) (c : Class) (p : Permission) : bool :=
  Z.testbit mode (class_shift c + permission_index p).

(** What the mask of a rule grants of permission [p], given the mode before. *)
Definition granted (mask : PermissionMask) (before : Z) (kind : ChmodFileKind)
    (p : Permission) : bool :=
  match p with
  | Readable => read mask
  | Writable => write mask
  | Executable => grants_exec mask before kind
  end
  || copy_user mask && mode_bit before User p
  || copy_group mask && mode_bit before Group p
  || copy_other mask && mode_bit before Other p.

Definition combine (op : SymbolicOp) (old wanted : bool) : bool :=
  match op with Add => old || wanted | Remove => old && negb wanted | Assign => wanted end.

(** The special bits are never cleared by an assignment that does not name them. *)
Definition combine_special (op : SymbolicOp) (old named : bool) : bool :=
  match op with Add | Assign => old || named | Remove => old && negb named end.

Lemma testbit_or_if cond extra bits i :
  Z.testbit (or_if cond extra bits) i = Z.testbit bits i || cond && Z.testbit extra i.
Proof. destruct cond; cbn [or_if andb]; [apply Z.lor_spec | by rewrite orb_false_r]. Qed.

Lemma testbit_not_u32 z i : 0 ≤ i < 32 → Z.testbit (not_u32 z) i = negb (Z.testbit z i).
Proof.
  intros Hi. unfold not_u32. rewrite Z.lxor_spec.
  change u32_max with (Z.ones 32). rewrite Z.ones_spec_low by lia. apply xorb_true_r.
Qed.

Definition is_who (who : Z) : Prop := 1 ≤ who ≤ 7.

Lemma who_cases who : is_who who → who ∈ [1; 2; 3; 4; 5; 6; 7].
Proof. unfold is_who. rewrite !elem_of_cons, elem_of_nil. lia. Qed.

Ltac who_cases who :=
  let H := fresh in
  assert (H : is_who who) by assumption; apply who_cases in H;
  repeat (apply elem_of_cons in H; destruct H as [->|H]); [..|by apply elem_of_nil in H].

(** Three source bits moved to class [d] reach exactly the bits of that class. *)
Lemma moved_bit before shift c d p :
  0 ≤ shift →
  Z.testbit (Z.shiftl (Z.land (Z.shiftr before shift) 7) (class_shift d))
    (class_shift c + permission_index p) =
  (class_shift c =? class_shift d) && Z.testbit before (shift + permission_index p).
Proof.
  intros Hs. rewrite Z.shiftl_spec by (destruct c, p; cbn; lia).
  destruct (Z.ltb_spec (class_shift c + permission_index p - class_shift d) 0).
  - rewrite Z.testbit_neg_r by lia. destruct c, d, p; cbn in *; (lia || reflexivity).
  - rewrite Z.land_spec, Z.shiftr_spec by lia. change 7 with (Z.ones 3).
    destruct (Z.eqb_spec (class_shift c) (class_shift d)) as [->|Hne]; cbn [andb].
    + rewrite Z.ones_spec_low by (destruct p; cbn; lia).
      rewrite andb_true_r. f_equal. lia.
    + rewrite Z.ones_spec_high by (destruct c, d, p; cbn in *; lia). apply andb_false_r.
Qed.

Lemma copy_bit who before shift c p :
  0 ≤ shift →
  Z.testbit (copy_class_bits who before shift) (class_shift c + permission_index p) =
  who_contains who (class_flag c) && Z.testbit before (shift + permission_index p).
Proof.
  intros Hs. unfold copy_class_bits. cbv zeta.
  rewrite !testbit_or_if, Z.bits_0, orb_false_l.
  rewrite (moved_bit before shift c User), (moved_bit before shift c Group) by done.
  pose proof (moved_bit before shift c Other p Hs) as Ho.
  cbn [class_shift] in Ho. rewrite Z.shiftl_0_r in Ho. rewrite Ho.
  destruct c; cbn [class_shift class_flag Z.eqb Pos.eqb andb];
    rewrite ?andb_false_r, ?orb_false_r; reflexivity.
Qed.

Lemma class_bit who c p q :
  is_who who →
  Z.testbit (class_bits who (2 ^ (6 + permission_index q)) (2 ^ (3 + permission_index q))
               (2 ^ permission_index q)) (class_shift c + permission_index p) =
  who_contains who (class_flag c) && (permission_index p =? permission_index q).
Proof. intros Hw. who_cases who; destruct c, p, q; reflexivity. Qed.

Lemma special_bit who c p :
  is_who who →
  Z.testbit (setid_bits who) (class_shift c + permission_index p) = false ∧
  Z.testbit (sticky_bits who) (class_shift c + permission_index p) = false ∧
  Z.testbit (permission_bits who) (class_shift c + permission_index p) =
    who_contains who (class_flag c).
Proof. intros Hw. who_cases who; destruct c, p; repeat split; reflexivity. Qed.

Lemma to_bits_bit mask who before kind c p :
  is_who who →
  Z.testbit (to_bits mask who before kind) (class_shift c + permission_index p) =
  who_contains who (class_flag c) && granted mask before kind p.
Proof.
  intros Hw. unfold to_bits. cbv zeta. rewrite !testbit_or_if, Z.bits_0, orb_false_l.
  destruct (special_bit who c p Hw) as (-> & -> & _).
  rewrite !copy_bit by lia.
  pose proof (class_bit who c p) as Hc.
  rewrite (Hc Readable Hw : Z.testbit (class_bits who 0x100 0x20 0x4) _ = _).
  rewrite (Hc Writable Hw : Z.testbit (class_bits who 0x80 0x10 0x2) _ = _).
  rewrite (Hc Executable Hw : Z.testbit (class_bits who 0x40 0x8 0x1) _ = _).
  unfold granted, mode_bit.
  destruct (who_contains who (class_flag c)); cbn [andb];
    [|rewrite ?andb_false_r; reflexivity].
  destruct p; cbn [permission_index class_shift Z.eqb Pos.eqb];
    rewrite ?andb_false_r, ?andb_true_r, ?orb_false_r, ?orb_false_l; reflexivity.
Qed.

(** The bits of the set-id and sticky part of a mask: 4000, 2000 and 1000. *)
Inductive Special := SetUser | SetGroup | Sticky.

Definition special_index (s : Special) : Z :=
  match s with SetUser => 11 | SetGroup => 10 | Sticky => 9 end.
Definition special_class (s : Special) : Class :=
  match s with SetUser => User | SetGroup => Group | Sticky => Other end.
Definition names_special (mask : PermissionMask) (who : Z) (s : Special) : bool :=
  who_contains who (class_flag (special_class s)) &&
  match s with SetUser | SetGroup => setid mask | Sticky => sticky mask end.

Lemma small_bit z s : 0 ≤ z < 512 → Z.testbit z (special_index s) = false.
Proof.
  intros Hz. destruct (decide (z = 0)) as [->|]; [apply Z.bits_0|].
  apply Z.bits_above_log2; [lia|]. apply Z.log2_lt_pow2; [lia|].
  destruct s; cbn [special_index]; lia.
Qed.

Lemma special_of_classes who s u g o :
  0 ≤ u < 512 → 0 ≤ g < 512 → 0 ≤ o < 512 →
  Z.testbit (class_bits who u g o) (special_index s) = false.
Proof.
  intros Hu Hg Ho. unfold class_bits.
  rewrite !testbit_or_if, !small_bit by done. by rewrite !andb_false_r.
Qed.

Lemma copy_bits_range who before shift :
  is_who who → 0 ≤ shift → 0 ≤ before → 0 ≤ copy_class_bits who before shift < 512.
Proof.
  intros Hw Hs Hb. unfold copy_class_bits. cbv zeta.
  assert (H : Z.land (Z.shiftr before shift) 7 ∈ [0;1;2;3;4;5;6;7]).
  { change 7 with (Z.ones 3) at 1. rewrite Z.land_ones by lia.
    pose proof (Z.mod_pos_bound (Z.shiftr before shift) (2 ^ 3) eq_refl).
    rewrite !elem_of_cons, elem_of_nil. lia. }
  revert H. generalize (Z.land (Z.shiftr before shift) 7). intros v H.
  who_cases who;
    repeat (apply elem_of_cons in H; destruct H as [->|H]; [split; [easy|reflexivity]|]);
    by apply elem_of_nil in H.
Qed.

Lemma special_bits who s :
  is_who who →
  Z.testbit (setid_bits who) (special_index s) =
    who_contains who (class_flag (special_class s)) && negb (special_index s =? 9) ∧
  Z.testbit (sticky_bits who) (special_index s) =
    who_contains who (class_flag (special_class s)) && (special_index s =? 9) ∧
  Z.testbit (permission_bits who) (special_index s) = false.
Proof. intros Hw. who_cases who; destruct s; repeat split; reflexivity. Qed.

Lemma to_bits_special mask who before kind s :
  is_who who → 0 ≤ before →
  Z.testbit (to_bits mask who before kind) (special_index s) = names_special mask who s.
Proof.
  intros Hw Hb. unfold to_bits. cbv zeta. rewrite !testbit_or_if, Z.bits_0, orb_false_l.
  rewrite !special_of_classes by lia || done.
  rewrite !(small_bit (copy_class_bits _ _ _)) by (apply copy_bits_range; lia || done).
  destruct (special_bits who s Hw) as (-> & -> & _). unfold names_special.
  destruct s; cbn [special_index Z.eqb Pos.eqb negb special_class];
    rewrite ?andb_true_r, ?andb_false_r, ?orb_false_r, ?orb_false_l; apply andb_comm.
Qed.

Lemma special_clear_bit mask who s :
  is_who who →
  Z.testbit (special_clear_bits mask who) (special_index s) = names_special mask who s.
Proof.
  intros Hw. unfold special_clear_bits. rewrite !testbit_or_if, Z.bits_0.
  destruct (special_bits who s Hw) as (-> & -> & _). unfold names_special.
  destruct s; cbn [special_index Z.eqb Pos.eqb negb special_class];
    rewrite ?andb_true_r, ?andb_false_r, ?orb_false_r, ?orb_false_l; apply andb_comm.
Qed.

Lemma special_clear_class mask who c p :
  is_who who →
  Z.testbit (special_clear_bits mask who) (class_shift c + permission_index p) = false.
Proof.
  intros Hw. unfold special_clear_bits. rewrite !testbit_or_if, Z.bits_0.
  destruct (special_bit who c p Hw) as (-> & -> & _). by rewrite !andb_false_r.
Qed.

(** A symbolic rule changes exactly the bits it speaks of.  For the
    classes it names, [+] adds what the mask grants, [-] removes it and [=] replaces
    the three bits by it, where the mask grants a permission by its letter, by [X]
    (on directories, and on files that had an execute bit) and by the class it
    copies from the mode before; the other classes keep their bits.  The set-id and
    sticky bits change only where the mask names them, and [=] never clears one. *)
Theorem symbolic_rule_spec self before kind :
  is_who (who self) → 0 ≤ before →
  (∀ c p, mode_bit (symbolic_apply self before kind) c p =
     if who_contains (who self) (class_flag c)
     then combine (op self) (mode_bit before c p) (granted (perms self) before kind p)
     else mode_bit before c p) ∧
  (∀ s, Z.testbit (symbolic_apply self before kind) (special_index s) =
     combine_special (op self) (Z.testbit before (special_index s))
       (names_special (perms self) (who self) s)).
Proof.
  intros Hw Hb. split.
  - intros c p. unfold mode_bit, symbolic_apply. cbv zeta.
    assert (0 ≤ class_shift c + permission_index p < 32) by (destruct c, p; cbn; lia).
    destruct (op self); rewrite ?Z.lor_spec, ?Z.land_spec, ?testbit_not_u32, ?Z.lor_spec,
      ?to_bits_bit, ?special_clear_class by done;
      try (destruct (special_bit (who self) c p Hw) as (_ & _ & ->));
      destruct (who_contains (who self) (class_flag c)); cbn [combine andb negb orb];
      rewrite ?andb_true_r, ?andb_false_r, ?orb_false_r; reflexivity.
  - intros s. unfold symbolic_apply. cbv zeta.
    assert (0 ≤ special_index s < 32) by (destruct s; cbn; lia).
    destruct (op self); rewrite ?Z.lor_spec, ?Z.land_spec, ?testbit_not_u32, ?Z.lor_spec,
      ?to_bits_special, ?special_clear_bit by done; try reflexivity.
    destruct (special_bits (who self) s Hw) as (_ & _ & ->). cbn [combine_special orb].
    destruct (Z.testbit before (special_index s)), (names_special (perms self) (who self) s);
      reflexivity.
Qed.

(** [g=u] on 640 copies the owner's rw to the group: the group may write. *)
Definition group_like_user : SymbolicMode :=
  {| who := GROUP; op := Assign;
     perms := {| read := false; write := false; exec := false; conditional_exec := false;
                 setid := false; sticky := false; copy_user := true; copy_group := false;
                 copy_other := false |} |}.

Lemma symbolic_rule_spec_witness :
  is_who (who group_like_user) ∧
  mode_bit (symbolic_apply group_like_user 0x1A0 File) Group Writable = true.
Proof.
  split; [split; discriminate|].
  rewrite (proj1 (symbolic_rule_spec group_like_user 0x1A0 File
    ltac:(split; discriminate) ltac:(discriminate)) Group Writable).
  vm_compute. reflexivity.
Defined.

(** ** Ranges *)

(** What the parser builds. *)
Definition rule_wf (self : ChmodRule) : Prop :=
  match action self with
  | Numeric mode => 0 ≤ mode < 4096
  | Symbolic m => is_who (who m) ∧ (mask_is_empty (perms m) = true → op m = Assign)
  end.

Definition is_perms (z : Z) : Prop := 0 ≤ z < 2 ^ 12.

Lemma or_if_perms cond extra bits :
  is_perms extra → is_perms bits → is_perms (or_if cond extra bits).
Proof. intros. destruct cond; [by apply lor_bound|done]. Qed.

Lemma land_perms a b : is_perms a → is_perms (Z.land a b).
Proof.
  intros [H0 Ha]. split; [apply Z.land_nonneg; lia|].
  assert (H : Z.land a (Z.ones 12) = a) by (rewrite Z.land_ones by lia; by apply Z.mod_small).
  rewrite <-H, <-Z.land_assoc, (Z.land_comm _ b), Z.land_assoc, Z.land_ones by lia.
  apply Z.mod_pos_bound. lia.
Qed.

Lemma to_bits_perms mask who before kind :
  is_who who → 0 ≤ before → is_perms (to_bits mask who before kind).
Proof.
  intros Hw Hb.
  assert (∀ shift, 0 ≤ shift → is_perms (copy_class_bits who before shift)).
  { intros shift Hs. pose proof (copy_bits_range who before shift Hw Hs Hb).
    unfold is_perms. lia. }
  unfold to_bits. cbv zeta.
  repeat match goal with |- is_perms (or_if _ _ _) => apply or_if_perms end; auto with lia;
    try done;
    clear - Hw; who_cases who; split; (discriminate || reflexivity).
Qed.

Lemma rule_apply_perms self before kind :
  rule_wf self → is_perms before → is_perms (rule_apply self before kind).
Proof.
  unfold rule_wf, rule_apply. destruct (action self) as [mode|m]; [easy|].
  intros [Hw _] Hb. assert (0 ≤ before) by apply Hb.
  unfold symbolic_apply. cbv zeta.
  destruct (op m); [apply lor_bound|apply land_perms|apply lor_bound]; try easy;
    try by apply to_bits_perms. by apply land_perms.
Qed.

Lemma fold_perms rules before kind :
  Forall rule_wf rules → is_perms before →
  is_perms (fold_left (λ permissions rule,
    if rule_matches rule kind then rule_apply rule permissions kind else permissions)
    rules before).
Proof.
  intros Hr. revert before. induction Hr as [|rule rules Hrule _ IH]; intros before Hb; [done|].
  apply IH. destruct (rule_matches rule kind); [by apply rule_apply_perms|done].
Qed.

(** ** Printing *)

Definition print_target (t : ChmodTarget) : list Z :=
  match t with AllTargets => [] | Files => [ch "F"] | Directories => [ch "D"] end.

Definition print_flag (b : bool) (c : ascii) : list Z := if b then [ch c] else [].

Definition print_who (w : Z) : list Z :=
  print_flag (who_contains w USER) "u" ++ print_flag (who_contains w GROUP) "g" ++
  print_flag (who_contains w OTHER) "o".

Definition print_op (o : SymbolicOp) : Z :=
  match o with Add => ch "+" | Remove => ch "-" | Assign => ch "=" end.

Definition print_mask (m : PermissionMask) : list Z :=
  print_flag (read m) "r" ++ print_flag (write m) "w" ++ print_flag (exec m) "x" ++
  print_flag (conditional_exec m) "X" ++ print_flag (setid m) "s" ++
  print_flag (sticky m) "t" ++ print_flag (copy_user m) "u" ++
  print_flag (copy_group m) "g" ++ print_flag (copy_other m) "o".

Definition print_octal (mode : Z) : list Z :=
  [ch "0" + mode / 512; ch "0" + mode / 64 mod 8; ch "0" + mode / 8 mod 8;
   ch "0" + mode mod 8].

Definition print_action (a : ChmodAction) : list Z :=
  match a with
  | Numeric mode => print_octal mode
  | Symbolic m => print_who (who m) ++ [print_op (op m)] ++ print_mask (perms m)
  end.

Definition print_rule (self : ChmodRule) : list Z :=
  print_target (target self) ++ print_action (action self).

Definition print_rules (self : ChmodRules) : list Z := join [ch ","] (print_rule <$> self).

(** A component that is read back as [rule]: no comma, nothing to trim. *)
Definition reads_as (part : list Z) (rule : ChmodRule) : Prop :=
  part ≠ [] ∧ ((ch ",") ∉ part) ∧ trim part = part ∧
  ∀ full, parse_numeric_rule full part = Ok rule.

Definition plain_char (c : Z) : bool := negb (is_whitespace c) && negb (c =? ch ",").

Lemma trim_plain part : forallb plain_char part = true → trim part = part.
Proof.
  intros Hp. unfold trim, trim_by.
  assert (Hs : ∀ l, forallb plain_char l = true → trim_start_by is_whitespace l = l).
  { intros [|c l]; [done|]. cbn [forallb trim_start_by]. unfold plain_char at 1.
    intros [[H%negb_true_iff _]%andb_true_iff _]%andb_true_iff. by rewrite H. }
  rewrite (Hs part) by done. rewrite Hs; [apply rev_involutive|].
  apply forallb_forall. intros x Hx%in_rev. rewrite forallb_forall in Hp. auto.
Qed.

Lemma plain_no_comma part : forallb plain_char part = true → (ch ",") ∉ part.
Proof.
  intros Hp Hin. rewrite forallb_forall in Hp. apply list_elem_of_In in Hin.
  by specialize (Hp _ Hin).
Qed.

Lemma octal_reads mode :
  0 ≤ mode < 4096 →
  forallb is_octal_digit (print_octal mode) = true ∧ from_octal (print_octal mode) = mode.
Proof.
  intros Hm.
  assert (H : forallb is_octal_digit (print_octal mode) &&
              (from_octal (print_octal mode) =? mode) = true).
  { by_range mode 4096%nat. }
  apply andb_true_iff in H as [H1 H2%Z.eqb_eq]. done.
Qed.

Lemma octal_plain c : is_octal_digit c = true → plain_char c = true.
Proof.
  unfold is_octal_digit. intros [H1%Z.leb_le H2%Z.leb_le]%andb_true_iff.
  change (ch "0") with 48 in H1. change (ch "7") with 55 in H2.
  assert (H : implb (48 <=? c) (plain_char c) = true) by by_range c 56%nat.
  destruct (Z.leb_spec 48 c); [done|lia].
Qed.

(** A target prefix is split off again. *)
Lemma split_print_target t c expression :
  is_octal_digit c = true ∨ c ∈ [ch "u"; ch "g"; ch "o"] →
  split_target (print_target t ++ c :: expression) = (t, c :: expression).
Proof.
  intros Hc. destruct t; [|done|done]. cbn [print_target app split_target].
  assert (H : implb ((48 <=? c) && (c <=? 55) || existsb (Z.eqb c) [ch "u"; ch "g"; ch "o"])
            (negb (c =? ch "F") && negb (c =? ch "f") && negb (c =? ch "D") &&
             negb (c =? ch "d")) = true ∧ 0 ≤ c < 128).
  { assert (Hr : 0 ≤ c < 128).
    { destruct Hc as [[H1%Z.leb_le H2%Z.leb_le]%andb_true_iff|Hc].
      - change (ch "0") with 48 in H1. change (ch "7") with 55 in H2. lia.
      - rewrite !elem_of_cons, elem_of_nil in Hc.
        destruct Hc as [->|[->|[->|[]]]]; easy. }
    split; [|done]. by_range c 128%nat. }
  destruct H as [H _].
  assert (Hp : (48 <=? c) && (c <=? 55) || existsb (Z.eqb c) [ch "u"; ch "g"; ch "o"] = true).
  { apply orb_true_iff. destruct Hc as [Hc|Hc]; [by left|right].
    rewrite existsb_exists. exists c. split; [by apply list_elem_of_In|apply Z.eqb_refl]. }
  rewrite Hp in H. cbn [implb] in H.
  apply andb_true_iff in H as [[[H1%negb_true_iff H2%negb_true_iff]%andb_true_iff
    H3%negb_true_iff]%andb_true_iff H4%negb_true_iff].
  by rewrite H1, H2, H3, H4.
Qed.

Lemma parse_print_who w o rest :
  is_who w → parse_who (print_who w ++ print_op o :: rest) = (w, print_op o :: rest).
Proof. intros Hw. who_cases w; destruct o; reflexivity. Qed.

Lemma print_who_head w :
  is_who w → ∃ c later, print_who w = c :: later ∧ c ∈ [ch "u"; ch "g"; ch "o"].
Proof.
  intros Hw. who_cases w; eexists _, _; (split; [reflexivity|]);
    rewrite !elem_of_cons; auto.
Qed.

Lemma parse_print_mask full m : parse_permissions full (print_mask m) = Ok m.
Proof. destruct m as [[] [] [] [] [] [] [] [] []]; reflexivity. Qed.

Lemma print_mask_plain m : forallb plain_char (print_mask m) = true.
Proof.
  unfold print_mask. rewrite !forallb_app, !andb_true_iff.
  repeat split; match goal with |- forallb _ (print_flag ?b _) = _ => by destruct b end.
Qed.

Lemma print_flag_plain b c : plain_char (ch c) = true → forallb plain_char (print_flag b c) = true.
Proof. intros H. destruct b; [cbn; by rewrite H|done]. Qed.

Lemma print_rule_plain rule : rule_wf rule → forallb plain_char (print_rule rule) = true.
Proof.
  unfold rule_wf, print_rule. rewrite forallb_app. intros Hwf.
  apply andb_true_iff. split; [by destruct (target rule)|].
  destruct (action rule) as [mode|m]; cbn [print_action].
  - apply forallb_forall. intros c Hc. destruct (octal_reads mode Hwf) as [H _].
    rewrite forallb_forall in H. by apply octal_plain, H.
  - rewrite !forallb_app, print_mask_plain. unfold print_who.
    rewrite !forallb_app, !print_flag_plain by done. by destruct (op m).
Qed.

Lemma parse_print_symbolic full t m :
  is_who (who m) → (mask_is_empty (perms m) = true → op m = Assign) →
  parse_numeric_rule full (print_target t ++ print_action (Symbolic m)) =
  Ok {| target := t; action := Symbolic m |}.
Proof.
  intros Hw Hm. destruct m as [w o p]. cbn [who op perms print_action] in *.
  destruct (print_who_head w Hw) as (c & later & Hwho & Hc).
  unfold parse_numeric_rule, parse_symbolic_rule.
  assert (Hs : split_target (print_target t ++ print_who w ++ [print_op o] ++ print_mask p)
             = (t, print_who w ++ print_op o :: print_mask p)).
  { rewrite Hwho. cbn [app]. apply split_print_target. auto. }
  rewrite Hs.
  assert (Hd : forallb is_octal_digit (print_who w ++ print_op o :: print_mask p) = false).
  { rewrite Hwho. cbn [app forallb]. rewrite !elem_of_cons, elem_of_nil in Hc.
    by destruct Hc as [->|[->|[->|[]]]]. }
  rewrite Hd, andb_false_r, parse_print_who by done.
  case_bool_decide as He; [by rewrite Hwho in He|]. rewrite parse_print_mask.
  destruct (mask_is_empty p) eqn:Hp.
  - rewrite (Hm eq_refl). cbn. by rewrite Hp.
  - destruct o; cbn; by rewrite Hp.
Qed.

Lemma print_rule_reads rule : rule_wf rule → reads_as (print_rule rule) rule.
Proof.
  intros Hwf. pose proof (print_rule_plain rule Hwf) as Hp.
  unfold reads_as. rewrite trim_plain by done. split; [|split; [by apply plain_no_comma|]].
  - unfold print_rule, rule_wf in *. destruct (action rule) as [mode|m]; cbn [print_action].
    + by destruct (target rule).
    + destruct (print_who_head (who m)) as (c & later & -> & _); [by destruct Hwf|].
      by destruct (target rule).
  - split; [done|]. intros full. unfold print_rule, rule_wf in *.
    destruct rule as [t [mode|m]]; cbn [target action] in *.
    + destruct (octal_reads mode Hwf) as [Hd Hv]. unfold parse_numeric_rule.
      assert (Hs : split_target (print_target t ++ print_octal mode) = (t, print_octal mode)).
      { apply split_print_target. left. cbn [print_octal forallb] in Hd.
        by apply andb_true_iff in Hd as [? _]. }
      cbn [print_action]. rewrite Hs.
      rewrite Hd, Hv. cbn [length print_octal Nat.leb andb].
      change 0xFFF with (Z.ones 12). rewrite Z.land_ones, Z.mod_small by (cbn; lia). done.
    + destruct Hwf. by apply parse_print_symbolic.
Qed.

Lemma parse_parts_reads value rules :
  Forall rule_wf rules → parse_parts value (print_rule <$> rules) = Ok rules.
Proof.
  induction 1 as [|rule rules Hwf _ IH]; [done|]. cbn [fmap list_fmap parse_parts].
  destruct (print_rule_reads rule Hwf) as (Hne & _ & -> & Hread).
  case_bool_decide; [done|]. rewrite Hread. cbn [and_then].
  change (list_fmap _ _ print_rule rules) with (print_rule <$> rules). by rewrite IH.
Qed.

(** What the parser accepts is well formed. *)
Lemma parse_who_range expression : is_who (parse_who expression).1.
Proof.
  assert (H : ∀ l w, 0 ≤ w < 8 → 0 ≤ (parse_who_from l w).1 < 8).
  { induction l as [|c l IH]; intros w Hw; cbn [parse_who_from]; [done|].
    assert (∀ b, 0 ≤ b < 8 → 0 ≤ Z.lor w b < 8)
      by (intros; change 8 with (2 ^ 3) in *; by apply lor_bound).
    repeat case_match; try done; apply IH; auto with lia; (easy || apply H); easy. }
  unfold parse_who, is_who. specialize (H expression 0 ltac:(lia)).
  destruct (parse_who_from expression 0) as [w later]. cbn [fst] in *.
  destruct (Z.eqb_spec w 0); [easy|lia].
Qed.

Lemma parse_symbolic_wf full part rule :
  parse_symbolic_rule full part = Ok rule → rule_wf rule.
Proof.
  unfold parse_symbolic_rule. destruct (split_target part) as [t expression].
  case_bool_decide; [done|]. pose proof (parse_who_range expression) as Hw.
  destruct (parse_who expression) as [w [|c permissions]]; [done|]. cbn [fst] in Hw.
  set (o := if c =? ch "+" then _ else _). destruct o as [o|]; [|done]. cbn [and_then].
  destruct (parse_permissions full permissions) as [p|]; [|done]. cbn [and_then].
  destruct (mask_is_empty p) eqn:Hp; cbn [andb].
  - case_bool_decide as Ho; [done|]. intros [= <-]. split; [done|]. intros _. cbn.
    destruct (decide (o = Assign)); [done|]. by destruct Ho.
  - intros [= <-]. split; [done|]. cbn. by rewrite Hp.
Qed.

Lemma parse_numeric_wf full part rule :
  parse_numeric_rule full part = Ok rule → rule_wf rule.
Proof.
  unfold parse_numeric_rule. destruct (split_target part) as [t digits] eqn:Hs.
  destruct (_ && forallb is_octal_digit digits) eqn:Hd; [|apply parse_symbolic_wf].
  intros [= <-]. cbn [rule_wf action]. change 0xFFF with (Z.ones 12).
  unfold rule_wf. cbn [action]. change 4095 with (Z.ones 12).
  rewrite Z.land_ones by lia. change 4096 with (2 ^ 12). apply Z.mod_pos_bound. lia.
Qed.

Lemma parse_parts_wf value parts rules :
  parse_parts value parts = Ok rules → Forall rule_wf rules.
Proof.
  revert rules. induction parts as [|part parts IH]; cbn [parse_parts]; intros rules.
  - by intros [= <-].
  - case_bool_decide; [done|].
    destruct (parse_numeric_rule value (trim part)) as [rule|] eqn:Hr; [|done].
    cbn [and_then]. destruct (parse_parts value parts) as [later|]; [|done].
    intros [= <-]. constructor; [by eapply parse_numeric_wf|by apply IH].
Qed.

Lemma from_str_wf value rules :
  from_str value = Ok rules → rules ≠ [] ∧ Forall rule_wf rules.
Proof.
  unfold from_str. intros H. split; [|by eapply parse_parts_wf].
  intros ->. pose proof (split_on_ne (ch ",") value).
  destruct (split_on (ch ",") value) as [|part parts]; [done|]. cbn [parse_parts] in H.
  case_bool_decide; [done|]. destruct (parse_numeric_rule value _); [|done].
  cbn [and_then] in H. by destruct (parse_parts value parts).
Qed.

Lemma from_str_print rules :
  rules ≠ [] → Forall rule_wf rules → from_str (print_rules rules) = Ok rules.
Proof.
  intros Hne Hwf. unfold from_str, print_rules. rewrite split_on_join.
  - by apply parse_parts_reads.
  - by destruct rules.
  - apply Forall_fmap. eapply Forall_impl; [exact Hwf|]. intros rule Hrule.
    by apply print_rule_reads.
Qed.

(** ** What a list of rules does to a mode *)

Lemma land_type_bits mode : 0 ≤ mode → Z.land (Z.land mode (not_u32 0xFFF)) 0xFFF = 0.
Proof.
  intros _. rewrite <-Z.land_assoc.
  change (Z.land (not_u32 0xFFF) 0xFFF) with 0. apply Z.land_0_r.
Qed.

Lemma land_perms_type perms : is_perms perms → Z.land perms (not_u32 0xFFF) = 0.
Proof.
  intros H. replace perms with (Z.land perms (Z.ones 12))
    by (rewrite Z.land_ones by lia; by apply Z.mod_small).
  rewrite <-Z.land_assoc. change (Z.land (Z.ones 12) (not_u32 0xFFF)) with 0.
  apply Z.land_0_r.
Qed.

Lemma mode_perms mode : is_perms (Z.land mode 0xFFF).
Proof.
  change 0xFFF with (Z.ones 12). rewrite Z.land_ones by lia. apply Z.mod_pos_bound. lia.
Qed.

(** A mode of the form the function builds: its two parts can be read off. *)
Lemma apply_parts mode perms :
  0 ≤ mode → is_perms perms →
  Z.land (Z.lor (Z.land mode (not_u32 0xFFF)) perms) 0xFFF = perms ∧
  Z.land (Z.lor (Z.land mode (not_u32 0xFFF)) perms) (not_u32 0xFFF) =
    Z.land mode (not_u32 0xFFF).
Proof.
  intros Hm Hp. rewrite !Z.land_lor_distr_l, land_type_bits, (land_perms_type perms) by done.
  rewrite <-Z.land_assoc, Z.land_diag, Z.lor_0_r, Z.lor_0_l. split; [|done].
  change 0xFFF with (Z.ones 12). rewrite Z.land_ones by lia. by apply Z.mod_small.
Qed.

Lemma apply_range rules mode kind :
  Forall rule_wf rules → in_u32 mode → in_u32 (apply rules mode kind).
Proof.
  intros Hr Hm. unfold apply. cbv zeta. apply lor_bound; [lia| |].
  - assert (H : Z.land mode (not_u32 0xFFF) = Z.land mode (not_u32 0xFFF) mod 2 ^ 32).
    { rewrite <-Z.land_ones, <-Z.land_assoc by lia. done. }
    rewrite H. apply Z.mod_pos_bound. lia.
  - pose proof (fold_perms rules (Z.land mode 0xFFF) kind Hr (mode_perms mode)) as H.
    unfold is_perms in H. lia.
Qed.

Lemma fold_relevant rules kind before :
  fold_left (λ permissions rule,
    if rule_matches rule kind then rule_apply rule permissions kind else permissions)
    rules before =
  fold_left (λ permissions rule, rule_apply rule permissions kind)
    (List.filter (λ rule, rule_matches rule kind) rules) before.
Proof.
  revert before. induction rules as [|rule rules IH]; intros before; [done|].
  cbn. destruct (rule_matches rule kind); cbn; apply IH.
Qed.

(** Applying an accepted list of rules to a 32-bit mode keeps the file
    type bits, yields a 32-bit mode, and on the permissions is the sequence of the
    rules whose target is this kind of file, from the left: a list that is cut in two
    does in two passes what it does in one. *)
Theorem accepted_rules_apply value rules mode kind :
  from_str value = Ok rules →
  in_u32 mode →
  Z.land (apply rules mode kind) (not_u32 0xFFF) = Z.land mode (not_u32 0xFFF) ∧
  Z.land (apply rules mode kind) 0xFFF =
    fold_left (λ permissions rule, rule_apply rule permissions kind)
      (List.filter (λ rule, rule_matches rule kind) rules) (Z.land mode 0xFFF) ∧
  in_u32 (apply rules mode kind) ∧
  ∀ front back, rules = front ++ back →
    apply rules mode kind = apply back (apply front mode kind) kind.
Proof.
  intros [_ Hwf]%from_str_wf Hm. assert (0 ≤ mode) by apply Hm.
  pose proof (fold_perms rules _ kind Hwf (mode_perms mode)) as Hp.
  destruct (apply_parts mode _ ltac:(done) Hp) as [H1 H2].
  split; [exact H2|]. split; [by rewrite <-fold_relevant|].
  split; [by apply apply_range|].
  intros front back ->. apply Forall_app in Hwf as [Hf Hb].
  destruct (apply_parts mode _ ltac:(done) (fold_perms front _ kind Hf (mode_perms mode)))
    as [H3 H4].
  unfold apply at 1 2. cbv zeta. unfold apply. cbv zeta.
  rewrite H3, H4, fold_left_app. done.
Qed.

Lemma accepted_rules_apply_witness :
  from_str (lit "Dgo=rx,F600") = Ok
    [{| target := Directories; action := Symbolic {| who := 6; op := Assign;
          perms := {| read := true; write := false; exec := true; conditional_exec := false;
                      setid := false; sticky := false; copy_user := false;
                      copy_group := false; copy_other := false |} |} |};
     {| target := Files; action := Numeric 0x180 |}] ∧
  Z.land (apply [{| target := Files; action := Numeric 0x180 |}] 0x81FF File)
    (not_u32 0xFFF) = 0x8000.
Proof.
  split; [vm_compute; reflexivity|].
  exact (proj1 (accepted_rules_apply (lit "F600") _ 0x81FF File
    ltac:(vm_compute; reflexivity) ltac:(split; [discriminate|reflexivity]))).
Defined.

(** The accepted lists of rules are exactly the non-empty lists of rules in
    range (a mode of at most four octal digits; at least one class, and some permission
    unless the operation is [=]), and each has a written form that the parser reads back
    as the same list. *)
Theorem rules_read_back rules :
  (∃ value, from_str value = Ok rules) ↔
  rules ≠ [] ∧ Forall rule_wf rules ∧ from_str (print_rules rules) = Ok rules.
Proof.
  split.
  - intros [value [Hne Hwf]%from_str_wf]. repeat split; [done..|].
    by apply from_str_print.
  - intros (_ & _ & H). by exists (print_rules rules).
Qed.
