(* ===== verification/Session.v ===== *)
(** * Remote-shell sessions: crates/rsync-protocol/src/session.rs

    Operands, the server's arguments and their quoting for the remote shell, the
    handshakes of protocols 27 and 31 and the choice of algorithms.  Strings are
    lists of characters, encoded where they meet the wire; a path is the text that
    [to_string_lossy] gives for it. *)

From S2P Require Import Prelude Stream WireIo Str Flist.

Definition REMOTE_SHELL_MVP_PROTOCOL : Z := 27.
Definition REMOTE_SHELL_MODERN_PROTOCOL : Z := 31.
Definition RSYNC_PROTOCOL31_CHECKSUM_LIST : list Z := lit "md4".
Definition RSYNC_CF_VARINT_FLIST_FLAGS : Z := Z.shiftl 1 7.

Inductive SessionError :=
| NulByteInPath
| DaemonOperand (operand : list Z)
| MissingRemoteHost (operand : list Z)
| MissingRemotePath (operand : list Z)
| NonProtocolOutput (text : list Z)
| IncompleteProtocolPrefix
| InvalidProtocolPrefix (version : Z)
| RemoteErrorMessage (message : list Z)
| UnsupportedMultiplexMessage (tag len : Z).

Inductive RemoteSessionError :=
| SessionIo (e : io_error)
| SessionFailed (e : SessionError)
| VersionFailed (e : VersionError)
| FileListFailed (e : FileListError)
| UnsupportedProtocol (negotiated supported : Z)
| InvalidFileIndex (index file_count : Z)
| NonFileBlockRequest (index : Z)
| FileChecksumMismatch (path : list Z)
| FileLengthExceeded (path : list Z) (expected actual : Z)
| FileLengthShort (path : list Z) (expected actual : Z)
| InvalidPhaseAck (ack : Z)
| InvalidFinalAck (ack : Z)
| UnexpectedToken (token : Z) (path : list Z)
| UnsupportedChecksumNegotiation
| InvalidChecksumList
| UnsupportedCompressionNegotiation.

(** ** Names of algorithms *)

Definition normalize_name (name : list Z) : list Z := to_ascii_lowercase (trim name).

Definition normalized_name_list (names : list Z) : list (list Z) :=
  List.filter (λ name, bool_decide (name ≠ []) && bool_decide (name ≠ lit "auto"))
    (normalize_name <$> split_by (λ c, (c =? ch ",") || is_ascii_whitespace c) names).

Record Protocol31SetupOptions := {
  checksum_choices : list (list Z);
  setup_checksum_seed : option Z;
}.

Definition default_setup : Protocol31SetupOptions :=
  {| checksum_choices := [lit "md4"]; setup_checksum_seed := None |}.

Definition protocol31_client_checksum_list (options : Protocol31SetupOptions) : list Z :=
  match checksum_choices options with
  | [] => RSYNC_PROTOCOL31_CHECKSUM_LIST
  | choices => join (lit " ") (normalized_name_list (join (lit ",") choices))
  end.

Definition select_protocol31_checksum (client_list server_list : list Z) : option (list Z) :=
  let server_names := normalized_name_list server_list in
  List.find (λ name, bool_decide (name ∈ server_names)) (normalized_name_list client_list).

(** ** Compression *)

Inductive CompressionAlgorithm := Zlib | Zlibx.

(** The mode of deflated tokens a [--compress-choice] names. *)
Inductive RsyncDeflatedTokenMode := TokensZlib | TokensZlibx.

Definition from_choice (choice : option (list Z)) :
    result RsyncDeflatedTokenMode RemoteSessionError :=
  match normalize_name <$> choice with
  | None => Ok TokensZlibx
  | Some name =>
      if bool_decide (name = lit "zlibx") then Ok TokensZlibx
      else if bool_decide (name = lit "zlib") then Ok TokensZlib
      else Err UnsupportedCompressionNegotiation
  end.

Record CompressionConfig := {
  enabled : bool;
  choices : list (list Z);
  config_level : option Z;
  config_threads : option Z;
  config_skip_suffixes : list (list Z);
}.

Record NegotiatedCompression := {
  algorithm : CompressionAlgorithm;
  level : Z;
  threads : option Z;
  skip_suffixes : list (list Z);
}.

Definition negotiate (self : CompressionConfig) (peer_choices : list (list Z)) :
    result (option NegotiatedCompression) RemoteSessionError :=
  if negb (enabled self) then Ok None
  else
    let local_choices :=
      match choices self with
      | [] => [lit "zlib"]
      | choices => normalized_name_list (join (lit ",") choices)
      end in
    let peer_choices := normalize_name <$> peer_choices in
    let? selected := ok_or
      (List.find (λ choice,
         (bool_decide (choice = lit "zlib") || bool_decide (choice = lit "zlibx")) &&
         bool_decide (choice ∈ peer_choices)) local_choices)
      UnsupportedCompressionNegotiation in
    Ok (Some {| algorithm := if bool_decide (selected = lit "zlibx") then Zlibx else Zlib;
                level := Z.min (default 6 (config_level self)) 9;
                threads := config_threads self;
                skip_suffixes := config_skip_suffixes self |}).

(** [suffix.trim_start_matches("*.")] *)
Fixpoint trim_star_dot (s : list Z) : list Z :=
  match s with
  | c1 :: c2 :: s' => if (c1 =? ch "*") && (c2 =? ch ".") then trim_star_dot s' else s
  | _ => s
  end.

Definition bare_suffix (suffix : list Z) : list Z :=
  trim_start_matches (ch ".") (trim_star_dot (trim suffix)).

Definition should_skip_path (self : NegotiatedCompression) (path : list Z) : bool :=
  let path := to_ascii_lowercase path in
  existsb (λ suffix, ends_with path (ch "." :: to_ascii_lowercase suffix))
    (List.filter (λ suffix, bool_decide (suffix ≠ [])) (bare_suffix <$> skip_suffixes self)).

(** ** Operands *)

Record RemoteShellOperand := { host : list Z; operand_path : list Z }.

Definition parse_operand (operand : list Z) :
    result (option RemoteShellOperand) SessionError :=
  if starts_with operand (lit "rsync://") || contains_str operand (lit "::")
  then Err (DaemonOperand operand)
  else match split_once (ch ":") operand with
  | None => Ok None
  | Some (host, path) =>
      if (length host =? 1)%nat && forallb is_ascii_alphabetic host then Ok None
      else if contains host (ch "/") || contains host (ch "\") then Ok None
      else if bool_decide (host = []) then Err (MissingRemoteHost operand)
      else if bool_decide (path = []) then Err (MissingRemotePath operand)
      else Ok (Some {| host := host; operand_path := path |})
  end.

Example drive_letter : parse_operand (lit "C:\tmp") = Ok None.
Proof. vm_compute. reflexivity. Qed.
Example remote_operand : parse_operand (lit "user@host:dir/") =
  Ok (Some {| host := lit "user@host"; operand_path := lit "dir/" |}).
Proof. vm_compute. reflexivity. Qed.
Example zlib_names : normalized_name_list (lit "auto, MD4  md5,,") = [lit "md4"; lit "md5"].
Proof. vm_compute. reflexivity. Qed.
