(* ===== verification/RemoteArgs.v ===== *)
(** * The server's command line: session.rs, [build_remote_shell_*] and quoting

    Arguments are lists of characters.  In the properties the remote shell is given its
    POSIX meaning: unquoted blanks separate words, single quotes and backslashes quote,
    and any other character with a meaning of its own makes the command one this model
    refuses to read. *)

From S2P Require Import Prelude Stream WireIo Str Flist FilesFrom Session.

Inductive TransferDirection := Push | Pull.
Inductive RemoteDeleteMode := NoDelete | Before | During | Delay | After.

#[export] Instance TransferDirection_eq_dec : EqDecision TransferDirection.
Proof. solve_decision. Defined.

Record RemoteShellOptions := {
  rsync_path : list Z;
  direction : TransferDirection;
  secluded_args : bool;
  recursive : bool;
  incremental_recursion : bool;
  preserve_times : bool;
  delete_mode : RemoteDeleteMode;
  dry_run : bool;
  whole_file : bool;
  verbosity : Z;
  preserve_permissions : bool;
  use_checksum : bool;
  checksum_choice : option (list Z);
  checksum_seed_option : option Z;
  size_only : bool;
  ignore_times : bool;
  partial : bool;
  partial_dir : option (list Z);
  inplace : bool;
  append_verify : bool;
  executability : bool;
  owner : bool;
  group : bool;
  numeric_ids_option : bool;
  user_maps : list (list Z);
  group_maps : list (list Z);
  chown : option (list Z);
  chmod_option : option (list Z);
  acls_option : bool;
  xattrs_option : bool;
  fake_super_option : bool;
  atimes_option : bool;
  crtimes_option : bool;
  omit_dir_times : bool;
  omit_link_times : bool;
  preserve_links : bool;
  copy_links : bool;
  copy_dirlinks : bool;
  keep_dirlinks : bool;
  safe_links : bool;
  copy_unsafe_links : bool;
  munge_links : bool;
  hard_links : bool;
  preserve_devices : bool;
  preserve_specials : bool;
  copy_devices : bool;
  write_devices : bool;
  block_size : option Z;
  compress : bool;
  compress_choice : option (list Z);
  compress_level : option Z;
  compress_threads : option Z;
  skip_compress : list (list Z);
  outbuf : option (list Z);
  remote_options : list (list Z);
  includes : list (list Z);
  excludes : list (list Z);
  filters : list (list Z);
}.

Record RemoteShellInvocation := { argv : list (list Z); protected_args : list (list Z) }.

(** [if flag { argv.push(arg) }], and the options that carry a value. *)
Definition flag_arg (flag : bool) (arg : string) : list (list Z) :=
  if flag then [lit arg] else [].
Definition value_arg (prefix : string) (value : option (list Z)) : list (list Z) :=
  match value with Some value => [lit prefix ++ value] | None => [] end.
Definition value_args (prefix : string) (values : list (list Z)) : list (list Z) :=
  (λ value, lit prefix ++ value) <$> values.

Definition append_remote_shell_long_options (o : RemoteShellOptions) : list (list Z) :=
  remote_options o ++
  flag_arg (use_checksum o) "--checksum" ++
  value_arg "--checksum-choice=" (checksum_choice o) ++
  value_arg "--checksum-seed=" (decimal <$> checksum_seed_option o) ++
  flag_arg (preserve_permissions o) "--perms" ++
  flag_arg (executability o) "--executability" ++
  flag_arg (owner o) "--owner" ++
  flag_arg (group o) "--group" ++
  flag_arg (size_only o) "--size-only" ++
  flag_arg (ignore_times o) "--ignore-times" ++
  flag_arg (partial o) "--partial" ++
  value_arg "--partial-dir=" (partial_dir o) ++
  flag_arg (inplace o) "--inplace" ++
  flag_arg (append_verify o) "--append-verify" ++
  flag_arg (numeric_ids_option o) "--numeric-ids" ++
  value_args "--usermap=" (user_maps o) ++
  value_args "--groupmap=" (group_maps o) ++
  value_arg "--chown=" (chown o) ++
  value_arg "--chmod=" (chmod_option o) ++
  flag_arg (acls_option o) "--acls" ++
  flag_arg (xattrs_option o) "--xattrs" ++
  flag_arg (fake_super_option o) "--fake-super" ++
  flag_arg (atimes_option o) "--atimes" ++
  flag_arg (crtimes_option o) "--crtimes" ++
  flag_arg (omit_dir_times o) "--omit-dir-times" ++
  flag_arg (omit_link_times o) "--omit-link-times" ++
  flag_arg (preserve_links o) "--links" ++
  flag_arg (copy_links o) "--copy-links" ++
  flag_arg (copy_dirlinks o) "--copy-dirlinks" ++
  flag_arg (keep_dirlinks o) "--keep-dirlinks" ++
  flag_arg (safe_links o) "--safe-links" ++
  flag_arg (copy_unsafe_links o) "--copy-unsafe-links" ++
  flag_arg (munge_links o) "--munge-links" ++
  flag_arg (hard_links o) "--hard-links" ++
  flag_arg (preserve_devices o) "--devices" ++
  flag_arg (preserve_specials o) "--specials" ++
  flag_arg (copy_devices o) "--copy-devices" ++
  flag_arg (write_devices o) "--write-devices" ++
  value_arg "--block-size=" (decimal <$> block_size o) ++
  flag_arg (compress o) "--compress" ++
  value_arg "--compress-choice=" (compress_choice o) ++
  value_arg "--compress-level=" (decimal <$> compress_level o) ++
  value_arg "--compress-threads=" (decimal <$> compress_threads o) ++
  value_args "--skip-compress=" (skip_compress o) ++
  value_arg "--outbuf=" (outbuf o) ++
  value_args "--include=" (includes o) ++
  value_args "--exclude=" (excludes o) ++
  value_args "--filter=" (filters o).

Definition append_remote_delete_option (mode : RemoteDeleteMode) : list (list Z) :=
  match mode with
  | NoDelete => []
  | Before => [lit "--delete-before"]
  | During => [lit "--delete-during"]
  | Delay => [lit "--delete-delay"]
  | After => [lit "--delete-after"]
  end.

Fixpoint append_paths (paths : list (list Z)) : result (list (list Z)) SessionError :=
  match paths with
  | [] => Ok []
  | path :: paths =>
      if contains path 0 then Err NulByteInPath
      else let? later := append_paths paths in Ok (path :: later)
  end.

Definition append_remote_paths (paths : list (list Z)) : result (list (list Z)) SessionError :=
  match paths with
  | [] => Err (MissingRemotePath [])
  | _ => append_paths paths
  end.

(** [rsync_path --server], and [--sender] when the peer sends. *)
Definition server_head (o : RemoteShellOptions) : list (list Z) :=
  [rsync_path o; lit "--server"] ++
  flag_arg (bool_decide (direction o = Pull)) "--sender".

Definition remote_shell_invocation_for_argv (o : RemoteShellOptions)
    (args : list (list Z)) : RemoteShellInvocation :=
  if negb (secluded_args o) then {| argv := args; protected_args := [] |}
  else
    let skip := (if bool_decide (direction o = Pull) then 3 else 2)%nat in
    {| argv := server_head o ++ [lit "-s"];
       protected_args := lit "rsync" :: drop skip args |}.

(** The [argv] the protocol-27 builder has assembled before it may split it. *)
Definition server_args (o : RemoteShellOptions) (paths : list (list Z)) :
    result (list (list Z)) SessionError :=
  let args :=
    server_head o ++
    flag_arg (recursive o) "--recursive" ++
    flag_arg (preserve_times o) "--times" ++
    append_remote_delete_option (delete_mode o) ++
    flag_arg (recursive o && negb (incremental_recursion o)) "--no-inc-recursive" ++
    flag_arg (dry_run o) "--dry-run" ++
    flag_arg (whole_file o) "--whole-file" ++
    append_remote_shell_long_options o ++
    replicate (Z.to_nat (verbosity o)) (lit "-v") ++
    [lit "."] in
  let? paths := append_remote_paths paths in
  Ok (args ++ paths).

Definition build_remote_shell_invocation_for_paths (o : RemoteShellOptions)
    (paths : list (list Z)) : result RemoteShellInvocation SessionError :=
  let? args := server_args o paths in
  Ok (remote_shell_invocation_for_argv o args).

Definition build_remote_shell_argv_for_paths (o : RemoteShellOptions)
    (paths : list (list Z)) : result (list (list Z)) SessionError :=
  let? invocation := build_remote_shell_invocation_for_paths o paths in
  Ok (argv invocation).

Definition build_remote_shell_argv (o : RemoteShellOptions) (path : list Z) :
    result (list (list Z)) SessionError :=
  build_remote_shell_argv_for_paths o [path].

(** [short_args.push(c)] under a condition. *)
Definition flag_char (flag : bool) (c : ascii) : list Z := if flag then [ch c] else [].

Definition short_args (o : RemoteShellOptions) : list Z :=
  lit "-" ++
  replicate (Z.to_nat (verbosity o)) (ch "v") ++
  flag_char (dry_run o) "n" ++
  flag_char (whole_file o) "W" ++
  flag_char (preserve_times o) "t" ++
  flag_char (recursive o) "r" ++
  lit "e." ++
  flag_char (incremental_recursion o) "i" ++
  lit "LsfxCIvu".

Definition server_args31 (o : RemoteShellOptions) (paths : list (list Z)) :
    result (list (list Z)) SessionError :=
  let args :=
    server_head o ++
    append_remote_delete_option (delete_mode o) ++
    flag_arg (recursive o && negb (incremental_recursion o)) "--no-inc-recursive" ++
    append_remote_shell_long_options o ++
    [short_args o; lit "."] in
  let? paths := append_remote_paths paths in
  Ok (args ++ paths).

Definition build_remote_shell_protocol31_invocation_for_paths (o : RemoteShellOptions)
    (paths : list (list Z)) : result RemoteShellInvocation SessionError :=
  let? args := server_args31 o paths in
  Ok (remote_shell_invocation_for_argv o args).

Definition build_remote_shell_protocol31_argv_for_paths (o : RemoteShellOptions)
    (paths : list (list Z)) : result (list (list Z)) SessionError :=
  let? invocation := build_remote_shell_protocol31_invocation_for_paths o paths in
  Ok (argv invocation).

Definition build_remote_shell_protocol31_argv (o : RemoteShellOptions) (path : list Z) :
    result (list (list Z)) SessionError :=
  build_remote_shell_protocol31_argv_for_paths o [path].

Definition default_remote_options : RemoteShellOptions :=
  {| rsync_path := lit "rsync"; direction := Push; secluded_args := false;
     recursive := false; incremental_recursion := false; preserve_times := false;
     delete_mode := NoDelete; dry_run := true; whole_file := true; verbosity := 0;
     preserve_permissions := false; use_checksum := false; checksum_choice := None;
     checksum_seed_option := None; size_only := false; ignore_times := false;
     partial := false; partial_dir := None; inplace := false; append_verify := false;
     executability := false; owner := false; group := false; numeric_ids_option := false;
     user_maps := []; group_maps := []; chown := None; chmod_option := None;
     acls_option := false; xattrs_option := false; fake_super_option := false;
     atimes_option := false; crtimes_option := false; omit_dir_times := false;
     omit_link_times := false; preserve_links := false; copy_links := false;
     copy_dirlinks := false; keep_dirlinks := false; safe_links := false;
     copy_unsafe_links := false; munge_links := false; hard_links := false;
     preserve_devices := false; preserve_specials := false; copy_devices := false;
     write_devices := false; block_size := None; compress := false;
     compress_choice := None; compress_level := None; compress_threads := None;
     skip_compress := []; outbuf := None; remote_options := []; includes := [];
     excludes := []; filters := [] |}.

Section protected.
Context {W : Type} `{Write W}.

Definition write_protected_arg (arg : list Z) : M W io_error unit :=
  if bool_decide (arg = []) then write_all (lit "." ++ [0])
  else write_all (encode_chars arg);; write_all [0].

Definition write_remote_shell_protected_args (args : list (list Z)) : M W io_error unit :=
  match args with
  | [] => mret ()
  | _ => for_each write_protected_arg args;; write_all [0]
  end.
End protected.

(** ** Quoting for the remote shell *)

Definition plain_shell_char (c : Z) : bool :=
  is_ascii_alphanumeric c || existsb (Z.eqb c) [ch "_"; ch "-"; ch "/"; ch "."; ch "="].

Definition quote_char (c : Z) : list Z := if c =? ch "'" then lit "'\''" else [c].

Definition shell_quote (value : list Z) : list Z :=
  if bool_decide (value ≠ []) && forallb plain_shell_char value then value
  else lit "'" ++ concat (quote_char <$> value) ++ lit "'".

Fixpoint shell_join_from (first : bool) (args : list (list Z)) : result (list Z) SessionError :=
  match args with
  | [] => Ok []
  | arg :: args =>
      if contains arg 0 then Err NulByteInPath
      else
        let? later := shell_join_from false args in
        Ok ((if first then [] else [ch " "]) ++ shell_quote arg ++ later)
  end.

Definition shell_join (args : list (list Z)) : result (list Z) SessionError :=
  shell_join_from true args.

Definition build_ssh_remote_command (host : list Z) (server_argv : list (list Z)) :
    result (list (list Z)) SessionError :=
  if contains host 0 then Err NulByteInPath
  else let? command := shell_join server_argv in Ok [host; command].

Example quoted : shell_join [lit "rsync"; lit "--server"; lit "it's here"] =
  Ok (lit "rsync --server 'it'\''s here'").
Proof. vm_compute. reflexivity. Qed.
Example protocol31_short : short_args default_remote_options = lit "-nWe.LsfxCIvu".
Proof. vm_compute. reflexivity. Qed.

(** ** Reading a command as a POSIX shell does *)

(** Unquoted characters that would be more than text. *)
Definition shell_special (c : Z) : bool :=
  existsb (Z.eqb c)
    [ch "|"; ch "&"; ch ";"; ch "<"; ch ">"; ch "("; ch ")"; ch "$"; ch "`"; 34; 9; 10;
     ch "*"; ch "?"; ch "["; ch "]"; ch "#"; ch "~"; ch "%"; ch "!"; ch "{"; ch "}"].

(** [word] is the word being read, if one has begun. *)
Fixpoint shell_words_from (quoted : bool) (word : option (list Z)) (s : list Z) :
    option (list (list Z)) :=
  match s with
  | [] =>
      if quoted then None
      else Some (match word with Some word => [word] | None => [] end)
  | c :: s =>
      if quoted then
        if c =? ch "'" then shell_words_from false word s
        else shell_words_from true (Some (default [] word ++ [c])) s
      else if c =? ch " " then
        match word with
        | Some word => cons word <$> shell_words_from false None s
        | None => shell_words_from false None s
        end
      else if c =? ch "'" then shell_words_from true (Some (default [] word)) s
      else if c =? ch "\" then
        match s with
        | d :: s =>
            if d =? 10 then None
            else shell_words_from false (Some (default [] word ++ [d])) s
        | [] => None
        end
      else if shell_special c then None
      else shell_words_from false (Some (default [] word ++ [c])) s
  end.

Definition shell_words (command : list Z) : option (list (list Z)) :=
  shell_words_from false None command.

Lemma plain_char_reads c word s :
  plain_shell_char c = true →
  shell_words_from false word (c :: s) = shell_words_from false (Some (default [] word ++ [c])) s.
Proof.
  intros Hc.
  assert (H : (c =? ch " ") = false ∧ (c =? ch "'") = false ∧ (c =? ch "\") = false ∧
              shell_special c = false).
  { assert (Hr : 0 ≤ c < 128).
    { unfold plain_shell_char, is_ascii_alphanumeric, is_ascii_alphabetic, is_ascii_digit,
        in_range in Hc. cbn [existsb] in Hc.
      repeat (apply orb_prop in Hc as [Hc|Hc]);
        first [discriminate Hc | apply Z.eqb_eq in Hc as ->; done | lia]. }
    assert (Hb : implb (plain_shell_char c)
              (negb ((c =? ch " ") || (c =? ch "'") || (c =? ch "\") || shell_special c)) = true)
      by by_range c 128%nat.
    rewrite Hc in Hb. cbn [implb] in Hb.
    by apply negb_true_iff, orb_false_iff in Hb as [[[? ?]%orb_false_iff ?]%orb_false_iff ?]. }
  destruct H as (H1 & H2 & H3 & H4). cbn [shell_words_from]. by rewrite H1, H2, H3, H4.
Qed.

Lemma plain_word_reads value word s :
  forallb plain_shell_char value = true →
  shell_words_from false (Some word) (value ++ s) = shell_words_from false (Some (word ++ value)) s.
Proof.
  revert word. induction value as [|c value IH]; intros word Hv; [by rewrite app_nil_r|].
  cbn [forallb] in Hv. apply andb_prop in Hv as [Hc Hv]. cbn [app].
  rewrite plain_char_reads by done. cbn [default]. rewrite IH by done. by rewrite <-app_assoc.
Qed.

Lemma quoted_word_reads value word s :
  shell_words_from true (Some word) (concat (quote_char <$> value) ++ ch "'" :: s) =
  shell_words_from false (Some (word ++ value)) s.
Proof.
  revert word. induction value as [|c value IH]; intros word; [by rewrite app_nil_r|].
  cbn [fmap list_fmap concat]. rewrite <-app_assoc. unfold quote_char at 1.
  destruct (Z.eqb_spec c (ch "'")) as [->|Hc].
  - transitivity (shell_words_from true (Some (word ++ [ch "'"]))
      (concat (quote_char <$> value) ++ ch "'" :: s)); [reflexivity|].
    rewrite IH. by rewrite <-app_assoc.
  - cbn [app shell_words_from]. rewrite (proj2 (Z.eqb_neq _ _) Hc). cbn [default].
    rewrite IH. by rewrite <-app_assoc.
Qed.

(** One quoted argument is one word. *)
Lemma shell_quote_reads value s :
  shell_words_from false None (shell_quote value ++ s) = shell_words_from false (Some value) s.
Proof.
  unfold shell_quote. case_bool_decide as Hne; cbn [andb].
  - destruct (forallb plain_shell_char value) eqn:Hp.
    + destruct value as [|c value]; [done|]. cbn [forallb] in Hp.
      apply andb_prop in Hp as [Hc Hv]. cbn [app]. rewrite plain_char_reads by done.
      by rewrite plain_word_reads.
    + rewrite <-!app_assoc. cbn [lit app shell_words_from]. cbn -[shell_words_from].
      apply (quoted_word_reads value []).
  - rewrite <-!app_assoc. apply (quoted_word_reads value []).
Qed.

Lemma shell_join_reads first args command :
  shell_join_from first args = Ok command →
  if first then shell_words_from false None command = Some args
  else ∀ word, shell_words_from false (Some word) command = Some (word :: args).
Proof.
  revert first command. induction args as [|arg args IH]; intros first command;
    cbn [shell_join_from].
  - intros [= <-]. by destruct first.
  - destruct (contains arg 0); [done|].
    destruct (shell_join_from false args) as [later|] eqn:Hl; [|done]. cbn [and_then].
    intros [= <-]. specialize (IH false later Hl). cbn iota in IH. destruct first.
    + cbn [app]. by rewrite shell_quote_reads, IH.
    + intros word. cbn [app shell_words_from]. change (ch " " =? ch " ") with true. cbn iota.
      by rewrite shell_quote_reads, IH.
Qed.

Lemma shell_join_fails first args e :
  shell_join_from first args = Err e → e = NulByteInPath ∧ Exists (λ arg, 0 ∈ arg) args.
Proof.
  revert first e. induction args as [|arg args IH]; intros first e; cbn [shell_join_from]; [done|].
  destruct (contains arg 0) eqn:Hc.
  - intros [= <-]. split; [done|]. constructor. by apply contains_spec.
  - destruct (shell_join_from false args) eqn:Hl; [done|]. cbn [and_then]. intros [= <-].
    destruct (IH _ _ Hl) as [-> Hex]. split; [done|]. by right.
Qed.

(** The command built for the remote shell is read by a POSIX shell as exactly
    the arguments it was built from, whatever characters they hold: no argument is
    split, expanded or run.  The one refusal is an argument with a NUL byte. *)
Theorem shell_command_is_the_arguments args :
  match shell_join args with
  | Ok command => shell_words command = Some args
  | Err e => e = NulByteInPath ∧ Exists (λ arg, 0 ∈ arg) args
  end.
Proof.
  destruct (shell_join args) as [command|e] eqn:Hj.
  - exact (shell_join_reads true args command Hj).
  - exact (shell_join_fails true args e Hj).
Qed.

(** ** Secluded arguments *)

(** What the server reads: NUL-terminated records up to an empty one. *)
Fixpoint until_empty (records : list (list Z)) : list (list Z) :=
  match records with
  | [] | [] :: _ => []
  | record :: records => record :: until_empty records
  end.

Definition read_protected (bytes : list Z) : option (list (list Z)) :=
  mapM decode_utf8 (until_empty (split_on 0 bytes)).

(** An empty argument is sent as a dot. *)
Definition dotted (arg : list Z) : list Z := if bool_decide (arg = []) then lit "." else arg.

Definition wire_arg (arg : list Z) : Prop := forallb is_scalar arg = true ∧ 0 ∉ arg.

Definition protected_bytes (args : list (list Z)) : list Z :=
  concat ((λ part, part ++ [0]) <$> ((λ arg, encode_chars (dotted arg)) <$> args)).

Lemma dotted_bytes arg :
  wire_arg arg →
  encode_chars (dotted arg) ≠ [] ∧ (0 ∉ encode_chars (dotted arg)) ∧
  decode_utf8 (encode_chars (dotted arg)) = Some (dotted arg).
Proof.
  intros [Hs H0]. unfold dotted. case_bool_decide as He.
  - split_and!; [done| |done]. apply not_elem_Forall. by repeat constructor.
  - destruct (encode_chars_nonzero arg Hs H0 He). split_and!; [done..|].
    by apply decode_encode_chars.
Qed.

Lemma until_empty_app records :
  Forall (λ r, r ≠ []) records → until_empty (records ++ [[]; []]) = records.
Proof.
  induction 1 as [|r records Hr _ IH]; [done|]. cbn [app until_empty].
  destruct r; [done|]. by rewrite IH.
Qed.

Lemma read_protected_bytes args :
  Forall wire_arg args → read_protected (protected_bytes args ++ [0]) = Some (dotted <$> args).
Proof.
  intros Ha. unfold read_protected, protected_bytes.
  set (parts := (λ arg, encode_chars (dotted arg)) <$> args).
  replace (concat _ ++ [0]) with (concat ((λ part, part ++ [0]) <$> (parts ++ [[]])))
    by (rewrite fmap_app, concat_app; done).
  rewrite split_terminated; [|apply Forall_app; split; [|repeat constructor; apply not_elem_of_nil]].
  - rewrite <-app_assoc. change ([[]] ++ [[]]) with ([[]; []] : list (list Z)).
    rewrite until_empty_app.
    + unfold parts. clear parts. induction Ha as [|arg args Harg _ IH]; [done|].
      cbn [fmap list_fmap]. destruct (dotted_bytes arg Harg) as (_ & _ & Hd).
      cbn. rewrite Hd. cbn. change (list_fmap _ _ ?f args) with (f <$> args).
      by rewrite IH.
    + apply Forall_fmap. eapply Forall_impl; [exact Ha|]. intros arg Harg.
      by destruct (dotted_bytes arg Harg).
  - apply Forall_fmap. eapply Forall_impl; [exact Ha|]. intros arg Harg.
    by destruct (dotted_bytes arg Harg) as (_ & ? & _).
Qed.

Lemma writes_protected {W} `{WriteLaws W} args :
  args ≠ [] →
  writes (W:=W) (write_remote_shell_protected_args args) (protected_bytes args ++ [0]) ().
Proof.
  intros Hne. destruct args as [|arg0 args0]; [done|].
  unfold write_remote_shell_protected_args. generalize (arg0 :: args0). clear. intros args.
  eapply writes_bind; [|apply writes_all]. unfold protected_bytes.
  induction args as [|arg args IH]; [apply writes_ret|].
  cbn [for_each fmap list_fmap concat]. eapply writes_bind; [|exact IH].
  unfold write_protected_arg, dotted. case_bool_decide; [apply writes_all|].
  eapply writes_bind; apply writes_all.
Qed.

(** The two builders and the arguments they assemble. *)
Definition build_invocation (modern : bool) :=
  if modern then build_remote_shell_protocol31_invocation_for_paths
  else build_remote_shell_invocation_for_paths.
Definition full_args (modern : bool) := if modern then server_args31 else server_args.

Lemma server_args_head modern o paths args :
  full_args modern o paths = Ok args → ∃ later, args = server_head o ++ later.
Proof.
  destruct modern; cbn [full_args]; unfold server_args, server_args31;
    (destruct (append_remote_paths paths) as [tail|]; [|done]); intros [= <-];
    rewrite <-app_assoc; eauto.
Qed.

Lemma build_invocation_ok modern o paths inv :
  build_invocation modern o paths = Ok inv →
  ∃ args, full_args modern o paths = Ok args ∧ inv = remote_shell_invocation_for_argv o args.
Proof.
  destruct modern; cbn [build_invocation full_args];
    unfold build_remote_shell_protocol31_invocation_for_paths,
      build_remote_shell_invocation_for_paths;
    [destruct (server_args31 o paths) as [args|]|destruct (server_args o paths) as [args|]];
    intros [= <-]; eauto.
Qed.

(** With secluded arguments the command line the remote shell sees is the
    program, [--server], [--sender] when the peer sends, and [-s]; everything else goes
    over the stream, from which the server reads [rsync] and then the arguments it would
    have had on the command line, in order, an empty one as a dot.  Without them the
    command line is the whole and nothing is protected. *)
Theorem secluded_args_reach_the_server {W} `{WriteLaws W} modern o paths inv :
  build_invocation modern o paths = Ok inv →
  ∃ later, full_args modern o paths = Ok (server_head o ++ later) ∧
    if secluded_args o then
      argv inv = server_head o ++ [lit "-s"] ∧
      (Forall wire_arg later →
        ∃ bytes, writes (W:=W) (write_remote_shell_protected_args (protected_args inv)) bytes () ∧
          read_protected bytes = Some (lit "rsync" :: (dotted <$> later)))
    else argv inv = server_head o ++ later ∧ protected_args inv = [].
Proof.
  intros (args & Hargs & ->)%build_invocation_ok.
  destruct (server_args_head _ _ _ _ Hargs) as [later ->]. exists later. split; [done|].
  unfold remote_shell_invocation_for_argv. destruct (secluded_args o); [|done].
  cbn [negb argv protected_args]. split; [done|]. intros Hl.
  replace (drop _ (server_head o ++ later)) with later.
  - exists (protected_bytes (lit "rsync" :: later) ++ [0]).
    split; [by apply writes_protected|]. rewrite read_protected_bytes; [done|].
    constructor; [|done]. split; [done|]. apply not_elem_Forall. by repeat constructor.
  - unfold server_head, flag_arg. by case_bool_decide.
Qed.

Definition secluded_options : RemoteShellOptions :=
  {| rsync_path := lit "rsync"; direction := Pull; secluded_args := true;
     recursive := true; incremental_recursion := false; preserve_times := true;
     delete_mode := NoDelete; dry_run := false; whole_file := true; verbosity := 1;
     preserve_permissions := true; use_checksum := false; checksum_choice := None;
     checksum_seed_option := Some 7; size_only := false; ignore_times := false;
     partial := false; partial_dir := None; inplace := false; append_verify := false;
     executability := false; owner := false; group := false; numeric_ids_option := false;
     user_maps := []; group_maps := []; chown := None; chmod_option := None;
     acls_option := false; xattrs_option := false; fake_super_option := false;
     atimes_option := false; crtimes_option := false; omit_dir_times := false;
     omit_link_times := false; preserve_links := false; copy_links := false;
     copy_dirlinks := false; keep_dirlinks := false; safe_links := false;
     copy_unsafe_links := false; munge_links := false; hard_links := false;
     preserve_devices := false; preserve_specials := false; copy_devices := false;
     write_devices := false; block_size := None; compress := false;
     compress_choice := None; compress_level := None; compress_threads := None;
     skip_compress := []; outbuf := None; remote_options := []; includes := [];
     excludes := [lit "*.o"]; filters := [] |}.

Lemma secluded_args_reach_the_server_witness :
  ∃ later, full_args true secluded_options [lit "a b"] =
      Ok (server_head secluded_options ++ later) ∧
    argv {| argv := [lit "rsync"; lit "--server"; lit "--sender"; lit "-s"];
            protected_args := [lit "rsync"; lit "--no-inc-recursive"; lit "--checksum-seed=7";
              lit "--perms"; lit "--exclude=*.o"; lit "-vWtre.LsfxCIvu"; lit "."; lit "a b"] |} =
      server_head secluded_options ++ [lit "-s"].
Proof.
  destruct (secluded_args_reach_the_server (W:=list Z) true secluded_options [lit "a b"]
    {| argv := [lit "rsync"; lit "--server"; lit "--sender"; lit "-s"];
       protected_args := [lit "rsync"; lit "--no-inc-recursive"; lit "--checksum-seed=7";
         lit "--perms"; lit "--exclude=*.o"; lit "-vWtre.LsfxCIvu"; lit "."; lit "a b"] |}
    ltac:(vm_compute; reflexivity)) as (later & Hargs & Hargv & _).
  exists later. split; [exact Hargs|exact Hargv].
Defined.
