(* ===== verification/Handshake.v ===== *)
(** * Handshakes: session.rs, [exchange_*] and [validate_protocol_stream_prefix]

    In their properties both directions are explicit: what the peer sends, what it is
    sent, and the outcome. *)

From S2P Require Import Prelude Stream WireIo Str Flist Session.

(** The first line of a text: up to the line feed, less a carriage return before it. *)
Definition first_line (text : list Z) : list Z :=
  match split_once 10 text with
  | Some (line, _) => default line (strip_suffix line [13])
  | None => text
  end.

Definition validate_protocol_stream_prefix (bytes : list Z) : result Z SessionError :=
  if (length bytes <? 4)%nat then Err IncompleteProtocolPrefix
  else if is_ascii_graphic (nth 0 bytes 0) && existsb (Z.eqb 10) (take 64 bytes)
  then Err (NonProtocolOutput (first_line (chars (from_utf8_lossy bytes))))
  else if forallb is_ascii bytes && existsb is_ascii_alphabetic bytes
  then Err (NonProtocolOutput (chars (from_utf8_lossy bytes)))
  else
    let version := le_decode (take 4 bytes) in
    if negb ((MIN_PROTOCOL_VERSION <=? version) && (version <=? MAX_PROTOCOL_VERSION))
    then Err (InvalidProtocolPrefix version)
    else Ok version.

Record RemoteShellHandshake := {
  peer_protocol : Z;
  selected_protocol : ProtocolVersion;
  checksum_seed : Z;
  compat_flags : option Z;
  checksum_name : option (list Z);
}.

Section handshakes.
Context {T : Type} `{Read T} `{Write T}.

(** [?] on an I/O result. *)
Definition session_io {A} (m : M T io_error A) : M T RemoteSessionError A :=
  with_err SessionIo m.

Definition exchange_remote_shell_handshake (local_protocol : Z) :
    M T RemoteSessionError RemoteShellHandshake :=
  session_io (write_u32_le local_protocol);;
  session_io flush;;
  prefix ← session_io (read_exact 4);
  peer ← lift (map_err SessionFailed (validate_protocol_stream_prefix prefix));
  selected ← lift (map_err VersionFailed
    (negotiate_protocol_version_with_local peer local_protocol));
  seed ← session_io read_i32_le;
  mret {| peer_protocol := peer; selected_protocol := selected; checksum_seed := seed;
          compat_flags := None; checksum_name := None |}.

Definition exchange_remote_shell_mvp_handshake : M T RemoteSessionError RemoteShellHandshake :=
  handshake ← exchange_remote_shell_handshake REMOTE_SHELL_MVP_PROTOCOL;
  let value := version_value (selected_protocol handshake) in
  if negb (value =? REMOTE_SHELL_MVP_PROTOCOL)
  then throw (UnsupportedProtocol value REMOTE_SHELL_MVP_PROTOCOL)
  else mret handshake.

(** The version check both setups start with. *)
Definition select_protocol31 (peer : Z) : result ProtocolVersion RemoteSessionError :=
  let? selected := map_err VersionFailed
    (negotiate_protocol_version_with_local peer REMOTE_SHELL_MODERN_PROTOCOL) in
  if negb (version_value selected =? REMOTE_SHELL_MODERN_PROTOCOL)
  then Err (UnsupportedProtocol (version_value selected) REMOTE_SHELL_MODERN_PROTOCOL)
  else Ok selected.

Definition read_checksum_list : M T RemoteSessionError (list Z) :=
  bytes ← session_io (read_vstring 1024);
  lift (ok_or (decode_utf8 bytes) InvalidChecksumList).

(** The receiver chooses from the list the peer sends and tells it. *)
Definition receive_checksum_choice (options : Protocol31SetupOptions) :
    M T RemoteSessionError (list Z) :=
  checksum_list ← read_checksum_list;
  let client_list := protocol31_client_checksum_list options in
  name ← lift (ok_or (select_protocol31_checksum client_list checksum_list)
    UnsupportedChecksumNegotiation);
  session_io (write_vstring (encode_chars name));;
  session_io flush;;
  mret name.

(** The sender sends its list first. *)
Definition send_checksum_choice (options : Protocol31SetupOptions) :
    M T RemoteSessionError (list Z) :=
  let client_list := protocol31_client_checksum_list options in
  session_io (write_vstring (encode_chars client_list));;
  session_io flush;;
  checksum_list ← read_checksum_list;
  lift (ok_or (select_protocol31_checksum client_list checksum_list)
    UnsupportedChecksumNegotiation).

(** The setup, for either way of choosing the checksum. *)
Definition exchange_setup (choose : Protocol31SetupOptions → M T RemoteSessionError (list Z))
    (peer : Z) (options : Protocol31SetupOptions) :
    M T RemoteSessionError RemoteShellHandshake :=
  selected ← lift (select_protocol31 peer);
  flags ← session_io read_varint;
  name ← (if negb (Z.land flags RSYNC_CF_VARINT_FLIST_FLAGS =? 0)
          then name ← choose options; mret (Some name) else mret None);
  remote_seed ← session_io read_i32_le;
  mret {| peer_protocol := peer; selected_protocol := selected;
          checksum_seed := default remote_seed (setup_checksum_seed options);
          compat_flags := Some flags; checksum_name := name |}.

Definition exchange_protocol31_setup_with_options (peer : Z)
    (options : Protocol31SetupOptions) : M T RemoteSessionError RemoteShellHandshake :=
  exchange_setup receive_checksum_choice peer options.

Definition exchange_protocol31_sender_setup_with_options (peer : Z)
    (options : Protocol31SetupOptions) : M T RemoteSessionError RemoteShellHandshake :=
  exchange_setup send_checksum_choice peer options.

Definition exchange_protocol31_setup (peer : Z) : M T RemoteSessionError RemoteShellHandshake :=
  exchange_protocol31_setup_with_options peer default_setup.

Definition exchange_remote_shell_protocol31_handshake_with_options
    (options : Protocol31SetupOptions) : M T RemoteSessionError RemoteShellHandshake :=
  session_io (write_u32_le REMOTE_SHELL_MODERN_PROTOCOL);;
  session_io flush;;
  prefix ← session_io (read_exact 4);
  peer ← lift (map_err SessionFailed (validate_protocol_stream_prefix prefix));
  exchange_protocol31_setup_with_options peer options.

Definition exchange_remote_shell_protocol31_handshake :
    M T RemoteSessionError RemoteShellHandshake :=
  exchange_remote_shell_protocol31_handshake_with_options default_setup.

Definition write_rsync_i32 (value : Z) : M T RemoteSessionError unit :=
  session_io (write_i32_le value).

Definition write_rsync_long_value (value : Z) : M T RemoteSessionError unit :=
  with_err FileListFailed (write_rsync_long value).
End handshakes.

Example noise : validate_protocol_stream_prefix (lit "Welcome" ++ [13; 10] ++ lit "x") =
  Err (NonProtocolOutput (lit "Welcome")).
Proof. vm_compute. reflexivity. Qed.
Example prefix31 : validate_protocol_stream_prefix [31; 0; 0; 0] = Ok 31.
Proof. vm_compute. reflexivity. Qed.

(** ** The first four bytes *)

Lemma le_encode_decode bs : Forall in_u8 bs → le_encode (length bs) (le_decode bs) = bs.
Proof.
  induction 1 as [|b bs Hb _ IH]; [done|]. cbn [length le_encode le_decode].
  unfold in_u8 in Hb. cbn in Hb.
  assert (Hm : (b + 256 * le_decode bs) mod 256 = b)
    by (rewrite Z.mul_comm, Z.mod_add, Z.mod_small by lia; done).
  assert (Hd : (b + 256 * le_decode bs) / 256 = le_decode bs)
    by (rewrite Z.mul_comm, Z.div_add, Z.div_small by lia; lia).
  by rewrite Hm, Hd, IH.
Qed.

Lemma version_prefix v :
  20 ≤ v ≤ 32 → validate_protocol_stream_prefix (le_encode 4 v) = Ok v.
Proof.
  intros Hv.
  assert (H : implb (20 <=? v) match validate_protocol_stream_prefix (le_encode 4 v) with
                               | Ok w => w =? v | Err _ => false end = true).
  { assert (0 ≤ v) by lia. by_range v 33%nat. }
  destruct (Z.leb_spec 20 v); [|lia]. cbn [implb] in H.
  destruct (validate_protocol_stream_prefix _); [|done].
  by apply Z.eqb_eq in H as ->.
Qed.

Lemma accepted_prefix bytes v :
  length bytes = 4%nat → Forall in_u8 bytes →
  validate_protocol_stream_prefix bytes = Ok v ↔ 20 ≤ v ≤ 32 ∧ bytes = le_encode 4 v.
Proof.
  intros Hlen Hbytes. split; [|by intros [Hv ->]; apply version_prefix].
  unfold validate_protocol_stream_prefix. rewrite Hlen. cbn [Nat.ltb Nat.leb].
  destruct (_ && existsb (Z.eqb 10) _); [done|]. destruct (_ && existsb _ bytes); [done|].
  rewrite take_ge by lia. unfold MIN_PROTOCOL_VERSION, MAX_PROTOCOL_VERSION.
  destruct ((20 <=? le_decode bytes) && (le_decode bytes <=? 32)) eqn:Hr; [|done].
  apply andb_prop in Hr as [H1%Z.leb_le H2%Z.leb_le]. intros [= <-]. split; [lia|].
  by rewrite <-Hlen, le_encode_decode.
Qed.

(** ** The runs *)

Section runs.
Context {R : Type} `{ReadLaws R} {W : Type} `{WriteLaws W}.
Implicit Types (ins outs : list Z).

Lemma talks_io_reads {A} (m : M (duplex R W) io_error A) ins a :
  (∀ w0, @reads (duplex R W) _ (duplex_read_laws w0) _ _ m ins a) →
  talks (session_io m) ins [] a.
Proof. intros Hm. by apply talks_with_err, talks_reads. Qed.

Lemma talks_io_writes {A} (m : M (duplex R W) io_error A) outs a :
  writes m outs a → talks (session_io m) [] outs a.
Proof. intros Hm. by apply talks_with_err, talks_writes. Qed.

Lemma talks_seed seed :
  in_i32 seed →
  talks (session_io (T:=duplex R W) read_i32_le) (le_encode 4 seed) [] seed.
Proof.
  intros Hs. apply talks_io_reads. intros w0.
  pose proof (reads_le (R:=duplex R W) (H0:=duplex_read_laws w0) 4
    (λ bs, as_i32 (le_decode bs)) (le_encode 4 seed) (length_le_encode 4 seed)) as Hr.
  cbv beta in Hr. rewrite le_decode_encode in Hr.
  change (256 ^ Z.of_nat 4) with (2 ^ 32) in Hr. rewrite as_i32_mod, as_i32_id in Hr by done.
  exact Hr.
Qed.
End runs.

(** ** Names never grow *)

Definition wire_len (s : list Z) : nat := length (encode_chars s).

Lemma wire_len_cons c s : wire_len (c :: s) = (length (encode_utf8 c) + wire_len s)%nat.
Proof. unfold wire_len, encode_chars. cbn. by rewrite length_app. Qed.

Lemma wire_len_app s t : wire_len (s ++ t) = (wire_len s + wire_len t)%nat.
Proof.
  induction s as [|c s IH]; [done|]. cbn [app]. rewrite !wire_len_cons, IH. lia.
Qed.

Lemma wire_len_rev s : wire_len (rev s) = wire_len s.
Proof.
  induction s as [|c s IH]; [done|]. cbn [rev].
  rewrite wire_len_app, wire_len_cons, IH, wire_len_cons.
  change (wire_len []) with 0%nat. lia.
Qed.

Lemma wire_len_trim_start p s : (wire_len (trim_start_by p s) ≤ wire_len s)%nat.
Proof.
  induction s as [|c s IH]; [done|]. cbn [trim_start_by]. rewrite wire_len_cons.
  destruct (p c); [lia|]. by rewrite wire_len_cons.
Qed.

Lemma wire_len_trim s : (wire_len (trim s) ≤ wire_len s)%nat.
Proof.
  unfold trim, trim_by. rewrite wire_len_rev.
  etransitivity; [apply wire_len_trim_start|]. rewrite wire_len_rev.
  apply wire_len_trim_start.
Qed.

Lemma wire_len_lowercase s : wire_len (to_ascii_lowercase s) = wire_len s.
Proof.
  induction s as [|c s IH]; [done|]. unfold to_ascii_lowercase in *. cbn [fmap list_fmap].
  rewrite !wire_len_cons. f_equal; [|exact IH].
  destruct ((65 <=? c) && (c <=? 90)) eqn:Hc; [|done].
  apply andb_prop in Hc as [H1%Z.leb_le H2%Z.leb_le]. unfold encode_utf8.
  by rewrite !(proj2 (Z.ltb_lt _ 0x80)) by lia.
Qed.

Lemma wire_len_split p s part : part ∈ split_by p s → (wire_len part ≤ wire_len s)%nat.
Proof.
  revert part. induction s as [|c s IH]; intros part; cbn [split_by].
  - by intros ->%list_elem_of_singleton.
  - rewrite wire_len_cons. destruct (p c).
    + intros [->|Hin]%elem_of_cons; [cbn; lia|]. specialize (IH _ Hin). lia.
    + destruct (split_by p s) as [|x xs] eqn:Hs.
      { intros ->%list_elem_of_singleton. rewrite wire_len_cons.
        change (wire_len []) with 0%nat. lia. }
      intros [->|Hin]%elem_of_cons.
      * rewrite wire_len_cons. specialize (IH x ltac:(by left)). lia.
      * specialize (IH part ltac:(by right)). lia.
Qed.

Lemma wire_len_name names name :
  name ∈ normalized_name_list names → (wire_len name ≤ wire_len names)%nat.
Proof.
  unfold normalized_name_list. rewrite list_elem_of_In, filter_In, <-list_elem_of_In.
  intros [Hin _]. apply list_elem_of_fmap in Hin as (part & -> & Hin).
  unfold normalize_name. rewrite wire_len_lowercase.
  etransitivity; [apply wire_len_trim|]. by eapply wire_len_split.
Qed.

(** ** The choice of the checksum *)

(** The first of our names, in our order, that the peer offers as well. *)
Definition chooses (ours theirs name : list Z) : Prop :=
  ∃ before after,
    normalized_name_list ours = before ++ name :: after ∧
    name ∈ normalized_name_list theirs ∧
    Forall (λ other, other ∉ normalized_name_list theirs) before.

Definition nothing_in_common (ours theirs : list Z) : Prop :=
  Forall (λ other, other ∉ normalized_name_list theirs) (normalized_name_list ours).

Lemma find_first {A} (p : A → bool) l before x after :
  l = before ++ x :: after → p x = true → Forall (λ y, p y = false) before →
  List.find p l = Some x.
Proof.
  intros -> Hx Hb. induction Hb as [|y before Hy _ IH]; cbn; [by rewrite Hx|]. by rewrite Hy.
Qed.

Lemma select_chosen ours theirs name :
  chooses ours theirs name → select_protocol31_checksum ours theirs = Some name.
Proof.
  intros (before & after & Hl & Hin & Hb). unfold select_protocol31_checksum. cbv zeta.
  eapply find_first; [exact Hl|by apply bool_decide_eq_true|].
  eapply Forall_impl; [exact Hb|]. intros other Ho. by apply bool_decide_eq_false.
Qed.

Lemma select_none ours theirs :
  nothing_in_common ours theirs → select_protocol31_checksum ours theirs = None.
Proof.
  unfold nothing_in_common, select_protocol31_checksum. cbv zeta.
  induction 1 as [|other others Ho _ IH]; [done|]. cbn.
  by rewrite bool_decide_eq_false_2.
Qed.

(** ** The setup of protocol 31 *)

(** The peer's half of the setup: its compatibility flags, its checksum names when it
    negotiates them, and its seed. *)
Record peer_setup := PeerSetup { flags : Z; names : list Z; seed : Z }.

Record setup_ok (s : peer_setup) : Prop := {
  ok_flags : 0 ≤ flags s ≤ i32_max;
  ok_names : forallb is_scalar (names s) = true;
  ok_names_len : (wire_len (names s) ≤ 1024)%nat;
  ok_seed : in_i32 (seed s);
}.

Definition negotiates (s : peer_setup) : bool := Z.testbit (flags s) 7.

Definition flags_bytes (s : peer_setup) : list Z := bytes_of (write_varint (flags s)).
Definition names_bytes (s : list Z) : list Z := vstring_bytes (encode_chars s).
Definition setup_bytes (s : peer_setup) : list Z :=
  flags_bytes s ++ (if negotiates s then names_bytes (names s) else []) ++
  le_encode 4 (seed s).

Definition agreed (peer : Z) (options : Protocol31SetupOptions) (s : peer_setup)
    (name : option (list Z)) : RemoteShellHandshake :=
  {| peer_protocol := peer; selected_protocol := {| version_value := 31 |};
     checksum_seed := default (seed s) (setup_checksum_seed options);
     compat_flags := Some (flags s); checksum_name := name |}.

Lemma flag_bit z : 0 ≤ z → negb (Z.land z RSYNC_CF_VARINT_FLIST_FLAGS =? 0) = Z.testbit z 7.
Proof.
  intros Hz. change RSYNC_CF_VARINT_FLIST_FLAGS with (2 ^ 7).
  destruct (Z.testbit z 7) eqn:Hb.
  - apply negb_true_iff, Z.eqb_neq. intros Hl.
    assert (Hf : Z.testbit (Z.land z (2 ^ 7)) 7 = false) by (rewrite Hl; apply Z.bits_0).
    rewrite Z.land_spec, Hb, Z.pow2_bits_true in Hf by lia. done.
  - apply negb_false_iff, Z.eqb_eq. apply Z.bits_inj'. intros i Hi.
    rewrite Z.land_spec, Z.bits_0. destruct (Z.eq_dec i 7) as [->|Hne].
    + by rewrite Hb.
    + rewrite Z.pow2_bits_false by lia. apply andb_false_r.
Qed.

Lemma select_31 peer :
  31 ≤ peer ≤ 32 → select_protocol31 peer = Ok {| version_value := 31 |}.
Proof.
  intros Hp. unfold select_protocol31, REMOTE_SHELL_MODERN_PROTOCOL.
  rewrite negotiate_spec.
  replace (peer =? 0) with false by lia. replace (peer <? 20) with false by lia.
  cbn [Z.ltb Z.compare Pos.compare Pos.compare_cont map_err and_then version_value].
  by replace (Z.min (Z.min peer 31) 32) with 31 by lia.
Qed.

Section setup.
Context {R : Type} `{ReadLaws R} {W : Type} `{WriteLaws W}.
Local Abbreviation T := (duplex R W).

Lemma talks_flags s :
  setup_ok s → talks (session_io (T:=T) read_varint) (flags_bytes s) [] (flags s).
Proof.
  intros Hs. apply talks_io_reads. intros w0.
  exact (coupled_reads (R:=T) (H0:=duplex_read_laws w0) _ _ _
    (coupled_varint (flags s) (ok_flags s Hs))).
Qed.

Lemma talks_names s :
  forallb is_scalar s = true → (wire_len s ≤ 1024)%nat →
  talks (read_checksum_list (T:=T)) (names_bytes s) [] s.
Proof.
  intros Hs Hl. unfold read_checksum_list.
  eapply (talks_step _ _ _ _ [] _ [] []); [by rewrite app_nil_r|done| |].
  - apply talks_io_reads. intros w0.
    apply (reads_vstring (H0:=duplex_read_laws w0) (encode_chars s) 1024);
      unfold wire_len in Hl; lia.
  - apply talks_lift. by rewrite decode_encode_chars.
Qed.

Lemma talks_send s :
  Z.of_nat (wire_len s) ≤ 0x7fff →
  talks (session_io (T:=T) (write_vstring (encode_chars s))) [] (names_bytes s) ().
Proof. intros Hl. apply talks_io_writes, writes_vstring. unfold wire_len in Hl. lia. Qed.

Lemma talks_flush : talks (session_io (T:=T) flush) [] [] ().
Proof. apply talks_io_writes, writes_flush. Qed.

(** The choice as the receiver and as the sender make it. *)
Lemma receiver_chooses options s name :
  setup_ok s → chooses (protocol31_client_checksum_list options) (names s) name →
  talks (receive_checksum_choice (T:=T) options) (names_bytes (names s)) (names_bytes name) name.
Proof.
  intros Hs Hc. unfold receive_checksum_choice.
  assert (Hlen : (wire_len name ≤ 1024)%nat).
  { etransitivity; [|exact (ok_names_len s Hs)]. apply wire_len_name.
    by destruct Hc as (? & ? & _ & ? & _). }
  eapply (talks_step _ _ _ _ [] _ []); [by rewrite app_nil_r|done|apply talks_names; by destruct Hs|].
  cbv zeta. eapply (talks_step _ _ [] [] [] _ []); [done|done| |].
  { apply talks_lift. by rewrite (select_chosen _ _ _ Hc). }
  eapply (talks_step _ _ [] [] [] _ _ []); [done|by rewrite app_nil_r|apply talks_send; lia|].
  eapply (talks_step _ _ [] [] [] [] [] []); [done|done|apply talks_flush|apply talks_ret].
Qed.

Lemma sender_chooses options s name :
  setup_ok s → chooses (protocol31_client_checksum_list options) (names s) name →
  Z.of_nat (wire_len (protocol31_client_checksum_list options)) ≤ 0x7fff →
  talks (send_checksum_choice (T:=T) options) (names_bytes (names s))
    (names_bytes (protocol31_client_checksum_list options)) name.
Proof.
  intros Hs Hc Hl. unfold send_checksum_choice. cbv zeta.
  eapply (talks_step _ _ _ [] _ _ _ []); [done|by rewrite app_nil_r|by apply talks_send|].
  eapply (talks_step _ _ _ [] _ _ [] []); [done|done|apply talks_flush|].
  eapply (talks_step _ _ _ _ [] _ [] []); [by rewrite app_nil_r|done|apply talks_names; by destruct Hs|].
  apply talks_lift. by rewrite (select_chosen _ _ _ Hc).
Qed.

Lemma setup_negotiated choose peer options s outs name :
  31 ≤ peer ≤ 32 → setup_ok s → negotiates s = true →
  talks (choose options) (names_bytes (names s)) outs name →
  talks (exchange_setup (T:=T) choose peer options) (setup_bytes s) outs
    (agreed peer options s (Some name)).
Proof.
  intros Hp Hs Hn Hc. unfold exchange_setup, setup_bytes. rewrite Hn.
  eapply (talks_step _ _ _ [] _ _ []); [done|done|by apply talks_lift, select_31|].
  eapply (talks_step _ _ _ _ _ _ []); [done|done|by apply talks_flags|].
  rewrite flag_bit by apply (ok_flags s Hs). unfold negotiates in Hn. rewrite Hn.
  eapply (talks_step _ _ _ (names_bytes (names s)) (le_encode 4 (seed s)) _ outs []);
    [done|by rewrite app_nil_r| |].
  { eapply (talks_step _ _ _ _ [] _ _ []); [by rewrite app_nil_r|by rewrite app_nil_r|exact Hc|].
    apply talks_ret. }
  eapply (talks_step _ _ _ _ [] _ [] []);
    [by rewrite app_nil_r|done|apply talks_seed, (ok_seed s Hs)|apply talks_ret].
Qed.

Lemma setup_plain choose peer options s :
  31 ≤ peer ≤ 32 → setup_ok s → negotiates s = false →
  talks (exchange_setup (T:=T) choose peer options) (setup_bytes s) []
    (agreed peer options s None).
Proof.
  intros Hp Hs Hn. unfold exchange_setup, setup_bytes. rewrite Hn. cbn [app].
  eapply (talks_step _ _ _ [] _ _ []); [done|done|by apply talks_lift, select_31|].
  eapply (talks_step _ _ _ _ _ _ []); [done|done|by apply talks_flags|].
  rewrite flag_bit by apply (ok_flags s Hs). unfold negotiates in Hn. rewrite Hn.
  eapply (talks_step _ _ _ [] _ _ [] []); [done|done|apply talks_ret|].
  eapply (talks_step _ _ _ _ [] _ [] []);
    [by rewrite app_nil_r|done|apply talks_seed, (ok_seed s Hs)|apply talks_ret].
Qed.
End setup.

(** ** The opening: versions *)

Section opening.
Context {R : Type} `{ReadLaws R} {W : Type} `{WriteLaws W}.
Local Abbreviation T := (duplex R W).

Lemma talks_version version :
  talks (session_io (T:=T) (write_u32_le version)) [] (le_encode 4 version) ().
Proof. apply talks_io_writes, writes_all. Qed.

Lemma talks_prefix bytes :
  length bytes = 4%nat → talks (session_io (T:=T) (read_exact 4)) bytes [] bytes.
Proof.
  intros Hl. apply talks_io_reads. intros w0. by apply (reads_exact (H0:=duplex_read_laws w0)).
Qed.

(** Every handshake starts by sending its version and looking at four bytes. *)
Lemma talks_opening {A} version bytes (k : list Z → M T RemoteSessionError A) ins outs a :
  length bytes = 4%nat → talks (k bytes) ins outs a →
  talks (session_io (write_u32_le version);; session_io flush;;
         (prefix ← session_io (read_exact 4); k prefix))
    (bytes ++ ins) (le_encode 4 version ++ outs) a.
Proof.
  intros Hl Hk.
  eapply (talks_step _ _ _ [] _ _ _ _); [done|done|apply talks_version|].
  eapply (talks_step _ _ _ [] _ _ [] _); [done|done|apply talks_flush|].
  eapply (talks_step _ _ _ _ _ _ [] _); [done|done|by apply talks_prefix|exact Hk].
Qed.

Lemma talks_err_opening {A} version bytes (k : list Z → M T RemoteSessionError A) ins outs e :
  length bytes = 4%nat → talks_err (k bytes) ins outs e →
  talks_err (session_io (write_u32_le version);; session_io flush;;
         (prefix ← session_io (read_exact 4); k prefix))
    (bytes ++ ins) (le_encode 4 version ++ outs) e.
Proof.
  intros Hl Hk.
  apply (talks_err_bind _ _ [] _ _ _ ()); [apply talks_version|].
  apply (talks_err_bind _ _ [] _ [] _ ()); [apply talks_flush|].
  apply (talks_err_bind _ _ _ _ [] _ bytes); [by apply talks_prefix|exact Hk].
Qed.

Lemma mvp_run peer s :
  27 ≤ peer ≤ 32 → in_i32 s →
  talks (exchange_remote_shell_mvp_handshake (T:=T)) (le_encode 4 peer ++ le_encode 4 s)
    (le_encode 4 27)
    {| peer_protocol := peer; selected_protocol := {| version_value := 27 |};
       checksum_seed := s; compat_flags := None; checksum_name := None |}.
Proof.
  intros Hp Hs. unfold exchange_remote_shell_mvp_handshake, exchange_remote_shell_handshake.
  eapply (talks_step _ _ _ _ [] _ _ []); [by rewrite app_nil_r|by rewrite app_nil_r| |].
  - rewrite <-(app_nil_r (le_encode 4 27)). apply talks_opening; [by rewrite length_le_encode|].
    eapply (talks_step _ _ _ [] _ _ [] []); [done|done| |].
    { apply talks_lift. by rewrite version_prefix by lia. }
    eapply (talks_step _ _ _ [] _ _ [] []); [done|done| |].
    { apply talks_lift. rewrite negotiate_spec.
      replace (peer =? 0) with false by lia. replace (peer <? 20) with false by lia. done. }
    eapply (talks_step _ _ _ _ [] _ [] []);
      [by rewrite app_nil_r|done|by apply talks_seed|apply talks_ret].
  - unfold REMOTE_SHELL_MVP_PROTOCOL. cbn [selected_protocol version_value].
    replace (Z.min (Z.min peer 27) 32) with 27 by lia. apply talks_ret.
Qed.

Lemma refused_prefix peer :
  20 ≤ peer < 31 →
  select_protocol31 peer = Err (UnsupportedProtocol peer 31).
Proof.
  intros Hp. unfold select_protocol31, REMOTE_SHELL_MODERN_PROTOCOL. rewrite negotiate_spec.
  replace (peer =? 0) with false by lia. replace (peer <? 20) with false by lia.
  cbn [Z.ltb Z.compare Pos.compare Pos.compare_cont map_err and_then version_value].
  replace (Z.min (Z.min peer 31) 32) with peer by lia.
  by replace (peer =? 31) with false by lia.
Qed.

Lemma old_peer_refused options peer :
  20 ≤ peer < 31 →
  talks_err (exchange_remote_shell_protocol31_handshake_with_options (T:=T) options)
    (le_encode 4 peer) (le_encode 4 31) (UnsupportedProtocol peer 31).
Proof.
  intros Hp. rewrite <-(app_nil_r (le_encode 4 31)), <-(app_nil_r (le_encode 4 peer)).
  apply talks_err_opening; [by rewrite length_le_encode|].
  apply (talks_err_bind _ _ [] _ [] _ peer).
  { apply talks_lift. by rewrite version_prefix by lia. }
  apply talks_err_here, talks_err_lift. by apply refused_prefix.
Qed.

Lemma noise_refused options bytes e :
  length bytes = 4%nat → validate_protocol_stream_prefix bytes = Err e →
  talks_err (exchange_remote_shell_mvp_handshake (T:=T)) bytes (le_encode 4 27)
    (SessionFailed e) ∧
  talks_err (exchange_remote_shell_protocol31_handshake_with_options (T:=T) options) bytes
    (le_encode 4 31) (SessionFailed e).
Proof.
  intros Hl He. rewrite <-(app_nil_r bytes) in *.
  rewrite <-(app_nil_r (le_encode 4 27)), <-(app_nil_r (le_encode 4 31)).
  rewrite app_nil_r in Hl, He.
  split; [apply talks_err_here|]; (apply talks_err_opening; [done|]);
    apply talks_err_here, talks_err_lift; by rewrite He.
Qed.
End opening.

(** ** Properties *)

(** The first four bytes decide a session.  They are accepted exactly when
    they are the little-endian form of a version from 20 to 32.  Then the protocol-27
    handshake with a peer of 27 or more selects 27 and takes its seed, and the
    protocol-31 handshake refuses a peer below 31 with its version.  On any other four
    bytes both end with the error found, and nothing but the own version was sent.  In
    particular a peer that announces a version above 32 is refused, although the
    negotiation itself would settle on the local maximum. *)
Theorem first_bytes_decide {R} `{ReadLaws R} {W} `{WriteLaws W} bytes options :
  length bytes = 4%nat → Forall in_u8 bytes →
  match validate_protocol_stream_prefix bytes with
  | Ok v => 20 ≤ v ≤ 32 ∧ bytes = le_encode 4 v ∧
      (∀ s, 27 ≤ v → in_i32 s →
        talks (exchange_remote_shell_mvp_handshake (T:=duplex R W)) (bytes ++ le_encode 4 s)
          (le_encode 4 27)
          {| peer_protocol := v; selected_protocol := {| version_value := 27 |};
             checksum_seed := s; compat_flags := None; checksum_name := None |}) ∧
      (v < 31 →
        talks_err (exchange_remote_shell_protocol31_handshake_with_options
                     (T:=duplex R W) options)
          bytes (le_encode 4 31) (UnsupportedProtocol v 31))
  | Err e => (∀ v, 20 ≤ v ≤ 32 → bytes ≠ le_encode 4 v) ∧
      talks_err (exchange_remote_shell_mvp_handshake (T:=duplex R W)) bytes
        (le_encode 4 27) (SessionFailed e) ∧
      talks_err (exchange_remote_shell_protocol31_handshake_with_options (T:=duplex R W) options)
        bytes (le_encode 4 31) (SessionFailed e)
  end.
Proof.
  intros Hl Hb. destruct (validate_protocol_stream_prefix bytes) as [v|e] eqn:Hv.
  - apply accepted_prefix in Hv as [Hr ->]; [|done..]. split_and!; [lia|lia|done| |].
    + intros s Hs Hi. apply mvp_run; [lia|done].
    + intros Hlow. apply old_peer_refused; lia.
  - split.
    + intros v Hr ->. by rewrite version_prefix in Hv.
    + by apply noise_refused.
Qed.

Lemma first_bytes_decide_witness :
  match validate_protocol_stream_prefix [33; 0; 0; 0] with
  | Ok v => False
  | Err e =>
      (∀ v, 20 ≤ v ≤ 32 → [33; 0; 0; 0] ≠ le_encode 4 v) ∧
      talks_err (exchange_remote_shell_mvp_handshake (T:=duplex (list Z) (list Z)))
        [33; 0; 0; 0] (le_encode 4 27) (SessionFailed e) ∧
      talks_err (exchange_remote_shell_protocol31_handshake_with_options
          (T:=duplex (list Z) (list Z)) default_setup) [33; 0; 0; 0]
        (le_encode 4 31) (SessionFailed e)
  end.
Proof.
  apply (first_bytes_decide [33; 0; 0; 0] default_setup); [reflexivity|].
  repeat constructor; vm_compute; congruence.
Defined.

(** Against a peer of protocol 31 or 32 the protocol-31 handshake takes
    exactly the peer's version, flags, checksum names and seed and sends exactly its own
    version and, where the peer negotiates, the first of its own checksums the peer
    offers; without a common one it ends with that error before anything more is read.
    The sending side of the setup sends its whole list instead and comes to the same
    choice.  An own seed takes the place of the peer's. *)
Theorem protocol31_handshake {R} `{ReadLaws R} {W} `{WriteLaws W} peer options s :
  let ours := protocol31_client_checksum_list options in
  let handshake :=
    exchange_remote_shell_protocol31_handshake_with_options (T:=duplex R W) options in
  31 ≤ peer ≤ 32 → setup_ok s →
  (negotiates s = false →
     talks handshake (le_encode 4 peer ++ setup_bytes s) (le_encode 4 31)
       (agreed peer options s None)) ∧
  (∀ name, negotiates s = true → chooses ours (names s) name →
     talks handshake (le_encode 4 peer ++ setup_bytes s)
       (le_encode 4 31 ++ names_bytes name) (agreed peer options s (Some name)) ∧
     (Z.of_nat (wire_len ours) ≤ 0x7fff →
      talks (exchange_protocol31_sender_setup_with_options (T:=duplex R W) peer options)
        (setup_bytes s) (names_bytes ours) (agreed peer options s (Some name)))) ∧
  (negotiates s = true → nothing_in_common ours (names s) →
     talks_err handshake (le_encode 4 peer ++ flags_bytes s ++ names_bytes (names s))
       (le_encode 4 31) UnsupportedChecksumNegotiation).
Proof.
  intros ours handshake Hp Hs.
  assert (Hk : ∀ ins outs a,
    talks (exchange_protocol31_setup_with_options (T:=duplex R W) peer options) ins outs a →
    talks handshake (le_encode 4 peer ++ ins) (le_encode 4 31 ++ outs) a).
  { intros ins outs a Ht. apply talks_opening; [by rewrite length_le_encode|].
    eapply (talks_step _ _ _ [] _ _ [] _); [done|done| |exact Ht].
    apply talks_lift. by rewrite version_prefix by lia. }
  split_and!.
  - intros Hn. rewrite <-(app_nil_r (le_encode 4 31)). by apply Hk, setup_plain.
  - intros name Hn Hc. split; [by apply Hk, setup_negotiated, receiver_chooses|].
    intros Hl. by apply setup_negotiated; [..|apply sender_chooses].
  - intros Hn Hnone. rewrite <-(app_nil_r (le_encode 4 31)).
    apply talks_err_opening; [by rewrite length_le_encode|].
    apply (talks_err_bind _ _ [] _ [] _ peer).
    { apply talks_lift. by rewrite version_prefix by lia. }
    apply (talks_err_bind _ _ [] _ [] [] {| version_value := 31 |}).
    { by apply talks_lift, select_31. }
    apply (talks_err_bind _ _ _ _ [] [] (flags s)); [by apply talks_flags|].
    rewrite flag_bit by apply (ok_flags s Hs). unfold negotiates in Hn. rewrite Hn.
    apply talks_err_here, talks_err_here. unfold receive_checksum_choice.
    rewrite <-(app_nil_r (names_bytes (names s))).
    apply (talks_err_bind _ _ _ _ [] [] (names s)); [apply talks_names; by destruct Hs|].
    cbv zeta. apply talks_err_here, talks_err_lift. by rewrite select_none.
Qed.

Definition sample_setup : peer_setup :=
  PeerSetup 0x1FE (lit "xxh128 MD5 md4") (-42).

Lemma sample_setup_ok : setup_ok sample_setup.
Proof.
  constructor; try (vm_compute; reflexivity); try (vm_compute; split; congruence).
  vm_compute. lia.
Qed.

Lemma sample_chooses :
  chooses (protocol31_client_checksum_list default_setup) (names sample_setup) (lit "md4").
Proof.
  exists [], []. split_and!; [vm_compute; reflexivity| |constructor].
  apply (bool_decide_unpack _). vm_compute. exact I.
Qed.

Lemma protocol31_handshake_witness :
  talks (exchange_remote_shell_protocol31_handshake_with_options
           (T:=duplex (list Z) (list Z)) default_setup)
    (le_encode 4 32 ++ setup_bytes sample_setup)
    (le_encode 4 31 ++ [3; 109; 100; 52])
    {| peer_protocol := 32; selected_protocol := {| version_value := 31 |};
       checksum_seed := -42; compat_flags := Some 0x1FE;
       checksum_name := Some (lit "md4") |}.
Proof.
  destruct (protocol31_handshake (R:=list Z) (W:=list Z) 32 default_setup sample_setup)
    as (_ & H & _); [lia|apply sample_setup_ok|].
  destruct (H (lit "md4") eq_refl sample_chooses) as [Ht _]. exact Ht.
Defined.
