(* ===== verification/Lines.v ===== *)
(** * Lines: reading a text protocol byte by byte

    The daemon protocol reads its lines with [Read::read] on a buffer of one byte,
    the same way in daemon.rs and in the daemon server.  This file states that
    interface, models the loop and shows that it reads exactly the lines that were
    written, whatever interruptions come between. *)

From S2P Require Import Prelude Stream Str Text.

(** What [stream.read(&mut [0; 1])] comes to. *)
Inductive read_event := Eof | Byte (b : Z) | Interrupted | Failed (e : io_error).

(** [events r] bounds the bytes and interruptions to come. *)
Class ReadByte (R : Type) := {
  read_byte : R → read_event * R;
  events : R → nat;
}.

Class ReadByteLaws (R : Type) `{ReadLaws R} `{ReadByte R} := {
  read_byte_avail r b rest : avail r (b :: rest) →
    ∃ r', read_byte r = (Byte b, r') ∧ avail r' rest ∨
          read_byte r = (Interrupted, r') ∧ avail r' (b :: rest);
  read_byte_events r event r' : read_byte r = (event, r') →
    match event with
    | Byte _ | Interrupted => (events r' < events r)%nat
    | Eof | Failed _ => events r' = events r
    end;
}.

#[export] Instance slice_read_byte : ReadByte (list Z) :=
  {| read_byte s := match s with [] => (Eof, []) | b :: s => (Byte b, s) end;
     events := length |}.

#[export, program] Instance slice_read_byte_laws : ReadByteLaws (list Z).
Next Obligation. intros r b rest ->. exists rest. by left. Qed.
Next Obligation. intros [|b r] event r' [= <- <-]; cbn; lia. Qed.

(** A slice whose delivery is interrupted at the places marked [None]. *)
Definition delivered (r : list (option Z)) : list Z := omap id r.

Fixpoint interrupted_read_exact (n : nat) (r : list (option Z)) :
    result (list Z) io_error * list (option Z) :=
  match n, r with
  | O, _ => (Ok [], r)
  | _, [] => (Err (IoError UnexpectedEof "failed to fill whole buffer"), [])
  | _, None :: r => interrupted_read_exact n r
  | S n, Some b :: r =>
      match interrupted_read_exact n r with
      | (Ok bs, r) => (Ok (b :: bs), r)
      | failed => failed
      end
  end.

#[export] Instance interrupted_read : Read (list (option Z)) :=
  {| read_exact n := interrupted_read_exact n; budget r := length (delivered r) |}.

#[export, program] Instance interrupted_read_laws : ReadLaws (list (option Z)) :=
  {| avail r bs := delivered r = bs |}.
Next Obligation.
  intros r bs. revert r. induction bs as [|b bs IH]; intros r rest Hr.
  - exists r. by destruct r as [|[]].
  - induction r as [|[c|] r IHr]; [done| |].
    + cbn in Hr. injection Hr as -> Hr. destruct (IH _ _ Hr) as (r' & Hr' & Ha).
      exists r'. cbn in *. by rewrite Hr'.
    + apply IHr. exact Hr.
Qed.
Next Obligation.
  cbn. intros n r. revert n. induction r as [|[c|] r IH]; intros [|n] bs r'; cbn;
    try (intros [= <- <-]; cbn; lia); try done.
  - destruct (interrupted_read_exact n r) as [[bs'|e] r1] eqn:E; [|done].
    intros [= <- <-]. apply IH in E as [Hl Hb]. cbn in *. unfold delivered in *. cbn. lia.
  - intros E. apply (IH (S n)) in E. exact E.
Qed.

#[export] Instance interrupted_read_byte : ReadByte (list (option Z)) :=
  {| read_byte r := match r with
                    | [] => (Eof, [])
                    | Some b :: r => (Byte b, r)
                    | None :: r => (Interrupted, r)
                    end;
     events := length |}.

#[export, program] Instance interrupted_read_byte_laws : ReadByteLaws (list (option Z)).
Next Obligation.
  intros [|[c|] r] b rest Hr; [done|injection Hr as -> Hr|]; exists r; [by left|by right].
Qed.
Next Obligation. intros [|[c|] r] event r' [= <- <-]; cbn; lia. Qed.

(** The reading half of a transport. *)
#[export] Instance duplex_read_byte {R W} `{ReadByte R} : ReadByte (duplex R W) :=
  {| read_byte t := let '(event, i) := read_byte (incoming t) in (event, Duplex i (outgoing t));
     events t := events (incoming t) |}.

(** ** The line reader *)

Inductive line_error := TooLong (max_len : Z) | NotUtf8 | ReadFailed (e : io_error).

Section lines.
Context {R : Type} `{ReadByte R}.

(** [bytes] is what the line holds so far; the [None] at the end of a stream that
    delivered nothing.  The fuel is what [events] counts and one turn more. *)
Fixpoint line_loop (fuel : nat) (max_len : Z) (bytes : list Z) : M R line_error (option (list Z)) :=
  match fuel with
  | O => throw (ReadFailed (IoError UnexpectedEof "out of fuel"))
  | S fuel => λ r,
      match read_byte r with
      | (Eof, r) => (Ok (if bool_decide (bytes = []) then None else Some bytes), r)
      | (Byte b, r) =>
          if b =? 10 then (Ok (Some bytes), r)
          else
            let bytes := bytes ++ [b] in
            if max_len <? Z.of_nat (length bytes) then (Err (TooLong max_len), r)
            else line_loop fuel max_len bytes r
      | (Interrupted, r) => line_loop fuel max_len bytes r
      | (Failed e, r) => (Err (ReadFailed e), r)
      end
  end.

Definition line_text (bytes : list Z) : result (list Z) line_error :=
  ok_or (decode_utf8 (default bytes (strip_suffix bytes [13]))) NotUtf8.

Definition read_line (max_len : Z) : M R line_error (option (list Z)) := λ r,
  match line_loop (S (events r)) max_len [] r with
  | (Ok None, r) => (Ok None, r)
  | (Ok (Some bytes), r) => (let? text := line_text bytes in Ok (Some text), r)
  | (Err e, r) => (Err e, r)
  end.
End lines.

Example crlf_line : read_line (R:=list Z) 8 [104; 105; 13; 10; 120] = (Ok (Some [104; 105]), [120]).
Proof. reflexivity. Qed.
Example last_line : read_line (R:=list (option Z)) 8 [None; Some 104; None] = (Ok (Some [104]), []).
Proof. reflexivity. Qed.

(** ** What the reader reads *)

Section facts.
Context {R : Type} `{ReadByteLaws R}.

(** Fuel beyond the events to come changes nothing. *)
Lemma line_loop_fuel f1 f2 max_len bytes r :
  (events r < f1)%nat → (events r < f2)%nat →
  line_loop f1 max_len bytes r = line_loop f2 max_len bytes r.
Proof.
  revert f2 bytes r. induction f1 as [|f1 IH]; intros [|f2] bytes r Hf1 Hf2; try lia.
  cbn [line_loop]. destruct (read_byte r) as [event r'] eqn:E.
  apply read_byte_events in E. destruct event; try done.
  - destruct (_ =? _); [done|]. destruct (_ <? _); [done|]. apply IH; lia.
  - apply IH; lia.
Qed.

Lemma line_loop_reads fuel max_len bytes line r rest :
  avail r (line ++ 10 :: rest) → (events r < fuel)%nat → 10 ∉ line →
  Z.of_nat (length bytes + length line) ≤ max_len →
  ∃ r', line_loop fuel max_len bytes r = (Ok (Some (bytes ++ line)), r') ∧ avail r' rest.
Proof.
  revert bytes line r. induction fuel as [|fuel IH]; intros bytes line r Ha Hf Hl Hmax; [lia|].
  cbn [line_loop]. destruct line as [|b line]; cbn [app] in Ha.
  - destruct (read_byte_avail _ _ _ Ha) as (r' & [[Hr Ha']|[Hr Ha']]); rewrite Hr.
    + exists r'. by rewrite app_nil_r.
    + apply read_byte_events in Hr. apply (IH bytes []); [done|lia|done|done].
  - apply not_elem_of_cons in Hl as [Hb Hl]. cbn [length] in Hmax.
    destruct (read_byte_avail _ _ _ Ha) as (r' & [[Hr Ha']|[Hr Ha']]); rewrite Hr;
      apply read_byte_events in Hr.
    + destruct (Z.eqb_spec b 10); [congruence|].
      destruct (Z.ltb_spec max_len (Z.of_nat (length (bytes ++ [b])))) as [Hlt|_].
      { rewrite length_app in Hlt. cbn in Hlt. lia. }
      destruct (IH (bytes ++ [b]) line r') as (r'' & Hr'' & Ha''); [done|lia|done| |].
      { rewrite length_app. cbn. lia. }
      exists r''. by rewrite Hr'', <-app_assoc.
    + apply (IH bytes (b :: line)); [done|lia|by apply not_elem_of_cons|done].
Qed.

(** A text that survives as a line of at most [max_len] bytes. *)
Record line_ok (max_len : Z) (line : list Z) : Prop := {
  line_scalars : forallb is_scalar line = true;
  line_no_feed : 10 ∉ line;
  line_no_return : last line ≠ Some 13;
  line_short : Z.of_nat (length (encode_chars line)) ≤ max_len;
}.

Definition line_bytes (line : list Z) : list Z := encode_chars line ++ [10].

Lemma line_text_encode line :
  forallb is_scalar line = true → last line ≠ Some 13 → line_text (encode_chars line) = Ok line.
Proof.
  intros Hs Hl. unfold line_text. rewrite strip_suffix_last.
  - cbn. by rewrite decode_encode_chars.
  - intros E. apply Hl. by apply encode_chars_last.
Qed.

Lemma reads_line max_len line :
  line_ok max_len line → reads (read_line max_len) (line_bytes line) (Some line).
Proof.
  intros [Hs Hf Hr Hl] r rest Ha. unfold line_bytes in Ha. rewrite <-app_assoc in Ha.
  destruct (line_loop_reads (S (events r)) max_len [] (encode_chars line) r rest)
    as (r' & Hr' & Ha'); [done|lia| |done|].
  { by apply encode_chars_no_ascii. }
  exists r'. split; [|done]. unfold read_line. rewrite Hr'. cbn [app].
  by rewrite line_text_encode.
Qed.

(** A line longer than the limit is refused before its end is read. *)
Lemma line_loop_too_long fuel max_len bytes r line rest :
  avail r (line ++ rest) → (events r < fuel)%nat → 10 ∉ line →
  Z.of_nat (length bytes) ≤ max_len → Z.of_nat (length bytes + length line) = max_len + 1 →
  ∃ r', line_loop fuel max_len bytes r = (Err (TooLong max_len), r') ∧ avail r' rest.
Proof.
  revert bytes line r. induction fuel as [|fuel IH]; intros bytes line r Ha Hf Hl Hb Hmax; [lia|].
  destruct line as [|b line]; [cbn in Hmax; lia|]. cbn [line_loop app] in *.
  apply not_elem_of_cons in Hl as [Hb10 Hl]. cbn [length] in Hmax.
  destruct (read_byte_avail _ _ _ Ha) as (r' & [[Hr Ha']|[Hr Ha']]); rewrite Hr;
    apply read_byte_events in Hr.
  - destruct (Z.eqb_spec b 10); [congruence|]. rewrite length_app. cbn [length].
    destruct (Z.ltb_spec max_len (Z.of_nat (length bytes + 1))) as [Hlt|Hlt].
    + destruct line; [by exists r'|cbn in Hmax; lia].
    + apply (IH (bytes ++ [b]) line); rewrite ?length_app; cbn; try done; lia.
  - apply (IH bytes (b :: line)); rewrite ?not_elem_of_cons; cbn; try done; lia.
Qed.
End facts.
