(* ===== verification/Daemon.v ===== *)
(** * The daemon protocol of the client: crates/rsync-protocol/src/daemon.rs

    Operands, the greeting, the module list, the choice of a module, its
    authentication and the arguments sent to the server.  Strings are lists of
    characters and are encoded where they meet the stream. *)

From S2P Require Import Prelude Stream WireIo Str Text Lines.

Definition DEFAULT_DAEMON_PORT : Z := 873.

Inductive DaemonError :=
| InvalidOperand (operand : list Z)
| InvalidPort (port : list Z)
| InvalidGreeting (line : list Z)
| UnsupportedProtocol (protocol : Z)
| RemoteError (message : list Z)
| AuthRequired
| UnsupportedAuthChecksum
| UnexpectedEof
| LineTooLong (max_len : Z)
| DaemonIo (e : io_error).

(** ** Operands *)

Record DaemonOperand := {
  user : option (list Z);
  host : list Z;
  port : Z;
  module : option (list Z);
  path : option (list Z);
}.

(** A port is what follows the last colon, when that is a number. *)
Definition parse_host_port (user : option (list Z)) (host_port : list Z) :
    result (option (list Z) * list Z * Z) DaemonError :=
  match rsplit_once (ch ":") host_port with
  | Some (host, port) =>
      if bool_decide (host ≠ []) && bool_decide (port ≠ []) && forallb is_ascii_digit port
      then
        let? port := ok_or (parse_unsigned u16_max port) (InvalidPort port) in
        Ok (user, host, port)
      else Ok (user, host_port, DEFAULT_DAEMON_PORT)
  | None => Ok (user, host_port, DEFAULT_DAEMON_PORT)
  end.

Definition parse_authority (authority : list Z) :
    result (option (list Z) * list Z * Z) DaemonError :=
  let '(user, host_port) :=
    match split_once (ch "@") authority with
    | Some (user, rest) => (Some user, rest)
    | None => (None, authority)
    end in
  if bool_decide (host_port = []) then Err (InvalidOperand authority)
  else parse_host_port user host_port.

Definition parse_module_path (input : list Z) :
    result (option (list Z) * option (list Z)) DaemonError :=
  if bool_decide (input = []) then Ok (None, None)
  else
    let '(module, path) := default (input, []) (split_once (ch "/") input) in
    if bool_decide (module = []) then Err (InvalidOperand input)
    else Ok (Some module, if bool_decide (path = []) then None else Some path).

Definition parse_rsync_url (rest : list Z) : result DaemonOperand DaemonError :=
  let '(authority, module_path) := default (rest, []) (split_once (ch "/") rest) in
  if bool_decide (authority = []) then Err (InvalidOperand (lit "rsync://" ++ rest))
  else
    let? (user_host, port) := parse_authority authority in
    let? (module, path) := parse_module_path module_path in
    Ok {| user := user_host.1; host := user_host.2; port := port;
          module := module; path := path |}.

Definition parse (input : list Z) : result (option DaemonOperand) DaemonError :=
  match strip_prefix input (lit "rsync://") with
  | Some rest => let? operand := parse_rsync_url rest in Ok (Some operand)
  | None =>
      match split_once_str (lit "::") input with
      | None => Ok None
      | Some (authority, module_path) =>
          if bool_decide (authority = []) then Err (InvalidOperand input)
          else
            let? (user_host, port) := parse_authority authority in
            let? (module, path) := parse_module_path module_path in
            Ok (Some {| user := user_host.1; host := user_host.2; port := port;
                        module := module; path := path |})
      end
  end.

(** ** The greeting *)

Inductive DaemonAuthChecksum := Md4 | Md5.

Record DaemonGreeting := {
  peer_protocol : Z;
  peer_subprotocol : Z;
  auth_checksum : DaemonAuthChecksum;
}.

Definition choose_auth_checksum (peer_protocol : Z) (offered : list (list Z)) :
    result DaemonAuthChecksum DaemonError :=
  if bool_decide (offered = []) then
    if 30 <=? peer_protocol then Ok Md5 else Ok Md4
  else if bool_decide (lit "md5" ∈ offered) then Ok Md5
  else if bool_decide (lit "md4" ∈ offered) then Ok Md4
  else Err UnsupportedAuthChecksum.

Definition parse_greeting_line (line : list Z) : result DaemonGreeting DaemonError :=
  let? version := ok_or (strip_prefix line (lit "@RSYNCD: ")) (InvalidGreeting line) in
  match split_whitespace version with
  | [] => Err (InvalidGreeting line)
  | version :: offered_checksums =>
      let '(protocol, subprotocol) :=
        default (version, lit "0") (split_once (ch ".") version) in
      let? peer_protocol := ok_or (parse_unsigned u32_max protocol) (InvalidGreeting line) in
      let? peer_subprotocol := ok_or (parse_unsigned u32_max subprotocol) (InvalidGreeting line) in
      let? auth_checksum := choose_auth_checksum peer_protocol offered_checksums in
      Ok {| peer_protocol := peer_protocol; peer_subprotocol := peer_subprotocol;
            auth_checksum := auth_checksum |}
  end.

(** ** Lines of the server *)

Definition daemon_error_message (line : list Z) : option (list Z) :=
  match strip_prefix line (lit "@ERROR: ") with
  | Some message => Some message
  | None => strip_prefix line (lit "@RSYNCD: ERROR ")
  end.

Record DaemonModule := { name : list Z; comment : list Z }.

Definition parse_module_line (line : list Z) : option DaemonModule :=
  let trimmed := trim_end line in
  if bool_decide (trimmed = []) || starts_with trimmed [ch "@"] then None
  else
    match (match split_once 9 trimmed with
           | Some parts => Some parts
           | None => split_once_str (lit "  ") trimmed
           end) with
    | None => None
    | Some (name, comment) =>
        let name := trim name in
        if bool_decide (name = []) || contains name (ch " ") then None
        else Some {| name := name; comment := trim comment |}
    end.

Record DaemonModuleList := { motd : list (list Z); modules : list DaemonModule }.

Inductive DaemonModuleSelection :=
| SelectionOk (motd : list (list Z))
| SelectionAuthRequired (challenge : list Z) (motd : list (list Z)).

(** The three [while let Some(line)] loops differ in what a line does to what was
    gathered so far: it decides the outcome, or is added to it. *)
Definition list_line (self : DaemonModuleList) (line : list Z) :
    result DaemonModuleList DaemonError + DaemonModuleList :=
  if bool_decide (line = lit "@RSYNCD: EXIT") then inl (Ok self)
  else match daemon_error_message line with
  | Some message => inl (Err (RemoteError message))
  | None =>
      inr (match parse_module_line line with
           | Some module => {| motd := motd self; modules := modules self ++ [module] |}
           | None => {| motd := motd self ++ [line]; modules := modules self |}
           end)
  end.

Definition select_line (motd : list (list Z)) (line : list Z) :
    result DaemonModuleSelection DaemonError + list (list Z) :=
  if bool_decide (line = lit "@RSYNCD: OK") then inl (Ok (SelectionOk motd))
  else match strip_prefix line (lit "@RSYNCD: AUTHREQD ") with
  | Some challenge => inl (Ok (SelectionAuthRequired challenge motd))
  | None =>
      match daemon_error_message line with
      | Some message => inl (Err (RemoteError message))
      | None => inr (motd ++ [line])
      end
  end.

Definition authenticate_line (motd : list (list Z)) (line : list Z) :
    result (list (list Z)) DaemonError + list (list Z) :=
  if bool_decide (line = lit "@RSYNCD: OK") then inl (Ok motd)
  else match daemon_error_message line with
  | Some message => inl (Err (RemoteError message))
  | None => inr (motd ++ [line])
  end.

(** ** Authentication *)

Definition B64 : list Z := lit "ABCDEFGHIJKLMNOPQRSTUVWXYZabcdefghijklmnopqrstuvwxyz0123456789+/".

Definition base64_index (bytes : list Z) (i : nat) : Z :=
  let byte_offset := (i * 6 / 8)%nat in
  let bit_offset := Z.of_nat ((i * 6) mod 8) in
  if bit_offset <? 3
  then Z.land (Z.shiftr (nth byte_offset bytes 0) (2 - bit_offset)) 0x3f
  else
    let value := Z.land (as_u8 (Z.shiftl (nth byte_offset bytes 0) (bit_offset - 2))) 0x3f in
    if (byte_offset + 1 <? length bytes)%nat
    then Z.lor value (Z.shiftr (nth (byte_offset + 1) bytes 0) (8 - (bit_offset - 2)))
    else value.

Definition base64_no_pad (bytes : list Z) : list Z :=
  let output_len := ((length bytes * 8 + 5) / 6)%nat in
  (λ i, nth (Z.to_nat (base64_index bytes i)) B64 0) <$> seq 0 output_len.

Definition constant_time_eq (left right : list Z) : bool :=
  if negb (length left =? length right)%nat then false
  else fold_left (λ acc lr, Z.lor acc (Z.lxor lr.1 lr.2)) (zip left right) 0 =? 0.

(** The digests of the crates md4 and md5. *)
Class Digests := { md4 : list Z → list Z; md5 : list Z → list Z }.

Definition daemon_auth_response `{Digests} (password challenge : list Z)
    (checksum : DaemonAuthChecksum) : list Z :=
  let input := encode_chars password ++ encode_chars challenge in
  match checksum with
  | Md4 => base64_no_pad (md4 input)
  | Md5 => base64_no_pad (md5 input)
  end.

Definition daemon_auth_response_matches `{Digests} (password challenge : list Z)
    (checksum : DaemonAuthChecksum) (response : list Z) : bool :=
  constant_time_eq (encode_chars (daemon_auth_response password challenge checksum))
    (encode_chars response).

(** ** The exchanges *)

Section exchanges.
Context {T : Type} `{ReadByte T} `{Write T}.

Definition client_line_error (e : line_error) : DaemonError :=
  match e with
  | TooLong max_len => LineTooLong max_len
  | NotUtf8 => InvalidGreeting (lit "non-UTF-8 daemon line")
  | ReadFailed e => DaemonIo e
  end.

Definition read_daemon_line (max_len : Z) : M T DaemonError (option (list Z)) :=
  with_err client_line_error (read_line max_len).

Definition send (text : list Z) : M T DaemonError unit :=
  with_err DaemonIo (write_all (encode_chars text)).
Definition send_flush : M T DaemonError unit := with_err DaemonIo flush.

Definition exchange_daemon_greeting (local_protocol : Z) : M T DaemonError DaemonGreeting :=
  line ← read_daemon_line 1024;
  line ← lift (ok_or line UnexpectedEof);
  greeting ← lift (parse_greeting_line line);
  if negb ((MIN_PROTOCOL_VERSION <=? peer_protocol greeting) &&
           (peer_protocol greeting <=? MAX_PROTOCOL_VERSION))
  then throw (UnsupportedProtocol (peer_protocol greeting))
  else
    send (lit "@RSYNCD: " ++ decimal local_protocol ++ lit ".0 md5 md4" ++ [10]);;
    send_flush;;
    mret greeting.

(** A loop over lines takes a turn for each, so the events of the stream bound it. *)
Fixpoint lines_fuel {S A} (fuel : nat) (body : S → list Z → result A DaemonError + S)
    (s : S) : M T DaemonError A :=
  match fuel with
  | O => throw UnexpectedEof
  | Datatypes.S fuel =>
      line ← read_daemon_line 8192;
      match line with
      | None => throw UnexpectedEof
      | Some line =>
          match body s line with
          | inl outcome => lift outcome
          | inr s => lines_fuel fuel body s
          end
      end
  end.

Definition while_line {S A} (body : S → list Z → result A DaemonError + S) (s : S) :
    M T DaemonError A :=
  λ t, lines_fuel (Datatypes.S (events t)) body s t.

Definition read_module_list : M T DaemonError DaemonModuleList :=
  while_line list_line {| motd := []; modules := [] |}.

Definition request_module_list : M T DaemonError DaemonModuleList :=
  send (lit "#list" ++ [10]);;
  send_flush;;
  read_module_list.

Definition select_daemon_module (module : list Z) : M T DaemonError DaemonModuleSelection :=
  if bool_decide (module = []) || contains module 0 then throw (InvalidOperand module)
  else
    send module;;
    send [10];;
    send_flush;;
    while_line select_line [].

Definition select_no_auth_daemon_module (module : list Z) : M T DaemonError (list (list Z)) :=
  selection ← select_daemon_module module;
  match selection with
  | SelectionOk motd => mret motd
  | SelectionAuthRequired _ _ => throw AuthRequired
  end.

Definition authenticate_daemon_module `{Digests} (user password challenge : list Z)
    (checksum : DaemonAuthChecksum) : M T DaemonError (list (list Z)) :=
  if bool_decide (user = []) || contains user 0 || contains password 0
  then throw (InvalidOperand user)
  else
    send user;;
    send (lit " ");;
    send (daemon_auth_response password challenge checksum);;
    send [10];;
    send_flush;;
    while_line authenticate_line [].

Definition args_end (protocol : Z) : list Z := if 30 <=? protocol then [0] else [10].

Definition write_daemon_arg (protocol : Z) (arg : list Z) : M T DaemonError unit :=
  if contains arg 0 then throw (InvalidOperand arg)
  else send arg;; send (args_end protocol).

Definition write_daemon_args (protocol : Z) (args : list (list Z)) : M T DaemonError unit :=
  for_each (write_daemon_arg protocol) args;;
  send (args_end protocol);;
  send_flush.
End exchanges.

Example url : parse (lit "rsync://user@example.test:8873/mod/dir/file") =
  Ok (Some {| user := Some (lit "user"); host := lit "example.test"; port := 8873;
              module := Some (lit "mod"); path := Some (lit "dir/file") |}).
Proof. vm_compute. reflexivity. Qed.
Example drive_is_local : parse (lit "C:\data") = Ok None.
Proof. vm_compute. reflexivity. Qed.
Example base64_foobar : base64_no_pad (lit "foobar") = lit "Zm9vYmFy".
Proof. vm_compute. reflexivity. Qed.
Example base64_foob : base64_no_pad (lit "foob") = lit "Zm9vYg".
Proof. vm_compute. reflexivity. Qed.
