(* ===== verification/DaemonFacts.v ===== *)
(** * Facts about the client of the daemon protocol *)

From S2P Require Import Prelude Stream WireIo Str Text Lines Daemon.

(** ** Operands *)

Definition print_authority (o : DaemonOperand) : list Z :=
  (match user o with Some user => user ++ [ch "@"] | None => [] end) ++
  host o ++ [ch ":"] ++ decimal (port o).

Definition print_module_path (o : DaemonOperand) : list Z :=
  match module o with
  | None => []
  | Some module => module ++ match path o with Some path => ch "/" :: path | None => [] end
  end.

Definition print_url (o : DaemonOperand) : list Z :=
  lit "rsync://" ++ print_authority o ++ [ch "/"] ++ print_module_path o.

Definition print_double_colon (o : DaemonOperand) : list Z :=
  print_authority o ++ lit "::" ++ print_module_path o.

(** What every operand the parser yields satisfies. *)
Record operand_ok (o : DaemonOperand) : Prop := {
  host_ne : host o ≠ [];
  user_sign : match user o with Some user => (ch "@") ∉ user | None => (ch "@") ∉ host o end;
  port_range : 0 ≤ port o ≤ u16_max;
  module_name : match module o with
                | Some module => module ≠ [] ∧ (ch "/") ∉ module
                | None => path o = None
                end;
  path_ne : path o ≠ Some [];
}.

Definition no_slash (o : DaemonOperand) : Prop :=
  ((ch "/") ∉ host o) ∧ ((ch "/") ∉ default [] (user o)).

(** Read as [host::module], the first double colon has to be the one written. *)
Definition plain_authority (o : DaemonOperand) : Prop :=
  contains_str (print_authority o) (lit "::") = false ∧
  strip_prefix (print_double_colon o) (lit "rsync://") = None.

Lemma decimal_plain c n : 0 ≤ n → is_ascii_digit c = false → c ∉ decimal n.
Proof.
  intros Hn Hc Hin. pose proof (decimal_digits n Hn) as Hd. rewrite forallb_forall in Hd.
  apply list_elem_of_In, Hd in Hin. congruence.
Qed.

Lemma parse_print_host_port user host port :
  host ≠ [] → 0 ≤ port ≤ u16_max →
  parse_host_port user (host ++ [ch ":"] ++ decimal port) = Ok (user, host, port).
Proof.
  intros Hh Hp. unfold parse_host_port. cbn [app].
  rewrite rsplit_once_app by (apply decimal_plain; [lia|done]).
  rewrite !bool_decide_true by (done || apply decimal_ne).
  rewrite decimal_digits, parse_decimal by lia. done.
Qed.

Lemma parse_print_authority o :
  operand_ok o → parse_authority (print_authority o) = Ok (user o, host o, port o).
Proof.
  intros [Hh Hu Hp _ _]. unfold parse_authority, print_authority.
  assert (Hne : host o ++ [ch ":"] ++ decimal (port o) ≠ []) by by destruct (host o).
  destruct (user o) as [u|].
  - rewrite <-app_assoc. change ([ch "@"] ++ ?x) with (ch "@" :: x).
    rewrite split_once_app, bool_decide_false by done. by apply parse_print_host_port.
  - cbn [app]. rewrite split_once_plain.
    + rewrite bool_decide_false by done. by apply parse_print_host_port.
    + rewrite not_elem_of_app, not_elem_of_cons. split_and!; [done|done|].
      apply decimal_plain; [lia|done].
Qed.

Lemma parse_print_module_path o :
  operand_ok o → parse_module_path (print_module_path o) = Ok (module o, path o).
Proof.
  intros [_ _ _ Hm Hp]. unfold parse_module_path, print_module_path.
  destruct (module o) as [m|]; [|by rewrite Hm]. destruct Hm as [Hne Hs].
  rewrite bool_decide_false by (by destruct m).
  destruct (path o) as [p|].
  - rewrite split_once_app by done. cbn [from_option id].
    rewrite !bool_decide_false by congruence. done.
  - rewrite app_nil_r, split_once_plain by done. cbn [from_option id]. by rewrite bool_decide_false.
Qed.

Lemma operand_eta o : {| user := user o; host := host o; port := port o;
                         module := module o; path := path o |} = o.
Proof. by destruct o. Qed.

Lemma url_reads o : operand_ok o → no_slash o → parse (print_url o) = Ok (Some o).
Proof.
  intros Ho [Hh Hu]. unfold parse, print_url. rewrite strip_prefix_app. unfold parse_rsync_url.
  cbn [app]. rewrite split_once_app.
  - cbn [from_option id]. rewrite bool_decide_false.
    + rewrite parse_print_authority, parse_print_module_path by done. cbn. by rewrite operand_eta.
    + unfold print_authority. intros E. apply app_eq_nil in E as [_ E].
      by apply app_eq_nil in E as [E _]; apply (host_ne _ Ho).
  - unfold print_authority. rewrite !not_elem_of_app, list_elem_of_singleton. split_and!; try done.
    + destruct (user o); [|apply not_elem_of_nil].
      by rewrite not_elem_of_app, list_elem_of_singleton.
    + apply decimal_plain; [apply port_range in Ho; lia|done].
Qed.

Lemma starts_with_cons x s y t : starts_with (x :: s) (y :: t) = (x =? y) && starts_with s t.
Proof.
  unfold starts_with. cbn [length take].
  destruct (Z.eqb_spec x y) as [->|Hx]; cbn [andb].
  - apply bool_decide_ext. split; [by intros [= ->]|by intros ->].
  - apply bool_decide_false. by intros [= ->].
Qed.

Lemma starts_with_nil_r s : starts_with s [] = true.
Proof. by apply bool_decide_true. Qed.

Lemma split_double c text rest :
  contains_str text [c; c] = false → last text ≠ Some c →
  split_once_str [c; c] (text ++ [c; c] ++ rest) = Some (text, rest).
Proof.
  induction text as [|x text IH]; intros Ht Hl.
  - cbn [app split_once_str]. change (c :: c :: rest) with ([c; c] ++ rest).
    by rewrite starts_with_app, drop_app_length.
  - cbn [contains_str] in Ht. apply orb_false_iff in Ht as [Hh Ht].
    cbn [app split_once_str]. rewrite starts_with_cons.
    assert (Hs : (x =? c) && starts_with (text ++ [c; c] ++ rest) [c] = false).
    { destruct (Z.eqb_spec x c) as [->|]; [|done]. destruct text as [|y text]; [done|].
      cbn [app]. rewrite !starts_with_cons in *. rewrite Z.eqb_refl in Hh. exact Hh. }
    cbn [app] in Hs, IH. rewrite Hs. rewrite IH; [done|done|].
    intros E. apply Hl. by destruct text.
Qed.

Lemma double_reads o :
  operand_ok o → plain_authority o → parse (print_double_colon o) = Ok (Some o).
Proof.
  intros Ho [Hc Hs]. unfold parse. rewrite Hs. unfold print_double_colon.
  rewrite (split_double (ch ":")).
  - rewrite bool_decide_false.
    + rewrite parse_print_authority, parse_print_module_path by done. cbn. by rewrite operand_eta.
    + unfold print_authority. intros E. apply app_eq_nil in E as [_ E].
      by apply app_eq_nil in E as [E _]; apply (host_ne _ Ho).
  - exact Hc.
  - unfold print_authority. destruct (decimal (port o)) as [|d digits _] eqn:E using rev_ind;
      [by apply decimal_ne in E|].
    rewrite !app_assoc, last_snoc. intros [= ->].
    apply (decimal_plain (ch ":") (port o)); [by destruct Ho; lia|done|].
    rewrite E, elem_of_app, list_elem_of_singleton. by right.
Qed.

Lemma parse_host_port_ok user host_port user' host port :
  host_port ≠ [] → parse_host_port user host_port = Ok (user', host, port) →
  user' = user ∧ host ≠ [] ∧ 0 ≤ port ≤ u16_max ∧ (∀ c, c ∉ host_port → c ∉ host).
Proof.
  unfold parse_host_port. intros Hne.
  destruct (rsplit_once (ch ":") host_port) as [[h p]|] eqn:Hp.
  - apply rsplit_once_inv in Hp as [-> _]. destruct (_ && _ && _) eqn:Hc.
    + destruct (parse_unsigned u16_max p) as [n|] eqn:Hn; [|done]. intros [= <- <- <-].
      apply parse_unsigned_range in Hn. rewrite !andb_true_iff in Hc.
      destruct Hc as [[Hh%bool_decide_eq_true _] _]. split_and!; try done; [lia..|].
      intros x. rewrite not_elem_of_app. by intros [].
    + intros [= <- <- <-]. unfold DEFAULT_DAEMON_PORT, u16_max. split_and!; done || lia.
  - intros [= <- <- <-]. unfold DEFAULT_DAEMON_PORT, u16_max. split_and!; done || lia.
Qed.

Lemma parse_authority_ok authority user host port :
  parse_authority authority = Ok (user, host, port) →
  host ≠ [] ∧ match user with Some u => (ch "@") ∉ u | None => (ch "@") ∉ host end ∧
  0 ≤ port ≤ u16_max ∧
  ((ch "/") ∉ authority → ((ch "/") ∉ host) ∧ ((ch "/") ∉ default [] user)).
Proof.
  unfold parse_authority. destruct (split_once (ch "@") authority) as [[u rest]|] eqn:Ha.
  - apply split_once_inv in Ha as [-> Hu]. case_bool_decide as Hr; [done|].
    rewrite not_elem_of_app, not_elem_of_cons.
    intros (-> & Hh & Hp & Hin)%parse_host_port_ok; [|done]. cbn.
    split_and!; [done|done|lia..|]. intros (Hs & _ & Hr'). split; [by apply Hin|done].
  - apply split_once_none in Ha. case_bool_decide as Hr; [done|].
    intros (-> & Hh & Hp & Hin)%parse_host_port_ok; [|done]. cbn.
    split_and!; [done|by apply Hin|lia..|]. intros Hs. split; [by apply Hin|apply not_elem_of_nil].
Qed.

Lemma parse_module_path_ok input module path :
  parse_module_path input = Ok (module, path) →
  match module with Some m => m ≠ [] ∧ (ch "/") ∉ m | None => path = None end ∧
  path ≠ Some [].
Proof.
  unfold parse_module_path. case_bool_decide; [by intros [= <- <-]|].
  destruct (split_once (ch "/") input) as [[m p]|] eqn:Hs; cbn [from_option id].
  - apply split_once_inv in Hs as [_ Hs]. case_bool_decide; [done|]. intros [= <- <-].
    split; [done|]. case_bool_decide; congruence.
  - apply split_once_none in Hs. rewrite bool_decide_false by done. intros [= <- <-]. done.
Qed.

Lemma assembled_ok authority module_path u h p m pa :
  parse_authority authority = Ok (u, h, p) → parse_module_path module_path = Ok (m, pa) →
  let o := {| user := u; host := h; port := p; module := m; path := pa |} in
  operand_ok o ∧ ((ch "/") ∉ authority → no_slash o).
Proof.
  intros (Hh & Hu & Hp & Hs)%parse_authority_ok (Hm & Hpa)%parse_module_path_ok.
  split; [by constructor|exact Hs].
Qed.

Lemma parse_ok input o :
  parse input = Ok (Some o) →
  operand_ok o ∧ (strip_prefix input (lit "rsync://") ≠ None → no_slash o).
Proof.
  unfold parse. destruct (strip_prefix input (lit "rsync://")) as [rest|].
  - unfold parse_rsync_url. destruct (default (rest, []) (split_once (ch "/") rest))
      as [authority module_path] eqn:Hr. case_bool_decide; [done|].
    destruct (parse_authority authority) as [[[u h] p]|] eqn:Ha; [|done]. cbn [and_then].
    destruct (parse_module_path module_path) as [[m pa]|] eqn:Hm; [|done].
    cbn. intros [= <-]. destruct (assembled_ok _ _ _ _ _ _ _ Ha Hm) as [Ho Hs].
    split; [exact Ho|]. intros _. apply Hs.
    destruct (split_once (ch "/") rest) as [[l r]|] eqn:E; injection Hr as <- <-.
    + by apply split_once_inv in E as [_ E].
    + by apply split_once_none in E.
  - destruct (split_once_str (lit "::") input) as [[authority module_path]|]; [|done].
    case_bool_decide; [done|].
    destruct (parse_authority authority) as [[[u h] p]|] eqn:Ha; [|done]. cbn [and_then].
    destruct (parse_module_path module_path) as [[m pa]|] eqn:Hm; [|done].
    cbn. intros [= <-]. by destruct (assembled_ok _ _ _ _ _ _ _ Ha Hm) as [Ho _].
Qed.

Lemma split_once_str_none sep s : split_once_str sep s = None ↔ contains_str s sep = false.
Proof.
  induction s as [|c s IH]; cbn [split_once_str contains_str].
  - destruct (starts_with [] sep); by split.
  - destruct (starts_with (c :: s) sep); [by split|]. cbn [orb]. rewrite <-IH.
    by destruct (split_once_str sep s) as [[]|].
Qed.

(** A daemon operand is read back from its URL form and from its double-colon
    form, whatever its user, host, port, module and path, as long as the separators of
    that form can be told from its parts.  Every operand the parser yields is of this
    kind, a URL's always, so it has a written form; and an operand with neither the
    prefix nor a double colon is left to the other parsers. *)
Theorem daemon_operand_round_trip :
  (∀ o, operand_ok o → no_slash o → parse (print_url o) = Ok (Some o)) ∧
  (∀ o, operand_ok o → plain_authority o → parse (print_double_colon o) = Ok (Some o)) ∧
  (∀ input o, parse input = Ok (Some o) →
     operand_ok o ∧ (strip_prefix input (lit "rsync://") ≠ None → no_slash o)) ∧
  (∀ input, parse input = Ok None ↔
     strip_prefix input (lit "rsync://") = None ∧ contains_str input (lit "::") = false).
Proof.
  split_and!; [apply url_reads|apply double_reads|apply parse_ok|].
  intros input. rewrite <-split_once_str_none. unfold parse.
  destruct (strip_prefix input (lit "rsync://")) as [rest|].
  - split; [|by intros []]. by destruct (parse_rsync_url rest).
  - destruct (split_once_str (lit "::") input) as [[a m]|]; [|by split].
    split; [|by intros []]. case_bool_decide; [done|].
    destruct (parse_authority a) as [[]|]; [|done]. cbn [and_then].
    by destruct (parse_module_path m) as [[]|].
Qed.

Definition url_operand : DaemonOperand :=
  {| user := Some (lit "me"); host := lit "[::1]"; port := 8873;
     module := Some (lit "mod"); path := Some (lit "dir/file") |}.

(** ** Base64 *)

(** Three bytes as four digits, and what is left at the end. *)
Fixpoint base64_digits (bytes : list Z) : list Z :=
  match bytes with
  | b0 :: b1 :: b2 :: bytes =>
      [b0 / 4; b0 mod 4 * 16 + b1 / 16; b1 mod 16 * 4 + b2 / 64; b2 mod 64]
      ++ base64_digits bytes
  | [b0; b1] => [b0 / 4; b0 mod 4 * 16 + b1 / 16; b1 mod 16 * 4]
  | [b0] => [b0 / 4; b0 mod 4 * 16]
  | [] => []
  end.

Definition base64 (bytes : list Z) : list Z :=
  (λ d, nth (Z.to_nat d) B64 0) <$> base64_digits bytes.

Definition output_len (n : nat) : nat := ((n * 8 + 5) / 6)%nat.

Lemma output_len_step n : output_len (3 + n) = (4 + output_len n)%nat.
Proof.
  unfold output_len. replace ((3 + n) * 8 + 5)%nat with (4 * 6 + (n * 8 + 5))%nat by lia.
  rewrite Nat.div_add_l by lia. done.
Qed.

Lemma base64_index_step b0 b1 b2 bytes i :
  base64_index (b0 :: b1 :: b2 :: bytes) (4 + i) = base64_index bytes i.
Proof.
  unfold base64_index.
  replace ((4 + i) * 6)%nat with (3 * 8 + i * 6)%nat by lia.
  rewrite Nat.div_add_l by lia. rewrite (Nat.add_comm (3 * 8)), Nat.Div0.mod_add.
  cbn [length Nat.add nth]. done.
Qed.

Lemma all_bytes (p : Z → bool) b : all_below 256 p = true → in_u8 b → p b = true.
Proof. intros Hp Hb. apply (all_below_spec 256 p b Hp). unfold in_u8 in Hb. lia. Qed.

Lemma first_digit b : in_u8 b → Z.land (Z.shiftr b 2) 0x3f = b / 4.
Proof.
  intros Hb. apply Z.eqb_eq.
  by apply (all_bytes (λ b, Z.land (Z.shiftr b 2) 0x3f =? b / 4)).
Qed.

Lemma last_digit b : in_u8 b → Z.land (Z.shiftr b 0) 0x3f = b mod 64.
Proof.
  intros Hb. apply Z.eqb_eq.
  by apply (all_bytes (λ b, Z.land (Z.shiftr b 0) 0x3f =? b mod 64)).
Qed.

Lemma carry_4 b : in_u8 b → Z.land (as_u8 (Z.shiftl b 4)) 0x3f = b mod 4 * 16.
Proof.
  intros Hb. apply Z.eqb_eq.
  by apply (all_bytes (λ b, Z.land (as_u8 (Z.shiftl b 4)) 0x3f =? b mod 4 * 16)).
Qed.

Lemma carry_2 b : in_u8 b → Z.land (as_u8 (Z.shiftl b 2)) 0x3f = b mod 16 * 4.
Proof.
  intros Hb. apply Z.eqb_eq.
  by apply (all_bytes (λ b, Z.land (as_u8 (Z.shiftl b 2)) 0x3f =? b mod 16 * 4)).
Qed.

Lemma lor_digits a b k :
  0 ≤ k → 0 ≤ a → 0 ≤ b < 2 ^ k → Z.lor (a * 2 ^ k) b = a * 2 ^ k + b.
Proof. intros Hk Ha Hb. rewrite <-Z.shiftl_mul_pow2 at 1 by done. by apply lor_shiftl. Qed.

(** The indexes at the head of a concrete list. *)
Local Ltac eval_indexes :=
  cbn -[Z.land Z.shiftr Z.shiftl Z.div Z.modulo as_u8 base64_index];
  unfold base64_index; cbn -[Z.land Z.shiftr Z.shiftl Z.div Z.modulo as_u8 Z.of_nat];
  change (Z.of_nat 0) with 0; change (Z.of_nat 2) with 2;
  change (Z.of_nat 4) with 4; change (Z.of_nat 6) with 6;
  cbn -[Z.land Z.shiftr Z.shiftl Z.div Z.modulo as_u8].

Lemma base64_indexes bytes :
  Forall in_u8 bytes →
  base64_index bytes <$> seq 0 (output_len (length bytes)) = base64_digits bytes.
Proof.
  induction bytes as [bytes IH] using (induction_ltof1 _ length). intros Hb.
  destruct bytes as [|b0 [|b1 [|b2 bytes]]]; [done|..].
  - apply Forall_cons in Hb as [H0 _]. eval_indexes.
    by rewrite first_digit, carry_4.
  - apply Forall_cons in Hb as [H0 [H1 _]%Forall_cons].
    eval_indexes.
    rewrite first_digit, carry_4, carry_2 by done. rewrite Z.shiftr_div_pow2 by lia.
    unfold in_u8 in *. rewrite (lor_digits _ _ 4); [done|lia|divmod|].
    change (2 ^ 4) with 16. divmod.
  - apply Forall_cons in Hb as [H0 [H1 [H2 Hb]%Forall_cons]%Forall_cons].
    change (length (b0 :: b1 :: b2 :: bytes)) with (3 + length bytes)%nat.
    rewrite output_len_step, seq_app, fmap_app. cbn [base64_digits]. f_equal.
    + eval_indexes.
      rewrite first_digit, carry_4, carry_2, last_digit by done.
      rewrite !Z.shiftr_div_pow2 by lia. unfold in_u8 in *.
      rewrite (lor_digits _ _ 4), (lor_digits _ _ 2); try lia; try divmod; done.
    + rewrite <-IH; [|unfold ltof; cbn; lia|done].
      change (0 + 4)%nat with (4 + 0)%nat. rewrite <-fmap_add_seq, <-list_fmap_compose.
      apply list_fmap_ext. intros _ i _. apply base64_index_step.
Qed.

Lemma base64_correct bytes : Forall in_u8 bytes → base64_no_pad bytes = base64 bytes.
Proof.
  intros Hb. unfold base64_no_pad, base64. rewrite <-base64_indexes by done.
  by rewrite <-list_fmap_compose.
Qed.

(** The decoder: each character's place in the alphabet, four digits to three bytes. *)
Definition digit_of (c : Z) : Z :=
  match split_once c B64 with Some (before, _) => Z.of_nat (length before) | None => 0 end.

Fixpoint base64_bytes (digits : list Z) : list Z :=
  match digits with
  | d0 :: d1 :: d2 :: d3 :: digits =>
      [d0 * 4 + d1 / 16; d1 mod 16 * 16 + d2 / 4; d2 mod 4 * 64 + d3] ++ base64_bytes digits
  | [d0; d1; d2] => [d0 * 4 + d1 / 16; d1 mod 16 * 16 + d2 / 4]
  | [d0; d1] => [d0 * 4 + d1 / 16]
  | _ => []
  end.

Definition base64_decode (text : list Z) : list Z := base64_bytes (digit_of <$> text).

Lemma base64_digits_range bytes :
  Forall in_u8 bytes → Forall (λ d, 0 ≤ d < 64) (base64_digits bytes).
Proof.
  induction bytes as [bytes IH] using (induction_ltof1 _ length). intros Hb.
  destruct bytes as [|b0 [|b1 [|b2 bytes]]]; cbn [base64_digits app]; [constructor|..];
    repeat (apply Forall_cons in Hb as [? Hb]); unfold in_u8 in *;
    repeat (apply Forall_cons; split; [divmod|]); [constructor..|].
  apply IH; [unfold ltof; cbn; lia|done].
Qed.

Lemma base64_bytes_digits bytes : Forall in_u8 bytes → base64_bytes (base64_digits bytes) = bytes.
Proof.
  induction bytes as [bytes IH] using (induction_ltof1 _ length). intros Hb.
  destruct bytes as [|b0 [|b1 [|b2 bytes]]]; cbn [base64_digits app base64_bytes]; [done|..];
    repeat (apply Forall_cons in Hb as [? Hb]); unfold in_u8 in *;
    repeat (apply (f_equal2 cons); [divmod|]); try done.
  apply IH; [unfold ltof; cbn; lia|done].
Qed.

Lemma digit_of_digit d : 0 ≤ d < 64 → digit_of (nth (Z.to_nat d) B64 0) = d.
Proof.
  intros Hd. apply Z.eqb_eq.
  by apply (all_below_spec 64 (λ d, digit_of (nth (Z.to_nat d) B64 0) =? d)).
Qed.

Lemma base64_decodes bytes : Forall in_u8 bytes → base64_decode (base64 bytes) = bytes.
Proof.
  intros Hb. unfold base64_decode, base64. rewrite <-list_fmap_compose.
  rewrite <-(base64_bytes_digits bytes Hb) at 2. f_equal.
  rewrite <-(list_fmap_id (base64_digits bytes)) at 2.
  apply list_fmap_ext. intros i d Hd. cbn. apply digit_of_digit.
  exact (Forall_lookup_1 _ _ _ _ (base64_digits_range bytes Hb) Hd).
Qed.

Lemma base64_ascii bytes : Forall in_u8 bytes → forallb is_ascii_graphic (base64 bytes) = true.
Proof.
  intros Hb. apply forallb_forall. intros c Hc. apply list_elem_of_In in Hc.
  unfold base64 in Hc. apply list_elem_of_fmap in Hc as (d & -> & Hd).
  apply (all_below_spec 64 (λ d, is_ascii_graphic (nth (Z.to_nat d) B64 0))); [done|].
  pose proof (base64_digits_range bytes Hb) as Hr. rewrite Forall_forall in Hr. by apply Hr.
Qed.

(** ** Comparison *)

Lemma lor_fold_zero pairs acc :
  fold_left (λ acc (lr : Z * Z), Z.lor acc (Z.lxor lr.1 lr.2)) pairs acc = 0 ↔
  acc = 0 ∧ Forall (λ lr, lr.1 = lr.2) pairs.
Proof.
  revert acc. induction pairs as [|[l r] pairs IH]; intros acc; cbn [fold_left fst snd].
  - intuition constructor.
  - rewrite IH, Z.lor_eq_0_iff, Z.lxor_eq_0_iff, Forall_cons. tauto.
Qed.

Lemma constant_time_eq_spec left right : constant_time_eq left right = true ↔ left = right.
Proof.
  unfold constant_time_eq. destruct (Nat.eqb_spec (length left) (length right)) as [Hl|Hl];
    cbn [negb]; [|split; [done|by intros ->]].
  rewrite Z.eqb_eq, lor_fold_zero.
  split; [intros [_ Hf]|intros ->; split; [done|]].
  - revert right Hl Hf. induction left as [|l left IH]; intros [|r right] Hl Hf; try done.
    cbn in Hf. apply Forall_cons in Hf as [Hh Hf]. cbn in Hh, Hl. f_equal; [done|].
    apply IH; [lia|done].
  - clear Hl. induction right; cbn; constructor; done.
Qed.

Lemma encode_chars_inj s t :
  forallb is_scalar s = true → forallb is_scalar t = true → encode_chars s = encode_chars t → s = t.
Proof.
  intros Hs Ht E. apply decode_encode_chars in Hs, Ht. rewrite E in Hs. congruence.
Qed.

(** What the digests promise: they are made of bytes. *)
Class DigestLaws `{Digests} := {
  md4_bytes input : Forall in_u8 (md4 input);
  md5_bytes input : Forall in_u8 (md5 input);
}.

Definition digest_of `{Digests} (checksum : DaemonAuthChecksum) : list Z → list Z :=
  match checksum with Md4 => md4 | Md5 => md5 end.

Lemma digest_bytes `{DigestLaws} checksum input : Forall in_u8 (digest_of checksum input).
Proof. destruct checksum; [apply md4_bytes|apply md5_bytes]. Qed.

Lemma response_base64 `{DigestLaws} password challenge checksum :
  daemon_auth_response password challenge checksum =
  base64 (digest_of checksum (encode_chars password ++ encode_chars challenge)).
Proof. destruct checksum; cbn; apply base64_correct; [apply md4_bytes|apply md5_bytes]. Qed.

Lemma graphic_ascii s : forallb is_ascii_graphic s = true → forallb is_ascii s = true.
Proof.
  rewrite !forallb_forall. intros Hs c Hc. specialize (Hs c Hc).
  unfold is_ascii_graphic, is_ascii, in_range in *. lia.
Qed.

Lemma response_scalars `{DigestLaws} password challenge checksum :
  forallb is_scalar (daemon_auth_response password challenge checksum) = true.
Proof.
  rewrite response_base64. apply ascii_scalars, graphic_ascii, base64_ascii, digest_bytes.
Qed.

(** The answer to a challenge is the base64 of the digest of password and
    challenge, from which a decoder takes the digest back; the server's check accepts
    exactly that answer, so a password is accepted in place of another exactly when the
    digests agree. *)
Theorem auth_response_spec `{DigestLaws} password challenge checksum :
  let digest := digest_of checksum (encode_chars password ++ encode_chars challenge) in
  daemon_auth_response password challenge checksum = base64 digest ∧
  base64_decode (daemon_auth_response password challenge checksum) = digest ∧
  (∀ response, forallb is_scalar response = true →
     daemon_auth_response_matches password challenge checksum response = true ↔
     response = base64 digest) ∧
  (∀ password', daemon_auth_response_matches password challenge checksum
       (daemon_auth_response password' challenge checksum) = true ↔
     digest_of checksum (encode_chars password' ++ encode_chars challenge) = digest).
Proof.
  intros digest. pose proof (response_base64 password challenge checksum) as Hr.
  assert (Hm : ∀ response, forallb is_scalar response = true →
     daemon_auth_response_matches password challenge checksum response = true ↔
     response = base64 digest).
  { intros response Hs. unfold daemon_auth_response_matches.
    rewrite constant_time_eq_spec, Hr. fold digest. split; [|by intros ->].
    intros E. symmetry. apply encode_chars_inj; [|done|done].
    apply ascii_scalars, graphic_ascii, base64_ascii, digest_bytes. }
  split_and!; [done|rewrite Hr; apply base64_decodes, digest_bytes|done|].
  intros password'. rewrite Hm by apply response_scalars. rewrite response_base64.
  split; [|by intros ->]. intros E. apply (f_equal base64_decode) in E.
  rewrite !base64_decodes in E; [done|apply digest_bytes..].
Qed.

(** Digests for concrete runs: the first bytes of the input. *)
#[local] Instance sample_digests : Digests :=
  {| md4 input := take 16 (as_u8 <$> input); md5 input := rev (take 16 (as_u8 <$> input)) |}.

Lemma sample_digest_bytes input : Forall in_u8 (take 16 (as_u8 <$> input)).
Proof.
  apply Forall_take, Forall_fmap, Forall_forall. intros z _. unfold in_u8, as_u8. cbn.
  apply Z.mod_pos_bound. lia.
Qed.

#[local] Instance sample_digest_laws : DigestLaws.
Proof.
  constructor; intros input; cbn; [apply sample_digest_bytes|].
  apply Forall_rev, sample_digest_bytes.
Qed.

Lemma auth_response_spec_witness :
  base64_decode (daemon_auth_response (lit "pw") (lit "c") Md5) = lit "cwp".
Proof.
  destruct (auth_response_spec (lit "pw") (lit "c") Md5) as (_ & H & _). exact H.
Defined.
