(* ===== verification/DaemonConfig.v ===== *)
(** * The daemon server's modules: crates/rsync-cli/src/daemon_server/mod.rs

    The configuration file, the secrets file, the challenge of an authentication and
    the paths a client may name in a module.  A message is kept as its format string;
    of an error with context, the context.  Paths are texts. *)

From S2P Require Import Prelude Stream Str Text Daemon.

Inductive server_error :=
| ServerIo (e : io_error)
| Bail (message : string).

#[export] Instance server_error_eq_dec : EqDecision server_error.
Proof. solve_decision. Defined.

Definition bail {A} (message : string) : result A server_error := Err (Bail message).

Record DaemonServerModule := {
  name : list Z;
  path : list Z;
  comment : list Z;
  read_only : bool;
  write_only : bool;
  listed : bool;
  auth_users : list (list Z);
  secrets_file : option (list Z);
  uid : option (list Z);
  gid : option (list Z);
}.

Record DaemonServerConfig := { modules : list DaemonServerModule }.

(** ** The configuration *)

Definition normalize_key (key : list Z) : list Z :=
  to_ascii_lowercase (join [ch " "] (split_whitespace key)).

Definition one_of (s : list Z) (names : list string) : bool :=
  existsb (λ name, bool_decide (s = lit name)) names.

Definition parse_daemon_bool (value : list Z) : result bool server_error :=
  let value := to_ascii_lowercase (trim value) in
  if one_of value ["yes"; "true"; "1"] then Ok true
  else if one_of value ["no"; "false"; "0"] then Ok false
  else bail "daemon boolean value `{value}` is invalid".

Definition non_empty (s : list Z) : bool := bool_decide (s ≠ []).

Definition parse_daemon_user_list (value : list Z) : result (list (list Z)) server_error :=
  let users := List.filter non_empty
    (trim <$> split_by (λ c, (c =? ch ",") || is_ascii_whitespace c) value) in
  if existsb (λ user, contains user 0) users
  then bail "daemon auth users must not contain NUL bytes"
  else Ok users.

Definition non_empty_daemon_value (value : list Z) : option (list Z) :=
  let value := trim value in if non_empty value then Some value else None.

Definition new_module (name : list Z) : DaemonServerModule :=
  {| name := name; path := []; comment := []; read_only := true; write_only := false;
     listed := true; auth_users := []; secrets_file := None; uid := None; gid := None |}.

Definition apply_module_param (module : DaemonServerModule) (key value : list Z) :
    result DaemonServerModule server_error :=
  let '(Build_DaemonServerModule name path comment ro wo listed users secrets uid gid) := module in
  let make := Build_DaemonServerModule in
  if bool_decide (key = lit "path") then
    Ok (make name value comment ro wo listed users secrets uid gid)
  else if bool_decide (key = lit "comment") then
    Ok (make name path value ro wo listed users secrets uid gid)
  else if bool_decide (key = lit "read only") then
    let? ro := parse_daemon_bool value in
    Ok (make name path comment ro wo listed users secrets uid gid)
  else if bool_decide (key = lit "write only") then
    let? wo := parse_daemon_bool value in
    Ok (make name path comment ro wo listed users secrets uid gid)
  else if bool_decide (key = lit "list") then
    let? listed := parse_daemon_bool value in
    Ok (make name path comment ro wo listed users secrets uid gid)
  else if bool_decide (key = lit "auth users") then
    let? users := parse_daemon_user_list value in
    Ok (make name path comment ro wo listed users secrets uid gid)
  else if bool_decide (key = lit "secrets file") then
    Ok (make name path comment ro wo listed users (Some value) uid gid)
  else if bool_decide (key = lit "uid") then
    Ok (make name path comment ro wo listed users secrets (non_empty_daemon_value value) gid)
  else if bool_decide (key = lit "gid") then
    Ok (make name path comment ro wo listed users secrets uid (non_empty_daemon_value value))
  else bail "unsupported daemon module config key `{key}`".

Definition ignored_global (key : list Z) : bool :=
  one_of key ["motd file"; "pid file"; "lock file"; "log file"; "log format"; "port";
              "address"; "use chroot"].

(** [done] are the modules before [current]. *)
Definition close_module (done : list DaemonServerModule) (current : option DaemonServerModule) :
    list DaemonServerModule :=
  done ++ match current with Some module => [module] | None => [] end.

Fixpoint parse_config_lines (lines : list (list Z)) (done : list DaemonServerModule)
    (current : option DaemonServerModule) : result DaemonServerConfig server_error :=
  match lines with
  | [] => Ok {| modules := close_module done current |}
  | raw_line :: lines =>
      let line := trim raw_line in
      if bool_decide (line = []) || starts_with line [ch "#"] || starts_with line [ch ";"]
      then parse_config_lines lines done current
      else if starts_with line [ch "["] && ends_with line [ch "]"] then
        let name := trim (take (length line - 2) (drop 1 line)) in
        if bool_decide (name = []) || existsb is_whitespace name
        then bail "{}:{}: daemon module names must be non-empty and contain no whitespace"
        else parse_config_lines lines (close_module done current) (Some (new_module name))
      else
        match split_once (ch "=") line with
        | None => bail "{}:{}: daemon config entries must use key = value syntax"
        | Some (key, value) =>
            let key := normalize_key key in
            let value := trim value in
            match current with
            | None =>
                if ignored_global key then parse_config_lines lines done current
                else bail "{}:{}: unsupported daemon global config key `{key}`"
            | Some module =>
                let? module := map_err (λ _, Bail "{}:{line_number}: {err}")
                  (apply_module_param module key value) in
                parse_config_lines lines done (Some module)
            end
        end
  end.

Definition parse_config (text : list Z) : result DaemonServerConfig server_error :=
  parse_config_lines (lines text) [] None.

(** The first module of that name is the one to change. *)
Fixpoint update_module (target : list Z)
    (change : DaemonServerModule → result DaemonServerModule server_error)
    (modules : list DaemonServerModule) : result (list DaemonServerModule) server_error :=
  match modules with
  | [] => bail "daemon --dparam targets unknown module `{module_name}`"
  | module :: modules =>
      if bool_decide (name module = target) then
        let? module := map_err (λ _, Bail "invalid daemon --dparam `{param}`: {err}")
          (change module) in
        Ok (module :: modules)
      else let? modules := update_module target change modules in Ok (module :: modules)
  end.

Fixpoint apply_dparams (modules : list DaemonServerModule) (params : list (list Z)) :
    result (list DaemonServerModule) server_error :=
  match params with
  | [] => Ok modules
  | param :: params =>
      match split_once (ch "=") param with
      | None => bail "daemon --dparam must use key=value syntax: {param}"
      | Some (target, value) =>
          match (match split_once (ch ".") target with
                 | Some parts => Some parts
                 | None => split_once (ch ":") target
                 end) with
          | None => bail "daemon --dparam must target a module as module.key=value: {param}"
          | Some (module_name, key) =>
              let? modules := update_module module_name
                (λ module, apply_module_param module (normalize_key key) (trim value)) modules in
              apply_dparams modules params
          end
      end
  end.

(** ** The secrets file *)

Fixpoint parse_secrets_lines (lines : list (list Z)) :
    result (list (list Z * list Z)) server_error :=
  match lines with
  | [] => Ok []
  | raw_line :: lines =>
      let line := trim_end_matches 13 raw_line in
      if bool_decide (trim line = []) || starts_with (trim_start line) [ch "#"]
      then parse_secrets_lines lines
      else
        let invalid := "daemon secrets file for module `{module_name}` contains invalid entry at line {line_number}" in
        match split_once (ch ":") line with
        | None => bail invalid
        | Some (user, password) =>
            let user := trim user in
            if bool_decide (user = []) || contains user 0 || contains password 0
            then bail invalid
            else let? later := parse_secrets_lines lines in Ok ((user, password) :: later)
        end
  end.

Definition parse_daemon_secrets (text : list Z) : result (list (list Z * list Z)) server_error :=
  parse_secrets_lines (lines text).

(** ** Authentication *)

Definition FNV_OFFSET : Z := 0xcbf29ce484222325.
Definition FNV_PRIME : Z := 0x00000100000001b3.

Definition stable_auth_challenge_suffix (module : list Z) (client : option (list Z)) : Z :=
  fold_left (λ hash byte, as_u64 (Z.lxor hash byte * FNV_PRIME))
    (encode_chars module ++ encode_chars (default (lit "-") client)) FNV_OFFSET.

(** The clock and the process id are arguments. *)
Definition daemon_auth_challenge (nanos pid : Z) (module : list Z) (client : option (list Z)) :
    list Z :=
  hexadecimal nanos ++ lit "." ++ hexadecimal pid ++ lit "." ++
  decimal (stable_auth_challenge_suffix module client).

Section secrets.
Context `{Digests}.

(** [fs::read_to_string] of a secrets file; its error carries the context. *)
Variable read_to_string : list Z → option (list Z).

Definition read_daemon_secrets (module : DaemonServerModule) :
    result (list (list Z * list Z)) server_error :=
  match secrets_file module with
  | None => bail "daemon module requires auth but has no secrets file"
  | Some path =>
      match read_to_string path with
      | None => bail "failed to read daemon secrets file for module `{}`"
      | Some text => parse_daemon_secrets text
      end
  end.

Definition daemon_auth_response_is_valid (module : DaemonServerModule)
    (response_line challenge : list Z) (checksum : DaemonAuthChecksum) :
    result bool server_error :=
  match split_once (ch " ") response_line with
  | None => Ok false
  | Some (user, response) =>
      let user := trim user in
      if bool_decide (user = []) || contains user 0 ||
         negb (bool_decide (user ∈ auth_users module))
      then Ok false
      else
        let? secrets := read_daemon_secrets module in
        match List.find (λ entry, bool_decide (entry.1 = user)) secrets with
        | None => Ok false
        | Some (_, password) =>
            Ok (daemon_auth_response_matches password challenge checksum response)
        end
  end.
End secrets.

(** ** Paths in a module

    [Path::components] and [PathBuf::push] of the standard library, on Windows or
    elsewhere.  On Windows a path that starts with a letter and a colon has a prefix,
    and pushing it replaces the path pushed to. *)

Inductive Component := PrefixOrRoot | CurDir | ParentDir | Normal (part : list Z).

#[export] Instance Component_eq_dec : EqDecision Component.
Proof. solve_decision. Defined.

Definition is_separator (windows : bool) (c : Z) : bool :=
  (c =? ch "/") || windows && (c =? ch "\").

Definition has_drive (windows : bool) (s : list Z) : bool :=
  windows && match s with c :: d :: _ => is_ascii_alphabetic c && (d =? ch ":") | _ => false end.

Definition component (part : list Z) : list Component :=
  if bool_decide (part = []) || bool_decide (part = lit ".") then []
  else if bool_decide (part = lit "..") then [ParentDir]
  else [Normal part].

Definition components (windows : bool) (s : list Z) : list Component :=
  if has_drive windows s then
    PrefixOrRoot :: concat (component <$> split_by (is_separator windows) (drop 2 s))
  else
    match split_by (is_separator windows) s with
    | [] => []
    | first :: parts =>
        (if bool_decide (first = []) && bool_decide (parts ≠ []) then [PrefixOrRoot]
         else if bool_decide (first = lit ".") then [CurDir]
         else component first) ++ concat (component <$> parts)
    end.

(** A path built from parts: whether a drive has replaced what it started from. *)
Record PathBuf := { replaced : bool; parts : list (list Z) }.

#[export] Instance PathBuf_eq_dec : EqDecision PathBuf.
Proof. solve_decision. Defined.

Definition push_part (windows : bool) (self : PathBuf) (part : list Z) : PathBuf :=
  if has_drive windows part then {| replaced := true; parts := [part] |}
  else {| replaced := replaced self; parts := parts self ++ [part] |}.

Fixpoint clean_path (windows : bool) (clean : PathBuf) (components : list Component) :
    result PathBuf server_error :=
  match components with
  | [] => Ok clean
  | Normal part :: components => clean_path windows (push_part windows clean part) components
  | CurDir :: components => clean_path windows clean components
  | ParentDir :: _ | PrefixOrRoot :: _ =>
      bail "daemon module `{}` rejects unsafe path `{}`"
  end.

(** The result is relative to the module's path, unless a drive has replaced it. *)
Definition module_path (windows : bool) (path : list Z) : result PathBuf server_error :=
  let trimmed := trim path in
  if bool_decide (trimmed = []) || bool_decide (trimmed = lit ".")
  then Ok {| replaced := false; parts := [] |}
  else clean_path windows {| replaced := false; parts := [] |} (components windows trimmed).

Example inside : module_path true (lit "a\./b/") =
  Ok {| replaced := false; parts := [lit "a"; lit "b"] |}.
Proof. vm_compute. reflexivity. Qed.
Example above : module_path false (lit "a/../b") =
  Err (Bail "daemon module `{}` rejects unsafe path `{}`").
Proof. vm_compute. reflexivity. Qed.
Example two_modules :
  parse_config (lit "port = 1" ++ [10] ++ lit "[ a ]" ++ [13; 10] ++ lit "Read  Only=no" ++
                [10] ++ lit "[b]" ++ [10] ++ lit "# x") =
  Ok {| modules := [Build_DaemonServerModule (lit "a") [] [] false false true [] None None None;
                    new_module (lit "b")] |}.
Proof. vm_compute. reflexivity. Qed.
Example fnv : stable_auth_challenge_suffix (lit "a") (Some []) = 0xaf63dc4c8601ec8c.
Proof. vm_compute. reflexivity. Qed.
