(* ===== verification/DaemonArgs.v ===== *)
(** * The arguments of a transfer: daemon_server/mod.rs, [DaemonTransferArgs]

    What the daemon server understands of the arguments a client sends. *)

From S2P Require Import Prelude Stream Str Text Flist Filter Chmod Session Daemon DaemonConfig.

Inductive UpdateMode := QuickCheck | ByChecksum | SizeOnly | IgnoreTimes.

(** The [mode] of [FileWriteOptions], the one field the server sets. *)
Inductive FileWriteMode := Atomic | InPlace.

Record RemoteCompressionConfig := {
  mode : RsyncDeflatedTokenMode;
  level : Z;
  skip_suffixes : list (list Z);
}.

Record DaemonTransferArgs := {
  sender : bool;
  paths : list (list Z);
  recursive : bool;
  dry_run : bool;
  whole_file : bool;
  preserve_times : bool;
  update_mode : UpdateMode;
  append_verify : bool;
  write_mode : FileWriteMode;
  block_size : Z;
  filter_rules : RuleSet;
  flist_options : RsyncFileListOptions;
  preserve_executability : bool;
  chmod_rules : option ChmodRules;
  compression : option RemoteCompressionConfig;
  delete : bool;
}.

(** ** Assignments to fields *)

Definition set_paths (v : list (list Z)) (t : DaemonTransferArgs) : DaemonTransferArgs :=
  {| sender := sender t; paths := v; recursive := recursive t; dry_run := dry_run t;
     whole_file := whole_file t; preserve_times := preserve_times t; update_mode :=
     update_mode t; append_verify := append_verify t; write_mode := write_mode t;
     block_size := block_size t; filter_rules := filter_rules t; flist_options :=
     flist_options t; preserve_executability := preserve_executability t;
     chmod_rules := chmod_rules t; compression := compression t; delete := delete t |}.
Definition set_recursive (v : bool) (t : DaemonTransferArgs) : DaemonTransferArgs :=
  {| sender := sender t; paths := paths t; recursive := v; dry_run := dry_run t;
     whole_file := whole_file t; preserve_times := preserve_times t; update_mode :=
     update_mode t; append_verify := append_verify t; write_mode := write_mode t;
     block_size := block_size t; filter_rules := filter_rules t; flist_options :=
     flist_options t; preserve_executability := preserve_executability t;
     chmod_rules := chmod_rules t; compression := compression t; delete := delete t |}.
Definition set_dry_run (v : bool) (t : DaemonTransferArgs) : DaemonTransferArgs :=
  {| sender := sender t; paths := paths t; recursive := recursive t; dry_run := v;
     whole_file := whole_file t; preserve_times := preserve_times t; update_mode :=
     update_mode t; append_verify := append_verify t; write_mode := write_mode t;
     block_size := block_size t; filter_rules := filter_rules t; flist_options :=
     flist_options t; preserve_executability := preserve_executability t;
     chmod_rules := chmod_rules t; compression := compression t; delete := delete t |}.
Definition set_whole_file (v : bool) (t : DaemonTransferArgs) : DaemonTransferArgs :=
  {| sender := sender t; paths := paths t; recursive := recursive t; dry_run :=
     dry_run t; whole_file := v; preserve_times := preserve_times t; update_mode :=
     update_mode t; append_verify := append_verify t; write_mode := write_mode t;
     block_size := block_size t; filter_rules := filter_rules t; flist_options :=
     flist_options t; preserve_executability := preserve_executability t;
     chmod_rules := chmod_rules t; compression := compression t; delete := delete t |}.
Definition set_preserve_times (v : bool) (t : DaemonTransferArgs) : DaemonTransferArgs :=
  {| sender := sender t; paths := paths t; recursive := recursive t; dry_run :=
     dry_run t; whole_file := whole_file t; preserve_times := v; update_mode :=
     update_mode t; append_verify := append_verify t; write_mode := write_mode t;
     block_size := block_size t; filter_rules := filter_rules t; flist_options :=
     flist_options t; preserve_executability := preserve_executability t;
     chmod_rules := chmod_rules t; compression := compression t; delete := delete t |}.
Definition set_update_mode (v : UpdateMode) (t : DaemonTransferArgs) : DaemonTransferArgs :=
  {| sender := sender t; paths := paths t; recursive := recursive t; dry_run :=
     dry_run t; whole_file := whole_file t; preserve_times := preserve_times t;
     update_mode := v; append_verify := append_verify t; write_mode := write_mode t;
     block_size := block_size t; filter_rules := filter_rules t; flist_options :=
     flist_options t; preserve_executability := preserve_executability t;
     chmod_rules := chmod_rules t; compression := compression t; delete := delete t |}.
Definition set_append_verify (v : bool) (t : DaemonTransferArgs) : DaemonTransferArgs :=
  {| sender := sender t; paths := paths t; recursive := recursive t; dry_run :=
     dry_run t; whole_file := whole_file t; preserve_times := preserve_times t;
     update_mode := update_mode t; append_verify := v; write_mode := write_mode t;
     block_size := block_size t; filter_rules := filter_rules t; flist_options :=
     flist_options t; preserve_executability := preserve_executability t;
     chmod_rules := chmod_rules t; compression := compression t; delete := delete t |}.
Definition set_write_mode (v : FileWriteMode) (t : DaemonTransferArgs) : DaemonTransferArgs :=
  {| sender := sender t; paths := paths t; recursive := recursive t; dry_run :=
     dry_run t; whole_file := whole_file t; preserve_times := preserve_times t;
     update_mode := update_mode t; append_verify := append_verify t; write_mode :=
     v; block_size := block_size t; filter_rules := filter_rules t; flist_options :=
     flist_options t; preserve_executability := preserve_executability t;
     chmod_rules := chmod_rules t; compression := compression t; delete := delete t |}.
Definition set_block_size (v : Z) (t : DaemonTransferArgs) : DaemonTransferArgs :=
  {| sender := sender t; paths := paths t; recursive := recursive t; dry_run :=
     dry_run t; whole_file := whole_file t; preserve_times := preserve_times t;
     update_mode := update_mode t; append_verify := append_verify t; write_mode :=
     write_mode t; block_size := v; filter_rules := filter_rules t; flist_options :=
     flist_options t; preserve_executability := preserve_executability t;
     chmod_rules := chmod_rules t; compression := compression t; delete := delete t |}.
Definition set_filter_rules (v : RuleSet) (t : DaemonTransferArgs) : DaemonTransferArgs :=
  {| sender := sender t; paths := paths t; recursive := recursive t; dry_run :=
     dry_run t; whole_file := whole_file t; preserve_times := preserve_times t;
     update_mode := update_mode t; append_verify := append_verify t; write_mode :=
     write_mode t; block_size := block_size t; filter_rules := v; flist_options :=
     flist_options t; preserve_executability := preserve_executability t;
     chmod_rules := chmod_rules t; compression := compression t; delete := delete t |}.
Definition set_flist_options (v : RsyncFileListOptions) (t : DaemonTransferArgs) : DaemonTransferArgs :=
  {| sender := sender t; paths := paths t; recursive := recursive t; dry_run :=
     dry_run t; whole_file := whole_file t; preserve_times := preserve_times t;
     update_mode := update_mode t; append_verify := append_verify t; write_mode :=
     write_mode t; block_size := block_size t; filter_rules := filter_rules t;
     flist_options := v; preserve_executability := preserve_executability t;
     chmod_rules := chmod_rules t; compression := compression t; delete := delete t |}.
Definition set_preserve_executability (v : bool) (t : DaemonTransferArgs) : DaemonTransferArgs :=
  {| sender := sender t; paths := paths t; recursive := recursive t; dry_run :=
     dry_run t; whole_file := whole_file t; preserve_times := preserve_times t;
     update_mode := update_mode t; append_verify := append_verify t; write_mode :=
     write_mode t; block_size := block_size t; filter_rules := filter_rules t;
     flist_options := flist_options t; preserve_executability := v; chmod_rules :=
     chmod_rules t; compression := compression t; delete := delete t |}.
Definition set_chmod_rules (v : option ChmodRules) (t : DaemonTransferArgs) : DaemonTransferArgs :=
  {| sender := sender t; paths := paths t; recursive := recursive t; dry_run :=
     dry_run t; whole_file := whole_file t; preserve_times := preserve_times t;
     update_mode := update_mode t; append_verify := append_verify t; write_mode :=
     write_mode t; block_size := block_size t; filter_rules := filter_rules t;
     flist_options := flist_options t; preserve_executability :=
     preserve_executability t; chmod_rules := v; compression := compression t;
     delete := delete t |}.
Definition set_compression (v : option RemoteCompressionConfig) (t : DaemonTransferArgs) : DaemonTransferArgs :=
  {| sender := sender t; paths := paths t; recursive := recursive t; dry_run :=
     dry_run t; whole_file := whole_file t; preserve_times := preserve_times t;
     update_mode := update_mode t; append_verify := append_verify t; write_mode :=
     write_mode t; block_size := block_size t; filter_rules := filter_rules t;
     flist_options := flist_options t; preserve_executability :=
     preserve_executability t; chmod_rules := chmod_rules t; compression := v;
     delete := delete t |}.
Definition set_delete (v : bool) (t : DaemonTransferArgs) : DaemonTransferArgs :=
  {| sender := sender t; paths := paths t; recursive := recursive t; dry_run :=
     dry_run t; whole_file := whole_file t; preserve_times := preserve_times t;
     update_mode := update_mode t; append_verify := append_verify t; write_mode :=
     write_mode t; block_size := block_size t; filter_rules := filter_rules t;
     flist_options := flist_options t; preserve_executability :=
     preserve_executability t; chmod_rules := chmod_rules t; compression :=
     compression t; delete := v |}.

Definition flag_include_checksums (v : bool) (o : RsyncFileListOptions) : RsyncFileListOptions :=
  {| Flist.include_checksums := v; Flist.preserve_owner := Flist.preserve_owner o;
     Flist.preserve_group := Flist.preserve_group o; Flist.numeric_ids :=
     Flist.numeric_ids o; Flist.opt_acls := Flist.opt_acls o; Flist.opt_xattrs :=
     Flist.opt_xattrs o; Flist.fake_super := Flist.fake_super o; Flist.atimes :=
     Flist.atimes o; Flist.crtimes := Flist.crtimes o |}.
Definition flag_preserve_owner (v : bool) (o : RsyncFileListOptions) : RsyncFileListOptions :=
  {| Flist.include_checksums := Flist.include_checksums o; Flist.preserve_owner :=
     v; Flist.preserve_group := Flist.preserve_group o; Flist.numeric_ids :=
     Flist.numeric_ids o; Flist.opt_acls := Flist.opt_acls o; Flist.opt_xattrs :=
     Flist.opt_xattrs o; Flist.fake_super := Flist.fake_super o; Flist.atimes :=
     Flist.atimes o; Flist.crtimes := Flist.crtimes o |}.
Definition flag_preserve_group (v : bool) (o : RsyncFileListOptions) : RsyncFileListOptions :=
  {| Flist.include_checksums := Flist.include_checksums o; Flist.preserve_owner :=
     Flist.preserve_owner o; Flist.preserve_group := v; Flist.numeric_ids :=
     Flist.numeric_ids o; Flist.opt_acls := Flist.opt_acls o; Flist.opt_xattrs :=
     Flist.opt_xattrs o; Flist.fake_super := Flist.fake_super o; Flist.atimes :=
     Flist.atimes o; Flist.crtimes := Flist.crtimes o |}.
Definition flag_numeric_ids (v : bool) (o : RsyncFileListOptions) : RsyncFileListOptions :=
  {| Flist.include_checksums := Flist.include_checksums o; Flist.preserve_owner :=
     Flist.preserve_owner o; Flist.preserve_group := Flist.preserve_group o;
     Flist.numeric_ids := v; Flist.opt_acls := Flist.opt_acls o; Flist.opt_xattrs :=
     Flist.opt_xattrs o; Flist.fake_super := Flist.fake_super o; Flist.atimes :=
     Flist.atimes o; Flist.crtimes := Flist.crtimes o |}.
Definition flag_opt_acls (v : bool) (o : RsyncFileListOptions) : RsyncFileListOptions :=
  {| Flist.include_checksums := Flist.include_checksums o; Flist.preserve_owner :=
     Flist.preserve_owner o; Flist.preserve_group := Flist.preserve_group o;
     Flist.numeric_ids := Flist.numeric_ids o; Flist.opt_acls := v; Flist.opt_xattrs
     := Flist.opt_xattrs o; Flist.fake_super := Flist.fake_super o; Flist.atimes :=
     Flist.atimes o; Flist.crtimes := Flist.crtimes o |}.
Definition flag_opt_xattrs (v : bool) (o : RsyncFileListOptions) : RsyncFileListOptions :=
  {| Flist.include_checksums := Flist.include_checksums o; Flist.preserve_owner :=
     Flist.preserve_owner o; Flist.preserve_group := Flist.preserve_group o;
     Flist.numeric_ids := Flist.numeric_ids o; Flist.opt_acls := Flist.opt_acls o;
     Flist.opt_xattrs := v; Flist.fake_super := Flist.fake_super o; Flist.atimes :=
     Flist.atimes o; Flist.crtimes := Flist.crtimes o |}.
Definition flag_fake_super (v : bool) (o : RsyncFileListOptions) : RsyncFileListOptions :=
  {| Flist.include_checksums := Flist.include_checksums o; Flist.preserve_owner :=
     Flist.preserve_owner o; Flist.preserve_group := Flist.preserve_group o;
     Flist.numeric_ids := Flist.numeric_ids o; Flist.opt_acls := Flist.opt_acls o;
     Flist.opt_xattrs := Flist.opt_xattrs o; Flist.fake_super := v; Flist.atimes :=
     Flist.atimes o; Flist.crtimes := Flist.crtimes o |}.
Definition flag_atimes (v : bool) (o : RsyncFileListOptions) : RsyncFileListOptions :=
  {| Flist.include_checksums := Flist.include_checksums o; Flist.preserve_owner :=
     Flist.preserve_owner o; Flist.preserve_group := Flist.preserve_group o;
     Flist.numeric_ids := Flist.numeric_ids o; Flist.opt_acls := Flist.opt_acls o;
     Flist.opt_xattrs := Flist.opt_xattrs o; Flist.fake_super := Flist.fake_super o;
     Flist.atimes := v; Flist.crtimes := Flist.crtimes o |}.
Definition flag_crtimes (v : bool) (o : RsyncFileListOptions) : RsyncFileListOptions :=
  {| Flist.include_checksums := Flist.include_checksums o; Flist.preserve_owner :=
     Flist.preserve_owner o; Flist.preserve_group := Flist.preserve_group o;
     Flist.numeric_ids := Flist.numeric_ids o; Flist.opt_acls := Flist.opt_acls o;
     Flist.opt_xattrs := Flist.opt_xattrs o; Flist.fake_super := Flist.fake_super o;
     Flist.atimes := Flist.atimes o; Flist.crtimes := v |}.
Definition on_flist (f : RsyncFileListOptions → RsyncFileListOptions) (t : DaemonTransferArgs) :
    DaemonTransferArgs := set_flist_options (f (flist_options t)) t.

(** ** Options *)

Definition usize_max : Z := 2 ^ 64 - 1.

Definition parse_positive_usize (value : list Z) : result Z server_error :=
  match parse_unsigned usize_max value with
  | Some n =>
      if 0 <? n then Ok n
      else bail "daemon numeric option must be greater than zero: `{value}`"
  | None => bail "daemon numeric option must be greater than zero: `{value}`"
  end.

Definition default_compression (mode : RsyncDeflatedTokenMode) : RemoteCompressionConfig :=
  {| mode := mode; level := 6; skip_suffixes := [] |}.

(** [self.compression.get_or_insert(..)], and then a change of it. *)
Definition on_compression (inserted : RsyncDeflatedTokenMode)
    (f : RemoteCompressionConfig → RemoteCompressionConfig) (t : DaemonTransferArgs) :
    DaemonTransferArgs :=
  set_compression (Some (f (default (default_compression inserted) (compression t)))) t.

Definition ensure_compression : DaemonTransferArgs → DaemonTransferArgs :=
  on_compression TokensZlibx id.

Definition apply_short_flag (self : DaemonTransferArgs) (flag : Z) : DaemonTransferArgs :=
  if flag =? ch "r" then set_recursive true self
  else if flag =? ch "n" then set_dry_run true self
  else if flag =? ch "W" then set_whole_file true self
  else if flag =? ch "t" then set_preserve_times true self
  else if flag =? ch "c" then set_update_mode ByChecksum self
  else if flag =? ch "z" then ensure_compression self
  else self.

Definition apply_short_flags (arg : list Z) (self : DaemonTransferArgs) : DaemonTransferArgs :=
  if negb (starts_with arg [ch "-"]) || starts_with arg (lit "--") then self
  else fold_left apply_short_flag (trim_start_matches (ch "-") arg) self.

(** The options that carry no value. *)
Definition plain_option (arg : list Z) :
    option (DaemonTransferArgs → DaemonTransferArgs) :=
  if one_of arg ["--server"; "--sender"; "--no-inc-recursive"] then Some id
  else if one_of arg ["--recursive"] then Some (set_recursive true)
  else if one_of arg ["--dry-run"] then Some (set_dry_run true)
  else if one_of arg ["--whole-file"] then Some (set_whole_file true)
  else if one_of arg ["--times"] then Some (set_preserve_times true)
  else if one_of arg ["--checksum"] then Some (set_update_mode ByChecksum)
  else if one_of arg ["--size-only"] then Some (set_update_mode SizeOnly)
  else if one_of arg ["--ignore-times"] then Some (set_update_mode IgnoreTimes)
  else if one_of arg ["--append-verify"] then Some (set_append_verify true)
  else if one_of arg ["--inplace"] then Some (set_write_mode InPlace)
  else if one_of arg ["--perms"] then Some id
  else if one_of arg ["--executability"] then Some (set_preserve_executability true)
  else if one_of arg ["--owner"] then Some (on_flist (flag_preserve_owner true))
  else if one_of arg ["--group"] then Some (on_flist (flag_preserve_group true))
  else if one_of arg ["--numeric-ids"] then Some (on_flist (flag_numeric_ids true))
  else if one_of arg ["--acls"] then Some (on_flist (flag_opt_acls true))
  else if one_of arg ["--xattrs"] then Some (on_flist (flag_opt_xattrs true))
  else if one_of arg ["--fake-super"] then
    Some (on_flist (λ o, flag_opt_xattrs true (flag_fake_super true o)))
  else if one_of arg ["--atimes"] then Some (on_flist (flag_atimes true))
  else if one_of arg ["--crtimes"] then Some (on_flist (flag_crtimes true))
  else if one_of arg ["--omit-dir-times"; "--omit-link-times"] then Some id
  else if one_of arg ["--delete"; "--delete-before"; "--delete-during"; "--delete-delay";
                      "--delete-after"] then Some (set_delete true)
  else if one_of arg ["--compress"; "-z"] then Some ensure_compression
  else None.

Definition add_rule (context : string) (rule : result Rule ParseRuleError) (filter_rules : RuleSet) :
    result RuleSet server_error :=
  let? rule := map_err (λ _, Bail context) rule in Ok (push_rule filter_rules rule).

(** One argument before the dot, with the rules gathered so far. *)
Definition apply_option_arg (self : DaemonTransferArgs) (rules : RuleSet) (arg : list Z) :
    result (DaemonTransferArgs * RuleSet) server_error :=
  match plain_option arg with
  | Some change => Ok (change self, rules)
  | None =>
      let value prefix := trim_start_str (lit prefix) arg in
      if starts_with arg (lit "--include=") then
        let? rules := add_rule "invalid daemon include rule" (include (value "--include=")) rules in
        Ok (self, rules)
      else if starts_with arg (lit "--exclude=") then
        let? rules := add_rule "invalid daemon exclude rule" (exclude (value "--exclude=")) rules in
        Ok (self, rules)
      else if starts_with arg (lit "--filter=") then
        let? rules := add_rule "invalid daemon filter rule" (parse_filter (value "--filter=")) rules in
        Ok (self, rules)
      else if starts_with arg (lit "--chmod=") then
        let? chmod := map_err (λ _, Bail "invalid daemon chmod rule") (from_str (value "--chmod=")) in
        Ok (set_chmod_rules (Some chmod) self, rules)
      else if starts_with arg (lit "--usermap=") then
        Ok (on_flist (flag_preserve_owner true) self, rules)
      else if starts_with arg (lit "--groupmap=") then
        Ok (on_flist (flag_preserve_group true) self, rules)
      else if starts_with arg (lit "--chown=") then
        let chown := value "--chown=" in
        let '(user, group) := default (chown, []) (split_once (ch ":") chown) in
        let self := if non_empty user then on_flist (flag_preserve_owner true) self else self in
        let self := if non_empty group then on_flist (flag_preserve_group true) self else self in
        Ok (self, rules)
      else if starts_with arg (lit "--block-size=") then
        let? n := parse_positive_usize (value "--block-size=") in
        Ok (set_block_size n self, rules)
      else if starts_with arg (lit "--compress-choice=") then
        let? m := map_err (λ _, Bail "unsupported daemon compression choice")
          (from_choice (Some (value "--compress-choice="))) in
        Ok (on_compression m
              (λ c, {| mode := m; level := level c; skip_suffixes := skip_suffixes c |}) self, rules)
      else if starts_with arg (lit "--compress-level=") then
        let? n := parse_positive_usize (value "--compress-level=") in
        let n := if n <=? u32_max then n else 9 in
        Ok (on_compression TokensZlibx
              (λ c, {| mode := mode c; level := Z.min n 9; skip_suffixes := skip_suffixes c |}) self,
            rules)
      else if starts_with arg (lit "--skip-compress=") then
        let suffixes := trim <$> List.filter (λ suffix, non_empty (trim suffix))
          (split_on (ch "/") (value "--skip-compress=")) in
        Ok (on_compression TokensZlibx
              (λ c, {| mode := mode c; level := level c;
                       skip_suffixes := skip_suffixes c ++ suffixes |}) self, rules)
      else if starts_with arg [ch "-"] then Ok (apply_short_flags arg self, rules)
      else Ok (self, rules)
  end.

(** The loop over the arguments: options up to a dot, paths after it. *)
Fixpoint parse_args (after_dot : bool) (args : list (list Z)) (self : DaemonTransferArgs)
    (rules : RuleSet) : result (DaemonTransferArgs * RuleSet) server_error :=
  match args with
  | [] => Ok (self, rules)
  | arg :: args =>
      if after_dot then parse_args true args (set_paths (paths self ++ [arg]) self) rules
      else if bool_decide (arg = lit ".") then parse_args true args self rules
      else let? (self, rules) := apply_option_arg self rules arg in parse_args false args self rules
  end.

Definition initial_args (sender : bool) : DaemonTransferArgs :=
  {| sender := sender; paths := []; recursive := false; dry_run := false; whole_file := false;
     preserve_times := false; update_mode := QuickCheck; append_verify := false;
     write_mode := Atomic; block_size := 32 * 1024; filter_rules := [];
     flist_options := default_options; preserve_executability := false; chmod_rules := None;
     compression := None; delete := false |}.

Definition parse_transfer (args : list (list Z)) : result DaemonTransferArgs server_error :=
  if negb (existsb (λ arg, bool_decide (arg = lit "--server")) args)
  then bail "daemon transfer args are missing --server"
  else
    let sender := existsb (λ arg, bool_decide (arg = lit "--sender")) args in
    let? (transfer, rules) := parse_args false args (initial_args sender) [] in
    let transfer :=
      if bool_decide (paths transfer = []) then set_paths [lit "."] transfer else transfer in
    Ok (set_filter_rules rules transfer).

Definition protocol31_flist_options (self : DaemonTransferArgs) : RsyncFileListOptions :=
  let options := flag_include_checksums
    (match update_mode self with ByChecksum => true | _ => false end) (flist_options self) in
  if fake_super options then flag_opt_xattrs true options else options.

Fixpoint module_paths (windows : bool) (paths : list (list Z)) :
    result (list PathBuf) server_error :=
  match paths with
  | [] => Ok []
  | path :: paths =>
      let? path := module_path windows path in
      let? later := module_paths windows paths in
      Ok (path :: later)
  end.

Example push_args :
  (let? t := parse_transfer [lit "--server"; lit "--delete-after"; lit "-vtre.LsfxCIvu"; lit ".";
                             lit "dir"] in
   Ok (sender t, delete t, preserve_times t, recursive t, dry_run t, paths t)) =
  Ok (false, true, true, true, false, [lit "dir"]).
Proof. vm_compute. reflexivity. Qed.
