(* ===== verification/DaemonServer.v ===== *)
(** * The dialogue of the daemon server: daemon_server/mod.rs, [handle_client]

    From the greeting to the transfer, which is where [handle_client] hands over to
    the loops that serve files.  The clock, the process id and the secrets files are
    arguments; the records it logs are left out. *)

From S2P Require Import Prelude Stream WireIo Str Text Lines Flist Session Daemon DaemonConfig DaemonArgs.

Definition parse_client_greeting_protocol (line : list Z) : result Z server_error :=
  match strip_prefix line (lit "@RSYNCD: ") with
  | None => bail "invalid daemon client greeting"
  | Some rest =>
      match split_whitespace rest with
      | [] => bail "daemon client greeting omitted protocol version"
      | version :: _ =>
          let protocol := match split_once (ch ".") version with
                          | Some (major, _) => major
                          | None => version
                          end in
          ok_or (parse_unsigned u32_max protocol)
            (Bail "invalid daemon client protocol version `{version}`")
      end
  end.

Definition daemon_auth_checksum_from_client_greeting (line : list Z) :
    result DaemonAuthChecksum server_error :=
  match strip_prefix line (lit "@RSYNCD: ") with
  | None => bail "invalid daemon client greeting"
  | Some rest =>
      let fields := drop 1 (split_whitespace rest) in
      if bool_decide (lit "md5" ∈ fields) then Ok Md5
      else if bool_decide (lit "md4" ∈ fields) then Ok Md4
      else
        let? protocol := parse_client_greeting_protocol line in
        if 30 <=? protocol then Ok Md5 else Ok Md4
  end.

Fixpoint decode_args (raw : list (list Z)) : result (list (list Z)) server_error :=
  match raw with
  | [] => Ok []
  | arg :: raw =>
      let? arg := ok_or (decode_utf8 arg) (Bail "daemon argument was not UTF-8") in
      let? later := decode_args raw in
      Ok (arg :: later)
  end.

(** Where the dialogue ends. *)
Inductive served :=
| ListedModules
| UnknownModule (request : list Z)
| OldProtocol
| ReadOnlyModule (name : list Z)
| WriteOnlyModule (name : list Z)
| ServeSender (module : DaemonServerModule) (transfer : DaemonTransferArgs)
| ServeReceiver (module : DaemonServerModule) (transfer : DaemonTransferArgs).

Section server.
Context {T : Type} `{Read T} `{ReadByte T} `{Write T} `{Digests}.

Definition server_line_error (e : line_error) : server_error :=
  ServerIo (match e with
            | TooLong _ => IoError InvalidData "daemon line exceeds {max_len} bytes"
            | NotUtf8 => IoError InvalidData "daemon line is not UTF-8"
            | ReadFailed e => e
            end).

Definition server_read_line (max_len : Z) : M T server_error (option (list Z)) :=
  with_err server_line_error (read_line max_len).

(** [writeln!] *)
Definition writeln (text : list Z) : M T server_error unit :=
  with_err ServerIo (write_all (encode_chars (text ++ [10]))).
Definition server_flush : M T server_error unit := with_err ServerIo flush.

(** Every turn takes a byte, so the budget of the stream bounds them. *)
Fixpoint null_args_loop (fuel : nat) (args : list (list Z)) (current : list Z) :
    M T server_error (list (list Z)) :=
  match fuel with
  | O => throw (ServerIo (IoError InvalidData "out of fuel"))
  | S fuel =>
      bytes ← with_err ServerIo (read_exact 1);
      let byte := nth 0 bytes 0 in
      if byte =? 0 then
        if bool_decide (current = []) then lift (decode_args args)
        else null_args_loop fuel (args ++ [current]) []
      else
        let current := current ++ [byte] in
        if (8192 <? Z.of_nat (length current)) || (1024 <? Z.of_nat (length args))
        then throw (Bail "daemon server argument list is too large")
        else null_args_loop fuel args current
  end.

Definition read_null_daemon_args : M T server_error (list (list Z)) :=
  λ t, null_args_loop (S (budget t)) [] [] t.

Fixpoint line_args_loop (fuel : nat) (args : list (list Z)) : M T server_error (list (list Z)) :=
  match fuel with
  | O => throw (ServerIo (IoError InvalidData "out of fuel"))
  | S fuel =>
      line ← server_read_line 8192;
      match line with
      | None => mret args
      | Some line =>
          if bool_decide (line = []) then mret args
          else
            let args := args ++ [line] in
            if 1024 <? Z.of_nat (length args)
            then throw (Bail "daemon server argument list is too large")
            else line_args_loop fuel args
      end
  end.

Definition read_line_daemon_args : M T server_error (list (list Z)) :=
  λ t, line_args_loop (S (events t)) [] t.

Definition read_daemon_args (protocol : Z) : M T server_error (list (list Z)) :=
  if 30 <=? protocol then read_null_daemon_args else read_line_daemon_args.

Definition module_line (module : DaemonServerModule) : list Z :=
  name module ++ [9] ++ comment module.

Definition write_module_list (no_motd : bool) (config : DaemonServerConfig) :
    M T server_error unit :=
  (if no_motd then mret () else writeln (lit "rsync-win daemon"));;
  for_each (λ module, writeln (module_line module)) (List.filter listed (modules config));;
  writeln (lit "@RSYNCD: EXIT");;
  server_flush.

Variable read_to_string : list Z → option (list Z).
Variables (nanos pid : Z).

(** [challenge_override] is the tests' way to fix the challenge. *)
Definition authenticate_daemon_client (module : DaemonServerModule) (client : option (list Z))
    (checksum : DaemonAuthChecksum) (challenge_override : option (list Z)) :
    M T server_error unit :=
  let challenge := default (daemon_auth_challenge nanos pid (name module) client)
                     challenge_override in
  writeln (lit "@RSYNCD: AUTHREQD " ++ challenge);;
  server_flush;;
  response ← server_read_line 8192;
  response ← lift (ok_or response (Bail "daemon client closed before auth response"));
  valid ← lift (daemon_auth_response_is_valid read_to_string module response challenge checksum);
  if valid : bool then writeln (lit "@RSYNCD: OK");; server_flush
  else
    writeln (lit "@ERROR: daemon authentication failed for module '" ++ name module ++ lit "'");;
    server_flush;;
    throw (Bail "daemon authentication failed for module `{}`").

Definition refuse (text : list Z) (outcome : served) : M T server_error served :=
  writeln text;; server_flush;; mret outcome.

(** The checks between the arguments and the transfer. *)
Definition admit_transfer (peer_protocol : Z) (module : DaemonServerModule)
    (transfer : DaemonTransferArgs) : M T server_error served :=
  if peer_protocol <? REMOTE_SHELL_MODERN_PROTOCOL then
    refuse (lit "@ERROR: rsync-win daemon server requires protocol 31 for transfers") OldProtocol
  else if negb (sender transfer) && read_only module then
    refuse (lit "@ERROR: module '" ++ name module ++ lit "' is read only")
      (ReadOnlyModule (name module))
  else if sender transfer && write_only module then
    refuse (lit "@ERROR: module '" ++ name module ++ lit "' is write only")
      (WriteOnlyModule (name module))
  else mret (if sender transfer then ServeSender module transfer else ServeReceiver module transfer).

Definition serve_module (peer_protocol : Z) (auth_checksum : DaemonAuthChecksum)
    (client : option (list Z)) (module : DaemonServerModule) : M T server_error served :=
  (if bool_decide (auth_users module = [])
   then writeln (lit "@RSYNCD: OK");; server_flush
   else authenticate_daemon_client module client auth_checksum None);;
  args ← read_daemon_args peer_protocol;
  transfer ← lift (parse_transfer args);
  admit_transfer peer_protocol module transfer.

Definition handle_client (no_motd : bool) (config : DaemonServerConfig)
    (client : option (list Z)) : M T server_error served :=
  writeln (lit "@RSYNCD: " ++ decimal REMOTE_SHELL_MODERN_PROTOCOL ++ lit ".0 md5 md4");;
  server_flush;;
  greeting ← server_read_line 1024;
  greeting ← lift (ok_or greeting (Bail "client closed before greeting"));
  if negb (starts_with greeting (lit "@RSYNCD: "))
  then throw (Bail "invalid daemon client greeting `{greeting}`")
  else
    peer_protocol ← lift (parse_client_greeting_protocol greeting);
    auth_checksum ← lift (daemon_auth_checksum_from_client_greeting greeting);
    request ← server_read_line 8192;
    request ← lift (ok_or request (Bail "client closed before request"));
    if bool_decide (request = lit "#list") then
      write_module_list no_motd config;; mret ListedModules
    else
      match List.find (λ module, bool_decide (name module = request)) (modules config) with
      | None => refuse (lit "@ERROR: Unknown module '" ++ request ++ lit "'") (UnknownModule request)
      | Some module => serve_module peer_protocol auth_checksum client module
      end.
End server.

Section setup.
Context {T : Type} `{Write T}.

Definition send_protocol31_setup : M T server_error unit :=
  with_err ServerIo (write_varint 0);;
  with_err ServerIo (write_i32_le 0);;
  with_err ServerIo flush.
End setup.
