(* ===== verification/DaemonClient.v ===== *)
(** * The daemon session of the client: crates/rsync-cli/src/execute/daemon_client.rs

    [execute_daemon_sync_with_transport] up to the handshake of the transfer: the
    greeting, the module list or the module with its authentication, and the arguments
    for the server.  User and password come from the operand, the environment or a
    file, and are arguments; so are the bytes of an [--early-input] file. *)

From S2P Require Import Prelude Stream Str Text Lines Session RemoteArgs Daemon DaemonConfig.

Inductive RemoteWireProtocol := Compat27 | Modern31.

Definition protocol_number (self : RemoteWireProtocol) : Z :=
  match self with
  | Compat27 => REMOTE_SHELL_MVP_PROTOCOL
  | Modern31 => REMOTE_SHELL_MODERN_PROTOCOL
  end.

Inductive client_error :=
| ClientDaemon (context : string) (e : DaemonError)
| ClientSession (e : SessionError)
| ClientBail (message : string)
| ClientIo (e : io_error).

Definition daemon_wire_protocol_from_plan (protocol_version : option Z) (peer_protocol : Z) :
    result RemoteWireProtocol client_error :=
  match protocol_version with
  | Some version =>
      if version =? 27 then Ok Compat27
      else if version =? 31 then
        if REMOTE_SHELL_MODERN_PROTOCOL <=? peer_protocol then Ok Modern31
        else Err (ClientBail "--protocol=31 was requested, but the daemon only advertised protocol {peer_protocol}")
      else Err (ClientBail "--protocol={protocol} is not supported by this build; supported execution protocols are 27 and 31")
  | None =>
      if REMOTE_SHELL_MODERN_PROTOCOL <=? peer_protocol then Ok Modern31 else Ok Compat27
  end.

Definition daemon_module_path_arg (daemon : DaemonOperand) : result (list Z) client_error :=
  let? _ := ok_or (Daemon.module daemon) (ClientBail "daemon pull requires a module") in
  Ok (default (lit ".") (Daemon.path daemon)).

(** For a push and a pull alike; the options carry the direction. *)
Definition daemon_server_args (options : RemoteShellOptions) (daemon : DaemonOperand)
    (protocol : Z) : result (list (list Z)) client_error :=
  let? path_arg := daemon_module_path_arg daemon in
  let? argv := map_err ClientSession
    (if protocol <? REMOTE_SHELL_MODERN_PROTOCOL
     then build_remote_shell_argv_for_paths options [path_arg]
     else build_remote_shell_protocol31_argv_for_paths options [path_arg]) in
  Ok (drop 1 argv).

(** What the dialogue leaves: a listing, or a module opened for a transfer. *)
Inductive dialogue :=
| Listing (greeting : DaemonGreeting) (list : DaemonModuleList)
| Opened (greeting : DaemonGreeting) (protocol : RemoteWireProtocol).

Section client.
Context {T : Type} `{ReadByte T} `{Write T} `{Digests}.

Definition with_context {A} (context : string) (m : M T DaemonError A) : M T client_error A :=
  with_err (ClientDaemon context) m.

Definition write_daemon_early_input (early_input : option (list Z)) : M T client_error unit :=
  match early_input with
  | None => mret ()
  | Some bytes =>
      if 5 * 1024 <? Z.of_nat (length bytes)
      then throw (ClientBail "--early-input file {} exceeds the 5 KiB daemon early-exec input limit")
      else with_err ClientIo (write_all bytes);; with_err ClientIo flush
  end.

(** [credentials] is what looking for the user and the password came to. *)
Definition daemon_dialogue (daemon : DaemonOperand) (options : RemoteShellOptions)
    (protocol_version : option Z) (credentials : result (list Z * list Z) client_error)
    (early_input : option (list Z)) : M T client_error dialogue :=
  greeting ← with_context "failed to exchange daemon greeting"
    (exchange_daemon_greeting REMOTE_SHELL_MODERN_PROTOCOL);
  match Daemon.module daemon with
  | None =>
      listing ← with_context "failed to list daemon modules" request_module_list;
      mret (Listing greeting listing)
  | Some module =>
      selection ← with_context "failed to select daemon module" (select_daemon_module module);
      match selection with
      | SelectionOk _ => mret ()
      | SelectionAuthRequired challenge _ =>
          credentials ← lift credentials;
          with_context "daemon authentication failed"
            (authenticate_daemon_module credentials.1 credentials.2 challenge
               (auth_checksum greeting));;
          mret ()
      end;;
      write_daemon_early_input early_input;;
      protocol ← lift (daemon_wire_protocol_from_plan protocol_version (peer_protocol greeting));
      args ← lift (daemon_server_args options daemon (protocol_number protocol));
      with_context "failed to send daemon server args"
        (write_daemon_args (protocol_number protocol) args);;
      mret (Opened greeting protocol)
  end.
End client.
