(* ===== verification/DaemonSession.v ===== *)
(** * Client and server of the daemon protocol meet

    The dialogue of the client against the dialogue of the server: what each sends is
    what the other reads, and both come to the same understanding. *)

From S2P Require Import Prelude Stream WireIo Str Text Lines Flist Session RemoteArgs Daemon DaemonConfig DaemonArgs DaemonServer DaemonClient DaemonFacts.

(** The laws of the reading half of a transport, byte by byte. *)
#[export, program] Instance duplex_read_byte_laws {R W} `{ReadByteLaws R} (w0 : W) :
  @ReadByteLaws (duplex R W) _ (duplex_read_laws w0) _.
Next Obligation.
  intros R W ? ? ? ? w0 t b rest [Ha Hw]. destruct (read_byte_avail _ _ _ Ha) as (i & Hi).
  exists (Duplex i (outgoing t)). cbn.
  by destruct Hi as [[-> Hi]|[-> Hi]]; [left|right].
Qed.
Next Obligation.
  intros R W ? ? ? ? w0 t event t'. cbn. destruct (read_byte (incoming t)) as [ev i] eqn:E.
  intros [= <- <-]. apply read_byte_events in E. by destruct ev.
Qed.

Lemma line_loop_events {R} `{ReadByteLaws R} fuel max_len bytes r line r' :
  line_loop fuel max_len bytes r = (Ok (Some line), r') →
  (events r' ≤ events r)%nat ∧ (bytes = [] → (events r' < events r)%nat).
Proof.
  revert bytes r. induction fuel as [|fuel IH]; intros bytes r; [done|]. cbn [line_loop].
  destruct (read_byte r) as [event r1] eqn:E. apply read_byte_events in E.
  destruct event as [|b| |e]; [| | |done].
  - case_bool_decide; [done|]. intros [= _ <-]. split; [lia|done].
  - destruct (b =? 10); [intros [= _ <-]; lia|]. destruct (_ <? _); [done|].
    intros [Hr _]%IH. lia.
  - intros [Hr _]%IH. lia.
Qed.

Lemma read_line_events {R} `{ReadByteLaws R} max_len r line r' :
  read_line max_len r = (Ok (Some line), r') → (events r' < events r)%nat.
Proof.
  unfold read_line. destruct (line_loop _ _ _ r) as [[[bytes|]|e] r1] eqn:E; try done.
  destruct (line_text bytes); [|done]. intros [= _ <-].
  by apply line_loop_events in E as [_ E]; apply E.
Qed.

Section exchanges.
Context {R : Type} `{ReadByteLaws R} {W : Type} `{WriteLaws W}.

Local Abbreviation T := (duplex R W).

Lemma talks_line {E} (f : line_error → E) max_len line :
  line_ok max_len line →
  talks (with_err f (read_line (R:=T) max_len)) (line_bytes line) [] (Some line).
Proof.
  intros Hl. apply talks_with_err, talks_reads. intros w0.
  by apply (@reads_line T _ (duplex_read_laws w0) _ (duplex_read_byte_laws w0)).
Qed.

Lemma talks_write {E} (f : io_error → E) text :
  talks (with_err f (write_all (W:=T) text)) [] text ().
Proof. apply talks_with_err, talks_writes, writes_all. Qed.

Lemma talks_done {E} (f : io_error → E) : talks (with_err f (flush (W:=T))) [] [] ().
Proof. apply talks_with_err, talks_writes, writes_flush. Qed.

(** ** Loops over lines *)

(** The outcome of a loop on a list of lines of which the last one decides. *)
Fixpoint run_lines {S A} (body : S → list Z → result A DaemonError + S) (s : S)
    (lines : list (list Z)) : option (result A DaemonError) :=
  match lines with
  | [] => None
  | line :: lines =>
      match body s line, lines with
      | inl outcome, [] => Some outcome
      | inl _, _ => None
      | inr s, _ => run_lines body s lines
      end
  end.

Definition lines_bytes (lines : list (list Z)) : list Z := concat (line_bytes <$> lines).

Lemma lines_fuel_run {S A} (body : S → list Z → result A DaemonError + S) fuel s lines outcome :
  Forall (line_ok 8192) lines → run_lines body s lines = Some outcome →
  ∀ t rest, avail (incoming t) (lines_bytes lines ++ rest) → ready (outgoing t) →
    (events t < fuel)%nat →
  ∃ t', lines_fuel fuel body s t = (outcome, t') ∧ avail (incoming t') rest ∧
    emits (outgoing t) [] (outgoing t') ∧ ready (outgoing t').
Proof.
  intros Hl. revert fuel s. induction Hl as [|line lines Hline Hl IH]; intros fuel s Hrun; [done|].
  intros t rest Ha Hr Hf. destruct fuel as [|fuel]; [lia|].
  unfold lines_bytes in Ha. cbn [fmap list_fmap concat] in Ha. rewrite <-app_assoc in Ha.
  destruct (talks_line client_line_error 8192 line Hline t _ Ha Hr) as (t1 & Ht1 & Ha1 & He1 & Hr1).
  assert (Hev : (events t1 < events t)%nat).
  { unfold with_err in Ht1. destruct (read_line 8192 t) as [[l|] t2] eqn:E; [|done].
    injection Ht1 as -> ->. by apply (@read_line_events T _ (duplex_read_laws (outgoing t)) _ (duplex_read_byte_laws _)) in E. }
  cbn [lines_fuel]. unfold read_daemon_line. rewrite (bind_ok _ _ _ _ _ Ht1).
  cbn [run_lines] in Hrun. destruct (body s line) as [o|s'] eqn:Hb.
  - destruct lines as [|line' lines]; [|done]. injection Hrun as ->.
    exists t1. split; [done|]. by cbn in Ha1.
  - destruct (IH fuel s' Hrun t1 rest Ha1 Hr1) as (t2 & Ht2 & Ha2 & He2 & Hr2); [lia|].
    exists t2. split_and!; [done|done| |done]. apply (emits_app _ _ _ [] [] He1 He2).
Qed.

Lemma talks_while {S A} (body : S → list Z → result A DaemonError + S) s lines a :
  Forall (line_ok 8192) lines → run_lines body s lines = Some (Ok a) →
  talks (while_line (T:=T) body s) (lines_bytes lines) [] a.
Proof. intros Hl Hrun t rest Ha Hr. eapply lines_fuel_run; eauto. Qed.

Lemma talks_err_while {S A} (body : S → list Z → result A DaemonError + S) s lines e :
  Forall (line_ok 8192) lines → run_lines body s lines = Some (Err e) →
  talks_err (while_line (T:=T) body s) (lines_bytes lines) [] e.
Proof.
  intros Hl Hrun t rest Ha Hr.
  edestruct (lines_fuel_run body (Datatypes.S (events t))) as (t' & Ht & Ha' & He & _); eauto.
Qed.
(** ** What each side says *)

Definition own_greeting : list Z := lit "@RSYNCD: 31.0 md5 md4".

Lemma line_bytes_app text : line_bytes text = encode_chars (text ++ [10]).
Proof. by rewrite encode_chars_snoc. Qed.

(** Concrete lines are checked by evaluation. *)
Definition is_line (max_len : Z) (line : list Z) : bool :=
  forallb is_scalar line && negb (contains line 10) &&
  negb (bool_decide (last line = Some 13)) &&
  (Z.of_nat (length (encode_chars line)) <=? max_len).

Lemma is_line_ok max_len line : is_line max_len line = true → line_ok max_len line.
Proof.
  unfold is_line. rewrite !andb_true_iff, !negb_true_iff, bool_decide_eq_false.
  intros [[[Hs Hf] Hr] Hl]. constructor; [done| |done|lia].
  intros Hin%contains_spec. congruence.
Qed.

Definition server_greeting : DaemonGreeting :=
  {| peer_protocol := 31; peer_subprotocol := 0; auth_checksum := Md5 |}.

Lemma client_greets :
  talks (exchange_daemon_greeting (T:=T) 31) (line_bytes own_greeting) (line_bytes own_greeting)
    server_greeting.
Proof.
  unfold exchange_daemon_greeting.
  apply (talks_step _ _ _ (line_bytes own_greeting) [] _ [] (line_bytes own_greeting)
    (Some own_greeting)); [done..| |].
  { apply talks_line. by apply is_line_ok. }
  apply (talks_quiet _ _ _ _ own_greeting); [by apply talks_lift|].
  apply (talks_quiet _ _ _ _ server_greeting); [by apply talks_lift|].
  change (if negb _ then ?x else ?y) with y.
  apply (talks_last _ _ _ _ ()); [apply talks_write|].
  apply (talks_quiet _ _ _ _ ()); [apply talks_done|apply talks_ret].
Qed.

Lemma client_selects module lines a :
  module ≠ [] → 0 ∉ module → Forall (line_ok 8192) lines →
  run_lines select_line [] lines = Some (Ok a) →
  talks (select_daemon_module (T:=T) module) (lines_bytes lines) (line_bytes module) a.
Proof.
  intros Hne Hz Hl Hrun. unfold select_daemon_module.
  rewrite bool_decide_false, (proj2 (not_contains _ _)) by done. cbn [orb].
  apply (talks_say _ _ _ (encode_chars module) [10] ()); [apply talks_write|].
  apply (talks_say _ _ _ [10] [] ()); [apply talks_write|].
  apply (talks_quiet _ _ _ _ ()); [apply talks_done|]. by apply talks_while.
Qed.

Context `{DigestLaws}.

Definition response_line (user password challenge : list Z) (checksum : DaemonAuthChecksum) :
    list Z :=
  user ++ lit " " ++ daemon_auth_response password challenge checksum.

Lemma client_authenticates user password challenge checksum lines a :
  user ≠ [] → 0 ∉ user → 0 ∉ password → Forall (line_ok 8192) lines →
  run_lines authenticate_line [] lines = Some (Ok a) →
  talks (authenticate_daemon_module (T:=T) user password challenge checksum) (lines_bytes lines)
    (line_bytes (response_line user password challenge checksum)) a.
Proof.
  intros Hne Hu Hp Hl Hrun. unfold authenticate_daemon_module.
  rewrite bool_decide_false, !(proj2 (not_contains _ _)) by done. cbn [orb].
  unfold line_bytes, response_line. rewrite !encode_chars_app, <-!app_assoc.
  do 3 (apply (talks_say _ _ _ _ _ ()); [apply talks_write|]).
  apply (talks_say _ _ _ [10] [] ()); [apply talks_write|].
  apply (talks_quiet _ _ _ _ ()); [apply talks_done|]. by apply talks_while.
Qed.

(** ** The arguments *)

Definition args_bytes (args : list (list Z)) : list Z :=
  concat ((λ arg, encode_chars arg ++ [0]) <$> args) ++ [0].

Lemma client_sends_args protocol args :
  30 ≤ protocol → Forall (λ arg, 0 ∉ arg) args →
  talks (write_daemon_args (T:=T) protocol args) [] (args_bytes args) ().
Proof.
  intros Hp Ha. unfold write_daemon_args, args_bytes, write_daemon_arg, args_end.
  replace (30 <=? protocol) with true by lia.
  apply (talks_say _ _ _ _ [0] ()).
  - induction Ha as [|arg args Harg _ IH]; [apply talks_ret|].
    cbn [for_each fmap list_fmap concat]. apply (talks_say _ _ _ _ _ ()); [|exact IH].
    rewrite (proj2 (not_contains _ _)) by done. by apply (talks_say _ _ _ _ [0] ()); apply talks_write.
  - apply (talks_last _ _ _ _ ()); [apply talks_write|apply talks_done].
Qed.
End exchanges.

(** ** How the server reads the arguments *)

(** What may be sent as an argument, and as a list of them. *)
Definition arg_ok (arg : list Z) : Prop :=
  arg ≠ [] ∧ forallb is_scalar arg = true ∧ (0 ∉ arg) ∧
  Z.of_nat (length (encode_chars arg)) ≤ 8192.

(** Concrete arguments are checked by evaluation. *)
Definition is_arg (arg : list Z) : bool :=
  bool_decide (arg ≠ []) && forallb is_scalar arg && negb (contains arg 0) &&
  (Z.of_nat (length (encode_chars arg)) <=? 8192).

Lemma are_args_ok args : forallb is_arg args = true → Forall arg_ok args.
Proof.
  rewrite forallb_forall, Forall_forall. intros Ha arg Hin. apply list_elem_of_In, Ha in Hin.
  unfold is_arg in Hin. rewrite !andb_true_iff, negb_true_iff, bool_decide_eq_true in Hin.
  destruct Hin as [[[Hne Hs] Hz] Hl]. rewrite not_contains in Hz. split_and!; [done..|lia].
Qed.

Section arguments.
Context {R : Type} `{ReadLaws R}.

Lemma null_args_arg fuel args current bytes r rest :
  avail r (bytes ++ 0 :: rest) → (budget r < fuel)%nat → 0 ∉ bytes →
  current ++ bytes ≠ [] → Z.of_nat (length (current ++ bytes)) ≤ 8192 →
  (bytes = [] ∨ Z.of_nat (length args) ≤ 1024) →
  ∃ fuel' r', null_args_loop fuel args current r =
      null_args_loop fuel' (args ++ [current ++ bytes]) [] r' ∧
    avail r' rest ∧ (budget r' < fuel')%nat.
Proof.
  revert current bytes r. induction fuel as [|fuel IH];
    intros current bytes r Ha Hf Hz Hne Hlen Hargs; [lia|].
  destruct bytes as [|b bytes]; cbn [app] in Ha; cbn [null_args_loop].
  - destruct (read_exact_avail r [0] rest Ha) as (r' & Hr & Ha'). cbn [length] in Hr.
    pose proof (read_exact_budget _ _ _ _ Hr) as [_ Hb]. exists fuel, r'.
    rewrite (bind_ok _ _ _ [0] r') by (unfold with_err; by rewrite Hr).
    rewrite app_nil_r in *. cbn [nth]. rewrite bool_decide_false by done.
    split_and!; [done|done|lia].
  - destruct (read_exact_avail r [b] (bytes ++ 0 :: rest) Ha) as (r' & Hr & Ha').
    cbn [length] in Hr. pose proof (read_exact_budget _ _ _ _ Hr) as [_ Hb].
    apply not_elem_of_cons in Hz as [Hb0 Hz].
    rewrite (bind_ok _ _ _ [b] r') by (unfold with_err; by rewrite Hr). cbn [nth].
    destruct (Z.eqb_spec b 0); [congruence|].
    assert (Hcat : (current ++ [b]) ++ bytes = current ++ b :: bytes) by by rewrite <-app_assoc.
    destruct Hargs as [|Hargs]; [done|]. pose proof Hlen as Hlen'.
    rewrite length_app in Hlen'. cbn [length] in Hlen'. rewrite length_app. cbn [length].
    rewrite (proj2 (Z.ltb_ge 8192 _)) by lia. rewrite (proj2 (Z.ltb_ge 1024 _)) by lia.
    cbn [orb].
    rewrite <-Hcat. apply IH; rewrite ?Hcat; try done; [lia|by right].
Qed.

Lemma null_args_all fuel args raws r rest :
  avail r (concat ((λ raw, raw ++ [0]) <$> raws) ++ 0 :: rest) → (budget r < fuel)%nat →
  Forall (λ raw, raw ≠ [] ∧ (0 ∉ raw) ∧ Z.of_nat (length raw) ≤ 8192) raws →
  Z.of_nat (length args + length raws) ≤ 1025 →
  ∃ r', null_args_loop fuel args [] r = (decode_args (args ++ raws), r') ∧ avail r' rest.
Proof.
  intros Ha Hf Hraws. revert fuel args r Ha Hf.
  induction Hraws as [|raw raws (Hne & Hz & Hlen) _ IH]; intros fuel args r Ha Hf Hmax;
    cbn [fmap list_fmap concat app length] in *.
  - destruct fuel as [|fuel]; [lia|]. cbn [null_args_loop].
    destruct (read_exact_avail r [0] rest Ha) as (r' & Hr & Ha'). cbn [length] in Hr.
    exists r'. rewrite (bind_ok _ _ _ [0] r') by (unfold with_err; by rewrite Hr).
    cbn [nth]. by rewrite app_nil_r.
  - rewrite <-!app_assoc in Ha. cbn [app] in Ha.
    destruct (null_args_arg fuel args [] raw r _ Ha) as (fuel' & r' & -> & Ha' & Hf');
      [done|done|done|done|right; lia|]. cbn [app].
    destruct (IH fuel' (args ++ [raw]) r' Ha' Hf') as (r'' & -> & Ha'').
    { rewrite length_app. cbn [length]. lia. }
    exists r''. by rewrite <-app_assoc.
Qed.

Lemma decode_encode_args args :
  Forall arg_ok args → decode_args (encode_chars <$> args) = Ok args.
Proof.
  induction 1 as [|arg args (_ & Hs & _) _ IH]; [done|]. cbn [fmap list_fmap decode_args].
  rewrite decode_encode_chars by done. cbn [ok_or and_then]. by rewrite IH.
Qed.

Lemma encode_chars_ne s : s ≠ [] → encode_chars s ≠ [].
Proof.
  destruct s as [|c s]; [done|]. intros _ E. unfold encode_chars in E. cbn in E.
  apply app_eq_nil in E as [E _]. by apply encode_utf8_ne in E.
Qed.

Lemma reads_null_args args :
  Forall arg_ok args → Z.of_nat (length args) ≤ 1025 →
  reads (read_null_daemon_args (T:=R)) (args_bytes args) args.
Proof.
  intros Ha Hl r rest Hr. unfold args_bytes in Hr. rewrite <-app_assoc in Hr. cbn [app] in Hr.
  replace ((λ arg, encode_chars arg ++ [0]) <$> args)
    with ((λ raw, raw ++ [0]) <$> (encode_chars <$> args)) in Hr by by rewrite <-list_fmap_compose.
  destruct (null_args_all (S (budget r)) [] (encode_chars <$> args) r rest Hr)
    as (r' & Hr' & Ha'); [lia| |by rewrite length_fmap|].
  - apply Forall_fmap. eapply Forall_impl; [exact Ha|]. intros arg (Hne & Hs & Hz & Hlen). cbn.
    split_and!; [by apply encode_chars_ne|by apply encode_chars_no_ascii|done].
  - exists r'. unfold read_null_daemon_args. rewrite Hr'. cbn [app]. by rewrite decode_encode_args.
Qed.
End arguments.

(** ** The server's side *)

Section sides.
Context {R : Type} `{ReadByteLaws R} {W : Type} `{WriteLaws W} `{DigestLaws}.
Context (read_to_string : list Z → option (list Z)) (nanos pid : Z).

Local Abbreviation T := (duplex R W).

Lemma server_says text : talks (writeln (T:=T) text) [] (line_bytes text) ().
Proof. rewrite line_bytes_app. apply talks_write. Qed.

Lemma server_says_only text : talks (writeln (T:=T) text;; server_flush) [] (line_bytes text) ().
Proof. apply (talks_last _ _ _ _ ()); [apply server_says|apply talks_done]. Qed.

(** What it takes to be let into a module that names users. *)
Record authorised (module : DaemonServerModule) (user password : list Z) : Prop := {
  user_named : user ∈ auth_users module;
  user_ne : user ≠ [];
  user_plain : trim user = user ∧ ((ch " ") ∉ user) ∧ (0 ∉ user);
  password_plain : 0 ∉ password;
  secret : ∃ path text secrets, secrets_file module = Some path ∧ read_to_string path = Some text ∧
    parse_daemon_secrets text = Ok secrets ∧
    List.find (λ entry, bool_decide (entry.1 = user)) secrets = Some (user, password);
}.

Lemma right_password module user password challenge checksum :
  authorised module user password →
  daemon_auth_response_is_valid read_to_string module
    (response_line user password challenge checksum) challenge checksum = Ok true.
Proof.
  intros [Hu Hne (Htrim & Hsp & Hz) Hp (path & text & secrets & Hf & Ht & Hs & Hfind)].
  unfold daemon_auth_response_is_valid, response_line. change (lit " " ++ ?x) with (ch " " :: x).
  rewrite split_once_app by done. rewrite Htrim, bool_decide_false by done.
  rewrite (proj2 (not_contains _ _)), bool_decide_true by done. cbn [orb negb].
  unfold read_daemon_secrets. rewrite Hf, Ht, Hs. cbn [and_then]. rewrite Hfind.
  unfold daemon_auth_response_matches. by rewrite (proj2 (constant_time_eq_spec _ _) eq_refl).
Qed.

Definition challenge_line (challenge : list Z) : list Z := lit "@RSYNCD: AUTHREQD " ++ challenge.
Definition ok_line : list Z := lit "@RSYNCD: OK".

Lemma server_authenticates module client user password :
  let challenge := daemon_auth_challenge nanos pid (name module) client in
  authorised module user password →
  line_ok 8192 (response_line user password challenge Md5) →
  talks (authenticate_daemon_client (T:=T) read_to_string nanos pid module client Md5 None)
    (line_bytes (response_line user password challenge Md5))
    (line_bytes (challenge_line challenge) ++ line_bytes ok_line) ().
Proof.
  intros challenge Ha Hl. unfold authenticate_daemon_client. cbn [from_option id]. fold challenge.
  apply (talks_say _ _ _ _ _ ()); [apply server_says|].
  apply (talks_quiet _ _ _ _ ()); [apply talks_done|].
  rewrite <-(app_nil_r (line_bytes (response_line _ _ _ _))).
  apply (talks_hear _ _ _ _ _ (Some (response_line user password challenge Md5)));
    [by apply talks_line|].
  apply (talks_quiet _ _ _ _ (response_line user password challenge Md5)); [by apply talks_lift|].
  apply (talks_quiet _ _ _ _ true); [by apply talks_lift, right_password|].
  apply server_says_only.
Qed.

(** What the server does with a transfer it understood: the line it refuses with. *)
Definition verdict (module : DaemonServerModule) (transfer : DaemonTransferArgs) :
    list Z * served :=
  if negb (sender transfer) && read_only module then
    (line_bytes (lit "@ERROR: module '" ++ name module ++ lit "' is read only"),
     ReadOnlyModule (name module))
  else if sender transfer && write_only module then
    (line_bytes (lit "@ERROR: module '" ++ name module ++ lit "' is write only"),
     WriteOnlyModule (name module))
  else ([], if sender transfer then ServeSender module transfer else ServeReceiver module transfer).

Lemma server_admits module transfer :
  talks (admit_transfer (T:=T) 31 module transfer) [] (verdict module transfer).1
    (verdict module transfer).2.
Proof.
  unfold admit_transfer, verdict. change (31 <? REMOTE_SHELL_MODERN_PROTOCOL) with false. cbn iota.
  assert (Hrefuse : ∀ text outcome, talks (refuse (T:=T) text outcome) [] (line_bytes text) outcome).
  { intros text outcome. apply (talks_last _ _ _ _ ()); [apply server_says|].
    apply (talks_quiet _ _ _ _ ()); [apply talks_done|apply talks_ret]. }
  destruct (negb (sender transfer) && read_only module); [apply Hrefuse|].
  destruct (sender transfer && write_only module); [apply Hrefuse|apply talks_ret].
Qed.

(** [opening up down]: how the server lets a client into the module. *)
Definition opening (module : DaemonServerModule) (client : option (list Z))
    (credentials : result (list Z * list Z) client_error) (up down : list (list Z)) : Prop :=
  let challenge := daemon_auth_challenge nanos pid (name module) client in
  (auth_users module = [] ∧ up = [] ∧ down = [ok_line]) ∨
  (auth_users module ≠ [] ∧ ∃ user password,
     credentials = Ok (user, password) ∧ authorised module user password ∧
     line_ok 8192 (challenge_line challenge) ∧
     line_ok 8192 (response_line user password challenge Md5) ∧
     up = [response_line user password challenge Md5] ∧ down = [challenge_line challenge; ok_line]).

Lemma server_serves module client credentials up down args transfer :
  opening module client credentials up down →
  Forall arg_ok args → Z.of_nat (length args) ≤ 1025 → parse_transfer args = Ok transfer →
  talks (serve_module (T:=T) read_to_string nanos pid 31 Md5 client module)
    (lines_bytes up ++ args_bytes args) (lines_bytes down ++ (verdict module transfer).1)
    (verdict module transfer).2.
Proof.
  intros Hopen Hargs Hlen Hparse. unfold serve_module. apply (talks_bind _ _ _ _ _ _ ()).
  - destruct Hopen as [(Hu & -> & ->)|(Hu & user & password & _ & Ha & _ & Hl & -> & ->)];
      [rewrite bool_decide_true by done|rewrite bool_decide_false by done];
      unfold lines_bytes; cbn [fmap list_fmap concat]; rewrite !app_nil_r.
    + apply server_says_only.
    + by apply server_authenticates.
  - rewrite <-(app_nil_r (args_bytes args)). apply (talks_hear _ _ _ _ _ args).
    + unfold read_daemon_args. change (30 <=? 31) with true. apply talks_reads. intros w0.
      by apply (@reads_null_args T _ (duplex_read_laws w0)).
    + apply (talks_quiet _ _ _ _ transfer); [by apply talks_lift|]. apply server_admits.
Qed.

(** A request that names a module of the configuration. *)
Record requested (config : DaemonServerConfig) (module : DaemonServerModule) : Prop := {
  module_found :
    List.find (λ m, bool_decide (name m = name module)) (modules config) = Some module;
  name_line : line_ok 8192 (name module);
  name_request : name module ≠ lit "#list" ∧ name module ≠ [] ∧ (0 ∉ name module);
}.

Lemma server_runs no_motd config client module credentials up down args transfer :
  requested config module → opening module client credentials up down →
  Forall arg_ok args → Z.of_nat (length args) ≤ 1025 → parse_transfer args = Ok transfer →
  talks (handle_client (T:=T) read_to_string nanos pid no_motd config client)
    (lines_bytes (own_greeting :: name module :: up) ++ args_bytes args)
    (lines_bytes (own_greeting :: down) ++ (verdict module transfer).1)
    (verdict module transfer).2.
Proof.
  intros [Hfind Hline (Hlist & _)] Hopen Hargs Hlen Hparse. unfold handle_client, lines_bytes.
  cbn [fmap list_fmap concat]. rewrite <-!app_assoc.
  apply (talks_say _ _ _ _ _ ()); [apply server_says|].
  apply (talks_quiet _ _ _ _ ()); [apply talks_done|].
  apply (talks_hear _ _ _ _ _ (Some own_greeting)); [apply talks_line; by apply is_line_ok|].
  apply (talks_quiet _ _ _ _ own_greeting); [by apply talks_lift|].
  change (if negb _ then ?x else ?y) with y.
  apply (talks_quiet _ _ _ _ 31); [by apply talks_lift|].
  apply (talks_quiet _ _ _ _ Md5); [by apply talks_lift|].
  apply (talks_hear _ _ _ _ _ (Some (name module))); [by apply talks_line|].
  apply (talks_quiet _ _ _ _ (name module)); [by apply talks_lift|].
  rewrite bool_decide_false by done. rewrite Hfind. by eapply server_serves.
Qed.

Lemma client_opens module client credentials up down :
  name module ≠ [] → 0 ∉ name module → opening module client credentials up down →
  talks
    (selection ← with_context "failed to select daemon module" (select_daemon_module (T:=T) (name module));
     match selection with
     | SelectionOk _ => mret ()
     | SelectionAuthRequired challenge _ =>
         credentials ← lift credentials;
         with_context "daemon authentication failed"
           (authenticate_daemon_module credentials.1 credentials.2 challenge Md5);;
         mret ()
     end)
    (lines_bytes down) (lines_bytes (name module :: up)) ().
Proof.
  intros Hne Hz [(_ & -> & ->)|(Hu & user & password & Hc & Ha & Hcl & _ & -> & ->)].
  - unfold lines_bytes at 2. cbn [fmap list_fmap concat]. rewrite app_nil_r.
    apply (talks_last _ _ _ _ (SelectionOk [])); [|apply talks_ret].
    apply talks_with_err, client_selects; [done..| |reflexivity].
    constructor; [by apply is_line_ok|constructor].
  - set (challenge := daemon_auth_challenge _ _ _ _) in *.
    unfold lines_bytes. cbn [fmap list_fmap concat]. rewrite !app_nil_r.
    apply (talks_bind _ _ _ _ _ _ (SelectionAuthRequired challenge [])).
    + replace (line_bytes (challenge_line challenge))
        with (lines_bytes [challenge_line challenge])
        by (unfold lines_bytes; cbn; by rewrite app_nil_r).
      apply talks_with_err, client_selects; [done|done|constructor; [exact Hcl|constructor]|].
      cbn [run_lines]. unfold select_line, challenge_line.
      rewrite bool_decide_false by done. by rewrite strip_prefix_app.
    + apply (talks_quiet _ _ _ _ (user, password)); [by apply talks_lift|].
      apply (talks_last _ _ _ _ []); [|apply talks_ret].
      replace (line_bytes ok_line) with (lines_bytes [ok_line]) by reflexivity.
      destruct Ha as [_ Hun (_ & _ & Hu0) Hp _].
      apply talks_with_err, client_authenticates; [done..| |reflexivity].
      constructor; [by apply is_line_ok|constructor].
Qed.

Lemma talks_bind_assoc {E A B C} (m : M T E A) (f : A → M T E B) (g : B → M T E C) ins outs c :
  talks ((m ≫= f) ≫= g) ins outs c → talks (m ≫= λ a, f a ≫= g) ins outs c.
Proof.
  intros Hm t rest Ha Hr. destruct (Hm t rest Ha Hr) as (t' & Ht & Hrest). exists t'.
  split; [|done]. by rewrite <-bind_assoc.
Qed.

Lemma client_runs daemon options version module client credentials up down args :
  version = None ∨ version = Some 31 →
  Daemon.module daemon = Some (name module) → name module ≠ [] → 0 ∉ name module →
  opening module client credentials up down →
  daemon_server_args options daemon 31 = Ok args → Forall arg_ok args →
  talks (daemon_dialogue (T:=T) daemon options version credentials None)
    (lines_bytes (own_greeting :: down))
    (lines_bytes (own_greeting :: name module :: up) ++ args_bytes args)
    (Opened server_greeting Modern31).
Proof.
  intros Hversion Hm Hne Hz Hopen Hargs Hok. unfold daemon_dialogue.
  change (lines_bytes (own_greeting :: ?l)) with (line_bytes own_greeting ++ lines_bytes l).
  rewrite <-app_assoc. apply (talks_bind _ _ _ _ _ _ server_greeting).
  { apply talks_with_err, client_greets. }
  rewrite Hm. apply talks_bind_assoc.
  rewrite <-(app_nil_r (lines_bytes down)). apply (talks_bind _ _ _ _ _ _ ()).
  { by eapply client_opens. }
  apply (talks_quiet _ _ _ _ ()); [apply talks_ret|].
  apply (talks_quiet _ _ _ _ Modern31); [by apply talks_lift; destruct Hversion as [-> | ->]|].
  apply (talks_quiet _ _ _ _ args); [by apply talks_lift|].
  apply (talks_last _ _ _ _ ()); [|apply talks_ret].
  apply talks_with_err, client_sends_args;
    [unfold protocol_number, REMOTE_SHELL_MODERN_PROTOCOL; lia|].
  eapply Forall_impl; [exact Hok|]. by intros arg (_ & _ & H' & _).
Qed.

(** C36. Client and server of the daemon protocol come to an understanding.  When the
    client names a module of the server's configuration and, where the module names
    users, holds a user and the password the secrets file has for it, the two dialogues
    run to their ends on each other's bytes: the client opens the module for protocol
    31, and the server has its arguments and goes on to the transfer they describe, or
    refuses it as the module is read only or write only.  This is without --protocol=27,
    under which they do not meet ([old_arguments_are_not_heard]), and without
    --early-input, for lines and arguments that the server has room for: 8192 bytes in
    each, 1025 arguments, none of them empty or with a zero character, and together
    understood by the server. *)
Theorem client_and_server_agree no_motd config client module daemon options version credentials
    up down args transfer :
  version = None ∨ version = Some 31 →
  requested config module → Daemon.module daemon = Some (name module) →
  opening module client credentials up down →
  daemon_server_args options daemon 31 = Ok args → Forall arg_ok args →
  Z.of_nat (length args) ≤ 1025 → parse_transfer args = Ok transfer →
  ∃ to_client to_server,
    talks (daemon_dialogue (T:=T) daemon options version credentials None)
      to_client to_server (Opened server_greeting Modern31) ∧
    talks (handle_client (T:=T) read_to_string nanos pid no_motd config client)
      to_server (to_client ++ (verdict module transfer).1) (verdict module transfer).2.
Proof.
  intros Hversion Hreq Hm Hopen Hargs Hok Hlen Hparse. do 2 eexists.
  destruct (name_request _ _ Hreq) as (_ & Hne & Hz).
  split; [by eapply client_runs|by eapply server_runs].
Qed.
End sides.

(** ** A session *)

#[local] Existing Instance sample_digests.
#[local] Existing Instance sample_digest_laws.

Definition sample_secrets (path : list Z) : option (list Z) := Some (lit "# users" ++ [10] ++ lit "me:pw").

Definition sample_module : DaemonServerModule :=
  {| name := lit "mod"; path := lit "C:\srv"; comment := []; read_only := false;
     write_only := false; listed := true; auth_users := [lit "me"];
     secrets_file := Some (lit "secrets"); uid := None; gid := None |}.

Definition sample_config : DaemonServerConfig :=
  {| modules := [new_module (lit "other"); sample_module] |}.

Definition sample_daemon : DaemonOperand :=
  {| user := Some (lit "me"); host := lit "host"; port := 873; module := Some (lit "mod");
     Daemon.path := Some (lit "dir") |}.

Definition sample_challenge : list Z := daemon_auth_challenge 1000 7 (lit "mod") None.

Definition sample_args : list (list Z) :=
  [lit "--server"; lit "-nWe.LsfxCIvu"; lit "."; lit "dir"].

Lemma sample_opening :
  opening sample_secrets 1000 7 sample_module None (Ok (lit "me", lit "pw"))
    [response_line (lit "me") (lit "pw") sample_challenge Md5]
    [challenge_line sample_challenge; ok_line].
Proof.
  right. split; [done|]. exists (lit "me"), (lit "pw").
  change (daemon_auth_challenge 1000 7 (name sample_module) None) with sample_challenge.
  split; [reflexivity|]. split; [|split; [|split; [|split; reflexivity]]].
  - constructor; [by left|discriminate| |by apply not_contains|].
    + split_and!; [by vm_compute|by apply not_contains|by apply not_contains].
    + by exists (lit "secrets"), (lit "# users" ++ [10] ++ lit "me:pw"), [(lit "me", lit "pw")].
  - apply is_line_ok. by vm_compute.
  - apply is_line_ok. by vm_compute.
Qed.

Lemma sample_requested : requested sample_config sample_module.
Proof.
  constructor; [by vm_compute|by apply is_line_ok|].
  split_and!; [done|done|by apply not_contains].
Qed.

Definition sample_transfer : DaemonTransferArgs :=
  set_paths [lit "dir"] (set_dry_run true (set_whole_file true (initial_args false))).

Lemma client_and_server_agree_witness :
  ∃ to_client to_server,
    talks (daemon_dialogue (T:=duplex (list (option Z)) (list Z)) sample_daemon
             default_remote_options None (Ok (lit "me", lit "pw")) None)
      to_client to_server (Opened server_greeting Modern31) ∧
    talks (handle_client (T:=duplex (list (option Z)) (list Z)) sample_secrets 1000 7
             false sample_config None)
      to_server (to_client ++ []) (ServeReceiver sample_module sample_transfer).
Proof.
  apply (client_and_server_agree (R:=list (option Z)) (W:=list Z) sample_secrets 1000 7 false
    sample_config None sample_module sample_daemon default_remote_options None
    (Ok (lit "me", lit "pw")) [response_line (lit "me") (lit "pw") sample_challenge Md5]
    [challenge_line sample_challenge; ok_line] sample_args sample_transfer).
  - by left.
  - apply sample_requested.
  - reflexivity.
  - apply sample_opening.
  - vm_compute. reflexivity.
  - apply are_args_ok. by vm_compute.
  - vm_compute. congruence.
  - vm_compute. reflexivity.
Defined.

(** ** The protocol the client falls back to

    Under [--protocol=27], or against a daemon of protocol 30, the client greets with 31
    and then ends its arguments with line feeds; a server that reads them as the
    greeting demands finds no argument. *)

Definition old_args_bytes (args : list (list Z)) : list Z :=
  concat ((λ arg, encode_chars arg ++ [10]) <$> args) ++ [10].

Lemma null_args_need_nul fuel args current (s : list Z) heard s' :
  null_args_loop fuel args current s = (Ok heard, s') → 0 ∈ s.
Proof.
  revert args current s. induction fuel as [|fuel IH]; intros args current s; [done|].
  cbn [null_args_loop]. destruct s as [|b s]; [done|].
  rewrite (bind_ok _ _ _ [b] s) by done. cbn [nth].
  destruct (Z.eqb_spec b 0) as [->|]; [intros _; by left|].
  destruct (_ || _); [done|]. intros Hin%IH. by right.
Qed.

Lemma old_bytes_no_nul args :
  Forall (λ arg, forallb is_scalar arg = true ∧ 0 ∉ arg) args → 0 ∉ old_args_bytes args.
Proof.
  intros Ha. unfold old_args_bytes. rewrite not_elem_of_app. split.
  - induction Ha as [|arg args [Hs Hz] _ IH]; cbn [fmap list_fmap concat]; [apply not_elem_of_nil|].
    rewrite !not_elem_of_app. split_and!; [by apply encode_chars_no_ascii| |exact IH].
    by rewrite list_elem_of_singleton.
  - by rewrite list_elem_of_singleton.
Qed.

(** A client held to protocol 27 has greeted with protocol 31 all the same and ends
    its arguments with line feeds; the server, which goes by the greeting, waits for an
    argument to end with a NUL and never has one. *)
Theorem old_arguments_are_not_heard {R} `{ReadByteLaws R} {W} `{WriteLaws W} peer args :
  Forall (λ arg, forallb is_scalar arg = true ∧ 0 ∉ arg) args →
  daemon_wire_protocol_from_plan (Some 27) peer = Ok Compat27 ∧
  talks (exchange_daemon_greeting (T:=duplex R W) REMOTE_SHELL_MODERN_PROTOCOL)
    (line_bytes own_greeting) (line_bytes own_greeting) server_greeting ∧
  parse_client_greeting_protocol own_greeting = Ok 31 ∧
  talks (write_daemon_args (T:=duplex R W) (protocol_number Compat27) args) []
    (old_args_bytes args) () ∧
  (∀ heard s, read_daemon_args (T:=list Z) 31 (old_args_bytes args) ≠ (Ok heard, s)).
Proof.
  intros Ha. split_and!; [done|apply client_greets|done| |].
  - unfold write_daemon_args, old_args_bytes, write_daemon_arg, args_end.
    change (30 <=? protocol_number Compat27) with false. apply (talks_say _ _ _ _ [10] ()).
    + induction Ha as [|arg args [_ Harg] _ IH]; [apply talks_ret|].
      cbn [for_each fmap list_fmap concat]. apply (talks_say _ _ _ _ _ ()); [|exact IH].
      rewrite (proj2 (not_contains _ _)) by done.
      by apply (talks_say _ _ _ _ [10] ()); apply talks_write.
    + apply (talks_last _ _ _ _ ()); [apply talks_write|apply talks_done].
  - intros heard s Hr. apply null_args_need_nul in Hr. by apply (old_bytes_no_nul args Ha).
Qed.

Lemma old_arguments_are_not_heard_witness :
  talks (write_daemon_args (T:=duplex (list Z) (list Z)) (protocol_number Compat27) sample_args)
    [] (old_args_bytes sample_args) () ∧
  read_daemon_args (T:=list Z) 31 (old_args_bytes sample_args) ≠ (Ok sample_args, []).
Proof.
  destruct (old_arguments_are_not_heard (R:=list Z) (W:=list Z) 31 sample_args)
    as (_ & _ & _ & Hs & Hr); [|exact (conj Hs (Hr sample_args []))].
  repeat constructor; by apply not_contains.
Defined.
