(* ===== verification/DaemonServerFacts.v ===== *)
(** * What the daemon server lets through *)

From S2P Require Import Prelude Stream WireIo Str Text Lines Flist Session RemoteArgs Daemon DaemonConfig DaemonArgs DaemonServer DaemonClient DaemonFacts DaemonSession.

(** ** Paths in a module *)

Definition normals (cs : list Component) : list (list Z) :=
  omap (λ c, match c with Normal part => Some part | _ => None end) cs.

(** A part that names an entry of the directory it is joined to. *)
Definition inside_part (windows : bool) (part : list Z) : Prop :=
  part ≠ [] ∧ part ≠ lit "." ∧ part ≠ lit ".." ∧
  Forall (λ c, is_separator windows c = false) part ∧ has_drive windows part = false.

Lemma split_by_parts p s part : part ∈ split_by p s → Forall (λ c, p c = false) part.
Proof.
  revert part. induction s as [|c s IH]; intros part; cbn [split_by].
  - rewrite list_elem_of_singleton. intros ->. constructor.
  - destruct (p c) eqn:Hc.
    + rewrite elem_of_cons. intros [->|Hin]; [constructor|by apply IH].
    + destruct (split_by p s) as [|x xs].
      * rewrite list_elem_of_singleton. intros ->. by repeat constructor.
      * rewrite elem_of_cons. intros [->|Hin]; [|apply IH; by right].
        constructor; [done|]. apply IH. by left.
Qed.

Lemma component_parts windows s part raw :
  raw ∈ split_by (is_separator windows) s → Normal part ∈ component raw →
  part ≠ [] ∧ part ≠ lit "." ∧ part ≠ lit ".." ∧
  Forall (λ c, is_separator windows c = false) part.
Proof.
  intros Hraw. unfold component. destruct (_ || _) eqn:E; [by intros ?%elem_of_nil|].
  apply orb_false_iff in E as [E1%bool_decide_eq_false E2%bool_decide_eq_false].
  case_bool_decide as E3; rewrite list_elem_of_singleton; [done|]. intros [= ->].
  split_and!; [done..|]. by eapply split_by_parts.
Qed.

Lemma component_concat windows s part raws :
  raws ⊆ split_by (is_separator windows) s → Normal part ∈ concat (component <$> raws) →
  part ≠ [] ∧ part ≠ lit "." ∧ part ≠ lit ".." ∧
  Forall (λ c, is_separator windows c = false) part.
Proof.
  intros Hsub. rewrite list_elem_of_In, in_concat. intros (cs & Hcs & Hin).
  apply list_elem_of_In, list_elem_of_fmap in Hcs as (raw & -> & Hraw).
  eapply component_parts; [by apply Hsub|by apply list_elem_of_In].
Qed.

Lemma normal_parts windows s part :
  Normal part ∈ components windows s → part ≠ [] ∧ part ≠ lit "." ∧ part ≠ lit ".." ∧
    Forall (λ c, is_separator windows c = false) part.
Proof.
  unfold components. destruct (has_drive windows s).
  - rewrite elem_of_cons. intros [|Hin]; [done|]. by eapply component_concat in Hin.
  - destruct (split_by (is_separator windows) s) as [|first raws] eqn:Hs;
      [by intros ?%elem_of_nil|].
    rewrite elem_of_app. intros [Hin|Hin].
    + destruct (_ && _); [by apply list_elem_of_singleton in Hin|].
      case_bool_decide; [by apply list_elem_of_singleton in Hin|].
      eapply (component_parts windows s _ first); [rewrite Hs; by left|done].
    + eapply (component_concat windows s); [|done]. rewrite Hs. by right.
Qed.

Lemma clean_path_spec windows cs clean :
  match clean_path windows clean cs with
  | Err _ => ParentDir ∈ cs ∨ PrefixOrRoot ∈ cs
  | Ok p => (ParentDir ∉ cs) ∧ (PrefixOrRoot ∉ cs) ∧
      replaced p = replaced clean || existsb (has_drive windows) (normals cs) ∧
      (existsb (has_drive windows) (normals cs) = false → parts p = parts clean ++ normals cs)
  end.
Proof.
  revert clean. induction cs as [|c cs IH]; intros clean; cbn [clean_path normals omap list_omap].
  - cbn. rewrite orb_false_r, app_nil_r. split_and!; try done; apply not_elem_of_nil.
  - destruct c as [| | |part].
    + right. by left.
    + specialize (IH clean). destruct (clean_path windows clean cs).
      * destruct IH as (Hp & Hr & Hrep & Hparts). rewrite !not_elem_of_cons. by split_and!.
      * destruct IH; [left|right]; by right.
    + left. by left.
    + specialize (IH (push_part windows clean part)).
      destruct (clean_path windows (push_part windows clean part) cs).
      * destruct IH as (Hp & Hr & Hrep & Hparts). rewrite !not_elem_of_cons.
        cbn [existsb]. unfold push_part in *. destruct (has_drive windows part); cbn in *.
        -- rewrite orb_true_r. by split_and!.
        -- split_and!; try done. intros E. by rewrite Hparts, <-app_assoc.
      * destruct IH; [left|right]; by right.
Qed.

(** A path a client names in a module is refused exactly when it has a parent
    component, a root or a prefix.  Of an accepted one, the server's path is the module's
    with the named parts appended, each of them an entry of the directory before it, as
    long as no part looks like a drive; elsewhere than on Windows none does.  On Windows
    a part that does, a letter and a colon, replaces the module's path, so that the path
    leaves the module. *)
Theorem module_path_spec windows path :
  let cs := components windows (trim path) in
  match module_path windows path with
  | Err _ => ParentDir ∈ cs ∨ PrefixOrRoot ∈ cs
  | Ok p => (ParentDir ∉ cs) ∧ (PrefixOrRoot ∉ cs) ∧
      replaced p = existsb (has_drive windows) (normals cs) ∧
      (replaced p = false → parts p = normals cs ∧ Forall (inside_part windows) (parts p)) ∧
      (windows = false → replaced p = false)
  end ∧
  (∀ drive, is_ascii_alphabetic drive = true →
     module_path true (lit "x/" ++ [drive; ch ":"] ++ lit "/secret") =
     Ok {| replaced := true; parts := [[drive; ch ":"]; lit "secret"] |}).
Proof.
  intros cs. split.
  - unfold module_path. fold cs. destruct (_ || _) eqn:E.
    + assert (normals cs = [] ∧ (ParentDir ∉ cs) ∧ (PrefixOrRoot ∉ cs)) as (Hn & Hp & Hr).
      { unfold cs. apply orb_true_iff in E as [->%bool_decide_eq_true| ->%bool_decide_eq_true];
          destruct windows; split_and!; try done; apply (bool_decide_unpack _); by vm_compute. }
      cbn [replaced parts]. rewrite Hn. by split_and!.
    + pose proof (clean_path_spec windows cs {| replaced := false; parts := [] |}) as H.
      destruct (clean_path _ _ cs) as [p|]; [|done]. cbn [replaced parts orb app] in H.
      destruct H as (Hp & Hr & Hrep & Hparts). split_and!; [done..| |].
      * intros Hf. rewrite Hrep in Hf. specialize (Hparts Hf). split; [done|]. rewrite Hparts.
        apply Forall_forall. intros part Hin. assert (Hd : has_drive windows part = false).
        { apply not_true_iff_false. intros Hd. rewrite <-not_true_iff_false, existsb_exists in Hf.
          apply Hf. exists part. split; [by apply list_elem_of_In|done]. }
        unfold normals in Hin. apply list_elem_of_omap in Hin as (c & Hc & E').
        destruct c as [| | |part']; try done. injection E' as ->.
        destruct (normal_parts _ _ _ Hc) as (? & ? & ? & ?). by split_and!.
      * intros ->. rewrite Hrep. clear. by induction (normals cs).
  - intros drive Hd.
    assert (Hall : all_below 128 (λ c, negb (is_ascii_alphabetic c) || bool_decide (
      module_path true (lit "x/" ++ [c; ch ":"] ++ lit "/secret") =
      Ok {| replaced := true; parts := [[c; ch ":"]; lit "secret"] |})) = true) by by vm_compute.
    pose proof (all_below_spec 128 _ drive Hall) as H. cbv beta in H. rewrite Hd in H.
    apply (proj1 (bool_decide_eq_true _)), H.
    unfold is_ascii_alphabetic, in_range in Hd. lia.
Qed.

(** ** Who is served *)

Section admitted.
Context {T : Type} `{Read T} `{ReadByte T} `{Write T} `{Digests}.
Context (read_to_string : list Z → option (list Z)) (nanos pid : Z).

(** A line that answers the challenge for a user of the module, with the password that
    the secrets file has for that user. *)
Definition answers (module : DaemonServerModule) (challenge line : list Z)
    (checksum : DaemonAuthChecksum) : Prop :=
  ∃ prefix response path text secrets password,
    line = prefix ++ ch " " :: response ∧ trim prefix ∈ auth_users module ∧ trim prefix ≠ [] ∧
    secrets_file module = Some path ∧ read_to_string path = Some text ∧
    parse_daemon_secrets text = Ok secrets ∧
    List.find (λ entry, bool_decide (entry.1 = trim prefix)) secrets = Some (trim prefix, password) ∧
    daemon_auth_response_matches password challenge checksum response = true.

Lemma valid_answers module line challenge checksum :
  daemon_auth_response_is_valid read_to_string module line challenge checksum = Ok true →
  answers module challenge line checksum.
Proof.
  unfold daemon_auth_response_is_valid, read_daemon_secrets.
  destruct (split_once (ch " ") line) as [[prefix response]|] eqn:Hs; [|done].
  apply split_once_inv in Hs as [-> _]. destruct (_ || _ || _) eqn:Hc; [done|].
  rewrite !orb_false_iff, negb_false_iff, bool_decide_eq_false, bool_decide_eq_true in Hc.
  destruct Hc as [[Hne _] Hu]. destruct (secrets_file module) as [path|] eqn:Hf; [|done].
  destruct (read_to_string path) as [text|] eqn:Ht; [|done].
  destruct (parse_daemon_secrets text) as [secrets|] eqn:Hp; [|done]. cbn [and_then].
  destruct (List.find _ secrets) as [[user password]|] eqn:Hfind; [|done]. intros [= Hm].
  pose proof (find_some _ _ Hfind) as [_ E]. apply bool_decide_eq_true in E. cbn in E. subst user.
  by exists prefix, response, path, text, secrets, password.
Qed.

(** A module is open to all, or its challenge was answered. *)
Definition let_in (client : option (list Z)) (module : DaemonServerModule) : Prop :=
  auth_users module = [] ∨
  ∃ line checksum,
    answers module (daemon_auth_challenge nanos pid (name module) client) line checksum.

Definition admitted (outcome : served) (module : DaemonServerModule) : Prop :=
  match outcome with
  | ServeSender m transfer => m = module ∧ sender transfer = true ∧ write_only m = false
  | ServeReceiver m transfer => m = module ∧ sender transfer = false ∧ read_only m = false
  | _ => True
  end.

Definition serves (outcome : served) : Prop :=
  match outcome with ServeSender _ _ | ServeReceiver _ _ => True | _ => False end.

Lemma refuse_outcome text outcome (t : T) out t' :
  refuse text outcome t = (Ok out, t') → out = outcome.
Proof.
  unfold refuse. intros (? & t1 & _ & (? & t2 & _ & [= <- _])%bind_ok_inv)%bind_ok_inv. done.
Qed.

Lemma admit_outcome protocol module transfer (t : T) outcome t' :
  admit_transfer protocol module transfer t = (Ok outcome, t') → admitted outcome module.
Proof.
  unfold admit_transfer. destruct (protocol <? _); [by intros ->%refuse_outcome|].
  destruct (sender transfer) eqn:Hs; cbn [negb andb].
  - destruct (write_only module) eqn:Hw; [by intros ->%refuse_outcome|]. by intros [= <- _].
  - destruct (read_only module) eqn:Hr; [by intros ->%refuse_outcome|]. by intros [= <- _].
Qed.

Lemma authenticate_outcome module client checksum (t : T) t' :
  authenticate_daemon_client read_to_string nanos pid module client checksum None t = (Ok (), t') →
  ∃ line, answers module (daemon_auth_challenge nanos pid (name module) client) line checksum.
Proof.
  unfold authenticate_daemon_client. cbn [from_option id].
  intros (? & t1 & _ & (? & t2 & _ & (line & t3 & _ & (response & t4 & _ & Ht)%bind_ok_inv)%bind_ok_inv)%bind_ok_inv)%bind_ok_inv.
  apply bind_ok_inv in Ht as (valid & t5 & [Hv _]%lift_ok_inv & Ht).
  destruct valid; [exists response; by apply valid_answers|].
  by apply bind_ok_inv in Ht as (? & ? & _ & (? & ? & _ & Ht)%bind_ok_inv).
Qed.

Lemma serve_outcome protocol checksum client module (t : T) outcome t' :
  serve_module read_to_string nanos pid protocol checksum client module t = (Ok outcome, t') →
  let_in client module ∧ admitted outcome module.
Proof.
  unfold serve_module. intros ([] & t1 & Hopen & (args & t2 & _ & (transfer & t3 & _ & Ht)%bind_ok_inv)%bind_ok_inv)%bind_ok_inv.
  split; [|by eapply admit_outcome]. unfold let_in.
  case_bool_decide as Hu; [by left|]. right.
  apply authenticate_outcome in Hopen as [line Ha]. by exists line, checksum.
Qed.

(** C37. Whatever a client sends, the server goes on to a transfer only for a module of
    its configuration, and where the module names users only after an answer to its own
    challenge for one of them with the password of the secrets file; it sends from no
    module that is write only and receives into none that is read only. *)
Theorem daemon_serves_only_the_admitted no_motd config client (t : T) outcome t' :
  handle_client read_to_string nanos pid no_motd config client t = (Ok outcome, t') →
  serves outcome →
  ∃ module, module ∈ modules config ∧ let_in client module ∧ admitted outcome module.
Proof.
  intros Hrun Hserves. unfold handle_client in Hrun.
  apply bind_ok_inv in Hrun as (? & t1 & _ & Hrun).
  apply bind_ok_inv in Hrun as (? & t2 & _ & Hrun).
  apply bind_ok_inv in Hrun as (? & t3 & _ & Hrun).
  apply bind_ok_inv in Hrun as (greeting & t4 & _ & Hrun).
  destruct (negb (starts_with greeting _)); [done|].
  apply bind_ok_inv in Hrun as (protocol & t5 & _ & Hrun).
  apply bind_ok_inv in Hrun as (checksum & t6 & _ & Hrun).
  apply bind_ok_inv in Hrun as (? & t7 & _ & Hrun).
  apply bind_ok_inv in Hrun as (request & t8 & _ & Hrun).
  case_bool_decide.
  - by apply bind_ok_inv in Hrun as (? & ? & _ & [= <- _]).
  - destruct (List.find _ (modules config)) as [module|] eqn:Hf.
    + exists module. apply find_some in Hf as [Hin%list_elem_of_In _].
      split; [done|]. by eapply serve_outcome.
    + by apply refuse_outcome in Hrun as ->.
Qed.
End admitted.

(** An authenticated client, from its own bytes. *)
#[local] Existing Instance sample_digests.

Definition sample_input : list Z :=
  lines_bytes [own_greeting; lit "mod"; response_line (lit "me") (lit "pw") sample_challenge Md5]
  ++ args_bytes sample_args.

Lemma daemon_serves_only_the_admitted_witness :
  ∃ module, module ∈ modules sample_config ∧ let_in sample_secrets 1000 7 None module ∧
    admitted (ServeReceiver sample_module sample_transfer) module.
Proof.
  apply (daemon_serves_only_the_admitted (T:=duplex (list Z) (list Z)) sample_secrets 1000 7
    true sample_config None (Duplex sample_input []) (ServeReceiver sample_module sample_transfer)
    (handle_client (T:=duplex (list Z) (list Z)) sample_secrets 1000 7 true sample_config None
       (Duplex sample_input [])).2); [vm_compute; reflexivity|exact I].
Defined.
