(* ===== verification/DaemonUnderstood.v ===== *)
(** * What the daemon server understands of a client's options

    The arguments that RemoteArgs builds of a client's options, read by DaemonArgs: the
    fields of the transfer one by one, against a description that does not parse. *)

From S2P Require Import Prelude Stream Str Text Flist Filter Chmod Session RemoteArgs Daemon DaemonConfig DaemonArgs DaemonServer DaemonClient.

(** ** Arguments one after the other *)

(** The arguments one after the other, with the rules gathered so far. *)
Fixpoint apply_args (args : list (list Z)) (self : DaemonTransferArgs) (rules : RuleSet) :
    result (DaemonTransferArgs * RuleSet) server_error :=
  match args with
  | [] => Ok (self, rules)
  | arg :: args =>
      let? (self, rules) := apply_option_arg self rules arg in apply_args args self rules
  end.

Lemma apply_args_app l l' self rules :
  apply_args (l ++ l') self rules =
  let? (self, rules) := apply_args l self rules in apply_args l' self rules.
Proof.
  revert self rules. induction l as [|arg l IH]; intros self rules; [done|].
  cbn [app apply_args]. destruct (apply_option_arg self rules arg) as [[self' rules']|]; [|done].
  apply IH.
Qed.

Lemma parse_args_options l l' self rules :
  Forall (λ arg, arg ≠ lit ".") l →
  parse_args false (l ++ lit "." :: l') self rules =
  let? (self, rules) := apply_args l self rules in
  Ok (set_paths (paths self ++ l') self, rules).
Proof.
  intros Hl. revert self rules. induction Hl as [|arg l Harg Hl IH]; intros self rules.
  - cbn [app parse_args apply_args and_then]. rewrite bool_decide_true by done.
    revert self. induction l' as [|path l' IH]; intros self.
    + cbn. rewrite app_nil_r. by destruct self.
    + cbn [parse_args]. rewrite IH. cbn. by rewrite <-app_assoc.
  - cbn [app parse_args apply_args]. rewrite bool_decide_false by done.
    destruct (apply_option_arg self rules arg) as [[self' rules']|]; [|done]. apply IH.
Qed.

(** ** Segments of a command line *)

Lemma apply_flag flag arg f self rules :
  (∀ self rules, apply_option_arg self rules (lit arg) = Ok (f self, rules)) →
  apply_args (flag_arg flag arg) self rules = Ok (if flag then f self else self, rules).
Proof. intros Hf. destruct flag; [|done]. cbn [flag_arg apply_args]. by rewrite Hf. Qed.

Lemma ignored_flag flag arg self rules :
  apply_option_arg self rules (lit arg) = Ok (self, rules) →
  apply_args (flag_arg flag arg) self rules = Ok (self, rules).
Proof. intros Hf. destruct flag; [|done]. cbn [flag_arg apply_args]. by rewrite Hf. Qed.

Lemma ignored_value value arg self rules :
  (∀ value, apply_option_arg self rules (lit arg ++ value) = Ok (self, rules)) →
  apply_args (value_arg arg value) self rules = Ok (self, rules).
Proof. intros Hf. destruct value; [|done]. cbn [value_arg apply_args]. by rewrite Hf. Qed.

Lemma apply_value value arg self rules :
  apply_args (value_arg arg value) self rules =
  match value with
  | Some value => apply_option_arg self rules (lit arg ++ value)
  | None => Ok (self, rules)
  end.
Proof. 
  destruct value as [value|]; [|done]. cbn [value_arg apply_args].
  by destruct (apply_option_arg _ _ _) as [[]|].
Qed.

(** ** What is understood *)

Definition positive (n : Z) : result Z server_error :=
  if 0 <? n then Ok n else bail "daemon numeric option must be greater than zero: `{value}`".

Lemma parse_positive_decimal n :
  0 ≤ n ≤ usize_max → parse_positive_usize (decimal n) = positive n.
Proof. intros Hn. unfold parse_positive_usize. by rewrite parse_decimal. Qed.

(** The value of an option as the server reads it: [trim_start_matches] takes the name
    of the option away as often as it is there. *)
Definition read_value (option : string) (value : list Z) : list Z :=
  trim_start_str (lit option) (lit option ++ value).

Fixpoint add_rules (context option : string) (new : list Z → result Rule ParseRuleError)
    (values : list (list Z)) (rules : RuleSet) : result RuleSet server_error :=
  match values with
  | [] => Ok rules
  | value :: values =>
      let? rules := add_rule context (new (read_value option value)) rules in
      add_rules context option new values rules
  end.

Definition skipped_suffixes (value : list Z) : list (list Z) :=
  trim <$> List.filter (λ suffix, non_empty (trim suffix))
    (split_on (ch "/") (read_value "--skip-compress=" value)).

Lemma read_value_plain option value :
  lit option ≠ [] → starts_with value (lit option) = false → read_value option value = value.
Proof.
  intros Hne Hv. unfold read_value, trim_start_str.
  destruct (length (lit option ++ value)) as [|fuel] eqn:Hl.
  { destruct (lit option); [done|]. cbn in Hl. lia. }
  cbn [trim_start_str_fuel]. rewrite strip_prefix_app.
  destruct fuel; [done|]. cbn [trim_start_str_fuel]. unfold strip_prefix. by rewrite Hv.
Qed.

Lemma read_value_decimal option n :
  head (lit option) = Some (ch "-") → 0 ≤ n → read_value option (decimal n) = decimal n.
Proof.
  intros Ho Hn. pose proof (decimal_digits n Hn) as Hd. pose proof (decimal_ne n) as Hne.
  destruct (lit option) as [|c s] eqn:El; [done|]. injection Ho as ->.
  apply read_value_plain; [by rewrite El|]. rewrite El. unfold starts_with.
  apply bool_decide_eq_false. destruct (decimal n) as [|d ds]; [done|]. intros [= -> _].
  by cbn in Hd.
Qed.

Section understood.
Context (o : RemoteShellOptions).

(** The user and the group of --chown. *)
Definition chown_parts : list Z * list Z :=
  match chown o with
  | Some chown =>
      let chown := read_value "--chown=" chown in default (chown, []) (split_once (ch ":") chown)
  | None => ([], [])
  end.

Definition understood_flist_options : RsyncFileListOptions :=
  {| include_checksums := false;
     preserve_owner := non_empty chown_parts.1 || (bool_decide (user_maps o ≠ []) || owner o);
     preserve_group := non_empty chown_parts.2 || (bool_decide (group_maps o ≠ []) || group o);
     numeric_ids := numeric_ids_option o;
     opt_acls := acls_option o;
     opt_xattrs := fake_super_option o || xattrs_option o;
     fake_super := fake_super_option o;
     atimes := atimes_option o;
     crtimes := crtimes_option o |}.

Definition understood_update_mode : UpdateMode :=
  if ignore_times o then IgnoreTimes
  else if size_only o then SizeOnly
  else if use_checksum o then ByChecksum
  else QuickCheck.

Definition understood_chmod : result (option ChmodRules) server_error :=
  match chmod_option o with
  | Some value =>
      let? rules := map_err (λ _, Bail "invalid daemon chmod rule")
        (from_str (read_value "--chmod=" value)) in
      Ok (Some rules)
  | None => Ok None
  end.

Definition understood_block_size : result Z server_error :=
  match RemoteArgs.block_size o with Some n => positive n | None => Ok (32 * 1024) end.

Definition understood_compression : result (option RemoteCompressionConfig) server_error :=
  let? chosen :=
    match compress_choice o with
    | Some choice =>
        let? mode := map_err (λ _, Bail "unsupported daemon compression choice")
          (from_choice (Some (read_value "--compress-choice=" choice))) in
        Ok (Some (default_compression mode))
    | None => Ok (if compress o then Some (default_compression TokensZlibx) else None)
    end in
  let? levelled :=
    match compress_level o with
    | Some n =>
        let? n := positive n in
        let c := default (default_compression TokensZlibx) chosen in
        Ok (Some {| mode := mode c; level := Z.min n 9; skip_suffixes := [] |})
    | None => Ok chosen
    end in
  Ok (match skip_compress o with
      | [] => levelled
      | values =>
          let c := default (default_compression TokensZlibx) levelled in
          Some {| mode := mode c; level := level c;
                  skip_suffixes := concat (skipped_suffixes <$> values) |}
      end).

Definition understood_rules : result RuleSet server_error :=
  let? rules := add_rules "invalid daemon include rule" "--include=" include (includes o) [] in
  let? rules := add_rules "invalid daemon exclude rule" "--exclude=" exclude (excludes o) rules in
  add_rules "invalid daemon filter rule" "--filter=" parse_filter (filters o) rules.

(** The client's options and paths as the arguments of a transfer, or the first of them
    the server refuses. *)
Definition understood (paths : list (list Z)) : result DaemonTransferArgs server_error :=
  let? chmod := understood_chmod in
  let? block_size := understood_block_size in
  let? compression := understood_compression in
  let? rules := understood_rules in
  Ok {| sender := bool_decide (direction o = Pull) || bool_decide (lit "--sender" ∈ paths);
        paths := paths;
        recursive := RemoteArgs.recursive o;
        dry_run := RemoteArgs.dry_run o;
        whole_file := RemoteArgs.whole_file o;
        preserve_times := RemoteArgs.preserve_times o;
        update_mode := understood_update_mode;
        append_verify := RemoteArgs.append_verify o;
        write_mode := if inplace o then InPlace else Atomic;
        block_size := block_size;
        filter_rules := rules;
        flist_options := understood_flist_options;
        preserve_executability := executability o;
        chmod_rules := chmod;
        compression := compression;
        delete := match delete_mode o with NoDelete => false | _ => true end |}.
End understood.

(** ** Options with values *)

Lemma apply_rules option context new values self rules :
  (∀ value rules,
     apply_option_arg self rules (lit option ++ value) =
     let? rules := add_rule context (new (read_value option value)) rules in Ok (self, rules)) →
  apply_args (value_args option values) self rules =
  let? rules := add_rules context option new values rules in Ok (self, rules).
Proof.
  intros Hf. revert rules. induction values as [|value values IH]; intros rules; [done|].
  cbn [value_args fmap list_fmap apply_args add_rules]. rewrite Hf.
  destruct (add_rule context _ rules) as [rules'|]; [|done]. apply IH.
Qed.

Lemma apply_values option f values self rules :
  (∀ value self, apply_option_arg self rules (lit option ++ value) = Ok (f value self, rules)) →
  apply_args (value_args option values) self rules = Ok (foldl (flip f) self values, rules).
Proof.
  intros Hf. revert self. induction values as [|value values IH]; intros self; [done|].
  cbn [value_args fmap list_fmap apply_args foldl]. rewrite Hf. apply IH.
Qed.

(** ** The long options of both protocols *)

(** [if b then x else y] for records that differ in a few fields, with the conditional
    inside. *)
Ltac merge b x y :=
  match x with
  | y => x
  | true => match y with false => b | _ => constr:(b || y) end
  | ?f ?a => match y with ?g ?c => let fg := merge b f g in let ac := merge b a c in constr:(fg ac) end
  | _ => constr:(if b then x else y)
  end.
Ltac flag_step :=
  match goal with
  | |- context [apply_args (flag_arg ?b ?name ++ _) ?self ?rules] =>
      match eval vm_compute in (plain_option (lit name)) with
      | Some ?f =>
          let f' := eval vm_compute in f in
          let self' := eval cbn in (f' self) in let m := merge b self' self in
          rewrite (apply_args_app (flag_arg b name));
          replace (apply_args (flag_arg b name) self rules) with
            (Ok (E := server_error) (m, rules)) by (destruct b; reflexivity)
      | None =>
          rewrite (apply_args_app (flag_arg b name)), (ignored_flag b name) by reflexivity
      end;
      cbn [and_then]
  | |- context [apply_args (value_arg ?option ?value ++ _) ?self ?rules] =>
      rewrite (apply_args_app (value_arg option value)), (ignored_value value option) by reflexivity;
      cbn [and_then]
  end.

(** Options whose values only have to be there. *)
Lemma apply_present option f values self rules :
  (∀ value self rules, apply_option_arg self rules (lit option ++ value) = Ok (f self, rules)) →
  (∀ self, f (f self) = f self) →
  apply_args (value_args option values) self rules =
  Ok (if bool_decide (values ≠ []) then f self else self, rules).
Proof.
  intros Hf Hi. rewrite (apply_values _ (λ _, f)) by done. f_equal. f_equal.
  destruct values as [|value values]; [done|]. rewrite bool_decide_true by done. cbn [foldl flip].
  revert self. induction values as [|v values IH]; intros self; [done|]. cbn [foldl flip].
  by rewrite Hi.
Qed.

Ltac present_step f :=
  match goal with
  | |- context [apply_args (value_args ?option ?values ++ _) ?self ?rules] =>
      rewrite (apply_args_app (value_args option values)), (apply_present option f) by done;
      match goal with
      | |- context [if ?b then f self else self] =>
          let f' := eval vm_compute in f in
          let self' := eval cbn in (f' self) in let m := merge b self' self in
          replace (if b then f self else self) with m by (destruct b; reflexivity)
      end;
      cbn [and_then]
  end.

Section values.
Context (o : RemoteShellOptions).
Implicit Types (self : DaemonTransferArgs) (rules : RuleSet).

Lemma apply_chown self rules :
  apply_args (value_arg "--chown=" (chown o)) self rules =
  Ok (on_flist (λ f, flag_preserve_owner (non_empty (chown_parts o).1 || preserve_owner f)
                       (flag_preserve_group (non_empty (chown_parts o).2 || preserve_group f) f))
        self, rules).
Proof.
  rewrite apply_value. unfold chown_parts. destruct (chown o) as [value|].
  - change (apply_option_arg self rules (lit "--chown=" ++ value)) with
      (let '(user, group) := default (read_value "--chown=" value, [])
         (split_once (ch ":") (read_value "--chown=" value)) in
       let self := if non_empty user then on_flist (flag_preserve_owner true) self else self in
       let self := if non_empty group then on_flist (flag_preserve_group true) self else self in
       Ok (E := server_error) (self, rules)).
    destruct (default _ _) as [user group]. cbn [fst snd].
    destruct self as [? ? ? ? ? ? ? ? ? ? ? []]. by destruct (non_empty user), (non_empty group).
  - cbn. by destruct self as [? ? ? ? ? ? ? ? ? ? ? []].
Qed.

Lemma apply_chmod self rules :
  chmod_rules self = None →
  apply_args (value_arg "--chmod=" (chmod_option o)) self rules =
  let? chmod := understood_chmod o in Ok (set_chmod_rules chmod self, rules).
Proof.
  intros Hs. rewrite apply_value. unfold understood_chmod. destruct (chmod_option o) as [value|].
  - change (apply_option_arg self rules (lit "--chmod=" ++ value)) with
      (let? chmod := map_err (λ _, Bail "invalid daemon chmod rule")
         (from_str (read_value "--chmod=" value)) in
       Ok (set_chmod_rules (Some chmod) self, rules)).
    by destruct (map_err _ _).
  - cbn. destruct self; cbn in *. by subst.
Qed.

Lemma apply_block_size self rules :
  (∀ n, RemoteArgs.block_size o = Some n → 0 ≤ n ≤ usize_max) → block_size self = 32 * 1024 →
  apply_args (value_arg "--block-size=" (decimal <$> RemoteArgs.block_size o)) self rules =
  let? n := understood_block_size o in Ok (set_block_size n self, rules).
Proof.
  intros Hn Hs. rewrite apply_value. unfold understood_block_size.
  destruct (RemoteArgs.block_size o) as [n|]; cbn [fmap option_fmap option_map].
  - change (apply_option_arg self rules (lit "--block-size=" ++ decimal n)) with
      (let? n := parse_positive_usize (read_value "--block-size=" (decimal n)) in
       Ok (set_block_size n self, rules)).
    rewrite read_value_decimal, parse_positive_decimal by (done || by apply Hn). by destruct (positive n).
  - cbn. destruct self; cbn in *. by subst.
Qed.

Lemma apply_level self rules :
  (∀ n, compress_level o = Some n → 0 ≤ n ≤ u32_max) →
  apply_args (value_arg "--compress-level=" (decimal <$> compress_level o)) self rules =
  match compress_level o with
  | Some n =>
      let? n := positive n in
      Ok (on_compression TokensZlibx
            (λ c, {| mode := mode c; level := Z.min n 9; skip_suffixes := skip_suffixes c |}) self,
          rules)
  | None => Ok (self, rules)
  end.
Proof.
  intros Hn. rewrite apply_value.
  destruct (compress_level o) as [n|]; cbn [fmap option_fmap option_map]; [|done].
  specialize (Hn n eq_refl).
  change (apply_option_arg self rules (lit "--compress-level=" ++ decimal n)) with
    (let? n := parse_positive_usize (read_value "--compress-level=" (decimal n)) in
     let n := if n <=? u32_max then n else 9 in
     Ok (on_compression TokensZlibx
           (λ c, {| mode := mode c; level := Z.min n 9; skip_suffixes := skip_suffixes c |}) self,
         rules)).
  rewrite read_value_decimal, parse_positive_decimal by (done || unfold u32_max, usize_max in *; lia).
  unfold positive. destruct (0 <? n); [|done]. cbn. by destruct (Z.leb_spec n u32_max); [|lia].
Qed.

Lemma apply_choice self rules :
  apply_args (value_arg "--compress-choice=" (compress_choice o)) self rules =
  match compress_choice o with
  | Some choice =>
      let? m := map_err (λ _, Bail "unsupported daemon compression choice")
        (from_choice (Some (read_value "--compress-choice=" choice))) in
      Ok (on_compression m
            (λ c, {| mode := m; level := level c; skip_suffixes := skip_suffixes c |}) self, rules)
  | None => Ok (self, rules)
  end.
Proof. rewrite apply_value. by destruct (compress_choice o). Qed.

Lemma apply_skip self rules :
  apply_args (value_args "--skip-compress=" (skip_compress o)) self rules =
  Ok (match skip_compress o with
      | [] => self
      | values =>
          on_compression TokensZlibx
            (λ c, {| mode := mode c; level := level c;
                     skip_suffixes := skip_suffixes c ++ concat (skipped_suffixes <$> values) |}) self
      end, rules).
Proof.
  rewrite (apply_values _ (λ value, on_compression TokensZlibx
            (λ c, {| mode := mode c; level := level c;
                     skip_suffixes := skip_suffixes c ++ skipped_suffixes value |}))) by done.
  f_equal. f_equal. induction (skip_compress o) as [|value values IH] in self |- *; [done|].
  cbn [foldl flip]. rewrite IH. destruct values as [|value' values].
  - cbn. by rewrite app_nil_r.
  - unfold on_compression, set_compression. cbn. by rewrite <-app_assoc.
Qed.

Definition compression_args : list (list Z) :=
  flag_arg (compress o) "--compress" ++
  value_arg "--compress-choice=" (compress_choice o) ++
  value_arg "--compress-level=" (decimal <$> compress_level o) ++
  value_arg "--compress-threads=" (decimal <$> compress_threads o) ++
  value_args "--skip-compress=" (skip_compress o).

Lemma apply_compression self rules :
  (∀ n, compress_level o = Some n → 0 ≤ n ≤ u32_max) → compression self = None →
  apply_args compression_args self rules =
  let? c := understood_compression o in Ok (set_compression c self, rules).
Proof.
  intros Hn Hs. unfold compression_args, understood_compression. destruct self. cbn in Hs. subst.
  rewrite apply_args_app, (apply_flag _ _ ensure_compression) by done. cbn [and_then].
  rewrite apply_args_app, apply_choice.
  destruct (compress o), (compress_choice o) as [choice|];
    (try destruct (from_choice _) as [m|]; [|done..]);
    cbn [map_err and_then]; rewrite apply_args_app, apply_level by done.
  all: destruct (compress_level o) as [n|]; [destruct (positive n) as [n'|]; [|done]|];
    cbn [and_then]; rewrite apply_args_app, ignored_value by done; cbn [and_then];
    rewrite apply_skip; by destruct (skip_compress o).
Qed.
End values.

Definition state sender recursive dry_run whole_file preserve_times update_mode append_verify
    write_mode block_size flist_options executability chmod compression delete :=
  {| sender := sender; paths := []; recursive := recursive; dry_run := dry_run;
     whole_file := whole_file; preserve_times := preserve_times; update_mode := update_mode;
     append_verify := append_verify; write_mode := write_mode; block_size := block_size;
     filter_rules := []; flist_options := flist_options; preserve_executability := executability;
     chmod_rules := chmod; compression := compression; delete := delete |}.

Lemma long_options o sender recursive dry_run whole_file preserve_times delete :
  remote_options o = [] →
  (∀ n, RemoteArgs.block_size o = Some n → 0 ≤ n ≤ usize_max) →
  (∀ n, compress_level o = Some n → 0 ≤ n ≤ u32_max) →
  apply_args (append_remote_shell_long_options o)
    (state sender recursive dry_run whole_file preserve_times QuickCheck false Atomic
       (32 * 1024) default_options false None None delete) [] =
  let? chmod := understood_chmod o in
  let? block_size := understood_block_size o in
  let? compression := understood_compression o in
  let? rules := understood_rules o in
  Ok (state sender recursive dry_run whole_file preserve_times (understood_update_mode o)
        (RemoteArgs.append_verify o) (if inplace o then InPlace else Atomic) block_size
        (understood_flist_options o) (executability o) chmod compression delete, rules).
Proof.
  intros Hr Hb Hl. unfold append_remote_shell_long_options. rewrite Hr. cbn [app].
  unfold state, default_options.
  do 14 flag_step.
  present_step (on_flist (flag_preserve_owner true)).
  present_step (on_flist (flag_preserve_group true)).
  rewrite apply_args_app, apply_chown. cbn [and_then]. 
  cbv beta iota delta [on_flist set_flist_options flag_preserve_owner flag_preserve_group].
  cbn -[app].
  rewrite apply_args_app, apply_chmod by done. destruct (understood_chmod o) as [chmod|]; [|done].
  cbn [and_then]. cbv beta iota delta [set_chmod_rules]. cbn -[app].
  do 19 flag_step.
  rewrite apply_args_app, apply_block_size by done.
  destruct (understood_block_size o) as [n|]; [|done].
  cbn [and_then]. cbv beta iota delta [set_block_size]. cbn -[app].
  match goal with
  | |- context [apply_args (?a ++ ?b ++ ?c ++ ?d ++ ?e ++ ?l)] =>
      replace (a ++ b ++ c ++ d ++ e ++ l) with (compression_args o ++ l)
        by (unfold compression_args; by rewrite <-!app_assoc)
  end.
  rewrite apply_args_app, apply_compression by done.
  destruct (understood_compression o) as [c|]; [|done].
  cbn [and_then]. cbv beta iota delta [set_compression]. cbn -[app].
  flag_step. unfold understood_rules.
  rewrite apply_args_app, (apply_rules _ "invalid daemon include rule" include) by done.
  destruct (add_rules _ _ include _ _) as [rules|]; [|done]. cbn [and_then].
  rewrite apply_args_app, (apply_rules _ "invalid daemon exclude rule" exclude) by done.
  destruct (add_rules _ _ exclude _ _) as [rules'|]; [|done]. cbn [and_then].
  by rewrite (apply_rules _ "invalid daemon filter rule" parse_filter).
Qed.

(** ** The short options, and what no argument is *)

Definition ordinary (arg : list Z) : Prop := arg ≠ lit "." ∧ arg ≠ lit "--sender".

Lemma ordinary_value option value :
  (∀ value, bool_decide (lit option ++ value = lit ".") = false) →
  (∀ value, bool_decide (lit option ++ value = lit "--sender") = false) →
  ordinary (lit option ++ value).
Proof. intros H1 H2. split; eapply bool_decide_eq_false; [apply H1|apply H2]. Qed.

Lemma ordinary_flag flag arg :
  bool_decide (ordinary (lit arg)) = true → Forall ordinary (flag_arg flag arg).
Proof. intros H. apply bool_decide_eq_true in H. destruct flag; [|constructor]. cbn. by apply Forall_singleton. Qed.

Lemma short_args_shape o :
  ∃ c rest, short_args o = ch "-" :: c :: rest ∧
    c ∈ [ch "v"; ch "n"; ch "W"; ch "t"; ch "r"; ch "e"].
Proof.
  unfold short_args. cbn [lit app].
  destruct (Z.to_nat (verbosity o)); [|eexists _, _; split; [done|set_solver]].
  destruct (RemoteArgs.dry_run o); [eexists _, _; split; [done|set_solver]|].
  destruct (RemoteArgs.whole_file o); [eexists _, _; split; [done|set_solver]|].
  destruct (RemoteArgs.preserve_times o); [eexists _, _; split; [done|set_solver]|].
  destruct (RemoteArgs.recursive o); eexists _, _; (split; [done|set_solver]).
Qed.

Lemma apply_short_list c rest self rules :
  c ∈ [ch "v"; ch "n"; ch "W"; ch "t"; ch "r"; ch "e"] →
  apply_option_arg self rules (ch "-" :: c :: rest) =
  Ok (fold_left apply_short_flag (c :: rest) self, rules).
Proof.
  rewrite !elem_of_cons, elem_of_nil. intros Hc. by destruct_or! Hc; subst.
Qed.

Lemma fold_verbose n self : fold_left apply_short_flag (replicate n (ch "v")) self = self.
Proof. induction n as [|n IH]; [done|]. apply IH. Qed.

Lemma apply_short o sender paths update_mode append_verify write_mode block_size filter_rules
    flist_options executability chmod compression delete rules :
  let self recursive dry_run whole_file preserve_times :=
    {| sender := sender; paths := paths; recursive := recursive; dry_run := dry_run;
       whole_file := whole_file; preserve_times := preserve_times; update_mode := update_mode;
       append_verify := append_verify; write_mode := write_mode; block_size := block_size;
       filter_rules := filter_rules; flist_options := flist_options;
       preserve_executability := executability; chmod_rules := chmod;
       compression := compression; delete := delete |} in
  apply_option_arg (self false false false false) rules (short_args o) =
  Ok (self (RemoteArgs.recursive o) (RemoteArgs.dry_run o) (RemoteArgs.whole_file o)
        (RemoteArgs.preserve_times o), rules).
Proof.
  cbv zeta. destruct (short_args_shape o) as (c & rest & Hs & Hc). rewrite Hs, apply_short_list by done.
  replace (c :: rest) with (drop 1 (short_args o)) by by rewrite Hs.
  clear. unfold short_args.
  match goal with |- context [drop 1 (lit "-" ++ ?x)] => change (drop 1 (lit "-" ++ x)) with x end.
  rewrite !fold_left_app, fold_verbose.
  f_equal. f_equal.
  by destruct (RemoteArgs.recursive o), (RemoteArgs.dry_run o), (RemoteArgs.whole_file o),
    (RemoteArgs.preserve_times o), (incremental_recursion o).
Qed.

Lemma ordinary_values option values :
  (∀ value, bool_decide (lit option ++ value = lit ".") = false) →
  (∀ value, bool_decide (lit option ++ value = lit "--sender") = false) →
  Forall ordinary (value_args option values).
Proof. intros H1 H2. apply Forall_fmap, Forall_true. intros value. by apply ordinary_value. Qed.

Lemma ordinary_optional option value :
  (∀ value, bool_decide (lit option ++ value = lit ".") = false) →
  (∀ value, bool_decide (lit option ++ value = lit "--sender") = false) →
  Forall ordinary (value_arg option value).
Proof. intros H1 H2. destruct value; [|constructor]. cbn. by apply Forall_singleton, ordinary_value. Qed.

Lemma long_options_ordinary o :
  remote_options o = [] → Forall ordinary (append_remote_shell_long_options o).
Proof.
  intros Hr. unfold append_remote_shell_long_options. rewrite Hr. cbn [app].
  repeat apply Forall_app_2;
    first [apply ordinary_flag; reflexivity
          |apply ordinary_values; reflexivity
          |apply ordinary_optional; reflexivity].
Qed.

Lemma short_args_ordinary o : ordinary (short_args o).
Proof.
  destruct (short_args_shape o) as (c & rest & -> & Hc).
  rewrite !elem_of_cons, elem_of_nil in Hc. by destruct_or! Hc; subst.
Qed.

(** ** The whole command line *)

Definition head_options o : list (list Z) :=
  lit "--server" :: flag_arg (bool_decide (direction o = Pull)) "--sender".

Lemma sender_of_args o options paths :
  Forall ordinary options →
  existsb (λ arg, bool_decide (arg = lit "--sender")) (head_options o ++ options ++ lit "." :: paths) =
  bool_decide (direction o = Pull) || bool_decide (lit "--sender" ∈ paths).
Proof.
  intros Ho. unfold head_options. rewrite <-app_comm_cons. cbn [existsb]. rewrite !existsb_app.
  rewrite (bool_decide_false (lit "--server" = _)) by done. cbn [orb]. f_equal.
  { by destruct (bool_decide (direction o = Pull)). }
  replace (existsb _ options) with false.
  2: { symmetry. induction Ho as [|arg options [_ Harg] _ IH]; [done|]. cbn [existsb].
       by rewrite bool_decide_false, IH. }
  cbn [existsb orb]. rewrite bool_decide_false by done. cbn [orb].
  induction paths as [|path paths IH]; [done|]. cbn [existsb]. rewrite IH.
  destruct (decide (path = lit "--sender")) as [->|Hne].
  - by rewrite (bool_decide_true (_ ∈ _ :: _)) by by left.
  - rewrite (bool_decide_false (path = _)) by done. cbn [orb]. apply bool_decide_ext.
    rewrite elem_of_cons. split; [by right|by intros [|]].
Qed.

Lemma transfer_of_args o options paths :
  Forall ordinary options → paths ≠ [] →
  parse_transfer (head_options o ++ options ++ lit "." :: paths) =
  let sender := bool_decide (direction o = Pull) || bool_decide (lit "--sender" ∈ paths) in
  let? (transfer, rules) := apply_args options (initial_args sender) [] in
  Ok (set_filter_rules rules (set_paths (DaemonArgs.paths transfer ++ paths) transfer)).
Proof.
  intros Ho Hp. unfold parse_transfer. rewrite sender_of_args by done.
  set (sender := _ || _). clearbody sender. unfold head_options at 1. rewrite <-app_comm_cons.
  cbn [existsb]. rewrite bool_decide_true by done. cbn [orb negb].
  rewrite app_assoc, parse_args_options.
  2: { apply Forall_app_2; [|eapply Forall_impl; [exact Ho|by intros arg []]].
       unfold head_options. destruct (bool_decide _); by repeat constructor. }
  rewrite apply_args_app.
  replace (apply_args (head_options o) (initial_args sender) []) with
    (Ok (E := server_error) (initial_args sender, [] : RuleSet))
    by (unfold head_options; by destruct (bool_decide _)).
  cbv zeta. cbn [and_then].
  destruct (apply_args options (initial_args sender) []) as [[transfer rules]|]; [|done].
  cbn [and_then]. rewrite bool_decide_false; [done|]. cbn. by destruct (DaemonArgs.paths transfer).
Qed.

Lemma apply_delete mode self rules :
  apply_args (append_remote_delete_option mode) self rules =
  Ok (match mode with NoDelete => self | _ => set_delete true self end, rules).
Proof. by destruct mode. Qed.

Lemma delete_ordinary mode : Forall ordinary (append_remote_delete_option mode).
Proof. destruct mode; by repeat constructor. Qed.

Lemma append_paths_ok paths paths' : append_paths paths = Ok paths' → paths' = paths.
Proof.
  revert paths'. induction paths as [|path paths IH]; intros paths'; cbn; [by intros [= <-]|].
  destruct (contains path 0); [done|]. intros H. apply and_then_Ok in H as (later & H & [= <-]).
  f_equal. by apply IH.
Qed.

Lemma append_remote_paths_ok paths paths' :
  append_remote_paths paths = Ok paths' → paths' = paths ∧ paths ≠ [].
Proof. destruct paths; [done|]. intros H. split; [by apply append_paths_ok|done]. Qed.

Lemma apply_verbose n self rules :
  apply_args (replicate n (lit "-v")) self rules = Ok (self, rules).
Proof. induction n as [|n IH]; [done|]. cbn [replicate apply_args]. by rewrite <-IH at 1. Qed.

Lemma understood31 o paths args :
  remote_options o = [] →
  (∀ n, RemoteArgs.block_size o = Some n → 0 ≤ n ≤ usize_max) →
  (∀ n, compress_level o = Some n → 0 ≤ n ≤ u32_max) →
  server_args31 o paths = Ok args → parse_transfer (drop 1 args) = understood o paths.
Proof.
  intros Hr Hb Hl Ha. apply and_then_Ok in Ha as (paths' & Hp & [= <-]).
  apply append_remote_paths_ok in Hp as [-> Hp].
  set (options := append_remote_delete_option (delete_mode o) ++
    flag_arg (RemoteArgs.recursive o && negb (incremental_recursion o)) "--no-inc-recursive" ++
    append_remote_shell_long_options o ++ [short_args o]).
  replace (drop 1 _) with (head_options o ++ options ++ lit "." :: paths).
  2: { unfold options, head_options, server_head. rewrite <-!app_assoc. cbn [app drop]. by rewrite <-?app_assoc. }
  rewrite transfer_of_args; [|unfold options|done].
  2: { apply Forall_app_2; [apply delete_ordinary|]. apply Forall_app_2; [by apply ordinary_flag|].
       apply Forall_app_2; [by apply long_options_ordinary|apply Forall_singleton, short_args_ordinary]. }
  cbv zeta. set (sender := _ || _). unfold options, initial_args.
  rewrite apply_args_app, apply_delete. cbn [and_then].
  rewrite apply_args_app, ignored_flag by done. cbn [and_then].
  replace (match delete_mode o with NoDelete => _ | _ => _ end) with
    (state sender false false false false QuickCheck false Atomic (32 * 1024) default_options
       false None None (match delete_mode o with NoDelete => false | _ => true end))
    by by destruct (delete_mode o).
  rewrite apply_args_app, long_options by done. unfold understood.
  destruct (understood_chmod o) as [chmod|]; [|done].
  destruct (understood_block_size o) as [n|]; [|done].
  destruct (understood_compression o) as [c|]; [|done].
  destruct (understood_rules o) as [rules|]; [|done].
  cbn [and_then apply_args]. unfold state. rewrite apply_short. done.
Qed.

Lemma understood27 o paths args :
  remote_options o = [] →
  (∀ n, RemoteArgs.block_size o = Some n → 0 ≤ n ≤ usize_max) →
  (∀ n, compress_level o = Some n → 0 ≤ n ≤ u32_max) →
  server_args o paths = Ok args → parse_transfer (drop 1 args) = understood o paths.
Proof.
  intros Hr Hb Hl Ha. apply and_then_Ok in Ha as (paths' & Hp & [= <-]).
  apply append_remote_paths_ok in Hp as [-> Hp].
  set (options := flag_arg (RemoteArgs.recursive o) "--recursive" ++
    flag_arg (RemoteArgs.preserve_times o) "--times" ++
    append_remote_delete_option (delete_mode o) ++
    flag_arg (RemoteArgs.recursive o && negb (incremental_recursion o)) "--no-inc-recursive" ++
    flag_arg (RemoteArgs.dry_run o) "--dry-run" ++
    flag_arg (RemoteArgs.whole_file o) "--whole-file" ++
    append_remote_shell_long_options o ++ replicate (Z.to_nat (verbosity o)) (lit "-v")).
  replace (drop 1 _) with (head_options o ++ options ++ lit "." :: paths).
  2: { unfold options, head_options, server_head. rewrite <-!app_assoc. cbn [app drop].
       by rewrite <-?app_assoc. }
  rewrite transfer_of_args; [|unfold options|done].
  2: { do 2 (apply Forall_app_2; [by apply ordinary_flag|]).
       apply Forall_app_2; [apply delete_ordinary|].
       do 3 (apply Forall_app_2; [by apply ordinary_flag|]).
       apply Forall_app_2; [by apply long_options_ordinary|by apply Forall_replicate]. }
  cbv zeta. set (sender := _ || _). unfold options, initial_args. do 2 flag_step.
  rewrite apply_args_app, apply_delete. cbn [and_then].
  replace (match delete_mode o with NoDelete => _ | _ => _ end) with
    (state sender (RemoteArgs.recursive o) false false (RemoteArgs.preserve_times o) QuickCheck
       false Atomic (32 * 1024) default_options
       false None None (match delete_mode o with NoDelete => false | _ => true end))
    by by destruct (delete_mode o).
  unfold state. do 3 flag_step.
  match goal with
  | |- context [apply_args _ {| sender := sender; recursive := ?r; dry_run := ?n;
                                whole_file := ?w; preserve_times := ?t; delete := ?d |} _] =>
      change {| sender := sender; paths := []; recursive := r; dry_run := n; whole_file := w;
                preserve_times := t; update_mode := QuickCheck; append_verify := false;
                write_mode := Atomic; block_size := 32 * 1024; filter_rules := [];
                flist_options := default_options; preserve_executability := false;
                chmod_rules := None; compression := None; delete := d |}
        with (state sender r n w t QuickCheck false Atomic (32 * 1024) default_options
                false None None d)
  end.
  rewrite apply_args_app, long_options by done. unfold understood.
  destruct (understood_chmod o) as [chmod|]; [|done].
  destruct (understood_block_size o) as [n|]; [|done].
  destruct (understood_compression o) as [c|]; [|done].
  destruct (understood_rules o) as [rules|]; [|done].
  cbn [and_then]. by rewrite apply_verbose.
Qed.

(** The arguments of a client, in either protocol. *)
Lemma daemon_args_understood o daemon protocol args :
  remote_options o = [] → secluded_args o = false →
  (∀ n, RemoteArgs.block_size o = Some n → 0 ≤ n ≤ usize_max) →
  (∀ n, compress_level o = Some n → 0 ≤ n ≤ u32_max) →
  daemon_server_args o daemon protocol = Ok args →
  parse_transfer args = understood o [default (lit ".") (Daemon.path daemon)].
Proof.
  intros Hr Hs Hb Hl. unfold daemon_server_args, daemon_module_path_arg.
  destruct (Daemon.module daemon); [|done]. cbn [ok_or and_then].
  intros Ha. apply and_then_Ok in Ha as (args' & Ha & [= <-]).
  assert (∀ args, argv (remote_shell_invocation_for_argv o args) = args) as Hargv
    by (intros args; unfold remote_shell_invocation_for_argv; by rewrite Hs).
  destruct (protocol <? REMOTE_SHELL_MODERN_PROTOCOL);
    unfold build_remote_shell_argv_for_paths, build_remote_shell_invocation_for_paths,
      build_remote_shell_protocol31_argv_for_paths,
      build_remote_shell_protocol31_invocation_for_paths in Ha.
  - destruct (server_args o _) as [args|] eqn:He; [|done]. cbn in Ha. rewrite Hargv in Ha.
    injection Ha as <-. by apply understood27.
  - destruct (server_args31 o _) as [args|] eqn:He; [|done]. cbn in Ha. rewrite Hargv in Ha.
    injection Ha as <-. by apply understood31.
Qed.

(** C20. What the daemon server takes from the arguments a client sends, which are neither
    secluded (-s) nor extended by --remote-option (-M), and whose block size and compression
    level are within their types, is what the client's options say: the direction, the path,
    every flag, the choice among the comparisons, the permission rules, the compression and
    the filter rules in their order, or the error of the first option the server refuses.  A
    value that starts with the name of its own option loses that, and a path that reads
    --sender turns the transfer around. *)
Theorem server_understands_client o daemon protocol args :
  remote_options o = [] → secluded_args o = false →
  (∀ n, RemoteArgs.block_size o = Some n → 0 ≤ n ≤ usize_max) →
  (∀ n, compress_level o = Some n → 0 ≤ n ≤ u32_max) →
  daemon_server_args o daemon protocol = Ok args →
  parse_transfer args = understood o [default (lit ".") (Daemon.path daemon)].
Proof. apply daemon_args_understood. Qed.

(** ** Concrete options *)

(** rsync -rtz --delete --compress-level=9 --include=a --exclude=b --chmod=F644 to a module. *)
Definition sample_options : RemoteShellOptions :=
  {| rsync_path := lit "rsync"; direction := Push; secluded_args := false;
     RemoteArgs.recursive := true; incremental_recursion := false;
     RemoteArgs.preserve_times := true; delete_mode := During; RemoteArgs.dry_run := false;
     RemoteArgs.whole_file := false; verbosity := 2; preserve_permissions := false;
     use_checksum := true; checksum_choice := None; checksum_seed_option := None;
     size_only := false; ignore_times := false; partial := false; partial_dir := None;
     inplace := false; RemoteArgs.append_verify := false; executability := false;
     owner := false; group := false; numeric_ids_option := false; user_maps := [];
     group_maps := []; chown := Some (lit "joe:"); chmod_option := Some (lit "F644");
     acls_option := false; xattrs_option := false; fake_super_option := false;
     atimes_option := false; crtimes_option := false; omit_dir_times := false;
     omit_link_times := false; preserve_links := false; copy_links := false;
     copy_dirlinks := false; keep_dirlinks := false; safe_links := false;
     copy_unsafe_links := false; munge_links := false; hard_links := false;
     preserve_devices := false; preserve_specials := false; copy_devices := false;
     write_devices := false; RemoteArgs.block_size := Some 700; compress := true;
     compress_choice := Some (lit "zlibx"); compress_level := Some 9; compress_threads := None;
     skip_compress := []; outbuf := None; remote_options := []; includes := [lit "a"];
     excludes := [lit "b"]; filters := [] |}.

Definition sample_daemon : DaemonOperand :=
  {| Daemon.user := None; Daemon.host := lit "h"; Daemon.port := 873;
     Daemon.module := Some (lit "m"); Daemon.path := Some (lit "m/x") |}.

Definition sample_args : list (list Z) :=
  match daemon_server_args sample_options sample_daemon 31 with Ok args => args | Err _ => [] end.

Lemma server_understands_client_witness :
  ∃ transfer, parse_transfer sample_args = Ok transfer ∧ DaemonArgs.paths transfer = [lit "m/x"] ∧
    preserve_owner (flist_options transfer) = true ∧ DaemonArgs.block_size transfer = 700.
Proof.
  rewrite (server_understands_client sample_options sample_daemon 31 sample_args).
  - eexists. split; [vm_compute; reflexivity|]. by vm_compute.
  - reflexivity.
  - reflexivity.
  - intros n [= <-]. by vm_compute.
  - intros n [= <-]. by vm_compute.
  - vm_compute. reflexivity.
Defined.

(** A level without -z: the server compresses what the client takes for plain. *)
Example level_turns_compression_on :
  (let? t := parse_transfer [lit "--server"; lit "--sender"; lit "--compress-level=5"; lit ".";
                             lit "m/x"] in
   Ok (bool_decide (is_Some (compression t)) : bool)) = Ok true.
Proof. vm_compute. reflexivity. Qed.

(** A level of zero, which asks for no compression, is refused. *)
Example level_zero_refused :
  is_ok (parse_transfer [lit "--server"; lit "--compress-level=0"; lit "."; lit "m/x"]) = false.
Proof. vm_compute. reflexivity. Qed.

(** Any argument that reads --sender makes the server the sender, a path too. *)
Example path_turns_transfer_around :
  (let? t := parse_transfer [lit "--server"; lit "."; lit "m/x"; lit "--sender"] in
   Ok (sender t)) = Ok true.
Proof. vm_compute. reflexivity. Qed.
