(* ===== verification/WinPath.v ===== *)
(** * Paths a Windows volume can hold: rsync-winfs/src/path.rs

    The check of a component, and of all the destinations of a transfer together: two
    of them may not differ in case or normalisation only.  The tables of Unicode are a
    class: canonical composition is a third-party crate's, the lower-case mapping the
    standard library's.  A name is a list of characters; the long-path prefix, which
    only the Windows build adds, is left out. *)

From S2P Require Import Prelude Str Flist FsPath.

Inductive WindowsPathError :=
| NotPortable (path : PathBuf)
| EmptyComponent
| InvalidCharacter (component : list Z) (character : Z)
| ReservedName (component : list Z)
| TrailingSpaceOrDot (component : list Z)
| Collision (first second : PathBuf).

(** [name.nfc()] and [char::to_lowercase]. *)
Class Unicode := {
  nfc : list Z → list Z;
  to_lowercase : Z → list Z;
}.

Definition is_invalid_windows_character (character : Z) : bool :=
  existsb (Z.eqb character)
    [ch "<"; ch ">"; ch ":"; 34; ch "/"; ch "\"; ch "|"; ch "?"; ch "*"].

Definition is_numbered_reserved (stem prefix : list Z) : bool :=
  match strip_prefix stem prefix with
  | None => false
  | Some number => existsb (λ d, bool_decide (number = [d]))
      [ch "1"; ch "2"; ch "3"; ch "4"; ch "5"; ch "6"; ch "7"; ch "8"; ch "9"]
  end.

Definition is_reserved_name (component : list Z) : bool :=
  let stem := match split_once (ch ".") component with
              | Some (stem, _) => stem
              | None => component
              end in
  let stem := to_ascii_uppercase (trim_end_matches (ch " ") stem) in
  existsb (λ name, bool_decide (stem = lit name)) ["CON"; "PRN"; "AUX"; "NUL"]%string ||
  is_numbered_reserved stem (lit "COM") || is_numbered_reserved stem (lit "LPT").

Definition validate_portable_component (component : list Z) : result unit WindowsPathError :=
  if bool_decide (component = []) then Err EmptyComponent
  else match List.find (λ c, is_invalid_windows_character c || is_control c) component with
  | Some character => Err (InvalidCharacter component character)
  | None =>
      if ends_with component (lit " ") || ends_with component (lit ".")
      then Err (TrailingSpaceOrDot component)
      else if is_reserved_name component then Err (ReservedName component)
      else Ok ()
  end.

(** The loop over the components. *)
Fixpoint validate_components (path : PathBuf) (components : list Component) :
    result unit WindowsPathError :=
  match components with
  | [] => Ok ()
  | Normal name :: components =>
      let? _ := validate_portable_component name in validate_components path components
  | (CurDir | ParentDir | RootDir | Prefix _) :: _ => Err (NotPortable path)
  end.

Definition validate_portable_relative_path (path : PathBuf) : result unit WindowsPathError :=
  if bool_decide (path = []) then Err (NotPortable path)
  else validate_components path path.

Section preflight.
Context `{Unicode}.

(** What two names that Windows does not tell apart have in common. *)
Definition collision_name (name : list Z) : list Z := nfc name ≫= to_lowercase.

Definition collision_key (path : PathBuf) : list Z :=
  join [ch "/"] (omap (λ c, match c with
                            | Normal name => Some (collision_name name)
                            | _ => None
                            end) path).

(** The loop of [preflight_destination_paths]. *)
Fixpoint preflight_from (seen : gmap (list Z) PathBuf) (paths : list PathBuf) :
    result unit WindowsPathError :=
  match paths with
  | [] => Ok ()
  | path :: paths =>
      let? _ := validate_portable_relative_path path in
      let key := collision_key path in
      match seen !! key with
      | Some first => Err (Collision first path)
      | None => preflight_from (<[key := path]> seen) paths
      end
  end.

Definition preflight_destination_paths (paths : list PathBuf) : result unit WindowsPathError :=
  preflight_from ∅ paths.
End preflight.

(** Of the tables, what ASCII needs. *)
#[local] Instance ascii_tables : Unicode :=
  {| nfc name := name; to_lowercase c := to_ascii_lowercase [c] |}.

Example reserved_with_extension :
  validate_portable_relative_path [Normal (lit "CON.txt")] = Err (ReservedName (lit "CON.txt")).
Proof. vm_compute. reflexivity. Qed.
Example bad_character :
  validate_portable_relative_path [Normal (lit "bad:name.txt")] =
  Err (InvalidCharacter (lit "bad:name.txt") (ch ":")).
Proof. vm_compute. reflexivity. Qed.
Example trailing_dot :
  validate_portable_relative_path [Normal (lit "bad.")] = Err (TrailingSpaceOrDot (lit "bad.")).
Proof. vm_compute. reflexivity. Qed.
Example parent_escape :
  validate_portable_relative_path [ParentDir; Normal (lit "x")] =
  Err (NotPortable [ParentDir; Normal (lit "x")]).
Proof. vm_compute. reflexivity. Qed.
Example case_collision :
  preflight_destination_paths [[Normal (lit "dir"); Normal (lit "Foo.txt")];
                               [Normal (lit "dir"); Normal (lit "foo.txt")]] =
  Err (Collision [Normal (lit "dir"); Normal (lit "Foo.txt")]
                 [Normal (lit "dir"); Normal (lit "foo.txt")]).
Proof. vm_compute. reflexivity. Qed.

(** ** What a path that passes is *)

(** A name Windows can hold: neither special characters nor a device. *)
Definition windows_name (name : list Z) : Prop := validate_portable_component name = Ok ().

Lemma validate_components_ok path p :
  validate_components path p = Ok () ↔
  Forall (λ c, ∃ name, c = Normal name ∧ windows_name name) p.
Proof.
  induction p as [|c p IH]; [done|]. rewrite Forall_cons, <-IH. unfold windows_name.
  destruct c as [| | | |name]; cbn;
    try (split; [discriminate|]; by intros [(name & [=] & _) _]).
  destruct (validate_portable_component name) as [[]|e] eqn:Hc; cbn.
  - split; [|by intros [_ H]]. intros H. split; [by exists name|done].
  - split; [done|]. intros [(name' & [= <-] & Hok) _]. congruence.
Qed.

Lemma validate_path_ok p :
  validate_portable_relative_path p = Ok () ↔
  p ≠ [] ∧ Forall (λ c, ∃ name, c = Normal name ∧ windows_name name) p.
Proof.
  unfold validate_portable_relative_path. rewrite <-(validate_components_ok p).
  case_bool_decide; naive_solver.
Qed.

Lemma validate_path_portable p : validate_portable_relative_path p = Ok () → portable p.
Proof.
  rewrite validate_path_ok. intros [_ Hp]. unfold portable.
  eapply Forall_impl; [exact Hp|]. by intros c (name & -> & _).
Qed.

(** A name without separators and colons parses as it is. *)
Lemma plain_name_parses `{Platform} name :
  name ≠ [] → name ≠ lit "." → name ≠ lit ".." →
  ch "/" ∉ name → ch "\" ∉ name → ch ":" ∉ name → parse_path name = [Normal name].
Proof.
  intros Hne Hdot Hdots Hslash Hback Hcolon.
  assert (Hdrive : has_drive name = false).
  { unfold has_drive. destruct name as [|c [|d name]]; [by rewrite andb_false_r..|].
    destruct (Z.eqb_spec d (ch ":")) as [->|]; [set_solver|by rewrite !andb_false_r]. }
  unfold parse_path. rewrite Hdrive. unfold rooted_components.
  assert (Hsplit : split_by is_separator name = [name]).
  { clear -Hslash Hback. induction name as [|c name IH]; [done|].
    apply not_elem_of_cons in Hslash as [Hs Hslash], Hback as [Hb Hback]. cbn.
    unfold is_separator at 1. rewrite (proj2 (Z.eqb_neq c _)), (proj2 (Z.eqb_neq c (ch "\"))) by congruence.
    rewrite andb_false_r. cbn [orb]. by rewrite IH. }
  rewrite Hsplit. cbn. rewrite app_nil_r.
  rewrite bool_decide_eq_false_2 by done. cbn.
  rewrite bool_decide_eq_false_2 by done. unfold component.
  by rewrite !bool_decide_eq_false_2 by done.
Qed.

(** So does a name that passes. *)
Lemma windows_name_chars name c :
  windows_name name → c ∈ name → is_invalid_windows_character c = false.
Proof.
  unfold windows_name, validate_portable_component. case_bool_decide; [done|].
  destruct (List.find _ name) eqn:Hfind; [done|]. intros _ Hc%list_elem_of_In.
  pose proof (find_none _ _ Hfind c Hc) as Hno. by apply orb_false_iff in Hno as [-> _].
Qed.

Lemma windows_name_without name c :
  windows_name name → is_invalid_windows_character c = true → c ∉ name.
Proof. intros Hn Hc Hin. by rewrite (windows_name_chars name c Hn Hin) in Hc. Qed.

Lemma windows_name_plain `{Platform} name :
  windows_name name → parse_path name = [Normal name].
Proof.
  intros Hn. apply plain_name_parses; try (by apply (windows_name_without name)).
  all: intros ->; by vm_compute in Hn.
Qed.

(** ** Destinations that do not collide *)

Section collisions.
Context `{Unicode}.

Lemma preflight_from_ok seen paths :
  preflight_from seen paths = Ok () ↔
  Forall (λ p, validate_portable_relative_path p = Ok () ∧ seen !! collision_key p = None) paths ∧
  NoDup (collision_key <$> paths).
Proof.
  revert seen. induction paths as [|p paths IH]; intros seen; cbn.
  { split; [|done]. intros _. split; constructor. }
  rewrite Forall_cons, NoDup_cons.
  destruct (validate_portable_relative_path p) as [[]|e]; cbn;
    [|by split; [|intros [[[] _] _]]].
  destruct (seen !! collision_key p) as [first|] eqn:Hseen;
    [by split; [|intros [[[] _] _]]|].
  rewrite IH, !Forall_forall. setoid_rewrite lookup_insert_None. split.
  - intros [Hall Hdup]. split; [split; [done|]|split; [|done]].
    + intros q Hq. by destruct (Hall q Hq) as (Hok & Hfree & _).
    + intros (q & Hkey & Hq)%list_elem_of_fmap. by destruct (Hall q Hq) as (_ & _ & []).
  - intros ((_ & Hall) & Hnew & Hdup). split; [|done]. intros q Hq.
    destruct (Hall q Hq) as [Hok Hfree]. split_and!; [done..|].
    intros Hkey. apply Hnew. apply list_elem_of_fmap. eauto.
Qed.
End collisions.

(** The destinations of a transfer pass exactly when each is a non-empty relative
    path of names that Windows can hold, and no two of them have the same key: composed
    and in lower case.  So distinct destinations that pass are distinct files on a
    volume that tells names apart by that key, and none of them can leave the
    destination. *)
Theorem preflight_spec `{Unicode} (paths : list PathBuf) :
  preflight_destination_paths paths = Ok () ↔
  Forall (λ p, p ≠ [] ∧ Forall (λ c, ∃ name, c = Normal name ∧ windows_name name) p) paths ∧
  NoDup (collision_key <$> paths).
Proof.
  unfold preflight_destination_paths. rewrite preflight_from_ok, !Forall_forall.
  setoid_rewrite lookup_empty. setoid_rewrite validate_path_ok.
  split; intros [Hall Hdup]; (split; [|done]); intros p Hp; by destruct (Hall p Hp).
Qed.
