(* ===== verification/Metadata.v ===== *)
(** * File metadata: rsync-fs/src/metadata.rs

    The portable metadata of a file, the POSIX mode it stands for, and the report of
    what a transfer could not preserve.  A time is the integer of its nanoseconds. *)

From S2P Require Import Prelude Str FsPath.

Inductive FileType := File | Directory | Symlink | Hardlink | Device | Special | Other.

#[export] Instance FileType_eq_dec : EqDecision FileType.
Proof. solve_decision. Defined.

Record HardlinkId := { volume : Z; file_number : Z }.

#[export] Instance HardlinkId_eq_dec : EqDecision HardlinkId.
Proof. solve_decision. Defined.
#[export] Instance HardlinkId_countable : Countable HardlinkId.
Proof.
  refine (inj_countable' (λ i, (volume i, file_number i))
            (λ p, {| volume := p.1; file_number := p.2 |}) _).
  by intros [].
Defined.

Definition SystemTime : Type := Z.

Record PortableMetadata := {
  file_type : FileType;
  len : Z;
  modified : option SystemTime;
  mode : option Z;
  symlink_target : option PathBuf;
  hardlink_id : option HardlinkId;
  hardlink_count : option Z;
}.

#[export] Instance PortableMetadata_eq_dec : EqDecision PortableMetadata.
Proof. solve_decision. Defined.

Definition POSIX_TYPE_REGULAR : Z := 0x8000.
Definition POSIX_TYPE_DIRECTORY : Z := 0x4000.
Definition POSIX_TYPE_SYMLINK : Z := 0xA000.
Definition POSIX_FILE_DEFAULT_PERMS : Z := 0x1A4.
Definition POSIX_FILE_EXECUTABLE_PERMS : Z := 0x1ED.
Definition POSIX_DIRECTORY_DEFAULT_PERMS : Z := 0x1ED.
Definition POSIX_SYMLINK_DEFAULT_PERMS : Z := 0x1FF.

(** [Self { file_type, len, symlink_target, .. None }] *)
Definition bare_metadata (file_type : FileType) (len : Z) (target : option PathBuf) :
    PortableMetadata :=
  {| file_type := file_type; len := len; modified := None; mode := None;
     symlink_target := target; hardlink_id := None; hardlink_count := None |}.

Definition file_metadata (len : Z) : PortableMetadata := bare_metadata File len None.
Definition directory_metadata : PortableMetadata := bare_metadata Directory 0 None.
Definition symlink_metadata (target : PathBuf) : PortableMetadata :=
  bare_metadata Symlink 0 (Some target).
Definition device_metadata : PortableMetadata := bare_metadata Device 0 None.
Definition special_metadata : PortableMetadata := bare_metadata Special 0 None.

Definition with_modified (self : PortableMetadata) (time : SystemTime) : PortableMetadata :=
  {| file_type := file_type self; len := len self; modified := Some time; mode := mode self;
     symlink_target := symlink_target self; hardlink_id := hardlink_id self;
     hardlink_count := hardlink_count self |}.

Definition with_mode (self : PortableMetadata) (mode : Z) : PortableMetadata :=
  {| file_type := file_type self; len := len self; modified := modified self;
     mode := Some mode; symlink_target := symlink_target self;
     hardlink_id := hardlink_id self; hardlink_count := hardlink_count self |}.

(** Assignments to single fields. *)
Definition set_file_type (t : FileType) (self : PortableMetadata) : PortableMetadata :=
  {| file_type := t; len := len self; modified := modified self; mode := mode self;
     symlink_target := symlink_target self; hardlink_id := hardlink_id self;
     hardlink_count := hardlink_count self |}.
Definition set_len (n : Z) (self : PortableMetadata) : PortableMetadata :=
  {| file_type := file_type self; len := n; modified := modified self; mode := mode self;
     symlink_target := symlink_target self; hardlink_id := hardlink_id self;
     hardlink_count := hardlink_count self |}.
Definition set_symlink_target (t : option PathBuf) (self : PortableMetadata) :
    PortableMetadata :=
  {| file_type := file_type self; len := len self; modified := modified self;
     mode := mode self; symlink_target := t; hardlink_id := hardlink_id self;
     hardlink_count := hardlink_count self |}.
Definition set_hardlink (id : option HardlinkId) (count : option Z)
    (self : PortableMetadata) : PortableMetadata :=
  {| file_type := file_type self; len := len self; modified := modified self;
     mode := mode self; symlink_target := symlink_target self;
     hardlink_id := id; hardlink_count := count |}.

(** ** The mode a file is sent with *)

Definition posix_file_type_bits (file_type : FileType) : Z :=
  match file_type with
  | Directory => POSIX_TYPE_DIRECTORY
  | Symlink => POSIX_TYPE_SYMLINK
  | File | Hardlink | Device | Special | Other => POSIX_TYPE_REGULAR
  end.

Definition default_permissions (file_type : FileType) : Z :=
  match file_type with
  | Directory => POSIX_DIRECTORY_DEFAULT_PERMS
  | Symlink => POSIX_SYMLINK_DEFAULT_PERMS
  | File | Hardlink | Device | Special | Other => POSIX_FILE_DEFAULT_PERMS
  end.

Definition path_looks_executable (path : PathBuf) : bool :=
  match extension path with
  | Some extension =>
      bool_decide (to_ascii_lowercase extension ∈
        [lit "bat"; lit "cmd"; lit "com"; lit "exe"; lit "ps1"])
  | None => false
  end.

Definition posix_mode_for_path (self : PortableMetadata) (path : option PathBuf)
    (preserve_executability : bool) : Z :=
  let file_type_bits := posix_file_type_bits (file_type self) in
  let permissions := Z.land (default (default_permissions (file_type self)) (mode self))
                       0xFFF in
  let permissions :=
    if bool_decide (file_type self = File) && preserve_executability &&
       from_option path_looks_executable false path
    then Z.lor permissions 0x49 else permissions in
  Z.lor file_type_bits permissions.

(** ** What could not be preserved *)

Inductive MetadataFeature :=
  ModeFeature | Owner | Group | Acl | Xattr | DeviceFeature | SpecialFile | SymlinkFeature
| HardlinkFeature | CreationTime | WindowsAttributes.

Inductive MetadataAction := Applied | Degraded | Ignored | Rejected.

Record MetadataDegradation := {
  feature : MetadataFeature;
  degradation_action : MetadataAction;
  message : string;
}.

Definition is_loss (self : MetadataDegradation) : bool :=
  match degradation_action self with Applied => false | _ => true end.

(** A report is its degradations, in order. *)
Definition MetadataReport : Type := list MetadataDegradation.

Definition push_degradation (self : MetadataReport) (degradation : MetadataDegradation) :
    MetadataReport := self ++ [degradation].

Definition warn_loss (self : MetadataReport) (feature : MetadataFeature)
    (action : MetadataAction) (message : string) : MetadataReport :=
  push_degradation self {| feature := feature; degradation_action := action; message := message |}.

Definition has_loss (self : MetadataReport) : bool := existsb is_loss self.

(** The permissions never reach into the bits of the type. *)
Lemma posix_mode_type self path preserve :
  Z.land (posix_mode_for_path self path preserve) 0xF000 = posix_file_type_bits (file_type self).
Proof.
  unfold posix_mode_for_path. rewrite Z.land_lor_distr_l.
  set (perms := Z.land _ 0xFFF).
  assert (Hperms : Z.land perms 0xF000 = 0).
  { unfold perms. rewrite <-Z.land_assoc. change (Z.land 0xFFF 0xF000) with 0. apply Z.land_0_r. }
  case_match; rewrite ?Z.land_lor_distr_l, Hperms; by destruct (file_type self).
Qed.

Example tool_exe :
  posix_mode_for_path (file_metadata 12) (Some [Normal (lit "tool.EXE")]) true = 0x81ED.
Proof. vm_compute. reflexivity. Qed.
Example notes_txt :
  posix_mode_for_path (file_metadata 12) (Some [Normal (lit "notes.txt")]) true = 0x81A4.
Proof. vm_compute. reflexivity. Qed.
Example explicit_mode :
  posix_mode_for_path (with_mode (file_metadata 12) 0x180) (Some [Normal (lit "tool.exe")]) false
  = 0x8180.
Proof. vm_compute. reflexivity. Qed.
