(* ===== verification/StopAt.v ===== *)
(** * When a transfer stops: rsync-cli/src/plan/mod.rs and options/values.rs

    The limits --stop-after, --time-limit and --stop-at and the deadline made of them.
    The readings of the clocks are arguments, in nanoseconds: [now_system] since 1970,
    [now] since the origin of [Instant].  A time that a platform cannot represent is a
    panic of the addition.

    The calendar of the full form of --stop-at is shown to count days and not to overflow;
    the form with a clock time alone means its next occurrence; the deadline is the
    earliest of the limits, and the transfer stops at it. *)

From S2P Require Import Prelude Str Text FsPath Metadata.

Inductive StopError := StopMessage (message : string) | StopPanic (message : string).

Definition Instant : Type := Z.

(** Seconds in nanoseconds. *)
Definition from_secs (secs : Z) : Z := secs * 1000000000.

(** [UNIX_EPOCH + Duration::from_secs(secs)]: 64 bits of seconds, or on Windows of units
    of 100 nanoseconds since 1601. *)
Definition epoch_plus `{Platform} (secs : Z) : result SystemTime StopError :=
  if (if windows then 116444736000000000 + secs * 10000000 else secs) <=? i64_max
  then Ok (from_secs secs)
  else Err (StopPanic "overflow when adding duration to instant").

(** [now + duration] for an [Instant]: 64 bits of seconds, signed or on Windows not. *)
Definition instant_plus `{Platform} (now : Instant) (duration : Z) : result Instant StopError :=
  if (now + duration) / 1000000000 <=? (if windows then 2 ^ 64 - 1 else i64_max)
  then Ok (now + duration)
  else Err (StopPanic "overflow when adding duration to instant").

(** ** The calendar *)

(** [year % n == 0] of a signed integer truncates towards zero. *)
Definition is_leap_year (year : Z) : bool :=
  (Z.rem year 4 =? 0) && negb (Z.rem year 100 =? 0) || (Z.rem year 400 =? 0).

Definition days_in_month (year month : Z) : Z :=
  if bool_decide (month ∈ [1; 3; 5; 7; 8; 10; 12]) then 31
  else if bool_decide (month ∈ [4; 6; 9; 11]) then 30
  else if month =? 2 then if is_leap_year year then 29 else 28
  else 0.

Definition days_from_civil (year month day : Z) : result Z StopError :=
  if negb ((1 <=? month) && (month <=? 12)) then
    Err (StopMessage "--stop-at month is outside 1..12")
  else
    let max_day := days_in_month year month in
    if (day =? 0) || (max_day <? day) then
      Err (StopMessage "--stop-at day is outside the valid range for the month")
    else
      let y := year - (if month <=? 2 then 1 else 0) in
      let m := month in
      let d := day in
      let era := Z.quot (if 0 <=? y then y else y - 399) 400 in
      let yoe := y - era * 400 in
      let mp := m + (if 2 <? m then -3 else 9) in
      let doy := Z.quot (153 * mp + 2) 5 + d - 1 in
      let doe := yoe * 365 + Z.quot yoe 4 - Z.quot yoe 100 + doy in
      Ok (era * 146097 + doe - 719468).

(** ** Texts *)

(** [value.parse()] at a signed type between [min] and [max]. *)
Definition parse_signed (min max : Z) (s : list Z) : option Z :=
  match s with
  | c :: digits =>
      if c =? ch "-" then
        if bool_decide (digits ≠ []) && forallb is_ascii_digit digits then
          let n := - digits_value digits 0 in if min <=? n then Some n else None
        else None
      else parse_unsigned max s
  | [] => None
  end.

Definition u64_max : Z := 2 ^ 64 - 1.

Definition parse_stop_at_clock_seconds (value : list Z) : result Z StopError :=
  let parts := split_on (ch ":") value in
  if (length parts <? 2)%nat || (3 <? length parts)%nat then
    Err (StopMessage "--stop-at time must use HH:MM or HH:MM:SS")
  else
    let part i := default [] (parts !! i) in
    let? hour := ok_or (parse_unsigned u64_max (part 0%nat)) (StopMessage "--stop-at hour is not valid") in
    let? minute := ok_or (parse_unsigned u64_max (part 1%nat)) (StopMessage "--stop-at minute is not valid") in
    let? second :=
      if (length parts =? 3)%nat
      then ok_or (parse_unsigned u64_max (part 2%nat)) (StopMessage "--stop-at second is not valid")
      else Ok 0 in
    if (23 <? hour) || (59 <? minute) || (59 <? second) then
      Err (StopMessage "--stop-at time is outside the valid clock range")
    else Ok (hour * 3600 + minute * 60 + second).

(** [a.checked_mul(b)] and [a.checked_add(b)] for i64. *)
Definition checked_i64 (n : Z) : option Z :=
  if (- 2 ^ 63 <=? n) && (n <=? i64_max) then Some n else None.

(** The seconds since 1970 of a date and a time. *)
Definition stop_at_epoch_seconds (days seconds : Z) : result Z StopError :=
  let? epoch_seconds :=
    ok_or (checked_i64 (days * 86400) ≫= λ base, checked_i64 (base + seconds))
      (StopMessage "--stop-at timestamp exceeds the supported range") in
  if epoch_seconds <? 0 then Err (StopMessage "--stop-at dates before 1970 are not supported")
  else Ok epoch_seconds.

Definition parse_full_stop_at_utc `{Platform} (value : list Z) : result SystemTime StopError :=
  let? (date, time) := ok_or (split_once (ch "T") value)
                         (StopMessage "--stop-at full form must use y-m-dTh:m") in
  let date_parts := split_by (λ c, (c =? ch "-") || (c =? ch "/")) date in
  match date_parts with
  | [year; month; day] =>
      let? year := ok_or (parse_signed (- 2 ^ 31) (2 ^ 31 - 1) year)
                     (StopMessage "--stop-at year is not valid") in
      let? month := ok_or (parse_unsigned u32_max month) (StopMessage "--stop-at month is not valid") in
      let? day := ok_or (parse_unsigned u32_max day) (StopMessage "--stop-at day is not valid") in
      let? seconds := parse_stop_at_clock_seconds time in
      let? days := days_from_civil year month day in
      let? epoch_seconds := stop_at_epoch_seconds days seconds in
      epoch_plus epoch_seconds
  | _ => Err (StopMessage "--stop-at full date must use y-m-d")
  end.

(** [now.duration_since(UNIX_EPOCH)] in whole seconds. *)
Definition parse_clock_stop_at_utc `{Platform} (value : list Z) (now : SystemTime) :
    result SystemTime StopError :=
  let? target_seconds := parse_stop_at_clock_seconds value in
  if now <? 0 then Err (StopMessage "system clock is before the Unix epoch")
  else
    let now_seconds := now / 1000000000 in
    let day_start := now_seconds - now_seconds mod 86400 in
    let candidate := day_start + target_seconds in
    let candidate := if candidate <=? now_seconds then candidate + 86400 else candidate in
    epoch_plus candidate.

Definition stop_at_deadline `{Platform} (value : list Z) (now_system : SystemTime)
    (now : Instant) : result Instant StopError :=
  let? target :=
    if contains value (ch "T") then parse_full_stop_at_utc value
    else parse_clock_stop_at_utc value now_system in
  if target <? now_system then Err (StopMessage "--stop-at must resolve to a future time")
  else instant_plus now (target - now_system).

(** ** The deadline *)

Definition minutes_to_duration (minutes : Z) : option Z :=
  if minutes * 60 <=? u64_max then Some (from_secs (minutes * 60)) else None.

Definition remember_earliest_deadline (deadline : option Instant) (candidate : Instant) :
    option Instant :=
  match deadline with
  | Some existing => if candidate <? existing then Some candidate else deadline
  | None => Some candidate
  end.

Definition check_transfer_deadline (deadline : option Instant) (now : Instant) :
    result unit StopError :=
  match deadline with
  | Some deadline =>
      if deadline <=? now then Err (StopMessage "transfer stop deadline reached") else Ok ()
  | None => Ok ()
  end.

(** One limit in minutes: the deadline, and the errors reported. *)
Definition stop_after (now : Instant) `{Platform} (minutes : Z)
    (state : option Instant * list string) : result (option Instant * list string) StopError :=
  let '(deadline, report) := state in
  match minutes_to_duration minutes with
  | Some duration =>
      let? candidate := instant_plus now duration in
      Ok (remember_earliest_deadline deadline candidate, report)
  | None => Ok (deadline, report ++ ["E_STOP_LIMIT"%string])
  end.

Definition optional_stop_after `{Platform} (now : Instant) (minutes : option Z)
    (state : option Instant * list string) : result (option Instant * list string) StopError :=
  match minutes with Some minutes => stop_after now minutes state | None => Ok state end.

(** [stop_deadline_from_cli]: the deadline and the codes of the errors reported.  Only a
    panic is an error. *)
Definition stop_deadline `{Platform} (stop_after_minutes time_limit_minutes : option Z)
    (stop_at : option (list Z)) (now : Instant) (now_system : SystemTime) :
    result (option Instant * list string) StopError :=
  let? state := optional_stop_after now stop_after_minutes (None, []) in
  let? (deadline, report) := optional_stop_after now time_limit_minutes state in
  match stop_at with
  | None => Ok (deadline, report)
  | Some stop_at =>
      match stop_at_deadline stop_at now_system now with
      | Ok candidate => Ok (remember_earliest_deadline deadline candidate, report)
      | Err (StopMessage _) => Ok (deadline, report ++ ["E_STOP_AT"%string])
      | Err e => Err e
      end
  end.

(** ** What the command line accepts: [validate_stop_at_value] *)

Definition u8_max : Z := 255.

Definition validate_stop_at_time (value : list Z) : result unit StopError :=
  let parts := split_on (ch ":") value in
  if (length parts <? 2)%nat || (3 <? length parts)%nat then
    Err (StopMessage "--stop-at time must use HH:MM or HH:MM:SS")
  else
    let part i := default [] (parts !! i) in
    let? hour := ok_or (parse_unsigned u8_max (part 0%nat)) (StopMessage "--stop-at hour is not valid") in
    let? minute := ok_or (parse_unsigned u8_max (part 1%nat)) (StopMessage "--stop-at minute is not valid") in
    let? second :=
      if (length parts =? 3)%nat
      then ok_or (parse_unsigned u8_max (part 2%nat)) (StopMessage "--stop-at second is not valid")
      else Ok 0 in
    if (23 <? hour) || (59 <? minute) || (59 <? second) then
      Err (StopMessage "--stop-at time is outside the valid clock range")
    else Ok ().

Definition validate_stop_at_value (value : list Z) : result unit StopError :=
  let trimmed := trim value in
  if bool_decide (trimmed = []) then Err (StopMessage "--stop-at value cannot be empty")
  else
    let time := match rsplit_once (ch "T") trimmed with Some (_, time) => time | None => trimmed end in
    if contains time (ch ":") then validate_stop_at_time time else Ok ().

(** ** The closed form of the calendar *)


Lemma era_floor y : Z.quot (if 0 <=? y then y else y - 399) 400 = y / 400.
Proof. destruct (Z.leb_spec 0 y); Z.to_euclidean_division_equations; lia. Qed.

(** The days of the years before [y]. *)
Definition year_days (y : Z) : Z := 365 * y + y / 4 - y / 100 + y / 400.

(** The closed form over the years of March, floored. *)
Lemma days_from_civil_ok y m d :
  1 <= m <= 12 -> 1 <= d <= days_in_month y m ->
  days_from_civil y m d =
    Ok (year_days (y - (if m <=? 2 then 1 else 0))
        + (153 * (m + (if 2 <? m then -3 else 9)) + 2) / 5 + d - 719469).
Proof.
  unfold year_days. intros Hm Hd. unfold days_from_civil.
  replace ((1 <=? m) && (m <=? 12)) with true by lia. cbn [negb].
  replace ((d =? 0) || (days_in_month y m <? d)) with false by lia.
  cbv zeta. rewrite era_floor. f_equal.
  set (y' := y - _). destruct (Z.ltb_spec 2 m); Z.to_euclidean_division_equations; lia.
Qed.
Lemma is_leap_year_mod y :
  is_leap_year y = (y mod 4 =? 0) && negb (y mod 100 =? 0) || (y mod 400 =? 0).
Proof.
  unfold is_leap_year.
  assert (H : forall k, 0 < k -> (Z.rem y k =? 0) = (y mod k =? 0)).
  { intros k Hk. apply Bool.eq_iff_eq_true. rewrite !Z.eqb_eq.
    rewrite Z.rem_divide, Z.mod_divide by lia. done. }
  by rewrite !H.
Qed.
Lemma months m :
  1 <= m <= 12 ->
  m = 1 \/ m = 2 \/ m = 3 \/ m = 4 \/ m = 5 \/ m = 6 \/ m = 7 \/ m = 8 \/ m = 9 \/ m = 10
  \/ m = 11 \/ m = 12.
Proof. lia. Qed.

(** One goal for each month. *)
Ltac by_month H := apply months in H; destruct_or! H; subst; cbn; try done.

(** The lengths of the months as a table. *)
Lemma days_in_month_table y m :
  1 <= m <= 12 ->
  days_in_month y m =
    match m with
    | 2 => if is_leap_year y then 29 else 28
    | 4 | 6 | 9 | 11 => 30
    | _ => 31
    end.
Proof. intros H. by by_month H. Qed.

Lemma leap_february y : 
  year_days y = year_days (y - 1) + 365 + (if is_leap_year y then 1 else 0).
Proof. unfold year_days. rewrite is_leap_year_mod.
 destruct (Z.eqb_spec (y mod 4) 0), (Z.eqb_spec (y mod 100) 0), (Z.eqb_spec (y mod 400) 0); cbn;
 Z.to_euclidean_division_equations; lia.
Qed.

(** ** The calendar as a sequence of days *)

Definition date : Type := Z * Z * Z.

Definition valid_date (x : date) : Prop :=
  let '(y, m, d) := x in 1 <= m <= 12 /\ 1 <= d <= days_in_month y m.

Definition next_date (x : date) : date :=
  let '(y, m, d) := x in
  if d <? days_in_month y m then (y, m, d + 1)
  else if m <? 12 then (y, m + 1, 1) else (y + 1, 1, 1).

Definition calendar (n : nat) : date := Nat.iter n next_date (1970, 1, 1).

Definition days_of (x : date) : result Z StopError :=
  let '(y, m, d) := x in days_from_civil y m d.

Lemma days_in_month_range y m : 1 <= m <= 12 -> 28 <= days_in_month y m <= 31.
Proof. intros H. rewrite days_in_month_table by done. by_month H; try lia. destruct (is_leap_year y); lia. Qed.

Lemma next_date_valid x : valid_date x -> valid_date (next_date x).
Proof.
  destruct x as [[y m] d]; cbn. intros [Hm Hd].
  destruct (Z.ltb_spec d (days_in_month y m)); [cbn; lia|].
  destruct (Z.ltb_spec m 12); cbn; [|change (days_in_month _ 1) with 31; lia].
  pose proof (days_in_month_range y (m + 1)). lia.
Qed.

Lemma days_of_next x n : valid_date x -> days_of x = Ok n -> days_of (next_date x) = Ok (n + 1).
Proof.
  intros Hv H. pose proof (next_date_valid x Hv) as Hv'.
  destruct x as [[y m] d]; cbn [days_of next_date valid_date] in *. destruct Hv as [Hm Hd].
  rewrite days_from_civil_ok in H by done. injection H as H. rewrite <- H. clear H.
  destruct (Z.ltb_spec d (days_in_month y m)) as [Hlt|Hge].
  { cbn [days_of]. rewrite days_from_civil_ok by (split; lia). f_equal. lia. }
  assert (d = days_in_month y m) as -> by lia. clear Hd Hge.
  destruct (Z.ltb_spec m 12) as [Hlt|Hge].
  - cbn [days_of]. rewrite days_from_civil_ok by apply Hv'. clear Hv'. f_equal.
    pose proof (leap_february y). rewrite days_in_month_table by done.
    by_month Hm; repeat case_match; rewrite ?Z.sub_0_r; Z.to_euclidean_division_equations; lia.
  - assert (m = 12) as -> by lia. cbn [days_of]. rewrite days_from_civil_ok by apply Hv'.
    rewrite days_in_month_table by lia. f_equal. cbn.
    replace (y + 1 - 1) with y by lia. rewrite Z.sub_0_r. Z.to_euclidean_division_equations. lia.
Qed.

Lemma calendar_valid n : valid_date (calendar n).
Proof. induction n as [|n IH]; [by vm_compute|]. by apply next_date_valid. Qed.

Lemma days_of_calendar n : days_of (calendar n) = Ok (Z.of_nat n).
Proof.
  induction n as [|n IH]; [done|]. change (calendar (S n)) with (next_date (calendar n)).
  rewrite (days_of_next (calendar n) (Z.of_nat n)); [f_equal; lia|apply calendar_valid|done].
Qed.

Definition previous_date (x : date) : date :=
  let '(y, m, d) := x in
  if 1 <? d then (y, m, d - 1)
  else if 1 <? m then (y, m - 1, days_in_month y (m - 1)) else (y - 1, 12, 31).

Lemma previous_date_spec x :
  valid_date x -> valid_date (previous_date x) /\ next_date (previous_date x) = x.
Proof.
  destruct x as [[y m] d]; cbn [valid_date previous_date]. intros [Hm Hd].
  destruct (Z.ltb_spec 1 d).
  { cbn. replace (d - 1 <? days_in_month y m) with true by lia. split; [lia|]. f_equal; lia. }
  assert (d = 1) as -> by lia. destruct (Z.ltb_spec 1 m).
  - pose proof (days_in_month_range y (m - 1)). cbn. rewrite Z.ltb_irrefl.
    replace (m - 1 <? 12) with true by lia. split; [lia|]. do 2 f_equal. lia.
  - assert (m = 1) as -> by lia. split; [cbn; change (days_in_month _ 12) with 31; lia|]. cbn. do 2 f_equal. lia.
Qed.

Lemma days_of_positive x n : valid_date x -> days_of x = Ok n -> 0 <= n -> 
  x = (1970, 1, 1) \/ 0 < n.
Proof.
  destruct x as [[y m] d]. cbn [valid_date days_of]. intros [Hm Hd] H Hn.
  rewrite days_from_civil_ok in H by done. injection H as H.
  pose proof (days_in_month_range y m Hm).
  unfold year_days in H. destruct (Z.lt_total y 1970) as [?|[->|?]].
  - exfalso. by_month Hm; cbn in *; Z.to_euclidean_division_equations; lia.
  - destruct (decide (m = 1 /\ d = 1)) as [[-> ->]|]; [by left|right].
    by_month Hm; cbn in *; Z.to_euclidean_division_equations; lia.
  - right. by_month Hm; cbn in *; Z.to_euclidean_division_equations; lia.
Qed.

Lemma calendar_of_days n x : valid_date x -> days_of x = Ok (Z.of_nat n) -> x = calendar n.
Proof.
  revert x. induction n as [|n IH]; intros x Hv Hx.
  { destruct (days_of_positive x 0) as [->|]; auto with lia. }
  destruct (previous_date_spec x Hv) as [Hp Hn]. rewrite <- Hn in Hx. rewrite <- Hn.
  change (calendar (S n)) with (next_date (calendar n)). f_equal. apply IH; [done|].
  destruct (days_of (previous_date x)) as [k|] eqn:Hk.
  - rewrite (days_of_next _ k Hp Hk) in Hx. injection Hx as Hx. f_equal. lia.
  - destruct (previous_date x) as [[y m] d]. cbn in Hk, Hp. destruct Hp. by rewrite days_from_civil_ok in Hk.
Qed.

Lemma days_from_civil_valid y m d n :
  0 <= d -> days_from_civil y m d = Ok n -> valid_date (y, m, d).
Proof.
  intros Hd. unfold days_from_civil. cbn.
  destruct (Z.leb_spec 1 m), (Z.leb_spec m 12); cbn; try done.
  destruct (Z.eqb_spec d 0), (Z.ltb_spec (days_in_month y m) d); cbn; try done. lia.
Qed.

(** ** Clock times *)

Lemma parse_stop_at_clock_seconds_range value s :
  parse_stop_at_clock_seconds value = Ok s -> 0 <= s < 86400.
Proof.
  unfold parse_stop_at_clock_seconds. case_match; [done|]. cbv zeta.
  destruct (parse_unsigned u64_max (default [] (split_on (ch ":") value !! 0%nat))) as [h|] eqn:Hh;
    [|done].
  destruct (parse_unsigned u64_max (default [] (split_on (ch ":") value !! 1%nat))) as [m|] eqn:Hm;
    [|done].
  cbn [ok_or and_then]. intros Hs. apply and_then_Ok in Hs as (sec & Hsec & Hs).
  assert (0 <= sec) as Hsec'.
  { destruct (length (split_on (ch ":") value) =? 3)%nat; [|injection Hsec as <-; done].
    destruct (parse_unsigned u64_max (default [] (split_on (ch ":") value !! 2%nat))) as [x|] eqn:Hx;
      [|done]. apply parse_unsigned_range in Hx. injection Hsec as <-. lia. }
  apply parse_unsigned_range in Hh, Hm.
  destruct (Z.ltb_spec 23 h), (Z.ltb_spec 59 m), (Z.ltb_spec 59 sec); cbn in Hs; try done.
  injection Hs as <-. lia.
Qed.

(** Every date of the full form of --stop-at is counted without overflow: the number
    of its days stays far inside 64 bits, so that the checked multiplication and addition
    of the seconds never fail, and the only dates refused after the calendar accepted them
    are the ones before 1970. *)
Theorem stop_at_in_range y m d time days s :
  - 2 ^ 31 <= y < 2 ^ 31 -> 0 <= d ->
  days_from_civil y m d = Ok days -> parse_stop_at_clock_seconds time = Ok s ->
  Z.abs days <= 2 ^ 40
  /\ 0 <= s < 86400
  /\ stop_at_epoch_seconds days s =
      (if days <? 0 then Err (StopMessage "--stop-at dates before 1970 are not supported")
       else Ok (days * 86400 + s)).
Proof.
  intros Hy Hd Hn Hs. pose proof (days_from_civil_valid _ _ _ _ Hd Hn) as [Hm Hd'].
  apply parse_stop_at_clock_seconds_range in Hs.
  pose proof (days_in_month_range y m Hm).
  rewrite days_from_civil_ok in Hn by done. injection Hn as Hn. unfold year_days in Hn.
  assert (Hb : Z.abs days <= 2 ^ 40).
  { rewrite <- Hn. repeat case_match; Z.to_euclidean_division_equations; lia. }
  split_and!; try done; try lia. clear Hn. unfold stop_at_epoch_seconds, checked_i64.
  cbn [option_bind mbind].
  replace ((- 2 ^ 63 <=? days * 86400) && (days * 86400 <=? i64_max)) with true
    by (unfold i64_max; lia). cbn.
  replace ((- 2 ^ 63 <=? days * 86400 + s) && (days * 86400 + s <=? i64_max)) with true
    by (unfold i64_max; lia). cbn.
  destruct (Z.ltb_spec days 0); [replace (days * 86400 + s <? 0) with true by lia
                               |replace (days * 86400 + s <? 0) with false by lia]; done.
Qed.

(** C34. The calendar of the full form of --stop-at counts days: the dates accepted from
    1970 on are exactly the days of the calendar, in its order from the first of January
    1970, which is day 0. *)
Theorem days_from_civil_counts y m d n :
  0 <= d -> days_from_civil y m d = Ok (Z.of_nat n) <-> calendar n = (y, m, d).
Proof.
  intros Hd. split.
  - intros H. symmetry. apply calendar_of_days; [by eapply days_from_civil_valid|done].
  - intros H. pose proof (days_of_calendar n) as Hn. by rewrite H in Hn.
Qed.

(** The 29th of February 2024 is day 19782, at half past six in the morning. *)
Lemma stop_at_in_range_witness :
  days_from_civil 2024 2 29 = Ok 19782
  /\ stop_at_epoch_seconds 19782 23400 = Ok 1709188200.
Proof.
  split; [reflexivity|].
  eapply (stop_at_in_range 2024 2 29 (lit "06:30") 19782 23400); [lia|lia|reflexivity|reflexivity].
Defined.

Lemma days_from_civil_counts_witness : calendar 59 = (1970, 3, 1).
Proof. apply (days_from_civil_counts 1970 3 1 59); [lia|reflexivity]. Defined.

(** ** The next occurrence of a clock time *)

Lemma epoch_plus_ok `{Platform} secs t : epoch_plus secs = Ok t -> t = from_secs secs.
Proof. unfold epoch_plus. by destruct (_ <=? _); intros [= <-]. Qed.

(** A clock time of --stop-at is the first time after now, at most a day away, at which
    the clock shows it. *)
Theorem clock_stop_at_is_next `{Platform} value now t :
  parse_clock_stop_at_utc value now = Ok t ->
  exists clock,
    parse_stop_at_clock_seconds value = Ok clock
    /\ t mod 1000000000 = 0
    /\ (t / 1000000000) mod 86400 = clock
    /\ now < t <= now + from_secs 86400
    /\ forall u, now / 1000000000 < u -> u mod 86400 = clock -> t <= from_secs u.
Proof.
  unfold parse_clock_stop_at_utc. intros Hc. apply and_then_Ok in Hc as (clock & Hp & Hc).
  exists clock. split; [done|]. pose proof (parse_stop_at_clock_seconds_range _ _ Hp) as Hr.
  destruct (Z.ltb_spec now 0); [done|]. apply epoch_plus_ok in Hc. subst t. unfold from_secs.
  rewrite Z.mod_mul, Z.div_mul by done. cbv zeta.
  set (s := now / 1000000000). assert (Hs : s = now / 1000000000) by done. clearbody s.
  destruct (Z.leb_spec (s - s mod 86400 + clock) s);
    (split_and!; [done| | | |intros u]; Z.to_euclidean_division_equations; lia).
Qed.

(** ** The deadline *)

Definition limit_of (now : Instant) (minutes : option Z) : list Instant :=
  match minutes ≫= minutes_to_duration with Some d => [now + d] | None => [] end.

(** The candidates that the limits give, in order. *)
Definition limits `{Platform} (stop_after_minutes time_limit_minutes : option Z)
    (stop_at : option (list Z)) (now : Instant) (now_system : SystemTime) : list Instant :=
  limit_of now stop_after_minutes ++ limit_of now time_limit_minutes
  ++ match stop_at with
     | Some value =>
         match stop_at_deadline value now_system now with Ok t => [t] | Err _ => [] end
     | None => []
     end.

Definition earliest (ts : list Instant) : option Instant :=
  foldl remember_earliest_deadline None ts.

Lemma remember_earliest_spec d c :
  remember_earliest_deadline d c = Some (match d with Some t => Z.min t c | None => c end).
Proof. destruct d as [t|]; cbn; [|done]. destruct (Z.ltb_spec c t); f_equal; lia. Qed.

Lemma foldl_earliest ts d :
  foldl remember_earliest_deadline (Some d) ts = Some (foldr Z.min d ts).
Proof.
  revert d. induction ts as [|t ts IH]; intros d; [done|]. cbn [foldl foldr].
  rewrite remember_earliest_spec, IH. f_equal. clear.
  induction ts as [|u ts IH]; cbn; lia.
Qed.

Lemma earliest_spec ts d :
  earliest ts = Some d <-> d ∈ ts /\ Forall (λ t, d <= t) ts.
Proof.
  unfold earliest. destruct ts as [|t ts]; cbn [foldl].
  { split; [done|]. intros [H _]. by apply elem_of_nil in H. } rewrite remember_earliest_spec, foldl_earliest.
  assert (Hin : foldr Z.min t ts ∈ t :: ts).
  { induction ts as [|u ts IH]; cbn; [set_solver|].
    destruct (Z.min_spec u (foldr Z.min t ts)) as [[_ ->]|[_ ->]]; set_solver. }
  assert (Hle : Forall (λ u, foldr Z.min t ts <= u) (t :: ts)).
  { clear Hin. induction ts as [|u ts IH]; cbn; [by repeat constructor|].
    apply Forall_cons in IH as [Ht IH]. cbn in Ht. repeat constructor; try lia.
    eapply Forall_impl; [done|]. intros; cbn in *; lia. }
  split.
  - intros [= <-]. by split.
  - intros [Hd Hall]. f_equal. rewrite Forall_forall in Hle, Hall. specialize (Hle d Hd).
    specialize (Hall _ Hin). lia.
Qed.

Definition too_long (minutes : option Z) : bool :=
  match minutes with Some m => u64_max <? m * 60 | None => false end.

Lemma optional_stop_after_spec `{Platform} now minutes deadline report state :
  optional_stop_after now minutes (deadline, report) = Ok state ->
  state = (foldl remember_earliest_deadline deadline (limit_of now minutes),
           report ++ if too_long minutes then ["E_STOP_LIMIT"%string] else []).
Proof.
  destruct minutes as [m|]; cbn.
  2: { intros [= <-]. by rewrite app_nil_r. }
  unfold limit_of, stop_after. cbn. unfold minutes_to_duration.
  destruct (Z.leb_spec (m * 60) u64_max) as [Hm|Hm]; intros Hs.
  - apply and_then_Ok in Hs as (c & Hc & Hs). injection Hs as <-.
    replace (u64_max <? m * 60) with false by lia. rewrite app_nil_r. cbn.
    unfold instant_plus in Hc. destruct (_ <=? _) in Hc; [|done]. by injection Hc as <-.
  - injection Hs as <-. by replace (u64_max <? m * 60) with true by lia.
Qed.

(** What is reported: the limits that are too long, and a refused --stop-at. *)
Definition stop_report `{Platform} (stop_after_minutes time_limit_minutes : option Z)
    (stop_at : option (list Z)) (now : Instant) (now_system : SystemTime) : list string :=
  (if too_long stop_after_minutes then ["E_STOP_LIMIT"%string] else [])
  ++ (if too_long time_limit_minutes then ["E_STOP_LIMIT"%string] else [])
  ++ match stop_at with
     | Some value =>
         if is_ok (stop_at_deadline value now_system now) then [] else ["E_STOP_AT"%string]
     | None => []
     end.

Lemma stop_deadline_spec `{Platform} stop_after_minutes time_limit_minutes stop_at
    now now_system deadline report :
  stop_deadline stop_after_minutes time_limit_minutes stop_at now now_system
    = Ok (deadline, report) ->
  deadline = earliest (limits stop_after_minutes time_limit_minutes stop_at now now_system)
  /\ report = stop_report stop_after_minutes time_limit_minutes stop_at now now_system.
Proof.
  unfold stop_deadline. intros Hs.
  apply and_then_Ok in Hs as (state & H1 & Hs). apply optional_stop_after_spec in H1 as ->.
  apply and_then_Ok in Hs as ([d r] & H2 & Hs). apply optional_stop_after_spec in H2.
  injection H2 as -> ->. unfold earliest, limits, stop_report. rewrite !foldl_app.
  destruct stop_at as [value|]; [|injection Hs as <- <-; by rewrite !app_nil_r].
  destruct (stop_at_deadline value now_system now) as [t|[e|e]]; [| |done];
    injection Hs as <- <-; cbn; by rewrite ?app_nil_r, <- ?app_assoc.
Qed.

(** The deadline is the earliest of the limits given, as long as no addition panics: a
    limit in minutes too large for 64 bits of seconds and a time that --stop-at refuses
    are reported and do not count.  The transfer stops as soon as one of the limits has
    passed, and not before. *)
Theorem transfer_stops_at_limits `{Platform} stop_after_minutes time_limit_minutes stop_at
    now now_system deadline report t :
  stop_deadline stop_after_minutes time_limit_minutes stop_at now now_system
    = Ok (deadline, report) ->
  report = stop_report stop_after_minutes time_limit_minutes stop_at now now_system
  /\ (check_transfer_deadline deadline t = Ok ()
      <-> Forall (λ limit, t < limit)
            (limits stop_after_minutes time_limit_minutes stop_at now now_system)).
Proof.
  intros Hs. apply stop_deadline_spec in Hs as [Hd ->]. split; [done|].
  destruct deadline as [d|]; cbn.
  - symmetry in Hd. apply earliest_spec in Hd as [Hin Hall]. rewrite Forall_forall in Hall.
    rewrite Forall_forall. destruct (Z.leb_spec d t); (split; [|done || idtac]); try done.
    + intros Hlt. specialize (Hlt d Hin). lia.
    + intros _ u Hu. specialize (Hall u Hu). cbn in Hall. lia.
  - split; [|done]. destruct (limits _ _ _ _ _) as [|u us]; [done|].
    unfold earliest in Hd. cbn [foldl] in Hd. by rewrite remember_earliest_spec, foldl_earliest in Hd.
Qed.

(** ** Concrete inputs *)

Section Examples.
#[local] Instance unix : Platform := false.

(** On the first of January 2024, at noon. *)
Definition noon : Z := from_secs 1704110400.

(** An hour and a half from the clock's five in the morning, and the earlier of two
    limits in minutes. *)
Example stop_at_next_morning :
  parse_clock_stop_at_utc (lit "05:00") noon = Ok (from_secs 1704171600).
Proof. reflexivity. Qed.

Example deadline_of_three :
  stop_deadline (Some 90) (Some 60) (Some (lit "2024-1-1T12:30")) 0 noon
    = Ok (Some (from_secs 1800), []).
Proof. reflexivity. Qed.

(** A limit whose seconds overflow 64 bits is reported; one that only the clock cannot
    represent is a panic. *)
Example limit_reported :
  stop_deadline (Some (2 ^ 63)) None None 0 noon = Ok (None, ["E_STOP_LIMIT"%string]).
Proof. reflexivity. Qed.

Example limit_panics :
  stop_deadline (Some (2 ^ 58)) None None 0 noon
    = Err (StopPanic "overflow when adding duration to instant").
Proof. reflexivity. Qed.

(** The command line accepts a date without a clock time, which no transfer can use. *)
Example stop_at_validated_too_late :
  validate_stop_at_value (lit "2024-1-1") = Ok ()
  /\ stop_deadline None None (Some (lit "2024-1-1")) 0 noon = Ok (None, ["E_STOP_AT"%string]).
Proof. split; reflexivity. Qed.
End Examples.

(** The year 100000 is a date --stop-at accepts and Windows cannot represent. *)
Example far_year_panics :
  parse_full_stop_at_utc (H := true) (lit "100000-01-01T00:00")
    = Err (StopPanic "overflow when adding duration to instant").
Proof. reflexivity. Qed.
