(* ===== verification/FileSystem.v ===== *)
(** * The file-system interface: rsync-fs/src/walk.rs, [PortableFileSystem]

    The trait is a class over the type of file systems: its reading methods are
    functions of the file system, its changing ones run in the monad over it.  The
    default methods are definitions over the methods they call, for the instances that
    keep them. *)

From stdpp Require Import sorting.
From S2P Require Import Prelude Str FsPath Metadata.

Inductive FileWriteMode := Atomic | InPlace.

#[export] Instance FileWriteMode_eq_dec : EqDecision FileWriteMode.
Proof. solve_decision. Defined.

Record FileWriteOptions := {
  write_mode : FileWriteMode;
  write_keep_partial : bool;
  write_partial_dir : option PathBuf;
  write_temp_dir : option PathBuf;
  write_fsync : bool;
  write_sparse : bool;
  write_preallocate : bool;
  write_bwlimit : option Z;
  write_max_alloc : option Z;
  write_stop_deadline : option Z;
}.

Definition FileWriteOptions_default : FileWriteOptions :=
  {| write_mode := Atomic; write_keep_partial := false; write_partial_dir := None;
     write_temp_dir := None; write_fsync := false; write_sparse := false;
     write_preallocate := false; write_bwlimit := None; write_max_alloc := None;
     write_stop_deadline := None |}.

(** Of an [io::Error], whether its kind is [NotFound]. *)
Inductive FsError :=
| Io (not_found : bool)
| InvalidPortablePath (path : PathBuf)
| NotFound (path : PathBuf)
| NotDirectory (path : PathBuf)
| DestinationInsideSource
| DestinationPathPreflight (message : string)
| MaxDeleteExceeded (limit : Z)
| Unsupported (what : string).

#[export] Instance FsError_eq_dec : EqDecision FsError.
Proof. solve_decision. Defined.

(** What a recursion that has run out of fuel answers; the code does not end then. *)
Definition out_of_fuel : FsError := Unsupported "out of fuel".

Record WalkEntry := { entry_path : PathBuf; entry_metadata : PortableMetadata }.

#[export] Instance WalkEntry_eq_dec : EqDecision WalkEntry.
Proof. solve_decision. Defined.

Class PortableFileSystem (F : Type) := {
  metadata : F → PathBuf → result PortableMetadata FsError;
  metadata_follow : F → PathBuf → result PortableMetadata FsError;
  resolve_path_for_prefix_check : F → PathBuf → result PathBuf FsError;
  same_file_system : F → PathBuf → PathBuf → result bool FsError;
  read_file : F → PathBuf → result (list Z) FsError;
  write_file_atomic : PathBuf → list Z → M F FsError unit;
  write_file_direct : PathBuf → list Z → M F FsError unit;
  write_file_with_options : PathBuf → list Z → FileWriteOptions → M F FsError unit;
  append_file : PathBuf → list Z → M F FsError unit;
  copy_file_with_options : PathBuf → PathBuf → FileWriteOptions → M F FsError Z;
  rename_file : PathBuf → PathBuf → M F FsError unit;
  append_file_from : PathBuf → PathBuf → Z → M F FsError Z;
  files_equal : F → PathBuf → PathBuf → result bool FsError;
  file_prefix_matches : F → PathBuf → PathBuf → result bool FsError;
  create_symlink : PathBuf → PathBuf → FileType → M F FsError unit;
  create_hard_link : PathBuf → PathBuf → M F FsError unit;
  create_dir_all : PathBuf → M F FsError unit;
  remove_file : PathBuf → M F FsError unit;
  remove_dir_all : PathBuf → M F FsError unit;
  list_dir : F → PathBuf → result (list WalkEntry) FsError;
  set_mtime : PathBuf → SystemTime → M F FsError unit;
}.

(** [fs.exists(path)], which no implementation overrides. *)
Definition path_exists {F} `{PortableFileSystem F} (fs : F) (path : PathBuf) : bool :=
  is_ok (metadata fs path).

(** ** The default methods *)

Section defaults.
Context {F : Type}.
Variable metadata_of : F → PathBuf → result PortableMetadata FsError.
Variable read : F → PathBuf → result (list Z) FsError.
Variables write_atomic write_direct : PathBuf → list Z → M F FsError unit.
Variable append : PathBuf → list Z → M F FsError unit.
Variable write_with_options : PathBuf → list Z → FileWriteOptions → M F FsError unit.

(** A method of [&self] in the monad. *)
Definition ask {A} (f : F → result A FsError) : M F FsError A := λ fs, (f fs, fs).

Definition default_same_file_system (_ : F) (_ _ : PathBuf) : result bool FsError := Ok true.

Definition default_write_file_with_options (path : PathBuf) (bytes : list Z)
    (options : FileWriteOptions) : M F FsError unit :=
  match write_mode options with
  | Atomic => write_atomic path bytes
  | InPlace => write_direct path bytes
  end.

Definition default_copy_file_with_options (source dest : PathBuf)
    (options : FileWriteOptions) : M F FsError Z :=
  bytes ← ask (λ fs, read fs source);
  write_with_options dest bytes options;;
  mret (Z.of_nat (length bytes)).

Definition default_append_file_from (path source : PathBuf) (offset : Z) : M F FsError Z :=
  bytes ← ask (λ fs, read fs source);
  match checked_usize offset with
  | None => throw (Unsupported "file offset exceeds memory address size")
  | Some offset =>
      if Z.of_nat (length bytes) <? offset
      then throw (Unsupported "append offset exceeds source file length")
      else
        let suffix := drop (Z.to_nat offset) bytes in
        append path suffix;;
        mret (Z.of_nat (length suffix))
  end.

Definition default_files_equal (fs : F) (left right : PathBuf) : result bool FsError :=
  let? left_metadata := metadata_of fs left in
  let? right_metadata := metadata_of fs right in
  if negb (len left_metadata =? len right_metadata) then Ok false
  else
    let? left_bytes := read fs left in
    let? right_bytes := read fs right in
    Ok (bool_decide (left_bytes = right_bytes)).

Definition default_file_prefix_matches (fs : F) (path prefix : PathBuf) :
    result bool FsError :=
  let? path_bytes := read fs path in
  let? prefix_bytes := read fs prefix in
  Ok (starts_with path_bytes prefix_bytes).
End defaults.

(** ** Normalised paths *)

(** The loop of [normalize_portable_path]. *)
Fixpoint normal_components (path : PathBuf) (components : list Component) (out : PathBuf) :
    result PathBuf FsError :=
  match components with
  | [] => Ok out
  | CurDir :: components => normal_components path components out
  | Normal name :: components => normal_components path components (out ++ [Normal name])
  | (ParentDir | RootDir | Prefix _) :: _ => Err (InvalidPortablePath path)
  end.

Definition normalize_portable_path (path : PathBuf) : result PathBuf FsError :=
  normal_components path path [].

Lemma normal_components_portable path p out :
  portable p → normal_components path p out = Ok (out ++ p).
Proof.
  intros Hp. revert out. induction Hp as [|c p Hc Hp IH]; intros out; cbn.
  { by rewrite app_nil_r. }
  destruct c; try done. by rewrite IH, <-app_assoc.
Qed.

Lemma normal_components_ok path p out q :
  portable out → normal_components path p out = Ok q → portable q.
Proof.
  revert out. induction p as [|c p IH]; intros out Hout; cbn; [by intros [= <-]|].
  destruct c; try done; eauto with portable.
Qed.

Lemma normalize_portable p : portable p → normalize_portable_path p = Ok p.
Proof. intros Hp. unfold normalize_portable_path. by rewrite normal_components_portable. Qed.

Lemma normalize_ok_portable p q : normalize_portable_path p = Ok q → portable q.
Proof. apply normal_components_ok. constructor. Qed.

(** ** Walking a tree

    The fuel bounds the depth of the recursion. *)

Section walk.
Context {F : Type} `{PortableFileSystem F}.

(** The loop over the entries of a directory. *)
Fixpoint walk_entries (walk : PathBuf → list WalkEntry → result (list WalkEntry) FsError)
    (listed entries : list WalkEntry) : result (list WalkEntry) FsError :=
  match listed with
  | [] => Ok entries
  | entry :: listed =>
      let is_dir := bool_decide (file_type (entry_metadata entry) = Directory) in
      let entries := entries ++ [entry] in
      if is_dir then
        let? entries := walk (entry_path entry) entries in
        walk_entries walk listed entries
      else walk_entries walk listed entries
  end.

Fixpoint walk_tree_inner (fuel : nat) (fs : F) (root : PathBuf) (entries : list WalkEntry) :
    result (list WalkEntry) FsError :=
  match fuel with
  | O => Err out_of_fuel
  | S fuel =>
      let? listed := list_dir fs root in
      walk_entries (walk_tree_inner fuel fs) listed entries
  end.

Definition entry_le (x y : WalkEntry) : Prop := path_le (entry_path x) (entry_path y).

#[export] Instance entry_le_dec x y : Decision (entry_le x y).
Proof. unfold entry_le. apply _. Defined.

Definition walk_tree (fuel : nat) (fs : F) (root : PathBuf) : result (list WalkEntry) FsError :=
  let? entries := walk_tree_inner fuel fs root [] in
  Ok (merge_sort entry_le entries).
End walk.
