(* ===== verification/MemoryFs.v ===== *)
(** * The file system in memory: rsync-fs/src/walk.rs, [MemoryFileSystem]

    Nodes by their normalised path.  Where the code recurses along symbolic links
    without a limit, the fuel is the number of nodes: a longer chain has a cycle. *)

From S2P Require Import Prelude Str FsPath Metadata FileSystem.

Record MemoryNode := { node_metadata : PortableMetadata; node_bytes : list Z }.

#[export] Instance MemoryNode_eq_dec : EqDecision MemoryNode.
Proof. solve_decision. Defined.

Record MemoryFileSystem := {
  nodes : gmap PathBuf MemoryNode;
  next_hardlink_file : Z;
}.

#[export] Instance MemoryFileSystem_eq_dec : EqDecision MemoryFileSystem.
Proof. solve_decision. Defined.

Definition directory_node : MemoryNode :=
  {| node_metadata := directory_metadata; node_bytes := [] |}.
Definition file_node (bytes : list Z) : MemoryNode :=
  {| node_metadata := file_metadata (Z.of_nat (length bytes)); node_bytes := bytes |}.
Definition symlink_node (target : PathBuf) : MemoryNode :=
  {| node_metadata := symlink_metadata target; node_bytes := [] |}.

Definition node_type (node : MemoryNode) : FileType := file_type (node_metadata node).

Definition MemoryFileSystem_default : MemoryFileSystem :=
  {| nodes := {[ [] := directory_node ]}; next_hardlink_file := 1 |}.

Definition set_nodes (ns : gmap PathBuf MemoryNode) (fs : MemoryFileSystem) :
    MemoryFileSystem :=
  {| nodes := ns; next_hardlink_file := next_hardlink_file fs |}.

(** A change of the map of nodes. *)
Definition modify_nodes (f : gmap PathBuf MemoryNode → gmap PathBuf MemoryNode) :
    M MemoryFileSystem FsError unit :=
  λ fs, (Ok tt, set_nodes (f (nodes fs)) fs).

(** [self.nodes.insert(path, node)] *)
Definition insert_node (path : PathBuf) (node : MemoryNode) : M MemoryFileSystem FsError unit :=
  modify_nodes (insert path node).

(** [self.nodes.entry(path).or_insert_with(..)] *)
Definition or_insert {V} (path : PathBuf) (v : V) (m : gmap PathBuf V) : gmap PathBuf V :=
  match m !! path with Some _ => m | None => <[path := v]> m end.

(** ** Symbolic links *)

(** [normalize_memory_resolved_path] *)
Fixpoint resolved_components (path : PathBuf) (components : list Component) (out : PathBuf) :
    result PathBuf FsError :=
  match components with
  | [] => Ok out
  | CurDir :: components => resolved_components path components out
  | Normal name :: components => resolved_components path components (out ++ [Normal name])
  | ParentDir :: components =>
      match parent out with
      | Some out => resolved_components path components out
      | None => Err (InvalidPortablePath path)
      end
  | (RootDir | Prefix _) :: _ => Err (InvalidPortablePath path)
  end.

Definition normalize_memory_resolved_path (path : PathBuf) : result PathBuf FsError :=
  resolved_components path path [].

Section memory.
Context `{Platform}.

Definition resolve_memory_symlink_target (link_path : PathBuf) (metadata : PortableMetadata) :
    result PathBuf FsError :=
  let? target := ok_or (symlink_target metadata) (InvalidPortablePath link_path) in
  let resolved :=
    if is_absolute target then target
    else match parent link_path with Some parent => path_join parent target | None => target end in
  normalize_memory_resolved_path resolved.

(** [for rest in components { target.push(name) }] *)
Fixpoint push_rest (path target : PathBuf) (rest : list Component) : result PathBuf FsError :=
  match rest with
  | [] => Ok target
  | Normal name :: rest => push_rest path (target ++ [Normal name]) rest
  | _ :: _ => Err (InvalidPortablePath path)
  end.

(** The loop of [resolve_memory_path_prefix_at]; [retry] is its call of itself. *)
Fixpoint resolve_components (retry : option (PathBuf → result PathBuf FsError))
    (nodes : gmap PathBuf MemoryNode) (path resolved : PathBuf) (components : list Component) :
    result PathBuf FsError :=
  match components with
  | [] => Ok resolved
  | Normal name :: components =>
      let resolved := resolved ++ [Normal name] in
      match nodes !! resolved with
      | Some node =>
          if bool_decide (node_type node = Symlink) then
            match retry with
            | None => Err (Unsupported "too many nested memory symlinks")
            | Some retry =>
                let? target := resolve_memory_symlink_target resolved (node_metadata node) in
                let? target := push_rest path target components in
                retry target
            end
          else resolve_components retry nodes path resolved components
      | None => resolve_components retry nodes path resolved components
      end
  | _ :: _ => Err (InvalidPortablePath path)
  end.

Fixpoint resolve_memory_path_prefix_at (nodes : gmap PathBuf MemoryNode)
    (remaining_limit : nat) (path : PathBuf) : result PathBuf FsError :=
  resolve_components
    match remaining_limit with
    | O => None
    | S limit => Some (resolve_memory_path_prefix_at nodes limit)
    end nodes path [] path.

Definition resolve_memory_path_prefix (nodes : gmap PathBuf MemoryNode) (path : PathBuf) :
    result PathBuf FsError :=
  resolve_memory_path_prefix_at nodes 32 path.

Definition resolve_write_path (fs : MemoryFileSystem) (path : PathBuf) :
    result PathBuf FsError :=
  let? path := normalize_portable_path path in
  resolve_memory_path_prefix (nodes fs) path.

(** ** Reading *)

Definition memory_metadata (fs : MemoryFileSystem) (path : PathBuf) :
    result PortableMetadata FsError :=
  let? path := normalize_portable_path path in
  ok_or (node_metadata <$> nodes fs !! path) (NotFound path).

Definition memory_metadata_follow (fs : MemoryFileSystem) (path : PathBuf) :
    result PortableMetadata FsError :=
  let? path := normalize_portable_path path in
  let? node := ok_or (nodes fs !! path) (NotFound path) in
  if bool_decide (node_type node ≠ Symlink) then Ok (node_metadata node)
  else
    let? target := resolve_memory_symlink_target path (node_metadata node) in
    memory_metadata fs target.

Definition memory_resolve_path_for_prefix_check (_ : MemoryFileSystem) (path : PathBuf) :
    result PathBuf FsError :=
  normalize_portable_path path.

Fixpoint memory_read_file_fuel (fuel : nat) (fs : MemoryFileSystem) (path : PathBuf) :
    result (list Z) FsError :=
  match fuel with
  | O => Err out_of_fuel
  | S fuel =>
      let? path := normalize_portable_path path in
      let? node := ok_or (nodes fs !! path) (NotFound path) in
      if bool_decide (node_type node = Symlink) then
        let? target := resolve_memory_symlink_target path (node_metadata node) in
        memory_read_file_fuel fuel fs target
      else if bool_decide (node_type node ≠ File)
      then Err (Unsupported "reading non-file memory nodes")
      else Ok (node_bytes node)
  end.

Definition memory_read_file (fs : MemoryFileSystem) (path : PathBuf) :
    result (list Z) FsError :=
  memory_read_file_fuel (S (size (nodes fs))) fs path.

(** [metadata] of the path itself is asked first. *)
Definition memory_list (fs : MemoryFileSystem) (path : PathBuf) :
    result (list WalkEntry) FsError :=
  let? path := normalize_portable_path path in
  let? metadata := memory_metadata fs path in
  if bool_decide (file_type metadata ≠ Directory) then Err (NotDirectory path)
  else
    Ok (omap (λ kv : PathBuf * MemoryNode,
          let '(candidate, node) := kv in
          if bool_decide (candidate = []) || bool_decide (candidate = path) then None
          else if bool_decide (default [] (parent candidate) = path)
          then Some {| entry_path := candidate; entry_metadata := node_metadata node |}
          else None) (btree_iter (nodes fs))).

(** ** Changing *)

(** The loop of [create_dir_all]. *)
Fixpoint make_dirs (current : PathBuf) (components : list Component)
    (m : gmap PathBuf MemoryNode) : gmap PathBuf MemoryNode :=
  match components with
  | [] => m
  | Normal name :: components =>
      let current := current ++ [Normal name] in
      make_dirs current components (or_insert current directory_node m)
  | _ :: components => make_dirs current components m
  end.

Definition memory_create_dir_all (path : PathBuf) : M MemoryFileSystem FsError unit :=
  path ← ask (λ fs, resolve_write_path fs path);
  modify_nodes (λ m, make_dirs [] path (or_insert [] directory_node m)).

(** [if let Some(parent) = path.parent() { self.create_dir_all(parent)? }] *)
Definition create_parent (path : PathBuf) : M MemoryFileSystem FsError unit :=
  match parent path with
  | Some parent => memory_create_dir_all parent
  | None => mret ()
  end.

Definition memory_write_file_atomic (path : PathBuf) (bytes : list Z) :
    M MemoryFileSystem FsError unit :=
  path ← ask (λ fs, resolve_write_path fs path);
  create_parent path;;
  insert_node path (file_node bytes).

Definition memory_write_file_with_options :=
  default_write_file_with_options memory_write_file_atomic memory_write_file_atomic.

Definition memory_append_file (path : PathBuf) (bytes : list Z) :
    M MemoryFileSystem FsError unit :=
  path ← ask (λ fs, resolve_write_path fs path);
  node ← ask (λ fs, ok_or (nodes fs !! path) (NotFound path));
  if bool_decide (node_type node ≠ File)
  then throw (Unsupported "append_file on non-file memory nodes")
  else
    let bytes := node_bytes node ++ bytes in
    insert_node path {| node_metadata := set_len (Z.of_nat (length bytes)) (node_metadata node);
                        node_bytes := bytes |}.

Definition memory_rename_file (source dest : PathBuf) : M MemoryFileSystem FsError unit :=
  source ← ask (λ _, normalize_portable_path source);
  dest ← ask (λ fs, resolve_write_path fs dest);
  create_parent dest;;
  node ← ask (λ fs, ok_or (nodes fs !! source) (NotFound source));
  modify_nodes (delete source);;
  insert_node dest node.

Definition memory_create_symlink (path target : PathBuf) (_ : FileType) :
    M MemoryFileSystem FsError unit :=
  path ← ask (λ _, normalize_portable_path path);
  create_parent path;;
  insert_node path (symlink_node target).

Definition with_hardlink (id : HardlinkId) (count : Z) (node : MemoryNode) : MemoryNode :=
  {| node_metadata := set_hardlink (Some id) (Some count) (node_metadata node);
     node_bytes := node_bytes node |}.

Definition ensure_hardlink_id (path : PathBuf) : M MemoryFileSystem FsError HardlinkId :=
  existing ← ask (λ fs, ok_or (nodes fs !! path) (NotFound path));
  if bool_decide (node_type existing ≠ File)
  then throw (Unsupported "hard link source is not a file")
  else match hardlink_id (node_metadata existing) with
  | Some id => mret id
  | None =>
      fs ← get;
      let id := {| volume := 0; file_number := next_hardlink_file fs |} in
      put {| nodes := alter (with_hardlink id 1) path (nodes fs);
             next_hardlink_file := next_hardlink_file fs + 1 |};;
      mret id
  end.

Definition has_hardlink_id (id : HardlinkId) (node : MemoryNode) : bool :=
  bool_decide (hardlink_id (node_metadata node) = Some id).

Definition refresh_hardlink_count (id : HardlinkId) (m : gmap PathBuf MemoryNode) :
    gmap PathBuf MemoryNode :=
  let count := Z.of_nat (length (List.filter (has_hardlink_id id) (map_to_list m).*2)) in
  (λ node, if has_hardlink_id id node then with_hardlink id count node else node) <$> m.

Definition memory_create_hard_link (existing link : PathBuf) :
    M MemoryFileSystem FsError unit :=
  existing ← ask (λ fs, resolve_write_path fs existing);
  link ← ask (λ fs, resolve_write_path fs link);
  id ← ensure_hardlink_id existing;
  node ← ask (λ fs, ok_or (nodes fs !! existing) (NotFound existing));
  create_parent link;;
  insert_node link (with_hardlink id 1 node);;
  modify_nodes (refresh_hardlink_count id).

Definition memory_remove_file (path : PathBuf) : M MemoryFileSystem FsError unit :=
  path ← ask (λ _, normalize_portable_path path);
  node ← ask (λ fs, ok_or (nodes fs !! path) (NotFound path));
  if bool_decide (node_type node = Directory)
  then throw (Unsupported "remove_file on directory")
  else modify_nodes (delete path).

Definition memory_remove_dir_all (path : PathBuf) : M MemoryFileSystem FsError unit :=
  path ← ask (λ _, normalize_portable_path path);
  if bool_decide (path = []) then throw (Unsupported "remove root directory")
  else
    keys ← ask (λ fs, Ok (List.filter (λ candidate, path_starts_with candidate path)
                            (btree_keys (nodes fs))));
    if bool_decide (keys = []) then throw (NotFound path)
    else modify_nodes (λ m, foldr delete m keys).

Definition memory_set_mtime (path : PathBuf) (time : SystemTime) :
    M MemoryFileSystem FsError unit :=
  path ← ask (λ _, normalize_portable_path path);
  node ← ask (λ fs, ok_or (nodes fs !! path) (NotFound path));
  insert_node path {| node_metadata := with_modified (node_metadata node) time;
                      node_bytes := node_bytes node |}.

#[export] Instance MemoryFileSystem_portable : PortableFileSystem MemoryFileSystem := {|
  metadata := memory_metadata;
  metadata_follow := memory_metadata_follow;
  resolve_path_for_prefix_check := memory_resolve_path_for_prefix_check;
  same_file_system := default_same_file_system;
  read_file := memory_read_file;
  write_file_atomic := memory_write_file_atomic;
  write_file_direct := memory_write_file_atomic;
  write_file_with_options := memory_write_file_with_options;
  append_file := memory_append_file;
  copy_file_with_options :=
    default_copy_file_with_options memory_read_file memory_write_file_with_options;
  rename_file := memory_rename_file;
  append_file_from := default_append_file_from memory_read_file memory_append_file;
  files_equal := default_files_equal memory_metadata memory_read_file;
  file_prefix_matches := default_file_prefix_matches memory_read_file;
  create_symlink := memory_create_symlink;
  create_hard_link := memory_create_hard_link;
  create_dir_all := memory_create_dir_all;
  remove_file := memory_remove_file;
  remove_dir_all := memory_remove_dir_all;
  list_dir := memory_list;
  set_mtime := memory_set_mtime;
|}.

(** ** Building a file system by hand *)

Definition add_node (path : PathBuf) (node : MemoryNode) : M MemoryFileSystem FsError unit :=
  path ← ask (λ _, normalize_portable_path path);
  create_parent path;;
  insert_node path node.

Definition add_dir (path : PathBuf) : M MemoryFileSystem FsError unit :=
  memory_create_dir_all path.
Definition add_file (path : PathBuf) (bytes : list Z) : M MemoryFileSystem FsError unit :=
  add_node path (file_node bytes).
Definition add_symlink (path target : PathBuf) : M MemoryFileSystem FsError unit :=
  add_node path (symlink_node target).
Definition add_hardlink (existing link : PathBuf) : M MemoryFileSystem FsError unit :=
  existing ← ask (λ _, normalize_portable_path existing);
  link ← ask (λ _, normalize_portable_path link);
  memory_create_hard_link existing link.

Definition add_metadata_only_node (path : PathBuf) (metadata : PortableMetadata) :
    M MemoryFileSystem FsError unit :=
  add_node path {| node_metadata := metadata; node_bytes := [] |}.
Definition add_device (path : PathBuf) : M MemoryFileSystem FsError unit :=
  add_metadata_only_node path device_metadata.
Definition add_special (path : PathBuf) : M MemoryFileSystem FsError unit :=
  add_metadata_only_node path special_metadata.

Definition memory_paths (fs : MemoryFileSystem) : list PathBuf := btree_keys (nodes fs).
End memory.

Arguments memory_read_file : simpl never.

#[local] Instance unix : Platform := false.

Local Abbreviation p := (λ s, parse_path (lit s)).

Example linked_twice :
  let fs := (add_file (p "a/x") [1; 2];; add_symlink (p "l") (p "./a");;
             add_hardlink (p "a/x") (p "l/y");; memory_write_file_atomic (p "l/z") [3])
              MemoryFileSystem_default in
  memory_paths fs.2 = [[]; p "a"; p "a/x"; p "a/y"; p "a/z"; p "l"] ∧
  (λ node, hardlink_count (node_metadata node)) <$> (nodes fs.2 !! p "a/x") = Some (Some 2).
Proof. vm_compute. done. Qed.
Example link_to_itself :
  let fs := (add_symlink (p "l") (p "l")) MemoryFileSystem_default in
  (memory_read_file fs.2 (p "l"), (memory_write_file_atomic (p "l") [] fs.2).1) =
  (Err out_of_fuel, Err (Unsupported "too many nested memory symlinks")).
Proof. vm_compute. done. Qed.
