(* ===== verification/SyncPlan.v ===== *)
(** * What a local sync decides: rsync-fs/src/sync.rs, options and planning

    The options, the deletions planned for the receiver and the decisions that only
    look at paths, metadata and rules. *)

From stdpp Require Import sorting.
From S2P Require Import Prelude Str Glob Filter FsPath Metadata FileSystem.

(** ** Options *)

Inductive UpdateMode := QuickCheck | Checksum | SizeOnly | IgnoreTimes.

#[export] Instance UpdateMode_eq_dec : EqDecision UpdateMode.
Proof. solve_decision. Defined.

Inductive DeleteMode := NoDelete | Before | During | Delay | After.

#[export] Instance DeleteMode_eq_dec : EqDecision DeleteMode.
Proof. solve_decision. Defined.

Inductive SymlinkMode :=
  Skip | Preserve | CopyAll | CopyDirLinks | CopyUnsafe | SafeOnly | Munge.

#[export] Instance SymlinkMode_eq_dec : EqDecision SymlinkMode.
Proof. solve_decision. Defined.

Record SyncOptions := {
  o_recursive : bool;
  o_delete : bool;
  o_delete_mode : DeleteMode;
  o_preserve_mtime : bool;
  o_omit_dir_times : bool;
  o_dry_run : bool;
  o_filter_rules : RuleSet;
  o_destination_path_preflight : option (list PathBuf → result unit FsError);
  o_update_mode : UpdateMode;
  o_files_from : option (list PathBuf);
  o_file_write_mode : FileWriteMode;
  o_keep_partial : bool;
  o_partial_dir : option PathBuf;
  o_temp_dir : option PathBuf;
  o_delay_updates : bool;
  o_fsync : bool;
  o_append_verify : bool;
  o_symlink_mode : SymlinkMode;
  o_transfer_dirs : bool;
  o_mkpath : bool;
  o_relative_paths : bool;
  o_implied_dirs : bool;
  o_one_file_system : bool;
  o_skip_newer_receiver : bool;
  o_existing_only : bool;
  o_ignore_existing : bool;
  o_max_size : option Z;
  o_min_size : option Z;
  o_modify_window : Z;
  o_ignore_missing_args : bool;
  o_delete_missing_args : bool;
  o_delete_excluded : bool;
  o_ignore_errors : bool;
  o_force_delete : bool;
  o_max_delete : option Z;
  o_backup : bool;
  o_backup_dir : option PathBuf;
  o_backup_suffix : list Z;
  o_preserve_hard_links : bool;
  o_keep_dirlinks : bool;
  o_preserve_devices : bool;
  o_preserve_specials : bool;
  o_fail_on_metadata_loss : bool;
  o_compare_dest : list PathBuf;
  o_copy_dest : list PathBuf;
  o_link_dest : list PathBuf;
  o_sparse : bool;
  o_preallocate : bool;
  o_fuzzy : bool;
  o_bwlimit : option Z;
  o_max_alloc : option Z;
  o_stop_deadline : option Z;
}.

Definition SyncOptions_default : SyncOptions := {|
  o_recursive := true; o_delete := false; o_delete_mode := NoDelete;
  o_preserve_mtime := true; o_omit_dir_times := false; o_dry_run := true;
  o_filter_rules := []; o_destination_path_preflight := None;
  o_update_mode := QuickCheck; o_files_from := None; o_file_write_mode := Atomic;
  o_keep_partial := false; o_partial_dir := None; o_temp_dir := None;
  o_delay_updates := false; o_fsync := false; o_append_verify := false;
  o_symlink_mode := Skip; o_transfer_dirs := false; o_mkpath := false;
  o_relative_paths := false; o_implied_dirs := true; o_one_file_system := false;
  o_skip_newer_receiver := false; o_existing_only := false; o_ignore_existing := false;
  o_max_size := None; o_min_size := None; o_modify_window := 0;
  o_ignore_missing_args := false; o_delete_missing_args := false;
  o_delete_excluded := false; o_ignore_errors := false; o_force_delete := false;
  o_max_delete := None; o_backup := false; o_backup_dir := None;
  o_backup_suffix := lit "~"; o_preserve_hard_links := false; o_keep_dirlinks := false;
  o_preserve_devices := false; o_preserve_specials := false;
  o_fail_on_metadata_loss := false; o_compare_dest := []; o_copy_dest := [];
  o_link_dest := []; o_sparse := false; o_preallocate := false; o_fuzzy := false;
  o_bwlimit := None; o_max_alloc := None; o_stop_deadline := None |}.

Definition effective_delete_mode (self : SyncOptions) : DeleteMode :=
  if bool_decide (o_delete_mode self ≠ NoDelete) then o_delete_mode self
  else if o_delete self then During else NoDelete.

(** ** Reports *)

Inductive SyncAction :=
| CreateDir (path : PathBuf)
| WriteFile (path : PathBuf) (len : Z)
| WriteFileInPlace (path : PathBuf) (len : Z)
| AppendFile (path : PathBuf) (len : Z)
| BackupFile (from to : PathBuf)
| PreserveMtime (path : PathBuf)
| DeleteFile (path : PathBuf)
| DeleteDir (path : PathBuf)
| ProtectDelete (path : PathBuf)
| CreateSymlink (path target : PathBuf)
| CreateHardLink (from to : PathBuf)
| Warn (path : PathBuf) (message : string).

#[export] Instance SyncAction_eq_dec : EqDecision SyncAction.
Proof. solve_decision. Defined.

(** A report is its actions, in order. *)
Definition SyncReport : Type := list SyncAction.

Definition is_warning (action : SyncAction) : bool :=
  match action with Warn _ _ => true | _ => false end.

Definition warnings (self : SyncReport) : list SyncAction := List.filter is_warning self.

(** ** Which paths a list of files selects *)

Definition files_from_matches (relative : PathBuf) (files_from : list PathBuf) : bool :=
  existsb (λ selected, bool_decide (relative = selected) || path_starts_with relative selected ||
                       path_starts_with selected relative) files_from.

Definition retain_files_from_entries {V} (entries : gmap PathBuf V)
    (files_from : list PathBuf) : gmap PathBuf V :=
  filter (λ kv, files_from_matches kv.1 files_from = true) entries.

(** ** Filters along a path

    Each directory on the way to an entry is decided, then the entry itself. *)

Definition entry_kind (t : FileType) : EntryKind :=
  if bool_decide (t = Directory) then DirectoryEntry else FileEntry.

Definition normal_names (path : PathBuf) : list (list Z) :=
  omap (λ c, match c with Normal name => Some name | _ => None end) path.

Definition filter_path (path : PathBuf) : list Z := join [ch "/"] (normal_names path).

(** The kind a component on the way is decided as, by what follows it. *)
Definition kind_on_the_way (rest : list Component) (t : FileType) : EntryKind :=
  match rest with [] => entry_kind t | _ => DirectoryEntry end.

Fixpoint sender_filtered_from (rules : RuleSet) (t : FileType) (current : PathBuf)
    (components : list Component) : bool :=
  match components with
  | [] => false
  | Normal name :: rest =>
      let current := current ++ [Normal name] in
      match decided_action (decide_for_side rules (filter_path current)
                              (kind_on_the_way rest t) Sender) with
      | Exclude | Hide => true
      | _ => sender_filtered_from rules t current rest
      end
  | _ :: _ => true
  end.

Definition sender_path_is_filtered (rules : RuleSet) (relative : PathBuf) (t : FileType) :
    bool := sender_filtered_from rules t [] relative.

Definition protects (action : RuleAction) (delete_excluded : bool) : bool :=
  bool_decide (action = Protect) || bool_decide (action = Exclude) && negb delete_excluded.

Fixpoint delete_protected_from (rules : RuleSet) (t : FileType) (delete_excluded : bool)
    (current : PathBuf) (components : list Component) : bool :=
  match components with
  | [] => false
  | Normal name :: rest =>
      let current := current ++ [Normal name] in
      let action := decided_action (decide_for_side rules (filter_path current)
                                      (kind_on_the_way rest t) Receiver) in
      protects action delete_excluded ||
      delete_protected_from rules t delete_excluded current rest
  | _ :: _ => true
  end.

Definition delete_is_protected (rules : RuleSet) (relative : PathBuf) (t : FileType)
    (delete_excluded : bool) : bool :=
  delete_protected_from rules t delete_excluded [] relative.

(** ** Deletions on the receiver *)

Record IncrementalSourceEntry := { source_path : PathBuf; source_type : FileType }.

#[export] Instance IncrementalSourceEntry_eq_dec : EqDecision IncrementalSourceEntry.
Proof. solve_decision. Defined.

Inductive IncrementalDeleteDecision :=
| PlanDeleteFile (path : PathBuf)
| PlanDeleteDir (path : PathBuf)
| PlanProtect (path : PathBuf).

#[export] Instance IncrementalDeleteDecision_eq_dec : EqDecision IncrementalDeleteDecision.
Proof. solve_decision. Defined.

Record IncrementalReceiverState := {
  delete_mode : DeleteMode;
  source_relatives : gset PathBuf;
  pending_directories : gset PathBuf;
  pending_deletes : list IncrementalDeleteDecision;
  completed_file_indexes : gset nat;
  next_index : nat;
  final_seen : bool;
}.

Definition new_receiver_state (mode : DeleteMode) : IncrementalReceiverState :=
  {| delete_mode := mode; source_relatives := ∅; pending_directories := ∅;
     pending_deletes := []; completed_file_indexes := ∅; next_index := 0;
     final_seen := false |}.

Definition normalize_incremental_relative_path (path : PathBuf) : result PathBuf FsError :=
  let? out := normal_components path path [] in
  if bool_decide (out = []) then Err (InvalidPortablePath path) else Ok out.

(** One entry of a batch, at its index. *)
Definition observe_entry (index : nat) (relative : PathBuf) (t : FileType)
    (self : IncrementalReceiverState) : IncrementalReceiverState :=
  {| delete_mode := delete_mode self;
     source_relatives := {[ relative ]} ∪ source_relatives self;
     pending_directories :=
       if bool_decide (t = Directory) then {[ relative ]} ∪ pending_directories self
       else pending_directories self;
     pending_deletes := pending_deletes self;
     completed_file_indexes := {[ index ]} ∪ completed_file_indexes self;
     next_index := index + 1;
     final_seen := final_seen self |}.

Definition set_final_seen (self : IncrementalReceiverState) : IncrementalReceiverState :=
  {| delete_mode := delete_mode self; source_relatives := source_relatives self;
     pending_directories := pending_directories self;
     pending_deletes := pending_deletes self;
     completed_file_indexes := completed_file_indexes self;
     next_index := next_index self; final_seen := true |}.

Definition set_pending_deletes (decisions : list IncrementalDeleteDecision)
    (self : IncrementalReceiverState) : IncrementalReceiverState :=
  {| delete_mode := delete_mode self; source_relatives := source_relatives self;
     pending_directories := pending_directories self; pending_deletes := decisions;
     completed_file_indexes := completed_file_indexes self;
     next_index := next_index self; final_seen := final_seen self |}.

(** The loop over a batch. *)
Fixpoint observe_entries (index : nat) (entries : list IncrementalSourceEntry) :
    M IncrementalReceiverState FsError unit :=
  match entries with
  | [] => mret ()
  | entry :: entries =>
      relative ← lift (normalize_incremental_relative_path (source_path entry));
      self ← get;
      put (observe_entry index relative (source_type entry) self);;
      observe_entries (index + 1) entries
  end.

Definition observe_batch (base_index : nat) (entries : list IncrementalSourceEntry)
    (is_final : bool) : M IncrementalReceiverState FsError unit :=
  self ← get;
  if final_seen self
  then throw (Unsupported "incremental receiver batch arrived after final batch")
  else if bool_decide (base_index ≠ next_index self)
  then throw (Unsupported "incremental receiver batch index gap")
  else
    observe_entries base_index entries;;
    if is_final then self ← get; put (set_final_seen self) else mret ().

Definition delete_ready (self : IncrementalReceiverState) : bool :=
  bool_decide (delete_mode self ≠ NoDelete) && final_seen self.

(** Deeper entries first, then by path, backwards. *)
Definition delete_cmp (left right : IncrementalSourceEntry) : comparison :=
  match Nat.compare (length (source_path right)) (length (source_path left)) with
  | Eq => path_cmp (source_path right) (source_path left)
  | o => o
  end.

Definition delete_le (left right : IncrementalSourceEntry) : Prop := delete_cmp left right ≠ Gt.

#[export] Instance delete_le_dec x y : Decision (delete_le x y).
Proof. unfold delete_le. apply _. Defined.

Definition delete_decision (filter_rules : RuleSet) (files_from : option (list PathBuf))
    (delete_excluded : bool) (entry : IncrementalSourceEntry) : IncrementalDeleteDecision :=
  let path := source_path entry in
  if from_option (λ files_from, negb (files_from_matches path files_from)) false files_from ||
     delete_is_protected filter_rules path (source_type entry) delete_excluded
  then PlanProtect path
  else if bool_decide (source_type entry = Directory) then PlanDeleteDir path
  else PlanDeleteFile path.

Definition plan_deletes (existing_entries : list IncrementalSourceEntry)
    (filter_rules : RuleSet) (files_from : option (list PathBuf)) (delete_excluded : bool)
    (self : IncrementalReceiverState) :
    list IncrementalDeleteDecision * IncrementalReceiverState :=
  if negb (delete_ready self) then ([], set_pending_deletes [] self)
  else
    let delete_entries :=
      merge_sort delete_le
        (List.filter (λ entry, bool_decide (source_path entry ∉ source_relatives self))
           existing_entries) in
    let decisions := delete_decision filter_rules files_from delete_excluded <$> delete_entries in
    (decisions, set_pending_deletes decisions self).

(** ** Whether a file is up to date *)

(** The seconds between two times are compared with the window. *)
Definition mtimes_equal (left right : SystemTime) (window : Z) : bool :=
  if window <? 0 then left =? right
  else Z.abs (left - right) / 1000000000 <=? window.

(** [left.zip(right)] *)
Definition zip_option {A B} (a : option A) (b : option B) : option (A * B) :=
  match a, b with Some a, Some b => Some (a, b) | _, _ => None end.

Definition basis_files_match (source : WalkEntry) (basis : PortableMetadata) : bool :=
  if bool_decide (file_type basis ≠ File) then false
  else if negb (len basis =? len (entry_metadata source)) then false
  else match zip_option (modified (entry_metadata source)) (modified basis) with
  | Some (sm, bm) => sm =? bm
  | None => true
  end.

(** [a.zip(b).take_while(|(x, y)| x == y).count()] *)
Fixpoint common_prefix (a b : list Z) : nat :=
  match a, b with
  | x :: a, y :: b => if x =? y then S (common_prefix a b) else 0%nat
  | _, _ => 0%nat
  end.

Definition name_similarity_score (a b : list Z) : nat :=
  let prefix := common_prefix a b in
  let suffix := common_prefix (rev a) (rev b) in
  if bool_decide (prefix = 0%nat) && bool_decide (suffix = 0%nat) then 0%nat
  else (prefix + suffix)%nat.

Definition action_len (len : Z) : result Z FsError :=
  ok_or (checked_usize len) (Unsupported "file length exceeds this platform's address size").

(** ** Paths *)

Definition relative_operand_path (path : PathBuf) : result PathBuf FsError :=
  match List.filter is_normal path with
  | [] => Err (InvalidPortablePath path)
  | out => Ok out
  end.

Definition destination_preflight_path (target : PathBuf) : PathBuf :=
  match List.filter is_normal target with
  | [] => target
  | out => out
  end.

Definition batch_target_path (source dest : PathBuf) : result PathBuf FsError :=
  match file_name source with
  | Some name => Ok (path_join dest [Normal name])
  | None => Err (InvalidPortablePath source)
  end.

Definition non_empty_parent (path : PathBuf) : option PathBuf :=
  match parent path with
  | Some [] | None => None
  | parent => parent
  end.

Section platform.
Context `{Platform}.

Definition is_unsafe_symlink_target (target : PathBuf) : bool :=
  is_absolute target ||
  existsb (λ c, match c with ParentDir | Prefix _ => true | _ => false end) target.

Definition resolve_symlink_target (link_path target : PathBuf) : PathBuf :=
  if is_absolute target then target
  else match parent link_path with
  | Some parent => path_join parent target
  | None => target
  end.

Definition munge_symlink_target (target : PathBuf) : PathBuf :=
  parse_path (lit "/rsyncd-munged/" ++ relative_text target).

(** A directory of the options is below the destination, unless it is absolute. *)
Definition below_dest (dest_root dir : PathBuf) : PathBuf :=
  if is_absolute dir then dir else path_join dest_root dir.

Definition basis_file_path (dest_root basis_dir relative : PathBuf) : PathBuf :=
  path_join (below_dest dest_root basis_dir) relative.

Definition append_suffix (path : PathBuf) (suffix : list Z) : PathBuf :=
  if bool_decide (suffix = []) then path
  else with_file_name path (default [] (file_name path) ++ suffix).

Definition backup_path_for (dest_root target relative : PathBuf) (options : SyncOptions) :
    PathBuf :=
  let base := match o_backup_dir options with
              | Some backup_dir => path_join (below_dest dest_root backup_dir) relative
              | None => target
              end in
  append_suffix base (o_backup_suffix options).

Definition delayed_update_path (dest_root relative : PathBuf) (options : SyncOptions) :
    PathBuf :=
  let root := match o_temp_dir options with
              | Some temp_dir => below_dest dest_root temp_dir
              | None => path_join dest_root [Normal (lit ".~tmp~")]
              end in
  path_join root relative.
End platform.

Definition file_write_options (options : SyncOptions) : FileWriteOptions :=
  {| write_mode := o_file_write_mode options; write_keep_partial := o_keep_partial options;
     write_partial_dir := o_partial_dir options; write_temp_dir := o_temp_dir options;
     write_fsync := o_fsync options; write_sparse := o_sparse options;
     write_preallocate := o_preallocate options; write_bwlimit := o_bwlimit options;
     write_max_alloc := o_max_alloc options;
     write_stop_deadline := o_stop_deadline options |}.

Definition delayed_file_write_options (options : SyncOptions) : FileWriteOptions :=
  {| write_mode := Atomic; write_keep_partial := o_keep_partial options;
     write_partial_dir := o_partial_dir options; write_temp_dir := None;
     write_fsync := o_fsync options; write_sparse := o_sparse options;
     write_preallocate := o_preallocate options; write_bwlimit := o_bwlimit options;
     write_max_alloc := o_max_alloc options;
     write_stop_deadline := o_stop_deadline options |}.
