(* ===== verification/Values.v ===== *)
(** * Numbers with units: options/values.rs, plan/limits.rs and parse_daemon_bwlimit

    The numbers that options and the daemon's parameters carry: integers, sizes, and rates
    that are read as floating point.  An f64 is the standard library's [spec_float] at 53
    bits of precision, whose operations round as IEEE 754 says. *)

From Stdlib Require Import SpecFloat.
From S2P Require Import Prelude Stream Str Text FsPath Metadata StopAt DaemonConfig.

(** An error of [bail!], or a panic. *)
Inductive OptionError := OptionBail (message : string) | OptionPanic (message : string).

Definition bail {A} (message : string) : result A OptionError := Err (OptionBail message).

(** ** f64 *)

Definition f64 : Type := spec_float.
Definition f64_mul : f64 → f64 → f64 := SFmul 53 1024.
Definition f64_of_Z (n : Z) : f64 := binary_normalize 53 1024 n 0 false.

Definition is_finite (x : f64) : bool :=
  match x with S754_zero _ | S754_finite _ _ _ => true | _ => false end.

(** A decimal number is rounded once. *)
Definition f64_of_decimal (negative : bool) (digits exponent : Z) : f64 :=
  match digits with
  | Zpos m =>
      if 0 <=? exponent then
        binary_normalize 53 1024 ((if negative then -1 else 1) * digits * 10 ^ exponent) 0 negative
      else SFdiv 53 1024 (S754_finite negative m 0) (S754_finite false (10 ^ Z.to_pos (- exponent)) 0)
  | _ => S754_zero negative
  end.

Fixpoint span (p : Z → bool) (s : list Z) : list Z * list Z :=
  match s with
  | c :: s' => if p c then let '(l, r) := span p s' in (c :: l, r) else ([], s)
  | [] => ([], [])
  end.

(** A sign and what follows. *)
Definition sign (s : list Z) : bool * list Z :=
  match s with
  | c :: s' => if c =? ch "-" then (true, s') else if c =? ch "+" then (false, s') else (false, s)
  | [] => (false, [])
  end.

(** The exponent after the digits of a number. *)
Definition parse_exponent (s : list Z) : option Z :=
  match s with
  | [] => Some 0
  | c :: s =>
      if (c =? ch "e") || (c =? ch "E") then
        let '(negative, digits) := sign s in
        if bool_decide (digits ≠ []) && forallb is_ascii_digit digits
        then Some (if negative then - digits_value digits 0 else digits_value digits 0)
        else None
      else None
  end.

(** [s.parse::<f64>()] *)
Definition parse_f64 (s : list Z) : option f64 :=
  let '(negative, s) := sign s in
  let word := to_ascii_lowercase s in
  if bool_decide (word = lit "inf") || bool_decide (word = lit "infinity") then
    Some (S754_infinity negative)
  else if bool_decide (word = lit "nan") then Some S754_nan
  else
    let '(whole, s) := span is_ascii_digit s in
    let '(fraction, s) :=
      match s with c :: s' => if c =? ch "." then span is_ascii_digit s' else ([], s) | [] => ([], []) end in
    if bool_decide (whole ++ fraction = []) then None
    else
      exponent ← parse_exponent s;
      Some (f64_of_decimal negative (digits_value (whole ++ fraction) 0)
              (exponent - Z.of_nat (length fraction))).

(** [x.round()]: to the nearest integer, halves away from zero. *)
Definition f64_round (x : f64) : f64 :=
  match x with
  | S754_finite negative m e =>
      if 0 <=? e then x
      else
        let n := (Zpos m + 2 ^ (- e - 1)) / 2 ^ (- e) in
        binary_normalize 53 1024 (if negative then - n else n) 0 negative
  | _ => x
  end.

(** [x as u64]: towards zero, saturating. *)
Definition f64_as_u64 (x : f64) : Z :=
  match x with
  | S754_finite false m e => Z.min (if 0 <=? e then Zpos m * 2 ^ e else Zpos m / 2 ^ (- e)) u64_max
  | S754_infinity false => u64_max
  | _ => 0
  end.

(** [u64::MAX as f64]: rounds up. *)
Definition f64_u64_max : f64 := f64_of_Z u64_max.

Definition f64_lt : f64 → f64 → bool := SFltb.
Definition f64_le : f64 → f64 → bool := SFleb.

(** ** Integers *)

Definition parse_i64 (value : list Z) : result Z OptionError :=
  ok_or (parse_signed (- 2 ^ 63) i64_max value) (OptionBail "option --{option} expects an integer").
Definition parse_i32 (value : list Z) : result Z OptionError :=
  ok_or (parse_signed (- 2 ^ 31) (2 ^ 31 - 1) value)
    (OptionBail "option --{option} expects a 32-bit integer").
Definition parse_u32 (value : list Z) : result Z OptionError :=
  ok_or (parse_unsigned u32_max value) (OptionBail "option --{option} expects a non-negative integer").
Definition parse_u16 (value : list Z) : result Z OptionError :=
  ok_or (parse_unsigned u16_max value) (OptionBail "option --{option} expects a 16-bit integer").
Definition parse_u64 (value : list Z) : result Z OptionError :=
  ok_or (parse_unsigned u64_max value) (OptionBail "option --{option} expects a non-negative integer").
Definition parse_usize (value : list Z) : result Z OptionError :=
  ok_or (parse_unsigned u64_max value) (OptionBail "option --{option} expects a non-negative integer").

Definition parse_max_delete (value : list Z) : result Z OptionError :=
  if bool_decide (value = lit "-1") then Ok 0
  else ok_or (parse_unsigned u64_max value)
         (OptionBail "option --max-delete expects a non-negative integer or -1").

(** ** Sizes *)

Definition size_multiplier (suffix : list Z) : option Z :=
  if one_of suffix [""] then Some 1
  else if one_of suffix ["k"; "kb"] then Some 1024
  else if one_of suffix ["m"; "mb"] then Some (1024 * 1024)
  else if one_of suffix ["g"; "gb"] then Some (1024 * 1024 * 1024)
  else None.

Definition parse_size (value : list Z) : result Z OptionError :=
  let trimmed := trim value in
  if bool_decide (trimmed = []) then bail "size value cannot be empty"
  else
    let '(digits, suffix) := span is_ascii_digit trimmed in
    let? number := ok_or (parse_unsigned u64_max digits) (OptionBail "invalid size value `{value}`") in
    let? multiplier := ok_or (size_multiplier (to_ascii_lowercase suffix))
                         (OptionBail "invalid size suffix in `{value}`") in
    Ok (Z.min (number * multiplier) u64_max).

(** ** Rates and limits *)

Definition scaled_multiplier (default_multiplier : Z) (suffix : list Z) : option Z :=
  if one_of suffix [""] then Some default_multiplier
  else if one_of suffix ["b"] then Some 1
  else if one_of suffix ["k"; "kb"; "kib"] then Some 1024
  else if one_of suffix ["m"; "mb"; "mib"] then Some (1024 ^ 2)
  else if one_of suffix ["g"; "gb"; "gib"] then Some (1024 ^ 3)
  else if one_of suffix ["t"; "tb"; "tib"] then Some (1024 ^ 4)
  else if one_of suffix ["p"; "pb"; "pib"] then Some (1024 ^ 5)
  else None.

Definition parse_scaled_number (value : list Z) (default_multiplier : Z) : result Z OptionError :=
  let trimmed := trim value in
  if bool_decide (trimmed = []) then bail "{option} value cannot be empty"
  else
    let '(digits, suffix) := span (λ c, is_ascii_digit c || (c =? ch ".")) trimmed in
    if bool_decide (digits = []) || bool_decide (digits = lit ".")
    then bail "{option} value `{value}` is not a valid size"
    else
      let? number := ok_or (parse_f64 digits)
                       (OptionBail "{option} value `{value}` is not a valid size") in
      if negb (is_finite number) || f64_lt number (f64_of_Z 0)
      then bail "{option} value `{value}` must be non-negative"
      else
        let? multiplier := ok_or (scaled_multiplier default_multiplier (to_ascii_lowercase suffix))
          (OptionBail "{option} value `{value}` has an unsupported size suffix") in
        let bytes := f64_round (f64_mul number (f64_of_Z multiplier)) in
        if f64_lt f64_u64_max bytes then bail "{option} value `{value}` exceeds the supported range"
        else Ok (f64_as_u64 bytes).

Definition nonzero (bytes : Z) : option Z := if bytes =? 0 then None else Some bytes.

Definition parse_bwlimit_value (value : list Z) : result (option Z) OptionError :=
  let? bytes := parse_scaled_number value 1024 in Ok (nonzero bytes).
Definition parse_max_alloc_value (value : list Z) : result (option Z) OptionError :=
  let? bytes := parse_scaled_number value 1 in Ok (nonzero bytes).

Definition parse_outbuf_value (value : list Z) : result (list Z) OptionError :=
  let value := to_ascii_lowercase (trim value) in
  if one_of value ["n"; "none"; "unbuffered"] then Ok (lit "N")
  else if one_of value ["l"; "line"] then Ok (lit "L")
  else if one_of value ["b"; "block"; "full"] then Ok (lit "B")
  else bail "--outbuf expects N, L, or B".

(** ** The same values, read again for the plan: plan/limits.rs *)

(** The unit that the last byte stands for, and the text before it. *)
Definition split_unit (units : list (string * Z)) (default_unit : Z) (trimmed : list Z) :
    list Z * Z :=
  match last trimmed with
  | Some c =>
      match List.find (λ u, one_of (to_ascii_lowercase [c]) [u.1]) units with
      | Some (_, unit) => (take (length trimmed - 1) trimmed, unit)
      | None => (trimmed, default_unit)
      end
  | None => (trimmed, default_unit)
  end.

Definition limit_bytes (number : list Z) (unit : Z) : option Z :=
  rate ← parse_f64 (trim number);
  if negb (is_finite rate) || f64_le rate (f64_of_Z 0) then None
  else
    let bytes := f64_round (f64_mul rate (f64_of_Z unit)) in
    if f64_lt bytes (f64_of_Z 1) || f64_lt f64_u64_max bytes then None
    else Some (f64_as_u64 bytes).

Definition bwlimit_units : list (string * Z) :=
  [("b"%string, 1); ("k"%string, 1024); ("m"%string, 1024 ^ 2); ("g"%string, 1024 ^ 3)].

Definition parse_bwlimit_quiet (value : list Z) : option Z :=
  let trimmed := trim value in
  if bool_decide (trimmed = []) then None
  else let '(number, unit) := split_unit bwlimit_units 1024 trimmed in limit_bytes number unit.

Definition parse_max_alloc_quiet (value : list Z) : option Z :=
  let trimmed := trim value in
  if bool_decide (trimmed = []) then None
  else
    let '(number, unit) := split_unit (drop 1 bwlimit_units) 1 trimmed in limit_bytes number unit.

(** [parse_daemon_bwlimit] of the daemon server. *)
Definition parse_daemon_bwlimit (value : list Z) : result Z OptionError :=
  let trimmed := trim value in
  if bool_decide (trimmed = []) then bail "daemon --bwlimit must not be empty"
  else
    let '(number, unit) := split_unit bwlimit_units 1024 trimmed in
    let? rate := ok_or (parse_f64 (trim number)) (OptionBail "daemon --bwlimit rate `{value}` is invalid") in
    if negb (is_finite rate) || f64_le rate (f64_of_Z 0)
    then bail "daemon --bwlimit rate `{value}` must be greater than zero"
    else
      let bytes := f64_round (f64_mul rate (f64_of_Z unit)) in
      if f64_lt bytes (f64_of_Z 1) || f64_lt f64_u64_max bytes
      then bail "daemon --bwlimit rate `{value}` is outside the supported range"
      else Ok (f64_as_u64 bytes).
