(* ===== verification/Core.v ===== *)
(** * The core crate: rsync-core/src/lib.rs

    The policies for metadata, what a transfer loses of the metadata it was asked for, and
    the report of a plan.  Texts are lists of characters. *)

From Stdlib Require Import Btauto.
From S2P Require Import Prelude Str.

(** ** Policies *)

Inductive MetadataPolicy := Portable | Posix | NtfsNative.

#[export] Instance MetadataPolicy_eq_dec : EqDecision MetadataPolicy.
Proof. solve_decision. Defined.

Definition as_str (self : MetadataPolicy) : list Z :=
  match self with
  | Portable => lit "portable"
  | Posix => lit "posix"
  | NtfsNative => lit "ntfs-native"
  end.

(** [RsyncCoreError::InvalidArgument] of a policy. *)
Inductive PolicyError := InvalidPolicy (reason : list Z).

Definition policy_from_str (value : list Z) : result MetadataPolicy PolicyError :=
  if bool_decide (value = lit "portable") then Ok Portable
  else if bool_decide (value = lit "posix") then Ok Posix
  else if bool_decide (value = lit "ntfs-native") then Ok NtfsNative
  else Err (InvalidPolicy
    (lit "expected one of portable, posix, ntfs-native; got `" ++ value ++ lit "`")).

(** ** Features, and what became of them *)

Inductive MetadataFeature :=
| Symlink | SymlinkMtime | Permissions | Executability | Owner | Group | Device | SpecialFile | Acl | Xattr | FakeSuper | SecurityDescriptor | AlternateDataStream | AccessTime | CreationTime | WindowsAttributes | SparseFile | ReparsePoint | VssSnapshot.

#[export] Instance MetadataFeature_eq_dec : EqDecision MetadataFeature.
Proof. solve_decision. Defined.

Definition feature_label (self : MetadataFeature) : list Z :=
  match self with
  | Symlink => lit "symlink"
  | SymlinkMtime => lit "symlink-mtime"
  | Permissions => lit "permissions"
  | Executability => lit "executability"
  | Owner => lit "owner"
  | Group => lit "group"
  | Device => lit "device"
  | SpecialFile => lit "special-file"
  | Acl => lit "acl"
  | Xattr => lit "xattr"
  | FakeSuper => lit "fake-super"
  | SecurityDescriptor => lit "security-descriptor"
  | AlternateDataStream => lit "alternate-data-stream"
  | AccessTime => lit "access-time"
  | CreationTime => lit "creation-time"
  | WindowsAttributes => lit "windows-attributes"
  | SparseFile => lit "sparse-file"
  | ReparsePoint => lit "reparse-point"
  | VssSnapshot => lit "vss-snapshot"
  end.

Inductive MetadataAction := Applied | Stored | Degraded | Ignored | Rejected.

#[export] Instance MetadataAction_eq_dec : EqDecision MetadataAction.
Proof. solve_decision. Defined.

Definition action_label (self : MetadataAction) : list Z :=
  match self with
  | Applied => lit "applied"
  | Stored => lit "stored"
  | Degraded => lit "degraded"
  | Ignored => lit "ignored"
  | Rejected => lit "rejected"
  end.

Record MetadataDegradation := {
  feature : MetadataFeature;
  action : MetadataAction;
  degradation_message : list Z;
}.

Definition new (feature : MetadataFeature) (action : MetadataAction) (message : list Z) :
    MetadataDegradation :=
  {| feature := feature; action := action; degradation_message := message |}.

Definition is_loss (self : MetadataDegradation) : bool :=
  match action self with Applied | Stored => false | _ => true end.

(** ** Archive mode *)

Inductive ArchiveComponent :=
  Recursive | Links | ArchivePermissions | Times | ArchiveGroup | ArchiveOwner | Devices.

Definition archive_flag (self : ArchiveComponent) : list Z :=
  match self with
  | Recursive => lit "-r"
  | Links => lit "-l"
  | ArchivePermissions => lit "-p"
  | Times => lit "-t"
  | ArchiveGroup => lit "-g"
  | ArchiveOwner => lit "-o"
  | Devices => lit "-D"
  end.

Definition archive_mode_components : list ArchiveComponent :=
  [Recursive; Links; ArchivePermissions; Times; ArchiveGroup; ArchiveOwner; Devices].

Definition archive_mode_degradations (policy : MetadataPolicy) : list MetadataDegradation :=
  let policy_label := as_str policy in
  [new Symlink Degraded (
       lit "archive mode requests symlink preservation; " ++ policy_label ++ lit " transfers do not apply symlink preservation in the local executor yet");
   new Permissions Degraded (
       lit "archive mode requests POSIX permissions; " ++ policy_label ++ lit " transfers do not apply POSIX permissions in the local executor yet");
   new Owner Ignored (
       lit "archive mode requests owner preservation; Windows portable transfers do not apply POSIX owners");
   new Group Ignored (
       lit "archive mode requests group preservation; Windows portable transfers do not apply POSIX groups");
   new Device Rejected (
       lit "archive mode requests device/special files; this implementation does not create device nodes on Windows")].

Definition metadata_policy_degradations (policy : MetadataPolicy) : list MetadataDegradation :=
  match policy with
  | Portable => []
  | Posix =>
  [new Permissions Ignored (
       lit "metadata-policy=posix requests POSIX mode preservation; the local executor does not apply POSIX permissions yet");
   new Owner Ignored (
       lit "metadata-policy=posix requests POSIX owner preservation; the local executor does not apply POSIX owners yet");
   new Group Ignored (
       lit "metadata-policy=posix requests POSIX group preservation; the local executor does not apply POSIX groups yet");
   new Acl Ignored (
       lit "metadata-policy=posix requests POSIX ACL preservation; the local executor does not apply POSIX ACLs yet");
   new Xattr Ignored (
       lit "metadata-policy=posix requests extended attribute preservation; the local executor does not apply xattrs yet")]
  | NtfsNative =>
  [new SecurityDescriptor Degraded (
       lit "metadata-policy=ntfs-native requests NTFS security descriptor preservation; local restore requires explicit --super and available Windows permissions");
   new AlternateDataStream Degraded (
       lit "metadata-policy=ntfs-native requests alternate data stream preservation; named ADS payload copy is available for local Windows syncs and unavailable elsewhere");
   new WindowsAttributes Degraded (
       lit "metadata-policy=ntfs-native requests Windows file attribute preservation; the tested readonly/hidden/archive/system subset is restored while unsupported bits are degraded");
   new SparseFile Degraded (
       lit "metadata-policy=ntfs-native requests sparse file preservation; exact sparse range restore requires explicit --sparse on local Windows syncs");
   new ReparsePoint Rejected (
       lit "metadata-policy=ntfs-native requests reparse point preservation; unsafe reparse points are still rejected")]
  end.

(** ** A request for POSIX metadata *)

Record PosixMetadataRequest := {
  permissions : bool;
  owner : bool;
  group : bool;
  numeric_ids : bool;
  chmod : bool;
  executability : bool;
  symlink_mtime : bool;
  acls : bool;
  xattrs : bool;
  fake_super : bool;
  atimes : bool;
  crtimes : bool;
  omit_dir_times : bool;
  user_map : bool;
  group_map : bool;
  chown : bool;
}.

Definition any (self : PosixMetadataRequest) : bool :=
  permissions self || owner self || group self || numeric_ids self || chmod self ||
  executability self || symlink_mtime self || acls self || xattrs self || fake_super self ||
  atimes self || crtimes self || omit_dir_times self || user_map self || group_map self ||
  chown self.

(** [if asked { degradations.push(degradation) }] *)
Definition when (asked : bool) (degradation : MetadataDegradation) : list MetadataDegradation :=
  if asked then [degradation] else [].

(** [if self.fake_super { Stored } else { otherwise }], with a message for each. *)
Definition stored_or (fake_super : bool) (feature : MetadataFeature) (otherwise : MetadataAction)
    (stored_message message : list Z) : MetadataDegradation :=
  if fake_super then new feature Stored stored_message else new feature otherwise message.

Definition mode_degradations (self : PosixMetadataRequest) (policy_label : list Z) :
    list MetadataDegradation :=
  when (permissions self) (stored_or (fake_super self) Permissions Degraded
    (lit "--perms requests POSIX mode preservation; mode bits are stored in the fake-super sidecar")
    (lit "--perms requests POSIX mode preservation; " ++ policy_label ++ lit " local transfers record mode intent but do not chmod Windows destinations yet")) ++
  when (chmod self) (stored_or (fake_super self) Permissions Degraded
    (lit "--chmod requests POSIX mode rewriting; rewritten mode bits are stored in the fake-super sidecar")
    (lit "--chmod requests POSIX mode rewriting; " ++ policy_label ++ lit " local transfers report the request but do not apply chmod expressions yet")) ++
  when (executability self) (stored_or (fake_super self) Executability Degraded
    (lit "--executability mode intent is stored in the fake-super sidecar")
    (lit "--executability is represented in sender mode mapping for remote uploads; local Windows destinations do not apply executable bits")).

Definition owner_degradations (self : PosixMetadataRequest) : list MetadataDegradation :=
  when (owner self) (stored_or (fake_super self) Owner Ignored
    (lit "owner metadata is stored in the fake-super sidecar")
    (if numeric_ids self
     then lit "--numeric-ids requests numeric POSIX owner ids; Windows local transfers do not apply POSIX owners"
     else lit "--owner requests POSIX owner preservation; Windows local transfers do not apply POSIX owners")) ++
  when (group self) (stored_or (fake_super self) Group Ignored
    (lit "group metadata is stored in the fake-super sidecar")
    (if numeric_ids self
     then lit "--numeric-ids requests numeric POSIX group ids; Windows local transfers do not apply POSIX groups"
     else lit "--group requests POSIX group preservation; Windows local transfers do not apply POSIX groups")).

Definition attribute_degradations (self : PosixMetadataRequest) : list MetadataDegradation :=
  when (symlink_mtime self) (new SymlinkMtime Degraded
    (lit "symlink mtime preservation is protocol/platform-dependent and is not applied by the local Windows executor yet")) ++
  when (acls self) (stored_or (fake_super self) Acl Ignored
    (lit "--acls metadata requested with fake-super; POSIX ACL intent is stored in the fake-super sidecar")
    (lit "--acls requests POSIX ACL preservation; Windows local transfers do not apply POSIX ACLs")) ++
  when (xattrs self) (stored_or (fake_super self) Xattr Ignored
    (lit "--xattrs metadata requested with fake-super; POSIX xattr intent is stored in the fake-super sidecar")
    (lit "--xattrs requests extended attribute preservation; Windows local transfers do not apply POSIX xattrs")) ++
  when (fake_super self) (new FakeSuper Stored
    (lit "--fake-super metadata is stored in a Windows sidecar for local transfers")).

Definition time_degradations (self : PosixMetadataRequest) : list MetadataDegradation :=
  when (atimes self) (stored_or (fake_super self) AccessTime Degraded
    (lit "--atimes intent is stored in the fake-super sidecar")
    (lit "--atimes preservation is platform-dependent and is not applied by the local Windows executor yet")) ++
  when (crtimes self) (stored_or (fake_super self) CreationTime Degraded
    (lit "--crtimes intent is stored in the fake-super sidecar")
    (lit "--crtimes preservation requires platform-specific creation-time support")) ++
  when (omit_dir_times self) (new Permissions Applied
    (lit "--omit-dir-times is applied by not scheduling directory mtime preservation in local planning")).

Definition mapping_degradations (self : PosixMetadataRequest) : list MetadataDegradation :=
  when (user_map self || chown self) (stored_or (fake_super self) Owner Ignored
    (lit "owner mapping intent is stored in the fake-super sidecar")
    (lit "owner mapping is meaningful for remote POSIX receivers; local Windows transfers do not apply POSIX owners")) ++
  when (group_map self || chown self) (stored_or (fake_super self) Group Ignored
    (lit "group mapping intent is stored in the fake-super sidecar")
    (lit "group mapping is meaningful for remote POSIX receivers; local Windows transfers do not apply POSIX groups")).

Definition degradations (self : PosixMetadataRequest) (policy : MetadataPolicy) :
    list MetadataDegradation :=
  mode_degradations self (as_str policy) ++ owner_degradations self ++
  attribute_degradations self ++ time_degradations self ++ mapping_degradations self.

(** ** A request for NTFS metadata *)

Record NtfsNativeMetadataRequest := {
  security_descriptors : bool;
  alternate_data_streams : bool;
  creation_time : bool;
  windows_attributes : bool;
  sparse_files : bool;
  reparse_points : bool;
  vss_snapshot : bool;
}.

Definition ntfs_default : NtfsNativeMetadataRequest :=
  {| security_descriptors := false; alternate_data_streams := false; creation_time := false;
     windows_attributes := false; sparse_files := false; reparse_points := false;
     vss_snapshot := false |}.

Definition ntfs_all : NtfsNativeMetadataRequest :=
  {| security_descriptors := true; alternate_data_streams := true; creation_time := true;
     windows_attributes := true; sparse_files := true; reparse_points := true;
     vss_snapshot := false |}.

Definition with_vss (self : NtfsNativeMetadataRequest) (enabled : bool) :
    NtfsNativeMetadataRequest :=
  {| security_descriptors := security_descriptors self;
     alternate_data_streams := alternate_data_streams self;
     creation_time := creation_time self; windows_attributes := windows_attributes self;
     sparse_files := sparse_files self; reparse_points := reparse_points self;
     vss_snapshot := enabled |}.

Definition ntfs_degradations (self : NtfsNativeMetadataRequest) : list MetadataDegradation :=
  when (security_descriptors self) (new SecurityDescriptor Degraded (
       lit "metadata-policy=ntfs-native captures security descriptor SDDL payloads and restores them for local Windows syncs when elevated restore is explicit")) ++
  when (alternate_data_streams self) (new AlternateDataStream Degraded (
       lit "metadata-policy=ntfs-native copies named alternate data stream payloads for local Windows syncs; default data streams remain ordinary file content and unsupported platforms report this as unavailable")) ++
  when (windows_attributes self) (new WindowsAttributes Degraded (
       lit "metadata-policy=ntfs-native restores the tested readonly/hidden/archive/system attribute subset and degrades unsupported attribute bits")) ++
  when (sparse_files self) (new SparseFile Degraded (
       lit "metadata-policy=ntfs-native captures allocated sparse ranges and restores them for local Windows syncs when --sparse is explicit")) ++
  when (reparse_points self) (new ReparsePoint Rejected (
       lit "metadata-policy=ntfs-native intentionally rejects arbitrary non-symlink reparse point restore; unsafe reparse points remain blocked")).

(** ** Diagnostics *)

Inductive Severity := Info | Warning | Error.

#[export] Instance Severity_eq_dec : EqDecision Severity.
Proof. solve_decision. Defined.

Record Diagnostic := {
  severity : Severity;
  code : string;
  message : list Z;
  hint : option (list Z);
}.

Definition diagnostic (severity : Severity) (code : string) (message : list Z) : Diagnostic :=
  {| severity := severity; code := code; message := message; hint := None |}.

Definition with_hint (self : Diagnostic) (hint : list Z) : Diagnostic :=
  {| severity := severity self; code := code self; message := message self; hint := Some hint |}.

Definition Report : Type := list Diagnostic.

Definition push (self : Report) (diagnostic : Diagnostic) : Report := self ++ [diagnostic].
Definition info (self : Report) (code : string) (message : list Z) : Report :=
  push self (diagnostic Info code message).
Definition warn (self : Report) (code : string) (message : list Z) : Report :=
  push self (diagnostic Warning code message).
Definition error (self : Report) (code : string) (message : list Z) : Report :=
  push self (diagnostic Error code message).
Definition extend (self : Report) (diagnostics : list Diagnostic) : Report := self ++ diagnostics.

Definition is_empty (self : Report) : bool := bool_decide (self = []).
Definition has_severity (wanted : Severity) (diagnostic : Diagnostic) : bool :=
  bool_decide (severity diagnostic = wanted).
Definition has_errors (self : Report) : bool := existsb (has_severity Error) self.
Definition warnings (self : Report) : list Diagnostic := List.filter (has_severity Warning) self.
Definition errors (self : Report) : list Diagnostic := List.filter (has_severity Error) self.

(** ** What a request reports *)

Lemma existsb_when f asked d : existsb f (when asked d) = asked && f d.
Proof. destruct asked; cbn; [apply orb_false_r|done]. Qed.

Lemma feature_new f a message : feature (new f a message) = f.
Proof. done. Qed.
Lemma feature_stored_or fake f otherwise stored_message message :
  feature (stored_or fake f otherwise stored_message message) = f.
Proof. by destruct fake. Qed.

Lemma is_loss_new f a message :
  is_loss (new f a message) = match a with Applied | Stored => false | _ => true end.
Proof. done. Qed.
Lemma is_loss_stored_or fake f otherwise stored_message message :
  is_loss (stored_or fake f otherwise stored_message message) =
  negb fake && match otherwise with Applied | Stored => false | _ => true end.
Proof. by destruct fake. Qed.

(** Whether anything of a feature is asked for. *)
Definition requests (self : PosixMetadataRequest) (f : MetadataFeature) : bool :=
  match f with
  | Permissions => permissions self || chmod self || omit_dir_times self
  | Executability => executability self
  | Owner => owner self || user_map self || chown self
  | Group => group self || group_map self || chown self
  | SymlinkMtime => symlink_mtime self
  | Acl => acls self
  | Xattr => xattrs self
  | FakeSuper => fake_super self
  | AccessTime => atimes self
  | CreationTime => crtimes self
  | _ => false
  end.

Ltac by_parts :=
  unfold degradations, mode_degradations, owner_degradations, attribute_degradations,
    time_degradations, mapping_degradations;
  rewrite !existsb_app, !existsb_when.

Ltac decide_features :=
  repeat match goal with
  | |- context [bool_decide ?P] =>
      let b := eval vm_compute in (bool_decide P) in
      lazymatch b with true => idtac | false => idtac end; change (bool_decide P) with b
  end;
  rewrite ?andb_false_r, ?andb_true_r, ?orb_false_l, ?orb_false_r.

(** A feature is reported when something of it is asked for; numeric ids on their own
    are nothing to report. *)
Theorem reported_iff_requested self policy f :
  existsb (λ d, bool_decide (feature d = f)) (degradations self policy) = requests self f.
Proof.
  by_parts. rewrite !feature_stored_or, !feature_new. unfold requests.
  destruct f; decide_features; btauto.
Qed.

Definition unstored (self : PosixMetadataRequest) : bool :=
  permissions self || chmod self || executability self || owner self || group self ||
  acls self || xattrs self || atimes self || crtimes self || user_map self ||
  group_map self || chown self.

(** What is asked for is lost unless a fake super user stores it; the times of links are
    lost in any case. *)
Theorem lost_unless_stored self policy :
  existsb is_loss (degradations self policy) =
  symlink_mtime self || negb (fake_super self) && unstored self.
Proof.
  by_parts. rewrite !is_loss_stored_or, !is_loss_new. unfold unstored.
  destruct (fake_super self); cbn [negb andb];
    rewrite ?andb_false_r, ?andb_true_r, ?orb_false_l, ?orb_false_r; btauto.
Qed.

(** ** Names of policies *)

Theorem policy_names_round_trip policy : policy_from_str (as_str policy) = Ok policy.
Proof. by destruct policy. Qed.

Theorem policy_names_only value policy :
  policy_from_str value = Ok policy → value = as_str policy.
Proof.
  unfold policy_from_str. repeat case_bool_decide; by intros [= <-].
Qed.

(** ** The report *)

Lemma has_errors_app r1 r2 : has_errors (r1 ++ r2) = has_errors r1 || has_errors r2.
Proof. apply existsb_app. Qed.

(** A shadow copy of a volume is asked for, and nothing is reported of it. *)
Example vss_reports_nothing : ntfs_degradations (with_vss ntfs_default true) = [].
Proof. reflexivity. Qed.

Example numeric_ids_report_nothing :
  let request := {| permissions := false; owner := false; group := false; numeric_ids := true;
    chmod := false; executability := false; symlink_mtime := false; acls := false;
    xattrs := false; fake_super := false; atimes := false; crtimes := false;
    omit_dir_times := false; user_map := false; group_map := false; chown := false |} in
  any request = true ∧ degradations request Portable = [].
Proof. done. Qed.
