(* ===== verification/Cli.v ===== *)
(** * The command line: rsync-cli/src/cli.rs

    The record of everything the options of a command line say, and its default.  A
    [PathBuf] made of an argument is kept as the argument's text.  [c <| field := v |>] is
    [c.field = v]. *)

From S2P Require Import Prelude Str FsPath Metadata FileSystem SyncPlan.

Inductive CliMetadataPolicy := CliPortable | CliPosix | CliNtfsNative.

#[export] Instance CliMetadataPolicy_eq_dec : EqDecision CliMetadataPolicy.
Proof. solve_decision. Defined.

Record Cli := {
  version : bool;
  protocol_range : bool;
  plan : bool;
  recursive : bool;
  no_recursive : bool;
  inc_recursive : bool;
  no_inc_recursive : bool;
  preserve_times : bool;
  no_times : bool;
  archive : bool;
  dry_run : bool;
  delete : bool;
  delete_mode : DeleteMode;
  whole_file : bool;
  compress : bool;
  compress_choice : option (list Z);
  compress_level : option Z;
  compress_threads : option Z;
  skip_compress : list (list Z);
  quiet : Z;
  info_flags : list (list Z);
  debug_flags : list (list Z);
  msgs2stderr : bool;
  no_msgs2stderr : bool;
  stderr_mode : option (list Z);
  out_format : option (list Z);
  eight_bit_output : bool;
  client_log_file : option (list Z);
  client_log_file_format : option (list Z);
  human_readable : Z;
  help : bool;
  progress : bool;
  relative : bool;
  implied_dirs : bool;
  transfer_dirs : bool;
  mkpath : bool;
  one_file_system : bool;
  verbosity : Z;
  itemize_changes : bool;
  stats : bool;
  list_only : bool;
  metadata_policy : CliMetadataPolicy;
  fail_on_metadata_loss : bool;
  preserve_permissions : bool;
  no_permissions : bool;
  preserve_owner : bool;
  preserve_group : bool;
  executability : bool;
  acls : bool;
  xattrs : bool;
  fake_super : bool;
  atimes : bool;
  crtimes : bool;
  omit_dir_times : bool;
  omit_link_times : bool;
  vss : bool;
  daemon_server : bool;
  daemon_config : option (list Z);
  daemon_params : list (list Z);
  daemon_no_detach : bool;
  daemon_address : option (list Z);
  daemon_port : option Z;
  daemon_sockopts : option (list Z);
  daemon_connect_timeout_secs : option Z;
  daemon_no_motd : bool;
  daemon_log_file : option (list Z);
  daemon_log_file_format : option (list Z);
  daemon_bwlimit : option (list Z);
  internal_server : bool;
  internal_sender : bool;
  includes : list (list Z);
  excludes : list (list Z);
  filters : list (list Z);
  exclude_from : list (list Z);
  include_from : list (list Z);
  cvs_exclude : bool;
  files_from : option (list Z);
  from0 : bool;
  checksum : bool;
  checksum_choice : option (list Z);
  checksum_seed : option Z;
  size_only : bool;
  ignore_times : bool;
  partial : bool;
  partial_dir : option (list Z);
  inplace : bool;
  append_verify : bool;
  append : bool;
  update : bool;
  existing : bool;
  ignore_existing : bool;
  max_size : option Z;
  min_size : option Z;
  modify_window : Z;
  ignore_missing_args : bool;
  delete_missing_args : bool;
  delete_excluded : bool;
  ignore_errors : bool;
  force : bool;
  max_delete : option Z;
  backup : bool;
  backup_dir : option (list Z);
  suffix : option (list Z);
  temp_dir : option (list Z);
  delay_updates : bool;
  fsync : bool;
  numeric_ids : bool;
  user_maps : list (list Z);
  group_maps : list (list Z);
  chown : option (list Z);
  no_owner : bool;
  no_group : bool;
  chmod : option (list Z);
  remote_shell : option (list Z);
  password_file : option (list Z);
  copy_links : bool;
  safe_links : bool;
  copy_unsafe_links : bool;
  copy_dirlinks : bool;
  keep_dirlinks : bool;
  munge_links : bool;
  links : bool;
  no_links : bool;
  hard_links : bool;
  devices : bool;
  specials : bool;
  no_devices : bool;
  no_specials : bool;
  copy_devices : bool;
  write_devices : bool;
  block_size : option Z;
  remote_options : list (list Z);
  rsync_path : option (list Z);
  blocking_io : bool;
  old_args : bool;
  secluded_args : bool;
  trust_sender : bool;
  ipv4 : bool;
  ipv6 : bool;
  accepted_unsupported_options : list (list Z);
  compare_dest : list (list Z);
  copy_dest : list (list Z);
  link_dest : list (list Z);
  sparse : bool;
  preallocate : bool;
  fuzzy : bool;
  copy_as : option (list Z);
  super_flag : bool;
  write_batch : option (list Z);
  only_write_batch : option (list Z);
  read_batch : option (list Z);
  bwlimit : option (list Z);
  timeout_secs : option Z;
  stop_after_minutes : option Z;
  time_limit_minutes : option Z;
  stop_at : option (list Z);
  max_alloc : option (list Z);
  early_input : option (list Z);
  outbuf : option (list Z);
  protocol_version : option Z;
  iconv : option (list Z);
  open_noatime : bool;
  paths : list (list Z);
}.

Definition Cli_default : Cli :=
  {| version := false; protocol_range := false; plan := false; recursive := false;
  no_recursive := false; inc_recursive := false; no_inc_recursive := false;
  preserve_times := false; no_times := false; archive := false; dry_run := false;
  delete := false; delete_mode := NoDelete; whole_file := false; compress := false;
  compress_choice := None; compress_level := None; compress_threads := None;
  skip_compress := []; quiet := 0; info_flags := []; debug_flags := []; msgs2stderr := false;
  no_msgs2stderr := false; stderr_mode := None; out_format := None; eight_bit_output := false;
  client_log_file := None; client_log_file_format := None; human_readable := 0; help := false;
  progress := false; relative := false; implied_dirs := true; transfer_dirs := false;
  mkpath := false; one_file_system := false; verbosity := 0; itemize_changes := false;
  stats := false; list_only := false; metadata_policy := CliPortable;
  fail_on_metadata_loss := false; preserve_permissions := false; no_permissions := false;
  preserve_owner := false; preserve_group := false; executability := false; acls := false;
  xattrs := false; fake_super := false; atimes := false; crtimes := false;
  omit_dir_times := false; omit_link_times := false; vss := false; daemon_server := false;
  daemon_config := None; daemon_params := []; daemon_no_detach := false;
  daemon_address := None; daemon_port := None; daemon_sockopts := None;
  daemon_connect_timeout_secs := None; daemon_no_motd := false; daemon_log_file := None;
  daemon_log_file_format := None; daemon_bwlimit := None; internal_server := false;
  internal_sender := false; includes := []; excludes := []; filters := []; exclude_from := [];
  include_from := []; cvs_exclude := false; files_from := None; from0 := false;
  checksum := false; checksum_choice := None; checksum_seed := None; size_only := false;
  ignore_times := false; partial := false; partial_dir := None; inplace := false;
  append_verify := false; append := false; update := false; existing := false;
  ignore_existing := false; max_size := None; min_size := None; modify_window := 0;
  ignore_missing_args := false; delete_missing_args := false; delete_excluded := false;
  ignore_errors := false; force := false; max_delete := None; backup := false;
  backup_dir := None; suffix := None; temp_dir := None; delay_updates := false; fsync := false;
  numeric_ids := false; user_maps := []; group_maps := []; chown := None; no_owner := false;
  no_group := false; chmod := None; remote_shell := None; password_file := None;
  copy_links := false; safe_links := false; copy_unsafe_links := false; copy_dirlinks := false;
  keep_dirlinks := false; munge_links := false; links := false; no_links := false;
  hard_links := false; devices := false; specials := false; no_devices := false;
  no_specials := false; copy_devices := false; write_devices := false; block_size := None;
  remote_options := []; rsync_path := None; blocking_io := false; old_args := false;
  secluded_args := false; trust_sender := false; ipv4 := false; ipv6 := false;
  accepted_unsupported_options := []; compare_dest := []; copy_dest := []; link_dest := [];
  sparse := false; preallocate := false; fuzzy := false; copy_as := None; super_flag := false;
  write_batch := None; only_write_batch := None; read_batch := None; bwlimit := None;
  timeout_secs := None; stop_after_minutes := None; time_limit_minutes := None;
  stop_at := None; max_alloc := None; early_input := None; outbuf := None;
  protocol_version := None; iconv := None; open_noatime := false; paths := [] |}.

(** ** Assignments

    [copy] writes the record out field by field; a setter is [copy] with the reading of one
    field replaced. *)

Definition copy (c : Cli) : Cli :=
  Build_Cli
    (version c) (protocol_range c) (plan c) (recursive c) (no_recursive c) (inc_recursive c)
    (no_inc_recursive c) (preserve_times c) (no_times c) (archive c) (dry_run c) (delete c)
    (delete_mode c) (whole_file c) (compress c) (compress_choice c) (compress_level c)
    (compress_threads c) (skip_compress c) (quiet c) (info_flags c) (debug_flags c)
    (msgs2stderr c) (no_msgs2stderr c) (stderr_mode c) (out_format c) (eight_bit_output c)
    (client_log_file c) (client_log_file_format c) (human_readable c) (help c) (progress c)
    (relative c) (implied_dirs c) (transfer_dirs c) (mkpath c) (one_file_system c)
    (verbosity c) (itemize_changes c) (stats c) (list_only c) (metadata_policy c)
    (fail_on_metadata_loss c) (preserve_permissions c) (no_permissions c) (preserve_owner c)
    (preserve_group c) (executability c) (acls c) (xattrs c) (fake_super c) (atimes c)
    (crtimes c) (omit_dir_times c) (omit_link_times c) (vss c) (daemon_server c)
    (daemon_config c) (daemon_params c) (daemon_no_detach c) (daemon_address c) (daemon_port c)
    (daemon_sockopts c) (daemon_connect_timeout_secs c) (daemon_no_motd c) (daemon_log_file c)
    (daemon_log_file_format c) (daemon_bwlimit c) (internal_server c) (internal_sender c)
    (includes c) (excludes c) (filters c) (exclude_from c) (include_from c) (cvs_exclude c)
    (files_from c) (from0 c) (checksum c) (checksum_choice c) (checksum_seed c) (size_only c)
    (ignore_times c) (partial c) (partial_dir c) (inplace c) (append_verify c) (append c)
    (update c) (existing c) (ignore_existing c) (max_size c) (min_size c) (modify_window c)
    (ignore_missing_args c) (delete_missing_args c) (delete_excluded c) (ignore_errors c)
    (force c) (max_delete c) (backup c) (backup_dir c) (suffix c) (temp_dir c)
    (delay_updates c) (fsync c) (numeric_ids c) (user_maps c) (group_maps c) (chown c)
    (no_owner c) (no_group c) (chmod c) (remote_shell c) (password_file c) (copy_links c)
    (safe_links c) (copy_unsafe_links c) (copy_dirlinks c) (keep_dirlinks c) (munge_links c)
    (links c) (no_links c) (hard_links c) (devices c) (specials c) (no_devices c)
    (no_specials c) (copy_devices c) (write_devices c) (block_size c) (remote_options c)
    (rsync_path c) (blocking_io c) (old_args c) (secluded_args c) (trust_sender c) (ipv4 c)
    (ipv6 c) (accepted_unsupported_options c) (compare_dest c) (copy_dest c) (link_dest c)
    (sparse c) (preallocate c) (fuzzy c) (copy_as c) (super_flag c) (write_batch c)
    (only_write_batch c) (read_batch c) (bwlimit c) (timeout_secs c) (stop_after_minutes c)
    (time_limit_minutes c) (stop_at c) (max_alloc c) (early_input c) (outbuf c)
    (protocol_version c) (iconv c) (open_noatime c) (paths c).

#[export] Instance Cli_fields : Fields Cli := copy.

Lemma copy_id c : copy c = c.
Proof. by destruct c. Qed.

Example set_verbosity : verbosity (Cli_default <| verbosity ::= λ n, n + 1 |> <| quiet := 3 |>) = 1.
Proof. reflexivity. Qed.
