(* ===== verification/Options.v ===== *)
(** * The parser of the command line: rsync-cli/src/options.rs

    The tables of options, what each option does to the command line, and the loop over the
    arguments.  A [match] on the name of an option is a table of its arms, in the order of
    the source.  Arguments are lists of characters. *)

From S2P Require Import Prelude Stream Str Text FsPath Metadata FileSystem SyncPlan.
From S2P Require Import StopAt DaemonConfig Values Cli.

(** ** The table of options *)

Inductive ValueKind := ValueNone | ValueRequired.
Inductive RepeatBehavior := Forbid | Count | Append | LastWins.
Inductive OptionScope := Client | Daemon | Internal | Project.
Inductive OptionSupport := Full | Partial | DiagnosticOnly | ParsedOnly | Planned.

Record OptionSpec := {
  long : list Z;
  short : option Z;
  aliases : list (list Z);
  value_kind : ValueKind;
  repeat_behavior : RepeatBehavior;
  negatable : bool;
  scope : OptionScope;
  notes : string;
  support : OptionSupport;
}.

#[export] Instance ValueKind_eq_dec : EqDecision ValueKind.
Proof. solve_decision. Defined.

Definition spec (long : string) (short : option string) (value_kind : ValueKind)
    (repeat : RepeatBehavior) (negatable : bool) (scope : OptionScope) (support : OptionSupport) :
    OptionSpec :=
  {| long := lit long; short := short ≫= λ s, head (lit s); aliases := [];
     value_kind := value_kind; repeat_behavior := repeat; negatable := negatable;
     scope := scope; notes := ""; support := support |}.

Definition flag (long : string) (short : option string) (support : OptionSupport) : OptionSpec :=
  spec long short ValueNone LastWins true Client support.
Definition value (long : string) (short : option string) (support : OptionSupport) : OptionSpec :=
  spec long short ValueRequired LastWins false Client support.
Definition append_value (long : string) (short : option string) (support : OptionSupport) :
    OptionSpec :=
  spec long short ValueRequired Append false Client support.

Definition UPSTREAM_CLIENT_OPTIONS : list OptionSpec := [
  spec "verbose" (Some "v") ValueNone Count true Client Full; append_value "info" None Full;
  append_value "debug" None Full; value "stderr" None Full; flag "msgs2stderr" None Full;
  flag "no-msgs2stderr" None Full; spec "quiet" (Some "q") ValueNone Count true Client Full;
  flag "no-motd" None Partial; flag "checksum" (Some "c") Partial;
  flag "archive" (Some "a") Partial; flag "recursive" (Some "r") Partial;
  flag "inc-recursive" None Partial; flag "i-r" None Partial;
  flag "no-inc-recursive" None Partial; flag "no-i-r" None Partial;
  flag "relative" (Some "R") Partial; flag "no-implied-dirs" None Partial;
  flag "backup" (Some "b") Partial; value "backup-dir" None Partial; value "suffix" None Partial;
  flag "update" (Some "u") Partial; flag "inplace" None Partial; flag "append" None Partial;
  flag "append-verify" None Partial; flag "dirs" (Some "d") Partial; flag "old-dirs" None Partial;
  flag "old-d" None Partial; flag "mkpath" None Partial; flag "links" (Some "l") Partial;
  flag "copy-links" (Some "L") Partial; flag "copy-unsafe-links" None Partial;
  flag "safe-links" None Partial; flag "munge-links" None Partial;
  flag "copy-dirlinks" (Some "k") Partial; flag "keep-dirlinks" (Some "K") Partial;
  flag "hard-links" (Some "H") Partial; flag "perms" (Some "p") Partial;
  flag "executability" (Some "E") Partial; value "chmod" None Partial;
  flag "acls" (Some "A") Partial; flag "xattrs" (Some "X") Partial;
  flag "owner" (Some "o") Partial; flag "group" (Some "g") Partial; flag "devices" None Partial;
  flag "copy-devices" None Partial; flag "write-devices" None Partial;
  flag "specials" None Partial; flag "D" (Some "D") Partial; flag "times" (Some "t") Partial;
  flag "atimes" (Some "U") Partial; flag "open-noatime" None DiagnosticOnly;
  flag "crtimes" (Some "N") Partial; flag "omit-dir-times" (Some "O") Partial;
  flag "omit-link-times" (Some "J") Partial; flag "super" None Partial;
  flag "fake-super" None Partial; flag "sparse" (Some "S") Partial;
  flag "preallocate" None Partial; flag "dry-run" (Some "n") Partial;
  flag "whole-file" (Some "W") Partial; value "checksum-choice" None Partial;
  value "cc" None Partial; flag "one-file-system" (Some "x") Partial;
  value "block-size" (Some "B") Partial; value "rsh" (Some "e") Partial;
  value "rsync-path" None Partial; flag "existing" None Partial;
  flag "ignore-non-existing" None Partial; flag "ignore-existing" None Partial;
  flag "remove-source-files" None Planned; flag "del" None Partial; flag "delete" None Partial;
  flag "delete-before" None Partial; flag "delete-during" None Partial;
  flag "delete-delay" None Partial; flag "delete-after" None Partial;
  flag "delete-excluded" None Partial; flag "ignore-missing-args" None Partial;
  flag "delete-missing-args" None Partial; flag "ignore-errors" None Partial;
  flag "force" None Partial; value "max-delete" None Partial; value "max-size" None Partial;
  value "min-size" None Partial; value "max-alloc" None Partial; flag "partial" None Partial;
  value "partial-dir" None Partial; flag "delay-updates" None Partial;
  flag "prune-empty-dirs" (Some "m") Planned; flag "numeric-ids" None Partial;
  append_value "usermap" None Partial; append_value "groupmap" None Partial;
  value "chown" None Partial; value "timeout" None Partial; value "contimeout" None Partial;
  flag "ignore-times" (Some "I") Partial; flag "size-only" None Partial;
  value "modify-window" (Some "@") Partial; value "temp-dir" (Some "T") Partial;
  flag "fuzzy" (Some "y") Partial; append_value "compare-dest" None Partial;
  append_value "copy-dest" None Partial; append_value "link-dest" None Partial;
  flag "compress" (Some "z") Partial; value "compression-choice" None Partial;
  value "compress-choice" None Partial; value "zc" None Partial;
  value "compress-level" None Partial; value "zl" None Partial;
  value "compress-threads" None ParsedOnly; value "zt" None ParsedOnly;
  value "skip-compress" None Partial; flag "cvs-exclude" (Some "C") Partial;
  append_value "filter" (Some "f") Partial; flag "F" (Some "F") Partial;
  append_value "exclude" None Partial; append_value "exclude-from" None Partial;
  append_value "include" None Partial; append_value "include-from" None Partial;
  value "files-from" None Partial; flag "from0" (Some "0") Partial; flag "old-args" None Partial;
  flag "secluded-args" (Some "s") Partial; flag "protect-args" None Partial;
  flag "trust-sender" None Partial; value "copy-as" None DiagnosticOnly;
  value "address" None Partial; value "port" None Partial; value "sockopts" None Partial;
  flag "blocking-io" None DiagnosticOnly; value "outbuf" None Partial; flag "stats" None Full;
  flag "8-bit-output" (Some "8") Full;
  spec "human-readable" (Some "h") ValueNone Count true Client Full; flag "progress" None Full;
  flag "P" (Some "P") Full; flag "itemize-changes" (Some "i") Full;
  append_value "remote-option" (Some "M") Partial; value "out-format" None Full;
  value "log-file" None Full; value "log-file-format" None Full;
  value "password-file" None Partial; value "early-input" None Partial;
  flag "list-only" None Partial; value "bwlimit" None Partial; value "stop-after" None Partial;
  value "time-limit" None Partial; value "stop-at" None Partial; flag "fsync" None Partial;
  value "write-batch" None Partial; value "only-write-batch" None Partial;
  value "read-batch" None Partial; value "protocol" None Partial;
  value "iconv" None DiagnosticOnly; value "checksum-seed" None Partial;
  flag "ipv4" (Some "4") Partial; flag "ipv6" (Some "6") Partial; flag "version" (Some "V") Full;
  flag "help" None Full
]%string.

Definition DAEMON_OPTIONS : list OptionSpec := [
  spec "daemon" None ValueNone Forbid false Daemon Partial;
  spec "address" None ValueRequired LastWins false Daemon Partial;
  spec "bwlimit" None ValueRequired LastWins false Daemon Partial;
  spec "config" None ValueRequired LastWins false Daemon Partial;
  spec "dparam" (Some "M") ValueRequired Append false Daemon Partial;
  spec "no-detach" None ValueNone LastWins false Daemon Partial;
  spec "port" None ValueRequired LastWins false Daemon Partial;
  spec "log-file" None ValueRequired LastWins false Daemon Partial;
  spec "log-file-format" None ValueRequired LastWins false Daemon Partial;
  spec "sockopts" None ValueRequired LastWins false Daemon Partial;
  spec "verbose" (Some "v") ValueNone Count true Daemon Partial;
  spec "ipv4" (Some "4") ValueNone LastWins false Daemon Partial;
  spec "ipv6" (Some "6") ValueNone LastWins false Daemon Partial;
  spec "help" (Some "h") ValueNone Forbid false Daemon Partial
]%string.

Definition INTERNAL_SERVER_OPTIONS : list OptionSpec := [
  spec "server" None ValueNone Forbid false Internal Planned;
  spec "sender" None ValueNone Forbid false Internal Planned
]%string.

Definition PROJECT_OPTIONS : list OptionSpec := [
  spec "plan" None ValueNone LastWins false Project Partial;
  spec "metadata-policy" None ValueRequired LastWins false Project Partial;
  spec "fail-on-metadata-loss" None ValueNone LastWins false Project Partial;
  spec "protocol-range" None ValueNone LastWins false Project Partial;
  spec "vss" None ValueNone LastWins false Project Partial
]%string.

Definition find_long_spec (name : list Z) : option OptionSpec :=
  List.find (λ spec, bool_decide (long spec = name) || bool_decide (name ∈ aliases spec))
    (UPSTREAM_CLIENT_OPTIONS ++ PROJECT_OPTIONS ++ DAEMON_OPTIONS ++ INTERNAL_SERVER_OPTIONS).

Definition long_requires_value (name : list Z) : bool :=
  match find_long_spec name with
  | Some spec => bool_decide (value_kind spec = ValueRequired)
  | None => false
  end.

Definition short_requires_value (opt : Z) : bool :=
  existsb (Z.eqb opt) [ch "e"; ch "B"; ch "@"; ch "T"; ch "f"; ch "M"].

(** ** What an option does *)

(** An arm that takes no value, or needs one. *)
Inductive Action :=
| Set_ (f : Cli → Cli)
| Take (f : list Z → Cli → result Cli OptionError).

Definition Arms : Type := list (list string * Action).

Definition find_arm (arms : Arms) (name : list Z) : option Action :=
  snd <$> List.find (λ arm, one_of name arm.1) arms.

Definition saturating_inc_u8 (n : Z) : Z := Z.min (n + 1) 255.
Definition push {A} (x : A) (xs : list A) : list A := xs ++ [x].

Definition apply_filter_shorthand (c : Cli) : Cli :=
  let shorthand_count := length (List.filter (λ f, one_of f [": .rsync-filter"; "- .rsync-filter"])
                                   (filters c)) in
  if (shorthand_count =? 0)%nat then c <| filters ::= push (lit ": .rsync-filter") |>
  else c <| filters ::= push (lit "- .rsync-filter") |>.

Definition apply_chown_implications (value : list Z) (c : Cli) : Cli :=
  let '(user, group) := default (value, []) (split_once (ch ":") value) in
  let c := if non_empty user then c <| preserve_owner := true |> <| no_owner := false |> else c in
  if non_empty group then c <| preserve_group := true |> <| no_group := false |> else c.

Definition remember_unsupported (name : list Z) (c : Cli) : Cli :=
  let c := c <| accepted_unsupported_options ::= push name |> in
  if one_of name ["--write-devices"] then c <| inplace := true |> else c.

Inductive StderrMode := StderrErrors | StderrAll | StderrClient.

Definition parse_stderr_mode (value : list Z) : result StderrMode OptionError :=
  let value := to_ascii_lowercase value in
  if one_of value ["errors"; "error"; "err"; "e"] then Ok StderrErrors
  else if one_of value ["all"; "a"] then Ok StderrAll
  else if one_of value ["client"; "c"] then Ok StderrClient
  else bail "invalid --stderr mode `{value}`; expected errors, all, or client".

Definition parse_metadata_policy (value : list Z) : result CliMetadataPolicy OptionError :=
  if one_of value ["portable"] then Ok CliPortable
  else if one_of value ["posix"] then Ok CliPosix
  else if one_of value ["ntfs-native"] then Ok CliNtfsNative
  else bail "invalid --metadata-policy value `{value}`".

Definition stop_error (e : StopError) : OptionError :=
  match e with StopMessage m => OptionBail m | StopPanic m => OptionPanic m end.

Definition take_protocol (v : list Z) (c : Cli) : result Cli OptionError :=
  let? protocol := ok_or (parse_unsigned u32_max v)
    (OptionBail "--protocol value `{val}` is not a valid protocol version") in
  if negb (protocol =? 27) && negb (protocol =? 31) then
    bail "--protocol={protocol} is not supported by this build; supported execution protocols are 27 and 31"
  else Ok (c <| protocol_version := Some protocol |>).

(** ** The arms of [apply_short_option] *)

Definition short_arms : Arms := [
  (["v"], Set_ (λ c, c <| verbosity ::= saturating_inc_u8 |>));
  (["q"], Set_ (λ c, c <| quiet ::= saturating_inc_u8 |>));
  (["c"], Set_ (λ c, c <| checksum := true |>));
  (["a"],
   Set_ (λ c, c <| archive := true |> <| no_recursive := false |> <| no_times := false |>
      <| no_permissions := false |> <| no_owner := false |> <| no_group := false |>
      <| no_devices := false |> <| no_specials := false |> <| no_links := false |>));
  (["r"], Set_ (λ c, c <| recursive := true |> <| no_recursive := false |>));
  (["R"], Set_ (λ c, c <| relative := true |>));
  (["b"], Set_ (λ c, c <| backup := true |>));
  (["u"], Set_ (λ c, c <| update := true |>));
  (["d"], Set_ (λ c, c <| transfer_dirs := true |>));
  (["l"], Set_ (λ c, c <| links := true |> <| no_links := false |>));
  (["L"], Set_ (λ c, c <| copy_links := true |> <| no_links := false |>));
  (["k"], Set_ (λ c, c <| copy_dirlinks := true |> <| no_links := false |>));
  (["K"], Set_ (λ c, c <| keep_dirlinks := true |>));
  (["H"], Set_ (λ c, c <| hard_links := true |>));
  (["p"], Set_ (λ c, c <| preserve_permissions := true |> <| no_permissions := false |>));
  (["E"], Set_ (λ c, c <| executability := true |>));
  (["A"], Set_ (λ c, c <| acls := true |> <| preserve_permissions := true |>));
  (["X"], Set_ (λ c, c <| xattrs := true |>));
  (["o"], Set_ (λ c, c <| preserve_owner := true |> <| no_owner := false |>));
  (["g"], Set_ (λ c, c <| preserve_group := true |> <| no_group := false |>));
  (["D"],
   Set_ (λ c, c <| devices := true |> <| specials := true |> <| no_devices := false |>
      <| no_specials := false |>));
  (["t"], Set_ (λ c, c <| preserve_times := true |> <| no_times := false |>));
  (["U"], Set_ (λ c, c <| atimes := true |>));
  (["N"], Set_ (λ c, c <| crtimes := true |>));
  (["O"], Set_ (λ c, c <| omit_dir_times := true |>));
  (["J"], Set_ (λ c, c <| omit_link_times := true |>));
  (["S"], Set_ (λ c, c <| sparse := true |>));
  (["n"], Set_ (λ c, c <| dry_run := true |>));
  (["W"], Set_ (λ c, c <| whole_file := true |>));
  (["x"], Set_ (λ c, c <| one_file_system := true |>));
  (["B"], Take (λ v c, let? n := parse_size v in Ok (c <| block_size := Some n |>)));
  (["e"], Take (λ v c, Ok (c <| remote_shell := Some v |>)));
  (["I"], Set_ (λ c, c <| ignore_times := true |>));
  (["@"], Take (λ v c, let? n := parse_i64 v in Ok (c <| modify_window := n |>)));
  (["T"], Take (λ v c, Ok (c <| temp_dir := Some v |>)));
  (["y"], Set_ (λ c, c <| fuzzy := true |>));
  (["z"], Set_ (λ c, c <| compress := true |>));
  (["C"], Set_ (λ c, c <| cvs_exclude := true |>));
  (["f"], Take (λ v c, Ok (c <| filters ::= push v |>)));
  (["F"], Set_ apply_filter_shorthand);
  (["0"], Set_ (λ c, c <| from0 := true |>));
  (["s"], Set_ (λ c, c <| secluded_args := true |> <| old_args := false |>));
  (["8"], Set_ (λ c, c <| eight_bit_output := true |>));
  (["h"], Set_ (λ c, c <| human_readable ::= saturating_inc_u8 |>));
  (["P"], Set_ (λ c, c <| partial := true |> <| progress := true |>));
  (["i"], Set_ (λ c, c <| itemize_changes := true |>));
  (["M"],
   Take (λ v c, Ok (if daemon_server c then c <| daemon_params ::= push v |>
                    else c <| remote_options ::= push v |>)));
  (["4"], Set_ (λ c, c <| ipv4 := true |> <| ipv6 := false |>));
  (["6"], Set_ (λ c, c <| ipv6 := true |> <| ipv4 := false |>));
  (["V"], Set_ (λ c, c <| version := true |>))
]%string.

Definition apply_short_option (c : Cli) (opt : Z) (value : option (list Z)) :
    result Cli OptionError :=
  match find_arm short_arms [opt] with
  | Some (Set_ f) => Ok (f c)
  | Some (Take f) =>
      let? v := ok_or value (OptionPanic "value checked") in f v c
  | None => bail "unknown option -{other}"
  end.

(** ** The arms of [apply_long_option], in four parts *)

Definition long_arms_attributes : Arms := [
  (["verbose"], Set_ (λ c, c <| verbosity ::= saturating_inc_u8 |>));
  (["quiet"], Set_ (λ c, c <| quiet ::= saturating_inc_u8 |>));
  (["checksum"], Set_ (λ c, c <| checksum := true |>));
  (["archive"],
   Set_ (λ c, c <| archive := true |> <| no_recursive := false |> <| no_times := false |>
      <| no_permissions := false |> <| no_owner := false |> <| no_group := false |>
      <| no_devices := false |> <| no_specials := false |> <| no_links := false |>));
  (["recursive"], Set_ (λ c, c <| recursive := true |> <| no_recursive := false |>));
  (["relative"], Set_ (λ c, c <| relative := true |>));
  (["backup"], Set_ (λ c, c <| backup := true |>));
  (["backup-dir"], Take (λ v c, Ok (c <| backup := true |> <| backup_dir := Some v |>)));
  (["suffix"], Take (λ v c, Ok (c <| suffix := Some v |>)));
  (["update"], Set_ (λ c, c <| update := true |>));
  (["inplace"], Set_ (λ c, c <| inplace := true |>));
  (["append"], Set_ (λ c, c <| append := true |>));
  (["append-verify"], Set_ (λ c, c <| append_verify := true |>));
  (["dirs"; "old-dirs"; "old-d"], Set_ (λ c, c <| transfer_dirs := true |>));
  (["mkpath"], Set_ (λ c, c <| mkpath := true |>));
  (["links"], Set_ (λ c, c <| links := true |> <| no_links := false |>));
  (["copy-links"], Set_ (λ c, c <| copy_links := true |> <| no_links := false |>));
  (["copy-dirlinks"], Set_ (λ c, c <| copy_dirlinks := true |> <| no_links := false |>));
  (["keep-dirlinks"], Set_ (λ c, c <| keep_dirlinks := true |>));
  (["copy-unsafe-links"], Set_ (λ c, c <| copy_unsafe_links := true |> <| no_links := false |>));
  (["safe-links"], Set_ (λ c, c <| safe_links := true |> <| no_links := false |>));
  (["munge-links"], Set_ (λ c, c <| munge_links := true |> <| no_links := false |>));
  (["hard-links"], Set_ (λ c, c <| hard_links := true |>));
  (["perms"], Set_ (λ c, c <| preserve_permissions := true |> <| no_permissions := false |>));
  (["executability"], Set_ (λ c, c <| executability := true |>));
  (["chmod"], Take (λ v c, Ok (c <| chmod := Some v |>)));
  (["acls"], Set_ (λ c, c <| acls := true |> <| preserve_permissions := true |>));
  (["xattrs"], Set_ (λ c, c <| xattrs := true |>));
  (["owner"], Set_ (λ c, c <| preserve_owner := true |> <| no_owner := false |>));
  (["group"], Set_ (λ c, c <| preserve_group := true |> <| no_group := false |>));
  (["devices"], Set_ (λ c, c <| devices := true |> <| no_devices := false |>));
  (["copy-devices"], Set_ (λ c, c <| copy_devices := true |> <| no_devices := false |>));
  (["write-devices"],
   Set_ (λ c, c <| write_devices := true |> <| inplace := true |> <| no_devices := false |>));
  (["specials"], Set_ (λ c, c <| specials := true |> <| no_specials := false |>));
  (["D"],
   Set_ (λ c, c <| devices := true |> <| specials := true |> <| no_devices := false |>
      <| no_specials := false |>));
  (["times"], Set_ (λ c, c <| preserve_times := true |> <| no_times := false |>));
  (["atimes"], Set_ (λ c, c <| atimes := true |>));
  (["crtimes"], Set_ (λ c, c <| crtimes := true |>));
  (["omit-dir-times"], Set_ (λ c, c <| omit_dir_times := true |>));
  (["omit-link-times"], Set_ (λ c, c <| omit_link_times := true |>));
  (["fake-super"], Set_ (λ c, c <| fake_super := true |>))
]%string.

Definition long_arms_transfer : Arms := [
  (["dry-run"], Set_ (λ c, c <| dry_run := true |>));
  (["whole-file"], Set_ (λ c, c <| whole_file := true |>));
  (["checksum-choice"; "cc"], Take (λ v c, Ok (c <| checksum_choice := Some v |>)));
  (["checksum-seed"], Take (λ v c, let? n := parse_i32 v in Ok (c <| checksum_seed := Some n |>)));
  (["one-file-system"], Set_ (λ c, c <| one_file_system := true |>));
  (["block-size"], Take (λ v c, let? n := parse_size v in Ok (c <| block_size := Some n |>)));
  (["rsh"], Take (λ v c, Ok (c <| remote_shell := Some v |>)));
  (["rsync-path"], Take (λ v c, Ok (c <| rsync_path := Some v |>)));
  (["existing"], Set_ (λ c, c <| existing := true |>));
  (["ignore-non-existing"], Set_ (λ c, c <| existing := true |>));
  (["ignore-existing"], Set_ (λ c, c <| ignore_existing := true |>));
  (["del"; "delete"; "delete-during"],
   Set_ (λ c, c <| delete := true |> <| Cli.delete_mode := During |>));
  (["delete-before"], Set_ (λ c, c <| delete := true |> <| Cli.delete_mode := Before |>));
  (["delete-delay"], Set_ (λ c, c <| delete := true |> <| Cli.delete_mode := Delay |>));
  (["delete-after"], Set_ (λ c, c <| delete := true |> <| Cli.delete_mode := After |>));
  (["delete-excluded"], Set_ (λ c, c <| delete_excluded := true |>));
  (["ignore-missing-args"], Set_ (λ c, c <| ignore_missing_args := true |>));
  (["delete-missing-args"], Set_ (λ c, c <| delete_missing_args := true |>));
  (["ignore-errors"], Set_ (λ c, c <| ignore_errors := true |>));
  (["force"], Set_ (λ c, c <| force := true |>));
  (["max-delete"],
   Take (λ v c, let? n := parse_max_delete v in Ok (c <| max_delete := Some n |>)));
  (["max-size"], Take (λ v c, let? n := parse_size v in Ok (c <| max_size := Some n |>)));
  (["min-size"], Take (λ v c, let? n := parse_size v in Ok (c <| min_size := Some n |>)));
  (["partial"], Set_ (λ c, c <| partial := true |>));
  (["partial-dir"], Take (λ v c, Ok (c <| partial := true |> <| partial_dir := Some v |>)));
  (["delay-updates"], Set_ (λ c, c <| delay_updates := true |>));
  (["numeric-ids"], Set_ (λ c, c <| numeric_ids := true |>));
  (["usermap"], Take (λ v c, Ok (c <| user_maps ::= push v |>)));
  (["groupmap"], Take (λ v c, Ok (c <| group_maps ::= push v |>)));
  (["chown"], Take (λ v c, Ok (apply_chown_implications v c <| chown := Some v |>)));
  (["ignore-times"], Set_ (λ c, c <| ignore_times := true |>));
  (["size-only"], Set_ (λ c, c <| size_only := true |>));
  (["modify-window"], Take (λ v c, let? n := parse_i64 v in Ok (c <| modify_window := n |>)));
  (["temp-dir"], Take (λ v c, Ok (c <| temp_dir := Some v |>)));
  (["compress"], Set_ (λ c, c <| compress := true |>));
  (["compression-choice"; "compress-choice"; "zc"],
   Take (λ v c, Ok (c <| compress := true |> <| compress_choice := Some v |>)));
  (["compress-level"; "zl"],
   Take (λ v c, let? n := parse_u32 v in Ok (c <| compress_level := Some n |>)));
  (["compress-threads"; "zt"],
   Take (λ v c, let? n := parse_usize v in Ok (c <| compress_threads := Some n |>)));
  (["skip-compress"], Take (λ v c, Ok (c <| skip_compress ::= push v |>)));
  (["cvs-exclude"], Set_ (λ c, c <| cvs_exclude := true |>))
]%string.

Definition long_arms_session : Arms := [
  (["F"], Set_ apply_filter_shorthand);
  (["filter"], Take (λ v c, Ok (c <| filters ::= push v |>)));
  (["exclude"], Take (λ v c, Ok (c <| excludes ::= push v |>)));
  (["exclude-from"], Take (λ v c, Ok (c <| exclude_from ::= push v |>)));
  (["include"], Take (λ v c, Ok (c <| includes ::= push v |>)));
  (["include-from"], Take (λ v c, Ok (c <| include_from ::= push v |>)));
  (["files-from"], Take (λ v c, Ok (c <| files_from := Some v |>)));
  (["from0"], Set_ (λ c, c <| from0 := true |>));
  (["old-args"], Set_ (λ c, c <| old_args := true |> <| secluded_args := false |>));
  (["secluded-args"], Set_ (λ c, c <| secluded_args := true |> <| old_args := false |>));
  (["protect-args"], Set_ (λ c, c <| secluded_args := true |> <| old_args := false |>));
  (["trust-sender"], Set_ (λ c, c <| trust_sender := true |>));
  (["blocking-io"], Set_ (λ c, c <| blocking_io := true |>));
  (["human-readable"], Set_ (λ c, c <| human_readable ::= saturating_inc_u8 |>));
  (["progress"], Set_ (λ c, c <| progress := true |>));
  (["P"], Set_ (λ c, c <| partial := true |> <| progress := true |>));
  (["itemize-changes"], Set_ (λ c, c <| itemize_changes := true |>));
  (["remote-option"], Take (λ v c, Ok (c <| remote_options ::= push v |>)));
  (["ipv4"], Set_ (λ c, c <| ipv4 := true |> <| ipv6 := false |>));
  (["ipv6"], Set_ (λ c, c <| ipv6 := true |> <| ipv4 := false |>));
  (["password-file"], Take (λ v c, Ok (c <| password_file := Some v |>)));
  (["address"], Take (λ v c, Ok (c <| daemon_address := Some v |>)));
  (["port"], Take (λ v c, let? n := parse_u16 v in Ok (c <| daemon_port := Some n |>)));
  (["sockopts"], Take (λ v c, Ok (c <| daemon_sockopts := Some v |>)));
  (["contimeout"],
   Take (λ v c, let? n := parse_u64 v in Ok (c <| daemon_connect_timeout_secs := Some n |>)));
  (["no-motd"], Set_ (λ c, c <| daemon_no_motd := true |>));
  (["config"], Take (λ v c, Ok (c <| daemon_config := Some v |>)));
  (["dparam"], Take (λ v c, Ok (c <| daemon_params ::= push v |>)));
  (["no-detach"], Set_ (λ c, c <| daemon_no_detach := true |>));
  (["log-file"],
   Take (λ v c, Ok (c <| daemon_log_file := Some v |> <| client_log_file := Some v |>)));
  (["log-file-format"],
   Take (λ v c, Ok (c <| daemon_log_file_format := Some v |> <| client_log_file_format := Some v |>)));
  (["bwlimit"],
   Take (λ v c, let? _ := parse_bwlimit_value v in
                Ok (c <| daemon_bwlimit := Some v |> <| bwlimit := Some v |>)))
]%string.

Definition long_arms_operation : Arms := [
  (["list-only"], Set_ (λ c, c <| list_only := true |>));
  (["stats"], Set_ (λ c, c <| stats := true |>));
  (["fsync"], Set_ (λ c, c <| fsync := true |>));
  (["daemon"], Set_ (λ c, c <| daemon_server := true |>));
  (["server"],
   Set_ (λ c, remember_unsupported (lit "--server") (c <| internal_server := true |>)));
  (["sender"],
   Set_ (λ c, remember_unsupported (lit "--sender") (c <| internal_sender := true |>)));
  (["version"], Set_ (λ c, c <| version := true |>));
  (["plan"], Set_ (λ c, c <| plan := true |>));
  (["protocol-range"], Set_ (λ c, c <| protocol_range := true |>));
  (["metadata-policy"],
   Take (λ v c, let? n := parse_metadata_policy v in Ok (c <| metadata_policy := n |>)));
  (["fail-on-metadata-loss"], Set_ (λ c, c <| fail_on_metadata_loss := true |>));
  (["vss"], Set_ (λ c, c <| vss := true |>));
  (["info"], Take (λ v c, Ok (c <| info_flags ::= push v |>)));
  (["debug"], Take (λ v c, Ok (c <| debug_flags ::= push v |>)));
  (["stderr"], Take (λ v c, let? _ := parse_stderr_mode v in Ok (c <| stderr_mode := Some v |>)));
  (["msgs2stderr"],
   Set_ (λ c, c <| msgs2stderr := true |> <| no_msgs2stderr := false |>
      <| stderr_mode := Some (lit "all") |>));
  (["no-msgs2stderr"],
   Set_ (λ c, c <| no_msgs2stderr := true |> <| msgs2stderr := false |>
      <| stderr_mode := Some (lit "client") |>));
  (["out-format"], Take (λ v c, Ok (c <| out_format := Some v |>)));
  (["8-bit-output"], Set_ (λ c, c <| eight_bit_output := true |>));
  (["compare-dest"], Take (λ v c, Ok (c <| compare_dest ::= push v |>)));
  (["copy-dest"], Take (λ v c, Ok (c <| copy_dest ::= push v |>)));
  (["link-dest"], Take (λ v c, Ok (c <| link_dest ::= push v |>)));
  (["sparse"], Set_ (λ c, c <| sparse := true |>));
  (["preallocate"], Set_ (λ c, c <| preallocate := true |>));
  (["fuzzy"], Set_ (λ c, c <| fuzzy := true |>));
  (["copy-as"], Take (λ v c, Ok (c <| copy_as := Some v |>)));
  (["super"], Set_ (λ c, c <| super_flag := true |>));
  (["write-batch"], Take (λ v c, Ok (c <| write_batch := Some v |>)));
  (["only-write-batch"], Take (λ v c, Ok (c <| only_write_batch := Some v |>)));
  (["read-batch"], Take (λ v c, Ok (c <| read_batch := Some v |>)));
  (["timeout"],
   Take (λ v c, let? n := ok_or (parse_unsigned u64_max v)
     (OptionBail "--timeout value `{val}` is not a valid number of seconds") in
   Ok (c <| timeout_secs := Some n |>)));
  (["stop-after"],
   Take (λ v c, let? n := ok_or (parse_unsigned u64_max v)
     (OptionBail "--stop-after value `{val}` is not a valid number of minutes") in
   Ok (c <| stop_after_minutes := Some n |>)));
  (["time-limit"],
   Take (λ v c, let? n := ok_or (parse_unsigned u64_max v)
     (OptionBail "--time-limit value `{val}` is not a valid number of minutes") in
   Ok (c <| time_limit_minutes := Some n |>)));
  (["stop-at"],
   Take (λ v c, let? _ := map_err stop_error (validate_stop_at_value v) in
                Ok (c <| stop_at := Some v |>)));
  (["max-alloc"],
   Take (λ v c, let? _ := parse_max_alloc_value v in Ok (c <| max_alloc := Some v |>)));
  (["early-input"], Take (λ v c, Ok (c <| early_input := Some v |>)));
  (["outbuf"], Take (λ v c, let? n := parse_outbuf_value v in Ok (c <| outbuf := Some n |>)));
  (["protocol"], Take take_protocol);
  (["iconv"], Take (λ v c, Ok (c <| iconv := Some v |>)));
  (["open-noatime"], Set_ (λ c, c <| open_noatime := true |>))
]%string.

Definition long_arms : Arms :=
  long_arms_attributes ++ long_arms_transfer ++ long_arms_session ++ long_arms_operation.

(** The names that [apply_long_option] handles before it looks for "no-". *)
Definition standalone_arms : Arms := [
  (["no-implied-dirs"], Set_ (λ c, c <| implied_dirs := false |>));
  (["protect-args"], Set_ (λ c, c <| secluded_args := true |> <| old_args := false |>));
  (["no-motd"], Set_ (λ c, c <| daemon_no_motd := true |>));
  (["no-detach"], Set_ (λ c, c <| daemon_no_detach := true |>));
  (["msgs2stderr"],
   Set_ (λ c, c <| msgs2stderr := true |> <| no_msgs2stderr := false |>
                <| stderr_mode := Some (lit "all") |>));
  (["no-msgs2stderr"],
   Set_ (λ c, c <| no_msgs2stderr := true |> <| msgs2stderr := false |>
                <| stderr_mode := Some (lit "client") |>));
  (["inc-recursive"; "i-r"],
   Set_ (λ c, c <| inc_recursive := true |> <| no_inc_recursive := false |>));
  (["no-inc-recursive"; "no-i-r"],
   Set_ (λ c, c <| inc_recursive := false |> <| no_inc_recursive := true |>))
]%string.

(** Some of the names have to be in the table of options. *)
Definition apply_standalone_no_prefixed_or_compat_alias (c : Cli) (name : list Z) :
    result (option Cli) OptionError :=
  match find_arm standalone_arms name with
  | Some (Set_ f) =>
      if one_of name ["inc-recursive"; "i-r"; "no-inc-recursive"; "no-i-r"] &&
         negb (bool_decide (is_Some (find_long_spec name)))
      then bail "unknown option --{name}"
      else Ok (Some (f c))
  | _ => Ok None
  end.

(** ** The arms of [apply_negated_option] *)

Definition negated_arms : Arms := [
  (["archive"; "a"], Set_ (λ c, c <| archive := false |>));
  (["acls"; "A"], Set_ (λ c, c <| acls := false |>));
  (["append"], Set_ (λ c, c <| append := false |>));
  (["append-verify"], Set_ (λ c, c <| append_verify := false |>));
  (["backup"; "b"], Set_ (λ c, c <| backup := false |> <| backup_dir := None |>));
  (["checksum"; "c"], Set_ (λ c, c <| checksum := false |>));
  (["compress"; "z"],
   Set_ (λ c, c <| compress := false |> <| compress_choice := None |>
      <| compress_level := None |> <| compress_threads := None |> <| skip_compress := [] |>));
  (["copy-links"; "L"], Set_ (λ c, c <| copy_links := false |>));
  (["copy-dirlinks"; "k"], Set_ (λ c, c <| copy_dirlinks := false |>));
  (["copy-unsafe-links"], Set_ (λ c, c <| copy_unsafe_links := false |>));
  (["keep-dirlinks"; "K"], Set_ (λ c, c <| keep_dirlinks := false |>));
  (["munge-links"], Set_ (λ c, c <| munge_links := false |>));
  (["delay-updates"], Set_ (λ c, c <| delay_updates := false |>));
  (["delete"; "del"], Set_ (λ c, c <| delete := false |> <| Cli.delete_mode := NoDelete |>));
  (["delete-before"; "delete-during"; "delete-delay"; "delete-after"],
   Set_ (λ c, c <| delete := false |> <| Cli.delete_mode := NoDelete |>));
  (["delete-excluded"], Set_ (λ c, c <| delete_excluded := false |>));
  (["delete-missing-args"], Set_ (λ c, c <| delete_missing_args := false |>));
  (["dry-run"; "n"], Set_ (λ c, c <| dry_run := false |>));
  (["existing"; "ignore-non-existing"], Set_ (λ c, c <| existing := false |>));
  (["executability"; "E"], Set_ (λ c, c <| executability := false |>));
  (["fake-super"], Set_ (λ c, c <| fake_super := false |>));
  (["force"], Set_ (λ c, c <| force := false |>));
  (["from0"; "0"], Set_ (λ c, c <| from0 := false |>));
  (["fsync"], Set_ (λ c, c <| fsync := false |>));
  (["hard-links"; "H"], Set_ (λ c, c <| hard_links := false |>));
  (["ignore-errors"], Set_ (λ c, c <| ignore_errors := false |>));
  (["ignore-existing"], Set_ (λ c, c <| ignore_existing := false |>));
  (["ignore-missing-args"], Set_ (λ c, c <| ignore_missing_args := false |>));
  (["ignore-times"; "I"], Set_ (λ c, c <| ignore_times := false |>));
  (["inplace"], Set_ (λ c, c <| inplace := false |>));
  (["itemize-changes"; "i"], Set_ (λ c, c <| itemize_changes := false |>));
  (["list-only"], Set_ (λ c, c <| list_only := false |>));
  (["mkpath"], Set_ (λ c, c <| mkpath := false |>));
  (["numeric-ids"], Set_ (λ c, c <| numeric_ids := false |>));
  (["atimes"; "U"], Set_ (λ c, c <| atimes := false |>));
  (["crtimes"; "N"], Set_ (λ c, c <| crtimes := false |>));
  (["omit-dir-times"; "O"], Set_ (λ c, c <| omit_dir_times := false |>));
  (["omit-link-times"; "J"], Set_ (λ c, c <| omit_link_times := false |>));
  (["partial"], Set_ (λ c, c <| partial := false |> <| partial_dir := None |>));
  (["progress"], Set_ (λ c, c <| progress := false |>));
  (["P"], Set_ (λ c, c <| progress := false |> <| partial := false |> <| partial_dir := None |>));
  (["recursive"; "r"], Set_ (λ c, c <| recursive := false |> <| no_recursive := true |>));
  (["relative"; "R"], Set_ (λ c, c <| relative := false |>));
  (["dirs"; "d"; "old-dirs"; "old-d"], Set_ (λ c, c <| transfer_dirs := false |>));
  (["times"; "t"], Set_ (λ c, c <| preserve_times := false |> <| no_times := true |>));
  (["whole-file"; "W"], Set_ (λ c, c <| whole_file := false |>));
  (["one-file-system"; "x"], Set_ (λ c, c <| one_file_system := false |>));
  (["D"],
   Set_ (λ c, c <| devices := false |> <| specials := false |> <| no_devices := true |>
      <| no_specials := true |>));
  (["links"; "l"],
   Set_ (λ c, c <| links := false |> <| no_links := true |> <| copy_links := false |>
      <| copy_dirlinks := false |> <| copy_unsafe_links := false |>
      <| munge_links := false |> <| safe_links := false |>));
  (["safe-links"], Set_ (λ c, c <| safe_links := false |>));
  (["implied-dirs"], Set_ (λ c, c <| implied_dirs := false |>));
  (["o"; "owner"], Set_ (λ c, c <| preserve_owner := false |> <| no_owner := true |>));
  (["g"; "group"], Set_ (λ c, c <| preserve_group := false |> <| no_group := true |>));
  (["human-readable"; "h"], Set_ (λ c, c <| human_readable := 0 |>));
  (["old-args"], Set_ (λ c, c <| old_args := false |>));
  (["secluded-args"; "s"; "protect-args"], Set_ (λ c, c <| secluded_args := false |>));
  (["blocking-io"], Set_ (λ c, c <| blocking_io := false |>));
  (["trust-sender"], Set_ (λ c, c <| trust_sender := false |>));
  (["ipv4"; "4"], Set_ (λ c, c <| ipv4 := false |>));
  (["ipv6"; "6"], Set_ (λ c, c <| ipv6 := false |>));
  (["iconv"], Set_ (λ c, c <| iconv := None |>));
  (["open-noatime"], Set_ (λ c, c <| open_noatime := false |>));
  (["sparse"; "S"], Set_ (λ c, c <| sparse := false |>));
  (["preallocate"], Set_ (λ c, c <| preallocate := false |>));
  (["fuzzy"; "y"], Set_ (λ c, c <| fuzzy := false |>));
  (["super"], Set_ (λ c, c <| super_flag := false |>));
  (["perms"; "p"], Set_ (λ c, c <| preserve_permissions := false |> <| no_permissions := true |>));
  (["devices"],
   Set_ (λ c, c <| devices := false |> <| copy_devices := false |>
      <| write_devices := false |> <| no_devices := true |>));
  (["specials"], Set_ (λ c, c <| specials := false |> <| no_specials := true |>));
  (["size-only"], Set_ (λ c, c <| size_only := false |>));
  (["stats"], Set_ (λ c, c <| stats := false |>));
  (["update"; "u"], Set_ (λ c, c <| update := false |>));
  (["xattrs"; "X"], Set_ (λ c, c <| xattrs := false |>))
]%string.

Definition apply_negated_option (c : Cli) (name : list Z) : result Cli OptionError :=
  match find_arm negated_arms name with
  | Some (Set_ f) => Ok (f c)
  | _ =>
      if bool_decide (is_Some (find_long_spec name))
      then Ok (remember_unsupported (lit "--no-" ++ name) c)
      else bail "unknown option --no-{name}"
  end.

Definition required_value (value : option (list Z)) : result (list Z) OptionError :=
  ok_or value (OptionBail "option --{name} requires a value").

Definition apply_long_option (c : Cli) (name : list Z) (value : option (list Z)) :
    result Cli OptionError :=
  if bool_decide (name = lit "help") then Ok (c <| help := true |>)
  else
    let? standalone := apply_standalone_no_prefixed_or_compat_alias c name in
    match standalone with
    | Some c => Ok c
    | None =>
        match strip_prefix name (lit "no-") with
        | Some negated => apply_negated_option c negated
        | None =>
            if negb (bool_decide (is_Some (find_long_spec name))) then bail "unknown option --{name}"
            else
              match find_arm long_arms name with
              | Some (Set_ f) => Ok (f c)
              | Some (Take f) => let? v := required_value value in f v c
              | None => Ok (remember_unsupported (lit "--" ++ name) c)
              end
        end
    end.

(** ** The loop over the arguments *)

Definition split_long_option (arg : list Z) : list Z * option (list Z) :=
  match split_once (ch "=") arg with
  | Some (name, value) => (name, Some value)
  | None => (arg, None)
  end.

(** The characters after the dash; [next] is the argument that follows.  The result says
    whether that one was taken. *)
Fixpoint parse_short_options (c : Cli) (chars : list Z) (next : option (list Z))
    (help_only : bool) : result (Cli * bool) OptionError :=
  match chars with
  | [] => Ok (c, false)
  | opt :: chars =>
      if (opt =? ch "h") && help_only then
        parse_short_options (c <| help := true |>) chars next help_only
      else if short_requires_value opt then
        match chars with
        | [] =>
            let? value := ok_or next (OptionBail "option -{option} requires a value") in
            let? c := apply_short_option c opt (Some value) in
            Ok (c, true)
        | _ =>
            let? c := apply_short_option c opt (Some (trim_start_matches (ch "=") chars)) in
            Ok (c, false)
        end
      else
        let? c := apply_short_option c opt None in
        parse_short_options c chars next help_only
  end.

(** The arguments that are left. *)
Fixpoint parse_arguments (help_only : bool) (c : Cli) (args : list (list Z)) :
    result Cli OptionError :=
  match args with
  | [] => Ok c
  | arg :: rest =>
      if bool_decide (arg = lit "--") then Ok (c <| paths ::= λ paths, paths ++ rest |>)
      else if bool_decide (arg = lit "-h") && help_only then
        parse_arguments help_only (c <| help := true |>) rest
      else
        match strip_prefix arg (lit "--") with
        | Some long =>
            let '(name, inline_value) := split_long_option long in
            if long_requires_value name then
              match inline_value, rest with
              | Some value, _ =>
                  let? c := apply_long_option c name (Some value) in
                  parse_arguments help_only c rest
              | None, value :: rest =>
                  let? c := apply_long_option c name (Some value) in
                  parse_arguments help_only c rest
              | None, [] => bail "option --{name} requires a value"
              end
            else if bool_decide (is_Some inline_value) then bail "option --{name} does not take a value"
            else
              let? c := apply_long_option c name None in
              parse_arguments help_only c rest
        | None =>
            if starts_with arg (lit "-") && (1 <? length arg)%nat then
              let? (c, taken) := parse_short_options c (drop 1 arg) (head rest) help_only in
              match taken, rest with
              | true, _ :: rest => parse_arguments help_only c rest
              | _, _ => parse_arguments help_only c rest
              end
            else parse_arguments help_only (c <| paths ::= push arg |>) rest
        end
  end.

(** [arg.replace('\\', "/")], and what follows the last slash. *)
Definition is_program_name (arg : list Z) : bool :=
  let normalized := (λ c, if c =? ch "\" then ch "/" else c) <$> arg in
  one_of (to_ascii_lowercase (default [] (last (split_on (ch "/") normalized))))
    ["rsync-win"; "rsync-win.exe"].

Definition argument_start_index (raw : list (list Z)) : nat :=
  match raw with arg :: _ => if is_program_name arg then 1 else 0 | [] => 0 end.

(** The arguments before the first "--". *)
Definition before_separator (raw : list (list Z)) : list (list Z) :=
  match list_find (λ arg, arg = lit "--") raw with Some (i, _) => take i raw | None => raw end.

Definition parse_cli (raw : list (list Z)) : result Cli OptionError :=
  let args := drop (argument_start_index raw) raw in
  let help_only := match args with [arg] => one_of arg ["-h"; "--help"] | _ => false end in
  if help_only || existsb (λ arg, bool_decide (arg = lit "--help")) (before_separator raw)
  then Ok (Cli_default <| help := true |>)
  else parse_arguments help_only Cli_default args.
