(* ===== verification/OptionsFacts.v ===== *)
(** * What the parser of the command line promises

    Short and long forms say the same, negations take back what they negate, and which
    arguments are operands depends on the table of options alone. *)

From S2P Require Import Prelude Stream Str Text FsPath Metadata FileSystem SyncPlan.
From S2P Require Import StopAt DaemonConfig Values Cli Options.

(** ** Short and long forms *)

(** A short option and its long form. *)
Definition alike (spec : OptionSpec) : Prop :=
  ∀ opt, short spec = Some opt → opt ≠ ch "m" →
  short_requires_value opt = long_requires_value (long spec) ∧
  ∀ c v, (opt = ch "M" → daemon_server c = false) →
    (long_requires_value (long spec) = true → is_Some v) →
    apply_short_option c opt v = apply_long_option c (long spec) v.

Ltac alike :=
  intros opt Hopt Hm; vm_compute in Hopt;
  first [discriminate Hopt | injection Hopt as <-];
  first [by destruct (Hm eq_refl) |
  split; [reflexivity|]; intros c v HM Hv;
  first [reflexivity
        | destruct (Hv eq_refl) as [x ->]; reflexivity
        | destruct (Hv eq_refl) as [x ->]; specialize (HM eq_refl);
          cbv -[daemon_server]; rewrite HM; reflexivity]].

Lemma upstream_alike : Forall alike UPSTREAM_CLIENT_OPTIONS.
Proof. unfold UPSTREAM_CLIENT_OPTIONS. repeat (apply Forall_cons; split; [alike|]). constructor. Qed.

(** The names of an option can be told from each other and from a value. *)
Lemma upstream_names :
  Forall (λ spec, ∀ opt, short spec = Some opt →
    opt ≠ ch "-" ∧ long spec ≠ [] ∧ (ch "=") ∉ long spec) UPSTREAM_CLIENT_OPTIONS.
Proof.
  assert (Hall : forallb (λ spec,
    match short spec with Some opt => negb (opt =? ch "-") | None => true end &&
    negb (bool_decide (long spec = [])) && negb (contains (long spec) (ch "=")))
    UPSTREAM_CLIENT_OPTIONS = true) by (vm_compute; reflexivity).
  rewrite forallb_forall in Hall. apply Forall_forall. intros spec Hin opt Hopt.
  apply list_elem_of_In, Hall in Hin. rewrite Hopt in Hin.
  apply andb_true_iff in Hin as [[Ho%negb_true_iff Hl%negb_true_iff]%andb_true_iff He%negb_true_iff].
  apply Z.eqb_neq in Ho. apply bool_decide_eq_false in Hl. split_and!; [done..|].
  intros Hin%contains_spec. congruence.
Qed.

Lemma short_argument c opt chars rest :
  opt ≠ ch "-" →
  parse_arguments false c ((ch "-" :: opt :: chars) :: rest) =
  let? (c, taken) := parse_short_options c (opt :: chars) (head rest) false in
  match taken, rest with
  | true, _ :: rest => parse_arguments false c rest
  | _, _ => parse_arguments false c rest
  end.
Proof.
  intros Ho. cbn [parse_arguments].
  rewrite bool_decide_false by (intros Hd; injection Hd; intros; done).
  rewrite andb_false_r.
  assert (strip_prefix (ch "-" :: opt :: chars) (lit "--") = None) as ->.
  { unfold strip_prefix, starts_with. cbn. rewrite (proj2 (bool_decide_eq_false _)); [done|].
    intros Hd. by injection Hd. }
  done.
Qed.

Lemma long_argument c name value rest :
  name ≠ [] → (ch "=") ∉ name →
  parse_arguments false c ((lit "--" ++ name ++ from_option (cons (ch "=")) [] value) :: rest) =
  if long_requires_value name then
    match value, rest with
    | Some value, _ => let? c := apply_long_option c name (Some value) in parse_arguments false c rest
    | None, value :: rest =>
        let? c := apply_long_option c name (Some value) in parse_arguments false c rest
    | None, [] => bail "option --{name} requires a value"
    end
  else if bool_decide (is_Some value) then bail "option --{name} does not take a value"
  else let? c := apply_long_option c name None in parse_arguments false c rest.
Proof.
  intros Hne Heq. cbn [parse_arguments].
  rewrite bool_decide_false by (destruct name; [done|]; discriminate).
  rewrite andb_false_r.
  assert (strip_prefix (lit "--" ++ name ++ from_option (cons (ch "=")) [] value) (lit "--") =
    Some (name ++ from_option (cons (ch "=")) [] value)) as -> by done.
  unfold split_long_option. destruct value as [value|]; cbn [from_option].
  - by rewrite split_once_app.
  - by rewrite app_nil_r, split_once_plain.
Qed.

Lemma equals_kept value : head value ≠ Some (ch "=") → trim_start_matches (ch "=") value = value.
Proof.
  destruct value as [|x value]; [done|]. intros Hx. cbn. rewrite (proj2 (Z.eqb_neq _ _)); [done|].
  intros ->. by apply Hx.
Qed.

(** C33. On a command line, wherever its options have led so far, every option of the
    client's table that has a short form can be given in either form: both take the next
    argument for their value or neither does, a value can be attached to the short form as
    it can to the long one after an equals sign, unless it begins with one itself, and a
    short form without a value can be followed by others in the same argument.  This does
    not hold for -m, which the parser does not know, and for -M, which is another option
    when the command line is for a daemon; a command line of -h alone, which asks for help,
    does not get to this loop. *)
Theorem short_options_are_long_options spec opt c rest :
  spec ∈ UPSTREAM_CLIENT_OPTIONS → short spec = Some opt → opt ≠ ch "m" →
  (opt = ch "M" → daemon_server c = false) →
  ((long_requires_value (long spec) = true → rest ≠ []) →
   parse_arguments false c ([ch "-"; opt] :: rest) =
   parse_arguments false c ((lit "--" ++ long spec) :: rest)) ∧
  (∀ value, long_requires_value (long spec) = true → value ≠ [] → head value ≠ Some (ch "=") →
   parse_arguments false c ((ch "-" :: opt :: value) :: rest) =
   parse_arguments false c ((lit "--" ++ long spec ++ lit "=" ++ value) :: rest)) ∧
  (∀ others, long_requires_value (long spec) = false → others ≠ [] → head others ≠ Some (ch "-") →
   parse_arguments false c ((ch "-" :: opt :: others) :: rest) =
   parse_arguments false c ((lit "--" ++ long spec) :: (ch "-" :: others) :: rest)).
Proof.
  intros Hspec Hopt Hm HM.
  pose proof upstream_alike as Hall. rewrite Forall_forall in Hall.
  destruct (Hall spec Hspec opt Hopt Hm) as [Hr Ha].
  pose proof upstream_names as Hnames. rewrite Forall_forall in Hnames.
  destruct (Hnames spec Hspec opt Hopt) as (Hdash & Hne & Heq).
  assert (Hlong : ∀ rest, parse_arguments false c ((lit "--" ++ long spec) :: rest) =
    parse_arguments false c ((lit "--" ++ long spec ++ from_option (cons (ch "=")) [] None) :: rest))
    by (intros; cbn [from_option]; by rewrite app_nil_r).
  split_and!.
  - intros Hrest. rewrite Hlong, long_argument, short_argument by done. cbn [parse_short_options].
    rewrite andb_false_r, Hr. destruct (long_requires_value (long spec)) eqn:Hv.
    + destruct rest as [|value rest]; [by destruct (Hrest eq_refl)|]. cbn [head ok_or and_then].
      rewrite Ha by done. by destruct (apply_long_option _ _ _).
    + rewrite Ha by done. cbn [is_Some]. rewrite bool_decide_false by (intros [? ?]; done).
      by destruct (apply_long_option _ _ _).
  - intros value Hv Hvalue Hhead.
    change (lit "=" ++ value) with (from_option (cons (ch "=")) [] (Some value)).
    rewrite long_argument, short_argument by done. cbn [parse_short_options].
    rewrite andb_false_r, Hr, Hv. destruct value as [|x value]; [done|].
    rewrite equals_kept, Ha by done. by destruct (apply_long_option _ _ _).
  - intros others Hv Hothers Hhead. destruct others as [|other others]; [done|].
    rewrite Hlong, long_argument by done. rewrite short_argument by done. cbn [parse_short_options].
    rewrite andb_false_r, Hr, Hv, Ha by (done || by rewrite Hv).
    rewrite bool_decide_false by (intros [? ?]; done).
    destruct (apply_long_option c (long spec) None) as [c'|]; [|done]. cbn [and_then].
    rewrite short_argument by (intros ->; by apply Hhead). done.
Qed.

(** -B 4k, -B4k and --block-size=4k, and -rt and --recursive -t. *)
Lemma short_options_are_long_options_witness :
  parse_arguments false Cli_default [[ch "-"; ch "B"]; lit "4k"; lit "a"] =
  parse_arguments false Cli_default [lit "--block-size"; lit "4k"; lit "a"] ∧
  parse_arguments false Cli_default [lit "-B4k"; lit "a"] =
  parse_arguments false Cli_default [lit "--block-size=4k"; lit "a"] ∧
  parse_arguments false Cli_default [lit "-rt"; lit "a"] =
  parse_arguments false Cli_default [lit "--recursive"; lit "-t"; lit "a"].
Proof.
  assert (Hb : value "block-size" (Some "B"%string) Partial ∈ UPSTREAM_CLIENT_OPTIONS)
    by (apply (list_elem_of_lookup_2 _ 63); reflexivity).
  split; [|split].
  - apply (short_options_are_long_options _ (ch "B") Cli_default [lit "4k"; lit "a"] Hb);
      [reflexivity|discriminate|discriminate|discriminate].
  - apply (short_options_are_long_options _ (ch "B") Cli_default [lit "a"] Hb);
      [reflexivity|discriminate|discriminate|reflexivity|discriminate|discriminate].
  - apply (short_options_are_long_options (flag "recursive" (Some "r"%string) Partial) (ch "r") Cli_default [lit "a"]);
      [apply (list_elem_of_lookup_2 _ 10); reflexivity|reflexivity|discriminate|discriminate|reflexivity|discriminate|discriminate].
Defined.

(** ** Negations *)

(** The options whose negation takes back all they set. *)
Definition toggles : list string := [
  "checksum"; "recursive"; "relative"; "backup"; "update"; "inplace"; "append"; "append-verify";
  "dirs"; "old-dirs"; "old-d"; "mkpath"; "links"; "keep-dirlinks"; "hard-links"; "perms";
  "executability"; "xattrs"; "owner"; "group"; "devices"; "specials"; "D"; "times"; "atimes";
  "crtimes"; "omit-dir-times"; "omit-link-times"; "fake-super"; "dry-run"; "whole-file";
  "one-file-system"; "existing"; "ignore-non-existing"; "ignore-existing"; "del"; "delete";
  "delete-during"; "delete-before"; "delete-delay"; "delete-after"; "delete-excluded";
  "ignore-missing-args"; "delete-missing-args"; "ignore-errors"; "force"; "partial";
  "delay-updates"; "numeric-ids"; "ignore-times"; "size-only"; "compress"; "from0";
  "trust-sender"; "blocking-io"; "human-readable"; "progress"; "P"; "itemize-changes";
  "list-only"; "stats"; "fsync"; "sparse"; "preallocate"; "fuzzy"; "super"; "open-noatime"
]%string.

Definition taken_back (name : string) : Prop :=
  ∀ c,
    (let? c1 := apply_long_option c (lit name) None in
     apply_long_option c1 (lit "no-" ++ lit name) None) =
    apply_long_option c (lit "no-" ++ lit name) None.

Lemma toggles_taken_back : Forall taken_back toggles.
Proof.
  unfold toggles. repeat (apply Forall_cons; split; [intros c; reflexivity|]). constructor.
Qed.

(** For each of these 67 options, --x followed by --no-x leaves what --no-x alone
    leaves, whatever came before. *)
Theorem negation_takes_back name c :
  name ∈ toggles →
  (let? c1 := apply_long_option c (lit name) None in
   apply_long_option c1 (lit "no-" ++ lit name) None) =
  apply_long_option c (lit "no-" ++ lit name) None.
Proof.
  intros Hn. pose proof toggles_taken_back as Hall. rewrite Forall_forall in Hall.
  exact (Hall name Hn c).
Qed.
(** ** The forms of an argument *)

(** ** The forms of an argument *)

Lemma separator_long name : name ≠ [] → bool_decide (lit "--" ++ name = lit "--") = false.
Proof. intros Hne. apply bool_decide_eq_false. destruct name; [done|]. intros [=]. Qed.

Lemma help_long name : bool_decide (lit "--" ++ name = lit "-h") = false.
Proof. reflexivity. Qed.

Lemma long_value_form h c name v rest :
  long_requires_value name = true → ch "=" ∉ name →
  parse_arguments h c ((lit "--" ++ name ++ ch "=" :: v) :: rest) =
  parse_arguments h c ((lit "--" ++ name) :: v :: rest).
Proof.
  intros Hr Hname.
  assert (name ≠ []) as Hne by (intros ->; vm_compute in Hr; discriminate).
  cbn [parse_arguments]. unfold split_long_option.
  rewrite !strip_prefix_app, split_once_app, split_once_plain, Hr by done.
  rewrite !separator_long, !help_long by (done || by destruct name). done.
Qed.

(** The second character of a cluster is not a dash. *)
Lemma cluster_head opt opts :
  opt ≠ ch "-" →
  bool_decide (ch "-" :: opt :: opts = lit "--") = false ∧
  strip_prefix (ch "-" :: opt :: opts) (lit "--") = None ∧
  starts_with (ch "-" :: opt :: opts) (lit "-") = true.
Proof.
  intros Hopt. split_and!.
  - apply bool_decide_eq_false. by intros [= ->].
  - unfold strip_prefix, starts_with. rewrite bool_decide_false; [done|]. by intros [= ->].
  - unfold starts_with. by apply bool_decide_true.
Qed.

Lemma short_value_form c opt v rest :
  short_requires_value opt = true → v ≠ [] → head v ≠ Some (ch "=") →
  parse_arguments false c ((ch "-" :: opt :: v) :: rest) =
  parse_arguments false c ([ch "-"; opt] :: v :: rest).
Proof.
  intros Hr Hv He.
  assert (opt ≠ ch "-") as Hopt by (intros ->; vm_compute in Hr; discriminate).
  destruct (cluster_head opt v Hopt) as (H1 & H2 & H3).
  destruct (cluster_head opt [] Hopt) as (H1' & H2' & H3').
  cbn [parse_arguments]. rewrite H1, H2, H3, H1', H2', H3'. rewrite ?andb_false_r.
  cbn [drop length Nat.ltb Nat.leb andb parse_short_options head]. rewrite ?andb_false_r, Hr.
  destruct v as [|x v]; [done|]. cbn [ok_or and_then].
  replace (trim_start_matches (ch "=") (x :: v)) with (x :: v).
  { by destruct (apply_short_option c opt (Some (x :: v))). }
  cbn [head] in He. cbn [trim_start_matches]. destruct (Z.eqb_spec x (ch "=")); congruence.
Qed.

Lemma cluster_form c opt opts rest :
  short_requires_value opt = false → opt ≠ ch "-" → opts ≠ [] → head opts ≠ Some (ch "-") →
  parse_arguments false c ((ch "-" :: opt :: opts) :: rest) =
  parse_arguments false c ([ch "-"; opt] :: (ch "-" :: opts) :: rest).
Proof.
  intros Hr Hopt Hne Hd. destruct opts as [|opt' opts]; [done|].
  assert (opt' ≠ ch "-") as Hopt' by (intros ->; by apply Hd).
  destruct (cluster_head opt (opt' :: opts) Hopt) as (H1 & H2 & H3).
  destruct (cluster_head opt [] Hopt) as (H1' & H2' & H3').
  destruct (cluster_head opt' opts Hopt') as (H1'' & H2'' & H3'').
  cbn [parse_arguments]. rewrite H1, H2, H3, H1', H2', H3'. rewrite ?andb_false_r.
  cbn [drop length Nat.ltb Nat.leb andb head]. 
  cbn [parse_short_options]. rewrite ?andb_false_r, Hr.
  destruct (apply_short_option c opt None) as [c'|]; [|done]. cbn [and_then].
  cbn [parse_arguments]. rewrite H1'', H2'', H3''. rewrite ?andb_false_r.
  cbn [drop length Nat.ltb Nat.leb andb]. cbn [parse_short_options]. rewrite ?andb_false_r. done.
Qed.

(** The forms an argument may be written in say the same: --name=value is --name value,
    -Xvalue is -X value, a cluster of short options is the options one by one, and what
    follows a lone -- is operands. *)
Theorem argument_forms c rest :
  (∀ name v, long_requires_value name = true → ch "=" ∉ name →
     parse_arguments false c ((lit "--" ++ name ++ ch "=" :: v) :: rest) =
     parse_arguments false c ((lit "--" ++ name) :: v :: rest)) ∧
  (∀ opt v, short_requires_value opt = true → v ≠ [] → head v ≠ Some (ch "=") →
     parse_arguments false c ((ch "-" :: opt :: v) :: rest) =
     parse_arguments false c ([ch "-"; opt] :: v :: rest)) ∧
  (∀ opt opts, short_requires_value opt = false → opt ≠ ch "-" → opts ≠ [] →
     head opts ≠ Some (ch "-") →
     parse_arguments false c ((ch "-" :: opt :: opts) :: rest) =
     parse_arguments false c ([ch "-"; opt] :: (ch "-" :: opts) :: rest)) ∧
  parse_arguments false c (lit "--" :: rest) = Ok (c <| paths ::= λ paths, paths ++ rest |>).
Proof.
  split_and!; intros; [by apply long_value_form|by apply short_value_form|by apply cluster_form|done].
Qed.

Lemma argument_forms_witness :
  parse_arguments false Cli_default [lit "-rB4k"; lit "a"] =
  parse_arguments false Cli_default [lit "-r"; lit "-B"; lit "4k"; lit "a"].
Proof.
  destruct (argument_forms Cli_default [lit "a"]) as (_ & _ & Hcluster & _).
  transitivity (parse_arguments false Cli_default [lit "-r"; lit "-B4k"; lit "a"]).
  - apply (Hcluster (ch "r") (lit "B4k")); [reflexivity|discriminate|discriminate|discriminate].
  - vm_compute. reflexivity.
Defined.

(** ** Operands *)

Fixpoint takes_next (chars : list Z) : bool :=
  match chars with
  | [] => false
  | opt :: chars =>
      if short_requires_value opt then bool_decide (chars = []) else takes_next chars
  end.

(** The operands among the arguments, by the table of options alone. *)
Fixpoint operands (args : list (list Z)) : list (list Z) :=
  match args with
  | [] => []
  | arg :: rest =>
      if bool_decide (arg = lit "--") then rest
      else
        match strip_prefix arg (lit "--") with
        | Some long =>
            let '(name, inline_value) := split_long_option long in
            match rest with
            | _ :: later =>
                if long_requires_value name && negb (bool_decide (is_Some inline_value))
                then operands later else operands rest
            | [] => []
            end
        | None =>
            if starts_with arg (lit "-") && (1 <? length arg)%nat then
              match rest with
              | _ :: later => if takes_next (drop 1 arg) then operands later else operands rest
              | [] => []
              end
            else arg :: operands rest
        end
  end.

Definition keeps_paths (action : Action) : Prop :=
  match action with
  | Set_ f => ∀ c, paths (f c) = paths c
  | Take f => ∀ v c c', f v c = Ok c' → paths c' = paths c
  end.

Lemma remember_unsupported_paths name c : paths (remember_unsupported name c) = paths c.
Proof. unfold remember_unsupported. by destruct (one_of _ _). Qed.

Lemma filter_shorthand_paths c : paths (apply_filter_shorthand c) = paths c.
Proof. unfold apply_filter_shorthand. by destruct (_ =? _)%nat. Qed.

Ltac keeps :=
  cbn [snd keeps_paths]; intros;
  repeat match goal with H : and_then _ _ = Ok _ |- _ => apply and_then_Ok in H as (? & ? & H) end;
  repeat match goal with H : (if ?b then _ else _) = Ok _ |- _ => destruct b; try discriminate H end;
  try match goal with H : Ok _ = Ok _ |- _ => injection H as <- end;
  first [reflexivity
        |match goal with |- context [if ?b then _ else _] => destruct b end; reflexivity
        |apply filter_shorthand_paths
        |etransitivity; [apply remember_unsupported_paths|]; reflexivity
        |unfold apply_chown_implications; destruct (default _ _) as [user group];
         destruct (non_empty user), (non_empty group); reflexivity].

Lemma short_arms_keep : Forall (λ arm, keeps_paths arm.2) short_arms.
Proof. unfold short_arms. repeat (apply Forall_cons; split; [keeps|]). constructor. Qed.

Lemma long_arms_keep : Forall (λ arm, keeps_paths arm.2) long_arms.
Proof.
  unfold long_arms. repeat apply Forall_app_2;
    unfold long_arms_attributes, long_arms_transfer, long_arms_session, long_arms_operation,
      take_protocol;
    repeat (apply Forall_cons; split; [keeps|]); constructor.
Qed.

Lemma standalone_arms_keep : Forall (λ arm, keeps_paths arm.2) standalone_arms.
Proof. unfold standalone_arms. repeat (apply Forall_cons; split; [keeps|]). constructor. Qed.

Lemma negated_arms_keep : Forall (λ arm, keeps_paths arm.2) negated_arms.
Proof. unfold negated_arms. repeat (apply Forall_cons; split; [keeps|]). constructor. Qed.

Lemma find_arm_keeps arms name action :
  Forall (λ arm, keeps_paths arm.2) arms → find_arm arms name = Some action → keeps_paths action.
Proof.
  intros Hall Hf. unfold find_arm in Hf. destruct (List.find _ arms) as [arm|] eqn:He; [|done].
  injection Hf as <-. apply find_some in He as [Hin _]. rewrite Forall_forall in Hall.
  apply Hall. by apply list_elem_of_In.
Qed.

Lemma apply_short_keeps c opt v c' : apply_short_option c opt v = Ok c' → paths c' = paths c.
Proof.
  unfold apply_short_option. destruct (find_arm short_arms [opt]) as [[f|f]|] eqn:Hf; [| |done].
  - intros [= <-]. by apply (find_arm_keeps _ _ _ short_arms_keep Hf).
  - intros H. apply and_then_Ok in H as (x & _ & H).
    by apply (find_arm_keeps _ _ _ short_arms_keep Hf x).
Qed.

Lemma apply_negated_keeps c name c' : apply_negated_option c name = Ok c' → paths c' = paths c.
Proof.
  unfold apply_negated_option. destruct (find_arm negated_arms name) as [[f|f]|] eqn:Hf.
  { intros [= <-]. by apply (find_arm_keeps _ _ _ negated_arms_keep Hf). }
  all: destruct (bool_decide _); [|done]; intros [= <-]; apply remember_unsupported_paths.
Qed.

Lemma apply_long_keeps c name v c' : apply_long_option c name v = Ok c' → paths c' = paths c.
Proof.
  unfold apply_long_option. destruct (bool_decide (name = _)); [by intros [= <-]|]. intros H.
  apply and_then_Ok in H as (standalone & Hs & H). destruct standalone as [c1|].
  { injection H as <-. unfold apply_standalone_no_prefixed_or_compat_alias in Hs.
    destruct (find_arm standalone_arms name) as [[f|f]|] eqn:Hf; [|done..].
    destruct (_ && _); [done|]. injection Hs as <-.
    by apply (find_arm_keeps _ _ _ standalone_arms_keep Hf). }
  destruct (strip_prefix name (lit "no-")); [by eapply apply_negated_keeps|].
  destruct (negb _); [done|]. destruct (find_arm long_arms name) as [[f|f]|] eqn:Hf.
  - injection H as <-. by apply (find_arm_keeps _ _ _ long_arms_keep Hf).
  - apply and_then_Ok in H as (x & _ & H). by apply (find_arm_keeps _ _ _ long_arms_keep Hf x).
  - injection H as <-. apply remember_unsupported_paths.
Qed.

Lemma short_options_keep chars next c c' taken :
  parse_short_options c chars next false = Ok (c', taken) →
  paths c' = paths c ∧ taken = takes_next chars ∧ (taken = true → is_Some next).
Proof.
  revert c. induction chars as [|opt chars IH]; intros c; [by intros [= <- <-]|].
  cbn [parse_short_options takes_next]. rewrite andb_false_r.
  destruct (short_requires_value opt).
  - destruct chars as [|x chars]; intros H.
    + apply and_then_Ok in H as (v & Hv & H). apply and_then_Ok in H as (c1 & H1 & [= <- <-]).
      apply apply_short_keeps in H1. destruct next; [by eauto|done].
    + apply and_then_Ok in H as (c1 & H1 & [= <- <-]). by apply apply_short_keeps in H1.
  - intros H. apply and_then_Ok in H as (c1 & H1 & H). apply apply_short_keeps in H1.
    rewrite <-H1. by apply IH.
Qed.

(** The operands of a command line that parses are those arguments that the table of
    options leaves: not options, not the values options take, in their order, and all
    after a lone --.  No option adds an operand or loses one. *)
Theorem operands_are_kept c args c' :
  parse_arguments false c args = Ok c' → paths c' = paths c ++ operands args.
Proof.
  remember (length args) as n eqn:Hn. assert (length args ≤ n)%nat as Hle by lia. clear Hn.
  revert args c Hle. induction n as [|n IH]; intros [|arg rest] c Hle; try (cbn in Hle; lia).
  1,2: intros [= <-]; by rewrite app_nil_r.
  cbn [length] in Hle. cbn [parse_arguments operands].
  destruct (bool_decide (arg = lit "--")); [by intros [= <-]|]. rewrite andb_false_r.
  destruct (strip_prefix arg (lit "--")) as [long|].
  - destruct (split_long_option long) as [name inline].
    destruct (long_requires_value name), inline as [v|]; cbn [andb negb]; try done.
    + rewrite bool_decide_true by eauto. intros H.
      apply and_then_Ok in H as (c1 & H1 & H). apply apply_long_keeps in H1.
      rewrite <-H1, (IH rest _ ltac:(lia) H). by destruct rest.
    + rewrite bool_decide_false by (intros [? [=]]). destruct rest as [|v rest]; [done|]. intros H.
      apply and_then_Ok in H as (c1 & H1 & H). apply apply_long_keeps in H1. cbn [negb length] in *.
      rewrite <-H1. apply IH; [lia|done].
    + rewrite bool_decide_false by (intros [? [=]]). intros H.
      apply and_then_Ok in H as (c1 & H1 & H). apply apply_long_keeps in H1.
      rewrite <-H1, (IH rest _ ltac:(lia) H). by destruct rest.
  - destruct (_ && _).
    + intros H. apply and_then_Ok in H as ([c1 taken] & H1 & H).
      apply short_options_keep in H1 as (Hp & -> & Ht). rewrite <-Hp.
      destruct rest as [|v rest]; cbn [length] in Hle.
      * rewrite app_nil_r. destruct (takes_next _); by injection H as <-.
      * destruct (takes_next _); apply IH; cbn [length]; try done; lia.
    + intros H. rewrite (IH rest _ ltac:(lia) H). cbn. unfold push. by rewrite <-app_assoc.
Qed.

Lemma operands_are_kept_witness :
  operands [lit "-rB"; lit "4k"; lit "a"; lit "--exclude"; lit "x"; lit "b"; lit "--"; lit "-c"] =
  [lit "a"; lit "b"; lit "-c"].
Proof.
  set (args := [_; _; _; _; _; _; _; _]).
  destruct (parse_arguments false Cli_default args) as [c'|e] eqn:H; [|vm_compute in H; discriminate].
  pose proof (operands_are_kept Cli_default args c' H) as Hp. cbn [app paths Cli_default] in Hp.
  rewrite <-Hp. vm_compute in H. injection H as <-. reflexivity.
Defined.

(** ** Command lines *)

(** A short option of the table that the parser refuses. *)
Example prune_empty_dirs_refused :
  apply_short_option Cli_default (ch "m") None = bail "unknown option -{other}" ∧
  is_ok (apply_long_option Cli_default (lit "prune-empty-dirs") None) = true.
Proof. split; reflexivity. Qed.

(** -A asks for permissions, as --acls does, but a --no-perms before it stays. *)
Example acls_after_no_perms :
  match parse_cli [lit "--no-perms"; lit "-A"; lit "a"; lit "b"] with
  | Ok c => preserve_permissions c && no_permissions c
  | Err _ => false
  end = true.
Proof. vm_compute. reflexivity. Qed.

(** The value of an option that reads --help asks for help. *)
Example value_asks_for_help :
  match parse_cli [lit "--exclude"; lit "--help"; lit "a"; lit "b"] with
  | Ok c => help c
  | Err _ => false
  end = true.
Proof. vm_compute. reflexivity. Qed.

Example sizes :
  (parse_size (lit "4k"), parse_size (lit "18446744073709551615g"), parse_size (lit "4kib")) =
  (Ok 4096, Ok u64_max, bail "invalid size suffix in `{value}`").
Proof. vm_compute. reflexivity. Qed.

(** Of a limit with a unit of two letters the parser of the command line makes bytes, and
    the plan nothing: the transfer runs without a limit. *)
Example limit_lost :
  (parse_bwlimit_value (lit "1.5m"), parse_bwlimit_quiet (lit "1.5m"),
   parse_bwlimit_value (lit "10kb"), parse_bwlimit_quiet (lit "10kb"),
   parse_max_alloc_value (lit "1t"), parse_max_alloc_quiet (lit "1t")) =
  (Ok (Some 1572864), Some 1572864, Ok (Some 10240), None, Ok (Some (2 ^ 40)), None).
Proof. vm_compute. reflexivity. Qed.
