(* ===== verification/SyncWalk.v ===== *)
(** * What a sync reads: rsync-fs/src/sync.rs, entries and comparisons

    The entries of a tree after links, filters and merge files, and the questions a
    sync asks the file system before it changes anything.  The fuel of the walk bounds
    the depth of its recursion. *)

From stdpp Require Import sorting.
From S2P Require Import Prelude Str Glob Filter FsPath Metadata FileSystem SyncPlan.

Record RelativeEntryOptions := {
  r_filter_rules : option RuleSet;
  r_recursive : bool;
  r_symlink_mode : SymlinkMode;
  r_one_file_system : bool;
}.

Definition with_rules (rules : option RuleSet) (options : RelativeEntryOptions) :
    RelativeEntryOptions :=
  {| r_filter_rules := rules; r_recursive := r_recursive options;
     r_symlink_mode := r_symlink_mode options;
     r_one_file_system := r_one_file_system options |}.

Section walk.
Context {F : Type} `{PortableFileSystem F} `{Platform}.

(** ** Symbolic links of the source *)

Definition followed_file_metadata_or_other (fs : F) (path : PathBuf) :
    result PortableMetadata FsError :=
  let? metadata := metadata_follow fs path in
  let metadata := match file_type metadata with
                  | File | Directory => metadata
                  | _ => set_file_type Other metadata
                  end in
  Ok (set_symlink_target None metadata).

(** [entry.metadata = followed; entry.metadata.symlink_target = target] *)
Definition followed_entry (entry : WalkEntry) (followed : PortableMetadata) : WalkEntry :=
  {| entry_path := entry_path entry;
     entry_metadata := set_symlink_target (symlink_target (entry_metadata entry)) followed |}.

Definition unsafe_target (metadata : PortableMetadata) : bool :=
  from_option is_unsafe_symlink_target false (symlink_target metadata).

Definition apply_symlink_mode (fs : F) (entry : WalkEntry) (symlink_mode : SymlinkMode) :
    result (option WalkEntry) FsError :=
  if bool_decide (file_type (entry_metadata entry) ≠ Symlink) then Ok (Some entry)
  else match symlink_mode with
  | Skip => Ok None
  | Preserve | Munge => Ok (Some entry)
  | SafeOnly => Ok (if unsafe_target (entry_metadata entry) then None else Some entry)
  | CopyAll =>
      let? followed := followed_file_metadata_or_other fs (entry_path entry) in
      Ok (Some (followed_entry entry followed))
  | CopyDirLinks =>
      let? followed := followed_file_metadata_or_other fs (entry_path entry) in
      Ok (Some (if bool_decide (file_type followed = Directory)
                then followed_entry entry followed else entry))
  | CopyUnsafe =>
      if unsafe_target (entry_metadata entry) then
        let? followed := followed_file_metadata_or_other fs (entry_path entry) in
        Ok (Some (followed_entry entry followed))
      else Ok (Some entry)
  end.

(** Where a link that is copied as a directory is walked. *)
Definition followed_directory_walk_path (entry : WalkEntry) (symlink_mode : SymlinkMode) :
    option PathBuf :=
  if bool_decide (file_type (entry_metadata entry) ≠ Directory) then None
  else match symlink_target (entry_metadata entry) with
  | None => None
  | Some target =>
      let should_follow := match symlink_mode with
                           | CopyAll | CopyDirLinks => true
                           | CopyUnsafe => is_unsafe_symlink_target target
                           | Skip | Preserve | SafeOnly | Munge => false
                           end in
      if should_follow then Some (resolve_symlink_target (entry_path entry) target) else None
  end.

(** ** Merge files *)

(** The loop over the inherited rules.  A rule with this action has a pattern, as the
    parser of rules makes it. *)
Fixpoint merge_dir_rules (fs : F) (current : PathBuf) (rules : list Rule) (merged : RuleSet)
    (loaded_any : bool) : result (option RuleSet) FsError :=
  match rules with
  | [] => Ok (if loaded_any then Some merged else None)
  | rule :: rules =>
      if bool_decide (action rule ≠ DirMerge) then merge_dir_rules fs current rules merged loaded_any
      else
        let merge_file := path_join current (parse_path (from_option raw [] (pattern rule))) in
        match read_file fs merge_file with
        | Err (NotFound _) => merge_dir_rules fs current rules merged loaded_any
        | Err err => Err err
        | Ok bytes =>
            let? parsed := map_err (λ _, Unsupported "invalid dir-merge filter file")
                             (parse_filter_file bytes false Exclude) in
            merge_dir_rules fs current rules (foldl push_rule merged parsed) true
        end
  end.

Definition load_dir_merge_rules (fs : F) (current : PathBuf) (inherited : option RuleSet) :
    result (option RuleSet) FsError :=
  match inherited with
  | None => Ok None
  | Some inherited => merge_dir_rules fs current inherited inherited false
  end.

(** ** The entries of a tree *)

(** One listed entry: its relative path, the entry to keep and where to walk it. *)
Definition relative_entry (fs : F) (root relative_root : PathBuf)
    (options : RelativeEntryOptions) (active : option RuleSet) (original_entry : WalkEntry) :
    result (option (PathBuf * WalkEntry * option PathBuf)) FsError :=
  let? name := ok_or (file_name (entry_path original_entry))
                 (InvalidPortablePath (entry_path original_entry)) in
  let relative := path_join relative_root [Normal name] in
  let? kept := apply_symlink_mode fs original_entry (r_symlink_mode options) in
  match kept with
  | None => Ok None
  | Some entry =>
      let? same := (if r_one_file_system options
                    then same_file_system fs root (entry_path entry) else Ok true) in
      if negb same then Ok None
      else if from_option (λ rules, sender_path_is_filtered rules relative
                             (file_type (entry_metadata entry))) false active
      then Ok None
      else
        let child_root :=
          if r_recursive options && bool_decide (file_type (entry_metadata entry) = Directory)
          then Some (default (entry_path entry)
                       (followed_directory_walk_path entry (r_symlink_mode options)))
          else None in
        Ok (Some (relative, entry, child_root))
  end.

(** The loop over a directory; [recurse] is the call for a directory in it. *)
Fixpoint collect_listed
    (recurse : PathBuf → PathBuf → gmap PathBuf WalkEntry → result (gmap PathBuf WalkEntry) FsError)
    (fs : F) (root relative_root : PathBuf) (options : RelativeEntryOptions)
    (active : option RuleSet) (listed : list WalkEntry) (entries : gmap PathBuf WalkEntry) :
    result (gmap PathBuf WalkEntry) FsError :=
  match listed with
  | [] => Ok entries
  | original_entry :: listed =>
      let? kept := relative_entry fs root relative_root options active original_entry in
      match kept with
      | None => collect_listed recurse fs root relative_root options active listed entries
      | Some (relative, entry, child_root) =>
          let entries := <[relative := entry]> entries in
          let? entries := match child_root with
                          | Some child_root => recurse child_root relative entries
                          | None => Ok entries
                          end in
          collect_listed recurse fs root relative_root options active listed entries
      end
  end.

Fixpoint collect_relative_entries (fuel : nat) (fs : F) (root current relative_root : PathBuf)
    (options : RelativeEntryOptions) (entries : gmap PathBuf WalkEntry) :
    result (gmap PathBuf WalkEntry) FsError :=
  match fuel with
  | O => Err out_of_fuel
  | S fuel =>
      let? directory_rules := load_dir_merge_rules fs current (r_filter_rules options) in
      let active := match directory_rules with
                    | Some _ => directory_rules
                    | None => r_filter_rules options
                    end in
      let? listed := list_dir fs current in
      collect_listed
        (λ child_root child_relative entries,
          collect_relative_entries fuel fs root child_root child_relative
            (with_rules active options) entries)
        fs root relative_root options active listed entries
  end.

Definition relative_entries (fuel : nat) (fs : F) (root : PathBuf)
    (filter_rules : option RuleSet) (recursive : bool) (symlink_mode : SymlinkMode)
    (one_file_system : bool) : result (gmap PathBuf WalkEntry) FsError :=
  collect_relative_entries fuel fs root root []
    {| r_filter_rules := filter_rules; r_recursive := recursive;
       r_symlink_mode := symlink_mode; r_one_file_system := one_file_system |} ∅.

(** ** Selections for other users of the walk *)

Definition source_relative_paths (fuel : nat) (fs : F) (source : PathBuf)
    (filter_rules : RuleSet) : result (list PathBuf) FsError :=
  let? entries := relative_entries fuel fs source (Some filter_rules) true Preserve false in
  Ok (btree_keys entries).

Record SourceSelectionOptions := {
  s_recursive : bool;
  s_filter_rules : RuleSet;
  s_files_from : option (list PathBuf);
  s_symlink_mode : SymlinkMode;
  s_one_file_system : bool;
}.

Definition selected_single_source_paths (fuel : nat) (fs : F) (source : PathBuf)
    (options : SourceSelectionOptions) : result (list PathBuf) FsError :=
  let? metadata := metadata fs source in
  let paths := match file_type metadata with File | Directory => [source] | _ => [] end in
  if bool_decide (file_type metadata ≠ Directory) then Ok paths
  else
    let? entries := relative_entries fuel fs source (Some (s_filter_rules options))
                      (s_recursive options) (s_symlink_mode options)
                      (s_one_file_system options) in
    let entries := match s_files_from options with
                   | Some files_from => retain_files_from_entries entries files_from
                   | None => entries
                   end in
    Ok (paths ++ omap (λ kv : PathBuf * WalkEntry,
          match file_type (entry_metadata kv.2) with
          | File => Some (entry_path kv.2)
          | Directory => if s_recursive options then Some (entry_path kv.2) else None
          | _ => None
          end) (btree_iter entries)).

(** [paths.dedup()] *)
Fixpoint dedup (paths : list PathBuf) : list PathBuf :=
  match paths with
  | p :: (q :: _) as rest => if bool_decide (p = q) then dedup rest else p :: dedup rest
  | _ => paths
  end.

Fixpoint select_sources (fuel : nat) (fs : F) (sources : list PathBuf)
    (options : SourceSelectionOptions) : result (list PathBuf) FsError :=
  match sources with
  | [] => Ok []
  | source :: sources =>
      let? paths := selected_single_source_paths fuel fs source options in
      let? later := select_sources fuel fs sources options in
      Ok (paths ++ later)
  end.

Definition selected_source_paths (fuel : nat) (fs : F) (sources : list PathBuf)
    (options : SourceSelectionOptions) : result (list PathBuf) FsError :=
  if bool_decide (sources = []) then Err (Unsupported "sync requires at least one source")
  else
    let? paths := select_sources fuel fs sources options in
    Ok (dedup (merge_sort path_le paths)).

(** ** Questions about a target *)

Definition ensure_missing_destination_parent_allowed (fs : F) (path : PathBuf)
    (mkpath : bool) : result unit FsError :=
  if mkpath || path_exists fs path then Ok ()
  else match non_empty_parent path with
  | None => Ok ()
  | Some parent =>
      let? metadata := metadata fs parent in
      if bool_decide (file_type metadata ≠ Directory) then Err (NotDirectory parent) else Ok ()
  end.

Definition append_verify_offset (fs : F) (source target : PathBuf) (source_len : Z) :
    result (option Z) FsError :=
  match metadata fs target with
  | Err _ => Ok None
  | Ok target_metadata =>
      if bool_decide (file_type target_metadata ≠ File) || (source_len <? len target_metadata)
      then Ok None
      else
        let? matches := file_prefix_matches fs source target in
        Ok (if matches : bool then Some (len target_metadata) else None)
  end.

Definition file_needs_update (fs : F) (source : WalkEntry) (target : PathBuf)
    (options : SyncOptions) : result bool FsError :=
  let source_len := len (entry_metadata source) in
  if from_option (λ max, max <? source_len) false (o_max_size options) then Ok false
  else if from_option (λ min, source_len <? min) false (o_min_size options) then Ok false
  else match metadata fs target with
  | Err _ => Ok (negb (o_existing_only options))
  | Ok target_metadata =>
      let times := zip_option (modified (entry_metadata source)) (modified target_metadata) in
      if bool_decide (file_type target_metadata ≠ File) then Ok true
      else if o_ignore_existing options then Ok false
      else if o_skip_newer_receiver options &&
              from_option (λ t : Z * Z, t.1 <? t.2) false times then Ok false
      else match o_update_mode options with
      | IgnoreTimes => Ok true
      | SizeOnly => Ok (negb (source_len =? len target_metadata))
      | QuickCheck =>
          Ok (negb (source_len =? len target_metadata) ||
              match times with
              | Some (source_mtime, target_mtime) =>
                  negb (mtimes_equal source_mtime target_mtime (o_modify_window options))
              | None => true
              end)
      | Checksum =>
          let? equal := files_equal fs (entry_path source) target in
          Ok (negb equal)
      end
  end.

(** ** Bases for a transfer *)

Inductive BasisMatchAction :=
| BasisSkip
| CopyFrom (basis : PathBuf)
| LinkFrom (basis : PathBuf).

(** One of the loops of [check_basis_dirs]. *)
Fixpoint matching_basis (fs : F) (dest_root relative : PathBuf) (source_entry : WalkEntry)
    (dirs : list PathBuf) : option PathBuf :=
  match dirs with
  | [] => None
  | basis_dir :: dirs =>
      let basis_file := basis_file_path dest_root basis_dir relative in
      match metadata fs basis_file with
      | Ok basis_meta =>
          if basis_files_match source_entry basis_meta then Some basis_file
          else matching_basis fs dest_root relative source_entry dirs
      | Err _ => matching_basis fs dest_root relative source_entry dirs
      end
  end.

Definition check_basis_dirs (fs : F) (dest_root relative : PathBuf) (source_entry : WalkEntry)
    (compare_dirs copy_dirs link_dirs : list PathBuf) : option BasisMatchAction :=
  match matching_basis fs dest_root relative source_entry link_dirs with
  | Some basis_file => Some (LinkFrom basis_file)
  | None =>
      match matching_basis fs dest_root relative source_entry copy_dirs with
      | Some basis_file => Some (CopyFrom basis_file)
      | None =>
          match matching_basis fs dest_root relative source_entry compare_dirs with
          | Some _ => Some BasisSkip
          | None => None
          end
      end
  end.

(** One turn of the loop of [find_fuzzy_basis]. *)
Definition better_basis (source_name : list Z) (best : option (PathBuf * nat))
    (entry : WalkEntry) : option (PathBuf * nat) :=
  if bool_decide (file_type (entry_metadata entry) ≠ File) then best
  else match file_name (entry_path entry) with
  | None => best
  | Some candidate_name =>
      let score := name_similarity_score source_name candidate_name in
      let is_better := match best with
                       | Some (_, best_score) => Nat.ltb best_score score
                       | None => true
                       end in
      if Nat.ltb 0 score && is_better then Some (entry_path entry, score) else best
  end.

Definition find_fuzzy_basis (fs : F) (source_entry : WalkEntry) (dest : PathBuf) :
    option PathBuf :=
  source_name ← file_name (entry_path source_entry);
  parent ← parent dest;
  match list_dir fs parent with
  | Err _ => None
  | Ok entries =>
      best ← foldl (better_basis source_name) None entries;
      if bool_decide (best.1 ≠ entry_path source_entry) then Some best.1 else None
  end.
End walk.
