(* ===== verification/Sync.v ===== *)
(** * The local sync: rsync-fs/src/sync.rs

    The state of a run is the file system and what the functions are passed as [&mut]:
    the report, the transfers put off, the targets of hard links and the directories
    whose times are set at the end.  [clock] gives the readings of the clock in the
    order in which they are taken. *)

From S2P Require Import Prelude Str Filter FsPath Metadata FileSystem SyncPlan SyncWalk.

Record DelayedTransfer := {
  temp : PathBuf;
  target : PathBuf;
  transfer_relative : PathBuf;
  transfer_entry : WalkEntry;
}.

Record Syncing (F : Type) := {
  fs_of : F;
  actions : SyncReport;
  delayed_transfers : list DelayedTransfer;
  hardlink_targets : gmap HardlinkId PathBuf;
  directory_mtimes : list (PathBuf * WalkEntry);
}.
Arguments fs_of {F}.
Arguments actions {F}.
Arguments delayed_transfers {F}.
Arguments hardlink_targets {F}.
Arguments directory_mtimes {F}.
Arguments Build_Syncing {F}.

Section sync.
Context {F : Type} `{PortableFileSystem F} `{Platform}.

Local Abbreviation S := (M (Syncing F) FsError).

Definition set_fs (fs : F) (s : Syncing F) : Syncing F :=
  {| fs_of := fs; actions := actions s; delayed_transfers := delayed_transfers s;
     hardlink_targets := hardlink_targets s; directory_mtimes := directory_mtimes s |}.
Definition add_actions (more : list SyncAction) (s : Syncing F) : Syncing F :=
  {| fs_of := fs_of s; actions := actions s ++ more;
     delayed_transfers := delayed_transfers s; hardlink_targets := hardlink_targets s;
     directory_mtimes := directory_mtimes s |}.
Definition add_delayed (transfer : DelayedTransfer) (s : Syncing F) : Syncing F :=
  {| fs_of := fs_of s; actions := actions s;
     delayed_transfers := delayed_transfers s ++ [transfer];
     hardlink_targets := hardlink_targets s; directory_mtimes := directory_mtimes s |}.
Definition set_hardlink_targets (targets : gmap HardlinkId PathBuf) (s : Syncing F) :
    Syncing F :=
  {| fs_of := fs_of s; actions := actions s; delayed_transfers := delayed_transfers s;
     hardlink_targets := targets; directory_mtimes := directory_mtimes s |}.
Definition add_directory (target : PathBuf) (entry : WalkEntry) (s : Syncing F) : Syncing F :=
  {| fs_of := fs_of s; actions := actions s; delayed_transfers := delayed_transfers s;
     hardlink_targets := hardlink_targets s;
     directory_mtimes := directory_mtimes s ++ [(target, entry)] |}.

Definition modify (f : Syncing F → Syncing F) : S unit := λ s, (Ok tt, f s).

(** [report.push(action)] *)
Definition report (action : SyncAction) : S unit := modify (add_actions [action]).

(** [f(fs)?] for a reading method, and [f(fs)]. *)
Definition inspect {A} (f : F → result A FsError) : S A := λ s, (f (fs_of s), s).
Definition peek {A} (f : F → result A FsError) : S (result A FsError) :=
  λ s, (Ok (f (fs_of s)), s).

(** [m(fs)?] for a changing method, and [m(fs)]. *)
Definition act {A} (m : M F FsError A) : S A :=
  λ s, let '(r, fs) := m (fs_of s) in (r, set_fs fs s).
Definition attempt {A} (m : M F FsError A) : S (result A FsError) :=
  λ s, let '(r, fs) := m (fs_of s) in (Ok r, set_fs fs s).

Definition perform {A} (m : M F FsError A) : S unit := act m ≫= λ _, mret tt.

(** [if !options.dry_run { m }] *)
Definition unless_dry (options : SyncOptions) (m : S unit) : S unit :=
  if o_dry_run options then mret () else m.

Definition check_sync_deadline (now : Z) (deadline : option Z) : result unit FsError :=
  if from_option (λ deadline, deadline <=? now) false deadline
  then Err (Unsupported "transfer stop deadline reached") else Ok ().

(** ** Backups and times *)

Definition backup_receiver_file (dest_root target relative : PathBuf)
    (options : SyncOptions) : S unit :=
  if negb (o_backup options) then mret ()
  else
    found ← peek (λ fs, metadata fs target);
    match found with
    | Err _ => mret ()
    | Ok metadata =>
        if bool_decide (file_type metadata ≠ File) then mret ()
        else
          let backup_path := backup_path_for dest_root target relative options in
          report (BackupFile target backup_path);;
          unless_dry options
            (perform (copy_file_with_options target backup_path FileWriteOptions_default))
    end.

Definition preserve_transferred_mtime (target : PathBuf) (source : WalkEntry)
    (options : SyncOptions) : S unit :=
  if negb (o_preserve_mtime options) then mret ()
  else if o_omit_dir_times options &&
          bool_decide (file_type (entry_metadata source) = Directory) then mret ()
  else match modified (entry_metadata source) with
  | None => mret ()
  | Some modified =>
      report (PreserveMtime target);;
      unless_dry options (act (set_mtime target modified))
  end.

Definition preserve_directory_mtimes (directories : list (PathBuf * WalkEntry))
    (options : SyncOptions) : S unit :=
  for_each (λ '(target, entry), preserve_transferred_mtime target entry options)
    (rev directories).

Definition preserve_existing_file_mtime (target : PathBuf) (source : WalkEntry)
    (options : SyncOptions) : S unit :=
  if negb (o_preserve_mtime options) then mret ()
  else match modified (entry_metadata source) with
  | None => mret ()
  | Some source_mtime =>
      found ← peek (λ fs, metadata fs target);
      match found with
      | Err _ => mret ()
      | Ok target_metadata =>
          if bool_decide (modified target_metadata = Some source_mtime) then mret ()
          else
            report (PreserveMtime target);;
            unless_dry options (act (set_mtime target source_mtime))
      end
  end.

(** ** What stands in the way *)

(** A directory that is neither empty nor to be deleted stays. *)
Definition directory_is_kept (target : PathBuf) (options : SyncOptions) : S bool :=
  if negb (o_force_delete options) && bool_decide (effective_delete_mode options = NoDelete)
  then listed ← inspect (λ fs, list_dir fs target); mret (bool_decide (listed ≠ []))
  else mret false.

(** Answers whether the target is free for an entry of the source's type. *)
Definition remove_conflicting_target (dest_root target relative : PathBuf)
    (source_type : FileType) (options : SyncOptions) : S bool :=
  found ← peek (λ fs, metadata fs target);
  match found with
  | Err _ => mret true
  | Ok target_metadata =>
      followed ← peek (λ fs, metadata_follow fs target);
      let is_dir := match followed with
                    | Ok m => bool_decide (file_type m = Directory)
                    | Err _ => false
                    end in
      if o_keep_dirlinks options && bool_decide (source_type = Directory) &&
         bool_decide (file_type target_metadata = Symlink) && is_dir then mret true
      else if bool_decide (file_type target_metadata = source_type) then mret true
      else match file_type target_metadata with
      | Directory =>
          kept ← directory_is_kept target options;
          if kept : bool then report (ProtectDelete target);; mret false
          else
            report (DeleteDir target);;
            unless_dry options (act (remove_dir_all target));;
            mret true
      | _ =>
          backup_receiver_file dest_root target relative options;;
          report (DeleteFile target);;
          unless_dry options (act (remove_file target));;
          mret true
      end
  end.

Definition remove_existing_file_before_hardlink (target : PathBuf) : S unit :=
  found ← peek (λ fs, metadata fs target);
  match found with
  | Ok metadata =>
      if bool_decide (file_type metadata ≠ Directory) then act (remove_file target) else mret ()
  | Err (NotFound _) | Err (Io true) => mret ()
  | Err err => throw err
  end.

(** ** Deletions *)

Definition delete_receiver_entry (dest_root path relative : PathBuf) (t : FileType)
    (options : SyncOptions) : S unit :=
  match t with
  | Directory =>
      report (DeleteDir path);;
      unless_dry options (act (remove_dir_all path))
  | _ =>
      backup_receiver_file dest_root path relative options;;
      report (DeleteFile path);;
      unless_dry options (act (remove_file path))
  end.

Definition incremental_entries (entries : gmap PathBuf WalkEntry) :
    list IncrementalSourceEntry :=
  (λ kv : PathBuf * WalkEntry,
    {| source_path := kv.1; source_type := file_type (entry_metadata kv.2) |})
    <$> btree_iter entries.

Definition decision_path (decision : IncrementalDeleteDecision) : PathBuf * bool :=
  match decision with
  | PlanDeleteFile relative | PlanDeleteDir relative => (relative, false)
  | PlanProtect relative => (relative, true)
  end.

(** The loop over the decisions; [deleted] counts the deletions. *)
Fixpoint apply_deletes (dest_root : PathBuf) (dest_entries : gmap PathBuf WalkEntry)
    (options : SyncOptions) (deleted : Z) (decisions : list IncrementalDeleteDecision) :
    S unit :=
  match decisions with
  | [] => mret ()
  | decision :: decisions =>
      let '(relative, protected) := decision_path decision in
      match dest_entries !! relative with
      | None => apply_deletes dest_root dest_entries options deleted decisions
      | Some entry =>
          found ← peek (λ fs, metadata fs (entry_path entry));
          if negb (is_ok found)
          then apply_deletes dest_root dest_entries options deleted decisions
          else if protected : bool then
            report (ProtectDelete (entry_path entry));;
            apply_deletes dest_root dest_entries options deleted decisions
          else
            match o_max_delete options with
            | Some limit => if limit <=? deleted then throw (MaxDeleteExceeded limit) else mret ()
            | None => mret ()
            end;;
            delete_receiver_entry dest_root (entry_path entry) relative
              (file_type (entry_metadata entry)) options;;
            apply_deletes dest_root dest_entries options (deleted + 1) decisions
      end
  end.

Definition apply_receiver_deletes (dest_root : PathBuf)
    (source_entries dest_entries : gmap PathBuf WalkEntry) (options : SyncOptions) : S unit :=
  let mode := effective_delete_mode options in
  if bool_decide (mode = NoDelete) then mret ()
  else
    let '(observed, state) :=
      observe_batch 0 (incremental_entries source_entries) true (new_receiver_state mode) in
    lift observed;;
    let '(decisions, _) :=
      plan_deletes (incremental_entries dest_entries) (o_filter_rules options)
        (o_files_from options) (o_delete_excluded options) state in
    apply_deletes dest_root dest_entries options 0 decisions.

Definition target_file_name (target : PathBuf) : PathBuf :=
  match file_name target with
  | Some name => [Normal name]
  | None => destination_preflight_path target
  end.

Definition delete_missing_arg (source dest : PathBuf) (source_count : nat)
    (options : SyncOptions) : S unit :=
  found ← peek (λ fs, metadata fs dest);
  let dest_is_dir := match found with
                     | Ok m => bool_decide (file_type m = Directory)
                     | Err _ => false
                     end in
  target ← (if Nat.ltb 1 source_count || dest_is_dir
            then lift (batch_target_path source dest) else mret dest);
  found ← peek (λ fs, metadata fs target);
  match found with
  | Err _ => mret ()
  | Ok metadata =>
      kept ← (if bool_decide (file_type metadata = Directory)
              then directory_is_kept target options else mret false);
      if kept : bool then report (ProtectDelete target)
      else delete_receiver_entry dest target (target_file_name target) (file_type metadata)
             options
  end.

(** ** Transfers put off to the end *)

Definition finish_delayed_updates (dest_root : PathBuf) (transfers : list DelayedTransfer)
    (options : SyncOptions) : S unit :=
  for_each (λ transfer,
    backup_receiver_file dest_root (target transfer) (transfer_relative transfer) options;;
    act (rename_file (temp transfer) (target transfer));;
    preserve_transferred_mtime (target transfer) (transfer_entry transfer) options) transfers.

Definition cleanup_delayed_updates (transfers : list DelayedTransfer)
    (options : SyncOptions) : S unit :=
  if o_keep_partial options || bool_decide (o_partial_dir options ≠ None) then mret ()
  else for_each (λ transfer, attempt (remove_file (temp transfer));; mret ()) transfers.

(** ** The transfer of a file *)

Definition remember_hardlink_target (entry : WalkEntry) (target : PathBuf)
    (preserve_hard_links : bool) : S unit :=
  if preserve_hard_links then
    match hardlink_id (entry_metadata entry) with
    | Some id =>
        modify (λ s, match hardlink_targets s !! id with
                     | Some _ => s
                     | None => set_hardlink_targets (<[id := target]> (hardlink_targets s)) s
                     end)
    | None => mret ()
    end
  else mret ().

(** Each of these three parts of [transfer_file] answers whether the transfer is done. *)
Definition transfer_as_hardlink (dest_root : PathBuf) (entry : WalkEntry)
    (target relative : PathBuf) (options : SyncOptions) : S bool :=
  if negb (o_preserve_hard_links options) then mret false
  else match hardlink_id (entry_metadata entry) with
  | None => mret false
  | Some id =>
      s ← get;
      match hardlink_targets s !! id with
      | None => mret false
      | Some existing =>
          report (CreateHardLink existing target);;
          if o_dry_run options then mret true
          else
            backup_receiver_file dest_root target relative options;;
            remove_existing_file_before_hardlink target;;
            linked ← attempt (create_hard_link existing target);
            match linked with
            | Ok _ => preserve_transferred_mtime target entry options;; mret true
            | Err _ =>
                report (Warn target "hard link preservation fell back to file copy: {err}");;
                mret false
            end
      end
  end.

(** Make room for a link or a copy of a basis, and make it. *)
Definition replace_target (dest_root target relative : PathBuf) (options : SyncOptions)
    (m : S unit) : S unit :=
  unless_dry options
    (backup_receiver_file dest_root target relative options;;
     remove_existing_file_before_hardlink target;;
     m).

Definition transfer_from_basis (dest_root : PathBuf) (entry : WalkEntry)
    (target relative : PathBuf) (options : SyncOptions) : S bool :=
  let has_alt_dirs := bool_decide (o_compare_dest options ≠ []) ||
                      bool_decide (o_copy_dest options ≠ []) ||
                      bool_decide (o_link_dest options ≠ []) in
  if negb has_alt_dirs then mret false
  else
    s ← get;
    match check_basis_dirs (fs_of s) dest_root relative entry (o_compare_dest options)
            (o_copy_dest options) (o_link_dest options) with
    | None => mret false
    | Some BasisSkip =>
        report (Warn target "file exists in --compare-dest basis directory, skipping");;
        mret true
    | Some (CopyFrom basis_file) =>
        n ← lift (action_len (len (entry_metadata entry)));
        report (WriteFile target n);;
        replace_target dest_root target relative options
          (perform (copy_file_with_options basis_file target (file_write_options options)));;
        preserve_transferred_mtime target entry options;;
        mret true
    | Some (LinkFrom basis_file) =>
        report (CreateHardLink basis_file target);;
        replace_target dest_root target relative options
          (linked ← attempt (create_hard_link basis_file target);
           match linked with
           | Ok _ => mret ()
           | Err _ =>
               report (Warn target "--link-dest hardlink failed, falling back to copy: {err}");;
               perform (copy_file_with_options basis_file target (file_write_options options))
           end);;
        preserve_transferred_mtime target entry options;;
        mret true
    end.

Definition transfer_fuzzy (entry : WalkEntry) (target : PathBuf) (options : SyncOptions) :
    S unit :=
  if o_fuzzy options && negb (o_dry_run options) then
    found ← peek (λ fs, metadata fs target);
    if is_ok found then mret ()
    else
      s ← get;
      match find_fuzzy_basis (fs_of s) entry target with
      | None => mret ()
      | Some basis =>
          report (Warn target "--fuzzy: using {} as basis for delta transfer");;
          perform (copy_file_with_options basis target (file_write_options options))
      end
  else mret ().

Definition transfer_appended (entry : WalkEntry) (target : PathBuf) (options : SyncOptions) :
    S bool :=
  if negb (o_append_verify options) then mret false
  else
    found ← inspect (λ fs, append_verify_offset fs (entry_path entry) target
                             (len (entry_metadata entry)));
    match found with
    | None => mret false
    | Some offset =>
        let suffix_len := len (entry_metadata entry) - offset in
        (if 0 <? suffix_len then
           n ← lift (action_len suffix_len);
           report (AppendFile target n);;
           unless_dry options (perform (append_file_from target (entry_path entry) offset))
         else mret ());;
        preserve_transferred_mtime target entry options;;
        mret true
    end.

Definition transfer_whole (dest_root : PathBuf) (entry : WalkEntry)
    (target relative : PathBuf) (options : SyncOptions) : S unit :=
  n ← lift (action_len (len (entry_metadata entry)));
  report match o_file_write_mode options with
         | Atomic => WriteFile target n
         | InPlace => WriteFileInPlace target n
         end;;
  if negb (o_dry_run options) && o_delay_updates options then
    let temp := delayed_update_path dest_root relative options in
    perform (copy_file_with_options (entry_path entry) temp (delayed_file_write_options options));;
    modify (add_delayed {| temp := temp; target := target; transfer_relative := relative;
                           transfer_entry := entry |})
  else
    unless_dry options
      (backup_receiver_file dest_root target relative options;;
       perform (copy_file_with_options (entry_path entry) target (file_write_options options)));;
    remember_hardlink_target entry target (o_preserve_hard_links options);;
    preserve_transferred_mtime target entry options.

Definition transfer_file (dest_root : PathBuf) (entry : WalkEntry)
    (target relative : PathBuf) (options : SyncOptions) : S unit :=
  linked ← transfer_as_hardlink dest_root entry target relative options;
  if linked : bool then mret ()
  else
    based ← transfer_from_basis dest_root entry target relative options;
    if based : bool then mret ()
    else
      transfer_fuzzy entry target options;;
      appended ← transfer_appended entry target options;
      if appended : bool then mret ()
      else transfer_whole dest_root entry target relative options.

(** ** Other entries *)

Definition transfer_symlink (entry : WalkEntry) (dest_root target relative : PathBuf)
    (options : SyncOptions) : S unit :=
  match symlink_target (entry_metadata entry) with
  | None => report (Warn (entry_path entry) "symlink has no recorded target")
  | Some link_target =>
      followed ← peek (λ fs, metadata_follow fs (entry_path entry));
      let target_kind := match followed with Ok m => file_type m | Err _ => File end in
      let link_target := match o_symlink_mode options with
                         | Munge => munge_symlink_target link_target
                         | _ => link_target
                         end in
      free ← remove_conflicting_target dest_root target relative Symlink options;
      if negb free then mret ()
      else
        report (CreateSymlink target link_target);;
        unless_dry options
          (found ← peek (λ fs, metadata fs target);
           (match found with
            | Ok m =>
                if bool_decide (file_type m ≠ Directory)
                then attempt (remove_file target);; mret () else mret ()
            | Err _ => mret ()
            end);;
           act (create_symlink target link_target target_kind));;
        preserve_transferred_mtime target entry options
  end.

Definition refuse_or_warn (entry : WalkEntry) (requested : bool) (options : SyncOptions)
    (cannot skipping : string) : S unit :=
  if requested && o_fail_on_metadata_loss options then throw (Unsupported cannot)
  else report (Warn (entry_path entry) (if requested then cannot else skipping)).

Definition handle_non_regular_entry (entry : WalkEntry) (options : SyncOptions) : S unit :=
  match file_type (entry_metadata entry) with
  | Device =>
      refuse_or_warn entry (o_preserve_devices options) options
        "device metadata cannot be preserved by portable sync"
        "skipping device; preservation was not requested"
  | Special =>
      refuse_or_warn entry (o_preserve_specials options) options
        "special file metadata cannot be preserved by portable sync"
        "skipping special file; preservation was not requested"
  | _ => report (Warn (entry_path entry) "{:?} is not copied by portable ordinary-file sync")
  end.

(** ** A tree *)

(** [result] of the loop: what is cleaned up after, as against what ends it at once. *)
Definition guarded (m : S unit) : S (option FsError) := λ s,
  match m s with
  | (Ok _, s') => (Ok None, s')
  | (Err err, s') => (Ok (Some err), s')
  end.

Definition sync_directory (dest : PathBuf) (relative : PathBuf) (entry : WalkEntry)
    (options : SyncOptions) : S unit :=
  let target := path_join dest relative in
  if negb (o_recursive options) && negb (o_transfer_dirs options)
  then report (Warn (entry_path entry) "skipping directory because recursive mode is disabled")
  else
    free ← remove_conflicting_target dest target relative Directory options;
    if negb free then mret ()
    else
      report (CreateDir target);;
      unless_dry options (act (create_dir_all target));;
      modify (add_directory target entry).

Definition sync_file (dest : PathBuf) (relative : PathBuf) (entry : WalkEntry)
    (options : SyncOptions) : S (option FsError) :=
  let target := path_join dest relative in
  free ← remove_conflicting_target dest target relative File options;
  if negb free then mret None
  else
    needed ← inspect (λ fs, file_needs_update fs entry target options);
    if negb needed then
      remember_hardlink_target entry target (o_preserve_hard_links options);;
      preserve_existing_file_mtime target entry options;;
      mret None
    else guarded (transfer_file dest entry target relative options).

Definition sync_entry (dest : PathBuf) (relative : PathBuf) (entry : WalkEntry)
    (options : SyncOptions) : S (option FsError) :=
  match file_type (entry_metadata entry) with
  | Directory => sync_directory dest relative entry options;; mret None
  | File => sync_file dest relative entry options
  | Symlink => guarded (transfer_symlink entry dest (path_join dest relative) relative options)
  | Hardlink | Device | Special | Other => guarded (handle_non_regular_entry entry options)
  end.

Definition deletes_late (options : SyncOptions) : bool :=
  match effective_delete_mode options with Delay | After => true | _ => false end.

Definition deletes_early (options : SyncOptions) : bool :=
  match effective_delete_mode options with Before | During => true | _ => false end.

(** The loop over the source; turn [n] reads the clock. *)
Fixpoint sync_entries (clock : nat → Z) (n : nat) (dest : PathBuf)
    (source_entries dest_entries : gmap PathBuf WalkEntry) (options : SyncOptions)
    (entries : list (PathBuf * WalkEntry)) : S unit :=
  match entries with
  | [] => mret ()
  | (relative, entry) :: entries =>
      lift (check_sync_deadline (clock n) (o_stop_deadline options));;
      failed ← sync_entry dest relative entry options;
      match failed with
      | None => sync_entries clock (n + 1) dest source_entries dest_entries options entries
      | Some err =>
          s ← get;
          cleanup_delayed_updates (delayed_transfers s) options;;
          (if o_ignore_errors options && deletes_late options
           then apply_receiver_deletes dest source_entries dest_entries options else mret ());;
          throw err
      end
  end.

Definition create_missing_dest (dest : PathBuf) (options : SyncOptions) : S unit :=
  s ← get;
  if path_exists (fs_of s) dest then mret ()
  else
    report (CreateDir dest);;
    unless_dry options (act (create_dir_all dest)).

Definition preflight (options : SyncOptions) (paths : list PathBuf) : result unit FsError :=
  match o_destination_path_preflight options with
  | Some preflight => preflight paths
  | None => Ok ()
  end.

Definition keep_files_from {V} (options : SyncOptions) (entries : gmap PathBuf V) :
    gmap PathBuf V :=
  match o_files_from options with
  | Some files_from => retain_files_from_entries entries files_from
  | None => entries
  end.

Definition sync_directory_tree (fuel : nat) (clock : nat → Z) (source dest : PathBuf)
    (options : SyncOptions) : S unit :=
  source_entries ← inspect (λ fs,
    relative_entries fuel fs source (Some (o_filter_rules options)) (o_recursive options)
      (o_symlink_mode options) (o_one_file_system options));
  let source_entries := keep_files_from options source_entries in
  lift (preflight options (btree_keys source_entries));;
  dest_entries ← inspect (λ fs,
    if path_exists fs dest
    then relative_entries fuel fs dest None (o_recursive options) Preserve
           (o_one_file_system options)
    else Ok ∅);
  inspect (λ fs, ensure_missing_destination_parent_allowed fs dest (o_mkpath options));;
  create_missing_dest dest options;;
  (if deletes_early options
   then apply_receiver_deletes dest source_entries dest_entries options else mret ());;
  sync_entries clock 0 dest source_entries dest_entries options (btree_iter source_entries);;
  s ← get;
  finished ← guarded (finish_delayed_updates dest (delayed_transfers s) options);
  match finished with
  | Some err => cleanup_delayed_updates (delayed_transfers s) options;; throw err
  | None =>
      (if deletes_late options
       then apply_receiver_deletes dest source_entries dest_entries options else mret ());;
      s ← get;
      preserve_directory_mtimes (directory_mtimes s) options
  end.

(** ** A single file *)

Definition sync_single_file (source : PathBuf) (source_metadata : PortableMetadata)
    (dest : PathBuf) (options : SyncOptions) : S unit :=
  found ← peek (λ fs, metadata fs dest);
  target ← (match found with
            | Ok m => if bool_decide (file_type m = Directory)
                      then lift (batch_target_path source dest) else mret dest
            | Err _ => mret dest
            end);
  let entry := {| entry_path := source; entry_metadata := source_metadata |} in
  inspect (λ fs, ensure_missing_destination_parent_allowed fs target (o_mkpath options));;
  lift (preflight options [destination_preflight_path target]);;
  let relative := target_file_name target in
  let dest_root := default [] (parent target) in
  free ← remove_conflicting_target dest_root target relative File options;
  if negb free then mret ()
  else
    needed ← inspect (λ fs, file_needs_update fs entry target options);
    if negb needed then preserve_existing_file_mtime target entry options
    else
      transfer_file dest_root entry target relative options;;
      s ← get;
      finish_delayed_updates dest_root (delayed_transfers s) options.

(** ** Sources *)

(** A run from a file system to a report. *)
Definition run_sync (m : S unit) : M F FsError SyncReport := λ fs,
  match m {| fs_of := fs; actions := []; delayed_transfers := []; hardlink_targets := ∅;
             directory_mtimes := [] |} with
  | (Ok _, s) => (Ok (actions s), fs_of s)
  | (Err err, s) => (Err err, fs_of s)
  end.

(** [source == dest || dest.starts_with(&source)] on the resolved paths. *)
Definition inside (fs : F) (source dest : PathBuf) : result unit FsError :=
  let? source_root := resolve_path_for_prefix_check fs source in
  let? dest_root := resolve_path_for_prefix_check fs dest in
  if bool_decide (source_root = dest_root) || path_starts_with dest_root source_root
  then Err DestinationInsideSource else Ok ().

Definition sync_tree (fuel : nat) (clock : nat → Z) (source dest : PathBuf)
    (options : SyncOptions) : M F FsError SyncReport :=
  run_sync
    (inspect (λ fs, inside fs source dest);;
     source_metadata ← inspect (λ fs, metadata fs source);
     if bool_decide (file_type source_metadata = File)
     then sync_single_file source source_metadata dest options
     else sync_directory_tree fuel clock source dest options).

(** [let child = sync_tree(..)?; report.actions.extend(child.actions)] *)
Definition sync_child (m : M F FsError SyncReport) : S unit :=
  child ← act m;
  modify (add_actions child).

Definition set_mkpath (mkpath : bool) (o : SyncOptions) : SyncOptions := {|
  o_recursive := o_recursive o; o_delete := o_delete o; o_delete_mode := o_delete_mode o;
  o_preserve_mtime := o_preserve_mtime o; o_omit_dir_times := o_omit_dir_times o;
  o_dry_run := o_dry_run o; o_filter_rules := o_filter_rules o;
  o_destination_path_preflight := o_destination_path_preflight o;
  o_update_mode := o_update_mode o; o_files_from := o_files_from o;
  o_file_write_mode := o_file_write_mode o; o_keep_partial := o_keep_partial o;
  o_partial_dir := o_partial_dir o; o_temp_dir := o_temp_dir o;
  o_delay_updates := o_delay_updates o; o_fsync := o_fsync o;
  o_append_verify := o_append_verify o; o_symlink_mode := o_symlink_mode o;
  o_transfer_dirs := o_transfer_dirs o; o_mkpath := mkpath;
  o_relative_paths := o_relative_paths o; o_implied_dirs := o_implied_dirs o;
  o_one_file_system := o_one_file_system o; o_skip_newer_receiver := o_skip_newer_receiver o;
  o_existing_only := o_existing_only o; o_ignore_existing := o_ignore_existing o;
  o_max_size := o_max_size o; o_min_size := o_min_size o;
  o_modify_window := o_modify_window o; o_ignore_missing_args := o_ignore_missing_args o;
  o_delete_missing_args := o_delete_missing_args o;
  o_delete_excluded := o_delete_excluded o; o_ignore_errors := o_ignore_errors o;
  o_force_delete := o_force_delete o; o_max_delete := o_max_delete o;
  o_backup := o_backup o; o_backup_dir := o_backup_dir o;
  o_backup_suffix := o_backup_suffix o; o_preserve_hard_links := o_preserve_hard_links o;
  o_keep_dirlinks := o_keep_dirlinks o; o_preserve_devices := o_preserve_devices o;
  o_preserve_specials := o_preserve_specials o;
  o_fail_on_metadata_loss := o_fail_on_metadata_loss o; o_compare_dest := o_compare_dest o;
  o_copy_dest := o_copy_dest o; o_link_dest := o_link_dest o; o_sparse := o_sparse o;
  o_preallocate := o_preallocate o; o_fuzzy := o_fuzzy o; o_bwlimit := o_bwlimit o;
  o_max_alloc := o_max_alloc o; o_stop_deadline := o_stop_deadline o |}.

Definition source_target (options : SyncOptions) (source dest : PathBuf) :
    result PathBuf FsError :=
  if o_relative_paths options
  then let? relative := relative_operand_path source in Ok (path_join dest relative)
  else batch_target_path source dest.

(** The first loop of [sync_multiple_sources]. *)
Fixpoint source_targets (options : SyncOptions) (fs : F) (sources : list PathBuf)
    (dest : PathBuf) : result (list PathBuf) FsError :=
  match sources with
  | [] => Ok []
  | source :: sources =>
      let? target := source_target options source dest in
      let? _ := inside fs source target in
      let? targets := source_targets options fs sources dest in
      Ok (target :: targets)
  end.

Fixpoint sync_children (fuel : nat) (clocks : nat → nat → Z) (k : nat)
    (sources : list (PathBuf * PathBuf)) (options : SyncOptions) : S unit :=
  match sources with
  | [] => mret ()
  | (source, target) :: sources =>
      let child_options := if o_relative_paths options then set_mkpath true options
                           else options in
      sync_child (sync_tree fuel (clocks k) source target child_options);;
      sync_children fuel clocks (k + 1) sources options
  end.

Definition sync_multiple_sources (fuel : nat) (clocks : nat → nat → Z)
    (sources : list PathBuf) (dest : PathBuf) (options : SyncOptions) :
    M F FsError SyncReport :=
  run_sync
    (found ← peek (λ fs, metadata fs dest);
     (match found with
      | Ok m => if bool_decide (file_type m ≠ Directory) then throw (NotDirectory dest)
                else mret ()
      | Err _ => mret ()
      end);;
     targets ← inspect (λ fs, source_targets options fs sources dest);
     lift (preflight options (destination_preflight_path <$> targets));;
     inspect (λ fs, ensure_missing_destination_parent_allowed fs dest (o_mkpath options));;
     create_missing_dest dest options;;
     sync_children fuel clocks 0 (zip sources targets) options).

(** One prefix of [ensure_implied_relative_dirs]. *)
Definition ensure_implied_dir (dest prefix : PathBuf) (options : SyncOptions) : S unit :=
  let target := path_join dest prefix in
  let create :=
    report (CreateDir target);;
    unless_dry options (act (create_dir_all target)) in
  found ← peek (λ fs, metadata fs target);
  match found with
  | Ok m =>
      if bool_decide (file_type m = Directory) then mret ()
      else
        free ← remove_conflicting_target dest target prefix Directory options;
        if free : bool then create else mret ()
  | Err (NotFound _) => create
  | Err err => throw err
  end.

(** The components of an operand are names; the last one is left out. *)
Fixpoint implied_prefixes (prefix : PathBuf) (components : list Component) : list PathBuf :=
  match components with
  | [] | [_] => []
  | c :: components => (prefix ++ [c]) :: implied_prefixes (prefix ++ [c]) components
  end.

Definition ensure_implied_relative_dirs (source dest : PathBuf) (options : SyncOptions) :
    S unit :=
  relative ← lift (relative_operand_path source);
  for_each (λ prefix, ensure_implied_dir dest prefix options) (implied_prefixes [] relative).

(** The first loop of [sync_sources], over the arguments. *)
Fixpoint present_sources (clock : nat → Z) (n : nat) (source_count : nat)
    (sources : list PathBuf) (dest : PathBuf) (options : SyncOptions) : S (list PathBuf) :=
  match sources with
  | [] => mret []
  | source :: sources =>
      lift (check_sync_deadline (clock n) (o_stop_deadline options));;
      found ← peek (λ fs, metadata fs source);
      present ← (match found with
                 | Ok _ => mret true
                 | Err (NotFound path) =>
                     if o_delete_missing_args options
                     then delete_missing_arg source dest source_count options;; mret false
                     else if o_ignore_missing_args options then mret false
                     else throw (NotFound path)
                 | Err err => throw err
                 end);
      later ← present_sources clock (n + 1) source_count sources dest options;
      mret (if present : bool then source :: later else later)
  end.

(** [clocks 0] is read by the loop over the arguments, [clocks (1 + k)] by the sync of
    the [k]-th source that is present. *)
Definition sync_sources (fuel : nat) (clocks : nat → nat → Z) (sources : list PathBuf)
    (dest : PathBuf) (options : SyncOptions) : M F FsError SyncReport :=
  run_sync
    (if bool_decide (sources = []) then throw (Unsupported "sync requires at least one source")
     else
       present ← present_sources (clocks 0%nat) 0 (length sources) sources dest options;
       if bool_decide (present = []) then mret ()
       else
         (if o_relative_paths options && o_implied_dirs options
          then for_each (λ source, ensure_implied_relative_dirs source dest options) present
          else mret ());;
         let clocks k := clocks (1 + k)%nat in
         match present with
         | [source] =>
             if o_relative_paths options then
               inspect (λ fs, ensure_missing_destination_parent_allowed fs dest
                                (o_mkpath options));;
               relative ← lift (relative_operand_path source);
               sync_child (sync_tree fuel (clocks 0%nat) source (path_join dest relative)
                             (set_mkpath true options))
             else sync_child (sync_tree fuel (clocks 0%nat) source dest options)
         | _ => sync_child (sync_multiple_sources fuel clocks present dest options)
         end).
End sync.
