(* ===== verification/SyncFacts.v ===== *)
(** * What a local sync leaves alone

    Over every file system, a dry run changes nothing. *)

From stdpp Require Import sorting.
From S2P Require Import Prelude Str Filter FsPath Metadata FileSystem MemoryFs SyncPlan SyncWalk Sync.

(** ** Dry runs *)

Section dry.
Context {F : Type} `{PortableFileSystem F} `{Platform}.
Implicit Types (s : Syncing F) (options : SyncOptions).

Local Abbreviation S := (M (Syncing F) FsError).

(** With nothing put off, a quiet action neither changes the file system nor puts
    anything off. *)
Definition quiet {A} (m : S A) : Prop := ∀ s,
  delayed_transfers s = [] →
  fs_of (m s).2 = fs_of s ∧ delayed_transfers (m s).2 = [].

Lemma quiet_ret {A} (a : A) : quiet (mret a).
Proof. by intros s Hs. Qed.
Lemma quiet_throw {A} e : quiet (throw (A := A) e).
Proof. by intros s Hs. Qed.
Lemma quiet_lift {A} (r : result A FsError) : quiet (lift r).
Proof. by intros s Hs. Qed.
Lemma quiet_inspect {A} (f : F → result A FsError) : quiet (inspect f).
Proof. by intros s Hs. Qed.
Lemma quiet_peek {A} (f : F → result A FsError) : quiet (peek f).
Proof. by intros s Hs. Qed.
Lemma quiet_report action : quiet (report action).
Proof. by intros s Hs. Qed.
Lemma quiet_add_directory target entry : quiet (modify (add_directory target entry)).
Proof. by intros s Hs. Qed.
Lemma quiet_add_actions more : quiet (modify (add_actions more)).
Proof. by intros s Hs. Qed.

Lemma quiet_bind {A B} (m : S A) (f : A → S B) :
  quiet m → (∀ a, quiet (f a)) → quiet (m ≫= f).
Proof.
  intros Hm Hf s Hs. destruct (Hm s Hs) as [H1 H2].
  unfold mbind, M_bind. destruct (m s) as [[a|e] s']; cbn in *; [|done].
  destruct (Hf a s' H2) as [H3 H4]. by rewrite H3.
Qed.

Lemma quiet_get {B} (f : Syncing F → S B) :
  (∀ s, delayed_transfers s = [] → quiet (f s)) → quiet (get ≫= f).
Proof. intros Hf s Hs. by apply (Hf s Hs). Qed.

Lemma quiet_for_each {A} (f : A → S unit) xs : (∀ x, quiet (f x)) → quiet (for_each f xs).
Proof.
  intros Hf. induction xs as [|x xs IH]; [apply quiet_ret|]. by apply quiet_bind.
Qed.

Lemma quiet_guarded m : quiet m → quiet (guarded m).
Proof.
  intros Hm s Hs. destruct (Hm s Hs) as [H1 H2]. unfold guarded.
  by destruct (m s) as [[]?].
Qed.

Lemma quiet_act {A} (m : M F FsError A) : (∀ fs, (m fs).2 = fs) → quiet (act m).
Proof.
  intros Hm s Hs. unfold act. specialize (Hm (fs_of s)).
  destruct (m (fs_of s)) as [r fs]; cbn in *. by subst.
Qed.

Lemma quiet_remember entry target b : quiet (remember_hardlink_target entry target b).
Proof.
  unfold remember_hardlink_target. destruct b, (hardlink_id (entry_metadata entry)); try apply quiet_ret.
  intros s Hs. cbn. by case_match.
Qed.

Lemma quiet_run (m : S unit) fs : quiet m → (run_sync m fs).2 = fs.
Proof.
  intros Hm. unfold run_sync. set (s0 := Build_Syncing _ _ _ _ _).
  destruct (Hm s0 eq_refl) as [H1 _]. by destruct (m s0) as [[]?].
Qed.

Variable options : SyncOptions.
Hypothesis dry : o_dry_run options = true.

Lemma quiet_unless_dry (m : S unit) : quiet (unless_dry options m).
Proof using dry. unfold unless_dry. rewrite dry. apply quiet_ret. Qed.

Create HintDb quiet.
#[local] Hint Resolve quiet_ret quiet_throw quiet_lift quiet_inspect quiet_peek quiet_report
  quiet_add_directory quiet_add_actions quiet_for_each quiet_guarded quiet_remember
  quiet_unless_dry : quiet.

(** Take an action apart at its binds and branches. *)
Ltac quiet_step :=
  match goal with
  | |- quiet (mbind _ get) => let s := fresh "s" in let Hs := fresh "Hs" in apply quiet_get; intros s Hs; rewrite ?Hs; clear Hs
  | |- quiet (mbind _ _) => apply quiet_bind; [|intros ?]
  | |- quiet (match ?x with _ => _ end) => destruct x eqn:?
  | |- quiet _ => solve [auto with quiet nocore]
  | |- quiet (let x := _ in _) => cbv zeta
  end.
Ltac quietly := repeat quiet_step.

Lemma quiet_backup dest_root target relative :
  quiet (backup_receiver_file dest_root target relative options).
Proof using dry. unfold backup_receiver_file. quietly. Qed.
Lemma quiet_transferred target entry : quiet (preserve_transferred_mtime target entry options).
Proof using dry. unfold preserve_transferred_mtime. quietly. Qed.
Lemma quiet_existing target entry : quiet (preserve_existing_file_mtime target entry options).
Proof using dry. unfold preserve_existing_file_mtime. quietly. Qed.
Lemma quiet_kept target : quiet (directory_is_kept target options).
Proof using dry. unfold directory_is_kept. quietly. Qed.
#[local] Hint Resolve quiet_backup quiet_transferred quiet_existing quiet_kept : quiet.

Lemma quiet_conflict dest_root target relative t :
  quiet (remove_conflicting_target dest_root target relative t options).
Proof using dry. unfold remove_conflicting_target. quietly. Qed.
Lemma quiet_delete_entry dest_root path relative t :
  quiet (delete_receiver_entry dest_root path relative t options).
Proof using dry. unfold delete_receiver_entry. quietly. Qed.
#[local] Hint Resolve quiet_conflict quiet_delete_entry : quiet.

Lemma quiet_apply dest_root dest_entries deleted decisions :
  quiet (apply_deletes dest_root dest_entries options deleted decisions).
Proof using dry.
  revert deleted. induction decisions as [|d ds IH]; intros deleted; cbn [apply_deletes];
    [apply quiet_ret|].
  destruct (decision_path d). quietly.
Qed.
#[local] Hint Resolve quiet_apply : quiet.

Lemma quiet_deletes dest source_entries dest_entries :
  quiet (apply_receiver_deletes dest source_entries dest_entries options).
Proof using dry.
  unfold apply_receiver_deletes. case_bool_decide; [apply quiet_ret|].
  destruct (observe_batch _ _ _ _). apply quiet_bind; [auto with quiet|]. intros _.
  destruct (plan_deletes _ _ _ _ _). auto with quiet.
Qed.
#[local] Hint Resolve quiet_deletes : quiet.

Lemma quiet_finish dest : quiet (finish_delayed_updates dest [] options).
Proof. apply quiet_ret. Qed.
Lemma quiet_cleanup : quiet (cleanup_delayed_updates [] options).
Proof. unfold cleanup_delayed_updates. case_match; apply quiet_ret. Qed.
#[local] Hint Resolve quiet_finish quiet_cleanup : quiet.

Lemma quiet_hardlink dest_root entry target relative :
  quiet (transfer_as_hardlink dest_root entry target relative options).
Proof using dry.
  unfold transfer_as_hardlink. rewrite dry. quietly.
Qed.
Lemma quiet_basis dest_root entry target relative :
  quiet (transfer_from_basis dest_root entry target relative options).
Proof using dry. unfold transfer_from_basis, replace_target. quietly. Qed.
Lemma quiet_fuzzy entry target : quiet (transfer_fuzzy entry target options).
Proof using dry.
  unfold transfer_fuzzy. rewrite dry, andb_false_r. apply quiet_ret.
Qed.
Lemma quiet_appended entry target : quiet (transfer_appended entry target options).
Proof using dry. unfold transfer_appended. quietly. Qed.
Lemma quiet_whole dest_root entry target relative :
  quiet (transfer_whole dest_root entry target relative options).
Proof using dry. unfold transfer_whole. rewrite dry. cbn [negb andb]. quietly. Qed.
#[local] Hint Resolve quiet_hardlink quiet_basis quiet_fuzzy quiet_appended quiet_whole : quiet.

Lemma quiet_file dest_root entry target relative :
  quiet (transfer_file dest_root entry target relative options).
Proof using dry. unfold transfer_file. quietly. Qed.
Lemma quiet_symlink entry dest_root target relative :
  quiet (transfer_symlink entry dest_root target relative options).
Proof using dry. unfold transfer_symlink. quietly. Qed.
Lemma quiet_other entry : quiet (handle_non_regular_entry entry options).
Proof. unfold handle_non_regular_entry, refuse_or_warn. quietly. Qed.
#[local] Hint Resolve quiet_file quiet_symlink quiet_other : quiet.

Lemma quiet_entry dest relative entry : quiet (sync_entry dest relative entry options).
Proof using dry. unfold sync_entry, sync_directory, sync_file. quietly. Qed.
#[local] Hint Resolve quiet_entry : quiet.

Lemma quiet_entries clock n dest source_entries dest_entries entries :
  quiet (sync_entries clock n dest source_entries dest_entries options entries).
Proof using dry.
  revert n. induction entries as [|[relative entry] entries IH]; intros n;
    cbn [sync_entries]; quietly.
Qed.
Lemma quiet_create dest : quiet (create_missing_dest dest options).
Proof using dry. unfold create_missing_dest. quietly. Qed.
#[local] Hint Resolve quiet_entries quiet_create : quiet.

Lemma quiet_directories directories : quiet (preserve_directory_mtimes directories options).
Proof using dry. apply quiet_for_each. intros []. auto with quiet. Qed.
#[local] Hint Resolve quiet_directories : quiet.

Lemma quiet_tree fuel clock source dest :
  quiet (sync_directory_tree fuel clock source dest options).
Proof using dry. unfold sync_directory_tree. quietly. Qed.
Lemma quiet_single source m dest : quiet (sync_single_file source m dest options).
Proof using dry. unfold sync_single_file. quietly. Qed.
#[local] Hint Resolve quiet_tree quiet_single : quiet.

Lemma dry_sync_tree fuel clock source dest fs :
  (sync_tree fuel clock source dest options fs).2 = fs.
Proof using dry. apply quiet_run. quietly. Qed.

Lemma quiet_missing_arg source dest n : quiet (delete_missing_arg source dest n options).
Proof using dry. unfold delete_missing_arg. quietly. Qed.
#[local] Hint Resolve quiet_missing_arg : quiet.

Lemma quiet_present clock n count sources dest :
  quiet (present_sources clock n count sources dest options).
Proof using dry.
  revert n. induction sources as [|source sources IH]; intros n; cbn [present_sources]; quietly.
Qed.
Lemma quiet_implied_dir dest prefix : quiet (ensure_implied_dir dest prefix options).
Proof using dry. unfold ensure_implied_dir. quietly. Qed.
Lemma quiet_implied source dest : quiet (ensure_implied_relative_dirs source dest options).
Proof using dry.
  unfold ensure_implied_relative_dirs. quietly.
  apply quiet_for_each. intros prefix. apply quiet_implied_dir.
Qed.

Lemma quiet_child (m : M F FsError SyncReport) : (∀ fs, (m fs).2 = fs) → quiet (sync_child m).
Proof. intros Hm. unfold sync_child. apply quiet_bind; [by apply quiet_act|]. auto with quiet. Qed.
End dry.

Section dry_run.
Context {F : Type} `{PortableFileSystem F} `{Platform}.

Lemma dry_children fuel clocks k sources options :
  o_dry_run options = true → quiet (sync_children (F := F) fuel clocks k sources options).
Proof.
  intros Hdry. revert k. induction sources as [|[source target] sources IH]; intros k;
    cbn [sync_children]; [apply quiet_ret|].
  apply quiet_bind; [|auto]. apply quiet_child. intros fs. apply dry_sync_tree. by case_match.
Qed.

Lemma dry_multiple fuel clocks sources dest options (fs : F) :
  o_dry_run options = true → (sync_multiple_sources fuel clocks sources dest options fs).2 = fs.
Proof.
  intros Hdry. apply quiet_run.
  apply quiet_bind; [apply quiet_peek|intros found].
  apply quiet_bind; [repeat case_match; (apply quiet_ret || apply quiet_throw)|intros _].
  apply quiet_bind; [apply quiet_inspect|intros targets].
  apply quiet_bind; [apply quiet_lift|intros _].
  apply quiet_bind; [apply quiet_inspect|intros _].
  apply quiet_bind; [by apply quiet_create|intros _]. by apply dry_children.
Qed.

(** C11. A dry run leaves any file system as it is, whatever the other options, the sources
    and the outcome. *)
Theorem dry_run_changes_nothing fuel clocks sources dest options (fs : F) :
  o_dry_run options = true → (sync_sources fuel clocks sources dest options fs).2 = fs.
Proof.
  intros Hdry. apply quiet_run. case_bool_decide; [apply quiet_throw|].
  apply quiet_bind; [by apply quiet_present|intros present].
  case_bool_decide; [apply quiet_ret|]. apply quiet_bind.
  { case_match; [|apply quiet_ret]. apply quiet_for_each. intros. by apply quiet_implied. }
  intros _. destruct present as [|source [|]]; try case_match;
    repeat (apply quiet_bind; [apply quiet_inspect || apply quiet_lift|intros ?]);
    apply quiet_child; intros; (by apply dry_sync_tree) || by apply dry_multiple.
Qed.
End dry_run.

#[local] Instance unix : Platform := false.

(** The default options make a dry run. *)
Lemma dry_run_changes_nothing_witness :
  let fs := (memory_write_file_atomic (parse_path (lit "a/f")) [1; 2; 3] MemoryFileSystem_default).2 in
  (sync_sources 9 (λ _ _, 0) [parse_path (lit "a")] (parse_path (lit "b")) SyncOptions_default fs).2 = fs.
Proof. cbv zeta. apply dry_run_changes_nothing. reflexivity. Defined.
