(* ===== verification/SyncDeletes.v ===== *)
(** * Deletions of a local sync

    The plan of deletions, the batches it is made from, and what a sync deletes over
    any file system. *)

From stdpp Require Import sorting.
From S2P Require Import Prelude Str Filter FsPath Metadata FileSystem MemoryFs SyncPlan SyncWalk Sync.

(** ** The order of deletions *)

Lemma delete_cmp_opp x y : delete_cmp y x = CompOpp (delete_cmp x y).
Proof.
  unfold delete_cmp. rewrite (Nat.compare_antisym (length (source_path y))).
  destruct (Nat.compare _ _); cbn; try done. apply path_cmp_opp.
Qed.

#[export] Instance delete_le_total : Total delete_le.
Proof.
  intros x y. unfold delete_le. rewrite (delete_cmp_opp x y).
  destruct (delete_cmp x y); cbn; auto.
Qed.

Lemma delete_le_spec x y :
  delete_le x y ↔
  (length (source_path y) < length (source_path x))%nat ∨
  length (source_path y) = length (source_path x) ∧ path_le (source_path y) (source_path x).
Proof.
  unfold delete_le, delete_cmp, path_le.
  destruct (Nat.compare_spec (length (source_path y)) (length (source_path x))).
  - split; [auto|]. intros [?|[_ ?]]; [lia|done].
  - split; [|done]. intros _. left. lia.
  - split; [done|]. intros [?|[? ?]]; lia.
Qed.

#[export] Instance delete_le_trans : Transitive delete_le.
Proof.
  intros x y z. rewrite !delete_le_spec. intros [?|[? ?]] [?|[? ?]]; [left; lia..|].
  right. split; [lia|]. by transitivity (source_path y).
Qed.

(** ** The plan *)

Definition planned_paths (decisions : list IncrementalDeleteDecision) : list PathBuf :=
  (λ d, (decision_path d).1) <$> decisions.

Lemma decision_path_of rules files_from excluded e :
  (decision_path (delete_decision rules files_from excluded e)).1 = source_path e.
Proof. unfold delete_decision. by repeat case_match. Qed.

(** What a plan does with an entry is settled by the list of files and the rules. *)
Lemma decision_protects rules files_from excluded e :
  (decision_path (delete_decision rules files_from excluded e)).2 =
  from_option (λ files_from, negb (files_from_matches (source_path e) files_from)) false files_from
  || delete_is_protected rules (source_path e) (source_type e) excluded.
Proof. unfold delete_decision. destruct (_ || _); [done|]. by case_match. Qed.

Section plan.
Variables (self : IncrementalReceiverState) (existing : list IncrementalSourceEntry).
Variables (rules : RuleSet) (files_from : option (list PathBuf)) (excluded : bool).
Hypothesis ready : delete_ready self = true.

Definition delete_entries : list IncrementalSourceEntry :=
  merge_sort delete_le
    (List.filter (λ entry, bool_decide (source_path entry ∉ source_relatives self)) existing).

Lemma plan_deletes_ready :
  (plan_deletes existing rules files_from excluded self).1 =
  delete_decision rules files_from excluded <$> delete_entries.
Proof using ready. unfold plan_deletes. by rewrite ready. Qed.

Lemma planned_paths_ready :
  planned_paths (plan_deletes existing rules files_from excluded self).1 =
  source_path <$> delete_entries.
Proof using ready.
  rewrite plan_deletes_ready. unfold planned_paths. rewrite <-list_fmap_compose.
  apply list_fmap_ext. intros _ e _. apply decision_path_of.
Qed.

Lemma elem_of_delete_entries e :
  e ∈ delete_entries ↔ e ∈ existing ∧ source_path e ∉ source_relatives self.
Proof using Type.
  unfold delete_entries. rewrite merge_sort_Permutation, list_elem_of_In, filter_In.
  by rewrite bool_decide_eq_true, list_elem_of_In.
Qed.

Lemma delete_entries_sorted : StronglySorted delete_le delete_entries.
Proof using Type. apply StronglySorted_merge_sort; apply _. Qed.
End plan.

Lemma NoDup_filter_fmap {A B} (f : A → B) (q : A → bool) l :
  NoDup (f <$> l) → NoDup (f <$> List.filter q l).
Proof.
  induction l as [|x l IH]; [done|]. rewrite fmap_cons, NoDup_cons. intros [Hx Hl]. cbn.
  destruct (q x); [|auto]. rewrite fmap_cons, NoDup_cons. split; [|auto].
  intros (y & Hy & Hin)%list_elem_of_fmap. apply Hx. rewrite Hy.
  apply list_elem_of_fmap_2. apply list_elem_of_In in Hin. apply filter_In in Hin as [Hin _].
  by apply list_elem_of_In.
Qed.

Lemma StronglySorted_lookup {A} (R : A → A → Prop) l i j x y :
  StronglySorted R l → (i < j)%nat → l !! i = Some x → l !! j = Some y → R x y.
Proof.
  intros Hs. revert i j. induction Hs as [|z l Hs IH Hz]; intros [|i] [|j] Hij Hx Hy;
    simplify_eq/=; try lia; [|eapply (IH i j); eauto; lia].
  rewrite Forall_forall in Hz. apply Hz. by eapply list_elem_of_lookup_2.
Qed.

(** The decisions of a plan that is ready. *)
Lemma planned_deletes self existing rules files_from excluded :
  delete_ready self = true →
  NoDup (source_path <$> existing) →
  let decisions := (plan_deletes existing rules files_from excluded self).1 in
  (∀ p, p ∈ planned_paths decisions ↔
        p ∈ source_path <$> existing ∧ p ∉ source_relatives self) ∧
  NoDup (planned_paths decisions) ∧
  (∀ e, e ∈ existing → source_path e ∉ source_relatives self →
        delete_decision rules files_from excluded e ∈ decisions) ∧
  (∀ i j p c q, planned_paths decisions !! i = Some p →
        planned_paths decisions !! j = Some (p ++ c :: q) → (j < i)%nat).
Proof.
  intros Hready Hnodup decisions.
  assert (Hpaths : planned_paths decisions = source_path <$> delete_entries self existing)
    by by apply planned_paths_ready.
  rewrite !Hpaths. split_and!.
  - intros p. rewrite !list_elem_of_fmap. split.
    + intros (e & -> & He). apply elem_of_delete_entries in He as [He Hno]. eauto.
    + intros [(e & -> & He) Hno]. exists e. split; [done|]. by apply elem_of_delete_entries.
  - unfold delete_entries. rewrite merge_sort_Permutation. by apply NoDup_filter_fmap.
  - intros e He Hno. unfold decisions. rewrite plan_deletes_ready by done.
    apply list_elem_of_fmap_2. by apply elem_of_delete_entries.
  - intros i j p c q. rewrite !list_lookup_fmap.
    destruct (delete_entries self existing !! i) as [x|] eqn:Hi; [|done].
    destruct (delete_entries self existing !! j) as [y|] eqn:Hj; [|done].
    cbn. intros Hx Hy. apply (inj Some) in Hx, Hy.
    destruct (Nat.lt_trichotomy j i) as [?|[->|Hlt]]; [done|..].
    + rewrite Hi in Hj. injection Hj as <-. rewrite Hx in Hy.
      apply (f_equal length) in Hy. rewrite length_app in Hy. cbn in Hy. lia.
    + assert (Hle : delete_le x y)
        by (eapply StronglySorted_lookup; eauto using delete_entries_sorted).
      apply delete_le_spec in Hle. rewrite Hx, Hy, length_app in Hle. cbn in Hle. lia.
Qed.

(** A plan, made when the last batch has been seen, decides each entry of the receiver
    that the source does not have, once; it protects those the list of files leaves out
    and those the rules protect and deletes the others; and what a directory contains
    is decided before the directory. *)
Theorem plan_deletes_spec self existing rules files_from excluded :
  delete_ready self = true →
  NoDup (source_path <$> existing) →
  let decisions := (plan_deletes existing rules files_from excluded self).1 in
  (∀ p, p ∈ planned_paths decisions ↔
        p ∈ source_path <$> existing ∧ p ∉ source_relatives self) ∧
  NoDup (planned_paths decisions) ∧
  (∀ e, e ∈ existing → source_path e ∉ source_relatives self →
        delete_decision rules files_from excluded e ∈ decisions) ∧
  (∀ i j p c q, planned_paths decisions !! i = Some p →
        planned_paths decisions !! j = Some (p ++ c :: q) → (j < i)%nat).
Proof. apply planned_deletes. Qed.

(** ** Batches of the source *)

Definition acceptable (e : IncrementalSourceEntry) : bool :=
  is_ok (normalize_incremental_relative_path (source_path e)).

Definition relative_of (e : IncrementalSourceEntry) : option PathBuf :=
  match normalize_incremental_relative_path (source_path e) with
  | Ok relative => Some relative
  | Err _ => None
  end.

Definition relatives_of (entries : list IncrementalSourceEntry) : gset PathBuf :=
  list_to_set (omap relative_of entries).

Definition is_directory_entry (e : IncrementalSourceEntry) : bool :=
  bool_decide (source_type e = Directory).

(** The state that stands for the entries seen so far. *)
Definition observed (mode : DeleteMode) (entries : list IncrementalSourceEntry) (final : bool) :
    IncrementalReceiverState :=
  {| delete_mode := mode;
     source_relatives := relatives_of entries;
     pending_directories := relatives_of (List.filter is_directory_entry entries);
     pending_deletes := [];
     completed_file_indexes := set_seq 0 (length entries);
     next_index := length entries;
     final_seen := final |}.

Lemma new_is_observed mode : new_receiver_state mode = observed mode [] false.
Proof. reflexivity. Qed.

Lemma relatives_of_snoc entries e relative :
  relative_of e = Some relative →
  relatives_of (entries ++ [e]) = {[ relative ]} ∪ relatives_of entries.
Proof.
  intros He. unfold relatives_of. rewrite omap_app, list_to_set_app_L. cbn. rewrite He. cbn.
  set_solver.
Qed.

Lemma observe_entry_spec mode entries e relative :
  relative_of e = Some relative →
  observe_entry (length entries) relative (source_type e) (observed mode entries false) =
  observed mode (entries ++ [e]) false.
Proof.
  intros He. unfold observe_entry, observed. cbn.
  rewrite (relatives_of_snoc _ _ _ He), length_app, List.filter_app. cbn.
  f_equal.
  - unfold is_directory_entry. case_bool_decide; [|by rewrite app_nil_r].
    by rewrite (relatives_of_snoc _ _ _ He).
  - rewrite set_seq_add_L. cbn. set_solver.
Qed.

Lemma observe_entries_ok mode entries xs :
  forallb acceptable xs = true →
  observe_entries (length entries) xs (observed mode entries false) =
  (Ok tt, observed mode (entries ++ xs) false).
Proof.
  revert entries. induction xs as [|x xs IH]; intros entries; cbn [forallb].
  { intros _. by rewrite app_nil_r. }
  rewrite andb_true_iff. unfold acceptable at 1. intros [Hx Hxs]. cbn [observe_entries].
  assert (∃ relative, normalize_incremental_relative_path (source_path x) = Ok relative)
    as [relative Hr] by (destruct (normalize_incremental_relative_path _); [eauto|done]).
  unfold lift, get, put, mbind, M_bind. rewrite Hr. cbn.
  rewrite observe_entry_spec by (unfold relative_of; by rewrite Hr).
  specialize (IH (entries ++ [x]) Hxs). rewrite length_app in IH. cbn in IH.
  by rewrite IH, <-app_assoc.
Qed.

Lemma observe_entries_err mode entries xs :
  forallb acceptable xs = false →
  ∃ path good, observe_entries (length entries) xs (observed mode entries false) =
  (Err (InvalidPortablePath path), observed mode (entries ++ good) false).
Proof.
  revert entries. induction xs as [|x xs IH]; intros entries; cbn [forallb]; [done|].
  unfold acceptable at 1. cbn [observe_entries]. unfold lift, get, put, mbind, M_bind.
  destruct (normalize_incremental_relative_path (source_path x)) as [relative|err] eqn:Hr; cbn.
  - intros Hxs. rewrite observe_entry_spec by (unfold relative_of; by rewrite Hr).
    destruct (IH (entries ++ [x]) Hxs) as (path & good & Hrun).
    rewrite length_app in Hrun. cbn in Hrun. exists path, (x :: good).
    by rewrite Hrun, <-app_assoc.
  - intros _. exists (source_path x), []. rewrite app_nil_r.
    unfold normalize_incremental_relative_path in Hr.
    assert (Herr : ∀ out, normal_components (source_path x) (source_path x) out = Err err →
                    err = InvalidPortablePath (source_path x)).
    { generalize (source_path x) at 2. intros p. induction p as [|[] p IHp]; cbn; naive_solver. }
    destruct (normal_components _ _ _) eqn:Hn; cbn in Hr;
      [case_bool_decide; naive_solver|]. by injection Hr as <-; rewrite (Herr _ Hn).
Qed.

(** What a batch makes of the receiver's state. *)
Lemma observed_batch mode entries n batch final :
  observe_batch n batch final (observed mode entries true) =
    (Err (Unsupported "incremental receiver batch arrived after final batch"),
     observed mode entries true) ∧
  (n ≠ length entries →
   observe_batch n batch final (observed mode entries false) =
     (Err (Unsupported "incremental receiver batch index gap"), observed mode entries false)) ∧
  (n = length entries → forallb acceptable batch = true →
   observe_batch n batch final (observed mode entries false) =
     (Ok tt, observed mode (entries ++ batch) final)) ∧
  (n = length entries → forallb acceptable batch = false →
   ∃ path good, observe_batch n batch final (observed mode entries false) =
     (Err (InvalidPortablePath path), observed mode (entries ++ good) false)).
Proof.
  unfold observe_batch. split_and!; [done|..].
  - intros Hn. unfold get, mbind, M_bind. cbn. by rewrite bool_decide_true.
  - intros -> Hok. unfold get, put, mbind, M_bind. cbn.
    rewrite bool_decide_false by auto. rewrite observe_entries_ok by done. by destruct final.
  - intros -> Hbad. destruct (observe_entries_err mode entries batch Hbad) as (path & good & Hrun).
    exists path, good. unfold get, mbind, M_bind. cbn.
    rewrite bool_decide_false by auto. by rewrite Hrun.
Qed.

(** The state of the receiver stands for the list of the entries seen so far.  A batch
    that starts where the last one ended and whose paths are relative extends the list;
    a batch at another index, or after the final one, changes nothing; and a path that
    is not relative ends the batch before it. *)
Theorem observe_batch_spec mode entries n batch final :
  observe_batch n batch final (observed mode entries true) =
    (Err (Unsupported "incremental receiver batch arrived after final batch"),
     observed mode entries true) ∧
  (n ≠ length entries →
   observe_batch n batch final (observed mode entries false) =
     (Err (Unsupported "incremental receiver batch index gap"), observed mode entries false)) ∧
  (n = length entries → forallb acceptable batch = true →
   observe_batch n batch final (observed mode entries false) =
     (Ok tt, observed mode (entries ++ batch) final)) ∧
  (n = length entries → forallb acceptable batch = false →
   ∃ path good, observe_batch n batch final (observed mode entries false) =
     (Err (InvalidPortablePath path), observed mode (entries ++ good) false)).
Proof. apply observed_batch. Qed.

(** ** What a sync deletes *)

Definition deleted_path (action : SyncAction) : option PathBuf :=
  match action with DeleteFile path | DeleteDir path => Some path | _ => None end.

Definition deleted_paths (actions : list SyncAction) : list PathBuf := omap deleted_path actions.

Section deletes.
Context {F : Type} `{PortableFileSystem F} `{Platform}.
Implicit Types s : Syncing F.

Local Abbreviation S := (M (Syncing F) FsError).

(** What an action adds to the report, whether it succeeds or not. *)
Definition emits {A} (m : S A) (Q : list SyncAction → Prop) : Prop := ∀ s,
  ∃ new, actions (m s).2 = actions s ++ new ∧ Q new.

Lemma emits_bind {A B} (m : S A) (f : A → S B) (P Q R : list SyncAction → Prop) :
  emits m P → (∀ a, emits (f a) Q) → (∀ new, P new → R new) →
  (∀ new1 new2, P new1 → Q new2 → R (new1 ++ new2)) → emits (m ≫= f) R.
Proof.
  intros Hm Hf HPR HR s. destruct (Hm s) as (new1 & H1 & HP).
  unfold mbind, M_bind. destruct (m s) as [[a|e] s1]; cbn in H1; [|eauto].
  destruct (Hf a s1) as (new2 & H2 & HQ). exists (new1 ++ new2).
  rewrite H2, H1, app_assoc. auto.
Qed.

(** Actions that report no deletion. *)
Definition keeps {A} (m : S A) : Prop := emits m (λ new, deleted_paths new = []).

Lemma keeps_pure {A} (m : S A) : (∀ s, (m s).2 = s) → keeps m.
Proof. intros Hm s. exists []. by rewrite Hm, app_nil_r. Qed.
Lemma keeps_act {A} (m : M F FsError A) : keeps (act m).
Proof.
  intros s. exists []. unfold act. destruct (m (fs_of s)); cbn. by rewrite app_nil_r.
Qed.
Lemma keeps_report action : deleted_path action = None → keeps (report action).
Proof. intros Ha s. exists [action]. split; [done|]. cbn. by rewrite Ha. Qed.
Lemma keeps_bind {A B} (m : S A) (f : A → S B) :
  keeps m → (∀ a, keeps (f a)) → keeps (m ≫= f).
Proof.
  intros Hm Hf. eapply emits_bind; [exact Hm|exact Hf|auto|].
  intros new1 new2 H1 H2. unfold deleted_paths in *. by rewrite omap_app, H1, H2.
Qed.

Lemma keeps_unless_dry options (m : S unit) : keeps m → keeps (unless_dry options m).
Proof. unfold unless_dry. case_match; [by intros _; apply keeps_pure|done]. Qed.

Lemma keeps_backup dest_root target relative options :
  keeps (backup_receiver_file dest_root target relative options).
Proof.
  unfold backup_receiver_file, perform. case_match; [by apply keeps_pure|].
  apply keeps_bind; [by apply keeps_pure|]. intros [m|]; [|by apply keeps_pure].
  case_bool_decide; [by apply keeps_pure|].
  apply keeps_bind; [by apply keeps_report|intros _]. apply keeps_unless_dry.
  apply keeps_bind; [apply keeps_act|intros]. by apply keeps_pure.
Qed.

(** Deleting an entry reports its deletion, at most once. *)
Lemma emits_delete dest_root path relative t options :
  emits (delete_receiver_entry dest_root path relative t options)
    (λ new, deleted_paths new = [] ∨ deleted_paths new = [path]).
Proof.
  assert (Hrest : ∀ action (m : M F FsError unit), deleted_path action = Some path →
    emits (report action;; unless_dry options (act m))
      (λ new, deleted_paths new = [] ∨ deleted_paths new = [path])).
  { intros action m Ha. eapply (emits_bind _ _ (λ new, deleted_paths new = [path])).
    - intros s. exists [action]. split; [done|]. cbn. by rewrite Ha.
    - intros _. apply keeps_unless_dry, keeps_act.
    - auto.
    - intros new1 new2 H1 H2. unfold deleted_paths in *. rewrite omap_app, H1, H2. by right. }
  unfold delete_receiver_entry. destruct t; try by apply Hrest.
  all: eapply emits_bind; [apply keeps_backup|intros _; by apply Hrest|auto|];
    intros new1 new2 H1 H2; unfold deleted_paths in *; by rewrite omap_app, H1.
Qed.

(** The paths a list of decisions may delete, in its order. *)
Definition doomed (dest_entries : gmap PathBuf WalkEntry)
    (decisions : list IncrementalDeleteDecision) : list PathBuf :=
  omap (λ d, let '(relative, protected) := decision_path d in
             if protected : bool then None else entry_path <$> dest_entries !! relative)
    decisions.

Definition within_limit (options : SyncOptions) (deleted : Z) (new : list SyncAction) : Prop :=
  ∀ limit, o_max_delete options = Some limit →
  Z.of_nat (length (deleted_paths new)) ≤ Z.max 0 (limit - deleted).

Definition planned (options : SyncOptions) (deleted : Z) (paths : list PathBuf)
    (new : list SyncAction) : Prop :=
  deleted_paths new `sublist_of` paths ∧ within_limit options deleted new.

Lemma deleted_paths_app new1 new2 :
  deleted_paths (new1 ++ new2) = deleted_paths new1 ++ deleted_paths new2.
Proof. apply omap_app. Qed.

Lemma planned_nil options deleted paths new :
  deleted_paths new = [] → planned options deleted paths new.
Proof.
  intros Hnew. unfold planned, within_limit. rewrite Hnew.
  split; [apply sublist_nil_l|]. intros. cbn. lia.
Qed.

Lemma planned_skip options deleted path paths new :
  planned options deleted paths new → planned options deleted (path :: paths) new.
Proof. intros [Hsub Hlim]. split; [by apply sublist_cons|done]. Qed.

Lemma planned_kept options deleted paths new1 new2 :
  deleted_paths new1 = [] → planned options deleted paths new2 →
  planned options deleted paths (new1 ++ new2).
Proof.
  intros H1. unfold planned, within_limit. rewrite deleted_paths_app, H1. done.
Qed.

Lemma planned_delete options deleted path paths new1 new2 :
  (∀ limit, o_max_delete options = Some limit → deleted < limit) →
  deleted_paths new1 = [] ∨ deleted_paths new1 = [path] →
  planned options (deleted + 1) paths new2 →
  planned options deleted (path :: paths) (new1 ++ new2).
Proof.
  intros Hlt H1 [Hsub Hlim]. unfold planned, within_limit. rewrite deleted_paths_app.
  assert (Hlen : (length (deleted_paths new1) ≤ 1)%nat) by (destruct H1 as [->| ->]; cbn; lia).
  split.
  - destruct H1 as [->| ->]; [by apply sublist_cons|by apply sublist_skip].
  - intros limit Hl. rewrite length_app. specialize (Hlt _ Hl). specialize (Hlim _ Hl). lia.
Qed.

Lemma emits_weaken {A} (m : S A) (P Q : list SyncAction → Prop) :
  emits m P → (∀ new, P new → Q new) → emits m Q.
Proof. intros Hm HPQ s. destruct (Hm s) as (new & ? & ?). eauto. Qed.

Lemma emits_after {A B} (m : S A) (f : A → S B) options deleted paths :
  keeps m → (∀ a, emits (f a) (planned options deleted paths)) →
  emits (m ≫= f) (planned options deleted paths).
Proof.
  intros Hm Hf. eapply emits_bind; [exact Hm|exact Hf|..]; eauto using planned_nil, planned_kept.
Qed.

Lemma emits_apply dest_root dest_entries options deleted decisions :
  emits (apply_deletes dest_root dest_entries options deleted decisions)
    (planned options deleted (doomed dest_entries decisions)).
Proof.
  revert deleted. induction decisions as [|d ds IH]; intros deleted; cbn [apply_deletes].
  { intros s. exists []. rewrite app_nil_r. eauto using planned_nil. }
  unfold doomed. cbn [omap list_omap]. fold (doomed dest_entries ds).
  destruct (decision_path d) as [relative protected].
  destruct (dest_entries !! relative) as [entry|]; [|destruct protected; apply IH].
  cbn [fmap option_fmap option_map].
  apply emits_after; [by apply keeps_pure|intros found].
  destruct (negb (is_ok found)).
  { destruct protected; [apply IH|]. eapply emits_weaken; [apply IH|]. apply planned_skip. }
  destruct protected.
  { apply emits_after; [by apply keeps_report|auto]. }
  assert (Hrest : (∀ limit, o_max_delete options = Some limit → deleted < limit) →
    emits (delete_receiver_entry dest_root (entry_path entry) relative
             (file_type (entry_metadata entry)) options;;
           apply_deletes dest_root dest_entries options (deleted + 1) ds)
      (planned options deleted (entry_path entry :: doomed dest_entries ds))).
  { intros Hlt. eapply emits_bind; [apply emits_delete|intros _; apply IH|..].
    - intros new Hnew. rewrite <-(app_nil_r new). apply planned_delete; [done|done|].
      by apply planned_nil.
    - intros new1 new2 H1 H2. by apply planned_delete. }
  destruct (o_max_delete options) as [limit|] eqn:Hmax; [|by apply Hrest].
  destruct (limit <=? deleted) eqn:Hle.
  - intros s. exists []. rewrite app_nil_r. eauto using planned_nil.
  - apply Hrest. intros ? [= <-]. lia.
Qed.
End deletes.

Lemma relative_of_portable p t :
  portable p → p ≠ [] → relative_of {| source_path := p; source_type := t |} = Some p.
Proof.
  intros Hp Hne. unfold relative_of, normalize_incremental_relative_path. cbn.
  rewrite normal_components_portable by done. cbn. by rewrite bool_decide_false.
Qed.

Definition portable_keys {V} (entries : gmap PathBuf V) : Prop :=
  ∀ relative, is_Some (entries !! relative) → portable relative ∧ relative ≠ [].

Lemma incremental_acceptable entries :
  portable_keys entries → forallb acceptable (incremental_entries entries) = true.
Proof.
  intros Hkeys. apply forallb_forall. intros e He.
  apply list_elem_of_In, list_elem_of_fmap in He as ([relative entry] & -> & Hin).
  apply elem_of_btree_iter in Hin. destruct (Hkeys relative) as [Hp Hne]; [eauto|].
  unfold acceptable, normalize_incremental_relative_path. cbn.
  rewrite normal_components_portable by done. cbn. by rewrite bool_decide_false.
Qed.

Lemma elem_of_relatives entries relative :
  portable_keys entries →
  relative ∈ relatives_of (incremental_entries entries) ↔ is_Some (entries !! relative).
Proof.
  intros Hkeys. unfold relatives_of. rewrite elem_of_list_to_set, list_elem_of_omap. split.
  - intros (e & He & Hr). apply list_elem_of_fmap in He as ([k entry] & -> & Hin).
    apply elem_of_btree_iter in Hin. destruct (Hkeys k) as [Hp Hne]; [eauto|].
    cbn in Hr. rewrite relative_of_portable in Hr by done. simplify_eq. eauto.
  - intros [entry Hin]. destruct (Hkeys relative) as [Hp Hne]; [eauto|].
    eexists. split; [|by apply (relative_of_portable relative (file_type (entry_metadata entry)))].
    apply list_elem_of_fmap. exists (relative, entry). split; [done|].
    by apply elem_of_btree_iter.
Qed.

(** The deletions of a plan, as entries of the receiver. *)
Definition doomed_entries (dest_entries : gmap PathBuf WalkEntry)
    (decisions : list IncrementalDeleteDecision) : list (PathBuf * WalkEntry) :=
  omap (λ d, let '(relative, protected) := decision_path d in
             if protected : bool then None else pair relative <$> dest_entries !! relative)
    decisions.

Lemma doomed_paths dest_entries decisions :
  doomed dest_entries decisions = entry_path ∘ snd <$> doomed_entries dest_entries decisions.
Proof.
  unfold doomed, doomed_entries. induction decisions as [|d ds IH]; [done|]. cbn.
  destruct (decision_path d) as [relative []]; [done|].
  destruct (dest_entries !! relative); cbn; [|done]. by rewrite IH.
Qed.

Lemma doomed_relatives dest_entries decisions :
  (doomed_entries dest_entries decisions).*1 `sublist_of` planned_paths decisions.
Proof.
  unfold doomed_entries, planned_paths. induction decisions as [|d ds IH]; [constructor|]. cbn.
  destruct (decision_path d) as [relative protected]; cbn.
  destruct protected; [by apply sublist_cons|].
  destruct (dest_entries !! relative); cbn; [by apply sublist_skip|by apply sublist_cons].
Qed.

Lemma sublist_fmap_inv {A B} (f : A → B) l k :
  l `sublist_of` (f <$> k) → ∃ k', k' `sublist_of` k ∧ l = f <$> k'.
Proof.
  revert l. induction k as [|x k IH]; intros l; cbn.
  { intros ->%sublist_nil_r. by exists []. }
  intros [Hl|(l' & -> & Hl)]%sublist_cons_r.
  - destruct (IH _ Hl) as (k' & ? & ->). exists k'. by split; [apply sublist_cons|].
  - destruct (IH _ Hl) as (k' & ? & ->). exists (x :: k'). by split; [apply sublist_skip|].
Qed.

Lemma NoDup_incremental entries : NoDup (source_path <$> incremental_entries entries).
Proof.
  unfold incremental_entries. rewrite <-list_fmap_compose.
  apply (NoDup_btree_keys entries).
Qed.

(** C12. What the deletions of a sync report over any file system: each is of an entry of the
    receiver that the source does not have, that the list of files selects and that no
    rule protects, each entry at most once, and no more than the limit; without a mode
    of deletion there is none. *)
Theorem deletes_only_what_is_extra {F} `{PortableFileSystem F} `{Platform}
    dest source_entries dest_entries options (s : Syncing F) :
  portable_keys source_entries →
  ∃ new, actions (apply_receiver_deletes dest source_entries dest_entries options s).2 =
         actions s ++ new ∧
  (effective_delete_mode options = NoDelete → new = []) ∧
  (∀ limit, o_max_delete options = Some limit →
     Z.of_nat (length (deleted_paths new)) ≤ Z.max 0 limit) ∧
  ∃ extra, deleted_paths new = entry_path ∘ snd <$> extra ∧ NoDup extra.*1 ∧
    ∀ relative entry, (relative, entry) ∈ extra →
      dest_entries !! relative = Some entry ∧ source_entries !! relative = None ∧
      (∀ files_from, o_files_from options = Some files_from →
         files_from_matches relative files_from = true) ∧
      delete_is_protected (o_filter_rules options) relative
        (file_type (entry_metadata entry)) (o_delete_excluded options) = false.
Proof.
  intros Hkeys. unfold apply_receiver_deletes. case_bool_decide as Hmode.
  { exists []. rewrite app_nil_r. split_and!; [done..|intros; cbn; lia|].
    exists []. split_and!; [done|constructor|]. by intros ? ? ?%elem_of_nil. }
  rewrite new_is_observed.
  destruct (observed_batch (effective_delete_mode options) [] 0
              (incremental_entries source_entries) true) as (_ & _ & Hok & _).
  rewrite Hok by (done || by apply incremental_acceptable).
  set (self := observed _ ([] ++ _) true).
  assert (Hready : delete_ready self = true).
  { unfold delete_ready. cbn. by rewrite bool_decide_true. }
  destruct (plan_deletes _ _ _ _ self) as [decisions self'] eqn:Hplan.
  destruct (planned_deletes self (incremental_entries dest_entries) (o_filter_rules options)
              (o_files_from options) (o_delete_excluded options) Hready
              (NoDup_incremental dest_entries)) as (Hin & Hnodup & _ & _).
  pose proof (plan_deletes_ready self (incremental_entries dest_entries)
    (o_filter_rules options) (o_files_from options) (o_delete_excluded options) Hready) as Hdec.
  rewrite Hplan in Hin, Hnodup, Hdec. cbn [fst] in Hin, Hnodup, Hdec.
  destruct (emits_apply dest dest_entries options 0 decisions s) as (new & Hnew & Hsub & Hlim).
  exists new. split_and!; [done|done| |].
  { intros limit Hl. specialize (Hlim limit Hl). by rewrite Z.sub_0_r in Hlim. }
  rewrite doomed_paths in Hsub. apply sublist_fmap_inv in Hsub as (extra & Hextra & ->).
  exists extra. split_and!; [done| |].
  { eapply sublist_NoDup; [exact Hnodup|]. etrans; [|apply doomed_relatives].
    by apply fmap_sublist. }
  intros relative entry Hel. eapply elem_of_sublist in Hel; [|done].
  apply list_elem_of_omap in Hel as (d & Hd & Heq). cbn in Heq.
  assert (decision_path d = (relative, false) ∧ dest_entries !! relative = Some entry)
    as [Hpath Hentry].
  { destruct (decision_path d) as [r q]. destruct q; cbn in Heq.
    - discriminate Heq.
    - destruct (dest_entries !! r) eqn:?; [|discriminate Heq]. by injection Heq as <- <-. }
  rewrite Hdec in Hd. apply list_elem_of_fmap in Hd as (e & -> & He).
  apply elem_of_delete_entries in He as [He Hno].
  rewrite (surjective_pairing (decision_path _)), decision_path_of, decision_protects in Hpath.
  injection Hpath as <- [Hff Hprot]%orb_false_iff.
  apply list_elem_of_fmap in He as ([k entry'] & -> & Hk%elem_of_btree_iter). cbn in *.
  rewrite Hk in Hentry. injection Hentry as ->. split_and!; [done| |..].
  - change (k ∉ relatives_of (incremental_entries source_entries)) in Hno.
    rewrite elem_of_relatives in Hno by done. by apply eq_None_not_Some.
  - intros files_from Hfrom. rewrite Hfrom in Hff. by apply negb_false_iff in Hff.
  - done.
Qed.

#[local] Instance unix : Platform := false.

Local Abbreviation p := (λ s, parse_path (lit s)).

(** Deletions with the rule [protect keep]. *)
Definition deleting_options (rules : RuleSet) : SyncOptions :=
  {| o_recursive := true; o_delete := true; o_delete_mode := NoDelete;
     o_preserve_mtime := false; o_omit_dir_times := false; o_dry_run := false;
     o_filter_rules := rules; o_destination_path_preflight := None;
     o_update_mode := QuickCheck; o_files_from := None; o_file_write_mode := Atomic;
     o_keep_partial := false; o_partial_dir := None; o_temp_dir := None;
     o_delay_updates := false; o_fsync := false; o_append_verify := false;
     o_symlink_mode := Skip; o_transfer_dirs := false; o_mkpath := false;
     o_relative_paths := false; o_implied_dirs := true; o_one_file_system := false;
     o_skip_newer_receiver := false; o_existing_only := false; o_ignore_existing := false;
     o_max_size := None; o_min_size := None; o_modify_window := 0;
     o_ignore_missing_args := false; o_delete_missing_args := false;
     o_delete_excluded := false; o_ignore_errors := false; o_force_delete := false;
     o_max_delete := Some 5; o_backup := false; o_backup_dir := None;
     o_backup_suffix := lit "~"; o_preserve_hard_links := false; o_keep_dirlinks := false;
     o_preserve_devices := false; o_preserve_specials := false;
     o_fail_on_metadata_loss := false; o_compare_dest := []; o_copy_dest := [];
     o_link_dest := []; o_sparse := false; o_preallocate := false; o_fuzzy := false;
     o_bwlimit := None; o_max_alloc := None; o_stop_deadline := None |}.

(** The receiver has a file that a rule protects, below a directory that the source does
    not have. *)
Definition keeping_tree : MemoryFileSystem :=
  ((add_file (p "src/a") [1];; add_file (p "dst/d/keep") [2]) MemoryFileSystem_default).2.

Definition protect_keep : RuleSet :=
  match parse_filter (lit "protect keep") with Ok rule => [rule] | Err _ => [] end.


Definition walked (root : PathBuf) : gmap PathBuf WalkEntry :=
  match relative_entries 9 keeping_tree root None true Preserve false with
  | Ok entries => entries
  | Err _ => ∅
  end.

Lemma deletes_only_what_is_extra_witness :
  let s := {| fs_of := keeping_tree; actions := []; delayed_transfers := [];
              hardlink_targets := ∅; directory_mtimes := [] |} in
  ∃ new, actions (apply_receiver_deletes (p "dst") (walked (p "src")) (walked (p "dst"))
                    (deleting_options protect_keep) s).2 = new ∧
    Z.of_nat (length (deleted_paths new)) ≤ 5.
Proof.
  intros s.
  destruct (deletes_only_what_is_extra (p "dst") (walked (p "src")) (walked (p "dst"))
              (deleting_options protect_keep) s) as (new & Hnew & _ & Hlimit & _).
  - intros relative Hin.
    assert (Hlist : forallb (λ x, bool_decide (x.1 ≠ []) && forallb is_normal x.1)
              (map_to_list (walked (p "src"))) = true) by by vm_compute.
    destruct Hin as [e He%elem_of_map_to_list]. rewrite forallb_forall in Hlist.
    apply list_elem_of_In, Hlist, andb_true_iff in He as [Hne Hn]. cbn in Hne, Hn.
    apply bool_decide_eq_true in Hne. split; [|done].
    apply Forall_forall. intros c Hc. rewrite forallb_forall in Hn. by apply Hn, list_elem_of_In.
  - exists new. split; [exact Hnew|]. by apply (Hlimit 5).
Defined.

(** What a rule protects is reported as kept and removed nevertheless, when the directory
    it is in goes: the directory is removed with all it holds. *)
Example protected_entry_dies_with_its_directory :
  let run := sync_tree 9 (λ _, 0) (p "src") (p "dst") (deleting_options protect_keep) keeping_tree in
  (∃ report, run.1 = Ok report ∧ ProtectDelete (p "dst/d/keep") ∈ report) ∧
  is_Some (nodes keeping_tree !! p "dst/d/keep") ∧ nodes run.2 !! p "dst/d/keep" = None.
Proof.
  intros run. split_and!; [|vm_compute; by eexists|by vm_compute].
  vm_compute. eexists. split; [reflexivity|]. repeat constructor.
Qed.

Lemma plan_deletes_spec_witness :
  let self := observed Before [{| source_path := p "a"; source_type := File |}] true in
  let existing := [{| source_path := p "d"; source_type := Directory |};
                   {| source_path := p "d/keep"; source_type := File |}] in
  NoDup (planned_paths (plan_deletes existing protect_keep None false self).1) ∧
  delete_ready self = true.
Proof.
  intros self existing.
  destruct (plan_deletes_spec self existing protect_keep None false) as (_ & Hnodup & _).
  - by vm_compute.
  - apply (bool_decide_unpack (NoDup _)). by vm_compute.
  - split; [exact Hnodup|by vm_compute].
Defined.
