(* ===== verification/MemoryFsFacts.v ===== *)
(** * Properties of the file system in memory

    What the operations do to a file system without links, and the invariant that all
    of them keep: every state that the operations reach, whether they succeed or fail,
    is well formed. *)

From stdpp Require Import sorting.
From S2P Require Import Prelude Str FsPath Metadata FileSystem MemoryFs.

Section facts.
Context `{Platform}.
Implicit Types (m : gmap PathBuf MemoryNode) (fs : MemoryFileSystem) (p q : PathBuf).

(** ** Directories made on the way *)

Lemma or_insert_lookup {V} (m : gmap PathBuf V) p v q :
  or_insert p v m !! q =
  match m !! q with Some w => Some w | None => if decide (q = p) then Some v else None end.
Proof.
  unfold or_insert. destruct (m !! p) eqn:Hp.
  - case_match; [done|]. case_decide; [|done]. subst. congruence.
  - destruct (decide (q = p)) as [->|Hne].
    + by rewrite lookup_insert_eq, Hp.
    + rewrite lookup_insert_ne by done. by case_match.
Qed.

Lemma prefix_between current c components q :
  current `prefix_of` q ∧ q ≠ current ∧ q `prefix_of` current ++ c :: components ↔
  q = current ++ [c] ∨
  (current ++ [c]) `prefix_of` q ∧ q ≠ current ++ [c] ∧
  q `prefix_of` (current ++ [c]) ++ components.
Proof.
  split.
  - intros ([q' ->] & Hne & Hpre). apply prefix_app_inv in Hpre.
    destruct q' as [|d q']; [by rewrite app_nil_r in Hne|].
    pose proof (prefix_cons_inv_1 _ _ _ _ Hpre) as ->. apply prefix_cons_inv_2 in Hpre.
    destruct q' as [|d q']; [by left|right].
    split_and!; [by exists (d :: q'); rewrite <-app_assoc| |].
    + intros Heq%app_inv_head. done.
    + rewrite <-app_assoc. by apply prefix_app, prefix_cons.
  - intros [->|([q' ->] & Hne & Hpre)].
    + split_and!; [by eexists| |by apply prefix_app, prefix_cons, prefix_nil].
      intros Heq. apply (f_equal length) in Heq. rewrite length_app in Heq. cbn in Heq. lia.
    + rewrite <-!app_assoc in *. split_and!; [by eexists| |done].
      intros Heq. apply (f_equal length) in Heq. rewrite length_app in Heq. cbn in Heq. lia.
Qed.

Lemma make_dirs_lookup m current components q :
  portable components →
  make_dirs current components m !! q =
  match m !! q with
  | Some node => Some node
  | None => if decide (current `prefix_of` q ∧ q ≠ current ∧ q `prefix_of` current ++ components)
            then Some directory_node else None
  end.
Proof.
  intros Hp. revert current m. induction Hp as [|c components Hc Hp IH]; intros current m; cbn.
  - destruct (m !! q); [done|]. case_decide as Hd; [|done]. exfalso.
    destruct Hd as (Hpre & Hne & Hpre'). rewrite app_nil_r in Hpre'. apply Hne.
    apply prefix_length_eq; [done|]. by apply prefix_length.
  - destruct c as [| | | |name]; try done. rewrite IH, or_insert_lookup.
    destruct (m !! q); [done|].
    pose proof (prefix_between current (Normal name) components q) as Hiff.
    repeat case_decide; tauto.
Qed.

(** The directories down to a path, made where they are missing. *)
Definition with_dirs (p : PathBuf) m : gmap PathBuf MemoryNode :=
  make_dirs [] p (or_insert [] directory_node m).

Lemma with_dirs_lookup m p q :
  portable p →
  with_dirs p m !! q =
  match m !! q with
  | Some node => Some node
  | None => if decide (q `prefix_of` p) then Some directory_node else None
  end.
Proof.
  intros Hp. unfold with_dirs. rewrite make_dirs_lookup, or_insert_lookup by done. cbn.
  destruct (m !! q); [done|].
  pose proof (prefix_nil q). pose proof (prefix_nil p).
  repeat case_decide; subst; naive_solver.
Qed.

(** The same for the parent of a path to be written. *)
Definition with_parents (p : PathBuf) m : gmap PathBuf MemoryNode :=
  match parent p with Some q => with_dirs q m | None => m end.

(** ** A file system without links *)

Definition plain m : Prop := ∀ p node, m !! p = Some node → node_type node ≠ Symlink.

Lemma resolve_plain m retry path resolved components :
  plain m → portable components →
  resolve_components retry m path resolved components = Ok (resolved ++ components).
Proof.
  intros Hm Hp. revert resolved. induction Hp as [|c components Hc Hp IH]; intros resolved; cbn.
  { by rewrite app_nil_r. }
  destruct c as [| | | |name]; try done.
  destruct (m !! (resolved ++ [Normal name])) as [node|] eqn:Hn.
  - rewrite bool_decide_false by eauto. by rewrite IH, <-app_assoc.
  - by rewrite IH, <-app_assoc.
Qed.

Lemma resolve_write_plain fs p :
  plain (nodes fs) → portable p → resolve_write_path fs p = Ok p.
Proof.
  intros Hm Hp. unfold resolve_write_path. rewrite normalize_portable by done. cbn.
  by apply resolve_plain.
Qed.

Lemma create_dir_all_plain fs p :
  plain (nodes fs) → portable p →
  memory_create_dir_all p fs = (Ok tt, set_nodes (with_dirs p (nodes fs)) fs).
Proof.
  intros Hm Hp. unfold memory_create_dir_all, ask, mbind, M_bind.
  by rewrite resolve_write_plain.
Qed.

Lemma create_parent_plain fs p :
  plain (nodes fs) → portable p →
  create_parent p fs = (Ok tt, set_nodes (with_parents p (nodes fs)) fs).
Proof.
  intros Hm Hp. unfold create_parent, with_parents. destruct (parent p) as [q|] eqn:Hq.
  - apply create_dir_all_plain; [done|]. by eapply portable_parent.
  - by destruct fs.
Qed.

Lemma write_plain fs p bytes :
  plain (nodes fs) → portable p →
  memory_write_file_atomic p bytes fs =
  (Ok tt, set_nodes (<[p := file_node bytes]> (with_parents p (nodes fs))) fs).
Proof.
  intros Hm Hp. unfold memory_write_file_atomic. unfold ask, mbind, M_bind.
  rewrite resolve_write_plain by done. by rewrite create_parent_plain.
Qed.

Lemma metadata_at fs p :
  portable p → memory_metadata fs p = ok_or (node_metadata <$> nodes fs !! p) (NotFound p).
Proof. intros Hp. unfold memory_metadata. by rewrite normalize_portable. Qed.

Lemma read_plain fs p node :
  portable p → nodes fs !! p = Some node → node_type node = File →
  memory_read_file fs p = Ok (node_bytes node).
Proof.
  intros Hp Hn Ht. unfold memory_read_file. cbn [memory_read_file_fuel].
  rewrite normalize_portable by done. cbn. rewrite Hn. cbn. rewrite Ht. done.
Qed.

Lemma set_mtime_at fs p node time :
  portable p → nodes fs !! p = Some node →
  memory_set_mtime p time fs =
  (Ok tt, set_nodes (<[p := {| node_metadata := with_modified (node_metadata node) time;
                              node_bytes := node_bytes node |}]> (nodes fs)) fs).
Proof.
  intros Hp Hn. unfold memory_set_mtime, ask, mbind, M_bind.
  rewrite normalize_portable by done. by rewrite Hn.
Qed.

Lemma plain_with_dirs m p : plain m → portable p → plain (with_dirs p m).
Proof.
  intros Hm Hp q node. rewrite with_dirs_lookup by done.
  destruct (m !! q) eqn:Hq; [intros [= <-]; eauto|]. case_decide; [|done]. by intros [= <-].
Qed.

Lemma plain_with_parents m p : plain m → portable p → plain (with_parents p m).
Proof.
  intros Hm Hp. unfold with_parents. destruct (parent p) eqn:Hq; [|done].
  apply plain_with_dirs; [done|]. by eapply portable_parent.
Qed.

Lemma plain_insert m p node : plain m → node_type node ≠ Symlink → plain (<[p := node]> m).
Proof.
  intros Hm Hn q node'. destruct (decide (p = q)) as [->|Hne].
  - rewrite lookup_insert_eq. by intros [= <-].
  - rewrite lookup_insert_ne by done. apply Hm.
Qed.

(** ** What a directory lists *)

Lemma elem_of_list_dir fs p entries entry :
  portable p → memory_list fs p = Ok entries →
  entry ∈ entries ↔
  ∃ candidate node, nodes fs !! candidate = Some node ∧ candidate ≠ [] ∧ candidate ≠ p ∧
    default [] (parent candidate) = p ∧
    entry = {| entry_path := candidate; entry_metadata := node_metadata node |}.
Proof.
  intros Hp. unfold memory_list. rewrite normalize_portable by done. cbn.
  destruct (memory_metadata fs p); cbn; [|done]. case_bool_decide; [done|]. intros [= <-].
  rewrite list_elem_of_omap. split.
  - intros ([candidate node] & Hin%elem_of_btree_iter & He). cbn in Hin.
    repeat case_bool_decide; try done. naive_solver.
  - intros (candidate & node & Hn & Hne & Hnp & Hpar & ->).
    exists (candidate, node). split; [by apply elem_of_btree_iter|].
    by rewrite !bool_decide_false, bool_decide_true by done.
Qed.
End facts.

Section invariant.
Context `{Platform}.
Implicit Types (fs : MemoryFileSystem) (p : PathBuf).

(** A node at a normalised path, whose length is that of its bytes if it is a file, and
    whose id has been given out. *)
Record node_ok (next : Z) (p : PathBuf) (node : MemoryNode) : Prop := {
  ok_path : portable p;
  ok_len : node_type node = File →
           len (node_metadata node) = Z.of_nat (length (node_bytes node));
  ok_id : ∀ id, hardlink_id (node_metadata node) = Some id →
          volume id = 0 ∧ 1 ≤ file_number id < next;
}.

Record well_formed fs : Prop := {
  wf_next : 1 ≤ next_hardlink_file fs;
  wf_nodes : map_Forall (node_ok (next_hardlink_file fs)) (nodes fs);
}.

(** A changing operation of the file system, with any arguments. *)
Inductive memory_step : relation MemoryFileSystem :=
| step_write fs p bytes : memory_step fs (memory_write_file_atomic p bytes fs).2
| step_append fs p bytes : memory_step fs (memory_append_file p bytes fs).2
| step_rename fs source dest : memory_step fs (memory_rename_file source dest fs).2
| step_symlink fs p target kind : memory_step fs (memory_create_symlink p target kind fs).2
| step_hardlink fs existing link : memory_step fs (memory_create_hard_link existing link fs).2
| step_dirs fs p : memory_step fs (memory_create_dir_all p fs).2
| step_remove fs p : memory_step fs (memory_remove_file p fs).2
| step_remove_dirs fs p : memory_step fs (memory_remove_dir_all p fs).2
| step_mtime fs p time : memory_step fs (memory_set_mtime p time fs).2
| step_add_file fs p bytes : memory_step fs (add_file p bytes fs).2
| step_add_symlink fs p target : memory_step fs (add_symlink p target fs).2
| step_add_hardlink fs existing link : memory_step fs (add_hardlink existing link fs).2
| step_add_device fs p : memory_step fs (add_device p fs).2
| step_add_special fs p : memory_step fs (add_special p fs).2.

(** ** Operations that keep the invariant *)

Definition safe {A} (m : M MemoryFileSystem FsError A) (Q : MemoryFileSystem → A → Prop) : Prop :=
  ∀ fs, well_formed fs → well_formed (m fs).2 ∧ ∀ a, (m fs).1 = Ok a → Q (m fs).2 a.

Lemma safe_bind {A B} (m : M MemoryFileSystem FsError A) (f : A → M MemoryFileSystem FsError B)
    P Q :
  safe m P → (∀ a fs, well_formed fs → P fs a →
              well_formed (f a fs).2 ∧ ∀ b, (f a fs).1 = Ok b → Q (f a fs).2 b) →
  safe (m ≫= f) Q.
Proof.
  intros Hm Hf fs Hfs. destruct (Hm fs Hfs) as [H1 H2]. unfold mbind, M_bind.
  destruct (m fs) as [[a|e] fs']; cbn in *; [|done]. apply Hf; auto.
Qed.

Lemma safe_ask {A} (f : MemoryFileSystem → result A FsError) (Q : MemoryFileSystem → A → Prop) :
  (∀ fs a, well_formed fs → f fs = Ok a → Q fs a) → safe (ask f) Q.
Proof. intros HQ fs Hfs. split; [done|]. intros a Ha. by apply HQ. Qed.

Lemma safe_ret {A} (a : A) : safe (mret a) (λ _ _, True).
Proof. by intros fs Hfs. Qed.

Lemma safe_throw {A} e Q : safe (throw (A := A) e) Q.
Proof. by intros fs Hfs. Qed.

Lemma wf_insert fs p node :
  well_formed fs → node_ok (next_hardlink_file fs) p node →
  well_formed (set_nodes (<[p := node]> (nodes fs)) fs).
Proof. intros [H1 H2] Hn. split; [done|]. by apply map_Forall_insert_2. Qed.

Lemma directory_node_ok next p : portable p → node_ok next p directory_node.
Proof. by intros Hp. Qed.
Lemma file_node_ok next p bytes : portable p → node_ok next p (file_node bytes).
Proof. by intros Hp. Qed.
Lemma other_node_ok next p t target :
  portable p → t ≠ File →
  node_ok next p {| node_metadata := bare_metadata t 0 target; node_bytes := [] |}.
Proof. by intros Hp Ht. Qed.

(** ** Paths that are resolved are normalised *)

Lemma portable_removelast p : portable p → portable (default [] (parent p)).
Proof.
  intros [->|(q & name & -> & Hq)]%portable_inv; [constructor|]. by rewrite parent_snoc.
Qed.

Lemma resolved_components_ok path p out q :
  portable out → resolved_components path p out = Ok q → portable q.
Proof.
  revert out. induction p as [|c p IH]; intros out Hout; cbn; [by intros [= <-]|].
  destruct c; try done; eauto with portable.
  destruct (parent out) eqn:Hpar; [|done]. eauto using portable_parent.
Qed.

Lemma push_rest_ok path target rest q :
  portable target → push_rest path target rest = Ok q → portable q.
Proof.
  revert target. induction rest as [|c rest IH]; intros target Ht; cbn; [by intros [= <-]|].
  destruct c; try done. eauto with portable.
Qed.

Lemma resolve_components_ok retry m path resolved p q :
  (∀ f a b, retry = Some f → f a = Ok b → portable b) → portable resolved →
  resolve_components retry m path resolved p = Ok q → portable q.
Proof.
  intros Hretry. revert resolved.
  induction p as [|c p IH]; intros resolved Hres; cbn; [by intros [= <-]|].
  destruct c; try done.
  destruct (m !! (resolved ++ [Normal name])); [|eauto with portable].
  case_bool_decide; [|eauto with portable]. destruct retry as [f|]; [|done].
  destruct (resolve_memory_symlink_target _ _); cbn; [|done].
  destruct (push_rest _ _ _); cbn; [|done]. eauto.
Qed.

Lemma resolve_prefix_ok m limit p q : resolve_memory_path_prefix_at m limit p = Ok q → portable q.
Proof.
  revert p q. induction limit as [|limit IH]; intros p q Hq; cbn in Hq;
    (eapply resolve_components_ok; [|constructor|exact Hq]); [done|].
  intros f a b [= <-]. apply IH.
Qed.

Lemma resolve_write_ok fs p q : resolve_write_path fs p = Ok q → portable q.
Proof.
  unfold resolve_write_path. destruct (normalize_portable_path p) as [r|]; [|done].
  unfold and_then, resolve_memory_path_prefix. apply resolve_prefix_ok.
Qed.

Lemma make_dirs_ok next m current p :
  portable current → map_Forall (node_ok next) m →
  map_Forall (node_ok next) (make_dirs current p m).
Proof.
  revert m current. induction p as [|c p IH]; intros m current Hc Hm; cbn; [done|].
  destruct c; auto. apply IH; [by apply portable_snoc|]. unfold or_insert. case_match; [done|].
  apply map_Forall_insert_2; [|done]. by apply directory_node_ok, portable_snoc.
Qed.

(** ** The operations *)

Lemma safe_resolve p : safe (ask (λ fs, resolve_write_path fs p)) (λ _ q, portable q).
Proof. apply safe_ask. intros fs q _. apply resolve_write_ok. Qed.

Lemma safe_normalize p : safe (ask (λ _, normalize_portable_path p)) (λ _ q, portable q).
Proof. apply safe_ask. intros fs q _. apply normalize_ok_portable. Qed.

Lemma safe_lookup p :
  safe (ask (λ fs, ok_or (nodes fs !! p) (NotFound p))) (λ fs node, nodes fs !! p = Some node).
Proof. apply safe_ask. intros fs node _. by destruct (nodes fs !! p); cbn; intros [= <-]. Qed.

Lemma safe_create_dir_all p : safe (memory_create_dir_all p) (λ _ _, True).
Proof.
  eapply safe_bind; [apply safe_resolve|].
  intros q fs [H1 H2] _. split; [|done]. split; [done|]. cbn.
  apply make_dirs_ok; [constructor|]. unfold or_insert. case_match; [done|].
  apply map_Forall_insert_2; [|done]. apply directory_node_ok. constructor.
Qed.

Lemma safe_create_parent p : safe (create_parent p) (λ _ _, True).
Proof. unfold create_parent. case_match; [apply safe_create_dir_all|apply safe_ret]. Qed.

(** Make the parent, then the node. *)
Lemma safe_put p node :
  portable p → (∀ next, node_ok next p node) →
  safe (create_parent p;; insert_node p node) (λ _ _, True).
Proof.
  intros Hp Hn. eapply safe_bind; [apply safe_create_parent|].
  intros _ fs Hfs _. split; [|done]. by apply wf_insert.
Qed.

Lemma safe_then {A} (m : M MemoryFileSystem FsError PathBuf) (f : PathBuf → M MemoryFileSystem FsError A) :
  safe m (λ _ q, portable q) → (∀ q, portable q → safe (f q) (λ _ _, True)) →
  safe (m ≫= f) (λ _ _, True).
Proof. intros Hm Hf. eapply safe_bind; [exact Hm|]. intros q fs Hfs Hq. by apply (Hf q). Qed.

Lemma safe_write p bytes : safe (memory_write_file_atomic p bytes) (λ _ _, True).
Proof.
  apply safe_then; [apply safe_resolve|]. intros q Hq. apply safe_put; [done|].
  intros. by apply file_node_ok.
Qed.

Lemma safe_symlink p target kind : safe (memory_create_symlink p target kind) (λ _ _, True).
Proof.
  apply safe_then; [apply safe_normalize|]. intros q Hq. apply safe_put; [done|].
  intros. by apply other_node_ok.
Qed.

Lemma safe_add p node :
  (∀ next q, portable q → node_ok next q node) → safe (add_node p node) (λ _ _, True).
Proof.
  intros Hn. apply safe_then; [apply safe_normalize|]. intros q Hq. apply safe_put; auto.
Qed.

Lemma safe_append p bytes : safe (memory_append_file p bytes) (λ _ _, True).
Proof.
  apply safe_then; [apply safe_resolve|]. intros q Hq.
  eapply safe_bind; [apply safe_lookup|]. intros node fs Hfs Hnode.
  case_bool_decide; [done|]. split; [|done]. apply wf_insert; [done|].
  destruct (wf_nodes fs Hfs q node Hnode) as [_ _ Hid]. split; [done|done|exact Hid].
Qed.

Lemma safe_mtime p time : safe (memory_set_mtime p time) (λ _ _, True).
Proof.
  apply safe_then; [apply safe_normalize|]. intros q Hq.
  eapply safe_bind; [apply safe_lookup|]. intros node fs Hfs Hnode.
  split; [|done]. apply wf_insert; [done|].
  destruct (wf_nodes fs Hfs q node Hnode) as [_ Hlen Hid]. split; [done|exact Hlen|exact Hid].
Qed.

Lemma wf_delete fs p : well_formed fs → well_formed (set_nodes (delete p (nodes fs)) fs).
Proof. intros [H1 H2]. split; [done|]. by apply map_Forall_delete. Qed.

Lemma safe_remove p : safe (memory_remove_file p) (λ _ _, True).
Proof.
  apply safe_then; [apply safe_normalize|]. intros q Hq.
  eapply safe_bind; [apply safe_lookup|]. intros node fs Hfs _.
  case_bool_decide; [done|]. split; [by apply wf_delete|done].
Qed.

Lemma safe_remove_dirs p : safe (memory_remove_dir_all p) (λ _ _, True).
Proof.
  apply safe_then; [apply safe_normalize|]. intros q Hq. case_bool_decide; [apply safe_throw|].
  eapply safe_bind; [by apply safe_ask with (Q := λ _ _, True)|]. intros keys fs [H1 H2] _.
  case_bool_decide; [done|]. split; [|done]. split; [done|]. cbn.
  induction keys as [|k keys IH]; cbn; [done|]. apply map_Forall_delete.
  destruct keys; [done|]. by apply IH.
Qed.

(** A node moved to another path. *)
Lemma node_ok_moved next p q node : portable q → node_ok next p node → node_ok next q node.
Proof. intros Hq [_ Hlen Hid]. by split. Qed.

Lemma safe_rename source dest : safe (memory_rename_file source dest) (λ _ _, True).
Proof.
  apply safe_then; [apply safe_normalize|]. intros s Hs.
  apply safe_then; [apply safe_resolve|]. intros d Hd.
  eapply safe_bind; [apply safe_create_parent|]. intros _ fs Hfs _. revert fs Hfs.
  change (safe (node ← ask (λ fs, ok_or (nodes fs !! s) (NotFound s));
                modify_nodes (delete s);; insert_node d node) (λ _ _, True)).
  eapply safe_bind; [apply safe_lookup|]. intros node fs Hfs Hnode.
  split; [|done]. apply (wf_insert (set_nodes (delete s (nodes fs)) fs)); [by apply wf_delete|].
  eapply node_ok_moved; [done|]. by apply (wf_nodes fs Hfs s).
Qed.

Lemma node_ok_weaken next next' p node : next ≤ next' → node_ok next p node → node_ok next' p node.
Proof.
  intros Hle [Hp Hlen Hid]. split; [done..|]. intros id Hi. specialize (Hid id Hi). lia.
Qed.

Lemma node_ok_linked next p node id count :
  volume id = 0 → 1 ≤ file_number id < next → node_ok next p node →
  node_ok next p (with_hardlink id count node).
Proof.
  intros Hv Hf [Hp Hlen Hid]. split; [done|exact Hlen|]. cbn. by intros id' [= <-].
Qed.

Definition known_id fs (id : HardlinkId) : Prop :=
  volume id = 0 ∧ 1 ≤ file_number id < next_hardlink_file fs.

Lemma safe_ensure p : safe (ensure_hardlink_id p) known_id.
Proof.
  eapply safe_bind; [apply safe_lookup|]. intros node fs Hfs Hnode.
  case_bool_decide; [done|].
  destruct (hardlink_id (node_metadata node)) as [id|] eqn:Hid.
  { split; [done|]. intros ? [= <-]. by apply (wf_nodes fs Hfs p node). }
  destruct Hfs as [H1 H2]. unfold get, put, mbind, M_bind. cbn. split.
  - split; cbn; [lia|]. intros q n Hq.
    destruct (decide (p = q)) as [<-|Hne].
    + rewrite lookup_alter_eq, Hnode in Hq. injection Hq as <-.
      apply node_ok_linked; cbn; [done|lia|]. eapply node_ok_weaken; [|by apply H2]. lia.
    + rewrite lookup_alter_ne in Hq by done. eapply node_ok_weaken; [|by apply H2]. lia.
  - intros ? [= <-]. unfold known_id. cbn. lia.
Qed.

Lemma wf_refresh fs id :
  known_id fs id → well_formed fs →
  well_formed (set_nodes (refresh_hardlink_count id (nodes fs)) fs).
Proof.
  intros [Hv Hf] [H1 H2]. split; [done|]. unfold refresh_hardlink_count. cbn.
  intros p node. rewrite lookup_fmap, fmap_Some. intros (n & Hn & ->).
  specialize (H2 _ _ Hn). case_match; [by apply node_ok_linked|done].
Qed.

(** Making directories gives out no id. *)
Lemma create_parent_next p fs :
  next_hardlink_file (create_parent p fs).2 = next_hardlink_file fs.
Proof.
  unfold create_parent, memory_create_dir_all, ask, mbind, M_bind. destruct (parent p); [|done].
  by destruct (resolve_write_path _ _).
Qed.

Lemma safe_hard_link existing link : safe (memory_create_hard_link existing link) (λ _ _, True).
Proof.
  apply safe_then; [apply safe_resolve|]. intros e He.
  apply safe_then; [apply safe_resolve|]. intros l Hl.
  eapply safe_bind; [apply safe_ensure|]. intros id fs Hfs Hid.
  unfold ask at 1, mbind at 1, M_bind. cbn.
  destruct (nodes fs !! e) as [node|] eqn:Hnode; cbn; [|done].
  destruct (safe_create_parent l fs Hfs) as [Hfs' _].
  pose proof (create_parent_next l fs) as Hnext. unfold mbind, M_bind.
  destruct (create_parent l fs) as [[[]|err] fs']; cbn in *; [|done].
  split; [|done].
  refine (wf_refresh (set_nodes (<[l := with_hardlink id 1 node]> (nodes fs')) fs') id _ _).
  { unfold known_id in *. cbn. by rewrite Hnext. }
  apply wf_insert; [done|]. rewrite Hnext. destruct Hid as [Hv Hf].
  apply node_ok_linked; [done..|]. eapply node_ok_moved; [done|]. by apply (wf_nodes fs Hfs e).
Qed.

Lemma safe_step fs fs' : memory_step fs fs' → well_formed fs → well_formed fs'.
Proof.
  intros Hstep Hfs. destruct Hstep.
  - by apply safe_write.
  - by apply safe_append.
  - by apply safe_rename.
  - by apply safe_symlink.
  - by apply safe_hard_link.
  - by apply safe_create_dir_all.
  - by apply safe_remove.
  - by apply safe_remove_dirs.
  - by apply safe_mtime.
  - apply safe_add; [|done]. intros. by apply file_node_ok.
  - apply safe_add; [|done]. intros. by apply other_node_ok.
  - refine (proj1 (safe_then _ _ (safe_normalize _) _ fs Hfs)). intros e He.
    apply safe_then; [apply safe_normalize|]. intros. apply safe_hard_link.
  - apply safe_add; [|done]. intros. by apply other_node_ok.
  - apply safe_add; [|done]. intros. by apply other_node_ok.
Qed.

Lemma well_formed_default : well_formed MemoryFileSystem_default.
Proof. split; [done|]. apply map_Forall_singleton. apply directory_node_ok. constructor. Qed.

(** C39. Every state reached from the empty file system by its operations, failures included,
    is well typed: the paths are normalised, a file's length is that of its bytes, and
    only hard-link ids that have been given out are in use. *)
Theorem memory_states_well_formed fs : rtc memory_step MemoryFileSystem_default fs → well_formed fs.
Proof.
  intros Hsteps. pose proof well_formed_default as Hstart.
  induction Hsteps as [|fs1 fs2 fs3 Hstep _ IH]; [done|]. apply IH. by eapply safe_step.
Qed.
End invariant.

#[local] Instance unix : Platform := false.

Lemma memory_states_well_formed_witness :
  let fs := (memory_write_file_atomic [Normal (lit "a")] [1; 2; 3] MemoryFileSystem_default).2 in
  well_formed (memory_append_file [Normal (lit "a")] [4] fs).2.
Proof.
  cbv zeta. apply memory_states_well_formed.
  eapply rtc_l; [apply step_write|]. apply rtc_once. apply step_append.
Defined.
