(* ===== verification/SyncWalkFacts.v ===== *)
(** * Properties of the walk of a sync

    On a file system in memory without links the walk finds exactly the part of the
    tree that no rule hides; following a link into its own directory it never ends. *)

From stdpp Require Import sorting.
From S2P Require Import Prelude Str Glob Filter FsPath Metadata FileSystem MemoryFs MemoryFsFacts SyncPlan SyncWalk SyncDeletes.

(** ** The keys of the entries, over every file system *)

Section keys.
Context {F : Type} `{PortableFileSystem F} `{Platform}.

Lemma relative_entry_key (fs : F) root relative_root options active e relative entry child :
  portable relative_root →
  relative_entry fs root relative_root options active e = Ok (Some (relative, entry, child)) →
  portable relative ∧ relative ≠ [].
Proof.
  intros Hr. unfold relative_entry. destruct (file_name _) as [name|]; cbn; [|done].
  destruct (apply_symlink_mode _ _ _) as [[e'|]|]; cbn; try done.
  destruct (if r_one_file_system options then _ else _); cbn; [|done].
  repeat case_match; try done; intros [= <- _ _];
    rewrite path_join_portable by (by repeat constructor);
    (split; [auto with portable|by destruct relative_root]).
Qed.

Lemma portable_keys_insert {V} (entries : gmap PathBuf V) relative v :
  portable_keys entries → portable relative ∧ relative ≠ [] →
  portable_keys (<[relative := v]> entries).
Proof.
  intros He Hr k. destruct (decide (relative = k)) as [<-|Hne]; [done|].
  rewrite lookup_insert_ne by done. apply He.
Qed.

Lemma collect_listed_keys rec (fs : F) root relative_root options active listed entries entries' :
  portable relative_root →
  (∀ child relative m m', portable relative → portable_keys m → rec child relative m = Ok m' →
     portable_keys m') →
  portable_keys entries →
  collect_listed rec fs root relative_root options active listed entries = Ok entries' →
  portable_keys entries'.
Proof.
  intros Hr Hrec. revert entries. induction listed as [|e listed IH]; intros entries He; cbn.
  { by intros [= <-]. }
  destruct (relative_entry _ _ _ _ _ _) as [[[[relative entry] child]|]|] eqn:Hrel; cbn;
    [|eauto|done].
  destruct (relative_entry_key _ _ _ _ _ _ _ _ _ Hr Hrel) as [Hp Hne].
  assert (Hins : portable_keys (<[relative := entry]> entries))
    by by apply portable_keys_insert.
  destruct child as [child|]; cbn; [|eauto].
  destruct (rec child relative _) eqn:Hrun; cbn; [|done]. apply IH. eapply Hrec; eauto.
Qed.

Lemma collect_keys fuel (fs : F) root current relative_root options entries entries' :
  portable relative_root → portable_keys entries →
  collect_relative_entries fuel fs root current relative_root options entries = Ok entries' →
  portable_keys entries'.
Proof.
  revert current relative_root options entries entries'.
  induction fuel as [|fuel IH]; intros current relative_root options entries entries' Hr He;
    cbn; [done|].
  destruct (load_dir_merge_rules _ _ _) as [rules|]; cbn; [|done].
  destruct (list_dir fs current) as [listed|]; cbn; [|done].
  apply collect_listed_keys; [done| |done]. eauto.
Qed.

Lemma relative_entries_keys fuel (fs : F) root rules recursive mode one entries :
  relative_entries fuel fs root rules recursive mode one = Ok entries → portable_keys entries.
Proof.
  apply collect_keys; [constructor|]. intros relative [e He]. by rewrite lookup_empty in He.
Qed.
End keys.

(** ** Filters along a path *)

Lemma sender_filtered_prefix rules t current p q :
  q ≠ [] → sender_filtered_from rules t current (p ++ q) = false →
  sender_filtered_from rules Directory current p = false.
Proof.
  intros Hq. revert current. induction p as [|c p IH]; intros current; cbn; [done|].
  destruct c; try done.
  assert (Hkind : kind_on_the_way (p ++ q) t = kind_on_the_way p Directory).
  { destruct p; [by destruct q|done]. }
  rewrite Hkind. repeat case_match; try done; apply IH.
Qed.

Lemma sender_filtered_nil t current p :
  portable p → sender_filtered_from [] t current p = false.
Proof.
  intros Hp. revert current. induction Hp as [|c p Hc Hp IH]; intros current; [done|].
  destruct c; try done. apply IH.
Qed.

(** ** The walk of a tree without links *)

(** Each node but the root is in a directory, and a target belongs to a link. *)
Record tidy (fs : MemoryFileSystem) : Prop := {
  tidy_plain : plain (nodes fs);
  tidy_portable : ∀ p node, nodes fs !! p = Some node → portable p;
  tidy_parent : ∀ p c node, nodes fs !! (p ++ [c]) = Some node →
                ∃ d, nodes fs !! p = Some d ∧ node_type d = Directory;
  tidy_target : ∀ p node, nodes fs !! p = Some node → symlink_target (node_metadata node) = None;
}.

Definition hidden (rules : option RuleSet) (relative : PathBuf) (t : FileType) : bool :=
  from_option (λ rules, sender_path_is_filtered rules relative t) false rules.

(** The entry a tree has at a relative path, if no rule hides it. *)
Definition tree_entry (fs : MemoryFileSystem) (root : PathBuf) (rules : option RuleSet)
    (relative : PathBuf) : option WalkEntry :=
  if decide (relative = []) then None
  else match nodes fs !! (root ++ relative) with
  | Some node =>
      if hidden rules relative (node_type node) then None
      else Some {| entry_path := root ++ relative; entry_metadata := node_metadata node |}
  | None => None
  end.

Definition tree_depth (fs : MemoryFileSystem) : nat :=
  max_list (length <$> memory_paths fs).

Lemma tree_depth_bound fs p node : nodes fs !! p = Some node → (length p ≤ tree_depth fs)%nat.
Proof.
  intros Hp. apply max_list_elem_of_le, list_elem_of_fmap_2, elem_of_btree_keys. eauto.
Qed.

(** All the directories above a node are there. *)
Lemma tidy_above fs p q node :
  tidy fs → q ≠ [] → nodes fs !! (p ++ q) = Some node →
  ∃ d, nodes fs !! p = Some d ∧ node_type d = Directory.
Proof.
  intros Htidy. revert node. induction q as [|c q IH] using rev_ind; intros node Hq Hn; [done|].
  rewrite app_assoc in Hn. destruct (tidy_parent _ Htidy _ _ _ Hn) as (d & Hd & Ht).
  destruct q as [|c' q]; [rewrite app_nil_r in Hd; eauto|]. by eapply IH.
Qed.

(** The first of two that is there. *)
Definition above {A} (x y : option A) : option A := match x with Some _ => x | None => y end.

Lemma above_idemp {A} (x y : option A) : above x (above x y) = above x y.
Proof. by destruct x. Qed.

Definition no_merge (rules : option RuleSet) : Prop :=
  from_option (Forall (λ rule, action rule ≠ DirMerge)) True rules.

Section walk.
Context `{Platform}.
Variables (fs : MemoryFileSystem) (root : PathBuf) (rules : option RuleSet).
Variables (mode : SymlinkMode) (one : bool).
Hypothesis Htidy : tidy fs.
Hypothesis Hroot : portable root.
Hypothesis Hrules : no_merge rules.

Definition walk_options : RelativeEntryOptions :=
  {| r_filter_rules := rules; r_recursive := true; r_symlink_mode := mode;
     r_one_file_system := one |}.

Lemma no_merge_loaded current : load_dir_merge_rules fs current rules = Ok None.
Proof using Hrules.
  unfold load_dir_merge_rules. destruct rules as [rs|]; [|done]. unfold no_merge in Hrules.
  cbn in Hrules. generalize rs at 2. intros merged.
  induction Hrules as [|rule rs' Hrule _ IH]; [done|]. cbn. by rewrite bool_decide_true.
Qed.

Lemma tree_entry_below p t node relative :
  nodes fs !! (root ++ p) = Some node → node_type node = t → p ≠ [] →
  p `prefix_of` relative → relative ≠ p →
  t ≠ Directory ∨ hidden rules p t = true → tree_entry fs root rules relative = None.
Proof using Htidy Hrules.
  intros Hn <- Hp [q ->] Hne Hor. unfold tree_entry. case_decide; [done|].
  destruct (nodes fs !! (root ++ p ++ q)) as [node'|] eqn:Hn'; [|done].
  assert (Hq : q ≠ []) by (intros ->; by rewrite app_nil_r in Hne).
  rewrite app_assoc in Hn'. destruct (tidy_above fs _ _ _ Htidy Hq Hn') as (d & Hd & Ht).
  rewrite Hn in Hd. injection Hd as <-. destruct Hor as [?|Hhid]; [done|].
  destruct (hidden rules (p ++ q) (node_type node')) eqn:Hpq; [done|]. exfalso.
  rewrite Ht in Hhid. revert Hhid Hpq. unfold hidden, sender_path_is_filtered.
  destruct rules as [rs|]; [|done]. cbn. intros Hhid Hpq.
  apply (sender_filtered_prefix _ _ _ _ _ Hq) in Hpq. congruence.
Qed.

Lemma relative_entry_spec relr name node :
  portable relr → nodes fs !! (root ++ relr ++ [Normal name]) = Some node →
  relative_entry fs root relr walk_options rules
    {| entry_path := root ++ relr ++ [Normal name]; entry_metadata := node_metadata node |} =
  Ok (if hidden rules (relr ++ [Normal name]) (node_type node) then None
      else Some (relr ++ [Normal name],
                 {| entry_path := root ++ relr ++ [Normal name];
                    entry_metadata := node_metadata node |},
                 if bool_decide (node_type node = Directory)
                 then Some (root ++ relr ++ [Normal name]) else None)).
Proof using Htidy Hrules.
  intros Hr Hn. unfold relative_entry. cbn [entry_path].
  replace (file_name (root ++ relr ++ [Normal name])) with (Some name)
    by (by rewrite app_assoc, file_name_snoc).
  cbn [ok_or and_then].
  assert (Hlink : node_type node ≠ Symlink) by by apply (tidy_plain _ Htidy _ _ Hn).
  unfold apply_symlink_mode. cbn [entry_metadata]. fold (node_type node).
  rewrite bool_decide_true by done. cbn [and_then].
  rewrite path_join_portable by by repeat constructor.
  replace (if r_one_file_system walk_options then _ else _) with (@Ok bool FsError true)
    by (cbn; by destruct one).
  cbn [and_then negb].
  unfold hidden. destruct (from_option _ _ _); [done|].
  unfold followed_directory_walk_path. cbn [entry_metadata r_recursive walk_options andb].
  fold (node_type node). rewrite (tidy_target _ Htidy _ _ Hn).
  do 3 f_equal. repeat case_bool_decide; done.
Qed.

Lemma listed_entry_spec relr listed e :
  portable relr → memory_list fs (root ++ relr) = Ok listed → e ∈ listed →
  ∃ name node, nodes fs !! (root ++ relr ++ [Normal name]) = Some node ∧
    e = {| entry_path := root ++ relr ++ [Normal name]; entry_metadata := node_metadata node |}.
Proof using Htidy Hroot Hrules.
  intros Hr Hl He.
  apply (elem_of_list_dir fs _ _ _ (proj2 (portable_app _ _) (conj Hroot Hr)) Hl) in He
    as (candidate & node & Hn & Hne & Hnp & Hpar & ->).
  destruct (portable_inv candidate) as [->|(q & name & -> & Hq)];
    [by eapply tidy_portable|done|].
  rewrite parent_snoc in Hpar. cbn in Hpar. subst q. rewrite <-app_assoc in Hn.
  exists name, node. by rewrite <-app_assoc.
Qed.

Lemma list_dir_ok p d :
  portable p → nodes fs !! p = Some d → node_type d = Directory →
  ∃ listed, memory_list fs p = Ok listed.
Proof using Type.
  intros Hp Hd Ht. unfold memory_list. rewrite normalize_portable by done. cbn.
  rewrite metadata_at by done. rewrite Hd. cbn. fold (node_type d).
  rewrite bool_decide_false by (rewrite Ht; auto). eauto.
Qed.

(** What the walk of the directory at [relr] makes of the entries so far. *)
Definition walked (relr : PathBuf) (entries entries' : gmap PathBuf WalkEntry) : Prop :=
  ∀ relative, entries' !! relative =
    if decide (relr `prefix_of` relative ∧ relative ≠ relr)
    then above (tree_entry fs root rules relative) (entries !! relative)
    else entries !! relative.

Definition covers (relative : PathBuf) (e : WalkEntry) : Prop :=
  entry_path e `prefix_of` (root ++ relative).

#[local] Instance covers_dec relative e : Decision (covers relative e).
Proof. unfold covers. apply _. Defined.

(** One turn of the loop. *)
Lemma collect_one rec relr name node listed entries :
  portable relr → nodes fs !! (root ++ relr ++ [Normal name]) = Some node →
  (∀ m, node_type node = Directory →
     ∃ m', rec (root ++ relr ++ [Normal name]) (relr ++ [Normal name]) m = Ok m' ∧
           walked (relr ++ [Normal name]) m m') →
  ∃ m,
    collect_listed rec fs root relr walk_options rules
      ({| entry_path := root ++ relr ++ [Normal name]; entry_metadata := node_metadata node |}
       :: listed) entries =
    collect_listed rec fs root relr walk_options rules listed m ∧
    ∀ relative, m !! relative =
      if decide ((relr ++ [Normal name]) `prefix_of` relative)
      then above (tree_entry fs root rules relative) (entries !! relative)
      else entries !! relative.
Proof using Htidy Hrules.
  intros Hr Hn Hrec. cbn [collect_listed]. rewrite relative_entry_spec by done. cbn [and_then].
  set (here := relr ++ [Normal name]) in *. set (e := Build_WalkEntry _ _).
  assert (Hhere : here ≠ []) by (unfold here; by destruct relr).
  assert (Hbelow : ∀ relative, here `prefix_of` relative → relative ≠ here →
    node_type node ≠ Directory ∨ hidden rules here (node_type node) = true →
    tree_entry fs root rules relative = None).
  { intros. by eapply tree_entry_below. }
  assert (Hself : tree_entry fs root rules here =
    if hidden rules here (node_type node) then None else Some e).
  { unfold tree_entry. rewrite decide_False by done. by rewrite Hn. }
  destruct (hidden rules here (node_type node)) eqn:Hhid.
  { exists entries. split; [done|]. intros relative. case_decide as Hp; [|done].
    destruct (decide (relative = here)) as [->|Hne]; [by rewrite Hself|].
    by rewrite Hbelow by auto. }
  assert (Hins : ∀ relative, relative ≠ here → <[here := e]> entries !! relative = entries !! relative)
    by (intros; by rewrite lookup_insert_ne).
  case_bool_decide as Hdir; cbn beta iota zeta.
  - destruct (Hrec (<[here := e]> entries) Hdir) as (m' & Hm' & Hw). exists m'.
    rewrite Hm'. cbn [and_then]. split; [done|]. intros relative. rewrite Hw.
    destruct (decide (relative = here)) as [->|Hne].
    + rewrite decide_False by tauto. by rewrite lookup_insert_eq, decide_True, Hself.
    + rewrite Hins by done. repeat case_decide; tauto.
  - exists (<[here := e]> entries). split; [done|]. intros relative.
    destruct (decide (relative = here)) as [->|Hne].
    + by rewrite lookup_insert_eq, decide_True, Hself.
    + rewrite Hins by done. case_decide; [|done]. by rewrite Hbelow by auto.
Qed.

Lemma collect_listed_spec rec relr listed entries :
  portable relr →
  (∀ e, e ∈ listed → ∃ name node, nodes fs !! (root ++ relr ++ [Normal name]) = Some node ∧
     e = {| entry_path := root ++ relr ++ [Normal name]; entry_metadata := node_metadata node |}) →
  (∀ name node m, nodes fs !! (root ++ relr ++ [Normal name]) = Some node →
     node_type node = Directory →
     ∃ m', rec (root ++ relr ++ [Normal name]) (relr ++ [Normal name]) m = Ok m' ∧
           walked (relr ++ [Normal name]) m m') →
  ∃ entries',
    collect_listed rec fs root relr walk_options rules listed entries = Ok entries' ∧
    ∀ relative, entries' !! relative =
      if decide (Exists (covers relative) listed)
      then above (tree_entry fs root rules relative) (entries !! relative)
      else entries !! relative.
Proof using Htidy Hrules.
  intros Hr Hlisted Hrec. revert entries.
  induction listed as [|x listed IH]; intros entries.
  { exists entries. split; [done|]. intros relative. rewrite decide_False; [done|].
    intros Hex. inversion Hex. }
  destruct (Hlisted x) as (name & node & Hn & ->); [by left|].
  destruct (collect_one rec relr name node listed entries Hr Hn) as (m & Hm & Hlook);
    [intros m; by apply (Hrec name node)|].
  rewrite Hm. destruct (IH (λ e He, Hlisted e (list_elem_of_further _ _ _ He)) m)
    as (entries' & Hrun & Hent).
  exists entries'. split; [done|]. intros relative. rewrite Hent, Hlook.
  assert (Hcov : covers relative {| entry_path := root ++ relr ++ [Normal name];
                                    entry_metadata := node_metadata node |} ↔
                 (relr ++ [Normal name]) `prefix_of` relative).
  { unfold covers. cbn. split; [apply prefix_app_inv|apply prefix_app]. }
  destruct (decide ((relr ++ [Normal name]) `prefix_of` relative)) as [Hp|Hp].
  - rewrite (decide_True (P := Exists _ (_ :: _))) by (left; tauto).
    case_decide; [apply above_idemp|done].
  - destruct (decide (Exists (covers relative) listed)).
    + by rewrite decide_True by by right.
    + rewrite decide_False; [done|]. intros [?|?]%Exists_cons; tauto.
Qed.

(** Every node below the directory is covered by one of the entries it lists. *)
Lemma listed_covers relr listed relative e :
  portable relr → memory_list fs (root ++ relr) = Ok listed →
  tree_entry fs root rules relative = Some e →
  relr `prefix_of` relative → relative ≠ relr → Exists (covers relative) listed.
Proof using Htidy Hroot Hrules.
  intros Hr Hl He [q ->] Hne. unfold tree_entry in He. case_decide as Hnil; [done|].
  destruct q as [|c q]; [by rewrite app_nil_r in Hne|].
  assert (∃ node, nodes fs !! (root ++ relr ++ [c]) = Some node) as [node Hn].
  { destruct (nodes fs !! (root ++ relr ++ c :: q)) as [n|] eqn:Hn; [|done].
    destruct q as [|c' q]; [eauto|].
    replace (root ++ relr ++ c :: c' :: q) with ((root ++ relr ++ [c]) ++ c' :: q) in Hn
      by by rewrite <-!app_assoc.
    apply (tidy_above fs) in Hn as (d & Hd & _); eauto. }
  apply Exists_exists. exists {| entry_path := root ++ relr ++ [c]; entry_metadata := node_metadata node |}.
  split; [|unfold covers; cbn; rewrite (cons_middle c relr q); do 2 apply prefix_app; by eexists].
  apply (elem_of_list_dir fs _ _ _ (proj2 (portable_app _ _) (conj Hroot Hr)) Hl).
  pose proof (tidy_portable _ Htidy _ _ Hn) as Hp.
  apply portable_app in Hp as [_ [_ [Hc _]%Forall_cons]%portable_app].
  destruct c as [| | | |name]; try done. exists (root ++ relr ++ [Normal name]), node.
  rewrite !app_assoc. split_and!; [by rewrite <-app_assoc| | | |done].
  - by destruct (root ++ relr).
  - intros Heq. apply (f_equal length) in Heq. rewrite length_app in Heq. cbn in Heq. lia.
  - by rewrite parent_snoc.
Qed.

Lemma collect_spec fuel relr entries d :
  portable relr → nodes fs !! (root ++ relr) = Some d → node_type d = Directory →
  (∀ q n, nodes fs !! (root ++ relr ++ q) = Some n → (length q < fuel)%nat) →
  ∃ entries',
    collect_relative_entries fuel fs root (root ++ relr) relr walk_options entries = Ok entries' ∧
    walked relr entries entries'.
Proof using Htidy Hroot Hrules.
  revert relr entries d. induction fuel as [|fuel IH]; intros relr entries d Hr Hd Ht Hfuel.
  { specialize (Hfuel [] d). rewrite app_nil_r in Hfuel. specialize (Hfuel Hd). lia. }
  cbn [collect_relative_entries]. change (r_filter_rules walk_options) with rules.
  rewrite no_merge_loaded. cbn [and_then].
  destruct (list_dir_ok (root ++ relr) d) as [listed Hl]; [by apply portable_app|done..|].
  change (list_dir fs (root ++ relr)) with (memory_list fs (root ++ relr)).
  rewrite Hl. cbn [and_then].
  destruct (collect_listed_spec
    (λ child_root child_relative entries, collect_relative_entries fuel fs root child_root
       child_relative (with_rules rules walk_options) entries) relr listed entries Hr)
    as (entries' & Hrun & Hent).
  - intros e He. by eapply listed_entry_spec.
  - intros name node m Hn Hnt.
    destruct (IH (relr ++ [Normal name]) m node) as (m' & Hm' & Hw);
      [by apply portable_snoc|done|done| |by exists m'].
    intros q n Hq. specialize (Hfuel (Normal name :: q) n).
    rewrite <-app_assoc in Hq. specialize (Hfuel Hq). cbn in Hfuel. lia.
  - exists entries'. split; [done|]. intros relative. rewrite Hent.
    destruct (tree_entry fs root rules relative) as [e|] eqn:He; cbn;
      [|by repeat case_decide].
    destruct (decide (relr `prefix_of` relative ∧ relative ≠ relr)) as [[Hp Hne]|Hno].
    + rewrite decide_True; [done|]. by eapply listed_covers.
    + rewrite decide_False; [done|]. intros Hex. apply Hno. clear Hno.
      apply Exists_exists in Hex as (x & Hx & Hcov).
      destruct (listed_entry_spec relr listed x Hr Hl Hx) as (name & node & _ & ->).
      unfold covers in Hcov. cbn in Hcov. apply prefix_app_inv in Hcov as [q ->].
      rewrite <-app_assoc. split; [by eexists|].
      intros Heq. apply (f_equal length) in Heq. rewrite length_app in Heq. cbn in Heq. lia.
Qed.
End walk.

(** What the walk of a directory lists. *)
Lemma walk_outcome `{Platform} fuel fs root rules mode one d :
  tidy fs → portable root → no_merge rules →
  nodes fs !! root = Some d → node_type d = Directory → (tree_depth fs < fuel)%nat →
  ∃ entries, relative_entries fuel fs root rules true mode one = Ok entries ∧
    ∀ relative, entries !! relative = tree_entry fs root rules relative.
Proof.
  intros Htidy Hroot Hrules Hd Ht Hfuel.
  destruct (collect_spec fs root rules mode one Htidy Hroot Hrules fuel [] ∅ d)
    as (entries & Hrun & Hw); [constructor|by rewrite app_nil_r|done| |].
  { intros q n Hq. apply tree_depth_bound in Hq. cbn in Hq. rewrite length_app in Hq. lia. }
  rewrite app_nil_r in Hrun. exists entries. split; [done|]. intros relative.
  rewrite Hw, lookup_empty. case_decide as Hdec.
  - by destruct (tree_entry fs root rules relative).
  - unfold tree_entry. rewrite decide_True; [done|].
    destruct (decide (relative = [])); [done|]. exfalso. apply Hdec.
    split; [apply prefix_nil|done].
Qed.

(** C38. The walk of a directory of a file system in memory without links, under rules that
    name no merge file, ends for any fuel above the depth of the tree, and its entries
    are exactly the nodes below the directory that no rule hides, directly or with a
    directory above them: pruning the hidden directories loses nothing else. *)
Theorem walk_is_the_visible_tree `{Platform} fuel fs root rules mode one d :
  tidy fs → portable root → no_merge rules →
  nodes fs !! root = Some d → node_type d = Directory → (tree_depth fs < fuel)%nat →
  ∃ entries, relative_entries fuel fs root rules true mode one = Ok entries ∧
    ∀ relative, entries !! relative = tree_entry fs root rules relative.
Proof. apply walk_outcome. Qed.

(** ** Deciding that a file system is tidy *)

Definition tidy_node (fs : MemoryFileSystem) (x : PathBuf * MemoryNode) : bool :=
  let '(q, node) := x in
  bool_decide (node_type node ≠ Symlink) && forallb is_normal q &&
  bool_decide (symlink_target (node_metadata node) = None) &&
  match q with
  | [] => true
  | _ => match nodes fs !! take (length q - 1) q with
         | Some d => bool_decide (node_type d = Directory)
         | None => false
         end
  end.

Lemma map_check {V} (m : gmap PathBuf V) (check : PathBuf * V → bool) q v :
  forallb check (map_to_list m) = true → m !! q = Some v → check (q, v) = true.
Proof.
  intros Hall Hq. rewrite forallb_forall in Hall. apply Hall, list_elem_of_In.
  by apply elem_of_map_to_list.
Qed.

Lemma tidy_by_check fs : forallb (tidy_node fs) (map_to_list (nodes fs)) = true → tidy fs.
Proof.
  intros Hall.
  assert (Hcheck : ∀ q node, nodes fs !! q = Some node → tidy_node fs (q, node) = true)
    by (intros; by eapply map_check).
  unfold tidy_node in Hcheck. split.
  - intros q node Hq. specialize (Hcheck q node Hq).
    rewrite !andb_true_iff, bool_decide_eq_true in Hcheck. tauto.
  - intros q node Hq. specialize (Hcheck q node Hq).
    rewrite !andb_true_iff in Hcheck. destruct Hcheck as [[[_ Hn] _] _].
    apply Forall_forall. intros c Hc. rewrite forallb_forall in Hn.
    by apply Hn, list_elem_of_In.
  - intros q c node Hq. specialize (Hcheck _ node Hq).
    rewrite !andb_true_iff in Hcheck. destruct Hcheck as [_ Hd].
    rewrite length_app, Nat.add_sub, take_app_length in Hd.
    destruct (q ++ [c]) eqn:Hqc; [by destruct q|].
    destruct (nodes fs !! q) as [d|]; [|done]. exists d. split; [done|].
    by apply bool_decide_eq_true in Hd.
  - intros q node Hq. specialize (Hcheck q node Hq).
    rewrite !andb_true_iff, !bool_decide_eq_true in Hcheck. tauto.
Qed.

#[local] Instance unix : Platform := false.

Local Abbreviation p := (λ s, parse_path (lit s)).

(** A directory with a file and a directory. *)
Definition small_tree : MemoryFileSystem :=
  ((add_file (p "src/a") [1; 2];; add_file (p "src/d/b") [3]) MemoryFileSystem_default).2.

Lemma small_tree_tidy : tidy small_tree.
Proof. apply tidy_by_check. vm_compute. reflexivity. Qed.

Lemma walk_is_the_visible_tree_witness :
  ∃ entries, relative_entries 9 small_tree (p "src") (Some []) true Skip false = Ok entries ∧
    entries !! p "d/b" = tree_entry small_tree (p "src") (Some []) (p "d/b").
Proof.
  destruct (walk_is_the_visible_tree 9 small_tree (p "src") (Some []) Skip false directory_node)
    as (entries & Hrun & Hent).
  - apply small_tree_tidy.
  - by repeat constructor.
  - constructor.
  - vm_compute. reflexivity.
  - vm_compute. reflexivity.
  - vm_compute. lia.
  - exists entries. by split.
Defined.

(** ** Links that are followed into their own directory *)

(** [src] has one entry, a link to [src]. *)
Definition looping_tree : MemoryFileSystem :=
  (add_symlink (p "src/l") (p ".") MemoryFileSystem_default).2.

Definition looping_options : RelativeEntryOptions :=
  {| r_filter_rules := Some []; r_recursive := true; r_symlink_mode := CopyAll;
     r_one_file_system := false |}.

Definition looping_link : WalkEntry :=
  {| entry_path := p "src/l"; entry_metadata := symlink_metadata (p ".") |}.

Lemma looping_entry relr :
  portable relr →
  relative_entry looping_tree (p "src") relr looping_options (Some []) looping_link =
  Ok (Some (relr ++ [Normal (lit "l")],
            {| entry_path := p "src/l";
               entry_metadata := set_symlink_target (Some (p ".")) directory_metadata |},
            Some (p "src"))).
Proof.
  intros Hr. unfold relative_entry.
  replace (file_name (entry_path looping_link)) with (Some (lit "l")) by by vm_compute.
  replace (apply_symlink_mode looping_tree looping_link (r_symlink_mode looping_options))
    with (@Ok (option WalkEntry) FsError
           (Some {| entry_path := p "src/l";
                    entry_metadata := set_symlink_target (Some (p ".")) directory_metadata |}))
    by by vm_compute.
  cbn [ok_or and_then r_one_file_system looping_options negb from_option].
  rewrite path_join_portable by by repeat constructor. unfold sender_path_is_filtered.
  rewrite sender_filtered_nil by by apply portable_snoc.
  reflexivity.
Qed.

(** A link to its own directory is followed for ever when links are copied: no depth of
    recursion is enough. *)
Theorem copied_loop_never_ends fuel :
  relative_entries fuel looping_tree (p "src") (Some []) true CopyAll false = Err out_of_fuel.
Proof.
  change (collect_relative_entries fuel looping_tree (p "src") (p "src") [] looping_options ∅ =
          Err out_of_fuel).
  assert (Hgen : ∀ relr entries, portable relr →
    collect_relative_entries fuel looping_tree (p "src") (p "src") relr looping_options entries =
    Err out_of_fuel).
  { induction fuel as [|fuel IH]; intros relr entries Hr; [done|].
    cbn [collect_relative_entries].
    replace (load_dir_merge_rules looping_tree (p "src") (r_filter_rules looping_options))
      with (@Ok (option RuleSet) FsError None) by by vm_compute.
    replace (list_dir looping_tree (p "src")) with (@Ok (list WalkEntry) FsError [looping_link])
      by by vm_compute.
    cbn [and_then collect_listed]. change (r_filter_rules looping_options) with (Some (@nil Rule)).
    rewrite looping_entry by done. cbn [and_then].
    change (with_rules (Some []) looping_options) with looping_options.
    rewrite IH by by apply portable_snoc. done. }
  apply Hgen. constructor.
Qed.
