(* ===== verification/SyncCopy.v ===== *)
(** * What a local sync makes of the destination

    On a file system in memory without links, with the options that copy files and
    nothing else, the outcome of a sync is known path by path. *)

From stdpp Require Import sorting.
From S2P Require Import Prelude Str Filter FsPath Metadata FileSystem MemoryFs MemoryFsFacts SyncPlan SyncWalk SyncDeletes SyncWalkFacts Sync.

(** The options of a plain copy.  How files are compared, which sizes are copied and
    whether times are kept is left open. *)
Record copies (o : SyncOptions) : Prop := {
  copies_wet : o_dry_run o = false;
  copies_recursive : o_recursive o = true;
  copies_delete : effective_delete_mode o = NoDelete;
  copies_backup : o_backup o = false;
  copies_delay : o_delay_updates o = false;
  copies_append : o_append_verify o = false;
  copies_fuzzy : o_fuzzy o = false;
  copies_links : o_preserve_hard_links o = false;
  copies_compare : o_compare_dest o = [];
  copies_copy : o_copy_dest o = [];
  copies_link : o_link_dest o = [];
  copies_deadline : o_stop_deadline o = None;
  copies_preflight : o_destination_path_preflight o = None;
  copies_all : o_files_from o = None;
}.

(** The node with the time of the source, if times are kept. *)
Definition stamped (options : SyncOptions) (source : PortableMetadata) (node : MemoryNode) :
    MemoryNode :=
  if o_preserve_mtime options &&
     negb (o_omit_dir_times options && bool_decide (file_type source = Directory)) then
    match modified source with
    | Some time => {| node_metadata := with_modified (node_metadata node) time;
                      node_bytes := node_bytes node |}
    | None => node
    end
  else node.

Lemma stamped_type options source node :
  node_type (stamped options source node) = node_type node.
Proof. unfold stamped. by repeat case_match. Qed.

(** Every path above another one is there. *)
Definition reachable (m : gmap PathBuf MemoryNode) (p : PathBuf) : Prop :=
  ∀ q, q `prefix_of` p → is_Some (m !! q).

Lemma with_dirs_id m p : portable p → reachable m p → with_dirs p m = m.
Proof.
  intros Hp Hall. apply map_eq. intros q. rewrite with_dirs_lookup by done.
  destruct (m !! q) eqn:Hq; [done|]. case_decide as Hpre; [|done].
  destruct (Hall q Hpre) as [? ?]. congruence.
Qed.

Lemma with_parents_id m p name :
  portable p → reachable m p → with_parents (p ++ [Normal name]) m = m.
Proof. intros Hp Hall. unfold with_parents. rewrite parent_snoc. by apply with_dirs_id. Qed.

Lemma with_dirs_snoc m p name :
  portable p → reachable m p →
  with_dirs (p ++ [Normal name]) m =
  <[p ++ [Normal name] := default directory_node (m !! (p ++ [Normal name]))]> m.
Proof.
  intros Hp Hall. apply map_eq. intros q. rewrite with_dirs_lookup by auto with portable.
  destruct (decide (q = p ++ [Normal name])) as [->|Hne].
  { rewrite lookup_insert_eq. destruct (m !! _); [done|]. by rewrite decide_True. }
  rewrite lookup_insert_ne by done. destruct (m !! q) eqn:Hq; [done|].
  rewrite decide_False; [done|]. intros [r Hr]. destruct r as [|c r] using rev_ind.
  - rewrite app_nil_r in Hr. congruence.
  - rewrite app_assoc in Hr. apply app_inj_tail in Hr as [-> <-].
    destruct (Hall q) as [? ?]; [by eexists|]. congruence.
Qed.

Section steps.
Context `{Platform}.
Variables (options : SyncOptions) (dest : PathBuf).
Hypothesis Hcopies : copies options.
Hypothesis Hdest : portable dest.
Implicit Types s : Syncing MemoryFileSystem.

(** A state with other nodes and a longer report. *)
Definition renode (m : gmap PathBuf MemoryNode) s : Syncing MemoryFileSystem :=
  set_fs (set_nodes m (fs_of s)) s.

Lemma renode_id s : renode (nodes (fs_of s)) s = s.
Proof. by destruct s as [[]]. Qed.

Lemma add_actions_nil s : add_actions [] s = s.
Proof. destruct s. unfold add_actions. cbn. by rewrite app_nil_r. Qed.

(** ** The steps of a file *)

Lemma act_ok {A} (m : M MemoryFileSystem FsError A) s a fs :
  m (fs_of s) = (Ok a, fs) → act m s = (Ok a, set_fs fs s).
Proof. intros Hm. unfold act. by rewrite Hm. Qed.

Lemma no_conflict target relative t s :
  portable target →
  (∀ n, nodes (fs_of s) !! target = Some n → node_type n = t) →
  t ≠ Symlink →
  remove_conflicting_target dest target relative t options s = (Ok true, s).
Proof.
  intros Hp Ht Hl. unfold remove_conflicting_target, peek, mbind, M_bind. cbn.
  rewrite metadata_at by done.
  destruct (nodes (fs_of s) !! target) as [n|] eqn:Hn; cbn; [|done].
  specialize (Ht n eq_refl). unfold node_type in Ht. rewrite Ht.
  rewrite (bool_decide_false (t = Symlink)) by done. rewrite andb_false_r. cbn.
  by rewrite bool_decide_true.
Qed.

Lemma stamp_target target entry s node :
  portable target → nodes (fs_of s) !! target = Some node →
  ∃ more, preserve_transferred_mtime target entry options s =
    (Ok tt, add_actions more
      (renode (<[target := stamped options (entry_metadata entry) node]> (nodes (fs_of s))) s)).
Proof using Hcopies.
  intros Hp Hn. unfold preserve_transferred_mtime, stamped.
  assert (Hid : renode (<[target:=node]> (nodes (fs_of s))) s = s)
    by (rewrite insert_id by done; apply renode_id).
  destruct (o_preserve_mtime options); cbn; [|exists []; by rewrite Hid, add_actions_nil].
  destruct (o_omit_dir_times options && _); cbn;
    [exists []; by rewrite Hid, add_actions_nil|].
  destruct (modified (entry_metadata entry)) as [time|];
    [|exists []; by rewrite Hid, add_actions_nil].
  exists [PreserveMtime target]. unfold unless_dry. rewrite (copies_wet _ Hcopies).
  unfold report, modify, mbind, M_bind. erewrite act_ok; [|by apply set_mtime_at]. done.
Qed.
Lemma add_actions_app more more' s :
  add_actions more' (add_actions more s) = add_actions (more ++ more') s.
Proof. unfold add_actions. cbn. by rewrite app_assoc. Qed.

Lemma renode_actions m more s : renode m (add_actions more s) = add_actions more (renode m s).
Proof. done. Qed.

Lemma renode_renode m m' s : renode m' (renode m s) = renode m' s.
Proof. done. Qed.

(** Where the parent of a target is there, a copy puts the bytes of the source at it. *)
Lemma copy_target source sn q name s write_options :
  plain (nodes (fs_of s)) → portable source → nodes (fs_of s) !! source = Some sn →
  node_type sn = File → portable q → reachable (nodes (fs_of s)) q →
  perform (copy_file_with_options source (q ++ [Normal name]) write_options) s =
  (Ok tt, renode (<[q ++ [Normal name] := file_node (node_bytes sn)]> (nodes (fs_of s))) s).
Proof.
  intros Hplain Hsp Hsn Ht Hq Hreach. unfold perform, mbind at 1, M_bind.
  erewrite act_ok; [done|]. cbn. unfold default_copy_file_with_options, ask, mbind, M_bind.
  erewrite read_plain by done. unfold memory_write_file_with_options, default_write_file_with_options.
  assert (Hw : memory_write_file_atomic (q ++ [Normal name]) (node_bytes sn) (fs_of s) =
    (Ok tt, set_nodes (<[q ++ [Normal name] := file_node (node_bytes sn)]> (nodes (fs_of s))) (fs_of s))).
  { rewrite write_plain by auto with portable. by rewrite with_parents_id. }
  destruct (write_mode write_options); by rewrite Hw.
Qed.

Lemma transfer_step entry sn q name relative s :
  plain (nodes (fs_of s)) → portable (entry_path entry) →
  nodes (fs_of s) !! entry_path entry = Some sn → node_type sn = File →
  0 ≤ len (entry_metadata entry) < 2 ^ 64 →
  portable q → reachable (nodes (fs_of s)) q →
  ∃ more, transfer_file dest entry (q ++ [Normal name]) relative options s =
    (Ok tt, add_actions more (renode
       (<[q ++ [Normal name] := stamped options (entry_metadata entry) (file_node (node_bytes sn))]>
          (nodes (fs_of s))) s)).
Proof using Hcopies.
  intros Hplain Hsp Hsn Ht Hlen Hq Hreach.
  unfold transfer_file, transfer_as_hardlink, transfer_from_basis, transfer_fuzzy, transfer_appended.
  rewrite (copies_links _ Hcopies), (copies_compare _ Hcopies), (copies_copy _ Hcopies),
    (copies_link _ Hcopies), (copies_fuzzy _ Hcopies), (copies_append _ Hcopies).
  cbn [negb andb orb]. rewrite !bool_decide_false by auto. cbn [negb andb orb].
  rewrite !bind_ret. unfold transfer_whole, unless_dry, backup_receiver_file, remember_hardlink_target.
  rewrite (copies_wet _ Hcopies), (copies_delay _ Hcopies), (copies_backup _ Hcopies),
    (copies_links _ Hcopies). cbn [negb andb].
  set (target := q ++ [Normal name]) in *. set (n := len (entry_metadata entry)) in *.
  assert (Haction : action_len n = Ok n).
  { unfold action_len, checked_usize. by replace ((0 <=? n) && (n <? 2 ^ 64)) with true by lia. }
  rewrite (bind_ok _ _ s n s) by (unfold lift; by rewrite Haction).
  set (action := match o_file_write_mode options with
                 | Atomic => WriteFile target n | InPlace => WriteFileInPlace target n end).
  set (s1 := add_actions [action] s).
  set (s2 := renode (<[target := file_node (node_bytes sn)]> (nodes (fs_of s))) s1).
  rewrite (bind_ok _ _ s tt s1) by done. rewrite (bind_ok _ _ s1 tt s2) by
    (rewrite bind_ret; by apply (copy_target (entry_path entry) sn q name s1)).
  rewrite bind_ret.
  destruct (stamp_target target entry s2 (file_node (node_bytes sn))) as [more Hmore];
    [by apply portable_snoc|by cbn; rewrite lookup_insert_eq|].
  exists (action :: more). rewrite Hmore. unfold s2, s1. cbn [nodes fs_of renode set_fs set_nodes].
  by rewrite insert_insert_eq, renode_renode, renode_actions, add_actions_app.
Qed.

(** Whether a file is copied depends on the two files only. *)
Lemma needs_update_same (fs fs' : MemoryFileSystem) entry target sn :
  portable (entry_path entry) → portable target →
  nodes fs !! entry_path entry = Some sn → node_type sn = File →
  nodes fs' !! entry_path entry = Some sn → nodes fs' !! target = nodes fs !! target →
  file_needs_update fs' entry target options = file_needs_update fs entry target options ∧
  ∃ needed, file_needs_update fs entry target options = Ok needed.
Proof using Type.
  intros Hsp Hp Hsn Ht Hsn' Htarget. unfold file_needs_update. cbn.
  rewrite !metadata_at, Htarget by done.
  destruct (from_option _ _ _); [eauto|]. destruct (from_option _ _ _); [eauto|].
  destruct (nodes fs !! target) as [n|] eqn:Hn; cbn; [|eauto].
  fold (node_type n). case_bool_decide as Hnt; [eauto|].
  destruct (o_ignore_existing options); [eauto|]. destruct (_ && _); [eauto|].
  destruct (o_update_mode options); eauto.
  unfold default_files_equal. rewrite !metadata_at by done.
  rewrite Hsn, Hsn', Htarget, Hn. cbn.
  assert (Hnf : node_type n = File) by (destruct (decide (node_type n = File)); tauto).
  destruct (negb _); cbn; [eauto|].
  rewrite (read_plain fs' _ sn), (read_plain fs' _ n), (read_plain fs _ sn), (read_plain fs _ n)
    by done. cbn. eauto.
Qed.

(** The node at the target after the turn of a file. *)
Definition file_outcome (needed : bool) (source : PortableMetadata) (bytes : list Z)
    (old : option MemoryNode) : option MemoryNode :=
  if needed then Some (stamped options source (file_node bytes))
  else stamped options source <$> old.

Lemma stamp_existing target entry s node :
  file_type (entry_metadata entry) = File →
  portable target → nodes (fs_of s) !! target = Some node →
  ∃ more, preserve_existing_file_mtime target entry options s =
    (Ok tt, add_actions more
      (renode (<[target := stamped options (entry_metadata entry) node]> (nodes (fs_of s))) s)).
Proof using Hcopies.
  intros Hft Hp Hn. unfold preserve_existing_file_mtime, stamped.
  rewrite Hft, bool_decide_false, andb_false_r by done.
  assert (Hid : renode (<[target:=node]> (nodes (fs_of s))) s = s)
    by (rewrite insert_id by done; apply renode_id).
  destruct (o_preserve_mtime options); cbn; [|exists []; by rewrite Hid, add_actions_nil].
  destruct (modified (entry_metadata entry)) as [time|] eqn:Htime;
    [|exists []; by rewrite Hid, add_actions_nil].
  unfold peek, mbind at 1, M_bind. cbn. rewrite metadata_at, Hn by done. cbn.
  case_bool_decide as Hsame.
  - exists []. rewrite add_actions_nil.
    assert (Heta : {| node_metadata := with_modified (node_metadata node) time;
                      node_bytes := node_bytes node |} = node).
    { destruct node as [[] ?]; cbn in *. unfold with_modified. cbn. by rewrite Hsame. }
    by rewrite Heta, Hid.
  - exists [PreserveMtime target]. unfold unless_dry. rewrite (copies_wet _ Hcopies).
    unfold report, modify, mbind, M_bind. erewrite act_ok; [|by apply set_mtime_at]. done.
Qed.

Lemma file_step entry sn q name relative s :
  file_type (entry_metadata entry) = File →
  plain (nodes (fs_of s)) → portable (entry_path entry) →
  nodes (fs_of s) !! entry_path entry = Some sn → node_type sn = File →
  0 ≤ len (entry_metadata entry) < 2 ^ 64 →
  path_join dest relative = q ++ [Normal name] → portable q → reachable (nodes (fs_of s)) q →
  (∀ n, nodes (fs_of s) !! (q ++ [Normal name]) = Some n → node_type n = File) →
  ∃ needed more,
    file_needs_update (fs_of s) entry (q ++ [Normal name]) options = Ok needed ∧
    sync_file dest relative entry options s =
    (Ok None, add_actions more (renode
       (partial_alter (file_outcome needed (entry_metadata entry) (node_bytes sn))
          (q ++ [Normal name]) (nodes (fs_of s))) s)).
Proof using Hcopies.
  intros Hft Hplain Hsp Hsn Ht Hlen Hjoin Hq Hreach Hold.
  unfold sync_file. rewrite Hjoin. set (target := q ++ [Normal name]) in *.
  assert (Htp : portable target) by by apply portable_snoc.
  rewrite (bind_ok _ _ s true s) by by apply no_conflict. cbn [negb].
  destruct (needs_update_same (fs_of s) (fs_of s) entry target sn) as [_ [needed Hneed]];
    [done..|].
  exists needed. rewrite (bind_ok _ _ s needed s) by (unfold inspect; by rewrite Hneed).
  destruct needed; cbn [negb].
  - destruct (transfer_step entry sn q name relative s) as [more Hrun]; [done..|].
    exists more. split; [done|]. unfold guarded. fold target in Hrun. by rewrite Hrun.
  - unfold remember_hardlink_target. rewrite (copies_links _ Hcopies), bind_ret.
    destruct (nodes (fs_of s) !! target) as [n|] eqn:Hn.
    + destruct (stamp_existing target entry s n) as [more Hrun]; [done..|].
      exists more. split; [done|]. rewrite (bind_ok _ _ s tt _ Hrun).
      unfold mret, M_ret. do 4 f_equal. apply map_eq. intros p.
      destruct (decide (p = target)) as [->|Hne].
      * by rewrite lookup_insert_eq, lookup_partial_alter_eq, Hn.
      * by rewrite lookup_insert_ne, lookup_partial_alter_ne.
    + exists []. split; [done|].
      assert (Hrun : preserve_existing_file_mtime target entry options s = (Ok tt, s)).
      { unfold preserve_existing_file_mtime. repeat case_match; try done.
        unfold peek, mbind, M_bind. cbn. by rewrite metadata_at, Hn. }
      rewrite (bind_ok _ _ s tt _ Hrun), add_actions_nil.
      unfold mret, M_ret. f_equal. rewrite <-(renode_id s) at 1. f_equal. apply map_eq. intros p.
      destruct (decide (p = target)) as [->|Hne].
      * by rewrite lookup_partial_alter_eq, Hn.
      * by rewrite lookup_partial_alter_ne.
Qed.

(** ** The steps of a directory *)

Lemma directory_step entry q name relative s :
  plain (nodes (fs_of s)) →
  path_join dest relative = q ++ [Normal name] → portable q → reachable (nodes (fs_of s)) q →
  (∀ n, nodes (fs_of s) !! (q ++ [Normal name]) = Some n → node_type n = Directory) →
  ∃ more,
    sync_directory dest relative entry options s =
    (Ok tt, add_directory (q ++ [Normal name]) entry (add_actions more (renode
       (partial_alter (λ old, Some (default directory_node old)) (q ++ [Normal name])
          (nodes (fs_of s))) s))).
Proof using Hcopies.
  intros Hplain Hjoin Hq Hreach Hold. unfold sync_directory.
  rewrite (copies_recursive _ Hcopies), Hjoin. cbn [negb andb].
  set (target := q ++ [Normal name]) in *.
  rewrite (bind_ok _ _ s true s) by (apply no_conflict; [by apply portable_snoc|done|done]).
  cbn [negb]. exists [CreateDir target]. unfold unless_dry. rewrite (copies_wet _ Hcopies).
  rewrite (bind_ok _ _ s tt (add_actions [CreateDir target] s)) by done.
  erewrite bind_ok; [|apply act_ok, create_dir_all_plain; [done|by apply portable_snoc]].
  assert (Hmap : with_dirs target (nodes (fs_of s)) =
    partial_alter (λ old, Some (default directory_node old)) target (nodes (fs_of s))).
  { unfold target. rewrite with_dirs_snoc by done. apply map_eq. intros p.
    destruct (decide (p = q ++ [Normal name])) as [->|Hne].
    - by rewrite lookup_insert_eq, lookup_partial_alter_eq.
    - by rewrite lookup_insert_ne, lookup_partial_alter_ne. }
  unfold modify. cbn [fs_of add_actions]. by rewrite Hmap.
Qed.
End steps.
