(* ===== verification/SyncOutcome.v ===== *)
(** * The outcome of a plain copy

    The loop over the entries of the source, turn by turn, and the theorem on what a
    sync of a tree makes of the file system. *)

From stdpp Require Import sorting.
From S2P Require Import Prelude Str Filter FsPath Metadata FileSystem MemoryFs MemoryFsFacts SyncPlan SyncWalk SyncDeletes SyncWalkFacts Sync SyncCopy.

(** A change of one key depends on the value there only. *)
Lemma partial_alter_const {V} (f : option V → option V) (p : PathBuf) (m : gmap PathBuf V) :
  partial_alter f p m = partial_alter (λ _, f (m !! p)) p m.
Proof. by apply partial_alter_ext; intros x <-. Qed.

Section loop.
Context `{Platform}.
Variables (options : SyncOptions) (source dest : PathBuf).
Variables (fs0 : MemoryFileSystem) (entries : gmap PathBuf WalkEntry).
Hypothesis Hcopies : copies options.
Hypothesis Hsource : portable source.
Hypothesis Hdest : portable dest.
Hypothesis Hplain : plain (nodes fs0).
Hypothesis Hapart : ∀ a b, source ++ a ≠ dest ++ b.
Hypothesis Hreach : reachable (nodes fs0) dest.

(** The entries are files and directories of the source. *)
Hypothesis Hentries : ∀ relative e, entries !! relative = Some e →
  relative ≠ [] ∧ portable relative ∧
  ∃ sn, nodes fs0 !! (source ++ relative) = Some sn ∧
    e = {| entry_path := source ++ relative; entry_metadata := node_metadata sn |} ∧
    (node_type sn = File ∨ node_type sn = Directory) ∧ 0 ≤ len (node_metadata sn) < 2 ^ 64.
Hypothesis Hparents : ∀ p q e, p ≠ [] → q ≠ [] → entries !! (p ++ q) = Some e →
  ∃ d, entries !! p = Some d ∧ file_type (entry_metadata d) = Directory.
(** What is in their place at the destination is of the same type. *)
Hypothesis Htypes : ∀ relative e n, entries !! relative = Some e →
  nodes fs0 !! (dest ++ relative) = Some n → node_type n = file_type (entry_metadata e).

Definition source_bytes (e : WalkEntry) : list Z :=
  from_option node_bytes [] (nodes fs0 !! entry_path e).

(** The node an entry leaves at its target after its turn. *)
Definition turn_outcome (relative : PathBuf) (e : WalkEntry) : option MemoryNode :=
  let target := dest ++ relative in
  let old := nodes fs0 !! target in
  if bool_decide (file_type (entry_metadata e) = Directory)
  then Some (default directory_node old)
  else match file_needs_update fs0 e target options with
  | Ok needed => file_outcome options needed (entry_metadata e) (source_bytes e) old
  | Err _ => old
  end.

Definition applied (turns : list (PathBuf * WalkEntry)) : gmap PathBuf MemoryNode :=
  foldl (λ m x, partial_alter (λ _, turn_outcome x.1 x.2) (dest ++ x.1) m) (nodes fs0) turns.

Lemma applied_snoc turns relative e :
  applied (turns ++ [(relative, e)]) =
  partial_alter (λ _, turn_outcome relative e) (dest ++ relative) (applied turns).
Proof. unfold applied. by rewrite foldl_app. Qed.

Lemma applied_other turns p :
  (∀ relative, p = dest ++ relative → relative ∉ turns.*1) → applied turns !! p = nodes fs0 !! p.
Proof.
  induction turns as [|[relative e] turns IH] using rev_ind; intros Hp; [done|].
  rewrite applied_snoc. rewrite fmap_app in Hp. cbn in Hp.
  rewrite lookup_partial_alter_ne.
  - apply IH. intros r Hr Hin. apply (Hp r Hr). apply elem_of_app. by left.
  - intros <-. apply (Hp relative eq_refl). apply elem_of_app. right. by left.
Qed.

Lemma applied_turn turns relative e :
  NoDup turns.*1 → (relative, e) ∈ turns →
  applied turns !! (dest ++ relative) = turn_outcome relative e.
Proof.
  induction turns as [|[r x] turns IH] using rev_ind; intros Hnodup Hin; [by apply elem_of_nil in Hin|].
  rewrite fmap_app in Hnodup. cbn in Hnodup. apply NoDup_app in Hnodup as (Hnodup & Hno & _).
  rewrite applied_snoc. apply elem_of_app in Hin as [Hin|Hin%list_elem_of_singleton].
  - rewrite lookup_partial_alter_ne; [auto|]. intros Heq%app_inv_head. subst r.
    apply (Hno relative); [|by left]. by apply (list_elem_of_fmap_2 fst _ (relative, e)).
  - injection Hin as -> ->. by rewrite lookup_partial_alter_eq.
Qed.

Lemma turn_outcome_type relative e n :
  entries !! relative = Some e → turn_outcome relative e = Some n →
  node_type n = file_type (entry_metadata e).
Proof.
  intros He. pose proof (λ n, Htypes relative e n He) as Hold.
  destruct (Hentries _ _ He) as (_ & _ & sn & _ & -> & Ht & _).
  unfold turn_outcome. cbn in *. fold (node_type sn) in *. case_bool_decide as Hd.
  - intros [= <-]. destruct (nodes fs0 !! (dest ++ relative)); cbn; [auto|by rewrite Hd].
  - destruct Ht as [Hf|]; [|done].
    destruct (file_needs_update _ _ _ _) as [[]|]; cbn; [..|auto].
    + intros [= <-]. rewrite stamped_type. by rewrite Hf.
    + rewrite fmap_Some. intros (o & Ho & ->). rewrite stamped_type. auto.
Qed.

Lemma applied_plain turns :
  (∀ x, x ∈ turns → entries !! x.1 = Some x.2) → plain (applied turns).
Proof.
  induction turns as [|[r x] turns IH] using rev_ind; intros Hin; [done|].
  rewrite applied_snoc. intros p n. destruct (decide (p = dest ++ r)) as [->|Hne].
  - rewrite lookup_partial_alter_eq. intros Hn.
    assert (He : entries !! r = Some x) by (apply (Hin (r, x)); set_solver).
    rewrite (turn_outcome_type _ _ _ He Hn).
    destruct (Hentries _ _ He) as (_ & _ & sn & _ & -> & Ht & _). cbn.
    fold (node_type sn). destruct Ht as [->| ->]; done.
  - rewrite lookup_partial_alter_ne by done. apply IH. intros y Hy. apply Hin. set_solver.
Qed.

(** What comes before an entry in the order of the paths has had its turn. *)
Lemma earlier_done done relative e rest p d :
  done ++ (relative, e) :: rest = btree_iter entries →
  entries !! p = Some d → path_cmp p relative = Lt → (p, d) ∈ done.
Proof.
  intros Hiter Hp Hlt. apply elem_of_btree_iter in Hp. rewrite <-Hiter in Hp.
  pose proof (btree_iter_sorted entries) as Hs. rewrite <-Hiter in Hs.
  apply elem_of_app in Hp as [?|[Heq|Hp]%elem_of_cons]; [done|..]; exfalso.
  - injection Heq as -> ->. by rewrite (proj2 (path_cmp_eq relative relative) eq_refl) in Hlt.
  - apply StronglySorted_app in Hs as (_ & _ & Hs). apply StronglySorted_cons in Hs as [Hs _].
    rewrite list.Forall_forall in Hs. specialize (Hs _ Hp). unfold key_le, path_le in Hs. cbn in Hs.
    rewrite path_cmp_opp, Hlt in Hs. done.
Qed.

Lemma applied_reachable turns q name e rest :
  turns ++ (q ++ [Normal name], e) :: rest = btree_iter entries →
  reachable (applied turns) (dest ++ q).
Proof.
  intros Hiter p Hp.
  assert (He : entries !! (q ++ [Normal name]) = Some e).
  { apply elem_of_btree_iter. rewrite <-Hiter. set_solver. }
  assert (Hkeys : NoDup (turns ++ (q ++ [Normal name], e) :: rest).*1)
    by (rewrite Hiter; apply NoDup_btree_keys).
  rewrite fmap_app in Hkeys. apply NoDup_app in Hkeys as (Hnodup & _ & _).
  assert (Hnil : ∀ x, x ∈ turns → x.1 ≠ []).
  { intros [r x] Hx. assert (Hin : entries !! r = Some x).
    { apply elem_of_btree_iter. rewrite <-Hiter. set_solver. }
    by destruct (Hentries _ _ Hin). }
  destruct (decide (p `prefix_of` dest)) as [Hpd|Hpd].
  - rewrite applied_other; [by apply Hreach|]. intros r -> Hr.
    destruct Hpd as [k Hk]. rewrite <-app_assoc in Hk.
    apply list_elem_of_fmap in Hr as (x & -> & Hx).
    apply (Hnil x Hx). destruct x.1; [done|].
    apply (f_equal length) in Hk. rewrite length_app in Hk. cbn in Hk. lia.
  - destruct (prefix_weak_total p dest (dest ++ q)) as [?|[r ->]]; [done|by eexists|done|].
    apply prefix_app_inv in Hp as [k ->].
    assert (Hr : r ≠ []) by (intros ->; apply Hpd; by rewrite app_nil_r).
    rewrite <-app_assoc in He.
    destruct (Hparents r (k ++ [Normal name]) e Hr) as (d & Hd & Ht); [by destruct k|done|].
    assert (Hin : (r, d) ∈ turns).
    { eapply earlier_done; [exact Hiter|done|]. rewrite <-app_assoc.
      destruct (k ++ [Normal name]) as [|c k'] eqn:Hk; [by destruct k|]. apply path_cmp_prefix. }
    rewrite (applied_turn _ _ _ Hnodup Hin). unfold turn_outcome. rewrite bool_decide_true by done.
    eauto.
Qed.

Definition directories_of (turns : list (PathBuf * WalkEntry)) : list (PathBuf * WalkEntry) :=
  omap (λ x, if bool_decide (file_type (entry_metadata x.2) = Directory)
             then Some (dest ++ x.1, x.2) else None) turns.

(** The state after some turns. *)
Record after_turns (turns : list (PathBuf * WalkEntry)) (s : Syncing MemoryFileSystem) : Prop := {
  after_nodes : nodes (fs_of s) = applied turns;
  after_delayed : delayed_transfers s = [];
  after_directories : directory_mtimes s = directories_of turns;
}.

(** One turn of the loop. *)
Lemma turn_step turns relative e rest s :
  turns ++ (relative, e) :: rest = btree_iter entries → after_turns turns s →
  ∃ s', sync_entry dest relative e options s = (Ok None, s') ∧
        after_turns (turns ++ [(relative, e)]) s'.
Proof.
  intros Hiter [Hnodes Hdelayed Hdirs].
  assert (He : entries !! relative = Some e).
  { apply elem_of_btree_iter. rewrite <-Hiter. apply elem_of_app. right. by left. }
  assert (Hturns : ∀ x, x ∈ turns → entries !! x.1 = Some x.2).
  { intros [r x] Hx. apply elem_of_btree_iter. rewrite <-Hiter. apply elem_of_app. by left. }
  assert (Hkeys : NoDup (turns ++ (relative, e) :: rest).*1)
    by (rewrite Hiter; apply NoDup_btree_keys).
  rewrite fmap_app in Hkeys. cbn in Hkeys. apply NoDup_app in Hkeys as (_ & Hno & _).
  assert (Hnew : relative ∉ turns.*1).
  { intros Hin. apply (Hno relative Hin). by left. }
  destruct (Hentries _ _ He) as (Hne & Hp & sn & Hsn & Hentry & Ht & Hlen).
  destruct (portable_inv relative Hp) as [->|(q & name & -> & Hq)]; [done|].
  assert (Hplain' : plain (nodes (fs_of s))) by (rewrite Hnodes; by apply applied_plain).
  assert (Hreach' : reachable (nodes (fs_of s)) (dest ++ q)).
  { rewrite Hnodes. by eapply applied_reachable. }
  assert (Hjoin : path_join dest (q ++ [Normal name]) = (dest ++ q) ++ [Normal name])
    by (rewrite path_join_portable by done; by rewrite app_assoc).
  assert (Hdq : portable (dest ++ q)) by by apply portable_app.
  assert (Htarget : nodes (fs_of s) !! ((dest ++ q) ++ [Normal name]) =
                    nodes fs0 !! (dest ++ q ++ [Normal name])).
  { rewrite Hnodes, <-app_assoc. apply applied_other. by intros r <-%app_inv_head. }
  assert (Hold : ∀ n, nodes (fs_of s) !! ((dest ++ q) ++ [Normal name]) = Some n →
                 node_type n = file_type (entry_metadata e)).
  { intros n. rewrite Htarget. by apply Htypes. }
  assert (Hsource' : nodes (fs_of s) !! (source ++ q ++ [Normal name]) = Some sn).
  { rewrite Hnodes, applied_other; [done|]. intros r Hr. by destruct (Hapart _ _ Hr). }
  assert (Hedir : file_type (entry_metadata e) = node_type sn) by by rewrite Hentry.
  assert (Hsp : portable (entry_path e)) by (rewrite Hentry; cbn; by apply portable_app).
  assert (Hse : nodes (fs_of s) !! entry_path e = Some sn) by by rewrite Hentry.
  assert (Hse0 : nodes fs0 !! entry_path e = Some sn) by by rewrite Hentry.
  unfold sync_entry. rewrite Hedir in *. destruct Ht as [Hf|Hd].
  - destruct (file_step options dest Hcopies e sn (dest ++ q) name (q ++ [Normal name]) s)
      as (needed & more & Hneed & Hrun); try done; try congruence;
      [by rewrite Hentry|by rewrite <-Hf|].
    rewrite Hf, Hrun. eexists. split; [done|]. split; [|done|].
    + cbn. rewrite partial_alter_const, applied_snoc, Htarget, Hnodes, <-app_assoc.
      f_equal. unfold turn_outcome. rewrite Hedir, bool_decide_false by (by rewrite Hf).
      destruct (needs_update_same options fs0 (fs_of s) e ((dest ++ q) ++ [Normal name]) sn)
        as [Hsame _]; [done|by apply portable_snoc|done..|by rewrite Htarget, <-app_assoc|].
      rewrite <-app_assoc in Hsame, Hneed. rewrite <-Hsame, Hneed.
      unfold source_bytes. by rewrite Hse0.
    + cbn. rewrite Hdirs. unfold directories_of. rewrite omap_app. cbn.
      rewrite Hedir, bool_decide_false by (by rewrite Hf). by rewrite app_nil_r.
  - destruct (directory_step options dest Hcopies e (dest ++ q) name (q ++ [Normal name]) s)
      as [more Hrun]; try done; [by rewrite <-Hd|].
    rewrite Hd, (bind_ok _ _ _ _ _ Hrun). eexists. split; [done|]. split; [|done|].
    + cbn. rewrite partial_alter_const, applied_snoc, Htarget, Hnodes, <-app_assoc.
      f_equal. unfold turn_outcome. by rewrite Hedir, bool_decide_true.
    + cbn. rewrite Hdirs. unfold directories_of. rewrite omap_app. cbn.
      by rewrite Hedir, bool_decide_true, <-app_assoc.
Qed.

Lemma loop_spec clock n dest_entries turns rest s :
  turns ++ rest = btree_iter entries → after_turns turns s →
  ∃ s', sync_entries clock n dest entries dest_entries options rest s = (Ok tt, s') ∧
        after_turns (btree_iter entries) s'.
Proof.
  revert n turns s. induction rest as [|[relative e] rest IH]; intros n turns s Hiter Hs.
  { rewrite app_nil_r in Hiter. subst turns. by exists s. }
  cbn [sync_entries]. rewrite (copies_deadline _ Hcopies).
  rewrite (bind_ok _ _ s tt s) by done.
  destruct (turn_step turns relative e rest s Hiter Hs) as (s' & Hrun & Hs').
  rewrite (bind_ok _ _ _ _ _ Hrun). apply (IH (n + 1)%nat (turns ++ [(relative, e)])); [|done].
  by rewrite <-app_assoc.
Qed.

(** ** The times of the directories *)

Definition stamp_all (m : gmap PathBuf MemoryNode) (directories : list (PathBuf * WalkEntry)) :
    gmap PathBuf MemoryNode :=
  foldl (λ m x, alter (stamped options (entry_metadata x.2)) x.1 m) m directories.

Lemma stamp_directories directories s :
  (∀ x, x ∈ directories → portable x.1 ∧ is_Some (nodes (fs_of s) !! x.1)) →
  ∃ s', for_each (λ '(target, entry), preserve_transferred_mtime target entry options)
          directories s = (Ok tt, s') ∧
        nodes (fs_of s') = stamp_all (nodes (fs_of s)) directories.
Proof.
  revert s. induction directories as [|[target e] directories IH]; intros s Hall.
  { by exists s. }
  destruct (Hall (target, e)) as [Hp [node Hn]]; [by left|]. cbn in Hp, Hn.
  destruct (stamp_target options Hcopies target e s node Hp Hn) as [more Hrun].
  cbn [for_each]. rewrite (bind_ok _ _ _ _ _ Hrun).
  assert (Halter : <[target := stamped options (entry_metadata e) node]> (nodes (fs_of s)) =
                   alter (stamped options (entry_metadata e)) target (nodes (fs_of s))).
  { apply map_eq. intros p. destruct (decide (p = target)) as [->|Hne].
    - by rewrite lookup_insert_eq, lookup_alter_eq, Hn.
    - by rewrite lookup_insert_ne, lookup_alter_ne. }
  rewrite Halter.
  destruct (IH (add_actions more (renode (alter (stamped options (entry_metadata e)) target
                                            (nodes (fs_of s))) s))) as (s' & Hs' & Hnodes).
  - intros x Hx. destruct (Hall x) as [? Hsome]; [by right|]. split; [done|]. cbn.
    destruct (decide (x.1 = target)) as [->|Hne].
    + rewrite lookup_alter_eq. by apply fmap_is_Some.
    + by rewrite lookup_alter_ne.
  - exists s'. by split.
Qed.

Lemma stamp_all_other m directories p :
  p ∉ directories.*1 → stamp_all m directories !! p = m !! p.
Proof.
  revert m. induction directories as [|x directories IH]; intros m Hp; [done|].
  cbn in *. apply not_elem_of_cons in Hp as [Hne Hp].
  change (stamp_all (alter (stamped options (entry_metadata x.2)) x.1 m) directories !! p = m !! p).
  rewrite IH by done. by rewrite lookup_alter_ne.
Qed.

Lemma stamp_all_at m directories target e :
  NoDup directories.*1 → (target, e) ∈ directories →
  stamp_all m directories !! target = stamped options (entry_metadata e) <$> m !! target.
Proof.
  revert m. induction directories as [|x directories IH]; intros m Hnodup Hin.
  { by apply elem_of_nil in Hin. }
  cbn in Hnodup. apply NoDup_cons in Hnodup as [Hno Hnodup].
  change (stamp_all (alter (stamped options (entry_metadata x.2)) x.1 m) directories !! target =
          stamped options (entry_metadata e) <$> m !! target).
  apply elem_of_cons in Hin as [<-|Hin]; cbn in *.
  - rewrite stamp_all_other by done. by rewrite lookup_alter_eq.
  - rewrite IH by done. rewrite lookup_alter_ne; [done|]. intros Heq. apply Hno. rewrite Heq.
    by apply (list_elem_of_fmap_2 fst _ (target, e)).
Qed.
End loop.

(** ** The whole tree *)

Lemma tree_entry_inv fs root rules relative e :
  tree_entry fs root rules relative = Some e →
  relative ≠ [] ∧ ∃ sn, nodes fs !! (root ++ relative) = Some sn ∧
    e = {| entry_path := root ++ relative; entry_metadata := node_metadata sn |} ∧
    hidden rules relative (node_type sn) = false.
Proof.
  unfold tree_entry. case_decide as Hne; [done|].
  destruct (nodes fs !! (root ++ relative)) as [sn|]; [|done].
  destruct (hidden _ _ _) eqn:?; [done|]. intros [= <-]. split; [done|]. by exists sn.
Qed.

Lemma tree_entry_parent fs root rules p q e :
  tidy fs → p ≠ [] → q ≠ [] → tree_entry fs root rules (p ++ q) = Some e →
  ∃ d, tree_entry fs root rules p = Some d ∧ file_type (entry_metadata d) = Directory.
Proof.
  intros Htidy Hp Hq He. apply tree_entry_inv in He as (_ & sn & Hsn & _ & Hhid).
  rewrite app_assoc in Hsn. destruct (tidy_above fs _ _ _ Htidy Hq Hsn) as (d & Hd & Ht).
  exists {| entry_path := root ++ p; entry_metadata := node_metadata d |}. split; [|done].
  unfold tree_entry. rewrite decide_False by done. rewrite Hd.
  replace (hidden rules p (node_type d)) with false; [done|]. symmetry. rewrite Ht.
  revert Hhid. unfold hidden. destruct rules as [rs|]; [|done]. cbn.
  by apply sender_filtered_prefix.
Qed.

(** The directory of the destination as it is after the first steps of a sync. *)
Definition with_dest `{Platform} (dest : PathBuf) (fs : MemoryFileSystem) : MemoryFileSystem :=
  if path_exists fs dest then fs else set_nodes (with_dirs dest (nodes fs)) fs.

(** The node a sync leaves at the target of an entry of the source. *)
Definition final_node `{Platform} (options : SyncOptions) (fs : MemoryFileSystem) (dest : PathBuf)
    (relative : PathBuf) (e : WalkEntry) : option MemoryNode :=
  let old := nodes fs !! (dest ++ relative) in
  if bool_decide (file_type (entry_metadata e) = Directory)
  then Some (stamped options (entry_metadata e) (default directory_node old))
  else match file_needs_update fs e (dest ++ relative) options with
  | Ok needed =>
      file_outcome options needed (entry_metadata e) (source_bytes fs e) old
  | Err _ => old
  end.

(** A destination that is a directory, or is missing where it may be made. *)
Definition dest_possible (options : SyncOptions) (fs : MemoryFileSystem) (dest : PathBuf) : Prop :=
  match nodes fs !! dest with
  | Some n => node_type n = Directory
  | None => o_mkpath options = true ∨
            ∃ q name n, dest = q ++ [Normal name] ∧ nodes fs !! q = Some n ∧
                        node_type n = Directory
  end.

Section tree.
Context `{Platform}.
Variables (options : SyncOptions) (source dest : PathBuf) (fs : MemoryFileSystem).
Hypothesis Hcopies : copies options.
Hypothesis Htidy : tidy fs.
Hypothesis Hsource : portable source.
Hypothesis Hdest : portable dest.
Hypothesis Hnot_in : ¬ source `prefix_of` dest.
Hypothesis Hnot_out : ¬ dest `prefix_of` source.
Hypothesis Hpossible : dest_possible options fs dest.

Definition fs1 : MemoryFileSystem := with_dest dest fs.

Lemma apart a b : source ++ a ≠ dest ++ b.
Proof.
  intros Heq. destruct (prefix_weak_total source dest (source ++ a)); [by eexists| |tauto..].
  rewrite Heq. by eexists.
Qed.

Lemma exists_dest : path_exists fs dest = bool_decide (is_Some (nodes fs !! dest)).
Proof.
  unfold path_exists. cbn. rewrite metadata_at by done.
  by destruct (nodes fs !! dest).
Qed.

Lemma fs1_lookup p :
  nodes fs1 !! p = nodes fs !! p ∨
  nodes fs !! p = None ∧ p `prefix_of` dest ∧ nodes fs1 !! p = Some directory_node.
Proof.
  unfold fs1, with_dest. destruct (path_exists fs dest); [by left|]. cbn.
  rewrite with_dirs_lookup by done. destruct (nodes fs !! p); [by left|].
  case_decide; [by right|by left].
Qed.

Lemma fs1_source a : nodes fs1 !! (source ++ a) = nodes fs !! (source ++ a).
Proof.
  destruct (fs1_lookup (source ++ a)) as [|(_ & [k Hk] & _)]; [done|].
  exfalso. apply (apart (a ++ k) []). by rewrite app_nil_r, Hk, app_assoc.
Qed.

Lemma fs1_dest relative : relative ≠ [] → nodes fs1 !! (dest ++ relative) = nodes fs !! (dest ++ relative).
Proof.
  intros Hne. destruct (fs1_lookup (dest ++ relative)) as [|(_ & [k Hk] & _)]; [done|].
  exfalso. apply (f_equal length) in Hk. rewrite !length_app in Hk.
  destruct relative; [done|]. cbn in Hk. lia.
Qed.

Lemma fs1_plain : plain (nodes fs1).
Proof.
  intros p n. destruct (fs1_lookup p) as [->|(_ & _ & ->)]; [apply Htidy|by intros [= <-]].
Qed.

Lemma fs1_reachable : reachable (nodes fs1) dest.
Proof.
  intros q Hq. unfold fs1, with_dest. rewrite exists_dest. case_bool_decide as Hd.
  - destruct Hd as [n Hn]. destruct Hq as [k ->]. destruct k as [|c k].
    { rewrite app_nil_r in Hn. eauto. }
    destruct (tidy_above fs q (c :: k) n) as (d & Hd & _); eauto.
  - cbn. rewrite with_dirs_lookup by done. destruct (nodes fs !! q); [eauto|].
    rewrite decide_True by done. eauto.
Qed.

Lemma dest_allowed : ensure_missing_destination_parent_allowed fs dest (o_mkpath options) = Ok tt.
Proof.
  unfold ensure_missing_destination_parent_allowed. rewrite exists_dest.
  unfold dest_possible in Hpossible. destruct (nodes fs !! dest) eqn:Hn.
  { rewrite (bool_decide_true (is_Some _)) by eauto. by rewrite orb_true_r. }
  destruct Hpossible as [->|(q & name & n & -> & Hq & Ht)]; [done|].
  case_match; [done|]. unfold non_empty_parent. rewrite parent_snoc.
  apply portable_app in Hdest as [Hp _]. destruct q as [|c q]; [done|]. cbn.
  rewrite metadata_at, Hq by done. cbn. fold (node_type n). by rewrite Ht.
Qed.

Lemma create_dest s :
  fs_of s = fs →
  ∃ more, create_missing_dest dest options s = (Ok tt, add_actions more (set_fs fs1 s)).
Proof.
  intros Hs. unfold create_missing_dest, fs1, with_dest.
  rewrite (bind_ok get _ s s s), Hs by done. destruct (path_exists fs dest).
  - exists []. rewrite add_actions_nil. unfold mret, M_ret. f_equal. rewrite <-Hs. by destruct s.
  - exists [CreateDir dest]. unfold unless_dry. rewrite (copies_wet _ Hcopies).
    rewrite (bind_ok _ _ s tt (add_actions [CreateDir dest] s)) by done.
    erewrite act_ok; [|cbn; rewrite Hs; apply create_dir_all_plain; [apply Htidy|done]]. done.
Qed.

(** The entries that the walk found are those of the tree. *)
Variable entries : gmap PathBuf WalkEntry.
Hypothesis Hwalk : ∀ relative,
  entries !! relative = tree_entry fs source (Some (o_filter_rules options)) relative.
Hypothesis Hkinds : ∀ relative e, entries !! relative = Some e →
  (file_type (entry_metadata e) = File ∨ file_type (entry_metadata e) = Directory) ∧
  0 ≤ len (entry_metadata e) < 2 ^ 64.
Hypothesis Htypes : ∀ relative e n, entries !! relative = Some e →
  nodes fs !! (dest ++ relative) = Some n → node_type n = file_type (entry_metadata e).

Lemma entries_inv relative e : entries !! relative = Some e →
  relative ≠ [] ∧ portable relative ∧
  ∃ sn, nodes fs !! (source ++ relative) = Some sn ∧
    e = {| entry_path := source ++ relative; entry_metadata := node_metadata sn |} ∧
    (node_type sn = File ∨ node_type sn = Directory) ∧ 0 ≤ len (node_metadata sn) < 2 ^ 64.
Proof.
  intros He. destruct (Hkinds _ _ He) as [Hk Hlen]. rewrite Hwalk in He.
  apply tree_entry_inv in He as (Hne & sn & Hsn & -> & _). split_and!; [done| |eauto].
  apply (tidy_portable _ Htidy) in Hsn. by apply portable_app in Hsn as [_ ?].
Qed.

Definition dirs : list (PathBuf * WalkEntry) := directories_of dest (btree_iter entries).

Lemma elem_of_dirs target e :
  (target, e) ∈ dirs ↔ ∃ relative, target = dest ++ relative ∧
    entries !! relative = Some e ∧ file_type (entry_metadata e) = Directory.
Proof.
  unfold dirs, directories_of. rewrite list_elem_of_omap. split.
  - intros ([r x] & Hin%elem_of_btree_iter & Hx). cbn in Hx. case_bool_decide; [|done].
    injection Hx as <- <-. eauto.
  - intros (r & -> & Hr & Ht). exists (r, e). split; [by apply elem_of_btree_iter|].
    cbn. by rewrite bool_decide_true.
Qed.

Lemma NoDup_dirs : NoDup dirs.*1.
Proof.
  unfold dirs, directories_of. pose proof (NoDup_btree_keys entries) as Hkeys.
  unfold btree_keys in Hkeys. induction (btree_iter entries) as [|[r x] l IH]; [constructor|].
  cbn in *. apply NoDup_cons in Hkeys as [Hno Hkeys]. case_bool_decide; [|auto]. cbn.
  apply NoDup_cons. split; [|auto]. intros (y & Hy & Hin)%list_elem_of_fmap.
  apply list_elem_of_omap in Hin as ([r' x'] & Hin & Hsome). cbn in Hsome.
  case_bool_decide; [|done]. injection Hsome as <-. cbn in Hy. apply app_inv_head in Hy as ->.
  apply Hno. by apply (list_elem_of_fmap_2 fst _ (r', x')).
Qed.

(** The loop, from the state it starts in. *)
Lemma tree_loop clock n dest_entries s :
  fs_of s = fs1 → delayed_transfers s = [] → directory_mtimes s = [] →
  ∃ s', sync_entries clock n dest entries dest_entries options (btree_iter entries) s = (Ok tt, s') ∧
        after_turns options dest fs1 (btree_iter entries) s'.
Proof.
  intros Hs Hdel Hdirs. apply (loop_spec options source dest fs1 entries Hcopies Hsource Hdest)
    with (turns := []); try done.
  - apply fs1_plain.
  - apply apart.
  - apply fs1_reachable.
  - intros relative e He. destruct (entries_inv _ _ He) as (Hne & Hp & sn & Hsn & Hrest).
    split_and!; [done..|]. exists sn. by rewrite fs1_source.
  - intros p q e Hp Hq. rewrite !Hwalk. by apply tree_entry_parent.
  - intros relative e n' He. destruct (entries_inv _ _ He) as (Hne & _).
    rewrite fs1_dest by done. by apply Htypes.
  - split; [by rewrite Hs|done..].
Qed.

Lemma turn_final relative e :
  entries !! relative = Some e →
  (if bool_decide (file_type (entry_metadata e) = Directory)
   then stamped options (entry_metadata e) <$> turn_outcome options dest fs1 relative e
   else turn_outcome options dest fs1 relative e) = final_node options fs dest relative e.
Proof.
  intros He. destruct (entries_inv _ _ He) as (Hne & Hp & sn & Hsn & Hentry & Ht & _).
  unfold turn_outcome, final_node. rewrite fs1_dest by done.
  case_bool_decide as Hd; [done|].
  assert (Hse : nodes fs !! entry_path e = Some sn) by by rewrite Hentry.
  assert (Hse1 : nodes fs1 !! entry_path e = Some sn) by (rewrite Hentry; cbn; by rewrite fs1_source).
  assert (Hf : node_type sn = File) by (destruct Ht; [done|by rewrite Hentry in Hd]).
  destruct (needs_update_same options fs fs1 e (dest ++ relative) sn) as [-> _]; try done.
  - rewrite Hentry. by apply portable_app.
  - by apply portable_app.
  - by apply fs1_dest.
  - unfold source_bytes. by rewrite Hse, Hse1.
Qed.

(** The times of the directories come last. *)
Lemma tree_finish s :
  after_turns options dest fs1 (btree_iter entries) s →
  ∃ s', preserve_directory_mtimes (directory_mtimes s) options s = (Ok tt, s') ∧
    (∀ relative e, entries !! relative = Some e →
       nodes (fs_of s') !! (dest ++ relative) = final_node options fs dest relative e) ∧
    (∀ p, (∀ relative e, entries !! relative = Some e → p ≠ dest ++ relative) →
       nodes (fs_of s') !! p = nodes fs1 !! p).
Proof.
  intros [Hnodes _ Hdirs]. unfold preserve_directory_mtimes. rewrite Hdirs. fold dirs.
  assert (Hat : ∀ relative e, entries !! relative = Some e →
    applied options dest fs1 (btree_iter entries) !! (dest ++ relative) =
    turn_outcome options dest fs1 relative e).
  { intros relative e He. apply applied_turn; [apply NoDup_btree_keys|by apply elem_of_btree_iter]. }
  assert (Hrev : ∀ x, x ∈ rev dirs ↔ x ∈ dirs).
  { intros x. by rewrite !list_elem_of_In, <-in_rev. }
  assert (Hnodup : NoDup (rev dirs).*1).
  { eapply NoDup_Permutation_proper; [|apply NoDup_dirs]. apply fmap_Permutation.
    symmetry. apply Permutation_rev. }
  destruct (stamp_directories options Hcopies (rev dirs) s) as (s' & Hrun & Hnodes').
  { intros [target e]. rewrite Hrev, elem_of_dirs. intros (relative & -> & He & Ht).
    destruct (entries_inv _ _ He) as (_ & Hp & _). cbn. split; [by apply portable_app|].
    rewrite Hnodes, (Hat _ _ He). unfold turn_outcome. rewrite bool_decide_true by done. eauto. }
  exists s'. split; [done|]. rewrite Hnodes', Hnodes. split.
  - intros relative e He. rewrite <-(turn_final relative e He). case_bool_decide as Hd.
    + rewrite (stamp_all_at _ _ _ _ e) by
        (done || (apply Hrev, elem_of_dirs; eauto)). by rewrite (Hat _ _ He).
    + rewrite stamp_all_other; [by apply (Hat _ _ He)|].
      intros ([t x] & Heq & Hin)%list_elem_of_fmap. cbn in Heq. subst t.
      apply Hrev, elem_of_dirs in Hin as (r & <-%app_inv_head & Hr & Ht). congruence.
  - intros p Hp. rewrite stamp_all_other.
    + apply applied_other. intros relative Heq Hin.
      apply list_elem_of_fmap in Hin as ([r x] & -> & Hin%elem_of_btree_iter).
      by apply (Hp r x Hin).
    + intros ([t x] & -> & Hin)%list_elem_of_fmap.
      apply Hrev, elem_of_dirs in Hin as (r & -> & Hr & Ht). by apply (Hp r x Hr).
Qed.
End tree.

(** What a plain copy makes of each path. *)
Lemma tree_outcome `{Platform} fuel clock source dest options fs d :
  copies options → tidy fs → no_merge (Some (o_filter_rules options)) →
  portable source → portable dest → ¬ source `prefix_of` dest → ¬ dest `prefix_of` source →
  nodes fs !! source = Some d → node_type d = Directory → (tree_depth fs < fuel)%nat →
  dest_possible options fs dest →
  (∀ relative e, tree_entry fs source (Some (o_filter_rules options)) relative = Some e →
     (file_type (entry_metadata e) = File ∨ file_type (entry_metadata e) = Directory) ∧
     0 ≤ len (entry_metadata e) < 2 ^ 64 ∧
     ∀ n, nodes fs !! (dest ++ relative) = Some n → node_type n = file_type (entry_metadata e)) →
  ∃ report fs', sync_tree fuel clock source dest options fs = (Ok report, fs') ∧
    (∀ relative e, tree_entry fs source (Some (o_filter_rules options)) relative = Some e →
       nodes fs' !! (dest ++ relative) = final_node options fs dest relative e) ∧
    (∀ p, (∀ relative e, tree_entry fs source (Some (o_filter_rules options)) relative = Some e →
                         p ≠ dest ++ relative) →
       nodes fs' !! p = nodes fs !! p ∨
       nodes fs !! p = None ∧ p `prefix_of` dest ∧ nodes fs' !! p = Some directory_node).
Proof.
  intros Hc Htidy Hrules Hsource Hdest Hin Hout Hd Ht Hfuel Hposs Hentries.
  set (s0 := {| fs_of := fs; actions := []; delayed_transfers := []; hardlink_targets := ∅;
                directory_mtimes := [] |}).
  destruct (walk_outcome fuel fs source (Some (o_filter_rules options))
    (o_symlink_mode options) (o_one_file_system options) d) as (entries & Hrun & Hwalk); [done..|].
  assert (∃ dest_entries, (if path_exists fs dest
    then relative_entries fuel fs dest None true Preserve (o_one_file_system options)
    else Ok ∅) = Ok dest_entries) as [dest_entries Hdest_entries].
  { rewrite exists_dest by done. case_bool_decide as Hex; [|eauto]. destruct Hex as [n Hn].
    unfold dest_possible in Hposs. rewrite Hn in Hposs.
    destruct (walk_outcome fuel fs dest None Preserve (o_one_file_system options) n)
      as (m & Hm & _); [done..|]. eauto. }
  assert (Hbody : ∃ s', sync_directory_tree fuel clock source dest options s0 = (Ok tt, s') ∧
    (∀ relative e, entries !! relative = Some e →
       nodes (fs_of s') !! (dest ++ relative) = final_node options fs dest relative e) ∧
    (∀ p, (∀ relative e, entries !! relative = Some e → p ≠ dest ++ relative) →
       nodes (fs_of s') !! p = nodes (fs1 dest fs) !! p)).
  { unfold sync_directory_tree, keep_files_from, preflight, deletes_early, deletes_late.
    rewrite (copies_recursive _ Hc), (copies_all _ Hc), (copies_preflight _ Hc),
      (copies_delete _ Hc).
    rewrite (bind_ok _ _ s0 entries s0) by (unfold inspect; cbn [fs_of s0]; by rewrite Hrun).
    rewrite (bind_ok _ _ s0 tt s0) by done.
    rewrite (bind_ok _ _ s0 dest_entries s0) by (unfold inspect; cbn [fs_of s0]; by rewrite Hdest_entries).
    rewrite (bind_ok _ _ s0 tt s0) by (unfold inspect; cbn [fs_of s0]; by erewrite dest_allowed by done).
    destruct (create_dest options dest fs Hc Htidy Hdest s0 eq_refl) as [more Hcreate].
    rewrite (bind_ok _ _ _ _ _ Hcreate), bind_ret.
    destruct (tree_loop options source dest fs Hc Htidy Hsource Hdest Hin Hout Hposs entries Hwalk)
      with (clock := clock) (n := 0%nat) (dest_entries := dest_entries)
           (s := add_actions more (set_fs (fs1 dest fs) s0)) as (s1 & Hloop & Hs1); try done.
    { intros relative e. rewrite Hwalk. intros He. by destruct (Hentries _ _ He) as (? & ? & _). }
    { intros relative e n. rewrite Hwalk. intros He. destruct (Hentries _ _ He) as (_ & _ & ?). auto. }
    rewrite (bind_ok _ _ _ _ _ Hloop). rewrite (bind_ok get _ s1 s1 s1) by done.
    rewrite (after_delayed _ _ _ _ _ Hs1).
    rewrite (bind_ok _ _ s1 None s1) by done. rewrite bind_ret.
    rewrite (bind_ok get _ s1 s1 s1) by done.
    apply (tree_finish options source dest fs); try done.
    intros relative e. rewrite Hwalk. intros He. by destruct (Hentries _ _ He) as (? & ? & _). }
  destruct Hbody as (s' & Hbody & Hat & Helse).
  exists (actions s'), (fs_of s'). split.
  { unfold sync_tree, run_sync. fold s0.
    rewrite (bind_ok _ _ s0 tt s0).
    2:{ unfold inspect, inside. cbn. unfold memory_resolve_path_for_prefix_check.
        rewrite !normalize_portable by done. cbn. rewrite bool_decide_false.
        2:{ intros ->. by apply Hin. }
        destruct (path_starts_with dest source) eqn:Hst; [|done].
        apply path_starts_with_spec in Hst as [k ->]. exfalso. apply Hin. by eexists. }
    rewrite (bind_ok _ _ s0 (node_metadata d) s0)
      by (unfold inspect; cbn; by rewrite metadata_at, Hd).
    fold (node_type d). rewrite Ht, bool_decide_false by done. by rewrite Hbody. }
  split.
  - intros relative e. rewrite <-Hwalk. apply Hat.
  - intros p Hp. rewrite Helse; [by apply fs1_lookup|].
    intros relative e. rewrite Hwalk. apply Hp.
Qed.

(** C9. A plain copy of a directory into one that does not overlap it, on a file system in
    memory without links, whose entries stand in no conflict of type: the sync succeeds;
    each file and directory of the source that no rule hides ends at its place below the
    destination, copied when [file_needs_update] says so and else kept, with the time of
    its source when times are kept; and nothing else changes but for the directories
    made on the way to the destination. *)
Theorem sync_copies_the_tree `{Platform} fuel clock source dest options fs d :
  copies options → tidy fs → no_merge (Some (o_filter_rules options)) →
  portable source → portable dest → ¬ source `prefix_of` dest → ¬ dest `prefix_of` source →
  nodes fs !! source = Some d → node_type d = Directory → (tree_depth fs < fuel)%nat →
  dest_possible options fs dest →
  (∀ relative e, tree_entry fs source (Some (o_filter_rules options)) relative = Some e →
     (file_type (entry_metadata e) = File ∨ file_type (entry_metadata e) = Directory) ∧
     0 ≤ len (entry_metadata e) < 2 ^ 64 ∧
     ∀ n, nodes fs !! (dest ++ relative) = Some n → node_type n = file_type (entry_metadata e)) →
  ∃ report fs', sync_tree fuel clock source dest options fs = (Ok report, fs') ∧
    (∀ relative e, tree_entry fs source (Some (o_filter_rules options)) relative = Some e →
       nodes fs' !! (dest ++ relative) = final_node options fs dest relative e) ∧
    (∀ p, (∀ relative e, tree_entry fs source (Some (o_filter_rules options)) relative = Some e →
                         p ≠ dest ++ relative) →
       nodes fs' !! p = nodes fs !! p ∨
       nodes fs !! p = None ∧ p `prefix_of` dest ∧ nodes fs' !! p = Some directory_node).
Proof. apply tree_outcome. Qed.

#[local] Instance unix : Platform := false.

Local Abbreviation p := (λ s, parse_path (lit s)).

(** Files and directories only, of a size that a length can hold, outside [dst]. *)
Definition ordinary_node (x : PathBuf * MemoryNode) : bool :=
  let '(q, node) := x in
  match node_type node with File | Directory => true | _ => false end &&
  (0 <=? len (node_metadata node)) && (len (node_metadata node) <? 2 ^ 64) &&
  negb (path_starts_with q (p "dst")).

(** A copy that is made, and not only reported. *)
Definition wet_options : SyncOptions :=
  {| o_recursive := true; o_delete := false; o_delete_mode := NoDelete;
     o_preserve_mtime := true; o_omit_dir_times := false; o_dry_run := false;
     o_filter_rules := []; o_destination_path_preflight := None;
     o_update_mode := QuickCheck; o_files_from := None; o_file_write_mode := Atomic;
     o_keep_partial := false; o_partial_dir := None; o_temp_dir := None;
     o_delay_updates := false; o_fsync := false; o_append_verify := false;
     o_symlink_mode := Skip; o_transfer_dirs := false; o_mkpath := false;
     o_relative_paths := false; o_implied_dirs := true; o_one_file_system := false;
     o_skip_newer_receiver := false; o_existing_only := false; o_ignore_existing := false;
     o_max_size := None; o_min_size := None; o_modify_window := 0;
     o_ignore_missing_args := false; o_delete_missing_args := false;
     o_delete_excluded := false; o_ignore_errors := false; o_force_delete := false;
     o_max_delete := None; o_backup := false; o_backup_dir := None;
     o_backup_suffix := lit "~"; o_preserve_hard_links := false; o_keep_dirlinks := false;
     o_preserve_devices := false; o_preserve_specials := false;
     o_fail_on_metadata_loss := false; o_compare_dest := []; o_copy_dest := [];
     o_link_dest := []; o_sparse := false; o_preallocate := false; o_fuzzy := false;
     o_bwlimit := None; o_max_alloc := None; o_stop_deadline := None |}.

Lemma sync_copies_the_tree_witness :
  ∃ report fs', sync_tree 9 (λ _, 0) (p "src") (p "dst") wet_options small_tree = (Ok report, fs') ∧
    nodes fs' !! (p "dst" ++ p "d/b") = Some (file_node [3]).
Proof.
  assert (Hcheck : ∀ q node, nodes small_tree !! q = Some node → ordinary_node (q, node) = true).
  { intros q node. apply map_check. vm_compute. reflexivity. }
  destruct (sync_copies_the_tree 9 (λ _, 0) (p "src") (p "dst") wet_options small_tree directory_node)
    as (report & fs' & Hrun & Hat & _).
  - by split.
  - apply small_tree_tidy.
  - constructor.
  - by repeat constructor.
  - by repeat constructor.
  - by intros [? [=]].
  - by intros [? [=]].
  - vm_compute. reflexivity.
  - vm_compute. reflexivity.
  - vm_compute. lia.
  - right. exists [], (lit "dst"), directory_node. by vm_compute.
  - intros relative e He. apply tree_entry_inv in He as (_ & sn & Hsn & -> & _). cbn.
    pose proof (Hcheck _ _ Hsn) as Hn. unfold ordinary_node in Hn. rewrite !andb_true_iff in Hn.
    fold (node_type sn). split_and!; [destruct (node_type sn); naive_solver|lia..|].
    intros n Hnode. apply Hcheck in Hnode. unfold ordinary_node in Hnode.
    rewrite !andb_true_iff, negb_true_iff in Hnode. destruct Hnode as [_ Hno].
    rewrite (proj2 (path_starts_with_spec _ _)) in Hno by by eexists. done.
  - exists report, fs'. split; [exact Hrun|].
    rewrite (Hat (p "d/b") {| entry_path := p "src/d/b"; entry_metadata := file_metadata 1 |});
      vm_compute; reflexivity.
Defined.
