(* ===== verification/SyncAgain.v ===== *)
(** * A second sync

    A plain copy that has succeeded leaves nothing for a second one to do; a receiver's
    newer file, however, is only safe from the first. *)

From stdpp Require Import sorting.
From S2P Require Import Prelude Str Filter FsPath Metadata FileSystem MemoryFs MemoryFsFacts SyncPlan SyncWalk SyncDeletes SyncWalkFacts Sync SyncCopy SyncOutcome.

Lemma stamped_idemp options source node :
  stamped options source (stamped options source node) = stamped options source node.
Proof. unfold stamped. repeat case_match; naive_solver. Qed.

Lemma mtimes_equal_refl t window : mtimes_equal t t window = true.
Proof.
  unfold mtimes_equal. rewrite Z.sub_diag. case_match; [apply Z.eqb_refl|].
  apply Z.leb_le. apply Z.ltb_ge in H. by apply Z.le_trans with 0.
Qed.

(** The options under which a file that is in place is left alone. *)
Record settles (o : SyncOptions) : Prop := {
  settles_times : o_preserve_mtime o = true;
  settles_newer : o_skip_newer_receiver o = false;
  settles_mode : o_update_mode o ≠ IgnoreTimes;
}.

Section again.
Context `{Platform}.
Variables (options : SyncOptions).
Hypothesis Hsettles : settles options.

(** A file with the time and the length of its source, and with its bytes where they are
    compared, is not copied. *)
Lemma in_place (fs : MemoryFileSystem) e target sn n time :
  portable (entry_path e) → portable target →
  nodes fs !! entry_path e = Some sn → entry_metadata e = node_metadata sn → node_type sn = File →
  nodes fs !! target = Some n → node_type n = File →
  modified (node_metadata sn) = Some time → modified (node_metadata n) = Some time →
  len (node_metadata n) = len (node_metadata sn) →
  (o_update_mode options = Checksum → node_bytes n = node_bytes sn) →
  file_needs_update fs e target options = Ok false.
Proof.
  intros Hsp Hp Hsn He Ht Hn Hnt Hm Hm' Hlen Hbytes. destruct Hsettles as [_ Hnewer Hmode].
  unfold file_needs_update. cbn. rewrite He, Hnewer, metadata_at, Hn by done. cbn.
  fold (node_type n). rewrite Hnt, Hm, Hm', Hlen.
  destruct (from_option _ _ _); [done|]. destruct (from_option _ _ _); [done|].
  rewrite bool_decide_false by auto. destruct (o_ignore_existing options); [done|].
  rewrite Z.eqb_refl. cbn. destruct (o_update_mode options); try done.
  - by rewrite mtimes_equal_refl.
  - unfold default_files_equal. rewrite !metadata_at, Hsn, Hn by done. cbn.
    rewrite Hlen, Z.eqb_refl. cbn.
    rewrite (read_plain fs _ sn), (read_plain fs _ n) by done. cbn.
    by rewrite Hbytes, bool_decide_true.
Qed.

(** What is known of a file that is there and is not copied. *)
Lemma not_needed (fs fs' : MemoryFileSystem) e target sn n n' :
  portable (entry_path e) → portable target →
  nodes fs !! entry_path e = Some sn → entry_metadata e = node_metadata sn → node_type sn = File →
  nodes fs' !! entry_path e = Some sn →
  nodes fs !! target = Some n → node_type n = File →
  nodes fs' !! target = Some n' → node_type n' = File →
  file_needs_update fs e target options = Ok false →
  file_needs_update fs' e target options = Ok false ∨
  len (node_metadata n) = len (node_metadata sn) ∧
  (o_update_mode options = Checksum → node_bytes n = node_bytes sn).
Proof.
  intros Hsp Hp Hsn He Ht Hsn' Hn Hnt Hn' Hnt'. destruct Hsettles as [_ Hnewer Hmode].
  unfold file_needs_update. cbn. rewrite Hnewer, !metadata_at, Hn, Hn' by done. cbn.
  fold (node_type n) (node_type n'). rewrite Hnt, Hnt', He.
  destruct (from_option _ _ _); [by left|]. destruct (from_option _ _ _); [by left|].
  rewrite !bool_decide_false by auto. destruct (o_ignore_existing options); [by left|].
  intros Hno. right. revert Hno. cbn. destruct (o_update_mode options); [..|done].
  - intros [= [Hl _]%orb_false_iff]. split; [|done]. apply negb_false_iff, Z.eqb_eq in Hl. lia.
  - unfold default_files_equal. rewrite !metadata_at, Hsn, Hn by done. cbn.
    destruct (len (node_metadata sn) =? len (node_metadata n)) eqn:Hl; cbn; [|done].
    rewrite (read_plain fs _ sn), (read_plain fs _ n) by done. cbn.
    intros [= Hb]. apply negb_false_iff, bool_decide_eq_true in Hb. split; [lia|done].
  - intros [= Hl]. split; [|done]. apply negb_false_iff, Z.eqb_eq in Hl. lia.
Qed.
End again.

(** What a tree's entries are like for the tests of a second run to find them in place:
    files with a time and their true length, and directories, over nothing else. *)
Definition entries_settle `{Platform} (options : SyncOptions) (source dest : PathBuf)
    (fs : MemoryFileSystem) : Prop :=
  ∀ relative e, tree_entry fs source (Some (o_filter_rules options)) relative = Some e →
    (file_type (entry_metadata e) = File ∨ file_type (entry_metadata e) = Directory) ∧
    0 ≤ len (entry_metadata e) < 2 ^ 64 ∧
    (file_type (entry_metadata e) = File → is_Some (modified (entry_metadata e)) ∧
       len (entry_metadata e) = Z.of_nat (length (source_bytes fs e))) ∧
    ∀ n, nodes fs !! (dest ++ relative) = Some n → node_type n = file_type (entry_metadata e).

Section second.
Context `{Platform}.
Variables (options : SyncOptions) (source dest : PathBuf) (fs fs' : MemoryFileSystem).
Variables (d dd : MemoryNode).
Hypothesis Htidy : tidy fs.
Hypothesis Hsource : portable source.
Hypothesis Hdest : portable dest.
Hypothesis Hnot_in : ¬ source `prefix_of` dest.
Hypothesis Hnot_out : ¬ dest `prefix_of` source.
Hypothesis Hd : nodes fs !! source = Some d.
Hypothesis Hdd : nodes fs !! dest = Some dd.
Hypothesis Hddt : node_type dd = Directory.

Local Abbreviation entry := (tree_entry fs source (Some (o_filter_rules options))).

Hypothesis Hentries : entries_settle options source dest fs.
Hypothesis Hat : ∀ relative e, entry relative = Some e →
  nodes fs' !! (dest ++ relative) = final_node options fs dest relative e.
Hypothesis Helse : ∀ p, (∀ relative e, entry relative = Some e → p ≠ dest ++ relative) →
  nodes fs' !! p = nodes fs !! p ∨
  nodes fs !! p = None ∧ p `prefix_of` dest ∧ nodes fs' !! p = Some directory_node.

Lemma same_elsewhere p :
  (∀ relative e, entry relative = Some e → p ≠ dest ++ relative) → nodes fs' !! p = nodes fs !! p.
Proof.
  intros Hp. destruct (Helse p Hp) as [|(Hno & [k Hk] & _)]; [done|]. exfalso.
  destruct k as [|c k]; [rewrite app_nil_r in Hk; congruence|]. rewrite Hk in Hdd.
  apply (tidy_above fs) in Hdd as (x & Hx & _); [congruence|done..].
Qed.

Lemma same_source a : nodes fs' !! (source ++ a) = nodes fs !! (source ++ a).
Proof. apply same_elsewhere. intros relative e _. by apply apart. Qed.

Lemma same_tree relative :
  tree_entry fs' source (Some (o_filter_rules options)) relative = entry relative.
Proof. unfold tree_entry. by rewrite same_source. Qed.

(** Where an entry goes, decided. *)
Lemma at_target p :
  (∃ relative e, entry relative = Some e ∧ p = dest ++ relative) ∨
  (∀ relative e, entry relative = Some e → p ≠ dest ++ relative).
Proof.
  destruct (decide (dest `prefix_of` p)) as [[relative ->]|Hno].
  - destruct (entry relative) as [e|] eqn:He; [left; eauto|right].
    intros r e Hr ->%app_inv_head. congruence.
  - right. intros relative e _ ->. apply Hno. by eexists.
Qed.

Lemma final_node_kind relative e n :
  entry relative = Some e → final_node options fs dest relative e = Some n →
  node_type n = file_type (entry_metadata e) ∧ symlink_target (node_metadata n) = None.
Proof.
  intros He. destruct (Hentries _ _ He) as (Hk & _ & _ & Hold).
  assert (Htarget : ∀ o, nodes fs !! (dest ++ relative) = Some o → symlink_target (node_metadata o) = None)
    by (intros o; apply (tidy_target _ Htidy)).
  assert (Hstamp : ∀ o, symlink_target (node_metadata (stamped options (entry_metadata e) o)) =
                        symlink_target (node_metadata o))
    by (intros o; unfold stamped; by repeat case_match).
  unfold final_node. case_bool_decide as Hdir.
  - intros [= <-]. rewrite stamped_type, Hstamp.
    destruct (nodes fs !! (dest ++ relative)); cbn; [auto|by rewrite Hdir].
  - destruct Hk as [Hf|]; [|done]. rewrite Hf in *.
    destruct (file_needs_update _ _ _ _) as [[]|]; cbn; [..|auto].
    + intros [= <-]. by rewrite stamped_type, Hstamp.
    + rewrite fmap_Some. intros (o & Ho & ->). rewrite stamped_type, Hstamp. auto.
Qed.

Lemma directory_stays p x :
  nodes fs !! p = Some x → node_type x = Directory →
  ∃ y, nodes fs' !! p = Some y ∧ node_type y = Directory.
Proof.
  intros Hx Hxt. destruct (at_target p) as [(relative & e & He & ->)|Hno].
  - destruct (Hentries _ _ He) as (_ & _ & _ & Hold). rewrite (Hat _ _ He).
    assert (Hdir : file_type (entry_metadata e) = Directory) by (rewrite <-(Hold _ Hx); done).
    unfold final_node. rewrite bool_decide_true, Hx by done. eexists. split; [done|].
    by rewrite stamped_type.
  - rewrite same_elsewhere by done. eauto.
Qed.

Lemma tidy_again : tidy fs'.
Proof.
  assert (Hnode : ∀ p n, nodes fs' !! p = Some n →
    nodes fs !! p = Some n ∨ ∃ relative e, entry relative = Some e ∧ p = dest ++ relative ∧
      final_node options fs dest relative e = Some n).
  { intros p n Hn. destruct (at_target p) as [(relative & e & He & ->)|Hno].
    - right. exists relative, e. by rewrite <-(Hat _ _ He).
    - left. by rewrite <-(same_elsewhere _ Hno). }
  split.
  - intros p n Hn. destruct (Hnode p n Hn) as [?|(relative & e & He & -> & Hf)];
      [by eapply tidy_plain|].
    destruct (final_node_kind _ _ _ He Hf) as [-> _].
    by destruct (Hentries _ _ He) as ([->| ->] & _).
  - intros p n Hn. destruct (Hnode p n Hn) as [?|(relative & e & He & -> & Hf)];
      [by eapply tidy_portable|].
    apply tree_entry_inv in He as (_ & sn & Hsn & _). apply (tidy_portable _ Htidy) in Hsn.
    apply portable_app in Hsn as [_ ?]. by apply portable_app.
  - intros p c n Hn. destruct (Hnode _ n Hn) as [Hold|(relative & e & He & Hp & Hf)].
    + destruct (tidy_parent _ Htidy _ _ _ Hold) as (x & Hx & Hxt). by eapply directory_stays.
    + destruct relative as [|c' q] using rev_ind.
      { by apply tree_entry_inv in He as [? _]. }
      clear IHq. rewrite app_assoc in Hp. apply app_inj_tail in Hp as [-> ->].
      destruct (decide (q = [])) as [->|Hq].
      { rewrite app_nil_r. by eapply directory_stays. }
      destruct (tree_entry_parent fs source (Some (o_filter_rules options)) q [c'] e Htidy Hq)
        as (x & Hx & Hxt); [done..|].
      rewrite (Hat _ _ Hx). unfold final_node. rewrite bool_decide_true by done.
      eexists. split; [done|]. rewrite stamped_type.
      destruct (Hentries _ _ Hx) as (_ & _ & _ & Hold). rewrite Hxt in Hold.
      destruct (nodes fs !! (dest ++ q)); cbn; [auto|done].
  - intros p n Hn. destruct (Hnode p n Hn) as [?|(relative & e & He & -> & Hf)];
      [by eapply tidy_target|]. by destruct (final_node_kind _ _ _ He Hf).
Qed.

Hypothesis Hsettles : settles options.

(** The second outcome is the first. *)
Lemma settled relative e :
  entry relative = Some e →
  final_node options fs' dest relative e = nodes fs' !! (dest ++ relative).
Proof.
  intros He. rewrite (Hat _ _ He). pose proof He as Hinv.
  apply tree_entry_inv in Hinv as (Hne & sn & Hsn & Hentry & _).
  destruct (Hentries _ _ He) as (Hk & _ & Hfile & Hold).
  assert (Hp : portable relative).
  { apply (tidy_portable _ Htidy) in Hsn. by apply portable_app in Hsn as [_ ?]. }
  assert (Hsp : portable (entry_path e)) by (rewrite Hentry; by apply portable_app).
  assert (Htp : portable (dest ++ relative)) by by apply portable_app.
  assert (Hse : nodes fs !! entry_path e = Some sn) by by rewrite Hentry.
  assert (Hse' : nodes fs' !! entry_path e = Some sn) by (rewrite Hentry; cbn; by rewrite same_source).
  assert (Hmd : entry_metadata e = node_metadata sn) by by rewrite Hentry.
  pose proof (Hat _ _ He) as Hnew. revert Hnew. unfold final_node.
  case_bool_decide as Hdir.
  { intros ->. cbn. by rewrite stamped_idemp. }
  destruct Hk as [Hf|]; [|done]. destruct (Hfile Hf) as [[time Htime] Hlen].
  assert (Hsf : node_type sn = File) by (unfold node_type; by rewrite <-Hmd).
  assert (Hbytes : source_bytes fs e = node_bytes sn) by (unfold source_bytes; by rewrite Hse).
  rewrite Hmd in Htime. rewrite Hbytes, Hmd in Hlen.
  assert (Hstamp : ∀ o, modified (node_metadata (stamped options (entry_metadata e) o)) = Some time
            ∧ len (node_metadata (stamped options (entry_metadata e) o)) = len (node_metadata o)
            ∧ node_bytes (stamped options (entry_metadata e) o) = node_bytes o).
  { intros o. unfold stamped. rewrite (settles_times _ Hsettles), Hmd.
    rewrite bool_decide_false by (rewrite <-Hmd, Hf; done).
    by rewrite andb_false_r, Htime. }
  assert (Hkept : ∀ o, nodes fs' !! (dest ++ relative) = Some (stamped options (entry_metadata e) o) →
            file_needs_update fs' e (dest ++ relative) options = Ok false →
            match file_needs_update fs' e (dest ++ relative) options with
            | Ok needed => file_outcome options needed (entry_metadata e) (source_bytes fs' e)
                             (nodes fs' !! (dest ++ relative))
            | Err _ => nodes fs' !! (dest ++ relative)
            end = Some (stamped options (entry_metadata e) o)).
  { intros o -> ->. cbn. by rewrite stamped_idemp. }
  destruct (needs_update_same options fs fs e (dest ++ relative) sn) as [_ [needed Hneed]];
    [done..|].
  rewrite Hneed. destruct needed; cbn [file_outcome].
  - intros Hnew. apply Hkept; [done|]. destruct (Hstamp (file_node (source_bytes fs e))) as (? & Hl & Hb).
    eapply (in_place options Hsettles fs' e _ sn); eauto.
    + by rewrite stamped_type.
    + rewrite Hl. cbn. by rewrite Hbytes, <-Hlen.
    + intros _. by rewrite Hb.
  - destruct (nodes fs !! (dest ++ relative)) as [o|] eqn:Ho; cbn; intros Hnew.
    + apply Hkept; [done|]. destruct (Hstamp o) as (Hm & Hl & Hb).
      assert (Hot : node_type o = File) by (rewrite (Hold o eq_refl); done).
      destruct (not_needed options Hsettles fs fs' e (dest ++ relative) sn o
                  (stamped options (entry_metadata e) o)) as [?|[Hol Hob]]; try done;
        [by rewrite stamped_type|].
      eapply (in_place options Hsettles fs' e _ sn); eauto.
      * by rewrite stamped_type.
      * by rewrite Hl.
      * intros Hc. rewrite Hb. auto.
    + destruct (needs_update_same options fs fs' e (dest ++ relative) sn) as [Hsame _];
        [done..|by rewrite Ho|].
      rewrite Hsame, Hneed, Hnew. done.
Qed.
End second.

(** Two runs with the same options: the second finds the same entries, and its outcome
    is that of the first with the destination as it is now. *)
Lemma second_run `{Platform} fuel fuel' clock clock' source dest options fs d dd :
  copies options → tidy fs → no_merge (Some (o_filter_rules options)) →
  portable source → portable dest → ¬ source `prefix_of` dest → ¬ dest `prefix_of` source →
  nodes fs !! source = Some d → node_type d = Directory →
  nodes fs !! dest = Some dd → node_type dd = Directory → (tree_depth fs < fuel)%nat →
  entries_settle options source dest fs →
  ∃ report fs', sync_tree fuel clock source dest options fs = (Ok report, fs') ∧
    (∀ relative e, tree_entry fs source (Some (o_filter_rules options)) relative = Some e →
       nodes fs' !! (dest ++ relative) = final_node options fs dest relative e) ∧
    (∀ p, (∀ relative e, tree_entry fs source (Some (o_filter_rules options)) relative = Some e →
                         p ≠ dest ++ relative) → nodes fs' !! p = nodes fs !! p) ∧
    ((tree_depth fs' < fuel')%nat →
     ∃ report' fs'', sync_tree fuel' clock' source dest options fs' = (Ok report', fs'') ∧
       (∀ relative e, tree_entry fs source (Some (o_filter_rules options)) relative = Some e →
          nodes fs'' !! (dest ++ relative) = final_node options fs' dest relative e) ∧
       (∀ p, (∀ relative e, tree_entry fs source (Some (o_filter_rules options)) relative = Some e →
                            p ≠ dest ++ relative) → nodes fs'' !! p = nodes fs' !! p)).
Proof.
  intros Hc Htidy Hrules Hsource Hdest Hin Hout Hd Ht Hdd Hddt Hfuel Hentries.
  destruct (tree_outcome fuel clock source dest options fs d)
    as (report & fs' & Hrun & Hat & Helse); try done.
  { unfold dest_possible. by rewrite Hdd. }
  { intros relative e He. destruct (Hentries _ _ He) as (? & ? & _ & ?). done. }
  assert (Hother := same_elsewhere options source dest fs fs' dd Htidy Hdd Helse).
  exists report, fs'. split_and!; [done..|]. intros Hfuel'.
  assert (Htree : ∀ relative, tree_entry fs' source (Some (o_filter_rules options)) relative =
                              tree_entry fs source (Some (o_filter_rules options)) relative)
    by (intros; by eapply same_tree).
  destruct (directory_stays options source dest fs fs' dd) with (p := dest) (x := dd)
    as (dd' & Hdd' & Hddt'); try done.
  assert (Htidy' : tidy fs') by by eapply tidy_again.
  destruct (tree_outcome fuel' clock' source dest options fs' d)
    as (report' & fs'' & Hrun' & Hat' & Helse'); try done.
  { rewrite <-(app_nil_r source). erewrite same_source; [by rewrite app_nil_r|done..]. }
  { unfold dest_possible. by rewrite Hdd'. }
  { intros relative e. rewrite Htree. intros He. destruct (Hentries _ _ He) as (Hk & Hl & _ & _).
    split_and!; [done|lia..|]. intros n. rewrite (Hat _ _ He). intros Hn.
    by apply (final_node_kind options source dest fs Htidy Hentries relative). }
  exists report', fs''. split_and!; [done|..].
  - intros relative e He. apply Hat'. by rewrite Htree.
  - intros p Hno. apply (same_elsewhere options source dest fs' fs'' dd' Htidy' Hdd' Helse').
    intros relative e. rewrite Htree. apply Hno.
Qed.

(** C10. After a plain copy that keeps times and does not skip newer files, a second one with
    the same options changes no node of the file system: every entry is in place. *)
Theorem second_sync_changes_nothing `{Platform} fuel fuel' clock clock' source dest options fs d dd :
  copies options → settles options → tidy fs → no_merge (Some (o_filter_rules options)) →
  portable source → portable dest → ¬ source `prefix_of` dest → ¬ dest `prefix_of` source →
  nodes fs !! source = Some d → node_type d = Directory →
  nodes fs !! dest = Some dd → node_type dd = Directory → (tree_depth fs < fuel)%nat →
  entries_settle options source dest fs →
  ∃ report fs', sync_tree fuel clock source dest options fs = (Ok report, fs') ∧
    ((tree_depth fs' < fuel')%nat →
     ∃ report' fs'', sync_tree fuel' clock' source dest options fs' = (Ok report', fs'') ∧
       nodes fs'' = nodes fs').
Proof.
  intros Hc Hset Htidy Hrules Hsource Hdest Hin Hout Hd Ht Hdd Hddt Hfuel Hentries.
  destruct (second_run fuel fuel' clock clock' source dest options fs d dd)
    as (report & fs' & Hrun & Hat & Helse & Hagain); try done.
  exists report, fs'. split; [done|]. intros Hfuel'.
  destruct (Hagain Hfuel') as (report' & fs'' & Hrun' & Hat' & Helse').
  exists report', fs''. split; [done|]. apply map_eq. intros p.
  destruct (at_target options source dest fs p) as [(relative & e & He & ->)|Hno]; [|auto].
  rewrite (Hat' relative e He).
  apply (settled options source dest fs fs' dd); (done || auto).
Qed.

(** A receiver's file that is newer than the source's, under the option that skips such
    files, keeps its bytes in the first run but not its time, so that a second run with
    the same options replaces it when the lengths differ. *)
Theorem newer_file_survives_one_run `{Platform} fuel fuel' clock clock' source dest options fs d dd
    relative e o time time' :
  copies options → tidy fs → no_merge (Some (o_filter_rules options)) →
  portable source → portable dest → ¬ source `prefix_of` dest → ¬ dest `prefix_of` source →
  nodes fs !! source = Some d → node_type d = Directory →
  nodes fs !! dest = Some dd → node_type dd = Directory → (tree_depth fs < fuel)%nat →
  entries_settle options source dest fs →
  o_skip_newer_receiver options = true → o_preserve_mtime options = true →
  o_max_size options = None → o_min_size options = None → o_ignore_existing options = false →
  o_update_mode options ≠ Checksum →
  tree_entry fs source (Some (o_filter_rules options)) relative = Some e →
  file_type (entry_metadata e) = File → nodes fs !! (dest ++ relative) = Some o →
  modified (entry_metadata e) = Some time → modified (node_metadata o) = Some time' → time < time' →
  len (node_metadata o) ≠ len (entry_metadata e) →
  ∃ report fs', sync_tree fuel clock source dest options fs = (Ok report, fs') ∧
    node_bytes <$> nodes fs' !! (dest ++ relative) = Some (node_bytes o) ∧
    ((tree_depth fs' < fuel')%nat →
     ∃ report' fs'', sync_tree fuel' clock' source dest options fs' = (Ok report', fs'') ∧
       node_bytes <$> nodes fs'' !! (dest ++ relative) = Some (source_bytes fs e)).
Proof.
  intros Hc Htidy Hrules Hsource Hdest Hin Hout Hd Ht Hdd Hddt Hfuel Hentries
    Hskip Htimes Hmax Hmin Hignore Hmode He Hfile Ho Htime Htime' Hlt Hlen.
  destruct (second_run fuel fuel' clock clock' source dest options fs d dd)
    as (report & fs' & Hrun & Hat & Helse & Hagain); try done.
  exists report, fs'. split; [done|].
  assert (Hot : node_type o = File).
  { destruct (Hentries _ _ He) as (_ & _ & _ & Hk). by rewrite (Hk o Ho). }
  assert (Hp : portable (dest ++ relative)) by by apply (tidy_portable _ Htidy) in Ho.
  assert (Hnew : nodes fs' !! (dest ++ relative) = Some (stamped options (entry_metadata e) o)).
  { rewrite (Hat _ _ He). unfold final_node. rewrite bool_decide_false, Ho by by rewrite Hfile.
    unfold file_needs_update. cbn. rewrite Hmax, Hmin, metadata_at, Ho by done. cbn.
    fold (node_type o). rewrite Hot, Hignore, Hskip, Htime, Htime'. cbn.
    by rewrite (proj2 (Z.ltb_lt _ _)). }
  assert (Hbytes : node_bytes (stamped options (entry_metadata e) o) = node_bytes o)
    by (unfold stamped; by repeat case_match).
  assert (Hstamp : modified (node_metadata (stamped options (entry_metadata e) o)) = Some time).
  { unfold stamped. rewrite Htimes, Hfile, bool_decide_false by done. by rewrite andb_false_r, Htime. }
  assert (Hsame : len (node_metadata (stamped options (entry_metadata e) o)) = len (node_metadata o))
    by (unfold stamped; by repeat case_match).
  split; [by rewrite Hnew; cbn; rewrite Hbytes|]. intros Hfuel'.
  destruct (Hagain Hfuel') as (report' & fs'' & Hrun' & Hat' & _).
  exists report', fs''. split; [done|]. rewrite (Hat' _ _ He). unfold final_node.
  rewrite bool_decide_false, Hnew by by rewrite Hfile.
  assert (Hneed : file_needs_update fs' e (dest ++ relative) options = Ok true).
  { unfold file_needs_update. cbn. rewrite Hmax, Hmin, metadata_at, Hnew by done. cbn.
    fold (node_type (stamped options (entry_metadata e) o)). rewrite stamped_type, Hot, Hignore, Hskip.
    rewrite Hstamp, Htime. cbn.
    rewrite Z.ltb_irrefl, Hsame, (proj2 (Z.eqb_neq _ _)) by auto. by destruct (o_update_mode options). }
  rewrite Hneed. cbn [file_outcome fmap option_fmap option_map].
  assert (Hsrc : source_bytes fs' e = source_bytes fs e).
  { unfold source_bytes. apply tree_entry_inv in He as (_ & sn & _ & -> & _). cbn.
    rewrite Helse; [done|]. intros r x _. by apply apart. }
  rewrite Hsrc. unfold stamped. by repeat case_match.
Qed.

(** ** Instances *)

#[local] Instance unix : Platform := false.

Local Abbreviation p := (λ s, parse_path (lit s)).

(** The small tree with times, and a destination that has an older and a newer file. *)
Definition timed_tree : MemoryFileSystem :=
  ((memory_set_mtime (p "src/a") 10;; memory_set_mtime (p "src/d/b") 20;;
    add_file (p "dst/a") [7];; memory_set_mtime (p "dst/a") 30) small_tree).2.

Definition settling_node (x : PathBuf * MemoryNode) : bool :=
  let '(q, node) := x in
  match node_type node with
  | File => bool_decide (is_Some (modified (node_metadata node)))
  | Directory => true
  | _ => false
  end && (len (node_metadata node) =? Z.of_nat (length (node_bytes node))) &&
  (len (node_metadata node) <? 2 ^ 64).

(** At the destination there is only the file [a]. *)
Definition dst_node (x : PathBuf * MemoryNode) : bool :=
  let '(q, node) := x in
  if path_starts_with q (p "dst")
  then bool_decide (q = p "dst") || bool_decide (q = p "dst/a") && bool_decide (node_type node = File)
  else true.

Lemma timed_tree_tidy : tidy timed_tree.
Proof. apply tidy_by_check. vm_compute. reflexivity. Qed.

Lemma timed_tree_settles options :
  o_filter_rules options = [] → entries_settle options (p "src") (p "dst") timed_tree.
Proof.
  intros Hrules relative e He. rewrite Hrules in He.
  apply tree_entry_inv in He as (Hne & sn & Hsn & -> & _).
  cbn [entry_path entry_metadata].
  assert (Hs : settling_node (p "src" ++ relative, sn) = true).
  { revert Hsn. apply map_check. vm_compute. reflexivity. }
  unfold settling_node in Hs. rewrite !andb_true_iff in Hs. destruct Hs as [[Hk Hl] Hb].
  fold (node_type sn). unfold source_bytes. cbn [entry_path]. rewrite Hsn.
  cbn [from_option].
  apply Z.eqb_eq in Hl. apply Z.ltb_lt in Hb.
  assert (Hkind : node_type sn = File ∨ node_type sn = Directory)
    by (clear -Hk; destruct (node_type sn); (by left) || (by right) || done).
  split; [exact Hkind|]. split; [clear -Hl Hb; lia|]. split.
  - intros Ht. rewrite Ht in Hk. apply bool_decide_eq_true in Hk. by split.
  - intros n Hn.
    assert (Hd : dst_node (p "dst" ++ relative, n) = true).
    { revert Hn. apply map_check. vm_compute. reflexivity. }
    unfold dst_node in Hd. rewrite (proj2 (path_starts_with_spec _ _)) in Hd by by eexists.
    rewrite orb_true_iff, andb_true_iff, !bool_decide_eq_true in Hd.
    destruct Hd as [Hd|[Hd Hf]].
    + rewrite <-(app_nil_r (p "dst")) in Hd at 2. by apply app_inv_head in Hd.
    + change (p "dst/a") with (p "dst" ++ p "a") in Hd. apply app_inv_head in Hd as ->.
      rewrite Hf. revert Hsn. vm_compute. by intros [= <-].
Qed.

Definition updating_options : SyncOptions :=
  {| o_recursive := true; o_delete := false; o_delete_mode := NoDelete;
     o_preserve_mtime := true; o_omit_dir_times := false; o_dry_run := false;
     o_filter_rules := []; o_destination_path_preflight := None;
     o_update_mode := QuickCheck; o_files_from := None; o_file_write_mode := Atomic;
     o_keep_partial := false; o_partial_dir := None; o_temp_dir := None;
     o_delay_updates := false; o_fsync := false; o_append_verify := false;
     o_symlink_mode := Skip; o_transfer_dirs := false; o_mkpath := false;
     o_relative_paths := false; o_implied_dirs := true; o_one_file_system := false;
     o_skip_newer_receiver := true; o_existing_only := false; o_ignore_existing := false;
     o_max_size := None; o_min_size := None; o_modify_window := 0;
     o_ignore_missing_args := false; o_delete_missing_args := false;
     o_delete_excluded := false; o_ignore_errors := false; o_force_delete := false;
     o_max_delete := None; o_backup := false; o_backup_dir := None;
     o_backup_suffix := lit "~"; o_preserve_hard_links := false; o_keep_dirlinks := false;
     o_preserve_devices := false; o_preserve_specials := false;
     o_fail_on_metadata_loss := false; o_compare_dest := []; o_copy_dest := [];
     o_link_dest := []; o_sparse := false; o_preallocate := false; o_fuzzy := false;
     o_bwlimit := None; o_max_alloc := None; o_stop_deadline := None |}.

Lemma second_sync_changes_nothing_witness :
  ∃ report fs', sync_tree 9 (λ _, 0) (p "src") (p "dst") wet_options timed_tree = (Ok report, fs') ∧
    ∃ report' fs'', sync_tree (S (tree_depth fs')) (λ _, 1) (p "src") (p "dst") wet_options fs' =
      (Ok report', fs'') ∧ nodes fs'' = nodes fs'.
Proof.
  set (fuel' := S (tree_depth
    (sync_tree 9 (λ _, 0) (p "src") (p "dst") wet_options timed_tree).2)).
  destruct (second_sync_changes_nothing 9 fuel' (λ _, 0) (λ _, 1) (p "src") (p "dst") wet_options
              timed_tree directory_node directory_node) as (report & fs' & Hrun & Hagain).
  - by split.
  - by split.
  - apply timed_tree_tidy.
  - constructor.
  - by repeat constructor.
  - by repeat constructor.
  - by intros [? [=]].
  - by intros [? [=]].
  - vm_compute. reflexivity.
  - vm_compute. reflexivity.
  - vm_compute. reflexivity.
  - vm_compute. reflexivity.
  - vm_compute. lia.
  - by apply timed_tree_settles.
  - exists report, fs'. split; [exact Hrun|].
    assert (Hf : fuel' = S (tree_depth fs')) by (unfold fuel'; by rewrite Hrun).
    rewrite Hf in Hagain. apply Hagain. apply Nat.lt_succ_diag_r.
Defined.

Lemma newer_file_survives_one_run_witness :
  ∃ report fs', sync_tree 9 (λ _, 0) (p "src") (p "dst") updating_options timed_tree = (Ok report, fs') ∧
    node_bytes <$> nodes fs' !! p "dst/a" = Some [7] ∧
    ∃ report' fs'', sync_tree (S (tree_depth fs')) (λ _, 1) (p "src") (p "dst") updating_options fs' =
      (Ok report', fs'') ∧ node_bytes <$> nodes fs'' !! p "dst/a" = Some [1; 2].
Proof.
  set (fuel' := S (tree_depth
    (sync_tree 9 (λ _, 0) (p "src") (p "dst") updating_options timed_tree).2)).
  destruct (newer_file_survives_one_run 9 fuel' (λ _, 0) (λ _, 1) (p "src") (p "dst")
              updating_options timed_tree directory_node directory_node (p "a")
              {| entry_path := p "src/a"; entry_metadata := with_modified (file_metadata 2) 10 |}
              {| node_metadata := with_modified (file_metadata 1) 30; node_bytes := [7] |} 10 30)
    as (report & fs' & Hrun & Hkept & Hagain).
  - by split.
  - apply timed_tree_tidy.
  - constructor.
  - by repeat constructor.
  - by repeat constructor.
  - by intros [? [=]].
  - by intros [? [=]].
  - vm_compute. reflexivity.
  - vm_compute. reflexivity.
  - vm_compute. reflexivity.
  - vm_compute. reflexivity.
  - vm_compute. lia.
  - by apply timed_tree_settles.
  - reflexivity.
  - reflexivity.
  - reflexivity.
  - reflexivity.
  - reflexivity.
  - discriminate.
  - vm_compute. reflexivity.
  - reflexivity.
  - vm_compute. reflexivity.
  - reflexivity.
  - reflexivity.
  - lia.
  - vm_compute. lia.
  - exists report, fs'. split; [exact Hrun|]. split; [exact Hkept|].
    assert (Hf : fuel' = S (tree_depth fs')) by (unfold fuel'; by rewrite Hrun).
    rewrite Hf in Hagain. apply Hagain. apply Nat.lt_succ_diag_r.
Defined.
