(* ===== verification/DeflatedTokens.v ===== *)
(** * Deflated tokens: crates/rsync-protocol/src/session.rs,
      [RsyncDeflatedTokenWriter] and [RsyncDeflatedTokenReader]

    Under compression the tokens of a file, literals and copies of blocks, are sent as
    runs of block numbers between chunks of one deflate stream.  The compressor is
    third-party code: the class Zlib has the calls the source makes of it. *)

From S2P Require Import Prelude Stream WireIo Str Session.

Definition RSYNC_DEFLATED_END_FLAG : Z := 0.
Definition RSYNC_DEFLATED_TOKEN_LONG : Z := 0x20.
Definition RSYNC_DEFLATED_TOKENRUN_LONG : Z := 0x21.
Definition RSYNC_DEFLATED_DATA : Z := 0x40.
Definition RSYNC_DEFLATED_TOKEN_REL : Z := 0x80.
Definition RSYNC_DEFLATED_TOKENRUN_REL : Z := 0xc0.
Definition RSYNC_DEFLATED_MAX_DATA_COUNT : nat := 128 * 128 - 1.
Definition RSYNC_DEFLATED_CHUNK_SIZE : nat := 32 * 1024.
Definition RSYNC_ZLIB_SYNC_TAIL : list Z := [0; 0; 0xff; 0xff].

Inductive RsyncDeflatedToken :=
| Literal (bytes : list Z)
| Copy (block_index : nat)
| End.

#[export] Instance RsyncDeflatedToken_eq_dec : EqDecision RsyncDeflatedToken.
Proof. solve_decision. Defined.

(** ** The compressor *)

Inductive Status := StatusOk | BufError | StreamEnd.
Inductive FlushCompress := FlushNone | FlushSync.

#[export] Instance RsyncDeflatedTokenMode_eq_dec : EqDecision RsyncDeflatedTokenMode.
Proof. solve_decision. Defined.
#[export] Instance Status_eq_dec : EqDecision Status.
Proof. solve_decision. Defined.
#[export] Instance FlushCompress_eq_dec : EqDecision FlushCompress.
Proof. solve_decision. Defined.

(** [compress c input room flush] is the number of bytes taken, the bytes put out, the
    status and the compressor afterwards; [decompress] likewise.  The bounds are on what
    can still be put out for so many more bytes of input, as [deflateBound] gives one. *)
Class Zlib := {
  Compress : Type;
  Decompress : Type;
  compress_new : Z → Compress;
  compress_reset : Compress → Compress;
  compress : Compress → list Z → nat → FlushCompress →
    result (nat * list Z * Status * Compress) io_error;
  deflate_bound : Compress → nat → nat;
  decompress_new : Decompress;
  decompress_reset : Decompress → Decompress;
  decompress_vec : Decompress → list Z → FlushCompress →
    result (nat * list Z * Status * Decompress) io_error;
  inflate_bound : Decompress → nat → nat;
}.

(** A loop that is longer than the bounds. *)
Definition zlib_out_of_fuel : io_error := IoError InvalidData "zlib exceeded its bound".

Section tokens.
Context `{Zlib}.

(** ** The writer *)

Record RsyncDeflatedTokenWriter := {
  compressor : Compress;
  last_token : Z;
  run_start : Z;
  last_run_end : Z;
  flush_pending : bool;
}.

Definition new_token_writer (level : Z) : RsyncDeflatedTokenWriter :=
  {| compressor := compress_new (Z.min level 9); last_token := -1; run_start := 0;
     last_run_end := 0; flush_pending := false |}.

(** The loop of [write_deflated]. *)
Fixpoint deflate_loop (fuel : nat) (c : Compress) (input : list Z) (flush : FlushCompress)
    (output : list Z) : result (Compress * list Z) io_error :=
  match fuel with
  | O => Err zlib_out_of_fuel
  | S fuel =>
      let? step := compress c input RSYNC_DEFLATED_MAX_DATA_COUNT flush in
      let '(consumed, produced, status, c) := step in
      let input := drop consumed input in
      let output := output ++ produced in
      if bool_decide (flush = FlushSync) && ends_with output RSYNC_ZLIB_SYNC_TAIL
      then Ok (c, output)
      else if bool_decide (flush ≠ FlushSync) && bool_decide (input = []) &&
              ((length produced <? RSYNC_DEFLATED_MAX_DATA_COUNT)%nat ||
               bool_decide (status = BufError))
      then Ok (c, output)
      else if (consumed =? 0)%nat && bool_decide (produced = []) then Ok (c, output)
      else deflate_loop fuel c input flush output
  end.

Context {W : Type} `{Write W}.
Local Abbreviation S := (M (RsyncDeflatedTokenWriter * W) io_error).

Definition write_data_chunk (chunk : list Z) : M W io_error unit :=
  let len := Z.of_nat (length chunk) in
  write_all [RSYNC_DEFLATED_DATA + as_u8 (Z.shiftr len 8); as_u8 len];;
  write_all chunk.

Definition write_deflated_data_chunks (bytes : list Z) : M W io_error unit :=
  for_each write_data_chunk (chunks RSYNC_DEFLATED_MAX_DATA_COUNT bytes).

Definition set_compressor (c : Compress) (self : RsyncDeflatedTokenWriter) :
    RsyncDeflatedTokenWriter :=
  {| compressor := c; last_token := last_token self; run_start := run_start self;
     last_run_end := last_run_end self; flush_pending := flush_pending self |}.

Definition write_deflated (input : list Z) (flush : FlushCompress) : S unit :=
  self ← on_fst get;
  let fuel := (length input + deflate_bound (compressor self) (length input) + 1)%nat in
  '(c, output) ← lift (deflate_loop fuel (compressor self) input flush []);
  on_fst (put (set_compressor c self));;
  output ← lift
    (if bool_decide (flush = FlushSync) then
       if ends_with output RSYNC_ZLIB_SYNC_TAIL
       then Ok (take (length output - length RSYNC_ZLIB_SYNC_TAIL) output)
       else Err (invalid_data "rsync compressed sync flush omitted zlib tail")
     else Ok output);
  on_snd (write_deflated_data_chunks output).

Definition write_pending_run (self : RsyncDeflatedTokenWriter) : M W io_error unit :=
  relative ← lift (ok_or (checked_i32 (run_start self - last_run_end self))
    (invalid_data "rsync compressed token run underflowed"));
  run_len ← lift (ok_or (checked_i32 (last_token self - run_start self))
    (invalid_data "rsync compressed token run length underflowed"));
  if u16_max <? run_len
  then throw (invalid_data "rsync compressed token run exceeded u16 range")
  else
    (if (0 <=? relative) && (relative <=? 63) then
       let base := if run_len =? 0 then RSYNC_DEFLATED_TOKEN_REL
                   else RSYNC_DEFLATED_TOKENRUN_REL in
       write_all [base + as_u8 relative]
     else
       write_all [if run_len =? 0 then RSYNC_DEFLATED_TOKEN_LONG
                  else RSYNC_DEFLATED_TOKENRUN_LONG];;
       write_i32_le (run_start self));;
    if run_len =? 0 then mret ()
    else write_all [as_u8 (Z.land run_len 0xff); as_u8 (Z.land (Z.shiftr run_len 8) 0xff)].

(** The first token of a file. *)
Definition start_file (token : Z) (self : RsyncDeflatedTokenWriter) :
    RsyncDeflatedTokenWriter :=
  {| compressor := compress_reset (compressor self); last_token := last_token self;
     run_start := token; last_run_end := 0; flush_pending := false |}.

Definition set_run_start (token : Z) (self : RsyncDeflatedTokenWriter) :
    RsyncDeflatedTokenWriter :=
  {| compressor := compressor self; last_token := last_token self; run_start := token;
     last_run_end := last_run_end self; flush_pending := flush_pending self |}.

Definition start_run (token : Z) (self : RsyncDeflatedTokenWriter) :
    RsyncDeflatedTokenWriter :=
  {| compressor := compressor self; last_token := last_token self; run_start := token;
     last_run_end := last_token self; flush_pending := flush_pending self |}.

Definition set_last_token (token : Z) (self : RsyncDeflatedTokenWriter) :
    RsyncDeflatedTokenWriter :=
  {| compressor := compressor self; last_token := token; run_start := run_start self;
     last_run_end := last_run_end self; flush_pending := flush_pending self |}.

Definition set_flush_pending (pending : bool) (self : RsyncDeflatedTokenWriter) :
    RsyncDeflatedTokenWriter :=
  {| compressor := compressor self; last_token := last_token self;
     run_start := run_start self; last_run_end := last_run_end self;
     flush_pending := pending |}.

(** The run that is pending ends before a token that does not continue it. *)
Definition ends_run (self : RsyncDeflatedTokenWriter) (token : Z) (data : list Z) : bool :=
  bool_decide (data ≠ []) || bool_decide (checked_i32 (last_token self + 1) ≠ Some token) ||
  match checked_i32 (run_start self + 65536) with
  | Some limit => limit <=? token
  | None => true
  end.

Definition modify_writer (f : RsyncDeflatedTokenWriter → RsyncDeflatedTokenWriter) : S unit :=
  self ← on_fst get; on_fst (put (f self)).

(** What comes before the token is set down, and its data. *)
Definition before_token (token : Z) (data : list Z) : S unit :=
  self ← on_fst get;
  if last_token self =? -1 then modify_writer (start_file token)
  else if last_token self =? -2 then modify_writer (set_run_start token)
  else if ends_run self token data then
    on_snd (write_pending_run self);;
    modify_writer (start_run token)
  else mret ().

Definition token_payload (token : Z) (data : list Z) : S unit :=
  self ← on_fst get;
  if bool_decide (data ≠ []) then
    write_deflated data FlushNone;;
    modify_writer (set_flush_pending true)
  else if flush_pending self && negb (token =? -2) then
    write_deflated [] FlushSync;;
    modify_writer (set_flush_pending false)
  else mret ().

Definition send_token (token : Z) (data : list Z) : S unit :=
  before_token token data;;
  modify_writer (set_last_token token);;
  token_payload token data;;
  if token =? -1 then on_snd (write_all [RSYNC_DEFLATED_END_FLAG]) else mret ().

Definition send_literal (literal : list Z) : S unit :=
  for_each (send_token (-2)) (chunks RSYNC_DEFLATED_CHUNK_SIZE literal).

Definition send_copy (block_index : nat) : S unit :=
  token ← lift (ok_or (checked_i32 (Z.of_nat block_index))
    (invalid_input "rsync compressed copy token exceeded i32 range"));
  send_token token [].

Definition finish_tokens : S unit := send_token (-1) [].
End tokens.

(** ** The reader *)

Section reader.
Context `{Zlib}.

Record RsyncDeflatedTokenReader := {
  reader_mode : RsyncDeflatedTokenMode;
  decompressor : Decompress;
  rx_token : Z;
  rx_run : Z;
  needs_sync_tail : bool;
  saved_flag : option Z;
  pending : list RsyncDeflatedToken;
}.

Definition new_token_reader (mode : RsyncDeflatedTokenMode) : RsyncDeflatedTokenReader :=
  {| reader_mode := mode; decompressor := decompress_new; rx_token := 0; rx_run := 0;
     needs_sync_tail := false; saved_flag := None; pending := [] |}.

Definition reset_file (self : RsyncDeflatedTokenReader) : RsyncDeflatedTokenReader :=
  {| reader_mode := reader_mode self; decompressor := decompress_reset (decompressor self);
     rx_token := 0; rx_run := 0; needs_sync_tail := false; saved_flag := None;
     pending := [] |}.

Definition set_decompressor (d : Decompress) (self : RsyncDeflatedTokenReader) :
    RsyncDeflatedTokenReader :=
  {| reader_mode := reader_mode self; decompressor := d; rx_token := rx_token self;
     rx_run := rx_run self; needs_sync_tail := needs_sync_tail self;
     saved_flag := saved_flag self; pending := pending self |}.

Definition set_rx (token run : Z) (self : RsyncDeflatedTokenReader) :
    RsyncDeflatedTokenReader :=
  {| reader_mode := reader_mode self; decompressor := decompressor self; rx_token := token;
     rx_run := run; needs_sync_tail := needs_sync_tail self;
     saved_flag := saved_flag self; pending := pending self |}.

Definition set_sync (needs : bool) (flag : option Z) (self : RsyncDeflatedTokenReader) :
    RsyncDeflatedTokenReader :=
  {| reader_mode := reader_mode self; decompressor := decompressor self;
     rx_token := rx_token self; rx_run := rx_run self; needs_sync_tail := needs;
     saved_flag := flag; pending := pending self |}.

Definition set_pending (tokens : list RsyncDeflatedToken) (self : RsyncDeflatedTokenReader) :
    RsyncDeflatedTokenReader :=
  {| reader_mode := reader_mode self; decompressor := decompressor self;
     rx_token := rx_token self; rx_run := rx_run self;
     needs_sync_tail := needs_sync_tail self; saved_flag := saved_flag self;
     pending := tokens |}.

(** The loop of [inflate_bytes]. *)
Fixpoint inflate_loop (fuel : nat) (d : Decompress) (input : list Z) (flush : FlushCompress)
    (output : list Z) : result (Decompress * list Z) io_error :=
  match fuel with
  | O => Err zlib_out_of_fuel
  | S fuel =>
      let? step := decompress_vec d input flush in
      let '(consumed, produced, status, d) := step in
      let input := drop consumed input in
      let output := output ++ produced in
      if bool_decide (input = []) && bool_decide (status ≠ StatusOk) then Ok (d, output)
      else if bool_decide (input = []) && bool_decide (produced = []) then Ok (d, output)
      else if (consumed =? 0)%nat && bool_decide (produced = [])
      then Err (invalid_data "rsync compressed stream made no inflate progress")
      else inflate_loop fuel d input flush output
  end.

Context {R : Type} `{Read R}.
Local Abbreviation S := (M (RsyncDeflatedTokenReader * R) io_error).

Definition modify_reader (f : RsyncDeflatedTokenReader → RsyncDeflatedTokenReader) : S unit :=
  self ← on_fst get; on_fst (put (f self)).

Definition inflate_bytes (input : list Z) (flush : FlushCompress) : S (list Z) :=
  self ← on_fst get;
  let fuel := (length input + inflate_bound (decompressor self) (length input) + 1)%nat in
  '(d, output) ← lift (inflate_loop fuel (decompressor self) input flush []);
  on_fst (put (set_decompressor d self));;
  mret output.

Definition copy_token (token : Z) : result RsyncDeflatedToken io_error :=
  if token <? 0 then Err (invalid_data "rsync compressed copy token did not fit usize")
  else Ok (Copy (Z.to_nat token)).

(** A flag of a run: the token it starts at, and the length of the run. *)
Definition read_run (flag : Z) : S RsyncDeflatedToken :=
  self ← on_fst get;
  token_flag ←
    (if bool_decide (Z.land flag RSYNC_DEFLATED_TOKEN_REL ≠ 0) then
       token ← lift (ok_or (checked_i32 (rx_token self + Z.land flag 0x3f))
         (invalid_data "rsync compressed relative token overflowed"));
       modify_reader (set_rx token (rx_run self));;
       mret (Z.shiftr flag 6)
     else
       token ← on_snd read_i32_le;
       modify_reader (set_rx token (rx_run self));;
       if token <? 0
       then throw (invalid_data
              "rsync compressed stream contained a negative token number")
       else mret flag);
  self ← on_fst get;
  (if bool_decide (Z.land token_flag 1 ≠ 0) then
     lo ← on_snd read_u8;
     hi ← on_snd read_u8;
     modify_reader (set_rx (rx_token self) (Z.lor lo (Z.shiftl hi 8)))
   else mret ());;
  lift (copy_token (rx_token self)).

(** What follows a flag that is not of data: the rest of the deflate stream comes first. *)
Definition read_flag (flag : Z) : S RsyncDeflatedToken :=
  self ← on_fst get;
  literal ←
    (if needs_sync_tail self then
       literal ← inflate_bytes RSYNC_ZLIB_SYNC_TAIL FlushSync;
       modify_reader (set_sync false (saved_flag self));;
       mret literal
     else mret []);
  if bool_decide (literal ≠ []) then
    modify_reader (set_sync false (Some flag));;
    mret (Literal literal)
  else if flag =? RSYNC_DEFLATED_END_FLAG then
    modify_reader reset_file;; mret End
  else read_run flag.

(** The loop of [next_token]: a turn that goes on has read a chunk of data, so the bytes
    that are left bound the turns. *)
Fixpoint next_token_loop (fuel : nat) : S RsyncDeflatedToken :=
  match fuel with
  | O => throw (IoError UnexpectedEof "failed to fill whole buffer")
  | Datatypes.S fuel =>
      self ← on_fst get;
      match pending self with
      | token :: rest => modify_reader (set_pending rest);; mret token
      | [] =>
          if 0 <? rx_run self then
            token ← lift (ok_or (checked_i32 (rx_token self + 1))
              (invalid_data "rsync compressed token run overflowed"));
            modify_reader (set_rx token (rx_run self - 1));;
            lift (copy_token token)
          else
            flag ← (match saved_flag self with
                    | Some flag => modify_reader (set_sync (needs_sync_tail self) None);; mret flag
                    | None => on_snd read_u8
                    end);
            if Z.land flag 0xc0 =? RSYNC_DEFLATED_DATA then
              low ← on_snd read_u8;
              let len := Z.shiftl (Z.land flag 0x3f) 8 + low in
              compressed ← on_snd (read_exact (Z.to_nat len));
              literal ← inflate_bytes compressed FlushNone;
              self ← on_fst get;
              modify_reader (set_sync true (saved_flag self));;
              if bool_decide (literal ≠ []) then mret (Literal literal)
              else next_token_loop fuel
            else read_flag flag
      end
  end.

Definition next_token : S RsyncDeflatedToken :=
  λ p, next_token_loop (Datatypes.S (budget p.2)) p.

(** A stored block that puts the data of a copy into the window. *)
Definition stored_block (chunk : list Z) : list Z :=
  let len := Z.of_nat (length chunk) in
  [0; Z.land len 0xff; as_u8 (Z.shiftr len 8);
   not_u8 (as_u8 len); not_u8 (as_u8 (Z.shiftr len 8))] ++ chunk.

Definition observe_copy_data (bytes : list Z) : S unit :=
  self ← on_fst get;
  if bool_decide (reader_mode self ≠ TokensZlib) || bool_decide (bytes = []) then mret ()
  else for_each (λ chunk, inflate_bytes (stored_block chunk) FlushSync ≫= λ _, mret ())
         (chunks (Z.to_nat u16_max) bytes).
End reader.
