(* ===== verification/DeflatedFacts.v ===== *)
(** * Properties of deflated tokens

    Under the laws of the compressor, the reader takes from the stream the tokens that
    the writer was given, with literals cut anew. *)

From S2P Require Import Prelude Stream WireIo Str Session DeflatedTokens.

(** ** What is relied on of the compressor

    [owes c d data]: [c] and [d] are the ends of one stream, and [data] is what [c] has
    taken and [d] has not given out yet.  [feeds d bytes x d']: given [bytes], however
    they are cut, [d] gives out [x] and is then [d'].  [flushing c bytes c']: a sync flush
    of [c] puts out [bytes] in pieces of the size of the buffer, and leaves [c'].
    [taken c]: [c] has taken input since it was made, reset or flushed.  A sync flush is
    relied on only then: a second one in a row may put nothing out.  Where the marker
    that ends a flush can also show before its end is left open. *)
Class ZlibLaws `{Zlib} := {
  owes : Compress → Decompress → list Z → Prop;
  feeds : Decompress → list Z → list Z → Decompress → Prop;
  flushing : Compress → list Z → Compress → Prop;
  taken : Compress → Prop;
  owes_new c : owes (compress_reset c) decompress_new [];
  owes_reset c d : owes (compress_reset c) (decompress_reset d) [];
  feeds_app d a x dm b y d' : feeds d a x dm → feeds dm b y d' → feeds d (a ++ b) (x ++ y) d';
  feeds_split d a b x d' : feeds d (a ++ b) x d' →
    ∃ xa dm xb, feeds d a xa dm ∧ feeds dm b xb d' ∧ x = xa ++ xb;
  feeds_nothing d x d' : feeds d [] x d' → x = [] ∧ d' = d;
  compress_takes c d data input : owes c d data →
    ∃ k out status c' x d' data',
      compress c input RSYNC_DEFLATED_MAX_DATA_COUNT FlushNone = Ok (k, out, status, c') ∧
      (k ≤ length input)%nat ∧ feeds d out x d' ∧ x ++ data' = data ++ take k input ∧
      owes c' d' data' ∧ (k = 0%nat → out = [] → input = []) ∧
      ((0 < k)%nat ∨ taken c → taken c') ∧
      (length out + deflate_bound c' (length input - k) ≤ deflate_bound c (length input))%nat;
  sync_flushes c d data : taken c → owes c d data →
    ∃ body c' d', flushing c (body ++ RSYNC_ZLIB_SYNC_TAIL) c' ∧ body ≠ [] ∧
      feeds d (body ++ RSYNC_ZLIB_SYNC_TAIL) data d' ∧ owes c' d' [] ∧
      (length (body ++ RSYNC_ZLIB_SYNC_TAIL) ≤ deflate_bound c 0)%nat;
  flushing_step c bytes c' : flushing c bytes c' →
    ∃ status c1, compress c [] RSYNC_DEFLATED_MAX_DATA_COUNT FlushSync =
        Ok (0%nat, take RSYNC_DEFLATED_MAX_DATA_COUNT bytes, status, c1) ∧
      (drop RSYNC_DEFLATED_MAX_DATA_COUNT bytes = [] → c1 = c') ∧
      (drop RSYNC_DEFLATED_MAX_DATA_COUNT bytes ≠ [] →
         flushing c1 (drop RSYNC_DEFLATED_MAX_DATA_COUNT bytes) c');
  decompress_takes d input flush x d' : feeds d input x d' →
    ∃ k y status d1 x', decompress_vec d input flush = Ok (k, y, status, d1) ∧
      (k ≤ length input)%nat ∧ x = y ++ x' ∧ feeds d1 (drop k input) x' d' ∧
      (k = 0%nat → y = [] → input = []) ∧
      (drop k input = [] → status ≠ StatusOk ∨ y = [] → x' = [] ∧ d1 = d') ∧
      (length y + inflate_bound d1 (length input - k) ≤ inflate_bound d (length input))%nat;
}.

Section loops.
Context `{ZlibLaws}.

Lemma max_data_positive : (0 < RSYNC_DEFLATED_MAX_DATA_COUNT)%nat.
Proof. unfold RSYNC_DEFLATED_MAX_DATA_COUNT. lia. Qed.

#[local] Opaque RSYNC_DEFLATED_MAX_DATA_COUNT.

Lemma deflate_none fuel : ∀ c d data input output,
  owes c d data → (length input + deflate_bound c (length input) < fuel)%nat →
  ∃ c' out x d' data', deflate_loop fuel c input FlushNone output = Ok (c', output ++ out) ∧
    feeds d out x d' ∧ x ++ data' = data ++ input ∧ owes c' d' data' ∧
    (input ≠ [] ∨ taken c → taken c').
Proof.
  induction fuel as [|fuel IH]; intros c d data input output Ho Hf; [lia|]. cbn [deflate_loop].
  destruct (compress_takes c d data input Ho)
    as (k & out & st & c' & x & d' & data' & -> & Hk & Hfeed & Hx & Ho' & Hprog & Htaken & Hb).
  cbn [and_then]. rewrite (bool_decide_false (FlushNone = FlushSync)) by done. cbn [andb].
  rewrite bool_decide_true by done. cbn [andb].
  assert (Hdone : drop k input = [] → ∃ c'' out' x' d'' data'',
    Ok (E:=io_error) (c', output ++ out) = Ok (c'', output ++ out') ∧
    feeds d out' x' d'' ∧ x' ++ data'' = data ++ input ∧ owes c'' d'' data'' ∧
    (input ≠ [] ∨ taken c → taken c'')).
  { intros Hd. exists c', out, x, d', data'. split_and!; [done..| |done|].
    - rewrite Hx. f_equal. rewrite <-(take_drop k input) at 2. by rewrite Hd, app_nil_r.
    - intros [Hin|Ht]; [|by auto]. apply Htaken. left. destruct k; [by destruct input|lia]. }
  case_bool_decide as Hin; cbn [andb].
  { destruct (_ || _); [by apply Hdone|]. case_match; [by apply Hdone|].
    rewrite Hin. destruct (IH c' d' data' [] (output ++ out)) as (c2 & out2 & x2 & d2 & data2 & Hr & Hf2 & Hx2 & Ho2 & Ht2).
    { done. }
    { apply (f_equal length) in Hin. rewrite length_drop in Hin. cbn [length] in *.
      replace (length input - k)%nat with 0%nat in Hb by lia.
      destruct k; [|lia]. destruct out; [|cbn in Hb; lia].
      exfalso. by rewrite bool_decide_true in H1. }
    exists c2, (out ++ out2), (x ++ x2), d2, data2. rewrite Hr, app_assoc.
    apply (f_equal length) in Hin. rewrite length_drop in Hin. cbn in Hin.
    split_and!; [done|by eapply feeds_app| |done|].
    - rewrite <-app_assoc, Hx2, app_nil_r, Hx. f_equal. apply take_ge. lia.
    - intros [Hne|Ht]; apply Ht2; right; apply Htaken; [left|by right].
      destruct input; [done|]. cbn in Hin. lia. }
  case_match eqn:Hstuck.
  { apply andb_true_iff in Hstuck as [Hk0%Nat.eqb_eq Ho0%bool_decide_eq_true].
    apply Hdone. rewrite Hk0. cbn. auto. }
  destruct (IH c' d' data' (drop k input) (output ++ out))
    as (c2 & out2 & x2 & d2 & data2 & Hr & Hf2 & Hx2 & Ho2 & Ht2).
  { done. }
  { rewrite length_drop. destruct k; [|lia]. destruct out; [|cbn in Hb; lia].
    by rewrite bool_decide_true in Hstuck. }
  exists c2, (out ++ out2), (x ++ x2), d2, data2. rewrite Hr, app_assoc.
  split_and!; [done|by eapply feeds_app| |done|].
  - by rewrite <-app_assoc, Hx2, app_assoc, Hx, <-app_assoc, take_drop.
  - intros [Hne|Ht]; [|by auto]. destruct k; [by rewrite drop_0 in *; auto|].
    apply Ht2. right. apply Htaken. left. lia.
Qed.

Lemma deflate_sync fuel : ∀ c bytes c' k before,
  flushing c bytes c' → bytes ≠ [] → length before = (k * RSYNC_DEFLATED_MAX_DATA_COUNT)%nat →
  ends_with (before ++ bytes) RSYNC_ZLIB_SYNC_TAIL = true →
  (∀ k, (k * RSYNC_DEFLATED_MAX_DATA_COUNT < length (before ++ bytes))%nat →
     ends_with (take (k * RSYNC_DEFLATED_MAX_DATA_COUNT) (before ++ bytes))
       RSYNC_ZLIB_SYNC_TAIL = false) →
  (length bytes < fuel)%nat →
  deflate_loop fuel c [] FlushSync before = Ok (c', before ++ bytes).
Proof.
  induction fuel as [|fuel IH]; intros c bytes c' k before Hfl Hne Hb Hend Hapart Hf; [lia|].
  cbn [deflate_loop]. pose proof max_data_positive.
  destruct (flushing_step c bytes c' Hfl) as (st & c1 & -> & Hlast & Hmore).
  cbn [and_then]. rewrite drop_nil, (bool_decide_true (FlushSync = FlushSync)) by done. cbn [andb].
  destruct (decide (drop RSYNC_DEFLATED_MAX_DATA_COUNT bytes = [])) as [Hd|Hd].
  - rewrite (take_ge bytes); [|apply (f_equal length) in Hd; rewrite length_drop in Hd; cbn in Hd; lia].
    rewrite Hend. by rewrite Hlast.
  - assert (Hlen : (RSYNC_DEFLATED_MAX_DATA_COUNT < length bytes)%nat).
    { destruct (Nat.le_gt_cases (length bytes) RSYNC_DEFLATED_MAX_DATA_COUNT); [|done].
      by rewrite drop_ge in Hd. }
    assert (Htake : take (S k * RSYNC_DEFLATED_MAX_DATA_COUNT) (before ++ bytes) =
                    before ++ take RSYNC_DEFLATED_MAX_DATA_COUNT bytes).
    { rewrite take_app, Hb. f_equal; [apply take_ge; lia|]. f_equal. lia. }
    rewrite <-Htake, Hapart by (rewrite length_app; lia).
    rewrite bool_decide_false by auto. cbn [andb].
    rewrite (bool_decide_false (take _ bytes = [])).
    2:{ intros Hn. apply (f_equal length) in Hn. rewrite length_take in Hn. cbn in Hn. lia. }
    cbn [Nat.eqb andb]. rewrite Htake.
    rewrite (IH c1 (drop RSYNC_DEFLATED_MAX_DATA_COUNT bytes) c' (S k)).
    + by rewrite <-app_assoc, take_drop.
    + by apply Hmore.
    + done.
    + rewrite length_app, length_take. lia.
    + by rewrite <-app_assoc, take_drop.
    + rewrite <-app_assoc, take_drop. apply Hapart.
    + rewrite length_drop. lia.
Qed.

Lemma inflate_takes fuel : ∀ d input flush x d' output,
  feeds d input x d' → (length input + inflate_bound d (length input) < fuel)%nat →
  inflate_loop fuel d input flush output = Ok (d', output ++ x).
Proof.
  induction fuel as [|fuel IH]; intros d input flush x d' output Hfeed Hf; [lia|].
  cbn [inflate_loop].
  destruct (decompress_takes d input flush x d' Hfeed)
    as (k & y & st & d1 & x' & -> & Hk & -> & Hfeed' & Hprog & Hdone & Hb).
  cbn [and_then].
  assert (Hgo : (0 < k ∨ 0 < length y)%nat →
    inflate_loop fuel d1 (drop k input) flush (output ++ y) = Ok (d', output ++ y ++ x')).
  { intros Hor. rewrite (IH d1 (drop k input) flush x' d'); [by rewrite <-app_assoc|done|].
    rewrite length_drop. lia. }
  case_bool_decide as Hin; cbn [andb].
  - case_bool_decide as Hst.
    { destruct (Hdone Hin (or_introl Hst)) as [-> ->]. by rewrite app_nil_r. }
    case_bool_decide as Hy.
    { destruct (Hdone Hin (or_intror Hy)) as [-> ->]. by rewrite app_nil_r. }
    destruct (k =? 0)%nat; cbn [andb]; apply Hgo; right; by destruct y; [|cbn; lia].
  - case_match eqn:Hstuck; cbn [andb].
    + apply andb_true_iff in Hstuck as [->%Nat.eqb_eq ->%bool_decide_eq_true].
      exfalso. apply Hin. cbn. auto.
    + apply Hgo. destruct k; [|lia]. right. cbn in Hstuck.
      apply bool_decide_eq_false in Hstuck. by destruct y; [|cbn; lia].
Qed.
End loops.

(** ** The reader *)

Section reader.
Context `{ZlibLaws} {R : Type} `{ReadLaws R}.
Implicit Types (rd : RsyncDeflatedTokenReader) (r : R) (x chunk : list Z).

Local Abbreviation RM := (M (RsyncDeflatedTokenReader * R) io_error).

Lemma get_step {B} (f : RsyncDeflatedTokenReader → RM B) rd r :
  (on_fst get ≫= f) (rd, r) = f rd (rd, r).
Proof. done. Qed.
Lemma modify_step {B} g (f : unit → RM B) rd r :
  (modify_reader g ≫= f) (rd, r) = f () (g rd, r).
Proof. done. Qed.
Lemma snd_step {A B} (m : M R io_error A) (f : A → RM B) rd r a r' :
  m r = (Ok a, r') → (on_snd m ≫= f) (rd, r) = f a (rd, r').
Proof. intros Hm. unfold mbind, M_bind, on_snd. cbn. by rewrite Hm. Qed.

Lemma inflate_step {B} input flush (f : list Z → RM B) rd r x d' :
  feeds (decompressor rd) input x d' →
  (inflate_bytes input flush ≫= f) (rd, r) = f x (set_decompressor d' rd, r).
Proof.
  intros Hfeed. unfold inflate_bytes. unfold mbind, M_bind. cbn.
  rewrite (inflate_takes _ _ _ _ _ _ [] Hfeed) by lia. done.
Qed.

Lemma budget_u8 r b r' : read_u8 r = (Ok b, r') → (budget r' < budget r)%nat.
Proof.
  intros Hr. assert (Hc : consumes (R := R) 1 read_u8) by (unfold read_u8; eauto using consumes_first, consumes_exact with progress).
  specialize (Hc _ _ _ Hr). lia.
Qed.

Lemma snd_budget {A} (m : M R io_error A) n (p p' : RsyncDeflatedTokenReader * R) a :
  consumes n m → on_snd m p = (Ok a, p') → (budget p'.2 + n ≤ budget p.2)%nat.
Proof.
  destruct p as [rd r]. unfold on_snd. cbn. intros Hm Hr. destruct (m r) as [o r1] eqn:Hm1.
  injection Hr as -> <-. by apply (Hm _ _ _ Hm1).
Qed.

Lemma consumes_u8 : consumes (R := R) 1 read_u8.
Proof. unfold read_u8. eauto using consumes_first, consumes_exact with progress. Qed.

(** More fuel than bytes changes nothing. *)
Lemma next_token_fuel f1 f2 (p : RsyncDeflatedTokenReader * R) :
  (budget p.2 < f1)%nat → (budget p.2 < f2)%nat → next_token_loop f1 p = next_token_loop f2 p.
Proof.
  revert f2 p. induction f1 as [|f1 IH]; intros [|f2] [rd r] H1' H2'; cbn in H1', H2'; try lia.
  cbn [next_token_loop]. rewrite !get_step. destruct (pending rd); [|done].
  destruct (0 <? rx_run rd); [done|]. apply bind_ext_ok. intros flag p1 Hflag.
  assert (Hb : (budget p1.2 ≤ budget r)%nat).
  { destruct (saved_flag rd).
    - by injection Hflag as _ <-.
    - apply (snd_budget _ 1) in Hflag; [cbn in Hflag; lia|apply consumes_u8]. }
  destruct (_ =? _); [|done].
  apply bind_ext_ok. intros low p2 Hlow. apply (snd_budget _ 1) in Hlow; [|apply consumes_u8].
  apply bind_ext_ok. intros compressed p3 Hc.
  apply (snd_budget _ 0) in Hc;
    [|eapply (consumes_weaken _ 0); [|apply consumes_exact]; lia].
  apply bind_ext_ok. intros literal p4 Hl.
  assert (Hp4 : p4.2 = p3.2).
  { revert Hl. unfold inflate_bytes, mbind, M_bind, lift. cbn.
    destruct (inflate_loop _ _ _ _ _) as [[]|]; cbn; [by intros [= _ <-]|done]. }
  destruct p4 as [rd4 r4]. cbn in Hp4. subst r4. rewrite !get_step, !modify_step.
  case_bool_decide; [done|]. apply IH; cbn; lia.
Qed.

(** The tokens up to the end of a file. *)
Inductive token_run : RsyncDeflatedTokenReader * R → list RsyncDeflatedToken →
    RsyncDeflatedTokenReader * R → Prop :=
| run_end p p' : next_token p = (Ok End, p') → token_run p [] p'
| run_token p token p1 tokens p' :
    next_token p = (Ok token, p1) → token ≠ End → token_run p1 tokens p' →
    token_run p (token :: tokens) p'.

Lemma run_same p q tokens p' :
  next_token q = next_token p → token_run p tokens p' → token_run q tokens p'.
Proof. intros Heq Hrun. destruct Hrun; econstructor; eauto; by rewrite Heq. Qed.

(** Nothing is pending beside the deflate stream. *)
Record idle rd : Prop := {
  idle_pending : pending rd = [];
  idle_run : rx_run rd = 0;
  idle_flag : saved_flag rd = None;
}.

(** Taking [bytes], the reader yields [tokens] and goes on as [rd']. *)
Definition yields rd (bytes : list Z) (tokens : list RsyncDeflatedToken) rd' : Prop :=
  ∀ r rest, avail r (bytes ++ rest) → ∃ r', avail r' rest ∧
    ∀ more p', token_run (rd', r') more p' → token_run (rd, r) (tokens ++ more) p'.

Lemma yields_nil rd : yields rd [] [] rd.
Proof. intros r rest Hr. exists r. auto. Qed.

Lemma yields_app rd b1 t1 rd1 b2 t2 rd2 :
  yields rd b1 t1 rd1 → yields rd1 b2 t2 rd2 → yields rd (b1 ++ b2) (t1 ++ t2) rd2.
Proof.
  intros H1' H2' r rest Hr. rewrite <-app_assoc in Hr.
  destruct (H1' _ _ Hr) as (r1 & Hr1 & Hk1). destruct (H2' _ _ Hr1) as (r2 & Hr2 & Hk2).
  exists r2. split; [done|]. intros more p' Hm. rewrite <-app_assoc. auto.
Qed.

(** The tokens of a piece of literal data. *)
Definition literal_token x : list RsyncDeflatedToken :=
  if bool_decide (x ≠ []) then [Literal x] else [].

Definition data_chunk chunk : list Z :=
  [RSYNC_DEFLATED_DATA + as_u8 (Z.shiftr (Z.of_nat (length chunk)) 8);
   as_u8 (Z.of_nat (length chunk))] ++ chunk.

Definition after_data d' rd : RsyncDeflatedTokenReader :=
  set_sync true None (set_decompressor d' rd).

Lemma idle_after_data d' rd : idle rd → idle (after_data d' rd).
Proof. by intros []. Qed.

Lemma data_header_fields n :
  0 ≤ n < 16384 →
  Z.land (RSYNC_DEFLATED_DATA + as_u8 (Z.shiftr n 8)) 0xc0 = RSYNC_DEFLATED_DATA ∧
  Z.shiftl (Z.land (RSYNC_DEFLATED_DATA + as_u8 (Z.shiftr n 8)) 0x3f) 8 + as_u8 n = n.
Proof.
  intros Hn. rewrite Z.shiftr_div_pow2 by lia.
  assert (Hq : 0 ≤ n / 2 ^ 8 < 64).
  { split; [apply Z.div_pos; lia|apply Z.div_lt_upper_bound; lia]. }
  rewrite (as_u8_id (n / 2 ^ 8)) by (unfold in_u8; lia).
  assert (Hall : all_below 64 (λ q, (Z.land (RSYNC_DEFLATED_DATA + q) 0xc0 =? RSYNC_DEFLATED_DATA) &&
            (Z.land (RSYNC_DEFLATED_DATA + q) 0x3f =? q)) = true) by by vm_compute.
  apply (all_below_spec _ _ (n / 2 ^ 8) Hall) in Hq as [H1' H2']%andb_true_iff.
  apply Z.eqb_eq in H1', H2'. split; [done|]. rewrite H2', Z.shiftl_mul_pow2 by lia.
  unfold as_u8. pose proof (Z.div_mod n (2 ^ 8)). lia.
Qed.

Lemma yields_data rd chunk x d' :
  idle rd → feeds (decompressor rd) chunk x d' →
  (length chunk ≤ RSYNC_DEFLATED_MAX_DATA_COUNT)%nat →
  yields rd (data_chunk chunk) (literal_token x) (after_data d' rd).
Proof.
  intros [Hp Hrun Hflag] Hfeed Hlen r rest Hr. unfold data_chunk in Hr.
  set (n := Z.of_nat (length chunk)) in *.
  assert (Hn : 0 ≤ n < 16384).
  { unfold n, RSYNC_DEFLATED_MAX_DATA_COUNT in *. lia. }
  destruct (data_header_fields n Hn) as [Hdata Hcount].
  rewrite <-app_assoc in Hr. cbn [app] in Hr.
  destruct (reads_u8 _ r (as_u8 n :: chunk ++ rest) Hr) as (r1 & Hr1 & Ha1).
  destruct (reads_u8 _ r1 (chunk ++ rest) Ha1) as (r2 & Hr2 & Ha2).
  destruct (reads_exact (R := R) chunk (length chunk) eq_refl r2 rest Ha2) as (r3 & Hr3 & Ha3).
  exists r3. split; [done|].
  assert (Hnext : next_token (rd, r) =
    (if bool_decide (x ≠ []) then (Ok (Literal x), (after_data d' rd, r3))
     else next_token (after_data d' rd, r3))).
  { unfold next_token at 1. cbn [snd next_token_loop]. rewrite get_step, Hp, Hrun. cbn [Z.ltb Z.compare].
    rewrite Hflag, (snd_step _ _ _ _ _ _ Hr1), Hdata, Z.eqb_refl.
    rewrite (snd_step _ _ _ _ _ _ Hr2), Hcount.
    rewrite (snd_step (read_exact _) _ _ r2 chunk r3) by (unfold n; by rewrite Nat2Z.id).
    rewrite (inflate_step _ _ _ _ _ x d' Hfeed), get_step, modify_step.
    change (saved_flag (set_decompressor d' rd)) with (saved_flag rd). rewrite Hflag.
    fold (after_data d' rd). case_bool_decide; [done|].
    apply next_token_fuel; cbn; [|lia].
    pose proof (budget_u8 _ _ _ Hr1). pose proof (budget_u8 _ _ _ Hr2).
    apply read_exact_budget in Hr3 as [_ Hb]. lia. }
  intros more p' Hmore. unfold literal_token. case_bool_decide.
  - cbn. by eapply run_token.
  - by apply (run_same (after_data d' rd, r3)).
Qed.

(** With the rest of the deflate stream taken. *)
Definition settled d' rd : RsyncDeflatedTokenReader :=
  set_sync false None (set_decompressor d' rd).

Lemma idle_settled d' rd : idle rd → idle (settled d' rd).
Proof. by intros []. Qed.

Lemma next_token_flag rd r b r1 :
  idle rd → read_u8 r = (Ok b, r1) → Z.land b 0xc0 ≠ RSYNC_DEFLATED_DATA →
  next_token (rd, r) = read_flag b (rd, r1).
Proof.
  intros [Hp Hrun Hflag] Hr Hb. unfold next_token. cbn [snd next_token_loop].
  rewrite get_step, Hp, Hrun. cbn [Z.ltb Z.compare]. rewrite Hflag, (snd_step _ _ _ _ _ _ Hr).
  by rewrite (proj2 (Z.eqb_neq _ _)).
Qed.

Lemma flag_settled b rd r :
  needs_sync_tail rd = false →
  read_flag b (rd, r) =
    if b =? RSYNC_DEFLATED_END_FLAG then (Ok End, (reset_file rd, r)) else read_run b (rd, r).
Proof.
  intros Hs. unfold read_flag. rewrite get_step, Hs, bind_ret, bool_decide_false by auto.
  by case_match.
Qed.

(** A flag that is not of data ends the literal before it. *)
Lemma sync_run rd r x d' b r1 tokens p' :
  idle rd → needs_sync_tail rd = true → feeds (decompressor rd) RSYNC_ZLIB_SYNC_TAIL x d' →
  read_u8 r = (Ok b, r1) → Z.land b 0xc0 ≠ RSYNC_DEFLATED_DATA →
  token_run (settled d' rd, r) tokens p' → token_run (rd, r) (literal_token x ++ tokens) p'.
Proof.
  intros Hidle Hs Hfeed Hr Hb Hrun.
  pose proof (next_token_flag rd r b r1 Hidle Hr Hb) as Hnext.
  pose proof (next_token_flag _ r b r1 (idle_settled d' rd Hidle) Hr Hb) as Hnext'.
  unfold read_flag in Hnext. rewrite get_step, Hs, bind_assoc in Hnext.
  rewrite (inflate_step _ _ _ _ _ x d' Hfeed), bind_assoc, modify_step, bind_ret in Hnext.
  change (saved_flag (set_decompressor d' rd)) with (saved_flag rd) in Hnext.
  rewrite (idle_flag _ Hidle) in Hnext. fold (settled d' rd) in Hnext.
  unfold literal_token. case_bool_decide as Hx; cbn [app].
  - eapply run_token; [by rewrite Hnext, modify_step|done|].
    eapply run_same; [|exact Hrun]. rewrite Hnext'.
    unfold next_token. cbn [snd next_token_loop]. rewrite get_step.
    change (pending (set_sync false (Some b) (settled d' rd))) with (pending rd).
    change (rx_run (set_sync false (Some b) (settled d' rd))) with (rx_run rd).
    rewrite (idle_pending _ Hidle), (idle_run _ Hidle). cbn [Z.ltb Z.compare].
    change (saved_flag (set_sync false (Some b) (settled d' rd))) with (Some b).
    cbv iota beta. rewrite bind_assoc, modify_step, bind_ret, (proj2 (Z.eqb_neq _ _)) by done. done.
  - eapply run_same; [|exact Hrun]. rewrite Hnext, Hnext', flag_settled by done. by case_match.
Qed.

Lemma yields_sync rd x d' b bytes tokens rd2 :
  idle rd → needs_sync_tail rd = true → feeds (decompressor rd) RSYNC_ZLIB_SYNC_TAIL x d' →
  Z.land b 0xc0 ≠ RSYNC_DEFLATED_DATA → yields (settled d' rd) (b :: bytes) tokens rd2 →
  yields rd (b :: bytes) (literal_token x ++ tokens) rd2.
Proof.
  intros Hidle Hs Hfeed Hb Hy r rest Hr. destruct (Hy r rest Hr) as (r' & Hr' & Hk).
  exists r'. split; [done|]. intros more p' Hmore. rewrite <-app_assoc.
  destruct (reads_u8 _ r (bytes ++ rest) Hr) as (r1 & Hr1 & _).
  eapply sync_run; eauto.
Qed.

(** The end of a file. *)
Lemma end_run rd r rest :
  idle rd → needs_sync_tail rd = false → avail r (RSYNC_DEFLATED_END_FLAG :: rest) →
  ∃ r', avail r' rest ∧ token_run (rd, r) [] (reset_file rd, r').
Proof.
  intros Hidle Hs Hr. destruct (reads_u8 _ r rest Hr) as (r1 & Hr1 & Ha1).
  exists r1. split; [done|]. apply run_end.
  by rewrite (next_token_flag _ _ _ _ Hidle Hr1), flag_settled.
Qed.

(** ** Runs of copies *)

Definition copies (start n : nat) : list RsyncDeflatedToken := Copy <$> seq start n.

(** The rest of a run needs no bytes. *)
Lemma run_continues rd r n more p' :
  pending rd = [] → 0 ≤ rx_token rd → rx_run rd = Z.of_nat n → rx_token rd + Z.of_nat n < 2 ^ 31 →
  token_run (set_rx (rx_token rd + Z.of_nat n) 0 rd, r) more p' →
  token_run (rd, r) (copies (S (Z.to_nat (rx_token rd))) n ++ more) p'.
Proof.
  revert rd. induction n as [|n IH]; intros rd Hp Ht Hrun Hb Hmore.
  { rewrite Z.add_0_r in Hmore. destruct rd. cbn in *. by subst. }
  cbn [copies seq fmap list_fmap app].
  assert (Hnext : next_token (rd, r) =
    (Ok (Copy (S (Z.to_nat (rx_token rd)))), (set_rx (rx_token rd + 1) (Z.of_nat n) rd, r))).
  { unfold next_token. cbn [snd next_token_loop]. rewrite get_step, Hp, Hrun.
    rewrite (proj2 (Z.ltb_lt _ _)), checked_i32_some by (unfold in_i32; lia).
    unfold copy_token. replace (Z.of_nat (S n) - 1) with (Z.of_nat n) by lia.
    cbn [ok_or]. unfold mbind, M_bind, lift, modify_reader. cbn.
    rewrite (proj2 (Z.ltb_ge _ _)) by lia. do 3 f_equal. lia. }
  eapply run_token; [exact Hnext|done|].
  assert (Hm : token_run (set_rx (rx_token rd + 1) (Z.of_nat n) rd, r)
    (copies (S (Z.to_nat (rx_token rd + 1))) n ++ more) p').
  { apply (IH (set_rx (rx_token rd + 1) (Z.of_nat n) rd)); cbn; try done; try lia.
    by replace (rx_token rd + 1 + Z.of_nat n) with (rx_token rd + Z.of_nat (S n)) by lia. }
  by replace (S (Z.to_nat (rx_token rd + 1))) with (S (S (Z.to_nat (rx_token rd)))) in Hm by lia.
Qed.

(** The bytes of a run of [run_len + 1] blocks from [start], after one that ended with
    [last]. *)
Definition run_count (run_len : Z) : list Z :=
  if run_len =? 0 then []
  else [as_u8 (Z.land run_len 0xff); as_u8 (Z.land (Z.shiftr run_len 8) 0xff)].

Definition run_bytes (last start run_len : Z) : list Z :=
  (if (0 <=? start - last) && (start - last <=? 63)
   then [(if run_len =? 0 then RSYNC_DEFLATED_TOKEN_REL else RSYNC_DEFLATED_TOKENRUN_REL) +
         as_u8 (start - last)]
   else [if run_len =? 0 then RSYNC_DEFLATED_TOKEN_LONG else RSYNC_DEFLATED_TOKENRUN_LONG] ++
        le_encode 4 start) ++ run_count run_len.

Lemma relative_flag (base rel : Z) :
  base = RSYNC_DEFLATED_TOKEN_REL ∨ base = RSYNC_DEFLATED_TOKENRUN_REL → 0 ≤ rel < 64 →
  Z.land (base + rel) 0xc0 ≠ RSYNC_DEFLATED_DATA ∧ base + rel ≠ RSYNC_DEFLATED_END_FLAG ∧
  Z.land (base + rel) RSYNC_DEFLATED_TOKEN_REL ≠ 0 ∧ Z.land (base + rel) 0x3f = rel ∧
  Z.land (Z.shiftr (base + rel) 6) 1 = (if base =? RSYNC_DEFLATED_TOKEN_REL then 0 else 1).
Proof.
  intros Hbase Hrel.
  assert (Hall : all_below 64 (λ rel, forallb (λ base,
    negb (Z.land (base + rel) 0xc0 =? RSYNC_DEFLATED_DATA) && negb (base + rel =? RSYNC_DEFLATED_END_FLAG) &&
    negb (Z.land (base + rel) RSYNC_DEFLATED_TOKEN_REL =? 0) && (Z.land (base + rel) 0x3f =? rel) &&
    (Z.land (Z.shiftr (base + rel) 6) 1 =? (if base =? RSYNC_DEFLATED_TOKEN_REL then 0 else 1)))
    [RSYNC_DEFLATED_TOKEN_REL; RSYNC_DEFLATED_TOKENRUN_REL]) = true) by by vm_compute.
  apply (all_below_spec _ _ rel Hall) in Hrel. cbn [forallb] in Hrel.
  rewrite !andb_true_iff, !negb_true_iff, !Z.eqb_neq, !Z.eqb_eq in Hrel.
  destruct Hbase as [-> | ->]; tauto.
Qed.

Lemma count_bytes n :
  0 ≤ n ≤ u16_max →
  Z.lor (as_u8 (Z.land n 0xff)) (Z.shiftl (as_u8 (Z.land (Z.shiftr n 8) 0xff)) 8) = n.
Proof.
  intros Hn. unfold u16_max in Hn. unfold as_u8.
  change 0xff with (Z.ones 8). rewrite !Z.land_ones, !Z.mod_mod, Z.shiftr_div_pow2 by lia.
  rewrite (Z.mod_small (n / 2 ^ 8)) by
    (split; [apply Z.div_pos; lia|apply Z.div_lt_upper_bound; lia]).
  rewrite Z.lor_comm, Z.lor_comm. rewrite <-Z.land_ones, <-Z.shiftr_div_pow2 by lia.
  apply Z.bits_inj'. intros i Hi. rewrite Z.lor_spec, Z.land_spec, Z.shiftl_spec by lia.
  rewrite Z.testbit_ones by lia.
  destruct (Z.ltb_spec i 8).
  - rewrite (Z.testbit_neg_r _ (i - 8)) by lia.
    rewrite (proj2 (Z.leb_le 0 i)) by lia. cbn. by rewrite andb_true_r, orb_false_r.
  - rewrite Z.shiftr_spec by lia. replace (i - 8 + 8) with i by lia.
    rewrite andb_false_r. by rewrite andb_false_r.
Qed.

(** The end of [read_run], from the flag of the count on. *)
Definition run_rest (token_flag : Z) : RM RsyncDeflatedToken :=
  self ← on_fst get;
  (if bool_decide (Z.land token_flag 1 ≠ 0) then
     lo ← on_snd read_u8;
     hi ← on_snd read_u8;
     modify_reader (set_rx (rx_token self) (Z.lor lo (Z.shiftl hi 8)))
   else mret ());;
  lift (copy_token (rx_token self)).

Lemma run_rest_spec token_flag rd r n rest :
  0 ≤ n ≤ u16_max → 0 ≤ rx_token rd → rx_run rd = 0 →
  Z.land token_flag 1 = (if n =? 0 then 0 else 1) → avail r (run_count n ++ rest) →
  ∃ r', run_rest token_flag (rd, r) =
    (Ok (Copy (Z.to_nat (rx_token rd))), (set_rx (rx_token rd) n rd, r')) ∧ avail r' rest.
Proof.
  intros Hn Ht Hrun Hflag Hr. unfold run_rest. rewrite get_step, Hflag.
  assert (Hcopy : copy_token (rx_token rd) = Ok (Copy (Z.to_nat (rx_token rd))))
    by (unfold copy_token; by rewrite (proj2 (Z.ltb_ge _ _))).
  unfold run_count in Hr. destruct (Z.eqb_spec n 0) as [->|Hne].
  - rewrite bool_decide_false, bind_ret, Hcopy by auto. exists r. split; [|done].
    destruct rd. cbn in *. by subst.
  - rewrite bool_decide_true by done. rewrite <-app_comm_cons, <-app_comm_cons in Hr.
    destruct (reads_u8 _ r _ Hr) as (r1 & Hr1 & Ha1). destruct (reads_u8 _ r1 _ Ha1) as (r2 & Hr2 & Ha2).
    exists r2. split; [|done].
    rewrite bind_assoc, (snd_step _ _ _ _ _ _ Hr1), bind_assoc, (snd_step _ _ _ _ _ _ Hr2), modify_step.
    by rewrite count_bytes, Hcopy.
Qed.

Lemma run_bytes_flag last start n :
  ∃ b bytes, run_bytes last start n = b :: bytes ∧ Z.land b 0xc0 ≠ RSYNC_DEFLATED_DATA.
Proof.
  unfold run_bytes. destruct ((0 <=? start - last) && (start - last <=? 63)) eqn:Hrel.
  - apply andb_true_iff in Hrel as [? ?]. rewrite as_u8_id by (unfold in_u8; lia).
    eexists _, _. split; [done|]. apply relative_flag; [|lia]. destruct (n =? 0); auto.
  - eexists _, _. split; [done|]. by destruct (n =? 0).
Qed.

Lemma read_run_spec rd r last start n rest :
  idle rd → rx_token rd = last → 0 ≤ start < 2 ^ 31 → 0 ≤ n ≤ u16_max →
  avail r (run_bytes last start n ++ rest) →
  ∃ b r1 r2, read_u8 r = (Ok b, r1) ∧ Z.land b 0xc0 ≠ RSYNC_DEFLATED_DATA ∧
    b ≠ RSYNC_DEFLATED_END_FLAG ∧ avail r2 rest ∧
    read_run b (rd, r1) = (Ok (Copy (Z.to_nat start)), (set_rx start n rd, r2)).
Proof.
  intros [Hp Hrun Hflag] Hlast Hs Hn Hr. unfold run_bytes in Hr.
  destruct ((0 <=? start - last) && (start - last <=? 63)) eqn:Hrel.
  - apply andb_true_iff in Hrel as [H1' H2']. rewrite as_u8_id in Hr by (unfold in_u8; lia).
    set (base := if n =? 0 then _ else _) in *.
    destruct (relative_flag base (start - last)) as (Hd & He & Hb & Hv & Hc);
      [unfold base; destruct (n =? 0); auto|lia|].
    destruct (reads_u8 _ r _ Hr) as (r1 & Hr1 & Ha1).
    destruct (run_rest_spec (Z.shiftr (base + (start - last)) 6) (set_rx start 0 rd) r1 n rest)
      as (r2 & Hrest & Ha2); [done|cbn; lia|done| |done|].
    { rewrite Hc. unfold base. by destruct (n =? 0). }
    exists (base + (start - last)), r1, r2. split_and!; try done.
    unfold read_run. rewrite get_step, bool_decide_true by done.
    rewrite Hv, Hlast, checked_i32_some by (unfold in_i32; lia). cbn [ok_or].
    replace (last + (start - last)) with start by lia. rewrite Hrun. exact Hrest.
  - set (flag := if n =? 0 then _ else _) in *.
    rewrite <-app_assoc, <-app_assoc in Hr. cbn [app] in Hr.
    destruct (reads_u8 _ r _ Hr) as (r1 & Hr1 & Ha1).
    assert (Hi : reads (R := R) read_i32_le (le_encode 4 start) start).
    { assert (Heq : as_i32 (le_decode (le_encode 4 start)) = start).
      { rewrite le_decode_encode. change (256 ^ Z.of_nat 4) with (2 ^ 32).
        rewrite as_i32_mod, as_i32_id; [done|unfold in_i32; lia]. }
      rewrite <-Heq at 2. apply (reads_le 4 (λ l, as_i32 (le_decode l))), length_le_encode. }
    destruct (Hi r1 _ Ha1) as (r2 & Hr2 & Ha2).
    destruct (run_rest_spec flag (set_rx start 0 rd) r2 n rest) as (r3 & Hrest & Ha3);
      [done|cbn; lia|done|by unfold flag; destruct (n =? 0)|done|].
    exists flag, r1, r3. split_and!; try done; try by unfold flag; destruct (n =? 0).
    unfold read_run. rewrite get_step, bool_decide_false
      by (unfold flag; destruct (n =? 0); intros Hf; by apply Hf).
    rewrite bind_assoc, (snd_step _ _ _ _ _ _ Hr2), bind_assoc, modify_step.
    rewrite (proj2 (Z.ltb_ge _ _)), bind_ret, Hrun by lia. exact Hrest.
Qed.

Lemma yields_run rd last start n :
  idle rd → needs_sync_tail rd = false → rx_token rd = last →
  0 ≤ start → 0 ≤ n ≤ u16_max → start + n < 2 ^ 31 →
  yields rd (run_bytes last start n) (copies (Z.to_nat start) (S (Z.to_nat n)))
    (set_rx (start + n) 0 rd).
Proof.
  intros Hidle Hsync Hlast Hs Hn Hb r rest Hr.
  destruct (read_run_spec rd r last start n rest) as (b & r1 & r2 & Hr1 & Hbd & Hbe & Ha2 & Hread);
    [done|done|lia|done|done|].
  exists r2. split; [done|]. intros more p' Hmore. cbn [copies seq fmap list_fmap app].
  eapply run_token; [|done|].
  { rewrite (next_token_flag _ _ _ _ Hidle Hr1 Hbd), flag_settled, (proj2 (Z.eqb_neq b _) Hbe) by done.
    exact Hread. }
  apply (run_continues (set_rx start n rd) r2 (Z.to_nat n)); cbn; [by destruct Hidle|done|lia|lia|].
  by rewrite Z2Nat.id by lia.
Qed.
End reader.

(** ** The writer *)

(** What tokens stand for, whatever the cuts between literals: bytes and blocks. *)
Definition units_of (token : RsyncDeflatedToken) : list (Z + nat) :=
  match token with Literal bytes => inl <$> bytes | Copy i => [inr i] | End => [] end.
Definition units (tokens : list RsyncDeflatedToken) : list (Z + nat) := flat_map units_of tokens.

Lemma units_literal x : units (literal_token x) = inl <$> x.
Proof.
  unfold literal_token. case_bool_decide as Hx; [cbn; by rewrite app_nil_r|].
  by destruct x.
Qed.

Lemma units_copies start n : units (copies start n) = inr <$> seq start n.
Proof. unfold units, copies. revert start. induction n; intros start; cbn; [done|]. by rewrite IHn. Qed.

Definition chunk_bytes (bytes : list Z) : list Z :=
  concat (data_chunk <$> chunks RSYNC_DEFLATED_MAX_DATA_COUNT bytes).

Lemma ends_with_tail (a b : list Z) : ends_with (a ++ b) b = true.
Proof.
  unfold ends_with. rewrite length_app, andb_true_iff, Nat.leb_le, bool_decide_eq_true.
  split; [lia|]. replace (_ - _)%nat with (length a) by lia. apply drop_app_length.
Qed.

(** ** The compressors a writer comes to, and their flushes

    [piece_of input file]: [input] is a run of bytes of [file].  [worked level file c]:
    a writer of [level] that is given nothing but pieces of [file] can come to [c]. *)
Section worked.
Context `{ZlibLaws}.

Definition piece_of (input file : list Z) : Prop := ∃ before after, file = before ++ input ++ after.

Inductive worked (level : Z) (file : list Z) : Compress → Prop :=
| worked_new : worked level file (compress_new (Z.min level 9))
| worked_reset c : worked level file c → worked level file (compress_reset c)
| worked_compress c input flush k out status c' :
    worked level file c → piece_of input file →
    compress c input RSYNC_DEFLATED_MAX_DATA_COUNT flush = Ok (k, out, status, c') →
    worked level file c'.

(** No flush of such a compressor that takes several pieces of the buffer has the bytes
    of the tail at the end of a piece before its last: there the loop of [write_deflated]
    would stop with a part of the flush. *)
Definition no_early_tail (level : Z) (file : list Z) : Prop :=
  ∀ c bytes c', worked level file c → flushing c bytes c' →
    ∀ k, (k * RSYNC_DEFLATED_MAX_DATA_COUNT < length bytes)%nat →
      ends_with (take (k * RSYNC_DEFLATED_MAX_DATA_COUNT) bytes) RSYNC_ZLIB_SYNC_TAIL = false.

Lemma piece_nothing file : piece_of [] file.
Proof. by exists [], file. Qed.

Lemma piece_drop k input file : piece_of input file → piece_of (drop k input) file.
Proof.
  intros (before & after & ->). exists (before ++ take k input), after.
  by rewrite <-app_assoc, (app_assoc (take k input)), take_drop.
Qed.

Lemma piece_within a b file : piece_of a b → piece_of b file → piece_of a file.
Proof.
  intros (b1 & a1 & ->) (b2 & a2 & ->). exists (b2 ++ b1), (a1 ++ a2). by rewrite !app_assoc.
Qed.

Lemma piece_concat (pieces : list (list Z)) piece : piece ∈ pieces → piece_of piece (concat pieces).
Proof.
  intros (l1 & l2 & ->)%list_elem_of_split. exists (concat l1), (concat l2).
  by rewrite concat_app.
Qed.

Lemma deflate_worked level file flush fuel : ∀ c input output c' output',
  worked level file c → piece_of input file →
  deflate_loop fuel c input flush output = Ok (c', output') → worked level file c'.
Proof.
  induction fuel as [|fuel IH]; intros c input output c' output' Hc Hin Hrun; [done|].
  cbn [deflate_loop] in Hrun.
  destruct (compress c input RSYNC_DEFLATED_MAX_DATA_COUNT flush) as [[[[k out] st] c1]|]
    eqn:Hstep; [cbn [and_then] in Hrun|done].
  assert (Hc1 : worked level file c1) by (by eapply worked_compress).
  repeat case_match; simplify_eq; try done. eapply IH; [done| |done]. by apply piece_drop.
Qed.
End worked.

Section simulation.
Context `{ZlibLaws} {W : Type} `{WriteLaws W} {R : Type} `{ReadLaws R}.
Context (level : Z) (file : list Z) (Hquiet : no_early_tail level file).
Implicit Types (wr : RsyncDeflatedTokenWriter) (rd : RsyncDeflatedTokenReader).

Lemma writes_chunks bytes : writes (W := W) (write_deflated_data_chunks bytes) (chunk_bytes bytes) ().
Proof.
  unfold write_deflated_data_chunks, chunk_bytes.
  induction (chunks RSYNC_DEFLATED_MAX_DATA_COUNT bytes) as [|chunk cs IH]; [apply writes_ret|].
  cbn [for_each fmap list_fmap concat]. eapply writes_bind; [|exact IH].
  unfold write_data_chunk, data_chunk. eapply writes_bind; apply writes_all.
Qed.

Lemma yields_chunk_list cs : ∀ rd x d',
  idle rd → Forall (λ c, length c ≤ RSYNC_DEFLATED_MAX_DATA_COUNT)%nat cs →
  feeds (decompressor rd) (concat cs) x d' →
  ∃ ts rd', yields (R := R) rd (concat (data_chunk <$> cs)) ts rd' ∧ units ts = inl <$> x ∧
    idle rd' ∧ decompressor rd' = d' ∧ rx_token rd' = rx_token rd ∧
    needs_sync_tail rd' = needs_sync_tail rd || bool_decide (cs ≠ []).
Proof.
  induction cs as [|c cs IH]; intros rd x d' Hidle Hlen Hfeed.
  - apply feeds_nothing in Hfeed as [-> ->]. exists [], rd.
    split_and!; try done; [apply yields_nil|]. by rewrite orb_false_r.
  - inversion_clear Hlen as [|? ? Hc Hcs]. cbn [concat] in Hfeed.
    apply feeds_split in Hfeed as (xa & dm & xb & Ha & Hb & ->).
    destruct (IH (after_data dm rd) xb d') as (ts & rd' & Hy & Hu & Hi & Hd & Hx & Hs);
      [by apply idle_after_data|done|done|].
    exists (literal_token xa ++ ts), rd'. cbn [fmap list_fmap concat]. split_and!; try done.
    + eapply yields_app; [by apply yields_data|done].
    + unfold units in *. rewrite flat_map_app, Hu, fmap_app. f_equal. apply units_literal.
    + rewrite Hs. cbn. by rewrite orb_true_r.
Qed.

Lemma yields_chunk_bytes rd out x d' :
  idle rd → feeds (decompressor rd) out x d' →
  ∃ ts rd', yields (R := R) rd (chunk_bytes out) ts rd' ∧ units ts = inl <$> x ∧
    idle rd' ∧ decompressor rd' = d' ∧ rx_token rd' = rx_token rd ∧
    (out ≠ [] → needs_sync_tail rd' = true).
Proof.
  intros Hidle Hfeed.
  rewrite <-(concat_chunks RSYNC_DEFLATED_MAX_DATA_COUNT out) in Hfeed by apply max_data_positive.
  destruct (yields_chunk_list (chunks RSYNC_DEFLATED_MAX_DATA_COUNT out) rd x d')
    as (ts & rd' & Hy & Hu & Hi & Hd & Hx & Hs); [done| |done|].
  { eapply Forall_impl; [apply chunks_bounds, max_data_positive|]. cbn. lia. }
  exists ts, rd'. split_and!; try done. intros Hne. rewrite Hs.
  rewrite chunks_cons by (done || apply max_data_positive).
  by rewrite bool_decide_true, orb_true_r.
Qed.

(** Literal data goes into the stream. *)
Lemma literal_step wr rd data input :
  idle rd → owes (compressor wr) (decompressor rd) data →
  worked level file (compressor wr) → piece_of input file → input ≠ [] →
  ∃ bs c' ts rd' data',
    writes_st (W := W) (write_deflated input FlushNone) wr bs () (set_compressor c' wr) ∧
    yields (R := R) rd bs ts rd' ∧ idle rd' ∧ rx_token rd' = rx_token rd ∧
    owes c' (decompressor rd') data' ∧ taken c' ∧ worked level file c' ∧
    units ts ++ (inl <$> data') = (inl <$> data) ++ (inl <$> input).
Proof.
  intros Hidle Ho Hworked Hin Hne.
  destruct (deflate_none (length input + deflate_bound (compressor wr) (length input) + 1)
              (compressor wr) (decompressor rd) data input [])
    as (c' & out & x & d' & data' & Hrun & Hfeed & Hx & Ho' & Htaken);
    [done|lia|].
  destruct (yields_chunk_bytes rd out x d' Hidle Hfeed) as (ts & rd' & Hy & Hu & Hi & Hd & Hrx & _).
  exists (chunk_bytes out), c', ts, rd', data'. split_and!; try done.
  - unfold write_deflated. apply writes_st_get.
    eapply writes_st_lift; [exact Hrun|]. cbn [app].
    eapply writes_st_put, writes_st_lift; [done|]. apply writes_st_on_snd, writes_chunks.
  - by rewrite Hd.
  - auto.
  - by eapply deflate_worked.
  - by rewrite Hu, <-!fmap_app, Hx.
Qed.

(** The stream is flushed, all but its tail. *)
Lemma flush_step wr rd data :
  idle rd → owes (compressor wr) (decompressor rd) data →
  worked level file (compressor wr) → taken (compressor wr) →
  ∃ bs c' ts rd' x d',
    writes_st (W := W) (write_deflated [] FlushSync) wr bs () (set_compressor c' wr) ∧
    yields (R := R) rd bs ts rd' ∧ idle rd' ∧ rx_token rd' = rx_token rd ∧
    needs_sync_tail rd' = true ∧ feeds (decompressor rd') RSYNC_ZLIB_SYNC_TAIL x d' ∧
    owes c' d' [] ∧ worked level file c' ∧ units ts ++ (inl <$> x) = inl <$> data.
Proof.
  intros Hidle Ho Hworked Htaken.
  destruct (sync_flushes _ _ _ Htaken Ho) as (body & c' & d' & Hfl & Hne & Hfeed & Ho' & Hb).
  assert (Hrun : deflate_loop (0 + deflate_bound (compressor wr) 0 + 1) (compressor wr) [] FlushSync [] =
                 Ok (c', body ++ RSYNC_ZLIB_SYNC_TAIL)).
  { rewrite (deflate_sync _ _ (body ++ RSYNC_ZLIB_SYNC_TAIL) c' 0 []); try done.
    - by destruct body.
    - cbn [app]. apply ends_with_tail.
    - cbn [app]. by eapply Hquiet.
    - lia. }
  apply feeds_split in Hfeed as (x & dm & y & Hx & Hy & ->).
  destruct (yields_chunk_bytes rd body x dm Hidle Hx) as (ts & rd' & Hyi & Hu & Hi & Hd & Hrx & Hs).
  exists (chunk_bytes body), c', ts, rd', y, d'. split_and!; try done; try by auto.
  - unfold write_deflated. apply writes_st_get. cbn [length].
    eapply writes_st_lift; [exact Hrun|]. cbn [app].
    eapply writes_st_put, (writes_st_lift _ _ _ _ _ body); [|apply writes_st_on_snd, writes_chunks].
    rewrite bool_decide_true, ends_with_tail, length_app, Nat.add_sub by done.
    by rewrite take_app_length.
  - by rewrite Hd.
  - eapply deflate_worked; [exact Hworked|apply piece_nothing|exact Hrun].
  - by rewrite Hu, fmap_app.
Qed.

(** ** What the writer still owes the reader, between two tokens *)

Record fresh rd : Prop := {
  fresh_idle : idle rd;
  fresh_sync : needs_sync_tail rd = false;
  fresh_token : rx_token rd = 0;
  fresh_stream : ∀ c, owes (compress_reset c) (decompressor rd) [];
}.

(** The rest of the stream that the next flag brings out. *)
Definition tail_owed (c : Compress) rd (x : list Z) (d' : Decompress) : Prop :=
  owes c d' [] ∧
  (needs_sync_tail rd = true ∧ feeds (decompressor rd) RSYNC_ZLIB_SYNC_TAIL x d' ∨
   needs_sync_tail rd = false ∧ x = [] ∧ d' = decompressor rd).

Definition run_ok wr rd : Prop :=
  0 ≤ run_start wr ≤ last_token wr ∧ last_token wr < 2 ^ 31 ∧
  last_token wr - run_start wr ≤ u16_max ∧ idle rd ∧ flush_pending wr = false ∧
  rx_token rd = last_run_end wr ∧ 0 ≤ last_run_end wr < 2 ^ 31.

Inductive todo wr rd : list (Z + nat) → Prop :=
| todo_start : last_token wr = -1 → fresh rd → todo wr rd []
| todo_literal data :
    last_token wr = -2 → idle rd → flush_pending wr = true → rx_token rd = last_run_end wr →
    0 ≤ last_run_end wr < 2 ^ 31 → owes (compressor wr) (decompressor rd) data →
    taken (compressor wr) → todo wr rd (inl <$> data)
| todo_run x d' :
    run_ok wr rd → tail_owed (compressor wr) rd x d' →
    todo wr rd ((inl <$> x) ++
      (inr <$> seq (Z.to_nat (run_start wr)) (S (Z.to_nat (last_token wr - run_start wr))))).

(** A run that is written is read, behind the rest of the stream. *)
Lemma run_step wr rd x d' :
  run_ok wr rd → tail_owed (compressor wr) rd x d' →
  ∃ bs ts rd',
    writes (W := W) (write_pending_run wr) bs () ∧ yields (R := R) rd bs ts rd' ∧
    idle rd' ∧ needs_sync_tail rd' = false ∧ rx_token rd' = last_token wr ∧
    owes (compressor wr) (decompressor rd') [] ∧
    units ts = (inl <$> x) ++
      (inr <$> seq (Z.to_nat (run_start wr)) (S (Z.to_nat (last_token wr - run_start wr)))).
Proof.
  intros (Hs & Hl & Hlen & Hidle & Hflush & Hrx & Hend) [Ho Htail].
  set (n := last_token wr - run_start wr) in *.
  exists (run_bytes (last_run_end wr) (run_start wr) n).
  assert (Hw : writes (W := W) (write_pending_run wr) (run_bytes (last_run_end wr) (run_start wr) n) ()).
  { unfold write_pending_run.
    eapply (writes_bind _ _ []); [apply writes_lift; by rewrite checked_i32_some by (unfold in_i32; lia)|].
    eapply (writes_bind _ _ []); [apply writes_lift; rewrite checked_i32_some by (unfold in_i32; lia); done|].
    fold n. rewrite (proj2 (Z.ltb_ge _ _)) by done. unfold run_bytes.
    eapply writes_bind; [|unfold run_count; destruct (n =? 0); [apply writes_ret|apply writes_all]].
    destruct (_ && _); [apply writes_all|].
    eapply writes_bind; [apply writes_all|]. apply writes_all. }
  assert (Hrun : ∀ rd0, idle rd0 → needs_sync_tail rd0 = false → rx_token rd0 = last_run_end wr →
    yields (R := R) rd0 (run_bytes (last_run_end wr) (run_start wr) n)
      (copies (Z.to_nat (run_start wr)) (S (Z.to_nat n))) (set_rx (last_token wr) 0 rd0)).
  { intros rd0 H1' H2' H3'. replace (last_token wr) with (run_start wr + n) by lia.
    apply yields_run; try done; lia. }
  destruct Htail as [[Hsync Hfeed]|(Hsync & -> & ->)].
  - exists (literal_token x ++ copies (Z.to_nat (run_start wr)) (S (Z.to_nat n))),
      (set_rx (last_token wr) 0 (settled d' rd)).
    split_and!; try done.
    + destruct (run_bytes_flag (last_run_end wr) (run_start wr) n) as (b & bytes & Hb & Hd).
      rewrite Hb. eapply yields_sync; try done. rewrite <-Hb. apply Hrun; try done.
      by apply idle_settled.
    + by destruct Hidle.
    + unfold units. rewrite flat_map_app. f_equal; [apply units_literal|apply units_copies].
  - exists (copies (Z.to_nat (run_start wr)) (S (Z.to_nat n))), (set_rx (last_token wr) 0 rd).
    split_and!; try done; [by apply Hrun|by destruct Hidle|apply units_copies].
Qed.

Lemma writes_st_modify f wr : writes_st (modify_writer (W := W) f) wr [] () (f wr).
Proof. intros w Hw. exists w. split; [done|]. split; [apply emits_nil|done]. Qed.

(** The parts of [send_token]. *)
Lemma send_token_parts token data wr b1 wr1 b2 wr2 b3 :
  writes_st (before_token token data) wr b1 () wr1 →
  writes_st (token_payload token data) (set_last_token token wr1) b2 () wr2 →
  writes_st (E := io_error)
    (if token =? -1 then on_snd (write_all [RSYNC_DEFLATED_END_FLAG]) else mret ()) wr2 b3 () wr2 →
  writes_st (W := W) (send_token token data) wr (b1 ++ b2 ++ b3) () wr2.
Proof.
  intros H1' H2' H3'. unfold send_token. eapply writes_st_bind; [exact H1'|].
  rewrite <-(app_nil_l (b2 ++ b3)). eapply writes_st_bind; [apply writes_st_modify|].
  eapply writes_st_bind; [exact H2'|exact H3'].
Qed.

Lemma units_app a b : units (a ++ b) = units a ++ units b.
Proof. apply flat_map_app. Qed.

(** Before a literal, whatever the writer owed is sent or is in the stream. *)
Lemma before_data wr rd u token data :
  todo wr rd u → data ≠ [] → worked level file (compressor wr) →
  ∃ bs wr' ts rd' data0,
    writes_st (W := W) (before_token token data) wr bs () wr' ∧ yields (R := R) rd bs ts rd' ∧
    idle rd' ∧ owes (compressor wr') (decompressor rd') data0 ∧ worked level file (compressor wr') ∧
    rx_token rd' = last_run_end wr' ∧ 0 ≤ last_run_end wr' < 2 ^ 31 ∧
    units ts ++ (inl <$> data0) = u.
Proof.
  intros Htodo Hne Hworked.
  destruct Htodo as [Hl Hfresh|old Hl Hidle Hflush Hrx Hend Ho Ht|x d' Hrun Htail].
  - exists [], (start_file token wr), [], rd, []. destruct Hfresh.
    split_and!; try done; try apply yields_nil; try (cbn; lia).
    + apply writes_st_get. rewrite Hl. apply writes_st_modify.
    + apply fresh_stream0.
    + by apply worked_reset.
  - exists [], (set_run_start token wr), [], rd, old. split_and!; try done; try apply yields_nil; try (cbn; lia).
    apply writes_st_get. rewrite Hl. apply writes_st_modify.
  - pose proof Hrun as (Hs & Hl & _).
    destruct (run_step wr rd x d' Hrun Htail) as (bs & ts & rd' & Hw & Hy & Hi & _ & Hrx & Ho & Hu).
    exists bs, (start_run token wr), ts, rd', []. split_and!; try done; cbn; try lia.
    + apply writes_st_get. rewrite !(proj2 (Z.eqb_neq _ _)) by lia.
      unfold ends_run. rewrite bool_decide_true by done. cbn [orb].
      rewrite <-(app_nil_r bs). eapply writes_st_bind; [by apply writes_st_on_snd|apply writes_st_modify].
    + by rewrite app_nil_r.
Qed.

Lemma send_data_step wr rd u data :
  todo wr rd u → data ≠ [] → worked level file (compressor wr) → piece_of data file →
  ∃ bs wr' ts rd' u',
    writes_st (W := W) (send_token (-2) data) wr bs () wr' ∧ yields (R := R) rd bs ts rd' ∧
    todo wr' rd' u' ∧ worked level file (compressor wr') ∧ units ts ++ u' = u ++ (inl <$> data).
Proof.
  intros Htodo Hne Hworked Hin.
  destruct (before_data wr rd u (-2) data Htodo Hne Hworked)
    as (b1 & wr1 & t1 & rd1 & data0 & Hw1 & Hy1 & Hi1 & Ho1 & Hwk1 & Hrx1 & Hb1 & Hu1).
  destruct (literal_step (set_last_token (-2) wr1) rd1 data0 data Hi1 Ho1 Hwk1 Hin Hne)
    as (b2 & c' & t2 & rd2 & data' & Hw2 & Hy2 & Hi2 & Hrx2 & Ho2 & Ht2 & Hwk2 & Hu2).
  exists (b1 ++ b2 ++ []), (set_flush_pending true (set_compressor c' (set_last_token (-2) wr1))),
    (t1 ++ t2), rd2, (inl <$> data').
  split_and!.
  - eapply send_token_parts; [exact Hw1| |apply writes_st_ret].
    apply writes_st_get. rewrite bool_decide_true by done.
    rewrite <-(app_nil_r b2). eapply writes_st_bind; [exact Hw2|apply writes_st_modify].
  - rewrite app_nil_r. by eapply yields_app.
  - apply todo_literal; cbn; try done. by rewrite Hrx2.
  - done.
  - by rewrite units_app, <-app_assoc, Hu2, app_assoc, Hu1.
Qed.

Lemma payload_of_copy token wr :
  flush_pending wr = false → writes_st (W := W) (token_payload token []) wr [] () wr.
Proof.
  intros Hf. apply writes_st_get. rewrite bool_decide_false, Hf by auto. apply writes_st_ret.
Qed.

Lemma seq_snoc start n : seq start (S n) = seq start n ++ [(start + n)%nat].
Proof. apply seq_S. Qed.

Lemma single_run token :
  0 ≤ token → seq (Z.to_nat token) (S (Z.to_nat (token - token))) = [Z.to_nat token].
Proof. intros. by rewrite Z.sub_diag. Qed.

Lemma send_copy_step wr rd u token :
  todo wr rd u → 0 ≤ token < 2 ^ 31 → worked level file (compressor wr) →
  ∃ bs wr' ts rd' u',
    writes_st (W := W) (send_token token []) wr bs () wr' ∧ yields (R := R) rd bs ts rd' ∧
    todo wr' rd' u' ∧ worked level file (compressor wr') ∧ units ts ++ u' = u ++ [inr (Z.to_nat token)].
Proof.
  intros Htodo Ht Hworked.
  assert (Hlast : ∀ wr', writes_st (W := W) (E := io_error)
    (if token =? -1 then on_snd (write_all [RSYNC_DEFLATED_END_FLAG]) else mret ()) wr' [] () wr')
    by (intros; rewrite (proj2 (Z.eqb_neq _ _)) by lia; apply writes_st_ret).
  destruct Htodo as [Hl Hfresh|old Hl Hidle Hflush Hrx Hend Ho Htaken|x d' Hrun Htail].
  - destruct Hfresh as [Hidle Hsync Hrx Hstream].
    eexists [], (set_last_token token (start_file token wr)), [], rd, _. split_and!.
    + eapply (send_token_parts _ _ _ [] _ [] _ []); [| |apply Hlast].
      * apply writes_st_get. rewrite Hl. apply writes_st_modify.
      * by apply payload_of_copy.
    + apply yields_nil.
    + apply (todo_run _ _ [] (decompressor rd)); [|by split; [apply Hstream|auto]].
      unfold run_ok, u16_max. cbn. split_and!; try done; lia.
    + by apply worked_reset.
    + cbn [run_start last_token set_last_token start_file]. by rewrite single_run by lia.
  - destruct (flush_step (set_last_token token (set_run_start token wr)) rd old Hidle Ho Hworked Htaken)
      as (b2 & c' & ts & rd' & x & d' & Hw & Hy & Hi & Hrx' & Hsync & Hfeed & Ho' & Hwk & Hu).
    eexists ([] ++ b2 ++ []), (set_flush_pending false
      (set_compressor c' (set_last_token token (set_run_start token wr)))), ts, rd', _. split_and!.
    + eapply send_token_parts; [| |apply Hlast].
      * apply writes_st_get. rewrite Hl. apply writes_st_modify.
      * apply writes_st_get. rewrite bool_decide_false by auto. cbn [flush_pending set_last_token set_run_start].
        rewrite Hflush, (proj2 (Z.eqb_neq _ _)) by lia. cbn [negb andb].
        rewrite <-(app_nil_r b2). eapply writes_st_bind; [exact Hw|apply writes_st_modify].
    + by rewrite app_nil_r.
    + apply (todo_run _ _ x d'); [|by split; [|auto]].
      unfold run_ok, u16_max. cbn. rewrite Hrx'. split_and!; try done; lia.
    + done.
    + cbn [run_start last_token set_flush_pending set_compressor set_last_token set_run_start].
      by rewrite single_run, app_assoc, Hu by lia.
  - pose proof Hrun as (Hs & Hl & Hlen & Hidle & Hflush & Hrx & Hend).
    destruct (ends_run wr token []) eqn:Hends.
    + destruct (run_step wr rd x d' Hrun Htail) as (bs & ts & rd' & Hw & Hy & Hi & Hsync & Hrx' & Ho & Hu).
      eexists (bs ++ [] ++ []), (set_last_token token (start_run token wr)), ts, rd', _. split_and!.
      * eapply send_token_parts; [| |apply Hlast]; [|by apply payload_of_copy].
        apply writes_st_get. rewrite !(proj2 (Z.eqb_neq _ _)), Hends by lia.
        rewrite <-(app_nil_r bs). eapply writes_st_bind; [by apply writes_st_on_snd|apply writes_st_modify].
      * by rewrite !app_nil_r.
      * apply (todo_run _ _ [] (decompressor rd')); [|by split; [|auto]].
        unfold run_ok, u16_max. cbn. split_and!; try done; lia.
      * done.
      * cbn [run_start last_token set_last_token start_run]. by rewrite single_run, Hu by lia.
    + pose proof Hends as Hkeep. unfold ends_run in Hends. rewrite bool_decide_false in Hends by auto.
      cbn [orb] in Hends. apply orb_false_iff in Hends as [Hnext%bool_decide_eq_false Hlimit].
      apply dec_stable in Hnext. unfold checked_i32 in Hnext, Hlimit.
      assert (token = last_token wr + 1 ∧ token < run_start wr + 65536) as [-> Hlt].
      { repeat case_match; simplify_eq; try done; (split; [done|lia]). }
      eexists [], (set_last_token (last_token wr + 1) wr), [], rd, _. split_and!.
      * eapply (send_token_parts _ _ _ [] _ [] _ []); [| |apply Hlast].
        -- apply writes_st_get. rewrite !(proj2 (Z.eqb_neq _ _)), Hkeep by lia.
           apply writes_st_ret.
        -- by apply payload_of_copy.
      * apply yields_nil.
      * apply (todo_run _ _ x d'); [|done].
        unfold run_ok, u16_max in *. cbn. split_and!; try done; lia.
      * done.
      * cbn [run_start last_token set_last_token].
        replace (Z.to_nat (last_token wr + 1 - run_start wr))
          with (S (Z.to_nat (last_token wr - run_start wr))) by lia.
        rewrite (seq_snoc _ (S _)), fmap_app. cbn [fmap list_fmap app units flat_map].
        rewrite app_assoc. do 3 f_equal. lia.
Qed.

(** The end of a file brings out all that was owed. *)
Lemma finish_step wr rd u :
  todo wr rd u → worked level file (compressor wr) →
  ∃ bs wr', writes_st (W := W) finish_tokens wr bs () wr' ∧ last_token wr' = -1 ∧
    ∀ (r : R) rest, avail r (bs ++ rest) →
      ∃ ts rd' r', token_run (rd, r) ts (rd', r') ∧ avail r' rest ∧ units ts = u ∧ fresh rd'.
Proof.
  intros Htodo Hworked.
  assert (Hlast : ∀ wr', writes_st (W := W) (E := io_error)
    (if -1 =? -1 then on_snd (write_all [RSYNC_DEFLATED_END_FLAG]) else mret ()) wr'
    [RSYNC_DEFLATED_END_FLAG] () wr') by (intros; apply writes_st_on_snd, writes_all).
  assert (Hfresh : ∀ rd', idle rd' → fresh (reset_file rd'))
    by (intros; split; try done; intros; apply owes_reset).
  destruct Htodo as [Hl [Hidle Hsync Hrx Hstream]|old Hl Hidle Hflush Hrx Hend Ho Htaken|x d' Hrun Htail].
  - exists ([] ++ [] ++ [RSYNC_DEFLATED_END_FLAG]), (set_last_token (-1) (start_file (-1) wr)).
    split_and!; [|done|].
    + eapply send_token_parts; [| |apply Hlast]; [|by apply payload_of_copy].
      apply writes_st_get. rewrite Hl. apply writes_st_modify.
    + intros r rest Hr. destruct (end_run rd r rest Hidle Hsync Hr) as (r' & Hr' & Hrun).
      exists [], (reset_file rd), r'. auto.
  - destruct (flush_step (set_last_token (-1) (set_run_start (-1) wr)) rd old Hidle Ho Hworked Htaken)
      as (b2 & c' & ts & rd' & x & d' & Hw & Hy & Hi & Hrx' & Hsync & Hfeed & Ho' & Hwk & Hu).
    exists ([] ++ b2 ++ [RSYNC_DEFLATED_END_FLAG]), (set_flush_pending false
      (set_compressor c' (set_last_token (-1) (set_run_start (-1) wr)))).
    split_and!; [|done|].
    + eapply send_token_parts; [| |apply Hlast].
      * apply writes_st_get. rewrite Hl. apply writes_st_modify.
      * apply writes_st_get. rewrite bool_decide_false by auto. cbn [flush_pending set_last_token set_run_start].
        rewrite Hflush. cbn [Z.eqb negb andb].
        rewrite <-(app_nil_r b2). eapply writes_st_bind; [exact Hw|apply writes_st_modify].
    + intros r rest Hr. cbn [app] in Hr. rewrite <-app_assoc in Hr.
      destruct (Hy r _ Hr) as (r1 & Ha1 & Hk).
      destruct (reads_u8 _ r1 rest Ha1) as (r2 & Hr2 & _).
      destruct (end_run (settled d' rd') r1 rest) as (r3 & Ha3 & Hrun);
        [by apply idle_settled|done|done|].
      eexists (ts ++ literal_token x), _, r3. split_and!; [|done| |].
      * apply Hk. rewrite <-(app_nil_r (literal_token x)). eapply sync_run; try done.
      * by rewrite units_app, units_literal.
      * by apply Hfresh, idle_settled.
  - pose proof Hrun as (Hs & Hl & Hlen & _ & Hflush & _).
    destruct (run_step wr rd x d' Hrun Htail) as (bs & ts & rd' & Hw & Hy & Hi & Hsync & Hrx & Ho & Hu).
    exists (bs ++ [] ++ [RSYNC_DEFLATED_END_FLAG]), (set_last_token (-1) (start_run (-1) wr)).
    split_and!; [|done|].
    + eapply send_token_parts; [| |apply Hlast]; [|by apply payload_of_copy].
      apply writes_st_get. rewrite !(proj2 (Z.eqb_neq _ _)) by lia.
      assert (ends_run wr (-1) [] = true) as ->.
      { unfold ends_run. rewrite (bool_decide_true (checked_i32 _ ≠ _)); [by rewrite orb_true_r|].
        unfold checked_i32. destruct (_ && (last_token wr + 1 <? _)); [|done]. intros [= Heq]. lia. }
      rewrite <-(app_nil_r bs). eapply writes_st_bind; [by apply writes_st_on_snd|apply writes_st_modify].
    + intros r rest Hr. rewrite <-app_assoc in Hr. cbn [app] in Hr.
      destruct (Hy r _ Hr) as (r1 & Ha1 & Hk).
      destruct (end_run rd' r1 rest Hi Hsync Ha1) as (r2 & Ha2 & Hend).
      exists ts, (reset_file rd'), r2. split_and!; [|done|done|by apply Hfresh].
      rewrite <-(app_nil_r ts). by apply Hk.
Qed.

(** ** A file *)

Definition send_event (event : RsyncDeflatedToken) : M (RsyncDeflatedTokenWriter * W) io_error unit :=
  match event with
  | Literal bytes => send_literal bytes
  | Copy i => send_copy i
  | End => mret ()
  end.

Definition event_ok (event : RsyncDeflatedToken) : Prop :=
  match event with
  | Copy i => Z.of_nat i < 2 ^ 31
  | Literal bytes => piece_of bytes file
  | End => False
  end.

(** From [wr] and [rd], [m] sends what gives the reader [new] in all. *)
Definition carries (m : M (RsyncDeflatedTokenWriter * W) io_error unit) (new : list (Z + nat)) : Prop :=
  ∀ wr rd u, todo wr rd u → worked level file (compressor wr) → ∃ bs wr' ts rd' u',
    writes_st m wr bs () wr' ∧ yields (R := R) rd bs ts rd' ∧ todo wr' rd' u' ∧
    worked level file (compressor wr') ∧ units ts ++ u' = u ++ new.

Lemma carries_nothing : carries (mret ()) [].
Proof.
  intros wr rd u Htodo Hworked. exists [], wr, [], rd, u. split_and!; try done.
  - apply writes_st_ret.
  - apply yields_nil.
  - by rewrite app_nil_r.
Qed.

Lemma carries_then m1 m2 n1 n2 : carries m1 n1 → carries m2 n2 → carries (m1;; m2) (n1 ++ n2).
Proof.
  intros H1' H2' wr rd u Htodo Hwk.
  destruct (H1' wr rd u Htodo Hwk) as (b1 & wr1 & t1 & rd1 & u1 & Hw1 & Hy1 & Htodo1 & Hwk1 & Hu1).
  destruct (H2' wr1 rd1 u1 Htodo1 Hwk1)
    as (b2 & wr2 & t2 & rd2 & u2 & Hw2 & Hy2 & Htodo2 & Hwk2 & Hu2).
  exists (b1 ++ b2), wr2, (t1 ++ t2), rd2, u2. split_and!; try done.
  - by eapply writes_st_bind.
  - by eapply yields_app.
  - by rewrite units_app, <-app_assoc, Hu2, app_assoc, Hu1, app_assoc.
Qed.

Lemma chunk_size_positive : (0 < RSYNC_DEFLATED_CHUNK_SIZE)%nat.
Proof. unfold RSYNC_DEFLATED_CHUNK_SIZE. apply Nat.mul_pos_pos; lia. Qed.
#[local] Opaque RSYNC_DEFLATED_CHUNK_SIZE.

Lemma carries_literal bytes :
  piece_of bytes file → carries (send_literal bytes) (inl <$> bytes).
Proof.
  unfold send_literal. intros Hbytes.
  rewrite <-(concat_chunks RSYNC_DEFLATED_CHUNK_SIZE bytes) at 2
    by apply chunk_size_positive.
  assert (Hb : Forall (λ c, c ≠ [] ∧ piece_of c file) (chunks RSYNC_DEFLATED_CHUNK_SIZE bytes)).
  { apply Forall_forall. intros c Hc. split.
    - pose proof (chunks_bounds RSYNC_DEFLATED_CHUNK_SIZE bytes chunk_size_positive) as Hb.
      rewrite Forall_forall in Hb. intros ->. destruct (Hb [] Hc) as [Hb1 _]. by apply Nat.lt_irrefl in Hb1.
    - apply piece_concat in Hc. rewrite concat_chunks in Hc by apply chunk_size_positive.
      by eapply piece_within. }
  induction Hb as [|c cs [Hc Hin] _ IH]; [apply carries_nothing|].
  cbn [for_each concat]. rewrite fmap_app. apply carries_then; [|done].
  intros wr rd u Htodo Hwk. by apply send_data_step.
Qed.

Lemma carries_event event : event_ok event → carries (send_event event) (units_of event).
Proof.
  destruct event as [bytes|i|]; [apply carries_literal| |done].
  intros Hi wr rd u Htodo Hwk. cbn in Hi.
  destruct (send_copy_step wr rd u (Z.of_nat i) Htodo) as (bs & wr' & ts & rd' & u' & Hw & Hrest); [lia|done|].
  exists bs, wr', ts, rd', u'. rewrite Nat2Z.id in Hrest. split; [|done].
  unfold send_event, send_copy. eapply writes_st_lift; [|exact Hw].
  by rewrite checked_i32_some by (unfold in_i32; lia).
Qed.

Lemma carries_events events :
  Forall event_ok events → carries (for_each send_event events) (units events).
Proof.
  induction 1 as [|event events Hok _ IH]; [apply carries_nothing|].
  cbn [for_each units flat_map]. apply carries_then; [by apply carries_event|done].
Qed.

Lemma tokens_carried wr rd events :
  last_token wr = -1 → worked level file (compressor wr) → fresh rd → Forall event_ok events →
  ∃ bs wr', writes_st (W := W) (for_each send_event events;; finish_tokens) wr bs () wr' ∧
    last_token wr' = -1 ∧
    ∀ (r : R) rest, avail r (bs ++ rest) →
      ∃ tokens rd' r', token_run (rd, r) tokens (rd', r') ∧ avail r' rest ∧
        units tokens = units events ∧ fresh rd'.
Proof.
  intros Hl Hwk Hfresh Hevents.
  destruct (carries_events events Hevents wr rd [] (todo_start wr rd Hl Hfresh) Hwk)
    as (b1 & wr1 & t1 & rd1 & u1 & Hw1 & Hy1 & Htodo & Hwk1 & Hu).
  destruct (finish_step wr1 rd1 u1 Htodo Hwk1) as (b2 & wr2 & Hw2 & Hl2 & Hread).
  exists (b1 ++ b2), wr2. split_and!; [by eapply writes_st_bind|done|].
  intros r rest Hr. rewrite <-app_assoc in Hr.
  destruct (Hy1 r _ Hr) as (r1 & Ha1 & Hk).
  destruct (Hread r1 rest Ha1) as (ts & rd' & r2 & Hrun & Ha2 & Hu2 & Hf2).
  exists (t1 ++ ts), rd', r2. split_and!; [by apply Hk|done| |done].
  by rewrite units_app, Hu2.
Qed.

(** The tokens of a file that a writer sends, literals and copies in any order, are the
    tokens that a reader takes from its bytes up to the end of the file, but for where
    literals are cut; both are then ready for the next file. *)
Theorem deflated_tokens_round_trip wr rd events :
  last_token wr = -1 → worked level file (compressor wr) → fresh rd → Forall event_ok events →
  ∃ bs wr', writes_st (W := W) (for_each send_event events;; finish_tokens) wr bs () wr' ∧
    last_token wr' = -1 ∧
    ∀ (r : R) rest, avail r (bs ++ rest) →
      ∃ tokens rd' r', token_run (rd, r) tokens (rd', r') ∧ avail r' rest ∧
        units tokens = units events ∧ fresh rd'.
Proof. apply tokens_carried. Qed.
End simulation.

(** ** A compressor that only stores

    A byte is marked with 1, the end of a flush with 0 before the tail.  Its state is
    whether it has taken input since the last flush; if not, a flush puts nothing out. *)

Inductive StoredState := AtMark | AtByte | InTail (rest : nat).

Fixpoint stored_run (d : StoredState) (bytes : list Z) : list Z * StoredState :=
  match bytes with
  | [] => ([], d)
  | b :: bytes =>
      match d with
      | AtMark => if b =? 1 then stored_run AtByte bytes else stored_run (InTail 3) bytes
      | AtByte => let '(x, d) := stored_run AtMark bytes in (b :: x, d)
      | InTail (S rest) => stored_run (InTail rest) bytes
      | InTail O => stored_run AtMark bytes
      end
  end.

Definition stored_flush : list Z := [0] ++ RSYNC_ZLIB_SYNC_TAIL.

Definition stored_compress (c : bool) (input : list Z) (room : nat) (flush : FlushCompress) :
    result (nat * list Z * Status * bool) io_error :=
  match flush with
  | FlushNone =>
      let k := Nat.min (length input) (room / 2) in
      Ok (k, flat_map (λ b, [1; b]) (take k input), StatusOk, c || (0 <? k)%nat)
  | FlushSync =>
      Ok (if c then (0%nat, take room stored_flush, StatusOk, false)
          else (0%nat, [], BufError, false))
  end.

#[local] Instance stored_zlib : Zlib := {|
  Compress := bool;
  Decompress := StoredState;
  compress_new _ := false;
  compress_reset _ := false;
  compress := stored_compress;
  deflate_bound _ len := (2 * len + 5)%nat;
  decompress_new := AtMark;
  decompress_reset _ := AtMark;
  decompress_vec d input _ :=
    let '(x, d) := stored_run d input in Ok (length input, x, StatusOk, d);
  inflate_bound _ len := len;
|}.

Lemma stored_run_app d a b :
  stored_run d (a ++ b) =
  let '(x, dm) := stored_run d a in let '(y, d') := stored_run dm b in (x ++ y, d').
Proof.
  revert d. induction a as [|z a IH]; intros d; cbn; [by destruct (stored_run d b)|].
  destruct d as [| |[|rest]]; [destruct (z =? 1)| | |]; rewrite IH; try done.
  destruct (stored_run AtMark a) as [x dm], (stored_run dm b). done.
Qed.

Lemma stored_run_length d a : (length (stored_run d a).1 ≤ length a)%nat.
Proof.
  revert d. induction a as [|z a IH]; intros d; cbn; [done|].
  destruct d as [| |[|rest]]; [destruct (z =? 1)| | |];
    try (match goal with |- context [stored_run ?d a] => specialize (IH d) end; lia).
  specialize (IH AtMark). destruct (stored_run AtMark a). cbn in *. lia.
Qed.

Lemma stored_literals input : stored_run AtMark (flat_map (λ b, [1; b]) input) = (input, AtMark).
Proof. induction input as [|b input IH]; [done|]. cbn. by rewrite IH. Qed.

Lemma max_data_bounds : (5 ≤ RSYNC_DEFLATED_MAX_DATA_COUNT)%nat ∧ (0 < RSYNC_DEFLATED_MAX_DATA_COUNT / 2)%nat.
Proof. split; [apply Nat.leb_le|apply Nat.ltb_lt]; vm_compute; reflexivity. Qed.

#[local] Opaque RSYNC_DEFLATED_MAX_DATA_COUNT.

#[local, program] Instance stored_laws : ZlibLaws := {|
  owes (c : bool) d data := d = AtMark ∧ data = [];
  feeds d bytes x d' := stored_run d bytes = (x, d');
  flushing (c : bool) bytes c' := c = true ∧ c' = false ∧ bytes = stored_flush;
  taken (c : bool) := c = true;
|}.
Next Obligation. done. Qed.
Next Obligation. done. Qed.
Next Obligation. intros d a x dm b y d' Ha Hb. cbn in *. by rewrite stored_run_app, Ha, Hb. Qed.
Next Obligation.
  intros d a b x d' Hf. cbn in *. rewrite stored_run_app in Hf.
  destruct (stored_run d a) as [xa dm] eqn:Ha, (stored_run dm b) as [xb d''] eqn:Hb.
  injection Hf as <- <-. exists xa, dm, xb. auto.
Qed.
Next Obligation. intros d x d' Hf. cbn in Hf. by injection Hf. Qed.
Next Obligation.
  intros c d data input (-> & ->). pose proof max_data_bounds.
  set (k := Nat.min (length input) (RSYNC_DEFLATED_MAX_DATA_COUNT / 2)).
  exists k, (flat_map (λ b, [1; b]) (take k input)), StatusOk, (c || (0 <? k)%nat), (take k input), AtMark, [].
  cbn -[Nat.mul Nat.div]. split_and!; try done.
  - unfold k. lia.
  - apply stored_literals.
  - by rewrite app_nil_r.
  - intros Hk _. destruct input; [done|]. unfold k in Hk. cbn [length] in Hk. lia.
  - intros [Hk| ->]; [|done]. change (c || (0 <? k)%nat = true). by rewrite (proj2 (Nat.ltb_lt 0 k)), orb_true_r.
  - assert (Hlen : ∀ l : list Z, length (flat_map (λ b, [1; b]) l) = (2 * length l)%nat)
      by (induction l as [|b l IH]; cbn; lia).
    rewrite Hlen, length_take. unfold k. lia.
Qed.
Next Obligation.
  intros c d data Hc (-> & ->). cbn in Hc. subst c. exists [0], false, AtMark.
  by split_and!.
Qed.
Next Obligation.
  intros c bytes c' (-> & -> & ->). pose proof max_data_bounds. exists StatusOk, false.
  assert (drop RSYNC_DEFLATED_MAX_DATA_COUNT stored_flush = []) as ->; [|done].
  apply drop_ge. cbn. lia.
Qed.
Next Obligation.
  intros d input flush x d' Hf. cbn in *. rewrite Hf.
  exists (length input), x, StatusOk, d', []. rewrite drop_all. split_and!; try done.
  - by rewrite app_nil_r.
  - intros Hl _. by apply nil_length_inv in Hl.
  - pose proof (stored_run_length d input) as Hl. rewrite Hf in Hl. cbn in Hl. lia.
Qed.

(** Its flush is one piece. *)
Lemma stored_quiet level file : no_early_tail level file.
Proof.
  intros c bytes c' _ (_ & _ & ->) k Hk. pose proof max_data_bounds.
  destruct k as [|k]; [done|]. cbn [length stored_flush app RSYNC_ZLIB_SYNC_TAIL] in Hk. lia.
Qed.

(** Runs near and far, and a literal between. *)
Definition sample_events : list RsyncDeflatedToken :=
  [Copy 0; Copy 1; Copy 2; Literal [7; 8]; Literal [9]; Copy 100; Copy 3].

Lemma deflated_tokens_round_trip_witness :
  ∃ bs wr', (for_each send_event sample_events;; finish_tokens) (new_token_writer 6, @nil Z) =
      (Ok (), (wr', bs)) ∧
    ∃ tokens p', token_run (new_token_reader TokensZlibx, bs) tokens p' ∧
      units tokens = [inr 0%nat; inr 1%nat; inr 2%nat; inl 7; inl 8; inl 9; inr 100%nat; inr 3%nat].
Proof.
  destruct (deflated_tokens_round_trip (W := list Z) (R := list Z) 6 [7; 8; 9]
              (stored_quiet 6 [7; 8; 9]) (new_token_writer 6)
              (new_token_reader TokensZlibx) sample_events) as (bs & wr' & Hw & _ & Hread).
  - reflexivity.
  - apply worked_new.
  - by repeat split.
  - repeat constructor; try (vm_compute; reflexivity); [by exists [], [9]|by exists [7; 8], []].
  - destruct (Hw [] I) as (w' & Hrun & He & _). cbn in He. subst w'.
    exists bs, wr'. split; [exact Hrun|].
    destruct (Hread bs []) as (tokens & rd' & r' & Htokens & _ & Hu & _);
      [cbn; by rewrite app_nil_r|].
    exists tokens, (rd', r'). split; [exact Htokens|exact Hu].
Defined.
