(* ===== verification/TransferSums.v ===== *)
(** * Sums of a transfer: crates/rsync-cli/src/transfer, checksum.rs, sum_head.rs and
      limits.rs

    The checksums of blocks and of whole files, the head that announces the blocks of a
    basis, and the limits on allocations.  The digests md4 and md5 are the class Digests
    of Daemon; a hasher is the bytes it was fed. *)

From S2P Require Import Prelude Stream WireIo Str Session Delta Daemon.
Import Rollsum Signature.

(** ** Errors

    An [anyhow::Error] is an I/O error, a [RemoteSessionError] or a message. *)

Inductive TransferError :=
| TransferIo (e : io_error)
| TransferSession (e : RemoteSessionError)
| TransferFailed (message : string).

(** ** checksum.rs *)

Inductive RemoteChecksumAlgorithm := Md4 | Md5.

Definition normalize_checksum_choice (choice : list Z) : list Z :=
  to_ascii_lowercase (trim choice).

Definition from_protocol31_choice (choice : option (list Z)) :
    result RemoteChecksumAlgorithm TransferError :=
  match normalize_checksum_choice <$> choice with
  | None => Ok Md4
  | Some name =>
      if bool_decide (name = lit "md4") then Ok Md4
      else if bool_decide (name = lit "md5") then Ok Md5
      else Err (TransferFailed "unsupported negotiated checksum algorithm `{other}`")
  end.

Inductive RemoteFileChecksum :=
| FileSeededMd4 (seed : Z)
| FilePlainMd4
| FileSeededMd5 (seed : Z)
| FilePlainMd5.

Definition md4_with_seed (seed : Z) : RemoteFileChecksum :=
  if seed =? 0 then FilePlainMd4 else FileSeededMd4 seed.

Definition file_checksum_protocol31 (choice : option (list Z)) (seed : Z) :
    result RemoteFileChecksum TransferError :=
  let? algorithm := from_protocol31_choice choice in
  Ok (match algorithm with
      | Md4 => md4_with_seed seed
      | Md5 => if seed =? 0 then FilePlainMd5 else FileSeededMd5 seed
      end).

Definition algorithm_of (self : RemoteFileChecksum) : RemoteChecksumAlgorithm :=
  match self with
  | FileSeededMd4 _ | FilePlainMd4 => Md4
  | FileSeededMd5 _ | FilePlainMd5 => Md5
  end.

Inductive RemoteFinalChecksum :=
| FinalPlainMd4
| FinalSeededMd4Prefix (seed : Z)
| FinalPlainMd5.

Definition final_checksum_protocol27 (seed : Z) : RemoteFinalChecksum :=
  if seed =? 0 then FinalPlainMd4 else FinalSeededMd4Prefix seed.

Definition protocol31_for_algorithm (algorithm : RemoteChecksumAlgorithm) : RemoteFinalChecksum :=
  match algorithm with Md4 => FinalPlainMd4 | Md5 => FinalPlainMd5 end.

Definition final_checksum_protocol31 (choice : option (list Z)) :
    result RemoteFinalChecksum TransferError :=
  let? algorithm := from_protocol31_choice choice in
  Ok (protocol31_for_algorithm algorithm).

Definition normalize_remote_strong_checksum (strong : list Z) (_checksum : RemoteFileChecksum)
    (_checksum_len : nat) : list Z := strong.

(** *** session.rs: [RsyncMd4Checksum] *)

Record RsyncMd4Checksum := { hasher : list Z; seed : option Z }.

Definition md4_plain : RsyncMd4Checksum := {| hasher := []; seed := None |}.

Definition md4_update (self : RsyncMd4Checksum) (bytes : list Z) : RsyncMd4Checksum :=
  {| hasher := hasher self ++ bytes; seed := seed self |}.

(** [i32::to_le_bytes] *)
Definition to_le_bytes (value : Z) : list Z := le_encode 4 value.

Definition md4_seeded (value : Z) : RsyncMd4Checksum :=
  {| hasher := hasher md4_plain; seed := if value =? 0 then None else Some value |}.

Definition md4_seeded_prefix (value : Z) : RsyncMd4Checksum :=
  if value =? 0 then md4_plain else md4_update md4_plain (to_le_bytes value).

(** *** Builders *)

Inductive RemoteChecksumBuilder :=
| BuilderMd4 (checksum : RsyncMd4Checksum)
| BuilderMd5 (hasher : list Z) (seed : option Z).

Definition md5_builder (seed : option Z) (prefix_seed : bool) : RemoteChecksumBuilder :=
  let hasher :=
    match prefix_seed, seed with
    | true, Some seed => to_le_bytes seed
    | _, _ => []
    end in
  BuilderMd5 hasher (if prefix_seed then None else seed).

Definition update (self : RemoteChecksumBuilder) (bytes : list Z) : RemoteChecksumBuilder :=
  match self with
  | BuilderMd4 checksum => BuilderMd4 (md4_update checksum bytes)
  | BuilderMd5 hasher seed => BuilderMd5 (hasher ++ bytes) seed
  end.

Definition remote_file_checksum_builder (checksum : RemoteFileChecksum) : RemoteChecksumBuilder :=
  match checksum with
  | FileSeededMd4 seed => BuilderMd4 (md4_seeded seed)
  | FilePlainMd4 => BuilderMd4 md4_plain
  | FileSeededMd5 seed => md5_builder (Some seed) false
  | FilePlainMd5 => md5_builder None false
  end.

Definition remote_final_checksum_builder (checksum : RemoteFinalChecksum) :
    RemoteChecksumBuilder :=
  match checksum with
  | FinalPlainMd4 => BuilderMd4 md4_plain
  | FinalSeededMd4Prefix seed => BuilderMd4 (md4_seeded_prefix seed)
  | FinalPlainMd5 => md5_builder None false
  end.

Definition seed_suffix (seed : option Z) : list Z :=
  match seed with Some seed => to_le_bytes seed | None => [] end.

Section digests.
Context `{Digests}.

Definition md4_finalize (self : RsyncMd4Checksum) : list Z :=
  md4 (hasher self ++ seed_suffix (seed self)).

Definition finalize (self : RemoteChecksumBuilder) : list Z :=
  match self with
  | BuilderMd4 checksum => md4_finalize checksum
  | BuilderMd5 hasher seed => md5 (hasher ++ seed_suffix seed)
  end.

Definition remote_checksum_for_bytes (checksum : RemoteFileChecksum) (bytes : list Z) : list Z :=
  finalize (update (remote_file_checksum_builder checksum) bytes).

Definition remote_final_checksum_for_bytes (checksum : RemoteFinalChecksum) (bytes : list Z) :
    list Z :=
  finalize (update (remote_final_checksum_builder checksum) bytes).
End digests.

Record RsyncStrongChecksum := { strong_kind : RemoteFileChecksum; strong_len : nat }.

#[export] Instance rsync_strong_digest `{Digests} : StrongChecksum RsyncStrongChecksum :=
  λ self block,
    let checksum := remote_checksum_for_bytes (strong_kind self) block in
    take (Nat.min (strong_len self) (length checksum)) checksum.

(** ** sum_head.rs *)

Definition RSYNC_ITEM_BASIS_TYPE_FOLLOWS : Z := Z.shiftl 1 11.
Definition RSYNC_ITEM_XNAME_FOLLOWS : Z := Z.shiftl 1 12.
Definition RSYNC_ITEM_IS_NEW : Z := Z.shiftl 1 13.
Definition RSYNC_ITEM_LOCAL_CHANGE : Z := Z.shiftl 1 14.
Definition RSYNC_ITEM_TRANSFER : Z := Z.shiftl 1 15.

Record RemoteSumHead := {
  block_count : nat;
  block_len : nat;
  checksum_len : nat;
  remainder : nat;
}.

#[export] Instance RemoteSumHead_eq_dec : EqDecision RemoteSumHead.
Proof. solve_decision. Defined.

Record Rsync31ItemAttrs := {
  basis_type : option Z;
  xname : option (list Z);
}.

(** [checked_mul] on a [usize]. *)
Definition checked_mul_usize (x y : nat) : option nat :=
  if Z.of_nat x * Z.of_nat y <? 2 ^ 64 then Some (x * y)%nat else None.

Section reading.
Context {R : Type} `{Read R}.

Definition read_rsync31_optional_item_attrs (iflags : Z) :
    M R TransferError Rsync31ItemAttrs :=
  basis_type ←
    (if bool_decide (Z.land iflags RSYNC_ITEM_BASIS_TYPE_FOLLOWS ≠ 0)
     then x ← with_err TransferIo read_u8; mret (Some x) else mret None);
  xname ←
    (if bool_decide (Z.land iflags RSYNC_ITEM_XNAME_FOLLOWS ≠ 0)
     then x ← with_err TransferIo (read_vstring (32 * 1024)); mret (Some x) else mret None);
  mret {| basis_type := basis_type; xname := xname |}.

Definition read_nonnegative_i32 (label : string) : M R TransferError nat :=
  value ← with_err TransferIo read_i32_le;
  if value <? 0 then throw (TransferFailed "remote sent negative {label}: {value}")
  else mret (Z.to_nat value).

Definition read_sum_head : M R TransferError RemoteSumHead :=
  block_count ← read_nonnegative_i32 "block count";
  block_len ← read_nonnegative_i32 "block length";
  checksum_len ← read_nonnegative_i32 "checksum length";
  remainder ← read_nonnegative_i32 "remainder length";
  mret {| block_count := block_count; block_len := block_len;
          checksum_len := checksum_len; remainder := remainder |}.
End reading.

Section writing.
Context {W : Type} `{Write W}.

Definition write_rsync31_optional_item_attrs (iflags : Z) (attrs : Rsync31ItemAttrs) :
    M W TransferError unit :=
  (if bool_decide (Z.land iflags RSYNC_ITEM_BASIS_TYPE_FOLLOWS ≠ 0) then
     basis_type ← lift (ok_or (basis_type attrs)
       (TransferFailed "protocol 31 item flags omitted basis type attribute"));
     with_err TransferIo (write_all [basis_type])
   else mret ());;
  if bool_decide (Z.land iflags RSYNC_ITEM_XNAME_FOLLOWS ≠ 0) then
    xname ← lift (ok_or (xname attrs)
      (TransferFailed "protocol 31 item flags omitted xname attribute"));
    with_err TransferIo (write_vstring xname)
  else mret ().

Definition write_sum_head (sum_head : RemoteSumHead) : M W TransferError unit :=
  with_err TransferIo
    (write_i32_le (as_i32 (Z.of_nat (block_count sum_head)));;
     write_i32_le (as_i32 (Z.of_nat (block_len sum_head)));;
     write_i32_le (as_i32 (Z.of_nat (checksum_len sum_head)));;
     write_i32_le (as_i32 (Z.of_nat (remainder sum_head)))).
End writing.

Definition remote_sum_head_file_len (sum_head : RemoteSumHead) : result nat TransferError :=
  if (block_count sum_head =? 0)%nat then Ok 0%nat
  else if (block_len sum_head =? 0)%nat
  then Err (TransferFailed "append basis sum head has zero block length")
  else if (block_len sum_head <? remainder sum_head)%nat
  then Err (TransferFailed
         "append basis sum head has a remainder larger than its block length")
  else
    let? full_len := ok_or (checked_mul_usize (block_count sum_head) (block_len sum_head))
      (TransferFailed "append basis length overflow") in
    if (remainder sum_head =? 0)%nat then Ok full_len
    else if (full_len <? block_len sum_head - remainder sum_head)%nat
    then Err (TransferFailed "append basis length underflow")
    else Ok (full_len - (block_len sum_head - remainder sum_head))%nat.

Definition validate_sum_head (sum_head : RemoteSumHead) : result unit TransferError :=
  if (0 <? block_count sum_head)%nat && (block_len sum_head =? 0)%nat
  then Err (TransferFailed "remote sum head has a zero block length")
  else if (block_len sum_head <? remainder sum_head)%nat && (0 <? block_count sum_head)%nat
  then Err (TransferFailed "remote sum head has a remainder larger than its block length")
  else Ok ().

Definition block_span (sum_head : RemoteSumHead) (block_index : nat) :
    result (nat * nat) TransferError :=
  let? _ := validate_sum_head sum_head in
  if (block_count sum_head <=? block_index)%nat
  then Err (TransferFailed "copy token references missing basis block {block_index}")
  else
    let? offset := ok_or (checked_mul_usize block_index (block_len sum_head))
      (TransferFailed "basis block offset overflow") in
    let is_last := (block_index + 1 =? block_count sum_head)%nat in
    Ok (offset, if is_last && negb (remainder sum_head =? 0)%nat then remainder sum_head
                else block_len sum_head).

Definition block_index_to_copy_token (block_index : nat) : result Z TransferError :=
  let? token := ok_or (checked_i32 (Z.of_nat block_index))
    (TransferFailed "basis block index exceeded i32 range") in
  ok_or (value ← checked_i32 (token + 1); checked_i32 (- value))
    (TransferFailed "basis block token overflow").

Definition copy_token_to_block_index (token : Z) : result nat TransferError :=
  if 0 <=? token then Err (TransferFailed "copy token must be negative")
  else
    let? raw := ok_or (value ← checked_i32 (- token); checked_i32 (value - 1))
      (TransferFailed "copy token overflow") in
    if raw <? 0 then Err (TransferFailed "copy token block index did not fit usize")
    else Ok (Z.to_nat raw).

(** ** limits.rs *)

(** A deadline is the reading of the clock it stands for. *)
Record TransferLimits := { max_alloc : option Z; stop_deadline : option Z }.

Definition ensure_allocation_within_limit (label : string) (bytes : nat)
    (max_alloc : option Z) : result unit TransferError :=
  match max_alloc with
  | Some limit =>
      if (0 <? limit) && (limit <? Z.of_nat bytes)
      then Err (TransferFailed "{label} would require a {bytes} byte allocation, exceeding --max-alloc={limit}")
      else Ok ()
  | None => Ok ()
  end.

Definition ensure_basis_copy_budget (sum_head : RemoteSumHead) (max_alloc : option Z) :
    result unit TransferError :=
  let? _ := validate_sum_head sum_head in
  if (block_count sum_head =? 0)%nat then Ok ()
  else ensure_allocation_within_limit "basis copy block" (block_len sum_head) max_alloc.

(** [std::mem::size_of::<BlockSignature>()] is a matter of the compiler. *)
Class SignatureSize := block_signature_size : nat.

Definition ensure_signature_table_budget `{SignatureSize} (label : string)
    (block_count checksum_len : nat) (max_alloc : option Z) : result unit TransferError :=
  let overflow := TransferFailed "signature table allocation estimate overflow" in
  let? per_signature := ok_or (Apply.checked_add_usize block_signature_size checksum_len)
    overflow in
  let? bytes := ok_or (checked_mul_usize block_count per_signature) overflow in
  ensure_allocation_within_limit label bytes max_alloc.

(** On the 64-bit platform every [u64] fits. *)
Definition sync_action_len (len : Z) : result nat TransferError :=
  match checked_usize len with
  | Some len => Ok (Z.to_nat len)
  | None => Err (TransferFailed "file length exceeds this platform's address size")
  end.

(** ** progress.rs: [RemoteCompressionConfig] *)

Record RemoteCompressionConfig := {
  compression_mode : RsyncDeflatedTokenMode;
  compression_level : Z;
  compression_skip_suffixes : list (list Z);
}.

(** [for_plan], of the fields of the plan. *)
Definition compression_for_plan (compress : bool) (compress_choice : option (list Z))
    (compress_level : option Z) (skip_compress : list (list Z)) :
    result (option RemoteCompressionConfig) TransferError :=
  if negb compress then Ok None
  else
    let? mode := map_err
      (λ _, TransferFailed "unsupported compression choice; rsync-win currently supports zlibx and zlib")
      (from_choice compress_choice) in
    Ok (Some {| compression_mode := mode;
                compression_level := Z.min (default 6 compress_level) 9;
                compression_skip_suffixes := skip_compress |}).

Definition compression_skips_path (self : RemoteCompressionConfig) (path : list Z) : bool :=
  let path := to_ascii_lowercase path in
  existsb (λ suffix, ends_with path (ch "." :: to_ascii_lowercase suffix))
    (List.filter (λ suffix, bool_decide (suffix ≠ []))
       (bare_suffix <$> compression_skip_suffixes self)).

Definition level_for_path (self : RemoteCompressionConfig) (path : list Z) : Z :=
  if compression_skips_path self path then 0 else compression_level self.
