(* ===== verification/Transfer.v ===== *)
(** * The transfer of a file: crates/rsync-cli/src/transfer, delta.rs and tokens.rs

    The signatures of a basis on their way to the sender, the sender's loops over a
    file, and the receiver that makes the file of tokens and basis.  A reader of a local
    file is a class; what a progress meter prints is left out. *)

From stdpp Require Import sorting.
From S2P Require Import Prelude Stream WireIo Str Session Handshake Delta Daemon.
From S2P Require Import DeflatedTokens TransferSums.
Import Rollsum Signature.

(** ** Readers of local files

    [read_some n] is [Read::read] with a buffer of [n] bytes: no bytes are the end of
    the file.  [unread] bounds the bytes that are left. *)
Class Source (F : Type) := {
  read_some : nat → M F io_error (list Z);
  unread : F → nat;
}.

(** A file gives what it holds, in pieces of its choice. *)
Class SourceLaws (F : Type) `{Source F} := {
  holds : F → list Z → Prop;
  holds_unread f bytes : holds f bytes → (length bytes ≤ unread f)%nat;
  read_some_holds n f bytes :
    holds f bytes → (0 < n)%nat →
    ∃ piece rest f', read_some n f = (Ok piece, f') ∧ bytes = piece ++ rest ∧
      holds f' rest ∧ (length piece ≤ n)%nat ∧ (piece = [] → bytes = []);
}.

(** The buffer of the loops. *)
Definition buffer_size : nat := 32 * 1024.

(** A loop that is longer than its bound. *)
Definition out_of_fuel : TransferError := TransferFailed "the loop exceeded its bound".

(** ** plan/mod.rs: deadlines

    The state is the number of readings of the clock so far. *)
Class Clock := now : nat → Z.

Definition check_transfer_deadline `{Clock} (deadline : option Z) : M nat TransferError unit :=
  match deadline with
  | None => mret ()
  | Some deadline =>
      readings ← get;
      put (S readings);;
      if deadline <=? now readings then throw (TransferFailed "transfer stop deadline reached")
      else mret ()
  end.

(** ** delta.rs: signatures *)

Section signatures.
Context {R : Type} `{Read R} {W : Type} `{Write W} `{SignatureSize}.

(** The turns of the loop from [index] on. *)
Fixpoint read_signatures (sum_head : RemoteSumHead) (checksum : RemoteFileChecksum)
    (count index : nat) : M R TransferError (list BlockSignature) :=
  match count with
  | O => mret []
  | S count =>
      weak ← with_err TransferIo read_i32_le;
      strong ← with_err TransferIo (read_exact (checksum_len sum_head));
      '(offset, len) ← lift (block_span sum_head index);
      rest ← read_signatures sum_head checksum count (S index);
      mret ({| index := index; offset := offset; sig_len := len; weak := as_u32 weak;
               strong := normalize_remote_strong_checksum strong checksum
                           (checksum_len sum_head) |} :: rest)
  end.

Definition read_remote_block_signatures_from_reader (sum_head : RemoteSumHead)
    (checksum : RemoteFileChecksum) (max_alloc : option Z) :
    M R TransferError (list BlockSignature) :=
  lift (validate_sum_head sum_head);;
  lift (ensure_signature_table_budget "remote signature table" (block_count sum_head)
          (checksum_len sum_head) max_alloc);;
  read_signatures sum_head checksum (block_count sum_head) 0.

Definition write_signature (signature : BlockSignature) : M W TransferError unit :=
  with_err TransferIo (write_i32_le (as_i32 (weak signature));; write_all (strong signature)).

Definition write_remote_block_signatures (signatures : list BlockSignature) :
    M W TransferError unit :=
  for_each write_signature signatures.
End signatures.

Section generator.
Context {F : Type} `{Source F} `{SignatureSize} `{Digests}.

(** The inner loop: a block is filled, or the file ends. *)
Fixpoint fill_block (fuel block_size : nat) (block : list Z) : M F TransferError (list Z) :=
  if (length block <? block_size)%nat then
    match fuel with
    | O => throw out_of_fuel
    | S fuel =>
        piece ← with_err (λ _, TransferFailed "failed to read basis block from {}")
          (read_some (block_size - length block));
        if bool_decide (piece = []) then mret block
        else fill_block fuel block_size (block ++ piece)
    end
  else mret block.

Fixpoint signatures_loop {C} `{StrongChecksum C} (fuel block_size : nat) (strong_checksum : C)
    (signatures : list BlockSignature) (offset : nat) : M F TransferError (list BlockSignature) :=
  match fuel with
  | O => throw out_of_fuel
  | S fuel =>
      block ← fill_block (S block_size) block_size [];
      if bool_decide (block = []) then mret signatures
      else
        let signatures := signatures ++
          [{| index := length signatures; offset := offset; sig_len := length block;
              weak := rolling_checksum block; strong := strong_digest strong_checksum block |}] in
        offset ← lift (ok_or (Apply.checked_add_usize offset (length block))
          (TransferFailed "basis signature offset overflow"));
        if (length block <? block_size)%nat then mret signatures
        else signatures_loop fuel block_size strong_checksum signatures offset
  end.

(** [file] is what opening the basis gives. *)
Definition generate_signatures_from_path {C} `{StrongChecksum C}
    (file : result F TransferError) (block_size : nat) (strong_checksum : C) :
    result (list BlockSignature) TransferError :=
  if (block_size =? 0)%nat
  then Err (TransferFailed "remote delta block size must be greater than zero")
  else
    let? file := file in
    (signatures_loop (S (unread file)) block_size strong_checksum [] 0 file).1.

(** [metadata] is what the file system says of the basis: whether it is a file, and its
    length.  A block size of 0, which [remote_delta_block_size] refuses, is a panic. *)
Definition local_basis_signature_request (metadata : option (bool * Z))
    (file : result F TransferError) (block_size : nat) (checksum : RemoteFileChecksum)
    (whole_file : bool) (max_alloc : option Z) :
    result (RemoteSumHead * list BlockSignature) TransferError :=
  let empty := {| block_count := 0; block_len := block_size; checksum_len := 16;
                  remainder := 0 |} in
  if whole_file then Ok (empty, [])
  else match metadata with
  | None => Ok (empty, [])
  | Some (is_file, len) =>
      if negb is_file then Ok (empty, [])
      else if (block_size =? 0)%nat
      then Err (TransferFailed "attempt to subtract with overflow")
      else
        let checksum_len := 16%nat in
        let strong := {| strong_kind := checksum; strong_len := checksum_len |} in
        let? file_len := ok_or (checked_usize len)
          (TransferFailed "basis file length did not fit usize") in
        let file_len := Z.to_nat file_len in
        let? padded := ok_or (Apply.checked_add_usize file_len (block_size - 1))
          (TransferFailed "basis signature block count overflow") in
        let block_count := (padded / block_size)%nat in
        let? _ := ensure_signature_table_budget "basis signature table" block_count
                    checksum_len max_alloc in
        let? _ := ensure_allocation_within_limit "basis checksum block" block_size max_alloc in
        let? signatures := generate_signatures_from_path file block_size strong in
        if bool_decide (signatures = []) then Ok (empty, [])
        else Ok ({| block_count := length signatures; block_len := block_size;
                    checksum_len := checksum_len;
                    remainder := (file_len mod block_size)%nat |}, signatures)
  end.

(** [plan.block_size]. *)
Definition remote_delta_block_size (block_size : option Z) : result nat TransferError :=
  ok_or (value ← checked_usize (default 32768 block_size);
         if 0 <? value then Some (Z.to_nat value) else None)
    (TransferFailed "remote delta block size must fit usize and be greater than zero").
End generator.

(** ** session.rs: checksums of whole files *)

Section whole_file.
Context `{Digests} {F : Type} `{Source F}.

Definition rsync_whole_file_checksum (seed : Z) (bytes : list Z) : list Z :=
  md4_finalize (md4_update (md4_seeded seed) bytes).

Definition rsync_plain_md4_checksum (bytes : list Z) : list Z :=
  md4_finalize (md4_update md4_plain bytes).

(** The loop of [update_md4_from_reader]. *)
Fixpoint update_md4_loop (fuel : nat) (checksum : RsyncMd4Checksum) :
    M F io_error RsyncMd4Checksum :=
  match fuel with
  | O => throw (IoError InvalidData "the reader exceeded its bound")
  | S fuel =>
      piece ← read_some (64 * 1024);
      if bool_decide (piece = []) then mret checksum
      else update_md4_loop fuel (md4_update checksum piece)
  end.

Definition update_md4_from_reader (checksum : RsyncMd4Checksum) : M F io_error RsyncMd4Checksum :=
  λ f, update_md4_loop (S (unread f)) checksum f.

Definition rsync_whole_file_checksum_reader (seed : Z) : M F io_error (list Z) :=
  checksum ← update_md4_from_reader (md4_seeded seed);
  mret (md4_finalize checksum).

Definition rsync_plain_md4_checksum_reader : M F io_error (list Z) :=
  checksum ← update_md4_from_reader md4_plain;
  mret (md4_finalize checksum).
End whole_file.

(** ** delta.rs: the search in a window *)

Record RemoteSignatureIndex := {
  index_signatures : list BlockSignature;
  index_lengths_desc : list nat;
  index_max_len : nat;
}.

#[export] Instance ge_decision : RelDecision ge.
Proof. intros x y. unfold ge. apply _. Defined.

(** [Vec::dedup]: of equal neighbours the first stays. *)
Fixpoint dedup (l : list nat) : list nat :=
  match l with
  | x :: l' =>
      match dedup l' with
      | y :: rest => if (x =? y)%nat then x :: rest else x :: y :: rest
      | [] => [x]
      end
  | [] => []
  end.

Definition new_remote_index (signatures : list BlockSignature) :
    result RemoteSignatureIndex TransferError :=
  let lengths_desc := dedup (merge_sort ge
    (List.filter (λ len, 0 <? len)%nat (sig_len <$> signatures))) in
  let max_len := default 0%nat (head lengths_desc) in
  if (max_len =? 0)%nat
  then Err (TransferFailed "remote delta signatures did not include any non-empty blocks")
  else Ok {| index_signatures := signatures; index_lengths_desc := lengths_desc;
             index_max_len := max_len |}.

Fixpoint find_in_lengths {C} `{StrongChecksum C} (signatures : list BlockSignature)
    (lengths : list nat) (window : list Z) (strong_checksum : C) : option BlockSignature :=
  match lengths with
  | [] => None
  | len :: lengths =>
      let next := find_in_lengths signatures lengths window strong_checksum in
      if (length window <? len)%nat then next
      else
        let candidate := take len window in
        let weak' := rolling_checksum candidate in
        let strong' := strong_digest strong_checksum candidate in
        match List.find (λ signature,
                bool_decide (sig_len signature = len) && (weak signature =? weak') &&
                bool_decide (strong signature = strong')) signatures with
        | Some signature => Some signature
        | None => next
        end
  end.

Definition find_match {C} `{StrongChecksum C} (self : RemoteSignatureIndex)
    (window : list Z) (strong_checksum : C) : option BlockSignature :=
  find_in_lengths (index_signatures self) (index_lengths_desc self) window strong_checksum.

Record RemoteDeltaStats := { literal_bytes : Z; copied_bytes : Z }.

Definition no_stats : RemoteDeltaStats := {| literal_bytes := 0; copied_bytes := 0 |}.

#[export] Instance RemoteDeltaStats_eq_dec : EqDecision RemoteDeltaStats.
Proof. solve_decision. Defined.

(** ** The sender *)

Section sender.
Context `{Clock} `{Digests} `{Zlib}.
Context {F : Type} `{Source F} {W : Type} `{Write W}.

(** What a sender works on beside the transport. *)
Record Sender := {
  file : F;
  readings : nat;
  compressor : option RsyncDeflatedTokenWriter;
}.

Local Abbreviation St := (M (Sender * W) TransferError).

Definition set_file (f : F) (s : Sender) : Sender :=
  {| file := f; readings := readings s; compressor := compressor s |}.
Definition set_readings (n : nat) (s : Sender) : Sender :=
  {| file := file s; readings := n; compressor := compressor s |}.
Definition set_compressor (c : option RsyncDeflatedTokenWriter) (s : Sender) : Sender :=
  {| file := file s; readings := readings s; compressor := c |}.

Definition check_deadline (deadline : option Z) : St unit :=
  on_fst (λ s, let '(r, n) := check_transfer_deadline deadline (readings s) in
               (r, set_readings n s)).

(** [reader.read(&mut buf)?] *)
Definition read_file (n : nat) : St (list Z) :=
  on_fst (λ s, let '(r, f) := with_err TransferIo (read_some n) (file s) in
               (r, set_file f s)).

(** A call of the compressor. *)
Definition with_compressor {A} (m : M (RsyncDeflatedTokenWriter * W) io_error A)
    (c : RsyncDeflatedTokenWriter) : St A := λ p,
  let '(r, (c, w)) := m (c, p.2) in (map_err TransferIo r, (set_compressor (Some c) p.1, w)).

(** A literal, through the compressor or as a length and its bytes. *)
Definition put_literal (literal : list Z) : St unit :=
  s ← on_fst get;
  match compressor s with
  | Some c => with_compressor (DeflatedTokens.send_literal literal) c
  | None =>
      on_snd (with_err TransferSession
                (write_rsync_i32 (as_i32 (Z.of_nat (length literal)))));;
      on_snd (with_err TransferIo (write_all literal))
  end.

Definition write_copy_token (block_index : nat) : St unit :=
  s ← on_fst get;
  match compressor s with
  | Some c => with_compressor (DeflatedTokens.send_copy block_index) c
  | None =>
      token ← lift (block_index_to_copy_token block_index);
      on_snd (with_err TransferSession (write_rsync_i32 token))
  end.

Definition put_end : St unit :=
  s ← on_fst get;
  match compressor s with
  | Some c => with_compressor DeflatedTokens.finish_tokens c
  | None => on_snd (with_err TransferSession (write_rsync_i32 0))
  end.

Definition put_checksum (checksum : RemoteChecksumBuilder) : St unit :=
  on_snd (with_err TransferIo (write_all (finalize checksum))).

(** [compression_level.map(RsyncDeflatedTokenWriter::new)] *)
Definition start_compressor (compression_level : option Z) : St unit :=
  s ← on_fst get; on_fst (put (set_compressor (new_token_writer <$> compression_level) s)).

(** *** tokens.rs: whole files *)

Fixpoint literal_loop (fuel : nat) (stop_deadline : option Z)
    (checksum : RemoteChecksumBuilder) (total : Z) : St (RemoteChecksumBuilder * Z) :=
  match fuel with
  | O => throw out_of_fuel
  | S fuel =>
      check_deadline stop_deadline;;
      piece ← read_file buffer_size;
      if bool_decide (piece = []) then mret (checksum, total)
      else
        put_literal piece;;
        literal_loop fuel stop_deadline (update checksum piece)
          (as_u64 (total + Z.of_nat (length piece)))
  end.

Definition write_literal_tokens_from_reader_with_checksum (checksum : RemoteFinalChecksum)
    (compression_level : option Z) (stop_deadline : option Z) : St Z :=
  start_compressor compression_level;;
  s ← on_fst get;
  '(checksum, total) ← literal_loop (S (unread (file s))) stop_deadline
    (remote_final_checksum_builder checksum) 0;
  put_end;;
  put_checksum checksum;;
  mret total.

(** *** tokens.rs: files that are appended to *)

Fixpoint append_loop (fuel : nat) (stop_deadline : option Z)
    (checksum : RemoteChecksumBuilder) (remaining_prefix : nat) (total : Z) :
    St (RemoteChecksumBuilder * nat * Z) :=
  match fuel with
  | O => throw out_of_fuel
  | S fuel =>
      check_deadline stop_deadline;;
      chunk ← read_file buffer_size;
      if bool_decide (chunk = []) then mret (checksum, remaining_prefix, total)
      else
        let checksum := update checksum chunk in
        if (length chunk <=? remaining_prefix)%nat then
          append_loop fuel stop_deadline checksum (remaining_prefix - length chunk) total
        else
          let literal := drop remaining_prefix chunk in
          put_literal literal;;
          append_loop fuel stop_deadline checksum 0
            (as_u64 (total + Z.of_nat (length literal)))
  end.

Definition write_append_verify_literal_tokens_from_reader_with_checksum
    (checksum : RemoteFinalChecksum) (prefix_len : nat) (compression_level : option Z)
    (stop_deadline : option Z) : St Z :=
  start_compressor compression_level;;
  s ← on_fst get;
  '(checksum, remaining_prefix, total) ← append_loop (S (unread (file s))) stop_deadline
    (remote_final_checksum_builder checksum) prefix_len 0;
  if (0 <? remaining_prefix)%nat
  then throw (TransferFailed "append-verify prefix length exceeds source file length")
  else
    put_end;;
    put_checksum checksum;;
    mret total.

Definition open_file (opened : result F TransferError) : St unit :=
  f ← lift opened; s ← on_fst get; on_fst (put (set_file f s)).

Definition write_append_verify_file_tokens_from_path (checksum : RemoteFinalChecksum)
    (path : list Z) (opened : result F TransferError) (prefix_len : nat)
    (compression : option RemoteCompressionConfig) (stop_deadline : option Z) : St Z :=
  open_file opened;;
  write_append_verify_literal_tokens_from_reader_with_checksum checksum prefix_len
    ((λ config, level_for_path config path) <$> compression) stop_deadline.

(** *** delta.rs: against the blocks of a basis *)

(** The window, the checksum and the end of the file. *)
Fixpoint fill_loop (fuel max_len : nat) (stop_deadline : option Z) (window : list Z)
    (checksum : RemoteChecksumBuilder) (eof : bool) :
    St (list Z * RemoteChecksumBuilder * bool) :=
  if negb eof && (length window <? max_len)%nat then
    match fuel with
    | O => throw out_of_fuel
    | S fuel =>
        check_deadline stop_deadline;;
        piece ← read_file (max_len - length window);
        if bool_decide (piece = []) then mret (window, checksum, true)
        else fill_loop fuel max_len stop_deadline (window ++ piece) (update checksum piece) eof
    end
  else mret (window, checksum, eof).

Definition fill_delta_window (max_len : nat) (stop_deadline : option Z) (window : list Z)
    (checksum : RemoteChecksumBuilder) (eof : bool) :
    St (list Z * RemoteChecksumBuilder * bool) :=
  fill_loop (S max_len) max_len stop_deadline window checksum eof.

Definition write_literal_token (literal : list Z) (stats : RemoteDeltaStats) :
    St RemoteDeltaStats :=
  put_literal literal;;
  mret {| literal_bytes := as_u64 (literal_bytes stats + Z.of_nat (length literal));
          copied_bytes := copied_bytes stats |}.

(** What is left of the literal is nothing. *)
Definition write_pending_literal_token (literal : list Z) (stats : RemoteDeltaStats) :
    St RemoteDeltaStats :=
  if bool_decide (literal = []) then mret stats else write_literal_token literal stats.

Definition copied (len : nat) (stats : RemoteDeltaStats) : RemoteDeltaStats :=
  {| literal_bytes := literal_bytes stats;
     copied_bytes := as_u64 (copied_bytes stats + Z.of_nat len) |}.

(** A turn of the loop: the window without what was matched or passed, the literal that
    is pending and the counts. *)
Definition window_step {C} `{StrongChecksum C} (index : RemoteSignatureIndex) (strong : C)
    (window literal : list Z) (stats : RemoteDeltaStats) :
    St (list Z * list Z * RemoteDeltaStats) :=
  match find_match index window strong with
  | Some signature =>
      stats ← write_pending_literal_token literal stats;
      write_copy_token (Signature.index signature);;
      mret (drop (sig_len signature) window, [], copied (sig_len signature) stats)
  | None =>
      let literal := literal ++ take 1 window in
      let window := drop 1 window in
      if (buffer_size <=? length literal)%nat then
        stats ← write_pending_literal_token literal stats;
        mret (window, [], stats)
      else mret (window, literal, stats)
  end.

Fixpoint window_loop {C} `{StrongChecksum C} (fuel : nat) (index : RemoteSignatureIndex)
    (strong : C) (stop_deadline : option Z) (window literal : list Z)
    (checksum : RemoteChecksumBuilder) (eof : bool) (stats : RemoteDeltaStats) :
    St (list Z * RemoteChecksumBuilder * RemoteDeltaStats) :=
  if bool_decide (window = []) then mret (literal, checksum, stats)
  else match fuel with
  | O => throw out_of_fuel
  | S fuel =>
      check_deadline stop_deadline;;
      '(window, literal, stats) ← window_step index strong window literal stats;
      '(window, checksum, eof) ←
        fill_delta_window (index_max_len index) stop_deadline window checksum eof;
      window_loop fuel index strong stop_deadline window literal checksum eof stats
  end.

(** [strong.len()] of the first signature. *)
Definition first_strong_len (signatures : list BlockSignature) : nat :=
  match signatures with
  | signature :: _ => length (strong signature)
  | [] => 16
  end.

Definition write_delta_tokens_from_reader_with_checksum (block : RemoteFileChecksum)
    (final_file : RemoteFinalChecksum) (signatures : list BlockSignature)
    (compression_level : option Z) (limits : TransferLimits) : St RemoteDeltaStats :=
  index ← lift (new_remote_index signatures);
  lift (ensure_allocation_within_limit "delta match window" (index_max_len index)
          (max_alloc limits));;
  lift (ensure_allocation_within_limit "delta literal buffer" buffer_size
          (max_alloc limits));;
  let strong := {| strong_kind := block; strong_len := first_strong_len signatures |} in
  start_compressor compression_level;;
  s ← on_fst get;
  '(window, checksum, eof) ← fill_delta_window (index_max_len index) (stop_deadline limits) []
    (remote_final_checksum_builder final_file) false;
  '(literal, checksum, stats) ← window_loop (S (unread (file s))) index strong
    (stop_deadline limits) window [] checksum eof no_stats;
  stats ← write_pending_literal_token literal stats;
  put_end;;
  put_checksum checksum;;
  mret stats.

Definition write_delta_tokens_from_path (block_checksum : RemoteFileChecksum)
    (final_checksum : RemoteFinalChecksum) (path : list Z) (opened : result F TransferError)
    (signatures : list BlockSignature) (compression : option RemoteCompressionConfig)
    (limits : TransferLimits) : St RemoteDeltaStats :=
  check_deadline (stop_deadline limits);;
  open_file opened;;
  let compression_level := (λ config, level_for_path config path) <$> compression in
  if bool_decide (signatures = []) then
    literal_bytes ← write_literal_tokens_from_reader_with_checksum final_checksum
      compression_level (stop_deadline limits);
    mret {| literal_bytes := literal_bytes; copied_bytes := 0 |}
  else
    write_delta_tokens_from_reader_with_checksum block_checksum final_checksum signatures
      compression_level limits.
End sender.

Arguments Sender {_} _.

(** ** The receiver

    All it reads from comes through the multiplexed stream of the session, which is the
    reader here. *)

Section receiver.
Context `{Clock} `{Digests} `{Zlib}.
Context {F : Type} `{Source F} {R : Type} `{Read R}.

Record Receiver := {
  output : list Z;
  receiver_readings : nat;
}.

Local Abbreviation St := (M (Receiver * R) TransferError).

Definition set_output (bytes : list Z) (s : Receiver) : Receiver :=
  {| output := bytes; receiver_readings := receiver_readings s |}.
Definition set_receiver_readings (n : nat) (s : Receiver) : Receiver :=
  {| output := output s; receiver_readings := n |}.

Definition check_receiver_deadline (deadline : option Z) : St unit :=
  on_fst (λ s, let '(r, n) := check_transfer_deadline deadline (receiver_readings s) in
               (r, set_receiver_readings n s)).

Definition write_output (bytes : list Z) : St unit :=
  s ← on_fst get; on_fst (put (set_output (output s ++ bytes) s)).

(** A call of the reader of tokens, which is a local variable of the loop. *)
Definition with_token_reader {A} (m : M (RsyncDeflatedTokenReader * R) io_error A)
    (t : RsyncDeflatedTokenReader) : St (A * RsyncDeflatedTokenReader) := λ p,
  let '(r, (t, r')) := m (t, p.2) in
  (match r with Ok a => Ok (a, t) | Err e => Err (TransferIo e) end, (p.1, r')).

(** The length so far and [len] more bytes, within the length that was announced. *)
Definition next_total (path : list Z) (expected_len total : Z) (len : nat) :
    result Z TransferError :=
  let? next := ok_or (checked_usize (total + Z.of_nat len))
    (TransferSession (FileLengthExceeded path expected_len (2 ^ 64 - 1))) in
  if expected_len <? next
  then Err (TransferSession (FileLengthExceeded path expected_len next))
  else Ok next.

(** A seek and [read_exact] in the basis. *)
Definition read_basis_block (basis : list Z) (sum_head : RemoteSumHead) (block_index : nat) :
    result (list Z) TransferError :=
  let? span := block_span sum_head block_index in
  let '(offset, len) := span in
  ok_or (Apply.slice_get basis offset (offset + len))
    (TransferFailed "remote copy token {} references bytes outside the basis file for {}").

(** A literal passes through the buffer. *)
Fixpoint receive_literal (fuel remaining : nat) (total : Z) : St Z :=
  match fuel, remaining with
  | _, O => mret total
  | O, _ => throw out_of_fuel
  | S fuel, _ =>
      let len := Nat.min buffer_size remaining in
      bytes ← on_snd (with_err TransferIo (read_exact len));
      write_output bytes;;
      receive_literal fuel (remaining - len) (as_u64 (total + Z.of_nat len))
  end.

(** [remote_file_checksum_for_path] *)
Fixpoint checksum_loop (fuel : nat) (checksum : RemoteChecksumBuilder) :
    M F TransferError RemoteChecksumBuilder :=
  match fuel with
  | O => throw out_of_fuel
  | S fuel =>
      piece ← with_err (λ _, TransferFailed "failed to checksum {}") (read_some buffer_size);
      if bool_decide (piece = []) then mret checksum
      else checksum_loop fuel (update checksum piece)
  end.

Definition remote_file_checksum_for_path (checksum : RemoteFinalChecksum)
    (opened : result F TransferError) : result (list Z) TransferError :=
  let? file := opened in
  let? checksum := (checksum_loop (S (unread file)) (remote_final_checksum_builder checksum)
                      file).1 in
  Ok (finalize checksum).

(** The end of the tokens: the length and the checksum of what was written.  [reopen]
    opens the output again, which holds the bytes it is given. *)
Definition finish_file (reopen : list Z → result F TransferError)
    (checksum : RemoteFinalChecksum) (path : list Z) (expected_len total : Z) : St Z :=
  if negb (total =? expected_len)
  then throw (TransferSession (FileLengthShort path expected_len total))
  else
    remote_checksum ← on_snd (with_err TransferIo (read_exact 16));
    s ← on_fst get;
    local_checksum ← lift (remote_file_checksum_for_path checksum (reopen (output s)));
    if bool_decide (remote_checksum ≠ local_checksum)
    then throw (TransferSession (FileChecksumMismatch path))
    else mret total.

(** The bytes of a token that was taken in whole. *)
Definition append_output (path : list Z) (expected_len total : Z) (bytes : list Z) : St Z :=
  total ← lift (next_total path expected_len total (length bytes));
  write_output bytes;;
  mret total.

Section file.
Context (reopen : list Z → result F TransferError) (checksum : RemoteFinalChecksum).
Context (path : list Z) (expected_len : Z) (basis : option (list Z * RemoteSumHead)).
Context (stop_deadline : option Z).

(** A copy of a block, when tokens are compressed. *)
Definition receive_deflated_copy (t : RsyncDeflatedTokenReader) (block_index : nat) (total : Z) :
    St (Z * RsyncDeflatedTokenReader) :=
  match basis with
  | None =>
      token ← lift (block_index_to_copy_token block_index);
      throw (TransferSession (UnexpectedToken token path))
  | Some (basis, sum_head) =>
      bytes ← lift (read_basis_block basis sum_head block_index);
      '(_, t) ← with_token_reader (observe_copy_data bytes) t;
      total ← append_output path expected_len total bytes;
      mret (total, t)
  end.

Fixpoint deflated_loop (fuel : nat) (t : RsyncDeflatedTokenReader) (total : Z) : St Z :=
  match fuel with
  | O => throw out_of_fuel
  | S fuel =>
      check_receiver_deadline stop_deadline;;
      '(token, t) ← with_token_reader next_token t;
      match token with
      | DeflatedTokens.Literal literal =>
          total ← append_output path expected_len total literal;
          deflated_loop fuel t total
      | DeflatedTokens.Copy block_index =>
          '(total, t) ← receive_deflated_copy t block_index total;
          deflated_loop fuel t total
      | DeflatedTokens.End => finish_file reopen checksum path expected_len total
      end
  end.

(** A token above 0 is a literal. *)
Definition receive_plain_literal (token total : Z) : St Z :=
  lift (next_total path expected_len total (Z.to_nat token));;
  receive_literal (Z.to_nat token) (Z.to_nat token) total.

(** A token below 0 is a copy. *)
Definition receive_plain_copy (token total : Z) : St Z :=
  match basis with
  | None => throw (TransferSession (UnexpectedToken token path))
  | Some (basis, sum_head) =>
      block_index ← lift (copy_token_to_block_index token);
      bytes ← lift (read_basis_block basis sum_head block_index);
      append_output path expected_len total bytes
  end.

Fixpoint plain_loop (fuel : nat) (total : Z) : St Z :=
  match fuel with
  | O => throw out_of_fuel
  | S fuel =>
      check_receiver_deadline stop_deadline;;
      token ← on_snd (with_err TransferIo read_i32_le);
      match token ?= 0 with
      | Gt => total ← receive_plain_literal token total; plain_loop fuel total
      | Eq => finish_file reopen checksum path expected_len total
      | Lt => total ← receive_plain_copy token total; plain_loop fuel total
      end
  end.
End file.

(** The basis, when there is one with blocks: its bytes, or why it does not open. *)
Definition open_basis (basis : option (result (list Z) TransferError * RemoteSumHead))
    (max_alloc : option Z) : result (option (list Z * RemoteSumHead)) TransferError :=
  match basis with
  | Some (opened, sum_head) =>
      if (0 <? block_count sum_head)%nat then
        let? _ := ensure_basis_copy_budget sum_head max_alloc in
        let? bytes := opened in
        Ok (Some (bytes, sum_head))
      else Ok None
  | None => Ok None
  end.

(** From the creation of the output on.  Each token adds a byte at least, so the length
    that was announced bounds the turns. *)
Definition read_file_tokens_to_path_with_basis (reopen : list Z → result F TransferError)
    (checksum : RemoteFinalChecksum) (path : list Z) (expected_len : Z)
    (basis : option (result (list Z) TransferError * RemoteSumHead))
    (compression : option RemoteCompressionConfig) (max_alloc : option Z)
    (stop_deadline : option Z) : St Z :=
  s ← on_fst get;
  on_fst (put (set_output [] s));;
  basis ← lift (open_basis basis max_alloc);
  let fuel := S (Z.to_nat expected_len) in
  match compression with
  | Some config =>
      deflated_loop reopen checksum path expected_len basis stop_deadline fuel
        (new_token_reader (compression_mode config)) 0
  | None => plain_loop reopen checksum path expected_len basis stop_deadline fuel 0
  end.
End receiver.
