(* ===== verification/TransferFacts.v ===== *)
(** * Facts about the transfer of a file: heads, tokens and signatures

    What the receiver announces of its basis and what the sender understands of it. *)

From S2P Require Import Prelude Stream WireIo Str Session Handshake Delta DeltaFacts Daemon.
From S2P Require Import DeflatedTokens TransferSums Transfer.
Import Rollsum Signature.

Lemma lift_bind {S E A B} (a : A) (f : A → M S E B) s : (lift (Ok a) ≫= f) s = f a s.
Proof. done. Qed.

(** ** Copy tokens *)

Lemma copy_token_of_index i :
  Z.of_nat i < 2 ^ 31 - 1 → block_index_to_copy_token i = Ok (- (Z.of_nat i + 1)).
Proof.
  intros Hi. unfold block_index_to_copy_token.
  rewrite checked_i32_some by (unfold in_i32; lia). cbn [ok_or and_then].
  rewrite (checked_i32_some (_ + 1)) by (unfold in_i32; lia). cbn [mbind option_bind].
  by rewrite checked_i32_some by (unfold in_i32; lia).
Qed.

Lemma index_of_copy_token i :
  Z.of_nat i < 2 ^ 31 - 1 → copy_token_to_block_index (- (Z.of_nat i + 1)) = Ok i.
Proof.
  intros Hi. unfold copy_token_to_block_index. destruct (Z.leb_spec 0 (- (Z.of_nat i + 1))); [lia|].
  rewrite checked_i32_some by (unfold in_i32; lia). cbn [mbind option_bind].
  rewrite checked_i32_some by (unfold in_i32; lia). cbn [ok_or and_then].
  destruct (Z.ltb_spec (- - (Z.of_nat i + 1) - 1) 0); [lia|]. f_equal. lia.
Qed.

(** ** Sum heads *)

Definition head_ok (h : RemoteSumHead) : Prop :=
  Z.of_nat (block_count h) < 2 ^ 31 ∧ Z.of_nat (block_len h) < 2 ^ 31 ∧
  Z.of_nat (checksum_len h) < 2 ^ 31 ∧ Z.of_nat (remainder h) < 2 ^ 31.

Section heads.
Context {R : Type} `{ReadLaws R} {W : Type} `{WriteLaws W}.

Lemma coupled_nonnegative label n :
  Z.of_nat n < 2 ^ 31 →
  coupled (W := W) (R := R) (write_i32_le (as_i32 (Z.of_nat n)))
    (read_nonnegative_i32 label) n.
Proof.
  intros Hn. rewrite as_i32_id by (unfold in_i32; lia).
  destruct (coupled_i32_le (W := W) (R := R) (Z.of_nat n)) as (bs & Hw & Hr).
  exists bs. split; [done|]. unfold read_nonnegative_i32.
  eapply reads_last; [apply reads_with_err, Hr|].
  rewrite as_i32_id by (unfold in_i32; lia).
  destruct (Z.ltb_spec (Z.of_nat n) 0); [lia|]. rewrite Nat2Z.id. apply reads_ret.
Qed.

Lemma coupled_head h : head_ok h → coupled (W := W) (R := R) (write_sum_head h) read_sum_head h.
Proof.
  intros (Hc & Hl & Hs & Hr).
  destruct (coupled_nonnegative "block count" _ Hc) as (b1 & Hw1 & Hr1).
  destruct (coupled_nonnegative "block length" _ Hl) as (b2 & Hw2 & Hr2).
  destruct (coupled_nonnegative "checksum length" _ Hs) as (b3 & Hw3 & Hr3).
  destruct (coupled_nonnegative "remainder length" _ Hr) as (b4 & Hw4 & Hr4).
  exists (b1 ++ b2 ++ b3 ++ b4). split.
  - apply writes_with_err. repeat (eapply writes_bind; [eassumption|]). done.
  - eapply reads_bind; [exact Hr1|]. eapply reads_bind; [exact Hr2|].
    eapply reads_bind; [exact Hr3|]. eapply reads_last; [exact Hr4|].
    destruct h. apply reads_ret.
Qed.
End heads.

(** ** The blocks of a basis *)

Definition basis_head (basis : list Z) (block_size : nat) : RemoteSumHead :=
  {| block_count := length (chunks block_size basis); block_len := block_size;
     checksum_len := 16; remainder := (length basis mod block_size)%nat |}.

Lemma chunk_index_bounds block_size (basis : list Z) i :
  (0 < block_size)%nat →
  (i < length (chunks block_size basis))%nat ↔ (i * block_size < length basis)%nat.
Proof.
  intros Hb. rewrite <-lookup_lt_is_Some, lookup_chunks by done.
  destruct (Nat.ltb_spec (i * block_size) (length basis)).
  - split; [done|by eexists].
  - split; [by intros []|lia].
Qed.

Lemma remainder_fits (basis : list Z) block_size :
  (0 < block_size)%nat → (length basis mod block_size < block_size)%nat.
Proof. intros. apply Nat.mod_upper_bound. lia. Qed.

(** The span that the head gives a block is the block's. *)
Lemma block_span_chunk basis block_size i block :
  (0 < block_size)%nat → Z.of_nat (length basis) < 2 ^ 64 →
  chunks block_size basis !! i = Some block →
  block_span (basis_head basis block_size) i = Ok ((i * block_size)%nat, length block).
Proof.
  intros Hb Hlen Hi. pose proof (remainder_fits basis block_size Hb) as Hrem.
  assert (Hlt : (i < length (chunks block_size basis))%nat) by (by eapply lookup_lt_Some).
  pose proof (proj1 (chunk_index_bounds _ _ _ Hb) Hlt) as Hoff.
  unfold block_span, validate_sum_head. cbn [block_count block_len remainder basis_head].
  rewrite (proj2 (Nat.eqb_neq block_size 0)) by lia. rewrite andb_false_r. cbn iota.
  rewrite (proj2 (Nat.ltb_ge block_size _)) by lia. cbn [andb and_then].
  rewrite (proj2 (Nat.leb_gt _ i)) by done.
  unfold checked_mul_usize. rewrite (proj2 (Z.ltb_lt _ _)) by lia. cbn [ok_or and_then].
  do 2 f_equal. rewrite lookup_chunks in Hi by done.
  rewrite (proj2 (Nat.ltb_lt _ _)) in Hi by done. injection Hi as <-.
  rewrite length_take, length_drop.
  pose proof (chunk_index_bounds block_size basis (i + 1) Hb) as Hnext.
  pose proof (Nat.div_mod_eq (length basis) block_size) as Hdm.
  destruct (Nat.eqb_spec (i + 1) (length (chunks block_size basis))) as [Heq|Hne]; cbn [andb].
  - assert (Hq : (length basis / block_size = i ∨
                 (length basis / block_size = i + 1 ∧ length basis mod block_size = 0))%nat).
    { set (q := (length basis / block_size)%nat) in *.
      assert (length basis ≤ (i + 1) * block_size)%nat by lia.
      assert (q ≤ i + 1)%nat by nia. assert (i ≤ q)%nat by nia.
      destruct (Nat.eq_dec q i); [by left|]. right. split; [lia|]. nia. }
    destruct (Nat.eqb_spec (length basis mod block_size) 0) as [Hz|Hz]; cbn [negb]; nia.
  - assert ((i + 1) * block_size < length basis)%nat by (apply Hnext; lia). nia.
Qed.

(** The span is within the basis, and its bytes are the block. *)
Lemma block_of_basis basis block_size i block :
  (0 < block_size)%nat → Z.of_nat (length basis) < 2 ^ 64 →
  chunks block_size basis !! i = Some block →
  read_basis_block basis (basis_head basis block_size) i = Ok block.
Proof.
  intros Hb Hlen Hi. unfold read_basis_block. rewrite (block_span_chunk _ _ _ block) by done.
  cbn [and_then]. rewrite lookup_chunks in Hi by done.
  destruct (Nat.ltb_spec (i * block_size) (length basis)); [|done]. injection Hi as <-.
  unfold Apply.slice_get. rewrite length_take, length_drop.
  destruct (Nat.leb_spec (i * block_size)
    (i * block_size + block_size `min` (length basis - i * block_size))); [|lia].
  destruct (Nat.leb_spec (i * block_size + block_size `min` (length basis - i * block_size))
    (length basis)); [|lia].
  cbn [andb ok_or]. f_equal. rewrite Nat.add_comm, Nat.add_sub.
  destruct (Nat.le_gt_cases block_size (length basis - i * block_size)).
  - by rewrite Nat.min_l.
  - rewrite Nat.min_r by lia. rewrite !take_ge; [done|rewrite length_drop; lia..].
Qed.

Lemma chunk_count (basis : list Z) block_size :
  (0 < block_size)%nat →
  length (chunks block_size basis) = ((length basis + (block_size - 1)) / block_size)%nat.
Proof.
  intros Hb. set (n := length (chunks block_size basis)).
  assert (Hn : ∀ i, (i < n)%nat ↔ (i * block_size < length basis)%nat)
    by (intros; by apply chunk_index_bounds).
  apply (Nat.div_unique _ _ _ (length basis + (block_size - 1) - n * block_size)).
  - pose proof (proj2 (Hn n)). lia.
  - assert ((n * block_size ≤ length basis + (block_size - 1))%nat); [|lia].
    clearbody n. destruct n as [|n]; [lia|]. pose proof (proj1 (Hn n)). lia.
Qed.

(** The length of the basis, as the sender makes it out of the head. *)
Lemma head_file_len basis block_size :
  (0 < block_size)%nat → Z.of_nat (length basis + block_size) < 2 ^ 64 →
  remote_sum_head_file_len (basis_head basis block_size) = Ok (length basis).
Proof.
  intros Hb Hlen. pose proof (remainder_fits basis block_size Hb) as Hrem.
  pose proof (chunk_count basis block_size Hb) as Hcount.
  pose proof (Nat.div_mod_eq (length basis) block_size) as Hdm.
  pose proof (Nat.div_mod_eq (length basis + (block_size - 1)) block_size) as Hdm'.
  pose proof (Nat.mod_upper_bound (length basis + (block_size - 1)) block_size ltac:(lia)).
  unfold remote_sum_head_file_len. cbn [block_count block_len remainder basis_head].
  rewrite <-Hcount in Hdm'. set (n := length (chunks block_size basis)) in *.
  destruct (Nat.eqb_spec n 0) as [Hz|Hz]; [f_equal; nia|].
  rewrite (proj2 (Nat.eqb_neq block_size 0)), (proj2 (Nat.ltb_ge block_size _)) by lia.
  unfold checked_mul_usize. rewrite (proj2 (Z.ltb_lt _ _)) by nia. cbn [ok_or and_then].
  set (q := (length basis / block_size)%nat) in *. set (m := (length basis mod block_size)%nat) in *.
  destruct (Nat.eqb_spec m 0) as [Hm|Hm].
  - f_equal. assert (n = q) as -> by nia. lia.
  - assert (n = S q) as -> by nia.
    destruct (Nat.ltb_spec (S q * block_size) (block_size - m)); [nia|]. f_equal. nia.
Qed.

(** ** Signatures of a file *)

(** A digest has 16 bytes. *)
Class DigestLaws `{Digests} := {
  length_md4 bytes : length (md4 bytes) = 16%nat;
  length_md5 bytes : length (md5 bytes) = 16%nat;
}.

Lemma length_finalize `{DigestLaws} checksum : length (finalize checksum) = 16%nat.
Proof. destruct checksum; [apply length_md4|apply length_md5]. Qed.

(** The strong checksum of the receiver's signatures, cut to the length of the head. *)
Lemma length_strong `{DigestLaws} kind n block :
  length (strong_digest {| strong_kind := kind; strong_len := n |} block) = Nat.min n 16.
Proof.
  unfold strong_digest, rsync_strong_digest. cbn [strong_kind strong_len].
  unfold remote_checksum_for_bytes. rewrite length_take, length_finalize. lia.
Qed.

Section files.
Context {F : Type} `{SourceLaws F}.

Lemma fill_block_spec fuel n block (f : F) bytes :
  holds f bytes → (length block ≤ n)%nat → (n - length block < fuel)%nat →
  ∃ f', fill_block fuel n block f = (Ok (block ++ take (n - length block) bytes), f') ∧
    holds f' (drop (n - length block) bytes).
Proof.
  revert block f bytes. induction fuel as [|fuel IH]; intros block f bytes Hf Hb Hfuel; [lia|].
  cbn [fill_block]. destruct (Nat.ltb_spec (length block) n) as [Hlt|Hge].
  - destruct (read_some_holds (n - length block) f bytes Hf)
      as (piece & rest & f1 & Hr & -> & Hf1 & Hlen & Hend); [lia|].
    erewrite bind_ok by (unfold with_err; rewrite Hr; done). case_bool_decide as Hp.
    + assert (rest = []) as -> by (apply Hend in Hp; by destruct piece). subst piece.
      exists f1. cbn [app]. by rewrite take_nil, app_nil_r, drop_nil.
    + destruct (IH (block ++ piece) f1 rest Hf1) as (f2 & Hr2 & Hf2).
      { rewrite length_app. lia. }
      { rewrite length_app. destruct piece; [done|]. cbn [length] in *. lia. }
      exists f2. rewrite length_app in *. rewrite Hr2, take_app, drop_app, <-app_assoc.
      rewrite (take_ge piece), (drop_ge piece) by lia. cbn [app].
      replace (n - length block - length piece)%nat with (n - (length block + length piece))%nat by lia.
      done.
  - exists f. replace (n - length block)%nat with 0%nat by lia. by rewrite take_0, drop_0, app_nil_r.
Qed.

Context {C : Type} `{StrongChecksum C} (strong : C).

Lemma signatures_loop_spec fuel n signatures (f : F) bytes :
  (0 < n)%nat → holds f bytes → (length bytes < fuel)%nat →
  Z.of_nat (length signatures * n + length bytes) < 2 ^ 64 →
  (signatures_loop fuel n strong signatures (length signatures * n) f).1 =
  Ok (signatures ++ imap (λ i, block_signature strong n (length signatures + i)) (chunks n bytes)).
Proof.
  intros Hn. revert signatures f bytes. induction fuel as [|fuel IH];
    intros signatures f bytes Hf Hfuel Hsize; [lia|]. cbn [signatures_loop].
  destruct (fill_block_spec (S n) n [] f bytes Hf) as (f1 & Hr & Hf1); [cbn; lia..|].
  rewrite (bind_ok _ _ _ _ _ Hr). cbn [length app] in *. rewrite Nat.sub_0_r in *.
  destruct bytes as [|b bytes].
  { rewrite bool_decide_true by apply take_nil. cbn. by rewrite app_nil_r. }
  rewrite bool_decide_false by (destruct n; [lia|done]).
  rewrite chunks_cons by done. set (all := b :: bytes) in *.
  assert (Hlen : length (take n all) = Nat.min n (length all)) by apply length_take.
  unfold Apply.checked_add_usize. rewrite (proj2 (Z.ltb_lt _ _)) by lia.
  cbn [ok_or imap]. rewrite lift_bind, Nat.add_0_r. change (index _) with (length signatures).
  set (s := {| index := _ |}).
  assert (s = block_signature strong n (length signatures) (take n all)) as -> by done.
  destruct (Nat.ltb_spec (length (take n all)) n) as [Hshort|Hfull].
  - rewrite (drop_ge all) by lia. rewrite chunks_nil. done.
  - replace (length signatures * n + length (take n all))%nat
      with (length (signatures ++ [block_signature strong n (length signatures) (take n all)]) * n)%nat
      by (rewrite length_app; cbn [length]; nia).
    rewrite (IH _ f1 (drop n all) Hf1) by (rewrite ?length_app, length_drop; cbn [length]; lia).
    rewrite <-app_assoc. cbn [app]. f_equal. f_equal. f_equal.
    apply imap_ext. intros i x _. cbn. f_equal. rewrite length_app. cbn [length]. lia.
Qed.

Lemma generate_from_path n (f : F) basis :
  (0 < n)%nat → holds f basis → Z.of_nat (length basis) < 2 ^ 64 →
  generate_signatures_from_path (Ok f) n strong =
  Ok (imap (block_signature strong n) (chunks n basis)).
Proof.
  intros Hn Hf Hsize. unfold generate_signatures_from_path.
  rewrite (proj2 (Nat.eqb_neq n 0)) by lia. cbn [and_then].
  pose proof (holds_unread f basis Hf).
  apply (signatures_loop_spec _ n [] f basis); [done|done|lia|cbn [length]; lia].
Qed.
End files.

(** ** Signatures on the wire *)

Section wire.
Context {R : Type} `{ReadLaws R} {W : Type} `{WriteLaws W} `{SignatureSize}.

(** A signature that the reader of a head can make out again. *)
Definition wire_signature (head : RemoteSumHead) (i : nat) (s : BlockSignature) : Prop :=
  index s = i ∧ block_span head i = Ok (offset s, sig_len s) ∧
  length (strong s) = checksum_len head ∧ in_u32 (weak s).

Lemma coupled_signatures head kind sigs i :
  (∀ j s, sigs !! j = Some s → wire_signature head (i + j) s) →
  coupled (W := W) (R := R) (write_remote_block_signatures sigs)
    (read_signatures head kind (length sigs) i) sigs.
Proof.
  revert i. induction sigs as [|s sigs IH]; intros i Hsigs; [apply coupled_ret|].
  destruct (Hsigs 0%nat s eq_refl) as (Hi & Hspan & Hstrong & Hweak).
  rewrite Nat.add_0_r in Hi, Hspan.
  destruct (IH (S i)) as (rest & Hw & Hr).
  { intros j s' Hj. replace (S i + j)%nat with (i + S j)%nat by lia. by apply Hsigs. }
  destruct (coupled_i32_le (W := W) (R := R) (as_i32 (weak s))) as (b & Hbw & Hbr).
  exists ((b ++ strong s) ++ rest). split.
  - cbn. eapply writes_bind; [|exact Hw]. apply writes_with_err.
    eapply writes_bind; [exact Hbw|apply writes_all].
  - rewrite <-app_assoc. cbn [length read_signatures].
    eapply reads_bind; [apply reads_with_err, Hbr|].
    eapply reads_bind; [apply reads_with_err, (reads_exact (strong s)), Hstrong|].
    eapply reads_bind_nil; [by apply reads_lift, Hspan|]. cbn.
    eapply reads_last; [exact Hr|]. unfold normalize_remote_strong_checksum.
    rewrite as_i32_id by (unfold in_i32, as_i32; pose proof (Z.mod_pos_bound (weak s + 2 ^ 31) (2 ^ 32)); lia).
    rewrite as_u32_as_i32, as_u32_id by done. rewrite <-Hi. destruct s. apply reads_ret.
Qed.

Definition sends_request (request : RemoteSumHead * list BlockSignature) : M W TransferError unit :=
  write_sum_head request.1;; write_remote_block_signatures request.2.

Definition takes_request (checksum : RemoteFileChecksum) (max_alloc : option Z) :
    M R TransferError (RemoteSumHead * list BlockSignature) :=
  head ← read_sum_head;
  signatures ← read_remote_block_signatures_from_reader head checksum max_alloc;
  mret (head, signatures).

Context `{DigestLaws}.

(** The signatures of a basis under the checksum of a session. *)
Definition basis_signatures (checksum : RemoteFileChecksum) (basis : list Z) (block_size : nat) :
    list BlockSignature :=
  imap (block_signature {| strong_kind := checksum; strong_len := 16 |} block_size)
    (chunks block_size basis).

Lemma basis_signature_lookup checksum basis block_size i s :
  basis_signatures checksum basis block_size !! i = Some s ↔
  ∃ block, chunks block_size basis !! i = Some block ∧
    s = block_signature {| strong_kind := checksum; strong_len := 16 |} block_size i block.
Proof.
  unfold basis_signatures. rewrite list_lookup_imap.
  destruct (chunks block_size basis !! i); cbn; naive_solver.
Qed.

(** What is asked of a basis: it fits the integers of a head, and the tables the limit. *)
Definition request_fits (basis : list Z) (block_size : nat) (max_alloc : option Z) : Prop :=
  (0 < block_size)%nat ∧ Z.of_nat block_size < 2 ^ 31 ∧
  Z.of_nat (length basis + block_size) < 2 ^ 64 ∧
  Z.of_nat (length (chunks block_size basis)) < 2 ^ 31 ∧
  (∀ label, ensure_signature_table_budget label (length (chunks block_size basis)) 16 max_alloc = Ok ()) ∧
  ensure_allocation_within_limit "basis checksum block" block_size max_alloc = Ok ().

Lemma validate_basis_head basis block_size :
  (0 < block_size)%nat → validate_sum_head (basis_head basis block_size) = Ok ().
Proof.
  intros Hb. pose proof (remainder_fits basis block_size Hb).
  unfold validate_sum_head. cbn [block_count block_len remainder basis_head].
  rewrite (proj2 (Nat.eqb_neq block_size 0)), andb_false_r by lia.
  by rewrite (proj2 (Nat.ltb_ge block_size _)) by lia.
Qed.

Lemma basis_head_ok basis block_size max_alloc :
  request_fits basis block_size max_alloc → head_ok (basis_head basis block_size).
Proof.
  intros (Hb & Hbs & _ & Hcount & _). pose proof (remainder_fits basis block_size Hb).
  repeat split; cbn [block_count block_len checksum_len remainder basis_head]; lia.
Qed.

Lemma basis_wire_signatures checksum basis block_size max_alloc j s :
  request_fits basis block_size max_alloc →
  basis_signatures checksum basis block_size !! j = Some s →
  wire_signature (basis_head basis block_size) j s.
Proof.
  intros (Hb & _ & Hlen & _) (block & Hj & ->)%basis_signature_lookup.
  split_and!; cbn [index offset sig_len weak strong block_signature]; [done| | |].
  - by apply block_span_chunk; [..|lia|].
  - by rewrite length_strong.
  - apply digest_bound.
Qed.

Lemma coupled_request checksum basis block_size max_alloc max_alloc' :
  request_fits basis block_size max_alloc → request_fits basis block_size max_alloc' →
  coupled (W := W) (R := R)
    (sends_request (basis_head basis block_size, basis_signatures checksum basis block_size))
    (takes_request checksum max_alloc')
    (basis_head basis block_size, basis_signatures checksum basis block_size).
Proof.
  intros Hfit (Hb & _ & _ & _ & Hbudget & _).
  assert (Hn : length (basis_signatures checksum basis block_size) = length (chunks block_size basis))
    by apply length_imap.
  eapply coupled_bind; [eapply coupled_head, basis_head_ok, Hfit|].
  destruct (coupled_signatures (basis_head basis block_size) checksum
    (basis_signatures checksum basis block_size) 0) as (bs & Hw & Hr).
  { intros j s. by eapply basis_wire_signatures. }
  exists bs. split; [exact Hw|]. eapply reads_last; [|apply reads_ret].
  unfold read_remote_block_signatures_from_reader. cbn [fst].
  eapply reads_bind_nil; [by apply reads_lift, validate_basis_head|].
  cbn [block_count checksum_len basis_head].
  eapply reads_bind_nil; [by apply reads_lift, Hbudget|].
  cbn [fst block_count basis_head]. by rewrite <-Hn.
Qed.

Lemma local_request {F} `{SourceLaws F} checksum basis block_size max_alloc (f : F) :
  request_fits basis block_size max_alloc → holds f basis →
  local_basis_signature_request (Some (true, Z.of_nat (length basis))) (Ok f) block_size
    checksum false max_alloc =
  Ok (basis_head basis block_size, basis_signatures checksum basis block_size).
Proof.
  intros (Hb & Hbs & Hlen & Hcount & Hbudget & Halloc) Hf.
  unfold local_basis_signature_request. cbn [negb].
  rewrite (proj2 (Nat.eqb_neq block_size 0)) by lia.
  unfold checked_usize. rewrite (proj2 (Z.leb_le 0 _)), (proj2 (Z.ltb_lt _ _)) by lia.
  cbn [andb ok_or and_then]. rewrite Nat2Z.id. unfold Apply.checked_add_usize.
  rewrite (proj2 (Z.ltb_lt _ _)) by lia. cbn [ok_or and_then].
  rewrite <-chunk_count, Hbudget by done. cbn [and_then]. rewrite Halloc. cbn [and_then].
  rewrite (generate_from_path _ _ _ basis) by (done || lia). cbn [and_then].
  fold (basis_signatures checksum basis block_size).
  assert (Hempty : basis_signatures checksum basis block_size = [] → basis = []).
  { intros Hnil. apply (f_equal length) in Hnil. unfold basis_signatures in Hnil.
    rewrite length_imap in Hnil. destruct basis; [done|]. by rewrite chunks_cons in Hnil. }
  case_bool_decide as Hnil.
  - rewrite (Hempty Hnil). unfold basis_head. cbn [length chunks chunks_fuel].
    by rewrite Nat.Div0.mod_0_l.
  - unfold basis_head, basis_signatures. by rewrite length_imap.
Qed.
End wire.

(** ** A file that is read in pieces, and digests that show their bytes

    Instances for concrete runs: the next read gives no more than the first of the
    sizes; a digest is the first sixteen bytes. *)

Record Pieces := { left : list Z; sizes : list nat }.

#[export] Instance pieces_source : Source Pieces := {|
  read_some n := λ f,
    let size := Nat.min n (S (default n (head (sizes f)))) in
    (Ok (take size (left f)), {| left := drop size (left f); sizes := tail (sizes f) |});
  unread f := length (left f);
|}.

#[export, program] Instance pieces_laws : SourceLaws Pieces :=
  {| holds f bytes := left f = bytes |}.
Next Obligation. by intros f bytes <-. Qed.
Next Obligation.
  intros n f bytes <- Hn. cbn. set (size := Nat.min n _).
  eexists _, (drop size (left f)), _. split; [done|]. split; [by rewrite take_drop|].
  split; [done|]. rewrite length_take. split; [unfold size; lia|].
  intros Hnil. apply (f_equal length) in Hnil. rewrite length_take in Hnil.
  destruct (left f); [done|]. unfold size in Hnil. cbn [length] in Hnil. lia.
Qed.

Definition shown (bytes : list Z) : list Z := take 16 (bytes ++ replicate 16 0).

Definition shown_digests : Digests := {| md4 := shown; md5 := shown |}.

Lemma length_shown bytes : length (shown bytes) = 16%nat.
Proof. unfold shown. rewrite length_take, length_app, length_replicate. lia. Qed.

Definition shown_laws : @DigestLaws shown_digests :=
  @Build_DigestLaws shown_digests length_shown length_shown.

Lemma shown_short a b : length a = length b → (length a ≤ 16)%nat → shown a = shown b → a = b.
Proof.
  unfold shown. intros Hlen Hle Heq. apply (f_equal (take (length a))) in Heq.
  rewrite !take_take, Nat.min_l, !take_app in Heq by lia.
  rewrite <-Hlen, Nat.sub_diag, !take_0, !app_nil_r in Heq.
  by rewrite !take_ge in Heq by lia.
Qed.

Lemma shown_collision_free old new :
  (length old ≤ 16)%nat →
  @collision_free RsyncStrongChecksum (@rsync_strong_digest shown_digests)
    {| strong_kind := FilePlainMd4; strong_len := 16 |} new old.
Proof.
  intros Hold n i j Hi Hj block window _ Heq.
  assert (Hl : ∀ l : list Z, length l = n → strong_digest (StrongChecksum := @rsync_strong_digest shown_digests)
    {| strong_kind := FilePlainMd4; strong_len := 16 |} l = shown l).
  { intros l _. unfold strong_digest, rsync_strong_digest, remote_checksum_for_bytes.
    cbn [strong_kind strong_len remote_file_checksum_builder update finalize md4 shown_digests].
    unfold md4_finalize, md4_update. cbn [hasher seed md4_plain seed_suffix md4 shown_digests app].
    rewrite app_nil_r. apply take_ge. rewrite length_shown. lia. }
  assert (length block = n) as Hb by (unfold block; rewrite length_take, length_drop; lia).
  assert (length window = n) as Hw by (unfold window; rewrite length_take, length_drop; lia).
  apply shown_short; [congruence|lia|]. by rewrite <-!Hl.
Qed.
