(* ===== verification/TransferSend.v ===== *)
(** * What a sender of a file puts on the wire

    The loops over a file come down to a list of events, literals and copies, that is
    sent in one of two codings; the events stand for the bytes of the file. *)

From stdpp Require Import sorting.
From S2P Require Import Prelude Stream WireIo Str Session Handshake Delta DeltaFacts Daemon.
From S2P Require Import DeflatedTokens TransferSums Transfer TransferFacts.
Import Rollsum Signature.

Lemma update_update checksum a b : update (update checksum a) b = update checksum (a ++ b).
Proof.
  destruct checksum as [[h s]|h s]; unfold update, md4_update; cbn [hasher seed];
    by rewrite <-app_assoc.
Qed.

Lemma update_nil checksum : update checksum [] = checksum.
Proof.
  destruct checksum as [[h s]|h s]; unfold update, md4_update; cbn [hasher seed];
    by rewrite app_nil_r.
Qed.

Lemma buffer_positive : (0 < buffer_size)%nat.
Proof. unfold buffer_size. apply Nat.mul_pos_pos; lia. Qed.

Lemma buffer_bound : Z.of_nat buffer_size < 2 ^ 31.
Proof. unfold buffer_size. rewrite Nat2Z.inj_mul. lia. Qed.

#[global] Opaque buffer_size.

(** The clock stays before the deadline. *)
Definition in_time `{Clock} (deadline : option Z) : Prop :=
  match deadline with Some deadline => ∀ n, now n < deadline | None => True end.

Lemma deadline_passes `{Clock} deadline n :
  in_time deadline → ∃ n', check_transfer_deadline deadline n = (Ok (), n').
Proof.
  destruct deadline as [d|]; [|by exists n]. intros Hd. exists (S n).
  unfold check_transfer_deadline, mbind, M_bind, get, put.
  by rewrite (proj2 (Z.leb_gt _ _) (Hd n)).
Qed.

(** ** Events *)

Section events.
Context `{Zlib} {W : Type} `{Write W}.

Definition send_event {F : Type} (event : RsyncDeflatedToken) : M (Sender F * W) TransferError unit :=
  match event with
  | Literal bytes => put_literal bytes
  | Copy i => write_copy_token i
  | End => mret ()
  end.

(** A sender with its parts. *)
Definition sender {F : Type} (f : F) (n : nat) (c : option RsyncDeflatedTokenWriter) : Sender F :=
  {| file := f; readings := n; compressor := c |}.

(** Sending has nothing to do with the file or the clock. *)
Lemma send_event_frame event c (w : W) :
  ∃ r c' w', ∀ F (f : F) n, send_event event (sender f n c, w) = (r, (sender f n c', w')).
Proof.
  destruct event as [bytes|i|].
  - destruct c as [c|].
    + destruct (DeflatedTokens.send_literal bytes (c, w)) as [r [c' w']] eqn:Hr.
      exists (map_err TransferIo r), (Some c'), w'. intros F f n.
      change (with_compressor (DeflatedTokens.send_literal bytes) c (sender f n (Some c), w) =
        (map_err TransferIo r, (sender f n (Some c'), w'))).
      unfold with_compressor. cbn [snd]. by rewrite Hr.
    + set (m := with_err TransferSession (write_rsync_i32 (as_i32 (Z.of_nat (length bytes))))).
      destruct (m w) as [[[]|e] w1] eqn:H1.
      * destruct (with_err TransferIo (write_all bytes) w1) as [r w'] eqn:H2.
        exists r, None, w'. intros F f n.
        change ((on_snd m;; on_snd (with_err TransferIo (write_all bytes))) (sender f n None, w) =
          (r, (sender f n None, w'))).
        unfold mbind, M_bind, on_snd. cbn [snd fst]. rewrite H1. cbn [snd fst]. by rewrite H2.
      * exists (Err e), None, w1. intros F f n.
        change ((on_snd m;; on_snd (with_err TransferIo (write_all bytes))) (sender f n None, w) =
          (Err e, (sender f n None, w1))).
        unfold mbind, M_bind, on_snd. cbn [snd fst]. by rewrite H1.
  - destruct c as [c|].
    + destruct (DeflatedTokens.send_copy i (c, w)) as [r [c' w']] eqn:Hr.
      exists (map_err TransferIo r), (Some c'), w'. intros F f n.
      change (with_compressor (DeflatedTokens.send_copy i) c (sender f n (Some c), w) =
        (map_err TransferIo r, (sender f n (Some c'), w'))).
      unfold with_compressor. cbn [snd]. by rewrite Hr.
    + set (m := λ token, with_err TransferSession (write_rsync_i32 (T := W) token)).
      assert (Hcopy : ∀ F (f : F) n, send_event (Copy i) (sender f n None, w) =
        (token ← lift (block_index_to_copy_token i); on_snd (m token)) (sender f n None, w)) by done.
      destruct (block_index_to_copy_token i) as [token|e] eqn:Ht.
      * destruct (m token w) as [r w'] eqn:Hr.
        exists r, None, w'. intros F f n. rewrite Hcopy, lift_bind.
        unfold on_snd. cbn [snd fst]. by rewrite Hr.
      * exists (Err e), None, w. intros F f n. by rewrite Hcopy.
  - by exists (Ok ()), c, w.
Qed.

(** Sending [events] turns the compressor [c] and the transport [w] into others. *)
Definition sent (events : list RsyncDeflatedToken) c (w : W) c' w' : Prop :=
  ∀ F (f : F) n, for_each send_event events (sender f n c, w) = (Ok (), (sender f n c', w')).

Lemma sent_nil c w : sent [] c w c w.
Proof. done. Qed.

Lemma sent_one event c w c' w' :
  sent [event] c w c' w' ↔
  ∀ F (f : F) n, send_event event (sender f n c, w) = (Ok (), (sender f n c', w')).
Proof.
  split; intros Hs F f n; specialize (Hs F f n); cbn [for_each] in *.
  - apply bind_ok_inv in Hs as ([] & s & Hs & Hr). by injection Hr as <-.
  - by rewrite (bind_ok _ _ _ _ _ Hs).
Qed.

Lemma sent_cons event events c w c' w' :
  sent (event :: events) c w c' w' →
  ∃ c1 w1, sent [event] c w c1 w1 ∧ sent events c1 w1 c' w'.
Proof.
  intros Hs. destruct (send_event_frame event c w) as (r & c1 & w1 & Hframe).
  pose proof (Hs unit () 0%nat) as Hu. cbn [for_each] in Hu.
  apply bind_ok_inv in Hu as ([] & s & Hr & _). rewrite Hframe in Hr. injection Hr as -> _.
  exists c1, w1. split; [by apply sent_one|].
  intros F f n. specialize (Hs F f n). cbn [for_each] in Hs.
  by rewrite (bind_ok _ _ _ _ _ (Hframe F f n)) in Hs.
Qed.

Lemma sent_app_inv events1 events2 c w c' w' :
  sent (events1 ++ events2) c w c' w' →
  ∃ c1 w1, sent events1 c w c1 w1 ∧ sent events2 c1 w1 c' w'.
Proof.
  revert c w. induction events1 as [|event events1 IH]; intros c w Hs; [by exists c, w|].
  apply sent_cons in Hs as (c1 & w1 & H1 & Hs). apply IH in Hs as (c2 & w2 & H2 & Hs).
  exists c2, w2. split; [|done]. intros F f n. cbn [for_each].
  rewrite (bind_ok _ _ _ _ _ (proj1 (sent_one _ _ _ _ _) H1 F f n)). apply H2.
Qed.

Lemma put_literal_sent {F : Type} bytes c w c' w' (f : F) n :
  sent [Literal bytes] c w c' w' → put_literal bytes (sender f n c, w) = (Ok (), (sender f n c', w')).
Proof. intros Hs. exact (proj1 (sent_one _ _ _ _ _) Hs F f n). Qed.

Lemma write_copy_sent {F : Type} i c w c' w' (f : F) n :
  sent [Copy i] c w c' w' → write_copy_token i (sender f n c, w) = (Ok (), (sender f n c', w')).
Proof. intros Hs. exact (proj1 (sent_one _ _ _ _ _) Hs F f n). Qed.

(** The end of the tokens of a file. *)
Definition ended c (w : W) c' w' : Prop :=
  ∀ F (f : F) n, put_end (sender f n c, w) = (Ok (), (sender f n c', w')).
End events.

(** The literal that is pending, as events. *)
Definition pending_events (literal : list Z) : list RsyncDeflatedToken :=
  if bool_decide (literal = []) then [] else [Literal literal].

(** ** The index of a window *)

(** The lengths are those of blocks that are not empty, the longest first. *)
Record index_ok (idx : RemoteSignatureIndex) (signatures : list BlockSignature) : Prop := {
  index_of_them : index_signatures idx = signatures;
  index_max_positive : (0 < index_max_len idx)%nat;
  index_lengths : Forall (λ len, 0 < len ≤ index_max_len idx)%nat (index_lengths_desc idx);
  index_has_all s : s ∈ signatures → (0 < sig_len s)%nat → sig_len s ∈ index_lengths_desc idx;
}.

Lemma head_dedup l : head (dedup l) = head l.
Proof.
  destruct l as [|x l]; [done|]. cbn. destruct (dedup l) as [|y rest]; [done|].
  by destruct (x =? y)%nat.
Qed.

Lemma elem_of_dedup n l : n ∈ dedup l ↔ n ∈ l.
Proof.
  induction l as [|x l IH]; [done|]. cbn. rewrite elem_of_cons, <-IH.
  destruct (dedup l) as [|y rest]; [set_solver|].
  destruct (Nat.eqb_spec x y) as [->|]; set_solver.
Qed.

#[export] Instance ge_total : Total ge.
Proof. intros x y. unfold ge. lia. Qed.
#[export] Instance ge_transitive : Transitive ge.
Proof. intros x y z. unfold ge. lia. Qed.

Lemma new_index_ok signatures idx :
  new_remote_index signatures = Ok idx → index_ok idx signatures.
Proof.
  unfold new_remote_index.
  set (ls := List.filter (λ len, 0 <? len)%nat (sig_len <$> signatures)).
  assert (Hin : ∀ n, n ∈ dedup (merge_sort ge ls) ↔ (0 < n)%nat ∧ n ∈ sig_len <$> signatures).
  { intros n. rewrite elem_of_dedup, merge_sort_Permutation. unfold ls.
    rewrite !list_elem_of_In, filter_In, Nat.ltb_lt. tauto. }
  assert (Hmax : ∀ n, n ∈ dedup (merge_sort ge ls) →
    (n ≤ default 0 (head (dedup (merge_sort ge ls))))%nat).
  { intros n. rewrite elem_of_dedup, head_dedup.
    pose proof (StronglySorted_merge_sort ge ls) as Hs.
    destruct Hs as [|x l Hs Hx]; [by intros ?%elem_of_nil|]. cbn.
    rewrite Forall_forall in Hx. intros [->|Hn]%elem_of_cons; [done|]. by apply Hx. }
  case_match eqn:Hz; [done|]. apply Nat.eqb_neq in Hz. intros [= <-].
  split; cbn [index_signatures index_lengths_desc index_max_len]; [done|lia| |].
  - apply Forall_forall. intros n Hn. split; [by apply Hin in Hn as [??]|by apply Hmax].
  - intros s Hs Hpos. apply Hin. split; [done|]. by apply list_elem_of_fmap_2.
Qed.

Lemma new_index_exists signatures s :
  s ∈ signatures → (0 < sig_len s)%nat → is_ok (new_remote_index signatures) = true.
Proof.
  intros Hs Hpos. unfold new_remote_index. rewrite head_dedup.
  set (ls := merge_sort ge _). assert (Hin : sig_len s ∈ ls).
  { unfold ls. rewrite merge_sort_Permutation, list_elem_of_In, filter_In, Nat.ltb_lt.
    split; [|done]. apply list_elem_of_In. by apply list_elem_of_fmap_2. }
  pose proof (StronglySorted_merge_sort ge (List.filter (λ len, 0 <? len)%nat (sig_len <$> signatures))) as Hsort.
  fold ls in Hsort. destruct Hsort as [|x l _ Hx]; [by apply elem_of_nil in Hin|]. cbn.
  destruct (Nat.eqb_spec x 0) as [->|]; [|done]. exfalso.
  apply elem_of_cons in Hin as [|Hin]; [lia|]. rewrite Forall_forall in Hx.
  specialize (Hx _ Hin). unfold ge in Hx. lia.
Qed.

Section search.
Context {C : Type} `{StrongChecksum C} (strong : C).

Lemma find_match_window idx signatures window rest :
  index_ok idx signatures → rest = [] ∨ (index_max_len idx ≤ length window)%nat →
  find_match idx (window ++ rest) strong = find_match idx window strong.
Proof.
  intros [_ _ Hall _] [->|Hlen]; [by rewrite app_nil_r|]. unfold find_match.
  induction Hall as [|len lengths [_ Hmax] _ IH]; [done|]. cbn [find_in_lengths].
  rewrite length_app, (proj2 (Nat.ltb_ge _ _)), (proj2 (Nat.ltb_ge (length window) _)) by lia.
  rewrite take_app_le by lia. case_match; done.
Qed.

Lemma find_match_found idx signatures window s :
  index_ok idx signatures → find_match idx window strong = Some s →
  s ∈ signatures ∧ (0 < sig_len s ≤ length window)%nat ∧
  weak s = rolling_checksum (take (sig_len s) window) ∧
  Signature.strong s = strong_digest strong (take (sig_len s) window).
Proof.
  intros [<- _ Hall _]. unfold find_match. induction Hall as [|len lengths [Hpos _] _ IH]; [done|].
  cbn [find_in_lengths]. destruct (Nat.ltb_spec (length window) len); [done|].
  case_match eqn:Hfind; [|done]. intros [= ->].
  apply find_some in Hfind as [Hin Hs]. apply list_elem_of_In in Hin.
  apply andb_true_iff in Hs as [Hs Hd%bool_decide_eq_true].
  apply andb_true_iff in Hs as [<-%bool_decide_eq_true Hw%Z.eqb_eq]. auto.
Qed.

End search.

(** ** The loops *)

Section loops.
Context `{Clock} `{Digests} `{Zlib} {F : Type} `{SourceLaws F} {W : Type} `{Write W}.
Context (deadline : option Z) (Htime : in_time deadline).

Lemma check_deadline_ok (f : F) n c (w : W) :
  ∃ n', check_deadline deadline (sender f n c, w) = (Ok (), (sender f n' c, w)).
Proof.
  destruct (deadline_passes deadline n Htime) as [n' Hn]. exists n'.
  unfold check_deadline, on_fst. cbn [fst readings sender]. by rewrite Hn.
Qed.

Lemma read_file_ok k (f : F) n c (w : W) bytes :
  holds f bytes → (0 < k)%nat →
  ∃ piece rest f', read_file k (sender f n c, w) = (Ok piece, (sender f' n c, w)) ∧
    bytes = piece ++ rest ∧ holds f' rest ∧ (length piece ≤ k)%nat ∧ (piece = [] → bytes = []).
Proof.
  intros Hf Hk. destruct (read_some_holds k f bytes Hf Hk) as (piece & rest & f' & Hr & Hrest).
  exists piece, rest, f'. split; [|done].
  unfold read_file, on_fst, with_err. cbn [fst file sender]. by rewrite Hr.
Qed.

(** The window is filled, or holds all that was left. *)
Lemma fill_loop_ok fuel max_len window checksum eof (f : F) n c (w : W) bytes :
  holds f bytes → (eof = true → bytes = []) → (max_len - length window < fuel)%nat →
  ∃ k f' n' eof', fill_loop fuel max_len deadline window checksum eof (sender f n c, w) =
      (Ok (window ++ take k bytes, update checksum (take k bytes), eof'), (sender f' n' c, w)) ∧
    holds f' (drop k bytes) ∧ (eof' = true → drop k bytes = []) ∧
    (eof' = true ∨ (max_len ≤ length (window ++ take k bytes))%nat).
Proof.
  revert window checksum f n bytes.
  induction fuel as [|fuel IH]; intros window checksum f n bytes Hf Heof Hfuel; [lia|].
  cbn [fill_loop].
  assert (Hstop : eof = true ∨ (max_len ≤ length window)%nat → ∃ k f' n' eof',
    (Ok (E := TransferError) (window, checksum, eof), (sender f n c, w)) =
      (Ok (window ++ take k bytes, update checksum (take k bytes), eof'), (sender f' n' c, w)) ∧
    holds f' (drop k bytes) ∧ (eof' = true → drop k bytes = []) ∧
    (eof' = true ∨ (max_len ≤ length (window ++ take k bytes))%nat)).
  { intros Hd. exists 0%nat, f, n, eof. rewrite take_0, drop_0, app_nil_r, update_nil. done. }
  destruct eof; cbn [negb andb]; [by apply Hstop; left|].
  destruct (Nat.ltb_spec (length window) max_len) as [Hlt|]; [|by apply Hstop; right].
  destruct (check_deadline_ok f n c w) as [n1 Hn1]. rewrite (bind_ok _ _ _ _ _ Hn1).
  destruct (read_file_ok (max_len - length window) f n1 c w bytes Hf)
    as (piece & rest & f1 & Hr & -> & Hf1 & Hlen & Hend); [lia|].
  rewrite (bind_ok _ _ _ _ _ Hr). case_bool_decide as Hp.
  - exists 0%nat, f1, n1, true. rewrite take_0, drop_0, app_nil_r, update_nil.
    pose proof (Hend Hp) as Hnil. rewrite Hp in *. cbn [app] in *. subst rest. auto.
  - destruct (IH (window ++ piece) (update checksum piece) f1 n1 rest Hf1) as (k & f2 & n2 & eof2 & Hr2 & Hf2 & He2 & Hmax).
    { done. }
    { rewrite length_app. destruct piece; [done|]. cbn [length] in *. lia. }
    exists (length piece + k)%nat, f2, n2, eof2.
    rewrite take_app, drop_app, (take_ge piece), (drop_ge piece) by lia.
    replace (length piece + k - length piece)%nat with k by lia.
    rewrite app_assoc, <-update_update. done.
Qed.

Context {C : Type} `{StrongChecksum C} (strong : C).

(** *** The events of a file *)

Definition pended (literal : list Z) (stats : RemoteDeltaStats) : RemoteDeltaStats :=
  if bool_decide (literal = []) then stats
  else {| literal_bytes := as_u64 (literal_bytes stats + Z.of_nat (length literal));
          copied_bytes := copied_bytes stats |}.

(** From what is left of a file and the literal that is pending: the events, the last
    literal and the counts. *)
Inductive streams (idx : RemoteSignatureIndex) : list Z → list Z → RemoteDeltaStats →
    list RsyncDeflatedToken → list Z → RemoteDeltaStats → Prop :=
| streams_end literal stats : streams idx [] literal stats [] literal stats
| streams_copy rest literal stats s events literal' stats' :
    rest ≠ [] → find_match idx rest strong = Some s →
    streams idx (drop (sig_len s) rest) [] (copied (sig_len s) (pended literal stats))
      events literal' stats' →
    streams idx rest literal stats (pending_events literal ++ Copy (index s) :: events)
      literal' stats'
| streams_byte rest literal stats events literal' stats' :
    rest ≠ [] → find_match idx rest strong = None →
    (length (literal ++ take 1 rest) < buffer_size)%nat →
    streams idx (drop 1 rest) (literal ++ take 1 rest) stats events literal' stats' →
    streams idx rest literal stats events literal' stats'
| streams_full rest literal stats events literal' stats' :
    rest ≠ [] → find_match idx rest strong = None →
    (buffer_size ≤ length (literal ++ take 1 rest))%nat →
    streams idx (drop 1 rest) [] (pended (literal ++ take 1 rest) stats) events literal' stats' →
    streams idx rest literal stats (pending_events (literal ++ take 1 rest) ++ events)
      literal' stats'.

Lemma streams_total idx signatures rest literal stats :
  index_ok idx signatures →
  ∃ events literal' stats', streams idx rest literal stats events literal' stats'.
Proof.
  intros Hidx. revert literal stats.
  induction rest as [rest IH] using (induction_ltof1 _ length). intros literal stats. unfold ltof in IH.
  destruct (decide (rest = [])) as [->|Hne]; [by exists [], literal, stats; constructor|].
  assert (Hlt : (length (drop 1 rest) < length rest)%nat)
    by (rewrite length_drop; destruct rest; [done|cbn; lia]).
  destruct (find_match idx rest strong) as [s|] eqn:Hs.
  - destruct (find_match_found _ _ _ _ _ Hidx Hs) as (_ & Hlen & _).
    destruct (IH (drop (sig_len s) rest)) with (literal := @nil Z)
      (stats := copied (sig_len s) (pended literal stats)) as (e & l & st & He).
    { rewrite length_drop. lia. }
    eexists _, l, st. by eapply streams_copy.
  - destruct (Nat.lt_ge_cases (length (literal ++ take 1 rest)) buffer_size) as [Hshort|Hfull].
    + destruct (IH _ Hlt (literal ++ take 1 rest) stats) as (e & l & st & He).
      exists e, l, st. by apply streams_byte.
    + destruct (IH _ Hlt [] (pended (literal ++ take 1 rest) stats)) as (e & l & st & He).
      eexists _, l, st. by apply streams_full.
Qed.

Lemma pending_ok literal stats (f : F) n c (w : W) c' w' :
  sent (pending_events literal) c w c' w' →
  write_pending_literal_token literal stats (sender f n c, w) =
    (Ok (pended literal stats), (sender f n c', w')).
Proof.
  unfold pending_events, write_pending_literal_token, pended. case_bool_decide; intros Hs.
  - pose proof (Hs F f n) as Hr. cbn in Hr. by injection Hr as <- <-.
  - unfold write_literal_token. by rewrite (bind_ok _ _ _ _ _ (put_literal_sent _ _ _ _ _ f n Hs)).
Qed.

(** A turn of the loop sends the events at the front. *)
Lemma step_copy idx window literal stats s (f : F) n c (w : W) c' w' :
  find_match idx window strong = Some s →
  sent (pending_events literal ++ [Copy (index s)]) c w c' w' →
  window_step idx strong window literal stats (sender f n c, w) =
    (Ok (drop (sig_len s) window, [], copied (sig_len s) (pended literal stats)),
     (sender f n c', w')).
Proof.
  intros Hs (c1 & w1 & H1' & H2')%sent_app_inv. unfold window_step. rewrite Hs.
  rewrite (bind_ok _ _ _ _ _ (pending_ok literal stats f n c w c1 w1 H1')).
  by rewrite (bind_ok _ _ _ _ _ (write_copy_sent _ _ _ _ _ f n H2')).
Qed.

Lemma step_byte idx window literal stats (f : F) n c (w : W) :
  find_match idx window strong = None → (length (literal ++ take 1 window) < buffer_size)%nat →
  window_step idx strong window literal stats (sender f n c, w) =
    (Ok (drop 1 window, literal ++ take 1 window, stats), (sender f n c, w)).
Proof.
  intros Hs Hlen. unfold window_step. rewrite Hs. by rewrite (proj2 (Nat.leb_gt _ _)) by done.
Qed.

Lemma step_full idx window literal stats (f : F) n c (w : W) c' w' :
  find_match idx window strong = None → (buffer_size ≤ length (literal ++ take 1 window))%nat →
  sent (pending_events (literal ++ take 1 window)) c w c' w' →
  window_step idx strong window literal stats (sender f n c, w) =
    (Ok (drop 1 window, [], pended (literal ++ take 1 window) stats), (sender f n c', w')).
Proof.
  intros Hs Hlen Hsent. unfold window_step. rewrite Hs, (proj2 (Nat.leb_le _ _)) by done.
  by rewrite (bind_ok _ _ _ _ _ (pending_ok _ stats f n c w c' w' Hsent)).
Qed.

(** The loop, when its window holds the front of what is left. *)
Definition loop_sends idx rest literal stats events literal' stats' : Prop :=
  ∀ fuel window bytes checksum eof (f : F) n c w c' (w' : W),
    rest = window ++ bytes → holds f bytes → (eof = true → bytes = []) →
    eof = true ∨ (index_max_len idx ≤ length window)%nat → (length rest < fuel)%nat →
    sent events c w c' w' →
    ∃ f' n', window_loop fuel idx strong deadline window literal checksum eof stats
        (sender f n c, w) =
      (Ok (literal', update checksum bytes, stats'), (sender f' n' c', w')).

(** One turn and the rest of the loop. *)
Lemma loop_turn idx signatures rest literal stats literal1 stats1 k front events literal' stats' :
  index_ok idx signatures → rest ≠ [] → (0 < k)%nat →
  (∀ window bytes (f : F) n c w c1 (w1 : W), rest = window ++ bytes → window ≠ [] →
     bytes = [] ∨ (index_max_len idx ≤ length window)%nat → sent front c w c1 w1 →
     (k ≤ length window)%nat ∧
     window_step idx strong window literal stats (sender f n c, w) =
       (Ok (drop k window, literal1, stats1), (sender f n c1, w1))) →
  loop_sends idx (drop k rest) literal1 stats1 events literal' stats' →
  loop_sends idx rest literal stats (front ++ events) literal' stats'.
Proof.
  intros Hidx Hne Hk Hstep IH fuel window bytes checksum eof f n c w c' w' Hrest Hf Heof Hfull Hfuel
    (c1 & w1 & Hs1 & Hs2)%sent_app_inv.
  assert (Hw : window ≠ []).
  { intros ->. destruct Hfull as [He|Hmax]; [by rewrite Heof in Hrest|].
    pose proof (index_max_positive _ _ Hidx). cbn in Hmax. lia. }
  destruct fuel as [|fuel]; [lia|]. cbn [window_loop]. rewrite bool_decide_false by done.
  destruct (check_deadline_ok f n c w) as [n1 Hn1]. rewrite (bind_ok _ _ _ _ _ Hn1).
  destruct (Hstep window bytes f n1 c w c1 w1 Hrest Hw) as [Hkw Hr]; [naive_solver|done|].
  rewrite (bind_ok _ _ _ _ _ Hr).
  destruct (fill_loop_ok (S (index_max_len idx)) (index_max_len idx) (drop k window) checksum eof
    f n1 c1 w1 bytes Hf Heof) as (j & f2 & n2 & eof2 & Hfill & Hf2 & He2 & Hmax2); [lia|].
  unfold fill_delta_window at 1. rewrite (bind_ok _ _ _ _ _ Hfill).
  destruct (IH fuel (drop k window ++ take j bytes) (drop j bytes) (update checksum (take j bytes))
    eof2 f2 n2 c1 w1 c' w') as (f3 & n3 & Hloop); try done.
  - rewrite Hrest, drop_app_le by done. by rewrite <-app_assoc, take_drop.
  - rewrite length_drop. destruct rest; [done|]. cbn [length] in *. lia.
  - exists f3, n3. by rewrite Hloop, update_update, take_drop.
Qed.

Lemma window_loop_streams idx signatures rest literal stats events literal' stats' :
  index_ok idx signatures → streams idx rest literal stats events literal' stats' →
  loop_sends idx rest literal stats events literal' stats'.
Proof.
  intros Hidx. induction 1 as [literal stats
    |rest literal stats s events literal' stats' Hne Hs _ IH
    |rest literal stats events literal' stats' Hne Hs Hlen _ IH
    |rest literal stats events literal' stats' Hne Hs Hlen _ IH].
  - intros fuel window bytes checksum eof f n c w c' w' Hrest Hf _ _ _ Hsent.
    symmetry in Hrest. apply app_eq_nil in Hrest as [-> ->].
    pose proof (Hsent F f n) as Hr. cbn in Hr. injection Hr as <- <-.
    exists f, n. rewrite update_nil. by destruct fuel.
  - change (Copy (index s) :: events) with ([Copy (index s)] ++ events). rewrite app_assoc.
    eapply (loop_turn _ signatures); [done|done| | |exact IH].
    { by apply (find_match_found _ _ _ _ _ Hidx) in Hs as (_ & [? _] & _). }
    intros window bytes f n c w c1 w1 -> _ Hfull Hsent.
    rewrite (find_match_window _ _ _ _ _ Hidx Hfull) in Hs.
    split; [by apply (find_match_found _ _ _ _ _ Hidx) in Hs as (_ & [_ ?] & _)|]. by apply step_copy.
  - change events with ([] ++ events).
    eapply (loop_turn _ signatures); [done|done| | |exact IH]; [lia|].
    intros window bytes f n c w c1 w1 -> Hw Hfull Hsent.
    rewrite (find_match_window _ _ _ _ _ Hidx Hfull) in Hs.
    assert (Hone : take 1 (window ++ bytes) = take 1 window) by (by destruct window).
    rewrite Hone in *. pose proof (Hsent F f n) as Hr. cbn in Hr. injection Hr as <- <-.
    split; [destruct window; [done|cbn; lia]|]. by apply step_byte.
  - eapply (loop_turn _ signatures); [done|done| | |exact IH]; [lia|].
    intros window bytes f n c w c1 w1 -> Hw Hfull Hsent.
    rewrite (find_match_window _ _ _ _ _ Hidx Hfull) in Hs.
    assert (Hone : take 1 (window ++ bytes) = take 1 window) by (by destruct window).
    rewrite Hone in *. split; [destruct window; [done|cbn; lia]|]. by apply step_full.
Qed.

(** *** What the events stand for *)

Definition expand (blocks : nat → list Z) (event : RsyncDeflatedToken) : list Z :=
  match event with Literal bytes => bytes | Copy i => blocks i | End => [] end.

Definition sendable (signatures : list BlockSignature) (event : RsyncDeflatedToken) : Prop :=
  match event with
  | Literal bytes => bytes ≠ [] ∧ (length bytes ≤ buffer_size)%nat
  | Copy i => ∃ s, s ∈ signatures ∧ index s = i
  | End => False
  end.

(** Where a signature matches the file, its block is what is there. *)
Definition honest (signatures : list BlockSignature) (content : list Z)
    (blocks : nat → list Z) : Prop :=
  ∀ s i, s ∈ signatures → (i + sig_len s ≤ length content)%nat →
    let window := take (sig_len s) (drop i content) in
    weak s = rolling_checksum window → Signature.strong s = strong_digest strong window →
    blocks (index s) = window.

Lemma expand_pending blocks literal : concat (expand blocks <$> pending_events literal) = literal.
Proof.
  unfold pending_events. case_bool_decide as Hl; cbn; [done|by rewrite app_nil_r].
Qed.

Lemma streams_expand idx signatures content blocks rest literal stats events literal' stats' :
  index_ok idx signatures → honest signatures content blocks →
  streams idx rest literal stats events literal' stats' →
  ∀ pos, rest = drop pos content →
  concat (expand blocks <$> events) ++ literal' = literal ++ rest.
Proof.
  intros Hidx Hhonest. induction 1 as [literal stats
    |rest literal stats s events literal' stats' Hne Hs _ IH
    |rest literal stats events literal' stats' Hne Hs Hlen _ IH
    |rest literal stats events literal' stats' Hne Hs Hlen _ IH]; intros pos Hpos.
  - by rewrite app_nil_r.
  - rewrite fmap_app, concat_app, expand_pending, <-!app_assoc. f_equal. cbn.
    rewrite <-app_assoc, (IH (pos + sig_len s)%nat) by (by rewrite Hpos, drop_drop).
    apply (find_match_found _ _ _ _ _ Hidx) in Hs as (Hin & [_ Hlen] & Hw & Hd). subst rest.
    rewrite length_drop in Hlen. assert (pos ≤ length content)%nat.
    { destruct (Nat.le_gt_cases pos (length content)); [done|]. by rewrite drop_ge in Hne by lia. }
    rewrite (Hhonest s pos) by (done || lia). apply take_drop.
  - rewrite (IH (pos + 1)%nat) by (by rewrite Hpos, drop_drop).
    by rewrite <-app_assoc, take_drop.
  - rewrite fmap_app, concat_app, expand_pending, <-!app_assoc. f_equal.
    rewrite (IH (pos + 1)%nat) by (by rewrite Hpos, drop_drop). cbn. apply take_drop.
Qed.

Lemma sendable_pending signatures literal :
  (length literal ≤ buffer_size)%nat → Forall (sendable signatures) (pending_events literal).
Proof. intros Hl. unfold pending_events. case_bool_decide; repeat constructor; done. Qed.

Lemma streams_sendable idx signatures rest literal stats events literal' stats' :
  index_ok idx signatures → streams idx rest literal stats events literal' stats' →
  (length literal < buffer_size)%nat →
  Forall (sendable signatures) events ∧ (length literal' < buffer_size)%nat.
Proof.
  intros Hidx. pose proof buffer_positive as Hb. induction 1 as [literal stats
    |rest literal stats s events literal' stats' Hne Hs _ IH
    |rest literal stats events literal' stats' Hne Hs Hlen _ IH
    |rest literal stats events literal' stats' Hne Hs Hlen _ IH]; intros Hl.
  - done.
  - destruct (IH Hb) as [He Hl']. split; [|done]. apply Forall_app. split.
    + apply sendable_pending. lia.
    + constructor; [|done]. apply (find_match_found _ _ _ _ _ Hidx) in Hs as (Hin & _). by exists s.
  - by apply IH.
  - destruct (IH Hb) as [He Hl']. split; [|done]. apply Forall_app. split; [|done].
    apply sendable_pending. rewrite length_app in *.
    pose proof (length_take_le rest 1). rewrite length_take in *. lia.
Qed.

Lemma as_u64_add a b : as_u64 (as_u64 a + b) = as_u64 (a + b).
Proof. unfold as_u64. apply Zplus_mod_idemp_l. Qed.

Lemma as_u64_add2 a b c : as_u64 (as_u64 a + b + c) = as_u64 (a + b + c).
Proof. by rewrite <-Z.add_assoc, as_u64_add, Z.add_assoc. Qed.

Lemma as_u64_id z : in_u64 z → as_u64 z = z.
Proof. unfold in_u64, as_u64. intros. apply Z.mod_small. lia. Qed.

(** The bytes of a file, one by one: literal or copied. *)
Definition counted (stats : RemoteDeltaStats) : Z :=
  as_u64 (literal_bytes stats + copied_bytes stats).

Lemma counted_pended literal stats :
  counted (pended literal stats) = as_u64 (counted stats + Z.of_nat (length literal)).
Proof.
  unfold counted, pended. rewrite as_u64_add. case_bool_decide as Hl.
  - subst. cbn [length]. f_equal. lia.
  - cbn [literal_bytes copied_bytes]. rewrite as_u64_add. f_equal. lia.
Qed.

Lemma counted_copied k stats :
  counted (copied k stats) = as_u64 (counted stats + Z.of_nat k).
Proof.
  unfold counted, copied. rewrite as_u64_add. cbn [literal_bytes copied_bytes].
  rewrite Z.add_comm, as_u64_add. f_equal. lia.
Qed.

Lemma streams_counted idx signatures rest literal stats events literal' stats' :
  index_ok idx signatures → streams idx rest literal stats events literal' stats' →
  as_u64 (counted stats' + Z.of_nat (length literal')) =
  as_u64 (counted stats + Z.of_nat (length literal) + Z.of_nat (length rest)).
Proof.
  intros Hidx. induction 1 as [literal stats
    |rest literal stats s events literal' stats' Hne Hs _ IH
    |rest literal stats events literal' stats' Hne Hs Hlen _ IH
    |rest literal stats events literal' stats' Hne Hs Hlen _ IH].
  - cbn [length]. f_equal. lia.
  - apply (find_match_found _ _ _ _ _ Hidx) in Hs as (_ & [_ Hlen] & _).
    rewrite IH, counted_copied, counted_pended, length_drop. cbn [length].
    rewrite (as_u64_add (_ + _)), as_u64_add2. f_equal. lia.
  - rewrite IH, length_app, length_drop. f_equal. destruct rest; [done|]. cbn [take length]. rewrite take_0. cbn [length]. lia.
  - rewrite IH, counted_pended, length_app, length_drop. cbn [length].
    rewrite as_u64_add2. f_equal. destruct rest; [done|]. cbn [take length]. rewrite take_0. cbn [length]. lia.
Qed.
End loops.

(** ** Whole files *)

Section senders.
Context `{Clock} `{Digests} `{Zlib} {F : Type} `{SourceLaws F} {W : Type} `{Write W}.
Context (deadline : option Z) (Htime : in_time deadline).

Definition literals (pieces : list (list Z)) : list RsyncDeflatedToken := Literal <$> pieces.

Lemma expand_literals blocks pieces : concat (expand blocks <$> literals pieces) = concat pieces.
Proof. unfold literals. induction pieces as [|p pieces IH]; cbn in *; [done|by rewrite IH]. Qed.

Lemma sendable_literals signatures pieces :
  Forall (λ p, p ≠ [] ∧ (length p ≤ buffer_size)%nat) pieces →
  Forall (sendable signatures) (literals pieces).
Proof. intros Hp. by apply Forall_fmap. Qed.

Lemma literal_loop_ok fuel checksum total (f : F) bytes n :
  holds f bytes → (length bytes < fuel)%nat → in_u64 total →
  ∃ pieces f' n', concat pieces = bytes ∧
    Forall (λ p, p ≠ [] ∧ (length p ≤ buffer_size)%nat) pieces ∧
    ∀ c (w : W) c' w', sent (literals pieces) c w c' w' →
      literal_loop fuel deadline checksum total (sender f n c, w) =
        (Ok (update checksum bytes, as_u64 (total + Z.of_nat (length bytes))), (sender f' n' c', w')).
Proof.
  revert checksum total f bytes n.
  induction fuel as [|fuel IH]; intros checksum total f bytes n Hf Hfuel Htotal; [lia|].
  destruct (deadline_passes deadline n Htime) as [n1 Hn1].
  destruct (read_some_holds buffer_size f bytes Hf buffer_positive)
    as (piece & rest & f1 & Hr & -> & Hf1 & Hlen & Hend).
  assert (Hcheck : ∀ c (w : W), check_deadline deadline (sender f n c, w) = (Ok (), (sender f n1 c, w)))
    by (intros; unfold check_deadline, on_fst; cbn [fst readings sender]; by rewrite Hn1).
  assert (Hread : ∀ c (w : W), read_file buffer_size (sender f n1 c, w) = (Ok piece, (sender f1 n1 c, w)))
    by (intros; unfold read_file, on_fst, with_err; cbn [fst file sender]; by rewrite Hr).
  destruct (decide (piece = [])) as [Hp|Hp].
  - specialize (Hend Hp). exists [], f1, n1. rewrite Hend. split_and!; [done|constructor|].
    intros c w c' w' Hs. pose proof (Hs unit () 0%nat) as Hu. cbn in Hu. injection Hu as <- <-.
    cbn [literal_loop]. rewrite (bind_ok _ _ _ _ _ (Hcheck c w)), (bind_ok _ _ _ _ _ (Hread c w)).
    rewrite bool_decide_true by done. cbn [length]. by rewrite update_nil, Z.add_0_r, as_u64_id.
  - destruct (IH (update checksum piece) (as_u64 (total + Z.of_nat (length piece))) f1 rest n1 Hf1)
      as (pieces & f2 & n2 & <- & Hpieces & Hloop).
    { rewrite length_app in Hfuel. destruct piece; [done|]. cbn [length] in *. lia. }
    { unfold in_u64, as_u64. apply Z.mod_pos_bound. lia. }
    exists (piece :: pieces), f2, n2. split_and!; [done|by constructor|].
    intros c w c' w' (c1 & w1 & H1' & H2')%sent_cons.
    cbn [literal_loop]. rewrite (bind_ok _ _ _ _ _ (Hcheck c w)), (bind_ok _ _ _ _ _ (Hread c w)).
    rewrite bool_decide_false by done.
    rewrite (bind_ok _ _ _ _ _ (put_literal_sent _ _ _ _ _ f1 n1 H1')).
    rewrite (Hloop _ _ _ _ H2'), update_update, as_u64_add, length_app.
    do 4 f_equal. lia.
Qed.

(** The last steps: the end of the tokens and the checksum. *)
Definition closed (final : RemoteFinalChecksum) (content : list Z) c (w : W) c' w' : Prop :=
  ∃ w1, ended c w c' w1 ∧
    write_all (finalize (update (remote_final_checksum_builder final) content)) w1 = (Ok (), w').

Lemma finish_sender {A} final content c w c' (w' : W) (f : F) n (a : A) :
  closed final content c w c' w' →
  (put_end;; put_checksum (update (remote_final_checksum_builder final) content);; mret a)
    (sender f n c, w) = (Ok a, (sender f n c', w')).
Proof.
  intros (w1 & He & Hw). rewrite (bind_ok _ _ _ _ _ (He F f n)).
  assert (Hc : put_checksum (update (remote_final_checksum_builder final) content)
    (sender f n c', w1) = (Ok (), (sender f n c', w')))
    by (unfold put_checksum, on_snd, with_err; cbn [snd fst]; by rewrite Hw).
  by rewrite (bind_ok _ _ _ _ _ Hc).
Qed.

(** A run of a sender: for events that are right for a file of [content], once they are
    sent and closed. *)
Definition sender_run {A} (m : M (Sender F * W) TransferError A) (f : F) (n : nat) c0 final
    content (level : option Z) (events : list RsyncDeflatedToken) (a : A) : Prop :=
  ∀ w c1 w1 c' w', sent events (new_token_writer <$> level) w c1 w1 →
    closed final content c1 w1 c' w' →
    ∃ f' n', m (sender f n c0, w) = (Ok a, (sender f' n' c', w')).

Lemma literal_sender final level content (f : F) n c0 :
  holds f content →
  ∃ pieces, concat pieces = content ∧
    Forall (λ p, p ≠ [] ∧ (length p ≤ buffer_size)%nat) pieces ∧
    sender_run (write_literal_tokens_from_reader_with_checksum final level deadline) f n c0
      final content level (literals pieces) (as_u64 (Z.of_nat (length content))).
Proof.
  intros Hf. pose proof (holds_unread f content Hf) as Hun.
  destruct (literal_loop_ok (S (unread f)) (remote_final_checksum_builder final) 0 f content n Hf)
    as (pieces & f' & n' & Hc & Hp & Hloop); [lia|unfold in_u64; lia|].
  exists pieces. split_and!; [done|done|]. intros w c1 w1 c' w' Hsent Hclosed. exists f', n'.
  unfold write_literal_tokens_from_reader_with_checksum.
  assert (Hstart : start_compressor level (sender f n c0, w) =
    (Ok (), (sender f n (new_token_writer <$> level), w))) by done.
  rewrite (bind_ok _ _ _ _ _ Hstart).
  assert (Hget : on_fst get (sender f n (new_token_writer <$> level), w) =
    (Ok (E := TransferError) (sender f n (new_token_writer <$> level)),
      (sender f n (new_token_writer <$> level), w))) by done.
  rewrite (bind_ok _ _ _ _ _ Hget). cbn [file sender].
  rewrite (bind_ok _ _ _ _ _ (Hloop _ _ _ _ Hsent)). rewrite Z.add_0_l.
  by apply finish_sender.
Qed.

(** What a sender against blocks needs of the limit on allocations. *)
Definition window_fits (signatures : list BlockSignature) (max_alloc : option Z) : Prop :=
  (∀ s, s ∈ signatures →
     ensure_allocation_within_limit "delta match window" (sig_len s) max_alloc = Ok ()) ∧
  ensure_allocation_within_limit "delta literal buffer" buffer_size max_alloc = Ok ().

Lemma index_max_is_a_length idx signatures :
  index_ok idx signatures → new_remote_index signatures = Ok idx →
  ∃ s, s ∈ signatures ∧ sig_len s = index_max_len idx.
Proof.
  intros Hidx. unfold new_remote_index. rewrite head_dedup.
  case_match eqn:Hz; [done|]. apply Nat.eqb_neq in Hz. intros [= <-]. cbn [index_max_len].
  destruct (merge_sort ge _) as [|x l] eqn:Hl; [done|]. cbn.
  assert (Hx : x ∈ List.filter (λ len, 0 <? len)%nat (sig_len <$> signatures)).
  { rewrite <-(merge_sort_Permutation ge), Hl. apply list_elem_of_here. }
  apply list_elem_of_In, filter_In in Hx as [Hx _]. apply list_elem_of_In in Hx.
  apply list_elem_of_fmap in Hx as (s & -> & Hs). by exists s.
Qed.

Lemma delta_sender block final signatures level limit content blocks (f : F) n c0 :
  let strong := {| strong_kind := block; strong_len := first_strong_len signatures |} in
  holds f content → (∃ s, s ∈ signatures ∧ (0 < sig_len s)%nat) →
  window_fits signatures limit → honest strong signatures content blocks →
  ∃ events stats, Forall (sendable signatures) events ∧
    concat (expand blocks <$> events) = content ∧
    counted stats = as_u64 (Z.of_nat (length content)) ∧
    sender_run (write_delta_tokens_from_reader_with_checksum block final signatures level
      {| max_alloc := limit; stop_deadline := deadline |}) f n c0 final content level
      events stats.
Proof.
  intros strong Hf (s0 & Hs0 & Hpos) [Hwin Hbuf] Hhonest.
  pose proof (new_index_exists _ _ Hs0 Hpos) as Hnew.
  destruct (new_remote_index signatures) as [idx|] eqn:Hindex; [clear Hnew|done].
  pose proof (new_index_ok _ _ Hindex) as Hidx.
  destruct (streams_total strong idx signatures content [] no_stats Hidx)
    as (events & literal & stats & Hstr).
  pose proof (streams_sendable strong _ _ _ _ _ _ _ _ Hidx Hstr buffer_positive) as [Hsend Hlit].
  pose proof (streams_expand strong _ _ content blocks _ _ _ _ _ _ Hidx Hhonest Hstr 0%nat
    ltac:(by rewrite drop_0)) as Hbytes.
  pose proof (streams_counted strong _ _ _ _ _ _ _ _ Hidx Hstr) as Hcount.
  exists (events ++ pending_events literal), (pended literal stats). split_and!.
  - apply Forall_app. split; [done|]. apply sendable_pending. lia.
  - by rewrite fmap_app, concat_app, expand_pending.
  - rewrite counted_pended, Hcount. f_equal.
  - intros w c1 w1 c' w' (c2 & w2 & Hsent & Hpend)%sent_app_inv Hclosed.
    destruct (index_max_is_a_length _ _ Hidx Hindex) as (sm & Hsm & Hmax).
    destruct (fill_loop_ok deadline Htime (S (index_max_len idx)) (index_max_len idx) []
      (remote_final_checksum_builder final) false f n (new_token_writer <$> level) w content Hf)
      as (k & f1 & n1 & eof & Hfill & Hf1 & Heof & Hfull); [done|cbn; lia|].
    assert (Hloop : ∃ f2 n2, window_loop (S (unread f)) idx strong deadline (take k content) []
        (update (remote_final_checksum_builder final) (take k content)) eof no_stats
        (sender f1 n1 (new_token_writer <$> level), w) =
      (Ok (literal, update (remote_final_checksum_builder final) content, stats), (sender f2 n2 c2, w2))).
    { pose proof (holds_unread f content Hf).
      destruct (window_loop_streams deadline Htime strong idx signatures _ _ _ _ _ _ Hidx Hstr
        (S (unread f)) (take k content) (drop k content)
        (update (remote_final_checksum_builder final) (take k content)) eof f1 n1
        (new_token_writer <$> level) w c2 w2) as (f2 & n2 & Hrun); try done.
      - by rewrite take_drop.
      - lia.
      - exists f2, n2. by rewrite Hrun, update_update, take_drop. }
    destruct Hloop as (f2 & n2 & Hloop). exists f2, n2.
    unfold write_delta_tokens_from_reader_with_checksum. rewrite Hindex, lift_bind.
    cbn [max_alloc stop_deadline]. rewrite <-Hmax, Hwin, lift_bind, Hbuf, lift_bind, Hmax by done.
    assert (Hstart : start_compressor level (sender f n c0, w) =
      (Ok (), (sender f n (new_token_writer <$> level), w))) by done.
    rewrite (bind_ok _ _ _ _ _ Hstart).
    assert (Hget : on_fst get (sender f n (new_token_writer <$> level), w) =
      (Ok (E := TransferError) (sender f n (new_token_writer <$> level)),
        (sender f n (new_token_writer <$> level), w))) by done.
    rewrite (bind_ok _ _ _ _ _ Hget). cbn [file sender].
    unfold fill_delta_window at 1. rewrite (bind_ok _ _ _ _ _ Hfill). cbn [app].
    rewrite (bind_ok _ _ _ _ _ Hloop), (bind_ok _ _ _ _ _ (pending_ok _ _ _ _ _ _ _ _ Hpend)).
    by apply finish_sender.
Qed.
End senders.
