(* ===== verification/TransferReceive.v ===== *)
(** * What a receiver makes of the tokens of a file

    The loops of the receiver in both codings, from bytes that stand for events to the
    output, and what holds of them on any bytes. *)

From S2P Require Import Prelude Stream WireIo Str Session Handshake Delta DeltaFacts Daemon.
From S2P Require Import DeflatedTokens DeflatedFacts TransferSums Transfer TransferFacts TransferSend.
Import Rollsum Signature.

(** ** The reader of deflated tokens

    [gives m Q]: what [m] returns is as [Q] says, and it keeps the mode, and tokens that
    are set aside there are none. *)

Section gives.
Context `{Zlib} {R : Type} `{Read R}.

Definition gives {A} (m : M (RsyncDeflatedTokenReader * R) io_error A) (Q : A → Prop) : Prop :=
  ∀ p a p', pending p.1 = [] → m p = (Ok a, p') →
    Q a ∧ reader_mode p'.1 = reader_mode p.1 ∧ pending p'.1 = [].

Lemma gives_bind {A B} (m : M (RsyncDeflatedTokenReader * R) io_error A)
    (f : A → M (RsyncDeflatedTokenReader * R) io_error B) P Q :
  gives m P → (∀ a, P a → gives (f a) Q) → gives (m ≫= f) Q.
Proof.
  intros Hm Hf p b p' Hp (a & p1 & H1 & H2)%bind_ok_inv.
  destruct (Hm p a p1 Hp H1) as (HP & Hmode & Hp1). destruct (Hf a HP p1 b p' Hp1 H2) as (HQ & Hmode' & Hp').
  split_and!; [done|congruence|done].
Qed.

Lemma gives_ret {A} (a : A) (Q : A → Prop) : Q a → gives (mret a) Q.
Proof. intros HQ p b p' Hp [= <- <-]. done. Qed.

Lemma gives_lift {A} (x : result A io_error) (Q : A → Prop) :
  (∀ a, x = Ok a → Q a) → gives (lift x) Q.
Proof. intros HQ p a p' Hp [Hx ->]%lift_ok_inv. auto. Qed.

Lemma gives_throw {A} e (Q : A → Prop) : gives (throw e) Q.
Proof. by intros p a p' _ Hr. Qed.

Lemma gives_on_snd {A} (m : M R io_error A) : gives (on_snd m) (λ _, True).
Proof.
  intros p a p' Hp. unfold on_snd. destruct (m p.2) as [r t']. by intros [= _ <-].
Qed.

Lemma gives_get : gives (on_fst get) (λ _, True).
Proof. by intros p a p' Hp [= _ <-]. Qed.

Lemma gives_modify f :
  (∀ t, pending t = [] → reader_mode (f t) = reader_mode t ∧ pending (f t) = []) →
  gives (modify_reader f) (λ _, True).
Proof. intros Hf p a p' Hp [= _ <-]. cbn. split; [done|]. by apply Hf. Qed.

Lemma gives_weaken {A} (m : M (RsyncDeflatedTokenReader * R) io_error A) P (Q : A → Prop) :
  gives m P → (∀ a, P a → Q a) → gives m Q.
Proof. intros Hm HPQ p a p' Hp Hr. destruct (Hm p a p' Hp Hr) as (? & ? & ?). auto. Qed.

Ltac gives_set := apply gives_modify; intros; split; done.

(** Tokens with something in them. *)
Definition solid (token : RsyncDeflatedToken) : Prop :=
  match token with Literal bytes => bytes ≠ [] | _ => True end.

Lemma gives_inflate input flush : gives (inflate_bytes input flush) (λ _, True).
Proof.
  intros [t r] a p' Hp. unfold inflate_bytes. cbn [fst] in Hp.
  intros (self & p1 & [= <- <-] & Hr)%bind_ok_inv.
  apply bind_ok_inv in Hr as ([d output] & p1 & [_ ->]%lift_ok_inv & Hr).
  apply bind_ok_inv in Hr as ([] & p1 & [= <-] & Hr). by injection Hr as _ <-.
Qed.

Lemma copy_token_solid token a : copy_token token = Ok a → solid a.
Proof. unfold copy_token. case_match; [done|]. by intros [= <-]. Qed.

Lemma gives_run flag : gives (read_run flag) solid.
Proof.
  unfold read_run. eapply gives_bind; [apply gives_get|]. intros self _.
  eapply (gives_bind _ _ (λ _, True)).
  { case_bool_decide.
    - eapply gives_bind; [apply (gives_lift _ (λ _, True)); done|]. intros token _.
      eapply gives_bind; [gives_set|]. intros _ _. by apply gives_ret.
    - eapply gives_bind; [apply gives_on_snd|]. intros token _.
      eapply gives_bind; [gives_set|]. intros _ _.
      case_match; [apply gives_throw|by apply gives_ret]. }
  intros token_flag _. eapply gives_bind; [apply gives_get|]. intros self' _.
  eapply (gives_bind _ _ (λ _, True)).
  { case_bool_decide; [|by apply gives_ret].
    eapply gives_bind; [apply gives_on_snd|]. intros lo _.
    eapply gives_bind; [apply gives_on_snd|]. intros hi _. gives_set. }
  intros _ _. apply gives_lift. apply copy_token_solid.
Qed.

Lemma gives_flag flag : gives (read_flag flag) solid.
Proof.
  unfold read_flag. eapply gives_bind; [apply gives_get|]. intros self _.
  eapply (gives_bind _ _ (λ _, True)).
  { case_match; [|by apply gives_ret].
    eapply gives_bind; [apply gives_inflate|]. intros literal _.
    eapply gives_bind; [gives_set|]. intros _ _. by apply gives_ret. }
  intros literal _. case_bool_decide as Hl.
  - eapply gives_bind; [gives_set|]. intros _ _. by apply gives_ret.
  - case_match; [|apply gives_run].
    eapply gives_bind; [gives_set|]. intros _ _. by apply gives_ret.
Qed.

Lemma gives_next_token_loop fuel : gives (next_token_loop fuel) solid.
Proof.
  induction fuel as [|fuel IH]; [apply gives_throw|]. cbn [next_token_loop].
  assert (Hgo : ∀ self', gives (if 0 <? rx_run self' then
      token ← lift (ok_or (checked_i32 (rx_token self' + 1))
        (invalid_data "rsync compressed token run overflowed"));
      modify_reader (set_rx token (rx_run self' - 1));;
      lift (copy_token token)
    else
      flag ← (match saved_flag self' with
              | Some flag => modify_reader (set_sync (needs_sync_tail self') None);; mret flag
              | None => on_snd read_u8
              end);
      if Z.land flag 0xc0 =? RSYNC_DEFLATED_DATA then
        low ← on_snd read_u8;
        let len := Z.shiftl (Z.land flag 0x3f) 8 + low in
        compressed ← on_snd (read_exact (Z.to_nat len));
        literal ← inflate_bytes compressed FlushNone;
        self ← on_fst get;
        modify_reader (set_sync true (saved_flag self));;
        if bool_decide (literal ≠ []) then mret (Literal literal)
        else next_token_loop fuel
      else read_flag flag) solid).
  { intros self'. case_match.
    - eapply gives_bind; [apply (gives_lift _ (λ _, True)); done|]. intros token _.
      eapply gives_bind; [gives_set|]. intros _ _. apply gives_lift, copy_token_solid.
    - eapply (gives_bind _ _ (λ _, True)).
      { case_match; [|apply gives_on_snd].
        eapply gives_bind; [gives_set|]. intros _ _. by apply gives_ret. }
      intros flag _. case_match; [|apply gives_flag].
      eapply gives_bind; [apply gives_on_snd|]. intros low _. cbv zeta.
      eapply gives_bind; [apply gives_on_snd|]. intros compressed _.
      eapply gives_bind; [apply gives_inflate|]. intros literal _.
      eapply gives_bind; [apply gives_get|]. intros self2 _.
      eapply gives_bind; [gives_set|]. intros _ _.
      case_bool_decide; [by apply gives_ret|apply IH]. }
  intros [t r] a p' Hp Hr. apply bind_ok_inv in Hr as (self & p1 & [= <- <-] & Hr).
  cbn [fst] in *. rewrite Hp in Hr. exact (Hgo t (t, r) a p' Hp Hr).
Qed.

Lemma next_token_gives (p p' : RsyncDeflatedTokenReader * R) token :
  pending p.1 = [] → next_token p = (Ok token, p') →
  solid token ∧ reader_mode p'.1 = reader_mode p.1 ∧ pending p'.1 = [].
Proof. intros Hp Hr. by apply (gives_next_token_loop (S (budget p.2)) p). Qed.

(** A copy that the reader observes changes its history only. *)
Lemma gives_observe bytes : gives (observe_copy_data bytes) (λ _, True).
Proof.
  unfold observe_copy_data. eapply gives_bind; [apply gives_get|]. intros self _.
  case_match; [by apply gives_ret|].
  induction (chunks _ bytes) as [|chunk cs IH]; [by apply gives_ret|]. cbn [for_each].
  eapply (gives_bind _ _ (λ _, True)); [|intros [] _; apply IH].
  eapply gives_bind; [apply gives_inflate|]. intros x _. by apply gives_ret.
Qed.
End gives.

(** ** The receiver, given the bytes of events *)

Section receiver.
Context `{Clock} `{Digests} `{Zlib}.
Context {F : Type} `{SourceLaws F} {R : Type} `{ReadLaws R}.
Context (deadline : option Z) (Htime : in_time deadline).
Context (reopen : list Z → result F TransferError) (final : RemoteFinalChecksum).
Context (path : list Z) (expected : Z) (Hexpected : expected < 2 ^ 64).
Context (basis : option (list Z * RemoteSumHead)).

(** A receiver with its output. *)
Definition receiver (out : list Z) (n : nat) : Receiver :=
  {| output := out; receiver_readings := n |}.

Lemma receiver_deadline_ok out n (r : R) :
  ∃ n', check_receiver_deadline deadline (receiver out n, r) = (Ok (), (receiver out n', r)).
Proof.
  destruct (deadline_passes deadline n Htime) as [n' Hn]. exists n'.
  unfold check_receiver_deadline, on_fst. cbn [fst receiver_readings receiver]. by rewrite Hn.
Qed.

Lemma write_output_ok bytes out n (r : R) :
  write_output bytes (receiver out n, r) = (Ok (), (receiver (out ++ bytes) n, r)).
Proof. done. Qed.

Lemma next_total_ok total len :
  0 ≤ total → total + Z.of_nat len ≤ expected →
  next_total path expected total len = Ok (total + Z.of_nat len).
Proof.
  intros Ht Hlen. unfold next_total, checked_usize.
  rewrite (proj2 (Z.leb_le 0 _)), (proj2 (Z.ltb_lt _ _)) by lia. cbn [andb ok_or and_then].
  by rewrite (proj2 (Z.ltb_ge expected _)) by lia.
Qed.

Lemma append_output_ok total bytes out n (r : R) :
  0 ≤ total → total + Z.of_nat (length bytes) ≤ expected →
  append_output path expected total bytes (receiver out n, r) =
    (Ok (total + Z.of_nat (length bytes)), (receiver (out ++ bytes) n, r)).
Proof.
  intros Ht Hlen. unfold append_output. rewrite next_total_ok by done. by rewrite lift_bind.
Qed.

Lemma receive_literal_ok fuel bytes total out n (r : R) rest :
  (length bytes ≤ fuel)%nat → 0 ≤ total → total + Z.of_nat (length bytes) ≤ expected →
  avail r (bytes ++ rest) →
  ∃ r', receive_literal fuel (length bytes) total (receiver out n, r) =
    (Ok (total + Z.of_nat (length bytes)), (receiver (out ++ bytes) n, r')) ∧ avail r' rest.
Proof.
  pose proof buffer_positive as Hb. revert bytes total out r.
  induction fuel as [|fuel IH]; intros bytes total out r Hfuel Ht Hlen Hr.
  - destruct bytes; [|cbn in Hfuel; lia]. exists r. cbn. by rewrite Z.add_0_r, app_nil_r.
  - destruct bytes as [|b bytes]; [exists r; cbn; by rewrite Z.add_0_r, app_nil_r|].
    set (all := b :: bytes) in *. set (k := Nat.min buffer_size (length all)).
    assert (Hk : length (take k all) = k) by (rewrite length_take; unfold k; lia).
    assert (Hk0 : (0 < k)%nat) by (unfold k; cbn [length all]; lia).
    assert (Hr' : avail r (take k all ++ drop k all ++ rest)) by (by rewrite app_assoc, take_drop).
    destruct (reads_exact (take k all) k Hk r _ Hr') as (r1 & Hr1 & Ha1).
    destruct (IH (drop k all) (total + Z.of_nat k) (out ++ take k all) r1) as (r2 & Hr2 & Ha2); try done.
    { rewrite length_drop. lia. }
    { lia. }
    { rewrite length_drop. unfold k in *. lia. }
    exists r2. split; [|done].
    assert (Hread : on_snd (with_err TransferIo (read_exact k)) (receiver out n, r) =
      (Ok (take k all), (receiver out n, r1)))
      by (unfold on_snd, with_err; cbn [snd fst]; by rewrite Hr1).
    change (receive_literal (S fuel) (length all) total) with
      (bytes ← on_snd (with_err TransferIo (read_exact k)); write_output (R := R) bytes;;
       receive_literal fuel (length all - k) (as_u64 (total + Z.of_nat k))).
    rewrite (bind_ok _ _ _ _ _ Hread), (bind_ok _ _ _ _ _ (write_output_ok _ _ _ _)).
    rewrite as_u64_id by (unfold in_u64, k in *; lia).
    rewrite length_drop in Hr2. rewrite Hr2, <-app_assoc, take_drop. do 2 f_equal. unfold k. lia.
Qed.

(** ** The end of a file *)

Lemma checksum_loop_ok fuel checksum (f : F) bytes :
  holds f bytes → (length bytes < fuel)%nat →
  (checksum_loop fuel checksum f).1 = Ok (update checksum bytes).
Proof.
  revert checksum f bytes. induction fuel as [|fuel IH]; intros checksum f bytes Hf Hfuel; [lia|].
  destruct (read_some_holds buffer_size f bytes Hf buffer_positive)
    as (piece & rest & f1 & Hr & -> & Hf1 & Hlen & Hend).
  assert (Hread : with_err (λ _, TransferFailed "failed to checksum {}") (read_some buffer_size) f =
    (Ok piece, f1)) by (unfold with_err; by rewrite Hr).
  cbn [checksum_loop]. rewrite (bind_ok _ _ _ _ _ Hread). case_bool_decide as Hp.
  - rewrite (Hend Hp). by rewrite update_nil.
  - rewrite (IH _ _ rest Hf1), update_update; [done|].
    rewrite length_app in Hfuel. destruct piece; [done|]. cbn [length] in *. lia.
Qed.

(** The output is there to be read again. *)
Definition reopens : Prop := ∀ bytes, ∃ f, reopen bytes = Ok f ∧ holds f bytes.

Lemma checksum_of_output bytes :
  reopens → remote_file_checksum_for_path final (reopen bytes) =
    Ok (remote_final_checksum_for_bytes final bytes).
Proof.
  intros Hreopen. destruct (Hreopen bytes) as (f & -> & Hf).
  pose proof (holds_unread f bytes Hf). unfold remote_file_checksum_for_path. cbn [and_then].
  by rewrite (checksum_loop_ok _ _ _ bytes Hf) by lia.
Qed.

Lemma finish_file_ok `{!DigestLaws} out n (r : R) rest :
  reopens → Z.of_nat (length out) = expected →
  avail r (remote_final_checksum_for_bytes final out ++ rest) →
  ∃ r', finish_file reopen final path expected expected (receiver out n, r) =
    (Ok expected, (receiver out n, r')) ∧ avail r' rest.
Proof.
  intros Hreopen Hlen Hr. unfold finish_file. rewrite Z.eqb_refl. cbn [negb].
  destruct (reads_exact _ 16%nat (length_finalize _) r _ Hr) as (r1 & Hr1 & Ha1).
  assert (Hread : on_snd (with_err TransferIo (read_exact 16)) (receiver out n, r) =
    (Ok (remote_final_checksum_for_bytes final out), (receiver out n, r1)))
    by (unfold on_snd, with_err; cbn [snd fst]; by rewrite Hr1).
  exists r1. split; [|done]. rewrite (bind_ok _ _ _ _ _ Hread).
  assert (Hget : on_fst get (receiver out n, r1) =
    (Ok (E := TransferError) (receiver out n), (receiver out n, r1))) by done.
  rewrite (bind_ok _ _ _ _ _ Hget). cbn [output receiver].
  rewrite checksum_of_output, lift_bind by done. by rewrite bool_decide_false by auto.
Qed.

(** ** Plain tokens *)

Definition blocks_of (i : nat) : list Z :=
  match basis with
  | Some (bytes, head) =>
      match read_basis_block bytes head i with Ok block => block | Err _ => [] end
  | None => []
  end.

(** An event that the receiver can serve. *)
Definition servable (event : RsyncDeflatedToken) : Prop :=
  match event with
  | Literal bytes => bytes ≠ [] ∧ Z.of_nat (length bytes) < 2 ^ 31
  | Copy i =>
      Z.of_nat i < 2 ^ 31 - 1 ∧
      ∃ bytes head block, basis = Some (bytes, head) ∧ read_basis_block bytes head i = Ok block ∧
        block ≠ []
  | End => False
  end.

Local Abbreviation loop := (plain_loop reopen final path expected basis deadline).

(** [bs] makes [turns] turns of the loop, which put out [bytes]. *)
Definition plain_takes (bs bytes : list Z) (turns : nat) : Prop :=
  ∀ fuel total out n (r : R) rest, 0 ≤ total → total + Z.of_nat (length bytes) ≤ expected →
    avail r (bs ++ rest) →
    ∃ n' r', loop (turns + fuel) total (receiver out n, r) =
        loop fuel (total + Z.of_nat (length bytes)) (receiver (out ++ bytes) n', r') ∧
      avail r' rest.

Lemma plain_takes_nil : plain_takes [] [] 0.
Proof.
  intros fuel total out n r rest Ht Hlen Hr. exists n, r. cbn. by rewrite Z.add_0_r, app_nil_r.
Qed.

Lemma plain_takes_app bs1 bytes1 k1 bs2 bytes2 k2 :
  plain_takes bs1 bytes1 k1 → plain_takes bs2 bytes2 k2 →
  plain_takes (bs1 ++ bs2) (bytes1 ++ bytes2) (k1 + k2).
Proof.
  intros H1' H2' fuel total out n r rest Ht Hlen Hr. rewrite length_app in Hlen.
  rewrite <-app_assoc in Hr.
  destruct (H1' (k2 + fuel)%nat total out n r (bs2 ++ rest) Ht) as (n1 & r1 & Hl1 & Ha1); [lia|exact Hr|].
  destruct (H2' fuel (total + Z.of_nat (length bytes1)) (out ++ bytes1) n1 r1 rest)
    as (n2 & r2 & Hl2 & Ha2); [lia|lia|done|].
  exists n2, r2. split; [|done]. rewrite <-Nat.add_assoc, Hl1, Hl2, length_app, <-app_assoc.
  by rewrite Nat2Z.inj_add, Z.add_assoc.
Qed.

(** The token at the front of a turn. *)
Lemma plain_token fuel total out n (r : R) bs z rest :
  reads (R := R) read_i32_le bs z → avail r (bs ++ rest) →
  ∃ n' r', avail r' rest ∧ loop (S fuel) total (receiver out n, r) =
    (match z ?= 0 with
     | Gt => total ← receive_plain_literal path expected z total; loop fuel total
     | Eq => finish_file reopen final path expected total
     | Lt => total ← receive_plain_copy path expected basis z total; loop fuel total
     end) (receiver out n', r').
Proof.
  intros Hread Hr. destruct (receiver_deadline_ok out n r) as [n' Hn].
  destruct (Hread r rest Hr) as (r' & Hr' & Ha). exists n', r'. split; [done|].
  assert (Htoken : on_snd (with_err TransferIo read_i32_le) (receiver out n', r) =
    (Ok z, (receiver out n', r')))
    by (unfold on_snd, with_err; cbn [snd fst]; by rewrite Hr').
  cbn [plain_loop]. by rewrite (bind_ok _ _ _ _ _ Hn), (bind_ok _ _ _ _ _ Htoken).
Qed.

Context {W : Type} `{WriteLaws W}.

(** Sent without a compressor, events are [bs]. *)
Definition plain_sends (events : list RsyncDeflatedToken) (bs : list Z) : Prop :=
  ∀ w : W, ready w → ∃ w', sent events None w None w' ∧ emits w bs w' ∧ ready w'.

Lemma writes_i32 z : in_i32 z → ∃ bs,
  writes (W := W) (write_rsync_i32 z) bs () ∧ reads (R := R) read_i32_le bs z.
Proof.
  intros Hz. destruct (coupled_i32_le (W := W) (R := R) z) as (bs & Hw & Hr).
  rewrite as_i32_id in Hr by done. exists bs. split; [|done]. by apply writes_with_err.
Qed.

Lemma plain_literal bytes :
  servable (Literal bytes) → ∃ bs, plain_sends [Literal bytes] bs ∧ plain_takes bs bytes 1.
Proof.
  intros [Hne Hlen]. destruct (writes_i32 (Z.of_nat (length bytes))) as (bs & Hw & Hr);
    [unfold in_i32; lia|].
  exists (bs ++ bytes). split.
  - intros w Hready. destruct (Hw w Hready) as (w1 & Hw1 & He1 & Hready1).
    destruct (write_all_emits w1 bytes Hready1) as (w2 & Hw2 & He2 & Hready2).
    exists w2. split; [|split; [by eapply emits_app|done]]. apply sent_one. intros F' f n.
    change ((on_snd (with_err TransferSession (write_rsync_i32 (as_i32 (Z.of_nat (length bytes)))));;
      on_snd (with_err TransferIo (write_all bytes))) (sender f n None, w) =
      (Ok (), (sender f n None, w2))).
    rewrite as_i32_id by (unfold in_i32; lia).
    unfold mbind, M_bind, on_snd, with_err. cbn [snd fst]. rewrite Hw1. cbn. by rewrite Hw2.
  - intros fuel total out n r rest Ht Htotal Hr'. rewrite <-app_assoc in Hr'.
    change (1 + fuel)%nat with (S fuel).
    destruct (plain_token fuel total out n r bs _ _ Hr Hr') as (n1 & r1 & Ha1 & ->).
    rewrite (proj2 (Z.compare_gt_iff _ _)) by (destruct bytes; [done|cbn [length]; lia]).
    destruct (receive_literal_ok (length bytes) bytes total out n1 r1 rest)
      as (r2 & Hr2 & Ha2); [done..|].
    exists n1, r2. split; [|done]. unfold receive_plain_literal. rewrite Nat2Z.id.
    rewrite next_total_ok by done. unfold mbind at 1, M_bind at 1.
    rewrite lift_bind. by rewrite Hr2.
Qed.

Lemma plain_copy i :
  servable (Copy i) → ∃ bs, plain_sends [Copy i] bs ∧ plain_takes bs (blocks_of i) 1.
Proof.
  intros (Hi & bytes & head & block & Hbasis & Hblock & Hne).
  assert (Hblocks : blocks_of i = block) by (unfold blocks_of; by rewrite Hbasis, Hblock).
  destruct (writes_i32 (- (Z.of_nat i + 1))) as (bs & Hw & Hr); [unfold in_i32; lia|].
  exists bs. split.
  - intros w Hready. destruct (Hw w Hready) as (w1 & Hw1 & He1 & Hready1).
    exists w1. split; [|done]. apply sent_one. intros F' f n.
    change ((token ← lift (block_index_to_copy_token i);
      on_snd (with_err TransferSession (write_rsync_i32 token))) (sender f n None, w) =
      (Ok (), (sender f n None, w1))).
    rewrite copy_token_of_index, lift_bind by done.
    unfold on_snd, with_err. cbn [snd fst]. by rewrite Hw1.
  - intros fuel total out n r rest Ht Htotal Hr'. rewrite Hblocks in *.
    change (1 + fuel)%nat with (S fuel).
    destruct (plain_token fuel total out n r bs _ _ Hr Hr') as (n1 & r1 & Ha1 & ->).
    rewrite (proj2 (Z.compare_lt_iff _ _)) by lia.
    exists n1, r1. split; [|done]. unfold receive_plain_copy. rewrite Hbasis.
    rewrite index_of_copy_token by done. unfold mbind at 1, M_bind at 1.
    rewrite lift_bind, Hblock, lift_bind. by rewrite append_output_ok.
Qed.

Lemma plain_sends_cons event events bs1 bs2 :
  plain_sends [event] bs1 → plain_sends events bs2 → plain_sends (event :: events) (bs1 ++ bs2).
Proof.
  intros H1' H2' w Hready. destruct (H1' w Hready) as (w1 & Hs1 & He1 & Hr1).
  destruct (H2' w1 Hr1) as (w2 & Hs2 & He2 & Hr2). exists w2. split; [|split; [by eapply emits_app|done]].
  intros F' f n. cbn [for_each].
  rewrite (bind_ok _ _ _ _ _ (proj1 (sent_one _ _ _ _ _) Hs1 F' f n)). apply Hs2.
Qed.

Lemma plain_events events :
  Forall servable events →
  ∃ bs, plain_sends events bs ∧
    plain_takes bs (concat (expand blocks_of <$> events)) (length events).
Proof.
  induction 1 as [|event events Hevent _ (bs2 & Hs2 & Ht2)].
  - exists []. split; [|apply plain_takes_nil].
    intros w Hw. exists w. eauto using sent_nil, emits_nil.
  - assert (∃ bs, plain_sends [event] bs ∧ plain_takes bs (expand blocks_of event) 1)
      as (bs1 & Hs1 & Ht1).
    { destruct event as [bytes|i|]; [by apply plain_literal|by apply plain_copy|done]. }
    exists (bs1 ++ bs2). split; [by apply plain_sends_cons|]. by apply (plain_takes_app _ _ 1).
Qed.

(** ** Deflated tokens *)

Definition unit_bytes (u : Z + nat) : list Z :=
  match u with inl b => [b] | inr i => blocks_of i end.

Lemma expand_units tokens :
  concat (expand blocks_of <$> tokens) = flat_map unit_bytes (units tokens).
Proof.
  induction tokens as [|token tokens IH]; [done|]. cbn. rewrite IH, flat_map_app. f_equal.
  destruct token as [bytes|i|]; cbn; [|by rewrite app_nil_r|done].
  clear. induction bytes as [|b bytes IH]; [done|]. cbn. by rewrite <-IH.
Qed.

Lemma copy_in_units i tokens : Copy i ∈ tokens ↔ inr i ∈ units tokens.
Proof.
  induction tokens as [|token tokens IH]; [by rewrite !elem_of_nil|].
  cbn. rewrite elem_of_cons, elem_of_app, IH.
  assert (Copy i = token ↔ inr i ∈ units_of token); [|naive_solver].
  destruct token as [bytes|j|]; cbn.
  - split; [done|]. intros (b & Hb & _)%list_elem_of_fmap. done.
  - rewrite list_elem_of_singleton. naive_solver.
  - by rewrite elem_of_nil.
Qed.

(** A token that the receiver can serve, whatever the length of a literal. *)
Definition token_served (token : RsyncDeflatedToken) : Prop :=
  match token with
  | Literal bytes => bytes ≠ []
  | Copy i => ∃ bytes head block, basis = Some (bytes, head) ∧
      read_basis_block bytes head i = Ok block ∧ block ≠ []
  | End => False
  end.

Lemma expand_served token : token_served token → (0 < length (expand blocks_of token))%nat.
Proof.
  destruct token as [bytes|i|]; cbn; [destruct bytes; [done|cbn; lia]| |done].
  intros (bytes & head & block & Hbasis & Hblock & Hne). unfold blocks_of.
  rewrite Hbasis, Hblock. destruct block; [done|cbn; lia].
Qed.

Local Abbreviation dloop := (deflated_loop reopen final path expected basis deadline).

(** One turn of the loop, after which the token is in the output. *)
Lemma deflated_turn fuel t total out n (r : R) token p1 :
  next_token (t, r) = (Ok token, p1) → token_served token → reader_mode p1.1 ≠ TokensZlib →
  0 ≤ total → total + Z.of_nat (length (expand blocks_of token)) ≤ expected →
  ∃ n', dloop (S fuel) t total (receiver out n, r) =
    dloop fuel p1.1 (total + Z.of_nat (length (expand blocks_of token)))
      (receiver (out ++ expand blocks_of token) n', p1.2).
Proof.
  intros Hnext Hserved Hmode Ht Hlen. destruct (receiver_deadline_ok out n r) as [n' Hn].
  exists n'. destruct p1 as [t1 r1]. cbn [fst snd] in *.
  assert (Htoken : with_token_reader next_token t (receiver out n', r) =
    (Ok (token, t1), (receiver out n', r1)))
    by (unfold with_token_reader; cbn [snd fst]; by rewrite Hnext).
  cbn [deflated_loop]. rewrite (bind_ok _ _ _ _ _ Hn), (bind_ok _ _ _ _ _ Htoken).
  destruct token as [bytes|i|]; [|clear Htoken|done].
  - by rewrite (bind_ok _ _ _ _ _ (append_output_ok total bytes out n' r1 Ht Hlen)).
  - destruct Hserved as (bytes & head & block & Hbasis & Hblock & Hne).
    assert (Hblocks : expand blocks_of (Copy i) = block)
      by (cbn; unfold blocks_of; by rewrite Hbasis, Hblock).
    rewrite Hblocks in *.
    assert (Hcopy : receive_deflated_copy path expected basis t1 i total (receiver out n', r1) =
      (Ok (total + Z.of_nat (length block), t1), (receiver (out ++ block) n', r1))).
    { unfold receive_deflated_copy. rewrite Hbasis, Hblock, lift_bind.
      assert (Hobs : with_token_reader (observe_copy_data block) t1 (receiver out n', r1) =
        (Ok (E := TransferError) ((), t1), (receiver out n', r1))).
      { unfold with_token_reader, observe_copy_data, mbind, M_bind, on_fst, get. cbn [fst snd].
        by rewrite (bool_decide_true (reader_mode t1 ≠ TokensZlib)) by done. }
      rewrite (bind_ok _ _ _ _ _ Hobs).
      by rewrite (bind_ok _ _ _ _ _ (append_output_ok total block out n' r1 Ht Hlen)). }
    by rewrite (bind_ok _ _ _ _ _ Hcopy).
Qed.

Lemma deflated_received p tokens p' :
  token_run p tokens p' → reader_mode p.1 ≠ TokensZlib → pending p.1 = [] →
  (∀ i, Copy i ∈ tokens → token_served (Copy i)) →
  ∀ fuel total out n, 0 ≤ total →
  total + Z.of_nat (length (concat (expand blocks_of <$> tokens))) ≤ expected →
  (length (concat (expand blocks_of <$> tokens)) < fuel)%nat →
  ∃ n', dloop fuel p.1 total (receiver out n, p.2) =
    finish_file reopen final path expected
      (total + Z.of_nat (length (concat (expand blocks_of <$> tokens))))
      (receiver (out ++ concat (expand blocks_of <$> tokens)) n', p'.2).
Proof.
  induction 1 as [[t r] [t' r'] Hend|[t r] token [t1 r1] tokens p' Hnext Hne _ IH];
    intros Hmode Hpend Hcopies fuel total out n Ht Hlen Hfuel; cbn [fst snd] in *.
  - destruct fuel as [|fuel]; [cbn in Hfuel; lia|].
    destruct (receiver_deadline_ok out n r) as [n' Hn]. exists n'.
    assert (Htoken : with_token_reader next_token t (receiver out n', r) =
      (Ok (End, t'), (receiver out n', r')))
      by (unfold with_token_reader; cbn [snd fst]; by rewrite Hend).
    cbn [deflated_loop]. rewrite (bind_ok _ _ _ _ _ Hn), (bind_ok _ _ _ _ _ Htoken).
    cbn. by rewrite Z.add_0_r, app_nil_r.
  - destruct (next_token_gives (t, r) (t1, r1) token Hpend Hnext) as (Hsolid & Hmode1 & Hpend1).
    cbn [fst snd] in *.
    assert (Hserved : token_served token).
    { destruct token as [bytes|i|]; [done| |done]. apply Hcopies. set_solver. }
    pose proof (expand_served _ Hserved) as Hpos.
    cbn [fmap list_fmap concat] in *. rewrite length_app in *.
    destruct fuel as [|fuel]; [lia|].
    destruct (deflated_turn fuel t total out n r token (t1, r1) Hnext Hserved) as [n1 Hturn];
      [cbn; congruence|done|lia|]. cbn [fst snd] in Hturn.
    destruct (IH ltac:(congruence) Hpend1) with (fuel := fuel)
      (total := total + Z.of_nat (length (expand blocks_of token)))
      (out := out ++ expand blocks_of token) (n := n1) as [n2 Hrun]; [set_solver|lia..|].
    exists n2. rewrite Hturn, Hrun. by rewrite Nat2Z.inj_add, Z.add_assoc, <-app_assoc.
Qed.

(** Sending through the compressor is sending to it. *)
Lemma deflated_sent events c (w : W) c' w' :
  for_each DeflatedFacts.send_event events (c, w) = (Ok (), (c', w')) →
  sent events (Some c) w (Some c') w'.
Proof.
  revert c w. induction events as [|event events IH]; intros c w Hs; [by injection Hs as <- <-|].
  cbn [for_each] in Hs. apply bind_ok_inv in Hs as ([] & [c1 w1] & Hone & Hs).
  apply IH in Hs. intros F' f n. cbn [for_each].
  assert (Hevent : TransferSend.send_event event (sender f n (Some c), w) =
    (Ok (), (sender f n (Some c1), w1))).
  { destruct event as [bytes|i|]; cbn [DeflatedFacts.send_event] in Hone.
    - change (with_compressor (DeflatedTokens.send_literal bytes) c (sender f n (Some c), w) =
        (Ok (), (sender f n (Some c1), w1))).
      unfold with_compressor. cbn [snd]. by rewrite Hone.
    - change (with_compressor (DeflatedTokens.send_copy i) c (sender f n (Some c), w) =
        (Ok (), (sender f n (Some c1), w1))).
      unfold with_compressor. cbn [snd]. by rewrite Hone.
    - by injection Hone as <- <-. }
  rewrite (bind_ok _ _ _ _ _ Hevent). apply Hs.
Qed.

Lemma deflated_ended c (w : W) c' w' :
  finish_tokens (c, w) = (Ok (), (c', w')) → ended (Some c) w (Some c') w'.
Proof.
  intros Hf F' f n.
  change (with_compressor finish_tokens c (sender f n (Some c), w) =
    (Ok (), (sender f n (Some c'), w'))).
  unfold with_compressor. cbn [snd]. by rewrite Hf.
Qed.

(** ** A file, in either coding *)

Context `{!ZlibLaws} `{!DigestLaws}.
Context (Hreopen : reopens).

(** What the sender sends for [events] up to the checksum are the bytes [bs]. *)
Definition file_sends (level : option Z) (events : list RsyncDeflatedToken) (content bs : list Z) :
    Prop :=
  ∀ w : W, ready w → ∃ c1 w1 c' w', sent events (new_token_writer <$> level) w c1 w1 ∧
    closed final content c1 w1 c' w' ∧ emits w bs w' ∧ ready w'.

(** The receiver makes [content] of [bs]. *)
Definition file_received (source : option (result (list Z) TransferError * RemoteSumHead))
    (compression : option RemoteCompressionConfig) (limit : option Z) (content bs : list Z) : Prop :=
  ∀ st (r : R) rest, avail r (bs ++ rest) →
    ∃ n' r', read_file_tokens_to_path_with_basis reopen final path expected source compression
        limit deadline (st, r) = (Ok expected, (receiver content n', r')) ∧ avail r' rest.

Lemma started source compression limit st (r : R) :
  open_basis source limit = Ok basis →
  read_file_tokens_to_path_with_basis reopen final path expected source compression limit
    deadline (st, r) =
  match compression with
  | Some config =>
      deflated_loop reopen final path expected basis deadline (S (Z.to_nat expected))
        (new_token_reader (compression_mode config)) 0 (receiver [] (receiver_readings st), r)
  | None =>
      plain_loop reopen final path expected basis deadline (S (Z.to_nat expected)) 0
        (receiver [] (receiver_readings st), r)
  end.
Proof.
  intros Hopen. unfold read_file_tokens_to_path_with_basis.
  assert (Hget : on_fst get (st, r) = (Ok (E := TransferError) st, (st, r))) by done.
  assert (Hput : on_fst (put (set_output [] st)) (st, r) =
    (Ok (E := TransferError) (), (receiver [] (receiver_readings st), r))) by done.
  rewrite (bind_ok _ _ _ _ _ Hget), (bind_ok _ _ _ _ _ Hput), Hopen, lift_bind.
  by destruct compression.
Qed.

Lemma closed_emits content c (w : W) c' w1 :
  ended c w c' w1 → ready w1 →
  ∃ w', closed final content c w c' w' ∧
    emits w1 (remote_final_checksum_for_bytes final content) w' ∧ ready w'.
Proof.
  intros He Hready.
  destruct (write_all_emits w1 (remote_final_checksum_for_bytes final content) Hready)
    as (w' & Hw & Hemits). exists w'. split; [|done]. by exists w1.
Qed.

Lemma plain_file events content source limit :
  Forall servable events → concat (expand blocks_of <$> events) = content →
  Z.of_nat (length content) = expected → (length events ≤ length content)%nat →
  open_basis source limit = Ok basis →
  ∃ bs, file_sends None events content bs ∧ file_received source None limit content bs.
Proof.
  intros Hevents Hcontent Hlen Hturns Hopen.
  destruct (plain_events events Hevents) as (bs & Hsends & Htakes). rewrite Hcontent in Htakes.
  destruct (writes_i32 0) as (bs0 & Hw0 & Hr0); [unfold in_i32; lia|].
  exists ((bs ++ bs0) ++ remote_final_checksum_for_bytes final content). split.
  - intros w Hready. destruct (Hsends w Hready) as (w1 & Hs1 & He1 & Hready1).
    destruct (Hw0 w1 Hready1) as (w2 & Hw2 & He2 & Hready2).
    assert (Hended : ended None w1 None w2).
    { intros F' f n.
      change (on_snd (with_err TransferSession (write_rsync_i32 0)) (sender f n None, w1) =
        (Ok (), (sender f n None, w2))).
      unfold on_snd, with_err. cbn [snd fst]. by rewrite Hw2. }
    destruct (closed_emits content None w1 None w2 Hended Hready2) as (w3 & Hclosed & He3 & Hready3).
    exists None, w1, None, w3. split_and!; [done|done| |done].
    eapply emits_app; [by eapply emits_app|done].
  - intros st r rest Hr. rewrite <-!app_assoc in Hr. rewrite started by done.
    destruct (Htakes (S (Z.to_nat expected) - length events)%nat 0 [] (receiver_readings st) r _
      ltac:(lia) ltac:(lia) Hr) as (n1 & r1 & Hloop & Ha1).
    replace (length events + (S (Z.to_nat expected) - length events))%nat
      with (S (Z.to_nat expected)) in Hloop by lia. rewrite Hloop. cbn [app].
    replace (S (Z.to_nat expected) - length events)%nat
      with (S (Z.to_nat expected - length events)) by lia.
    destruct (plain_token (Z.to_nat expected - length events) (0 + Z.of_nat (length content))
      content n1 r1 bs0 0 _ Hr0 Ha1) as (n2 & r2 & Ha2 & ->). cbn [Z.compare].
    rewrite Z.add_0_l, Hlen. destruct (finish_file_ok content n2 r2 rest Hreopen Hlen Ha2)
      as (r3 & Hr3 & Ha3). by exists n2, r3.
Qed.

Lemma fresh_reader mode : fresh (new_token_reader mode).
Proof. repeat split. intros c. apply owes_new. Qed.

(** The literals of a file are pieces of it. *)
Lemma servable_event_ok events content :
  Forall servable events → concat (expand blocks_of <$> events) = content →
  Forall (event_ok content) events.
Proof.
  rewrite !Forall_forall. intros Hserv Hcontent event Hin. specialize (Hserv event Hin).
  destruct event as [bytes|i|]; cbn in *; [|destruct Hserv; lia|done].
  rewrite <-Hcontent. apply piece_concat. by apply (list_elem_of_fmap_2 (expand blocks_of) events (Literal bytes)).
Qed.

Lemma deflated_file events content source limit level config :
  Forall servable events → concat (expand blocks_of <$> events) = content →
  Z.of_nat (length content) = expected → compression_mode config ≠ TokensZlib →
  no_early_tail level content → open_basis source limit = Ok basis →
  ∃ bs, file_sends (Some level) events content bs ∧
    file_received source (Some config) limit content bs.
Proof.
  intros Hevents Hcontent Hlen Hmode Hquiet Hopen.
  destruct (tokens_carried (W := W) (R := R) level content Hquiet (new_token_writer level)
    (new_token_reader (compression_mode config)) events) as (bs & c' & Hw & _ & Hread);
    [done|apply worked_new|apply fresh_reader|by apply servable_event_ok|].
  exists (bs ++ remote_final_checksum_for_bytes final content). split.
  - intros w Hready. destruct (Hw w Hready) as (w2 & Hrun & He & Hready2).
    apply bind_ok_inv in Hrun as ([] & [c1 w1] & Hsent & Hend).
    apply deflated_sent in Hsent. apply deflated_ended in Hend.
    destruct (closed_emits content _ _ _ _ Hend Hready2) as (w3 & Hclosed & He3 & Hready3).
    exists (Some c1), w1, (Some c'), w3. split_and!; [done|done|by eapply emits_app|done].
  - intros st r rest Hr. rewrite <-app_assoc in Hr. rewrite started by done.
    destruct (Hread r _ Hr) as (tokens & rd' & r' & Hrun & Ha & Hunits & _).
    assert (Hbytes : concat (expand blocks_of <$> tokens) = content)
      by (by rewrite expand_units, Hunits, <-expand_units).
    destruct (deflated_received _ _ _ Hrun) with (fuel := S (Z.to_nat expected)) (total := 0)
      (out := @nil Z) (n := receiver_readings st) as (n1 & Hloop); rewrite ?Hbytes; try done; try lia.
    { intros i Hi. rewrite copy_in_units, Hunits, <-copy_in_units in Hi.
      rewrite Forall_forall in Hevents. by destruct (Hevents _ Hi) as [_ Hserved]. }
    rewrite Hbytes in Hloop. cbn [fst snd] in Hloop. rewrite Hloop, Z.add_0_l, Hlen. cbn [app].
    destruct (finish_file_ok content n1 r' rest Hreopen Hlen Ha) as (r3 & Hr3 & Ha3).
    by exists n1, r3.
Qed.
End receiver.
