(* ===== verification/TransferTheorems.v ===== *)
(** * Properties of the transfer of a file *)

From S2P Require Import Prelude Stream WireIo Str Session Handshake Delta DeltaFacts Daemon.
From S2P Require Import DeflatedTokens DeflatedFacts TransferSums Transfer TransferFacts.
From S2P Require Import TransferSend TransferReceive.
Import Rollsum Signature.

(** ** Limits *)

Lemma allocation_label label label' bytes limit :
  ensure_allocation_within_limit label bytes limit = Ok () →
  ensure_allocation_within_limit label' bytes limit = Ok ().
Proof. unfold ensure_allocation_within_limit. by repeat case_match. Qed.

Lemma allocation_smaller label label' small large limit :
  (small ≤ large)%nat → ensure_allocation_within_limit label large limit = Ok () →
  ensure_allocation_within_limit label' small limit = Ok ().
Proof.
  intros Hle. unfold ensure_allocation_within_limit. destruct limit as [limit|]; [|done].
  destruct (Z.ltb_spec 0 limit); cbn [andb]; [|done].
  destruct (Z.ltb_spec limit (Z.of_nat large)); [done|].
  by rewrite (proj2 (Z.ltb_ge limit _)) by lia.
Qed.

(** ** The sender of a file, against the signatures of the receiver *)

Section transfer.
Context `{Clock} `{DigestLaws} `{ZlibLaws} `{SignatureSize}.
Context {F : Type} `{SourceLaws F}.

(** A list of signatures of the basis, as the sender has read it. *)
Abbreviation strong_of checksum := {| strong_kind := checksum; strong_len := 16 |}.

Lemma basis_describes checksum old block_size :
  (0 < block_size)%nat →
  Forall (describes (strong_of checksum) old) (basis_signatures checksum old block_size).
Proof.
  intros Hb. apply (generate_describes _ _ block_size). unfold generate_signatures_with.
  by rewrite (proj2 (Nat.eqb_neq block_size 0)) by lia.
Qed.

Lemma basis_block checksum old block_size limit s :
  request_fits old block_size limit → s ∈ basis_signatures checksum old block_size →
  ∃ block, read_basis_block old (basis_head old block_size) (index s) = Ok block ∧
    block = take (sig_len s) (drop (offset s) old) ∧ block ≠ [] ∧
    (sig_len s ≤ block_size)%nat ∧ Z.of_nat (index s) < 2 ^ 31 - 1.
Proof.
  intros (Hb & _ & Hlen & Hcount & _) [i Hi]%list_elem_of_lookup.
  apply basis_signature_lookup in Hi as (block & Hi & ->).
  assert (Hlt : (i < length (chunks block_size old))%nat) by (by eapply lookup_lt_Some).
  pose proof (chunks_bounds block_size old Hb) as Hbounds. rewrite Forall_lookup in Hbounds.
  specialize (Hbounds i block Hi).
  exists block. cbn [index sig_len offset block_signature]. split_and!; [|..|lia|lia].
  - apply block_of_basis; [done|lia|done].
  - pose proof Hi as Hc. rewrite lookup_chunks in Hc by done. case_match; [|done].
    injection Hc as <-. rewrite length_take. destruct (Nat.le_gt_cases block_size (length (drop (i * block_size) old))).
    + by rewrite Nat.min_l.
    + rewrite Nat.min_r by lia. rewrite !take_ge; [done|lia..].
  - intros ->. cbn in Hbounds. lia.
Qed.

Lemma basis_honest checksum old new block_size limit :
  request_fits old block_size limit → collision_free (strong_of checksum) new old →
  honest (strong_of checksum) (basis_signatures checksum old block_size) new
    (blocks_of (Some (old, basis_head old block_size))).
Proof.
  intros Hfit Hfree s i Hs Hlen window Hweak Hstrong.
  destruct (basis_block checksum old block_size limit s Hfit Hs) as (block & Hread & Hblock & _).
  unfold blocks_of. rewrite Hread, Hblock.
  pose proof (basis_describes checksum old block_size (proj1 Hfit)) as Hall.
  rewrite Forall_forall in Hall. destruct (Hall s Hs) as (_ & Hin & Hw & Hd).
  subst window. apply Hfree; [done|done|congruence|congruence].
Qed.

Lemma sendable_servable checksum old block_size limit event :
  request_fits old block_size limit →
  sendable (basis_signatures checksum old block_size) event →
  servable (Some (old, basis_head old block_size)) event.
Proof.
  intros Hfit. destruct event as [bytes|i|]; cbn; [|intros (s & Hs & <-)|done].
  - intros [Hne Hlen]. split; [done|]. pose proof buffer_bound. lia.
  - destruct (basis_block checksum old block_size limit s Hfit Hs)
      as (block & Hread & _ & Hne & _ & Hi). split; [done|]. by exists old, (basis_head old block_size), block.
Qed.

(** Each event stands for a byte at least. *)
Lemma servable_turns basis events :
  Forall (servable basis) events →
  (length events ≤ length (concat (expand (blocks_of basis) <$> events)))%nat.
Proof.
  induction 1 as [|event events Hevent _ IH]; [done|]. cbn [fmap list_fmap concat length].
  rewrite length_app. assert (0 < length (expand (blocks_of basis) event))%nat; [|lia].
  apply expand_served. destruct event as [bytes|i|]; cbn in *; naive_solver.
Qed.

Lemma first_strong_of_basis checksum old block_size :
  basis_signatures checksum old block_size ≠ [] →
  first_strong_len (basis_signatures checksum old block_size) = 16%nat.
Proof.
  intros Hne. destruct (basis_signatures checksum old block_size) as [|s sigs] eqn:Hs; [done|].
  assert (Hin : basis_signatures checksum old block_size !! 0%nat = Some s) by (by rewrite Hs).
  apply basis_signature_lookup in Hin as (block & _ & ->). apply (length_strong checksum 16).
Qed.

Context {R : Type} `{ReadLaws R} {W : Type} `{WriteLaws W}.
Context (deadline : option Z) (Htime : in_time deadline).
(** That of the receiver. *)
Context (deadline' : option Z) (Htime' : in_time deadline').

Abbreviation level_of path compression :=
  ((λ config, level_for_path config path) <$> compression).

(** The sender of a file, from its start. *)
Lemma path_sender checksum final path compression limit old new block_size (f f0 : F) n0 c0 :
  request_fits old block_size limit → collision_free (strong_of checksum) new old →
  ensure_allocation_within_limit "delta literal buffer" buffer_size limit = Ok () → holds f new →
  let signatures := basis_signatures checksum old block_size in
  ∃ events stats, Forall (sendable signatures) events ∧
    concat (expand (blocks_of (Some (old, basis_head old block_size))) <$> events) = new ∧
    counted stats = as_u64 (Z.of_nat (length new)) ∧
    sender_run (W := W) (write_delta_tokens_from_path checksum final path (Ok f) signatures compression
      {| max_alloc := limit; stop_deadline := deadline |}) f0 n0 c0 final new
      (level_of path compression) events stats.
Proof.
  intros Hfit Hfree Hbuf Hf signatures.
  destruct (deadline_passes deadline n0 Htime) as [n1 Hn1].
  assert (Hstart : ∀ {A} (m : M (Sender F * W) TransferError A) w,
    (check_deadline deadline;; open_file (Ok f);; m) (sender f0 n0 c0, w) = m (sender f n1 c0, w)).
  { intros A m w. assert (Hcheck : check_deadline deadline (sender f0 n0 c0, w) =
      (Ok (), (sender f0 n1 c0, w)))
      by (unfold check_deadline, on_fst; cbn [fst readings sender]; by rewrite Hn1).
    rewrite (bind_ok _ _ _ _ _ Hcheck).
    assert (Hopen : open_file (Ok f) (sender f0 n1 c0, w) = (Ok (), (sender f n1 c0, w))) by done.
    by rewrite (bind_ok _ _ _ _ _ Hopen). }
  unfold write_delta_tokens_from_path. cbn [stop_deadline].
  destruct (decide (signatures = [])) as [Hnil|Hne].
  - destruct (literal_sender (W := W) deadline Htime final (level_of path compression) new f n1 c0 Hf)
      as (pieces & Hc & Hp & Hrun).
    exists (literals pieces), {| literal_bytes := as_u64 (Z.of_nat (length new)); copied_bytes := 0 |}.
    split_and!; [by apply sendable_literals|by rewrite expand_literals| |].
    + unfold counted. cbn [literal_bytes copied_bytes]. rewrite as_u64_add. f_equal. lia.
    + intros w c1 w1 c' w' Hsent Hclosed. destruct (Hrun w c1 w1 c' w' Hsent Hclosed) as (f' & n' & Hm).
      exists f', n'. rewrite Hstart, bool_decide_true by done. by rewrite (bind_ok _ _ _ _ _ Hm).
  - destruct (delta_sender (W := W) deadline Htime checksum final signatures
      (level_of path compression) limit new (blocks_of (Some (old, basis_head old block_size))) f n1 c0 Hf)
      as (events & stats & Hsend & Hbytes & Hcount & Hrun).
    { destruct signatures as [|s rest] eqn:Hs; [done|]. exists s. split; [apply list_elem_of_here|].
      pose proof (basis_describes checksum old block_size (proj1 Hfit)) as Hall.
      fold signatures in Hall. rewrite Hs in Hall. by apply Forall_inv in Hall as [? _]. }
    { split; [|done]. intros s Hs.
      destruct (basis_block checksum old block_size limit s Hfit Hs) as (_ & _ & _ & _ & Hle & _).
      destruct Hfit as (_ & _ & _ & _ & _ & Halloc). by eapply allocation_smaller. }
    { assert (first_strong_len signatures = 16%nat) as -> by (by apply first_strong_of_basis).
      by eapply basis_honest. }
    exists events, stats. split_and!; [done..|].
    intros w c1 w1 c' w' Hsent Hclosed. destruct (Hrun w c1 w1 c' w' Hsent Hclosed) as (f' & n' & Hm).
    exists f', n'. by rewrite Hstart, bool_decide_false by done.
Qed.

(** What the receiver opens as its basis. *)
Lemma open_request_basis old block_size limit :
  request_fits old block_size limit →
  open_basis (Some (Ok old, basis_head old block_size)) limit =
    Ok (if bool_decide (old = []) then None else Some (old, basis_head old block_size)).
Proof.
  intros (Hb & _ & _ & _ & _ & Halloc). unfold open_basis. case_bool_decide as Hnil.
  - subst old. done.
  - assert (Hpos : (0 < block_count (basis_head old block_size))%nat).
    { cbn [block_count basis_head]. apply (chunk_index_bounds block_size old 0 Hb).
      destruct old; [done|cbn; lia]. }
    rewrite (proj2 (Nat.ltb_lt _ _)) by done.
    unfold ensure_basis_copy_budget. rewrite validate_basis_head by done. cbn [and_then].
    destruct (Nat.eqb_spec (block_count (basis_head old block_size)) 0); [lia|].
    rewrite (allocation_label _ _ _ _ Halloc). done.
Qed.

(** Without blocks there are no copies. *)
Lemma servable_without_basis checksum block_size events :
  Forall (sendable (basis_signatures checksum [] block_size)) events →
  Forall (servable None) events ∧
  ∀ blocks blocks', concat (expand blocks <$> events) = concat (expand blocks' <$> events).
Proof.
  assert (Hno : basis_signatures checksum [] block_size = []) by done. rewrite Hno.
  induction 1 as [|event events Hevent _ [IHs IHb]]; [done|].
  destruct event as [bytes|i|]; [|by destruct Hevent as (s & Hs%elem_of_nil & _)|done].
  destruct Hevent as [Hne Hlen]. split.
  - constructor; [|done]. split; [done|]. pose proof buffer_bound. lia.
  - intros blocks blocks'. cbn. f_equal. apply IHb.
Qed.
(** What a sender and a receiver make of a file: the one says [bs], whatever was before,
    and the other takes them for the file, whatever follows. *)
Definition sends_file checksum final path (f : F) signatures compression limit (s : Sender F) bs
    stats : Prop :=
  ∀ w : W, ready w → ∃ s' w',
    write_delta_tokens_from_path checksum final path (Ok f) signatures compression
      {| max_alloc := limit; stop_deadline := deadline |} (s, w) = (Ok stats, (s', w')) ∧
    emits w bs w' ∧ ready w'.

Definition takes_file (reopen : list Z → result F TransferError) final path compression limit
    basis new bs : Prop :=
  ∀ st (r : R) rest, avail r (bs ++ rest) → ∃ st' r',
    read_file_tokens_to_path_with_basis reopen final path (Z.of_nat (length new))
      (Some basis) compression limit deadline' (st, r) =
      (Ok (Z.of_nat (length new)), (st', r')) ∧ output st' = new ∧ avail r' rest.

(** The modes whose reader takes what its writer puts out: not that of zlib, where the
    reader feeds the blocks it copies to the stream, and the writer does not. *)
Definition readable_mode (compression : option RemoteCompressionConfig) : Prop :=
  match compression with Some config => compression_mode config ≠ TokensZlib | None => True end.

(** The flushes of the file, if it is compressed, do not show their end early. *)
Definition quiet_for (path : list Z) (compression : option RemoteCompressionConfig)
    (new : list Z) : Prop :=
  match compression with
  | Some config => no_early_tail (level_for_path config path) new
  | None => True
  end.

Lemma file_transfer checksum final path path' compression limit old new block_size
    (f : F) (s : Sender F) reopen :
  request_fits old block_size limit → collision_free (strong_of checksum) new old →
  ensure_allocation_within_limit "delta literal buffer" buffer_size limit = Ok () →
  Z.of_nat (length new) < 2 ^ 64 → holds f new → reopens reopen →
  readable_mode compression → quiet_for path compression new →
  ∃ bs stats, (literal_bytes stats + copied_bytes stats) mod 2 ^ 64 = Z.of_nat (length new) ∧
    sends_file checksum final path f (basis_signatures checksum old block_size) compression limit
      s bs stats ∧
    takes_file reopen final path' compression limit (Ok old, basis_head old block_size) new bs.
Proof.
  intros Hfit Hfree Hbuf Hnew Hf Hreopen Hmode Hquiet. destruct s as [f0 n0 c0].
  destruct (path_sender checksum final path compression limit old new block_size f f0 n0 c0
    Hfit Hfree Hbuf Hf) as (events & stats & Hsend & Hbytes & Hcount & Hrun).
  set (basis := if bool_decide (old = []) then None else Some (old, basis_head old block_size)).
  assert (Hbasis : Forall (servable basis) events ∧ concat (expand (blocks_of basis) <$> events) = new).
  { unfold basis. case_bool_decide as Hnil.
    - subst old. destruct (servable_without_basis _ _ _ Hsend) as [Hserv Heq].
      split; [done|]. by erewrite Heq.
    - split; [|done]. eapply Forall_impl; [exact Hsend|]. intros event. by eapply sendable_servable. }
  destruct Hbasis as [Hserv Hnewbytes].
  pose proof (open_request_basis old block_size limit Hfit) as Hopen. fold basis in Hopen.
  assert (Hfile : ∃ bs, file_sends (W := W) final (level_of path compression) events new bs ∧
    file_received (F := F) (R := R) deadline' reopen final path' (Z.of_nat (length new))
      (Some (Ok old, basis_head old block_size)) compression limit new bs).
  { destruct compression as [config|].
    - by apply (deflated_file deadline' Htime' reopen final path' _ Hnew basis Hreopen).
    - apply (plain_file deadline' Htime' reopen final path' _ Hnew basis Hreopen events); try done.
      pose proof (servable_turns basis events Hserv) as Hturns. by rewrite Hnewbytes in Hturns. }
  destruct Hfile as (bs & Hsends & Hreceived). exists bs, stats. split_and!.
  - unfold counted in Hcount. unfold as_u64 in Hcount. rewrite Hcount. apply Z.mod_small. lia.
  - intros w Hready. destruct (Hsends w Hready) as (c1 & w1 & c' & w' & Hsent & Hclosed & He & Hready').
    destruct (Hrun w c1 w1 c' w' Hsent Hclosed) as (f' & n' & Hm). by exists (sender f' n' c'), w'.
  - intros st r rest Hr. destruct (Hreceived st r rest Hr) as (n' & r' & Hm & Ha).
    by exists (receiver new n'), r'.
Qed.

(** C5. What the sender of a file puts on the wire against the signatures of the receiver's
    basis, uncompressed or compressed in the zlibx mode, makes the receiver's output that
    file, and its checksum agrees; every byte was counted once, as a literal or as copied.
    This is under the laws of the compressor ([ZlibLaws]), and for a file of which no
    window has the sums of another block of the basis ([collision_free]) and, when it is
    compressed, no flush shows its end early ([quiet_for]); the basis, the buffer and the
    file are within the limits, and no deadline passes. *)
Theorem file_transfer_round_trip checksum final path path' compression limit old new block_size
    (f : F) (s : Sender F) reopen :
  request_fits old block_size limit → collision_free (strong_of checksum) new old →
  ensure_allocation_within_limit "delta literal buffer" buffer_size limit = Ok () →
  Z.of_nat (length new) < 2 ^ 64 → holds f new → reopens reopen →
  readable_mode compression → quiet_for path compression new →
  ∃ bs stats,
    (literal_bytes stats + copied_bytes stats) mod 2 ^ 64 = Z.of_nat (length new) ∧
    (∀ w : W, ready w → ∃ s' w',
       write_delta_tokens_from_path checksum final path (Ok f)
         (basis_signatures checksum old block_size) compression
         {| max_alloc := limit; stop_deadline := deadline |} (s, w) = (Ok stats, (s', w')) ∧
       emits w bs w' ∧ ready w') ∧
    (∀ st (r : R) rest, avail r (bs ++ rest) → ∃ st' r',
       read_file_tokens_to_path_with_basis reopen final path' (Z.of_nat (length new))
         (Some (Ok old, basis_head old block_size)) compression limit deadline' (st, r) =
         (Ok (Z.of_nat (length new)), (st', r')) ∧ output st' = new ∧ avail r' rest).
Proof. apply file_transfer. Qed.
End transfer.

(** C7. What a receiver asks for a basis is what the sender reads: a head of the length of
    the basis, and its signatures, each for the block that the receiver will copy. *)
Theorem basis_request_round_trip `{DigestLaws} `{SignatureSize} `{SourceLaws F} `{ReadLaws R}
    `{WriteLaws W} checksum old block_size limit limit' (f : F) :
  request_fits old block_size limit → request_fits old block_size limit' → holds f old →
  ∃ head signatures,
    local_basis_signature_request (Some (true, Z.of_nat (length old))) (Ok f) block_size checksum
      false limit = Ok (head, signatures) ∧
    coupled (W := W) (R := R) (sends_request (head, signatures)) (takes_request checksum limit')
      (head, signatures) ∧
    remote_sum_head_file_len head = Ok (length old) ∧
    Forall (describes {| strong_kind := checksum; strong_len := 16 |} old) signatures ∧
    ∀ s, s ∈ signatures →
      read_basis_block old head (index s) = Ok (take (sig_len s) (drop (offset s) old)).
Proof.
  intros Hfit Hfit' Hf. exists (basis_head old block_size), (basis_signatures checksum old block_size).
  split_and!.
  - by apply local_request.
  - by eapply coupled_request.
  - destruct Hfit as (Hb & _ & Hlen & _). by apply head_file_len.
  - by apply basis_describes, Hfit.
  - intros s Hs. by destruct (basis_block checksum old block_size limit s Hfit Hs) as (block & Hr & -> & _).
Qed.

(** ** Runs *)

#[local] Existing Instances stored_zlib stored_laws shown_digests shown_laws.
#[local] Instance no_clock : Clock := λ n, Z.of_nat n.
#[local] Instance signature_size : SignatureSize := 56%nat.

Definition old_file : list Z := [1; 2; 3; 4; 5].
Definition new_file : list Z := [9; 3; 4; 7; 1; 2].
Definition pieces (bytes : list Z) : Pieces := {| left := bytes; sizes := [0; 2; 1]%nat |}.

Definition zlibx : RemoteCompressionConfig :=
  {| compression_mode := TokensZlibx; compression_level := 6; compression_skip_suffixes := [] |}.

Lemma sample_fits : request_fits old_file 2 None.
Proof. unfold request_fits. split_and!; [lia|lia|vm_compute; reflexivity|vm_compute; reflexivity|done|done]. Qed.

Lemma basis_request_round_trip_witness :
  ∃ head signatures,
    local_basis_signature_request (Some (true, 5)) (Ok (pieces old_file)) 2 FilePlainMd4
      false None = Ok (head, signatures) ∧
    (∃ bs, sends_request (head, signatures) [] = (Ok (), bs) ∧
      takes_request FilePlainMd4 None bs = (Ok (head, signatures), [])) ∧
    remote_sum_head_file_len head = Ok 5%nat.
Proof.
  destruct (basis_request_round_trip (W := list Z) (R := list Z) FilePlainMd4 old_file 2 None None
    (pieces old_file) sample_fits sample_fits) as (head & signatures & Hreq & Hc & Hlen & _);
    [reflexivity|].
  exists head, signatures. split; [exact Hreq|]. split; [|exact Hlen].
  destruct (coupled_bytes _ _ _ Hc) as (bs & Hw & Hr). exists bs. split; [exact Hw|].
  specialize (Hr []). rewrite app_nil_r in Hr. exact Hr.
Defined.

Lemma file_transfer_round_trip_witness :
  ∃ bs stats, (literal_bytes stats + copied_bytes stats) mod 2 ^ 64 = 6 ∧
    (∃ s', write_delta_tokens_from_path FilePlainMd4 FinalPlainMd4 (lit "f") (Ok (pieces new_file))
       (basis_signatures FilePlainMd4 old_file 2) (Some zlibx)
       {| max_alloc := None; stop_deadline := None |}
       ({| file := pieces []; readings := 0; compressor := None |}, []) = (Ok stats, (s', bs))) ∧
    (∃ st' r', read_file_tokens_to_path_with_basis (λ bytes, Ok (pieces bytes)) FinalPlainMd4
       (lit "f") 6 (Some (Ok old_file, basis_head old_file 2)) (Some zlibx) None None
       ({| output := []; receiver_readings := 0 |}, bs) = (Ok 6, (st', r')) ∧
       output st' = new_file).
Proof.
  destruct (file_transfer_round_trip (W := list Z) (R := list Z) None I None I FilePlainMd4 FinalPlainMd4
    (lit "f") (lit "f") (Some zlibx) None old_file new_file 2 (pieces new_file)
    {| file := pieces []; readings := 0; compressor := None |} (λ bytes, Ok (pieces bytes)))
    as (bs & stats & Hcount & Hsend & Hreceive).
  - exact sample_fits.
  - apply shown_collision_free. cbn. lia.
  - reflexivity.
  - reflexivity.
  - reflexivity.
  - intros bytes. by exists (pieces bytes).
  - done.
  - apply stored_quiet.
  - exists bs, stats. split; [exact Hcount|]. destruct (Hsend [] I) as (s' & w' & Hrun & He & _).
    cbn in He. subst w'. split; [by exists s'|].
    destruct (Hreceive {| output := []; receiver_readings := 0 |} bs []) as (st' & r' & Hr & Hout & _);
      [cbn; by rewrite app_nil_r|].
    exists st', r'. change (Z.of_nat (length new_file)) with 6 in Hr. split; [exact Hr|exact Hout].
Defined.
