(* ===== verification/TransferSafety.v ===== *)
(** * What a receiver makes of any bytes

    Whatever comes in, the output stays within the length that was announced, a file is
    accepted at that length and with the sender's checksum only, and the loops end. *)

From S2P Require Import Prelude Stream WireIo Str Session Handshake Delta Daemon.
From S2P Require Import DeflatedTokens DeflatedFacts TransferSums Transfer TransferFacts.
From S2P Require Import TransferSend TransferReceive.

Section safety.
Context `{Clock} `{Digests} `{Zlib} {F : Type} `{Source F} {R : Type} `{ReadLaws R}.
Context (reopen : list Z → result F TransferError) (final : RemoteFinalChecksum).
Context (path : list Z) (expected : Z) (basis : option (list Z * RemoteSumHead)).
Context (deadline : option Z).

Local Abbreviation St := (M (Receiver * R) TransferError).

(** The output is within the length that was announced. *)
Definition within (st : Receiver) : Prop := Z.of_nat (length (output st)) ≤ expected.

(** The output has [total] bytes, no more than announced. *)
Definition at_total (total : Z) (st : Receiver) : Prop :=
  Z.of_nat (length (output st)) = total ∧ total ≤ expected.

(** A triple whose errors leave the output within its length. *)
Definition guarded {A} (P : Receiver → Prop) (m : St A) (Q : A → Receiver → R → Prop) : Prop :=
  ∀ st r res st' r', P st → m (st, r) = (res, (st', r')) →
    match res with Ok a => Q a st' r' | Err _ => within st' end.

Lemma guarded_bind {A B} P (m : St A) (f : A → St B) (P1 : A → Receiver → Prop) Q :
  guarded P m (λ a st _, P1 a st) → (∀ a, guarded (P1 a) (f a) Q) → guarded P (m ≫= f) Q.
Proof.
  intros Hm Hf st r res st' r' HP. unfold mbind, M_bind.
  destruct (m (st, r)) as [[a|e] [st1 r1]] eqn:Hr.
  - specialize (Hm _ _ _ _ _ HP Hr). cbn in Hm. intros Hrun. by apply (Hf a _ _ _ _ _ Hm Hrun).
  - specialize (Hm _ _ _ _ _ HP Hr). cbn in Hm. by intros [= <- <- _].
Qed.

Lemma guarded_lift {A} (P : Receiver → Prop) (x : result A TransferError) :
  (∀ st, P st → within st) → guarded P (lift x) (λ a st _, x = Ok a ∧ P st).
Proof. intros Hw st r res st' r' HP [= <- <- <-]. destruct x; auto. Qed.

Lemma guarded_throw {A} (P : Receiver → Prop) e Q :
  (∀ st, P st → within st) → guarded P (throw e : St A) Q.
Proof. intros Hw st r res st' r' HP [= <- <- <-]. auto. Qed.

Lemma guarded_ret {A} P (a : A) : guarded P (mret a) (λ x st _, x = a ∧ P st).
Proof. by intros st r res st' r' HP [= <- <- <-]. Qed.

(** Reading leaves the output alone. *)
Lemma guarded_read {A} (P : Receiver → Prop) (m : M R TransferError A) :
  (∀ st, P st → within st) → guarded P (on_snd m) (λ _ st _, P st).
Proof.
  intros Hw st r res st' r' HP. unfold on_snd. cbn [snd fst].
  destruct (m r) as [[a|e] r1]; intros [= <- <- <-]; auto.
Qed.

Lemma guarded_exact (P : Receiver → Prop) n :
  (∀ st, P st → within st) →
  guarded P (on_snd (with_err TransferIo (read_exact n)))
    (λ bytes st _, length bytes = n ∧ P st).
Proof.
  intros Hw st r res st' r' HP. unfold on_snd, with_err. cbn [snd fst].
  destruct (read_exact n r) as [[bytes|e] r1] eqn:Hr; intros [= <- <- <-]; [|auto].
  by apply read_exact_budget in Hr as [? _].
Qed.

Lemma guarded_tokens {A} (P : Receiver → Prop)
    (m : M (RsyncDeflatedTokenReader * R) io_error A) t :
  (∀ st, P st → within st) → guarded P (with_token_reader m t) (λ _ st _, P st).
Proof.
  intros Hw st r res st' r' HP. unfold with_token_reader. cbn [snd fst].
  destruct (m (t, r)) as [[a|e] [t1 r1]]; intros [= <- <- <-]; auto.
Qed.

Lemma at_total_within total : ∀ st, at_total total st → within st.
Proof. intros st [Ht Hle]. unfold within. lia. Qed.

Lemma guarded_deadline total :
  guarded (at_total total) (check_receiver_deadline deadline) (λ _ st _, at_total total st).
Proof.
  intros st r res st' r' HP. unfold check_receiver_deadline, on_fst. cbn [fst snd].
  destruct (check_transfer_deadline deadline _) as [[[]|e] n]; intros [= <- <- <-]; [done|].
  by eapply at_total_within.
Qed.

Lemma next_total_inv total len next :
  next_total path expected total len = Ok next →
  next = total + Z.of_nat len ∧ next ≤ expected.
Proof.
  unfold next_total, checked_usize. destruct (_ && _); [|done]. cbn.
  destruct (Z.ltb_spec expected (total + Z.of_nat len)); [done|]. by intros [= <-].
Qed.

Lemma guarded_append total bytes :
  guarded (at_total total) (append_output path expected total bytes)
    (λ next st _, next = total + Z.of_nat (length bytes) ∧ at_total next st).
Proof.
  unfold append_output. eapply guarded_bind; [apply guarded_lift, at_total_within|].
  intros next st r res st' r' [Hnext [Ht _]] Hr. apply next_total_inv in Hnext as [-> Hle].
  unfold write_output, mbind, M_bind, on_fst, get, put in Hr. cbn in Hr.
  injection Hr as <- <- <-. split; [done|]. split; [|done].
  cbn [output set_output]. rewrite length_app. lia.
Qed.

Lemma guarded_literal fuel remaining total :
  total + Z.of_nat remaining ≤ expected → 0 ≤ total → expected < 2 ^ 64 →
  guarded (at_total total) (receive_literal fuel remaining total)
    (λ next st _, next = total + Z.of_nat remaining ∧ at_total next st).
Proof.
  intros Hle Ht Hmax. pose proof buffer_positive.
  revert remaining total Hle Ht. induction fuel as [|fuel IH]; intros remaining total Hle Ht.
  - destruct remaining; [|apply guarded_throw, at_total_within].
    intros st r res st' r' HP [= <- <- <-]. by rewrite Z.add_0_r.
  - destruct remaining as [|rem].
    { intros st r res st' r' HP [= <- <- <-]. by rewrite Z.add_0_r. }
    set (remaining := S rem) in *.
    assert (0 < remaining)%nat as Hpos by (unfold remaining; lia). clearbody remaining.
    set (len := Nat.min buffer_size remaining).
    assert (Hgo : guarded (at_total total)
      (bytes ← on_snd (with_err TransferIo (read_exact len)); write_output bytes;;
       receive_literal fuel (remaining - len) (as_u64 (total + Z.of_nat len)))
      (λ next st _, next = total + Z.of_nat remaining ∧ at_total next st)).
    { eapply guarded_bind; [apply guarded_exact, at_total_within|]. intros bytes.
      eapply (guarded_bind _ _ _ (λ _, at_total (total + Z.of_nat len))).
      - intros st r res st' r' [Hlen [Hout _]] [= <- <- <-]. split; [|unfold len in *; lia].
        cbn [output set_output]. rewrite length_app. lia.
      - intros []. rewrite as_u64_id by (unfold in_u64, len in *; lia).
        intros st r res st' r' HP Hr. specialize (IH (remaining - len)%nat (total + Z.of_nat len)
          ltac:(unfold len; lia) ltac:(lia) st r res st' r' HP Hr).
        destruct res; [|done]. destruct IH as [-> Hat].
        replace (total + Z.of_nat remaining)
          with (total + Z.of_nat len + Z.of_nat (remaining - len)) by (unfold len; lia). done. }
    intros st r res st' r' HP Hr. destruct remaining as [|rem']; [lia|]. exact (Hgo st r res st' r' HP Hr).
Qed.

(** What makes a file accepted: its length, and the sixteen bytes after its tokens. *)
Definition accepted (total : Z) (st : Receiver) (r : R) : Prop :=
  total = expected ∧ Z.of_nat (length (output st)) = expected ∧
  ∃ r0 digest, read_exact 16 r0 = (Ok digest, r) ∧
    remote_file_checksum_for_path final (reopen (output st)) = Ok digest.

Lemma guarded_finish total :
  guarded (at_total total) (finish_file reopen final path expected total) accepted.
Proof.
  intros st r res st' r' HP. pose proof (at_total_within _ _ HP) as Hw. destruct HP as [Hout Hle].
  unfold finish_file. destruct (Z.eqb_spec total expected) as [->|]; cbn [negb];
    [|by intros [= <- <- <-]].
  destruct (read_exact 16 r) as [[digest|e] r1] eqn:Hr.
  - assert (Hread : on_snd (with_err TransferIo (read_exact 16)) (st, r) = (Ok digest, (st, r1)))
      by (unfold on_snd, with_err; cbn [snd fst]; by rewrite Hr).
    rewrite (bind_ok _ _ _ _ _ Hread).
    assert (Hget : on_fst get (st, r1) = (Ok (E := TransferError) st, (st, r1))) by done.
    rewrite (bind_ok _ _ _ _ _ Hget).
    destruct (remote_file_checksum_for_path final (reopen (output st))) as [local|e] eqn:Hl;
      [rewrite lift_bind|by intros [= <- <- <-]].
    case_bool_decide as Hne; intros [= <- <- <-]; [done|].
    subst local. split_and!; [done|done|]. by exists r, digest.
  - assert (Hread : on_snd (with_err TransferIo (read_exact 16)) (st, r) =
      (Err (TransferIo e), (st, r1)))
      by (unfold on_snd, with_err; cbn [snd fst]; by rewrite Hr).
    rewrite (bind_err _ _ _ _ _ Hread). by intros [= <- <- <-].
Qed.

(** ** The loops *)

Context (Hmax : expected < 2 ^ 64).

Lemma basis_block_not_empty bytes head i block :
  read_basis_block bytes head i = Ok block → block ≠ [].
Proof.
  unfold read_basis_block. destruct (block_span head i) as [[offset len]|] eqn:Hspan; [|done].
  cbn [and_then]. unfold Apply.slice_get. case_match eqn:Hin; [|done]. intros [= <-] Hnil.
  apply andb_true_iff in Hin as [_ Hin%Nat.leb_le].
  apply (f_equal length) in Hnil. rewrite length_take, length_drop in Hnil. cbn in Hnil.
  unfold block_span, validate_sum_head in Hspan.
  destruct (Nat.eqb_spec (block_len head) 0) as [Hz|Hz].
  - destruct (Nat.ltb_spec 0 (block_count head)); cbn [andb and_then] in Hspan; [done|].
    rewrite andb_false_r in Hspan. cbn [and_then] in Hspan.
    by rewrite (proj2 (Nat.leb_le _ i)) in Hspan by lia.
  - rewrite andb_false_r in Hspan. case_match; [done|]. cbn [and_then] in Hspan.
    case_match; [done|]. destruct (checked_mul_usize _ _); [|done]. injection Hspan as _ <-.
    case_match eqn:Hlast; [|lia]. apply andb_true_iff in Hlast as [_ Hrem].
    apply negb_true_iff, Nat.eqb_neq in Hrem. lia.
Qed.

(** A token that is taken takes the output further. *)
Definition further (total next : Z) (st : Receiver) : Prop := total < next ∧ at_total next st.

Lemma guarded_append_further total bytes :
  bytes ≠ [] →
  guarded (at_total total) (append_output path expected total bytes)
    (λ next st _, further total next st).
Proof.
  intros Hne st r res st' r' HP Hr. apply guarded_append in Hr; [|done].
  destruct res as [next|]; [|done]. destruct Hr as [-> Hat]. split; [|done].
  destruct bytes; [done|cbn [length]; lia].
Qed.

Lemma guarded_plain_copy token total :
  guarded (at_total total) (receive_plain_copy path expected basis token total)
    (λ next st _, further total next st).
Proof.
  unfold receive_plain_copy. destruct basis as [[bytes head]|];
    [|apply guarded_throw, at_total_within].
  eapply guarded_bind; [apply guarded_lift, at_total_within|]. intros i.
  eapply (guarded_bind _ _ _ (λ block st, block ≠ [] ∧ at_total total st)).
  { intros st r res st' r' [_ HP] Hr. pose proof (at_total_within _ _ HP).
    injection Hr as <- <- <-. case_match eqn:Hblock; [|done].
    split; [by eapply basis_block_not_empty|done]. }
  intros block st r res st' r' [Hne HP] Hr. by apply guarded_append_further in Hr.
Qed.

Lemma guarded_plain_literal token total :
  0 ≤ total → 0 < token →
  guarded (at_total total) (receive_plain_literal path expected token total)
    (λ next st _, further total next st).
Proof.
  intros Ht Htoken. unfold receive_plain_literal.
  eapply guarded_bind; [apply guarded_lift, at_total_within|].
  intros next st r res st' r' [Hnext HP] Hr. apply next_total_inv in Hnext as [-> Hle].
  apply guarded_literal in Hr; try done. destruct res; [|done]. destruct Hr as [-> Hat].
  split; [lia|done].
Qed.

Lemma further_at total next st : further total next st → at_total next st.
Proof. by intros [_ ?]. Qed.

Lemma guarded_weaken {A} P (m : St A) (Q Q' : A → Receiver → R → Prop) :
  guarded P m Q → (∀ a st r, Q a st r → Q' a st r) → guarded P m Q'.
Proof.
  intros Hm HQ st r res st' r' HP Hr. specialize (Hm _ _ _ _ _ HP Hr). destruct res; auto.
Qed.

Lemma guarded_nonnegative {A} total (m : St A) Q :
  (0 ≤ total → guarded (at_total total) m Q) → guarded (at_total total) m Q.
Proof.
  intros Hm st r res st' r' HP Hr. assert (0 ≤ total) as Ht by (destruct HP as [<- _]; lia).
  exact (Hm Ht _ _ _ _ _ HP Hr).
Qed.

Lemma guarded_plain fuel total :
  guarded (at_total total) (plain_loop reopen final path expected basis deadline fuel total) accepted.
Proof.
  revert total. induction fuel as [|fuel IH]; intros total;
    [apply guarded_throw, at_total_within|]. cbn [plain_loop].
  eapply guarded_bind; [apply guarded_deadline|]. intros [].
  eapply (guarded_bind _ _ _ (λ _, at_total total));
    [apply (guarded_read (at_total total)), at_total_within|]. intros token.
  apply guarded_nonnegative. intros Ht. destruct (Z.compare_spec token 0).
  - apply guarded_finish.
  - eapply (guarded_bind _ _ _ at_total); [|intros next; apply IH].
    eapply guarded_weaken; [apply guarded_plain_copy|]. intros next st r'. apply further_at.
  - eapply (guarded_bind _ _ _ at_total); [|intros next; apply IH].
    eapply guarded_weaken; [by apply guarded_plain_literal|]. intros next st r'. apply further_at.
Qed.

Lemma guarded_deflated_copy t i total :
  guarded (at_total total) (receive_deflated_copy path expected basis t i total)
    (λ next st _, further total next.1 st ∧ (pending t = [] → pending next.2 = [])).
Proof.
  unfold receive_deflated_copy. destruct basis as [[bytes head]|].
  - eapply (guarded_bind _ _ _ (λ block st, block ≠ [] ∧ at_total total st)).
    { intros st r res st' r' HP Hr. pose proof (at_total_within _ _ HP).
      injection Hr as <- <- <-. case_match eqn:Hblock; [|done].
      split; [by eapply basis_block_not_empty|done]. }
    intros block. eapply (guarded_bind _ _ _ (λ x st, block ≠ [] ∧ at_total total st ∧
      (pending t = [] → pending x.2 = []))).
    { intros st r res st' r' [Hne HP] Hr. unfold with_token_reader in Hr. cbn [snd fst] in Hr.
      destruct (observe_copy_data block (t, r)) as [[a|e] [t1 r1]] eqn:Ho;
        injection Hr as <- <- <-; [|by eapply at_total_within].
      split_and!; [done|done|]. intros Hp. by apply (gives_observe block (t, r) a (t1, r1) Hp Ho). }
    intros [[] t'].
    eapply (guarded_bind _ _ _ (λ next st, further total next st ∧ (pending t = [] → pending t' = []))).
    { intros st r res st' r' (Hne & HP & Hp) Hr. apply guarded_append_further in Hr; [|done|done].
      destruct res; [by split|done]. }
    intros next st r res st' r' [HP Hp] [= <- <- <-]. by split.
  - eapply guarded_bind; [apply guarded_lift, at_total_within|]. intros token.
    apply guarded_throw. intros st [_ HP]. by eapply at_total_within.
Qed.

Lemma guarded_deflated fuel t total :
  guarded (at_total total)
    (deflated_loop reopen final path expected basis deadline fuel t total) accepted.
Proof.
  revert t total. induction fuel as [|fuel IH]; intros t total;
    [apply guarded_throw, at_total_within|]. cbn [deflated_loop].
  eapply guarded_bind; [apply guarded_deadline|]. intros [].
  eapply (guarded_bind _ _ _ (λ _, at_total total));
    [apply (guarded_tokens (at_total total)), at_total_within|]. intros [[bytes|i|] t'].
  - eapply (guarded_bind _ _ _ at_total); [|intros next; apply IH].
    intros st r res st' r' HP Hr. apply guarded_append in Hr; [|done].
    destruct res; [by destruct Hr|done].
  - eapply (guarded_bind _ _ _ (λ next, at_total next.1)); [|intros [next t'']; apply IH].
    eapply guarded_weaken; [apply guarded_deflated_copy|]. intros next st r' [? _]. by eapply further_at.
  - apply guarded_finish.
Qed.

(** ** The loops end

    A token takes the output further, so what is left of the announced length bounds the
    turns: a loop with more fuel does the same. *)

Abbreviation turns_left total := (Z.to_nat (expected - total)).

Lemma plain_fuel f1 f2 total st r :
  at_total total st → (turns_left total < f1)%nat → (turns_left total < f2)%nat →
  plain_loop reopen final path expected basis deadline f1 total (st, r) =
  plain_loop reopen final path expected basis deadline f2 total (st, r).
Proof.
  revert f2 total st r. induction f1 as [|f1 IH]; intros [|f2] total st r HP H1' H2'; try lia.
  cbn [plain_loop]. apply bind_ext_ok. intros [] [st1 r1] Hd. eapply guarded_deadline in Hd; [|exact HP].
  cbn in Hd. apply bind_ext_ok. intros token [st2 r2] Htoken.
  apply (guarded_read (at_total total)) in Htoken; [|apply at_total_within|done]. cbn in Htoken.
  pose proof Htoken as [Hout _].
  destruct (Z.compare_spec token 0); [done| |];
    apply bind_ext_ok; intros next [st3 r3] Hnext.
  - apply guarded_plain_copy in Hnext; [|done]. destruct Hnext as [Hlt Hat].
    pose proof (proj2 Hat). apply IH; [done|lia..].
  - apply guarded_plain_literal in Hnext; [|lia..|done]. destruct Hnext as [Hlt Hat].
    pose proof (proj2 Hat). apply IH; [done|lia..].
Qed.

Lemma deflated_fuel f1 f2 t total st r :
  at_total total st → pending t = [] → (turns_left total < f1)%nat → (turns_left total < f2)%nat →
  deflated_loop reopen final path expected basis deadline f1 t total (st, r) =
  deflated_loop reopen final path expected basis deadline f2 t total (st, r).
Proof.
  revert f2 t total st r.
  induction f1 as [|f1 IH]; intros [|f2] t total st r HP Hp H1' H2'; try lia.
  cbn [deflated_loop]. apply bind_ext_ok. intros [] [st1 r1] Hd. eapply guarded_deadline in Hd; [|exact HP].
  cbn in Hd. apply bind_ext_ok. intros [token t'] [st2 r2] Htoken.
  assert (at_total total st2 ∧ solid token ∧ pending t' = []) as (HP2 & Hsolid & Hp').
  { unfold with_token_reader in Htoken. cbn [snd fst] in Htoken.
    destruct (next_token (t, r1)) as [[a|e] [t1 r1']] eqn:Hnext; [|done].
    injection Htoken as <- <- <- <-.
    destruct (next_token_gives (t, r1) (t1, r1') a Hp Hnext) as (? & _ & ?). done. }
  destruct token as [bytes|i|]; [| |done]; apply bind_ext_ok.
  - intros next [st3 r3] Hnext. apply guarded_append_further in Hnext; [|done|done].
    destruct Hnext as [Hlt Hat]. pose proof (proj2 Hat). apply IH; [done|done|lia..].
  - intros [next t''] [st3 r3] Hnext. apply guarded_deflated_copy in Hnext; [|done].
    destruct Hnext as [[Hlt Hat] Hpn]. pose proof (proj2 Hat). apply IH; [done|by apply Hpn|cbn in *; lia..].
Qed.
End safety.

(** ** Properties *)

(** C6. Whatever the bytes of the stream, the output of a receiver stays within the length
    that was announced, errors included; a file that is accepted has that length, and the
    checksum of its bytes is the sixteen bytes that were read last. *)
Theorem receiver_accepts_only_what_was_announced `{Clock} `{Digests} `{Zlib} `{Source F}
    `{ReadLaws R} reopen final path expected source compression limit deadline
    (st : Receiver) (r : R) res st' r' :
  0 ≤ expected < 2 ^ 64 →
  read_file_tokens_to_path_with_basis (F := F) reopen final path expected source compression limit
    deadline (st, r) = (res, (st', r')) →
  Z.of_nat (length (output st')) ≤ expected ∧
  ∀ total, res = Ok total →
    total = expected ∧ Z.of_nat (length (output st')) = expected ∧
    ∃ r0 digest, read_exact 16 r0 = (Ok digest, r') ∧
      remote_file_checksum_for_path final (reopen (output st')) = Ok digest.
Proof.
  intros He Hrun. unfold read_file_tokens_to_path_with_basis in Hrun.
  set (st0 := set_output [] st).
  assert (HP : at_total expected 0 st0) by (split; [done|lia]).
  assert (Hget : on_fst get (st, r) = (Ok (E := TransferError) st, (st, r))) by done.
  assert (Hput : on_fst (put st0) (st, r) = (Ok (E := TransferError) (), (st0, r))) by done.
  rewrite (bind_ok _ _ _ _ _ Hget), (bind_ok _ _ _ _ _ Hput) in Hrun.
  destruct (open_basis source limit) as [basis|e].
  - rewrite lift_bind in Hrun.
    assert (Hend : match res with Ok a => accepted reopen final expected a st' r'
                   | Err _ => within expected st' end).
    { destruct compression as [config|].
      - by eapply guarded_deflated in Hrun.
      - eapply guarded_plain in Hrun; [done|lia|done]. }
    destruct res as [total|e].
    + destruct Hend as (Ht & Hlen & Hdigest). split; [lia|]. by intros ? [= <-].
    + by split.
  - injection Hrun as <- <- <-. split; [cbn; lia|done].
Qed.

(** C8. The loops of the receiver end: a token takes the output further, so that the fuel
    of the definition, the length that was announced, is enough, and more of it changes
    nothing. *)
Theorem receiver_loops_end `{Clock} `{Digests} `{Zlib} `{Source F} `{ReadLaws R}
    reopen final path expected basis deadline mode n (r : R) fuel :
  0 ≤ expected < 2 ^ 64 → (S (Z.to_nat expected) ≤ fuel)%nat →
  let st := {| output := []; receiver_readings := n |} in
  plain_loop (F := F) reopen final path expected basis deadline fuel 0 (st, r) =
  plain_loop reopen final path expected basis deadline (S (Z.to_nat expected)) 0 (st, r) ∧
  deflated_loop (F := F) reopen final path expected basis deadline fuel (new_token_reader mode) 0 (st, r) =
  deflated_loop reopen final path expected basis deadline (S (Z.to_nat expected))
    (new_token_reader mode) 0 (st, r).
Proof.
  intros He Hfuel st. assert (HP : at_total expected 0 st) by (split; [done|lia]).
  split; [apply plain_fuel|apply deflated_fuel]; try done; lia.
Qed.

(** ** Runs *)

#[local] Existing Instances stored_zlib shown_digests.
#[local] Instance no_clock : Clock := λ n, Z.of_nat n.

(** A literal, the second block of the basis, the end and the checksum. *)
Definition sample_stream : list Z :=
  [1; 0; 0; 0; 7; 0xfe; 0xff; 0xff; 0xff; 0; 0; 0; 0] ++ shown [7; 3; 4].

Definition sample_head : RemoteSumHead :=
  {| block_count := 2; block_len := 2; checksum_len := 16; remainder := 0 |}.

Definition reopen_pieces (bytes : list Z) : result Pieces TransferError :=
  Ok {| left := bytes; sizes := [1%nat] |}.

Lemma receiver_accepts_only_what_was_announced_witness :
  read_file_tokens_to_path_with_basis reopen_pieces FinalPlainMd4 (lit "f") 3
    (Some (Ok [1; 2; 3; 4], sample_head)) None None None
    ({| output := []; receiver_readings := 0 |}, sample_stream) =
    (Ok 3, ({| output := [7; 3; 4]; receiver_readings := 0 |}, [])) ∧
  ∃ r0 digest, read_exact 16 r0 = (Ok digest, @nil Z) ∧
    remote_file_checksum_for_path FinalPlainMd4 (reopen_pieces [7; 3; 4]) = Ok digest.
Proof.
  assert (Hrun : read_file_tokens_to_path_with_basis reopen_pieces FinalPlainMd4 (lit "f") 3
    (Some (Ok [1; 2; 3; 4], sample_head)) None None None
    ({| output := []; receiver_readings := 0 |}, sample_stream) =
    (Ok 3, ({| output := [7; 3; 4]; receiver_readings := 0 |}, []))) by (vm_compute; reflexivity).
  split; [exact Hrun|].
  destruct (receiver_accepts_only_what_was_announced reopen_pieces FinalPlainMd4 (lit "f") 3
    (Some (Ok [1; 2; 3; 4], sample_head)) None None None _ _ _ _ _ ltac:(split; [lia|reflexivity]) Hrun)
    as [_ Hok].
  destruct (Hok 3 eq_refl) as (_ & _ & Hdigest). exact Hdigest.
Defined.

Lemma receiver_loops_end_witness :
  let st := {| output := []; receiver_readings := 0 |} in
  plain_loop reopen_pieces FinalPlainMd4 (lit "f") 3 (Some ([1; 2; 3; 4], sample_head)) None 9 0
    (st, sample_stream) =
  plain_loop reopen_pieces FinalPlainMd4 (lit "f") 3 (Some ([1; 2; 3; 4], sample_head)) None 4 0
    (st, sample_stream).
Proof.
  exact (proj1 (receiver_loops_end reopen_pieces FinalPlainMd4 (lit "f") 3
    (Some ([1; 2; 3; 4], sample_head)) None TokensZlibx 0 sample_stream 9
    ltac:(split; [lia|reflexivity]) ltac:(cbn; lia))).
Defined.
