(* ===== verification/RemoteFiles.v ===== *)
(** * The file list of a remote transfer: rsync-cli/src/remote, flist.rs, receive.rs and
      security.rs

    The order in which both sides number the entries, which of them are selected and
    requested, what a sender may claim, and what is deleted on the receiver.  The path
    of an entry is its text parsed, so that all of this is about components; the local
    file system is an instance of PortableFileSystem, and opening a local file for its
    checksum is an argument. *)

From stdpp Require Import sorting.
From S2P Require Import Prelude Stream Str Glob Filter Session FsPath Metadata FileSystem.
From S2P Require Import SyncPlan WinPath Delta Daemon TransferSums Transfer Flist.

(** An [anyhow::Error] on the way of a push or a pull. *)
Inductive RemoteError :=
| RemoteFs (e : FsError)
| RemoteList (e : FileListError)
| RemoteTransfer (e : TransferError)
| RemotePath (e : WindowsPathError).

(** An error that is a message only, or a [RemoteSessionError]. *)
Definition failed (message : string) : RemoteError := RemoteTransfer (TransferFailed message).
Definition session_error (e : RemoteSessionError) : RemoteError :=
  RemoteTransfer (TransferSession e).

(** [slice.sort_by(cmp)], which keeps the order of equals. *)
Section sort_by.
Context {A : Type} (cmp : A → A → comparison).

Fixpoint insert_by (x : A) (sorted : list A) : list A :=
  match sorted with
  | [] => [x]
  | y :: later => match cmp x y with Gt => y :: insert_by x later | _ => x :: sorted end
  end.

Definition sort_by (entries : list A) : list A := foldr insert_by [] entries.
End sort_by.

(** ** Entries and their paths *)

Section entries.
Context `{Platform}.

Definition wire_path (e : RsyncFileListEntry) : PathBuf := parse_path (chars (path e)).

Definition remote_entry_is_top_dir (e : RsyncFileListEntry) : bool :=
  bool_decide (file_type e = Directory) && bool_decide (wire_path e = [CurDir]).

(** ** The order of the sender's indexes *)

Definition normal_path_components (path : PathBuf) : list (list Z) :=
  omap (λ c, match c with Normal name => Some name | _ => None end) path.

Definition path_from_components (components : list (list Z)) : PathBuf :=
  fold_left (λ path component, path_join path (parse_path component)) components [].

(** [left.cmp(right)] for strings: the bytes of UTF-8 are in the order of characters. *)
Definition str_cmp (left right : list Z) : comparison := lex_cmp Z.compare left right.

(** The loop over the [n] components that both have, from [index] on. *)
Fixpoint components_cmp (directories : gset PathBuf) (left right : list (list Z))
    (n index : nat) : comparison :=
  match n with
  | O => (length left ?= length right)%nat
  | S n =>
      let left_component := nth index left [] in
      let right_component := nth index right [] in
      if bool_decide (left_component = right_component)
      then components_cmp directories left right n (S index)
      else
        let left_is_directory :=
          bool_decide (path_from_components (take (S index) left) ∈ directories) in
        let right_is_directory :=
          bool_decide (path_from_components (take (S index) right) ∈ directories) in
        match left_is_directory, right_is_directory with
        | false, true => Lt
        | true, false => Gt
        | _, _ => str_cmp left_component right_component
        end
  end.

Definition remote_sender_entry_cmp (directories : gset PathBuf)
    (left right : RsyncFileListEntry) : comparison :=
  if bool_decide (wire_path left = wire_path right) then Eq
  else if remote_entry_is_top_dir left then Lt
  else if remote_entry_is_top_dir right then Gt
  else
    let left_components := normal_path_components (wire_path left) in
    let right_components := normal_path_components (wire_path right) in
    components_cmp directories left_components right_components
      (Nat.min (length left_components) (length right_components)) 0.

(** The set the comparison is made with. *)
Definition directories_of (entries : list RsyncFileListEntry) : gset PathBuf :=
  list_to_set (wire_path <$> List.filter (λ e, bool_decide (file_type e = Directory)) entries).

Definition sort_remote_entries_for_sender_indexes (entries : list RsyncFileListEntry) :
    list RsyncFileListEntry :=
  sort_by (remote_sender_entry_cmp (directories_of entries)) entries.

Record RemoteSourceEntry := { wire : RsyncFileListEntry; local_path : PathBuf }.

Definition sort_remote_source_entries_for_sender_indexes (entries : list RemoteSourceEntry) :
    list RemoteSourceEntry :=
  let directories := directories_of (wire <$> entries) in
  sort_by (λ left right, remote_sender_entry_cmp directories (wire left) (wire right)) entries.

(** ** Filters along a path *)

Definition entry_kind_from_wire (t : WireFileType) : EntryKind :=
  if bool_decide (t = Directory) then DirectoryEntry else FileEntry.

Definition entry_kind_from_fs (t : FileType) : EntryKind :=
  if bool_decide (t = Metadata.Directory) then DirectoryEntry else FileEntry.

(** The loop the three filters share: whether a component on the way, or the entry
    itself, is decided by an action that [stops]. *)
Fixpoint filtered_from (rules : RuleSet) (side : RuleSide) (stops : RuleAction → bool)
    (kind : EntryKind) (current : PathBuf) (components : list Component) : bool :=
  match components with
  | [] => false
  | Normal name :: rest =>
      let current := current ++ [Normal name] in
      let kind_here := match rest with [] => kind | _ => DirectoryEntry end in
      stops (decided_action (decide_for_side rules (filter_path current) kind_here side)) ||
      filtered_from rules side stops kind current rest
  | _ :: _ => true
  end.

Definition hides_from_sender (action : RuleAction) : bool :=
  match action with Exclude | Hide => true | _ => false end.
Definition hides_from_receiver (action : RuleAction) : bool :=
  match action with Exclude | Protect => true | _ => false end.

Definition remote_source_path_is_filtered (rules : RuleSet) (relative : PathBuf)
    (t : WireFileType) : bool :=
  filtered_from rules Filter.Sender hides_from_sender (entry_kind_from_wire t) [] relative.

Definition remote_receiver_path_is_filtered (rules : RuleSet) (relative : PathBuf)
    (t : WireFileType) : bool :=
  filtered_from rules Filter.Receiver hides_from_receiver (entry_kind_from_wire t) [] relative.

Definition remote_delete_is_protected (rules : RuleSet) (relative : PathBuf) (t : FileType) :
    bool :=
  filtered_from rules Filter.Receiver hides_from_receiver (entry_kind_from_fs t) [] relative.

(** ** Selected entries *)

(** [entries.iter().enumerate()] *)
Definition enumerate {A} (entries : list A) : list (nat * A) :=
  zip (seq 0 (length entries)) entries.

Definition remote_files_from_matches (files_from : option (list PathBuf)) (relative : PathBuf) :
    bool :=
  match files_from with
  | None => true
  | Some files_from =>
      existsb (λ selected, bool_decide (relative = selected) ||
                 path_starts_with relative selected || path_starts_with selected relative)
        files_from
  end.

Definition remote_entry_is_selected (filter_rules : RuleSet) (files_from : option (list PathBuf))
    (e : RsyncFileListEntry) : bool :=
  remote_entry_is_top_dir e ||
  negb (remote_source_path_is_filtered filter_rules (wire_path e) (file_type e)) &&
  remote_files_from_matches files_from (wire_path e).

Definition selected_remote_entry_indexes (entries : list RsyncFileListEntry)
    (filter_rules : RuleSet) (files_from : option (list PathBuf)) : gset nat :=
  list_to_set (omap (λ ie, if remote_entry_is_selected filter_rules files_from ie.2
                           then Some ie.1 else None) (enumerate entries)).

Definition selected_remote_entries (entries : list RsyncFileListEntry)
    (selected_indexes : gset nat) : list RsyncFileListEntry :=
  (List.filter (λ ie, bool_decide (ie.1 ∈ selected_indexes)) (enumerate entries)).*2.

(** ** What a sender may claim: security.rs *)

Context `{Unicode}.

Definition windows_destination_path_preflight (paths : list PathBuf) :
    result unit RemoteError :=
  map_err RemotePath (preflight_destination_paths paths).

Definition destination_relatives (entries : list RsyncFileListEntry) : list PathBuf :=
  wire_path <$> List.filter (λ e, negb (remote_entry_is_top_dir e)) entries.

Definition validate_remote_file_list_paths (entries : list RsyncFileListEntry) :
    result unit RemoteError :=
  windows_destination_path_preflight (destination_relatives entries).

Definition remote_single_file_source_basename (path : list Z) : option (list Z) :=
  if ends_with path (lit "/") || ends_with path (lit "\") then None
  else
    let normalized := replace_char (ch "\") (ch "/") path in
    let basename := trim (default [] (last (split_on (ch "/") normalized))) in
    if bool_decide (basename = []) || negb (contains basename (ch ".")) then None
    else Some basename.

Definition remote_entry_matches_single_file_sources (relative : PathBuf)
    (allowed : list (list Z)) : bool :=
  match allowed with
  | [] => true
  | _ =>
      let relative := replace_char (ch "\") (ch "/") (relative_text relative) in
      existsb (λ basename, bool_decide (relative = basename) ||
                           starts_with relative (basename ++ lit "/")) allowed
  end.

(** Of a plan, what the check looks at: the paths of its operands, in a pull. *)
Record SenderTrust := {
  trust_sender : bool;
  old_args : bool;
  pull_sources : option (list (list Z));
  trust_rules : RuleSet;
}.

Definition remote_single_file_source_basenames (plan : SenderTrust) : list (list Z) :=
  match pull_sources plan with
  | None => []
  | Some operands => omap remote_single_file_source_basename operands
  end.

(** The loop of [validate_remote_sender_claims]. *)
Fixpoint validate_claims (rules : RuleSet) (allowed : list (list Z))
    (entries : list RsyncFileListEntry) : result unit RemoteError :=
  match entries with
  | [] => Ok ()
  | e :: entries =>
      if remote_entry_is_top_dir e then validate_claims rules allowed entries
      else if negb (remote_entry_matches_single_file_sources (wire_path e) allowed)
      then Err (failed "remote sender sent unrequested path `{}`; use --trust-sender to accept remote file-list names")
      else if remote_source_path_is_filtered rules (wire_path e) (file_type e) ||
              remote_receiver_path_is_filtered rules (wire_path e) (file_type e)
      then Err (failed "remote sender sent filtered path `{}`; use --trust-sender to accept remote file-list names")
      else validate_claims rules allowed entries
  end.

Definition validate_remote_sender_claims (plan : SenderTrust)
    (entries : list RsyncFileListEntry) : result unit RemoteError :=
  if trust_sender plan then Ok ()
  else
    let allowed := if old_args plan then [] else remote_single_file_source_basenames plan in
    validate_claims (trust_rules plan) allowed entries.
End entries.

(** ** What needs no transfer, and what is deleted *)

Section receiver.
Context {F : Type} `{PortableFileSystem F} `{Platform}.
Context {Fl : Type} `{Source Fl} `{Digests}.
(** [open_local_file(path)] *)
Context (open_local_file : PathBuf → result Fl TransferError).

Definition checksum_local_path (path : PathBuf) : result (list Z) RemoteError :=
  let? file := map_err RemoteTransfer (open_local_file path) in
  map_err (λ _, failed "failed to checksum {}") (rsync_plain_md4_checksum_reader file).1.

(** Whole seconds of a time that is not before 1970. *)
Definition remote_entry_mtime (e : RsyncFileListEntry) : option SystemTime :=
  if 0 <=? mtime_unix e then Some (mtime_unix e * 1000000000) else None.

Definition remote_file_needs_update (fs : F) (dest : PathBuf) (e : RsyncFileListEntry)
    (update_mode : UpdateMode) : result bool RemoteError :=
  let target := path_join dest (wire_path e) in
  match FileSystem.metadata fs target with
  | Err _ => Ok true
  | Ok target_metadata =>
      if bool_decide (Metadata.file_type target_metadata ≠ Metadata.File) then Ok true
      else
        let same_len := len e =? Metadata.len target_metadata in
        match update_mode with
        | IgnoreTimes => Ok true
        | SizeOnly => Ok (negb same_len)
        | QuickCheck =>
            Ok (negb same_len ||
                match zip_option (remote_entry_mtime e) (modified target_metadata) with
                | Some (remote_mtime, target_mtime) => negb (remote_mtime =? target_mtime)
                | None => true
                end)
        | Checksum =>
            match checksum e with
            | None => Ok true
            | Some remote_checksum =>
                let? local_checksum := checksum_local_path target in
                Ok (bool_decide (local_checksum ≠ remote_checksum))
            end
        end
  end.

(** The loop over the entries. *)
Fixpoint transfer_indexes_from (fs : F) (dest : PathBuf) (update_mode : UpdateMode)
    (selected_indexes : gset nat) (entries : list (nat * RsyncFileListEntry))
    (transfer_indexes : gset nat) : result (gset nat) RemoteError :=
  match entries with
  | [] => Ok transfer_indexes
  | (index, e) :: entries =>
      let? wanted :=
        (if negb (bool_decide (index ∈ selected_indexes)) then Ok false
         else if bool_decide (file_type e ≠ File) then Ok true
         else remote_file_needs_update fs dest e update_mode) in
      transfer_indexes_from fs dest update_mode selected_indexes entries
        (if (wanted : bool) then {[index]} ∪ transfer_indexes else transfer_indexes)
  end.

Definition selected_remote_transfer_indexes (fs : F) (dest : PathBuf)
    (entries : list RsyncFileListEntry) (selected_indexes : gset nat)
    (update_mode : UpdateMode) : result (gset nat) RemoteError :=
  transfer_indexes_from fs dest update_mode selected_indexes (enumerate entries) ∅.

(** The state of a receiver: the file system and the actions it reports. *)
Definition Receiving A : Type := M (F * list SyncAction) RemoteError A.

Definition report_action (action : SyncAction) : Receiving unit :=
  λ s, (Ok tt, (s.1, s.2 ++ [action])).

(** A call of the file system. *)
Definition on_fs {A} (m : M F FsError A) : Receiving A := on_fst (with_err RemoteFs m).

(** ** Deletion of what the sender does not have *)

(** Deeper entries first, and of those the later ones. *)
Definition extra_cmp (left right : WalkEntry) : comparison :=
  match (length (entry_path right) ?= length (entry_path left))%nat with
  | Eq => path_cmp (entry_path right) (entry_path left)
  | o => o
  end.

(** [path.strip_prefix(base)] *)
Definition path_strip_prefix (path base : PathBuf) : option PathBuf :=
  if path_starts_with path base then Some (drop (length base) path) else None.

(** One turn of the loop. *)
Definition delete_extra (dest : PathBuf) (keep : gset PathBuf) (filter_rules : RuleSet)
    (files_from : option (list PathBuf)) (dry_run : bool) (entry : WalkEntry) :
    Receiving unit :=
  relative ← lift (ok_or (path_strip_prefix (entry_path entry) dest)
                     (failed "destination entry escaped root: {}"));
  let t := Metadata.file_type (entry_metadata entry) in
  if negb (remote_files_from_matches files_from relative) ||
     remote_delete_is_protected filter_rules relative t
  then report_action (ProtectDelete (entry_path entry))
  else if bool_decide (relative ∈ keep) then mret tt
  else if bool_decide (t = Metadata.Directory) then
    report_action (DeleteDir (entry_path entry));;
    if dry_run then mret tt else on_fs (remove_dir_all (entry_path entry))
  else
    report_action (DeleteFile (entry_path entry));;
    if dry_run then mret tt else on_fs (remove_file (entry_path entry)).

(** The fuel bounds the depth of the walk. *)
Definition delete_local_extras (fuel : nat) (dest : PathBuf) (entries : list RsyncFileListEntry)
    (filter_rules : RuleSet) (files_from : option (list PathBuf)) (dry_run : bool) :
    Receiving unit :=
  s ← get;
  if negb (path_exists s.1 dest) then mret tt
  else
    let keep : gset PathBuf := list_to_set (destination_relatives entries) in
    existing ← lift (map_err RemoteFs (walk_tree fuel s.1 dest));
    for_each (delete_extra dest keep filter_rules files_from dry_run)
      (sort_by extra_cmp existing).
End receiver.

(** ** Indexes on the wire *)

Definition checked_file_index (index : Z) (file_count : nat) : result nat RemoteError :=
  if (index <? 0) || (Z.of_nat file_count <=? index)
  then Err (session_error (InvalidFileIndex index (Z.of_nat file_count)))
  else Ok (Z.to_nat index).

Definition checked_remote_file_index (index : Z) (file_count : nat) (offset : Z) :
    result nat RemoteError :=
  let? local_index := ok_or (checked_i32 (index - offset))
    (session_error (InvalidFileIndex index (Z.of_nat file_count))) in
  checked_file_index local_index file_count.

Definition remote_file_index_offset (entries : list RsyncFileListEntry) : Z := 0.

Definition remote_wire_index (index : nat) (offset : Z) : result Z RemoteError :=
  let? index := ok_or (checked_i32 (Z.of_nat index))
    (failed "remote file list index exceeded i32 range") in
  ok_or (checked_i32 (index + offset)) (failed "remote file list index overflow").
