(* ===== verification/RemoteOrder.v ===== *)
(** * The order of the sender's indexes

    Both ends of a transfer sort the file list, so that an index means the same entry to
    each of them.  The comparison is that of a list of keys, one for each component: its
    name, and whether the path up to it is a directory of the list. *)

From stdpp Require Import sorting.
From S2P Require Import Prelude Stream Str FsPath WinPath Flist FlistFacts Flist27 Flist31.
From S2P Require Import Flist31Facts FlistTheorems RemoteFiles.

(** ** Sorting by a comparison *)

Section sort_facts.
Context {A : Type} (cmp : A → A → comparison).

Lemma insert_by_perm x l : insert_by cmp x l ≡ₚ x :: l.
Proof.
  induction l as [|y l IH]; cbn; [done|]. destruct (cmp x y); try done.
  rewrite IH. constructor.
Qed.

Lemma sort_by_cons x l : sort_by cmp (x :: l) = insert_by cmp x (sort_by cmp l).
Proof. reflexivity. Qed.

Lemma sort_by_perm l : sort_by cmp l ≡ₚ l.
Proof. induction l as [|x l IH]; [done|]. by rewrite sort_by_cons, insert_by_perm, IH. Qed.

Definition not_after (x y : A) : Prop := cmp x y ≠ Gt.

(** It is enough that the comparison is a total preorder on the entries there are. *)
Lemma sort_by_sorted l :
  (∀ x y, x ∈ l → y ∈ l → cmp x y = Gt → not_after y x) →
  (∀ x y z, x ∈ l → y ∈ l → z ∈ l → not_after x y → not_after y z → not_after x z) →
  StronglySorted not_after (sort_by cmp l).
Proof.
  induction l as [|x l IH]; intros Htotal Htrans; [constructor|]. rewrite sort_by_cons.
  assert (Hs : StronglySorted not_after (sort_by cmp l)).
  { apply IH; [intros a b Ha Hb; apply Htotal|intros a b c Ha Hb Hc; apply Htrans];
      by apply list_elem_of_further. }
  assert (Hin : ∀ y, y ∈ sort_by cmp l → y ∈ x :: l).
  { intros y. rewrite sort_by_perm. apply list_elem_of_further. }
  clear IH. induction Hs as [|y sorted Hs IHs Hy]; cbn; [by repeat constructor|].
  assert (Hy' : y ∈ x :: l) by (apply Hin, list_elem_of_here).
  assert (Hx : x ∈ x :: l) by apply list_elem_of_here.
  assert (Hrest : ∀ z, z ∈ sorted → z ∈ x :: l) by (intros z Hz; apply Hin; by right).
  rewrite Forall_forall in Hy. destruct (cmp x y) eqn:Hxy.
  1,2: constructor; [by constructor; [|apply Forall_forall]|];
       apply Forall_forall; intros z [->|Hz]%elem_of_cons;
       [unfold not_after; congruence|eapply (Htrans x y z); auto; unfold not_after; congruence].
  constructor; [by apply IHs|]. apply Forall_forall. intros z.
  rewrite insert_by_perm, elem_of_cons. intros [->|Hz]; [by apply Htotal|by apply Hy].
Qed.

(** A list that is sorted stays as it is. *)
Lemma sort_by_id l : StronglySorted not_after l → sort_by cmp l = l.
Proof.
  induction 1 as [|x l Hl IH Hx]; [done|]. rewrite sort_by_cons, IH.
  destruct Hx as [|y l Hxy Hx]; cbn; [done|]. unfold not_after in Hxy. by destruct (cmp x y).
Qed.
End sort_facts.

(** Lists whose entries correspond are sorted alike. *)
Lemma sort_by_related {A B} (P : A → B → Prop) (cmp : A → A → comparison)
    (cmp' : B → B → comparison) l l' :
  (∀ x y x' y', P x x' → P y y' → cmp x y = cmp' x' y') →
  Forall2 P l l' → Forall2 P (sort_by cmp l) (sort_by cmp' l').
Proof.
  intros Hcmp. assert (Hins : ∀ x x' s s', P x x' → Forall2 P s s' →
    Forall2 P (insert_by cmp x s) (insert_by cmp' x' s')).
  { intros x x' s s' Hx. induction 1 as [|y y' s s' Hy Hs IH]; cbn; [by repeat constructor|].
    rewrite (Hcmp x y x' y') by done.
    destruct (cmp' x' y'); repeat (first [done|constructor]). }
  induction 1 as [|x x' l l' Hx Hl IH]; [constructor|]. rewrite !sort_by_cons. by apply Hins.
Qed.

(** ** The comparison of keys *)

Definition key : Type := bool * list Z.

Definition key_cmp (k1 k2 : key) : comparison :=
  match k1.1, k2.1 with
  | false, true => Lt
  | true, false => Gt
  | _, _ => str_cmp k1.2 k2.2
  end.

Lemma str_cmp_eq s t : str_cmp s t = Eq ↔ s = t.
Proof. apply lex_cmp_eq, Z.compare_eq_iff. Qed.

Lemma str_cmp_opp s t : str_cmp t s = CompOpp (str_cmp s t).
Proof. apply lex_cmp_opp. intros x y. apply Z.compare_antisym. Qed.

Lemma str_cmp_trans s t u : str_cmp s t = Lt → str_cmp t u = Lt → str_cmp s u = Lt.
Proof.
  apply lex_cmp_trans; [apply Z.compare_eq_iff|].
  intros x y z. rewrite !Z.compare_lt_iff. lia.
Qed.

Lemma key_cmp_eq k1 k2 : key_cmp k1 k2 = Eq ↔ k1 = k2.
Proof.
  destruct k1 as [[] s], k2 as [[] t]; cbn; rewrite ?str_cmp_eq; naive_solver.
Qed.

Lemma key_cmp_opp k1 k2 : key_cmp k2 k1 = CompOpp (key_cmp k1 k2).
Proof. destruct k1 as [[] s], k2 as [[] t]; cbn; auto using str_cmp_opp. Qed.

Lemma key_cmp_trans k1 k2 k3 : key_cmp k1 k2 = Lt → key_cmp k2 k3 = Lt → key_cmp k1 k3 = Lt.
Proof.
  destruct k1 as [[] s], k2 as [[] t], k3 as [[] u]; cbn; try done; apply str_cmp_trans.
Qed.

Definition keys_cmp : list key → list key → comparison := lex_cmp key_cmp.

Lemma keys_cmp_eq ks ls : keys_cmp ks ls = Eq ↔ ks = ls.
Proof. apply lex_cmp_eq, key_cmp_eq. Qed.
Lemma keys_cmp_opp ks ls : keys_cmp ls ks = CompOpp (keys_cmp ks ls).
Proof. apply lex_cmp_opp, key_cmp_opp. Qed.
Lemma keys_cmp_trans ks ls ms : keys_cmp ks ls = Lt → keys_cmp ls ms = Lt → keys_cmp ks ms = Lt.
Proof. apply lex_cmp_trans; [apply key_cmp_eq|apply key_cmp_trans]. Qed.

Lemma keys_not_gt_trans ks ls ms :
  keys_cmp ks ls ≠ Gt → keys_cmp ls ms ≠ Gt → keys_cmp ks ms ≠ Gt.
Proof.
  destruct (keys_cmp ks ls) eqn:E1, (keys_cmp ls ms) eqn:E2; try done; intros _ _.
  - apply keys_cmp_eq in E1 as ->. by rewrite E2.
  - apply keys_cmp_eq in E1 as ->. by rewrite E2.
  - apply keys_cmp_eq in E2 as <-. by rewrite E1.
  - by rewrite (keys_cmp_trans _ _ _ E1 E2).
Qed.

(** What lies between two lists with a common prefix has the prefix. *)
Lemma keys_between prefix ks ls ms :
  keys_cmp (prefix ++ ks) ls ≠ Gt → keys_cmp ls (prefix ++ ms) ≠ Gt → ∃ rest, ls = prefix ++ rest.
Proof.
  revert ls. induction prefix as [|k prefix IH]; intros ls; [by exists ls|].
  destruct ls as [|l ls]; cbn; [done|].
  destruct (key_cmp k l) eqn:E; cbn; [| |done].
  - apply key_cmp_eq in E as ->. rewrite (proj2 (key_cmp_eq l l) eq_refl).
    intros H1 H2. destruct (IH ls H1 H2) as [rest ->]. by exists rest.
  - rewrite key_cmp_opp, E. done.
Qed.

(** ** The comparison of entries *)

Section order.
Context `{Platform}.
Implicit Types (directories : gset PathBuf) (e : RsyncFileListEntry).

(** The keys of the components after [prefix]. *)
Fixpoint keys_from directories (prefix components : list (list Z)) : list key :=
  match components with
  | [] => []
  | name :: components =>
      (bool_decide (path_from_components (prefix ++ [name]) ∈ directories), name) ::
      keys_from directories (prefix ++ [name]) components
  end.

Definition keys_of directories (path : PathBuf) : list key :=
  keys_from directories [] (normal_path_components path).

Lemma keys_from_app directories prefix l1 l2 :
  keys_from directories prefix (l1 ++ l2) =
  keys_from directories prefix l1 ++ keys_from directories (prefix ++ l1) l2.
Proof.
  revert prefix. induction l1 as [|name l1 IH]; intros prefix; cbn; [by rewrite app_nil_r|].
  by rewrite IH, <-app_assoc.
Qed.

Lemma keys_from_names directories prefix l : (keys_from directories prefix l).*2 = l.
Proof. revert prefix. induction l as [|name l IH]; intros prefix; cbn; [done|]. by rewrite IH. Qed.

Lemma components_cmp_keys directories prefix l r :
  components_cmp directories (prefix ++ l) (prefix ++ r)
    (Nat.min (length l) (length r)) (length prefix) =
  keys_cmp (keys_from directories prefix l) (keys_from directories prefix r).
Proof.
  revert prefix r. induction l as [|a l IH]; intros prefix [|b r]; cbn [length Nat.min components_cmp].
  - by rewrite Nat.compare_refl.
  - rewrite !length_app. cbn. apply Nat.compare_lt_iff. lia.
  - rewrite !length_app. cbn. apply Nat.compare_gt_iff. lia.
  - rewrite !app_nth2, !Nat.sub_diag by lia. cbn [nth].
    rewrite !firstn_app, !firstn_all2 by lia. replace (S (length prefix) - length prefix)%nat with 1%nat by lia.
    cbn [firstn keys_from]. unfold keys_cmp. cbn [lex_cmp].
    case_bool_decide as Hab.
    + subst b. rewrite (proj2 (key_cmp_eq _ _) eq_refl).
      specialize (IH (prefix ++ [a]) r). rewrite !length_app, <-!app_assoc in IH. cbn in IH.
      rewrite Nat.add_1_r in IH. exact IH.
    + unfold key_cmp. cbn [fst snd].
      assert (Hne : str_cmp a b ≠ Eq) by (by rewrite str_cmp_eq).
      destruct (bool_decide (_ ∈ directories)), (bool_decide (_ ∈ directories)); try done;
        by destruct (str_cmp a b).
Qed.

(** The paths of a list that passes the checks: the top directory, or names that Windows
    can hold. *)
Definition listed_path (p : PathBuf) : Prop :=
  p = [CurDir] ∨ p ≠ [] ∧ Forall (λ c, ∃ name, c = Normal name ∧ windows_name name) p.

Lemma listed_cases p :
  listed_path p → p = [CurDir] ∨ ∃ names, names ≠ [] ∧ Forall windows_name names ∧ p = Normal <$> names.
Proof.
  intros [->|[Hne Hp]]; [by left|right].
  assert (Hn : ∃ names, Forall windows_name names ∧ p = Normal <$> names).
  { clear Hne. induction Hp as [|c p (name & -> & Hname) _ (names & Hn & ->)].
    - by exists [].
    - exists (name :: names). by split; [constructor|]. }
  destruct Hn as (names & Hn & ->). exists names. split_and!; [|done|done].
  by intros ->.
Qed.

Lemma components_of_names names : normal_path_components (Normal <$> names) = names.
Proof. induction names as [|name names IH]; [done|]. cbn. f_equal. exact IH. Qed.

Lemma listed_components_inj p q :
  listed_path p → listed_path q → normal_path_components p = normal_path_components q → p = q.
Proof.
  intros [->|(ns & Hns & _ & ->)]%listed_cases [->|(ms & Hms & _ & ->)]%listed_cases;
    rewrite ?components_of_names; cbn; naive_solver.
Qed.

Lemma path_from_names names :
  Forall windows_name names → path_from_components names = Normal <$> names.
Proof.
  intros Hn. unfold path_from_components.
  assert (Hgen : ∀ p, portable p → fold_left (λ path component, path_join path (parse_path component)) names p =
            p ++ (Normal <$> names)).
  { induction Hn as [|name names Hname _ IH]; intros p Hp; cbn; [by rewrite app_nil_r|].
    rewrite windows_name_plain by done. rewrite path_join_portable by (by repeat constructor).
    rewrite IH by by apply portable_snoc. by rewrite <-app_assoc. }
  apply Hgen. constructor.
Qed.

(** On such paths the comparison of entries is that of the keys. *)
Lemma sender_cmp_keys directories e1 e2 :
  listed_path (wire_path e1) → listed_path (wire_path e2) →
  remote_sender_entry_cmp directories e1 e2 =
  keys_cmp (keys_of directories (wire_path e1)) (keys_of directories (wire_path e2)).
Proof.
  intros H1 H2. unfold remote_sender_entry_cmp. case_bool_decide as Heq.
  { rewrite Heq. symmetry. by apply keys_cmp_eq. }
  assert (Htop : ∀ e, remote_entry_is_top_dir e = true → wire_path e = [CurDir]).
  { intros e. unfold remote_entry_is_top_dir. rewrite andb_true_iff, !bool_decide_eq_true. by intros [_ ?]. }
  destruct (remote_entry_is_top_dir e1) eqn:Ht1.
  { rewrite (Htop e1 Ht1). apply listed_cases in H2 as [Hp|(ns & Hns & _ & ->)].
    - rewrite (Htop e1 Ht1) in Heq. by rewrite Hp in Heq.
    - unfold keys_of. rewrite components_of_names. by destruct ns. }
  destruct (remote_entry_is_top_dir e2) eqn:Ht2.
  { rewrite (Htop e2 Ht2). apply listed_cases in H1 as [Hp|(ns & Hns & _ & ->)].
    - rewrite (Htop e2 Ht2) in Heq. by rewrite Hp in Heq.
    - unfold keys_of. rewrite components_of_names. by destruct ns. }
  apply (components_cmp_keys directories []).
Qed.

Lemma keys_of_inj directories p q :
  listed_path p → listed_path q → keys_of directories p = keys_of directories q → p = q.
Proof.
  intros Hp Hq Heq. apply listed_components_inj; [done..|].
  apply (f_equal (fmap snd)) in Heq. unfold keys_of in Heq. by rewrite !keys_from_names in Heq.
Qed.

(** ** A sorted list *)

(** The paths of [entries] are listed ones. *)
Definition listed (entries : list RsyncFileListEntry) : Prop :=
  Forall (λ e, listed_path (wire_path e)) entries.

Lemma listed_sorted entries :
  listed entries →
  StronglySorted (not_after (remote_sender_entry_cmp (directories_of entries)))
    (sort_remote_entries_for_sender_indexes entries).
Proof.
  intros Hl. unfold listed in Hl. rewrite Forall_forall in Hl.
  apply sort_by_sorted; unfold not_after.
  - intros x y Hx Hy. rewrite !sender_cmp_keys by auto.
    rewrite (keys_cmp_opp (keys_of _ (wire_path x)) (keys_of _ (wire_path y))).
    by destruct (keys_cmp _ _).
  - intros x y z Hx Hy Hz. rewrite !sender_cmp_keys by auto. apply keys_not_gt_trans.
Qed.

Lemma directories_perm l1 l2 : l1 ≡ₚ l2 → directories_of l1 = directories_of l2.
Proof.
  intros Hp. unfold directories_of. apply list_to_set_perm_L.
  apply fmap_Permutation. induction Hp; cbn; repeat case_match; by try constructor; try etrans.
Qed.

(** Entries with the same path do not come twice. *)
Definition distinct_paths (entries : list RsyncFileListEntry) : Prop := NoDup (wire_path <$> entries).

Lemma distinct_inj entries e1 e2 :
  distinct_paths entries → e1 ∈ entries → e2 ∈ entries → wire_path e1 = wire_path e2 → e1 = e2.
Proof.
  intros Hd [i Hi]%list_elem_of_lookup [j Hj]%list_elem_of_lookup Heq.
  assert (i = j) as ->; [|congruence].
  apply (NoDup_lookup (wire_path <$> entries) i j (wire_path e1)); [exact Hd| |].
  - by rewrite list_lookup_fmap, Hi.
  - by rewrite list_lookup_fmap, Hj, Heq.
Qed.

Lemma sort_canonical l1 l2 :
  listed l1 → distinct_paths l1 → l1 ≡ₚ l2 →
  sort_remote_entries_for_sender_indexes l1 = sort_remote_entries_for_sender_indexes l2.
Proof.
  intros Hl Hd Hp.
  assert (Hl2 : listed l2) by (unfold listed; by rewrite <-Hp).
  apply (StronglySorted_unique_strong (not_after (remote_sender_entry_cmp (directories_of l1)))).
  - intros x y. unfold sort_remote_entries_for_sender_indexes. rewrite !sort_by_perm, <-Hp.
    intros Hx Hy. unfold listed in Hl. rewrite Forall_forall in Hl. unfold not_after.
    rewrite !sender_cmp_keys by auto.
    rewrite (keys_cmp_opp (keys_of _ (wire_path x)) (keys_of _ (wire_path y))).
    destruct (keys_cmp _ _) eqn:E; cbn; [|done|done]. intros _ _.
    apply keys_cmp_eq, keys_of_inj in E; [|by auto..]. by eapply distinct_inj.
  - by apply listed_sorted.
  - rewrite (directories_perm l1 l2) by done. by apply listed_sorted.
  - unfold sort_remote_entries_for_sender_indexes. by rewrite !sort_by_perm.
Qed.
End order.

(** ** What the checks of a pull make sure of *)

Section accepted.
Context `{Platform} `{Unicode}.

Lemma top_dir_path e : remote_entry_is_top_dir e = true → wire_path e = [CurDir].
Proof.
  unfold remote_entry_is_top_dir. rewrite andb_true_iff, !bool_decide_eq_true. by intros [_ ?].
Qed.

Lemma validated entries :
  validate_remote_file_list_paths entries = Ok () →
  Forall (λ p, p ≠ [] ∧ Forall (λ c, ∃ name, c = Normal name ∧ windows_name name) p)
    (destination_relatives entries) ∧
  NoDup (collision_key <$> destination_relatives entries).
Proof.
  unfold validate_remote_file_list_paths, windows_destination_path_preflight.
  destruct (preflight_destination_paths _) as [[]|] eqn:Hp; [|done]. intros _.
  unfold preflight_destination_paths in Hp. apply preflight_from_ok in Hp as [Hall Hdup].
  split; [|done]. eapply Forall_impl; [exact Hall|]. intros p [Hok _]. by apply validate_path_ok.
Qed.

Lemma destination_relative entries e :
  e ∈ entries → remote_entry_is_top_dir e = false → wire_path e ∈ destination_relatives entries.
Proof.
  intros He Htop. apply list_elem_of_fmap. exists e. split; [done|].
  apply list_elem_of_In, filter_In. rewrite Htop. split; [by apply list_elem_of_In|done].
Qed.

Lemma validated_listed entries :
  validate_remote_file_list_paths entries = Ok () → listed entries.
Proof.
  intros [Hall _]%validated. apply Forall_forall. intros e He.
  destruct (remote_entry_is_top_dir e) eqn:Htop; [left; by apply top_dir_path|right].
  rewrite Forall_forall in Hall. apply Hall. by apply destination_relative.
Qed.

(** The top directory comes once at most. *)
Definition one_top_dir (entries : list RsyncFileListEntry) : Prop :=
  (length (List.filter remote_entry_is_top_dir entries) ≤ 1)%nat.

Lemma relatives_distinct entries :
  Forall (λ p, p ≠ [] ∧ Forall (λ c, ∃ name, c = Normal name ∧ windows_name name) p)
    (destination_relatives entries) →
  NoDup (collision_key <$> destination_relatives entries) → one_top_dir entries →
  distinct_paths entries.
Proof.
  unfold one_top_dir, distinct_paths, destination_relatives.
  induction entries as [|e entries IH]; [by constructor|]. cbn [List.filter].
  assert (Hdot : ∀ p : PathBuf, p = [CurDir] →
    ¬ Forall (λ c, ∃ name, c = Normal name ∧ windows_name name) p).
  { intros p -> (name & [=] & _)%Forall_inv. }
  destruct (remote_entry_is_top_dir e) eqn:Htop; cbn [negb]; rewrite !fmap_cons.
  - intros Hall Hdup Hone. cbn in Hone.
    assert (Hnone : List.filter remote_entry_is_top_dir entries = [])
      by (destruct (List.filter remote_entry_is_top_dir entries); [done|cbn in Hone; lia]).
    constructor; [|apply IH; [done|done|rewrite Hnone; cbn; lia]].
    intros (e' & Hp & He')%list_elem_of_fmap. rewrite (top_dir_path e Htop) in Hp.
    destruct (remote_entry_is_top_dir e') eqn:Htop'.
    + assert (Hin : e' ∈ List.filter remote_entry_is_top_dir entries)
        by (apply list_elem_of_In, filter_In; split; [by apply list_elem_of_In|done]).
      rewrite Hnone in Hin. by apply elem_of_nil in Hin.
    + rewrite Forall_forall in Hall.
      destruct (Hall (wire_path e')) as [_ Hn]; [by apply (destination_relative entries)|].
      by apply (Hdot (wire_path e')).
  - rewrite Forall_cons, NoDup_cons. intros [[_ Hhead] Hall] [Hnew Hdup] Hone.
    constructor; [|by apply IH].
    intros (e' & Hp & He')%list_elem_of_fmap.
    destruct (remote_entry_is_top_dir e') eqn:Htop'.
    + apply (Hdot (wire_path e)); [|done]. rewrite Hp. by apply top_dir_path.
    + apply Hnew. rewrite Hp. apply list_elem_of_fmap. exists (wire_path e'). split; [done|].
      by apply (destination_relative entries).
Qed.

Lemma validated_distinct entries :
  validate_remote_file_list_paths entries = Ok () → one_top_dir entries → distinct_paths entries.
Proof. intros [Hall Hdup]%validated. by apply relatives_distinct. Qed.

(** ** Properties *)

(** A list that passes the check of its paths, with one top directory at most, is
    sorted into the same order in whatever order it arrives: which entry an index means
    does not depend on the walk or the batches that sent it. *)
Theorem sender_indexes_are_canonical l1 l2 :
  validate_remote_file_list_paths l1 = Ok () → one_top_dir l1 → l1 ≡ₚ l2 →
  sort_remote_entries_for_sender_indexes l1 = sort_remote_entries_for_sender_indexes l2.
Proof.
  intros Hv Hone Hp. apply sort_canonical; [by apply validated_listed| |done].
  by apply validated_distinct.
Qed.

(** The keys of a path begin with those of a directory it is in. *)
Lemma keys_below directories p q :
  keys_of directories (p ++ q) =
  keys_of directories p ++ keys_from directories (normal_path_components p) (normal_path_components q).
Proof.
  unfold keys_of, normal_path_components. rewrite omap_app. apply keys_from_app.
Qed.

Lemma sorted_lookup {A} (R : A → A → Prop) l i j x y :
  StronglySorted R l → l !! i = Some x → l !! j = Some y → (i < j)%nat → R x y.
Proof.
  intros Hs. revert i j. induction Hs as [|z l Hs IH Hz]; intros i j; [done|].
  destruct i as [|i], j as [|j]; cbn; [lia| |lia|].
  - intros [= <-] Hj _. rewrite Forall_forall in Hz. by apply Hz, list_elem_of_lookup_2 with j.
  - intros Hi Hj Hlt. apply (IH i j); [done..|lia].
Qed.

Lemma sorted_listed l i e :
  listed l → sort_remote_entries_for_sender_indexes l !! i = Some e → listed_path (wire_path e).
Proof.
  unfold listed. rewrite Forall_forall. intros Hl He%list_elem_of_lookup_2.
  apply Hl. by rewrite <-(sort_by_perm (remote_sender_entry_cmp (directories_of l))).
Qed.

(** The order of two positions is that of the keys. *)
Lemma sorted_keys l i j e1 e2 :
  listed l → sort_remote_entries_for_sender_indexes l !! i = Some e1 →
  sort_remote_entries_for_sender_indexes l !! j = Some e2 → (i < j)%nat →
  keys_cmp (keys_of (directories_of l) (wire_path e1)) (keys_of (directories_of l) (wire_path e2)) ≠ Gt.
Proof.
  intros Hl Hi Hj Hlt. rewrite <-sender_cmp_keys by by eapply sorted_listed.
  exact (sorted_lookup _ _ _ _ _ _ (listed_sorted l Hl) Hi Hj Hlt).
Qed.

Lemma sorted_index_lt l i j e1 e2 :
  listed l → sort_remote_entries_for_sender_indexes l !! i = Some e1 →
  sort_remote_entries_for_sender_indexes l !! j = Some e2 →
  keys_cmp (keys_of (directories_of l) (wire_path e1)) (keys_of (directories_of l) (wire_path e2)) = Lt →
  (i < j)%nat.
Proof.
  intros Hl Hi Hj Hlt. destruct (Nat.lt_trichotomy i j) as [|[->|Hji]]; [done| |].
  - rewrite Hi in Hj. injection Hj as ->. by rewrite (proj2 (keys_cmp_eq _ _) eq_refl) in Hlt.
  - pose proof (sorted_keys l j i e2 e1 Hl Hj Hi Hji) as Hno.
    by rewrite keys_cmp_opp, Hlt in Hno.
Qed.

Lemma keys_cmp_app ks ls ms : keys_cmp (ks ++ ls) (ks ++ ms) = keys_cmp ls ms.
Proof.
  induction ks as [|k ks IH]; [done|]. unfold keys_cmp in *. cbn.
  by rewrite (proj2 (key_cmp_eq k k) eq_refl).
Qed.

Lemma validated_entry l e :
  validate_remote_file_list_paths l = Ok () → e ∈ l → remote_entry_is_top_dir e = false →
  ∃ names, names ≠ [] ∧ Forall windows_name names ∧ wire_path e = Normal <$> names.
Proof.
  intros [Hall _]%validated He Htop. rewrite Forall_forall in Hall.
  pose proof (Hall _ (destination_relative l e He Htop)) as Hp.
  destruct (listed_cases (wire_path e) (or_intror Hp)) as [Hdot|Hnames]; [|done].
  rewrite Hdot in Hp. by destruct Hp as [_ (name & [=] & _)%Forall_inv].
Qed.

(** The key of the last component tells whether the path is a directory of the list. *)
Lemma last_key directories names name :
  Forall windows_name (names ++ [name]) →
  keys_from directories names [name] =
  [(bool_decide (Normal <$> (names ++ [name]) ∈ directories), name)].
Proof. intros Hn. cbn [keys_from]. by rewrite path_from_names. Qed.

Lemma elem_of_directories l e :
  e ∈ l → file_type e = Directory → wire_path e ∈ directories_of l.
Proof.
  intros He Ht. unfold directories_of. rewrite elem_of_list_to_set. apply list_elem_of_fmap.
  exists e. split; [done|]. apply list_elem_of_In, filter_In.
  rewrite bool_decide_true by done. split; [by apply list_elem_of_In|done].
Qed.

(** A list that passes the check of its paths is sorted like a walk of the tree: the
    same entries, the top directory before all others, every entry before what is below
    its path, the entries below a path next to each other, and in a directory whatever
    is no directory before the directories. *)
Theorem sender_order_is_a_walk l :
  validate_remote_file_list_paths l = Ok () →
  let sorted := sort_remote_entries_for_sender_indexes l in
  sorted ≡ₚ l ∧
  (∀ i j top e, sorted !! i = Some top → sorted !! j = Some e →
     remote_entry_is_top_dir top = true → remote_entry_is_top_dir e = false → (i < j)%nat) ∧
  (∀ i j d e name q, sorted !! i = Some d → sorted !! j = Some e →
     wire_path e = wire_path d ++ Normal name :: q → (i < j)%nat) ∧
  (∀ i j k first e last names q1 q2, (i < j < k)%nat →
     sorted !! i = Some first → sorted !! j = Some e → sorted !! k = Some last →
     wire_path first = (Normal <$> names) ++ q1 → wire_path last = (Normal <$> names) ++ q2 →
     ∃ q, wire_path e = (Normal <$> names) ++ q) ∧
  (∀ i j e d p a b, sorted !! i = Some e → sorted !! j = Some d →
     wire_path e = p ++ [Normal a] → wire_path d = p ++ [Normal b] →
     file_type d = Directory → wire_path e ∉ directories_of l → (i < j)%nat).
Proof.
  intros Hv sorted. pose proof (validated_listed l Hv) as Hl.
  assert (Hin : ∀ i e, sorted !! i = Some e → e ∈ l).
  { intros i e He%list_elem_of_lookup_2. unfold sorted, sort_remote_entries_for_sender_indexes in He.
    by rewrite sort_by_perm in He. }
  split_and!.
  - apply sort_by_perm.
  - intros i j top e Hi Hj Htop He. apply (sorted_index_lt l i j top e Hl Hi Hj).
    destruct (validated_entry l e Hv (Hin _ _ Hj) He) as (ns & Hns & _ & ->).
    rewrite (top_dir_path top Htop). unfold keys_of. rewrite components_of_names. by destruct ns.
  - intros i j d e name q Hi Hj Hp. apply (sorted_index_lt l i j d e Hl Hi Hj).
    rewrite Hp, keys_below. apply lex_cmp_prefix, key_cmp_eq.
  - intros i j k first e last names q1 q2 [Hij Hjk] Hi Hj Hk Hp1 Hp2.
    pose proof (sorted_keys l i j _ _ Hl Hi Hj Hij) as H1.
    pose proof (sorted_keys l j k _ _ Hl Hj Hk Hjk) as H2.
    rewrite Hp1, keys_below in H1. rewrite Hp2, keys_below in H2.
    destruct (keys_between _ _ _ _ H1 H2) as [rest Hrest].
    apply (f_equal (fmap snd)) in Hrest. rewrite fmap_app in Hrest. unfold keys_of in Hrest.
    rewrite !keys_from_names, components_of_names in Hrest.
    destruct (listed_cases _ (sorted_listed l j e Hl Hj)) as [Hp|(ns & Hns & _ & Hp)]; rewrite Hp in *.
    + cbn in Hrest. destruct names; [by exists [CurDir]|done].
    + rewrite components_of_names in Hrest. subst ns. rewrite fmap_app. eauto.
  - intros i j e d p a b Hi Hj Hpe Hpd Hd Hnot. apply (sorted_index_lt l i j e d Hl Hi Hj).
    assert (Hnames : ∀ (e' : RsyncFileListEntry) k c, sorted !! k = Some e' →
      wire_path e' = p ++ [Normal c] →
      ∃ ns, p = Normal <$> ns ∧ Forall windows_name (ns ++ [c])).
    { intros e' k c Hk Hp. destruct (listed_cases _ (sorted_listed l k e' Hl Hk))
        as [Hdot|(ns & _ & Hns & Heq)]; rewrite Hp in *.
      - by destruct p as [|? []].
      - destruct ns as [|last ns _] using rev_ind; [by destruct p|].
        rewrite fmap_app in Heq. apply app_inj_tail in Heq as [-> [= ->]]. eauto. }
    destruct (Hnames e i a Hi Hpe) as (ns & -> & Ha). destruct (Hnames d j b Hj Hpd) as (ms & Heq & Hb).
    apply (f_equal normal_path_components) in Heq. rewrite !components_of_names in Heq. subst ms.
    pose proof (elem_of_directories l d (Hin _ _ Hj) Hd) as Hind.
    rewrite Hpe in Hnot. rewrite Hpd in Hind. rewrite Hpe, Hpd, !keys_below, keys_cmp_app.
    rewrite components_of_names. change (normal_path_components [Normal a]) with [a].
    change (normal_path_components [Normal b]) with [b].
    rewrite !last_key, !fmap_app by done.
    rewrite bool_decide_false by done. rewrite bool_decide_true by done. done.
Qed.
End accepted.

Section both_ends.
Context `{Platform}.

(** What the reader takes back corresponds to what was written. *)
Definition same_name (d : RsyncFileListEntry) (e : RsyncFileListEntry) : Prop :=
  wire_path d = wire_path e ∧ file_type d = file_type e.

Lemma same_name_directories l l' : Forall2 same_name l l' → directories_of l = directories_of l'.
Proof.
  intros Hl. unfold directories_of. f_equal.
  induction Hl as [|d e l l' [Hp Ht] _ IH]; [done|]. cbn. rewrite Ht.
  case_bool_decide; cbn; [by rewrite Hp, IH|done].
Qed.

Lemma same_name_cmp directories d1 e1 d2 e2 :
  same_name d1 e1 → same_name d2 e2 →
  remote_sender_entry_cmp directories d1 d2 = remote_sender_entry_cmp directories e1 e2.
Proof.
  intros [Hp1 Ht1] [Hp2 Ht2]. unfold remote_sender_entry_cmp, remote_entry_is_top_dir.
  by rewrite Hp1, Ht1, Hp2, Ht2.
Qed.
Lemma received_names opts self es :
  Forall (λ e, ch "\" ∉ path e) es → Forall2 same_name (wire_entries opts self es) es.
Proof.
  revert self. induction es as [|e es IH]; intros self; [constructor|].
  intros [He Hes]%Forall_cons. constructor; [|by apply IH].
  split; [|done]. unfold wire_path. cbn [path wire_entry]. f_equal. f_equal.
  unfold wire_path_bytes. by apply replace_char_id.
Qed.

(** C16. The sender of a push and its receiver number the entries alike: what the reader
    makes of the list that was written, sorted, has at every index the path and the type
    of the source the sender has at that index once it has sorted its own. *)
Theorem both_ends_number_alike {R} `{ReadLaws R} {W} `{WriteLaws W}
    opts max_entries max_path_len user_of group_of sources :
  list_ok opts max_path_len user_of group_of (wire <$> sources) →
  (length sources ≤ max_entries)%nat → Forall (λ s, ch "\" ∉ path (wire s)) sources →
  ∃ received,
    coupled (W:=W) (R:=R)
      (Rsync31.write_rsync31_file_list_with_metadata (wire <$> sources) opts)
      (Rsync31.read_rsync31_file_list_with_metadata max_entries max_path_len opts) received ∧
    Forall2 (λ d s, wire_path d = wire_path (wire s) ∧ file_type d = file_type (wire s))
      (sort_remote_entries_for_sender_indexes received)
      (sort_remote_source_entries_for_sender_indexes sources).
Proof.
  intros Hok Hlen Hplain. exists (wire_entries opts (Rsync31.new opts) (wire <$> sources)).
  split; [apply (list_coupled _ _ user_of group_of); by rewrite ?length_fmap|].
  assert (Hnames : Forall2 same_name (wire_entries opts (Rsync31.new opts) (wire <$> sources))
                     (wire <$> sources)) by by apply received_names, Forall_fmap.
  unfold sort_remote_source_entries_for_sender_indexes, sort_remote_entries_for_sender_indexes.
  rewrite (same_name_directories _ _ Hnames).
  apply (sort_by_related (λ d s, same_name d (wire s))).
  - intros d1 d2 s1 s2 Hn1 Hn2. by apply same_name_cmp.
  - apply (Forall2_fmap_1 id wire). by rewrite list_fmap_id.
Qed.
End both_ends.

(** ** Runs *)

(** Platforms and tables for the witnesses. *)
#[local] Instance posix : Platform := false.
#[local] Existing Instance ascii_tables.

Definition sample_file (name : str) : RsyncFileListEntry :=
  {| path := name; file_type := File; len := 1; mtime_unix := 0; mode := RSYNC_REGULAR_FILE_MODE;
     checksum := None; hardlink_group := None; metadata := default_metadata |}.

Definition sample_directory (name : str) : RsyncFileListEntry :=
  {| path := name; file_type := Directory; len := 0; mtime_unix := 0; mode := RSYNC_DIRECTORY_MODE;
     checksum := None; hardlink_group := None; metadata := default_metadata |}.

Definition shuffled : list RsyncFileListEntry :=
  [sample_file (lit "b/c"); sample_directory (lit "b"); sample_file (lit "z");
   sample_directory (lit "."); sample_file (lit "b/a")].

Definition walked : list RsyncFileListEntry :=
  [sample_directory (lit "."); sample_file (lit "z"); sample_directory (lit "b");
   sample_file (lit "b/a"); sample_file (lit "b/c")].

Example files_before_directories : sort_remote_entries_for_sender_indexes shuffled = walked.
Proof. vm_compute. reflexivity. Qed.

Lemma sender_indexes_are_canonical_witness :
  sort_remote_entries_for_sender_indexes shuffled = sort_remote_entries_for_sender_indexes walked.
Proof.
  apply (sender_indexes_are_canonical shuffled walked).
  - vm_compute. reflexivity.
  - unfold one_top_dir. vm_compute. lia.
  - apply (Permutation_trans (Permutation_rev shuffled)). cbn.
    unfold walked. solve_Permutation.
Defined.

Lemma sender_order_is_a_walk_witness :
  sort_remote_entries_for_sender_indexes shuffled ≡ₚ shuffled ∧
  ∀ i j d e name q, sort_remote_entries_for_sender_indexes shuffled !! i = Some d →
    sort_remote_entries_for_sender_indexes shuffled !! j = Some e →
    wire_path e = wire_path d ++ Normal name :: q → (i < j)%nat.
Proof.
  destruct (sender_order_is_a_walk shuffled) as (Hp & _ & Hbelow & _);
    [vm_compute; reflexivity|]. exact (conj Hp Hbelow).
Defined.

Lemma both_ends_number_alike_witness :
  ∃ received,
    coupled (W:=list Z) (R:=list Z)
      (Rsync31.write_rsync31_file_list_with_metadata
         (wire <$> ((λ e, {| wire := e; local_path := [] |}) <$> sample_list)) sample_options)
      (Rsync31.read_rsync31_file_list_with_metadata 3 100 sample_options) received ∧
    Forall2 (λ d s, wire_path d = wire_path (wire s) ∧ file_type d = file_type (wire s))
      (sort_remote_entries_for_sender_indexes received)
      (sort_remote_source_entries_for_sender_indexes
         ((λ e, {| wire := e; local_path := [] |}) <$> sample_list)).
Proof.
  apply (both_ends_number_alike sample_options 3 100 (λ _, None) (λ _, None)).
  - exact sample_ok.
  - cbn. lia.
  - repeat constructor; vm_compute; set_solver.
Defined.
