(* ===== verification/RemoteSources.v ===== *)
(** * The sources of an upload: rsync-cli/src/remote/flist.rs

    The walk that makes the entries of a push, the entry of a file or directory, and
    the batches the entries are sent in.  What the operating system tells beyond
    PortableFileSystem, and opening a file for its checksum, are arguments. *)

From S2P Require Import Prelude Stream Str Glob Filter Chmod Session FsPath Metadata FileSystem.
From S2P Require Import SyncPlan WinPath Delta Daemon TransferSums Transfer Flist RemoteFiles.

(** ** Batches *)

Record RemoteSourceEntryBatch := {
  batch_base : nat;
  batch_entries : list RemoteSourceEntry;
  batch_final : bool;
}.

Definition file_list_batch (self : RemoteSourceEntryBatch) : FileListBatch :=
  {| base_index := batch_base self; entries := wire <$> batch_entries self;
     is_final := batch_final self |}.

Record RemoteSourceEntryBatchBuilder := {
  most_entries : nat;
  most_alloc : option Z;
  next_base : nat;
  held_entries : list RemoteSourceEntry;
  held_alloc : Z;
}.

Section batches.
Context (size_of_entry : Z).

(** A call of the builder. *)
Definition Building A : Type := M RemoteSourceEntryBatchBuilder RemoteError A.

Definition source_builder (most_entries : nat) (most_alloc : option Z) :
    result RemoteSourceEntryBatchBuilder RemoteError :=
  if (most_entries =? 0)%nat
  then Err (failed "file-list batch size must be greater than zero")
  else Ok {| most_entries := most_entries; most_alloc := most_alloc; next_base := 0;
             held_entries := []; held_alloc := 0 |}.

Definition source_flush_before (self : RemoteSourceEntryBatchBuilder) (entry_alloc : Z) : bool :=
  match held_entries self with
  | [] => false
  | _ =>
      if (most_entries self <=? length (held_entries self))%nat then true
      else match positive_limit (most_alloc self) with
           | Some limit => limit <? saturating_usize (held_alloc self + entry_alloc)
           | None => false
           end
  end.

Definition source_push_current (entry : RemoteSourceEntry) (entry_alloc : Z) : Building unit :=
  self ← get;
  lift (map_err RemoteList (budget_check (most_alloc self) entry_alloc));;
  put {| most_entries := most_entries self; most_alloc := most_alloc self;
         next_base := next_base self;
         held_entries := held_entries self ++ [entry];
         held_alloc := saturating_usize (held_alloc self + entry_alloc) |}.

Definition source_emit (final : bool) : Building RemoteSourceEntryBatch :=
  self ← get;
  put {| most_entries := most_entries self; most_alloc := most_alloc self;
         next_base := next_base self + length (held_entries self);
         held_entries := []; held_alloc := 0 |};;
  mret {| batch_base := next_base self; batch_entries := held_entries self;
          batch_final := final |}.

Definition source_push (entry : RemoteSourceEntry) : Building (option RemoteSourceEntryBatch) :=
  let entry_alloc := estimated_rsync_file_list_entry_alloc size_of_entry (wire entry) in
  self ← get;
  if source_flush_before self entry_alloc then
    batch ← source_emit false;
    source_push_current entry entry_alloc;;
    mret (Some batch)
  else
    source_push_current entry entry_alloc;;
    self ← get;
    if (most_entries self <=? length (held_entries self))%nat
    then batch ← source_emit false; mret (Some batch)
    else mret None.

Definition source_finish : Building RemoteSourceEntryBatch := source_emit true.
End batches.

(** The number of files and their bytes. *)
Definition remote_entries_file_summary (entries : list RemoteSourceEntry) : nat * Z :=
  fold_left (λ acc e, ((acc.1 + 1)%nat, as_u64 (acc.2 + len (wire e))))
    (List.filter (λ e, bool_decide (file_type (wire e) = File)) entries) (0%nat, 0).

(** ** The entry of a path *)

(** What [symlink_metadata] and the Windows API tell, in nanoseconds. *)
Record OsMetadata := {
  os_ids : option (Z * Z);
  os_accessed : option SystemTime;
  os_created : option SystemTime;
  windows_creation : option SystemTime;
}.

Definition system_time_to_unix_option (value : SystemTime) : option Z :=
  if value <? 0 then None else Some (Z.min (value / 1000000000) i64_max).

Definition system_time_to_unix (value : option SystemTime) : Z :=
  default 0 (value ≫= system_time_to_unix_option).

Definition remote_file_list_metadata (os : OsMetadata) : RsyncFileListMetadata :=
  {| uid := fst <$> os_ids os; gid := snd <$> os_ids os; user_name := None;
     group_name := None;
     atime_unix := os_accessed os ≫= system_time_to_unix_option;
     crtime_unix := match windows_creation os with
                    | Some time => Some time
                    | None => os_created os
                    end ≫= system_time_to_unix_option;
     xattrs := [] |}.

Definition remote_wire_mode (m : PortableMetadata) (t : WireFileType) (path : PathBuf)
    (preserve_executability : bool) (chmod_rules : option ChmodRules) : Z :=
  let mode := posix_mode_for_path m (Some path) preserve_executability in
  match chmod_rules, t with
  | Some rules, File => apply rules mode Chmod.File
  | Some rules, Directory => apply rules mode Chmod.Directory
  | _, _ => mode
  end.

Definition remote_hardlink_group (m : PortableMetadata) (preserve_hard_links : bool) :
    option RsyncHardLinkGroup :=
  if negb preserve_hard_links || bool_decide (Metadata.file_type m ≠ Metadata.File) then None
  else if default 1 (hardlink_count m) <=? 1 then None
  else (λ id, {| device := volume id; inode := file_number id |}) <$> hardlink_id m.

Record LocalSourceCollectOptions := {
  l_recursive : bool;
  l_filter_rules : RuleSet;
  l_files_from : option (list PathBuf);
  l_symlink_mode : SymlinkMode;
  l_include_checksums : bool;
  l_preserve_executability : bool;
  l_preserve_hard_links : bool;
  l_chmod_rules : option ChmodRules;
}.

Section collect.
Context {F : Type} `{PortableFileSystem F} `{Platform}.
Context {Fl : Type} `{Source Fl} `{Digests}.
Context (open_local_file : PathBuf → result Fl TransferError).
Context (os_metadata : PathBuf → OsMetadata).
Context (fs : F) (options : LocalSourceCollectOptions).

(** ** Symbolic links *)

Definition followed_remote_sender_metadata (path : PathBuf) : result PortableMetadata RemoteError :=
  let? m := map_err RemoteFs (metadata_follow fs path) in
  if bool_decide (Metadata.file_type m = Metadata.File) ||
     bool_decide (Metadata.file_type m = Metadata.Directory)
  then Ok m
  else Err (failed "remote-shell sender can only copy symlink referents that are ordinary files or directories: {}").

(** [None] where the entry is skipped. *)
Definition remote_sender_metadata (path : PathBuf) (m : PortableMetadata) :
    result (option PortableMetadata) RemoteError :=
  if bool_decide (Metadata.file_type m ≠ Metadata.Symlink) then Ok (Some m)
  else
    let unsafe := match symlink_target m with
                  | Some target => is_unsafe_symlink_target target
                  | None => false
                  end in
    match l_symlink_mode options with
    | Skip => Ok None
    | Preserve => Err (failed "remote-shell sender cannot preserve symlink metadata yet; use --copy-links for {}")
    | SafeOnly =>
        if unsafe then Ok None
        else Err (failed "remote-shell sender cannot preserve safe symlink metadata yet: {}")
    | CopyAll => let? copied := followed_remote_sender_metadata path in Ok (Some copied)
    | CopyDirLinks =>
        let? copied := followed_remote_sender_metadata path in
        if bool_decide (Metadata.file_type copied = Metadata.Directory) then Ok (Some copied)
        else Err (failed "remote-shell sender cannot preserve non-directory symlink metadata yet: {}")
    | CopyUnsafe =>
        if unsafe then let? copied := followed_remote_sender_metadata path in Ok (Some copied)
        else Err (failed "remote-shell sender cannot preserve safe symlink metadata yet: {}")
    | Munge => Err (failed "remote-shell sender cannot munge symlink metadata yet: {}")
    end.

Definition remote_followed_directory_path (link_path : PathBuf) (original copied : PortableMetadata) :
    option PathBuf :=
  if bool_decide (Metadata.file_type original ≠ Metadata.Symlink) ||
     bool_decide (Metadata.file_type copied ≠ Metadata.Directory)
  then None
  else
    target ← symlink_target original;
    let should_follow := match l_symlink_mode options with
                         | CopyAll | CopyDirLinks => true
                         | CopyUnsafe => is_unsafe_symlink_target target
                         | Skip | Preserve | SafeOnly | Munge => false
                         end in
    if should_follow then Some (resolve_symlink_target link_path target) else None.

(** ** Entries *)

(** The text of a relative path, as it goes on the wire. *)
Definition wire_text (relative : PathBuf) : str := encode_chars (relative_text relative).

(** The checksum an entry carries. *)
Definition source_checksum (wanted : bool) (path : PathBuf) : result (option (list Z)) RemoteError :=
  if wanted then let? sum := checksum_local_path open_local_file path in Ok (Some sum)
  else Ok None.

(** The entry for [relative], whose metadata are [m]. *)
Definition source_entry (path relative : PathBuf) (m : PortableMetadata) (t : WireFileType) :
    result RemoteSourceEntry RemoteError :=
  let? sum := source_checksum (l_include_checksums options && bool_decide (t = File)) path in
  Ok {| wire := {|
          Flist.path := wire_text relative;
          file_type := t;
          len := if bool_decide (t = File) then Metadata.len m else 0;
          mtime_unix := system_time_to_unix (modified m);
          mode := remote_wire_mode m t relative (l_preserve_executability options)
                    (l_chmod_rules options);
          checksum := sum;
          hardlink_group := remote_hardlink_group m (l_preserve_hard_links options);
          metadata := remote_file_list_metadata (os_metadata path) |};
        local_path := path |}.

Definition source_is_left_out (relative : PathBuf) (t : WireFileType) : bool :=
  remote_source_path_is_filtered (l_filter_rules options) relative t ||
  negb (remote_files_from_matches (l_files_from options) relative).

(** The type of an entry that can be sent. *)
Definition sendable_type (m : PortableMetadata) : result WireFileType RemoteError :=
  match Metadata.file_type m with
  | Metadata.Directory => Ok Directory
  | Metadata.File => Ok File
  | _ => Err (failed "remote-shell MVP does not transfer {:?}: {}")
  end.

(** The entry of a path that was listed or named, and the directory to go on with;
    [None] where it is left out. *)
Definition listed_entry (path relative : PathBuf) (original : PortableMetadata) :
    result (option (RemoteSourceEntry * option PathBuf)) RemoteError :=
  let? kept := remote_sender_metadata path original in
  match kept with
  | None => Ok None
  | Some m =>
      let? t := sendable_type m in
      if source_is_left_out relative t then Ok None
      else
        let? entry := source_entry path relative m t in
        let child_root :=
          if l_recursive options && bool_decide (t = Directory)
          then Some (default path (remote_followed_directory_path path original m))
          else None in
        Ok (Some (entry, child_root))
  end.

Section callback.
Context {T : Type} (on_entry : RemoteSourceEntry → M T RemoteError unit).

(** The loop over a directory; [recurse] is the call for a directory in it. *)
Fixpoint collect_listed_sources (recurse : PathBuf → PathBuf → M T RemoteError unit)
    (relative_root : PathBuf) (listed : list WalkEntry) : M T RemoteError unit :=
  match listed with
  | [] => mret tt
  | entry :: listed =>
      name ← lift (ok_or (file_name (entry_path entry)) (failed "source entry has no file name: {}"));
      let relative := path_join relative_root [Normal name] in
      found ← lift (listed_entry (entry_path entry) relative (entry_metadata entry));
      match found with
      | None => mret tt
      | Some (source, child_root) =>
          on_entry source;;
          match child_root with
          | Some child_root => recurse child_root relative
          | None => mret tt
          end
      end;;
      collect_listed_sources recurse relative_root listed
  end.

(** The fuel bounds the depth. *)
Fixpoint collect_local_directory_source_entries_with_callback (fuel : nat)
    (current relative_root : PathBuf) : M T RemoteError unit :=
  match fuel with
  | O => throw (RemoteFs FileSystem.out_of_fuel)
  | S fuel =>
      listed ← lift (map_err RemoteFs (list_dir fs current));
      collect_listed_sources (collect_local_directory_source_entries_with_callback fuel)
        relative_root listed
  end.

(** The entry of the directory that is the only source. *)
Definition top_dir_entry (source : PathBuf) (m : PortableMetadata) : RemoteSourceEntry :=
  {| wire := {| Flist.path := lit "."; file_type := Directory; len := 0;
                mtime_unix := system_time_to_unix (modified m); mode := RSYNC_DIRECTORY_MODE;
                checksum := None; hardlink_group := None;
                metadata := remote_file_list_metadata (os_metadata source) |};
     local_path := source |}.

Definition collect_single_local_source_entries_with_callback (fuel : nat) (source : PathBuf) :
    M T RemoteError unit :=
  original ← lift (map_err RemoteFs (FileSystem.metadata fs source));
  kept ← lift (remote_sender_metadata source original);
  m ← lift (ok_or kept (failed "source is skipped by link handling"));
  if bool_decide (Metadata.file_type m = Metadata.File) then
    name ← lift (ok_or (file_name source) (failed "source file is missing a file name"));
    let relative := [Normal name] in
    if source_is_left_out relative File then mret tt
    else entry ← lift (source_entry source relative m File); on_entry entry
  else if bool_decide (Metadata.file_type m ≠ Metadata.Directory)
  then throw (failed "remote-shell MVP only transfers ordinary files and directories")
  else
    on_entry (top_dir_entry source m);;
    collect_local_directory_source_entries_with_callback fuel source [].

(** One of several sources. *)
Definition collect_named_source (fuel : nat) (source : PathBuf) : M T RemoteError unit :=
  name ← lift (ok_or (file_name source) (failed "source has no file name: {}"));
  let relative := [Normal name] in
  original ← lift (map_err RemoteFs (FileSystem.metadata fs source));
  found ← lift (listed_entry source relative original);
  match found with
  | None => mret tt
  | Some (entry, child_root) =>
      on_entry entry;;
      match child_root with
      | Some child_root =>
          collect_local_directory_source_entries_with_callback fuel child_root relative
      | None => mret tt
      end
  end.

Definition collect_batch_local_source_entries_with_callback (fuel : nat)
    (sources : list PathBuf) : M T RemoteError unit :=
  for_each (collect_named_source fuel) sources.

Definition collect_local_source_entries_with_callback (fuel : nat) (sources : list PathBuf) :
    M T RemoteError unit :=
  match sources with
  | [source] => collect_single_local_source_entries_with_callback fuel source
  | _ => collect_batch_local_source_entries_with_callback fuel sources
  end.
End callback.

(** ** Entries in batches *)

Context (size_of_entry : Z).

(** The callback that puts an entry into the builder. *)
Definition push_source {T} (on_batch : RemoteSourceEntryBatch → M T RemoteError unit)
    (entry : RemoteSourceEntry) : M (RemoteSourceEntryBatchBuilder * T) RemoteError unit :=
  batch ← on_fst (source_push size_of_entry entry);
  match batch with
  | Some batch => on_snd (on_batch batch)
  | None => mret tt
  end.

Definition collect_local_source_entry_batches {T} (fuel : nat) (sources : list PathBuf)
    (max_entries : nat) (max_alloc : option Z)
    (on_batch : RemoteSourceEntryBatch → M T RemoteError unit) : M T RemoteError unit := λ t,
  match source_builder max_entries max_alloc with
  | Err e => (Err e, t)
  | Ok builder =>
      let '(r, (_, t)) :=
        (collect_local_source_entries_with_callback (push_source on_batch) fuel sources;;
         last ← on_fst source_finish;
         on_snd (on_batch last)) (builder, t) in
      (r, t)
  end.

(** What the closure of a push keeps: the total, the entries and the batches. *)
Record Collected (T : Type) := {
  total_so_far : Z;
  collected : list RemoteSourceEntry;
  batch_count : nat;
  collector : T;
}.
Arguments total_so_far {T} c.
Arguments collected {T} c.
Arguments batch_count {T} c.
Arguments collector {T} c.
Arguments Build_Collected {T}.

(** The total of the entries so far, within the limit. *)
Fixpoint add_allocs (max_alloc : option Z) (entries : list RsyncFileListEntry) (total : Z) :
    result Z RemoteError :=
  match entries with
  | [] => Ok total
  | e :: entries =>
      let? total := ok_or (checked_usize (total + estimated_rsync_file_list_entry_alloc size_of_entry e))
                      (failed "file-list allocation estimate overflow") in
      let? _ := map_err RemoteList (budget_check max_alloc total) in
      add_allocs max_alloc entries total
  end.

Definition keep_batch {T} (max_alloc : option Z)
    (on_batch : FileListBatch → M T RemoteError unit) (batch : RemoteSourceEntryBatch) :
    M (Collected T) RemoteError unit := λ c,
  match add_allocs max_alloc (entries (file_list_batch batch)) (total_so_far c) with
  | Err e => (Err e, c)
  | Ok total =>
      match on_batch (file_list_batch batch) (collector c) with
      | (Err e, t) => (Err e, Build_Collected total (collected c) (batch_count c) t)
      | (Ok _, t) =>
          (Ok tt, Build_Collected total (collected c ++ batch_entries batch)
                    (S (batch_count c)) t)
      end
  end.

Definition REMOTE_FILE_LIST_BATCH_ENTRIES : nat := 4096.

Definition collect_local_push_source_entries_with_batches {T} (fuel : nat)
    (sources : list PathBuf) (max_alloc : option Z)
    (on_batch : FileListBatch → M T RemoteError unit) :
    M T RemoteError (list RemoteSourceEntry * nat) := λ t,
  let '(r, c) := collect_local_source_entry_batches fuel sources
    REMOTE_FILE_LIST_BATCH_ENTRIES max_alloc (keep_batch max_alloc on_batch)
    {| total_so_far := 0; collected := []; batch_count := 0; collector := t |} in
  (let? _ := r in Ok (collected c, batch_count c), collector c).
End collect.
