(* ===== verification/RemoteWire.v ===== *)
(** * The wire of a push or a pull: rsync-cli/src/remote, what both directions share

    The state of a session is what the direction keeps, the writer to the peer and the
    reader of what the peer sends: the multiplexed stream.  The writer is the plain
    transport in protocol 27, the multiplexed one in protocol 31. *)

From S2P Require Import Prelude Stream WireIo Str Filter Session Handshake FsPath Metadata.
From S2P Require Import FileSystem SyncPlan Delta Daemon TransferSums Transfer Flist RemoteFiles.

(** transfer/progress.rs *)
Record RemoteExecutionStats := {
  stat_files : nat;
  stat_bytes : Z;
  transferred_entry_indexes : list nat;
}.

Definition no_execution : RemoteExecutionStats :=
  {| stat_files := 0; stat_bytes := 0; transferred_entry_indexes := [] |}.

Record RemoteTransferRuntime := {
  rt_compression : option RemoteCompressionConfig;
  rt_max_alloc : option Z;
  rt_stop_deadline : option Z;
}.

Definition limits_of (runtime : RemoteTransferRuntime) : TransferLimits :=
  {| TransferSums.max_alloc := rt_max_alloc runtime; stop_deadline := rt_stop_deadline runtime |}.

(** A file that was sent, with the literal bytes of its tokens. *)
Definition count_file (entry_index : nat) (bytes : Z) (stats : RemoteExecutionStats) :
    RemoteExecutionStats :=
  {| stat_files := S (stat_files stats);
     stat_bytes := as_u64 (stat_bytes stats + bytes);
     transferred_entry_indexes := transferred_entry_indexes stats ++ [entry_index] |}.

(** An index into the entries that was checked before. *)
Definition entry_at {A} (entries : list A) (index : nat) : result A RemoteError :=
  ok_or (entries !! index) (failed "index out of bounds").

Section wire.
Context {X : Type} {R : Type} `{Read R} {W : Type} `{Write W}.

Abbreviation Talking := (M (X * W * R) RemoteError).

(** What comes from the peer, what is written to it, and what happens locally. *)
Definition hear {A} (m : M R TransferError A) : Talking A := on_snd (with_err RemoteTransfer m).
Definition work {A} (m : M (X * W) TransferError A) : Talking A :=
  on_fst (with_err RemoteTransfer m).
Definition say {A} (m : M W TransferError A) : Talking A := work (on_snd m).
Definition locally {A} (m : M X RemoteError A) : Talking A := on_fst (on_fst m).

Definition hear_i32 : Talking Z := hear (with_err TransferIo read_i32_le).
Definition say_i32 (value : Z) : Talking unit :=
  say (with_err TransferSession (write_rsync_i32 value)).
Definition say_long (value : Z) : Talking unit :=
  say (with_err TransferSession (write_rsync_long_value value)).
Definition say_flush : Talking unit := say (with_err TransferIo flush).

(** ** Delta-coded indexes, whose state is a local variable *)

Definition say_index (state : RsyncIndexState) (index : Z) : Talking RsyncIndexState :=
  say (λ w, let '(written, (state, w)) := with_err TransferIo (write_rsync_index index) (state, w) in
            (let? _ := written in Ok state, w)).

Definition write_rsync31_index (state : RsyncIndexState) (index : Z) : Talking RsyncIndexState :=
  state ← say_index state index; say_flush;; mret state.

Definition write_rsync31_done : Talking unit :=
  write_rsync31_index RsyncIndexState_default RSYNC_INDEX_DONE;; mret tt.

Definition read_multiplexed_rsync31_index : Talking Z :=
  hear (λ r, let '(index, (_, r)) :=
               with_err TransferIo read_rsync_index (RsyncIndexState_default, r) in (index, r)).

(** An index that has to be the end of a phase. *)
Definition expect_done (error : Z → RemoteSessionError) : Talking unit :=
  index ← read_multiplexed_rsync31_index;
  if index =? RSYNC_INDEX_DONE then mret tt else throw (session_error (error index)).
End wire.
