(* ===== verification/RemotePush.v ===== *)
(** * The phases of a push: rsync-cli/src/remote, flist.rs and push.rs

    The sender's answers to the requests of a remote receiver, in protocols 27 and 31,
    and the push from the handshake to the last acknowledgement.  The reader is the
    multiplexed stream of the session; the writer is the plain transport in protocol
    27, the multiplexed one in protocol 31.  What is printed is left out. *)

From S2P Require Import Prelude Stream WireIo Str Glob Filter Session Handshake FsPath Metadata.
From S2P Require Import FileSystem SyncPlan WinPath Delta Daemon TransferSums Transfer Flist.
From S2P Require Import DeflatedTokens RemoteFiles RemoteSources RemoteWire.
Import Signature.

Section push.
Context `{Clock} `{Digests} `{Zlib} `{SignatureSize}.
Context {F : Type} `{Source F} {R : Type} `{Read R} {W : Type} `{Write W}.
Context (open_local_file : PathBuf → result F TransferError).
Context (sources : list RemoteSourceEntry) (runtime : RemoteTransferRuntime).

Abbreviation Serving := (M (Sender F * W * R) RemoteError).

(** The entry of an index the peer sent, which has to be a file. *)
Definition requested_file (entry_index : nat) : result RemoteSourceEntry RemoteError :=
  let? entry := entry_at sources entry_index in
  if bool_decide (file_type (wire entry) ≠ File)
  then Err (session_error (NonFileBlockRequest (Z.of_nat entry_index)))
  else Ok entry.

(** The tokens of a file, against the signatures of the peer. *)
Definition send_delta (checksum : RemoteFileChecksum) (final : RemoteFinalChecksum)
    (entry : RemoteSourceEntry) (signatures : list BlockSignature) : Serving RemoteDeltaStats :=
  work (write_delta_tokens_from_path checksum final (relative_text (local_path entry))
          (open_local_file (local_path entry)) signatures (rt_compression runtime)
          (limits_of runtime)).

(** ** Protocol 27 *)

(** The head and the signatures of a request. *)
Definition hear_signatures27 (checksum : RemoteFileChecksum) :
    Serving (RemoteSumHead * list BlockSignature) :=
  sum_head ← hear read_sum_head;
  signatures ← hear (read_remote_block_signatures_from_reader sum_head checksum
                       (rt_max_alloc runtime));
  mret (sum_head, signatures).

(** A request for the file at [index]. *)
Definition serve_request27 (checksum_seed : Z) (dry_run : bool) (index : Z)
    (stats : RemoteExecutionStats) : Serving RemoteExecutionStats :=
  entry_index ← lift (checked_file_index index (length sources));
  entry ← lift (requested_file entry_index);
  if dry_run then say_i32 index;; mret (count_file entry_index 0 stats)
  else
    '(sum_head, signatures) ← hear_signatures27 (md4_with_seed checksum_seed);
    say_i32 index;;
    say_i32 (as_i32 (Z.of_nat (block_count sum_head)));;
    say_i32 (as_i32 (Z.of_nat (block_len sum_head)));;
    say_i32 (as_i32 (Z.of_nat (checksum_len sum_head)));;
    say_i32 (as_i32 (Z.of_nat (remainder sum_head)));;
    delta_stats ← send_delta (md4_with_seed checksum_seed)
      (final_checksum_protocol27 checksum_seed) entry signatures;
    mret (count_file entry_index (literal_bytes delta_stats) stats).

(** The loop, which has taken [phase_markers] so far. *)
Fixpoint serve_loop27 (fuel : nat) (checksum_seed : Z) (dry_run : bool) (phase_markers : nat)
    (stats : RemoteExecutionStats) : Serving RemoteExecutionStats :=
  match fuel with
  | O => throw (RemoteTransfer out_of_fuel)
  | S fuel =>
      work (check_deadline (rt_stop_deadline runtime));;
      index ← hear_i32;
      if index =? -1 then
        say_i32 (-1);;
        say_flush;;
        if (2 <=? S phase_markers)%nat then mret stats
        else serve_loop27 fuel checksum_seed dry_run (S phase_markers) stats
      else
        stats ← serve_request27 checksum_seed dry_run index stats;
        serve_loop27 fuel checksum_seed dry_run phase_markers stats
  end.

(** The lengths of all files. *)
Definition offered_bytes : Z := (remote_entries_file_summary sources).2.

(** Each turn of the loop reads an index, so the bytes that can still come bound it. *)
Definition serve_remote_receiver_requests (checksum_seed : Z) (dry_run : bool) :
    Serving RemoteExecutionStats := λ s,
  (stats ← serve_loop27 (S (budget s.2)) checksum_seed dry_run 0 no_execution;
   say_long 0;;
   say_long (stat_bytes stats);;
   say_long offered_bytes;;
   say_flush;;
   final_ack ← hear_i32;
   if final_ack =? -1 then mret stats
   else throw (session_error (InvalidFinalAck final_ack))) s.

(** ** Protocol 31 *)

Record Protocol31Request := {
  req_index : Z;
  req_iflags : Z;
  req_attrs : Rsync31ItemAttrs;
  req_sum_head : option RemoteSumHead;
  req_signatures : list BlockSignature;
}.

Definition wants_transfer (iflags : Z) : bool :=
  bool_decide (Z.land iflags RSYNC_ITEM_TRANSFER ≠ 0).

(** What follows the index of a request. *)
Definition read_request_body (append_verify : bool) (checksum : RemoteFileChecksum) (index : Z) :
    M R TransferError Protocol31Request :=
  iflags ← with_err TransferIo read_u16_le;
  attrs ← read_rsync31_optional_item_attrs iflags;
  if wants_transfer iflags then
    sum_head ← read_sum_head;
    signatures ← (if append_verify then mret []
                  else read_remote_block_signatures_from_reader sum_head checksum
                         (rt_max_alloc runtime));
    mret {| req_index := index; req_iflags := iflags; req_attrs := attrs;
            req_sum_head := Some sum_head; req_signatures := signatures |}
  else
    mret {| req_index := index; req_iflags := iflags; req_attrs := attrs;
            req_sum_head := None; req_signatures := [] |}.

(** [None] is the end of a phase. *)
Definition read_request31 (append_verify : bool) (checksum : RemoteFileChecksum)
    (state : RsyncIndexState) : Serving (option Protocol31Request * RsyncIndexState) :=
  hear (λ r, let '(request, (state, r)) :=
               (index ← with_err TransferIo read_rsync_index;
                if index =? RSYNC_INDEX_DONE then mret None
                else request ← on_snd (read_request_body append_verify checksum index);
                     mret (Some request)) (state, r) in
             (let? request := request in Ok (request, state), r)).

(** The index, the flags and the attributes, as they came. *)
Definition say_item (state : RsyncIndexState) (request : Protocol31Request) :
    Serving RsyncIndexState :=
  state ← say_index state (req_index request);
  say (with_err TransferIo (write_u16_le (req_iflags request)));;
  say (write_rsync31_optional_item_attrs (req_iflags request) (req_attrs request));;
  mret state.

(** The length of the prefix the peer has, when it appends. *)
Definition append_prefix (append_verify : bool) (entry : RemoteSourceEntry)
    (sum_head : RemoteSumHead) : result nat RemoteError :=
  if append_verify then
    let? prefix_len := map_err RemoteTransfer (remote_sum_head_file_len sum_head) in
    if len (wire entry) <? Z.of_nat prefix_len
    then Err (failed "remote append basis is larger than sender file for {}")
    else Ok prefix_len
  else Ok 0%nat.

(** The tokens of a file in protocol 31. *)
Definition send_file31 (append_verify : bool) (checksum : RemoteFileChecksum)
    (entry : RemoteSourceEntry) (prefix_len : nat) (signatures : list BlockSignature) :
    Serving Z :=
  let final := protocol31_for_algorithm (algorithm_of checksum) in
  if append_verify then
    work (write_append_verify_file_tokens_from_path final (relative_text (local_path entry))
            (open_local_file (local_path entry)) prefix_len (rt_compression runtime)
            (rt_stop_deadline runtime))
  else
    delta_stats ← send_delta checksum final entry signatures;
    mret (literal_bytes delta_stats).

(** The answer to a request: the new state of the indexes written, and the counts. *)
Definition serve_request31 (dry_run append_verify : bool) (checksum : RemoteFileChecksum)
    (state : RsyncIndexState) (request : Protocol31Request) (stats : RemoteExecutionStats) :
    Serving (RsyncIndexState * RemoteExecutionStats) :=
  entry_index ← lift (checked_file_index (req_index request) (length sources));
  entry ← lift (entry_at sources entry_index);
  if negb (wants_transfer (req_iflags request)) then
    state ← say_item state request; say_flush;; mret (state, stats)
  else
    entry ← lift (requested_file entry_index);
    if dry_run then state ← say_item state request; say_flush;; mret (state, stats)
    else
      sum_head ← lift (ok_or (req_sum_head request)
        (failed "remote protocol 31 transfer request omitted sum head"));
      prefix_len ← lift (append_prefix append_verify entry sum_head);
      state ← say_item state request;
      say (write_sum_head sum_head);;
      literal_bytes ← send_file31 append_verify checksum entry prefix_len (req_signatures request);
      say_flush;;
      mret (state, count_file entry_index literal_bytes stats).

Fixpoint serve_loop31 (fuel : nat) (dry_run append_verify : bool) (checksum : RemoteFileChecksum)
    (read_state write_state : RsyncIndexState) (phase_markers : nat)
    (stats : RemoteExecutionStats) : Serving (RsyncIndexState * RemoteExecutionStats) :=
  match fuel with
  | O => throw (RemoteTransfer out_of_fuel)
  | S fuel =>
      work (check_deadline (rt_stop_deadline runtime));;
      '(request, read_state) ← read_request31 append_verify checksum read_state;
      match request with
      | None =>
          if (2 <? S phase_markers)%nat then mret (write_state, stats)
          else
            write_state ← write_rsync31_index write_state RSYNC_INDEX_DONE;
            serve_loop31 fuel dry_run append_verify checksum read_state write_state
              (S phase_markers) stats
      | Some request =>
          '(write_state, stats) ← serve_request31 dry_run append_verify checksum write_state
             request stats;
          serve_loop31 fuel dry_run append_verify checksum read_state write_state
            phase_markers stats
      end
  end.

Definition serve_remote_receiver_requests_protocol31 (dry_run append_verify : bool)
    (checksum : RemoteFileChecksum) : Serving RemoteExecutionStats := λ s,
  ('(write_state, stats) ← serve_loop31 (S (budget s.2)) dry_run append_verify checksum
      RsyncIndexState_default RsyncIndexState_default 0 no_execution;
   write_rsync31_index write_state RSYNC_INDEX_DONE;;
   expect_done InvalidFinalAck;;
   write_rsync31_done;;
   expect_done InvalidFinalAck;;
   mret stats) s.
End push.
