(* ===== verification/RemotePull.v ===== *)
(** * The phases of a pull: rsync-cli/src/remote, send.rs, receive.rs and pull.rs

    The requests of the receiver, what it makes of the sender's answers, and the pull
    from the file list to the last acknowledgement, in protocols 27 and 31 and with an
    incremental file list.  The calls of std::fs beside PortableFileSystem are a class.
    What is printed is left out. *)

From stdpp Require Import sorting.
From S2P Require Import Prelude Stream WireIo Str Text Filter Session Handshake FsPath Metadata.
From S2P Require Import FileSystem SyncPlan WinPath Delta Daemon DeflatedTokens TransferSums.
From S2P Require Import Transfer Flist Flist27 Flist31 RemoteFiles RemoteWire.
Import Signature.

(** transfer/fs_ops.rs: files beside the file system's interface.  [fill_local_file] is
    what writing to a created file makes of it. *)
Class LocalFiles (FS Fl : Type) := {
  open_local_file : FS → PathBuf → result Fl TransferError;
  create_local_file : PathBuf → M FS TransferError unit;
  fill_local_file : PathBuf → list Z → M FS TransferError unit;
  remove_local_file_best_effort : PathBuf → FS → FS;
}.

(** What names a temporary file: the process, and the time when it is the n-th. *)
Class TempNames := { process_id : nat; temp_nanos : nat → nat }.

(** ".{file_name}.{pid}.{nanos}.recv" beside the target. *)
Definition receive_temp_path `{Platform} `{TempNames} (n : nat) (target : PathBuf) : PathBuf :=
  let temp_name := lit "." ++ default (lit "rsync-win") (file_name target) ++ lit "." ++
                   decimal (Z.of_nat process_id) ++ lit "." ++
                   decimal (Z.of_nat (temp_nanos n)) ++ lit ".recv" in
  match parent target with
  | Some parent => path_join parent (parse_path temp_name)
  | None => parse_path temp_name
  end.

(** Of a plan, what a pull looks at. *)
Record PullPlan := {
  p_dest : PathBuf;
  p_dry_run : bool;
  p_delete : bool;
  p_update_mode : UpdateMode;
  p_filter_rules : RuleSet;
  p_files_from : option (list PathBuf);
  p_trust : SenderTrust;
  p_block_size : option Z;
  p_whole_file : bool;
  p_append_verify : bool;
  p_preserve_times : bool;
  p_write_options : FileWriteOptions;
  p_compression : result (option RemoteCompressionConfig) TransferError;
  p_max_alloc : option Z;
  p_stop_deadline : option Z;
  p_incremental : bool;
  p_list_options : RsyncFileListOptions;
  p_depth : nat;
}.

(** What a pull keeps beside the transport. *)
Record Pulling (FS : Type) := {
  pull_fs : FS;
  pull_actions : list SyncAction;
  pull_readings : nat;
  pull_temps : nat;
}.
Arguments pull_fs {FS} p.
Arguments pull_actions {FS} p.
Arguments pull_readings {FS} p.
Arguments pull_temps {FS} p.
Arguments Build_Pulling {FS}.

Section pull.
Context `{Platform} `{Unicode} `{TempNames} `{Clock} `{Digests} `{Zlib} `{SignatureSize}.
Context {FS : Type} `{PortableFileSystem FS} {Fl : Type} `{Source Fl} `{LocalFiles FS Fl}.
Context {R : Type} `{Read R} {W : Type} `{Write W}.
(** [std::mem::size_of::<RsyncFileListEntry>()] *)
Context (size_of_entry : Z).
(** Opening the output again, which holds the bytes it is given. *)
Context (reopen : list Z → result Fl TransferError).
Context (plan : PullPlan).

Abbreviation Local_ := (M (Pulling FS) RemoteError).
Abbreviation Pull := (M (Pulling FS * W * R) RemoteError).

(** ** What happens locally *)

(** The file system and the actions. *)
Definition receiving {A} (m : Receiving A) : Local_ A := λ s,
  let '(r, (fs, actions)) := m (pull_fs s, pull_actions s) in
  (r, Build_Pulling fs actions (pull_readings s) (pull_temps s)).

(** A call of std::fs. *)
Definition os {A} (m : M FS TransferError A) : Local_ A :=
  receiving (on_fst (with_err RemoteTransfer m)).

Definition note (action : SyncAction) : Local_ unit := receiving (report_action action).

Definition tick : Local_ unit := λ s,
  let '(r, n) := check_transfer_deadline (p_stop_deadline plan) (pull_readings s) in
  (map_err RemoteTransfer r, Build_Pulling (pull_fs s) (pull_actions s) n (pull_temps s)).

(** [action], and [call] unless the run is dry. *)
Definition note_and_do {A} (action : SyncAction) (call : M FS FsError A) : Local_ unit :=
  note action;;
  if p_dry_run plan then mret tt else receiving (on_fs call);; mret tt.

Definition sync_len (len : Z) : Local_ Z :=
  len ← lift (map_err RemoteTransfer (sync_action_len len)); mret (Z.of_nat len).

Definition remote_write_action (target : PathBuf) (len : Z) : SyncAction :=
  match write_mode (p_write_options plan) with
  | Atomic => WriteFile target len
  | InPlace => WriteFileInPlace target len
  end.

Definition append_verify_offset_local (fs : FS) (source target : PathBuf) (source_len : Z) :
    result (option Z) RemoteError :=
  match FileSystem.metadata fs target with
  | Err _ => Ok None
  | Ok target_metadata =>
      if bool_decide (Metadata.file_type target_metadata ≠ Metadata.File) ||
         (source_len <? Metadata.len target_metadata)
      then Ok None
      else
        let? matches := map_err RemoteFs (file_prefix_matches fs source target) in
        Ok (if (matches : bool) then Some (Metadata.len target_metadata) else None)
  end.

Definition preserve_remote_mtime (e : RsyncFileListEntry) (target : PathBuf) : Local_ unit :=
  if negb (p_preserve_times plan) then mret tt
  else
    receiving (on_fs (set_mtime target (Z.max (mtime_unix e) 0 * 1000000000)));;
    note (PreserveMtime target).

Definition final_write_options : FileWriteOptions :=
  let o := p_write_options plan in
  {| write_mode := write_mode o; write_keep_partial := false; write_partial_dir := None;
     write_temp_dir := None; write_fsync := write_fsync o; write_sparse := write_sparse o;
     write_preallocate := write_preallocate o; write_bwlimit := write_bwlimit o;
     write_max_alloc := write_max_alloc o; write_stop_deadline := write_stop_deadline o |}.

(** The whole file, from the temporary one. *)
Definition write_whole_file (e : RsyncFileListEntry) (target source : PathBuf) (source_len : Z) :
    Local_ unit :=
  len ← sync_len source_len;
  note (remote_write_action target len);;
  receiving (on_fs (copy_file_with_options source target final_write_options));;
  preserve_remote_mtime e target.

Definition write_received_file_from_path (e : RsyncFileListEntry) (target source : PathBuf)
    (source_len : Z) : Local_ unit :=
  s ← get;
  offset ← (if p_append_verify plan
            then lift (append_verify_offset_local (pull_fs s) source target source_len)
            else mret None);
  match offset with
  | Some offset =>
      let suffix_len := source_len - offset in
      (if 0 <? suffix_len then
         len ← sync_len suffix_len;
         note (AppendFile target len);;
         receiving (on_fs (append_file_from target source offset));;
         mret tt
       else mret tt);;
      preserve_remote_mtime e target
  | None => write_whole_file e target source source_len
  end.

(** ** The receiver of a file *)

(** The tokens of a file, into memory; the output is created before and filled after. *)
Definition receive_tokens (final : RemoteFinalChecksum) (e : RsyncFileListEntry)
    (basis : option (PathBuf * RemoteSumHead)) (compression : option RemoteCompressionConfig) :
    Pull (list Z * Z) := λ p,
  let '(s, w, r) := p in
  let basis := match basis with
               | Some (target, sum_head) =>
                   Some (map_err (λ _, TransferFailed "failed to open basis file for {}")
                           (FileSystem.read_file (pull_fs s) target), sum_head)
               | None => None
               end in
  let '(received, (st, r)) :=
    read_file_tokens_to_path_with_basis reopen final (relative_text (wire_path e)) (len e)
      basis compression (p_max_alloc plan) (p_stop_deadline plan)
      ({| output := []; receiver_readings := pull_readings s |}, r) in
  let s := Build_Pulling (pull_fs s) (pull_actions s) (receiver_readings st) (pull_temps s) in
  match received with
  | Ok total => (Ok (output st, total), (s, w, r))
  | Err e => (Err (RemoteTransfer e), (s, w, r))
  end.

Definition fresh_temp_path (target : PathBuf) : Local_ PathBuf := λ s,
  (Ok (receive_temp_path (pull_temps s) target),
   Build_Pulling (pull_fs s) (pull_actions s) (pull_readings s) (S (pull_temps s))).

Definition remove_temp (temp_path : PathBuf) : Local_ unit := λ s,
  (Ok tt, Build_Pulling (remove_local_file_best_effort temp_path (pull_fs s)) (pull_actions s)
            (pull_readings s) (pull_temps s)).

(** [m], and then the temporary file is removed, whatever came of it. *)
Definition and_remove_temp {A} (temp_path : PathBuf) (m : Pull A) : Pull A := λ p,
  let '(r, p) := m p in
  let '(_, p) := locally (W := W) (R := R) (remove_temp temp_path) p in
  (r, p).

(** A file and its number of bytes, from its tokens. *)
Definition receive_file (final : RemoteFinalChecksum) (e : RsyncFileListEntry)
    (sum_head : option RemoteSumHead) (compression : option RemoteCompressionConfig) : Pull Z :=
  let target := path_join (p_dest plan) (wire_path e) in
  temp_path ← locally (fresh_temp_path target);
  total ← and_remove_temp temp_path
    (locally (os (create_local_file temp_path));;
     '(bytes, total) ← receive_tokens final e ((λ sum_head, (target, sum_head)) <$> sum_head)
        compression;
     locally (os (fill_local_file temp_path bytes));;
     locally (write_received_file_from_path e target temp_path total);;
     mret total);
  mret total.

(** A file that is only counted. *)
Definition count_received (e : RsyncFileListEntry) (bytes : Z) (stats : RemoteExecutionStats) :
    RemoteExecutionStats :=
  {| stat_files := S (stat_files stats); stat_bytes := as_u64 (stat_bytes stats + bytes);
     transferred_entry_indexes := transferred_entry_indexes stats |}.

Definition pretend_to_receive (e : RsyncFileListEntry) (stats : RemoteExecutionStats) :
    Local_ RemoteExecutionStats :=
  action_len ← sync_len (len e);
  note (remote_write_action (path_join (p_dest plan) (wire_path e)) action_len);;
  mret (count_received e (len e) stats).

(** ** Requests *)

(** The head and the signatures of what is at [target]. *)
Definition basis_request (target : PathBuf) (block_size : nat) (checksum : RemoteFileChecksum)
    (fs : FS) : result (RemoteSumHead * list BlockSignature) RemoteError :=
  let found := match metadata_follow fs target with
               | Ok m => Some (bool_decide (Metadata.file_type m = Metadata.File), Metadata.len m)
               | Err _ => None
               end in
  map_err RemoteTransfer
    (local_basis_signature_request found (open_local_file fs target) block_size checksum
       (p_whole_file plan) (p_max_alloc plan)).

Definition say_basis (e : RsyncFileListEntry) (block_size : nat) (checksum : RemoteFileChecksum) :
    Pull unit :=
  if p_dry_run plan then mret tt
  else
    s ← locally (X := Pulling FS) get;
    request ← lift (basis_request (path_join (p_dest plan) (wire_path e)) block_size checksum
                      (pull_fs s));
    say (write_sum_head request.1);;
    say (write_remote_block_signatures request.2).

(** Protocol 27. *)
Fixpoint request_files27 (selected_indexes : gset nat) (index_offset : Z) (block_size : nat)
    (checksum : RemoteFileChecksum) (entries : list (nat * RsyncFileListEntry)) : Pull unit :=
  match entries with
  | [] => mret tt
  | (index, e) :: entries =>
      locally tick;;
      (if bool_decide (file_type e ≠ File) || negb (bool_decide (index ∈ selected_indexes))
       then mret tt
       else
         wire_index ← lift (remote_wire_index index index_offset);
         say_i32 wire_index;;
         say_basis e block_size checksum);;
      request_files27 selected_indexes index_offset block_size checksum entries
  end.

Definition request_remote_sender_files (entries : list RsyncFileListEntry)
    (selected_indexes : gset nat) (index_offset : Z) (block_size : nat)
    (checksum : RemoteFileChecksum) : Pull unit :=
  request_files27 selected_indexes index_offset block_size checksum (enumerate entries);;
  say_i32 (-1).

(** Protocol 31: the state of the indexes, what was requested before, and the number of
    requests. *)
Fixpoint request_files31 (selected_indexes : gset nat) (index_offset : Z) (block_size : nat)
    (checksum : RemoteFileChecksum) (entries : list (nat * RsyncFileListEntry))
    (state : RsyncIndexState) (requested : gset nat) (requests : nat) :
    Pull (RsyncIndexState * gset nat * nat) :=
  match entries with
  | [] => mret (state, requested, requests)
  | (index, e) :: entries =>
      locally tick;;
      if bool_decide (file_type e ≠ File) || negb (bool_decide (index ∈ selected_indexes)) ||
         bool_decide (index ∈ requested)
      then request_files31 selected_indexes index_offset block_size checksum entries state
             requested requests
      else
        wire_index ← lift (remote_wire_index index index_offset);
        state ← say_index state wire_index;
        say (with_err TransferIo (write_u16_le
               (if p_dry_run plan then Z.lor RSYNC_ITEM_IS_NEW RSYNC_ITEM_LOCAL_CHANGE
                else Z.lor RSYNC_ITEM_TRANSFER RSYNC_ITEM_IS_NEW)));;
        say_basis e block_size checksum;;
        request_files31 selected_indexes index_offset block_size checksum entries state
          ({[index]} ∪ requested) (S requests)
  end.

Definition request_remote_sender_file_indexes_protocol31 (entries : list RsyncFileListEntry)
    (selected_indexes requested : gset nat) (index_offset : Z) (block_size : nat)
    (checksum : RemoteFileChecksum) (state : RsyncIndexState) :
    Pull (RsyncIndexState * gset nat * nat) :=
  asked ← request_files31 selected_indexes index_offset block_size checksum (enumerate entries)
    state requested 0;
  say_flush;;
  mret asked.

Definition request_remote_sender_files_protocol31 (entries : list RsyncFileListEntry)
    (selected_indexes : gset nat) (index_offset : Z) (block_size : nat)
    (checksum : RemoteFileChecksum) : Pull unit :=
  '(state, _, _) ← request_remote_sender_file_indexes_protocol31 entries selected_indexes ∅
    index_offset block_size checksum RsyncIndexState_default;
  write_rsync31_index state RSYNC_INDEX_DONE;;
  mret tt.

(** ** Answers in protocol 27 *)

(** The answer for the file at [index]. *)
Definition receive_answer27 (final : RemoteFinalChecksum)
    (compression : option RemoteCompressionConfig) (entries : list RsyncFileListEntry)
    (index_offset index : Z) (stats : RemoteExecutionStats) : Pull RemoteExecutionStats :=
  entry_index ← lift (checked_remote_file_index index (length entries) index_offset);
  e ← lift (entry_at entries entry_index);
  if bool_decide (file_type e ≠ File)
  then throw (session_error (NonFileBlockRequest (Z.of_nat entry_index)))
  else if p_dry_run plan then locally (pretend_to_receive e stats)
  else
    sum_head ← hear read_sum_head;
    bytes ← receive_file final e (Some sum_head) compression;
    mret (count_received e bytes stats).

Fixpoint receive_loop27 (fuel : nat) (final : RemoteFinalChecksum)
    (compression : option RemoteCompressionConfig) (entries : list RsyncFileListEntry)
    (index_offset : Z) (stats : RemoteExecutionStats) : Pull RemoteExecutionStats :=
  match fuel with
  | O => throw (RemoteTransfer out_of_fuel)
  | S fuel =>
      locally tick;;
      index ← hear_i32;
      if index =? -1 then mret stats
      else
        stats ← receive_answer27 final compression entries index_offset index stats;
        receive_loop27 fuel final compression entries index_offset stats
  end.

(** Each turn reads an index. *)
Definition receive_remote_sender_files (final : RemoteFinalChecksum)
    (compression : option RemoteCompressionConfig) (entries : list RsyncFileListEntry)
    (index_offset : Z) : Pull RemoteExecutionStats := λ p,
  receive_loop27 (S (budget p.2)) final compression entries index_offset no_execution p.

(** ** Answers in protocol 31 *)

Inductive Protocol31SenderResponse :=
| ResponseDone
| ResponseFileListEof
| ResponseExtraFileList (entries : list RsyncFileListEntry)
| ResponseFile (index iflags : Z) (sum_head : option RemoteSumHead).

Definition incremental_parent_index (index : Z) (entries : list RsyncFileListEntry) :
    result nat RemoteError :=
  let? parent_index := ok_or (checked_i32 (RSYNC_INDEX_FLIST_OFFSET - index))
    (failed "incremental file-list marker overflowed") in
  if parent_index <? 0
  then Err (failed "remote sent invalid incremental file-list marker {index}")
  else match entries !! Z.to_nat parent_index with
  | None => Err (failed "remote sent incremental file-list for parent index {parent_index}, but file list has {} entries")
  | Some parent =>
      if bool_decide (file_type parent ≠ Directory)
      then Err (failed "remote sent incremental file-list for non-directory parent `{}`")
      else Ok (Z.to_nat parent_index)
  end.

(** What follows the index of a file. *)
Definition read_file_response (index : Z) : M R TransferError Protocol31SenderResponse :=
  iflags ← with_err TransferIo read_u16_le;
  read_rsync31_optional_item_attrs iflags;;
  sum_head ← (if bool_decide (Z.land iflags RSYNC_ITEM_TRANSFER ≠ 0)
              then sum_head ← read_sum_head; mret (Some sum_head) else mret None);
  mret (ResponseFile index iflags sum_head).

(** [mux.read_list]: a part of the file list. *)
Definition hear_list {A} (m : M R FileListError A) : Pull A := on_snd (with_err RemoteList m).

Definition hear_index (state : RsyncIndexState) : Pull (Z * RsyncIndexState) :=
  hear (λ r, let '(index, (state, r)) := with_err TransferIo read_rsync_index (state, r) in
             (let? index := index in Ok (index, state), r)).

Definition read_protocol31_sender_response (state : RsyncIndexState)
    (entries : list RsyncFileListEntry) (allow_incremental_flist : bool)
    (file_list_options : RsyncFileListOptions) :
    Pull (Protocol31SenderResponse * RsyncIndexState) :=
  '(index, state) ← hear_index state;
  let invalid := session_error (InvalidFileIndex index (Z.of_nat (length entries))) in
  if index =? RSYNC_INDEX_DONE then mret (ResponseDone, state)
  else if index =? RSYNC_INDEX_FLIST_EOF then
    if allow_incremental_flist then mret (ResponseFileListEof, state) else throw invalid
  else if index <=? RSYNC_INDEX_FLIST_OFFSET then
    if negb allow_incremental_flist then throw invalid
    else
      lift (incremental_parent_index index entries);;
      extra ← hear_list (Rsync31.read_rsync31_file_list_with_metadata
        (Z.to_nat DEFAULT_MAX_FILE_LIST_ENTRIES) DEFAULT_MAX_FILE_LIST_PATH_LEN file_list_options);
      mret (ResponseExtraFileList extra, state)
  else
    response ← hear (read_file_response index);
    mret (response, state).

Definition apply_remote_sender_file_response_protocol31 (final : RemoteFinalChecksum)
    (compression : option RemoteCompressionConfig) (entries : list RsyncFileListEntry)
    (entry_index : nat) (iflags : Z) (sum_head : option RemoteSumHead)
    (stats : RemoteExecutionStats) : Pull RemoteExecutionStats :=
  e ← lift (entry_at entries entry_index);
  let transfer := bool_decide (Z.land iflags RSYNC_ITEM_TRANSFER ≠ 0) in
  if bool_decide (file_type e ≠ File) then
    if transfer then throw (session_error (NonFileBlockRequest (Z.of_nat entry_index)))
    else mret stats
  else if negb transfer || p_dry_run plan then locally (pretend_to_receive e stats)
  else
    bytes ← receive_file final e sum_head compression;
    mret (count_received e bytes stats).

Fixpoint receive_loop31 (fuel : nat) (final : RemoteFinalChecksum)
    (compression : option RemoteCompressionConfig) (entries : list RsyncFileListEntry)
    (index_offset : Z) (state : RsyncIndexState) (stats : RemoteExecutionStats) :
    Pull RemoteExecutionStats :=
  match fuel with
  | O => throw (RemoteTransfer out_of_fuel)
  | S fuel =>
      locally tick;;
      '(response, state) ← read_protocol31_sender_response state entries false default_options;
      match response with
      | ResponseFile index iflags sum_head =>
          entry_index ← lift (checked_remote_file_index index (length entries) index_offset);
          stats ← apply_remote_sender_file_response_protocol31 final compression entries
            entry_index iflags sum_head stats;
          receive_loop31 fuel final compression entries index_offset state stats
      | _ => mret stats
      end
  end.

Definition receive_remote_sender_files_protocol31 (final : RemoteFinalChecksum)
    (compression : option RemoteCompressionConfig) (entries : list RsyncFileListEntry)
    (index_offset : Z) : Pull RemoteExecutionStats := λ p,
  receive_loop31 (S (budget p.2)) final compression entries index_offset
    RsyncIndexState_default no_execution p.
End pull.
