(* ===== verification/RemoteRuns.v ===== *)
(** * A push and a pull from end to end: rsync-cli/src/remote, push.rs and pull.rs

    What follows the handshake: the file list, the requests and answers, and the
    acknowledgements.  The handshake's outcome is an argument: the seed, and in
    protocol 31 the name of the checksum.  The lists of files and the sources are read
    before.  In protocol 27 the writer is the transport; in protocol 31, where every
    part of the code makes a multiplexed writer of its own and flushes it, one such
    writer. *)

From stdpp Require Import sorting.
From S2P Require Import Prelude Stream WireIo Str Text Filter Session Handshake FsPath Metadata.
From S2P Require Import FileSystem SyncPlan WinPath Delta Daemon DeflatedTokens TransferSums.
From S2P Require Import Transfer Flist Flist27 Flist31 RemoteFiles RemoteSources RemoteWire.
From S2P Require Import RemotePush RemotePull.

(** ** Pull *)

Section pull.
Context `{Platform} `{Unicode} `{TempNames} `{Clock} `{Digests} `{Zlib} `{SignatureSize}.
Context {FS : Type} `{PortableFileSystem FS} {Fl : Type} `{Source Fl} `{LocalFiles FS Fl}.
Context {R : Type} `{Read R} {W : Type} `{Write W}.
Context (size_of_entry : Z) (reopen : list Z → result Fl TransferError) (plan : PullPlan).

Abbreviation Pull := (M (Pulling FS * W * R) RemoteError).

(** The checks every file list goes through, and the order of its indexes. *)
Definition accept_file_list (entries : list RsyncFileListEntry) :
    result (list RsyncFileListEntry) RemoteError :=
  let? _ := map_err RemoteList (check_rsync_file_list_budget size_of_entry entries (p_max_alloc plan)) in
  let entries := sort_remote_entries_for_sender_indexes entries in
  let? _ := validate_remote_file_list_paths entries in
  let? _ := validate_remote_sender_claims (p_trust plan) entries in
  Ok entries.

Definition selected_indexes (entries : list RsyncFileListEntry) : gset nat :=
  selected_remote_entry_indexes entries (p_filter_rules plan) (p_files_from plan).

(** The destination itself. *)
Definition create_destination : Pull unit :=
  s ← locally (X := Pulling FS) get;
  if path_exists (pull_fs s) (p_dest plan) then mret tt
  else locally (note_and_do plan (CreateDir (p_dest plan)) (create_dir_all (p_dest plan))).

(** The directories among [entries]. *)
Definition create_directories (entries : list RsyncFileListEntry) : Pull unit :=
  for_each (λ e,
    if remote_entry_is_top_dir e || bool_decide (file_type e ≠ Directory) then mret tt
    else
      let target := path_join (p_dest plan) (wire_path e) in
      locally (note_and_do plan (CreateDir target) (create_dir_all target))) entries.

Definition transfer_indexes (entries : list RsyncFileListEntry) (selected : gset nat) :
    Pull (gset nat) :=
  s ← locally (X := Pulling FS) get;
  lift (selected_remote_transfer_indexes (open_local_file (pull_fs s)) (pull_fs s) (p_dest plan)
          entries selected (p_update_mode plan)).

Definition delete_extras (entries : list RsyncFileListEntry) : Pull unit :=
  if negb (p_delete plan) then mret tt
  else locally (receiving (delete_local_extras (p_depth plan) (p_dest plan) entries
                  (p_filter_rules plan) (p_files_from plan) (p_dry_run plan))).

(** From the selected entries to the indexes to request. *)
Definition prepare_destination (entries : list RsyncFileListEntry) (selected : gset nat) :
    Pull (gset nat) :=
  let selected_entries := selected_remote_entries entries selected in
  lift (windows_destination_path_preflight (destination_relatives selected_entries));;
  create_destination;;
  indexes ← transfer_indexes entries selected;
  delete_extras selected_entries;;
  create_directories selected_entries;;
  mret indexes.

(** *** Protocol 27 *)

Definition pull_protocol27 (checksum_seed : Z) : Pull RemoteExecutionStats :=
  say_i32 0;;
  say_flush;;
  listed ← hear_list (Rsync27.read_rsync27_file_list_with_options
    (Z.to_nat DEFAULT_MAX_FILE_LIST_ENTRIES) DEFAULT_MAX_FILE_LIST_PATH_LEN
    (bool_decide (p_update_mode plan = Checksum)));
  entries ← lift (accept_file_list listed);
  io_error ← hear_i32;
  if negb (io_error =? 0)
  then throw (failed "remote sender reported non-zero I/O error {io_error}")
  else
    let index_offset := remote_file_index_offset entries in
    indexes ← prepare_destination entries (selected_indexes entries);
    block_size ← lift (map_err RemoteTransfer (remote_delta_block_size (p_block_size plan)));
    request_remote_sender_files plan entries indexes index_offset block_size
      (md4_with_seed checksum_seed);;
    say_flush;;
    compression ← lift (map_err RemoteTransfer (p_compression plan));
    stats ← receive_remote_sender_files reopen plan (final_checksum_protocol27 checksum_seed)
      compression entries index_offset;
    say_i32 (-1);;
    say_flush;;
    phase_ack ← hear_i32;
    if negb (phase_ack =? -1) then throw (session_error (InvalidPhaseAck phase_ack))
    else
      hear_list read_rsync_long;;
      hear_list read_rsync_long;;
      hear_list read_rsync_long;;
      say_i32 (-1);;
      say_flush;;
      mret stats.

(** *** Protocol 31 *)

Definition read_remote_sender_protocol31_stats : Pull unit :=
  hear (collect 5 (with_err TransferIo (read_varlong 3)));;
  mret tt.

(** The last messages: the phases, the sender's counts and the farewell. *)
Definition finish_protocol31 : Pull unit :=
  write_rsync31_done;;
  expect_done InvalidPhaseAck;;
  write_rsync31_done;;
  expect_done InvalidFinalAck;;
  read_remote_sender_protocol31_stats;;
  write_rsync31_done;;
  expect_done InvalidFinalAck;;
  write_rsync31_done.

Definition hear_file_list31 : Pull (list RsyncFileListEntry) :=
  hear_list (Rsync31.read_rsync31_file_list_with_metadata
    (Z.to_nat DEFAULT_MAX_FILE_LIST_ENTRIES) DEFAULT_MAX_FILE_LIST_PATH_LEN (p_list_options plan)).

(** With the whole list at the start. *)
Definition pull_whole_list31 (checksum_name : option (list Z)) (checksum_seed : Z)
    (listed : list RsyncFileListEntry) : Pull RemoteExecutionStats :=
  entries ← lift (accept_file_list listed);
  let index_offset := remote_file_index_offset entries in
  indexes ← prepare_destination entries (selected_indexes entries);
  checksum ← lift (map_err RemoteTransfer (file_checksum_protocol31 checksum_name checksum_seed));
  block_size ← lift (map_err RemoteTransfer (remote_delta_block_size (p_block_size plan)));
  request_remote_sender_files_protocol31 plan entries indexes index_offset block_size checksum;;
  say_flush;;
  compression ← lift (map_err RemoteTransfer (p_compression plan));
  final ← lift (map_err RemoteTransfer (final_checksum_protocol31 checksum_name));
  stats ← receive_remote_sender_files_protocol31 reopen plan final compression entries index_offset;
  finish_protocol31;;
  mret stats.

(** The part of the list from [batch_start] on: its directories, and the requests for
    its files. *)
Definition request_remote_pull_incremental_batch_protocol31 (entries : list RsyncFileListEntry)
    (batch_start : nat) (checksum : RemoteFileChecksum) (block_size : nat)
    (state : RsyncIndexState) (requested : gset nat) :
    Pull (RsyncIndexState * gset nat * nat) :=
  let batch_selected := filter (λ index, (batch_start ≤ index)%nat) (selected_indexes entries) in
  create_directories (omap (λ index, entries !! index) (merge_sort le (elements batch_selected)));;
  indexes ← transfer_indexes entries batch_selected;
  request_remote_sender_file_indexes_protocol31 plan entries indexes requested 0 block_size
    checksum state.

Definition request_batch (entries : list RsyncFileListEntry) (batch_start : nat)
    (checksum : RemoteFileChecksum) (block_size : nat) (state : RsyncIndexState)
    (requested : gset nat) : Pull (RsyncIndexState * gset nat) :=
  '(state, requested, _) ← request_remote_pull_incremental_batch_protocol31 entries batch_start
     checksum block_size state requested;
  state ← write_rsync31_index state RSYNC_INDEX_DONE;
  say_flush;;
  mret (state, requested).

(** Further entries, which come after those there are. *)
Definition extend_file_list (entries extra : list RsyncFileListEntry) :
    result (list RsyncFileListEntry) RemoteError :=
  let extra := sort_remote_entries_for_sender_indexes extra in
  let all := entries ++ extra in
  let? _ := map_err RemoteList (check_rsync_file_list_budget size_of_entry all (p_max_alloc plan)) in
  let? _ := validate_remote_file_list_paths all in
  let? _ := validate_remote_sender_claims (p_trust plan) extra in
  Ok all.

(** The loop over the answers, between which the list may grow. *)
Fixpoint incremental_loop (fuel : nat) (checksum : RemoteFileChecksum)
    (final : RemoteFinalChecksum) (compression : option RemoteCompressionConfig)
    (block_size : nat) (entries : list RsyncFileListEntry)
    (read_state write_state : RsyncIndexState) (requested : gset nat)
    (stats : RemoteExecutionStats) : Pull (list RsyncFileListEntry * RemoteExecutionStats) :=
  match fuel with
  | O => throw (RemoteTransfer out_of_fuel)
  | S fuel =>
      locally (tick plan);;
      '(response, read_state) ← read_protocol31_sender_response read_state entries true
         (p_list_options plan);
      match response with
      | ResponseDone => mret (entries, stats)
      | ResponseFileListEof =>
          incremental_loop fuel checksum final compression block_size entries read_state
            write_state requested stats
      | ResponseExtraFileList extra =>
          all ← lift (extend_file_list entries extra);
          '(write_state, requested) ← request_batch all (length entries) checksum block_size
             write_state requested;
          incremental_loop fuel checksum final compression block_size all read_state
            write_state requested stats
      | ResponseFile index iflags sum_head =>
          entry_index ← lift (checked_remote_file_index index (length entries) 0);
          stats ← apply_remote_sender_file_response_protocol31 reopen plan final compression
            entries entry_index iflags sum_head stats;
          incremental_loop fuel checksum final compression block_size entries read_state
            write_state requested stats
      end
  end.

(** Each turn reads an index. *)
Definition run_incremental_loop (checksum : RemoteFileChecksum) (final : RemoteFinalChecksum)
    (compression : option RemoteCompressionConfig) (block_size : nat)
    (entries : list RsyncFileListEntry) (write_state : RsyncIndexState)
    (requested : gset nat) : Pull (list RsyncFileListEntry * RemoteExecutionStats) := λ p,
  incremental_loop (S (budget p.2)) checksum final compression block_size entries
    RsyncIndexState_default write_state requested no_execution p.

Definition pull_incremental31 (checksum_name : option (list Z)) (checksum_seed : Z)
    (listed : list RsyncFileListEntry) : Pull RemoteExecutionStats :=
  entries ← lift (accept_file_list listed);
  create_destination;;
  checksum ← lift (map_err RemoteTransfer (file_checksum_protocol31 checksum_name checksum_seed));
  final ← lift (map_err RemoteTransfer (final_checksum_protocol31 checksum_name));
  compression ← lift (map_err RemoteTransfer (p_compression plan));
  block_size ← lift (map_err RemoteTransfer (remote_delta_block_size (p_block_size plan)));
  '(write_state, requested) ← request_batch entries 0 checksum block_size
     RsyncIndexState_default ∅;
  '(entries, stats) ← run_incremental_loop checksum final compression block_size entries
     write_state requested;
  delete_extras (selected_remote_entries entries (selected_indexes entries));;
  finish_protocol31;;
  mret stats.

Definition pull_protocol31 (checksum_name : option (list Z)) (checksum_seed : Z) :
    Pull RemoteExecutionStats :=
  say (with_err TransferIo (write_i32_le 0));;
  say_flush;;
  listed ← hear_file_list31;
  if p_incremental plan then pull_incremental31 checksum_name checksum_seed listed
  else pull_whole_list31 checksum_name checksum_seed listed.
End pull.

(** ** Push *)

(** Of a plan, what a push looks at. *)
Record PushPlan := {
  u_sources : list PathBuf;
  u_collect : LocalSourceCollectOptions;
  u_dry_run : bool;
  u_delete : bool;
  u_append_verify : bool;
  u_to_daemon : bool;
  u_max_alloc : option Z;
  u_stop_deadline : option Z;
  u_compression : result (option RemoteCompressionConfig) TransferError;
  u_list_options : RsyncFileListOptions;
  u_depth : nat;
}.

Section push.
Context `{Platform} `{Clock} `{Digests} `{Zlib} `{SignatureSize}.
Context {FS : Type} `{PortableFileSystem FS} {Fl : Type} `{Source Fl}.
Context {R : Type} `{Read R} {W : Type} `{Write W}.
Context (size_of_entry : Z) (open_source : PathBuf → result Fl TransferError).
Context (os_metadata : PathBuf → OsMetadata) (fs : FS) (plan : PushPlan).

Abbreviation Serving := (M (Sender Fl * W * R) RemoteError).

(** The sources, whose batches go to [on_batch] as they are found. *)
Definition collect_push_sources {T} (on_batch : FileListBatch → M T RemoteError unit) :
    M T RemoteError (list RemoteSourceEntry * nat) :=
  collect_local_push_source_entries_with_batches open_source os_metadata fs (u_collect plan)
    size_of_entry (u_depth plan) (u_sources plan) (u_max_alloc plan) on_batch.

(** The calls of a writer of file lists, whose state is local to [m]. *)
Definition with_list_writer {T A} (start : T) (m : M (T * W) RemoteError A) : Serving A :=
  on_fst (on_snd (Rsync27.with_state start m)).

Definition runtime_of (compression : option RemoteCompressionConfig) : RemoteTransferRuntime :=
  {| rt_compression := compression; rt_max_alloc := u_max_alloc plan;
     rt_stop_deadline := u_stop_deadline plan |}.

Definition push_protocol27 (checksum_seed : Z) : Serving RemoteExecutionStats :=
  (if u_delete plan then say_i32 0 else mret tt);;
  '(sources, _) ← with_list_writer (Rsync27.new (l_include_checksums (u_collect plan)))
    (found ← collect_push_sources (λ batch, with_err RemoteList (Rsync27.write_batch (entries batch)));
     with_err RemoteList Rsync27.finish;;
     mret found);
  say_i32 0;;
  say_flush;;
  compression ← lift (map_err RemoteTransfer (u_compression plan));
  serve_remote_receiver_requests open_source sources (runtime_of compression) checksum_seed
    (u_dry_run plan).

Definition push_protocol31 (checksum_name : option (list Z)) (checksum_seed : Z) :
    Serving RemoteExecutionStats :=
  (if u_delete plan then say (with_err TransferIo (write_i32_le 0));; say_flush else mret tt);;
  '(sources, _) ← with_list_writer (Rsync31.new (u_list_options plan))
    (found ← collect_push_sources (λ batch, with_err RemoteList (Rsync31.write_batch (entries batch)));
     with_err RemoteList Rsync31.finish;;
     mret found);
  say_flush;;
  let sources := if u_to_daemon plan then sources
                 else sort_remote_source_entries_for_sender_indexes sources in
  compression ← lift (map_err RemoteTransfer (u_compression plan));
  checksum ← lift (map_err RemoteTransfer (file_checksum_protocol31 checksum_name checksum_seed));
  serve_remote_receiver_requests_protocol31 open_source sources (runtime_of compression)
    (u_dry_run plan) (u_append_verify plan) checksum.
End push.
