(* ===== verification/RemoteConfined.v ===== *)
(** * Where a pull writes

    Whatever bytes a sender puts on the wire, every call of a pull that changes the file
    system is for a path below the destination, and a dry run makes none.  This is shown
    over any relation between file systems that those calls keep. *)

From stdpp Require Import sorting.
From S2P Require Import Prelude Stream WireIo Str Text Filter Session Handshake FsPath Metadata.
From S2P Require Import FileSystem SyncPlan WinPath Delta Daemon DeflatedTokens TransferSums.
From S2P Require Import Transfer Flist Flist27 Flist31 RemoteFiles RemoteOrder RemoteWire.
From S2P Require Import RemotePull RemoteRuns.

(** ** Computations that keep a relation on a part of their state *)

Section stays.
Context {FS : Type} (same : FS → FS → Prop) {same_preorder : PreOrder same}.

Definition stays_in {S E A} (fs_of : S → FS) (m : M S E A) : Prop :=
  ∀ s, same (fs_of s) (fs_of (m s).2).

Section rules.
Context {S E : Type} (fs_of : S → FS).
Local Abbreviation stays := (stays_in (E := E) fs_of).

Lemma stays_ret {A} (a : A) : stays (mret a).
Proof. intros s. reflexivity. Qed.
Lemma stays_throw {A} e : stays (throw (A := A) e).
Proof. intros s. reflexivity. Qed.
Lemma stays_lift {A} (r : result A E) : stays (lift r).
Proof. intros s. reflexivity. Qed.
Lemma stays_get : stays get.
Proof. intros s. reflexivity. Qed.

Lemma stays_bind {A B} (m : M S E A) (f : A → M S E B) :
  stays m → (∀ a, stays (f a)) → stays (m ≫= f).
Proof.
  intros Hm Hf s. unfold mbind, M_bind. specialize (Hm s).
  destruct (m s) as [[a|e] s']; [|exact Hm]. etrans; [exact Hm|apply Hf].
Qed.

Lemma stays_lift_bind {A B} (r : result A E) (f : A → M S E B) :
  (∀ a, r = Ok a → stays (f a)) → stays (lift r ≫= f).
Proof.
  intros Hf s. unfold mbind, M_bind, lift. destruct r as [a|e]; [by apply Hf|reflexivity].
Qed.

Lemma stays_for_each {A} (f : A → M S E unit) xs :
  (∀ x, x ∈ xs → stays (f x)) → stays (for_each f xs).
Proof.
  induction xs as [|x xs IH]; intros Hf; cbn [for_each]; [apply stays_ret|].
  apply stays_bind; [apply Hf; left|]. intros _. apply IH. intros y Hy. apply Hf. by right.
Qed.

Lemma stays_with_err {E' A} (g : E' → E) (m : M S E' A) :
  stays_in fs_of m → stays (with_err g m).
Proof. intros Hm s. unfold with_err. specialize (Hm s). by destruct (m s). Qed.

Lemma stays_on_fst {T A} (m : M S E A) :
  stays m → stays_in (λ p : S * T, fs_of p.1) (on_fst m).
Proof. intros Hm p. unfold on_fst. specialize (Hm p.1). by destruct (m p.1). Qed.

Lemma stays_on_snd {T A} (m : M T E A) : stays_in (λ p : S * T, fs_of p.1) (on_snd m).
Proof. intros p. unfold on_snd. destruct (m p.2). reflexivity. Qed.
End rules.
End stays.

(** ** Names below the destination *)

Section below.
Context `{Platform} (dest : PathBuf).

Definition below (path : PathBuf) : Prop := ∃ names, path = dest ++ (Normal <$> names).

Lemma join_names (d : PathBuf) names : path_join d (Normal <$> names) = d ++ (Normal <$> names).
Proof. destruct names as [|name names]; unfold path_join; cbn; by repeat case_match. Qed.

Lemma names_snoc names name :
  dest ++ (Normal <$> (names ++ [name])) = (dest ++ (Normal <$> names)) ++ [Normal name].
Proof. by rewrite fmap_app, app_assoc. Qed.

Lemma below_dest : below dest.
Proof. exists []. by rewrite app_nil_r. Qed.

(** The entries of an accepted list are below the destination, the top directory apart. *)
Definition placed (entries : list RsyncFileListEntry) : Prop :=
  ∀ e, e ∈ entries → remote_entry_is_top_dir e = false →
  ∃ names, names ≠ [] ∧ Forall windows_name names ∧ wire_path e = Normal <$> names.

Lemma below_entry entries e :
  placed entries → e ∈ entries → remote_entry_is_top_dir e = false →
  below (path_join dest (wire_path e)).
Proof.
  intros Hp He Htop. destruct (Hp e He Htop) as (names & _ & _ & ->).
  exists names. apply join_names.
Qed.

Lemma temp_name_plain name (pid nanos : nat) :
  windows_name name →
  let temp := lit "." ++ name ++ lit "." ++ decimal (Z.of_nat pid) ++ lit "." ++
              decimal (Z.of_nat nanos) ++ lit ".recv" in
  parse_path temp = [Normal temp].
Proof.
  intros Hn temp.
  assert (Hchars : ∀ c, is_invalid_windows_character c = true → is_ascii_digit c = false →
                   c ≠ ch "." → c ∉ lit ".recv" → c ∉ temp).
  { intros c Hc Hd Hdot Hrecv. unfold temp. rewrite !elem_of_app.
    assert (Hdigits : ∀ n, c ∉ decimal (Z.of_nat n)).
    { intros n Hin%list_elem_of_In. pose proof (decimal_digits (Z.of_nat n) ltac:(lia)) as Hall.
      rewrite forallb_forall in Hall. by rewrite (Hall c Hin) in Hd. }
    pose proof (windows_name_without name c Hn Hc) as Hname.
    assert (c ∉ lit ".") by (cbn; by rewrite list_elem_of_singleton).
    by intros [?|[?|[?|[?%Hdigits|[?|[?%Hdigits|?]]]]]]. }
  assert (Hlen : (length temp > 2)%nat).
  { unfold temp. rewrite !length_app. cbn. lia. }
  apply plain_name_parses.
  all: first [intros E; rewrite E in Hlen; cbn in Hlen; lia
             |apply Hchars; [reflexivity|reflexivity|discriminate|by apply (bool_decide_unpack _)]].
Qed.

(** The temporary file is beside its target. *)
Lemma temp_beside `{TempNames} (base : PathBuf) name n :
  windows_name name → ∃ temp, receive_temp_path n (base ++ [Normal name]) = base ++ [Normal temp].
Proof.
  intros Hname.
  assert (Hlast : last (base ++ [Normal name]) = Some (Normal name)) by apply last_snoc.
  assert (Hparent : parent (base ++ [Normal name]) = Some base).
  { unfold parent. rewrite Hlast, length_app. cbn [length]. f_equal.
    rewrite Nat.add_sub. apply take_app_length. }
  unfold receive_temp_path, file_name. rewrite Hparent, Hlast.
  cbn [default from_option id]. rewrite temp_name_plain by done.
  match goal with |- context [ [Normal ?t] ] => exists t end.
  apply (join_names base [_]).
Qed.

Lemma below_temp `{TempNames} entries e n :
  placed entries → e ∈ entries → remote_entry_is_top_dir e = false →
  below (receive_temp_path n (path_join dest (wire_path e))).
Proof.
  intros Hp He Htop. destruct (Hp e He Htop) as (names & Hne & Hnames & ->).
  rewrite join_names. destruct names as [|name names _] using rev_ind; [done|].
  apply Forall_app in Hnames as [_ Hname%Forall_inv].
  rewrite names_snoc. destruct (temp_beside (dest ++ (Normal <$> names)) name n Hname) as [temp ->].
  exists (names ++ [temp]). by rewrite names_snoc.
Qed.

(** What is not filtered is a path of names. *)
Lemma filtered_names rules side stops kind current components :
  filtered_from rules side stops kind current components = false →
  ∃ names, components = Normal <$> names.
Proof.
  revert current. induction components as [|c components IH]; intros current; cbn; [by exists []|].
  destruct c as [| | | |name]; try done. intros [_ Hrest]%orb_false_iff.
  destruct (IH _ Hrest) as [names ->]. by exists (name :: names).
Qed.

Lemma below_extra path relative rules t :
  path_strip_prefix path dest = Some relative → remote_delete_is_protected rules relative t = false →
  below path.
Proof.
  unfold path_strip_prefix, path_starts_with. case_bool_decide as Hpre; [|done].
  intros [= <-] [names Hn]%filtered_names. exists names. rewrite <-Hn.
  rewrite <-Hpre at 1. symmetry. apply take_drop.
Qed.
End below.

(** Every element of an accepted list is placed. *)
Section accepted.
Context `{Platform} `{Unicode} (size_of_entry : Z) (plan : PullPlan).

Lemma validated_placed entries : validate_remote_file_list_paths entries = Ok () → placed entries.
Proof. intros Hv e He Htop. by apply (validated_entry entries). Qed.

Lemma accepted_placed listed entries :
  accept_file_list size_of_entry plan listed = Ok entries → placed entries.
Proof.
  unfold accept_file_list. destruct (map_err _ _); [cbn|done].
  destruct (validate_remote_file_list_paths _) as [[]|] eqn:Hv; [cbn|done].
  destruct (validate_remote_sender_claims _ _); [cbn|done]. intros [= <-].
  by apply validated_placed.
Qed.

Lemma extended_placed entries extra all :
  extend_file_list size_of_entry plan entries extra = Ok all → placed all.
Proof.
  unfold extend_file_list. destruct (map_err _ _); [cbn|done].
  destruct (validate_remote_file_list_paths _) as [[]|] eqn:Hv; [cbn|done].
  destruct (validate_remote_sender_claims _ _); [cbn|done]. intros [= <-].
  by apply validated_placed.
Qed.
End accepted.

(** ** The calls of a pull *)

Section confined.
Context `{Platform} `{Unicode} `{TempNames} `{Clock} `{Digests} `{Zlib} `{SignatureSize}.
Context {FS : Type} `{PortableFileSystem FS} {Fl : Type} `{Source Fl} `{LocalFiles FS Fl}.
Context {R : Type} `{Read R} {W : Type} `{Write W}.
Context (size_of_entry : Z) (reopen : list Z → result Fl TransferError) (plan : PullPlan).
Context (same : FS → FS → Prop) {same_preorder : PreOrder same}.

(** The calls that change files keep [same], for a path below the destination. *)
Record confined_calls : Prop := {
  confined_create_dir path : below (p_dest plan) path → stays_in same id (create_dir_all path);
  confined_remove_file path : below (p_dest plan) path → stays_in same id (remove_file path);
  confined_remove_dir path : below (p_dest plan) path → stays_in same id (remove_dir_all path);
  confined_mtime path time : below (p_dest plan) path → stays_in same id (set_mtime path time);
  confined_copy source path options : below (p_dest plan) path →
    stays_in same id (copy_file_with_options source path options);
  confined_append path source offset : below (p_dest plan) path →
    stays_in same id (append_file_from path source offset);
  confined_create path : below (p_dest plan) path → stays_in same id (create_local_file path);
  confined_fill path bytes : below (p_dest plan) path →
    stays_in same id (fill_local_file path bytes);
  confined_remove path fs : below (p_dest plan) path →
    same fs (remove_local_file_best_effort path fs);
}.

(** A dry run makes none of them. *)
Hypothesis confined : p_dry_run plan = false → confined_calls.

Local Abbreviation local := (stays_in (E := RemoteError) same (@pull_fs FS)).
Local Abbreviation pull :=
  (stays_in (E := RemoteError) same (λ p : Pulling FS * W * R, pull_fs p.1.1)).

Lemma stays_receiving {A} (m : Receiving (F := FS) A) :
  stays_in same fst m → local (receiving m).
Proof.
  intros Hm s. unfold receiving. specialize (Hm (pull_fs s, pull_actions s)).
  by destruct (m (pull_fs s, pull_actions s)) as [r [fs actions]].
Qed.

Lemma stays_report action : stays_in same fst (report_action (F := FS) action).
Proof. intros s. reflexivity. Qed.

Lemma stays_on_fs {A} (m : M FS FsError A) : stays_in same id m → stays_in same fst (on_fs m).
Proof. intros Hm. apply (stays_on_fst same id). by apply stays_with_err. Qed.

Lemma stays_os {A} (m : M FS TransferError A) : stays_in same id m → local (os m).
Proof.
  intros Hm. apply stays_receiving. apply (stays_on_fst same id). by apply stays_with_err.
Qed.

Lemma stays_note action : local (note action).
Proof. apply stays_receiving, stays_report. Qed.

Lemma stays_tick : local (tick plan).
Proof.
  intros s. unfold tick. destruct (check_transfer_deadline _ _). reflexivity.
Qed.

Lemma stays_locally {A} (m : M (Pulling FS) RemoteError A) : local m → pull (locally m).
Proof. intros Hm. by apply (stays_on_fst same (λ q, pull_fs q.1)), stays_on_fst. Qed.

Lemma stays_hear {A} (m : M R TransferError A) : pull (hear m).
Proof. apply (stays_on_snd same (λ q, pull_fs q.1)); exact _. Qed.

Lemma stays_hear_list {A} (m : M R FileListError A) : pull (hear_list m).
Proof. apply (stays_on_snd same (λ q, pull_fs q.1)); exact _. Qed.

Lemma stays_say {A} (m : M W TransferError A) : pull (say m).
Proof.
  apply (stays_on_fst same (λ q : Pulling FS * W, pull_fs q.1)), stays_with_err.
  apply (stays_on_snd same); exact _.
Qed.
Create HintDb stays.
#[local] Hint Resolve stays_ret stays_throw stays_lift stays_get stays_note stays_tick stays_report
  stays_hear stays_hear_list stays_say stays_locally : stays.

(** Take a computation apart at its binds and branches. *)
Ltac stay_step :=
  lazymatch goal with
  | |- stays_in _ _ (lift _ ≫= _) => apply stays_lift_bind; [exact _|intros ? ?]
  | |- stays_in _ _ (_ ≫= _) => apply stays_bind; [exact _|..]
  | |- stays_in _ _ (if p_dry_run _ then _ else _) => case_eq (p_dry_run plan); intros ?
  | |- stays_in _ _ (match ?x with _ => _ end) => destruct x eqn:?
  | |- stays_in _ _ _ => solve [eauto with stays nocore typeclass_instances]
  end.
Ltac stay_with a H := apply stays_lift_bind; [exact _|]; intros a H.
Ltac stay := repeat (intros; cbv beta zeta; stay_step).

Lemma stays_note_and_do {A} action (call : M FS FsError A) :
  (p_dry_run plan = false → stays_in same id call) → local (note_and_do plan action call).
Proof.
  intros Hc. unfold note_and_do. stay. apply stays_receiving. apply stays_on_fs. by apply Hc.
Qed.

Section writing.
Hypothesis wet : p_dry_run plan = false.

Lemma stays_preserve_mtime e target :
  below (p_dest plan) target → local (preserve_remote_mtime plan e target).
Proof.
  intros Ht. unfold preserve_remote_mtime. stay. apply stays_receiving, stays_on_fs.
  by apply confined_mtime; [apply confined|].
Qed.

Lemma stays_sync_len n : local (sync_len (FS := FS) n).
Proof. unfold sync_len. stay. Qed.
#[local] Hint Resolve stays_preserve_mtime stays_sync_len : stays.

Lemma stays_write_received e target source n :
  below (p_dest plan) target → local (write_received_file_from_path plan e target source n).
Proof.
  intros Ht. unfold write_received_file_from_path, write_whole_file. stay.
  - apply stays_receiving, stays_on_fs. by apply confined_append; [apply confined|].
  - apply stays_receiving, stays_on_fs. by apply confined_copy; [apply confined|].
Qed.

Lemma stays_tokens final e basis compression : pull (receive_tokens reopen plan final e basis compression).
Proof.
  intros [[s w] r]. unfold receive_tokens.
  destruct (read_file_tokens_to_path_with_basis _ _ _ _ _ _ _ _ _) as [[total|err] [st r']];
    reflexivity.
Qed.

Lemma stays_and_remove {A} temp_path (m : M (Pulling FS * W * R) RemoteError A) :
  below (p_dest plan) temp_path → pull m → pull (and_remove_temp temp_path m).
Proof.
  intros Ht Hm p. unfold and_remove_temp. specialize (Hm p).
  destruct (m p) as [r [[s w] r']]. cbn in *. etrans; [exact Hm|].
  by apply confined_remove; [apply confined|].
Qed.

Lemma stays_fresh {B} target (f : PathBuf → M (Pulling FS * W * R) RemoteError B) :
  (∀ n, pull (f (receive_temp_path n target))) → pull (locally (fresh_temp_path target) ≫= f).
Proof.
  intros Hf [[s w] r]. unfold locally, on_fst, fresh_temp_path, mbind, M_bind. cbn.
  exact (Hf (pull_temps s) (Build_Pulling (pull_fs s) (pull_actions s) (pull_readings s)
    (S (pull_temps s)), w, r)).
Qed.

Lemma stays_receive_file final entries e sum_head compression :
  placed entries → e ∈ entries → remote_entry_is_top_dir e = false →
  pull (receive_file reopen plan final e sum_head compression).
Proof.
  intros Hp He Htop. unfold receive_file. apply stays_fresh. intros n.
  assert (Htemp := below_temp (p_dest plan) entries e n Hp He Htop).
  assert (Htarget := below_entry (p_dest plan) entries e Hp He Htop).
  apply stays_bind; [exact _|apply stays_and_remove; [done|]|stay].
  apply stays_bind; [exact _| |intros _].
  { apply stays_locally, stays_os. by apply confined_create; [apply confined|]. }
  apply stays_bind; [exact _|apply stays_tokens|intros [bytes total]].
  apply stays_bind; [exact _| |intros _].
  { apply stays_locally, stays_os. by apply confined_fill; [apply confined|]. }
  apply stays_bind; [exact _| |stay].
  by apply stays_locally, stays_write_received.
Qed.
End writing.
#[local] Hint Resolve stays_note_and_do stays_sync_len : stays.

(** ** Its phases *)

Lemma stays_pretend e stats : local (pretend_to_receive plan e stats).
Proof. unfold pretend_to_receive. stay. Qed.

Lemma stays_say_basis e block_size checksum : pull (say_basis plan e block_size checksum).
Proof. unfold say_basis. stay. Qed.

Lemma stays_say_i32 value : pull (say_i32 value).
Proof. apply stays_say. Qed.
Lemma stays_say_flush : pull say_flush.
Proof. apply stays_say. Qed.
Lemma stays_say_index state index : pull (say_index state index).
Proof. apply stays_say. Qed.
Lemma stays_hear_i32 : pull hear_i32.
Proof. apply stays_hear. Qed.
Lemma stays_hear_index state : pull (hear_index state).
Proof. apply stays_hear. Qed.
#[local] Hint Resolve stays_pretend stays_say_basis stays_say_i32 stays_say_flush stays_say_index
  stays_hear_i32 stays_hear_index : stays.

Lemma stays_write_index state index : pull (write_rsync31_index state index).
Proof. unfold write_rsync31_index. stay. Qed.
#[local] Hint Resolve stays_write_index : stays.

Lemma stays_write_done : pull write_rsync31_done.
Proof. unfold write_rsync31_done. stay. Qed.
Lemma stays_expect_done error : pull (expect_done error).
Proof. unfold expect_done, read_multiplexed_rsync31_index. stay. Qed.
#[local] Hint Resolve stays_write_done stays_expect_done : stays.

Lemma stays_requests27 selected offset block_size checksum entries :
  pull (request_files27 plan selected offset block_size checksum entries).
Proof. induction entries as [|[index e] entries IH]; cbn [request_files27]; stay. Qed.
#[local] Hint Resolve stays_requests27 : stays.

Lemma stays_request_files27 entries selected offset block_size checksum :
  pull (request_remote_sender_files plan entries selected offset block_size checksum).
Proof. unfold request_remote_sender_files. stay. Qed.

Lemma stays_requests31 selected offset block_size checksum entries state requested requests :
  pull (request_files31 plan selected offset block_size checksum entries state requested requests).
Proof.
  revert state requested requests.
  induction entries as [|[index e] entries IH]; intros; cbn [request_files31]; stay.
Qed.
#[local] Hint Resolve stays_request_files27 stays_requests31 : stays.

Lemma stays_request_indexes entries selected requested offset block_size checksum state :
  pull (request_remote_sender_file_indexes_protocol31 plan entries selected requested offset
          block_size checksum state).
Proof. unfold request_remote_sender_file_indexes_protocol31. stay. Qed.
#[local] Hint Resolve stays_request_indexes : stays.

Lemma stays_request_files31 entries selected offset block_size checksum :
  pull (request_remote_sender_files_protocol31 plan entries selected offset block_size checksum).
Proof. unfold request_remote_sender_files_protocol31. stay. Qed.

Lemma stays_response state entries allow opts :
  pull (read_protocol31_sender_response state entries allow opts).
Proof. unfold read_protocol31_sender_response. stay. Qed.
#[local] Hint Resolve stays_request_files31 stays_response : stays.

(** A file of an accepted list. *)
Lemma entry_of_list (entries : list RsyncFileListEntry) index e : entry_at entries index = Ok e → e ∈ entries.
Proof.
  unfold entry_at. destruct (entries !! index) eqn:Hi; [|done]. intros [= <-].
  by apply list_elem_of_lookup_2 with index.
Qed.

Lemma file_is_no_top_dir e : file_type e = File → remote_entry_is_top_dir e = false.
Proof. intros Hf. unfold remote_entry_is_top_dir. by rewrite Hf. Qed.

Lemma stays_answer27 final compression entries offset index stats :
  placed entries → pull (receive_answer27 reopen plan final compression entries offset index stats).
Proof.
  intros Hp. unfold receive_answer27. stay_step. intros. stay_step. case_bool_decide as Hf; [stay|].
  case_eq (p_dry_run plan); intros Hdry; [stay|].
  stay_step; [stay|intros]. stay_step; [|stay]. apply (stays_receive_file Hdry _ entries); [done|..].
  - by eapply entry_of_list.
  - apply file_is_no_top_dir. by destruct (file_type _).
Qed.

Lemma stays_apply31 final compression entries entry_index iflags sum_head stats :
  placed entries →
  pull (apply_remote_sender_file_response_protocol31 reopen plan final compression entries
          entry_index iflags sum_head stats).
Proof.
  intros Hp. unfold apply_remote_sender_file_response_protocol31. stay_step.
  case_bool_decide as Hf; [stay|]. case_eq (p_dry_run plan); intros Hdry; [rewrite orb_true_r; stay|].
  rewrite orb_false_r. case_match; [stay|].
  stay_step; [|stay]. apply (stays_receive_file Hdry _ entries); [done|..].
  - by eapply entry_of_list.
  - apply file_is_no_top_dir. by destruct (file_type _).
Qed.

Lemma stays_loop27 fuel final compression entries offset stats :
  placed entries → pull (receive_loop27 reopen plan fuel final compression entries offset stats).
Proof.
  intros Hp. revert stats. induction fuel as [|fuel IH]; intros; cbn [receive_loop27]; [stay|].
  stay_step; [stay|intros]. stay_step; [stay|intros]. stay_step; [stay|].
  stay_step; [by apply stays_answer27|intros; apply IH].
Qed.

Lemma stays_loop31 fuel final compression entries offset state stats :
  placed entries → pull (receive_loop31 reopen plan fuel final compression entries offset state stats).
Proof.
  intros Hp. revert state stats. induction fuel as [|fuel IH]; intros; cbn [receive_loop31]; [stay|].
  stay_step; [stay|intros]. stay_step; [stay|intros [response state']].
  destruct response; [stay..|]. stay_step. stay_step; [by apply stays_apply31|intros; apply IH].
Qed.

Lemma stays_create_destination : pull (create_destination plan).
Proof.
  unfold create_destination. stay. apply stays_locally, stays_note_and_do. intros Hdry.
  apply confined_create_dir; [by apply confined|apply below_dest].
Qed.

Lemma stays_create_directories entries :
  placed entries → pull (create_directories plan entries).
Proof.
  intros Hp. unfold create_directories. apply stays_for_each; [exact _|]. intros e He.
  destruct (remote_entry_is_top_dir e) eqn:Htop; cbn [orb]; [stay|]. case_bool_decide; [stay|].
  apply stays_locally, stays_note_and_do. intros Hdry.
  apply confined_create_dir; [by apply confined|by apply (below_entry _ entries)].
Qed.

Lemma stays_delete_extra dest keep filter_rules files_from entry :
  dest = p_dest plan →
  stays_in same fst (delete_extra (F := FS) dest keep filter_rules files_from (p_dry_run plan) entry).
Proof.
  intros ->. unfold delete_extra. stay_with relative Hstrip.
  destruct (path_strip_prefix _ _) as [relative'|] eqn:Hrel; [|done].
  cbn in Hstrip. injection Hstrip as <-. cbv zeta. destruct (negb _ || remote_delete_is_protected _ _ _) eqn:Hkept; [stay|].
  apply orb_false_iff in Hkept as [_ Hkept].
  assert (Hbelow := below_extra (p_dest plan) _ _ _ _ Hrel Hkept). stay.
  - apply stays_on_fs. by apply confined_remove_dir; [apply confined|].
  - apply stays_on_fs. by apply confined_remove_file; [apply confined|].
Qed.

Lemma stays_delete_extras entries : pull (delete_extras plan entries).
Proof.
  unfold delete_extras. stay. apply stays_locally, stays_receiving. unfold delete_local_extras. stay.
  apply stays_for_each; [exact _|]. intros. by apply stays_delete_extra.
Qed.

Lemma stays_transfer_indexes entries selected : pull (transfer_indexes plan entries selected).
Proof. unfold transfer_indexes. stay. Qed.

Lemma placed_sublist entries entries' :
  (∀ e, e ∈ entries' → e ∈ entries) → placed entries → placed entries'.
Proof. intros Hsub Hp e He. by apply Hp, Hsub. Qed.

Lemma selected_sublist entries selected e :
  e ∈ selected_remote_entries entries selected → e ∈ entries.
Proof.
  unfold selected_remote_entries. intros ([index e'] & He & Hin)%list_elem_of_fmap. cbn in He. subst e'.
  apply list_elem_of_In, filter_In in Hin as [Hin%list_elem_of_In _].
  unfold enumerate in Hin. by apply elem_of_zip_r in Hin.
Qed.

Lemma stays_prepare entries selected : placed entries → pull (prepare_destination plan entries selected).
Proof.
  intros Hp. unfold prepare_destination. cbv zeta. stay_step.
  stay_step; [apply stays_create_destination|intros].
  stay_step; [apply stays_transfer_indexes|intros].
  stay_step; [apply stays_delete_extras|intros].
  stay_step; [|stay]. apply stays_create_directories.
  eapply placed_sublist, Hp. apply selected_sublist.
Qed.

Lemma stays_finish31 : pull finish_protocol31.
Proof. unfold finish_protocol31, read_remote_sender_protocol31_stats. stay. Qed.

(** ** Whole runs *)

Lemma stays_pull27 checksum_seed : pull (pull_protocol27 size_of_entry reopen plan checksum_seed).
Proof.
  unfold pull_protocol27. do 3 (stay_step; [stay|intros]). stay_with es Hok.
  pose proof (accepted_placed _ _ _ _ Hok) as Hp. stay_step; [stay|intros].
  stay_step; [stay|]. cbv zeta. stay_step; [by apply stays_prepare|intros]. stay_step.
  do 2 (stay_step; [stay|intros]). stay_step.
  stay_step; [intros q; by apply stays_loop27|stay].
Qed.

Lemma stays_whole31 checksum_name checksum_seed listed :
  pull (pull_whole_list31 size_of_entry reopen plan checksum_name checksum_seed listed).
Proof.
  unfold pull_whole_list31. stay_with es Hok. cbv zeta.
  pose proof (accepted_placed _ _ _ _ Hok) as Hp.
  stay_step; [by apply stays_prepare|intros]. do 2 stay_step.
  do 2 (stay_step; [stay|intros]). do 2 stay_step.
  stay_step; [intros q; by apply stays_loop31|intros]. stay_step; [apply stays_finish31|stay].
Qed.

Lemma stays_request_batch entries batch_start checksum block_size state requested :
  placed entries → pull (request_batch plan entries batch_start checksum block_size state requested).
Proof.
  intros Hp. unfold request_batch, request_remote_pull_incremental_batch_protocol31.
  stay_step; [|stay]. stay_step; [|intros].
  - apply stays_create_directories. eapply placed_sublist, Hp.
    intros e (index & _ & He)%list_elem_of_omap. by apply list_elem_of_lookup_2 with index.
  - stay_step; [apply stays_transfer_indexes|stay].
Qed.

Lemma stays_incremental fuel checksum final compression block_size entries read_state write_state
    requested stats :
  placed entries →
  pull (incremental_loop size_of_entry reopen plan fuel checksum final compression block_size
          entries read_state write_state requested stats).
Proof.
  revert entries read_state write_state requested stats.
  induction fuel as [|fuel IH]; intros ????? Hp; cbn [incremental_loop]; [stay|].
  stay_step; [stay|intros]. stay_step; [stay|intros [response state']].
  destruct response as [| |extra|index iflags sum_head]; [stay|by apply IH|..].
  - stay_with es Hok. pose proof (extended_placed _ _ _ _ _ Hok) as Hall.
    stay_step; [by apply stays_request_batch|intros []; by apply IH].
  - stay_step. stay_step; [by apply stays_apply31|intros; by apply IH].
Qed.

Lemma stays_incremental31 checksum_name checksum_seed listed :
  pull (pull_incremental31 size_of_entry reopen plan checksum_name checksum_seed listed).
Proof.
  unfold pull_incremental31. stay_with es Hok.
  pose proof (accepted_placed _ _ _ _ Hok) as Hp.
  stay_step; [apply stays_create_destination|intros]. do 4 stay_step.
  stay_step; [by apply stays_request_batch|intros []].
  stay_step; [intros q; by apply stays_incremental|intros []].
  stay_step; [apply stays_delete_extras|intros].
  stay_step; [apply stays_finish31|stay].
Qed.

Lemma stays_pull31 checksum_name checksum_seed :
  pull (pull_protocol31 size_of_entry reopen plan checksum_name checksum_seed).
Proof.
  unfold pull_protocol31. do 3 (stay_step; [stay|intros]).
  destruct (p_incremental plan); [apply stays_incremental31|apply stays_whole31].
Qed.
End confined.
