(* ===== verification/RemoteMemory.v ===== *)
(** * Pulls into a file system in memory

    The files a pull opens and creates, in memory, and that without links its calls
    leave everything outside the destination as it is.  Then the properties of a pull on
    where it writes, with a run of a whole pull from its bytes. *)

From stdpp Require Import sorting.
From S2P Require Import Prelude Stream WireIo Str Text Filter Session Handshake FsPath Metadata.
From S2P Require Import FileSystem MemoryFs MemoryFsFacts SyncPlan WinPath Delta Daemon.
From S2P Require Import DeflatedTokens DeflatedFacts TransferSums Transfer TransferFacts.
From S2P Require Import Flist Flist27 Flist31 RemoteFiles RemoteOrder RemoteWire RemotePull.
From S2P Require Import RemoteRuns RemoteConfined.

Section memory.
Context `{Platform}.

(** A file in memory gives its bytes at once. *)
#[export] Instance memory_files : LocalFiles MemoryFileSystem Pieces := {|
  open_local_file fs path :=
    map_err (λ _, TransferFailed "failed to open {}")
      (let? bytes := memory_read_file fs path in Ok {| left := bytes; sizes := [] |});
  create_local_file path :=
    with_err (λ _, TransferFailed "failed to create {}") (memory_write_file_atomic path []);
  fill_local_file path bytes :=
    with_err (λ _, TransferFailed "failed to write {}") (memory_write_file_atomic path bytes);
  remove_local_file_best_effort path fs := (memory_remove_file path fs).2;
|}.

(** ** What is outside a destination *)

Implicit Types (fs : MemoryFileSystem) (p q : PathBuf).

(** Nothing outside [dest] changes, but that directories above it may be made; and
    there are no links where there were none. *)
Definition outside_kept (dest : PathBuf) (fs fs' : MemoryFileSystem) : Prop :=
  plain (nodes fs) → plain (nodes fs') ∧
  ∀ q, ¬ dest `prefix_of` q →
    nodes fs' !! q = nodes fs !! q ∨
    q `prefix_of` dest ∧ nodes fs !! q = None ∧ nodes fs' !! q = Some directory_node.

#[export] Instance outside_kept_preorder dest : PreOrder (outside_kept dest).
Proof.
  split.
  - intros fs Hp. split; [done|]. auto.
  - intros fs1 fs2 fs3 H12 H23 Hp. destruct (H12 Hp) as [Hp2 Hq2]. destruct (H23 Hp2) as [Hp3 Hq3].
    split; [done|]. intros q Hq.
    destruct (Hq2 q Hq) as [E2|(? & ? & E2)], (Hq3 q Hq) as [E3|(? & ? & E3)];
      [left|right|right|]; try split_and!; congruence.
Qed.

Section calls.
Variable dest : PathBuf.
Hypothesis dest_portable : portable dest.

Local Abbreviation kept m := (stays_in (outside_kept dest) id m).

Lemma below_portable p : below dest p → portable p ∧ dest `prefix_of` p.
Proof using dest_portable.
  intros [names ->]. split; [|by exists (Normal <$> names)].
  apply Forall_app. split; [done|]. apply Forall_fmap, Forall_true. by intros.
Qed.

Lemma kept_same fs fs' : nodes fs' = nodes fs → outside_kept dest fs fs'.
Proof. intros E Hp. rewrite E. auto. Qed.

Lemma kept_node p node fs :
  dest `prefix_of` p → node_type node ≠ Metadata.Symlink →
  outside_kept dest fs (set_nodes (<[p := node]> (nodes fs)) fs).
Proof.
  intros Hpre Hn Hp. split; [by apply plain_insert|]. intros q Hq. left. cbn.
  apply lookup_insert_ne. by intros ->.
Qed.

Lemma kept_delete p fs : dest `prefix_of` p → outside_kept dest fs (set_nodes (delete p (nodes fs)) fs).
Proof.
  intros Hpre Hp. split.
  - intros q node Hnode. cbn in Hnode. apply lookup_delete_Some in Hnode as [_ Hq]. by apply (Hp q).
  - intros q Hq. left. apply lookup_delete_ne. by intros ->.
Qed.

(** Directories down to a path below the destination, or to a parent of one. *)
Lemma kept_dirs p fs :
  portable p → (∀ q, q `prefix_of` p → dest `prefix_of` q ∨ q `prefix_of` dest) →
  outside_kept dest fs (set_nodes (with_dirs p (nodes fs)) fs).
Proof.
  intros Hport Hway Hp. split; [by apply plain_with_dirs|]. intros q Hq. cbn.
  rewrite with_dirs_lookup by done. destruct (nodes fs !! q); [by left|].
  case_decide as Hpre; [|by left]. right. by destruct (Hway q Hpre).
Qed.

Lemma way_below p q : dest `prefix_of` p → q `prefix_of` p → dest `prefix_of` q ∨ q `prefix_of` dest.
Proof. intros Hd Hq. by eapply prefix_weak_total. Qed.

Lemma parent_prefix p q : parent p = Some q → q `prefix_of` p.
Proof. unfold parent. repeat case_match; intros [= <-]; apply prefix_take. Qed.

Lemma kept_create_dir p : below dest p → kept (memory_create_dir_all p).
Proof using dest_portable.
  intros [Hport Hpre]%below_portable fs Hp. cbn. rewrite create_dir_all_plain by done.
  apply kept_dirs; [done| |done]. intros q. by apply way_below.
Qed.

Lemma kept_write p bytes : below dest p → kept (memory_write_file_atomic p bytes).
Proof using dest_portable.
  intros [Hport Hpre]%below_portable fs Hp. cbn. rewrite write_plain by done. cbn.
  revert Hp. change (outside_kept dest fs
    (set_nodes (<[p := file_node bytes]> (nodes (set_nodes (with_parents p (nodes fs)) fs)))
       (set_nodes (with_parents p (nodes fs)) fs))).
  transitivity (set_nodes (with_parents p (nodes fs)) fs); [|by apply kept_node].
  unfold with_parents. destruct (parent p) as [q|] eqn:Hq; [|by apply kept_same].
  apply kept_dirs; [by eapply portable_parent|]. intros r Hr. apply (way_below p); [done|].
  etrans; [exact Hr|by apply parent_prefix].
Qed.

Lemma kept_read {A} (f : MemoryFileSystem → result A FsError) : kept (ask f).
Proof. intros fs. cbn. reflexivity. Qed.

Lemma kept_insert p node : dest `prefix_of` p → node_type node ≠ Metadata.Symlink → kept (insert_node p node).
Proof. intros Hpre Hn fs. by apply kept_node. Qed.

Lemma ask_bind {A B} (f : MemoryFileSystem → result A FsError)
    (k : A → M MemoryFileSystem FsError B) fs a :
  f fs = Ok a → (ask f ≫= k) fs = k a fs.
Proof. intros Hf. unfold ask, mbind, M_bind. by rewrite Hf. Qed.

Lemma ask_fails {A B} (f : MemoryFileSystem → result A FsError)
    (k : A → M MemoryFileSystem FsError B) fs e :
  f fs = Err e → (ask f ≫= k) fs = (Err e, fs).
Proof. intros Hf. unfold ask, mbind, M_bind. by rewrite Hf. Qed.

(** A call on the node at a portable path. *)
Lemma kept_at {B} p (resolve : MemoryFileSystem → PathBuf → result PathBuf FsError)
    (f : PathBuf → MemoryNode → M MemoryFileSystem FsError B) :
  (∀ fs, plain (nodes fs) → resolve fs p = Ok p) →
  (∀ fs node, nodes fs !! p = Some node → plain (nodes fs) → outside_kept dest fs (f p node fs).2) →
  kept (p' ← ask (λ fs, resolve fs p); node ← ask (λ fs, ok_or (nodes fs !! p') (NotFound p')); f p' node).
Proof.
  intros Hr Hf fs Hp. cbn. rewrite (ask_bind _ _ fs p) by (by apply Hr).
  destruct (nodes fs !! p) as [node|] eqn:Hn.
  - rewrite (ask_bind _ _ fs node) by (by rewrite Hn). by apply Hf.
  - rewrite (ask_fails _ _ fs (NotFound p)) by (by rewrite Hn). by apply kept_same.
Qed.

Lemma kept_mtime p time : below dest p → kept (memory_set_mtime p time).
Proof using dest_portable.
  intros [Hport Hpre]%below_portable. apply (kept_at p (λ _, normalize_portable_path)).
  - intros. by apply normalize_portable.
  - intros fs node Hn Hp. apply kept_insert; [done|]. exact (Hp p node Hn).
Qed.

Lemma kept_append p bytes : below dest p → kept (memory_append_file p bytes).
Proof using dest_portable.
  intros [Hport Hpre]%below_portable. apply (kept_at p resolve_write_path).
  - intros. by apply resolve_write_plain.
  - intros fs node Hn Hp. case_bool_decide; [by apply kept_same|].
    apply kept_insert; [done|]. exact (Hp p node Hn).
Qed.

Lemma kept_remove_file p : below dest p → kept (memory_remove_file p).
Proof using dest_portable.
  intros [Hport Hpre]%below_portable. apply (kept_at p (λ _, normalize_portable_path)).
  - intros. by apply normalize_portable.
  - intros fs node Hn Hp. case_bool_decide; [by apply kept_same|]. by apply kept_delete.
Qed.

Lemma kept_deletes keys fs :
  Forall (prefix dest) keys → outside_kept dest fs (set_nodes (foldr delete (nodes fs) keys) fs).
Proof.
  induction 1 as [|p keys Hpre _ IH]; [by apply kept_same|]. etrans; [exact IH|].
  by apply (kept_delete p (set_nodes (foldr delete (nodes fs) keys) fs)).
Qed.

Lemma kept_remove_dir p : below dest p → kept (memory_remove_dir_all p).
Proof using dest_portable.
  intros [Hport Hpre]%below_portable fs. cbn. unfold memory_remove_dir_all.
  rewrite (ask_bind _ _ fs p) by (by apply normalize_portable).
  case_bool_decide; [by apply kept_same|]. erewrite (ask_bind _ _ fs) by reflexivity.
  case_bool_decide; [by apply kept_same|]. apply kept_deletes.
  apply Forall_forall. intros key Hkey%list_elem_of_In. apply filter_In in Hkey as [_ Hstarts].
  unfold path_starts_with in Hstarts. case_bool_decide as Htake; [|done].
  etrans; [exact Hpre|]. rewrite <-Htake. apply prefix_take.
Qed.

(** A copy and an append read their source before. *)
Lemma kept_copy source p options :
  below dest p → kept (copy_file_with_options (F := MemoryFileSystem) source p options).
Proof using dest_portable.
  intros Hp. cbn. unfold default_copy_file_with_options.
  apply stays_bind; [exact _|apply kept_read|intros bytes].
  apply stays_bind; [exact _| |intros; apply stays_ret; exact _].
  unfold memory_write_file_with_options, default_write_file_with_options.
  case_match; by apply kept_write.
Qed.

Lemma kept_append_from p source offset :
  below dest p → kept (append_file_from (F := MemoryFileSystem) p source offset).
Proof using dest_portable.
  intros Hp. cbn. unfold default_append_file_from.
  apply stays_bind; [exact _|apply kept_read|intros bytes]. case_match; [|apply stays_throw; exact _].
  case_match; [apply stays_throw; exact _|].
  apply stays_bind; [exact _|by apply kept_append|intros; apply stays_ret; exact _].
Qed.
End calls.

(** A pull's calls, without links. *)
Lemma memory_confined (plan : PullPlan) :
  portable (p_dest plan) → confined_calls plan (outside_kept (p_dest plan)).
Proof.
  intros Hd. split.
  - intros. by apply kept_create_dir.
  - intros. by apply kept_remove_file.
  - intros. by apply kept_remove_dir.
  - intros. by apply kept_mtime.
  - intros. by apply kept_copy.
  - intros. by apply kept_append_from.
  - intros. by apply stays_with_err, kept_write.
  - intros. by apply stays_with_err, kept_write.
  - intros. by apply (kept_remove_file (p_dest plan)).
Qed.
End memory.

(** ** Properties *)

Section pulls.
Context `{Platform} `{Unicode} `{TempNames} `{Clock} `{Digests} `{Zlib} `{SignatureSize}.
Context {FS : Type} `{PortableFileSystem FS} {Fl : Type} `{Source Fl} `{LocalFiles FS Fl}.
Context {R : Type} `{Read R} {W : Type} `{Write W}.
Context (size_of_entry : Z) (reopen : list Z → result Fl TransferError) (plan : PullPlan).
Implicit Types (p : Pulling FS * W * R).

(** C13. Whatever a sender puts on the wire, and however the pull ends, in protocol 27, in
    protocol 31 and with an incremental list: every call that changes files is for the
    destination followed by names, of which there is neither a parent nor a root nor a
    drive.  Any relation between file systems that such calls keep holds between the
    file systems before and after, here that of a pull that is not dry. *)
Theorem pull_stays_below_destination (same : FS → FS → Prop) `{!PreOrder same} checksum_name
    checksum_seed p :
  confined_calls plan same →
  same (pull_fs p.1.1)
    (pull_fs (pull_protocol27 size_of_entry reopen plan checksum_seed p).2.1.1) ∧
  same (pull_fs p.1.1)
    (pull_fs (pull_protocol31 size_of_entry reopen plan checksum_name checksum_seed p).2.1.1).
Proof.
  intros Hc. split.
  - by apply (stays_pull27 size_of_entry reopen plan same).
  - by apply (stays_pull31 size_of_entry reopen plan same).
Qed.

(** C14. A dry pull leaves every file system as it was, whatever the sender sends, with
    --delete and without. *)
Theorem dry_pull_changes_nothing checksum_name checksum_seed p :
  p_dry_run plan = true →
  pull_fs (pull_protocol27 size_of_entry reopen plan checksum_seed p).2.1.1 = pull_fs p.1.1 ∧
  pull_fs (pull_protocol31 size_of_entry reopen plan checksum_name checksum_seed p).2.1.1 =
    pull_fs p.1.1.
Proof.
  intros Hdry.
  assert (confined : p_dry_run plan = false → confined_calls plan (@eq FS)) by congruence.
  split; symmetry.
  - by apply (stays_pull27 size_of_entry reopen plan (=)).
  - by apply (stays_pull31 size_of_entry reopen plan (=)).
Qed.
End pulls.

(** ** Runs *)

#[local] Existing Instances stored_zlib shown_digests ascii_tables.
#[local] Instance posix : Platform := false.
#[local] Instance no_clock : Clock := λ n, Z.of_nat n.
#[local] Instance signature_size : SignatureSize := 56%nat.
#[local] Instance temp_names : TempNames := {| process_id := 7; temp_nanos n := n |}.

Definition pull_plan (dry_run : bool) : PullPlan :=
  {| p_dest := [Normal (lit "d")]; p_dry_run := dry_run; p_delete := true;
     p_update_mode := QuickCheck; p_filter_rules := []; p_files_from := None;
     p_trust := {| trust_sender := false; old_args := false; pull_sources := None;
                   trust_rules := [] |};
     p_block_size := Some 2; p_whole_file := false; p_append_verify := false;
     p_preserve_times := true; p_write_options := FileWriteOptions_default;
     p_compression := Ok None; p_max_alloc := None; p_stop_deadline := None;
     p_incremental := false; p_list_options := default_options; p_depth := 3 |}.

(** A file that is changed, one that the sender lacks, and one outside. *)
Definition receiver_files : MemoryFileSystem :=
  ((add_file (parse_path (lit "d/f")) [1; 2; 3; 4; 5];;
    add_file (parse_path (lit "d/x")) [0];;
    add_file (parse_path (lit "o")) [8]) MemoryFileSystem_default).2.

Definition changed_file : RsyncFileListEntry :=
  {| path := lit "f"; file_type := File; len := 6; mtime_unix := 5;
     mode := RSYNC_REGULAR_FILE_MODE; checksum := None; hardlink_group := None;
     metadata := default_metadata |}.

(** The file list and its I/O error, an answer with a literal and two blocks of the
    basis, and the ends of the phases with the counts. *)
Definition sender_bytes : list Z :=
  let send {E} (m : M (list Z) E unit) := (m []).2 in
  send (Rsync27.write_rsync27_file_list_with_options [sample_directory (lit "."); changed_file]
          false) ++
  send (write_i32_le 0;; write_i32_le 1;; write_i32_le 3;; write_i32_le 2;; write_i32_le 16;;
        write_i32_le 1;; write_i32_le 2;; write_all [9; 9];; write_i32_le (-2);;
        write_i32_le (-1);; write_i32_le 0;; write_all (shown [9; 9; 3; 4; 1; 2]);;
        write_i32_le (-1);; write_i32_le (-1);; write_i32_le 0;; write_i32_le 0;; write_i32_le 0).

Definition start_pull (sent : list Z) : Pulling MemoryFileSystem * list Z * list Z :=
  ({| pull_fs := receiver_files; pull_actions := []; pull_readings := 0; pull_temps := 0 |},
   [], sent).

Definition whole_file (bytes : list Z) : result Pieces TransferError :=
  Ok {| left := bytes; sizes := [] |}.

(** From its bytes, a whole pull. *)
Example pull_of_a_file :
  let '(r, (s, _, rest)) := pull_protocol27 (W := list Z) 300 whole_file (pull_plan false) 0
                              (start_pull sender_bytes) in
  r = Ok {| stat_files := 1; stat_bytes := 6; transferred_entry_indexes := [] |} ∧ rest = [] ∧
  pull_actions s = [DeleteFile (parse_path (lit "d/x")); WriteFile (parse_path (lit "d/f")) 6;
                    PreserveMtime (parse_path (lit "d/f"))] ∧
  memory_paths (pull_fs s) = [[]; parse_path (lit "d"); parse_path (lit "d/f"); parse_path (lit "o")] ∧
  memory_read_file (pull_fs s) (parse_path (lit "d/f")) = Ok [9; 9; 3; 4; 1; 2].
Proof. vm_compute. done. Qed.

Lemma pull_stays_below_destination_witness :
  outside_kept [Normal (lit "d")] receiver_files
    (pull_fs (pull_protocol27 (W := list Z) 300 whole_file (pull_plan false) 0
                (start_pull sender_bytes)).2.1.1).
Proof.
  exact (proj1 (pull_stays_below_destination 300 whole_file (pull_plan false)
    (outside_kept [Normal (lit "d")]) None 0 (start_pull sender_bytes)
    (memory_confined (pull_plan false) (Forall_cons_2 _ (Normal (lit "d")) _ eq_refl (Forall_nil_2 _))))).
Defined.

Lemma dry_pull_changes_nothing_witness :
  pull_fs (pull_protocol27 (W := list Z) 300 whole_file (pull_plan true) 0
             (start_pull sender_bytes)).2.1.1 = receiver_files.
Proof.
  exact (proj1 (dry_pull_changes_nothing 300 whole_file (pull_plan true) None 0
    (start_pull sender_bytes) eq_refl)).
Defined.
