(* ===== verification/Batch.v ===== *)
(** * Batch files: rsync-cli/src/batch.rs and its callers in execute/local.rs

    A batch file is a header, a manifest, the contents of the files, an index and a
    trailer.  The file is the list of its bytes: the disk takes what is written.  The
    reader has a position in them.  Paths and manifest are characters, in UTF-8 on
    disk. *)

From S2P Require Import Prelude Stream WireIo Str Text FsPath Metadata FileSystem Daemon.
From S2P Require Import Flist RemoteFiles.

(** ** Errors

    A panic is an error of its own; an error of the file system has a context. *)

Inductive BatchError :=
| BatchIo (e : io_error)
| BatchFs (context : string) (e : FsError)
| BatchText (message : string)
| BatchPanic (message : string).

Definition batch_io {S A} (m : M S io_error A) : M S BatchError A := with_err BatchIo m.

(** [SystemTime::UNIX_EPOCH + Duration::from_secs(secs)], which panics beyond what a
    platform can represent: 64 bits of seconds, or on Windows of units of 100
    nanoseconds since 1601. *)
Definition epoch_plus_secs `{Platform} (secs : Z) : result SystemTime BatchError :=
  if (if windows then 116444736000000000 + secs * 10000000 else secs) <=? i64_max
  then Ok (secs * 1000000000)
  else Err (BatchPanic "overflow when adding duration to instant").

Definition BATCH_MAGIC : list Z := lit "RSYNC-BATCH1".
Definition BATCH_VERSION : Z := 1.
Definition BATCH_HEADER_LEN : nat := 64.

(** ** Records *)

Inductive BatchRecordKind := BatchFile | BatchDirectory.

#[export] Instance BatchRecordKind_eq_dec : EqDecision BatchRecordKind.
Proof. solve_decision. Defined.

Definition kind_to_byte (kind : BatchRecordKind) : Z :=
  match kind with BatchFile => 1 | BatchDirectory => 2 end.

Definition kind_from_byte (byte : Z) : result BatchRecordKind BatchError :=
  if byte =? 1 then Ok BatchFile
  else if byte =? 2 then Ok BatchDirectory
  else Err (BatchText "batch file corrupted: unknown record kind {other}").

Record BatchRecord := {
  record_kind : BatchRecordKind;
  record_relative : PathBuf;
  record_len : Z;
  record_modified : option SystemTime;
  record_data_offset : Z;
  record_checksum : list Z;
}.

#[export] Instance BatchRecord_eq_dec : EqDecision BatchRecord.
Proof. solve_decision. Defined.

(** ** The manifest *)

Record BatchManifest := {
  manifest_options : list (list Z);
  manifest_filters : list (list Z);
  manifest_token_stream : list Z;
}.

Definition BatchManifest_default : BatchManifest :=
  {| manifest_options := []; manifest_filters := []; manifest_token_stream := [] |}.

(** [value.replace(c, text)] for a character. *)
Definition replace_with (c : Z) (text value : list Z) : list Z :=
  concat ((λ d, if d =? c then text else [d]) <$> value).

Definition escape_manifest_value (value : list Z) : list Z :=
  replace_with 13 (lit "\r") (replace_with 10 (lit "\n") (replace_with (ch "\") (lit "\\") value)).

Fixpoint unescape_from (chars out : list Z) : result (list Z) BatchError :=
  match chars with
  | [] => Ok out
  | c :: chars =>
      if c =? ch "\" then
        match chars with
        | [] => Err (BatchText "invalid escape in batch manifest")
        | escaped :: chars =>
            unescape_from chars
              (out ++ if escaped =? ch "\" then [ch "\"]
                      else if escaped =? ch "n" then [10]
                      else if escaped =? ch "r" then [13]
                      else [ch "\"; escaped])
        end
      else unescape_from chars (out ++ [c])
  end.

Definition unescape_manifest_value (value : list Z) : result (list Z) BatchError :=
  unescape_from value [].

Definition manifest_line (key value : list Z) : list Z :=
  key ++ escape_manifest_value value ++ [10].

Definition render_manifest (manifest : BatchManifest) : list Z :=
  manifest_line (lit "token_stream=")
    (if bool_decide (manifest_token_stream manifest = []) then lit "literal-file-contents"
     else manifest_token_stream manifest) ++
  concat (manifest_line (lit "option=") <$> manifest_options manifest) ++
  concat (manifest_line (lit "filter=") <$> manifest_filters manifest).

(** One line, against [match key]. *)
Definition parse_manifest_line (manifest : BatchManifest) (line : list Z) :
    result BatchManifest BatchError :=
  match split_once (ch "=") line with
  | None => Ok manifest
  | Some (key, value) =>
      let? value := unescape_manifest_value value in
      Ok (if bool_decide (key = lit "token_stream") then
            {| manifest_options := manifest_options manifest;
               manifest_filters := manifest_filters manifest;
               manifest_token_stream := value |}
          else if bool_decide (key = lit "option") then
            {| manifest_options := manifest_options manifest ++ [value];
               manifest_filters := manifest_filters manifest;
               manifest_token_stream := manifest_token_stream manifest |}
          else if bool_decide (key = lit "filter") then
            {| manifest_options := manifest_options manifest;
               manifest_filters := manifest_filters manifest ++ [value];
               manifest_token_stream := manifest_token_stream manifest |}
          else manifest)
  end.

Fixpoint parse_manifest_lines (manifest : BatchManifest) (lines : list (list Z)) :
    result BatchManifest BatchError :=
  match lines with
  | [] => Ok manifest
  | line :: lines =>
      let? manifest := parse_manifest_line manifest line in parse_manifest_lines manifest lines
  end.

Definition parse_manifest (text : list Z) : result BatchManifest BatchError :=
  parse_manifest_lines BatchManifest_default (lines text).

(** [String::from_utf8(bytes).context(..)], to characters. *)
Definition utf8_text (context : string) (bytes : list Z) : result (list Z) BatchError :=
  ok_or (decode_utf8 bytes) (BatchText context).

(** ** Writing *)

Section writing.
Context {W : Type} `{Write W}.

Definition write_manifest_block (manifest : BatchManifest) : M W BatchError unit :=
  let bytes := encode_chars (render_manifest manifest) in
  let len := Z.of_nat (length bytes) in
  lift (if len <=? u32_max then Ok () else Err (BatchText "batch manifest is too large"));;
  batch_io (write_all (lit "MAN1"));;
  batch_io (write_u32_le len);;
  batch_io (write_all bytes).

(** The file before the first record. *)
Definition write_batch_header (dry_run : bool) (manifest : BatchManifest) :
    M W BatchError unit :=
  batch_io (write_all BATCH_MAGIC);;
  batch_io (write_u32_le BATCH_VERSION);;
  batch_io (write_all [if dry_run then 1 else 0]);;
  batch_io (write_all (replicate (BATCH_HEADER_LEN - 12 - 4 - 1) 0));;
  write_manifest_block manifest;;
  batch_io flush.

(** The modification time in seconds, 0 where there is none or it is before 1970. *)
Definition batch_mtime_secs (modified : option SystemTime) : Z :=
  match modified with
  | Some time => if 0 <=? time then time / 1000000000 else 0
  | None => 0
  end.

Definition write_batch_record (record : BatchRecord) : M W BatchError unit :=
  let rel_bytes := encode_chars (relative_text (record_relative record)) in
  let rel_len := Z.of_nat (length rel_bytes) in
  lift (if rel_len <=? u16_max then Ok () else Err (BatchText "batch path too long: {}"));;
  batch_io (write_all (le_encode 2 rel_len));;
  batch_io (write_all rel_bytes);;
  batch_io (write_all [kind_to_byte (record_kind record)]);;
  batch_io (write_all (le_encode 8 (record_len record)));;
  batch_io (write_all (le_encode 8 (record_data_offset record)));;
  batch_io (write_all (le_encode 8 (batch_mtime_secs (record_modified record))));;
  batch_io (write_all (record_checksum record)).

(** The index and the trailer of a file that has [index_offset] bytes before them. *)
Definition write_batch_index (index_offset : Z) (records : list BatchRecord) :
    M W BatchError unit :=
  batch_io (write_all (lit "IDX1"));;
  let record_count := Z.of_nat (length records) in
  lift (if record_count <=? u32_max then Ok () else Err (BatchText "too many batch records"));;
  batch_io (write_u32_le record_count);;
  for_each write_batch_record records;;
  batch_io (write_all (le_encode 8 index_offset));;
  batch_io (write_all (lit "END1"));;
  batch_io flush.
End writing.

Record BatchWriter := {
  batch_writer : list Z;
  writer_records : list BatchRecord;
  writer_dry_run : bool;
}.

(** [self.writer.stream_position()], of a file that is only appended to. *)
Definition stream_position (self : BatchWriter) : Z := Z.of_nat (length (batch_writer self)).

(** [BatchWriter::create_with_manifest] on the empty file it has created. *)
Definition create_with_manifest (dry_run : bool) (manifest : BatchManifest) :
    result BatchWriter BatchError :=
  match write_batch_header dry_run manifest [] with
  | (Ok _, writer) =>
      Ok {| batch_writer := writer; writer_records := []; writer_dry_run := dry_run |}
  | (Err e, _) => Err e
  end.

Definition push_record (record : BatchRecord) (self : BatchWriter) : BatchWriter :=
  {| batch_writer := batch_writer self; writer_records := writer_records self ++ [record];
     writer_dry_run := writer_dry_run self |}.

Definition append_data (bytes : list Z) (self : BatchWriter) : BatchWriter :=
  {| batch_writer := batch_writer self ++ bytes; writer_records := writer_records self;
     writer_dry_run := writer_dry_run self |}.

Section batch.
Context {F : Type} `{PortableFileSystem F} `{Digests} `{Platform}.

(** [rsync_protocol::rsync_plain_md4_checksum] is [md4]. *)
Definition batch_append_file (fs : F) (relative source _dest_root : PathBuf) (len : Z)
    (modified : option SystemTime) : M BatchWriter BatchError BatchRecord :=
  self ← get;
  let pos := stream_position self in
  source_bytes ← lift (map_err (BatchFs "batch read error for {}: {e}") (read_file fs source));
  let actual_len := Z.of_nat (length source_bytes) in
  if negb (actual_len =? len) then
    throw (BatchText "batch length mismatch for {}: metadata says {len}, read {actual_len}")
  else
    let record := {| record_kind := BatchFile; record_relative := relative; record_len := len;
                     record_modified := modified; record_data_offset := pos;
                     record_checksum := md4 source_bytes |} in
    put (push_record record
           (if writer_dry_run self then self else append_data source_bytes self));;
    mret record.

Definition batch_append_directory (relative : PathBuf) (modified : option SystemTime) :
    M BatchWriter BatchError BatchRecord :=
  self ← get;
  let record := {| record_kind := BatchDirectory; record_relative := relative; record_len := 0;
                   record_modified := modified; record_data_offset := stream_position self;
                   record_checksum := replicate 16 0 |} in
  put (push_record record self);;
  mret record.

(** [finish(self)]: the records, and the file it leaves. *)
Definition batch_finish (self : BatchWriter) : result (list BatchRecord) BatchError * list Z :=
  let '(r, file) :=
    write_batch_index (stream_position self) (writer_records self) (batch_writer self) in
  ((let? _ := r in Ok (writer_records self)), file).

(** ** Writing the batch of a local sync: [execute_local_sync_with_batch] *)

Definition batch_entry (fs : F) (dest : PathBuf) (entry : RemoteSourceEntry) :
    M BatchWriter BatchError unit :=
  source_meta ← lift (map_err (BatchFs "") (FileSystem.metadata fs (local_path entry)));
  match Flist.file_type (wire entry) with
  | Flist.File =>
      batch_append_file fs (wire_path (wire entry)) (local_path entry) dest
        (Flist.len (wire entry)) (modified source_meta);; mret ()
  | Flist.Directory =>
      batch_append_directory (wire_path (wire entry)) (modified source_meta);; mret ()
  | _ => mret ()
  end.

(** The records, and the batch file. *)
Definition write_batch (fs : F) (dest : PathBuf) (entries : list RemoteSourceEntry)
    (dry_run : bool) (manifest : BatchManifest) :
    result (list BatchRecord * list Z) BatchError :=
  let? writer := create_with_manifest dry_run manifest in
  match for_each (batch_entry fs dest) entries writer with
  | (Ok _, writer) =>
      match batch_finish writer with
      | (Ok records, file) => Ok (records, file)
      | (Err e, _) => Err e
      end
  | (Err e, _) => Err e
  end.

(** ** A file to read and its position *)

Record OpenFile := { file_bytes : list Z; file_pos : nat }.

Definition file_rest (file : OpenFile) : list Z :=
  drop (file_pos file) (file_bytes file).

Definition file_read_exact (n : nat) : M OpenFile io_error (list Z) := λ file,
  if (length (file_rest file) <? n)%nat
  then (Err (IoError Stream.UnexpectedEof "failed to fill whole buffer"),
        {| file_bytes := file_bytes file;
           file_pos := Nat.max (file_pos file) (length (file_bytes file)) |})
  else (Ok (take n (file_rest file)),
        {| file_bytes := file_bytes file; file_pos := file_pos file + n |}).

#[export] Instance file_read : Read OpenFile :=
  {| read_exact := file_read_exact; budget file := length (file_rest file) |}.

(** [file.seek(SeekFrom::Start(pos))] and [SeekFrom::End(offset)]: an offset is a signed
    64-bit number to the system. *)
Definition seek_start (pos : Z) : M OpenFile io_error unit := λ file,
  if i64_max <? pos then (Err (IoError InvalidInput "invalid seek"), file)
  else (Ok (), {| file_bytes := file_bytes file; file_pos := Z.to_nat pos |}).

Definition seek_end (offset : Z) : M OpenFile io_error unit := λ file,
  let pos := Z.of_nat (length (file_bytes file)) + offset in
  if pos <? 0 then (Err (IoError InvalidInput "invalid seek"), file)
  else (Ok (), {| file_bytes := file_bytes file; file_pos := Z.to_nat pos |}).

(** ** Reading *)

Section reading.
Context {R : Type} `{Read R}.

Definition bail_unless (b : bool) (message : string) : M R BatchError unit :=
  lift (if b then Ok () else Err (BatchText message)).

(** [u16::from_le_bytes] and [u64::from_le_bytes] of the next bytes. *)
Definition read_le (n : nat) : M R io_error Z := buf ← read_exact n; mret (le_decode buf).

Definition read_manifest_block : M R BatchError BatchManifest :=
  marker ← batch_io (read_exact 4);
  bail_unless (bool_decide (marker = lit "MAN1"))
    "batch file corrupted: missing MAN1 manifest marker";;
  len ← batch_io read_u32_le;
  bytes ← batch_io (read_exact (Z.to_nat len));
  text ← lift (utf8_text "invalid UTF-8 in batch manifest" bytes);
  lift (parse_manifest text).

(** The header: the dry-run flag and the manifest. *)
Definition read_batch_header : M R BatchError (bool * BatchManifest) :=
  magic ← batch_io (read_exact 12);
  bail_unless (bool_decide (magic = BATCH_MAGIC)) "not a valid rsync batch file (bad magic)";;
  version ← batch_io read_u32_le;
  bail_unless (version =? BATCH_VERSION)
    "batch file version {version} is not supported (expected {BATCH_VERSION})";;
  dry_run_byte ← batch_io read_u8;
  _ ← batch_io (read_exact (BATCH_HEADER_LEN - 12 - 4 - 1));
  manifest ← read_manifest_block;
  mret (negb (dry_run_byte =? 0), manifest).

(** One round of the loop over the index: the key and the record, without its path. *)
Definition read_batch_record : M R BatchError (PathBuf * BatchRecord) :=
  rel_len ← batch_io (read_le 2);
  rel_bytes ← batch_io (read_exact (Z.to_nat rel_len));
  relative_str ← lift (utf8_text "invalid UTF-8 in batch file record path" rel_bytes);
  kind_byte ← batch_io read_u8;
  kind ← lift (kind_from_byte kind_byte);
  len ← batch_io (read_le 8);
  data_offset ← batch_io (read_le 8);
  mtime_secs ← batch_io (read_le 8);
  modified ← lift (if 0 <? mtime_secs then let? t := epoch_plus_secs mtime_secs in Ok (Some t)
                   else Ok None);
  checksum ← batch_io (read_exact 16);
  mret (parse_path relative_str,
        {| record_kind := kind; record_relative := []; record_len := len;
           record_modified := modified; record_data_offset := data_offset;
           record_checksum := checksum |}).

Definition read_batch_index : M R BatchError (list (PathBuf * BatchRecord)) :=
  idx_marker ← batch_io (read_exact 4);
  bail_unless (bool_decide (idx_marker = lit "IDX1")) "batch file corrupted: missing IDX1 marker";;
  count ← batch_io read_u32_le;
  collect (Z.to_nat count) read_batch_record.
End reading.

Record BatchReader := {
  reader_records : gmap PathBuf BatchRecord;
  reader_file : OpenFile;
  reader_dry_run : bool;
  reader_manifest : BatchManifest;
}.

(** [record.relative = path.clone()] *)
Definition set_relative (path : PathBuf) (record : BatchRecord) : BatchRecord :=
  {| record_kind := record_kind record; record_relative := path; record_len := record_len record;
     record_modified := record_modified record; record_data_offset := record_data_offset record;
     record_checksum := record_checksum record |}.

(** The inserts of the loop, then the second map with the paths in the records. *)
Definition records_by_path (found : list (PathBuf * BatchRecord)) : gmap PathBuf BatchRecord :=
  map_imap (λ path record, Some (set_relative path record))
    (fold_left (λ records found, <[found.1 := found.2]> records) found ∅).

(** The offset of the index is the eight bytes before the end marker. *)
Definition read_batch_file : M OpenFile BatchError
    (bool * BatchManifest * list (PathBuf * BatchRecord)) :=
  header ← read_batch_header;
  file ← get;
  bail_unless (12 <=? Z.of_nat (length (file_bytes file))) "batch file too short";;
  batch_io (seek_end (-4));;
  trailer_buf ← batch_io (read_exact 4);
  bail_unless (bool_decide (trailer_buf = lit "END1"))
    "batch file corrupted: missing END1 trailer";;
  batch_io (seek_end (-12));;
  index_offset ← batch_io (read_le 8);
  batch_io (seek_start index_offset);;
  found ← read_batch_index;
  mret (header, found).

(** [BatchReader::open] of a file with these bytes. *)
Definition open_batch (bytes : list Z) : result BatchReader BatchError :=
  match read_batch_file {| file_bytes := bytes; file_pos := 0%nat |} with
  | (Ok ((dry_run, manifest), found), file) =>
      Ok {| reader_records := records_by_path found; reader_file := file;
            reader_dry_run := dry_run; reader_manifest := manifest |}
  | (Err e, _) => Err e
  end.

Definition batch_records (self : BatchReader) : list BatchRecord :=
  (btree_iter (reader_records self)).*2.

(** A buffer of more than [isize::MAX] bytes is a panic. *)
Definition batch_file_data (record : BatchRecord) : M OpenFile BatchError (list Z) :=
  bail_unless (bool_decide (record_kind record = BatchFile))
    "batch record does not contain file data: {}";;
  lift (if record_len record <=? i64_max then Ok () else Err (BatchPanic "capacity overflow"));;
  batch_io (seek_start (record_data_offset record));;
  buf ← batch_io (read_exact (Z.to_nat (record_len record)));
  bail_unless (bool_decide (md4 buf = record_checksum record))
    "batch file corrupted: checksum mismatch for {}";;
  mret buf.

(** ** Replaying *)

(** [safe.push(name)] parses the name, as every path that is pushed. *)
Fixpoint safe_components (components : PathBuf) (safe : PathBuf) : option PathBuf :=
  match components with
  | [] => Some safe
  | Normal name :: components => safe_components components (path_join safe (parse_path name))
  | CurDir :: components => safe_components components safe
  | _ => None
  end.

Definition safe_batch_target (dest relative : PathBuf) (allow_root : bool) :
    result PathBuf BatchError :=
  match safe_components relative [] with
  | None => Err (BatchText "unsafe batch path: {}")
  | Some [] => if allow_root then Ok dest else Err (BatchText "unsafe batch path: {}")
  | Some safe => Ok (path_join dest safe)
  end.

(** [fs.set_mtime(..).ok()]: an error is dropped. *)
Definition best_effort {S E} (m : M S E unit) : M S BatchError unit := λ s, (Ok (), (m s).2).

Definition replay_file_data (record : BatchRecord) (target : PathBuf) :
    M (OpenFile * F) BatchError unit :=
  match record_kind record with
  | BatchFile =>
      file_data ← on_fst (batch_file_data record);
      on_snd (with_err (BatchFs "batch replay failed for {}: {e}")
                (write_file_direct target file_data))
  | BatchDirectory =>
      on_snd (with_err (BatchFs "batch replay failed for {}: {e}") (create_dir_all target))
  end.

Definition replay_record (dry_run : bool) (dest : PathBuf) (record : BatchRecord) :
    M (OpenFile * F) BatchError unit :=
  target ← lift (safe_batch_target dest (record_relative record)
                   (bool_decide (record_kind record = BatchDirectory)));
  if dry_run then mret ()
  else
    replay_file_data record target;;
    match record_modified record with
    | Some mtime => on_snd (best_effort (set_mtime target mtime))
    | None => mret ()
    end.

(** [replay_batch], of a batch file with these bytes, and [execute_read_batch], which
    overrides the flag with [Some true] only. *)
Definition replay_batch (bytes : list Z) (dest : PathBuf) (dry_run_override : option bool) :
    M F BatchError unit := λ fs,
  match open_batch bytes with
  | Err e => (Err e, fs)
  | Ok reader =>
      let dry_run := default (reader_dry_run reader) dry_run_override in
      let '(r, (_, fs)) :=
        for_each (replay_record dry_run dest) (batch_records reader) (reader_file reader, fs) in
      (r, fs)
  end.

Definition execute_read_batch (bytes : list Z) (paths : list (list Z)) (dry_run_override : bool) :
    M F BatchError unit :=
  match last paths with
  | None => throw (BatchText "read-batch requires a destination operand")
  | Some dest =>
      replay_batch bytes (parse_path dest) (if dry_run_override then Some true else None)
  end.
End batch.
