(* ===== verification/BatchFacts.v ===== *)
(** * Batch files: what holds of them

    The manifest reads back, and so does a record; what was written opens as what it
    was made from.  A replay changes what is below its destination only, whatever the
    batch file holds, but on Windows for names that begin with a drive; a dry one changes
    nothing.  In memory, it restores the files that were recorded. *)

From S2P Require Import Prelude Stream WireIo Str Text FsPath Metadata FileSystem Daemon.
From S2P Require Import WinPath MemoryFs MemoryFsFacts TransferFacts Flist RemoteFiles.
From S2P Require Import RemoteConfined RemoteMemory Batch.

(** ** The manifest *)

Definition escape_char (c : Z) : list Z :=
  if c =? ch "\" then lit "\\" else if c =? 10 then lit "\n"
  else if c =? 13 then lit "\r" else [c].

Lemma replace_with_app c text s t :
  replace_with c text (s ++ t) = replace_with c text s ++ replace_with c text t.
Proof. unfold replace_with. by rewrite fmap_app, concat_app. Qed.

Lemma escape_chars_of value : escape_manifest_value value = concat (escape_char <$> value).
Proof.
  unfold escape_manifest_value. induction value as [|c value IH]; [done|].
  change (c :: value) with ([c] ++ value). rewrite fmap_app, concat_app.
  rewrite !replace_with_app, IH. f_equal. clear IH. unfold replace_with, escape_char. cbn.
  destruct (c =? ch "\"); [reflexivity|]. cbn.
  destruct (c =? 10); [reflexivity|]. cbn. by destruct (c =? 13).
Qed.

Lemma unescape_escaped value rest out :
  unescape_from (escape_manifest_value value ++ rest) out = unescape_from rest (out ++ value).
Proof.
  rewrite escape_chars_of. revert out. induction value as [|c value IH]; intros out.
  { by rewrite app_nil_r. }
  cbn [fmap list_fmap concat]. rewrite <-app_assoc.
  replace (out ++ c :: value) with ((out ++ [c]) ++ value) by (by rewrite <-app_assoc).
  unfold escape_char. destruct (Z.eqb_spec c (ch "\")) as [->|Hc]; [apply IH|].
  destruct (Z.eqb_spec c 10) as [->|_]; [apply IH|].
  destruct (Z.eqb_spec c 13) as [->|_]; [apply IH|].
  cbn. destruct (Z.eqb_spec c (ch "\")); [done|]. apply IH.
Qed.

(** Escaping is undone, and leaves no line break. *)
Lemma unescape_escape value : unescape_manifest_value (escape_manifest_value value) = Ok value.
Proof.
  unfold unescape_manifest_value. rewrite <-(app_nil_r (escape_manifest_value value)).
  by rewrite unescape_escaped.
Qed.

Lemma escape_no_break value : no_break (escape_manifest_value value).
Proof.
  rewrite escape_chars_of. induction value as [|c value IH]; [split; apply not_elem_of_nil|].
  cbn. apply no_break_app; [|done]. unfold escape_char.
  destruct (c =? ch "\"); [by split; apply (bool_decide_unpack _)|].
  destruct (Z.eqb_spec c 10); [by split; apply (bool_decide_unpack _)|].
  destruct (Z.eqb_spec c 13); [by split; apply (bool_decide_unpack _)|].
  by split; apply not_elem_of_cons; split; [|apply not_elem_of_nil|..]; try apply not_elem_of_nil.
Qed.

(** What a manifest is read back as. *)
Definition written_manifest (manifest : BatchManifest) : BatchManifest :=
  {| manifest_options := manifest_options manifest;
     manifest_filters := manifest_filters manifest;
     manifest_token_stream :=
       if bool_decide (manifest_token_stream manifest = []) then lit "literal-file-contents"
       else manifest_token_stream manifest |}.

Definition manifest_entry (key value : list Z) : list Z :=
  key ++ ch "=" :: escape_manifest_value value.

Definition manifest_lines (m : BatchManifest) : list (list Z) :=
  manifest_entry (lit "token_stream") (manifest_token_stream (written_manifest m)) ::
  (manifest_entry (lit "option") <$> manifest_options m) ++
  (manifest_entry (lit "filter") <$> manifest_filters m).

Lemma written_lines key (values : list (list Z)) :
  concat (manifest_line (key ++ [ch "="]) <$> values) =
  concat ((λ l, l ++ [10]) <$> (manifest_entry key <$> values)).
Proof.
  rewrite <-list_fmap_compose. f_equal. apply list_fmap_ext. intros _ value _.
  unfold manifest_line, manifest_entry, compose. by rewrite <-!app_assoc.
Qed.

Lemma render_lines m : render_manifest m = concat ((λ l, l ++ [10]) <$> manifest_lines m).
Proof.
  unfold render_manifest, manifest_lines. rewrite fmap_cons, fmap_app. cbn [concat].
  rewrite concat_app, <-!written_lines. cbn [written_manifest manifest_token_stream].
  f_equal.
Qed.

Lemma entry_no_break key value : no_break key → no_break (manifest_entry key value).
Proof.
  intros Hk. unfold manifest_entry. apply no_break_app; [done|].
  change (ch "=" :: ?s) with ([ch "="] ++ s). apply no_break_app; [|apply escape_no_break].
  by split; apply (bool_decide_unpack _).
Qed.

Lemma lines_rendered m : lines (render_manifest m) = manifest_lines m.
Proof.
  rewrite render_lines. apply lines_written. unfold manifest_lines.
  apply Forall_cons; split; [|apply Forall_app; split; apply Forall_fmap, Forall_true; intros value];
    apply entry_no_break; by split; apply (bool_decide_unpack _).
Qed.

Lemma parse_manifest_app m lines1 lines2 :
  parse_manifest_lines m (lines1 ++ lines2) =
  and_then (parse_manifest_lines m lines1) (λ m, parse_manifest_lines m lines2).
Proof.
  revert m. induction lines1 as [|l lines1 IH]; intros m; [done|]. cbn.
  destruct (parse_manifest_line m l); [|done]. cbn. apply IH.
Qed.

Lemma parse_options m values :
  parse_manifest_lines m (manifest_entry (lit "option") <$> values) =
  Ok {| manifest_options := manifest_options m ++ values; manifest_filters := manifest_filters m;
        manifest_token_stream := manifest_token_stream m |}.
Proof.
  revert m. induction values as [|v values IH]; intros m; cbn [fmap list_fmap parse_manifest_lines].
  { rewrite app_nil_r. by destruct m. }
  unfold parse_manifest_line, manifest_entry. rewrite split_once_app by by apply (bool_decide_unpack _).
  rewrite unescape_escape. cbn [and_then]. rewrite IH. f_equal.
  destruct m. f_equal. symmetry. apply (assoc_L (++) _ [v]).
Qed.

Lemma parse_filters m values :
  parse_manifest_lines m (manifest_entry (lit "filter") <$> values) =
  Ok {| manifest_options := manifest_options m; manifest_filters := manifest_filters m ++ values;
        manifest_token_stream := manifest_token_stream m |}.
Proof.
  revert m. induction values as [|v values IH]; intros m; cbn [fmap list_fmap parse_manifest_lines].
  { rewrite app_nil_r. by destruct m. }
  unfold parse_manifest_line, manifest_entry. rewrite split_once_app by by apply (bool_decide_unpack _).
  rewrite unescape_escape. cbn [and_then]. rewrite IH. f_equal.
  destruct m. f_equal. symmetry. apply (assoc_L (++) _ [v]).
Qed.

Lemma parse_rendered m : parse_manifest (render_manifest m) = Ok (written_manifest m).
Proof.
  unfold parse_manifest. rewrite lines_rendered. unfold manifest_lines.
  cbn [parse_manifest_lines]. unfold parse_manifest_line, manifest_entry at 1.
  rewrite split_once_app by by apply (bool_decide_unpack _).
  rewrite unescape_escape. cbn [and_then]. rewrite parse_manifest_app, parse_options.
  cbn [and_then]. rewrite parse_filters. by destruct m.
Qed.

(** ** Codecs of the header, of a record and of the index *)

Section codecs.
Context `{Platform} {R : Type} `{ReadLaws R} {W : Type} `{WriteLaws W}.

Lemma coupled_disk {A} (w : M W io_error unit) (r : M R io_error A) a :
  coupled w r a → coupled (batch_io w) (batch_io r) a.
Proof. apply coupled_with_err. Qed.

Lemma coupled_same bs n :
  length bs = n → coupled (W := W) (R := R) (batch_io (write_all bs)) (batch_io (read_exact n)) bs.
Proof.
  intros Hn. apply coupled_disk. exists bs. split; [apply writes_all|by apply reads_exact].
Qed.

Lemma coupled_number n z :
  0 ≤ z < 256 ^ Z.of_nat n →
  coupled (W := W) (R := R) (batch_io (write_all (le_encode n z))) (batch_io (read_le n)) z.
Proof. intros Hz. by apply coupled_disk, coupled_le, le_decode_encode_id. Qed.

Lemma coupled_byte b :
  coupled (W := W) (R := R) (batch_io (write_all [b])) (batch_io read_u8) b.
Proof. apply coupled_disk, coupled_u8. Qed.

Lemma coupled_check {A} (x : result unit BatchError) (w : M W BatchError unit)
    (r : M R BatchError A) a : x = Ok () → coupled w r a → coupled (lift x;; w) r a.
Proof. intros Hx. by apply coupled_writer_skip, writes_lift. Qed.

Lemma coupled_result {A B} (x : result A BatchError) a (w : M W BatchError unit)
    (r : A → M R BatchError B) b :
  x = Ok a → coupled w (r a) b → coupled w (lift x ≫= r) b.
Proof. intros Hx. by apply coupled_reader_skip, reads_lift. Qed.

(** A text of at most [max] bytes, behind its length. *)
Lemma utf8_written context text :
  forallb is_scalar text = true → utf8_text context (encode_chars text) = Ok text.
Proof. intros Ht. unfold utf8_text. by rewrite decode_encode_chars. Qed.

Definition manifest_fits (m : BatchManifest) : Prop :=
  forallb is_scalar (render_manifest m) = true ∧
  Z.of_nat (length (encode_chars (render_manifest m))) ≤ u32_max.

Lemma coupled_manifest m :
  manifest_fits m →
  coupled (W := W) (R := R) (write_manifest_block m) read_manifest_block (written_manifest m).
Proof.
  intros [Htext Hlen]. unfold write_manifest_block, read_manifest_block. cbv zeta.
  apply coupled_check; [by destruct (Z.leb_spec (Z.of_nat (length (encode_chars (render_manifest m)))) u32_max); [|lia]|].
  eapply coupled_bind; [by apply coupled_same|]. unfold bail_unless.
  apply coupled_result with (); [done|].
  eapply coupled_bind; [apply coupled_disk, coupled_u32_le; unfold in_u32, u32_max in *; lia|].
  cbv beta. rewrite Nat2Z.id.
  pose proof (coupled_same (encode_chars (render_manifest m)) _ eq_refl) as (bs & Hw & Hr).
  exists bs. split; [exact Hw|]. eapply reads_last; [exact Hr|].
  eapply reads_bind_nil; [by apply reads_lift, utf8_written|]. apply reads_lift, parse_rendered.
Qed.

Lemma coupled_header dry_run m :
  manifest_fits m →
  coupled (W := W) (R := R) (write_batch_header dry_run m) read_batch_header
    (dry_run, written_manifest m).
Proof.
  intros Hm. unfold write_batch_header, read_batch_header, bail_unless.
  eapply coupled_bind; [by apply coupled_same|]. apply coupled_result with (); [done|].
  eapply coupled_bind; [by apply coupled_disk, coupled_u32_le|]. apply coupled_result with (); [done|].
  eapply coupled_bind; [apply coupled_byte|]. eapply coupled_bind; [by apply coupled_same|].
  eapply coupled_bind; [by apply coupled_manifest|].
  exists []. split; [apply writes_with_err, writes_flush|].
  destruct dry_run; apply reads_ret.
Qed.

(** ** Records *)

Definition written_time (modified : option SystemTime) : option SystemTime :=
  if 0 <? batch_mtime_secs modified then Some (batch_mtime_secs modified * 1000000000) else None.

(** A time the reader can represent, at the precision of seconds. *)
Definition time_fits (modified : option SystemTime) : Prop :=
  is_ok (epoch_plus_secs (batch_mtime_secs modified)) = true.

Lemma mtime_secs_nonneg modified : 0 ≤ batch_mtime_secs modified.
Proof. destruct modified as [t|]; cbn; [|done]. destruct (Z.leb_spec 0 t); [|done]. apply Z.div_pos; lia. Qed.

Lemma time_fits_spec modified :
  time_fits modified →
  batch_mtime_secs modified ≤ i64_max ∧
  epoch_plus_secs (batch_mtime_secs modified) = Ok (batch_mtime_secs modified * 1000000000).
Proof.
  pose proof (mtime_secs_nonneg modified). unfold time_fits, epoch_plus_secs, i64_max.
  destruct (_ <=? _) eqn:Hle; [|done]. intros _. split; [|done]. by destruct windows; lia.
Qed.

Record record_fits (r : BatchRecord) : Prop := {
  fits_path : parse_path (relative_text (record_relative r)) = record_relative r;
  fits_text : forallb is_scalar (relative_text (record_relative r)) = true;
  fits_text_len :
    Z.of_nat (length (encode_chars (relative_text (record_relative r)))) ≤ u16_max;
  fits_len : 0 ≤ record_len r < 2 ^ 64;
  fits_offset : 0 ≤ record_data_offset r < 2 ^ 64;
  fits_time : time_fits (record_modified r);
  fits_checksum : length (record_checksum r) = 16%nat;
}.

(** What is found in the index for a record. *)
Definition written_record (r : BatchRecord) : PathBuf * BatchRecord :=
  (record_relative r,
   {| record_kind := record_kind r; record_relative := []; record_len := record_len r;
      record_modified := written_time (record_modified r);
      record_data_offset := record_data_offset r; record_checksum := record_checksum r |}).

Lemma kind_byte kind : kind_from_byte (kind_to_byte kind) = Ok kind.
Proof. by destruct kind. Qed.

Lemma coupled_record r :
  record_fits r →
  coupled (W := W) (R := R) (write_batch_record r) read_batch_record (written_record r).
Proof.
  intros Hr. unfold write_batch_record, read_batch_record. cbv zeta.
  pose proof (fits_text_len r Hr) as Hlen.
  apply coupled_check; [by destruct (Z.leb_spec (Z.of_nat (length (encode_chars (relative_text (record_relative r))))) u16_max); [|lia]|].
  unfold u16_max in Hlen.
  eapply coupled_bind; [apply coupled_number; cbn; lia|]. cbv beta. rewrite Nat2Z.id.
  eapply coupled_bind; [by apply coupled_same|].
  eapply coupled_result; [by apply utf8_written, (fits_text r Hr)|].
  eapply coupled_bind; [apply coupled_byte|]. eapply coupled_result; [apply kind_byte|].
  eapply coupled_bind; [by apply coupled_number, (fits_len r Hr)|].
  eapply coupled_bind; [by apply coupled_number, (fits_offset r Hr)|].
  destruct (time_fits_spec _ (fits_time r Hr)) as [Hmax Htime].
  pose proof (mtime_secs_nonneg (record_modified r)). unfold i64_max in Hmax.
  eapply coupled_bind; [apply coupled_number; cbn; lia|]. cbv beta.
  apply coupled_result with (written_time (record_modified r)).
  { unfold written_time. destruct (0 <? _); [|done]. by rewrite Htime. }
  pose proof (coupled_same (record_checksum r) 16 (fits_checksum r Hr)) as (bs & Hw & Hread).
  exists bs. split; [exact Hw|]. eapply reads_last; [exact Hread|].
  cbv beta. rewrite (fits_path r Hr). apply reads_ret.
Qed.

Lemma index_written offset records :
  Forall record_fits records → Z.of_nat (length records) ≤ u32_max →
  ∃ bs, writes (W := W) (write_batch_index offset records)
          (bs ++ le_encode 8 offset ++ lit "END1") () ∧
        reads (R := R) read_batch_index bs (written_record <$> records).
Proof.
  intros Hall Hlen.
  assert (Hfront : coupled (W := W) (R := R)
    (batch_io (write_all (lit "IDX1"));;
     lift (if Z.of_nat (length records) <=? u32_max then Ok ()
           else Err (BatchText "too many batch records"));;
     batch_io (write_u32_le (Z.of_nat (length records)));;
     for_each write_batch_record records) read_batch_index (written_record <$> records)).
  { unfold read_batch_index, bail_unless. eapply coupled_bind; [by apply coupled_same|].
    apply coupled_result with (); [done|].
    apply coupled_check; [by destruct (Z.leb_spec (Z.of_nat (length records)) u32_max); [|lia]|].
    eapply coupled_bind; [apply coupled_disk, coupled_u32_le; unfold in_u32, u32_max in *; lia|].
    cbv beta. rewrite Nat2Z.id. rewrite <-(length_fmap written_record records).
    apply coupled_for_each, Forall2_fmap_r, Forall_Forall2_diag.
    eapply Forall_impl; [exact Hall|]. intros r. apply coupled_record. }
  destruct Hfront as (bs & Hw & Hr). exists bs. split; [|exact Hr].
  intros w Hready. destruct (Hw w Hready) as (w1 & Hw1 & He1 & Hr1).
  destruct (writes_all (W := W) (le_encode 8 offset) w1 Hr1) as (w2 & Hw2 & He2 & Hr2).
  destruct (writes_all (W := W) (lit "END1") w2 Hr2) as (w3 & Hw3 & He3 & Hr3).
  destruct (writes_flush (W := W) w3 Hr3) as (w4 & Hw4 & He4 & Hr4).
  exists w4. split_and!; [|rewrite <-(app_nil_r (lit "END1")); eauto using emits_app|done].
  unfold write_batch_index, with_err in *. cbv zeta.
  run_step Hw1 as [] Hmark. rewrite (bind_ok _ _ _ _ _ Hmark).
  run_step Hw1 as [] Hcheck. rewrite (bind_ok _ _ _ _ _ Hcheck).
  run_step Hw1 as [] Hcount. rewrite (bind_ok _ _ _ _ _ Hcount), (bind_ok _ _ _ _ _ Hw1).
  unfold mbind, M_bind, batch_io, with_err. by rewrite Hw2, Hw3, Hw4.
Qed.
End codecs.

(** ** The file as a reader *)

Section files.
Context `{Platform} `{Digests}.

#[export, program] Instance file_read_laws : ReadLaws OpenFile :=
  {| avail file bs := file_rest file = bs |}.
Next Obligation.
  intros file bs rest Hrest. cbn. unfold file_read_exact. rewrite Hrest.
  destruct (Nat.ltb_spec (length (bs ++ rest)) (length bs)); [rewrite length_app in *; lia|].
  rewrite take_app_length. eexists. split; [done|]. cbn.
  unfold file_rest in *. cbn. rewrite <-drop_drop, Hrest. apply drop_app_length.
Qed.
Next Obligation.
  intros n file bs file'. cbn. unfold file_read_exact.
  destruct (Nat.ltb_spec (length (file_rest file)) n); [done|]. intros [= <- <-]. cbn.
  unfold file_rest in *. cbn. rewrite length_take, !length_drop in *. lia.
Qed.

Lemma avail_at l r : avail {| file_bytes := l ++ r; file_pos := length l |} r.
Proof. apply drop_app_length. Qed.

(** Reading moves the position only. *)
Local Abbreviation reading m := (stays_in eq file_bytes m).

Lemma reading_exact n : reading (batch_io (read_exact (R := OpenFile) n)).
Proof. apply stays_with_err. intros file. cbn. unfold file_read_exact. by case_match. Qed.

Lemma reading_io {A} n (g : list Z → A) :
  reading (batch_io (buf ← read_exact (R := OpenFile) n; mret (g buf))).
Proof.
  apply stays_with_err, stays_bind; [exact _| |intros; apply stays_ret; exact _].
  intros file. cbn. unfold file_read_exact. by case_match.
Qed.

Lemma reading_u8 : reading (batch_io (read_u8 (R := OpenFile))).
Proof.
  apply stays_with_err, stays_bind; [exact _| |intros []; apply stays_ret || apply stays_throw; exact _].
  intros file. cbn. unfold file_read_exact. by case_match.
Qed.

Lemma reading_bind {A B} (m : M OpenFile BatchError A) (f : A → M OpenFile BatchError B) :
  reading m → (∀ a, reading (f a)) → reading (m ≫= f).
Proof. apply stays_bind. exact _. Qed.

Lemma reading_lift {A} (x : result A BatchError) : reading (lift x).
Proof. apply stays_lift. exact _. Qed.

Ltac reading :=
  repeat first
    [ apply reading_bind; [|intros]
    | apply reading_exact | apply reading_u8 | apply reading_io | apply reading_lift
    | apply stays_ret; exact _ ].

Lemma reading_header : reading read_batch_header.
Proof. unfold read_batch_header, read_manifest_block, bail_unless, read_u32_le. reading. Qed.

Lemma reading_collect {A} count (m : M OpenFile BatchError A) :
  reading m → reading (collect count m).
Proof.
  intros Hm. induction count as [|count IH]; cbn [collect]; [apply stays_ret; exact _|].
  apply reading_bind; [done|intros]. apply reading_bind; [done|intros]. apply stays_ret; exact _.
Qed.

Lemma reading_index : reading read_batch_index.
Proof.
  unfold read_batch_index, bail_unless, read_u32_le. reading. apply reading_collect.
  unfold read_batch_record, read_le. reading.
Qed.

(** ** A written file opens *)

Lemma seek_start_at bytes pos l r :
  bytes = l ++ r → Z.of_nat (length l) ≤ i64_max →
  ∃ file, seek_start (Z.of_nat (length l)) {| file_bytes := bytes; file_pos := pos |} = (Ok (), file) ∧
    avail file r ∧ file_bytes file = bytes.
Proof.
  intros -> Hl. unfold seek_start. destruct (Z.ltb_spec i64_max (Z.of_nat (length l))); [lia|].
  eexists. split; [done|]. rewrite Nat2Z.id. split; [apply avail_at|done].
Qed.

Lemma seek_end_at bytes pos l r n :
  bytes = l ++ r → n = - Z.of_nat (length r) →
  ∃ file, seek_end n {| file_bytes := bytes; file_pos := pos |} = (Ok (), file) ∧
    avail file r ∧ file_bytes file = bytes.
Proof.
  intros -> ->. unfold seek_end. cbn [file_bytes].
  replace (Z.of_nat (length (l ++ r)) + _) with (Z.of_nat (length l)) by (rewrite length_app; lia).
  destruct (Z.ltb_spec (Z.of_nat (length l)) 0); [lia|].
  eexists. split; [done|]. rewrite Nat2Z.id. split; [apply avail_at|done].
Qed.

Lemma reads_kept {A} (m : M OpenFile BatchError A) bs a file rest :
  reads m bs a → reading m → avail file (bs ++ rest) →
  ∃ file', m file = (Ok a, file') ∧ avail file' rest ∧ file_bytes file' = file_bytes file.
Proof.
  intros Hm Hk Ha. destruct (Hm file rest Ha) as (file' & Hf & Ha').
  exists file'. split_and!; [done..|]. specialize (Hk file). by rewrite Hf in Hk.
Qed.

Lemma batch_io_ok {S A} (m : M S io_error A) s a s' :
  m s = (Ok a, s') → batch_io m s = (Ok a, s').
Proof. intros Hm. unfold batch_io, with_err. by rewrite Hm. Qed.

(** The bytes of a batch file: header, contents, index and trailer. *)
Definition batch_bytes (header content index : list Z) : list Z :=
  (header ++ content) ++ index ++ le_encode 8 (Z.of_nat (length (header ++ content))) ++
  lit "END1".

Lemma read_written header content index dry_run manifest found :
  let bytes := batch_bytes header content index in
  Z.of_nat (length bytes) ≤ i64_max →
  reads (R := OpenFile) read_batch_header header (dry_run, manifest) →
  reads (R := OpenFile) read_batch_index index found →
  ∃ file, read_batch_file {| file_bytes := bytes; file_pos := 0%nat |} =
            (Ok ((dry_run, manifest), found), file) ∧ file_bytes file = bytes.
Proof.
  intros bytes Hmax Hheader Hindex. unfold batch_bytes in bytes.
  set (body := header ++ content) in *. set (offset := le_encode 8 (Z.of_nat (length body))) in *.
  assert (Hbody : Z.of_nat (length body) ≤ i64_max) by (unfold bytes in Hmax; rewrite length_app in Hmax; lia).
  assert (Hoffset : length offset = 8%nat) by apply length_le_encode.
  unfold read_batch_file, bail_unless.
  destruct (reads_kept _ header _ {| file_bytes := bytes; file_pos := 0%nat |}
              (drop (length header) bytes) Hheader reading_header) as ([b1 p1] & Hf1 & _ & Hb1).
  { unfold avail, file_read_laws, file_rest, bytes, body. cbn. by rewrite <-!app_assoc, drop_app_length. }
  cbn in Hb1. subst b1. rewrite (bind_ok _ _ _ _ _ Hf1), (bind_ok get _ _ _ _ eq_refl).
  assert (H12 : 12 <=? Z.of_nat (length bytes) = true).
  { apply Z.leb_le. unfold bytes. rewrite !length_app, Hoffset. cbn. lia. }
  cbn [file_bytes]. rewrite H12, (bind_ok (lift _) _ _ _ _ eq_refl).
  destruct (seek_end_at bytes p1 (body ++ index ++ offset) (lit "END1") (-4))
    as ([b2 p2] & Hs2 & Ha2 & Hb2); [unfold bytes; by rewrite <-!app_assoc|done|].
  cbn in Hb2. subst b2. rewrite (bind_ok _ _ _ _ _ (batch_io_ok _ _ _ _ Hs2)).
  destruct (reads_kept _ (lit "END1") (lit "END1") _ []
              (reads_with_err BatchIo _ _ _ (reads_exact (lit "END1") 4 eq_refl)) (reading_exact 4) Ha2)
    as ([b3 p3] & Hf3 & _ & Hb3).
  cbn in Hb3. subst b3. rewrite (bind_ok _ _ _ _ _ Hf3), bool_decide_eq_true_2 by done.
  rewrite (bind_ok (lift _) _ _ _ _ eq_refl).
  destruct (seek_end_at bytes p3 (body ++ index) (offset ++ lit "END1") (-12))
    as ([b4 p4] & Hs4 & Ha4 & Hb4).
  { unfold bytes. by rewrite <-!app_assoc. }
  { rewrite length_app, Hoffset. reflexivity. }
  cbn in Hb4. subst b4. rewrite (bind_ok _ _ _ _ _ (batch_io_ok _ _ _ _ Hs4)).
  destruct (reads_kept _ offset (le_decode offset) _ (lit "END1")
              (reads_with_err BatchIo _ _ _ (reads_le 8 le_decode offset Hoffset))
              (reading_io 8 le_decode) Ha4) as ([b5 p5] & Hf5 & _ & Hb5).
  cbn in Hb5. subst b5. rewrite (bind_ok _ _ _ _ _ Hf5). unfold offset at 1.
  rewrite le_decode_encode_id by (cbn; unfold i64_max in Hbody; lia).
  destruct (seek_start_at bytes p5 body (index ++ offset ++ lit "END1") eq_refl Hbody)
    as ([b6 p6] & Hs6 & Ha6 & Hb6).
  cbn in Hb6. subst b6. rewrite (bind_ok _ _ _ _ _ (batch_io_ok _ _ _ _ Hs6)).
  destruct (reads_kept _ index found _ _ Hindex reading_index Ha6) as (f7 & Hf7 & _ & Hb7).
  rewrite (bind_ok _ _ _ _ _ Hf7). by exists f7.
Qed.
End files.

(** ** What a batch records *)

Section written.
Context `{Platform} {F : Type} `{PortableFileSystem F} `{DigestLaws}.
Implicit Types (e : RemoteSourceEntry) (r : BatchRecord) (w : BatchWriter).

(** The entries that get a record: all but symbolic links. *)
Definition recorded e : Prop := Flist.file_type (wire e) ≠ Flist.Symlink.

#[export] Instance recorded_dec e : Decision (recorded e).
Proof. unfold recorded. apply _. Defined.

Definition last_recorded (path : PathBuf) (entries : list RemoteSourceEntry) :
    option RemoteSourceEntry :=
  last (filter (λ e, wire_path (wire e) = path) (filter recorded entries)).

(** The record of an entry, in a file that has these bytes so far. *)
Definition entry_record (fs : F) (dry_run : bool) (file : list Z) e r : Prop :=
  record_relative r = wire_path (wire e) ∧
  (∃ meta, FileSystem.metadata fs (local_path e) = Ok meta ∧
           record_modified r = Metadata.modified meta) ∧
  0 ≤ record_data_offset r ≤ Z.of_nat (length file) ∧
  length (record_checksum r) = 16%nat ∧
  match Flist.file_type (wire e) with
  | Flist.File =>
      record_kind r = BatchFile ∧ record_len r = Flist.len (wire e) ∧
      ∃ bytes, read_file fs (local_path e) = Ok bytes ∧
        record_len r = Z.of_nat (length bytes) ∧ record_checksum r = md4 bytes ∧
        (dry_run = false →
         (Z.to_nat (record_data_offset r) + length bytes ≤ length file)%nat ∧
         take (length bytes) (drop (Z.to_nat (record_data_offset r)) file) = bytes)
  | Flist.Directory => record_kind r = BatchDirectory ∧ record_len r = 0
  | Flist.Symlink => False
  end.

Lemma entry_record_app fs dry_run file more e r :
  entry_record fs dry_run file e r → entry_record fs dry_run (file ++ more) e r.
Proof.
  intros (Hrel & Hmeta & Hoff & Hsum & Hkind). unfold entry_record. rewrite length_app.
  split_and!; [done..|lia|lia|done|]. destruct (Flist.file_type (wire e)); [|done..].
  destruct Hkind as (Hk & Hlen & bytes & Hread & Hbytes & Hmd & Hdata).
  split_and!; [done..|]. exists bytes. split_and!; [done..|]. intros Hdry.
  destruct (Hdata Hdry) as [Hfit Htake]. split; [lia|].
  rewrite drop_app_le by lia. by rewrite take_app_le by (rewrite length_drop; lia).
Qed.

Lemma filter_recorded e :
  filter recorded [e] = match Flist.file_type (wire e) with Flist.Symlink => [] | _ => [e] end.
Proof.
  rewrite filter_cons, filter_nil. destruct (decide (recorded e)) as [Hr|Hr]; unfold recorded in Hr.
  - by destruct (Flist.file_type (wire e)).
  - destruct (Flist.file_type (wire e)); [by destruct Hr..|done].
Qed.

Lemma append_entry fs dest e w w' :
  batch_entry fs dest e w = (Ok (), w') →
  ∃ more new, batch_writer w' = batch_writer w ++ more ∧
    writer_dry_run w' = writer_dry_run w ∧ writer_records w' = writer_records w ++ new ∧
    Forall2 (entry_record fs (writer_dry_run w) (batch_writer w')) (filter recorded [e]) new.
Proof.
  unfold batch_entry. intros Hrun. run_step Hrun as meta Hmeta.
  apply lift_ok_inv in Hmeta as [Hmeta ->].
  assert (Hm : FileSystem.metadata fs (local_path e) = Ok meta)
    by (by destruct (FileSystem.metadata fs (local_path e)); cbn in Hmeta; simplify_eq).
  rewrite filter_recorded. destruct (Flist.file_type (wire e)) eqn:Htype.
  - run_step Hrun as record Hrec. unfold batch_append_file in Hrec.
    run_step Hrec as self Hself. injection Hself as <- <-.
    run_step Hrec as bytes Hbytes. apply lift_ok_inv in Hbytes as [Hbytes ->].
    destruct (negb _) eqn:Hlen; [discriminate|]. injection Hrun as <-. cbn in Hrec.
    injection Hrec as <- <-. apply negb_false_iff, Z.eqb_eq in Hlen.
    assert (Hb : read_file fs (local_path e) = Ok bytes)
      by (by destruct (read_file fs (local_path e)); cbn in Hbytes; simplify_eq).
    exists (if writer_dry_run w then [] else bytes), [
      {| record_kind := BatchFile; record_relative := wire_path (wire e);
         record_len := Flist.len (wire e); record_modified := Metadata.modified meta;
         record_data_offset := stream_position w; record_checksum := md4 bytes |}].
    assert (Hpos : stream_position w = Z.of_nat (length (batch_writer w))) by done.
    destruct (writer_dry_run w) eqn:Hdry; cbn; rewrite ?app_nil_r;
      (split; [done|]); (split; [done|]); (split; [done|]);
      (constructor; [|constructor]); unfold entry_record; rewrite Htype; cbn; rewrite Hpos.
    + split_and!; try done; try lia; [by eauto|apply length_md4|]. exists bytes. by split_and!.
    + rewrite length_app. split_and!; try done; try lia; [by eauto|apply length_md4|].
      exists bytes. split_and!; [done..|]. intros _.
      rewrite Nat2Z.id. split; [done|]. by rewrite drop_app_length, take_ge by done.
  - run_step Hrun as record Hrec. unfold batch_append_directory in Hrec.
    run_step Hrec as self Hself. injection Hself as <- <-. cbn in Hrec.
    injection Hrec as <- <-. injection Hrun as <-.
    exists []. eexists [_]. cbn. rewrite app_nil_r. split_and!; [done..|].
    constructor; [|constructor]. unfold entry_record. rewrite Htype. cbn. unfold stream_position.
    split_and!; try done; try lia. by eauto.
  - injection Hrun as <-. exists [], []. rewrite !app_nil_r.
    split_and!; [done..|constructor].
Qed.

Lemma append_entries fs dest entries w w' :
  for_each (batch_entry fs dest) entries w = (Ok (), w') →
  ∃ more new, batch_writer w' = batch_writer w ++ more ∧
    writer_dry_run w' = writer_dry_run w ∧ writer_records w' = writer_records w ++ new ∧
    Forall2 (entry_record fs (writer_dry_run w) (batch_writer w')) (filter recorded entries) new.
Proof.
  revert w. induction entries as [|e entries IH]; intros w; cbn [for_each].
  { intros [= <-]. exists [], []. rewrite !app_nil_r. split_and!; [done..|constructor]. }
  intros Hrun. run_step Hrun as [] Hone.
  destruct (append_entry fs dest e _ _ Hone) as (more1 & new1 & Hw1 & Hd1 & Hr1 & Hall1).
  destruct (IH _ Hrun) as (more2 & new2 & Hw2 & Hd2 & Hr2 & Hall2).
  exists (more1 ++ more2), (new1 ++ new2). rewrite Hw2, Hw1, Hd2, Hr2, Hr1, <-!app_assoc.
  split_and!; [done..|]. change (e :: entries) with ([e] ++ entries). rewrite filter_app.
  apply Forall2_app.
  - eapply Forall2_impl; [exact Hall1|]. intros e' r' Hr'. rewrite app_assoc, <-Hw1.
    by apply entry_record_app.
  - rewrite Hd1, Hw2, Hw1, <-app_assoc in Hall2. exact Hall2.
Qed.
End written.

(** ** A batch reads back *)

Lemma fold_inserts {V} (found : list (PathBuf * V)) (m : gmap PathBuf V) path :
  fold_left (λ m x, <[x.1 := x.2]> m) found m !! path =
  match last (filter (λ x, x.1 = path) found) with Some x => Some x.2 | None => m !! path end.
Proof.
  induction found as [|x found IH] using rev_ind; [done|].
  rewrite fold_left_app, filter_app. cbn [fold_left]. rewrite filter_cons, filter_nil.
  destruct (decide (x.1 = path)) as [<-|Hne].
  - by rewrite lookup_insert_eq, last_snoc.
  - by rewrite lookup_insert_ne, app_nil_r.
Qed.

Lemma records_by_path_lookup found path :
  records_by_path found !! path =
  (λ x, set_relative path x.2) <$> last (filter (λ x, x.1 = path) found).
Proof.
  unfold records_by_path. rewrite map_lookup_imap, fold_inserts, lookup_empty.
  by destruct (last _).
Qed.

Lemma Forall2_filter {A B} (P : A → B → Prop) (Q : A → Prop) (Q' : B → Prop)
    `{∀ x, Decision (Q x)} `{∀ x, Decision (Q' x)} xs ys :
  (∀ x y, P x y → Q x ↔ Q' y) → Forall2 P xs ys → Forall2 P (filter Q xs) (filter Q' ys).
Proof.
  intros HQ. induction 1 as [|x y xs ys Hxy Hall IH]; [constructor|]. rewrite !filter_cons.
  specialize (HQ x y Hxy). by repeat case_decide; try constructor; auto; exfalso; tauto.
Qed.

Section round_trip.
Context `{Platform} {F : Type} `{PortableFileSystem F} `{DigestLaws}.
Implicit Types (e : RemoteSourceEntry) (r : BatchRecord) (w : BatchWriter).

Lemma records_ok_lengths records out out' :
  for_each (write_batch_record (W := list Z)) records out = (Ok (), out') →
  Forall (λ r, Z.of_nat (length (encode_chars (relative_text (record_relative r)))) ≤ u16_max)
    records.
Proof.
  revert out. induction records as [|r records IH]; intros out Hall; [constructor|].
  cbn [for_each] in Hall. run_step Hall as [] Hone. constructor; [|by eapply IH].
  unfold write_batch_record in Hone. run_step Hone as [] Hcheck.
  apply lift_ok_inv in Hcheck as [Hcheck _].
  by destruct (Z.leb_spec (Z.of_nat (length (encode_chars (relative_text (record_relative r))))) u16_max).
Qed.

Lemma index_ok_lengths offset records out out' :
  write_batch_index (W := list Z) offset records out = (Ok (), out') →
  Z.of_nat (length records) ≤ u32_max ∧
  Forall (λ r, Z.of_nat (length (encode_chars (relative_text (record_relative r)))) ≤ u16_max)
    records.
Proof.
  unfold write_batch_index. intros Hrun. run_step Hrun as [] Hmark. run_step Hrun as [] Hcount.
  apply lift_ok_inv in Hcount as [Hcount ->].
  destruct (Z.leb_spec (Z.of_nat (length records)) u32_max); [|done]. split; [done|].
  run_step Hrun as [] Hlen. run_step Hrun as [] Hall. by eapply records_ok_lengths.
Qed.

Lemma header_ok_length dry_run manifest out out' :
  write_batch_header (W := list Z) dry_run manifest out = (Ok (), out') →
  Z.of_nat (length (encode_chars (render_manifest manifest))) ≤ u32_max.
Proof.
  unfold write_batch_header, write_manifest_block. cbv zeta. intros Hrun.
  do 4 (let H := fresh in run_step Hrun as [] H). run_step Hrun as [] Hblock. run_step Hblock as [] Hlen.
  apply lift_ok_inv in Hlen as [Hlen _].
  by destruct (Z.leb_spec (Z.of_nat (length (encode_chars (render_manifest manifest)))) u32_max).
Qed.

(** Writing appends. *)
Local Abbreviation appends m := (stays_in (prefix (A := Z)) id m).

Lemma appends_all bs : appends (batch_io (write_all (W := list Z) bs)).
Proof. apply stays_with_err. intros out. by exists bs. Qed.

Lemma appends_index offset records : appends (write_batch_index (W := list Z) offset records).
Proof.
  unfold write_batch_index, write_batch_record, write_u32_le.
  repeat first
    [ apply stays_bind; [exact _| |intros]
    | apply appends_all
    | apply stays_lift; exact _
    | apply stays_for_each; [exact _|intros]
    | apply stays_with_err; intros out; by exists [] ].
Qed.

(** What the program knows of an entry, and that its time can be represented. *)
Definition entry_fits (fs : F) e : Prop :=
  0 ≤ Flist.len (wire e) < 2 ^ 64 ∧
  ∀ meta, FileSystem.metadata fs (local_path e) = Ok meta → time_fits (Metadata.modified meta).

Lemma chars_scalars s : Forall (λ c, is_scalar c = true) (chars s).
Proof.
  unfold chars. destruct (decode_utf8 s) as [cs|] eqn:Hd; cbn; [|constructor].
  apply encode_decode_chars in Hd as [_ Hs]. rewrite forallb_forall in Hs.
  apply Forall_forall. intros c Hc%list_elem_of_In. by apply Hs.
Qed.

Lemma entry_record_fits fs dry_run file e r :
  entry_fits fs e → entry_record fs dry_run file e r →
  Z.of_nat (length file) ≤ i64_max →
  Z.of_nat (length (encode_chars (relative_text (record_relative r)))) ≤ u16_max →
  record_fits r.
Proof.
  intros [Hlen Htime] (Hrel & (meta & Hmeta & Hmod) & Hoff & Hsum & Hkind) Hmax Htext.
  unfold i64_max in Hmax. split; try done; rewrite ?Hrel, ?Hmod; unfold wire_path.
  - apply parse_text_of_parsed.
  - apply forallb_forall. intros c Hc%list_elem_of_In. revert c Hc. apply Forall_forall.
    by apply parsed_text_Forall, chars_scalars.
  - destruct (Flist.file_type (wire e)); [by destruct Hkind as (_ & -> & _)| |done].
    destruct Hkind as [_ ->]. lia.
  - lia.
  - by apply Htime.
Qed.

(** What a reader has for the last entry of a path. *)
Definition reads_back (fs : F) (dry_run : bool) (file : list Z) e r : Prop :=
  record_relative r = wire_path (wire e) ∧
  (∃ meta, FileSystem.metadata fs (local_path e) = Ok meta ∧
           record_modified r = written_time (Metadata.modified meta)) ∧
  match Flist.file_type (wire e) with
  | Flist.File =>
      record_kind r = BatchFile ∧ ∃ bytes, read_file fs (local_path e) = Ok bytes ∧
        (dry_run = false → ∀ f, file_bytes f = file →
         ∃ f', batch_file_data r f = (Ok bytes, f') ∧ file_bytes f' = file)
  | _ => record_kind r = BatchDirectory
  end.

Lemma file_data_reads r f bytes :
  record_kind r = BatchFile → record_len r = Z.of_nat (length bytes) →
  record_checksum r = md4 bytes → 0 ≤ record_data_offset r →
  (Z.to_nat (record_data_offset r) + length bytes ≤ length (file_bytes f))%nat →
  Z.of_nat (length (file_bytes f)) ≤ i64_max →
  take (length bytes) (drop (Z.to_nat (record_data_offset r)) (file_bytes f)) = bytes →
  ∃ f', batch_file_data r f = (Ok bytes, f') ∧ file_bytes f' = file_bytes f.
Proof.
  intros Hk Hlen Hmd Hoff Hfit Hmax Hdata. unfold batch_file_data, bail_unless.
  rewrite Hk, bool_decide_eq_true_2, (bind_ok (lift _) _ _ _ _ eq_refl) by done.
  destruct (Z.leb_spec (record_len r) i64_max); [|lia].
  rewrite (bind_ok (lift _) _ _ _ _ eq_refl).
  unfold mbind, M_bind, batch_io, with_err, seek_start, lift. cbn -[Nat.ltb].
  destruct (Z.ltb_spec i64_max (record_data_offset r)); [lia|].
  unfold file_read_exact, file_rest. cbn -[Nat.ltb]. rewrite Hlen, Nat2Z.id, length_drop.
  destruct (Nat.ltb_spec (length (file_bytes f) - Z.to_nat (record_data_offset r)) (length bytes)); [lia|].
  rewrite Hdata. cbn. rewrite Hmd, bool_decide_eq_true_2 by done. by eexists.
Qed.

Lemma entry_reads_back fs dry_run file more e r :
  entry_record fs dry_run file e r → Z.of_nat (length (file ++ more)) ≤ i64_max →
  reads_back fs dry_run (file ++ more) e (set_relative (wire_path (wire e)) (written_record r).2).
Proof.
  intros He Hmax. apply (entry_record_app _ _ _ more) in He.
  destruct He as (Hrel & (meta & Hmeta & Hmod) & Hoff & Hsum & Hkind). split_and!; [done| |].
  { exists meta. split; [done|]. cbn. by rewrite Hmod. }
  destruct (Flist.file_type (wire e)); [|by destruct Hkind|done].
  destruct Hkind as (Hk & Hlen & bytes & Hread & Hbytes & Hmd & Hdata).
  split; [done|]. exists bytes. split; [done|]. intros Hdry f Hf.
  destruct (Hdata Hdry) as [Hfit Htake]. rewrite <-Hf in *.
  apply file_data_reads; cbn; first [done|lia].
Qed.

(** The last record found for a path is that of the last entry with that path. *)
Lemma found_for_entries path fs dry_run file es rs :
  Forall2 (entry_record fs dry_run file) es rs →
  option_Forall2 (λ e x, ∃ r, x = written_record r ∧ entry_record fs dry_run file e r)
    (last (filter (λ e, wire_path (wire e) = path) es))
    (last (filter (λ x, x.1 = path) (written_record <$> rs))).
Proof.
  intros Hall. apply Forall2_last, Forall2_filter.
  - intros e x (r & -> & Hrel & _). cbn. by rewrite Hrel.
  - apply Forall2_fmap_r. eapply Forall2_impl; [exact Hall|]. cbn. eauto.
Qed.

#[local] Opaque write_batch_header write_batch_index.

(** A batch that is written is header, contents, index and trailer. *)
Lemma write_batch_bytes fs dest entries dry_run manifest records file :
  forallb is_scalar (render_manifest manifest) = true →
  Forall (entry_fits fs) entries →
  write_batch fs dest entries dry_run manifest = Ok (records, file) →
  Z.of_nat (length file) ≤ i64_max →
  ∃ header more index,
    file = batch_bytes header more index ∧
    reads (R := OpenFile) read_batch_header header (dry_run, written_manifest manifest) ∧
    reads (R := OpenFile) read_batch_index index (written_record <$> records) ∧
    Forall2 (entry_record fs dry_run (header ++ more)) (filter recorded entries) records.
Proof.
  intros Htext Hfits Hwrite Hmax. unfold write_batch, create_with_manifest in Hwrite.
  destruct (write_batch_header dry_run manifest []) as [[[]|err] head] eqn:Hhead; [|done].
  cbn [and_then] in Hwrite. set (w0 := {| batch_writer := head; writer_records := [];
                               writer_dry_run := dry_run |}) in *.
  destruct (for_each (batch_entry fs dest) entries w0) as [[[]|err] w] eqn:Hentries; [|done].
  destruct (append_entries fs dest entries w0 w Hentries) as (more & new & Hw & Hd & Hr & Hall).
  cbn [w0 batch_writer writer_dry_run writer_records app] in Hw, Hd, Hr, Hall.
  unfold batch_finish in Hwrite. rewrite Hr in Hwrite.
  destruct (write_batch_index _ new _) as [[[]|err] out] eqn:Hindex; [|done].
  cbn [and_then] in Hwrite. injection Hwrite as <- <-.
  assert (Hbody : Z.of_nat (length (batch_writer w)) ≤ i64_max).
  { pose proof (appends_index (stream_position w) new (batch_writer w)) as [tail Htail].
    rewrite Hindex in Htail. cbn in Htail. rewrite Htail, length_app in Hmax. lia. }
  destruct (index_ok_lengths _ _ _ _ Hindex) as [Hcount Htexts].
  assert (Hall_fits : Forall record_fits new).
  { apply Forall_forall. intros r Hin. apply list_elem_of_lookup in Hin as [i Hi].
    destruct (Forall2_lookup_r _ _ _ _ _ Hall Hi) as (e & He & Her).
    apply (entry_record_fits fs dry_run (batch_writer w) e r); try done.
    - apply list_elem_of_lookup_2, list_elem_of_filter in He as [_ He].
      by eapply Forall_forall in Hfits.
    - apply list_elem_of_lookup_2 in Hi. by eapply Forall_forall in Htexts. }
  destruct (index_written (R := OpenFile) (W := list Z) (stream_position w) new Hall_fits Hcount)
    as (index & Hwi & Hri).
  assert (Hm : manifest_fits manifest) by (split; [done|by eapply header_ok_length]).
  destruct (coupled_header (R := OpenFile) (W := list Z) dry_run manifest Hm) as (header & Hwh & Hrh).
  rewrite (writes_vec _ _ _ [] Hwh) in Hhead. apply (f_equal snd) in Hhead. cbn [snd app] in Hhead.
  subst head. rewrite (writes_vec _ _ _ _ Hwi) in Hindex. apply (f_equal snd) in Hindex.
  cbn [snd] in Hindex. exists header, more, index. rewrite Hw in *. split_and!; try done.
  rewrite <-Hindex. unfold batch_bytes, stream_position. by rewrite Hw.
Qed.

#[local] Transparent write_batch_header write_batch_index.

Lemma open_batch_bytes header more index dry_run manifest found :
  Z.of_nat (length (batch_bytes header more index)) ≤ i64_max →
  reads (R := OpenFile) read_batch_header header (dry_run, manifest) →
  reads (R := OpenFile) read_batch_index index found →
  ∃ f, file_bytes f = batch_bytes header more index ∧
    open_batch (batch_bytes header more index) =
      Ok {| reader_records := records_by_path found; reader_file := f;
            reader_dry_run := dry_run; reader_manifest := manifest |}.
Proof.
  intros Hmax Hh Hi. destruct (read_written header more index dry_run manifest found Hmax Hh Hi)
    as (f & Hf & Hbytes). exists f. split; [done|]. unfold open_batch. by rewrite Hf.
Qed.

(** What a written batch opens as. *)
Lemma batch_opens fs dest entries dry_run manifest records file :
  forallb is_scalar (render_manifest manifest) = true →
  Forall (entry_fits fs) entries →
  write_batch fs dest entries dry_run manifest = Ok (records, file) →
  Z.of_nat (length file) ≤ i64_max →
  ∃ reader, open_batch file = Ok reader ∧ reader_dry_run reader = dry_run ∧
    reader_manifest reader = written_manifest manifest ∧ file_bytes (reader_file reader) = file ∧
    ∀ path, match last_recorded path entries with
            | Some e => ∃ r, reader_records reader !! path = Some r ∧
                             reads_back fs dry_run file e r
            | None => reader_records reader !! path = None
            end.
Proof.
  intros Htext Hfits Hwrite Hmax.
  destruct (write_batch_bytes fs dest entries dry_run manifest records file)
    as (header & more & index & -> & Hh & Hi & Hall); [done..|].
  destruct (open_batch_bytes header more index dry_run (written_manifest manifest)
              (written_record <$> records)) as (f & Hf & ->); [done..|].
  eexists. split; [reflexivity|]. split; [done|]. split; [done|]. split; [done|]. intros path.
  cbn [reader_records]. rewrite records_by_path_lookup.
  unfold last_recorded. pose proof (found_for_entries path _ _ _ _ _ Hall) as Hfound.
  destruct (last (filter _ (filter _ _))) as [e|] eqn:Hlast.
  - inversion Hfound as [? x (r & -> & Her) Heq1 Heq2|]; subst.
    apply last_Some_elem_of, list_elem_of_filter in Hlast as [<- _].
    eexists. split; [reflexivity|]. by apply entry_reads_back.
  - by inversion Hfound as [|Heq1 Heq2].
Qed.
End round_trip.

(** ** Targets *)

Section targets.
Context `{Platform}.

(** No name of the path is a drive, or begins with one. *)
Definition driveless (path : PathBuf) : Prop := ∀ name, Normal name ∈ path → has_drive name = false.

(** The names of a path that a batch can have, where none is a drive. *)
Lemma safe_components_below text safe :
  driveless (parse_path text) → ∀ components names,
  components ⊆ parse_path text →
  safe_components components (Normal <$> names) = Some safe →
  ∃ names', safe = Normal <$> names'.
Proof.
  intros Hdrive. induction components as [|c components IH]; intros names Hin; cbn [safe_components].
  { intros [= <-]. by exists names. }
  assert (Hsub : components ⊆ parse_path text) by set_solver.
  destruct c as [| | | |name]; try done; [by apply IH|].
  rewrite parse_name.
  - change [Normal name] with (Normal <$> [name]). rewrite join_names, <-fmap_app. by apply IH.
  - apply (parsed_names text). set_solver.
  - apply Hdrive. set_solver.
Qed.

Lemma batch_target_below dest text allow_root target :
  driveless (parse_path text) →
  safe_batch_target dest (parse_path text) allow_root = Ok target → below dest target.
Proof.
  intros Hdrive. unfold safe_batch_target.
  destruct (safe_components (parse_path text) []) as [safe|] eqn:Hsafe; [|done].
  destruct (safe_components_below text safe Hdrive _ [] ltac:(done) Hsafe) as [names ->].
  destruct names as [|name names].
  - cbn. destruct allow_root; [|done]. intros [= <-]. apply below_dest.
  - cbn. intros [= <-]. exists (name :: names). apply (join_names dest (name :: names)).
Qed.

(** The target of a path of plain names, and of the top directory. *)
Lemma safe_components_plain names out :
  Forall windows_name names →
  safe_components (Normal <$> names) (Normal <$> out) = Some (Normal <$> (out ++ names)).
Proof.
  intros Hall. revert out. induction Hall as [|name names Hn Hall IH]; intros out; cbn [fmap list_fmap safe_components].
  { by rewrite app_nil_r. }
  rewrite windows_name_plain by done. change [Normal name] with (Normal <$> [name]).
  rewrite join_names, <-fmap_app. rewrite IH. by rewrite <-app_assoc.
Qed.

Lemma batch_target_plain dest names allow_root :
  names ≠ [] → Forall windows_name names →
  safe_batch_target dest (Normal <$> names) allow_root = Ok (path_join dest (Normal <$> names)).
Proof.
  intros Hne Hall. unfold safe_batch_target. pose proof (safe_components_plain names [] Hall) as Hs.
  change (Normal <$> []) with (@nil Component) in Hs. rewrite Hs.
  by destruct names.
Qed.
End targets.

(** ** Where a replay writes *)

Section confined.
Context `{Platform} `{Digests} {F : Type} `{PortableFileSystem F}.

(** The index gives parsed paths. *)
Lemma read_record_path file x file' :
  read_batch_record (R := OpenFile) file = (Ok x, file') → ∃ text, x.1 = parse_path text.
Proof.
  unfold read_batch_record. intros Hrun.
  run_step Hrun as rel_len Hlen. run_step Hrun as rel_bytes Hbytes. run_step Hrun as text Htext.
  do 7 (let x := fresh in let Hx := fresh in run_step Hrun as x Hx).
  injection Hrun as <- _. by exists text.
Qed.

Lemma collect_Forall {S E A} (P : A → Prop) (m : M S E A) count s xs s' :
  (∀ s x s', m s = (Ok x, s') → P x) → collect count m s = (Ok xs, s') → Forall P xs.
Proof.
  intros Hm. revert s xs s'. induction count as [|count IH]; intros s xs s' Hrun; cbn [collect] in Hrun.
  { injection Hrun as <- _. constructor. }
  run_step Hrun as x Hx. run_step Hrun as xs' Hxs. injection Hrun as <- _.
  constructor; [by eapply Hm|by eapply IH].
Qed.

Lemma opened_paths bytes reader path :
  open_batch bytes = Ok reader → is_Some (reader_records reader !! path) →
  ∃ text, path = parse_path text.
Proof.
  unfold open_batch. destruct (read_batch_file _) as [[[[dry_run manifest] found]|err] file] eqn:Hread; [|done].
  intros [= <-] [r Hr]. cbn in Hr. rewrite records_by_path_lookup in Hr.
  apply fmap_Some in Hr as (x & Hx & _). apply last_Some_elem_of, list_elem_of_filter in Hx as [<- Hin].
  assert (Hall : Forall (λ x : PathBuf * BatchRecord, ∃ text, x.1 = parse_path text) found).
  { unfold read_batch_file in Hread. do 9 (let x := fresh in let Hx := fresh in run_step Hread as x Hx).
    run_step Hread as index Hindex. injection Hread as _ <- _.
    unfold read_batch_index in Hindex. do 3 (let x := fresh in let Hx := fresh in run_step Hindex as x Hx).
    eapply collect_Forall; [|exact Hindex]. intros ? ? ?. apply read_record_path. }
  by apply (proj1 (Forall_forall _ _) Hall).
Qed.

Lemma opened_relative bytes reader r :
  open_batch bytes = Ok reader → r ∈ batch_records reader → ∃ text, record_relative r = parse_path text.
Proof.
  intros Hopen Hin. unfold batch_records in Hin. apply list_elem_of_fmap in Hin as ([path r'] & -> & Hin).
  apply elem_of_btree_iter in Hin. cbn.
  assert (record_relative r' = path) as ->.
  { unfold open_batch in Hopen. destruct (read_batch_file _) as [[[[? ?] found]|] ?]; [|done].
    injection Hopen as <-. cbn in Hin. rewrite records_by_path_lookup in Hin.
    by apply fmap_Some in Hin as (x & _ & ->). }
  by eapply opened_paths.
Qed.

(** No path recorded in the batch has a name that begins with a drive. *)
Definition batch_driveless (bytes : list Z) : Prop :=
  ∀ reader r, open_batch bytes = Ok reader → r ∈ batch_records reader → driveless (record_relative r).

Lemma driveless_away_from_windows bytes : windows = false → batch_driveless bytes.
Proof. intros Hposix reader r _ _ name _. unfold has_drive. by rewrite Hposix. Qed.

Section over.
Context (same : F → F → Prop) {same_preorder : PreOrder same} (dest : PathBuf).
Hypothesis keeps_create : ∀ path, below dest path → stays_in same id (create_dir_all path).
Hypothesis keeps_write : ∀ path bytes,
  below dest path → stays_in same id (write_file_direct path bytes).
Hypothesis keeps_mtime : ∀ path time, below dest path → stays_in same id (set_mtime path time).

Local Abbreviation keeps m := (stays_in (E := BatchError) same (@snd OpenFile F) m).

Lemma file_kept_bind {A B} (m : M (OpenFile * F) BatchError A) (f : A → M (OpenFile * F) BatchError B) :
  keeps m → (∀ a, keeps (f a)) → keeps (m ≫= f).
Proof using same_preorder. apply stays_bind. exact _. Qed.

Lemma keeps_fs {A} (m : M F BatchError A) : stays_in same id m → keeps (on_snd m).
Proof. intros Hm [file fs]. unfold on_snd. specialize (Hm fs). cbn in *. by destruct (m fs). Qed.

Lemma keeps_file {A} (m : M OpenFile BatchError A) : keeps (on_fst m).
Proof using same_preorder. intros [file fs]. unfold on_fst. cbn. destruct (m file). cbn. reflexivity. Qed.

Lemma keeps_record dry_run r text :
  driveless (record_relative r) → record_relative r = parse_path text →
  keeps (replay_record dry_run dest r).
Proof using All.
  intros Hdrive Hrel. unfold replay_record. rewrite Hrel in *.
  apply stays_lift_bind; [exact _|]. intros target Htarget%batch_target_below; [|done].
  destruct dry_run; [apply stays_ret; exact _|]. apply file_kept_bind; [|intros _].
  - unfold replay_file_data. destruct (record_kind r).
    + apply file_kept_bind; [apply keeps_file|]. intros bytes. apply keeps_fs, stays_with_err. auto.
    + apply keeps_fs, stays_with_err. auto.
  - destruct (record_modified r) as [time|]; [|apply stays_ret; exact _].
    apply keeps_fs. intros fs. apply (keeps_mtime target time Htarget fs).
Qed.

Lemma keeps_replay bytes dry_run_override fs :
  batch_driveless bytes → same fs (replay_batch bytes dest dry_run_override fs).2.
Proof using All.
  intros Hdrive. unfold replay_batch. destruct (open_batch bytes) as [reader|e] eqn:Hopen; [|reflexivity].
  assert (Hall : keeps (for_each
    (replay_record (default (reader_dry_run reader) dry_run_override) dest) (batch_records reader))).
  { apply stays_for_each; [exact _|]. intros r Hr.
    destruct (opened_relative bytes reader r Hopen Hr) as [text Htext].
    by eapply keeps_record, Htext; eapply Hdrive. }
  specialize (Hall (reader_file reader, fs)). destruct (for_each _ _ _) as [r [file fs']]. exact Hall.
Qed.
End over.

Lemma dry_replay bytes dest fs : (replay_batch bytes dest (Some true) fs).2 = fs.
Proof.
  unfold replay_batch. destruct (open_batch bytes) as [reader|e]; [|done]. cbn.
  assert (Hall : stays_in (E := BatchError) eq snd
    (for_each (replay_record (F := F) true dest) (batch_records reader))).
  { apply stays_for_each; [exact _|]. intros r _. unfold replay_record.
    apply stays_bind; [exact _|apply stays_lift; exact _|]. intros target. apply stays_ret. exact _. }
  specialize (Hall (reader_file reader, fs)). destruct (for_each _ _ _) as [r [file fs']]. done.
Qed.

(** C19. Whatever a batch file holds, a replay changes files below its destination only,
    provided that on Windows no name in a recorded path begins with a drive, as the name
    C:evil of a/C:evil does (such a path leads out, [batch_target_escapes]): it keeps every
    relation between file systems that the calls for the destination followed by names
    keep.  With --dry-run it changes nothing, on any platform. *)
Theorem replay_stays_below (same : F → F → Prop) `{!PreOrder same} bytes dest fs :
  (∀ path, below dest path → stays_in same id (create_dir_all path)) →
  (∀ path data, below dest path → stays_in same id (write_file_direct path data)) →
  (∀ path time, below dest path → stays_in same id (set_mtime path time)) →
  (∀ dry_run_override, (windows = true → batch_driveless bytes) →
     same fs (replay_batch bytes dest dry_run_override fs).2) ∧
  (replay_batch bytes dest (Some true) fs).2 = fs.
Proof.
  intros Hcreate Hwrite Hmtime. split; [|apply dry_replay]. intros dry Hdrive.
  apply keeps_replay; [done..|]. destruct windows eqn:Hw; [by apply Hdrive|].
  by apply driveless_away_from_windows.
Qed.
End confined.

(** ** What a replay restores, in memory *)

Section restores.
Context `{Platform} `{DigestLaws} (dest : PathBuf) (file : list Z).
Hypothesis dest_portable : portable dest.
Implicit Types (r : BatchRecord) (m : MemoryFileSystem).

Definition target_of r : PathBuf :=
  match safe_batch_target dest (record_relative r) (bool_decide (record_kind r = BatchDirectory)) with
  | Ok target => target
  | Err _ => dest
  end.

(** A record that can be replayed, of this data where it is a file's. *)
Definition replayable r (bytes : list Z) : Prop :=
  safe_batch_target dest (record_relative r) (bool_decide (record_kind r = BatchDirectory)) =
    Ok (target_of r) ∧ portable (target_of r) ∧
  (record_kind r = BatchFile → ∀ f, file_bytes f = file →
   ∃ f', batch_file_data r f = (Ok bytes, f') ∧ file_bytes f' = file).

Definition restored r (bytes : list Z) m : Prop :=
  match record_kind r with
  | BatchFile => ∃ node, nodes m !! target_of r = Some node ∧ node_type node = Metadata.File ∧
      node_bytes node = bytes ∧
      ∀ time, record_modified r = Some time → Metadata.modified (node_metadata node) = Some time
  | BatchDirectory => is_Some (nodes m !! target_of r)
  end.

(** Nodes stay, but for the one at [target]. *)
Definition others_stay (target : PathBuf) m m' : Prop :=
  plain (nodes m') ∧ ∀ q node, q ≠ target → nodes m !! q = Some node → nodes m' !! q = Some node.

Lemma with_parents_stays (p q : PathBuf) (ns : gmap PathBuf MemoryNode) node :
  portable p → ns !! q = Some node → with_parents p ns !! q = Some node.
Proof.
  intros Hp Hq. unfold with_parents. destruct (parent p) as [up|] eqn:Hup; [|done].
  rewrite with_dirs_lookup by (by eapply portable_parent). by rewrite Hq.
Qed.

(** The time is set where there is a node, which is there after the data is. *)
Lemma set_time_stays m p node time :
  plain (nodes m) → portable p → nodes m !! p = Some node →
  ∃ m', best_effort (set_mtime (F := MemoryFileSystem) p time) m = (Ok (), m') ∧
    others_stay p m m' ∧
    nodes m' !! p = Some {| node_metadata := with_modified (node_metadata node) time;
                            node_bytes := node_bytes node |}.
Proof.
  intros Hplain Hp Hnode. unfold best_effort. cbn [set_mtime MemoryFileSystem_portable].
  rewrite (set_mtime_at m p node time Hp Hnode). eexists. split; [reflexivity|].
  unfold set_nodes. cbn [nodes snd]. split.
  - split; [by apply plain_insert; [|apply (Hplain p node Hnode)]|].
    intros q n Hq Hn. cbn [nodes]. by rewrite lookup_insert_ne.
  - by rewrite lookup_insert_eq.
Qed.

Lemma replay_data r bytes f m :
  replayable r bytes → plain (nodes m) → file_bytes f = file →
  ∃ f' m' node, replay_file_data r (target_of r) (f, m) = (Ok (), (f', m')) ∧ file_bytes f' = file ∧
    others_stay (target_of r) m m' ∧ nodes m' !! target_of r = Some node ∧
    (record_kind r = BatchFile → node = file_node bytes).
Proof.
  intros (_ & Hp & Hdata) Hplain Hf. unfold replay_file_data.
  destruct (record_kind r) eqn:Hkind.
  - destruct (Hdata eq_refl f Hf) as (f' & Hread & Hf').
    exists f', (set_nodes (<[target_of r := file_node bytes]> (with_parents (target_of r) (nodes m))) m),
      (file_node bytes).
    unfold mbind, M_bind, on_fst, on_snd, with_err. cbn [fst snd]. rewrite Hread.
    cbn [write_file_direct MemoryFileSystem_portable]. rewrite write_plain by done.
    unfold set_nodes. cbn [nodes]. split_and!; [done..| |by rewrite lookup_insert_eq|done]. split.
    + by apply plain_insert; [apply plain_with_parents|].
    + intros q n Hq Hn. cbn [nodes]. rewrite lookup_insert_ne by done. by apply with_parents_stays.
  - assert (Hmade : ∃ node, with_dirs (target_of r) (nodes m) !! target_of r = Some node).
    { rewrite with_dirs_lookup by done. destruct (nodes m !! target_of r); [by eexists|].
      rewrite decide_True by done. by eexists. }
    destruct Hmade as [node Hnode].
    exists f, (set_nodes (with_dirs (target_of r) (nodes m)) m), node.
    unfold on_snd, with_err. cbn [fst snd create_dir_all MemoryFileSystem_portable].
    rewrite create_dir_all_plain by done.
    unfold set_nodes. cbn [nodes]. split_and!; [done..| |done|done]. split.
    + by apply plain_with_dirs.
    + intros q n _ Hn. cbn [nodes]. rewrite with_dirs_lookup by done. by rewrite Hn.
Qed.

Lemma replay_one r bytes f m :
  replayable r bytes → plain (nodes m) → file_bytes f = file →
  ∃ f' m', replay_record false dest r (f, m) = (Ok (), (f', m')) ∧ file_bytes f' = file ∧
    others_stay (target_of r) m m' ∧ restored r bytes m'.
Proof.
  intros Hr Hplain Hf. destruct (replay_data r bytes f m Hr Hplain Hf)
    as (f' & m1 & node & Hrun & Hf' & [Hplain1 Hstay1] & Hnode & Hfile).
  destruct Hr as (Htarget & Hp & _). unfold replay_record. rewrite Htarget.
  rewrite (bind_ok (lift _) _ _ _ _ eq_refl), (bind_ok _ _ _ _ _ Hrun). unfold restored.
  destruct (record_modified r) as [time|] eqn:Htime.
  - destruct (set_time_stays m1 (target_of r) node time Hplain1 Hp Hnode) as (m2 & Hset & [Hplain2 Hstay2] & Hnode2).
    exists f', m2. unfold on_snd. cbn [fst snd]. rewrite Hset. split_and!; [done..| |].
    + split; [done|]. eauto.
    + destruct (record_kind r); [|by rewrite Hnode2]. eexists. split; [exact Hnode2|].
      rewrite (Hfile eq_refl). split_and!; [done..|]. by intros ? [= <-].
  - exists f', m1. split_and!; [done..|].
    destruct (record_kind r); [|by rewrite Hnode]. exists node. rewrite (Hfile eq_refl) in *. done.
Qed.

Lemma replay_all (data : BatchRecord → list Z) rs f m :
  (∀ r, r ∈ rs → replayable r (data r)) → NoDup (target_of <$> rs) →
  plain (nodes m) → file_bytes f = file →
  ∃ f' m', for_each (replay_record false dest) rs (f, m) = (Ok (), (f', m')) ∧
    (∀ r, r ∈ rs → restored r (data r) m') ∧
    ∀ q node, q ∉ target_of <$> rs → nodes m !! q = Some node → nodes m' !! q = Some node.
Proof.
  revert f m. induction rs as [|r rs IH]; intros f m Hall Hnd Hplain Hf.
  { exists f, m. split_and!; [done|by intros ? ?%not_elem_of_nil|done]. }
  rewrite fmap_cons in Hnd. apply NoDup_cons in Hnd as [Hr Hnd].
  destruct (replay_one r (data r) f m) as (f1 & m1 & Hrun & Hf1 & Hstay & Hdone); [by apply Hall; left|done..|].
  destruct (IH f1 m1) as (f2 & m2 & Hrest & Hrs & Hkept); [intros; apply Hall; by right|done|apply Hstay|done|].
  exists f2, m2. cbn [for_each]. rewrite (bind_ok _ _ _ _ _ Hrun). split_and!; [done| |].
  - intros r' [->|Hin]%elem_of_cons; [|by apply Hrs]. revert Hdone. unfold restored.
    destruct (record_kind r).
    + intros (node & Hnode & Hd). exists node. split; [by apply Hkept|done].
    + intros [node Hnode]. exists node. by apply Hkept.
  - intros q node [Hq Hqs]%not_elem_of_cons Hnode. apply Hkept; [done|]. by apply Hstay.
Qed.
End restores.

(** ** Writing and replaying *)

Lemma NoDup_through {A B C} (f : A → B) (g : A → C) l :
  (∀ x y, x ∈ l → y ∈ l → g x = g y → f x = f y) → NoDup (f <$> l) → NoDup (g <$> l).
Proof.
  induction l as [|x l IH]; intros Hinj; [constructor|]. rewrite !fmap_cons, !NoDup_cons.
  intros [Hx Hl]. split.
  - intros (y & Heq & Hy)%list_elem_of_fmap. apply Hx, list_elem_of_fmap. exists y.
    split; [|done]. apply Hinj; [by left|by right|done].
  - apply IH; [|done]. intros y z Hy Hz. by apply Hinj; right.
Qed.

Section replay.
Context `{Platform} `{DigestLaws} {F : Type} `{PortableFileSystem F}.
Implicit Types (e : RemoteSourceEntry) (r : BatchRecord).

Lemma relatives_of_reader bytes reader :
  open_batch bytes = Ok reader →
  record_relative <$> batch_records reader = btree_keys (reader_records reader).
Proof.
  intros Hopen. unfold batch_records, btree_keys. rewrite <-list_fmap_compose.
  apply list_fmap_ext. intros i [path r] Hi%list_elem_of_lookup_2%elem_of_btree_iter. cbn.
  unfold open_batch in Hopen. destruct (read_batch_file _) as [[[[? ?] found]|] ?]; [|done].
  injection Hopen as <-. cbn in Hi. rewrite records_by_path_lookup in Hi.
  by apply fmap_Some in Hi as (x & _ & ->).
Qed.

(** The records of a written batch: each is of an entry, and can be replayed. *)
Definition record_of (fs : F) (file : list Z) (entries : list RemoteSourceEntry) r e : Prop :=
  last_recorded (record_relative r) entries = Some e ∧ reads_back fs false file e r.

Lemma last_recorded_spec path entries e :
  last_recorded path entries = Some e → e ∈ entries ∧ recorded e ∧ wire_path (wire e) = path.
Proof.
  intros Hlast%last_Some_elem_of. apply list_elem_of_filter in Hlast as [Hpath Hin].
  by apply list_elem_of_filter in Hin as [Hrec Hin].
Qed.

Lemma target_of_record dest fs file entries r e :
  placed (wire <$> entries) → record_of fs file entries r e →
  ∃ names, target_of dest r = dest ++ (Normal <$> names) ∧
    safe_batch_target dest (record_relative r) (bool_decide (record_kind r = BatchDirectory)) =
      Ok (target_of dest r) ∧
    record_relative r = match names with [] => [CurDir] | _ => Normal <$> names end.
Proof.
  intros Hplaced [Hlast (Hrel & _ & Hkind)].
  destruct (last_recorded_spec _ _ _ Hlast) as (Hin & Hrec & _). unfold target_of. rewrite Hrel.
  destruct (remote_entry_is_top_dir (wire e)) eqn:Htop.
  - apply andb_true_iff in Htop as [Hdir Hcur]. apply bool_decide_eq_true in Hdir, Hcur.
    rewrite Hcur. rewrite Hdir in Hkind. rewrite Hkind. exists []. by rewrite app_nil_r.
  - destruct (Hplaced (wire e)) as (names & Hne & Hnames & Hpath);
      [by apply list_elem_of_fmap; eauto|done|].
    exists names. rewrite Hpath, batch_target_plain by done. split; [by rewrite join_names|].
    split; [done|]. by destruct names.
Qed.

Lemma reader_record fs file entries (reader : BatchReader) :
  (∀ path, match last_recorded path entries with
           | Some e => ∃ r, reader_records reader !! path = Some r ∧ reads_back fs false file e r
           | None => reader_records reader !! path = None
           end) →
  ∀ path r, reader_records reader !! path = Some r →
  record_relative r = path ∧ ∃ e, record_of fs file entries r e.
Proof.
  intros Hpaths path r Hr. specialize (Hpaths path).
  destruct (last_recorded path entries) as [e|] eqn:Hlast; [|congruence].
  destruct Hpaths as (r' & Hr' & Hback). assert (r' = r) as -> by congruence.
  destruct (last_recorded_spec _ _ _ Hlast) as (_ & _ & Hwire).
  assert (Hrel : record_relative r = path) by (destruct Hback as [-> _]; done).
  split; [done|]. exists e. split; [by rewrite Hrel|done].
Qed.

Lemma elem_of_batch_records reader r :
  r ∈ batch_records reader ↔ ∃ path, reader_records reader !! path = Some r.
Proof.
  unfold batch_records. rewrite list_elem_of_fmap. split.
  - intros ([path r'] & -> & Hin%elem_of_btree_iter). by exists path.
  - intros [path Hr]. exists (path, r). split; [done|]. by apply elem_of_btree_iter.
Qed.

(** The data of the entry of a record. *)
Definition recorded_data (fs : F) (entries : list RemoteSourceEntry) r : list Z :=
  match last_recorded (record_relative r) entries with
  | Some e => match read_file fs (local_path e) with Ok bytes => bytes | Err _ => [] end
  | None => []
  end.

Lemma record_replayable dest fs file entries r e :
  placed (wire <$> entries) → portable dest → record_of fs file entries r e →
  replayable dest file r (recorded_data fs entries r).
Proof.
  intros Hplaced Hdest Hr. destruct (target_of_record dest fs file entries r e Hplaced Hr)
    as (names & Htarget & Hsafe & _).
  split; [done|]. split.
  { rewrite Htarget. apply Forall_app. split; [done|]. by apply Forall_fmap, Forall_true. }
  destruct Hr as [Hlast (_ & _ & Hkind)]. unfold recorded_data. rewrite Hlast.
  destruct (Flist.file_type (wire e)); [|by rewrite Hkind..].
  destruct Hkind as (_ & bytes & -> & Hdata). intros _. by apply Hdata.
Qed.

Lemma targets_distinct dest fs file entries rs :
  placed (wire <$> entries) → (∀ r, r ∈ rs → ∃ e, record_of fs file entries r e) →
  NoDup (record_relative <$> rs) → NoDup (target_of dest <$> rs).
Proof.
  intros Hplaced Hrs. apply NoDup_through. intros x y [ex Hx]%Hrs [ey Hy]%Hrs Heq.
  destruct (target_of_record dest fs file entries x ex Hplaced Hx) as (nx & Htx & _ & ->).
  destruct (target_of_record dest fs file entries y ey Hplaced Hy) as (ny & Hty & _ & ->).
  rewrite Htx, Hty in Heq. apply app_inv_head in Heq.
  by destruct nx, ny.
Qed.

(** C18. Replaying a batch restores what it recorded: into any place in memory without
    links, the replay succeeds, and then every path has what the last entry with that
    path had: a file its data and its time in whole seconds, and a directory is there. *)
Theorem replay_restores fs dest0 entries manifest records file dest (m : MemoryFileSystem) :
  forallb is_scalar (render_manifest manifest) = true →
  Forall (entry_fits fs) entries → placed (wire <$> entries) →
  write_batch fs dest0 entries false manifest = Ok (records, file) →
  Z.of_nat (length file) ≤ i64_max → plain (nodes m) → portable dest →
  ∃ m', replay_batch file dest None m = (Ok (), m') ∧
    ∀ path e, last_recorded path entries = Some e → remote_entry_is_top_dir (wire e) = false →
      match Flist.file_type (wire e) with
      | Flist.File => ∃ bytes meta node,
          read_file fs (local_path e) = Ok bytes ∧
          FileSystem.metadata fs (local_path e) = Ok meta ∧
          nodes m' !! path_join dest path = Some node ∧ node_type node = Metadata.File ∧
          node_bytes node = bytes ∧
          ∀ time, written_time (Metadata.modified meta) = Some time →
                  Metadata.modified (node_metadata node) = Some time
      | _ => is_Some (nodes m' !! path_join dest path)
      end.
Proof.
  intros Htext Hfits Hplaced Hwrite Hmax Hplain Hdest.
  destruct (batch_opens fs dest0 entries false manifest records file)
    as (reader & Hopen & Hdry & _ & Hfile & Hpaths); [done..|].
  pose proof (reader_record fs file entries reader Hpaths) as Hrecs.
  pose proof (elem_of_batch_records reader) as Hrs.
  destruct (replay_all dest file (recorded_data fs entries) (batch_records reader)
              (reader_file reader) m) as (f' & m' & Hrun & Hdone & _); [| |done|done|].
  { intros r [path Hr]%Hrs. destruct (Hrecs path r Hr) as [_ [e He]]. by eapply record_replayable. }
  { eapply targets_distinct; [done| |].
    - intros r [path Hr]%Hrs. by apply Hrecs in Hr as [_ He].
    - rewrite (relatives_of_reader file reader Hopen). apply NoDup_btree_keys. }
  exists m'. split.
  { unfold replay_batch. rewrite Hopen, Hdry. cbn [default from_option]. by rewrite Hrun. }
  intros path e Hlast Htop. specialize (Hpaths path). rewrite Hlast in Hpaths.
  destruct Hpaths as (r & Hr & Hback). destruct (Hrecs path r Hr) as [Hrel _].
  specialize (Hdone r ltac:(apply Hrs; by exists path)). unfold restored in Hdone.
  destruct (target_of_record dest fs file entries r e Hplaced) as (names & Htarget & _ & Hnames).
  { split; [by rewrite Hrel|done]. }
  assert (Htgt : target_of dest r = path_join dest path).
  { destruct Hback as [Hwire _]. rewrite Htarget, <-Hrel, Hnames. destruct names; [|by rewrite join_names].
    destruct (Hplaced (wire e)) as (names & Hne & _ & Hpath); [|done|].
    { apply list_elem_of_fmap. exists e. split; [done|]. by apply last_recorded_spec in Hlast as [? _]. }
    rewrite <-Hwire, Hnames in Hpath. destruct names; by rewrite ?fmap_cons in Hpath. }
  rewrite Htgt in Hdone. destruct Hback as (_ & (meta & Hmeta & Hmod) & Hkind).
  destruct (Flist.file_type (wire e)); [|by rewrite Hkind in Hdone..].
  destruct Hkind as (Hk & bytes & Hread & _). rewrite Hk in Hdone.
  destruct Hdone as (node & Hnode & Htype & Hbytes & Htime). exists bytes, meta, node.
  rewrite <-Hmod. split_and!; try done. rewrite Hbytes. unfold recorded_data.
  by rewrite Hrel, Hlast, Hread.
Qed.

(** C17. A batch file opens as what it was written from: the flag and the manifest (with the
    default of its last field), and for every path the last entry with that path, but for
    links, with its time in whole seconds; unless the batch was dry, the data of a file
    is what the file had, at any time it is read. *)
Theorem batch_round_trip fs dest entries dry_run manifest records file :
  forallb is_scalar (render_manifest manifest) = true →
  Forall (entry_fits fs) entries →
  write_batch fs dest entries dry_run manifest = Ok (records, file) →
  Z.of_nat (length file) ≤ i64_max →
  ∃ reader, open_batch file = Ok reader ∧ reader_dry_run reader = dry_run ∧
    reader_manifest reader = written_manifest manifest ∧ file_bytes (reader_file reader) = file ∧
    ∀ path, match last_recorded path entries with
            | Some e => ∃ r, reader_records reader !! path = Some r ∧
                             reads_back fs dry_run file e r
            | None => reader_records reader !! path = None
            end.
Proof. apply batch_opens. Qed.
End replay.

(** ** A batch *)

#[local] Existing Instances shown_digests shown_laws.
#[local] Instance posix : Platform := false.

Definition batch_sources : MemoryFileSystem :=
  ((add_file (parse_path (lit "s/a")) [1; 2; 3];;
    add_file (parse_path (lit "s/d/b")) [4; 5];;
    memory_set_mtime (parse_path (lit "s/d/b")) 7500000000) MemoryFileSystem_default).2.

Definition batch_source (name : string) (file_type : WireFileType) (len : Z) : RemoteSourceEntry :=
  {| wire := {| Flist.path := lit name; Flist.file_type := file_type; Flist.len := len;
                mtime_unix := 0; mode := RSYNC_REGULAR_FILE_MODE; checksum := None;
                hardlink_group := None; Flist.metadata := default_metadata |};
     local_path := path_join (parse_path (lit "s")) (parse_path (lit name)) |}.

(** The directory comes after its file in the list, and before it in the batch. *)
Definition batch_entries : list RemoteSourceEntry :=
  [batch_source "d/b" Flist.File 2; batch_source "a" Flist.File 3; batch_source "d" Flist.Directory 0].

Definition batch_manifest : BatchManifest :=
  {| manifest_options := [lit "recursive=true"; lit "\" ++ [10]]; manifest_filters := [];
     manifest_token_stream := [] |}.

Definition written_batch : list BatchRecord * list Z :=
  match write_batch batch_sources [] batch_entries false batch_manifest with
  | Ok written => written
  | Err _ => ([], [])
  end.

(** Written and replayed, with all the bytes evaluated. *)
Example batch_replayed :
  let '(r, m) := replay_batch written_batch.2 (parse_path (lit "t")) None MemoryFileSystem_default in
  r = Ok () ∧
  memory_paths m = [[]; parse_path (lit "t"); parse_path (lit "t/a"); parse_path (lit "t/d");
                    parse_path (lit "t/d/b")] ∧
  memory_read_file m (parse_path (lit "t/d/b")) = Ok [4; 5].
Proof. vm_compute. done. Qed.

(** One bit of the data changed is found out. *)
Example batch_corrupted :
  (replay_batch (<[141%nat := 7]> written_batch.2) (parse_path (lit "t")) None
     MemoryFileSystem_default).1 =
  Err (BatchText "batch file corrupted: checksum mismatch for {}").
Proof. vm_compute. done. Qed.

(** On Windows a drive in the middle of a path leads out of the destination. *)
Example batch_target_escapes :
  safe_batch_target (H1 := true) (parse_path (H := true) (lit "D:/dest"))
    (parse_path (H := true) (lit "a/C:evil")) false =
  Ok (parse_path (H := true) (lit "C:evil")).
Proof. vm_compute. done. Qed.

Lemma batch_entries_fit : Forall (entry_fits batch_sources) batch_entries.
Proof.
  repeat constructor; cbn; try lia; intros meta Hmeta; vm_compute in Hmeta; by injection Hmeta as <-.
Qed.

Lemma batch_entries_placed : placed (wire <$> batch_entries).
Proof.
  intros e He _. unfold batch_entries in He. rewrite !fmap_cons, !elem_of_cons in He.
  destruct He as [->|[->|[->|[]%not_elem_of_nil]]];
    [exists [lit "d"; lit "b"]|exists [lit "a"]|exists [lit "d"]];
    split_and!; try done; by repeat constructor.
Qed.

Lemma written_batch_ok :
  write_batch batch_sources [] batch_entries false batch_manifest =
  Ok (written_batch.1, written_batch.2).
Proof. vm_compute. reflexivity. Qed.

Lemma written_batch_length : Z.of_nat (length written_batch.2) ≤ i64_max.
Proof. vm_compute. discriminate. Qed.

Lemma batch_round_trip_witness :
  ∃ reader, open_batch written_batch.2 = Ok reader ∧ reader_dry_run reader = false ∧
    is_Some (reader_records reader !! parse_path (lit "d/b")).
Proof.
  destruct (batch_round_trip batch_sources [] batch_entries false batch_manifest written_batch.1
    written_batch.2 eq_refl batch_entries_fit written_batch_ok written_batch_length)
    as (reader & Hopen & Hdry & _ & _ & Hpaths).
  exists reader. split; [exact Hopen|]. split; [exact Hdry|].
  specialize (Hpaths (parse_path (lit "d/b"))). cbn in Hpaths.
  destruct Hpaths as (r & Hr & _). by exists r.
Defined.

Lemma replay_restores_witness :
  ∃ m', replay_batch written_batch.2 (parse_path (lit "t")) None MemoryFileSystem_default =
          (Ok (), m') ∧ is_Some (nodes m' !! parse_path (lit "t/d/b")).
Proof.
  destruct (replay_restores batch_sources [] batch_entries batch_manifest written_batch.1
    written_batch.2 (parse_path (lit "t")) MemoryFileSystem_default eq_refl batch_entries_fit
    batch_entries_placed written_batch_ok written_batch_length) as (m' & Hrun & Hpaths).
  - intros p node Hp. unfold MemoryFileSystem_default in Hp. cbn [nodes] in Hp.
    apply lookup_singleton_Some in Hp as [_ <-]. discriminate.
  - by repeat constructor.
  - exists m'. split; [exact Hrun|].
    assert (Hlast : last_recorded (parse_path (lit "d/b")) batch_entries =
                    Some (batch_source "d/b" Flist.File 2)) by (vm_compute; reflexivity).
    destruct (Hpaths _ _ Hlast eq_refl)
      as (bytes & meta & node & _ & _ & Hnode & _). exists node. exact Hnode.
Defined.

Lemma replay_stays_below_witness :
  outside_kept (parse_path (lit "t")) MemoryFileSystem_default
    (replay_batch written_batch.2 (parse_path (lit "t")) None MemoryFileSystem_default).2.
Proof.
  assert (Hd : portable (parse_path (lit "t"))) by by repeat constructor.
  apply (replay_stays_below (outside_kept (parse_path (lit "t"))) written_batch.2
           (parse_path (lit "t")) MemoryFileSystem_default); [..|intros Hw; discriminate Hw].
  - intros path Hp. by apply (kept_create_dir _ Hd).
  - intros path data Hp. by apply (kept_write _ Hd).
  - intros path time Hp. by apply (kept_mtime _ Hd).
Defined.
