(* ===== verification/Exchange.v ===== *)
(** * An exchange of files: requests and answers in protocol 31

    What the receiver of a pull asks for, the sender of a push takes, and its answers
    are what that receiver waits for.  First the calculus of computations that trade messages:
    they take some bytes from the reader, put some on the writer and change what is
    local.  Then the requests, and the sender that serves them. *)

From S2P Require Import Prelude Stream WireIo Str Session Handshake FsPath Metadata FileSystem.
From S2P Require Import SyncPlan WinPath Delta DeltaFacts Daemon DeflatedTokens DeflatedFacts.
From S2P Require Import TransferSums Transfer TransferFacts TransferSend TransferReceive.
From S2P Require Import TransferTheorems Flist RemoteFiles RemoteSources RemoteWire RemotePush.
From S2P Require Import RemotePull.
Import Signature.

(** ** The bytes a reader can still deliver *)

Lemma avail_budget {R} `{ReadLaws R} (r : R) bs rest :
  avail r (bs ++ rest) → (length bs ≤ budget r)%nat.
Proof.
  intros Hr. destruct (read_exact_avail r bs rest Hr) as (r' & Hread & _).
  apply read_exact_budget in Hread as [_ Hb]. lia.
Qed.

(** A step on a reader and a state of its own, which ends with the call. *)
Lemma reads_threaded {R} `{ReadLaws R} {T E E' A} (m : M (T * R) E A) (g : E → E') t bs a t' :
  reads_st m t bs a t' →
  reads (λ r, let '(x, (s, r)) := m (t, r) in (let? x := x in Ok (x, s), r)) bs (a, t').
Proof. intros Hm r rest Hr. destruct (Hm r rest Hr) as (r' & -> & Ha). by exists r'. Qed.

Lemma reads_st_with_err {R} `{ReadLaws R} {T E E' A} (g : E → E') (m : M (T * R) E A) t bs a t' :
  reads_st m t bs a t' → reads_st (with_err g m) t bs a t'.
Proof.
  intros Hm r rest Hr. destruct (Hm r rest Hr) as (r' & Hr' & Ha).
  exists r'. split; [|done]. unfold with_err. by rewrite Hr'.
Qed.

(** ** Trading messages *)

Section trades.
Context {X R W : Type} `{ReadLaws R} `{WriteLaws W}.

(** From [x], [m] takes [heard] from the reader, whatever follows, and succeeds; of its
    result, of what is local then and of what it has said, [Q] holds. *)
Definition trades {E A} (m : M (X * W * R) E A) (x : X) (heard : list Z)
    (Q : A → X → list Z → Prop) : Prop :=
  ∀ w r rest, ready w → avail r (heard ++ rest) →
  ∃ a x' w' r' said, m (x, w, r) = (Ok a, (x', w', r')) ∧ emits w said w' ∧ ready w' ∧
    avail r' rest ∧ Q a x' said.

Section rules.
Context {E A B : Type}.
Implicit Types (m : M (X * W * R) E A) (f : A → M (X * W * R) E B).

Lemma trades_ret (a : A) x (Q : A → X → list Z → Prop) : Q a x [] → trades (E := E) (mret a) x [] Q.
Proof. intros HQ w r rest Hw Hr. exists a, x, w, r, []. eauto using emits_nil. Qed.

Lemma trades_bind m f x heard1 heard2 (Q1 : A → X → list Z → Prop) (Q : B → X → list Z → Prop) :
  trades m x heard1 Q1 →
  (∀ a x1 said1, Q1 a x1 said1 → trades (f a) x1 heard2 (λ b x2 said2, Q b x2 (said1 ++ said2))) →
  trades (m ≫= f) x (heard1 ++ heard2) Q.
Proof.
  intros Hm Hf w r rest Hw. rewrite <-app_assoc. intros Hr.
  destruct (Hm w r _ Hw Hr) as (a & x1 & w1 & r1 & said1 & Hrun1 & He1 & Hw1 & Hr1 & HQ1).
  destruct (Hf _ _ _ HQ1 w1 r1 rest Hw1 Hr1) as (b & x2 & w2 & r2 & said2 & Hrun2 & He2 & Hw2 & Hr2 & HQ).
  exists b, x2, w2, r2, (said1 ++ said2). split_and!; [|by eapply emits_app|done..].
  by rewrite (bind_ok _ _ _ _ _ Hrun1).
Qed.

(** A first step that hears nothing, and one after which nothing is heard. *)
Lemma trades_quiet m f x heard (Q1 : A → X → list Z → Prop) (Q : B → X → list Z → Prop) :
  trades m x [] Q1 →
  (∀ a x1 said1, Q1 a x1 said1 → trades (f a) x1 heard (λ b x2 said2, Q b x2 (said1 ++ said2))) →
  trades (m ≫= f) x heard Q.
Proof. apply (trades_bind m f x [] heard). Qed.

Lemma trades_weaken m x heard (Q Q' : A → X → list Z → Prop) :
  trades m x heard Q → (∀ a x' said, Q a x' said → Q' a x' said) → trades m x heard Q'.
Proof.
  intros Hm HQ w r rest Hw Hr.
  destruct (Hm w r rest Hw Hr) as (a & x' & w' & r' & said & ? & ? & ? & ? & ?).
  exists a, x', w', r', said. eauto 10.
Qed.

Lemma trades_tail m x heard (Q : A → X → list Z → Prop) :
  trades m x heard Q → trades (a ← m; mret a) x heard Q.
Proof.
  intros Hm w r rest Hw Hr.
  destruct (Hm w r rest Hw Hr) as (a & x' & w' & r' & said & Hrun & Hrest).
  exists a, x', w', r', said. split; [|done]. by rewrite (bind_ok _ _ _ _ _ Hrun).
Qed.

Lemma trades_lift (res : result A E) f a x heard (Q : B → X → list Z → Prop) :
  res = Ok a → trades (f a) x heard Q → trades (lift res ≫= f) x heard Q.
Proof. by intros ->. Qed.
End rules.

(** Steps that only hear, only say, or are local, and what follows. *)
Section steps.
Context {A B : Type} (f : A → M (X * W * R) RemoteError B).
Implicit Types Q : B → X → list Z → Prop.

Lemma trades_hear (m : M R TransferError A) x bs heard a Q :
  reads m bs a → trades (f a) x heard Q → trades (hear m ≫= f) x (bs ++ heard) Q.
Proof.
  intros Hm Hf. apply (trades_bind (A := A)) with (Q1 := (λ a' x' said, a' = a ∧ x' = x ∧ said = [])).
  - intros w r rest Hw Hr. destruct (Hm r rest Hr) as (r' & Hrun & Ha).
    exists a, x, w, r', []. split_and!; [|apply emits_nil|done..].
    unfold hear, on_snd, with_err. cbn. by rewrite Hrun.
  - by intros _ _ _ (-> & -> & ->).
Qed.

Lemma trades_say (m : M W TransferError A) x bs heard a Q :
  writes m bs a → trades (f a) x heard (λ b x' said, Q b x' (bs ++ said)) →
  trades (say m ≫= f) x heard Q.
Proof.
  intros Hm Hf. apply (trades_quiet (A := A)) with (Q1 := (λ a' x' said, a' = a ∧ x' = x ∧ said = bs)).
  - intros w r rest Hw Hr. destruct (Hm w Hw) as (w' & Hrun & He & Hw').
    exists a, x, w', r, bs. split_and!; [|done..].
    unfold say, work, on_fst, on_snd, with_err. cbn. by rewrite Hrun.
  - by intros _ _ _ (-> & -> & ->).
Qed.

Lemma trades_locally (m : M X RemoteError A) x x1 heard a Q :
  m x = (Ok a, x1) → trades (f a) x1 heard Q → trades (locally m ≫= f) x heard Q.
Proof.
  intros Hm Hf w r rest Hw Hr. destruct (Hf w r rest Hw Hr) as (b & x' & w' & r' & said & Hrun & H').
  exists b, x', w', r', said. split; [|done]. rewrite <-Hrun. apply bind_ok.
  unfold locally, on_fst. cbn. by rewrite Hm.
Qed.

(** A local step whose result is not known, but what holds of it. *)
Lemma trades_locally_some (m : M X RemoteError A) x heard (P : A → X → Prop) Q :
  (∃ a x1, m x = (Ok a, x1) ∧ P a x1) →
  (∀ a x1, P a x1 → trades (f a) x1 heard Q) → trades (locally m ≫= f) x heard Q.
Proof. intros (a & x1 & Hm & HP) Hf. by apply (trades_locally _ _ x1 _ a), Hf. Qed.
End steps.

(** The delta-coded indexes. *)
Lemma trades_say_index {B} (f : RsyncIndexState → M (X * W * R) RemoteError B) state index x bs
    heard (Q : B → X → list Z → Prop) :
  writes_st (write_rsync_index index) state bs () (index_next state index) →
  trades (f (index_next state index)) x heard (λ b x' said, Q b x' (bs ++ said)) →
  trades (say_index state index ≫= f) x heard Q.
Proof.
  intros Hw HQ. eapply trades_say; [|exact HQ].
  intros w Hready. destruct (Hw w Hready) as (w' & Hrun & He & Hw').
  exists w'. split; [|done]. unfold with_err. by rewrite Hrun.
Qed.

Lemma trades_flush {B} (f : unit → M (X * W * R) RemoteError B) x heard
    (Q : B → X → list Z → Prop) :
  trades (f tt) x heard Q → trades (say_flush ≫= f) x heard Q.
Proof. intros HQ. by eapply trades_say; [apply writes_with_err, writes_flush|]. Qed.

(** The end of a phase is one byte, in any state. *)
Lemma writes_done state :
  writes_st (W := W) (write_rsync_index RSYNC_INDEX_DONE) state [0] () state.
Proof. apply writes_st_on_snd, writes_u8. Qed.

Lemma reads_done state :
  reads_st (R := R) read_rsync_index state [0] RSYNC_INDEX_DONE state.
Proof.
  apply (reads_st_bind _ _ state state _ [0] [] 0); [apply reads_st_on_snd, reads_u8|].
  apply reads_st_ret.
Qed.

Lemma trades_say_done {B} (f : RsyncIndexState → M (X * W * R) RemoteError B) state x heard
    (Q : B → X → list Z → Prop) :
  trades (f state) x heard (λ b x' said, Q b x' (0 :: said)) →
  trades (write_rsync31_index state RSYNC_INDEX_DONE ≫= f) x heard Q.
Proof.
  intros Hf w r rest Hw Hr.
  destruct (trades_say_index (λ state, say_flush;; mret state) state RSYNC_INDEX_DONE x [0] []
    (λ state' x' said, state' = state ∧ x' = x ∧ said = [0]) (writes_done state)) with (w := w) (r := r) (rest := heard ++ rest)
    as (_ & _ & w1 & r1 & _ & Hrun1 & He1 & Hw1 & Hr1 & -> & -> & ->); [|done..|].
  { by apply trades_flush, trades_ret. }
  destruct (Hf w1 r1 rest Hw1 Hr1) as (b & x' & w' & r' & said & Hrun & He & Hw' & Hr' & HQ).
  exists b, x', w', r', (0 :: said). split_and!; [|by apply (emits_app w w1 w' [0])|done..].
  rewrite <-Hrun. by apply bind_ok.
Qed.

Lemma trades_write_done {B} (f : unit → M (X * W * R) RemoteError B) x heard
    (Q : B → X → list Z → Prop) :
  trades (f tt) x heard (λ b x' said, Q b x' (0 :: said)) →
  trades (write_rsync31_done ≫= f) x heard Q.
Proof.
  intros Hf. apply (trades_quiet _ _ _ _ (λ _ x' said, x' = x ∧ said = [0])).
  - by apply trades_say_done, trades_ret.
  - by intros [] _ _ (-> & ->).
Qed.

Lemma trades_expect_done {B} error (f : unit → M (X * W * R) RemoteError B) x heard
    (Q : B → X → list Z → Prop) :
  trades (f tt) x heard Q → trades (expect_done error ≫= f) x (0 :: heard) Q.
Proof.
  intros Hf. apply (trades_bind _ _ _ [0] heard (λ _ x' said, x' = x ∧ said = [])).
  - apply (trades_hear _ _ _ [0] [] RSYNC_INDEX_DONE); [|by apply trades_ret].
    intros r rest Hr. destruct (reads_done RsyncIndexState_default r rest Hr) as (r' & Hrun & Ha).
    exists r'. split; [|done]. unfold with_err. by rewrite Hrun.
  - by intros [] _ _ (-> & ->).
Qed.
End trades.

(** ** Files on their way *)

(** A file of the list: its index, what both ends have there, the bytes of the basis the
    receiver asks with, and those of the file. *)
Record Job := {
  job_index : nat;
  job_entry : RsyncFileListEntry;
  job_source : RemoteSourceEntry;
  job_old : list Z;
  job_new : list Z;
}.

Definition plain_attrs : Rsync31ItemAttrs := {| basis_type := None; xname := None |}.

(** What asks for a whole transfer. *)
Definition transfer_flags : Z := Z.lor RSYNC_ITEM_TRANSFER RSYNC_ITEM_IS_NEW.

Lemma reads_plain_attrs {R} `{ReadLaws R} :
  reads (R := R) (read_rsync31_optional_item_attrs transfer_flags) [] plain_attrs.
Proof. intros r rest Hr. by exists r. Qed.

Lemma writes_plain_attrs {W} `{WriteLaws W} :
  writes (W := W) (write_rsync31_optional_item_attrs transfer_flags plain_attrs) [] ().
Proof. apply (writes_bind _ _ [] [] ()); apply writes_ret. Qed.

(** Their bytes. *)
Lemma writes_flags {W} `{WriteLaws W} : writes (W := W) (write_u16_le transfer_flags) [0; 160] ().
Proof. apply writes_all. Qed.

Lemma reads_flags {R} `{ReadLaws R} : reads (R := R) read_u16_le [0; 160] transfer_flags.
Proof. eapply reads_last; [by apply (reads_exact [0; 160])|apply reads_ret]. Qed.

Section exchange.
Context `{Platform} `{TempNames} `{Clock} `{DigestLaws} `{ZlibLaws} `{SignatureSize}.
Context {F : Type} `{SourceLaws F}.
Context {R : Type} `{ReadLaws R} {W : Type} `{WriteLaws W}.
Context (checksum : RemoteFileChecksum) (block_size : nat) (limit : option Z).
Context (compression : option RemoteCompressionConfig).

Abbreviation strong := {| strong_kind := checksum; strong_len := 16 |}.

(** The receiver's basis and the sender's file fit the limits, and no block of the one is
    taken for a window of the other; nor is an index, or a length, too large. *)
Record job_fits (j : Job) : Prop := {
  fits_index : Z.of_nat (job_index j) < 2 ^ 31 - 1;
  fits_request : request_fits (job_old j) block_size limit;
  fits_collisions : collision_free strong (job_new j) (job_old j);
  fits_new : Z.of_nat (length (job_new j)) < 2 ^ 64;
}.

(** ** Requests *)

Definition request_of (j : Job) : Protocol31Request :=
  {| req_index := Z.of_nat (job_index j); req_iflags := transfer_flags;
     req_attrs := plain_attrs; req_sum_head := Some (basis_head (job_old j) block_size);
     req_signatures := basis_signatures checksum (job_old j) block_size |}.

Lemma job_index_ok st j : index_state_ok st → job_fits j → WireIo.index_ok st (Z.of_nat (job_index j)).
Proof.
  intros [Hp _] Hj. pose proof (fits_index j Hj). unfold WireIo.index_ok, in_i32, i32_max in *. lia.
Qed.

Context (runtime : RemoteTransferRuntime).
Hypothesis same_limit : rt_max_alloc runtime = limit.

(** The bytes of one request, as the sender reads them. *)
Definition asks (st : RsyncIndexState) (j : Job) (heard : list Z) : Prop :=
  ∀ x : Sender F, trades (W := W) (R := R) (read_request31 runtime false checksum st) x heard
    (λ a x' said, a = (Some (request_of j), index_next st (Z.of_nat (job_index j))) ∧
                  x' = x ∧ said = []).

Inductive asked : RsyncIndexState → list Job → list Z → RsyncIndexState → Prop :=
| asked_nil st : asked st [] [] st
| asked_cons st j jobs b q st' :
    asks st j b → b ≠ [] → asked (index_next st (Z.of_nat (job_index j))) jobs q st' →
    asked st (j :: jobs) (b ++ q) st'.

(** They are said by the index, the flags, and the head and signatures. *)
Lemma request_bytes st j :
  index_state_ok st → job_fits j →
  ∃ b1 b3,
    writes_st (W := W) (write_rsync_index (Z.of_nat (job_index j))) st b1 ()
      (index_next st (Z.of_nat (job_index j))) ∧
    writes (W := W) (sends_request (basis_head (job_old j) block_size,
                                    basis_signatures checksum (job_old j) block_size)) b3 () ∧
    asks st j (b1 ++ [0; 160] ++ b3).
Proof.
  intros Hst Hj. pose proof (job_index_ok st j Hst Hj) as Hi.
  destruct (coupled_index (W := W) (R := R) st _ Hst Hi) as (b1 & Hw1 & Hr1).
  destruct (coupled_request (W := W) (R := R) checksum (job_old j) block_size limit limit
    (fits_request j Hj) (fits_request j Hj)) as (b3 & Hw3 & Hr3).
  exists b1, b3. split_and!; [done..|]. intros x. unfold read_request31.
  intros w r rest Hw Hr.
  assert (Hread : reads_st (R := R) (index ← with_err TransferIo read_rsync_index;
      if index =? RSYNC_INDEX_DONE then mret None
      else request ← on_snd (read_request_body runtime false checksum index); mret (Some request))
    st (b1 ++ [0; 160] ++ b3) (Some (request_of j)) (index_next st (Z.of_nat (job_index j)))).
  { eapply reads_st_bind; [by apply reads_st_with_err|].
    rewrite (proj2 (Z.eqb_neq _ RSYNC_INDEX_DONE)) by (unfold RSYNC_INDEX_DONE; lia).
    rewrite <-(app_nil_r ([0; 160] ++ b3)). eapply reads_st_bind; [|apply reads_st_ret].
    apply reads_st_on_snd. unfold read_request_body.
    eapply reads_bind; [apply reads_with_err, reads_flags|].
    eapply reads_bind_nil; [apply reads_plain_attrs|].
    change (wants_transfer transfer_flags) with true. cbv iota. rewrite same_limit.
    intros r0 rest0 Hr0. destruct (Hr3 r0 rest0 Hr0) as (r1 & Hrun & Ha). exists r1. split; [|done].
    unfold takes_request in Hrun. apply bind_ok_inv in Hrun as (head & r2 & Hhead & Hrun).
    rewrite (bind_ok _ _ _ _ _ Hhead). apply bind_ok_inv in Hrun as (sigs & r3 & Hsigs & Hrun).
    rewrite (bind_ok _ _ _ _ _ Hsigs). by injection Hrun as -> -> ->. }
  destruct (reads_threaded _ id _ _ _ _ Hread r rest Hr) as (r' & Hrun & Ha).
  eexists _, x, w, r', []. split_and!; [|apply emits_nil|done|exact Ha|reflexivity|done|done].
  unfold hear, on_snd at 1, with_err at 1. cbn [fst snd]. by rewrite Hrun.
Qed.

(** *** The receiver's side *)

Context {FS : Type} `{PortableFileSystem FS} `{LocalFiles FS F} (plan : PullPlan).
Hypothesis wet : p_dry_run plan = false.
Hypothesis plan_in_time : in_time (p_stop_deadline plan).

Definition target_of (j : Job) : PathBuf := path_join (p_dest plan) (wire_path (job_entry j)).

(** What the receiver has at the target is what it asks with. *)
Definition basis_is (fs : FS) (j : Job) : Prop :=
  basis_request plan (target_of j) block_size checksum fs =
    Ok (basis_head (job_old j) block_size, basis_signatures checksum (job_old j) block_size).

(** The files that are selected, in the order of their indexes. *)
Definition wanted (selected : gset nat) (entries : list (nat * RsyncFileListEntry)) :
    list (nat * RsyncFileListEntry) :=
  List.filter (λ ie, bool_decide (file_type ie.2 = File) && bool_decide (ie.1 ∈ selected)) entries.

Lemma tick_passes (s : Pulling FS) :
  ∃ n, tick plan s = (Ok (), Build_Pulling (pull_fs s) (pull_actions s) n (pull_temps s)).
Proof.
  destruct (deadline_passes _ (pull_readings s) plan_in_time) as [n Hn].
  exists n. unfold tick. by rewrite Hn.
Qed.

(** One request. *)
Lemma request_said {B} (f : RsyncIndexState → M (Pulling FS * W * R) RemoteError B) st j s heard
    (Q : B → Pulling FS → list Z → Prop) :
  index_state_ok st → job_fits j → basis_is (pull_fs s) j →
  (∀ b, asks st j b → b ≠ [] →
     trades (f (index_next st (Z.of_nat (job_index j)))) s heard (λ a s' said, Q a s' (b ++ said))) →
  trades (state ← say_index st (Z.of_nat (job_index j));
         say (with_err TransferIo (write_u16_le transfer_flags));;
         say_basis plan (job_entry j) block_size checksum;;
         f state) s heard Q.
Proof.
  intros Hst Hj Hbasis Hf. destruct (request_bytes st j Hst Hj) as (b1 & b3 & Hw1 & Hw3 & Hask).
  eapply trades_say_index; [exact Hw1|]. eapply trades_say; [apply writes_with_err, writes_flags|].
  assert (Hne : b1 ++ [0; 160] ++ b3 ≠ []) by (by destruct b1). specialize (Hf _ Hask Hne).
  intros w r rest Hw Hr. destruct (Hw3 w Hw) as (w1 & Hrun & He & Hw1').
  destruct (Hf w1 r rest Hw1' Hr) as (a & s' & w' & r' & said & Hrun' & He' & Hw' & Hr' & HQ).
  exists a, s', w', r', (b3 ++ said). split_and!; [|by eapply emits_app|done|done|].
  - erewrite (bind_ok _ _ _ ()); [exact Hrun'|]. unfold basis_is, target_of in Hbasis. unfold say_basis. rewrite wet.
    rewrite (bind_ok _ _ _ s (s, w, r)) by done. rewrite Hbasis.
    unfold sends_request in Hrun. apply bind_ok_inv in Hrun as ([] & w2 & Hhead & Hsigs).
    rewrite (bind_ok _ _ _ _ _ (eq_refl : lift (Ok _) (s, w, r) = (Ok _, (s, w, r)))).
    cbn [fst snd] in *.
    rewrite (bind_ok _ _ _ () (s, w2, r))
      by (unfold say, work, on_fst, on_snd, with_err; cbn [fst snd]; by rewrite Hhead).
    unfold say, work, on_fst, on_snd, with_err. cbn [fst snd]. by rewrite Hsigs.
  - by rewrite <-!app_assoc in HQ.
Qed.

Lemma wire_index_ok j : job_fits j → remote_wire_index (job_index j) 0 = Ok (Z.of_nat (job_index j)).
Proof.
  intros Hj. pose proof (fits_index j Hj). unfold remote_wire_index.
  rewrite checked_i32_some by (unfold in_i32; lia). cbn.
  by rewrite Z.add_0_r, checked_i32_some by (unfold in_i32; lia).
Qed.

Lemma requests_said selected l : ∀ jobs st requested requests s,
  wanted selected l = (λ j, (job_index j, job_entry j)) <$> jobs →
  NoDup l.*1 → (∀ i, i ∈ l.*1 → i ∉ requested) →
  index_state_ok st → Forall job_fits jobs → Forall (basis_is (pull_fs s)) jobs →
  trades (request_files31 plan selected 0 block_size checksum l st requested requests) s []
    (λ res s' said, pull_fs s' = pull_fs s ∧ asked st jobs said res.1.1).
Proof.
  induction l as [|[index e] l IH]; intros jobs st requested requests s Hwanted Hdup Hnew Hst Hfits Hbasis;
    cbn [request_files31].
  - apply trades_ret. destruct jobs; [|done]. split; [done|constructor].
  - destruct (tick_passes s) as [n Htick]. eapply trades_locally; [exact Htick|].
    rewrite fmap_cons in Hdup, Hnew. apply NoDup_cons in Hdup as [Hfirst Hdup]. cbn [fst] in *.
    set (s1 := Build_Pulling _ _ _ _).
    assert (Hfs : pull_fs s = pull_fs s1) by done. clearbody s1. rewrite Hfs in Hbasis |- *. clear Hfs.
    assert (Hnew' : ∀ i, i ∈ l.*1 → i ∉ requested) by (intros i Hi; apply Hnew; by right).
    destruct (bool_decide (file_type e = File) && bool_decide (index ∈ selected)) eqn:Hin;
      cbn [wanted List.filter fst snd] in Hwanted; rewrite Hin in Hwanted.
    + destruct jobs as [|j jobs]; [done|]. injection Hwanted as Hindex Hentry Hwanted. subst index e.
      apply Forall_cons in Hfits as [Hj Hfits]. apply Forall_cons in Hbasis as [Hb Hbasis].
      apply andb_true_iff in Hin as [Hfile%bool_decide_eq_true Hsel%bool_decide_eq_true].
      rewrite bool_decide_eq_false_2 by (by intros Hne).
      rewrite bool_decide_eq_true_2 by done.
      rewrite (bool_decide_eq_false_2 (job_index j ∈ requested)) by (apply Hnew; left).
      cbn [negb orb]. eapply trades_lift; [by apply wire_index_ok|]. rewrite wet.
      apply (request_said (λ state, request_files31 plan selected 0 block_size checksum l state
        ({[job_index j]} ∪ requested) (S requests))); [done..|]. intros b Hask Hne.
      eapply trades_weaken.
      * apply (IH jobs); [done|done| |by apply index_next_ok, job_index_ok|done|done].
        intros i Hi. apply not_elem_of_union. split; [|by apply Hnew'].
        rewrite elem_of_singleton. by intros ->.
      * intros res s' said [Hfs Hasked]. split; [done|by constructor].
    + assert (Hskip : bool_decide (file_type e ≠ File) || negb (bool_decide (index ∈ selected)) = true).
      { apply andb_false_iff in Hin as [Hne%bool_decide_eq_false|Hne%bool_decide_eq_false].
        - by rewrite bool_decide_eq_true_2.
        - by rewrite (bool_decide_eq_false_2 _ Hne), orb_true_r. }
      rewrite Hskip. cbn [orb]. by apply (IH jobs).
Qed.

Lemma enumerate_nodup {A} (xs : list A) : NoDup (enumerate xs).*1.
Proof.
  unfold enumerate. rewrite fst_zip by (rewrite length_seq; lia). apply NoDup_seq.
Qed.

(** All requests, and the end of the phase. *)
Lemma phase_requested entries selected jobs s :
  wanted selected (enumerate entries) = (λ j, (job_index j, job_entry j)) <$> jobs →
  Forall job_fits jobs → Forall (basis_is (pull_fs s)) jobs →
  trades (request_remote_sender_files_protocol31 plan entries selected 0 block_size checksum) s []
    (λ _ s' said, pull_fs s' = pull_fs s ∧
       ∃ q st, said = q ++ [0] ∧ asked RsyncIndexState_default jobs q st).
Proof.
  intros Hwanted Hfits Hbasis. unfold request_remote_sender_files_protocol31.
  eapply (trades_quiet _ _ _ _ (λ res s' said, pull_fs s' = pull_fs s ∧
    asked RsyncIndexState_default jobs said res.1.1)).
  - unfold request_remote_sender_file_indexes_protocol31.
    eapply trades_quiet.
    + apply (requests_said selected _ jobs _ ∅); [done|apply enumerate_nodup|set_solver| |done|done].
      unfold index_state_ok, i32_max. cbn. lia.
    + intros res s' said Hres. cbn beta in Hres. apply trades_flush, trades_ret. by rewrite app_nil_r.
  - intros [[st requested] requests] s' q [Hfs Hasked]. cbn [fst] in Hasked.
    apply trades_say_done, trades_ret. split; [done|]. by exists q, st.
Qed.

(** *** The sender's side *)

Context (open_source : PathBuf → result F TransferError) (sources : list RemoteSourceEntry).
Context (reopen : list Z → result F TransferError).
Hypothesis reopening : reopens reopen.
Hypothesis same_compression : rt_compression runtime = compression.
Hypothesis no_zlib : readable_mode compression.
Hypothesis runtime_in_time : in_time (rt_stop_deadline runtime).
Hypothesis room : ensure_allocation_within_limit "delta literal buffer" buffer_size limit = Ok ().

(** What the sender has at the index, that its file holds what is to be sent, and that
    no flush of its compression shows its end early. *)
Record job_served (j : Job) : Prop := {
  served_source : sources !! job_index j = Some (job_source j);
  served_type : file_type (wire (job_source j)) = File;
  served_file : ∃ f, open_source (local_path (job_source j)) = Ok f ∧ holds f (job_new j);
  served_quiet : quiet_for (relative_text (local_path (job_source j))) compression (job_new j);
}.

(** The checksum at the end of a file. *)
Abbreviation final := (protocol31_for_algorithm (algorithm_of checksum)).

(** The bytes of one answer, as the receiver reads them. *)
Definition answers (st : RsyncIndexState) (j : Job) (said : list Z) : Prop :=
  ∃ b1 b2 tokens, said = b1 ++ b2 ++ tokens ∧ b2 ≠ [] ∧
    reads_st (R := R) read_rsync_index st b1 (Z.of_nat (job_index j))
      (index_next st (Z.of_nat (job_index j))) ∧
    reads (R := R) (read_file_response (Z.of_nat (job_index j))) b2
      (ResponseFile (Z.of_nat (job_index j)) transfer_flags
         (Some (basis_head (job_old j) block_size))) ∧
    takes_file (R := R) (p_stop_deadline plan) reopen final
      (relative_text (wire_path (job_entry j))) compression limit
      (Ok (job_old j), basis_head (job_old j) block_size) (job_new j) tokens.

Inductive answered : RsyncIndexState → list Job → list Z → RsyncIndexState → Prop :=
| answered_nil st : answered st [] [] st
| answered_cons st j jobs b q st' :
    answers st j b → answered (index_next st (Z.of_nat (job_index j))) jobs q st' →
    answered st (j :: jobs) (b ++ q) st'.

(** The tokens of the file. *)
Lemma tokens_sent j x :
  job_fits j → job_served j →
  ∃ tokens,
    takes_file (R := R) (p_stop_deadline plan) reopen final
      (relative_text (wire_path (job_entry j))) compression limit
      (Ok (job_old j), basis_head (job_old j) block_size) (job_new j) tokens ∧
    trades (W := W) (R := R) (send_file31 open_source runtime false checksum (job_source j) 0
        (basis_signatures checksum (job_old j) block_size)) x []
      (λ _ _ said, said = tokens).
Proof.
  intros Hj [_ _ (f & Hopen & Hf) Hquiet].
  destruct (file_transfer (W := W) (R := R) (rt_stop_deadline runtime) runtime_in_time
    (p_stop_deadline plan) plan_in_time checksum final (relative_text (local_path (job_source j)))
    (relative_text (wire_path (job_entry j))) compression limit (job_old j) (job_new j) block_size
    f x reopen) as (tokens & stats & _ & Hsends & Htakes);
    [by apply fits_request|by apply fits_collisions|done|by apply fits_new|done|done|done|done|].
  exists tokens. split; [exact Htakes|]. intros w r rest Hw Hr.
  destruct (Hsends w Hw) as (x' & w' & Hrun & He & Hw').
  exists (literal_bytes stats), x', w', r, tokens. split_and!; [|done..].
  unfold send_file31. erewrite (bind_ok _ _ _ stats (x', w', r)); [done|].
  unfold send_delta, work, on_fst, with_err, limits_of. cbn [fst snd].
  rewrite same_compression, same_limit, Hopen, Hrun. done.
Qed.

Lemma request_served wst stats j x :
  index_state_ok wst → job_fits j → job_served j →
  trades (W := W) (R := R)
    (serve_request31 open_source sources runtime false false checksum wst (request_of j) stats) x []
    (λ a _ said, answers wst j said ∧ a.1 = index_next wst (Z.of_nat (job_index j)) ∧
       transferred_entry_indexes a.2 = transferred_entry_indexes stats ++ [job_index j]).
Proof.
  intros Hst Hj Hserved. destruct (tokens_sent j x Hj Hserved) as (tokens & Htakes & Hsent).
  destruct (coupled_index (W := W) (R := R) wst _ Hst (job_index_ok wst j Hst Hj)) as (b1 & Hw1 & Hr1).
  destruct (coupled_head (W := W) (R := R) (basis_head (job_old j) block_size)) as (b3 & Hw3 & Hr3);
    [eapply basis_head_ok, fits_request, Hj|].
  destruct Hserved as [Hsource Htype _ _]. pose proof (fits_index j Hj) as Hindex.
  assert (Hlt : (job_index j < length sources)%nat) by (by eapply lookup_lt_Some).
  unfold serve_request31. cbn [req_index req_iflags req_sum_head req_signatures request_of].
  eapply (trades_lift _ _ (job_index j)).
  { unfold checked_file_index. rewrite (proj2 (Z.ltb_ge _ _)), (proj2 (Z.leb_gt _ _)) by lia.
    cbn [orb]. by rewrite Nat2Z.id. }
  eapply (trades_lift _ _ (job_source j)); [unfold entry_at; by rewrite Hsource|].
  change (wants_transfer transfer_flags) with true. cbn [negb].
  eapply (trades_lift _ _ (job_source j)).
  { unfold requested_file, entry_at. rewrite Hsource. cbn. by rewrite Htype. }
  eapply trades_lift; [reflexivity|]. eapply trades_lift; [reflexivity|].
  apply (trades_quiet _ _ _ _ (λ st x' said, st = index_next wst (Z.of_nat (job_index j)) ∧
                                  x' = x ∧ said = b1 ++ [0; 160])).
  { unfold say_item. cbn [req_index req_iflags req_attrs request_of].
    eapply trades_say_index; [exact Hw1|]. eapply trades_say; [apply writes_with_err, writes_flags|].
    eapply trades_say; [apply writes_plain_attrs|]. apply trades_ret.
    cbn [app]. done. }
  intros _ _ _ (-> & -> & ->). eapply trades_say; [exact Hw3|].
  eapply trades_quiet; [exact Hsent|]. cbn beta. intros literal x' _ ->.
  apply trades_flush, trades_ret. split; [|done].
  exists b1, ([0; 160] ++ b3), tokens. split_and!; [by rewrite <-!app_assoc, ?app_nil_r|done|done| |done].
  unfold read_file_response. eapply reads_bind; [apply reads_with_err, reads_flags|].
  eapply reads_bind_nil; [apply reads_plain_attrs|]. eapply reads_last; [|apply reads_ret].
  change (bool_decide (Z.land transfer_flags RSYNC_ITEM_TRANSFER ≠ 0)) with true. cbv iota.
  eapply reads_last; [exact Hr3|apply reads_ret].
Qed.

(** The deadline is looked at before each turn. *)
Lemma trades_in_time {B} (f : unit → M (Sender F * W * R) RemoteError B) x heard
    (Q : B → Sender F → list Z → Prop) :
  (∀ x', trades (f tt) x' heard Q) →
  trades (work (check_deadline (rt_stop_deadline runtime)) ≫= f) x heard Q.
Proof.
  intros Hf w r rest Hw Hr. destruct (deadline_passes _ (readings x) runtime_in_time) as [n Hn].
  destruct (Hf (set_readings n x) w r rest Hw Hr) as (b & x' & w' & r' & said & Hrun & Hrest).
  exists b, x', w', r', said. split; [|done]. rewrite <-Hrun. apply bind_ok.
  unfold work, check_deadline, on_fst, with_err. cbn [fst snd]. by rewrite Hn.
Qed.

Lemma request_done st (x : Sender F) :
  trades (W := W) (R := R) (read_request31 runtime false checksum st) x [0]
    (λ a x' said, a = (None, st) ∧ x' = x ∧ said = []).
Proof.
  intros w r rest Hw Hr.
  assert (Hread : reads_st (R := R) (index ← with_err TransferIo read_rsync_index;
      if index =? RSYNC_INDEX_DONE then mret None
      else request ← on_snd (read_request_body runtime false checksum index); mret (Some request))
    st [0] None st).
  { apply (reads_st_bind _ _ st st _ [0] [] RSYNC_INDEX_DONE); [apply reads_st_with_err, reads_done|].
    apply reads_st_ret. }
  destruct (reads_threaded _ id _ _ _ _ Hread r rest Hr) as (r' & Hrun & Ha).
  eexists _, x, w, r', []. split_and!; [|apply emits_nil|done|exact Ha|reflexivity|done|done].
  unfold read_request31, hear, on_snd at 1, with_err at 1. cbn [fst snd]. by rewrite Hrun.
Qed.

(** The ends of three phases, of which the sender acknowledges two. *)
Lemma phases_served fuel rst wst stats x :
  trades (W := W) (R := R)
    (serve_loop31 open_source sources runtime (3 + fuel) false false checksum rst wst 0 stats) x
    [0; 0; 0] (λ a _ said, said = [0; 0] ∧ a = (wst, stats)).
Proof.
  cbn [Nat.add].
  do 2 (cbn [serve_loop31]; apply trades_in_time; intros;
    eapply (trades_bind _ _ _ [0]); [apply request_done|]; intros _ ? _ (-> & -> & ->);
    cbn [Nat.ltb Nat.leb]; apply trades_say_done).
  cbn [serve_loop31]. apply trades_in_time. intros.
  eapply (trades_bind _ _ _ [0] []); [apply request_done|]. intros _ ? _ (-> & -> & ->).
  by apply trades_ret.
Qed.

Lemma requests_served rst jobs q rst' :
  asked rst jobs q rst' → ∀ fuel wst stats x,
  index_state_ok wst → Forall job_fits jobs → Forall job_served jobs → (3 ≤ fuel)%nat →
  trades (W := W) (R := R)
    (serve_loop31 open_source sources runtime (length jobs + fuel) false false checksum rst wst 0 stats)
    x (q ++ [0; 0; 0])
    (λ a _ said, ∃ o, said = o ++ [0; 0] ∧ answered wst jobs o a.1 ∧
       transferred_entry_indexes a.2 = transferred_entry_indexes stats ++ (job_index <$> jobs)).
Proof.
  induction 1 as [rst|rst j jobs b q rst' Hask _ Hasked IH]; intros fuel wst stats x Hwst Hfits Hserved Hfuel.
  - replace fuel with (3 + (fuel - 3))%nat by lia. eapply trades_weaken; [apply phases_served|].
    intros _ _ _ [-> ->]. exists []. split; [done|]. split; [constructor|]. by rewrite app_nil_r.
  - apply Forall_cons in Hfits as [Hj Hfits]. apply Forall_cons in Hserved as [Hs Hserved].
    cbn [length Nat.add serve_loop31]. apply trades_in_time. intros x1. rewrite <-app_assoc.
    eapply trades_bind; [apply Hask|]. intros _ ? _ (-> & -> & ->).
    eapply trades_quiet; [by apply (request_served wst stats)|].
    intros [wst1 stats1] x2 said (Hanswer & Hwst1 & Hstats). cbn [fst snd] in *. subst wst1.
    eapply trades_weaken; [apply IH; [by apply index_next_ok, job_index_ok|done..]|].
    intros [wst2 stats2] x3 said2 (o & -> & Hanswered & Hstats2). cbn [fst snd] in *.
    exists (said ++ o). split; [by rewrite <-app_assoc|]. split; [by constructor|].
    by rewrite Hstats2, Hstats, fmap_cons, <-app_assoc.
Qed.

Lemma asked_length st jobs q st' : asked st jobs q st' → (length jobs ≤ length q)%nat.
Proof.
  induction 1 as [|st j jobs b q st' _ Hb _ IH]; [done|]. rewrite length_app.
  destruct b; [done|]. cbn. lia.
Qed.

Lemma answered_length st jobs o st' : answered st jobs o st' → (length jobs ≤ length o)%nat.
Proof.
  induction 1 as [|st j jobs b o st' (b1 & b2 & tokens & -> & Hb & _) _ IH]; [done|].
  rewrite !length_app. destruct b2; [done|]. cbn. lia.
Qed.

(** All requests, the ends of the phases and the farewell. *)
Lemma phase_served jobs q rst x :
  asked RsyncIndexState_default jobs q rst → Forall job_fits jobs → Forall job_served jobs →
  trades (W := W) (R := R)
    (serve_remote_receiver_requests_protocol31 open_source sources runtime false false checksum) x
    (q ++ [0; 0; 0; 0; 0])
    (λ stats _ said, ∃ o st, said = o ++ [0; 0; 0; 0] ∧ answered RsyncIndexState_default jobs o st ∧
       transferred_entry_indexes stats = job_index <$> jobs).
Proof.
  intros Hasked Hfits Hserved w r rest Hw Hr.
  assert (Hfuel : ∃ fuel, S (budget r) = (length jobs + fuel)%nat ∧ (3 ≤ fuel)%nat).
  { apply asked_length in Hasked. pose proof (avail_budget _ _ _ Hr) as Hb.
    rewrite length_app in Hb. cbn in Hb. exists (S (budget r) - length jobs)%nat. lia. }
  destruct Hfuel as (fuel & Hfuel & Hle). unfold serve_remote_receiver_requests_protocol31.
  cbn [snd]. rewrite Hfuel. revert w r rest Hw Hr Hfuel.
  change (q ++ [0; 0; 0; 0; 0]) with (q ++ ([0; 0; 0] ++ [0; 0])). rewrite (app_assoc q).
  intros w r rest Hw Hr _. revert w r rest Hw Hr. eapply trades_bind.
  - apply (requests_served _ _ _ _ Hasked fuel); [|done..]. unfold index_state_ok, i32_max. cbn. lia.
  - intros [wst stats] x1 _ (o & -> & Hanswered & Hstats). cbn [fst snd] in *.
    apply trades_say_done, trades_expect_done, trades_write_done, trades_expect_done, trades_ret.
    exists o, wst. split; [by rewrite <-app_assoc|]. by split.
Qed.
End exchange.
