(* ===== verification/ExchangeMemory.v ===== *)
(** * An exchange of files with a receiver in memory

    What becomes of a file whose tokens arrive, of all files of a phase, and the
    composition of both ends: the receiver asks, the sender serves, and the receiver has
    the sender's files. *)

From S2P Require Import Prelude Stream WireIo Str Session Handshake FsPath Metadata FileSystem.
From S2P Require Import MemoryFs MemoryFsFacts SyncPlan WinPath Delta DeltaFacts Daemon.
From S2P Require Import DeflatedTokens DeflatedFacts TransferSums Transfer TransferFacts.
From S2P Require Import TransferSend TransferReceive TransferTheorems Flist RemoteFiles.
From S2P Require Import RemoteOrder RemoteSources RemoteWire RemotePush RemotePull.
From S2P Require Import RemoteConfined RemoteMemory Exchange.
Import Signature.

(** ** Local steps of a pull *)

Section local.
Context {FS : Type}.
Implicit Types s : Pulling FS.

Definition with_fs (fs : FS) s : Pulling FS :=
  Build_Pulling fs (pull_actions s) (pull_readings s) (pull_temps s).

Lemma receiving_on_fs {A} (m : M FS FsError A) s a fs :
  m (pull_fs s) = (Ok a, fs) → receiving (on_fs m) s = (Ok a, with_fs fs s).
Proof.
  intros Hm. unfold receiving, on_fs, on_fst, with_err. cbn [fst snd]. by rewrite Hm.
Qed.

Lemma os_runs {A} (m : M FS TransferError A) s a fs :
  m (pull_fs s) = (Ok a, fs) → os m s = (Ok a, with_fs fs s).
Proof.
  intros Hm. unfold os, receiving, on_fst, with_err. cbn [fst snd]. by rewrite Hm.
Qed.

Lemma note_runs action s :
  note action s = (Ok (), Build_Pulling (pull_fs s) (pull_actions s ++ [action])
                            (pull_readings s) (pull_temps s)).
Proof. done. Qed.

Lemma sync_len_runs n s :
  Z.of_nat n < 2 ^ 64 → sync_len (Z.of_nat n) s = (Ok (Z.of_nat n), s).
Proof.
  intros Hn. unfold sync_len, sync_action_len, checked_usize.
  rewrite (proj2 (Z.leb_le 0 _)), (proj2 (Z.ltb_lt _ _)) by lia. cbn [andb map_err].
  by rewrite Nat2Z.id.
Qed.
End local.

(** A basis without blocks is not opened. *)
Lemma tokens_basis {F} `{Source F} {R} `{Read R} `{Clock} `{Digests} `{Zlib} reopen final path n
    opened old head compression limit deadline (p : Receiver * R) :
  block_count head = 0%nat ∨ opened = Ok old →
  read_file_tokens_to_path_with_basis (F := F) reopen final path n (Some (opened, head)) compression
    limit deadline p =
  read_file_tokens_to_path_with_basis reopen final path n (Some (Ok old, head)) compression
    limit deadline p.
Proof.
  intros Hb. assert (Hopen : open_basis (Some (opened, head)) limit = open_basis (Some (Ok old, head)) limit).
  { unfold open_basis. destruct Hb as [-> | ->]; done. }
  unfold read_file_tokens_to_path_with_basis. by rewrite Hopen.
Qed.

(** ** One file, in memory *)

Section memory.
Context `{Platform} `{TempNames} `{Clock} `{DigestLaws} `{ZlibLaws} `{SignatureSize}.
Context {R : Type} `{ReadLaws R} {W : Type} `{WriteLaws W}.
Context (plan : PullPlan).
Hypothesis wet : p_dry_run plan = false.
Hypothesis whole : p_append_verify plan = false.
Implicit Types (m : gmap PathBuf MemoryNode) (fs : MemoryFileSystem) (s : Pulling MemoryFileSystem).

(** What a file becomes: its bytes, and its time when times are kept. *)
Definition arrived_node (e : RsyncFileListEntry) (new : list Z) : MemoryNode :=
  if p_preserve_times plan
  then {| node_metadata := with_modified (node_metadata (file_node new)) (Z.max (mtime_unix e) 0 * 1000000000);
          node_bytes := new |}
  else file_node new.

(** The copy of the temporary file to its target. *)
Lemma whole_file_written e dir name temp new s :
  let target := dir ++ [Normal name] in
  portable target → portable temp → plain (nodes (pull_fs s)) →
  nodes (pull_fs s) !! temp = Some (file_node new) → Z.of_nat (length new) < 2 ^ 64 →
  ∃ s', write_received_file_from_path plan e target temp (Z.of_nat (length new)) s = (Ok (), s') ∧
    nodes (pull_fs s') = <[target := arrived_node e new]> (with_dirs dir (nodes (pull_fs s))) ∧
    pull_temps s' = pull_temps s.
Proof.
  intros target Htarget Htemp Hplain Hbytes Hlen.
  set (s1 := Build_Pulling (pull_fs s)
    (pull_actions s ++ [remote_write_action plan target (Z.of_nat (length new))]) (pull_readings s) (pull_temps s)).
  set (m1 := <[target := file_node new]> (with_parents target (nodes (pull_fs s)))).
  assert (Hcopy : copy_file_with_options temp target (final_write_options plan) (pull_fs s1) =
    (Ok (Z.of_nat (length new)), set_nodes m1 (pull_fs s1))).
  { cbn [copy_file_with_options MemoryFileSystem_portable]. unfold default_copy_file_with_options.
    rewrite (ask_bind _ _ _ new) by (by rewrite (read_plain _ _ (file_node new))).
    unfold memory_write_file_with_options, default_write_file_with_options.
    assert (Hwrite := write_plain (pull_fs s1) target new Hplain Htarget).
    by destruct (write_mode _); rewrite (bind_ok _ _ _ _ _ Hwrite). }
  assert (Hparents : with_parents target (nodes (pull_fs s)) = with_dirs dir (nodes (pull_fs s))).
  { unfold with_parents, parent, target. rewrite last_snoc, length_app. cbn [length].
    by rewrite Nat.add_sub, take_app_length. }
  unfold write_received_file_from_path. rewrite (bind_ok _ _ _ s s) by done. rewrite whole.
  rewrite bind_ret. unfold write_whole_file.
  rewrite (bind_ok _ _ _ _ _ (sync_len_runs _ _ Hlen)), (bind_ok _ _ _ _ _ (note_runs _ _)).
  fold s1. rewrite (bind_ok _ _ _ _ _ (receiving_on_fs _ _ _ _ Hcopy)).
  unfold preserve_remote_mtime, arrived_node. destruct (p_preserve_times plan); cbn [negb].
  - assert (Hnode : m1 !! target = Some (file_node new)) by apply lookup_insert_eq.
    set (time := Z.max (mtime_unix e) 0 * 1000000000).
    pose proof (set_mtime_at (set_nodes m1 (pull_fs s1)) target (file_node new) time Htarget Hnode) as Htime.
    change (memory_set_mtime target time) with (set_mtime target time) in Htime.
    rewrite (bind_ok _ _ _ _ _ (receiving_on_fs _ (with_fs (set_nodes m1 (pull_fs s1)) s1) _ _ Htime)), note_runs.
    eexists. split; [done|]. split; [|done]. cbn. unfold m1. by rewrite insert_insert_eq, Hparents.
  - eexists. split; [done|]. split; [|done]. cbn. unfold m1. by rewrite Hparents.
Qed.

Lemma parents_of dir name m : with_parents (dir ++ [Normal name]) m = with_dirs dir m.
Proof.
  unfold with_parents, parent. rewrite last_snoc, length_app. cbn [length].
  by rewrite Nat.add_sub, take_app_length.
Qed.

Lemma file_created dir temp bytes s :
  plain (nodes (pull_fs s)) → portable (dir ++ [Normal temp]) →
  ∀ message : string,
  with_err (λ _ : FsError, TransferFailed message)
    (memory_write_file_atomic (dir ++ [Normal temp]) bytes) (pull_fs s) =
    (Ok (), set_nodes (<[dir ++ [Normal temp] := file_node bytes]> (with_dirs dir (nodes (pull_fs s))))
              (pull_fs s)).
Proof.
  intros Hplain Hp message. unfold with_err. by rewrite write_plain, parents_of.
Qed.

Lemma temp_removed dir temp s node :
  portable (dir ++ [Normal temp]) → nodes (pull_fs s) !! (dir ++ [Normal temp]) = Some node →
  node_type node = Metadata.File →
  remove_temp (FS := MemoryFileSystem) (dir ++ [Normal temp]) s =
    (Ok (), with_fs (set_nodes (delete (dir ++ [Normal temp]) (nodes (pull_fs s))) (pull_fs s)) s).
Proof.
  intros Hp Hn Ht. unfold remove_temp, with_fs. f_equal. f_equal.
  cbn [remove_local_file_best_effort memory_files]. unfold memory_remove_file.
  rewrite (ask_bind _ _ _ (dir ++ [Normal temp])) by (by apply normalize_portable).
  rewrite (ask_bind _ _ _ node) by (by rewrite Hn). by rewrite Ht.
Qed.

(** The file system once a file has arrived. *)
Definition arrives (e : RsyncFileListEntry) (new : list Z) (target temp : PathBuf) m m' : Prop :=
  plain m' ∧ ∀ q, m' !! q =
    if decide (q = temp) then None
    else if decide (q = target) then Some (arrived_node e new) else with_parents target m !! q.

Lemma arrived_type e new : node_type (arrived_node e new) = Metadata.File.
Proof. unfold arrived_node. by destruct (p_preserve_times plan). Qed.

Lemma arrival e new dir name temp m :
  let target := dir ++ [Normal name] in
  let temp_path := dir ++ [Normal temp] in
  plain m → portable dir → target ≠ temp_path →
  let m1 := <[temp_path := file_node []]> (with_dirs dir m) in
  let m2 := <[temp_path := file_node new]> (with_dirs dir m1) in
  arrives e new target temp_path m
    (delete temp_path (<[target := arrived_node e new]> (with_dirs dir m2))).
Proof.
  intros target temp_path Hplain Hdir Hne m1 m2.
  assert (Hp1 : plain m1) by (apply plain_insert; [by apply plain_with_dirs|done]).
  assert (Hp2 : plain m2) by (apply plain_insert; [by apply plain_with_dirs|done]).
  split.
  - intros q node [_ Hq]%lookup_delete_Some. revert q node Hq.
    apply plain_insert; [by apply plain_with_dirs|]. by rewrite arrived_type.
  - intros q. rewrite (parents_of dir name m : with_parents target m = _).
    destruct (decide (q = temp_path)) as [->|Htemp]; [apply lookup_delete_eq|].
    rewrite lookup_delete_ne by done.
    destruct (decide (q = target)) as [->|Htarget]; [apply lookup_insert_eq|].
    rewrite lookup_insert_ne by done. unfold m2, m1.
    rewrite with_dirs_lookup, lookup_insert_ne, with_dirs_lookup, lookup_insert_ne, with_dirs_lookup
      by done.
    destruct (m !! q); [done|]. by case_decide.
Qed.

(** Whatever comes of [m] succeeds, the temporary file goes. *)
Lemma trades_and_remove {A} temp_path (m : M (Pulling MemoryFileSystem * W * R) RemoteError A) s heard
    (Q : A → Pulling MemoryFileSystem → list Z → Prop) :
  trades m s heard (λ a s1 said, ∃ s2, remove_temp temp_path s1 = (Ok (), s2) ∧ Q a s2 said) →
  trades (and_remove_temp temp_path m) s heard Q.
Proof.
  intros Hm w r rest Hw Hr.
  destruct (Hm w r rest Hw Hr) as (a & s1 & w' & r' & said & Hrun & He & Hw' & Hr' & s2 & Hremove & HQ).
  exists a, s2, w', r', said. split_and!; [|done..]. unfold and_remove_temp. rewrite Hrun.
  unfold locally, on_fst. cbn [fst snd]. by rewrite Hremove.
Qed.

Context (checksum : RemoteFileChecksum) (block_size : nat).
Context (compression : option RemoteCompressionConfig) (reopen : list Z → result Pieces TransferError).
Abbreviation final := (protocol31_for_algorithm (algorithm_of checksum)).

(** What the receiver has of the basis when the answer arrives. *)
Definition basis_kept fs (j : Job) : Prop :=
  job_old j = [] ∨
  ∃ node, nodes fs !! target_of plan j = Some node ∧ node_type node = Metadata.File ∧
          node_bytes node = job_old j.

Lemma tokens_received j s tokens :
  portable (target_of plan j) → basis_kept (pull_fs s) j →
  len (job_entry j) = Z.of_nat (length (job_new j)) →
  takes_file (R := R) (p_stop_deadline plan) reopen final (relative_text (wire_path (job_entry j)))
    compression (p_max_alloc plan) (Ok (job_old j), basis_head (job_old j) block_size) (job_new j) tokens →
  trades (W := W) (R := R)
    (receive_tokens reopen plan final (job_entry j)
       (Some (target_of plan j, basis_head (job_old j) block_size)) compression) s tokens
    (λ a s' said, a = (job_new j, Z.of_nat (length (job_new j))) ∧ said = [] ∧
       pull_fs s' = pull_fs s ∧ pull_temps s' = pull_temps s).
Proof.
  intros Hp Hbasis Hlen Htakes w r rest Hw Hr.
  destruct (Htakes {| output := []; receiver_readings := pull_readings s |} r rest Hr)
    as (st & r' & Hrun & Hout & Ha).
  eexists _, (Build_Pulling (pull_fs s) (pull_actions s) (receiver_readings st) (pull_temps s)), w, r', [].
  split_and!; [|apply emits_nil|done|exact Ha|done..].
  unfold receive_tokens. rewrite Hlen.
  rewrite (tokens_basis _ _ _ _ _ (job_old j)).
  - rewrite Hrun, Hout. reflexivity.
  - destruct Hbasis as [->|(node & Hn & Ht & Hb)]; [by left|right].
    cbn [FileSystem.read_file MemoryFileSystem_portable].
    rewrite (read_plain _ _ node) by done. cbn. by rewrite Hb.
Qed.

Lemma file_received j s dir name tokens :
  target_of plan j = dir ++ [Normal name] → windows_name name → portable dir →
  plain (nodes (pull_fs s)) →
  receive_temp_path (pull_temps s) (target_of plan j) ≠ target_of plan j →
  basis_kept (pull_fs s) j → len (job_entry j) = Z.of_nat (length (job_new j)) →
  Z.of_nat (length (job_new j)) < 2 ^ 64 →
  takes_file (R := R) (p_stop_deadline plan) reopen final (relative_text (wire_path (job_entry j)))
    compression (p_max_alloc plan) (Ok (job_old j), basis_head (job_old j) block_size) (job_new j) tokens →
  trades (W := W) (R := R)
    (receive_file reopen plan final (job_entry j) (Some (basis_head (job_old j) block_size)) compression)
    s tokens
    (λ total s' said, said = [] ∧ total = Z.of_nat (length (job_new j)) ∧
       pull_temps s' = S (pull_temps s) ∧
       arrives (job_entry j) (job_new j) (target_of plan j)
         (receive_temp_path (pull_temps s) (target_of plan j))
         (nodes (pull_fs s)) (nodes (pull_fs s'))).
Proof.
  intros Htarget Hname Hdir Hplain Hne Hbasis Hlen Hnew Htakes.
  destruct (temp_beside dir name (pull_temps s) Hname) as [temp Htemp].
  rewrite <-Htarget in Htemp. rewrite Htemp in Hne |- *.
  assert (Hptarget : portable (target_of plan j)) by (rewrite Htarget; by apply portable_snoc).
  assert (Hptemp : portable (dir ++ [Normal temp])) by (by apply portable_snoc).
  unfold receive_file. fold (target_of plan j).
  set (s1 := Build_Pulling (pull_fs s) (pull_actions s) (pull_readings s) (S (pull_temps s))).
  eapply (trades_locally _ _ _ s1); [unfold fresh_temp_path; rewrite Htemp; done|].
  apply trades_tail, trades_and_remove.
  set (m := nodes (pull_fs s)). set (temp_path := dir ++ [Normal temp]).
  set (m1 := <[temp_path := file_node []]> (with_dirs dir m)).
  eapply (trades_locally _ _ _ (with_fs (set_nodes m1 (pull_fs s)) s1)).
  { apply os_runs. by apply (file_created dir temp [] s1). }
  rewrite <-(app_nil_r tokens). eapply trades_bind.
  - apply (tokens_received j); [done| |done|done]. cbn [pull_fs with_fs set_nodes nodes].
    destruct Hbasis as [Hold|(node & Hn & Ht & Hb)]; [by left|right]. exists node.
    split_and!; [|done..]. change (m1 !! target_of plan j = Some node).
    unfold m1. rewrite lookup_insert_ne by (by intros E; apply Hne).
    rewrite with_dirs_lookup by done. unfold m. by rewrite Hn.
  - intros _ s2 _ (-> & -> & Hfs2 & Htemps2). cbn [pull_fs with_fs pull_temps] in Hfs2, Htemps2.
    set (m2 := <[temp_path := file_node (job_new j)]> (with_dirs dir m1)).
    assert (Hp1 : plain m1) by (apply plain_insert; [by apply plain_with_dirs|done]).
    eapply (trades_locally _ _ _ (with_fs (set_nodes m2 (pull_fs s2)) s2)).
    { apply os_runs. cbn [fill_local_file memory_files].
      rewrite (file_created dir temp) by (rewrite ?Hfs2; done). by rewrite Hfs2. }
    destruct (whole_file_written (job_entry j) dir name temp_path (job_new j)
      (with_fs (set_nodes m2 (pull_fs s2)) s2)) as (s3 & Hrun & Hnodes & Htemps3).
    { by rewrite <-Htarget. } { done. }
    { apply plain_insert; [by apply plain_with_dirs|done]. }
    { apply lookup_insert_eq. } { done. }
    rewrite <-Htarget in Hrun, Hnodes. eapply trades_locally; [exact Hrun|]. apply trades_ret.
    cbn [pull_fs with_fs nodes set_nodes pull_temps] in Hnodes, Htemps3.
    assert (Hstill : nodes (pull_fs s3) !! temp_path = Some (file_node (job_new j))).
    { rewrite Hnodes, lookup_insert_ne, with_dirs_lookup by (done || (intros E; by apply Hne)).
      unfold m2. by rewrite lookup_insert_eq. }
    eexists. split; [by apply (temp_removed dir temp s3 _ Hptemp Hstill)|].
    split_and!; [done|done|cbn; by rewrite Htemps3, Htemps2|].
    cbn [pull_fs with_fs nodes set_nodes]. rewrite Hnodes. fold temp_path.
    rewrite Htarget. apply (arrival (job_entry j) (job_new j) dir name temp m); [done..|].
    intros E. apply Hne. by rewrite Htarget.
Qed.

(** ** All files of a phase *)

Context (entries : list RsyncFileListEntry).
Hypothesis dest_portable : portable (p_dest plan).
Hypothesis plan_in_time : in_time (p_stop_deadline plan).

(** The receiver has the file in its list, below a name that Windows can hold. *)
Record job_listed (j : Job) : Prop := {
  listed_entry : entries !! job_index j = Some (job_entry j);
  listed_type : file_type (job_entry j) = File;
  listed_name : ∃ names name, Forall windows_name names ∧ windows_name name ∧
    wire_path (job_entry j) = Normal <$> (names ++ [name]);
  listed_len : len (job_entry j) = Z.of_nat (length (job_new j));
  listed_new : Z.of_nat (length (job_new j)) < 2 ^ 64;
  listed_index : Z.of_nat (job_index j) < 2 ^ 31 - 1;
}.

Lemma target_parts j :
  job_listed j → ∃ dir name, target_of plan j = dir ++ [Normal name] ∧ windows_name name ∧ portable dir.
Proof.
  intros [_ _ (names & name & Hnames & Hname & Hpath) _ _ _].
  exists (p_dest plan ++ (Normal <$> names)), name. unfold target_of. rewrite Hpath.
  split_and!; [|done|].
  - rewrite join_names. apply names_snoc.
  - apply portable_app. split; [done|]. apply Forall_fmap, Forall_true. by intros.
Qed.

Definition is_temp (jobs : list Job) (q : PathBuf) : Prop :=
  ∃ n j, j ∈ jobs ∧ q = receive_temp_path n (target_of plan j).

(** No two files have one target, and no temporary file has one. *)
Definition targets_apart (jobs : list Job) : Prop :=
  NoDup (target_of plan <$> jobs) ∧ ∀ j, j ∈ jobs → ¬ is_temp jobs (target_of plan j).

(** Every file has arrived, and but for temporary files nothing else has changed, except
    that missing directories on the way to a target were made. *)
Definition all_arrived (jobs : list Job) m m' : Prop :=
  plain m' ∧
  (∀ j, j ∈ jobs → m' !! target_of plan j = Some (arrived_node (job_entry j) (job_new j))) ∧
  ∀ q, q ∉ target_of plan <$> jobs → ¬ is_temp jobs q →
    m' !! q = m !! q ∨
    m !! q = None ∧ m' !! q = Some directory_node ∧ ∃ j, j ∈ jobs ∧ q `prefix_of` target_of plan j.

Lemma apart_cons j jobs : targets_apart (j :: jobs) → targets_apart jobs.
Proof.
  intros [[_ Hdup]%NoDup_cons Htemp]. split; [done|]. intros k Hk (n & i & Hi & E).
  apply (Htemp k); [by right|]. exists n, i. split; [by right|done].
Qed.

Lemma apart_temp j k n jobs :
  targets_apart jobs → j ∈ jobs → k ∈ jobs → receive_temp_path n (target_of plan j) ≠ target_of plan k.
Proof. intros [_ Htemp] Hj Hk E. apply (Htemp k Hk). by exists n, j. Qed.

Lemma basis_still_kept j jobs fs fs' temp k :
  targets_apart (j :: jobs) → k ∈ jobs → temp ≠ target_of plan k → job_listed j →
  arrives (job_entry j) (job_new j) (target_of plan j) temp (nodes fs) (nodes fs') →
  basis_kept fs k → basis_kept fs' k.
Proof.
  intros Hapart Hk Htemp Hj [_ Hm] [Hold|(node & Hn & Hrest)]; [by left|right].
  exists node. split; [|done]. rewrite Hm.
  rewrite decide_False by done. rewrite decide_False.
  - destruct (target_parts j Hj) as (dir & name & -> & _ & Hdir).
    rewrite parents_of, with_dirs_lookup by done. by rewrite Hn.
  - destruct Hapart as [[Hnew _]%NoDup_cons _]. intros E. apply Hnew.
    apply list_elem_of_fmap. by exists k.
Qed.

Lemma arrived_cons j jobs fs fs' m' n :
  targets_apart (j :: jobs) → job_listed j →
  arrives (job_entry j) (job_new j) (target_of plan j) (receive_temp_path n (target_of plan j))
    (nodes fs) (nodes fs') →
  all_arrived jobs (nodes fs') m' → all_arrived (j :: jobs) (nodes fs) m'.
Proof.
  intros Hapart Hj [_ Hm] (Hplain & Harrived & Hother). split; [done|].
  pose proof (proj1 (NoDup_cons _ _) (proj1 Hapart)) as [Hnew _].
  assert (Htarget : nodes fs' !! target_of plan j = Some (arrived_node (job_entry j) (job_new j))).
  { rewrite Hm, decide_False, decide_True by
      (done || (intros E; by apply (apart_temp j j n _ Hapart); [left|left|])). done. }
  split.
  - intros k [->|Hk]%elem_of_cons; [|by apply Harrived].
    destruct (Hother (target_of plan j)) as [->|(E & _)]; [done| |done|congruence].
    intros (n' & i & Hi & E). apply (apart_temp i j n' _ Hapart); [by right|by left|done].
  - intros q Hq Htemp. rewrite fmap_cons, not_elem_of_cons in Hq. destruct Hq as [Hqj Hq].
    assert (Htemp' : ¬ is_temp jobs q).
    { intros (n' & i & Hi & E). apply Htemp. exists n', i. split; [by right|done]. }
    assert (Hstep : nodes fs' !! q = nodes fs !! q ∨
      nodes fs !! q = None ∧ nodes fs' !! q = Some directory_node ∧ q `prefix_of` target_of plan j).
    { rewrite Hm, decide_False, decide_False by
        (done || (intros ->; apply Htemp; exists n, j; by split; [left|])).
      destruct (target_parts j Hj) as (dir & name & -> & _ & Hdir).
      rewrite parents_of, with_dirs_lookup by done. destruct (nodes fs !! q); [by left|].
      case_decide as Hpre; [right|by left]. split_and!; [done..|]. by apply prefix_app_r. }
    destruct (Hother q Hq Htemp') as [E|(E1 & E2 & i & Hi & Hpre)], Hstep as [F|(F1 & F2 & Hpre')];
      [left; congruence|right..|right].
    + split_and!; [done|congruence|]. exists j. by split; [left|].
    + split_and!; [congruence|done|]. exists i. by split; [right|].
    + congruence.
Qed.

(** *** The loop over the answers *)

Lemma hears_index st b index st' {B}
    (f : Z * RsyncIndexState → M (Pulling MemoryFileSystem * W * R) RemoteError B) s heard
    (Q : B → Pulling MemoryFileSystem → list Z → Prop) :
  reads_st (R := R) read_rsync_index st b index st' →
  trades (f (index, st')) s heard Q → trades (hear_index st ≫= f) s (b ++ heard) Q.
Proof.
  intros Hr. apply trades_hear. apply (reads_threaded _ id). by apply reads_st_with_err.
Qed.

Lemma response_heard st index b1 b2 iflags head opts s :
  0 ≤ index → reads_st (R := R) read_rsync_index st b1 index (index_next st index) →
  reads (R := R) (read_file_response index) b2 (ResponseFile index iflags head) →
  trades (W := W) (read_protocol31_sender_response st entries false opts) s (b1 ++ b2)
    (λ a s' said, a = (ResponseFile index iflags head, index_next st index) ∧ s' = s ∧ said = []).
Proof.
  intros Hindex Hr1 Hr2. unfold read_protocol31_sender_response.
  eapply hears_index; [exact Hr1|]. cbv beta iota zeta.
  rewrite (proj2 (Z.eqb_neq _ RSYNC_INDEX_DONE)) by (unfold RSYNC_INDEX_DONE; lia).
  rewrite (proj2 (Z.eqb_neq _ RSYNC_INDEX_FLIST_EOF)) by (unfold RSYNC_INDEX_FLIST_EOF; lia).
  rewrite (proj2 (Z.leb_gt _ RSYNC_INDEX_FLIST_OFFSET)) by (unfold RSYNC_INDEX_FLIST_OFFSET; lia).
  rewrite <-(app_nil_r b2). eapply trades_hear; [exact Hr2|]. by apply trades_ret.
Qed.

Lemma done_heard st allow opts s :
  trades (W := W) (R := R) (read_protocol31_sender_response st entries allow opts) s [0]
    (λ a s' said, a = (ResponseDone, st) ∧ s' = s ∧ said = []).
Proof.
  unfold read_protocol31_sender_response. apply (hears_index st [0] RSYNC_INDEX_DONE st).
  - apply reads_done.
  - by apply trades_ret.
Qed.

(** The tick of a turn, in a state that keeps the files. *)
Lemma trades_tick {B} (f : unit → M (Pulling MemoryFileSystem * W * R) RemoteError B) s heard
    (Q : B → Pulling MemoryFileSystem → list Z → Prop) :
  (∀ s', pull_fs s' = pull_fs s → pull_temps s' = pull_temps s → trades (f tt) s' heard Q) →
  trades (locally (tick plan) ≫= f) s heard Q.
Proof.
  intros Hf. destruct (tick_passes plan plan_in_time s) as [n Hn].
  eapply trades_locally; [exact Hn|]. by apply Hf.
Qed.

Lemma answer_applied j s tokens stats :
  job_listed j → plain (nodes (pull_fs s)) → basis_kept (pull_fs s) j →
  receive_temp_path (pull_temps s) (target_of plan j) ≠ target_of plan j →
  takes_file (R := R) (p_stop_deadline plan) reopen final (relative_text (wire_path (job_entry j)))
    compression (p_max_alloc plan) (Ok (job_old j), basis_head (job_old j) block_size) (job_new j) tokens →
  trades (W := W) (R := R)
    (apply_remote_sender_file_response_protocol31 reopen plan final compression entries (job_index j)
       transfer_flags (Some (basis_head (job_old j) block_size)) stats) s tokens
    (λ stats' s' said, said = [] ∧ stat_files stats' = S (stat_files stats) ∧
       pull_temps s' = S (pull_temps s) ∧
       arrives (job_entry j) (job_new j) (target_of plan j)
         (receive_temp_path (pull_temps s) (target_of plan j)) (nodes (pull_fs s)) (nodes (pull_fs s'))).
Proof.
  intros Hj Hplain Hbasis Htemp Htakes.
  destruct (target_parts j Hj) as (dir & name & Htarget & Hname & Hdir).
  destruct Hj as [Hentry Htype _ Hlen Hnew _].
  unfold apply_remote_sender_file_response_protocol31.
  eapply trades_lift; [unfold entry_at; by rewrite Hentry|]. cbv zeta.
  rewrite Htype, wet. change (bool_decide (Z.land transfer_flags RSYNC_ITEM_TRANSFER ≠ 0)) with true.
  cbn [negb orb]. rewrite bool_decide_eq_false_2 by (by intros []).
  rewrite <-(app_nil_r tokens). eapply trades_bind.
  - by apply (file_received j s dir name).
  - intros total s' _ (-> & -> & Htemps & Harrives). by apply trades_ret.
Qed.

Lemma answers_received st jobs o st' :
  answered (R := R) checksum block_size (p_max_alloc plan) compression plan reopen st jobs o st' →
  ∀ fuel s stats,
  Forall job_listed jobs → targets_apart jobs → plain (nodes (pull_fs s)) →
  Forall (basis_kept (pull_fs s)) jobs →
  trades (W := W) (R := R)
    (receive_loop31 reopen plan (length jobs + S fuel) final compression entries 0 st stats) s (o ++ [0])
    (λ stats' s' said, said = [] ∧ stat_files stats' = (stat_files stats + length jobs)%nat ∧
       all_arrived jobs (nodes (pull_fs s)) (nodes (pull_fs s'))).
Proof.
  induction 1 as [st|st j jobs b o st' (b1 & b2 & tokens & -> & _ & Hr1 & Hr2 & Htakes) Hanswered IH];
    intros fuel s stats Hlisted Hapart Hplain Hbasis; cbn [length Nat.add receive_loop31];
    apply trades_tick; intros s1 Hfs Htemps.
  - eapply (trades_bind _ _ _ [0] []); [apply done_heard|]. intros _ _ _ (-> & -> & ->).
    apply trades_ret. rewrite Hfs. split; [done|]. split; [cbn; lia|].
    split; [done|]. split; [by intros j ?%elem_of_nil|]. by left.
  - apply Forall_cons in Hlisted as [Hj Hlisted]. apply Forall_cons in Hbasis as [Hb Hbasis].
    rewrite <-Hfs in Hplain, Hb, Hbasis |- *. rewrite <-!app_assoc, (app_assoc b1).
    eapply trades_bind; [by apply (response_heard st (Z.of_nat (job_index j)) b1 b2); [lia|..]|]. intros _ _ _ (-> & -> & ->).
    assert (Hlt : (job_index j < length entries)%nat) by (eapply lookup_lt_Some, listed_entry, Hj).
    pose proof (listed_index j Hj) as Hindex.
    eapply (trades_lift _ _ (job_index j)).
    { unfold checked_remote_file_index. rewrite Z.sub_0_r, checked_i32_some by (unfold in_i32; lia).
      cbn. unfold checked_file_index. rewrite (proj2 (Z.ltb_ge _ _)), (proj2 (Z.leb_gt _ _)) by lia.
      by rewrite Nat2Z.id. }
    assert (Hne : receive_temp_path (pull_temps s1) (target_of plan j) ≠ target_of plan j)
      by (apply (apart_temp j j _ _ Hapart); left).
    eapply trades_bind; [by apply answer_applied|].
    intros stats1 s2 _ (-> & Hfiles & Htemps2 & Harrives).
    eapply trades_weaken.
    + apply (IH fuel s2 stats1); [done|by eapply apart_cons|by destruct Harrives|].
      apply Forall_forall. intros k Hk. rewrite Forall_forall in Hbasis.
      eapply (basis_still_kept j jobs (pull_fs s1)); [done|done| |done|exact Harrives|by apply Hbasis].
      apply (apart_temp j k _ _ Hapart); [left|by right].
    + intros stats2 s3 said (-> & Hfiles2 & Hall). split_and!; [done|lia|].
      by eapply arrived_cons.
Qed.

(** ** The basis of a request *)

(** What the receiver asks with: the file at the target, unless whole files are sent. *)
Definition basis_bytes fs (target : PathBuf) : list Z :=
  if p_whole_file plan then []
  else match nodes fs !! target with
  | Some node => if decide (node_type node = Metadata.File) then node_bytes node else []
  | None => []
  end.

Lemma basis_bytes_kept fs j : job_old j = basis_bytes fs (target_of plan j) → basis_kept fs j.
Proof.
  unfold basis_bytes, basis_kept. intros ->. destruct (p_whole_file plan); [by left|].
  destruct (nodes fs !! _) as [node|]; [|by left]. case_decide; [right; by exists node|by left].
Qed.

Lemma basis_bytes_asked fs j :
  well_formed fs → plain (nodes fs) → portable (target_of plan j) →
  request_fits (job_old j) block_size (p_max_alloc plan) →
  job_old j = basis_bytes fs (target_of plan j) → basis_is checksum block_size plan fs j.
Proof.
  intros Hwf Hplain Hp Hfit Hold. unfold basis_is, basis_request.
  assert (Hempty : ∀ b, (basis_head [] b, basis_signatures checksum [] b) =
    ({| block_count := 0; block_len := b; checksum_len := 16; remainder := 0 |}, [])).
  { intros b. unfold basis_head, basis_signatures. cbn. by rewrite Nat.Div0.mod_0_l. }
  unfold basis_bytes in Hold. destruct (p_whole_file plan) eqn:Hwhole.
  { rewrite Hold, Hempty. done. }
  cbn [metadata_follow MemoryFileSystem_portable open_local_file memory_files].
  unfold memory_metadata_follow. rewrite normalize_portable by done. cbn [and_then].
  destruct (nodes fs !! target_of plan j) as [node|] eqn:Hn; cbn [ok_or and_then].
  - rewrite bool_decide_eq_true_2 by (by apply (Hplain (target_of plan j))).
    pose proof (wf_nodes fs Hwf _ _ Hn) as Hok. fold (node_type node). case_decide as Hfile.
    + rewrite bool_decide_eq_true_2 by done. rewrite (ok_len _ _ _ Hok Hfile), <-Hold.
      rewrite (read_plain _ _ node) by done. cbn [and_then map_err].
      rewrite (local_request checksum (job_old j) block_size (p_max_alloc plan)); [done|done|].
      by rewrite Hold.
    + rewrite bool_decide_eq_false_2 by done. by rewrite Hold, Hempty.
  - by rewrite Hold, Hempty.
Qed.

(** ** Both ends *)

Context (open_source : PathBuf → result Pieces TransferError) (sources : list RemoteSourceEntry).
Context (runtime : RemoteTransferRuntime) (selected : gset nat).

(** The jobs of an exchange are the files the receiver has selected, each with what it
    has at the target and what the sender has at the index.  [job_fits]: the file is
    within the limits, and no window of it has the sums of another block of the basis.
    [job_served]: the sender holds it, and no flush of its compression shows its end early.
    [targets_apart]: no target is another's target or temporary file. *)
Record exchange (fs : MemoryFileSystem) (jobs : list Job) : Prop := {
  jobs_wanted : wanted selected (enumerate entries) = (λ j, (job_index j, job_entry j)) <$> jobs;
  jobs_listed : Forall job_listed jobs;
  jobs_basis : Forall (λ j, job_old j = basis_bytes fs (target_of plan j)) jobs;
  jobs_apart : targets_apart jobs;
  jobs_fit : Forall (job_fits checksum block_size (p_max_alloc plan)) jobs;
  jobs_served : Forall (job_served compression open_source sources) jobs;
}.

(** Both ends run without a dry run, appending, a deadline that passes, or limits that
    differ, and with the same compression, which is none or in the zlibx mode. *)
Record agreed : Prop := {
  agreed_limit : rt_max_alloc runtime = p_max_alloc plan;
  agreed_room :
    ensure_allocation_within_limit "delta literal buffer" buffer_size (p_max_alloc plan) = Ok ();
  agreed_compression : rt_compression runtime = compression;
  agreed_mode : readable_mode compression;
  agreed_deadline : in_time (rt_stop_deadline runtime);
  agreed_reopens : reopens reopen;
}.

(** C1. A receiver that asks a sender for the files it has selected gets them.  Its requests
    make the sender's loop succeed, which takes them and the ends of the phases and
    counts exactly those files as transferred; and the sender's answers make the
    receiver's loop succeed, after which every target has the bytes of the sender's file,
    and nothing else has changed but missing directories above the targets.  This holds
    for whatever the receiver had at the targets, of which only the changed blocks are
    sent, with whole files, and uncompressed or compressed in the zlibx mode, under the
    laws of the compressor ([ZlibLaws]).  Both ends are [agreed], and the files are an
    [exchange]: distinct targets, a receiver without links, sums that do not collide,
    flushes that do not show their end early, and lengths within the limits. *)
Theorem pull_gets_what_push_serves s jobs :
  agreed → well_formed (pull_fs s) → plain (nodes (pull_fs s)) → exchange (pull_fs s) jobs →
  trades (W := W) (R := R)
    (request_remote_sender_files_protocol31 plan entries selected 0 block_size checksum) s []
    (λ _ s1 asked, pull_fs s1 = pull_fs s ∧ ∀ x,
       trades (W := W) (R := R)
         (serve_remote_receiver_requests_protocol31 open_source sources runtime false false checksum)
         x (asked ++ [0; 0; 0; 0])
         (λ stats _ served, transferred_entry_indexes stats = job_index <$> jobs ∧
            ∃ answer, served = answer ++ [0; 0; 0] ∧ ∀ s2, pull_fs s2 = pull_fs s →
            trades (W := W) (R := R)
              (receive_remote_sender_files_protocol31 reopen plan final compression entries 0)
              s2 answer
              (λ stats s3 _, stat_files stats = length jobs ∧
                 all_arrived jobs (nodes (pull_fs s)) (nodes (pull_fs s3))))).
Proof.
  intros [Hlimit Hroom Hcompression Hmode Hdeadline Hreopens] Hwf Hplain
    [Hwanted Hlisted Hbasis Hapart Hfits Hserved].
  eapply trades_weaken.
  { apply (phase_requested checksum block_size (p_max_alloc plan) runtime Hlimit plan wet plan_in_time
      entries selected jobs s); [done|done|].
    apply Forall_forall. intros j Hj. rewrite Forall_forall in Hbasis, Hfits, Hlisted.
    apply basis_bytes_asked; [done|done| |by eapply fits_request, Hfits|by apply Hbasis].
    destruct (target_parts j (Hlisted j Hj)) as (dir & name & -> & _ & Hdir). by apply portable_snoc. }
  intros _ s1 asked [Hfs1 (q & rst & -> & Hasked)]. split; [done|]. intros x.
  rewrite <-app_assoc. eapply trades_weaken.
  { by apply (phase_served checksum block_size (p_max_alloc plan) compression runtime Hlimit plan
      plan_in_time open_source sources reopen Hreopens Hcompression Hmode Hdeadline Hroom jobs q rst x). }
  intros stats _ served (o & st & -> & Hanswered & Hstats). split; [done|].
  exists (o ++ [0]). split; [by rewrite <-app_assoc|]. intros s2 Hfs2.
  intros w r rest Hw Hr.
  assert (Hfuel : ∃ fuel, S (budget r) = (length jobs + S fuel)%nat).
  { apply answered_length in Hanswered. pose proof (avail_budget _ _ _ Hr) as Hb.
    rewrite length_app in Hb. cbn in Hb. exists (budget r - length jobs)%nat. lia. }
  destruct Hfuel as [fuel Hfuel]. unfold receive_remote_sender_files_protocol31. cbn [snd].
  rewrite Hfuel. rewrite <-Hfs2. revert w r rest Hw Hr Hfuel. intros w r rest Hw Hr _.
  revert w r rest Hw Hr. eapply trades_weaken.
  { apply (answers_received _ _ _ _ Hanswered fuel s2 no_execution); [done|done|by rewrite Hfs2|].
    apply Forall_forall. intros j Hj. rewrite Forall_forall in Hbasis. rewrite Hfs2.
    apply basis_bytes_kept. by apply Hbasis. }
  intros stats' s3 said (-> & Hfiles & Hall). split; [by rewrite Hfiles|done].
Qed.
End memory.

(** ** A run *)

#[local] Existing Instances stored_zlib stored_laws shown_digests shown_laws.
#[local] Instance posix : Platform := false.
#[local] Instance no_clock : Clock := λ n, Z.of_nat n.
#[local] Instance signature_size : SignatureSize := 56%nat.
#[local] Instance temp_names : TempNames := {| process_id := 7; temp_nanos n := n |}.

Definition sent_file : list Z := [9; 9; 3; 4; 1; 2].

Definition offered : list RemoteSourceEntry :=
  [{| wire := sample_directory (lit "."); local_path := parse_path (lit "s") |};
   {| wire := changed_file; local_path := parse_path (lit "s/f") |}].

Definition open_offered (path : PathBuf) : result Pieces TransferError :=
  Ok {| left := sent_file; sizes := [0; 2; 1]%nat |}.

Definition push_runtime : RemoteTransferRuntime :=
  {| rt_compression := Some zlibx; rt_max_alloc := None; rt_stop_deadline := None |}.

Definition changed_job : Job :=
  {| job_index := 1; job_entry := changed_file;
     job_source := {| wire := changed_file; local_path := parse_path (lit "s/f") |};
     job_old := [1; 2; 3; 4; 5]; job_new := sent_file |}.

(** A temporary file is not the target: its name begins with a dot. *)
Lemma changed_apart : targets_apart (pull_plan false) [changed_job].
Proof.
  split; [apply NoDup_singleton|]. intros j ->%list_elem_of_singleton (n & i & ->%list_elem_of_singleton & E).
  change (target_of (pull_plan false) changed_job) with ([Normal (lit "d")] ++ [Normal (lit "f")]) in E.
  unfold receive_temp_path in E. cbn -[parse_path decimal lit] in E.
  rewrite (temp_name_plain (lit "f") 7 n) in E by (vm_compute; reflexivity).
  unfold path_join in E. discriminate E.
Qed.

Lemma changed_exchange :
  exchange (pull_plan false) FilePlainMd4 2 (Some zlibx) [sample_directory (lit "."); changed_file]
    open_offered offered {[1%nat]} receiver_files [changed_job].
Proof.
  split.
  - vm_compute. reflexivity.
  - repeat constructor. by exists [], (lit "f").
  - repeat constructor.
  - apply changed_apart.
  - constructor; [|constructor]. split; [vm_compute; reflexivity| | |vm_compute; reflexivity].
    + unfold request_fits. split_and!; [lia|lia|vm_compute; reflexivity|vm_compute; reflexivity|done|done].
    + apply shown_collision_free. cbn. lia.
  - constructor; [|constructor]. split; [done|done|by eexists|apply stored_quiet].
Qed.

Lemma receiver_plain : plain (nodes receiver_files).
Proof.
  assert (Hall : map_Forall (λ _ node, node_type node ≠ Metadata.Symlink) (nodes receiver_files))
    by (apply (bool_decide_unpack _); vm_compute; exact I).
  intros p node Hn. exact (Hall p node Hn).
Qed.

Lemma receiver_well_formed : well_formed receiver_files.
Proof.
  assert (Hadd : ∀ p bytes, safe (add_file p bytes) (λ _ _, True))
    by (intros; apply safe_add; intros; by apply file_node_ok).
  assert (Hthen : ∀ p bytes (rest : M MemoryFileSystem FsError unit),
    safe rest (λ _ _, True) → safe (add_file p bytes;; rest) (λ _ _, True)).
  { intros p bytes rest Hrest. eapply safe_bind; [apply Hadd|]. intros _ fs Hfs _. by apply Hrest. }
  apply (Hthen _ _ _ (Hthen _ _ _ (Hadd _ _))), well_formed_default.
Qed.

Lemma pull_gets_what_push_serves_witness :
  trades (W := list Z) (R := list Z)
    (request_remote_sender_files_protocol31 (pull_plan false)
       [sample_directory (lit "."); changed_file] {[1%nat]} 0 2 FilePlainMd4) (start_pull []).1.1 []
    (λ _ s1 asked, pull_fs s1 = receiver_files ∧ ∀ x,
       trades (W := list Z) (R := list Z)
         (serve_remote_receiver_requests_protocol31 open_offered offered push_runtime false false
            FilePlainMd4) x (asked ++ [0; 0; 0; 0])
         (λ stats _ served, transferred_entry_indexes stats = [1%nat] ∧
            ∃ answer, served = answer ++ [0; 0; 0] ∧ ∀ s2, pull_fs s2 = receiver_files →
            trades (W := list Z) (R := list Z)
              (receive_remote_sender_files_protocol31 whole_file (pull_plan false) FinalPlainMd4 (Some zlibx)
                 [sample_directory (lit "."); changed_file] 0) s2 answer
              (λ stats s3 _, stat_files stats = 1%nat ∧
                 all_arrived (pull_plan false) [changed_job] (nodes receiver_files)
                   (nodes (pull_fs s3))))).
Proof.
  apply (pull_gets_what_push_serves (pull_plan false) eq_refl eq_refl FilePlainMd4 2 (Some zlibx) whole_file
    [sample_directory (lit "."); changed_file]) with (open_source := open_offered) (sources := offered)
    (runtime := push_runtime) (selected := {[1%nat]}) (s := (start_pull []).1.1) (jobs := [changed_job]).
  - by repeat constructor.
  - exact I.
  - split; [done..|]. intros bytes. by eexists.
  - exact receiver_well_formed.
  - exact receiver_plain.
  - exact changed_exchange.
Defined.
