(* ===== verification/RemoteShell.v ===== *)
(** * Ways to a server: rsync-transport/src/remote_shell.rs, tcp.rs

    The module Connect has the connection to a daemon: socket options, which address is
    connected to, a proxy, and a program that connects (rsync-cli/src/execute/
    daemon_client.rs).  Sockets are arguments.  Before it is the command of a remote shell:
    the command of -e split into words, the server's arguments quoted into the one argument
    a remote shell reads, and the command that is spawned.  Texts are lists of characters;
    an [OsString] is the text it was made of. *)

From S2P Require Import Prelude Stream Str Text Lines.

Definition DEFAULT_SSH_OPTIONS : list (list Z) :=
  [lit "-o"; lit "BatchMode=yes"; lit "-o"; lit "ConnectTimeout=10"].

Inductive SshAddressFamily := Ipv4 | Ipv6.

Record RemoteShellCommandOptions := {
  address_family : option SshAddressFamily;
  blocking_io : bool;
  old_args : bool;
}.

Definition default_command_options : RemoteShellCommandOptions :=
  {| address_family := None; blocking_io := false; old_args := false |}.

Record SshRemoteCommand := {
  program : list Z;
  args : list (list Z);
  remote_command : list Z;
}.

(** ** Quoting *)

Definition plain_char (c : Z) : bool :=
  is_ascii_alphanumeric c || existsb (Z.eqb c) [ch "_"; ch "-"; ch "."; ch "/"; ch ":"; ch "@"].

(** [value.replace('\'', "..")]: the quote is closed, a quote in double quotes follows, and
    a new one is opened. *)
Definition quote_char (c : Z) : list Z :=
  if c =? ch "'" then [ch "'"; 34; ch "'"; 34; ch "'"] else [c].

Definition shell_quote (value : list Z) : list Z :=
  if bool_decide (value = []) then lit "''"
  else if forallb plain_char value then value
  else lit "'" ++ concat (quote_char <$> value) ++ lit "'".

Fixpoint remote_args_from (old_args filename_args : bool) (args : list (list Z)) : list Z :=
  match args with
  | [] => []
  | arg :: args =>
      ch " " :: (if old_args && filename_args then arg else shell_quote arg) ++
      remote_args_from old_args (bool_decide (arg = lit ".") || filename_args) args
  end.

Definition remote_server_command (remote_server_argv : list (list Z)) (old_args : bool) : list Z :=
  match remote_server_argv with
  | [] => []
  | program :: args => program ++ remote_args_from old_args false args
  end.

(** ** The command of -e *)

Inductive RemoteShellCommandParseError := Empty | UnterminatedQuote | IncompleteEscape.

Definition split_program (words : list (list Z)) :
    result (list Z * list (list Z)) RemoteShellCommandParseError :=
  match words with [] => Err Empty | program :: args => Ok (program, args) end.

(** The loop over the characters: the words before the current one are what is prepended
    to the result. *)
Fixpoint parse_words (command current : list Z) (in_single in_double saw_token : bool) :
    result (list (list Z)) RemoteShellCommandParseError :=
  match command with
  | [] =>
      if in_single || in_double then Err UnterminatedQuote
      else Ok (if saw_token then [current] else [])
  | c :: command =>
      if (c =? ch "'") && negb in_double then
        parse_words command current (negb in_single) in_double true
      else if (c =? 34) && negb in_single then
        parse_words command current in_single (negb in_double) true
      else if (c =? ch "\") && negb in_single then
        match command with
        | [] => Err IncompleteEscape
        | next :: command => parse_words command (current ++ [next]) in_single in_double true
        end
      else if is_whitespace c && negb in_single && negb in_double then
        if saw_token then
          let? words := parse_words command [] in_single in_double false in Ok (current :: words)
        else parse_words command current in_single in_double false
      else parse_words command (current ++ [c]) in_single in_double true
  end.

Definition parse_remote_shell_command (command : list Z) :
    result (list Z * list (list Z)) RemoteShellCommandParseError :=
  let? words := parse_words command [] false false false in split_program words.

(** ** The command that is spawned *)

(** [program.rsplit(['/', '\\']).next()] *)
Definition program_basename (program : list Z) : list Z :=
  default [] (last (split_by (λ c, (c =? ch "/") || (c =? ch "\")) program)).

Definition remote_shell_supports_address_family (program : list Z) : bool :=
  let basename := to_ascii_lowercase (program_basename program) in
  bool_decide (basename = lit "ssh") || bool_decide (basename = lit "ssh.exe").

Definition build_remote_shell_command (program : list Z) (args : list (list Z)) (host : list Z)
    (remote_server_argv : list (list Z)) (options : RemoteShellCommandOptions) :
    SshRemoteCommand :=
  let remote_command := remote_server_command remote_server_argv (old_args options) in
  let family :=
    if remote_shell_supports_address_family program then
      match address_family options with
      | Some Ipv4 => [lit "-4"]
      | Some Ipv6 => [lit "-6"]
      | None => []
      end
    else [] in
  {| program := program; args := args ++ family ++ [host; remote_command];
     remote_command := remote_command |}.

Definition build_ssh_remote_command_with_options (ssh_program host : list Z)
    (remote_server_argv : list (list Z)) (options : RemoteShellCommandOptions) :
    SshRemoteCommand :=
  build_remote_shell_command ssh_program DEFAULT_SSH_OPTIONS host remote_server_argv options.

Definition build_ssh_remote_command (ssh_program host : list Z)
    (remote_server_argv : list (list Z)) : SshRemoteCommand :=
  build_ssh_remote_command_with_options ssh_program host remote_server_argv
    default_command_options.

Definition build_custom_remote_shell_command_with_options (shell_command host : list Z)
    (remote_server_argv : list (list Z)) (options : RemoteShellCommandOptions) :
    result SshRemoteCommand RemoteShellCommandParseError :=
  let? (program, args) := parse_remote_shell_command shell_command in
  Ok (build_remote_shell_command program args host remote_server_argv options).

Definition build_custom_remote_shell_command (shell_command host : list Z)
    (remote_server_argv : list (list Z)) :
    result SshRemoteCommand RemoteShellCommandParseError :=
  build_custom_remote_shell_command_with_options shell_command host remote_server_argv
    default_command_options.

Definition default_ssh_program : list Z := lit "ssh".

Definition display_command (self : SshRemoteCommand) : list Z :=
  join (lit " ") (program self :: (shell_quote <$> args self)).

(** ** The connection to a daemon *)

Module Connect.

Record TcpSocketOptions := {
  tcp_nodelay : option bool;
  keepalive : option bool;
  recv_buffer_size : option Z;
  send_buffer_size : option Z;
}.

#[export] Instance TcpSocketOptions_fields : Fields TcpSocketOptions := λ o,
  {| tcp_nodelay := tcp_nodelay o; keepalive := keepalive o;
     recv_buffer_size := recv_buffer_size o; send_buffer_size := send_buffer_size o |}.

Definition TcpSocketOptions_default : TcpSocketOptions :=
  {| tcp_nodelay := None; keepalive := None; recv_buffer_size := None; send_buffer_size := None |}.

Inductive SockoptError :=
| UnsupportedOption (name : list Z)
| InvalidBool (value : list Z)
| InvalidInteger (value : list Z).

Definition is_word (value : list Z) (words : list string) : bool :=
  existsb (λ word, bool_decide (value = lit word)) words.

Definition parse_bool_sockopt (value : list Z) : result bool SockoptError :=
  let text := to_ascii_lowercase (trim value) in
  if is_word text ["1"; "yes"; "true"; "on"] then Ok true
  else if is_word text ["0"; "no"; "false"; "off"] then Ok false
  else Err (InvalidBool value).

(** A usize has 64 bits. *)
Definition parse_usize_sockopt (value : list Z) : result Z SockoptError :=
  ok_or (parse_unsigned (2 ^ 64 - 1) (trim value)) (InvalidInteger value).

(** The body of the loop of [TcpSocketOptions::parse]. *)
Definition parse_item (options : TcpSocketOptions) (raw : list Z) :
    result TcpSocketOptions SockoptError :=
  let item := trim raw in
  if bool_decide (item = []) then Ok options
  else
    let '(name, raw_value) := default (item, lit "1") (split_once (ch "=") item) in
    let normalized := to_ascii_uppercase (trim name) in
    if is_word normalized ["TCP_NODELAY"] then
      let? v := parse_bool_sockopt raw_value in Ok (options <| tcp_nodelay := Some v |>)
    else if is_word normalized ["SO_KEEPALIVE"] then
      let? v := parse_bool_sockopt raw_value in Ok (options <| keepalive := Some v |>)
    else if is_word normalized ["SO_RCVBUF"] then
      let? v := parse_usize_sockopt raw_value in Ok (options <| recv_buffer_size := Some v |>)
    else if is_word normalized ["SO_SNDBUF"] then
      let? v := parse_usize_sockopt raw_value in Ok (options <| send_buffer_size := Some v |>)
    else Err (UnsupportedOption name).

Fixpoint parse_items (options : TcpSocketOptions) (items : list (list Z)) :
    result TcpSocketOptions SockoptError :=
  match items with
  | [] => Ok options
  | item :: items => let? options := parse_item options item in parse_items options items
  end.

Definition parse (value : list Z) : result TcpSocketOptions SockoptError :=
  parse_items TcpSocketOptions_default (split_on (ch ",") value).

Inductive TcpAddressFamily := Ipv4 | Ipv6.

(** An address that is connected to, or bound. *)
Inductive IpAddr := V4 (bits : Z) | V6 (bits : Z).

Definition is_ipv4 (addr : IpAddr) : bool := match addr with V4 _ => true | V6 _ => false end.

Definition address_family_matches (addr : IpAddr) (family : option TcpAddressFamily) : bool :=
  match family with
  | Some Ipv4 => is_ipv4 addr
  | Some Ipv6 => negb (is_ipv4 addr)
  | None => true
  end.

(** What an attempt to connect came to; setting the timeouts of a socket may fail as well,
    which ends the search. *)
Inductive Attempt (S E : Type) := Connected (stream : S) | Refused (e : E) | Broken (e : E).
Arguments Connected {S E} stream.
Arguments Refused {S E} e.
Arguments Broken {S E} e.

Definition usable (family : option TcpAddressFamily) (bind_address : option IpAddr)
    (addr : IpAddr) : bool :=
  address_family_matches addr family &&
  match bind_address with
  | Some bind_address => Bool.eqb (is_ipv4 bind_address) (is_ipv4 addr)
  | None => true
  end.

(** The loop of [connect_with_options] over the addresses of a host; no error is the one
    for a host without addresses to try. *)
Fixpoint connect_loop {S E} (connect : IpAddr → Attempt S E) (family : option TcpAddressFamily)
    (bind_address : option IpAddr) (addrs : list IpAddr) (last_error : option E) :
    result S (option E) :=
  match addrs with
  | [] => Err last_error
  | addr :: addrs =>
      if negb (usable family bind_address addr)
      then connect_loop connect family bind_address addrs last_error
      else match connect addr with
           | Connected stream => Ok stream
           | Broken e => Err (Some e)
           | Refused e => connect_loop connect family bind_address addrs (Some e)
           end
  end.

Definition connect_with_options {S E} (connect : IpAddr → Attempt S E)
    (family : option TcpAddressFamily) (bind_address : option IpAddr) (addrs : list IpAddr) :
    result S (option E) :=
  connect_loop connect family bind_address addrs None.

(** *** Through a proxy *)

Definition blank_line : list Z := [13; 10; 13; 10].

Inductive ProxyError :=
| ProxyTooLong
| ProxyNotUtf8
| ProxyInterrupted
| ProxyIo (e : io_error)
| ProxyRefused (line : list Z)
| ProxyFuel.

Section proxy.
Context {T : Type} `{ReadByte T} `{Write T}.

(** The loop of [read_http_proxy_response]; an interruption is an error here. *)
Fixpoint response_loop (fuel : nat) (response : list Z) : M T ProxyError (list Z) :=
  match fuel with
  | O => throw ProxyFuel
  | S fuel => λ t,
      if ends_with response blank_line then (Ok response, t)
      else if 8192 <=? Z.of_nat (length response) then (Err ProxyTooLong, t)
      else match read_byte t with
           | (Eof, t) => (Ok response, t)
           | (Byte b, t) => response_loop fuel (response ++ [b]) t
           | (Interrupted, t) => (Err ProxyInterrupted, t)
           | (Failed e, t) => (Err (ProxyIo e), t)
           end
  end.

(** Bytes that are UTF-8, as a text. *)
Definition read_http_proxy_response : M T ProxyError (list Z) :=
  response ← response_loop (Z.to_nat 8193) [];
  lift (ok_or (decode_utf8 response) ProxyNotUtf8).

Definition proxy_request (target_host : list Z) (target_port : Z) : list Z :=
  lit "CONNECT " ++ encode_chars target_host ++ ch ":" :: decimal target_port ++
  lit " HTTP/1.0" ++ blank_line.

Definition proxy_accepts (response : list Z) : bool :=
  starts_with response (lit "HTTP/1.0 200") || starts_with response (lit "HTTP/1.1 200").

(** [connect_http_proxy_with_options] behind the connection to the proxy. *)
Definition connect_http_proxy (target_host : list Z) (target_port : Z) : M T ProxyError unit :=
  with_err ProxyIo (write_all (proxy_request target_host target_port));;
  with_err ProxyIo flush;;
  response ← read_http_proxy_response;
  if proxy_accepts response then mret ()
  else throw (ProxyRefused (default [] (head (lines response)))).
End proxy.

Inductive ConnectError := BadProxyForm | BadProxyPort (port : list Z) | BadSockopts (e : SockoptError).

Definition parse_daemon_proxy (value : list Z) : result (list Z * Z) ConnectError :=
  match rsplit_once (ch ":") (trim value) with
  | None => Err BadProxyForm
  | Some (host, port) =>
      if bool_decide (host = []) || bool_decide (port = []) then Err BadProxyForm
      else
        let? number := ok_or (parse_unsigned 65535 port) (BadProxyPort port) in
        Ok (host, number)
  end.

(** [s.replace(from, to)] for a text [from] that is not empty; [skip] characters are still
    those of the last match. *)
Fixpoint replace_from (skip : nat) (from to s : list Z) : list Z :=
  match s with
  | [] => []
  | c :: s' =>
      match skip with
      | S skip => replace_from skip from to s'
      | O => if starts_with s from then to ++ replace_from (length from - 1) from to s'
             else c :: replace_from 0 from to s'
      end
  end.
Definition replace_text : list Z → list Z → list Z → list Z := replace_from 0.

Definition render_connect_prog (template host : list Z) (port : Z) : list Z :=
  replace_text (lit "%P") (decimal port) (replace_text (lit "%H") host template).

Definition shell_command_for_connect_prog (windows : bool) (command : list Z) :
    list Z * list (list Z) :=
  if windows then (lit "cmd", [lit "/C"; command]) else (lit "sh", [lit "-c"; command]).
End Connect.

(** ** What a POSIX shell reads *)

Inductive quoting := Unquoted | Single | Double.

(** Unquoted characters that are more than text, and those that are within double quotes. *)
Definition special_unquoted (c : Z) : bool :=
  existsb (Z.eqb c)
    [ch "|"; ch "&"; ch ";"; ch "<"; ch ">"; ch "("; ch ")"; ch "$"; ch "`"; ch "\"; 9; 10;
     ch "*"; ch "?"; ch "["; ch "]"; ch "#"; ch "~"; ch "="; ch "%"; ch "!"; ch "{"; ch "}"].
Definition special_in_double (c : Z) : bool :=
  existsb (Z.eqb c) [ch "$"; ch "`"; ch "\"; ch "!"].

(** The words of a command that means nothing but its words; [None] for any other. *)
Fixpoint posix_words_from (quoting : quoting) (word : option (list Z)) (command : list Z) :
    option (list (list Z)) :=
  match command with
  | [] =>
      match quoting with
      | Unquoted => Some (match word with Some word => [word] | None => [] end)
      | _ => None
      end
  | c :: command =>
      let text := Some (default [] word ++ [c]) in
      match quoting with
      | Single =>
          if c =? ch "'" then posix_words_from Unquoted word command
          else posix_words_from Single text command
      | Double =>
          if c =? 34 then posix_words_from Unquoted word command
          else if special_in_double c then None
          else posix_words_from Double text command
      | Unquoted =>
          if c =? ch " " then
            match word with
            | Some word => cons word <$> posix_words_from Unquoted None command
            | None => posix_words_from Unquoted None command
            end
          else if c =? ch "'" then posix_words_from Single (Some (default [] word)) command
          else if c =? 34 then posix_words_from Double (Some (default [] word)) command
          else if special_unquoted c then None
          else posix_words_from Unquoted text command
      end
  end.

Definition posix_words (command : list Z) : option (list (list Z)) :=
  posix_words_from Unquoted None command.

(** ** Both readers on quoted text *)

Definition ordinary (c : Z) : bool :=
  negb ((c =? ch " ") || (c =? ch "'") || (c =? 34) || (c =? ch "\") || special_unquoted c ||
        is_whitespace c).

Lemma plain_char_ordinary c : plain_char c = true → ordinary c = true.
Proof.
  intros Hc. assert (Hr : 0 ≤ c < 128).
  { unfold plain_char, is_ascii_alphanumeric, is_ascii_alphabetic, is_ascii_digit, in_range in Hc.
    cbn [existsb] in Hc.
    repeat (apply orb_prop in Hc as [Hc|Hc]);
      first [discriminate Hc | apply Z.eqb_eq in Hc as ->; done | lia]. }
  assert (Hb : implb (plain_char c) (ordinary c) = true) by by_range c 128%nat.
  by rewrite Hc in Hb.
Qed.

Lemma ordinary_reads c word s :
  ordinary c = true →
  posix_words_from Unquoted word (c :: s) =
    posix_words_from Unquoted (Some (default [] word ++ [c])) s
  ∧ ∀ current saw, parse_words (c :: s) current false false saw =
      parse_words s (current ++ [c]) false false true.
Proof.
  unfold ordinary. intros Hc.
  apply negb_true_iff in Hc. rewrite !orb_false_iff in Hc.
  destruct Hc as [[[[[H1 H2] H3] H4] H5] H6].
  split; [|intros]; cbn [posix_words_from parse_words].
  - by rewrite H1, H2, H3, H5.
  - by rewrite H2, H3, H4, H6.
Qed.

(** A text of ordinary characters is part of one word. *)
Lemma posix_plain value word s :
  forallb ordinary value = true →
  posix_words_from Unquoted (Some word) (value ++ s) =
  posix_words_from Unquoted (Some (word ++ value)) s.
Proof.
  revert word. induction value as [|c value IH]; intros word Hv; [by rewrite app_nil_r|].
  cbn [forallb] in Hv. apply andb_prop in Hv as [Hc Hv]. cbn [app].
  rewrite (proj1 (ordinary_reads _ _ _ Hc)). cbn [default]. rewrite IH by done.
  by rewrite <-app_assoc.
Qed.

Lemma parse_plain value current saw s :
  forallb ordinary value = true →
  parse_words (value ++ s) current false false saw =
  parse_words s (current ++ value) false false (saw || bool_decide (value ≠ [])).
Proof.
  revert current saw. induction value as [|c value IH]; intros current saw Hv.
  { by rewrite app_nil_r, bool_decide_false, orb_false_r by (by intros H). }
  cbn [forallb] in Hv. apply andb_prop in Hv as [Hc Hv]. cbn [app].
  rewrite (proj2 (ordinary_reads c None _ Hc)), IH by done.
  rewrite (bool_decide_true (c :: value ≠ [])), orb_true_r by done. by rewrite <-app_assoc.
Qed.

(** Quoted text within its quotes, up to the closing one. *)
Lemma posix_quoted value word s :
  posix_words_from Single (Some word) (concat (quote_char <$> value) ++ ch "'" :: s) =
  posix_words_from Unquoted (Some (word ++ value)) s.
Proof.
  revert word. induction value as [|c value IH]; intros word; [by rewrite app_nil_r|].
  cbn [fmap list_fmap concat]. rewrite <-app_assoc. unfold quote_char at 1.
  destruct (Z.eqb_spec c (ch "'")) as [->|Hc].
  - transitivity (posix_words_from Single (Some (word ++ [ch "'"]))
      (concat (quote_char <$> value) ++ ch "'" :: s)); [reflexivity|].
    rewrite IH. by rewrite <-app_assoc.
  - cbn [app posix_words_from]. rewrite (proj2 (Z.eqb_neq _ _) Hc). cbn [default].
    rewrite IH. by rewrite <-app_assoc.
Qed.

Lemma parse_quoted value current s :
  parse_words (concat (quote_char <$> value) ++ ch "'" :: s) current true false true =
  parse_words s (current ++ value) false false true.
Proof.
  revert current. induction value as [|c value IH]; intros current; [by rewrite app_nil_r|].
  cbn [fmap list_fmap concat]. rewrite <-app_assoc. unfold quote_char at 1.
  destruct (Z.eqb_spec c (ch "'")) as [->|Hc].
  - transitivity (parse_words (concat (quote_char <$> value) ++ ch "'" :: s)
      (current ++ [ch "'"]) true false true); [reflexivity|].
    rewrite IH. by rewrite <-app_assoc.
  - cbn [app parse_words]. rewrite (proj2 (Z.eqb_neq _ _) Hc). cbn [negb andb].
    rewrite !andb_false_r. cbn [andb]. rewrite IH. by rewrite <-app_assoc.
Qed.

Lemma plain_ordinary value : forallb plain_char value = true → forallb ordinary value = true.
Proof. rewrite !forallb_forall. intros Hv c Hc. by apply plain_char_ordinary, Hv. Qed.

(** One quoted argument is one word. *)
Lemma quoted_text_reads value s :
  posix_words_from Unquoted None (shell_quote value ++ s) =
    posix_words_from Unquoted (Some value) s
  ∧ parse_words (shell_quote value ++ s) [] false false false =
    parse_words s value false false true.
Proof.
  unfold shell_quote. case_bool_decide as Hne; [by subst|].
  destruct (forallb plain_char value) eqn:Hp.
  - apply plain_ordinary in Hp. split.
    + destruct value as [|c value]; [done|]. cbn [forallb] in Hp.
      apply andb_prop in Hp as [Hc Hv]. cbn [app].
      rewrite (proj1 (ordinary_reads _ _ _ Hc)). by rewrite posix_plain.
    + rewrite parse_plain by done. by rewrite bool_decide_true.
  - rewrite <-!app_assoc. cbn [lit app]. split.
    + apply (posix_quoted value []).
    + apply (parse_quoted value []).
Qed.

Lemma remote_args_read args filename_args word :
  posix_words_from Unquoted (Some word) (remote_args_from false filename_args args) =
  Some (word :: args).
Proof.
  revert filename_args word. induction args as [|arg args IH]; intros filename_args word; [done|].
  cbn [remote_args_from andb posix_words_from]. change (ch " " =? ch " ") with true. cbn iota.
  by rewrite (proj1 (quoted_text_reads _ _)), IH.
Qed.

(** What follows a complete command is read on its own. *)
Lemma posix_words_app quoting word s words s' :
  posix_words_from quoting word s = Some words →
  posix_words_from quoting word (s ++ ch " " :: s') =
  (words ++.) <$> posix_words_from Unquoted None s'.
Proof.
  revert quoting word words. induction s as [|c s IH]; intros quoting word words.
  - destruct quoting; [|done..]. cbn. destruct word as [word|]; intros [= <-].
    + by destruct (posix_words_from Unquoted None s').
    + by destruct (posix_words_from Unquoted None s').
  - cbn [app posix_words_from].
    destruct quoting; repeat (case_match; [by auto|] || case_match); try done; eauto.
    destruct (posix_words_from Unquoted None s) as [later|] eqn:Hs; [|done]. intros [= <-].
    rewrite (IH _ _ _ Hs). by destruct (posix_words_from Unquoted None s').
Qed.

(** The command handed to the remote shell is read by a POSIX shell as the words of
    the server's program (rsync, or what --rsync-path says, which may be several words)
    followed by exactly the arguments it was built from, whatever characters they hold: no
    argument is split, expanded or run. *)
Lemma remote_words program words args :
  posix_words program = Some words →
  posix_words (remote_server_command (program :: args) false) = Some (words ++ args).
Proof.
  unfold posix_words. cbn [remote_server_command]. intros Hp.
  destruct args as [|arg args].
  { cbn. by rewrite !app_nil_r. }
  cbn [remote_args_from andb]. rewrite (posix_words_app _ _ _ _ _ Hp).
  by rewrite (proj1 (quoted_text_reads _ _)), remote_args_read.
Qed.

Example sudo_rsync :
  posix_words (remote_server_command [lit "sudo rsync"; lit "--server"; lit "."; lit "it's $HOME"]
    false) = Some [lit "sudo"; lit "rsync"; lit "--server"; lit "."; lit "it's $HOME"].
Proof. vm_compute. reflexivity. Qed.

Lemma parse_args args word :
  parse_words (remote_args_from false false args) word false false true = Ok (word :: args).
Proof.
  generalize false at 2. revert word. induction args as [|arg args IH]; intros word filename; [done|].
  cbn [remote_args_from andb].
  transitivity (let? words := parse_words (shell_quote arg ++
      remote_args_from false (bool_decide (arg = lit ".") || filename) args)
      [] false false false in Ok (E := RemoteShellCommandParseError) (word :: words));
    [reflexivity|].
  by rewrite (proj2 (quoted_text_reads _ _)), IH.
Qed.

Lemma joined_args words filename :
  concat ((λ arg, ch " " :: shell_quote arg) <$> words) = remote_args_from false filename words.
Proof.
  revert filename. induction words as [|arg words IH]; intros filename; [done|].
  cbn [fmap list_fmap concat remote_args_from andb app]. by erewrite IH.
Qed.

Lemma join_args first words :
  join (lit " ") (first :: (shell_quote <$> words)) = first ++ remote_args_from false false words.
Proof.
  rewrite <-joined_args. revert first. induction words as [|arg words IH]; intros first.
  { cbn. by rewrite app_nil_r. }
  cbn [fmap list_fmap join concat]. f_equal. cbn [lit app]. f_equal. apply IH.
Qed.

(** The command the client displays is one that -e reads back: the same program with the
    same arguments. *)
Theorem displayed_command_is_read_back command :
  program command ≠ [] → forallb ordinary (program command) = true →
  parse_remote_shell_command (display_command command) = Ok (program command, args command).
Proof.
  intros Hne Ho. unfold parse_remote_shell_command, display_command.
  rewrite join_args, parse_plain by done. rewrite bool_decide_true by done.
  cbn [app orb]. by rewrite parse_args.
Qed.

Lemma displayed_command_is_read_back_witness :
  parse_remote_shell_command (display_command
    {| program := lit "ssh"; args := [lit "-o"; lit "User=it's me"; []; lit "host"];
       remote_command := lit "rsync" |}) =
  Ok (lit "ssh", [lit "-o"; lit "User=it's me"; []; lit "host"]).
Proof. rewrite displayed_command_is_read_back; [reflexivity|discriminate|reflexivity]. Defined.

(** ** Concrete commands *)

Example quoted_path :
  remote_command (build_ssh_remote_command (lit "ssh") (lit "u@h")
    [lit "rsync"; lit "--server"; lit "."; lit "path with spaces"; lit "quote'path"]) =
  lit "rsync --server . 'path with spaces' 'quote'" ++ [34] ++ lit "'" ++ [34] ++ lit "'path'".
Proof. vm_compute. reflexivity. Qed.

(** With --old-args the names are the shell's to read. *)
Example old_args_run :
  posix_words (remote_server_command [lit "rsync"; lit "--server"; lit "."; lit "a;b"] true) = None
  ∧ posix_words (remote_server_command [lit "rsync"; lit "--server"; lit "."; lit "a b"] true) =
    Some [lit "rsync"; lit "--server"; lit "."; lit "a"; lit "b"].
Proof. vm_compute. done. Qed.

Example family_for_ssh_only :
  (args <$> [build_ssh_remote_command_with_options (lit "C:\bin\SSH.EXE") (lit "h") [lit "rsync"]
               {| address_family := Some Ipv6; blocking_io := false; old_args := false |};
             build_remote_shell_command (lit "rsh") [] (lit "h") [lit "rsync"]
               {| address_family := Some Ipv6; blocking_io := false; old_args := false |}]) =
  [DEFAULT_SSH_OPTIONS ++ [lit "-6"; lit "h"; lit "rsync"]; [lit "h"; lit "rsync"]].
Proof. vm_compute. reflexivity. Qed.

(** The separators of a Windows path are escapes to the parser of -e. *)
Example windows_program_loses_separators :
  parse_remote_shell_command (lit "C:\OpenSSH\ssh.exe -p 22") =
  Ok (lit "C:OpenSSHssh.exe", [lit "-p"; lit "22"]).
Proof. vm_compute. reflexivity. Qed.

Example unbalanced :
  (parse_remote_shell_command (lit "ssh 'x"), parse_remote_shell_command (lit "ssh \"),
   parse_remote_shell_command (lit "  ")) =
  (Err UnterminatedQuote, Err IncompleteEscape, Err Empty).
Proof. vm_compute. reflexivity. Qed.

(** ** Connections *)

(** The address that is connected to is the first usable one that accepts. *)
Lemma connects_to_first {S E} (connect : Connect.IpAddr → Connect.Attempt S E) family bind_address
    addrs stream last_error :
  Connect.connect_loop connect family bind_address addrs last_error = Ok stream ↔
  ∃ before addr after, addrs = before ++ addr :: after ∧
    Connect.usable family bind_address addr = true ∧ connect addr = Connect.Connected stream ∧
    Forall (λ a, Connect.usable family bind_address a = true → ∃ e, connect a = Connect.Refused e) before.
Proof.
  split.
  - revert last_error. induction addrs as [|a addrs IH]; intros last_error Hc; [done|].
    cbn [Connect.connect_loop] in Hc. destruct (Connect.usable family bind_address a) eqn:Hu; cbn [negb] in Hc.
    + destruct (connect a) as [s|e|e] eqn:Ha; [|apply IH in Hc|done].
      * injection Hc as <-. by exists [], a, addrs.
      * destruct Hc as (before & addr & after & -> & Hua & Hca & Hb).
        exists (a :: before), addr, after. split_and!; try done. constructor; eauto.
    + apply IH in Hc as (before & addr & after & -> & Hua & Hca & Hb).
      exists (a :: before), addr, after. split_and!; try done. constructor; [|done]. congruence.
  - intros (before & addr & after & -> & Hu & Hc & Hb). revert last_error.
    induction Hb as [|a before Ha Hb IH]; intros last_error; cbn [app Connect.connect_loop].
    + by rewrite Hu, Hc.
    + destruct (Connect.usable family bind_address a); cbn [negb]; [|apply IH].
      destruct (Ha eq_refl) as [e ->]. apply IH.
Qed.

(** A proxy of this form is read as its host and port. *)
Lemma proxy_read_back host port :
  host ≠ [] → 0 ≤ port ≤ 65535 → tidy (host ++ ch ":" :: decimal port) →
  Connect.parse_daemon_proxy (host ++ ch ":" :: decimal port) = Ok (host, port).
Proof.
  intros Hh Hp Ht. unfold Connect.parse_daemon_proxy. rewrite trim_id by done.
  rewrite rsplit_once_app.
  - rewrite !bool_decide_false by (done || apply decimal_ne). cbn [orb].
    by rewrite parse_decimal by done.
  - intros Hin. pose proof (decimal_digits port ltac:(lia)) as Hd. rewrite forallb_forall in Hd.
    apply list_elem_of_In, Hd in Hin. done.
Qed.

Section proxy.
Context {T : Type} `{ReadByte T}.

(** The loop ends on any bytes: the response grows by one in each turn. *)
Lemma response_loop_ends fuel response t :
  Z.of_nat (length response) ≤ 8192 < Z.of_nat (fuel + length response) →
  (Connect.response_loop fuel response t).1 ≠ Err Connect.ProxyFuel.
Proof.
  revert response t. induction fuel as [|fuel IH]; intros response t Hf; [lia|].
  cbn [Connect.response_loop]. destruct (ends_with _ _); [done|].
  destruct (Z.leb_spec 8192 (Z.of_nat (length response))); [done|].
  destruct (read_byte t) as [[|b| |e] t']; try done. apply IH. rewrite length_app. cbn. lia.
Qed.
End proxy.

(** Of a stream the response is taken up to its blank line, and what the daemon sends behind
    it is still there. *)
Lemma response_leaves_the_rest response rest :
  ends_with response Connect.blank_line = true → Z.of_nat (length response) ≤ 8192 →
  (∀ n, (n < length response)%nat → ends_with (take n response) Connect.blank_line = false) →
  Connect.response_loop (Z.to_nat 8193) [] (response ++ rest) = (Ok response, rest).
Proof.
  intros He Hl Hb.
  assert (Hgo : ∀ fuel n, (n <= length response)%nat → (length response - n < fuel)%nat →
    Connect.response_loop fuel (take n response) (drop n response ++ rest) = (Ok response, rest)).
  { induction fuel as [|fuel IH]; intros n Hn Hf; [lia|]. cbn [Connect.response_loop].
    destruct (decide (n = length response)) as [->|Hne].
    - by rewrite firstn_all, He, drop_all.
    - rewrite Hb by lia. rewrite length_take_le by lia.
      rewrite (proj2 (Z.leb_gt 8192 (Z.of_nat n))) by lia.
      destruct (lookup_lt_is_Some_2 response n ltac:(lia)) as [b Hlook].
      rewrite (drop_S response b n) by done. cbn [app read_byte slice_read_byte].
      rewrite <-(take_S_r response n b) by done. apply IH; lia. }
  apply (Hgo _ 0%nat); lia.
Qed.

Example socket_options :
  Connect.parse (lit "TCP_NODELAY, so_keepalive=off,SO_SNDBUF=4096,,SO_SNDBUF=1") =
    Ok {| Connect.tcp_nodelay := Some true; Connect.keepalive := Some false;
          Connect.recv_buffer_size := None; Connect.send_buffer_size := Some 1 |} ∧
  Connect.parse (lit "SO_REUSEADDR") = Err (Connect.UnsupportedOption (lit "SO_REUSEADDR")).
Proof. vm_compute. done. Qed.

Example proxied :
  Connect.connect_http_proxy (T := duplex (list Z) (list Z)) (lit "h") 873
    (Duplex (lit "HTTP/1.0 200 OK" ++ [13; 10; 13; 10] ++ lit "@RSYNCD: 31.0") []) =
  (Ok (), Duplex (lit "@RSYNCD: 31.0") (lit "CONNECT h:873 HTTP/1.0" ++ [13; 10; 13; 10])).
Proof. vm_compute. reflexivity. Qed.

(** The name of the host is put into the text of a shell command as it is. *)
Example host_names_a_command :
  Connect.shell_command_for_connect_prog false
    (Connect.render_connect_prog (lit "nc %H %P") (lit "h;reboot;#%P") 873) =
  (lit "sh", [lit "-c"; lit "nc h;reboot;#873 873"]).
Proof. vm_compute. reflexivity. Qed.
