(* ===== verification/Plan.v ===== *)
(** * The plan of a transfer: rsync-cli/src/plan and execute/remote_shell.rs

    What the command line amounts to: filters, metadata, modes, the server's options, the
    command of the remote shell, and the diagnostics.  A function that takes the report
    [&mut Report] gives the diagnostics it adds next to its value.  The files of
    --include-from and --exclude-from are what [read_file] says; a path made of an argument
    is the argument's text, and a message keeps [{err}] for an error of another part. *)

From S2P Require Import Prelude Stream Str Text Filter Chmod Session RemoteArgs Daemon DaemonConfig DaemonClient FsPath Metadata StopAt FileSystem SyncPlan Values TransferSums Core RemoteShell Cli.

(** [fs::read] *)
Class Files := read_file : list Z → option (list Z).

Definition on (asked : bool) (diagnostic : Diagnostic) : Report :=
  if asked then [diagnostic] else [].
Definition on_some {A} (value : option A) (f : A → Diagnostic) : Report :=
  match value with Some value => [f value] | None => [] end.

(** ** Filters *)

Definition CVS_EXCLUDE_PATTERNS : list (list Z) :=
  lit <$> ["RCS"; "SCCS"; "CVS"; "CVS.adm"; "RCSLOG"; "cvslog.*"; "tags"; "TAGS"; ".make.state";
           ".nse_depinfo"; "*~"; "#*"; ".#*"; ",*"; "_$*"; "*$"; "*.old"; "*.bak"; "*.BAK";
           "*.orig"; "*.rej"; ".del-*"; "*.a"; "*.olb"; "*.o"; "*.obj"; "*.so"; "*.exe"; "*.Z";
           "*.elc"; "*.ln"; "core"; ".svn"; ".git"; ".hg"; ".bzr"]%string.

Definition filter_error (message : string) : Diagnostic :=
  diagnostic Error "E_FILTER" (lit message).

Definition filter_rule_can_use_short_arg (rule : Rule) : bool :=
  sender_side rule && receiver_side rule && negb (perishable rule).

(** [rule.pattern().raw()], of the rules that have a pattern. *)
Definition pattern_raw (rule : Rule) : list Z :=
  match pattern rule with Some pattern => raw pattern | None => [] end.

Definition rule_marker (action : RuleAction) : list Z :=
  match action with
  | Include => lit "+"
  | Exclude => lit "-"
  | Hide => lit "H"
  | Show => lit "S"
  | Protect => lit "P"
  | Risk => lit "R"
  | ClearList => lit "!"
  | Merge => lit "."
  | DirMerge => lit ":"
  end.

Definition rule_modifiers (rule : Rule) : list Z :=
  (if sender_side rule && negb (receiver_side rule) then lit "s"
   else if receiver_side rule && negb (sender_side rule) then lit "r" else []) ++
  (if perishable rule then lit "p" else []).

Definition format_remote_filter_rule (rule : Rule) : list Z :=
  if bool_decide (Filter.action rule = ClearList) then lit "!"
  else
    let modifiers := rule_modifiers rule in
    rule_marker (Filter.action rule) ++
    (if bool_decide (modifiers = []) then [] else ch "," :: modifiers) ++
    lit " " ++ pattern_raw rule.

(** The values of --include, of --exclude and of --filter. *)
Definition filter_args : Type := list (list Z) * list (list Z) * list (list Z).

Definition add_remote_filter_rule_arg (args : filter_args) (rule : Rule) : filter_args :=
  let '(includes, excludes, filters) := args in
  if bool_decide (Filter.action rule = Include) && filter_rule_can_use_short_arg rule
  then (includes ++ [pattern_raw rule], excludes, filters)
  else if bool_decide (Filter.action rule = Exclude) && filter_rule_can_use_short_arg rule
  then (includes, excludes ++ [pattern_raw rule], filters)
  else (includes, excludes, filters ++ [format_remote_filter_rule rule]).

Section filters.
Context `{Files}.

Definition add_remote_filter_file_args (from0 : bool) (default_action : RuleAction)
    (args : filter_args) (path : list Z) : filter_args :=
  match read_file path with
  | None => args
  | Some bytes =>
      match parse_filter_file bytes from0 default_action with
      | Ok rules => foldl add_remote_filter_rule_arg args rules
      | Err _ => args
      end
  end.

Definition remote_receiver_filter_args_from_cli (cli : Cli) : filter_args :=
  let args :=
    (includes cli, excludes cli ++ (if cvs_exclude cli then CVS_EXCLUDE_PATTERNS else []),
     filters cli) in
  let args := foldl (add_remote_filter_file_args (from0 cli) Include) args (include_from cli) in
  foldl (add_remote_filter_file_args (from0 cli) Exclude) args (exclude_from cli).

(** One rule of the command line, or the error reported in its place. *)
Definition rule_or_error (message : string) (rule : result Rule ParseRuleError)
    (state : RuleSet * Report) : RuleSet * Report :=
  let '(rules, report) := state in
  match rule with
  | Ok rule => (push_rule rules rule, report)
  | Err _ => (rules, report ++ [filter_error message])
  end.

Definition add_filter_rules (message : string) (new : list Z → result Rule ParseRuleError)
    (patterns : list (list Z)) (state : RuleSet * Report) : RuleSet * Report :=
  foldl (λ state pattern, rule_or_error message (new pattern) state) state patterns.

Definition add_filter_file_rules (from0 : bool) (default_action : RuleAction)
    (state : RuleSet * Report) (path : list Z) : RuleSet * Report :=
  let '(rules, report) := state in
  match read_file path with
  | Some bytes =>
      match parse_filter_file bytes from0 default_action with
      | Ok parsed => (foldl push_rule rules parsed, report)
      | Err _ => (rules, report ++ [diagnostic Error "E_FILTER"
                   (lit "invalid filter file " ++ path ++ lit ": {err}")])
      end
  | None => (rules, report ++ [diagnostic Error "E_FILTER"
              (lit "could not read filter file " ++ path ++ lit ": {err}")])
  end.

Definition build_filter_rules (cli : Cli) : RuleSet * Report :=
  let state := ([], []) in
  let state := if cvs_exclude cli
               then add_filter_rules "invalid CVS exclude pattern: {err}" exclude
                      CVS_EXCLUDE_PATTERNS state
               else state in
  let state := add_filter_rules "invalid include pattern: {err}" include (includes cli) state in
  let state := foldl (add_filter_file_rules (from0 cli) Include) state (include_from cli) in
  let state := add_filter_rules "invalid exclude pattern: {err}" exclude (excludes cli) state in
  let state := foldl (add_filter_file_rules (from0 cli) Exclude) state (exclude_from cli) in
  add_filter_rules "invalid filter rule: {err}" parse_filter (filters cli) state.
End filters.

(** ** Modes *)

Definition update_mode_from_cli (cli : Cli) : UpdateMode :=
  if ignore_times cli then IgnoreTimes
  else if checksum cli then Checksum
  else if size_only cli then SizeOnly
  else QuickCheck.

Definition symlink_mode_from_cli (cli : Cli) : SymlinkMode :=
  if no_links cli then Skip
  else if copy_links cli then CopyAll
  else if copy_dirlinks cli then CopyDirLinks
  else if copy_unsafe_links cli then CopyUnsafe
  else if safe_links cli then SafeOnly
  else if munge_links cli then Munge
  else if links cli || archive cli then Preserve
  else Skip.

Definition cli_preserve_permissions (cli : Cli) : bool :=
  (preserve_permissions cli || archive cli) && negb (no_permissions cli).
Definition cli_preserve_owner (cli : Cli) : bool :=
  preserve_owner cli || (archive cli && negb (no_owner cli)).
Definition cli_preserve_group (cli : Cli) : bool :=
  preserve_group cli || (archive cli && negb (no_group cli)).

Definition incremental_recursion_from_cli (cli : Cli) (recursive : bool) : bool :=
  recursive && inc_recursive cli && negb (no_inc_recursive cli).

Definition remote_delete_mode (delete : bool) (delete_mode : DeleteMode) : RemoteDeleteMode :=
  match (if bool_decide (delete_mode ≠ NoDelete) then delete_mode
         else if delete then During else NoDelete) with
  | NoDelete => RemoteArgs.NoDelete
  | Before => RemoteArgs.Before
  | During => RemoteArgs.During
  | Delay => RemoteArgs.Delay
  | After => RemoteArgs.After
  end.

Definition remote_delete_mode_from_cli (cli : Cli) : RemoteDeleteMode :=
  remote_delete_mode (delete cli) (delete_mode cli).

(** [RsyncDeflatedTokenMode::remote_choice] *)
Definition remote_choice (mode : RsyncDeflatedTokenMode) : list Z :=
  match mode with TokensZlib => lit "zlib" | TokensZlibx => lit "zlibx" end.

Definition remote_compress_choice_for_argv (compress : bool) (choice : option (list Z)) :
    option (list Z) :=
  if negb compress then None
  else match from_choice choice with
  | Ok mode => Some (remote_choice mode)
  | Err _ => choice
  end.

Definition split_option_list (value : list Z) : list (list Z) :=
  to_ascii_lowercase <$>
    List.filter (λ item, bool_decide (item ≠ []))
      (trim <$> split_by (λ c, (c =? ch ",") || is_ascii_whitespace c) value).

(** ** Metadata *)

Definition cli_preserve_devices (cli : Cli) : bool :=
  (devices cli || archive cli || copy_devices cli || write_devices cli) && negb (no_devices cli).
Definition cli_preserve_specials (cli : Cli) : bool :=
  (specials cli || archive cli) && negb (no_specials cli).

(** ** The options of the server *)

Section options.
Context `{Files}.

Definition remote_shell_options_from_cli (cli : Cli) (direction : TransferDirection)
    (recursive preserve_times : bool) (symlink_mode : SymlinkMode) : RemoteShellOptions :=
  let '(includes, excludes, filters) := remote_receiver_filter_args_from_cli cli in
  let push := bool_decide (direction = Push) in
  let pull := bool_decide (direction = Pull) in
  let is_mode mode := bool_decide (symlink_mode = mode) in
  {| RemoteArgs.rsync_path := default (lit "rsync") (rsync_path cli);
     RemoteArgs.direction := direction; RemoteArgs.secluded_args := secluded_args cli;
     RemoteArgs.recursive := recursive;
     RemoteArgs.incremental_recursion := pull && incremental_recursion_from_cli cli recursive;
     RemoteArgs.preserve_times := preserve_times;
     RemoteArgs.delete_mode := remote_delete_mode_from_cli cli;
     RemoteArgs.dry_run := dry_run cli;
     RemoteArgs.whole_file := whole_file cli && negb (push && append_verify cli);
     RemoteArgs.verbosity := verbosity cli;
     RemoteArgs.preserve_permissions := cli_preserve_permissions cli;
     RemoteArgs.use_checksum := checksum cli; RemoteArgs.checksum_choice := checksum_choice cli;
     RemoteArgs.checksum_seed_option := checksum_seed cli;
     RemoteArgs.size_only := push && size_only cli;
     RemoteArgs.ignore_times := push && ignore_times cli;
     RemoteArgs.partial := push && partial cli;
     RemoteArgs.partial_dir := if push then partial_dir cli else None;
     RemoteArgs.inplace := push && inplace cli;
     RemoteArgs.append_verify := push && append_verify cli;
     RemoteArgs.executability := push && executability cli;
     RemoteArgs.owner := push && cli_preserve_owner cli;
     RemoteArgs.group := push && cli_preserve_group cli;
     RemoteArgs.numeric_ids_option := push && numeric_ids cli;
     RemoteArgs.user_maps := if push then user_maps cli else [];
     RemoteArgs.group_maps := if push then group_maps cli else [];
     RemoteArgs.chown := if push then chown cli else None;
     RemoteArgs.chmod_option := if push then chmod cli else None;
     RemoteArgs.acls_option := push && acls cli; RemoteArgs.xattrs_option := push && xattrs cli;
     RemoteArgs.fake_super_option := push && fake_super cli;
     RemoteArgs.atimes_option := push && atimes cli;
     RemoteArgs.crtimes_option := push && crtimes cli;
     RemoteArgs.omit_dir_times := omit_dir_times cli;
     RemoteArgs.omit_link_times := omit_link_times cli;
     RemoteArgs.preserve_links := push && is_mode Preserve && (links cli || archive cli);
     RemoteArgs.copy_links := pull && is_mode CopyAll;
     RemoteArgs.copy_dirlinks := is_mode CopyDirLinks;
     RemoteArgs.keep_dirlinks := keep_dirlinks cli;
     RemoteArgs.safe_links := push && is_mode SafeOnly;
     RemoteArgs.copy_unsafe_links := pull && is_mode CopyUnsafe;
     RemoteArgs.munge_links := is_mode Munge; RemoteArgs.hard_links := hard_links cli;
     RemoteArgs.preserve_devices := cli_preserve_devices cli;
     RemoteArgs.preserve_specials := cli_preserve_specials cli;
     RemoteArgs.copy_devices := copy_devices cli; RemoteArgs.write_devices := write_devices cli;
     RemoteArgs.block_size := block_size cli; RemoteArgs.compress := compress cli;
     RemoteArgs.compress_choice := remote_compress_choice_for_argv (compress cli) (compress_choice cli);
     RemoteArgs.compress_level := compress_level cli;
     RemoteArgs.compress_threads := compress_threads cli;
     RemoteArgs.skip_compress := skip_compress cli; RemoteArgs.outbuf := outbuf cli;
     RemoteArgs.remote_options := remote_options cli; RemoteArgs.includes := includes;
     RemoteArgs.excludes := excludes; RemoteArgs.filters := filters |}.

(** A pull from a daemon also says what a pull over a remote shell keeps to itself. *)
Definition daemon_remote_shell_options_from_cli (cli : Cli) (direction : TransferDirection)
    (recursive preserve_times : bool) (symlink_mode : SymlinkMode) : RemoteShellOptions :=
  let options :=
    remote_shell_options_from_cli cli direction recursive preserve_times symlink_mode in
  let pull := bool_decide (direction = Pull) in
  {| RemoteArgs.rsync_path := RemoteArgs.rsync_path options;
     RemoteArgs.direction := RemoteArgs.direction options;
     RemoteArgs.secluded_args := RemoteArgs.secluded_args options;
     RemoteArgs.recursive := RemoteArgs.recursive options;
     RemoteArgs.incremental_recursion := RemoteArgs.incremental_recursion options;
     RemoteArgs.preserve_times := RemoteArgs.preserve_times options;
     RemoteArgs.delete_mode := RemoteArgs.delete_mode options;
     RemoteArgs.dry_run := RemoteArgs.dry_run options;
     RemoteArgs.whole_file := RemoteArgs.whole_file options;
     RemoteArgs.verbosity := RemoteArgs.verbosity options;
     RemoteArgs.preserve_permissions := RemoteArgs.preserve_permissions options;
     RemoteArgs.use_checksum := RemoteArgs.use_checksum options;
     RemoteArgs.checksum_choice := RemoteArgs.checksum_choice options;
     RemoteArgs.checksum_seed_option := RemoteArgs.checksum_seed_option options;
     RemoteArgs.size_only := RemoteArgs.size_only options;
     RemoteArgs.ignore_times := RemoteArgs.ignore_times options;
     RemoteArgs.partial := RemoteArgs.partial options;
     RemoteArgs.partial_dir := RemoteArgs.partial_dir options;
     RemoteArgs.inplace := RemoteArgs.inplace options;
     RemoteArgs.append_verify := RemoteArgs.append_verify options;
     RemoteArgs.executability := if pull then executability cli else RemoteArgs.executability options;
     RemoteArgs.owner := if pull then cli_preserve_owner cli else RemoteArgs.owner options;
     RemoteArgs.group := if pull then cli_preserve_group cli else RemoteArgs.group options;
     RemoteArgs.numeric_ids_option := if pull then numeric_ids cli else RemoteArgs.numeric_ids_option options;
     RemoteArgs.user_maps := if pull then user_maps cli else RemoteArgs.user_maps options;
     RemoteArgs.group_maps := if pull then group_maps cli else RemoteArgs.group_maps options;
     RemoteArgs.chown := if pull then chown cli else RemoteArgs.chown options;
     RemoteArgs.chmod_option := if pull then chmod cli else RemoteArgs.chmod_option options;
     RemoteArgs.acls_option := if pull then acls cli else RemoteArgs.acls_option options;
     RemoteArgs.xattrs_option := (if pull then fake_super cli else fake_super_option options) || (if pull then xattrs cli else xattrs_option options);
     RemoteArgs.fake_super_option := if pull then fake_super cli else RemoteArgs.fake_super_option options;
     RemoteArgs.atimes_option := if pull then atimes cli else RemoteArgs.atimes_option options;
     RemoteArgs.crtimes_option := if pull then crtimes cli else RemoteArgs.crtimes_option options;
     RemoteArgs.omit_dir_times := RemoteArgs.omit_dir_times options;
     RemoteArgs.omit_link_times := RemoteArgs.omit_link_times options;
     RemoteArgs.preserve_links := RemoteArgs.preserve_links options;
     RemoteArgs.copy_links := RemoteArgs.copy_links options;
     RemoteArgs.copy_dirlinks := RemoteArgs.copy_dirlinks options;
     RemoteArgs.keep_dirlinks := RemoteArgs.keep_dirlinks options;
     RemoteArgs.safe_links := RemoteArgs.safe_links options;
     RemoteArgs.copy_unsafe_links := RemoteArgs.copy_unsafe_links options;
     RemoteArgs.munge_links := RemoteArgs.munge_links options;
     RemoteArgs.hard_links := RemoteArgs.hard_links options;
     RemoteArgs.preserve_devices := RemoteArgs.preserve_devices options;
     RemoteArgs.preserve_specials := RemoteArgs.preserve_specials options;
     RemoteArgs.copy_devices := RemoteArgs.copy_devices options;
     RemoteArgs.write_devices := RemoteArgs.write_devices options;
     RemoteArgs.block_size := RemoteArgs.block_size options;
     RemoteArgs.compress := RemoteArgs.compress options;
     RemoteArgs.compress_choice := RemoteArgs.compress_choice options;
     RemoteArgs.compress_level := RemoteArgs.compress_level options;
     RemoteArgs.compress_threads := RemoteArgs.compress_threads options;
     RemoteArgs.skip_compress := RemoteArgs.skip_compress options;
     RemoteArgs.outbuf := RemoteArgs.outbuf options;
     RemoteArgs.remote_options := RemoteArgs.remote_options options;
     RemoteArgs.includes := RemoteArgs.includes options;
     RemoteArgs.excludes := RemoteArgs.excludes options;
     RemoteArgs.filters := RemoteArgs.filters options |}.
End options.

(** ** What a transfer loses of the metadata *)

Definition policy_of (policy : CliMetadataPolicy) : MetadataPolicy :=
  match policy with
  | CliPortable => Portable
  | CliPosix => Posix
  | CliNtfsNative => NtfsNative
  end.

(** format/actions.rs *)
Definition metadata_code (feature : MetadataFeature) (severity : Severity) : string :=
  if bool_decide (severity = Error) then
    match feature with
    | Owner => "E_METADATA_OWNER"
    | Group => "E_METADATA_GROUP"
    | Device | SpecialFile => "E_METADATA_DEVICE"
    | Symlink => "E_METADATA_SYMLINK"
    | Permissions => "E_METADATA_PERMISSIONS"
    | _ => "E_METADATA_LOSS"
    end
  else
    match feature with
    | Owner => "W_METADATA_OWNER"
    | Group => "W_METADATA_GROUP"
    | Device | SpecialFile => "W_METADATA_DEVICE"
    | Symlink => "W_METADATA_SYMLINK"
    | Permissions => "W_METADATA_PERMISSIONS"
    | _ => "W_METADATA_LOSS"
    end.

Definition degradation_diagnostic (fail_on_loss : bool) (degradation : MetadataDegradation) :
    Diagnostic :=
  let severity := if fail_on_loss && is_loss degradation then Error else Warning in
  diagnostic severity (metadata_code (feature degradation) severity)
    (feature_label (feature degradation) ++ lit " metadata " ++
     action_label (Core.action degradation) ++ lit ": " ++ degradation_message degradation).

Definition add_metadata_degradations (degradations : list MetadataDegradation)
    (fail_on_loss : bool) : Report :=
  degradation_diagnostic fail_on_loss <$> degradations.

Definition archive_mode_degradations_for_cli (cli : Cli) (policy : MetadataPolicy) :
    list MetadataDegradation :=
  List.filter (λ degradation,
    negb (no_permissions cli && bool_decide (feature degradation = Permissions)
          || no_owner cli && bool_decide (feature degradation = Owner)
          || no_group cli && bool_decide (feature degradation = Group)
          || no_devices cli && bool_decide (feature degradation = Device)
          || no_specials cli && bool_decide (feature degradation = SpecialFile)))
    (archive_mode_degradations policy).

(** The degradations of a policy that no other option makes good. *)
Definition policy_degradations_for_cli (cli : Cli) (policy : MetadataPolicy) :
    list MetadataDegradation :=
  let degradations := metadata_policy_degradations policy in
  if bool_decide (policy = NtfsNative) then
    List.filter (λ degradation,
      negb (super_flag cli && bool_decide (feature degradation = SecurityDescriptor)
            || sparse cli && bool_decide (feature degradation = SparseFile))) degradations
  else degradations.

Definition posix_metadata_request_from_cli (cli : Cli) : PosixMetadataRequest :=
  {| permissions := cli_preserve_permissions cli; owner := cli_preserve_owner cli;
     group := cli_preserve_group cli; Core.numeric_ids := numeric_ids cli;
     Core.chmod := is_some (chmod cli); Core.executability := executability cli;
     symlink_mtime := archive cli && negb (omit_link_times cli); Core.acls := acls cli;
     Core.xattrs := xattrs cli; Core.fake_super := fake_super cli; Core.atimes := atimes cli;
     Core.crtimes := crtimes cli; Core.omit_dir_times := omit_dir_times cli;
     user_map := bool_decide (user_maps cli ≠ []);
     group_map := bool_decide (group_maps cli ≠ []); Core.chown := is_some (chown cli) |}.

(** Over a remote shell a POSIX receiver keeps what a push asks for. *)
Definition posix_metadata_degradations_for_plan (cli : Cli) (policy : MetadataPolicy)
    (remote_direction daemon_direction : option TransferDirection) : list MetadataDegradation :=
  let request := posix_metadata_request_from_cli cli in
  let request :=
    if bool_decide (daemon_direction = None) && bool_decide (remote_direction = Some Push) then
      {| permissions := permissions request; owner := false; group := false;
         Core.numeric_ids := Core.numeric_ids request; Core.chmod := false;
         Core.executability := false; symlink_mtime := symlink_mtime request;
         Core.acls := false; Core.xattrs := false; Core.fake_super := false;
         Core.atimes := false; Core.crtimes := false; Core.omit_dir_times := false;
         user_map := false; group_map := false; Core.chown := false |}
    else request in
  degradations request policy.

Definition parse_chmod_rules (cli : Cli) : option ChmodRules * Report :=
  match chmod cli with
  | None => (None, [])
  | Some chmod =>
      match from_str chmod with
      | Ok rules => (Some rules, [])
      | Err _ => (None, [diagnostic Error "E_CHMOD" (lit "{err}")])
      end
  end.

(** ** Diagnostics of options *)

Definition represented_options (cli : Cli) : list (bool * string) :=
  [(compress cli, "-z/--compress");
   (partial cli, "--partial");
   (inplace cli, "--inplace");
   (append_verify cli, "--append-verify");
   (copy_links cli, "--copy-links");
   (copy_dirlinks cli, "--copy-dirlinks");
   (keep_dirlinks cli, "--keep-dirlinks");
   (safe_links cli, "--safe-links");
   (copy_unsafe_links cli, "--copy-unsafe-links");
   (munge_links cli, "--munge-links");
   (hard_links cli, "--hard-links");
   (devices cli, "--devices");
   (specials cli, "--specials");
   (copy_devices cli, "--copy-devices");
   (write_devices cli, "--write-devices");
   (preserve_permissions cli, "--perms");
   (preserve_owner cli, "--owner");
   (preserve_group cli, "--group");
   (executability cli, "--executability");
   (acls cli, "--acls");
   (xattrs cli, "--xattrs");
   (fake_super cli, "--fake-super");
   (atimes cli, "--atimes");
   (crtimes cli, "--crtimes");
   (omit_dir_times cli, "--omit-dir-times");
   (omit_link_times cli, "--omit-link-times");
   (vss cli, "--vss");
   (no_owner cli, "--no-o");
   (no_group cli, "--no-g")].

Definition represented (cli : Cli) : Report :=
  concat ((λ '(enabled, flag), on enabled (diagnostic Info "I_OPTION_PARSED"
    (lit flag ++ lit " is represented in the execution plan"))) <$> represented_options cli).

Definition option_diagnostics (cli : Cli) : Report :=
  ((λ value, diagnostic Info "I_OPTION_PARSED"
    (lit "--usermap=" ++ value ++ lit " is represented in the execution plan")) <$> user_maps cli) ++
  ((λ value, diagnostic Info "I_OPTION_PARSED"
    (lit "--groupmap=" ++ value ++ lit " is represented in the execution plan")) <$> group_maps cli) ++
  on_some (chown cli) (λ value, diagnostic Info "I_OPTION_PARSED"
    (lit "--chown=" ++ value ++ lit " is represented in the execution plan")) ++
  on_some (checksum_choice cli) (λ value, diagnostic Info "I_OPTION_PARSED"
    (lit "--checksum-choice=" ++ value ++ lit " is represented in the execution plan")) ++
  on_some (checksum_seed cli) (λ value, diagnostic Info "I_OPTION_PARSED"
    (lit "--checksum-seed=" ++ decimal value ++ lit " is represented in the execution plan")) ++
  on_some (compress_choice cli) (λ value, diagnostic Info "I_OPTION_PARSED"
    (lit "--compress-choice=" ++ value ++ lit " is represented in the execution plan")) ++
  on_some (compress_level cli) (λ value, diagnostic Info "I_OPTION_PARSED"
    (lit "--compress-level=" ++ decimal value ++ lit " is represented in the execution plan")) ++
  on_some (compress_threads cli) (λ value, diagnostic Info "I_OPTION_PARSED"
    (lit "--compress-threads=" ++ decimal value ++ lit " is represented in the execution plan")) ++
  ((λ value, diagnostic Info "I_OPTION_PARSED"
    (lit "--skip-compress=" ++ value ++ lit " is represented in the execution plan")) <$> skip_compress cli) ++
  on_some (remote_shell cli) (λ value, diagnostic Info "I_REMOTE_SHELL"
    (lit "-e/--rsh remote shell command: " ++ value)) ++
  on_some (rsync_path cli) (λ value, diagnostic Info "I_REMOTE_RSYNC_PATH"
    (lit "--rsync-path remote program: " ++ value)) ++
  on (blocking_io cli) (diagnostic Info "I_REMOTE_BLOCKING_IO"
    (lit "--blocking-io requested; child process transport uses blocking stdio")) ++
  on (old_args cli) (diagnostic Info "I_REMOTE_ARGS"
    (lit "--old-args requested; remote filename args use legacy shell splitting and sender arg names are trusted")) ++
  on (secluded_args cli) (diagnostic Info "I_REMOTE_ARGS"
    (lit "--secluded-args requested; remote filename args are sent in the protected pre-handshake arg stream")) ++
  on (trust_sender cli) (diagnostic Info "I_TRUST_SENDER"
    (lit "--trust-sender disables strict sender file-list claim validation but keeps destination path safety checks")) ++
  on (ipv4 cli || ipv6 cli) (diagnostic Info "I_REMOTE_ADDRESS_FAMILY"
    (if ipv4 cli then lit "--ipv4 selects ssh -4 for remote-shell transport"
     else lit "--ipv6 selects ssh -6 for remote-shell transport")) ++
  on_some (partial_dir cli) (λ value, diagnostic Info "I_OPTION_PARSED"
    (lit "--partial-dir=" ++ value ++ lit " is represented in the execution plan")) ++
  ((λ value, diagnostic Warning "W_UNIMPLEMENTED_OPTION"
    (value ++ lit " is accepted for rsync option compatibility but has no behavior in this build yet")) <$> accepted_unsupported_options cli).

Definition local_option_diagnostics (cli : Cli) : Report :=
  ((λ value, diagnostic Info "I_OPTION_PARSED"
    (lit "--compare-dest=" ++ value ++ lit " is represented in the execution plan")) <$> compare_dest cli) ++
  ((λ value, diagnostic Info "I_OPTION_PARSED"
    (lit "--copy-dest=" ++ value ++ lit " is represented in the execution plan")) <$> copy_dest cli) ++
  ((λ value, diagnostic Info "I_OPTION_PARSED"
    (lit "--link-dest=" ++ value ++ lit " is represented in the execution plan")) <$> link_dest cli) ++
  on (sparse cli) (diagnostic Info "I_OPTION_PARSED"
    (lit "--sparse is represented in the execution plan; sparse file creation requested on Windows where FSCTL_SET_SPARSE_FILE is supported")) ++
  on (preallocate cli) (diagnostic Info "I_OPTION_PARSED"
    (lit "--preallocate is represented in the execution plan; preallocation uses SetFileInformationByHandle on Windows")) ++
  on (fuzzy cli) (diagnostic Info "I_OPTION_PARSED"
    (lit "--fuzzy is represented in the execution plan; basis-file search uses best-effort name similarity")) ++
  on_some (copy_as cli) (λ value, diagnostic Info "I_OPTION_PARSED"
    (lit "--copy-as=" ++ value ++ lit " is parsed as a destination user identity; local Windows copies run as the current user unless run elevated")) ++
  on (super_flag cli) (diagnostic Info "I_OPTION_PARSED"
    (lit "--super receiver attempts super-user activities where the platform permits")) ++
  on_some (write_batch cli) (λ value, diagnostic Info "I_OPTION_PARSED"
    (lit "--write-batch=" ++ value ++ lit " will record transfer metadata for replay")) ++
  on_some (only_write_batch cli) (λ value, diagnostic Info "I_OPTION_PARSED"
    (lit "--only-write-batch=" ++ value ++ lit " will record transfer metadata without updating the destination")) ++
  on_some (read_batch cli) (λ value, diagnostic Info "I_OPTION_PARSED"
    (lit "--read-batch=" ++ value ++ lit " will replay a recorded transfer")) ++
  on_some (bwlimit cli) (λ value, diagnostic Info "I_OPTION_PARSED"
    (lit "--bwlimit=" ++ value ++ lit " bandwidth limiting will be applied to the transfer")) ++
  on_some (timeout_secs cli) (λ value, diagnostic Info "I_OPTION_PARSED"
    (lit "--timeout=" ++ decimal value ++ lit " sets I/O timeout in seconds during transfer")) ++
  on_some (stop_after_minutes cli) (λ value, diagnostic Info "I_OPTION_PARSED"
    (lit "--stop-after=" ++ decimal value ++ lit " will stop the transfer after the specified number of minutes")) ++
  on_some (time_limit_minutes cli) (λ value, diagnostic Info "I_OPTION_PARSED"
    (lit "--time-limit=" ++ decimal value ++ lit " sets a maximum runtime for the transfer")) ++
  on_some (stop_at cli) (λ value, diagnostic Info "I_OPTION_PARSED"
    (lit "--stop-at=" ++ value ++ lit " will stop the transfer at the specified wall-clock time")) ++
  on_some (max_alloc cli) (λ value, diagnostic Info "I_OPTION_PARSED"
    (lit "--max-alloc=" ++ value ++ lit " caps the largest single memory allocation during the transfer")) ++
  on_some (early_input cli) (λ value, diagnostic Info "I_OPTION_PARSED"
    (lit "--early-input=" ++ value ++ lit " provides pre-seed data to send before the file list")) ++
  on_some (outbuf cli) (λ value, diagnostic Info "I_OPTION_PARSED"
    (lit "--outbuf=" ++ value ++ lit " sets output buffering mode")) ++
  on_some (protocol_version cli) (λ value, diagnostic Info "I_OPTION_PARSED"
    (lit "--protocol=" ++ decimal value ++ lit " constrains protocol version negotiation")) ++
  on_some (iconv cli) (λ value, diagnostic Warning "W_ICONV_UNAVAILABLE"
    (lit "--iconv=" ++ value ++ lit " charset conversion is not available on this platform; filenames are transferred as-is")) ++
  on (open_noatime cli) (diagnostic Info "I_OPTION_PARSED"
    (lit "--open-noatime requested; O_NOATIME is not available on Windows, files are opened with normal access time semantics")).

Definition add_explicit_option_diagnostics (cli : Cli) : Report :=
  on (numeric_ids cli) (diagnostic Warning "W_UNSUPPORTED_OPTION"
    (lit "--numeric-ids is parsed as an owner/group id mapping modifier; it has no local effect unless owner/group preservation is requested")) ++
  on (match chmod cli with Some chmod => is_ok (from_str chmod) | None => false end)
    (diagnostic Info "I_OPTION_PARSED"
    (lit "--chmod is applied to POSIX mode bits for remote uploads; local Windows destinations do not chmod files")) ++
  represented cli ++ option_diagnostics cli ++ local_option_diagnostics cli.

Definition link_modes (cli : Cli) : nat :=
  length (List.filter id [links cli; copy_links cli; copy_dirlinks cli; copy_unsafe_links cli;
                          safe_links cli; munge_links cli]).

Definition add_option_conflict_diagnostics (cli : Cli) : Report :=
  on (match min_size cli, max_size cli with
      | Some min_size, Some max_size => max_size <? min_size
      | _, _ => false
      end) (diagnostic Error "E_OPTION_CONFLICT"
    (lit "--min-size cannot be greater than --max-size")) ++
  on (ignore_missing_args cli && delete_missing_args cli) (diagnostic Error "E_OPTION_CONFLICT"
    (lit "--ignore-missing-args cannot be combined with --delete-missing-args")) ++
  on (inplace cli && delay_updates cli) (diagnostic Error "E_OPTION_CONFLICT"
    (lit "--inplace cannot be combined with --delay-updates")) ++
  on (inplace cli && is_some (partial_dir cli)) (diagnostic Error "E_OPTION_CONFLICT"
    (lit "--inplace and --partial-dir cannot both control the same write path")) ++
  on (inplace cli && is_some (temp_dir cli)) (diagnostic Error "E_OPTION_CONFLICT"
    (lit "--inplace and --temp-dir cannot both control the same write path")) ++
  on (fake_super cli && bool_decide (metadata_policy cli = CliNtfsNative)) (diagnostic Error "E_OPTION_CONFLICT"
    (lit "--fake-super cannot be combined with --metadata-policy=ntfs-native")) ++
  on (negb (no_links cli) && (1 <? link_modes cli)%nat) (diagnostic Warning "W_OPTION_OVERLAP"
    (lit "multiple symlink transfer modes were requested; rsync-win applies its current precedence while preserving the diagnostic")) ++
  on (existing cli && ignore_existing cli) (diagnostic Warning "W_OPTION_OVERLAP"
    (lit "--existing and --ignore-existing together leave only receiver-missing files eligible")) ++
  on (sparse cli && preallocate cli) (diagnostic Warning "W_OPTION_OVERLAP"
    (lit "--sparse and --preallocate together: preallocation will be skipped for sparse files")) ++
  on (is_some (write_batch cli) && is_some (only_write_batch cli)) (diagnostic Error "E_OPTION_CONFLICT"
    (lit "--write-batch and --only-write-batch cannot both be specified")) ++
  on (is_some (write_batch cli) && is_some (read_batch cli)) (diagnostic Error "E_OPTION_CONFLICT"
    (lit "--write-batch and --read-batch cannot both be specified")) ++
  on (is_some (only_write_batch cli) && is_some (read_batch cli)) (diagnostic Error "E_OPTION_CONFLICT"
    (lit "--only-write-batch and --read-batch cannot both be specified")) ++
  on (is_some (read_batch cli) && dry_run cli) (diagnostic Warning "W_OPTION_OVERLAP"
    (lit "--read-batch with --dry-run: replay will be a dry run")).

(** ** Operands and modes *)

Definition is_daemon_operand_syntax (operand : list Z) : bool :=
  starts_with operand (lit "rsync://") || contains_str operand (lit "::").

Definition is_remote_shell_operand (operand : list Z) : bool :=
  if is_daemon_operand_syntax operand then false
  else match parse_operand operand with Ok (Some _) | Err _ => true | Ok None => false end.

Inductive TransferMode := LocalMode | RemoteShellMode | DaemonClientMode | DaemonServerMode | InternalServerMode.

#[export] Instance TransferMode_eq_dec : EqDecision TransferMode.
Proof. solve_decision. Defined.

Definition transfer_mode_from_cli (cli : Cli) (has_daemon_operand : bool)
    (remote_direction : option TransferDirection) : TransferMode :=
  if daemon_server cli then DaemonServerMode
  else if internal_server cli then InternalServerMode
  else if has_daemon_operand then DaemonClientMode
  else if is_some remote_direction then RemoteShellMode
  else LocalMode.

Definition mode_conflict (message : string) : Diagnostic :=
  diagnostic Error "E_MODE_CONFLICT" (lit message).
Definition scoped_option (message : string) : Diagnostic :=
  diagnostic Warning "W_MODE_SCOPED_OPTION" (lit message).

Definition add_mode_gating_diagnostics (cli : Cli) (transfer_mode : TransferMode)
    (has_daemon_operand : bool) : Report :=
  let has_daemon_syntax := has_daemon_operand || existsb is_daemon_operand_syntax (paths cli) in
  let has_remote_shell_syntax := existsb is_remote_shell_operand (paths cli) in
  on (daemon_server cli && internal_server cli)
    (mode_conflict "--daemon and --server select different rsync execution modes") ++
  on (internal_sender cli && negb (internal_server cli))
    (scoped_option "--sender is an internal --server modifier and has no standalone client behavior") ++
  on (has_daemon_syntax && has_remote_shell_syntax)
    (mode_conflict "daemon operands cannot be mixed with remote-shell operands") ++
  match transfer_mode with
  | DaemonServerMode =>
      on (has_remote_shell_syntax || has_daemon_syntax || bool_decide (paths cli ≠ []))
        (mode_conflict "--daemon server mode does not accept transfer operands")
  | InternalServerMode =>
      diagnostic Error "E_UNSUPPORTED_MODE"
        (lit "internal --server mode is reserved for rsync peer execution and is not a public entrypoint in this build") ::
      on (daemon_server cli)
        (mode_conflict "internal --server mode cannot be combined with daemon server mode")
  | DaemonClientMode =>
      on (is_some (remote_shell cli))
        (mode_conflict "daemon client mode does not use --rsh/-e")
  | RemoteShellMode =>
      on (is_some (password_file cli))
        (scoped_option "--password-file applies to rsync daemon authentication, not remote-shell mode") ++
      on (daemon_no_motd cli)
        (scoped_option "--no-motd applies to rsync daemon module listing, not remote-shell mode")
  | LocalMode =>
      on (is_some (password_file cli))
        (scoped_option "--password-file applies to rsync daemon authentication, not local mode") ++
      on (daemon_no_motd cli)
        (scoped_option "--no-motd applies to rsync daemon module listing, not local mode")
  end.

Definition daemon_operands_error (message : string) : Report :=
  [diagnostic Error "E_DAEMON_OPERANDS" (lit message)].

(** The operands with daemon syntax that parse, each with its place, and whether there are
    any with that syntax. *)
Fixpoint daemon_operands (index : nat) (paths : list (list Z)) :
    bool * list (nat * DaemonOperand) * Report :=
  match paths with
  | [] => (false, [], [])
  | operand :: paths =>
      let '(present, operands, report) := daemon_operands (S index) paths in
      if is_daemon_operand_syntax operand then
        match Daemon.parse operand with
        | Ok (Some daemon) => (true, (index, daemon) :: operands, report)
        | Ok None => (true, operands, report)
        | Err _ => (true, operands, diagnostic Error "E_DAEMON_OPERAND" (lit "{err}") :: report)
        end
      else (present, operands, report)
  end.

Definition with_port (operand : DaemonOperand) (port : option Z) : DaemonOperand :=
  {| Daemon.user := Daemon.user operand; Daemon.host := Daemon.host operand;
     Daemon.port := default (Daemon.port operand) port; Daemon.module := Daemon.module operand;
     Daemon.path := Daemon.path operand |}.

Definition plan_daemon_operands (cli : Cli) :
    option DaemonOperand * option TransferDirection * bool * Report :=
  let '(present, operands, report) := daemon_operands 0 (paths cli) in
  let count := length (paths cli) in
  if negb present then (None, None, false, report)
  else match operands with
  | [] => (None, None, true, report)
  | _ :: _ :: _ =>
      (None, None, true,
       report ++ daemon_operands_error "daemon client MVP supports one daemon operand per command")
  | [(index, operand)] =>
      let operand := with_port operand (daemon_port cli) in
      let unless_module direction message :=
        match Daemon.module operand with
        | None => (Some operand, None, true, report ++ daemon_operands_error message)
        | Some _ => (Some operand, Some direction, true, report)
        end in
      if (count =? 1)%nat then
        if list_only cli && negb (is_some (Daemon.module operand))
        then (Some operand, Some Pull, true, report)
        else (Some operand, None, true, report ++ daemon_operands_error
               "daemon commands require --list-only host:: for module listing or daemon source plus a local destination for pull")
      else if (index =? 0)%nat && (count =? 2)%nat then
        unless_module Pull "daemon pull requires a module, e.g. host::module/path"
      else if (index =? count - 1)%nat then
        unless_module Push "daemon push requires a module, e.g. host::module/path"
      else (Some operand, None, true, report ++ daemon_operands_error
             "daemon operands cannot be mixed with additional local or remote sources in this MVP")
  end.

(** ** The remote shell *)

Definition remote_wire_protocol_from_cli (cli : Cli) : RemoteWireProtocol * Report :=
  match protocol_version cli with
  | Some protocol =>
      if protocol =? 27 then (Compat27, [])
      else if protocol =? 31 then (Modern31, [])
      else (Modern31, [diagnostic Error "E_UNSUPPORTED_PROTOCOL"
             (lit "--protocol=" ++ decimal protocol ++
              lit " is not supported by this build; supported execution protocols are 27 and 31")])
  | None => (Modern31, [])
  end.

Definition protocol_label (self : RemoteWireProtocol) : list Z :=
  match self with
  | Compat27 => lit "protocol 27 compatibility mode"
  | Modern31 => lit "protocol 31 ordinary-file MVP"
  end.

Definition build_remote_shell_invocation_for_wire_protocol (protocol : RemoteWireProtocol)
    (options : RemoteShellOptions) (paths : list (list Z)) :
    result RemoteShellInvocation SessionError :=
  match protocol with
  | Compat27 => build_remote_shell_invocation_for_paths options paths
  | Modern31 => build_remote_shell_protocol31_invocation_for_paths options paths
  end.

Definition remote_protocol_diagnostic (protocol : RemoteWireProtocol) : Diagnostic :=
  match protocol with
  | Modern31 => diagnostic Info "I_REMOTE_PROTOCOL31_MVP"
      (lit "remote-shell execution tries protocol " ++ decimal REMOTE_SHELL_MODERN_PROTOCOL ++
       lit " first for the ordinary-file MVP")
  | Compat27 => diagnostic Info "I_REMOTE_PROTOCOL"
      (lit "remote-shell execution uses " ++ protocol_label protocol)
  end.

Definition remote_shell_command_options_from_cli (cli : Cli) : RemoteShellCommandOptions :=
  {| address_family := if ipv4 cli then Some Ipv4 else if ipv6 cli then Some Ipv6 else None;
     RemoteShell.blocking_io := blocking_io cli; RemoteShell.old_args := old_args cli |}.

Definition build_remote_transport_command (cli : Cli) (host : list Z)
    (remote_server_argv : list (list Z)) : result SshRemoteCommand RemoteShellCommandParseError :=
  let options := remote_shell_command_options_from_cli cli in
  match remote_shell cli with
  | Some remote_shell =>
      build_custom_remote_shell_command_with_options remote_shell host remote_server_argv options
  | None =>
      Ok (build_ssh_remote_command_with_options default_ssh_program host remote_server_argv options)
  end.

Definition render_ssh_command (command : SshRemoteCommand) : list (list Z) :=
  program command :: args command.

Definition parse_remote_shell_operand (operand : list Z) : option RemoteShellOperand * Report :=
  match parse_operand operand with
  | Ok remote => (remote, [])
  | Err _ => (None, [diagnostic Error "E_REMOTE_OPERAND" (lit "{err}")])
  end.

(** What is planned for a remote shell. *)
Record RemotePlan := {
  server_argv : option (list (list Z));
  planned_protected_args : option (list (list Z));
  ssh_argv : option (list (list Z));
  ssh_command : option SshRemoteCommand;
  remote_operand : option RemoteShellOperand;
  remote_operands : list RemoteShellOperand;
  remote_direction : option TransferDirection;
  remote_wire_protocol : option RemoteWireProtocol;
}.

Definition no_remote : RemotePlan :=
  {| server_argv := None; planned_protected_args := None; ssh_argv := None; ssh_command := None;
     remote_operand := None; remote_operands := []; remote_direction := None;
     remote_wire_protocol := None |}.

Section planning.
Context `{Files}.

(** The invocation and the command for a push or a pull whose operands are known; [remote]
    is the first of [remotes]. *)
Definition plan_remote_command (cli : Cli) (protocol : RemoteWireProtocol)
    (options : RemoteShellOptions) (direction : TransferDirection)
    (remote : RemoteShellOperand) (remotes : list RemoteShellOperand) : RemotePlan * Report :=
  match build_remote_shell_invocation_for_wire_protocol protocol options
          (operand_path <$> remotes) with
  | Err _ =>
      (no_remote, [diagnostic Error "E_REMOTE_ARGV"
        (lit "could not build remote --server argv: {err}")])
  | Ok invocation =>
      match build_remote_transport_command cli (Session.host remote) (argv invocation) with
      | Err _ =>
          (no_remote, [diagnostic Error "E_REMOTE_SHELL"
            (lit "could not parse remote shell command: {err}")])
      | Ok command =>
          ({| server_argv := Some (argv invocation);
              planned_protected_args := Some (protected_args invocation);
              ssh_argv := Some (render_ssh_command command);
              ssh_command := Some command;
              remote_operand := Some remote; remote_operands := remotes;
              remote_direction := Some direction; remote_wire_protocol := Some protocol |},
           [remote_protocol_diagnostic protocol])
      end
  end.

Definition remote_error (code message : string) : RemotePlan * Report :=
  (no_remote, [diagnostic Error code (lit message)]).

Definition plan_remote_shell (cli : Cli) (protocol : RemoteWireProtocol)
    (options : TransferDirection → RemoteShellOptions) : RemotePlan * Report :=
  match last (paths cli) with
  | Some destination =>
      if (length (paths cli) <? 2)%nat then (no_remote, [])
      else
        let sources := take (length (paths cli) - 1) (paths cli) in
        let parsed := parse_remote_shell_operand <$> sources in
        let source_remotes := parsed.*1 in
        let '(destination_remote, destination_report) := parse_remote_shell_operand destination in
        let report := concat (parsed.*2) ++ destination_report in
        let '(plan, more) :=
          match omap id source_remotes, destination_remote with
          | [], None => (no_remote, [])
          | _ :: _, Some _ => remote_error "E_REMOTE_BOTH"
              "remote-to-remote transfers are not supported by this development build"
          | (remote :: _) as remotes, None =>
              if negb (forallb is_some source_remotes) then
                remote_error "E_REMOTE_MIXED_SOURCES"
                  "remote-shell pull sources must all be remote operands from the same host"
              else if existsb (λ operand, bool_decide (Session.host operand ≠ Session.host remote)) remotes
              then remote_error "E_REMOTE_HOST_MISMATCH"
                     "remote-shell pull sources must use the same remote host"
              else plan_remote_command cli protocol (options Pull) Pull remote remotes
          | [], Some remote => plan_remote_command cli protocol (options Push) Push remote [remote]
          end in
        (plan, report ++ more)
  | None => (no_remote, [])
  end.

(** The text of --bwlimit for display is left out. *)
Record TransferPlan := {
  p_transfer_mode : TransferMode;
  p_recursive : bool;
  p_incremental_recursion : bool;
  p_relative : bool;
  p_implied_dirs : bool;
  p_transfer_dirs : bool;
  p_mkpath : bool;
  p_one_file_system : bool;
  p_preserve_times : bool;
  p_delete : bool;
  p_delete_mode : DeleteMode;
  p_delete_excluded : bool;
  p_ignore_errors : bool;
  p_force_delete : bool;
  p_max_delete : option Z;
  p_dry_run : bool;
  p_whole_file : bool;
  p_compress : bool;
  p_compress_choice : option (list Z);
  p_compress_level : option Z;
  p_compress_threads : option Z;
  p_skip_compress : list (list Z);
  p_verbosity : Z;
  p_progress : bool;
  p_human_readable : Z;
  p_update_mode : UpdateMode;
  p_skip_newer_receiver : bool;
  p_existing_only : bool;
  p_ignore_existing : bool;
  p_max_size : option Z;
  p_min_size : option Z;
  p_modify_window : Z;
  p_ignore_missing_args : bool;
  p_delete_missing_args : bool;
  p_file_write_mode : FileWriteMode;
  p_keep_partial : bool;
  p_partial_dir : option (list Z);
  p_temp_dir : option (list Z);
  p_delay_updates : bool;
  p_fsync : bool;
  p_append_verify : bool;
  p_append : bool;
  p_block_size : option Z;
  p_checksum_choice : option (list Z);
  p_checksum_seed : option Z;
  p_symlink_mode : SymlinkMode;
  p_keep_dirlinks : bool;
  p_hard_links : bool;
  p_preserve_devices : bool;
  p_preserve_specials : bool;
  p_preserve_permissions : bool;
  p_preserve_owner : bool;
  p_preserve_group : bool;
  p_preserve_executability : bool;
  p_preserve_acls : bool;
  p_preserve_xattrs : bool;
  p_fake_super : bool;
  p_atimes : bool;
  p_crtimes : bool;
  p_omit_dir_times : bool;
  p_omit_link_times : bool;
  p_vss : bool;
  p_numeric_ids : bool;
  p_user_maps : list (list Z);
  p_group_maps : list (list Z);
  p_chown : option (list Z);
  p_chmod : option (list Z);
  p_chmod_rules : option ChmodRules;
  p_metadata_policy : MetadataPolicy;
  p_filter_rules : RuleSet;
  p_backup : bool;
  p_backup_dir : option (list Z);
  p_backup_suffix : list Z;
  p_remote_options : list (list Z);
  p_rsync_path : option (list Z);
  p_blocking_io : bool;
  p_old_args : bool;
  p_secluded_args : bool;
  p_trust_sender : bool;
  p_ipv4 : bool;
  p_ipv6 : bool;
  p_remote : RemotePlan;
  p_daemon_operand : option DaemonOperand;
  p_daemon_direction : option TransferDirection;
  p_compare_dest : list (list Z);
  p_copy_dest : list (list Z);
  p_link_dest : list (list Z);
  p_sparse : bool;
  p_preallocate : bool;
  p_fuzzy : bool;
  p_copy_as : option (list Z);
  p_super_flag : bool;
  p_write_batch : option (list Z);
  p_only_write_batch : option (list Z);
  p_read_batch : option (list Z);
  p_bwlimit : option Z;
  p_timeout_secs : option Z;
  p_stop_after_minutes : option Z;
  p_time_limit_minutes : option Z;
  p_stop_deadline : option Instant;
  p_stop_at : option (list Z);
  p_max_alloc : option Z;
  p_max_alloc_display : option (list Z);
  p_early_input : option (list Z);
  p_outbuf : option (list Z);
  p_protocol_version : option Z;
  p_iconv : option (list Z);
  p_open_noatime : bool;
  p_report : Report;
}.

Definition plan_delete_mode (cli : Cli) : DeleteMode :=
  if delete cli || bool_decide (delete_mode cli ≠ NoDelete) then
    if bool_decide (delete_mode cli = NoDelete) then During else delete_mode cli
  else NoDelete.

Definition plan_backup_suffix (cli : Cli) : list Z :=
  default (if is_some (backup_dir cli) then [] else lit "~") (suffix cli).

Definition format_max_alloc (value : list Z) : list Z :=
  let trimmed := trim value in
  let number := trim (take (length trimmed - 1) trimmed) in
  match to_ascii_lowercase <$> ((λ c, [c]) <$> last trimmed) with
  | Some unit =>
      if bool_decide (unit = lit "g") then number ++ lit " GB"
      else if bool_decide (unit = lit "m") then number ++ lit " MB"
      else if bool_decide (unit = lit "k") then number ++ lit " KB"
      else trimmed ++ lit " B"
  | None => lit " B"
  end.

Definition archive_diagnostics (cli : Cli) (policy : MetadataPolicy) : Report :=
  if archive cli then
    diagnostic Info "I_ARCHIVE_EXPANSION"
      (lit "archive mode expands to -" ++
       concat ((λ component, trim_start_matches (ch "-") (archive_flag component)) <$>
               archive_mode_components)) ::
    add_metadata_degradations (archive_mode_degradations_for_cli cli policy)
      (fail_on_metadata_loss cli)
  else [].

(** What [stop_deadline_from_cli] reports, of its codes. *)
Definition stop_diagnostics (codes : list string) : Report :=
  (λ code, diagnostic Error code (lit "{err}")) <$> codes.

(** [from_cli] of the clocks; its one error is a panic of their arithmetic. *)
Definition from_cli `{Platform} (cli : Cli) (now : Instant) (now_system : SystemTime) :
    result TransferPlan StopError :=
  let policy := policy_of (metadata_policy cli) in
  let recursive := (recursive cli || archive cli) && negb (no_recursive cli) in
  let preserve_times := (preserve_times cli || archive cli) && negb (no_times cli) in
  let requested_incremental_recursion := incremental_recursion_from_cli cli recursive in
  let '(filter_rules, filter_report) := build_filter_rules cli in
  let '(chmod_rules, chmod_report) := parse_chmod_rules cli in
  let symlink_mode := symlink_mode_from_cli cli in
  let explicit_server_mode := daemon_server cli || internal_server cli in
  let '(protocol, protocol_report) := remote_wire_protocol_from_cli cli in
  let '(daemon_operand, daemon_direction, has_daemon_operand, daemon_report) :=
    if explicit_server_mode then (None, None, false, []) else plan_daemon_operands cli in
  let '(remote, remote_report) :=
    if explicit_server_mode || has_daemon_operand then (no_remote, [])
    else plan_remote_shell cli protocol
           (λ direction, remote_shell_options_from_cli cli direction recursive preserve_times
                           symlink_mode) in
  let transfer_mode := transfer_mode_from_cli cli has_daemon_operand (remote_direction remote) in
  let? (deadline, codes) :=
    StopAt.stop_deadline (stop_after_minutes cli) (time_limit_minutes cli) (stop_at cli) now now_system in
  let report :=
    archive_diagnostics cli policy ++
    add_metadata_degradations (policy_degradations_for_cli cli policy)
      (fail_on_metadata_loss cli) ++
    (if vss cli
     then add_metadata_degradations (ntfs_degradations (with_vss ntfs_default true))
            (fail_on_metadata_loss cli)
     else []) ++
    add_explicit_option_diagnostics cli ++ add_option_conflict_diagnostics cli ++
    filter_report ++ chmod_report ++ protocol_report ++ daemon_report ++ remote_report ++
    add_metadata_degradations
      (posix_metadata_degradations_for_plan cli policy (remote_direction remote)
         daemon_direction) (fail_on_metadata_loss cli) ++
    add_mode_gating_diagnostics cli transfer_mode has_daemon_operand ++
    on (requested_incremental_recursion && bool_decide (remote_direction remote = Some Push))
      (diagnostic Warning "W_INC_RECURSIVE_PUSH_DISABLED"
        (lit "--inc-recursive currently applies to protocol 31 remote pulls; remote-shell push streams its local file list in batches but keeps the upstream receiver on --no-inc-recursive until sender-side upstream incremental recursion is implemented")) ++
    stop_diagnostics codes in
  Ok
      {| p_transfer_mode := transfer_mode; p_recursive := recursive;
         p_incremental_recursion := requested_incremental_recursion && bool_decide (remote_direction remote = Some Pull);
         p_relative := relative cli; p_implied_dirs := implied_dirs cli;
         p_transfer_dirs := transfer_dirs cli; p_mkpath := mkpath cli;
         p_one_file_system := one_file_system cli; p_preserve_times := preserve_times;
         p_delete := delete cli || bool_decide (delete_mode cli ≠ NoDelete);
         p_delete_mode := plan_delete_mode cli; p_delete_excluded := delete_excluded cli;
         p_ignore_errors := ignore_errors cli; p_force_delete := force cli;
         p_max_delete := max_delete cli; p_dry_run := dry_run cli;
         p_whole_file := whole_file cli; p_compress := compress cli;
         p_compress_choice := compress_choice cli; p_compress_level := compress_level cli;
         p_compress_threads := compress_threads cli; p_skip_compress := skip_compress cli;
         p_verbosity := verbosity cli; p_progress := progress cli;
         p_human_readable := human_readable cli; p_update_mode := update_mode_from_cli cli;
         p_skip_newer_receiver := update cli; p_existing_only := existing cli;
         p_ignore_existing := ignore_existing cli; p_max_size := max_size cli;
         p_min_size := min_size cli; p_modify_window := modify_window cli;
         p_ignore_missing_args := ignore_missing_args cli;
         p_delete_missing_args := delete_missing_args cli;
         p_file_write_mode := if inplace cli then InPlace else Atomic;
         p_keep_partial := partial cli; p_partial_dir := partial_dir cli;
         p_temp_dir := temp_dir cli; p_delay_updates := delay_updates cli; p_fsync := fsync cli;
         p_append_verify := append_verify cli; p_append := append cli;
         p_block_size := block_size cli; p_checksum_choice := checksum_choice cli;
         p_checksum_seed := checksum_seed cli; p_symlink_mode := symlink_mode;
         p_keep_dirlinks := keep_dirlinks cli; p_hard_links := hard_links cli;
         p_preserve_devices := cli_preserve_devices cli;
         p_preserve_specials := cli_preserve_specials cli;
         p_preserve_permissions := cli_preserve_permissions cli;
         p_preserve_owner := cli_preserve_owner cli; p_preserve_group := cli_preserve_group cli;
         p_preserve_executability := executability cli; p_preserve_acls := acls cli;
         p_preserve_xattrs := xattrs cli; p_fake_super := fake_super cli; p_atimes := atimes cli;
         p_crtimes := crtimes cli; p_omit_dir_times := omit_dir_times cli;
         p_omit_link_times := omit_link_times cli; p_vss := vss cli;
         p_numeric_ids := numeric_ids cli; p_user_maps := user_maps cli;
         p_group_maps := group_maps cli; p_chown := chown cli; p_chmod := chmod cli;
         p_chmod_rules := chmod_rules; p_metadata_policy := policy;
         p_filter_rules := filter_rules; p_backup := backup cli; p_backup_dir := backup_dir cli;
         p_backup_suffix := plan_backup_suffix cli; p_remote_options := remote_options cli;
         p_rsync_path := rsync_path cli; p_blocking_io := blocking_io cli;
         p_old_args := old_args cli; p_secluded_args := secluded_args cli;
         p_trust_sender := trust_sender cli; p_ipv4 := ipv4 cli; p_ipv6 := ipv6 cli;
         p_remote := remote; p_daemon_operand := daemon_operand;
         p_daemon_direction := daemon_direction; p_compare_dest := compare_dest cli;
         p_copy_dest := copy_dest cli; p_link_dest := link_dest cli; p_sparse := sparse cli;
         p_preallocate := preallocate cli; p_fuzzy := fuzzy cli; p_copy_as := copy_as cli;
         p_super_flag := super_flag cli; p_write_batch := write_batch cli;
         p_only_write_batch := only_write_batch cli; p_read_batch := read_batch cli;
         p_bwlimit := bwlimit cli ≫= parse_bwlimit_quiet; p_timeout_secs := timeout_secs cli;
         p_stop_after_minutes := stop_after_minutes cli;
         p_time_limit_minutes := time_limit_minutes cli; p_stop_deadline := deadline;
         p_stop_at := stop_at cli; p_max_alloc := max_alloc cli ≫= parse_max_alloc_quiet;
         p_max_alloc_display := format_max_alloc <$> max_alloc cli;
         p_early_input := early_input cli; p_outbuf := outbuf cli;
         p_protocol_version := protocol_version cli; p_iconv := iconv cli;
         p_open_noatime := open_noatime cli; p_report := report |}.

(** The options of [build_protocol27_fallback_command]: those of the plan, for a server that
    did not take protocol 31. *)
Definition fallback_options (cli : Cli) (plan : TransferPlan) (direction : TransferDirection)
    (compression : option RemoteCompressionConfig) : RemoteShellOptions :=
  let '(includes, excludes, filters) := remote_receiver_filter_args_from_cli cli in
  let push := bool_decide (direction = Push) in
  let pull := bool_decide (direction = Pull) in
  let is_mode mode := bool_decide (p_symlink_mode plan = mode) in
  let is_update mode := bool_decide (p_update_mode plan = mode) in
  {| RemoteArgs.rsync_path := default (lit "rsync") (p_rsync_path plan);
     RemoteArgs.direction := direction; RemoteArgs.secluded_args := p_secluded_args plan;
     RemoteArgs.recursive := p_recursive plan; RemoteArgs.incremental_recursion := false;
     RemoteArgs.preserve_times := p_preserve_times plan;
     RemoteArgs.delete_mode := remote_delete_mode (p_delete plan) (p_delete_mode plan);
     RemoteArgs.dry_run := p_dry_run plan;
     RemoteArgs.whole_file := p_whole_file plan && negb (push && p_append_verify plan);
     RemoteArgs.verbosity := p_verbosity plan;
     RemoteArgs.preserve_permissions := p_preserve_permissions plan;
     RemoteArgs.use_checksum := is_update Checksum;
     RemoteArgs.checksum_choice := p_checksum_choice plan;
     RemoteArgs.checksum_seed_option := p_checksum_seed plan;
     RemoteArgs.size_only := push && is_update SizeOnly;
     RemoteArgs.ignore_times := push && is_update IgnoreTimes;
     RemoteArgs.partial := push && p_keep_partial plan;
     RemoteArgs.partial_dir := if push then p_partial_dir plan else None;
     RemoteArgs.inplace := push && bool_decide (p_file_write_mode plan = InPlace);
     RemoteArgs.append_verify := push && p_append_verify plan;
     RemoteArgs.executability := push && p_preserve_executability plan;
     RemoteArgs.owner := push && p_preserve_owner plan;
     RemoteArgs.group := push && p_preserve_group plan;
     RemoteArgs.numeric_ids_option := push && p_numeric_ids plan;
     RemoteArgs.user_maps := if push then p_user_maps plan else [];
     RemoteArgs.group_maps := if push then p_group_maps plan else [];
     RemoteArgs.chown := if push then p_chown plan else None;
     RemoteArgs.chmod_option := if push then p_chmod plan else None;
     RemoteArgs.acls_option := push && p_preserve_acls plan;
     RemoteArgs.xattrs_option := push && p_preserve_xattrs plan;
     RemoteArgs.fake_super_option := push && p_fake_super plan;
     RemoteArgs.atimes_option := push && p_atimes plan;
     RemoteArgs.crtimes_option := push && p_crtimes plan;
     RemoteArgs.omit_dir_times := p_omit_dir_times plan;
     RemoteArgs.omit_link_times := p_omit_link_times plan;
     RemoteArgs.preserve_links := push && is_mode Preserve && (links cli || archive cli);
     RemoteArgs.copy_links := pull && is_mode CopyAll;
     RemoteArgs.copy_dirlinks := is_mode CopyDirLinks;
     RemoteArgs.keep_dirlinks := p_keep_dirlinks plan;
     RemoteArgs.safe_links := push && is_mode SafeOnly;
     RemoteArgs.copy_unsafe_links := pull && is_mode CopyUnsafe;
     RemoteArgs.munge_links := is_mode Munge; RemoteArgs.hard_links := p_hard_links plan;
     RemoteArgs.preserve_devices := p_preserve_devices plan;
     RemoteArgs.preserve_specials := p_preserve_specials plan;
     RemoteArgs.copy_devices := copy_devices cli; RemoteArgs.write_devices := write_devices cli;
     RemoteArgs.block_size := p_block_size plan; RemoteArgs.compress := p_compress plan;
     RemoteArgs.compress_choice := (λ c, remote_choice (compression_mode c)) <$> compression;
     RemoteArgs.compress_level := p_compress_level plan;
     RemoteArgs.compress_threads := p_compress_threads plan;
     RemoteArgs.skip_compress := p_skip_compress plan; RemoteArgs.outbuf := p_outbuf plan;
     RemoteArgs.remote_options := p_remote_options plan; RemoteArgs.includes := includes;
     RemoteArgs.excludes := excludes; RemoteArgs.filters := filters |}.

Inductive PlanError :=
| PlanBail (message : string)
| PlanTransfer (e : TransferError)
| PlanSession (e : SessionError)
| PlanShell (e : RemoteShellCommandParseError).

(** [build_protocol27_fallback_command] *)
Definition build_protocol27_fallback_command (cli : Cli) (plan : TransferPlan)
    (direction : TransferDirection) : result (SshRemoteCommand * list (list Z)) PlanError :=
  let? remote := ok_or (remote_operand (p_remote plan)) (PlanBail "remote operand was not planned") in
  let remotes :=
    if bool_decide (direction = Pull) && bool_decide (remote_operands (p_remote plan) ≠ [])
    then remote_operands (p_remote plan) else [remote] in
  let? compression := map_err PlanTransfer
    (compression_for_plan (p_compress plan) (p_compress_choice plan) (p_compress_level plan)
       (p_skip_compress plan)) in
  let? invocation := map_err PlanSession
    (build_remote_shell_invocation_for_paths (fallback_options cli plan direction compression)
       (operand_path <$> remotes)) in
  let? command := map_err PlanShell
    (build_remote_transport_command cli (Session.host remote) (argv invocation)) in
  Ok (command, protected_args invocation).

(** ** What may be executed *)

Definition bail {A} (message : string) : result A PlanError := Err (PlanBail message).
Definition ensure (violated : bool) (message : string) : result unit PlanError :=
  if violated then bail message else Ok ().

Definition ensure_local_execution_options_supported (cli : Cli) : result unit PlanError :=
  let? _ := ensure (inplace cli && is_some (partial_dir cli))
    "--inplace and --partial-dir cannot both control the same local write path" in
  ensure (is_some (read_batch cli) && (length (paths cli) <? 2)%nat)
    "--read-batch requires a destination operand".

Definition ensure_remote_execution_options_supported (cli : Cli) (plan : TransferPlan) :
    result unit PlanError :=
  let push := bool_decide (remote_direction (p_remote plan) = Some Push) in
  let? _ := ensure (negb (is_some (ssh_command (p_remote plan))))
    "remote-shell execution could not be planned; run with --plan for diagnostics" in
  let? _ := ensure
    (push && existsb is_remote_shell_operand (take (length (paths cli) - 1) (paths cli)))
    "remote-shell push sources must be local paths" in
  let? _ := ensure (push && delete cli && is_some (files_from cli))
    "remote-shell push does not yet support --delete together with --files-from because receiver-side files-from semantics are not implemented" in
  let? _ := ensure (inplace cli && is_some (partial_dir cli))
    "--inplace and --partial-dir cannot both control the same remote-shell write path" in
  let? _ := ensure (bool_decide (metadata_policy cli ≠ CliPortable))
    "remote-shell MVP currently supports only --metadata-policy=portable" in
  let? _ := ensure (vss cli)
    "remote-shell execution does not yet support VSS metadata options; run with --plan for diagnostics" in
  let? _ := map_err PlanTransfer
    (compression_for_plan (p_compress plan) (p_compress_choice plan) (p_compress_level plan)
       (p_skip_compress plan)) in
  Ok ().

Definition ensure_daemon_execution_options_supported (cli : Cli) (plan : TransferPlan) :
    result unit PlanError :=
  let? daemon := ok_or (p_daemon_operand plan)
    (PlanBail "daemon execution could not be planned; run with --plan for diagnostics") in
  let listing := negb (is_some (Daemon.module daemon)) in
  let? _ := ensure (is_some (remote_shell cli))
    "daemon client mode does not use --rsh/-e; omit the remote-shell option" in
  let? _ := ensure (listing && negb (list_only cli))
    "daemon module listing requires --list-only host::" in
  let? _ := ensure (listing && negb (length (paths cli) =? 1)%nat)
    "daemon module listing takes exactly one daemon operand" in
  let? _ := ensure (negb listing && (length (paths cli) <? 2)%nat)
    "daemon transfer requires at least one source and one destination" in
  let? _ := ensure (list_only cli && negb listing)
    "daemon --list-only currently supports module listing only; use a destination for pull dry runs" in
  let? _ := ensure (inplace cli && is_some (partial_dir cli))
    "--inplace and --partial-dir cannot both control the same daemon write path" in
  let? _ := ensure (bool_decide (metadata_policy cli ≠ CliPortable))
    "daemon client MVP currently supports only --metadata-policy=portable" in
  ensure (vss cli)
    "daemon execution does not yet support VSS metadata options; run with --plan for diagnostics".

(** app.rs, [execute_or_render]: what a command line comes to. *)
Inductive Execution :=
| Render (plan : option TransferPlan)
| RunDaemonServer
| DaemonSync (plan : TransferPlan)
| RemoteShellSync (plan : TransferPlan)
| ReadBatch (batch : list Z) (dry_run : bool)
| SyncWithBatch (plan : TransferPlan) (batch : list Z) (only_write_batch : bool)
| LocalSync (plan : TransferPlan).

Definition execute_or_render (cli : Cli) (plan : TransferPlan) : result Execution PlanError :=
  if help cli || version cli || protocol_range cli || Cli.plan cli then Ok (Render None)
  else if has_errors (p_report plan) then Ok (Render (Some plan))
  else if bool_decide (p_transfer_mode plan = DaemonServerMode) then Ok RunDaemonServer
  else if is_some (p_daemon_operand plan) then Ok (DaemonSync plan)
  else if (length (paths cli) <? 2)%nat then Ok (Render (Some plan))
  else if existsb is_remote_shell_operand (paths cli) then Ok (RemoteShellSync plan)
  else
    let? _ := ensure_local_execution_options_supported cli in
    match p_read_batch plan with
    | Some batch => Ok (ReadBatch batch (dry_run cli))
    | None =>
        match p_write_batch plan, p_only_write_batch plan with
        | Some batch, only | None, Some batch as only =>
            Ok (SyncWithBatch plan batch (is_some only))
        | None, None => Ok (LocalSync plan)
        end
    end.
End planning.

(** ** The options of the parts that execute a plan *)

Definition file_write_options_from_plan `{Platform} (plan : TransferPlan) : FileWriteOptions :=
  {| write_mode := p_file_write_mode plan; write_keep_partial := p_keep_partial plan;
     write_partial_dir := parse_path <$> p_partial_dir plan;
     write_temp_dir := parse_path <$> p_temp_dir plan; write_fsync := p_fsync plan;
     write_sparse := p_sparse plan; write_preallocate := p_preallocate plan;
     write_bwlimit := p_bwlimit plan; write_max_alloc := p_max_alloc plan;
     write_stop_deadline := p_stop_deadline plan |}.

Definition protocol31_setup_options_from_plan (plan : TransferPlan) : Protocol31SetupOptions :=
  {| checksum_choices :=
       match p_checksum_choice plan with
       | Some choice => split_option_list choice
       | None => [lit "md4"]
       end;
     setup_checksum_seed := p_checksum_seed plan |}.

(** The options [execute_local_sync] gives the sync, of the list of files it has read;
    [preflight] is [windows_destination_path_preflight]. *)
Definition local_sync_options `{Platform} (cli : Cli) (plan : TransferPlan)
    (files_from : option (list PathBuf)) (preflight : list PathBuf → result unit FsError) :
    SyncOptions :=
  {| o_recursive := p_recursive plan; o_delete := p_delete plan;
     o_delete_mode := p_delete_mode plan; o_preserve_mtime := p_preserve_times plan;
     o_omit_dir_times := p_omit_dir_times plan; o_dry_run := p_dry_run plan;
     o_filter_rules := p_filter_rules plan; o_destination_path_preflight := Some preflight;
     o_update_mode := p_update_mode plan; o_files_from := files_from;
     o_file_write_mode := p_file_write_mode plan; o_keep_partial := p_keep_partial plan;
     o_partial_dir := parse_path <$> p_partial_dir plan;
     o_temp_dir := parse_path <$> p_temp_dir plan; o_delay_updates := p_delay_updates plan;
     o_fsync := p_fsync plan; o_append_verify := p_append_verify plan;
     o_symlink_mode := p_symlink_mode plan; o_transfer_dirs := p_transfer_dirs plan;
     o_mkpath := p_mkpath plan; o_relative_paths := p_relative plan;
     o_implied_dirs := p_implied_dirs plan; o_one_file_system := p_one_file_system plan;
     o_skip_newer_receiver := p_skip_newer_receiver plan;
     o_existing_only := p_existing_only plan; o_ignore_existing := p_ignore_existing plan;
     o_max_size := p_max_size plan; o_min_size := p_min_size plan;
     o_modify_window := p_modify_window plan;
     o_ignore_missing_args := p_ignore_missing_args plan;
     o_delete_missing_args := p_delete_missing_args plan;
     o_delete_excluded := p_delete_excluded plan; o_ignore_errors := p_ignore_errors plan;
     o_force_delete := p_force_delete plan; o_max_delete := p_max_delete plan;
     o_backup := p_backup plan; o_backup_dir := parse_path <$> p_backup_dir plan;
     o_backup_suffix := p_backup_suffix plan; o_preserve_hard_links := p_hard_links plan;
     o_keep_dirlinks := p_keep_dirlinks plan; o_preserve_devices := p_preserve_devices plan;
     o_preserve_specials := p_preserve_specials plan;
     o_fail_on_metadata_loss := fail_on_metadata_loss cli;
     o_compare_dest := parse_path <$> p_compare_dest plan;
     o_copy_dest := parse_path <$> p_copy_dest plan;
     o_link_dest := parse_path <$> p_link_dest plan; o_sparse := p_sparse plan;
     o_preallocate := p_preallocate plan; o_fuzzy := p_fuzzy plan; o_bwlimit := p_bwlimit plan;
     o_max_alloc := p_max_alloc plan; o_stop_deadline := p_stop_deadline plan |}.
