(* ===== verification/PlanFacts.v ===== *)
(** * What a plan promises

    Filter rules that are sent are read back; the server of a push or a pull does what the
    plan says; archive mode is its letters; what is executed has no conflicts; the command
    of the remote shell runs the planned server; a second attempt asks for the same.  At
    the end, plans of concrete command lines. *)

From S2P Require Import Prelude Stream Str Text Filter Chmod Session RemoteArgs Daemon DaemonConfig DaemonArgs DaemonClient DaemonUnderstood FsPath Metadata StopAt FileSystem MemoryFs SyncPlan Sync SyncFacts Values TransferSums Core RemoteShell Cli Options Plan.

(** ** Rules as arguments *)

Record well_formed (rule : Rule) (p : Pattern) : Prop := {
  wf_action : Filter.action rule ≠ ClearList;
  wf_pattern : Filter.pattern rule = Some p;
  wf_raw : parse_pattern (raw p) = Ok p;
  wf_tidy : tidy (raw p) ∧ raw p ≠ [];
  wf_side : sender_side rule || receiver_side rule = true;
}.

Lemma parse_pattern_raw input p :
  parse_pattern input = Ok p → raw p = trim input ∧ tidy (raw p) ∧ raw p ≠ [] ∧
    parse_pattern (raw p) = Ok p.
Proof.
  intros Hp. assert (Hraw : raw p = trim input ∧ raw p ≠ []).
  { revert Hp. unfold parse_pattern. case_bool_decide as Hne; [done|]. case_bool_decide; [done|].
    by intros [= <-]. }
  destruct Hraw as [Hraw Hne]. assert (tidy (raw p)) as Ht by (rewrite Hraw; apply trim_tidy).
  split_and!; try done. revert Hp. unfold parse_pattern. by rewrite (trim_id (raw p)), Hraw.
Qed.

Lemma default_side action : (default_sides action).1 || (default_sides action).2 = true.
Proof. by destruct action. Qed.

Lemma new_rule_well_formed action pattern rule :
  action ≠ ClearList → new_rule action pattern = Ok rule → ∃ p, well_formed rule p.
Proof.
  intros Ha. unfold new_rule. pose proof (default_side action) as Hs.
  destruct (default_sides action) as [s r]. intros Hr.
  apply and_then_Ok in Hr as (p & Hp & [= <-]).
  apply parse_pattern_raw in Hp as (_ & Ht & Hne & Hp). by exists p.
Qed.

Lemma rule_side action modifiers :
  (rule_sides action modifiers).1 || (rule_sides action modifiers).2 = true.
Proof.
  unfold rule_sides. destruct (m_sender modifiers || m_receiver modifiers) eqn:Hm; [done|].
  apply default_side.
Qed.

Lemma parse_filter_well_formed input rule :
  parse_filter input = Ok rule → Filter.action rule ≠ ClearList → ∃ p, well_formed rule p.
Proof.
  unfold parse_filter. case_bool_decide; [done|]. case_bool_decide.
  { intros [= <-]. by intros []. }
  intros Hr. apply and_then_Ok in Hr as ([head pattern] & _ & Hr).
  apply and_then_Ok in Hr as ([action modifiers] & _ & Hr).
  case_bool_decide as Ha.
  { revert Hr. unfold without_pattern. destruct (rule_sides _ _). intros [= <-]. by intros []. }
  revert Hr. unfold with_modifiers. pose proof (rule_side action modifiers) as Hs.
  destruct (rule_sides action modifiers) as [s r]. intros Hr _.
  apply and_then_Ok in Hr as (p & Hp & [= <-]).
  apply parse_pattern_raw in Hp as (_ & Ht & Hne & Hp). by exists p.
Qed.

(** The rule with the sides its action has by default, where it has both. *)
Definition sides_read_back (rule : Rule) : Rule :=
  let '(sender, receiver) :=
    if sender_side rule && receiver_side rule then default_sides (Filter.action rule)
    else (sender_side rule, receiver_side rule) in
  {| Filter.action := Filter.action rule; Filter.pattern := Filter.pattern rule;
     sender_side := sender; receiver_side := receiver; perishable := perishable rule |}.

Definition rule_head (rule : Rule) : list Z :=
  rule_marker (Filter.action rule) ++
  (if bool_decide (rule_modifiers rule = []) then [] else ch "," :: rule_modifiers rule).

Definition modifiers_of (rule : Rule) : ModifierState :=
  {| m_sender := sender_side rule && negb (receiver_side rule);
     m_receiver := receiver_side rule && negb (sender_side rule);
     m_perishable := perishable rule |}.

(** The head of a formatted rule: it has no white space, and reads back as the action and
    the modifiers. *)
Lemma rule_head_reads rule :
  Filter.action rule ≠ ClearList →
  forallb (λ c, negb (is_whitespace c)) (rule_head rule) = true ∧ rule_head rule ≠ [] ∧
  parse_rule_head (rule_head rule) = Ok (Filter.action rule, modifiers_of rule).
Proof.
  destruct rule as [[] p [] [] []]; intros Ha;
    first [by destruct (Ha eq_refl) | split_and!; [reflexivity|discriminate|reflexivity]].
Qed.

Lemma split_once_by_app p s c t :
  forallb (λ c, negb (p c)) s = true → p c = true → split_once_by p (s ++ c :: t) = Some (s, t).
Proof.
  intros Hs Hc. induction s as [|x s IH]; cbn [app split_once_by]; [by rewrite Hc|].
  cbn [forallb] in Hs. apply andb_prop in Hs as [Hx Hs]. apply negb_true_iff in Hx.
  by rewrite Hx, IH.
Qed.

Lemma head_app_some {A} (l1 l2 : list A) x : head l1 = Some x → head (l1 ++ l2) = Some x.
Proof. by destruct l1. Qed.

Lemma tidy_wrap s c t :
  s ≠ [] → (∀ x, head s = Some x → is_whitespace x = false) → tidy t → t ≠ [] →
  tidy (s ++ c :: t).
Proof.
  intros Hs Hh [_ Hl] Ht. split; intros x.
  - destruct s; [done|]. apply Hh.
  - rewrite last_app_cons, last_cons. destruct (last t) as [y|] eqn:Hy.
    + intros [= ->]. by apply Hl.
    + by apply last_None in Hy.
Qed.

Lemma marker_is_no_clear rule : Filter.action rule ≠ ClearList → ∀ t, rule_head rule ++ t ≠ lit "!".
Proof. destruct rule as [[] p [] [] []]; intros Ha t; done. Qed.

Lemma sent_rule_reads rule p :
  well_formed rule p →
  parse_filter (format_remote_filter_rule rule) = Ok (sides_read_back rule).
Proof.
  intros [Ha Hp Hraw [Ht Hne] Hside]. unfold format_remote_filter_rule.
  rewrite bool_decide_false by done. cbv zeta.
  rewrite app_assoc. change (_ ++ (if bool_decide _ then _ else _)) with (rule_head rule).
  unfold pattern_raw. rewrite Hp. cbn [lit app].
  destruct (rule_head_reads rule Ha) as (Hw & Hnil & Hhead).
  assert (Htidy : tidy (rule_head rule ++ 32 :: raw p)).
  { apply tidy_wrap; try done. intros x Hx. destruct (rule_head rule) as [|y s]; [done|].
    injection Hx as <-. cbn [forallb] in Hw. by apply andb_prop in Hw as [Hw%negb_true_iff _]. }
  unfold parse_filter. change (Z.of_nat _) with 32. rewrite (trim_id _ Htidy).
  rewrite !bool_decide_false; [|by apply marker_is_no_clear|by destruct (rule_head rule)].
  unfold split_rule_head. rewrite split_once_by_app by done. rewrite (trim_id _ Ht).
  rewrite bool_decide_false by done. cbn [and_then]. rewrite Hhead. cbn [and_then].
  rewrite bool_decide_false by done.
  unfold with_modifiers, rule_sides, sides_read_back, modifiers_of. cbn [m_sender m_receiver].
  rewrite Hraw. rewrite Hp. destruct (sender_side rule), (receiver_side rule); try done.
  cbn. by destruct (default_sides _).
Qed.

(** A rule of the command line or of a filter file that the server is sent as
    --filter is read back there as the same rule, but that a rule with a side of its own
    (hide, show, protect, risk) that was given both sides has only its own again, and that
    a rule that clears the list has no modifiers. *)
Theorem sent_rule_is_read_back input rule :
  parse_filter input = Ok rule ∨ new_rule Include input = Ok rule ∨ new_rule Exclude input = Ok rule →
  parse_filter (format_remote_filter_rule rule) =
  Ok (if bool_decide (Filter.action rule = ClearList) then without_pattern ClearList no_modifiers
      else sides_read_back rule).
Proof.
  intros Hr. case_bool_decide as Ha.
  - unfold format_remote_filter_rule. rewrite bool_decide_true by done. reflexivity.
  - assert (∃ p, well_formed rule p) as [p Hp].
    { destruct Hr as [Hr|[Hr|Hr]];
        [by eapply parse_filter_well_formed|by eapply (new_rule_well_formed Include)|
         by eapply (new_rule_well_formed Exclude)]. }
    by eapply sent_rule_reads.
Qed.

Lemma sent_rule_is_read_back_witness :
  parse_filter (format_remote_filter_rule
    {| Filter.action := Hide; Filter.pattern := Some (the (parse_pattern (lit "/a b/**")) eq_refl);
       sender_side := true; receiver_side := true; perishable := true |}) =
  Ok {| Filter.action := Hide; Filter.pattern := Some (the (parse_pattern (lit "/a b/**")) eq_refl);
        sender_side := true; receiver_side := false; perishable := true |}.
Proof.
  rewrite (sent_rule_is_read_back (lit "H,srp /a b/**")).
  - reflexivity.
  - left. vm_compute. reflexivity.
Defined.

Lemma parse_records_well_formed default_action records rules :
  default_action ≠ ClearList → parse_records default_action records = Ok rules →
  Forall (λ rule, Filter.action rule ≠ ClearList → ∃ p, well_formed rule p) rules.
Proof.
  intros Hd. revert rules. induction records as [|record records IH]; intros rules Hr.
  { injection Hr as <-. constructor. }
  cbn [parse_records] in Hr. apply and_then_Ok in Hr as (rule & Hrule & Hr).
  apply and_then_Ok in Hr as (later & Hl & [= <-]). specialize (IH _ Hl).
  destruct rule as [rule|]; [|done]. constructor; [|done].
  revert Hrule. unfold parse_record. destruct (normalize_filter_record record) as [text|]; [|done].
  intros Hrule. apply and_then_Ok in Hrule as (rule' & Hrule & [= ->]).
  destruct (starts_with_explicit_rule text).
  - by eapply parse_filter_well_formed.
  - intros _. by eapply new_rule_well_formed.
Qed.

(** ** The rules of the server and those of the plan *)

Definition reads (new : list Z → result Rule ParseRuleError) : list (list Z) → list Rule → Prop :=
  Forall2 (λ value rule, new value = Ok rule).

Definition unprefixed (option : string) (values : list (list Z)) : Prop :=
  Forall (λ value, starts_with value (lit option) = false) values.

Lemma add_filter_rules_spec message new values rules report rules' :
  add_filter_rules message new values (rules, report) = (rules', []) →
  report = [] ∧ ∃ added, reads new values added ∧ rules' = foldl push_rule rules added.
Proof.
  unfold add_filter_rules. revert rules report. induction values as [|value values IH];
    intros rules report; cbn [foldl].
  { intros [= <- <-]. split; [done|]. exists []. split; [constructor|done]. }
  unfold rule_or_error at 2. destruct (new value) as [rule|] eqn:Hr.
  - intros H. destruct (IH _ _ H) as [-> (added & Ha & ->)]. split; [done|].
    exists (rule :: added). split; [by constructor|done].
  - intros H. destruct (IH _ _ H) as [Hr' _]. by apply app_nil in Hr' as [_ ?].
Qed.

Lemma add_rules_reads context option new values rules added :
  lit option ≠ [] → unprefixed option values → reads new values added →
  add_rules context option new values rules = Ok (foldl push_rule rules added).
Proof.
  intros Ho Hu Ha. revert rules Hu. induction Ha as [|value rule values added Hv Ha IH];
    intros rules Hu; [done|].
  apply Forall_cons in Hu as [Hu1 Hu]. cbn [add_rules foldl].
  rewrite read_value_plain, Hv by done. cbn. by apply IH.
Qed.

Section server_filters.
Context `{Files}.

(** The rules of the files of --include-from or --exclude-from, where all can be read. *)
Fixpoint file_rules (from0 : bool) (kind : RuleAction) (paths : list (list Z)) :
    option (list Rule) :=
  match paths with
  | [] => Some []
  | path :: paths =>
      bytes ← read_file path;
      rules ← match parse_filter_file bytes from0 kind with Ok rules => Some rules | Err _ => None end;
      later ← file_rules from0 kind paths;
      Some (rules ++ later)
  end.

Definition plain (kind : RuleAction) (rule : Rule) : Prop :=
  Filter.action rule = kind ∧ filter_rule_can_use_short_arg rule = true.

Lemma file_rules_well_formed from0 kind paths rules :
  kind ≠ ClearList → file_rules from0 kind paths = Some rules →
  Forall (λ rule, Filter.action rule ≠ ClearList → ∃ p, well_formed rule p) rules.
Proof.
  intros Hk. revert rules. induction paths as [|path paths IH]; intros rules; cbn [file_rules].
  { by intros [= <-]. }
  destruct (read_file path) as [bytes|]; [|done]. cbn [mbind option_bind].
  destruct (parse_filter_file bytes from0 kind) as [here|] eqn:Hh; [|done].
  cbn [mbind option_bind]. destruct (file_rules from0 kind paths) as [later|]; [|done].
  intros [= <-]. apply Forall_app. split; [|by apply IH].
  apply and_then_Ok in Hh as (records & _ & Hh). by eapply parse_records_well_formed.
Qed.

(** A plain rule is read back from its pattern alone. *)
Lemma plain_reads kind rule p :
  kind = Include ∨ kind = Exclude → plain kind rule → well_formed rule p →
  pattern_raw rule = raw p ∧ new_rule kind (raw p) = Ok rule.
Proof.
  intros Hk [Ha Hs] [_ Hp Hraw _ _]. unfold pattern_raw. rewrite Hp. split; [done|].
  unfold filter_rule_can_use_short_arg in Hs.
  apply andb_prop in Hs as [[Hs Hr]%andb_prop Hq%negb_true_iff].
  destruct rule as [action pattern sender receiver perish]. cbn in *. subst.
  destruct Hk as [-> | ->]; unfold new_rule; cbn [default_sides]; by rewrite Hraw.
Qed.

Lemma plain_rules_read kind rules :
  kind = Include ∨ kind = Exclude → Forall (plain kind) rules →
  Forall (λ rule, Filter.action rule ≠ ClearList → ∃ p, well_formed rule p) rules →
  reads (new_rule kind) (pattern_raw <$> rules) rules.
Proof.
  intros Hk Hp Hw. induction Hp as [|rule rules Hr Hp IH]; [constructor|].
  apply Forall_cons in Hw as [Hw1 Hw]. constructor; [|by apply IH].
  destruct Hw1 as [p Hwf]; [destruct Hr as [-> _]; by destruct Hk as [-> | ->]|].
  by destruct (plain_reads kind rule p Hk Hr Hwf) as [-> ?].
Qed.

Lemma plain_file_args from0 kind paths rules includes excludes filters :
  kind = Include ∨ kind = Exclude → file_rules from0 kind paths = Some rules →
  Forall (plain kind) rules →
  foldl (add_remote_filter_file_args from0 kind) (includes, excludes, filters) paths =
  if bool_decide (kind = Include) then (includes ++ (pattern_raw <$> rules), excludes, filters)
  else (includes, excludes ++ (pattern_raw <$> rules), filters).
Proof.
  intros Hk. revert rules includes excludes.
  assert (Hrules : ∀ rules includes excludes, Forall (plain kind) rules →
    foldl add_remote_filter_rule_arg (includes, excludes, filters) rules =
    if bool_decide (kind = Include) then (includes ++ (pattern_raw <$> rules), excludes, filters)
    else (includes, excludes ++ (pattern_raw <$> rules), filters)).
  { induction rules as [|rule rules IH]; intros includes excludes Hp.
    { cbn. rewrite !app_nil_r. by case_bool_decide. }
    apply Forall_cons in Hp as [[Ha Hs] Hp]. cbn [foldl fmap list_fmap].
    unfold add_remote_filter_rule_arg at 2. rewrite Ha, Hs.
    destruct Hk as [-> | ->]; decide_features; cbn [andb]; rewrite IH by done; decide_features;
      by rewrite <-app_assoc. }
  induction paths as [|path paths IH]; intros rules includes excludes; cbn [file_rules foldl].
  { intros [= <-] _. cbn. rewrite !app_nil_r. by case_bool_decide. }
  unfold add_remote_filter_file_args at 2.
  destruct (read_file path) as [bytes|]; [|done]. cbn [mbind option_bind].
  destruct (parse_filter_file bytes from0 kind) as [here|]; [|done]. cbn [mbind option_bind].
  destruct (file_rules from0 kind paths) as [later|]; [|done]. intros [= <-] Hp.
  apply Forall_app in Hp as [Hp1 Hp2]. rewrite Hrules by done. rewrite fmap_app.
  case_bool_decide; rewrite (IH later) by done;
    rewrite ?(bool_decide_true (kind = Include)), ?(bool_decide_false (kind = Include)) by done;
    by rewrite app_assoc.
Qed.

Lemma file_rules_added from0 kind paths rules set report :
  file_rules from0 kind paths = Some rules →
  foldl (add_filter_file_rules from0 kind) (set, report) paths = (foldl push_rule set rules, report).
Proof.
  revert rules set. induction paths as [|path paths IH]; intros rules set; cbn [file_rules foldl].
  { by intros [= <-]. }
  unfold add_filter_file_rules at 2. destruct (read_file path) as [bytes|]; [|done].
  cbn [mbind option_bind]. destruct (parse_filter_file bytes from0 kind) as [here|]; [|done].
  cbn [mbind option_bind]. destruct (file_rules from0 kind paths) as [later|]; [|done].
  intros [= <-]. by rewrite (IH later), foldl_app.
Qed.

Lemma planned_filter_args cli included excluded :
  cvs_exclude cli = false →
  file_rules (from0 cli) Include (include_from cli) = Some included →
  file_rules (from0 cli) Exclude (exclude_from cli) = Some excluded →
  Forall (plain Include) included → Forall (plain Exclude) excluded →
  remote_receiver_filter_args_from_cli cli =
    (includes cli ++ (pattern_raw <$> included), excludes cli ++ (pattern_raw <$> excluded),
     filters cli).
Proof.
  intros Hcvs Hi He Hpi Hpe. unfold remote_receiver_filter_args_from_cli. rewrite Hcvs, app_nil_r.
  rewrite (plain_file_args _ _ _ included) by auto. decide_features. cbn iota.
  by rewrite (plain_file_args _ _ _ excluded) by auto.
Qed.

(** The filter arguments of the options are read as the rules the client has built. *)
Lemma planned_rules_understood cli direction recursive preserve_times symlink_mode
    included excluded rules :
  let options :=
    remote_shell_options_from_cli cli direction recursive preserve_times symlink_mode in
  cvs_exclude cli = false →
  file_rules (from0 cli) Include (include_from cli) = Some included →
  file_rules (from0 cli) Exclude (exclude_from cli) = Some excluded →
  Forall (plain Include) included → Forall (plain Exclude) excluded →
  unprefixed "--include=" (RemoteArgs.includes options) →
  unprefixed "--exclude=" (RemoteArgs.excludes options) →
  unprefixed "--filter=" (RemoteArgs.filters options) →
  build_filter_rules cli = (rules, []) →
  understood_rules options = Ok rules.
Proof.
  intros options Hcvs Hi He Hpi Hpe.
  pose proof (planned_filter_args cli included excluded Hcvs Hi He Hpi Hpe) as Hargs.
  subst options. unfold remote_shell_options_from_cli. rewrite Hargs. cbn zeta. cbn [RemoteArgs.includes RemoteArgs.excludes RemoteArgs.filters].
  intros Hui Hue Huf Hb. unfold build_filter_rules in Hb. rewrite Hcvs in Hb.
  destruct (add_filter_rules _ include _ _) as [r1 report1] eqn:H1.
  rewrite (file_rules_added _ _ _ included) in Hb by done.
  destruct (add_filter_rules _ exclude _ _) as [r2 report2] eqn:H2.
  rewrite (file_rules_added _ _ _ excluded) in Hb by done.
  apply add_filter_rules_spec in Hb as [-> (rf & Hf & ->)].
  apply add_filter_rules_spec in H2 as [-> (re & Hre & ->)].
  apply add_filter_rules_spec in H1 as [_ (ri & Hri & ->)].
  assert (Hwi : reads include (pattern_raw <$> included) included)
    by (apply plain_rules_read; [by left|done|by apply (file_rules_well_formed _ _ _ _) in Hi]).
  assert (Hwe : reads exclude (pattern_raw <$> excluded) excluded)
    by (apply plain_rules_read; [by right|done|by apply (file_rules_well_formed _ _ _ _) in He]).
  unfold understood_rules. cbn [RemoteArgs.includes RemoteArgs.excludes RemoteArgs.filters].
  rewrite (add_rules_reads _ _ _ _ _ (ri ++ included)) by (done || by apply Forall2_app).
  cbn [and_then]. rewrite (add_rules_reads _ _ _ _ _ (re ++ excluded)) by (done || by apply Forall2_app).
  cbn [and_then]. rewrite (add_rules_reads _ _ _ _ _ rf) by done. by rewrite !foldl_app.
Qed.
End server_filters.

(** ** The fields of a plan *)

Section plans.
Context `{Files} `{Platform}.

(** The parts of a plan that later lemmas speak of. *)
Record plan_of (cli : Cli) (plan : TransferPlan) : Prop := {
  pf_recursive : p_recursive plan = (recursive cli || archive cli) && negb (no_recursive cli);
  pf_times : p_preserve_times plan = (preserve_times cli || archive cli) && negb (no_times cli);
  pf_delete : p_delete plan = delete cli || bool_decide (delete_mode cli ≠ NoDelete);
  pf_delete_mode : p_delete_mode plan = plan_delete_mode cli;
  pf_dry_run : p_dry_run plan = dry_run cli;
  pf_whole_file : p_whole_file plan = whole_file cli;
  pf_update : p_update_mode plan = update_mode_from_cli cli;
  pf_write : p_file_write_mode plan = if inplace cli then InPlace else Atomic;
  pf_append : p_append_verify plan = append_verify cli;
  pf_symlinks : p_symlink_mode plan = symlink_mode_from_cli cli;
  pf_owner : p_preserve_owner plan = cli_preserve_owner cli;
  pf_group : p_preserve_group plan = cli_preserve_group cli;
  pf_numeric : p_numeric_ids plan = numeric_ids cli;
  pf_chmod : p_chmod_rules plan = (parse_chmod_rules cli).1;
  pf_filters : p_filter_rules plan = (build_filter_rules cli).1;
  pf_rsync_path : p_rsync_path plan = rsync_path cli;
  pf_secluded_args : p_secluded_args plan = secluded_args cli;
  pf_verbosity : p_verbosity plan = verbosity cli;
  pf_checksum_choice : p_checksum_choice plan = checksum_choice cli;
  pf_checksum_seed : p_checksum_seed plan = checksum_seed cli;
  pf_partial_dir : p_partial_dir plan = partial_dir cli;
  pf_user_maps : p_user_maps plan = user_maps cli;
  pf_group_maps : p_group_maps plan = group_maps cli;
  pf_chown : p_chown plan = chown cli;
  pf_chmod_text : p_chmod plan = chmod cli;
  pf_policy : p_metadata_policy plan = policy_of (Cli.metadata_policy cli);
  pf_fake_super : p_fake_super plan = fake_super cli;
  pf_atimes : p_atimes plan = atimes cli;
  pf_crtimes : p_crtimes plan = crtimes cli;
  pf_omit_dir_times : p_omit_dir_times plan = omit_dir_times cli;
  pf_omit_link_times : p_omit_link_times plan = omit_link_times cli;
  pf_keep_dirlinks : p_keep_dirlinks plan = keep_dirlinks cli;
  pf_hard_links : p_hard_links plan = hard_links cli;
  pf_block_size : p_block_size plan = block_size cli;
  pf_compress : p_compress plan = compress cli;
  pf_compress_choice : p_compress_choice plan = compress_choice cli;
  pf_compress_level : p_compress_level plan = compress_level cli;
  pf_compress_threads : p_compress_threads plan = compress_threads cli;
  pf_skip_compress : p_skip_compress plan = skip_compress cli;
  pf_outbuf : p_outbuf plan = outbuf cli;
  pf_remote_options : p_remote_options plan = remote_options cli;
  pf_keep_partial : p_keep_partial plan = partial cli;
  pf_preserve_executability : p_preserve_executability plan = executability cli;
  pf_preserve_acls : p_preserve_acls plan = acls cli;
  pf_preserve_xattrs : p_preserve_xattrs plan = xattrs cli;
  pf_preserve_permissions : p_preserve_permissions plan = cli_preserve_permissions cli;
  pf_preserve_devices : p_preserve_devices plan = cli_preserve_devices cli;
  pf_preserve_specials : p_preserve_specials plan = cli_preserve_specials cli;
}.

Lemma from_cli_plan cli now now_system plan :
  from_cli cli now now_system = Ok plan → plan_of cli plan.
Proof.
  unfold from_cli. cbv zeta. destruct (build_filter_rules cli) as [rules filter_report] eqn:Hf.
  destruct (parse_chmod_rules cli) as [chmod chmod_report] eqn:Hc. intros Hp.
  repeat match type of Hp with
         | match ?x with (_, _) => _ end = _ => destruct x
         end.
  apply and_then_Ok in Hp as ([deadline codes] & _ & [= <-]).
  constructor; try done; cbn [p_chmod_rules p_filter_rules]; [by rewrite Hc|by rewrite Hf].
Qed.

(** ** What the daemon server makes of a plan *)






(** C24. The daemon server filters by the rules of the plan. Let the client's arguments be
    neither secluded (-s: then no filter is sent at all) nor extended by --remote-option (-M),
    with a block size and compression level within their types; let --cvs-exclude be away,
    the files of --include-from and --exclude-from hold plain rules of their own kind only,
    no pattern or rule begin with the very name of its option, and all rules be understood by
    the client. Then the transfer that the server makes of the arguments, if it accepts
    them, has the very rules, in their order, that the client's plan has. *)
Theorem server_filters_as_planned cli now now_system plan direction daemon protocol args transfer
    included excluded :
  from_cli cli now now_system = Ok plan →
  Cli.remote_options cli = [] → Cli.secluded_args cli = false →
  (∀ n, Cli.block_size cli = Some n → 0 ≤ n ≤ usize_max) →
  (∀ n, Cli.compress_level cli = Some n → 0 ≤ n ≤ u32_max) →
  cvs_exclude cli = false →
  file_rules (from0 cli) Include (include_from cli) = Some included →
  file_rules (from0 cli) Exclude (exclude_from cli) = Some excluded →
  Forall (plain Include) included → Forall (plain Exclude) excluded →
  unprefixed "--include=" (Cli.includes cli ++ (pattern_raw <$> included)) →
  unprefixed "--exclude=" (Cli.excludes cli ++ (pattern_raw <$> excluded)) →
  unprefixed "--filter=" (Cli.filters cli) →
  (build_filter_rules cli).2 = [] →
  daemon_server_args
    (daemon_remote_shell_options_from_cli cli direction (p_recursive plan)
       (p_preserve_times plan) (p_symlink_mode plan)) daemon protocol = Ok args →
  parse_transfer args = Ok transfer →
  DaemonArgs.filter_rules transfer = p_filter_rules plan.
Proof.
  intros Hplan Hr Hs Hb Hl Hcvs Hi He Hpi Hpe Hui Hue Huf Herr Hargs Ht.
  apply from_cli_plan in Hplan. rewrite (pf_filters _ _ Hplan).
  set (options := daemon_remote_shell_options_from_cli _ _ _ _ _) in Hargs.
  rewrite (daemon_args_understood options daemon protocol args) in Ht.
  2-6: done || (subst options; unfold daemon_remote_shell_options_from_cli,
         remote_shell_options_from_cli; by destruct (remote_receiver_filter_args_from_cli cli) as [[??]?]).
  unfold understood in Ht. apply and_then_Ok in Ht as (chmod & _ & Ht).
  apply and_then_Ok in Ht as (block & _ & Ht). apply and_then_Ok in Ht as (comp & _ & Ht).
  apply and_then_Ok in Ht as (filters & Hf & [= <-]). cbn.
  assert (Hsame : understood_rules options = understood_rules
    (remote_shell_options_from_cli cli direction (p_recursive plan) (p_preserve_times plan)
       (p_symlink_mode plan))) by by destruct direction.
  rewrite Hsame, (planned_rules_understood cli direction _ _ _ included excluded
    (build_filter_rules cli).1) in Hf; try done; [by injection Hf| | | |by rewrite <-Herr, <-surjective_pairing].
  all: unfold remote_shell_options_from_cli; rewrite (planned_filter_args cli included excluded) by done; done.
Qed.
End plans.

(** ** Archive mode *)

(** What a plan says apart from its diagnostics. *)
Definition without_report (plan : TransferPlan) : TransferPlan :=
  {| p_transfer_mode := p_transfer_mode plan; p_recursive := p_recursive plan;
     p_incremental_recursion := p_incremental_recursion plan; p_relative := p_relative plan;
     p_implied_dirs := p_implied_dirs plan; p_transfer_dirs := p_transfer_dirs plan;
     p_mkpath := p_mkpath plan; p_one_file_system := p_one_file_system plan;
     p_preserve_times := p_preserve_times plan; p_delete := p_delete plan;
     p_delete_mode := p_delete_mode plan; p_delete_excluded := p_delete_excluded plan;
     p_ignore_errors := p_ignore_errors plan; p_force_delete := p_force_delete plan;
     p_max_delete := p_max_delete plan; p_dry_run := p_dry_run plan;
     p_whole_file := p_whole_file plan; p_compress := p_compress plan;
     p_compress_choice := p_compress_choice plan; p_compress_level := p_compress_level plan;
     p_compress_threads := p_compress_threads plan; p_skip_compress := p_skip_compress plan;
     p_verbosity := p_verbosity plan; p_progress := p_progress plan;
     p_human_readable := p_human_readable plan; p_update_mode := p_update_mode plan;
     p_skip_newer_receiver := p_skip_newer_receiver plan;
     p_existing_only := p_existing_only plan; p_ignore_existing := p_ignore_existing plan;
     p_max_size := p_max_size plan; p_min_size := p_min_size plan;
     p_modify_window := p_modify_window plan;
     p_ignore_missing_args := p_ignore_missing_args plan;
     p_delete_missing_args := p_delete_missing_args plan;
     p_file_write_mode := p_file_write_mode plan; p_keep_partial := p_keep_partial plan;
     p_partial_dir := p_partial_dir plan; p_temp_dir := p_temp_dir plan;
     p_delay_updates := p_delay_updates plan; p_fsync := p_fsync plan;
     p_append_verify := p_append_verify plan; p_append := p_append plan;
     p_block_size := p_block_size plan; p_checksum_choice := p_checksum_choice plan;
     p_checksum_seed := p_checksum_seed plan; p_symlink_mode := p_symlink_mode plan;
     p_keep_dirlinks := p_keep_dirlinks plan; p_hard_links := p_hard_links plan;
     p_preserve_devices := p_preserve_devices plan;
     p_preserve_specials := p_preserve_specials plan;
     p_preserve_permissions := p_preserve_permissions plan;
     p_preserve_owner := p_preserve_owner plan; p_preserve_group := p_preserve_group plan;
     p_preserve_executability := p_preserve_executability plan;
     p_preserve_acls := p_preserve_acls plan; p_preserve_xattrs := p_preserve_xattrs plan;
     p_fake_super := p_fake_super plan; p_atimes := p_atimes plan; p_crtimes := p_crtimes plan;
     p_omit_dir_times := p_omit_dir_times plan; p_omit_link_times := p_omit_link_times plan;
     p_vss := p_vss plan; p_numeric_ids := p_numeric_ids plan; p_user_maps := p_user_maps plan;
     p_group_maps := p_group_maps plan; p_chown := p_chown plan; p_chmod := p_chmod plan;
     p_chmod_rules := p_chmod_rules plan; p_metadata_policy := p_metadata_policy plan;
     p_filter_rules := p_filter_rules plan; p_backup := p_backup plan;
     p_backup_dir := p_backup_dir plan; p_backup_suffix := p_backup_suffix plan;
     p_remote_options := p_remote_options plan; p_rsync_path := p_rsync_path plan;
     p_blocking_io := p_blocking_io plan; p_old_args := p_old_args plan;
     p_secluded_args := p_secluded_args plan; p_trust_sender := p_trust_sender plan;
     p_ipv4 := p_ipv4 plan; p_ipv6 := p_ipv6 plan; p_remote := p_remote plan;
     p_daemon_operand := p_daemon_operand plan; p_daemon_direction := p_daemon_direction plan;
     p_compare_dest := p_compare_dest plan; p_copy_dest := p_copy_dest plan;
     p_link_dest := p_link_dest plan; p_sparse := p_sparse plan;
     p_preallocate := p_preallocate plan; p_fuzzy := p_fuzzy plan; p_copy_as := p_copy_as plan;
     p_super_flag := p_super_flag plan; p_write_batch := p_write_batch plan;
     p_only_write_batch := p_only_write_batch plan; p_read_batch := p_read_batch plan;
     p_bwlimit := p_bwlimit plan; p_timeout_secs := p_timeout_secs plan;
     p_stop_after_minutes := p_stop_after_minutes plan;
     p_time_limit_minutes := p_time_limit_minutes plan; p_stop_deadline := p_stop_deadline plan;
     p_stop_at := p_stop_at plan; p_max_alloc := p_max_alloc plan;
     p_max_alloc_display := p_max_alloc_display plan; p_early_input := p_early_input plan;
     p_outbuf := p_outbuf plan; p_protocol_version := p_protocol_version plan;
     p_iconv := p_iconv plan; p_open_noatime := p_open_noatime plan; p_report := [] |}.

Section archive.
Context `{Files} `{Platform}.

(** The options that -a and its letters set. *)
Record Letters := {
  l_archive : bool;
  l_recursive : bool;
  l_no_recursive : bool;
  l_links : bool;
  l_no_links : bool;
  l_preserve_permissions : bool;
  l_no_permissions : bool;
  l_preserve_times : bool;
  l_no_times : bool;
  l_preserve_group : bool;
  l_no_group : bool;
  l_preserve_owner : bool;
  l_no_owner : bool;
  l_devices : bool;
  l_no_devices : bool;
  l_specials : bool;
  l_no_specials : bool;
}.

Definition with_letters (c : Cli) (l : Letters) : Cli :=
  Build_Cli
    (version c) (protocol_range c) (plan c) (l_recursive l) (l_no_recursive l) (inc_recursive c)
    (no_inc_recursive c) (l_preserve_times l) (l_no_times l) (l_archive l) (dry_run c)
    (delete c) (delete_mode c) (whole_file c) (compress c) (compress_choice c)
    (compress_level c) (compress_threads c) (skip_compress c) (quiet c) (info_flags c)
    (debug_flags c) (msgs2stderr c) (no_msgs2stderr c) (stderr_mode c) (out_format c)
    (eight_bit_output c) (client_log_file c) (client_log_file_format c) (human_readable c)
    (help c) (progress c) (relative c) (implied_dirs c) (transfer_dirs c) (mkpath c)
    (one_file_system c) (verbosity c) (itemize_changes c) (stats c) (list_only c)
    (metadata_policy c) (fail_on_metadata_loss c) (l_preserve_permissions l)
    (l_no_permissions l) (l_preserve_owner l) (l_preserve_group l) (executability c) (acls c)
    (xattrs c) (fake_super c) (atimes c) (crtimes c) (omit_dir_times c) (omit_link_times c)
    (vss c) (daemon_server c) (daemon_config c) (daemon_params c) (daemon_no_detach c)
    (daemon_address c) (daemon_port c) (daemon_sockopts c) (daemon_connect_timeout_secs c)
    (daemon_no_motd c) (daemon_log_file c) (daemon_log_file_format c) (daemon_bwlimit c)
    (internal_server c) (internal_sender c) (includes c) (excludes c) (filters c)
    (exclude_from c) (include_from c) (cvs_exclude c) (files_from c) (from0 c) (checksum c)
    (checksum_choice c) (checksum_seed c) (size_only c) (ignore_times c) (partial c)
    (partial_dir c) (inplace c) (append_verify c) (append c) (update c) (existing c)
    (ignore_existing c) (max_size c) (min_size c) (modify_window c) (ignore_missing_args c)
    (delete_missing_args c) (delete_excluded c) (ignore_errors c) (force c) (max_delete c)
    (backup c) (backup_dir c) (suffix c) (temp_dir c) (delay_updates c) (fsync c)
    (numeric_ids c) (user_maps c) (group_maps c) (chown c) (l_no_owner l) (l_no_group l)
    (chmod c) (remote_shell c) (password_file c) (copy_links c) (safe_links c)
    (copy_unsafe_links c) (copy_dirlinks c) (keep_dirlinks c) (munge_links c) (l_links l)
    (l_no_links l) (hard_links c) (l_devices l) (l_specials l) (l_no_devices l)
    (l_no_specials l) (copy_devices c) (write_devices c) (block_size c) (remote_options c)
    (rsync_path c) (blocking_io c) (old_args c) (secluded_args c) (trust_sender c) (ipv4 c)
    (ipv6 c) (accepted_unsupported_options c) (compare_dest c) (copy_dest c) (link_dest c)
    (sparse c) (preallocate c) (fuzzy c) (copy_as c) (super_flag c) (write_batch c)
    (only_write_batch c) (read_batch c) (bwlimit c) (timeout_secs c) (stop_after_minutes c)
    (time_limit_minutes c) (stop_at c) (max_alloc c) (early_input c) (outbuf c)
    (protocol_version c) (iconv c) (open_noatime c) (paths c).

Definition archived (c : Cli) : Letters :=
  {| l_archive := true; l_recursive := recursive c; l_no_recursive := false; l_links := links c;
     l_no_links := false; l_preserve_permissions := preserve_permissions c;
     l_no_permissions := false; l_preserve_times := preserve_times c; l_no_times := false;
     l_preserve_group := preserve_group c; l_no_group := false;
     l_preserve_owner := preserve_owner c; l_no_owner := false; l_devices := devices c;
     l_no_devices := false; l_specials := specials c; l_no_specials := false |}.

Definition lettered (c : Cli) : Letters :=
  {| l_archive := archive c; l_recursive := true; l_no_recursive := false; l_links := true;
     l_no_links := false; l_preserve_permissions := true; l_no_permissions := false;
     l_preserve_times := true; l_no_times := false; l_preserve_group := true;
     l_no_group := false; l_preserve_owner := true; l_no_owner := false; l_devices := true;
     l_no_devices := false; l_specials := true; l_no_specials := false |}.

Lemma archive_arguments c :
  parse_arguments false c [lit "-a"] = Ok (with_letters c (archived c)) ∧
  parse_arguments false c [lit "-rlptgoD"] = Ok (with_letters c (lettered c)).
Proof. destruct c. split; reflexivity. Qed.

Definition link_mode (preserve : bool) (c : Cli) : SymlinkMode :=
  if copy_links c then CopyAll
  else if copy_dirlinks c then CopyDirLinks
  else if copy_unsafe_links c then CopyUnsafe
  else if safe_links c then SafeOnly
  else if munge_links c then Munge
  else if preserve then Preserve
  else Skip.

(** What a plan takes from the letters. *)
Record same_requests (c1 c2 : Cli) : Prop := {
  sr_recursive : (recursive c1 || archive c1) && negb (no_recursive c1) =
                 (recursive c2 || archive c2) && negb (no_recursive c2);
  sr_times : (preserve_times c1 || archive c1) && negb (no_times c1) =
             (preserve_times c2 || archive c2) && negb (no_times c2);
  sr_symlinks : symlink_mode_from_cli c1 = symlink_mode_from_cli c2;
  sr_links : links c1 || archive c1 = links c2 || archive c2;
  sr_permissions : cli_preserve_permissions c1 = cli_preserve_permissions c2;
  sr_owner : cli_preserve_owner c1 = cli_preserve_owner c2;
  sr_group : cli_preserve_group c1 = cli_preserve_group c2;
  sr_devices : cli_preserve_devices c1 = cli_preserve_devices c2;
  sr_specials : cli_preserve_specials c1 = cli_preserve_specials c2;
}.

Lemma archive_requests c :
  same_requests (with_letters c (archived c)) (with_letters c (lettered c)).
Proof.
  constructor.
  - change ((recursive c || true) && true = true). by rewrite orb_true_r.
  - change ((preserve_times c || true) && true = true). by rewrite orb_true_r.
  - change (link_mode (links c || true) c = link_mode (true || archive c) c).
    by rewrite orb_true_r.
  - change (links c || true = true). apply orb_true_r.
  - change ((preserve_permissions c || true) && true = true). by rewrite orb_true_r.
  - change (preserve_owner c || true && true = true). apply orb_true_r.
  - change (preserve_group c || true && true = true). apply orb_true_r.
  - change ((devices c || true || copy_devices c || write_devices c) && true = true).
    by rewrite orb_true_r.
  - change ((specials c || true) && true = true). by rewrite orb_true_r.
Qed.

(** The parts of a plan that do not look at the letters. *)
Lemma same_filter_args c l1 l2 :
  remote_receiver_filter_args_from_cli (with_letters c l1) =
  remote_receiver_filter_args_from_cli (with_letters c l2).
Proof. reflexivity. Qed.
Lemma same_parts c l1 l2 :
  build_filter_rules (with_letters c l1) = build_filter_rules (with_letters c l2) ∧
  parse_chmod_rules (with_letters c l1) = parse_chmod_rules (with_letters c l2) ∧
  plan_daemon_operands (with_letters c l1) = plan_daemon_operands (with_letters c l2) ∧
  (∀ protocol options, plan_remote_shell (with_letters c l1) protocol options =
                       plan_remote_shell (with_letters c l2) protocol options).
Proof. split_and!; reflexivity. Qed.

Lemma same_options c l1 l2 direction recursive preserve_times symlink_mode :
  same_requests (with_letters c l1) (with_letters c l2) →
  remote_shell_options_from_cli (with_letters c l1) direction recursive preserve_times
    symlink_mode =
  remote_shell_options_from_cli (with_letters c l2) direction recursive preserve_times
    symlink_mode.
Proof.
  intros []. unfold remote_shell_options_from_cli. rewrite (same_filter_args c l1 l2).
  destruct (remote_receiver_filter_args_from_cli (with_letters c l2)) as [[includes excludes] filters].
  cbv zeta.
  rewrite sr_links0, sr_permissions0, sr_owner0, sr_group0, sr_devices0, sr_specials0.
  reflexivity.
Qed.

Lemma plan_remote_shell_ext c protocol options1 options2 :
  (∀ direction, options1 direction = options2 direction) →
  plan_remote_shell c protocol options1 = plan_remote_shell c protocol options2.
Proof.
  intros Ho. unfold plan_remote_shell. destruct (last (paths c)); [|done].
  case_match; [done|]. cbv zeta. destruct (parse_remote_shell_operand _) as [destination report].
  destruct (omap id _), destination; rewrite ?Ho; done.
Qed.

Lemma same_plans c l1 l2 now now_system :
  same_requests (with_letters c l1) (with_letters c l2) →
  (let? plan := from_cli (with_letters c l1) now now_system in Ok (without_report plan)) =
  (let? plan := from_cli (with_letters c l2) now now_system in Ok (without_report plan)).
Proof.
  intros Hr. destruct (same_parts c l1 l2) as (Hf & Hc & Hd & Hs). unfold from_cli.
  rewrite Hf, Hc, Hd. cbv zeta.
  rewrite (sr_recursive _ _ Hr), (sr_times _ _ Hr), (sr_symlinks _ _ Hr).
  change (remote_wire_protocol_from_cli (with_letters c l1))
    with (remote_wire_protocol_from_cli (with_letters c l2)).
  change (daemon_server (with_letters c l1)) with (daemon_server (with_letters c l2)).
  change (internal_server (with_letters c l1)) with (internal_server (with_letters c l2)).
  destruct (build_filter_rules _) as [rules filter_report],
    (parse_chmod_rules _) as [chmod chmod_report],
    (remote_wire_protocol_from_cli _) as [protocol protocol_report].
  match goal with |- context [if ?b then _ else plan_daemon_operands ?x] =>
    destruct (if b then (None, None, false, []) else plan_daemon_operands x)
      as [[[daemon_operand daemon_direction] has_daemon_operand] daemon_report] end.
  erewrite (plan_remote_shell_ext (with_letters c l1)) by (intros; by apply (same_options c l1 l2)).
  rewrite Hs.
  match goal with |- context [if ?b then _ else plan_remote_shell ?x ?y ?z] =>
    destruct (if b then (no_remote, []) else plan_remote_shell x y z) as [remote remote_report] end.
  change (StopAt.stop_deadline (stop_after_minutes (with_letters c l1)) _ _ _ _) with
    (StopAt.stop_deadline (stop_after_minutes (with_letters c l2))
       (time_limit_minutes (with_letters c l2)) (stop_at (with_letters c l2)) now now_system).
  destruct (StopAt.stop_deadline _ _ _ _ _) as [[deadline codes]|]; [|done].
  cbn [and_then]. rewrite (sr_permissions _ _ Hr), (sr_owner _ _ Hr), (sr_group _ _ Hr),
    (sr_devices _ _ Hr), (sr_specials _ _ Hr).
  match goal with |- Ok (without_report ?x) = Ok (without_report ?y) =>
    let x' := eval hnf in (without_report x) in
    let y' := eval hnf in (without_report y) in
    change (without_report x) with x'; change (without_report y) with y' end.
  f_equal.
Qed.

(** C25. Archive mode is its letters: whatever comes before it on the command line, -a
    plans the very transfer that -rlptgoD plans, the server's arguments and the remote
    command included; the plans differ in their diagnostics alone. *)
Theorem archive_is_its_letters c now now_system :
  ∃ c1 c2,
    parse_arguments false c [lit "-a"] = Ok c1 ∧
    parse_arguments false c [lit "-rlptgoD"] = Ok c2 ∧
    (let? plan := from_cli c1 now now_system in Ok (without_report plan)) =
    (let? plan := from_cli c2 now now_system in Ok (without_report plan)).
Proof.
  destruct (archive_arguments c) as [Ha Hl]. do 2 eexists. split_and!; [done..|].
  apply same_plans, archive_requests.
Qed.
End archive.

(** ** The command of the remote shell *)

Section commands.
Context `{Files} `{Platform}.

Lemma plan_remote_shell_command cli protocol options plan report command :
  plan_remote_shell cli protocol options = (plan, report) → ssh_command plan = Some command →
  ∃ direction host paths invocation,
    build_remote_shell_invocation_for_wire_protocol protocol (options direction) paths =
      Ok invocation ∧
    build_remote_transport_command cli host (argv invocation) = Ok command ∧
    server_argv plan = Some (argv invocation).
Proof.
  assert (Hcommand : ∀ direction remote remotes plan report,
    plan_remote_command cli protocol (options direction) direction remote remotes = (plan, report) →
    ssh_command plan = Some command →
    ∃ host paths invocation,
      build_remote_shell_invocation_for_wire_protocol protocol (options direction) paths =
        Ok invocation ∧
      build_remote_transport_command cli host (argv invocation) = Ok command ∧
      server_argv plan = Some (argv invocation)).
  { intros direction remote remotes plan' report'. unfold plan_remote_command.
    destruct (build_remote_shell_invocation_for_wire_protocol _ _ _) as [invocation|] eqn:Hi;
      [|by intros [= <- <-]].
    destruct (build_remote_transport_command _ _ _) as [command'|] eqn:Hc; [|by intros [= <- <-]].
    intros [= <- <-]. cbn. intros [= ->]. by do 3 eexists. }
  unfold plan_remote_shell. destruct (last (paths cli)); [|by intros [= <- <-]].
  case_match; [by intros [= <- <-]|]. cbv zeta.
  destruct (parse_remote_shell_operand _) as [destination destination_report].
  intros Hp. repeat match type of Hp with
    | (let '(_, _) := ?x in _) = _ => destruct x as [plan' more] eqn:Hx; injection Hp as <- <-
    end.
  revert Hx. destruct (omap id _) as [|remote remotes], destination as [destination|];
    try (by intros [= <- <-]).
  - intros Hx Hc. exists Push. by eapply Hcommand.
  - case_match; [by intros [= <- <-]|]. case_match; [by intros [= <- <-]|].
    intros Hx Hc. exists Pull. by eapply Hcommand.
Qed.

Lemma invocation_program protocol options paths invocation :
  build_remote_shell_invocation_for_wire_protocol protocol options paths = Ok invocation →
  ∃ args, argv invocation = RemoteArgs.rsync_path options :: args.
Proof.
  unfold build_remote_shell_invocation_for_wire_protocol, build_remote_shell_invocation_for_paths,
    build_remote_shell_protocol31_invocation_for_paths, server_args, server_args31,
    remote_shell_invocation_for_argv.
  intros Hi. destruct protocol; apply and_then_Ok in Hi as (all & Ha & [= <-]);
    apply and_then_Ok in Ha as (paths' & _ & [= <-]);
    destruct (RemoteArgs.secluded_args options); by eexists.
Qed.

Lemma transport_command_runs cli host server_argv command :
  build_remote_transport_command cli host server_argv = Ok command →
  remote_command command = remote_server_command server_argv (Cli.old_args cli) ∧
  last (args command) = Some (remote_command command).
Proof.
  unfold build_remote_transport_command, build_custom_remote_shell_command_with_options.
  assert (Hb : ∀ program args, let command := build_remote_shell_command program args host
      server_argv (remote_shell_command_options_from_cli cli) in
    remote_command command = remote_server_command server_argv (Cli.old_args cli) ∧
    last (RemoteShell.args command) = Some (remote_command command)).
  { intros program args. split; [done|]. unfold build_remote_shell_command.
    cbn [RemoteShell.args remote_command]. by rewrite app_assoc, last_app. }
  destruct (remote_shell cli) as [shell|].
  - intros Hc. apply and_then_Ok in Hc as ([program args] & _ & [= <-]). apply Hb.
  - intros [= <-]. apply Hb.
Qed.

(** C23. Without --old-args, which leaves the arguments to the shell, what the remote shell
    is asked to run is the planned server: its last argument is a command that a POSIX shell
    reads as the words it reads --rsync-path as (or rsync), where it reads that at all, and
    after them exactly the planned arguments, patterns and paths with any characters
    included. *)
Theorem planned_command_runs_the_server cli now now_system plan command words :
  from_cli cli now now_system = Ok plan →
  ssh_command (p_remote plan) = Some command → Cli.old_args cli = false →
  posix_words (default (lit "rsync") (Cli.rsync_path cli)) = Some words →
  ∃ argv, server_argv (p_remote plan) = Some argv ∧
    last (args command) = Some (remote_command command) ∧
    posix_words (remote_command command) = Some (words ++ drop 1 argv).
Proof.
  intros Hplan Hc Ho Hw.
  assert (Hr : ∃ protocol recursive preserve_times symlink_mode report,
    plan_remote_shell cli protocol (λ direction, remote_shell_options_from_cli cli direction
      recursive preserve_times symlink_mode) = (p_remote plan, report)).
  { revert Hplan. unfold from_cli. cbv zeta. intros Hp.
    repeat match type of Hp with
           | (let '(_, _) := ?x in _) = _ => destruct x eqn:?
           end.
    apply and_then_Ok in Hp as ([deadline codes] & _ & [= <-]). cbn in Hc |- *.
    case_match; [by simplify_eq|]. by repeat eexists. }
  destruct Hr as (protocol & recursive & preserve_times & symlink_mode & report & Hr).
  destruct (plan_remote_shell_command _ _ _ _ _ _ Hr Hc)
    as (direction & host & paths & invocation & Hi & Ht & Hs).
  destruct (invocation_program _ _ _ _ Hi) as [server_args Hargv].
  destruct (transport_command_runs _ _ _ _ Ht) as [Hcommand Hlast].
  exists (argv invocation). split_and!; [done..|].
  rewrite Hcommand, Ho, Hargv. unfold remote_shell_options_from_cli.
  destruct (remote_receiver_filter_args_from_cli cli) as [[includes excludes] filters].
  cbn [drop RemoteArgs.rsync_path]. by apply remote_words.
Qed.
End commands.

(** ** The fallback to protocol 27 *)

Definition without_incremental (o : RemoteShellOptions) : RemoteShellOptions :=
  {| RemoteArgs.rsync_path := RemoteArgs.rsync_path o;
     RemoteArgs.direction := RemoteArgs.direction o;
     RemoteArgs.secluded_args := RemoteArgs.secluded_args o;
     RemoteArgs.recursive := RemoteArgs.recursive o; RemoteArgs.incremental_recursion := false;
     RemoteArgs.preserve_times := RemoteArgs.preserve_times o;
     RemoteArgs.delete_mode := RemoteArgs.delete_mode o;
     RemoteArgs.dry_run := RemoteArgs.dry_run o;
     RemoteArgs.whole_file := RemoteArgs.whole_file o;
     RemoteArgs.verbosity := RemoteArgs.verbosity o;
     RemoteArgs.preserve_permissions := RemoteArgs.preserve_permissions o;
     RemoteArgs.use_checksum := RemoteArgs.use_checksum o;
     RemoteArgs.checksum_choice := RemoteArgs.checksum_choice o;
     RemoteArgs.checksum_seed_option := RemoteArgs.checksum_seed_option o;
     RemoteArgs.size_only := RemoteArgs.size_only o;
     RemoteArgs.ignore_times := RemoteArgs.ignore_times o;
     RemoteArgs.partial := RemoteArgs.partial o;
     RemoteArgs.partial_dir := RemoteArgs.partial_dir o;
     RemoteArgs.inplace := RemoteArgs.inplace o;
     RemoteArgs.append_verify := RemoteArgs.append_verify o;
     RemoteArgs.executability := RemoteArgs.executability o;
     RemoteArgs.owner := RemoteArgs.owner o; RemoteArgs.group := RemoteArgs.group o;
     RemoteArgs.numeric_ids_option := RemoteArgs.numeric_ids_option o;
     RemoteArgs.user_maps := RemoteArgs.user_maps o;
     RemoteArgs.group_maps := RemoteArgs.group_maps o; RemoteArgs.chown := RemoteArgs.chown o;
     RemoteArgs.chmod_option := RemoteArgs.chmod_option o;
     RemoteArgs.acls_option := RemoteArgs.acls_option o;
     RemoteArgs.xattrs_option := RemoteArgs.xattrs_option o;
     RemoteArgs.fake_super_option := RemoteArgs.fake_super_option o;
     RemoteArgs.atimes_option := RemoteArgs.atimes_option o;
     RemoteArgs.crtimes_option := RemoteArgs.crtimes_option o;
     RemoteArgs.omit_dir_times := RemoteArgs.omit_dir_times o;
     RemoteArgs.omit_link_times := RemoteArgs.omit_link_times o;
     RemoteArgs.preserve_links := RemoteArgs.preserve_links o;
     RemoteArgs.copy_links := RemoteArgs.copy_links o;
     RemoteArgs.copy_dirlinks := RemoteArgs.copy_dirlinks o;
     RemoteArgs.keep_dirlinks := RemoteArgs.keep_dirlinks o;
     RemoteArgs.safe_links := RemoteArgs.safe_links o;
     RemoteArgs.copy_unsafe_links := RemoteArgs.copy_unsafe_links o;
     RemoteArgs.munge_links := RemoteArgs.munge_links o;
     RemoteArgs.hard_links := RemoteArgs.hard_links o;
     RemoteArgs.preserve_devices := RemoteArgs.preserve_devices o;
     RemoteArgs.preserve_specials := RemoteArgs.preserve_specials o;
     RemoteArgs.copy_devices := RemoteArgs.copy_devices o;
     RemoteArgs.write_devices := RemoteArgs.write_devices o;
     RemoteArgs.block_size := RemoteArgs.block_size o;
     RemoteArgs.compress := RemoteArgs.compress o;
     RemoteArgs.compress_choice := RemoteArgs.compress_choice o;
     RemoteArgs.compress_level := RemoteArgs.compress_level o;
     RemoteArgs.compress_threads := RemoteArgs.compress_threads o;
     RemoteArgs.skip_compress := RemoteArgs.skip_compress o;
     RemoteArgs.outbuf := RemoteArgs.outbuf o;
     RemoteArgs.remote_options := RemoteArgs.remote_options o;
     RemoteArgs.includes := RemoteArgs.includes o; RemoteArgs.excludes := RemoteArgs.excludes o;
     RemoteArgs.filters := RemoteArgs.filters o |}.

Lemma planned_delete_mode cli :
  remote_delete_mode (Cli.delete cli || bool_decide (Cli.delete_mode cli ≠ NoDelete))
    (plan_delete_mode cli) = remote_delete_mode_from_cli cli.
Proof.
  unfold remote_delete_mode_from_cli, plan_delete_mode, remote_delete_mode.
  by destruct (Cli.delete_mode cli), (Cli.delete cli).
Qed.

(** At most one of the three. *)
Definition one_comparison (cli : Cli) : bool :=
  negb (Cli.ignore_times cli && Cli.checksum cli) && negb (Cli.checksum cli && Cli.size_only cli) &&
  negb (Cli.ignore_times cli && Cli.size_only cli).

Section fallback.
Context `{Files} `{Platform}.

(** C26. A server that falls back to protocol 27 is asked for the transfer that was
    planned: the options of the second attempt, which are taken from the plan, are those
    of the first, which were taken from the command line, without incremental recursion,
    provided that at most one of --checksum, --size-only and --ignore-times was given, and
    that the compression asked for is one the client has. *)
Theorem fallback_asks_for_the_plan cli now now_system plan direction compression :
  from_cli cli now now_system = Ok plan → one_comparison cli = true →
  compression_for_plan (p_compress plan) (p_compress_choice plan) (p_compress_level plan)
    (p_skip_compress plan) = Ok compression →
  fallback_options cli plan direction compression =
  without_incremental
    (remote_shell_options_from_cli cli direction (p_recursive plan) (p_preserve_times plan)
       (p_symlink_mode plan)).
Proof.
  intros Hplan%from_cli_plan Hone Hcomp.
  rewrite (pf_compress _ _ Hplan), (pf_compress_choice _ _ Hplan) in Hcomp.
  assert (Hchoice : (λ c, remote_choice (compression_mode c)) <$> compression =
    remote_compress_choice_for_argv (Cli.compress cli) (Cli.compress_choice cli)).
  { revert Hcomp. unfold compression_for_plan, remote_compress_choice_for_argv.
    destruct (negb (Cli.compress cli)); [by intros [= <-]|].
    destruct (from_choice (Cli.compress_choice cli)); [|done]. by intros [= <-]. }
  assert (Hu : bool_decide (update_mode_from_cli cli = Checksum) = Cli.checksum cli ∧
    bool_decide (update_mode_from_cli cli = SizeOnly) = Cli.size_only cli ∧
    bool_decide (update_mode_from_cli cli = IgnoreTimes) = Cli.ignore_times cli).
  { unfold one_comparison, update_mode_from_cli in *.
    by destruct (Cli.ignore_times cli), (Cli.checksum cli), (Cli.size_only cli). }
  destruct Hu as (Hu1 & Hu2 & Hu3).
  unfold fallback_options, remote_shell_options_from_cli.
  destruct (remote_receiver_filter_args_from_cli cli) as [[includes excludes] filters].
  cbv zeta. rewrite (pf_rsync_path _ _ Hplan), (pf_secluded_args _ _ Hplan), (pf_verbosity _ _ Hplan),
    (pf_checksum_choice _ _ Hplan), (pf_checksum_seed _ _ Hplan), (pf_partial_dir _ _
    Hplan), (pf_user_maps _ _ Hplan), (pf_group_maps _ _ Hplan), (pf_chown _ _ Hplan),
    (pf_chmod_text _ _ Hplan), (pf_fake_super _ _ Hplan), (pf_atimes _ _ Hplan), (pf_crtimes
    _ _ Hplan), (pf_omit_dir_times _ _ Hplan), (pf_omit_link_times _ _ Hplan),
    (pf_keep_dirlinks _ _ Hplan), (pf_hard_links _ _ Hplan), (pf_block_size _ _ Hplan),
    (pf_compress _ _ Hplan),  (pf_compress_level _ _ Hplan),
    (pf_compress_threads _ _ Hplan), (pf_skip_compress _ _ Hplan), (pf_outbuf _ _ Hplan),
    (pf_remote_options _ _ Hplan), (pf_keep_partial _ _ Hplan), (pf_preserve_executability _
    _ Hplan), (pf_preserve_acls _ _ Hplan), (pf_preserve_xattrs _ _ Hplan),
    (pf_preserve_permissions _ _ Hplan), (pf_preserve_devices _ _ Hplan),
    (pf_preserve_specials _ _ Hplan), (pf_delete _ _ Hplan), (pf_delete_mode _ _ Hplan),
    (pf_dry_run _ _ Hplan), (pf_whole_file _ _ Hplan), (pf_update _ _ Hplan), (pf_write _ _
    Hplan), (pf_append _ _ Hplan), (pf_owner _ _ Hplan), (pf_group _ _ Hplan), (pf_numeric _
    _ Hplan).
  rewrite Hchoice, planned_delete_mode, Hu1, Hu2, Hu3.
  replace (bool_decide ((if Cli.inplace cli then InPlace else Atomic) = InPlace))
    with (Cli.inplace cli) by by destruct (Cli.inplace cli).
  reflexivity.
Qed.
End fallback.

(** ** What is executed *)

Definition executed (e : Execution) : bool := match e with Render _ => false | _ => true end.

Lemma has_errors_on asked d : has_errors (on asked d) = asked && has_severity Error d.
Proof. destruct asked; cbn; [apply orb_false_r|done]. Qed.

Lemma has_errors_cons d report : has_errors (d :: report) = has_severity Error d || has_errors report.
Proof. done. Qed.

Lemma has_errors_degradations ds :
  has_errors (add_metadata_degradations ds true) = existsb is_loss ds.
Proof.
  induction ds as [|d ds IH]; [done|]. cbn [add_metadata_degradations fmap list_fmap].
  rewrite has_errors_cons. fold (add_metadata_degradations ds true). rewrite IH. unfold degradation_diagnostic, has_severity. cbn [severity diagnostic existsb].
  by destruct (is_loss d).
Qed.

(** The filters report errors only. *)
Definition all_errors (report : Report) : Prop := Forall (λ d, severity d = Error) report.

Lemma no_errors_none report : all_errors report → has_errors report = false → report = [].
Proof.
  intros [|d ds Hd _]; [done|]. cbn. unfold has_severity. by rewrite bool_decide_true.
Qed.

Section executed.
Context `{Files} `{Platform}.

Lemma add_filter_rules_errors message new values rules report :
  all_errors report → all_errors (add_filter_rules message new values (rules, report)).2.
Proof.
  unfold add_filter_rules. revert rules report. induction values as [|value values IH];
    intros rules report Hr; [done|].
  cbn [foldl]. unfold rule_or_error at 2. destruct (new value); apply IH; [done|].
  apply Forall_app. by repeat constructor.
Qed.

Lemma add_filter_files_errors from0 kind paths rules report :
  all_errors report → all_errors (foldl (add_filter_file_rules from0 kind) (rules, report) paths).2.
Proof.
  revert rules report. induction paths as [|path paths IH]; intros rules report Hr; [done|].
  cbn [foldl]. unfold add_filter_file_rules at 2.
  destruct (read_file path) as [bytes|]; [destruct (parse_filter_file bytes from0 kind)|];
    apply IH; [done|apply Forall_app; by repeat constructor..].
Qed.

Lemma filter_errors cli : all_errors (build_filter_rules cli).2.
Proof.
  unfold build_filter_rules. cbv zeta.
  set (s0 := if cvs_exclude cli then _ else _).
  assert (He0 : all_errors s0.2).
  { subst s0. destruct (cvs_exclude cli); [apply add_filter_rules_errors|]; constructor. }
  destruct s0 as [r0 e0].
  pose proof (add_filter_rules_errors "invalid include pattern: {err}" include (includes cli) r0 e0 He0) as He1.
  destruct (add_filter_rules _ include _ _) as [r1 e1].
  pose proof (add_filter_files_errors (from0 cli) Include (include_from cli) r1 e1 He1) as He2.
  destruct (foldl _ (r1, e1) _) as [r2 e2].
  pose proof (add_filter_rules_errors "invalid exclude pattern: {err}" exclude (excludes cli) r2 e2 He2) as He3.
  destruct (add_filter_rules _ exclude _ _) as [r3 e3].
  pose proof (add_filter_files_errors (from0 cli) Exclude (exclude_from cli) r3 e3 He3) as He4.
  destruct (foldl _ (r3, e3) _) as [r4 e4]. by apply add_filter_rules_errors.
Qed.

Lemma executed_without_errors cli plan e :
  execute_or_render cli plan = Ok e → executed e = true → has_errors (p_report plan) = false.
Proof.
  unfold execute_or_render. destruct (help cli || _ || _ || _); [by intros [= <-]|].
  destruct (has_errors _); [by intros [= <-]|done].
Qed.

(** The part of the report that the command line alone decides, and what is lost of the
    metadata. *)
Lemma planned_report cli now now_system plan :
  from_cli cli now now_system = Ok plan → has_errors (p_report plan) = false →
  has_errors (archive_diagnostics cli (policy_of (Cli.metadata_policy cli))) = false ∧
  has_errors (add_metadata_degradations
    (policy_degradations_for_cli cli (policy_of (Cli.metadata_policy cli)))
    (fail_on_metadata_loss cli)) = false ∧
  has_errors (add_option_conflict_diagnostics cli) = false ∧
  has_errors (build_filter_rules cli).2 = false ∧ has_errors (parse_chmod_rules cli).2 = false ∧
  has_errors (remote_wire_protocol_from_cli cli).2 = false ∧
  has_errors (add_metadata_degradations
    (posix_metadata_degradations_for_plan cli (policy_of (Cli.metadata_policy cli))
       (remote_direction (p_remote plan)) (p_daemon_direction plan))
    (fail_on_metadata_loss cli)) = false.
Proof.
  unfold from_cli. cbv zeta. intros Hp.
  repeat match type of Hp with
         | (let '(_, _) := ?x in _) = _ => destruct x
         end.
  apply and_then_Ok in Hp as ([deadline codes] & _ & [= <-]).
  cbn [p_report p_remote p_daemon_direction snd]. rewrite !has_errors_app, !orb_false_iff. tauto.
Qed.
End executed.

Lemma on_error asked code message : has_errors (on asked (diagnostic Error code message)) = asked.
Proof.
  rewrite has_errors_on. unfold has_severity. cbn [severity diagnostic].
  rewrite bool_decide_true by done. apply andb_true_r.
Qed.

(** Options that contradict each other. *)
Definition no_conflict (cli : Cli) : Prop :=
  match min_size cli, max_size cli with
  | Some min_size, Some max_size => min_size <= max_size
  | _, _ => True
  end ∧
  ignore_missing_args cli && delete_missing_args cli = false ∧
  (inplace cli = true → delay_updates cli = false ∧ partial_dir cli = None ∧ temp_dir cli = None) ∧
  (fake_super cli = true → Cli.metadata_policy cli ≠ CliNtfsNative) ∧
  (length (filter (λ batch, is_some batch = true) [write_batch cli; only_write_batch cli; read_batch cli]) ≤ 1)%nat.

Lemma conflicts_are_errors cli :
  has_errors (add_option_conflict_diagnostics cli) = false → no_conflict cli.
Proof.
  unfold add_option_conflict_diagnostics. rewrite !has_errors_app, !on_error, !orb_false_iff.
  intros (Hsize & Hmissing & Hdelay & Hpartial & Htemp & Hfake & _ & _ & _ & Hb1 & Hb2 & Hb3 & _).
  split_and!.
  - destruct (min_size cli), (max_size cli); [|done..]. by apply Z.ltb_ge in Hsize.
  - done.
  - intros Hi. rewrite Hi in *. cbn in *.
    destruct (partial_dir cli), (temp_dir cli); naive_solver.
  - intros Hf. rewrite Hf in *. by apply bool_decide_eq_false in Hfake.
  - destruct (write_batch cli), (only_write_batch cli), (read_batch cli); cbn in *; naive_solver lia.
Qed.

Lemma archive_loses cli policy :
  existsb is_loss (archive_mode_degradations_for_cli cli policy) = true.
Proof.
  apply existsb_exists.
  eexists (new Symlink Degraded _). split; [|done].
  unfold archive_mode_degradations_for_cli. apply filter_In. split.
  - unfold archive_mode_degradations. cbv zeta. by left.
  - cbn [feature new]. rewrite !bool_decide_false by done. by rewrite !andb_false_r.
Qed.

Lemma policies_lose cli policy :
  policy ≠ Core.Portable → existsb is_loss (policy_degradations_for_cli cli policy) = true.
Proof.
  intros Hp. apply existsb_exists. destruct policy; [done| |].
  - eexists. split; [|by instantiate (1 := new Permissions Ignored _)].
    unfold policy_degradations_for_cli. rewrite bool_decide_false by done. by left.
  - eexists. split; [|by instantiate (1 := new WindowsAttributes Degraded _)].
    unfold policy_degradations_for_cli. rewrite bool_decide_true by done. apply filter_In. split.
    + do 2 right. by left.
    + cbn [feature new]. rewrite !bool_decide_false by done. by rewrite !andb_false_r.
Qed.

Section executed_plans.
Context `{Files} `{Platform}.

(** C22. A transfer is executed only for a command line without a contradiction: options that
    exclude each other were not given together, at most one batch file is named, the protocol
    asked for is one that is implemented, every filter rule, filter file and permission rule
    was understood, and where a loss of metadata is to fail the transfer nothing that the plan
    asks for is lost (so that neither -a nor another metadata policy than the portable one is
    ever executed then). *)
Theorem executed_plans_have_no_conflicts cli now now_system plan e :
  from_cli cli now now_system = Ok plan →
  execute_or_render cli plan = Ok e → executed e = true →
  no_conflict cli ∧
  (∀ protocol, protocol_version cli = Some protocol → protocol = 27 ∨ protocol = 31) ∧
  build_filter_rules cli = (p_filter_rules plan, []) ∧
  (∀ text, Cli.chmod cli = Some text → ∃ rules, from_str text = Ok rules ∧ p_chmod_rules plan = Some rules) ∧
  (fail_on_metadata_loss cli = true →
   archive cli = false ∧ p_metadata_policy plan = Core.Portable ∧
   Forall (λ d, is_loss d = false)
     (posix_metadata_degradations_for_plan cli (p_metadata_policy plan)
        (remote_direction (p_remote plan)) (p_daemon_direction plan))).
Proof.
  intros Hplan He Hx. pose proof (executed_without_errors _ _ _ He Hx) as Hr.
  destruct (planned_report _ _ _ _ Hplan Hr)
    as (Harchive & Hpolicy & Hconflict & Hfilters & Hchmod & Hprotocol & Hposix).
  pose proof (from_cli_plan _ _ _ _ Hplan) as Hp.
  split_and!.
  - by apply conflicts_are_errors.
  - intros protocol Hpv. revert Hprotocol. unfold remote_wire_protocol_from_cli. rewrite Hpv.
    destruct (Z.eqb_spec protocol 27); [auto|]. destruct (Z.eqb_spec protocol 31); [auto|]. done.
  - rewrite (surjective_pairing (build_filter_rules cli)). f_equal.
    + by rewrite (pf_filters _ _ Hp).
    + by apply no_errors_none; [apply filter_errors|].
  - intros text Ht. revert Hchmod. rewrite (pf_chmod _ _ Hp). unfold parse_chmod_rules.
    rewrite Ht. destruct (from_str text); [eauto|done].
  - intros Hf. rewrite (pf_policy _ _ Hp). rewrite Hf in *.
    rewrite has_errors_degradations in Hpolicy, Hposix. split_and!.
    + revert Harchive. unfold archive_diagnostics. destruct (archive cli); [|done]. rewrite Hf.
      rewrite has_errors_cons, has_errors_degradations, archive_loses. by rewrite orb_true_r.
    + destruct (decide (policy_of (Cli.metadata_policy cli) = Core.Portable)); [done|].
      by rewrite policies_lose in Hpolicy.
    + apply Forall_forall. intros d Hd. destruct (is_loss d) eqn:Hl; [|done].
      rewrite <- Hposix. symmetry. apply existsb_exists. exists d. by rewrite <- list_elem_of_In.
Qed.
End executed_plans.

(** ** Plans of command lines *)

#[local] Instance on_unix : Platform := false.
#[local] Instance no_files : Files := λ _, None.

(** The command line of these words. *)
Definition given (words : list string) : result Cli OptionError := parse_cli (lit <$> words).

Definition pull : Cli :=
  the (given ["-rte"; "ssh -p 22"; "--rsync-path=sudo rsync"; "--exclude=a'b"; "host:it's $HOME"; "here"]) eq_refl.
Definition pull_plan : TransferPlan := the (from_cli pull 0 0) ltac:(vm_compute; reflexivity).

Lemma planned_command_runs_the_server_witness :
  ∃ command argv, ssh_command (p_remote pull_plan) = Some command ∧
    server_argv (p_remote pull_plan) = Some argv ∧
    posix_words (remote_command command) = Some ([lit "sudo"; lit "rsync"] ++ drop 1 argv).
Proof.
  destruct (ssh_command (p_remote pull_plan)) as [command|] eqn:Hc; [|vm_compute in Hc; discriminate].
  destruct (planned_command_runs_the_server pull 0 0 pull_plan command [lit "sudo"; lit "rsync"])
    as (argv & Hargv & _ & Hw).
  - apply the_ok.
  - exact Hc.
  - vm_compute. reflexivity.
  - vm_compute. reflexivity.
  - exists command, argv. exact (conj eq_refl (conj Hargv Hw)).
Defined.

Definition push : Cli :=
  the (given ["-a"; "--checksum"; "--delete-after"; "--include=*/"; "--exclude=*.o"; "-f"; "P,p /cache"; "-B"; "700"; "here"; "host::m/x"]) eq_refl.
Definition push_plan : TransferPlan := the (from_cli push 0 0) ltac:(vm_compute; reflexivity).

(** The options of the push, and the rules of its plan. *)
Definition push_options : RemoteShellOptions :=
  remote_shell_options_from_cli push Push (p_recursive push_plan) (p_preserve_times push_plan)
    (p_symlink_mode push_plan).

Lemma fallback_asks_for_the_plan_witness :
  fallback_options push push_plan Push None = without_incremental push_options.
Proof.
  apply (fallback_asks_for_the_plan push 0 0 push_plan Push None).
  - apply the_ok.
  - vm_compute. reflexivity.
  - vm_compute. reflexivity.
Defined.

Definition push_daemon : DaemonOperand :=
  {| user := None; Daemon.host := lit "host"; Daemon.port := 873; Daemon.module := Some (lit "m");
     Daemon.path := Some (lit "x") |}.
Definition push_args : list (list Z) :=
  the (daemon_server_args
         (daemon_remote_shell_options_from_cli push Push (p_recursive push_plan)
            (p_preserve_times push_plan) (p_symlink_mode push_plan)) push_daemon 31)
      ltac:(vm_compute; reflexivity).


Lemma server_filters_as_planned_witness :
  ∃ transfer, parse_transfer push_args = Ok transfer ∧
    DaemonArgs.filter_rules transfer = p_filter_rules push_plan ∧
    length (p_filter_rules push_plan) = 3%nat.
Proof.
  destruct (parse_transfer push_args) as [transfer|] eqn:Ht; [|vm_compute in Ht; discriminate].
  exists transfer. split; [reflexivity|]. split; [|vm_compute; reflexivity].
  apply (server_filters_as_planned push 0 0 push_plan Push push_daemon 31 push_args transfer [] []).
  - apply the_ok.
  - reflexivity.
  - reflexivity.
  - intros n Hn. vm_compute in Hn. injection Hn as <-. split; vm_compute; discriminate.
  - intros n Hn. vm_compute in Hn. discriminate Hn.
  - reflexivity.
  - reflexivity.
  - reflexivity.
  - constructor.
  - constructor.
  - vm_compute. by repeat constructor.
  - vm_compute. by repeat constructor.
  - vm_compute. by repeat constructor.
  - vm_compute. reflexivity.
  - apply the_ok.
  - exact Ht.
Defined.

Definition local : Cli :=
  the (given ["-rt"; "--fail-on-metadata-loss"; "--protocol=31"; "--inplace"; "--max-size=4k"; "a"; "b"]) eq_refl.
Definition local_plan : TransferPlan := the (from_cli local 0 0) ltac:(vm_compute; reflexivity).

Lemma executed_plans_have_no_conflicts_witness :
  execute_or_render local local_plan = Ok (LocalSync local_plan) ∧ no_conflict local ∧
  p_metadata_policy local_plan = Core.Portable.
Proof.
  assert (He : execute_or_render local local_plan = Ok (LocalSync local_plan)) by
    (vm_compute; reflexivity).
  destruct (executed_plans_have_no_conflicts local 0 0 local_plan (LocalSync local_plan))
    as (Hc & _ & _ & _ & Hf).
  - apply the_ok.
  - exact He.
  - reflexivity.
  - destruct (Hf eq_refl) as (_ & Hp & _). exact (conj He (conj Hc Hp)).
Defined.

(** ** Where two sides or two attempts differ *)

(** The rules of -C come before --include in the plan and after it on the server: the file
    is kept out of the transfer by the one and taken by the other. *)
Example cvs_rules_move :
  let cli := the (given ["-rC"; "--include=*.o"; "host::m/"; "here"]) eq_refl in
  (is_included (build_filter_rules cli).1 (lit "x.o") FileEntry,
   is_included (the (understood_rules (daemon_remote_shell_options_from_cli cli Pull true false Skip)) ltac:(vm_compute; reflexivity))
     (lit "x.o") FileEntry) = (false, true).
Proof. vm_compute. reflexivity. Qed.

(** With --checksum and --size-only the plan compares by checksum and the server, which
    receives, by size alone. *)
Example checksum_size_only :
  let cli := the (given ["-r"; "--checksum"; "--size-only"; "a"; "host::m/"]) eq_refl in
  (update_mode_from_cli cli,
   match daemon_server_args (daemon_remote_shell_options_from_cli cli Push true false Skip) push_daemon 31 with
   | Ok args => match parse_transfer args with Ok transfer => Some (DaemonArgs.update_mode transfer) | Err _ => None end
   | Err _ => None
   end) = (Checksum, Some DaemonArgs.SizeOnly).
Proof. vm_compute. reflexivity. Qed.

(** With --checksum and --ignore-times the first attempt asks for both, the second for
    the latter alone. *)
Example fallback_forgets_checksum :
  let cli := the (given ["-r"; "--checksum"; "--ignore-times"; "host:a"; "b"]) eq_refl in
  let plan := the (from_cli cli 0 0) ltac:(vm_compute; reflexivity) in
  (use_checksum (remote_shell_options_from_cli cli Pull true false Skip),
   use_checksum (fallback_options cli plan Pull None)) = (true, false).
Proof. vm_compute. reflexivity. Qed.

(** No archive is executed with --fail-on-metadata-loss, whatever is taken out of it. *)
Example archive_always_loses :
  let cli := the (given ["-a"; "--no-links"; "--no-perms"; "--no-owner"; "--no-group"; "--no-devices";
                         "--no-specials"; "--fail-on-metadata-loss"; "a"; "b"]) eq_refl in
  has_errors (p_report (the (from_cli cli 0 0) ltac:(vm_compute; reflexivity))) = true.
Proof. vm_compute. reflexivity. Qed.
