(* ===== verification/Sidecar.v ===== *)
(** * Metadata beside a file: rsync-winfs and the sidecars of rsync-cli/src/execute/local.rs

    What the destination cannot keep of a file is written to a manifest of text lines in a
    directory of its own.  Here are the manifests and their parsers (sidecar.rs), the sparse
    ranges, attributes, times, stream names and links they speak of as far as no call of
    the Windows API is needed, and the names and contents of the manifests of a sync.
    Texts are lists of characters; the path of a sidecar is its text. *)

From S2P Require Import Prelude Str Text Chmod FsPath Metadata StopAt RemoteFiles Cli Options Plan.

(** ** metadata.rs: attributes, sparse ranges, times *)

Definition FILE_ATTRIBUTE_SPARSE_FILE : Z := 0x200.
Definition FILE_ATTRIBUTE_READONLY : Z := 0x1.
Definition FILE_ATTRIBUTE_HIDDEN : Z := 0x2.
Definition FILE_ATTRIBUTE_SYSTEM : Z := 0x4.
Definition FILE_ATTRIBUTE_ARCHIVE : Z := 0x20.
Definition SAFE_RESTORE_ATTRIBUTE_MASK : Z :=
  Z.lor (Z.lor (Z.lor FILE_ATTRIBUTE_READONLY FILE_ATTRIBUTE_HIDDEN) FILE_ATTRIBUTE_SYSTEM)
    FILE_ATTRIBUTE_ARCHIVE.

Record WindowsAttributeRestore := {
  requested_attributes : option Z;
  applied_mask : Z;
  degraded_mask : Z;
  attributes_available : bool;
}.

(** What is set on a file with the attributes [current], and the report of it. *)
Definition restored_attributes (current attributes : Z) : Z :=
  Z.lor (Z.land current (not_u32 SAFE_RESTORE_ATTRIBUTE_MASK))
    (Z.land attributes SAFE_RESTORE_ATTRIBUTE_MASK).

Definition restore_safe_windows_attributes `{Platform} (attributes : option Z) :
    WindowsAttributeRestore :=
  if windows then
    match attributes with
    | None => {| requested_attributes := None; applied_mask := 0; degraded_mask := 0;
                 attributes_available := true |}
    | Some bits => {| requested_attributes := Some bits;
                      applied_mask := Z.land bits SAFE_RESTORE_ATTRIBUTE_MASK;
                      degraded_mask := Z.land bits (not_u32 SAFE_RESTORE_ATTRIBUTE_MASK);
                      attributes_available := true |}
    end
  else {| requested_attributes := attributes; applied_mask := 0;
          degraded_mask := Z.land (default 0 attributes) SAFE_RESTORE_ATTRIBUTE_MASK;
          attributes_available := false |}.

Record SparseRange := { range_offset : Z; range_len : Z }.

#[export] Instance SparseRange_eq_dec : EqDecision SparseRange.
Proof. solve_decision. Defined.

Inductive SparseError := EmptyRange | RangeOverflow | RangesOutOfOrder.

Fixpoint validate_from (previous_end file_len : Z) (allocated_ranges : list SparseRange) :
    result unit SparseError :=
  match allocated_ranges with
  | [] => Ok ()
  | range :: ranges =>
      if range_len range =? 0 then Err EmptyRange
      else
        let range_end := range_offset range + range_len range in
        if u64_max <? range_end then Err RangeOverflow
        else if (file_len <? range_end) || (range_offset range <? previous_end)
        then Err RangesOutOfOrder
        else validate_from range_end file_len ranges
  end.

Definition validate_sparse_ranges (file_len : Z) (allocated_ranges : list SparseRange) :
    result unit SparseError :=
  validate_from 0 file_len allocated_ranges.

(** The loop of [sparse_holes]; the sum of an offset and a length wraps. *)
Fixpoint holes_from (cursor file_len : Z) (allocated_ranges : list SparseRange) :
    list SparseRange :=
  match allocated_ranges with
  | [] => if cursor <? file_len
          then [{| range_offset := cursor; range_len := file_len - cursor |}] else []
  | range :: ranges =>
      (if cursor <? range_offset range
       then [{| range_offset := cursor; range_len := range_offset range - cursor |}] else []) ++
      holes_from ((range_offset range + range_len range) mod 2 ^ 64) file_len ranges
  end.

Definition sparse_holes (file_len : Z) (allocated_ranges : list SparseRange) :
    list SparseRange :=
  holes_from 0 file_len allocated_ranges.

(** A time is its nanoseconds since 1970, before it negative. *)
Definition system_time_to_unix_nanos (time : SystemTime) : option Z := Some time.

Definition WINDOWS_TO_UNIX_EPOCH_100NS : Z := 116444736000000000.

(** On Windows; elsewhere there is no time. *)
Definition windows_filetime_to_system_time `{Platform} (filetime : Z) : option SystemTime :=
  if negb windows then None
  else if filetime =? 0 then None
  else if filetime <? WINDOWS_TO_UNIX_EPOCH_100NS then None
  else Some (Z.min ((filetime - WINDOWS_TO_UNIX_EPOCH_100NS) * 100) u64_max).

(** [None] for a time before 1970. *)
Definition system_time_to_windows_filetime (time : SystemTime) : option Z :=
  if time <? 0 then None
  else Some (WINDOWS_TO_UNIX_EPOCH_100NS +
             Z.min (time / 1000000000 * 10000000) u64_max + time mod 1000000000 / 100).

(** ** streams.rs, links.rs, security.rs and vss.rs *)

Record AlternateDataStream := { stream_name : list Z; stream_size : Z }.

Definition normalize_stream_name (raw : list Z) : option (list Z) :=
  if bool_decide (raw = lit "::$DATA") then None
  else
    without_prefix ← strip_prefix raw (lit ":");
    name ← strip_suffix without_prefix (lit ":$DATA");
    if bool_decide (name = []) then None else Some name.

Definition is_valid_stream_name (name : list Z) : bool :=
  negb (bool_decide (name = [])) &&
  negb (existsb (λ c, existsb (Z.eqb c) [0; ch ":"; ch "\"; ch "/"]) name).

Definition FILE_ATTRIBUTE_REPARSE_POINT : Z := 0x400.
Definition IO_REPARSE_TAG_SYMLINK : Z := 0xA000000C.
Definition IO_REPARSE_TAG_MOUNT_POINT : Z := 0xA0000003.

Inductive ReparsePointKind :=
  NotReparsePoint | SymlinkPoint | JunctionOrMountPoint | OtherPoint (tag : Z) | UnknownReparsePoint.

Definition classify_reparse_point (attributes : Z) (reparse_tag : option Z) : ReparsePointKind :=
  if Z.land attributes FILE_ATTRIBUTE_REPARSE_POINT =? 0 then NotReparsePoint
  else
    match reparse_tag with
    | Some tag => if tag =? IO_REPARSE_TAG_SYMLINK then SymlinkPoint
                  else if tag =? IO_REPARSE_TAG_MOUNT_POINT then JunctionOrMountPoint
                  else OtherPoint tag
    | None => UnknownReparsePoint
    end.

Definition should_traverse_reparse_point (kind : ReparsePointKind) (follow_explicitly : bool) : bool :=
  match kind with
  | NotReparsePoint => true
  | SymlinkPoint => follow_explicitly
  | _ => false
  end.

Record SecurityDescriptorSummary := {
  captured : bool;
  byte_len : option Z;
  stable_hash : option (list Z);
  sddl : option (list Z);
  security_message : option (list Z);
}.

Definition security_unavailable (message : list Z) : SecurityDescriptorSummary :=
  {| captured := false; byte_len := None; stable_hash := None; sddl := None;
     security_message := Some message |}.

(** The Fowler-Noll-Vo hash, a step for a byte. *)
Definition FNV_OFFSET : Z := 0xcbf29ce484222325.
Definition FNV_PRIME : Z := 0x100000001b3.
Definition fnv_step (hash byte : Z) : Z := (Z.lxor hash byte * FNV_PRIME) mod 2 ^ 64.

(** [format!("{n:016x}")] *)
Definition hexadecimal16 (n : Z) : list Z :=
  let digits := hexadecimal n in replicate (16 - length digits) (ch "0") ++ digits.

Definition stable_hash_hex (bytes : list Z) : list Z :=
  hexadecimal16 (foldl fnv_step FNV_OFFSET bytes).

Record VssSnapshotStatus := {
  vss_requested : bool;
  vss_available : bool;
  vss_message : list Z;
}.

Definition vss_snapshot_status (requested : bool) : VssSnapshotStatus :=
  if requested then
    {| vss_requested := true; vss_available := false;
       vss_message := lit "VSS snapshot source mode is available only while a runtime snapshot is active" |}
  else
    {| vss_requested := false; vss_available := false;
       vss_message := lit "VSS snapshot source mode was not requested" |}.

Definition powershell_single_quoted (value : list Z) : list Z :=
  ch "'" :: (value ≫= λ c, if c =? ch "'" then [c; c] else [c]) ++ [ch "'"].

(** The script of [create_shadow_copy]: the text before and after the volume. *)
Definition shadow_script_head : list Z :=
  lit "$ErrorActionPreference = 'Stop'; " ++
  lit "$result = ([WMIClass]'root\cimv2:Win32_ShadowCopy').Create(".
Definition shadow_script_tail : list Z :=
  lit ", 'ClientAccessible'); " ++
  lit "if ($result.ReturnValue -ne 0) { Write-Error ('VSS snapshot creation failed with return value ' + $result.ReturnValue); exit 1 }; " ++
  lit "$shadow = Get-WmiObject Win32_ShadowCopy | Where-Object { $_.ID -eq $result.ShadowID } | Select-Object -First 1; " ++
  lit "if ($null -eq $shadow) { Write-Error 'VSS snapshot was created but could not be found'; exit 1 }; " ++
  lit "Write-Output ($result.ShadowID + " ++ [34] ++ lit "`t" ++ [34] ++ lit " + $shadow.DeviceObject)".

Definition create_shadow_script (volume : list Z) : list Z :=
  shadow_script_head ++ powershell_single_quoted volume ++ shadow_script_tail.

Definition delete_script_head : list Z :=
  lit "$ErrorActionPreference = 'SilentlyContinue'; " ++
  lit "Get-WmiObject Win32_ShadowCopy | Where-Object { $_.ID -eq ".
Definition delete_script_tail : list Z := lit " } | ForEach-Object { $_.Delete() | Out-Null }".

(** The script of [platform_delete_shadow_copy], where there is an id. *)
Definition delete_shadow_script (shadow_id : list Z) : option (list Z) :=
  if bool_decide (trim shadow_id = []) then None
  else Some (delete_script_head ++ powershell_single_quoted shadow_id ++ delete_script_tail).

Record CreatedShadowCopy := { shadow_id : list Z; device_object : list Z }.

(** What [create_shadow_copy] reads of the output of its script. *)
Definition read_shadow_copy (stdout : list Z) : result CreatedShadowCopy string :=
  let? line := ok_or (List.find (λ line, negb (bool_decide (trim line = []))) (rev (lines stdout)))
                 "VSS returned no snapshot id"%string in
  let? parts := ok_or (split_once 9 line) "VSS returned malformed snapshot descriptor `{line}`"%string in
  let '(id, object) := parts in
  Ok {| shadow_id := trim id; device_object := trim object |}.

(** The text of the path; a relative path is appended behind the separator. *)
Definition append_snapshot_relative (device_object relative : list Z) : list Z :=
  let text := replace_char (ch "/") 92 device_object in
  let text := if ends_with text [92] then text else text ++ [92] in
  text ++ relative.

(** ** sidecar.rs: what both manifests share *)

Inductive SidecarParseError :=
| InvalidHeader
| MissingField (field : string)
| InvalidField (field : string) (value : list Z)
| InvalidLine (line : list Z).

Definition NTFS_SIDECAR_HEADER : list Z := lit "rsync-win ntfs-native sidecar v1".
Definition POSIX_FAKE_SUPER_SIDECAR_HEADER : list Z := lit "rsync-win posix fake-super sidecar v1".

Definition invalid {A} (field : string) (value : list Z) : result A SidecarParseError :=
  Err (InvalidField field value).

Definition required {A} (value : option A) (field : string) : result A SidecarParseError :=
  ok_or value (MissingField field).

Definition file_type_labels : list (string * FileType) :=
  [("File", Metadata.File); ("Directory", Metadata.Directory); ("Symlink", Symlink);
   ("Hardlink", Hardlink); ("Device", Device); ("Special", Special); ("Other", Other)].

Definition file_type_label (file_type : FileType) : list Z :=
  lit (match file_type with
       | Metadata.File => "File" | Metadata.Directory => "Directory" | Symlink => "Symlink"
       | Hardlink => "Hardlink" | Device => "Device" | Special => "Special" | Other => "Other"
       end).

Definition parse_file_type (value : list Z) : result FileType SidecarParseError :=
  match List.find (λ '(label, _), bool_decide (value = lit label)) file_type_labels with
  | Some (_, file_type) => Ok file_type
  | None => invalid "file_type" value
  end.

Definition format_option (value : option Z) : list Z :=
  match value with Some value => decimal value | None => lit "none" end.

(** [format!("{n:o}")] *)
Fixpoint octal_from (fuel : nat) (n : Z) (later : list Z) : list Z :=
  match fuel with
  | O => later
  | S fuel =>
      let here := (48 + n mod 8) :: later in
      if n <? 8 then here else octal_from fuel (n / 8) here
  end.
Definition octal (n : Z) : list Z := octal_from (S (Z.to_nat (Z.log2 n))) n [].

Definition format_octal_option (value : option Z) : list Z :=
  match value with Some value => octal value | None => lit "none" end.

Definition format_string_option (value : option (list Z)) : list Z := default (lit "none") value.

Definition format_bool (value : bool) : list Z := lit (if value then "true" else "false").

Definition is_none (value : list Z) : bool :=
  bool_decide (value = lit "none") || bool_decide (value = lit "None").

(** A text in the form of a [Some] without its end is lost. *)
Definition parse_option_string (value : list Z) : option (list Z) :=
  if is_none value then None
  else
    match strip_prefix value (lit "Some(" ++ [34]) with
    | Some inner => strip_suffix inner (34 :: lit ")")
    | None => Some value
    end.

Definition parse_option_with (field : string) (value : list Z) (parse : list Z → option Z) :
    result (option Z) SidecarParseError :=
  if is_none value then Ok None
  else
    let number text :=
      match parse text with Some n => Ok (Some n) | None => invalid field value end in
    match strip_prefix value (lit "Some(") ≫= λ rest, strip_suffix rest (lit ")") with
    | Some inner => number inner
    | None => number value
    end.

Definition parse_option_i128 (field : string) (value : list Z) :=
  parse_option_with field value (parse_signed (- 2 ^ 127) (2 ^ 127 - 1)).
Definition parse_option_u64 (field : string) (value : list Z) :=
  parse_option_with field value (parse_unsigned u64_max).
Definition parse_option_u32 (field : string) (value : list Z) :=
  parse_option_with field value (parse_unsigned u32_max).

(** [u32::from_str_radix(value, 8)] *)
Definition parse_octal (max : Z) (s : list Z) : option Z :=
  let digits := match s with c :: s' => if c =? ch "+" then s' else s | [] => [] end in
  if bool_decide (digits ≠ []) && forallb is_octal_digit digits then
    let n := from_octal digits in
    if n <=? max then Some n else None
  else None.

Definition parse_option_octal_u32 (field : string) (value : list Z) :=
  parse_option_with field value (parse_octal u32_max).

Definition parse_u64 (field : string) (value : list Z) : result Z SidecarParseError :=
  match parse_unsigned u64_max value with Some n => Ok n | None => invalid field value end.

Definition parse_bool (field : string) (value : list Z) : result bool SidecarParseError :=
  if bool_decide (value = lit "true") then Ok true
  else if bool_decide (value = lit "false") then Ok false
  else invalid field value.

Definition parse_stream (value : list Z) : result AlternateDataStream SidecarParseError :=
  match rsplit_once (ch ",") value with
  | None => invalid "stream" value
  | Some (name, size) =>
      if bool_decide (name = []) then invalid "stream" value
      else
        let? size := parse_u64 "stream" size in
        Ok {| stream_name := name; stream_size := size |}
  end.

Definition parse_sparse_range (value : list Z) : result SparseRange SidecarParseError :=
  match split_once (ch ",") value with
  | None => invalid "sparse_range" value
  | Some (offset, len) =>
      let? offset := parse_u64 "sparse_range" offset in
      let? len := parse_u64 "sparse_range" len in
      if len =? 0 then invalid "sparse_range" value
      else Ok {| range_offset := offset; range_len := len |}
  end.

Record PosixAclRecord := {
  acl_tag : list Z;
  acl_qualifier : option (list Z);
  acl_perms : list Z;
}.

Record PosixXattrRecord := { xattr_name : list Z; xattr_value_hex : list Z }.

Definition parse_acl (value : list Z) : result PosixAclRecord SidecarParseError :=
  match split_on (ch ",") value with
  | [tag; qualifier; perms] =>
      if bool_decide (tag = []) || bool_decide (perms = []) then invalid "acl" value
      else Ok {| acl_tag := tag;
                 acl_qualifier := if bool_decide (qualifier = lit "none") then None else Some qualifier;
                 acl_perms := perms |}
  | _ => invalid "acl" value
  end.

Definition is_ascii_hexdigit (c : Z) : bool :=
  is_ascii_digit c || in_range 65 70 c || in_range 97 102 c.

Definition parse_xattr (value : list Z) : result PosixXattrRecord SidecarParseError :=
  match rsplit_once (ch ",") value with
  | None => invalid "xattr" value
  | Some (name, value_hex) =>
      if bool_decide (name = []) || Nat.odd (length value_hex) ||
         negb (forallb is_ascii_hexdigit value_hex)
      then invalid "xattr" value
      else Ok {| xattr_name := name; xattr_value_hex := value_hex |}
  end.

(** A line of a manifest. *)
Definition sidecar_entry (key : string) (value : list Z) : list Z := lit key ++ ch "=" :: value.

(** The loop over the lines, which both parsers have in a copy; [field] is its [match]. *)
Fixpoint parse_lines {A} (field : A → list Z → list Z → result A SidecarParseError) (state : A)
    (lines : list (list Z)) : result A SidecarParseError :=
  match lines with
  | [] => Ok state
  | line :: lines =>
      if bool_decide (trim line = []) then parse_lines field state lines
      else
        let? (key, value) := ok_or (split_once (ch "=") line) (InvalidLine line) in
        let? state := field state key value in
        parse_lines field state lines
  end.

(** [expected != found.len()] is an error. *)
Definition check_count {A} (field : string) (expected : option Z) (found : list A) :
    result unit SidecarParseError :=
  match expected with
  | Some expected =>
      if expected =? Z.of_nat (length found) then Ok ()
      else invalid field (lit "expected {expected}, found {}")
  | None => Ok ()
  end.

(** ** The manifest of NTFS metadata *)

Module Ntfs.

Record NtfsNativeSidecar := {
  path : list Z;
  file_type : FileType;
  len : Z;
  modified_unix_nanos : option Z;
  creation_time_unix_nanos : option Z;
  attributes : option Z;
  sparse_file : bool;
  sparse_ranges : list SparseRange;
  reparse_tag : option Z;
  file_id : option Z;
  volume_serial : option Z;
  link_count : option Z;
  security : SecurityDescriptorSummary;
  streams : list AlternateDataStream;
  vss : VssSnapshotStatus;
}.

Record NtfsNativeSidecarManifest := {
  sidecar : NtfsNativeSidecar;
  unknown_fields : list (list Z * list Z);
}.

Definition manifest_lines (self : NtfsNativeSidecar) : list (list Z) :=
  [NTFS_SIDECAR_HEADER;
   sidecar_entry "path" (path self);
   sidecar_entry "file_type" (file_type_label (file_type self));
   sidecar_entry "len" (decimal (len self));
   sidecar_entry "modified" (format_option (modified_unix_nanos self));
   sidecar_entry "creation_time" (format_option (creation_time_unix_nanos self));
   sidecar_entry "attributes" (format_option (attributes self));
   sidecar_entry "sparse_file" (format_bool (sparse_file self));
   sidecar_entry "sparse_ranges" (decimal (Z.of_nat (length (sparse_ranges self))))] ++
  ((λ range, sidecar_entry "sparse_range"
     (decimal (range_offset range) ++ ch "," :: decimal (range_len range))) <$> sparse_ranges self) ++
  [sidecar_entry "reparse_tag" (format_option (reparse_tag self));
   sidecar_entry "file_id" (format_option (file_id self));
   sidecar_entry "volume_serial" (format_option (volume_serial self));
   sidecar_entry "link_count" (format_option (link_count self));
   sidecar_entry "security_captured" (format_bool (captured (security self)));
   sidecar_entry "security_len" (format_option (byte_len (security self)));
   sidecar_entry "security_hash" (format_string_option (stable_hash (security self)));
   sidecar_entry "security_sddl" (format_string_option (sddl (security self)));
   sidecar_entry "streams" (decimal (Z.of_nat (length (streams self))))] ++
  ((λ stream, sidecar_entry "stream"
     (stream_name stream ++ ch "," :: decimal (stream_size stream))) <$> streams self) ++
  [sidecar_entry "vss_requested" (format_bool (vss_requested (vss self)));
   sidecar_entry "vss_available" (format_bool (vss_available (vss self)))].

(** Every [push_str] ends a line. *)
Definition manifest (self : NtfsNativeSidecar) : list Z :=
  concat ((.++ [10]) <$> manifest_lines self).

Record ParsedFields := {
  f_path : option (list Z);
  f_file_type : option FileType;
  f_len : option Z;
  f_modified : option Z;
  f_creation_time : option Z;
  f_attributes : option Z;
  f_sparse_file : option bool;
  f_sparse_ranges : list SparseRange;
  f_sparse_range_count : option Z;
  f_reparse_tag : option Z;
  f_file_id : option Z;
  f_volume_serial : option Z;
  f_link_count : option Z;
  f_security_captured : option bool;
  f_security_len : option Z;
  f_security_hash : option (list Z);
  f_security_sddl : option (list Z);
  f_stream_count : option Z;
  f_vss_requested : option bool;
  f_vss_available : option bool;
  f_streams : list AlternateDataStream;
  f_unknown : list (list Z * list Z);
}.

#[export] Instance ParsedFields_fields : Fields ParsedFields := λ c,
  Build_ParsedFields (f_path c) (f_file_type c) (f_len c) (f_modified c) (f_creation_time c)
    (f_attributes c) (f_sparse_file c) (f_sparse_ranges c) (f_sparse_range_count c)
    (f_reparse_tag c) (f_file_id c) (f_volume_serial c) (f_link_count c) (f_security_captured c)
    (f_security_len c) (f_security_hash c) (f_security_sddl c) (f_stream_count c)
    (f_vss_requested c) (f_vss_available c) (f_streams c) (f_unknown c).

(** With the streams and the unknown fields, which the code keeps beside it. *)
Definition ParsedFields_default : ParsedFields :=
  {| f_path := None; f_file_type := None; f_len := None; f_modified := None;
     f_creation_time := None; f_attributes := None; f_sparse_file := None;
     f_sparse_ranges := []; f_sparse_range_count := None; f_reparse_tag := None;
     f_file_id := None; f_volume_serial := None; f_link_count := None;
     f_security_captured := None; f_security_len := None; f_security_hash := None;
     f_security_sddl := None; f_stream_count := None; f_vss_requested := None;
     f_vss_available := None; f_streams := []; f_unknown := [] |}.

Definition parse_field (fields : ParsedFields) (key value : list Z) :
    result ParsedFields SidecarParseError :=
  let key_is (name : string) := bool_decide (key = lit name) in
  if key_is "path" then Ok (fields <| f_path := Some value |>)
  else if key_is "file_type" then
    let? v := parse_file_type value in Ok (fields <| f_file_type := Some v |>)
  else if key_is "len" then
    let? v := parse_u64 "len" value in Ok (fields <| f_len := Some v |>)
  else if key_is "modified" then
    let? v := parse_option_i128 "modified" value in Ok (fields <| f_modified := v |>)
  else if key_is "creation_time" then
    let? v := parse_option_i128 "creation_time" value in Ok (fields <| f_creation_time := v |>)
  else if key_is "attributes" then
    let? v := parse_option_u32 "attributes" value in Ok (fields <| f_attributes := v |>)
  else if key_is "sparse_file" then
    let? v := parse_bool "sparse_file" value in Ok (fields <| f_sparse_file := Some v |>)
  else if key_is "sparse_ranges" then
    let? v := parse_u64 "sparse_ranges" value in Ok (fields <| f_sparse_range_count := Some v |>)
  else if key_is "sparse_range" then
    let? v := parse_sparse_range value in Ok (fields <| f_sparse_ranges ::= λ l, l ++ [v] |>)
  else if key_is "reparse_tag" then
    let? v := parse_option_u32 "reparse_tag" value in Ok (fields <| f_reparse_tag := v |>)
  else if key_is "file_id" then
    let? v := parse_option_u64 "file_id" value in Ok (fields <| f_file_id := v |>)
  else if key_is "volume_serial" then
    let? v := parse_option_u32 "volume_serial" value in Ok (fields <| f_volume_serial := v |>)
  else if key_is "link_count" then
    let? v := parse_option_u64 "link_count" value in Ok (fields <| f_link_count := v |>)
  else if key_is "security_captured" then
    let? v := parse_bool "security_captured" value in
    Ok (fields <| f_security_captured := Some v |>)
  else if key_is "security_len" then
    let? v := parse_option_u32 "security_len" value in Ok (fields <| f_security_len := v |>)
  else if key_is "security_hash" then Ok (fields <| f_security_hash := parse_option_string value |>)
  else if key_is "security_sddl" then Ok (fields <| f_security_sddl := parse_option_string value |>)
  else if key_is "streams" then
    let? v := parse_u64 "streams" value in Ok (fields <| f_stream_count := Some v |>)
  else if key_is "stream" then
    let? v := parse_stream value in Ok (fields <| f_streams ::= λ l, l ++ [v] |>)
  else if key_is "vss_requested" then
    let? v := parse_bool "vss_requested" value in Ok (fields <| f_vss_requested := Some v |>)
  else if key_is "vss_available" then
    let? v := parse_bool "vss_available" value in Ok (fields <| f_vss_available := Some v |>)
  else Ok (fields <| f_unknown ::= λ l, l ++ [(key, value)] |>).

Definition with_available (status : VssSnapshotStatus) (available : bool) : VssSnapshotStatus :=
  {| vss_requested := vss_requested status; vss_available := available;
     vss_message := vss_message status |}.

(** What is made of the fields once every line is read. *)
Definition from_fields (fields : ParsedFields) :
    result NtfsNativeSidecarManifest SidecarParseError :=
  let? _ := check_count "streams" (f_stream_count fields) (f_streams fields) in
  let? _ := check_count "sparse_ranges" (f_sparse_range_count fields) (f_sparse_ranges fields) in
  let? requested := required (f_vss_requested fields) "vss_requested" in
  let? available := required (f_vss_available fields) "vss_available" in
  let? path := required (f_path fields) "path" in
  let? file_type := required (f_file_type fields) "file_type" in
  let? len := required (f_len fields) "len" in
  let? sparse_file := required (f_sparse_file fields) "sparse_file" in
  let? security_captured := required (f_security_captured fields) "security_captured" in
  Ok {| sidecar :=
          {| path := path; file_type := file_type; len := len;
             modified_unix_nanos := f_modified fields;
             creation_time_unix_nanos := f_creation_time fields;
             attributes := f_attributes fields; sparse_file := sparse_file;
             sparse_ranges := f_sparse_ranges fields; reparse_tag := f_reparse_tag fields;
             file_id := f_file_id fields; volume_serial := f_volume_serial fields;
             link_count := f_link_count fields;
             security := {| captured := security_captured; byte_len := f_security_len fields;
                            stable_hash := f_security_hash fields;
                            sddl := f_security_sddl fields; security_message := None |};
             streams := f_streams fields;
             vss := with_available (vss_snapshot_status requested) available |};
        unknown_fields := f_unknown fields |}.

Definition parse_ntfs_native_sidecar_manifest (input : list Z) :
    result NtfsNativeSidecarManifest SidecarParseError :=
  match lines input with
  | header :: lines =>
      if bool_decide (header = NTFS_SIDECAR_HEADER) then
        let? fields := parse_lines parse_field ParsedFields_default lines in from_fields fields
      else Err InvalidHeader
  | [] => Err InvalidHeader
  end.
End Ntfs.

(** ** The manifest of POSIX metadata *)

Module Posix.

Record PosixFakeSuperSidecar := {
  path : list Z;
  mode : option Z;
  uid : option Z;
  gid : option Z;
  user_name : option (list Z);
  group_name : option (list Z);
  access_time_unix_nanos : option Z;
  creation_time_unix_nanos : option Z;
  acls : list PosixAclRecord;
  xattrs : list PosixXattrRecord;
  fake_super : bool;
}.

Record PosixFakeSuperSidecarManifest := {
  sidecar : PosixFakeSuperSidecar;
  unknown_fields : list (list Z * list Z);
}.

Definition manifest_lines (self : PosixFakeSuperSidecar) : list (list Z) :=
  [POSIX_FAKE_SUPER_SIDECAR_HEADER;
   sidecar_entry "path" (path self);
   sidecar_entry "mode" (format_octal_option (mode self));
   sidecar_entry "uid" (format_option (uid self));
   sidecar_entry "gid" (format_option (gid self));
   sidecar_entry "user_name" (format_string_option (user_name self));
   sidecar_entry "group_name" (format_string_option (group_name self));
   sidecar_entry "access_time" (format_option (access_time_unix_nanos self));
   sidecar_entry "creation_time" (format_option (creation_time_unix_nanos self));
   sidecar_entry "acls" (decimal (Z.of_nat (length (acls self))))] ++
  ((λ acl, sidecar_entry "acl"
     (acl_tag acl ++ ch "," :: format_string_option (acl_qualifier acl) ++ ch "," :: acl_perms acl))
   <$> acls self) ++
  [sidecar_entry "xattrs" (decimal (Z.of_nat (length (xattrs self))))] ++
  ((λ xattr, sidecar_entry "xattr" (xattr_name xattr ++ ch "," :: xattr_value_hex xattr))
   <$> xattrs self) ++
  [sidecar_entry "fake_super" (format_bool (fake_super self))].

Definition manifest (self : PosixFakeSuperSidecar) : list Z :=
  concat ((.++ [10]) <$> manifest_lines self).

(** With the records and the unknown fields, which the code keeps beside it. *)
Record PosixParsedFields := {
  f_path : option (list Z);
  f_mode : option Z;
  f_uid : option Z;
  f_gid : option Z;
  f_user_name : option (list Z);
  f_group_name : option (list Z);
  f_access_time : option Z;
  f_creation_time : option Z;
  f_acl_count : option Z;
  f_xattr_count : option Z;
  f_fake_super : option bool;
  f_acls : list PosixAclRecord;
  f_xattrs : list PosixXattrRecord;
  f_unknown : list (list Z * list Z);
}.

#[export] Instance PosixParsedFields_fields : Fields PosixParsedFields := λ c,
  Build_PosixParsedFields (f_path c) (f_mode c) (f_uid c) (f_gid c) (f_user_name c)
    (f_group_name c) (f_access_time c) (f_creation_time c) (f_acl_count c) (f_xattr_count c)
    (f_fake_super c) (f_acls c) (f_xattrs c) (f_unknown c).

Definition PosixParsedFields_default : PosixParsedFields :=
  {| f_path := None; f_mode := None; f_uid := None; f_gid := None; f_user_name := None;
     f_group_name := None; f_access_time := None; f_creation_time := None;
     f_acl_count := None; f_xattr_count := None; f_fake_super := None; f_acls := [];
     f_xattrs := []; f_unknown := [] |}.

Definition parse_field (fields : PosixParsedFields) (key value : list Z) :
    result PosixParsedFields SidecarParseError :=
  let key_is (name : string) := bool_decide (key = lit name) in
  if key_is "path" then Ok (fields <| f_path := Some value |>)
  else if key_is "mode" then
    let? v := parse_option_octal_u32 "mode" value in Ok (fields <| f_mode := v |>)
  else if key_is "uid" then
    let? v := parse_option_u32 "uid" value in Ok (fields <| f_uid := v |>)
  else if key_is "gid" then
    let? v := parse_option_u32 "gid" value in Ok (fields <| f_gid := v |>)
  else if key_is "user_name" then Ok (fields <| f_user_name := parse_option_string value |>)
  else if key_is "group_name" then Ok (fields <| f_group_name := parse_option_string value |>)
  else if key_is "access_time" then
    let? v := parse_option_i128 "access_time" value in Ok (fields <| f_access_time := v |>)
  else if key_is "creation_time" then
    let? v := parse_option_i128 "creation_time" value in Ok (fields <| f_creation_time := v |>)
  else if key_is "acls" then
    let? v := parse_u64 "acls" value in Ok (fields <| f_acl_count := Some v |>)
  else if key_is "acl" then
    let? v := parse_acl value in Ok (fields <| f_acls ::= λ l, l ++ [v] |>)
  else if key_is "xattrs" then
    let? v := parse_u64 "xattrs" value in Ok (fields <| f_xattr_count := Some v |>)
  else if key_is "xattr" then
    let? v := parse_xattr value in Ok (fields <| f_xattrs ::= λ l, l ++ [v] |>)
  else if key_is "fake_super" then
    let? v := parse_bool "fake_super" value in Ok (fields <| f_fake_super := Some v |>)
  else Ok (fields <| f_unknown ::= λ l, l ++ [(key, value)] |>).

Definition from_fields (fields : PosixParsedFields) :
    result PosixFakeSuperSidecarManifest SidecarParseError :=
  let? _ := check_count "acls" (f_acl_count fields) (f_acls fields) in
  let? _ := check_count "xattrs" (f_xattr_count fields) (f_xattrs fields) in
  let? path := required (f_path fields) "path" in
  let? fake_super := required (f_fake_super fields) "fake_super" in
  Ok {| sidecar :=
          {| path := path; mode := f_mode fields; uid := f_uid fields; gid := f_gid fields;
             user_name := f_user_name fields; group_name := f_group_name fields;
             access_time_unix_nanos := f_access_time fields;
             creation_time_unix_nanos := f_creation_time fields; acls := f_acls fields;
             xattrs := f_xattrs fields; fake_super := fake_super |};
        unknown_fields := f_unknown fields |}.

Definition parse_posix_fake_super_sidecar_manifest (input : list Z) :
    result PosixFakeSuperSidecarManifest SidecarParseError :=
  match lines input with
  | header :: lines =>
      if bool_decide (header = POSIX_FAKE_SUPER_SIDECAR_HEADER) then
        let? fields := parse_lines parse_field PosixParsedFields_default lines in
        from_fields fields
      else Err InvalidHeader
  | [] => Err InvalidHeader
  end.
End Posix.

(** ** execute/local.rs: what is captured, and where it is kept *)

Section local.
Context `{Platform}.

(** Of a time before 1970 and of one past 64 bits of seconds there is none. *)
Definition unix_nanos_to_system_time (nanos : Z) : option SystemTime :=
  if nanos <? 0 then None
  else if u64_max <? nanos / 1000000000 then None
  else Some nanos.

Definition posix_sidecar_mode (metadata : PortableMetadata) (path : PathBuf) (plan : TransferPlan) :
    Z :=
  let mode := posix_mode_for_path metadata (Some path) (p_preserve_executability plan) in
  match p_chmod_rules plan with
  | Some rules =>
      apply rules mode (if bool_decide (Metadata.file_type metadata = Metadata.Directory)
                        then Chmod.Directory else Chmod.File)
  | None => mode
  end.

Definition nonempty (text : list Z) : option (list Z) :=
  if bool_decide (text = []) then None else Some text.

(** [format!("{mode:08x}")] *)
Definition hexadecimal8 (n : Z) : list Z :=
  let digits := hexadecimal n in replicate (8 - length digits) (ch "0") ++ digits.

(** The file's metadata and times are what the system says of it. *)
Definition capture_posix_fake_super_sidecar (metadata : PortableMetadata)
    (accessed creation_time : option SystemTime) (path : PathBuf) (plan : TransferPlan) :
    Posix.PosixFakeSuperSidecar :=
  let mode := posix_sidecar_mode metadata path plan in
  {| Posix.path := relative_text path; Posix.mode := Some mode; Posix.uid := None;
     Posix.gid := None;
     Posix.user_name :=
       chown ← p_chown plan;
       nonempty (match split_once (ch ":") chown with Some (user, _) => user | None => chown end);
     Posix.group_name :=
       chown ← p_chown plan;
       nonempty (match split_once (ch ":") chown with Some (_, group) => group | None => [] end);
     Posix.access_time_unix_nanos :=
       if p_atimes plan then accessed ≫= system_time_to_unix_nanos else None;
     Posix.creation_time_unix_nanos :=
       if p_crtimes plan then creation_time ≫= system_time_to_unix_nanos else None;
     Posix.acls :=
       if p_preserve_acls plan
       then [{| acl_tag := lit "windows-security-descriptor"; acl_qualifier := None;
                acl_perms := lit "stored" |}] else [];
     Posix.xattrs :=
       if p_preserve_xattrs plan
       then [{| xattr_name := lit "rsync.%stat"; xattr_value_hex := hexadecimal8 mode |}] else [];
     Posix.fake_super := p_fake_super plan |}.

(** The root of the manifests: in the destination, or beside it when it is a file. *)
Definition sidecar_root (name : string) (dest_is_file : bool) (dest : PathBuf) : PathBuf :=
  if dest_is_file
  then path_join (default [CurDir] (parent dest)) (parse_path (lit name))
  else path_join dest (parse_path (lit name)).
Definition posix_sidecar_root : bool → PathBuf → PathBuf := sidecar_root ".rsync-win.fake-super".
Definition ntfs_sidecar_root : bool → PathBuf → PathBuf := sidecar_root ".rsync-win.ntfs-native".

Definition is_posix_fake_super_manifest_path (path : PathBuf) : bool :=
  match file_name path with Some name => ends_with name (lit ".posix.meta") | None => false end.

(** [fs::metadata]: the type of what a path leads to. *)
Definition ntfs_destination_for_source (metadata : PathBuf → option FileType)
    (sources : list PathBuf) (dest source_path : PathBuf) : option PathBuf :=
  let named (source : PathBuf) :=
    (λ name, path_join dest [Normal name]) <$> file_name source in
  match sources with
  | [source] =>
      source_type ← metadata source;
      if bool_decide (source_path = source) then
        if bool_decide (source_type = Metadata.File) &&
           bool_decide (metadata dest = Some Metadata.Directory)
        then named source
        else Some dest
      else (λ relative, path_join dest relative) <$> path_strip_prefix source_path source
  | _ =>
      let fix loop sources :=
        match sources with
        | [] => None
        | source :: sources =>
            if bool_decide (source_path = source) then named source
            else
              match path_strip_prefix source_path source with
              | Some relative => (λ below, path_join below relative) <$> named source
              | None => loop sources
              end
        end in
      loop sources
  end.

Definition sidecar_char (c : Z) : Z :=
  if is_ascii_alphanumeric c || existsb (Z.eqb c) [ch "."; ch "-"; ch "_"] then c else ch "_".

(** The names of a path. *)
Definition normal_parts (path : PathBuf) : list (list Z) :=
  omap (λ c, match c with Normal part => Some part | _ => None end) path.

Definition sanitize_sidecar_name (path : PathBuf) : list Z :=
  let name := foldl (λ name part,
    name ++ (if bool_decide (name = []) then [] else lit "__") ++ (sidecar_char <$> part))
    [] (normal_parts path) in
  if bool_decide (name = []) then lit "_root" else name.

Definition stable_sidecar_path_hash (path : PathBuf) : Z :=
  foldl (λ hash part, fnv_step (foldl fnv_step hash (encode_chars part)) 0xff)
    FNV_OFFSET (normal_parts path).

(** The name of a file below the source that has it, or its last name alone. *)
Definition sidecar_relative (sources : list PathBuf) (path : PathBuf) : PathBuf :=
  let named source := (λ name, [Normal name]) <$> file_name source in
  let fix loop sources :=
    match sources with
    | [] => default [] (named path)
    | source :: sources =>
        match (if bool_decide (path = source) then named source
               else (λ relative,
                       match file_name source with
                       | Some name => path_join [Normal name] relative
                       | None => relative
                       end) <$> path_strip_prefix path source) with
        | Some relative => relative
        | None => loop sources
        end
    end in
  loop sources.

Definition ntfs_sidecar_relative_name (sources : list PathBuf) (path : PathBuf) : list Z :=
  let relative := sidecar_relative sources path in
  sanitize_sidecar_name relative ++ lit "--" ++ hexadecimal16 (stable_sidecar_path_hash relative).

(** [sidecar_root.join(format!("{relative}.posix.meta"))] *)
Definition posix_manifest_path (root : PathBuf) (sources : list PathBuf) (path : PathBuf) : PathBuf :=
  path_join root (parse_path (ntfs_sidecar_relative_name sources path ++ lit ".posix.meta")).
Definition ntfs_manifest_path (root : PathBuf) (sources : list PathBuf) (path : PathBuf) : PathBuf :=
  path_join root (parse_path (ntfs_sidecar_relative_name sources path ++ lit ".ntfs.meta")).
End local.
