(* ===== verification/SidecarFacts.v ===== *)
(** * What holds of sidecars

    What a manifest is given it gives back, for NTFS and for POSIX metadata; the sidecar
    that is captured of a file is one its parser reads; the manifest of a file stays in
    the sidecar directory; the holes of a sparse file are what its ranges leave; and the
    concrete sidecars for which the texts are read otherwise than they were written. *)

From S2P Require Import Prelude Str Text Chmod FsPath Metadata StopAt RemoteFiles Cli Options Plan Sidecar.

(** ** Numbers and options in a manifest *)

(** The text of a number starts with a digit or a minus sign. *)
Lemma decimal_head n : ∃ c s, decimal n = c :: s ∧ (c = 45 ∨ 48 ≤ c ≤ 57).
Proof.
  unfold decimal. destruct (Z.ltb_spec n 0) as [Hn|Hn]; [by repeat econstructor|].
  pose proof (decimal_digits n Hn) as Hd. pose proof (decimal_ne n) as Hne.
  unfold decimal in Hd, Hne. rewrite (proj2 (Z.ltb_ge n 0)) in Hd, Hne by lia.
  destruct (digits_from _ n []) as [|c s]; [done|]. exists c, s. split; [done|].
  cbn [forallb] in Hd. apply andb_prop in Hd as [Hd _]. right. by apply digit_plain.
Qed.

Lemma parse_signed_decimal min max n :
  min ≤ n ≤ max → parse_signed min max (decimal n) = Some n.
Proof.
  intros Hn. destruct (Z.ltb_spec n 0) as [Hs|Hs].
  - unfold decimal. rewrite (proj2 (Z.ltb_lt n 0)) by done. cbn [parse_signed].
    pose proof (decimal_digits (- n)) as Hd. pose proof (decimal_ne (- n)) as Hne.
    pose proof (decimal_value (- n)) as Hv. unfold decimal in Hd, Hne, Hv.
    rewrite (proj2 (Z.ltb_ge (- n) 0)) in Hd, Hne, Hv by lia.
    change (ch "-" =? ch "-") with true. cbn iota.
    rewrite Hd, Hv, bool_decide_true by (lia || done). cbn [andb].
    rewrite Z.opp_involutive. by rewrite (proj2 (Z.leb_le min n)) by lia.
  - destruct (decimal_head n) as (c & s & Hc & Hhead). rewrite <-(parse_decimal max n) by lia.
    pose proof (decimal_digits n Hs) as Hd. rewrite Hc in Hd |- *. cbn [forallb] in Hd.
    apply andb_prop in Hd as [Hd%digit_plain _]. unfold parse_signed.
    by rewrite (proj2 (Z.eqb_neq c (ch "-"))) by (change (ch "-") with 45; lia).
Qed.

Lemma octal_from_value fuel n later :
  0 ≤ n < 8 ^ Z.of_nat fuel →
  ∃ digits, octal_from fuel n later = digits ++ later ∧
    forallb is_octal_digit digits = true ∧ from_octal digits = n ∧ (fuel ≠ 0%nat → digits ≠ []).
Proof.
  revert n later. induction fuel as [|fuel IH]; intros n later Hn.
  { exists []. split_and!; try done. change (8 ^ Z.of_nat 0) with 1 in Hn. cbn. lia. }
  pose proof (Z.mod_pos_bound n 8 ltac:(lia)) as Hm.
  assert (Hdigit : is_octal_digit (48 + n mod 8) = true).
  { unfold is_octal_digit. change (ch "0") with 48. change (ch "7") with 55.
    apply andb_true_iff. split; apply Z.leb_le; lia. }
  cbn [octal_from]. destruct (Z.ltb_spec n 8) as [H8|H8].
  - exists [48 + n mod 8]. split_and!; [done|by cbn [forallb]; rewrite Hdigit| |done].
    unfold from_octal. cbn. change (ch "0") with 48. rewrite Z.mod_small by lia. lia.
  - rewrite Nat2Z.inj_succ, Z.pow_succ_r in Hn by lia.
    destruct (IH (n / 8) ((48 + n mod 8) :: later)) as (digits & Heq & Hd & Hv & Hne).
    { split; [apply Z.div_pos; lia|apply Z.div_lt_upper_bound; lia]. }
    exists (digits ++ [48 + n mod 8]). split_and!.
    + rewrite Heq. by rewrite <-app_assoc.
    + rewrite forallb_app, Hd. cbn [forallb]. by rewrite Hdigit.
    + unfold from_octal in *. rewrite fold_left_app, Hv. cbn. change (ch "0") with 48.
      pose proof (Z.div_mod n 8). lia.
    + by destruct digits.
Qed.

Lemma octal_spec n :
  0 ≤ n → forallb is_octal_digit (octal n) = true ∧ from_octal (octal n) = n ∧ octal n ≠ [].
Proof.
  intros Hn. unfold octal.
  destruct (octal_from_value (S (Z.to_nat (Z.log2 n))) n []) as (digits & Heq & Hd & Hv & Hne).
  { split; [done|]. rewrite Nat2Z.inj_succ, Z2Nat.id by apply Z.log2_nonneg.
    apply Z.lt_le_trans with (2 ^ Z.succ (Z.log2 n)).
    - destruct (Z.eq_dec n 0) as [->|]; [done|]. apply Z.log2_spec. lia.
    - apply Z.pow_le_mono_l. lia. }
  rewrite app_nil_r in Heq. rewrite Heq. auto.
Qed.

(** A text that is no spelling of an option. *)
Lemma plain_head c s :
  c ≠ ch "n" → c ≠ ch "N" → c ≠ ch "S" →
  is_none (c :: s) = false ∧ strip_prefix (c :: s) (lit "Some(") = None.
Proof.
  intros Hn HN HS. unfold is_none, strip_prefix, starts_with. split.
  - rewrite (bool_decide_false (c :: s = lit "none")) by (intros Heq; apply Hn; by injection Heq).
    by rewrite bool_decide_false by (intros Heq; apply HN; by injection Heq).
  - rewrite bool_decide_false; [done|]. intros Heq. apply HS. by injection Heq.
Qed.

Lemma option_with field (parse : list Z → option Z) (print : Z → list Z) value :
  (∀ n, value = Some n → parse (print n) = Some n ∧
     ∃ c s, print n = c :: s ∧ (c = 45 ∨ 48 ≤ c ≤ 57)) →
  parse_option_with field (match value with Some n => print n | None => lit "none" end) parse =
  Ok value.
Proof.
  intros Hv. destruct value as [n|]; [|done].
  destruct (Hv n eq_refl) as (Hp & c & s & Hc & Hr). unfold parse_option_with.
  destruct (plain_head c s) as [H1 H2];
    [by intros ->; change (ch "n") with 110 in Hr; lia|by intros ->; change (ch "N") with 78 in Hr; lia|
     by intros ->; change (ch "S") with 83 in Hr; lia|].
  rewrite Hc, H1, H2. cbn [mbind option_bind]. by rewrite <-Hc, Hp.
Qed.

Definition in_option (lo hi : Z) (value : option Z) : Prop := ∀ n, value = Some n → lo ≤ n ≤ hi.

Lemma signed_option field value :
  in_option (- 2 ^ 127) (2 ^ 127 - 1) value →
  parse_option_i128 field (format_option value) = Ok value.
Proof.
  intros Hv. apply option_with. intros n Hn. split; [|apply decimal_head].
  by apply parse_signed_decimal, Hv.
Qed.

Lemma unsigned_option field max value :
  in_option 0 max value → parse_option_with field (format_option value) (parse_unsigned max) = Ok value.
Proof.
  intros Hv. apply option_with. intros n Hn. split; [|apply decimal_head].
  by apply parse_decimal, Hv.
Qed.

Lemma u32_option field value : in_option 0 u32_max value → parse_option_u32 field (format_option value) = Ok value.
Proof. apply unsigned_option. Qed.
Lemma u64_option field value : in_option 0 u64_max value → parse_option_u64 field (format_option value) = Ok value.
Proof. apply unsigned_option. Qed.

Lemma octal_option field value :
  in_option 0 u32_max value → parse_option_octal_u32 field (format_octal_option value) = Ok value.
Proof.
  intros Hv. apply option_with. intros n Hn. apply Hv in Hn.
  destruct (octal_spec n) as (Hd & Hval & Hne); [lia|].
  destruct (octal n) as [|c s] eqn:Ho; [done|].
  assert (Hc : 48 ≤ c ≤ 55).
  { cbn [forallb] in Hd. apply andb_prop in Hd as [[H1%Z.leb_le H2%Z.leb_le]%andb_prop _].
    change (ch "0") with 48 in H1. change (ch "7") with 55 in H2. lia. }
  split; [|exists c, s; split; [done|lia]]. unfold parse_octal.
  rewrite (proj2 (Z.eqb_neq c (ch "+"))) by (change (ch "+") with 43; lia).
  rewrite Hd, Hval, bool_decide_true by done. cbn [andb].
  by rewrite (proj2 (Z.leb_le n u32_max)) by lia.
Qed.

Lemma read_u64 field n : 0 ≤ n ≤ u64_max → parse_u64 field (decimal n) = Ok n.
Proof. intros Hn. unfold parse_u64. by rewrite parse_decimal. Qed.

Lemma read_bool field b : parse_bool field (format_bool b) = Ok b.
Proof. by destruct b. Qed.

Lemma read_file_type t : parse_file_type (file_type_label t) = Ok t.
Proof. by destruct t. Qed.

(** A text that is no spelling of an option itself. *)
Definition kept (value : option (list Z)) : Prop :=
  ∀ text, value = Some text → is_none text = false ∧ strip_prefix text (lit "Some(" ++ [34]) = None.

Lemma read_string value : kept value → parse_option_string (format_string_option value) = value.
Proof.
  intros Hv. destruct value as [text|]; [|done]. destruct (Hv text eq_refl) as [Hn Hs].
  unfold parse_option_string, format_string_option. cbn [default from_option id]. by rewrite Hn, Hs.
Qed.

(** ** Lines of a manifest *)

Lemma no_break_forallb (p : Z → bool) s :
  p 10 = false → p 13 = false → forallb p s = true → no_break s.
Proof.
  intros H10 H13 Hs. rewrite forallb_forall in Hs.
  split; intros Hin%list_elem_of_In%Hs; congruence.
Qed.

Lemma no_break_cons c s : c ≠ 10 → c ≠ 13 → no_break s → no_break (c :: s).
Proof. unfold no_break. set_solver. Qed.

Lemma no_break_lit t : forallb (λ c, negb (c =? 10) && negb (c =? 13)) (lit t) = true → no_break (lit t).
Proof. by apply no_break_forallb. Qed.

Lemma no_break_decimal n : no_break (decimal n).
Proof.
  destruct (Z.ltb_spec n 0) as [Hn|Hn].
  - unfold decimal. rewrite (proj2 (Z.ltb_lt n 0)) by done. apply no_break_cons; [done..|].
    pose proof (decimal_digits (- n)) as Hd. unfold decimal in Hd.
    rewrite (proj2 (Z.ltb_ge (- n) 0)) in Hd by lia.
    by apply (no_break_forallb is_ascii_digit); [..|apply Hd; lia].
  - by apply (no_break_forallb is_ascii_digit); [..|apply decimal_digits].
Qed.

Lemma no_break_option value : no_break (format_option value).
Proof. destruct value; [apply no_break_decimal|by apply no_break_lit]. Qed.

Lemma no_break_octal value : in_option 0 u32_max value → no_break (format_octal_option value).
Proof.
  intros Hv. destruct value as [n|]; [|by apply no_break_lit]. cbn.
  by apply (no_break_forallb is_octal_digit); [..|apply octal_spec, (Hv n)].
Qed.

Lemma no_break_string value :
  (∀ text, value = Some text → no_break text) → no_break (format_string_option value).
Proof. intros Hv. destruct value; [by apply Hv|by apply no_break_lit]. Qed.

Lemma no_break_bool b : no_break (format_bool b).
Proof. by destruct b; apply no_break_lit. Qed.

Lemma no_break_file_type t : no_break (file_type_label t).
Proof. by destruct t; apply no_break_lit. Qed.

(** A key: it begins with a letter, and has no equals sign and no line break. *)
Definition plain_key (key : string) : bool :=
  match lit key with [] => false | c :: _ => negb (is_whitespace c) end &&
  forallb (λ c, negb (c =? 10) && negb (c =? 13) && negb (c =? ch "=")) (lit key).

Lemma no_break_entry key value : plain_key key = true → no_break value → no_break (sidecar_entry key value).
Proof.
  intros [_ Hk]%andb_prop Hv. unfold sidecar_entry. apply no_break_app.
  - by apply (no_break_forallb (λ c, negb (c =? 10) && negb (c =? 13) && negb (c =? ch "="))).
  - by apply no_break_cons.
Qed.

Lemma parse_entry {A} (field : A → list Z → list Z → result A SidecarParseError) state key value lines :
  plain_key key = true →
  parse_lines field state (sidecar_entry key value :: lines) =
  let? state := field state (lit key) value in parse_lines field state lines.
Proof.
  intros [Hc Hk]%andb_prop. cbn [parse_lines].
  rewrite bool_decide_false.
  - unfold sidecar_entry. rewrite split_once_app; [done|].
    intros Hin%list_elem_of_In. rewrite forallb_forall in Hk. by apply Hk in Hin.
  - unfold sidecar_entry. destruct (lit key) as [|c s]; [done|]. cbn [app].
    apply trim_ne. by apply negb_true_iff.
Qed.

Lemma parse_entries {A X} (field : A → list Z → list Z → result A SidecarParseError) key
    (print : X → list Z) (add : A → X → A) state items lines :
  plain_key key = true →
  Forall (λ x, ∀ state, field state (lit key) (print x) = Ok (add state x)) items →
  parse_lines field state (((λ x, sidecar_entry key (print x)) <$> items) ++ lines) =
  parse_lines field (foldl add state items) lines.
Proof.
  intros Hk Hitems. revert state. induction Hitems as [|x items Hx Hitems IH]; intros state; [done|].
  rewrite fmap_cons. cbn [app]. rewrite parse_entry, Hx by done. cbn [and_then foldl]. apply IH.
Qed.

Lemma check_counted {A} field (found : list A) :
  check_count field (Some (Z.of_nat (length found))) found = Ok ().
Proof. unfold check_count. by rewrite Z.eqb_refl. Qed.

Lemma foldl_added {R X} (set : (list X → list X) → R → R) (state : R) (items : list X) :
  (∀ f g r, set f (set g r) = set (λ l, f (g l)) r) →
  (∀ f g r, (∀ l, f l = g l) → set f r = set g r) → (∀ r, set (λ l, l) r = r) →
  foldl (λ r x, set (λ l, l ++ [x]) r) state items = set (λ l, l ++ items) state.
Proof.
  intros Hcomp Hext Hid. revert state. induction items as [|x items IH]; intros state; cbn [foldl].
  - rewrite <-(Hid state) at 1. apply Hext. intros l. by rewrite app_nil_r.
  - rewrite IH, Hcomp. apply Hext. intros l. by rewrite <-app_assoc.
Qed.

(** The branch of a parser's [match] that a literal key takes. *)
Ltac branch_of t :=
  lazymatch t with
  | (if bool_decide ?P then ?x else ?y) =>
      let b := eval vm_compute in (bool_decide P) in
      lazymatch b with true => x | false => branch_of y end
  | _ => t
  end.

Ltac at_key parse_field :=
  match goal with
  | |- context [parse_field ?fields (lit ?key) ?value] =>
      let t := eval cbv beta zeta delta [parse_field] in (parse_field fields (lit key) value) in
      let b := branch_of t in
      change (parse_field fields (lit key) value) with b
  end.

Create HintDb one_line.
#[export] Hint Resolve no_break_decimal no_break_option no_break_bool no_break_file_type : one_line.

Ltac entry_line := try (simple apply no_break_entry; [reflexivity|auto with one_line]).

Section ntfs_round_trip.
Import Ntfs.

(** A sidecar that its manifest can hold: numbers of their width, texts of one line, and no
    text that reads as an option without a value. *)
Record storable (self : NtfsNativeSidecar) : Prop := {
  st_path : no_break (path self);
  st_len : 0 ≤ len self ≤ u64_max;
  st_modified : in_option (- 2 ^ 127) (2 ^ 127 - 1) (modified_unix_nanos self);
  st_creation : in_option (- 2 ^ 127) (2 ^ 127 - 1) (creation_time_unix_nanos self);
  st_attributes : in_option 0 u32_max (attributes self);
  st_ranges : Forall (λ range, 0 ≤ range_offset range ≤ u64_max ∧ 0 < range_len range ≤ u64_max)
                (sparse_ranges self);
  st_range_count : Z.of_nat (length (sparse_ranges self)) ≤ u64_max;
  st_reparse : in_option 0 u32_max (reparse_tag self);
  st_file_id : in_option 0 u64_max (file_id self);
  st_serial : in_option 0 u32_max (volume_serial self);
  st_links : in_option 0 u64_max (link_count self);
  st_security_len : in_option 0 u32_max (byte_len (security self));
  st_hash : kept (stable_hash (security self)) ∧
    ∀ text, stable_hash (security self) = Some text → no_break text;
  st_sddl : kept (sddl (security self)) ∧
    ∀ text, sddl (security self) = Some text → no_break text;
  st_streams : Forall (λ stream, stream_name stream ≠ [] ∧ no_break (stream_name stream) ∧
                                 0 ≤ stream_size stream ≤ u64_max) (streams self);
  st_stream_count : Z.of_nat (length (streams self)) ≤ u64_max;
}.

(** The manifest has no messages. *)
Definition without_messages (self : NtfsNativeSidecar) : NtfsNativeSidecar :=
  {| path := path self; file_type := file_type self; len := len self;
     modified_unix_nanos := modified_unix_nanos self;
     creation_time_unix_nanos := creation_time_unix_nanos self; attributes := attributes self;
     sparse_file := sparse_file self; sparse_ranges := sparse_ranges self;
     reparse_tag := reparse_tag self; file_id := file_id self;
     volume_serial := volume_serial self; link_count := link_count self;
     security := {| captured := captured (security self); byte_len := byte_len (security self);
                    stable_hash := stable_hash (security self); sddl := sddl (security self);
                    security_message := None |};
     streams := streams self;
     vss := with_available (vss_snapshot_status (vss_requested (vss self))) (vss_available (vss self)) |}.

Lemma range_text range :
  0 ≤ range_offset range ≤ u64_max → 0 < range_len range ≤ u64_max →
  parse_sparse_range (decimal (range_offset range) ++ ch "," :: decimal (range_len range)) = Ok range.
Proof.
  intros Ho Hl. unfold parse_sparse_range. rewrite split_once_app.
  - rewrite !read_u64 by lia. cbn [and_then].
    rewrite (proj2 (Z.eqb_neq (range_len range) 0)) by lia. by destruct range.
  - intros Hin%list_elem_of_In. pose proof (decimal_digits (range_offset range) ltac:(lia)) as Hd.
    rewrite forallb_forall in Hd. by apply Hd in Hin.
Qed.

Lemma stream_text stream :
  stream_name stream ≠ [] → 0 ≤ stream_size stream ≤ u64_max →
  parse_stream (stream_name stream ++ ch "," :: decimal (stream_size stream)) = Ok stream.
Proof.
  intros Hn Hs. unfold parse_stream. rewrite rsplit_once_app.
  - rewrite bool_decide_false, read_u64 by done. cbn [and_then]. by destruct stream.
  - intros Hin%list_elem_of_In. pose proof (decimal_digits (stream_size stream) ltac:(lia)) as Hd.
    rewrite forallb_forall in Hd. by apply Hd in Hin.
Qed.

Lemma ntfs_lines self : storable self → Forall no_break (manifest_lines self).
Proof.
  intros []. unfold manifest_lines. rewrite !Forall_app. split_and!.
  - repeat (apply Forall_cons; split); [..|constructor]; entry_line.
    by apply no_break_lit.
  - apply Forall_fmap. eapply Forall_impl; [done|]. intros range _. unfold compose. entry_line.
    apply no_break_app; [|apply no_break_cons; [done..|]]; auto with one_line.
  - repeat (apply Forall_cons; split); [..|constructor]; entry_line.
    + apply no_break_string, st_hash0.
    + apply no_break_string, st_sddl0.
  - apply Forall_fmap. eapply Forall_impl; [done|]. intros stream (_ & Hb & _). unfold compose. entry_line.
    apply no_break_app; [|apply no_break_cons; [done..|]]; auto with one_line.
  - repeat (apply Forall_cons; split); [..|constructor]; entry_line.
Qed.
End ntfs_round_trip.

(** One line: the parser's branch for its key, and the value it reads. *)
Ltac read_value :=
  first [ rewrite read_u64 by (assumption || lia) | rewrite read_bool | rewrite read_file_type
        | rewrite signed_option by assumption | rewrite u32_option by assumption
        | rewrite u64_option by assumption | rewrite octal_option by assumption
        | rewrite read_string by assumption | idtac ].

(** What [foldl_added] asks of the update of a field. *)
Ltac setter_law :=
  first [ intros ? ? ?; reflexivity
        | intros ? ? r ?; destruct r; unfold set_field; cbn; f_equal; auto
        | intros r; destruct r; reflexivity ].

Ltac read_entry parse_field :=
  rewrite parse_entry by reflexivity; at_key parse_field; read_value; cbn [and_then].

Section ntfs_theorem.
Import Ntfs.

(** C27. What the manifest of a file's NTFS metadata holds, its parser reads back: every
    field of a sidecar with one-line texts and numbers of their width, its sparse ranges
    and streams in their order, and nothing unknown; only messages are not kept. *)
Theorem ntfs_manifest_round_trip self :
  storable self →
  parse_ntfs_native_sidecar_manifest (manifest self) =
  Ok {| sidecar := without_messages self; unknown_fields := [] |}.
Proof.
  intros Hs. unfold parse_ntfs_native_sidecar_manifest, manifest.
  rewrite lines_written by by apply ntfs_lines.
  destruct (st_hash _ Hs) as [Hhash _], (st_sddl _ Hs) as [Hsddl _], Hs as [].
  unfold manifest_lines. cbn [app]. rewrite bool_decide_true by done.
  unfold ParsedFields_default. do 8 read_entry parse_field.
  rewrite (parse_entries _ _ _ (λ fields range, fields <| f_sparse_ranges ::= λ l, l ++ [range] |>)).
  - rewrite (foldl_added (set_field f_sparse_ranges)) by setter_law.
    do 9 read_entry parse_field.
    rewrite (parse_entries _ _ _ (λ fields stream, fields <| f_streams ::= λ l, l ++ [stream] |>)).
    + rewrite (foldl_added (set_field f_streams)) by setter_law.
      do 2 read_entry parse_field. cbn [parse_lines and_then]. unfold from_fields.
      cbn. rewrite !Z.eqb_refl. cbn. reflexivity.
    + reflexivity.
    + eapply Forall_impl; [eassumption|]. intros stream (Hn & _ & Hz) fields.
      at_key parse_field. by rewrite stream_text.
  - reflexivity.
  - eapply Forall_impl; [eassumption|]. intros range (Ho & Hl) fields.
    at_key parse_field. by rewrite range_text.
Qed.
End ntfs_theorem.

Section posix_round_trip.
Import Posix.

Definition text_kept (value : option (list Z)) : Prop :=
  kept value ∧ ∀ text, value = Some text → no_break text.

Definition part_kept (part : list Z) : Prop := no_break part ∧ (ch ",") ∉ part.

Definition acl_kept (acl : PosixAclRecord) : Prop :=
  acl_tag acl ≠ [] ∧ acl_perms acl ≠ [] ∧ acl_qualifier acl ≠ Some (lit "none") ∧
  part_kept (acl_tag acl) ∧ part_kept (format_string_option (acl_qualifier acl)) ∧
  part_kept (acl_perms acl).

Definition xattr_kept (xattr : PosixXattrRecord) : Prop :=
  xattr_name xattr ≠ [] ∧ no_break (xattr_name xattr) ∧
  Nat.even (length (xattr_value_hex xattr)) = true ∧
  forallb is_ascii_hexdigit (xattr_value_hex xattr) = true.

(** A sidecar that its manifest can hold. *)
Record posix_storable (self : PosixFakeSuperSidecar) : Prop := {
  ps_path : no_break (path self);
  ps_mode : in_option 0 u32_max (mode self);
  ps_uid : in_option 0 u32_max (uid self);
  ps_gid : in_option 0 u32_max (gid self);
  ps_user : text_kept (user_name self);
  ps_group : text_kept (group_name self);
  ps_access : in_option (- 2 ^ 127) (2 ^ 127 - 1) (access_time_unix_nanos self);
  ps_creation : in_option (- 2 ^ 127) (2 ^ 127 - 1) (creation_time_unix_nanos self);
  ps_acls : Forall acl_kept (acls self);
  ps_acl_count : Z.of_nat (length (acls self)) ≤ u64_max;
  ps_xattrs : Forall xattr_kept (xattrs self);
  ps_xattr_count : Z.of_nat (length (xattrs self)) ≤ u64_max;
}.

Lemma acl_text acl :
  acl_kept acl →
  parse_acl (acl_tag acl ++ ch "," :: format_string_option (acl_qualifier acl) ++ ch "," :: acl_perms acl) =
  Ok acl.
Proof.
  intros (Ht & Hp & Hq & [_ Htag] & [_ Hqualifier] & [_ Hperms]). unfold parse_acl.
  rewrite !split_on_app, split_on_plain, !bool_decide_false by done. cbn [orb].
  destruct acl as [tag [q|] perms]; cbn in *; [|done].
  rewrite bool_decide_false; [done|]. intros ->. done.
Qed.

Lemma xattr_text xattr :
  xattr_kept xattr → parse_xattr (xattr_name xattr ++ ch "," :: xattr_value_hex xattr) = Ok xattr.
Proof.
  intros (Hn & _ & He & Hx). unfold parse_xattr. rewrite rsplit_once_app.
  - rewrite bool_decide_false, Hx, <-Nat.negb_even, He by done. by destruct xattr.
  - intros Hin%list_elem_of_In. rewrite forallb_forall in Hx. by apply Hx in Hin.
Qed.

Lemma posix_lines self : posix_storable self → Forall no_break (manifest_lines self).
Proof.
  intros []. unfold manifest_lines. rewrite !Forall_app. split_and!.
  - repeat (apply Forall_cons; split); [..|constructor]; entry_line.
    + by apply no_break_lit.
    + by apply no_break_octal.
    + apply no_break_string, ps_user0.
    + apply no_break_string, ps_group0.
  - apply Forall_fmap. eapply Forall_impl; [done|].
    intros acl (_ & _ & _ & [Ht _] & [Hq _] & [Hp _]). unfold compose. apply no_break_entry; [done|].
    apply no_break_app; [done|]. apply no_break_cons; [done..|].
    apply no_break_app; [done|]. by apply no_break_cons.
  - repeat (apply Forall_cons; split); [..|constructor]; entry_line.
  - apply Forall_fmap. eapply Forall_impl; [done|].
    intros xattr (_ & Hb & _ & Hx). unfold compose. apply no_break_entry; [done|].
    apply no_break_app; [done|]. apply no_break_cons; [done..|].
    by apply (no_break_forallb is_ascii_hexdigit).
  - repeat (apply Forall_cons; split); [..|constructor]; entry_line.
Qed.

Lemma posix_manifest_reads self :
  posix_storable self →
  parse_posix_fake_super_sidecar_manifest (manifest self) =
  Ok {| sidecar := self; unknown_fields := [] |}.
Proof.
  intros Hs. unfold parse_posix_fake_super_sidecar_manifest, manifest.
  rewrite lines_written by by apply posix_lines.
  destruct (ps_user _ Hs) as [Huser _], (ps_group _ Hs) as [Hgroup _], Hs as [].
  unfold manifest_lines. cbn [app]. rewrite bool_decide_true by done.
  unfold PosixParsedFields_default. do 9 read_entry parse_field.
  rewrite (parse_entries _ _ _ (λ fields acl, fields <| f_acls ::= λ l, l ++ [acl] |>)).
  - rewrite (foldl_added (set_field f_acls)) by setter_law.
    do 1 read_entry parse_field.
    rewrite (parse_entries _ _ _ (λ fields xattr, fields <| f_xattrs ::= λ l, l ++ [xattr] |>)).
    + rewrite (foldl_added (set_field f_xattrs)) by setter_law.
      do 1 read_entry parse_field. cbn [parse_lines and_then]. unfold from_fields.
      cbn. rewrite !Z.eqb_refl. cbn. by destruct self.
    + reflexivity.
    + eapply Forall_impl; [eassumption|]. intros xattr Hx fields.
      at_key parse_field. by rewrite xattr_text.
  - reflexivity.
  - eapply Forall_impl; [eassumption|]. intros acl Ha fields.
    at_key parse_field. by rewrite acl_text.
Qed.
End posix_round_trip.

(** ** The hashes' and modes' digits *)

Lemma hex_from_digits fuel n later k :
  0 ≤ n < 16 ^ Z.of_nat (S k) →
  ∃ digits, hex_from fuel n later = digits ++ later ∧
    forallb is_ascii_hexdigit digits = true ∧ (length digits ≤ S k)%nat ∧
    (fuel ≠ 0%nat → digits ≠ []).
Proof.
  revert n later k. induction fuel as [|fuel IH]; intros n later k Hn.
  { exists []. split_and!; [done|done|cbn; lia|done]. }
  cbn [hex_from]. cbv zeta. set (d := if n mod 16 <? 10 then _ else _).
  assert (Hd : is_ascii_hexdigit d = true).
  { pose proof (Z.mod_pos_bound n 16 ltac:(lia)) as Hm. subst d. generalize dependent (n mod 16).
    intros m Hm. destruct (Z.ltb_spec m 10);
      unfold is_ascii_hexdigit, is_ascii_digit, in_range; lia. }
  destruct (Z.ltb_spec n 16) as [H16|H16].
  - exists [d]. split_and!; [done|by cbn [forallb]; rewrite Hd|cbn; lia|done].
  - destruct k as [|k]; [change (16 ^ Z.of_nat 1) with 16 in Hn; lia|].
    rewrite Nat2Z.inj_succ, Z.pow_succ_r in Hn by lia.
    destruct (IH (n / 16) (d :: later) k) as (digits & Heq & Hds & Hl & _).
    { split; [apply Z.div_pos; lia|apply Z.div_lt_upper_bound; lia]. }
    exists (digits ++ [d]). split_and!.
    + rewrite Heq. by rewrite <-app_assoc.
    + rewrite forallb_app, Hds. cbn [forallb]. by rewrite Hd.
    + rewrite length_app. cbn [length]. lia.
    + by destruct digits.
Qed.

(** [width] digits at least, and no more for a number below the power. *)
Lemma padded_hexadecimal width n :
  0 ≤ n < 16 ^ Z.of_nat (S width) →
  let digits := replicate (S width - length (hexadecimal n)) (ch "0") ++ hexadecimal n in
  forallb is_ascii_hexdigit digits = true ∧ length digits = S width.
Proof.
  intros Hn. destruct (hex_from_digits (S (Z.to_nat (Z.log2 n))) n [] width Hn)
    as (digits & Heq & Hd & Hl & _).
  cbv zeta. unfold hexadecimal. rewrite Heq, app_nil_r. split.
  - rewrite forallb_app, Hd, andb_true_r. apply forallb_forall. intros c Hc%list_elem_of_In.
    by apply elem_of_replicate in Hc as [-> _].
  - rewrite length_app, length_replicate. lia.
Qed.

Lemma hexadecimal8_spec n :
  in_u32 n → forallb is_ascii_hexdigit (hexadecimal8 n) = true ∧ length (hexadecimal8 n) = 8%nat.
Proof. intros Hn. apply (padded_hexadecimal 7). unfold in_u32, u32_max in Hn. cbn. lia. Qed.

Lemma hexadecimal16_spec n :
  0 ≤ n < 2 ^ 64 →
  forallb is_ascii_hexdigit (hexadecimal16 n) = true ∧ length (hexadecimal16 n) = 16%nat.
Proof. intros Hn. apply (padded_hexadecimal 15). cbn. lia. Qed.

Lemma fnv_range hash byte : 0 ≤ fnv_step hash byte < 2 ^ 64.
Proof. apply Z.mod_pos_bound. done. Qed.

Lemma fnv_fold_range bytes hash : 0 ≤ hash < 2 ^ 64 → 0 ≤ foldl fnv_step hash bytes < 2 ^ 64.
Proof. revert hash. induction bytes as [|b bytes IH]; intros hash Hh; [done|]. apply IH, fnv_range. Qed.

Lemma path_hash_range path : 0 ≤ stable_sidecar_path_hash path < 2 ^ 64.
Proof.
  unfold stable_sidecar_path_hash. assert (H : 0 ≤ FNV_OFFSET < 2 ^ 64) by done.
  revert H. generalize FNV_OFFSET. induction (normal_parts path) as [|part parts IH];
    intros hash Hh; [done|]. cbn [foldl]. apply IH, fnv_range.
Qed.

(** ** A captured sidecar *)

Lemma posix_mode_u32 metadata path preserve : in_u32 (posix_mode_for_path metadata path preserve).
Proof.
  unfold posix_mode_for_path. apply lor_bound; [lia|by destruct (Metadata.file_type metadata)|].
  assert (Hp : ∀ m, 0 ≤ Z.land m 0xFFF < 2 ^ 32).
  { intros m. change 0xFFF with (Z.ones 12). rewrite Z.land_ones by lia.
    pose proof (Z.mod_pos_bound m (2 ^ 12)). lia. }
  destruct (_ && _ && _); [by apply lor_bound; [lia|apply Hp|]|apply Hp].
Qed.

Lemma sidecar_mode_u32 metadata path plan :
  (∀ rules, p_chmod_rules plan = Some rules → ∃ text, from_str text = Ok rules) →
  in_u32 (posix_sidecar_mode metadata path plan).
Proof.
  intros Hr. unfold posix_sidecar_mode. cbv zeta. destruct (p_chmod_rules plan) as [rules|].
  - destruct (Hr rules eq_refl) as [text Ht]. apply apply_range; [|apply posix_mode_u32].
    by destruct (from_str_wf _ _ Ht).
  - apply posix_mode_u32.
Qed.

Lemma nonempty_part (p : list Z → Prop) text :
  p text → ∀ part, nonempty text = Some part → p part.
Proof. unfold nonempty. intros Hp part. case_bool_decide; [done|]. by intros [= <-]. Qed.

Lemma no_break_split c text :
  no_break text → ∀ l r, split_once c text = Some (l, r) → no_break l ∧ no_break r.
Proof. intros Ht l r [-> _]%split_once_inv. unfold no_break in *. set_solver. Qed.

Section captured.
Context `{Platform}.

(** C28. The POSIX metadata that is captured of a file is what the parser of its manifest
    gives back, whatever the file and the plan: its mode with the permission rules applied,
    the owners of --chown, its times, the access list and attribute records. A path or a
    --chown with a line break is excluded, and an owner whose name reads as no name. *)
Theorem captured_sidecar_is_read_back metadata accessed created path plan :
  let self := capture_posix_fake_super_sidecar metadata accessed created path plan in
  no_break (relative_text path) →
  (∀ chown, p_chown plan = Some chown → no_break chown) →
  (∀ rules, p_chmod_rules plan = Some rules → ∃ text, from_str text = Ok rules) →
  kept (Posix.user_name self) → kept (Posix.group_name self) →
  in_option (- 2 ^ 127) (2 ^ 127 - 1) accessed → in_option (- 2 ^ 127) (2 ^ 127 - 1) created →
  Posix.parse_posix_fake_super_sidecar_manifest (Posix.manifest self) =
  Ok {| Posix.sidecar := self; Posix.unknown_fields := [] |}.
Proof.
  intros self Hpath Hchown Hrules Huser Hgroup Ha Hc. apply posix_manifest_reads.
  pose proof (sidecar_mode_u32 metadata path plan Hrules) as Hmode. split; try done.
  - intros n [= <-]. unfold in_u32 in Hmode. unfold u32_max. lia.
  - split; [done|]. intros text. cbn [self Posix.user_name capture_posix_fake_super_sidecar].
    destruct (p_chown plan) as [chown|]; [|done]. cbn [mbind option_bind].
    apply nonempty_part. destruct (split_once _ chown) as [[user group]|] eqn:Hs; [|by apply Hchown].
    by apply (no_break_split _ _ (Hchown _ eq_refl)) in Hs as [].
  - split; [done|]. intros text. cbn [self Posix.group_name capture_posix_fake_super_sidecar].
    destruct (p_chown plan) as [chown|]; [|done]. cbn [mbind option_bind].
    apply nonempty_part. destruct (split_once _ chown) as [[user group]|] eqn:Hs.
    + by apply (no_break_split _ _ (Hchown _ eq_refl)) in Hs as [].
    + split; apply not_elem_of_nil.
  - cbn. destruct (p_atimes plan), accessed; done.
  - cbn. destruct (p_crtimes plan), created; done.
  - cbn. destruct (p_preserve_acls plan); [|constructor]. constructor; [|constructor].
    unfold acl_kept, part_kept, no_break. by apply (bool_decide_unpack _).
  - cbn. by destruct (p_preserve_acls plan).
  - unfold self, capture_posix_fake_super_sidecar. cbv zeta. cbn [Posix.xattrs].
    destruct (p_preserve_xattrs plan); [|constructor]. constructor; [|constructor].
    destruct (hexadecimal8_spec _ Hmode) as [Hd Hl]. unfold xattr_kept. cbn [xattr_value_hex xattr_name].
    rewrite Hd, Hl. split_and!; [discriminate|by apply no_break_lit|done|done].
  - cbn. by destruct (p_preserve_xattrs plan).
Qed.
End captured.

(** ** The file of a manifest *)

Definition name_char (c : Z) : bool :=
  is_ascii_alphanumeric c || existsb (Z.eqb c) [ch "."; ch "-"; ch "_"].

Lemma sidecar_char_name c : name_char (sidecar_char c) = true.
Proof.
  unfold sidecar_char. fold (name_char c). destruct (name_char c) eqn:Hc; [done|reflexivity].
Qed.

Lemma sanitized_name path :
  forallb name_char (sanitize_sidecar_name path) = true ∧ sanitize_sidecar_name path ≠ [].
Proof.
  assert (Hp : ∀ parts name, forallb name_char name = true →
    forallb name_char (foldl (λ name part,
      name ++ (if bool_decide (name = []) then [] else lit "__") ++ (sidecar_char <$> part))
      name parts) = true).
  { induction parts as [|part parts IH]; intros name Hn; [done|]. cbn [foldl]. apply IH.
    rewrite !forallb_app, Hn. cbn [andb]. apply andb_true_iff. split; [by case_bool_decide|].
    apply forallb_forall. intros c (d & -> & _)%list_elem_of_In%list_elem_of_fmap.
    apply sidecar_char_name. }
  unfold sanitize_sidecar_name. cbv zeta.
  pose proof (Hp (normal_parts path) [] eq_refl) as Hname.
  case_bool_decide; [|done]. by apply (bool_decide_unpack _).
Qed.

Lemma hexdigit_name c : is_ascii_hexdigit c = true → name_char c = true.
Proof.
  unfold is_ascii_hexdigit, name_char, is_ascii_alphanumeric, is_ascii_alphabetic, is_ascii_digit,
    in_range. intros Hc. apply orb_true_iff. left. lia.
Qed.

Lemma relative_name_chars sources path :
  forallb name_char (ntfs_sidecar_relative_name sources path) = true ∧
  (18 < length (ntfs_sidecar_relative_name sources path))%nat.
Proof.
  unfold ntfs_sidecar_relative_name. cbv zeta. set (relative := sidecar_relative sources path).
  destruct (sanitized_name relative) as [Hs Hne].
  destruct (hexadecimal16_spec _ (path_hash_range relative)) as [Hd Hl]. split.
  - rewrite !forallb_app, Hs. cbn [andb]. rewrite forallb_forall in Hd. apply forallb_forall.
    intros c Hc. by apply hexdigit_name, Hd.
  - rewrite !length_app, Hl. cbn. destruct (sanitize_sidecar_name relative); [done|cbn; lia].
Qed.

Section names.
Context `{Platform}.

Lemma name_path name :
  forallb name_char name = true → (2 < length name)%nat → parse_path name = [Normal name].
Proof.
  intros Hn Hl. rewrite forallb_forall in Hn. apply parse_name.
  - constructor.
    + apply forallb_forall. intros c Hc%Hn. unfold is_separator.
      assert (c ≠ ch "/" ∧ c ≠ ch "\") as [H1 H2] by (split; intros ->; done).
      by rewrite !(proj2 (Z.eqb_neq c _)), andb_false_r by done.
    + intros ->. cbn in Hl. lia.
    + intros ->. cbn in Hl. lia.
    + intros ->. cbn in Hl. lia.
  - unfold has_drive. destruct windows; [|done]. cbn [andb].
    destruct name as [|a [|b name]]; [done..|]. cbn [nth].
    assert (b ≠ ch ":") as Hb.
    { intros ->. assert (name_char (ch ":") = true) by (apply Hn; by right; left). done. }
    by rewrite (proj2 (Z.eqb_neq b _)), ?andb_false_r by done.
Qed.

(** C29. The manifest of a file is a file of the sidecar directory itself: whatever the names
    of the sources and of the path, with separators, drives or parent components, its path
    is the directory and one name after it, which is taken for a manifest's again. *)
Theorem manifest_stays_in_sidecar_root root sources path :
  let name := ntfs_sidecar_relative_name sources path ++ lit ".posix.meta" in
  posix_manifest_path root sources path = root ++ [Normal name] ∧
  parent (posix_manifest_path root sources path) = Some root ∧
  is_posix_fake_super_manifest_path (posix_manifest_path root sources path) = true.
Proof.
  intros name. destruct (relative_name_chars sources path) as [Hc Hl].
  assert (Hpath : posix_manifest_path root sources path = root ++ [Normal name]).
  { unfold posix_manifest_path. rewrite name_path.
    - unfold path_join. destruct root as [|[d| | | |n] [|c root]]; try done.
    - rewrite forallb_app, Hc. reflexivity.
    - rewrite length_app. lia. }
  rewrite Hpath. split; [done|]. split.
  - unfold parent. rewrite last_snoc, length_app, Nat.add_sub. by rewrite take_app_length.
  - unfold is_posix_fake_super_manifest_path. rewrite file_name_snoc.
    unfold ends_with, name. rewrite length_app, Nat.add_sub, drop_app_length.
    rewrite bool_decide_true by done. rewrite andb_true_r. apply Nat.leb_le. lia.
Qed.
End names.

(** ** Sparse ranges, attributes and times *)

Definition within (range : SparseRange) (x : Z) : Prop :=
  range_offset range ≤ x < range_offset range + range_len range.

Lemma holes_complement previous_end file_len ranges :
  validate_from previous_end file_len ranges = Ok () →
  0 ≤ previous_end ≤ file_len → file_len ≤ u64_max → Forall (λ range, 0 ≤ range_len range) ranges →
  (∀ x, previous_end ≤ x < file_len →
     (Exists (λ range, within range x) ranges ↔
      ¬ Exists (λ hole, within hole x) (holes_from previous_end file_len ranges))) ∧
  Forall (λ hole, previous_end ≤ range_offset hole ∧ 0 < range_len hole ∧
                  range_offset hole + range_len hole ≤ file_len)
    (holes_from previous_end file_len ranges) ∧
  Forall (λ range, previous_end ≤ range_offset range) ranges.
Proof.
  revert previous_end. induction ranges as [|range ranges IH]; intros start Hv Hs Hf Hl.
  - cbn [holes_from]. destruct (Z.ltb_spec start file_len) as [Hlt|Hge]; split_and!.
    + intros x Hx. rewrite Exists_cons, !Exists_nil. unfold within. cbn [range_offset range_len]. lia.
    + constructor; [cbn [range_offset range_len]; lia|constructor].
    + constructor.
    + intros x Hx. lia.
    + constructor.
    + constructor.
  - cbn [validate_from holes_from] in *. apply Forall_cons in Hl as [Hl0 Hl].
    destruct (Z.eqb_spec (range_len range) 0) as [|Hne]; [done|]. cbv zeta in Hv.
    destruct (Z.ltb_spec u64_max (range_offset range + range_len range)) as [|Hmax]; [done|].
    destruct (Z.ltb_spec file_len (range_offset range + range_len range)) as [|Hlen]; [done|].
    destruct (Z.ltb_spec (range_offset range) start) as [|Hstart]; [done|]. cbn [orb] in Hv.
    assert (Hmod : (range_offset range + range_len range) mod 2 ^ 64 = range_offset range + range_len range).
    { apply Z.mod_small. unfold u64_max in *. lia. }
    rewrite Hmod.
    destruct (IH _ Hv ltac:(lia) Hf Hl) as (Hx & Hh & Ho). split_and!.
    + intros x Hr. rewrite Exists_cons, Exists_app. unfold within at 1.
      assert (Hgap : Exists (λ hole, within hole x)
          (if start <? range_offset range
           then [{| range_offset := start; range_len := range_offset range - start |}] else []) ↔
        x < range_offset range).
      { destruct (Z.ltb_spec start (range_offset range)) as [Hg|Hg];
          rewrite ?Exists_cons, Exists_nil; [|lia].
        unfold within. cbn [range_offset range_len]. lia. }
      rewrite Hgap. destruct (Z.lt_ge_cases x (range_offset range + range_len range)) as [Hb|Hb].
      * assert (Hno : ∀ l, Forall (λ r, range_offset range + range_len range ≤ range_offset r) l →
                      ¬ Exists (λ r, within r x) l).
        { intros l Hall [r [Hin Hw]]%Exists_exists. rewrite Forall_forall in Hall.
          apply Hall in Hin. unfold within in Hw. lia. }
        pose proof (Hno _ Ho). assert (¬ Exists (λ hole, within hole x)
          (holes_from (range_offset range + range_len range) file_len ranges)).
        { apply Hno. eapply Forall_impl; [exact Hh|]. cbv beta. lia. }
        split.
        -- intros [Hw|Hw]; [|done]. intros [Hg|Hg]; [lia|done].
        -- intros Hn. left. destruct (Z.lt_ge_cases x (range_offset range)) as [Hg|Hg]; [|lia].
           destruct Hn. by left.
      * specialize (Hx x ltac:(lia)). split.
        -- intros [Hw|Hw]; [lia|]. intros [Hg|Hg]; [lia|]. by apply Hx in Hw.
        -- intros Hn. right. apply Hx. intros Hg. apply Hn. by right.
    + apply Forall_app. split.
      * destruct (Z.ltb_spec start (range_offset range)); constructor; [|constructor].
        cbn [range_offset range_len]. lia.
      * eapply Forall_impl; [exact Hh|]. cbv beta. lia.
    + constructor; [lia|]. eapply Forall_impl; [exact Ho|]. cbv beta. lia.
Qed.

(** C30. Of allocated ranges that pass validation, the holes that are punched are the rest
    of the file: every position below its length is in a range or in a hole and not in
    both, and every hole is not empty and ends within the file; the sums of offsets and
    lengths do not wrap. *)
Theorem holes_are_the_rest file_len ranges :
  0 ≤ file_len ≤ u64_max → Forall (λ range, 0 ≤ range_len range) ranges →
  validate_sparse_ranges file_len ranges = Ok () →
  (∀ x, 0 ≤ x < file_len →
     (Exists (λ range, within range x) ranges ↔
      ¬ Exists (λ hole, within hole x) (sparse_holes file_len ranges))) ∧
  Forall (λ hole, 0 ≤ range_offset hole ∧ 0 < range_len hole ∧
                  range_offset hole + range_len hole ≤ file_len) (sparse_holes file_len ranges).
Proof.
  intros Hlen Hr Hv. destruct (holes_complement 0 file_len ranges Hv ltac:(lia) ltac:(lia) Hr)
    as (Hx & Hh & _). by split.
Qed.

Lemma holes_are_the_rest_witness :
  let ranges := [{| range_offset := 4; range_len := 4 |}; {| range_offset := 8; range_len := 1 |}] in
  Forall (λ hole, 0 ≤ range_offset hole ∧ 0 < range_len hole ∧
                  range_offset hole + range_len hole ≤ 20) (sparse_holes 20 ranges) ∧
  sparse_holes 20 ranges =
  [{| range_offset := 0; range_len := 4 |}; {| range_offset := 9; range_len := 11 |}].
Proof.
  intros ranges. split; [|reflexivity].
  apply (holes_are_the_rest 20 ranges); [by vm_compute|by repeat constructor|reflexivity].
Defined.

(** The attributes that may be restored are those of the source, the others stay. *)
Lemma restored_bits current attributes i :
  in_u32 current → 0 ≤ i < 32 →
  Z.testbit (restored_attributes current attributes) i =
  if Z.testbit SAFE_RESTORE_ATTRIBUTE_MASK i then Z.testbit attributes i else Z.testbit current i.
Proof.
  intros Hc Hi. unfold restored_attributes, not_u32.
  rewrite Z.lor_spec, !Z.land_spec, Z.lxor_spec.
  change u32_max with (Z.ones 32). rewrite Z.ones_spec_low by lia.
  destruct (Z.testbit SAFE_RESTORE_ATTRIBUTE_MASK i); cbn;
    by rewrite ?andb_false_r, ?andb_true_r, ?orb_false_r, ?orb_false_l.
Qed.

(** A time since 1970 comes back from a file time in steps of 100 nanoseconds. *)
Lemma filetime_round_trip (time : SystemTime) :
  0 ≤ time ≤ u64_max →
  (system_time_to_windows_filetime time ≫= windows_filetime_to_system_time (H:=true)) =
  Some (time - time mod 100).
Proof.
  intros Ht. unfold system_time_to_windows_filetime. rewrite (proj2 (Z.ltb_ge time 0)) by lia.
  cbn [mbind option_bind]. unfold windows_filetime_to_system_time.
  change (negb (@windows true)) with false. cbn iota.
  pose proof (Z.div_mod time 1000000000 ltac:(lia)) as Hd.
  pose proof (Z.mod_pos_bound time 1000000000 ltac:(lia)) as Hm.
  pose proof (Z.div_mod (time mod 1000000000) 100 ltac:(lia)) as Hd2.
  pose proof (Z.mod_pos_bound (time mod 1000000000) 100 ltac:(lia)) as Hm2.
  assert (Hmm : (time mod 1000000000) mod 100 = time mod 100).
  { apply Z.mod_unique_pos with (time / 1000000000 * 10000000 + time mod 1000000000 / 100); lia. }
  assert (0 ≤ time / 1000000000) by (apply Z.div_pos; lia).
  unfold WINDOWS_TO_UNIX_EPOCH_100NS, u64_max in *.
  rewrite (Z.min_l (time / 1000000000 * 10000000)) by lia.
  rewrite (proj2 (Z.eqb_neq _ 0)), (proj2 (Z.ltb_ge _ _)), Z.min_l by lia. f_equal. lia.
Qed.

(** ** The scripts of snapshots

    PowerShell reads a quoted text up to a quote that is not doubled; typographic single
    quotes are quotes for it as well. *)

Definition powershell_quote (c : Z) : bool :=
  (c =? 39) || (0x2018 <=? c) && (c <=? 0x201B).

Fixpoint powershell_rest (s : list Z) : option (list Z * list Z) :=
  match s with
  | [] => None
  | c :: s1 =>
      if powershell_quote c then
        match s1 with
        | d :: s2 => if powershell_quote d then prod_map (cons d) id <$> powershell_rest s2
                     else Some ([], s1)
        | [] => Some ([], [])
        end
      else prod_map (cons c) id <$> powershell_rest s1
  end.

Definition powershell_text (s : list Z) : option (list Z * list Z) :=
  match s with
  | c :: s => if powershell_quote c then powershell_rest s else None
  | [] => None
  end.

(** A quoted value without typographic quotes is read as the value, and what follows it is
    still the script's. *)
Lemma powershell_reads_quoted value rest :
  Forall (λ c, powershell_quote c = true → c = 39) value →
  (∀ c, head rest = Some c → powershell_quote c = false) →
  powershell_text (powershell_single_quoted value ++ rest) = Some (value, rest).
Proof.
  intros Hv Hr. unfold powershell_single_quoted. rewrite <-app_comm_cons, <-app_assoc.
  change (powershell_text (ch "'" :: ?s)) with (powershell_rest s).
  induction Hv as [|c value Hc Hv IH].
  - cbn. destruct rest as [|d rest]; [done|]. by rewrite (Hr d eq_refl).
  - cbn [mbind list_bind app] in IH |- *. rewrite <-app_assoc. destruct (Z.eqb_spec c (ch "'")) as [->|Hn].
    + cbn [app]. change (powershell_rest (ch "'" :: ch "'" :: ?s)) with
        (prod_map (cons (ch "'")) id <$> powershell_rest s). by rewrite IH.
    + cbn [app powershell_rest]. destruct (powershell_quote c); [by destruct Hn; auto|]. by rewrite IH.
Qed.

(** Both scripts go on behind their value as they were written. *)
Lemma snapshot_scripts_keep_their_value value :
  Forall (λ c, powershell_quote c = true → c = 39) value →
  powershell_text (drop (length shadow_script_head) (create_shadow_script value)) =
    Some (value, shadow_script_tail) ∧
  (∀ script, delete_shadow_script value = Some script →
     powershell_text (drop (length delete_script_head) script) = Some (value, delete_script_tail)).
Proof.
  intros Hv. split.
  - unfold create_shadow_script. rewrite drop_app_length. apply powershell_reads_quoted; [done|].
    intros c Hc. injection Hc as <-. reflexivity.
  - intros script Hs. unfold delete_shadow_script in Hs. case_bool_decide; [done|].
    assert (Hscript : script = delete_script_head ++ powershell_single_quoted value ++
      delete_script_tail) by congruence.
    rewrite Hscript, drop_app_length. apply powershell_reads_quoted; [done|].
    intros c Hc. injection Hc as <-. reflexivity.
Qed.

(** ** Concrete sidecars *)

Definition sample_ntfs : Ntfs.NtfsNativeSidecar :=
  {| Ntfs.path := lit "dir\file.txt"; Ntfs.file_type := Metadata.File; Ntfs.len := 4096;
     Ntfs.modified_unix_nanos := Some (-5); Ntfs.creation_time_unix_nanos := None;
     Ntfs.attributes := Some 32; Ntfs.sparse_file := true;
     Ntfs.sparse_ranges := [{| range_offset := 0; range_len := 512 |};
                            {| range_offset := 1024; range_len := 512 |}];
     Ntfs.reparse_tag := None; Ntfs.file_id := Some 99; Ntfs.volume_serial := Some 7;
     Ntfs.link_count := Some 1;
     Ntfs.security := {| captured := true; byte_len := Some 12; stable_hash := Some (lit "abcd");
                         sddl := Some (lit "D:P(A;;FA;;;SY)"); security_message := None |};
     Ntfs.streams := [{| stream_name := lit "Zone,Identifier"; stream_size := 26 |}];
     Ntfs.vss := vss_snapshot_status true |}.

Ltac one_line_text := unfold no_break; apply (bool_decide_unpack _); vm_compute; exact I.
Ltac number_option := intros n Hn; first [discriminate Hn | injection Hn as <-; vm_compute; split; discriminate].
Ltac text_option := split; intros text Ht; first [discriminate Ht | injection Ht as <-; first [split; reflexivity | one_line_text]].

Lemma ntfs_manifest_round_trip_witness :
  Ntfs.parse_ntfs_native_sidecar_manifest (Ntfs.manifest sample_ntfs) =
  Ok {| Ntfs.sidecar := sample_ntfs; Ntfs.unknown_fields := [] |}.
Proof.
  rewrite ntfs_manifest_round_trip; [reflexivity|]. constructor.
  - one_line_text.
  - vm_compute. split; discriminate.
  - number_option.
  - number_option.
  - number_option.
  - repeat constructor; vm_compute; discriminate.
  - vm_compute. discriminate.
  - number_option.
  - number_option.
  - number_option.
  - number_option.
  - number_option.
  - text_option.
  - text_option.
  - constructor; [|constructor]. split; [discriminate|]. split; [one_line_text|].
    vm_compute. split; discriminate.
  - vm_compute. discriminate.
Defined.

(** What the tests of the code read: spellings of an earlier version, an unknown field. *)
Example old_spellings :
  parse_option_i128 "modified" (lit "Some(123)") = Ok (Some 123) ∧
  parse_option_i128 "creation_time" (lit "None") = Ok None ∧
  parse_option_string (lit "Some(" ++ [34] ++ lit "abcd" ++ [34] ++ lit ")") = Some (lit "abcd").
Proof. vm_compute. by split_and!. Qed.

Definition sample_posix (user : string) (path : list Z) : Posix.PosixFakeSuperSidecar :=
  {| Posix.path := path; Posix.mode := Some 0x81A0; Posix.uid := Some 1000; Posix.gid := None;
     Posix.user_name := Some (lit user); Posix.group_name := None;
     Posix.access_time_unix_nanos := Some 1700000000000000001;
     Posix.creation_time_unix_nanos := None;
     Posix.acls := [{| acl_tag := lit "user"; acl_qualifier := Some (lit "alice"); acl_perms := lit "rwx" |}];
     Posix.xattrs := [{| xattr_name := lit "user.comment"; xattr_value_hex := lit "68656c6c6f" |}];
     Posix.fake_super := true |}.

Example posix_sample_reads :
  Posix.parse_posix_fake_super_sidecar_manifest (Posix.manifest (sample_posix "alice" (lit "dir/file.txt"))) =
  Ok {| Posix.sidecar := sample_posix "alice" (lit "dir/file.txt"); Posix.unknown_fields := [] |}.
Proof. vm_compute. reflexivity. Qed.

(** A user whose name is the word for no name is lost. *)
Example user_none_is_lost :
  match Posix.parse_posix_fake_super_sidecar_manifest (Posix.manifest (sample_posix "none" (lit "f"))) with
  | Ok manifest => Posix.user_name (Posix.sidecar manifest)
  | Err _ => Some []
  end = None.
Proof. vm_compute. reflexivity. Qed.

(** A line feed in a name, which POSIX allows, makes lines of its own of what follows. *)
Example line_feed_forges_a_field :
  match Posix.parse_posix_fake_super_sidecar_manifest
          (Posix.manifest (sample_posix "alice" (lit "f" ++ [10] ++ lit "future=1"))) with
  | Ok manifest => Some (Posix.path (Posix.sidecar manifest), Posix.unknown_fields manifest)
  | Err _ => None
  end = Some (lit "f", [(lit "future", lit "1")]).
Proof. vm_compute. reflexivity. Qed.

(** A typographic quote in the name of a volume's folder ends the text: what follows it is read
    as commands. *)
Example typographic_quote_ends_the_text :
  powershell_text (powershell_single_quoted (lit "C:\a" ++ [0x2019] ++ lit "); calc; #")) =
  Some (lit "C:\a", lit "); calc; #'").
Proof. vm_compute. reflexivity. Qed.

Example shadow_copy_read :
  read_shadow_copy (lit "{AB}" ++ [9] ++ lit "\\?\GLOBALROOT\D1" ++ [13; 10; 13; 10]) =
    Ok {| shadow_id := lit "{AB}"; device_object := lit "\\?\GLOBALROOT\D1" |} ∧
  append_snapshot_relative (lit "\\?\GLOBALROOT\D1") (lit "dir\f") = lit "\\?\GLOBALROOT\D1\dir\f".
Proof. vm_compute. done. Qed.

Example sidecar_names :
  sanitize_sidecar_name (parse_path (H:=true) (lit "C:\a b\..\c")) = lit "a_b__c".
Proof. vm_compute. reflexivity. Qed.

#[local] Instance sample_platform : Platform := true.
#[local] Instance sample_files : Files := λ _, None.

Definition sample_cli : Cli :=
  the (parse_cli (lit <$> ["-rtAX"; "--fake-super"; "--chown=alice:staff"; "--chmod=F600"; "a"; "b"])) eq_refl.
Definition sample_plan : TransferPlan := the (from_cli sample_cli 0 0) ltac:(vm_compute; reflexivity).

Lemma captured_sidecar_is_read_back_witness :
  let self := capture_posix_fake_super_sidecar (file_metadata 3) (Some 7) None
                (parse_path (lit "a\x y")) sample_plan in
  Posix.parse_posix_fake_super_sidecar_manifest (Posix.manifest self) =
  Ok {| Posix.sidecar := self; Posix.unknown_fields := [] |} ∧
  Posix.mode self = Some 0x8180 ∧ Posix.user_name self = Some (lit "alice").
Proof.
  intros self. split; [|vm_compute; by split].
  apply (captured_sidecar_is_read_back (file_metadata 3) (Some 7) None (parse_path (lit "a\x y")) sample_plan).
  - one_line_text.
  - intros chown Hc. vm_compute in Hc. injection Hc as <-. one_line_text.
  - intros rules Hr. exists (lit "F600"). vm_compute in Hr. injection Hr as <-. vm_compute. reflexivity.
  - intros text Ht. vm_compute in Ht. injection Ht as <-. split; reflexivity.
  - intros text Ht. vm_compute in Ht. injection Ht as <-. split; reflexivity.
  - number_option.
  - number_option.
Defined.
