(* ===== verification/Output.v ===== *)
(** * What a run reports: rsync-cli/src/output.rs and rsync-cli/src/format

    The exit code of an error, the flags of --info and --debug, the levels at which a
    message is shown and where, the formats of --out-format and of the client's log, the
    escapes in names, and the texts that report the actions of a sync.  Texts are lists of
    characters.  The process id and the clock are arguments of the log's format. *)

From S2P Require Import Prelude Str Text DaemonConfig Values Core FsPath Flist Metadata SyncPlan RemoteFiles Cli Options.
From Stdlib Require Import SpecFloat.

(** ** Exit codes *)

Definition EXIT_SUCCESS : Z := 0.
Definition EXIT_SYNTAX_OR_USAGE : Z := 1.
Definition EXIT_PROTOCOL : Z := 2.
Definition EXIT_FILE_SELECT : Z := 3.
Definition EXIT_UNSUPPORTED : Z := 4.
Definition EXIT_START_PROTOCOL : Z := 5.
Definition EXIT_DAEMON_LOG_FILE : Z := 6.
Definition EXIT_SOCKET_IO : Z := 10.
Definition EXIT_FILE_IO : Z := 11.
Definition EXIT_PROTOCOL_STREAM : Z := 12.
Definition EXIT_DIAGNOSTICS : Z := 13.
Definition EXIT_IPC : Z := 14.
Definition EXIT_SIGNAL : Z := 20.
Definition EXIT_WAITPID : Z := 21.
Definition EXIT_ALLOC : Z := 22.
Definition EXIT_PARTIAL : Z := 23.
Definition EXIT_VANISHED : Z := 24.
Definition EXIT_MAX_DELETE : Z := 25.
Definition EXIT_TIMEOUT : Z := 30.
Definition EXIT_DAEMON_TIMEOUT : Z := 35.

(** [str::to_lowercase] and [str::to_uppercase], whose tables are those of Unicode. *)
Class Letters := {
  lowercase : list Z → list Z;
  uppercase : list Z → list Z;
}.

(** On ASCII they change the ASCII letters only. *)
Class LettersLaws `{Letters} : Prop := {
  lowercase_ascii s : Forall (λ c, is_ascii c = true) s → lowercase s = to_ascii_lowercase s;
  uppercase_ascii s : Forall (λ c, is_ascii c = true) s → uppercase s = to_ascii_uppercase s;
}.

Section with_letters.
Context `{Letters}.

Definition exit_code_from_error (msg : list Z) : Z :=
  let lower := lowercase msg in
  let says (words : string) := contains_str lower (lit words) in
  if says "timed out" || says "timeout" then EXIT_TIMEOUT
  else if says "remote-shell" &&
          (says "permission denied" || says "publickey" || says "authentication failed" ||
           says "auth failure" || says "command not found" || says "not recognized as" ||
           says "no such file or directory") then EXIT_START_PROTOCOL
  else if says "unsupported protocol" || says "protocol incompat" ||
          says "protocol version mismatch" then EXIT_PROTOCOL
  else if says "source" && says "vanished" then EXIT_VANISHED
  else if says "daemon" && (says "log-file" || says "log_file" || says "unable to open")
       then EXIT_DAEMON_LOG_FILE
  else if says "daemon" && says "auth" then EXIT_START_PROTOCOL
  else if says "max-delete" || says "max_delete" then EXIT_MAX_DELETE
  else if says "partial" then EXIT_PARTIAL
  else if says "socket" || says "connection refuse" || says "connect error" then EXIT_SOCKET_IO
  else if says "no such file" || says "not found" then EXIT_FILE_SELECT
  else if says "unknown option" || says "syntax" || says "usage" then EXIT_SYNTAX_OR_USAGE
  else if says "unsupported" then EXIT_UNSUPPORTED
  else if says "protocol" && says "start" then EXIT_START_PROTOCOL
  else if says "protocol" || says "multiplex" || says "checksum" then EXIT_PROTOCOL_STREAM
  else if says "permission denied" || says "io error" then EXIT_FILE_IO
  else if says "file" then EXIT_FILE_IO
  else if says "diagnostic" then EXIT_DIAGNOSTICS
  else if says "ipc" then EXIT_IPC
  else if says "signal" || says "interrupt" || says "sigint" then EXIT_SIGNAL
  else if says "waitpid" then EXIT_WAITPID
  else if says "alloc" || says "memory" then EXIT_ALLOC
  else EXIT_SYNTAX_OR_USAGE.

(** ** The flags of --info and --debug

    [InfoFlags] and [DebugFlags] are the same code over two tables of names; a table is a
    record here.  The marker is the highest bit of [ALL]. *)

Record FlagTable := {
  flag_names : list (list string * Z);
  all_marker : Z;
}.

Definition info_table : FlagTable := {|
  flag_names := [
    (["BACKUP"], 0); (["COPY"], 1); (["DEL"; "DELETE"], 2); (["FLIST"], 3); (["MISC"], 4);
    (["MOUNT"], 5); (["NAME"], 6); (["PROGRESS"], 7); (["REMOVE"], 8); (["SKIP"], 9);
    (["STATS"], 10); (["SYMSAFE"], 11)];
  all_marker := 12;
|}.

Definition debug_table : FlagTable := {|
  flag_names := [
    (["BACKUP"], 0); (["BIND"], 1); (["CWD"], 2); (["DEL"; "DELETE"], 3); (["DELTASUM"], 4);
    (["DUP"], 5); (["EXCLUDE"], 6); (["FILTER"], 7); (["FLIST"], 8); (["FUZZY"], 9);
    (["HLINK"], 10); (["ICONV"], 11); (["IO"], 12); (["MLOCK"], 13); (["MOUNT"], 14);
    (["OWN"], 15); (["PROTO"], 16); (["RECV"], 17); (["SEND"], 18); (["SOCK"], 19);
    (["TIME"], 20)];
  all_marker := 21;
|}.

Definition PROGRESS : Z := 2 ^ 7.
Definition NONE : Z := 0.

Section with_table.
Context (table : FlagTable).

Definition ALL : Z := 2 ^ (all_marker table + 1) - 1.

Definition flags_contain (self flag : Z) : bool :=
  if flag =? NONE then self =? 0
  else if flag =? ALL then Z.testbit self (all_marker table)
  else negb (Z.land self flag =? 0).

Definition flags_intersect (self flag : Z) : bool :=
  if flags_contain self ALL then true else negb (Z.land self flag =? 0).

Definition flags_insert (self flag : Z) : Z :=
  if flag =? ALL then ALL else if negb (flag =? NONE) then Z.lor self flag else self.

Definition flags_remove (self flag : Z) : Z :=
  if flag =? ALL then 0 else Z.ldiff self flag.
End with_table.

(** The level is what follows the last character that is no digit. *)
Definition split_flag_level (name : list Z) : list Z * option Z :=
  let base := rev (trim_start_by is_ascii_digit (rev name)) in
  let level := drop (length base) name in
  if bool_decide (level = []) then (name, None) else (base, parse_unsigned 255 level).

Definition flag_named (table : FlagTable) (name : list Z) : option Z :=
  if bool_decide (name = lit "ALL") then Some (ALL table)
  else if bool_decide (name = lit "NONE") then Some NONE
  else (λ row, 2 ^ snd row) <$> List.find (λ row, one_of name row.1) (flag_names table).

Definition add_flag (table : FlagTable) (flags : Z) (name : list Z) (negate : bool) : Z :=
  let '(name, level) := split_flag_level name in
  let negate := negate || bool_decide (level = Some 0) in
  match flag_named table (uppercase name) with
  | None => flags
  | Some flag =>
      if negate then flags_remove table flags flag else flags_insert table flags flag
  end.

(** The loop over the characters, with the flags, the sign and the name so far. *)
Fixpoint flags_loop (table : FlagTable) (flags : Z) (negate : bool) (buf chars : list Z) : Z :=
  match chars with
  | [] => if bool_decide (buf = []) then flags else add_flag table flags buf negate
  | c :: chars =>
      if (c =? ch ",") || (c =? ch " ") then
        let flags := if bool_decide (buf = []) then flags else add_flag table flags buf negate in
        flags_loop table flags false [] chars
      else if c =? ch "-" then flags_loop table flags (negb negate) buf chars
      else if c =? ch "+" then flags_loop table flags false buf chars
      else flags_loop table flags negate (buf ++ [c]) chars
  end.

Definition parse_flags (table : FlagTable) (input : list Z) : Z :=
  let is_ (name : string) := bool_decide (to_ascii_uppercase input = lit name) in
  if bool_decide (input = []) || is_ "NONE" then NONE
  else if is_ "ALL" then ALL table
  else flags_loop table 0 false [] input.

Definition parse_info_flags : list Z → Z := parse_flags info_table.
Definition parse_debug_flags : list Z → Z := parse_flags debug_table.

(** The fold over the values of an option. *)
Definition all_flags (table : FlagTable) (values : list (list Z)) : Z :=
  foldl (λ acc f, flags_insert table acc (parse_flags table f)) 0 values.

(** ** Logs *)

Record OutputFormatConfig := {
  config_format : option (list Z);
  itemize : bool;
  show_stats : bool;
  config_human_readable : Z;
  eight_bit : bool;
}.

Definition output_format_from_cli (cli : Cli) : OutputFormatConfig :=
  {| config_format := out_format cli; itemize := itemize_changes cli; show_stats := stats cli;
     config_human_readable := human_readable cli; eight_bit := eight_bit_output cli |}.

(** The lines of the client's log are kept where the code has a writer for them. *)
Record TransferLog := {
  log_verbosity : Z;
  log_quiet : Z;
  log_info_flags : Z;
  log_debug_flags : Z;
  log_stderr_mode : StderrMode;
  log_config : OutputFormatConfig;
  log_lines : option (list (list Z));
}.

Definition transfer_log_from_cli (cli : Cli) : result TransferLog OptionError :=
  let? mode :=
    match stderr_mode cli with
    | Some mode => parse_stderr_mode mode
    | None => Ok (if no_msgs2stderr cli then StderrClient
                  else if msgs2stderr cli then StderrAll else StderrErrors)
    end in
  Ok {| log_verbosity := verbosity cli; log_quiet := quiet cli;
        log_info_flags := all_flags info_table (info_flags cli);
        log_debug_flags := all_flags debug_table (debug_flags cli);
        log_stderr_mode := mode; log_config := output_format_from_cli cli;
        log_lines := (λ _, []) <$> client_log_file cli |}.

Definition minimal (verbosity : Z) : TransferLog :=
  {| log_verbosity := verbosity; log_quiet := 0; log_info_flags := 0; log_debug_flags := 0;
     log_stderr_mode := StderrErrors;
     log_config := {| config_format := None; itemize := false; show_stats := false;
                      config_human_readable := 0; eight_bit := false |};
     log_lines := None |}.

(** What a method prints, and where. *)
Inductive Printed := Stdout (line : list Z) | Stderr (line : list Z).

Definition named (message : list Z) : list Z := lit "rsync-win: " ++ message.

Definition as_i8 (n : Z) : Z := (n + 128) mod 256 - 128.

(** The subtraction of two i8 wraps in a release build. *)
Definition level_of (verbosity quiet : Z) : Z := as_i8 (as_i8 verbosity - as_i8 quiet).

Definition effective_level (self : TransferLog) : Z :=
  level_of (log_verbosity self) (log_quiet self).

Definition log_enabled (self : TransferLog) : bool := 0 <? effective_level self.

Definition emit (mode : StderrMode) (msg : list Z) : list Printed :=
  match mode with
  | StderrAll | StderrErrors => [Stderr (named msg)]
  | StderrClient => [Stdout (named msg)]
  end.

Definition log_info (self : TransferLog) (message : list Z) : list Printed :=
  if effective_level self <? 1 then [] else emit (log_stderr_mode self) message.
Definition log_detail (self : TransferLog) (message : list Z) : list Printed :=
  if effective_level self <? 2 then [] else emit (log_stderr_mode self) message.
Definition log_debug (self : TransferLog) (category : Z) (message : list Z) : list Printed :=
  if flags_contain debug_table (log_debug_flags self) (ALL debug_table) ||
     flags_intersect debug_table (log_debug_flags self) category
  then emit (log_stderr_mode self) message else [].
Definition log_warn (self : TransferLog) (message : list Z) : list Printed :=
  match log_stderr_mode self with StderrClient => [] | _ => [Stderr (named message)] end.
Definition log_error (self : TransferLog) (message : list Z) : list Printed :=
  [Stderr (named message)].
Definition log_progress_info (self : TransferLog) (message : list Z) : list Printed :=
  if itemize (log_config self) || is_some (config_format (log_config self)) then []
  else log_info self message.

Record ProgressLog := {
  progress_verbosity : Z;
  progress_quiet : Z;
  progress_asked : bool;
  progress_info_flags : Z;
  progress_stderr_mode : StderrMode;
}.

Definition progress_log_from_cli (cli : Cli) : ProgressLog :=
  {| progress_verbosity := verbosity cli; progress_quiet := quiet cli;
     progress_asked := progress cli;
     progress_info_flags := all_flags info_table (info_flags cli);
     progress_stderr_mode :=
       match stderr_mode cli with
       | Some mode => match parse_stderr_mode mode with Ok mode => mode | Err _ => StderrErrors end
       | None => if no_msgs2stderr cli then StderrClient
                 else if msgs2stderr cli then StderrAll else StderrErrors
       end |}.

Definition explicit_progress_enabled (self : ProgressLog) : bool :=
  (progress_quiet self =? 0) &&
  (progress_asked self || flags_contain info_table (progress_info_flags self) PROGRESS).

Definition progress_enabled (self : ProgressLog) : bool :=
  (1 <=? level_of (progress_verbosity self) (progress_quiet self)) ||
  explicit_progress_enabled self.

Definition progress_info (self : ProgressLog) (message : list Z) : list Printed :=
  if progress_enabled self then emit (progress_stderr_mode self) message else [].

Definition progress_detail (self : ProgressLog) (message : list Z) : list Printed :=
  if (2 <=? level_of (progress_verbosity self) (progress_quiet self)) ||
     flags_contain info_table (progress_info_flags self) (ALL info_table)
  then emit (progress_stderr_mode self) message else [].
End with_letters.

(** ** Bytes for a reader

    [{:.2}] and [{:.0}] round the exact value of an f64 to even at ties. *)

(** The quotient of two positive numbers, rounded to the nearest, ties to even. *)
Definition div_even (n d : Z) : Z :=
  let q := n / d in
  let r := n mod d in
  if (2 * r <? d) || (2 * r =? d) && Z.even q then q else q + 1.

(** A number of which the last [places] digits are behind the point. *)
Definition fixed (places : nat) (n : Z) : list Z :=
  let digits := decimal n in
  let digits := replicate (S places - length digits) (ch "0") ++ digits in
  take (length digits - places) digits ++
  (if bool_decide (places = 0%nat) then [] else [ch "."]) ++
  drop (length digits - places) digits.

(** [format!("{:.places$}", x)] of a number that is not negative. *)
Definition fixed_f64 (places : nat) (x : f64) : list Z :=
  match x with
  | S754_finite _ m e =>
      let scale := 10 ^ Z.of_nat places in
      fixed places (if 0 <=? e then Z.pos m * 2 ^ e * scale
                    else div_even (Z.pos m * scale) (2 ^ (- e)))
  | S754_infinity _ => lit "inf"
  | S754_nan => lit "NaN"
  | S754_zero _ => fixed places 0
  end.

Definition f64_div : f64 → f64 → f64 := SFdiv 53 1024.

Definition format_bytes_human (bytes : Z) : list Z :=
  let in_units unit := fixed_f64 2 (f64_div (f64_of_Z bytes) (f64_of_Z unit)) in
  if 1073741824 <=? bytes then in_units 1073741824 ++ lit " GiB"
  else if 1048576 <=? bytes then in_units 1048576 ++ lit " MiB"
  else if 1024 <=? bytes then in_units 1024 ++ lit " KiB"
  else decimal bytes ++ lit " B".

Definition format_bytes (bytes human_readable : Z) : list Z :=
  if 0 <? human_readable then format_bytes_human bytes else decimal bytes.

(** [elapsed.as_secs_f64()] of a duration in nanoseconds. *)
Definition as_secs_f64 (elapsed : Z) : f64 :=
  SFadd 53 1024 (f64_of_Z (elapsed / 10 ^ 9))
    (f64_div (f64_of_Z (elapsed mod 10 ^ 9)) (f64_of_Z (10 ^ 9))).

Definition transfer_rate_label (bytes elapsed : Z) : list Z :=
  let secs := as_secs_f64 elapsed in
  if f64_lt secs (f64_div (f64_of_Z 1) (f64_of_Z 1000)) || (bytes =? 0) then lit "0 B/s"
  else
    let rate := f64_div (f64_of_Z bytes) secs in
    let in_units unit := fixed_f64 2 (f64_div rate (f64_of_Z unit)) in
    if f64_le (f64_of_Z 1073741824) rate then in_units 1073741824 ++ lit " GiB/s"
    else if f64_le (f64_of_Z 1048576) rate then in_units 1048576 ++ lit " MiB/s"
    else if f64_le (f64_of_Z 1024) rate then in_units 1024 ++ lit " KiB/s"
    else fixed_f64 0 rate ++ lit " B/s".

(** ** Names and formats *)

(** [format!("\\#{byte:03o}")] *)
Definition escaped_byte (byte : Z) : list Z :=
  lit "\#" ++ [48 + byte / 64 mod 8; 48 + byte / 8 mod 8; 48 + byte mod 8].

Definition escape_char (eight_bit_output : bool) (c : Z) : list Z :=
  if c =? 9 then [c]
  else if is_control c || (negb eight_bit_output && negb (is_ascii c))
       then concat (escaped_byte <$> encode_utf8 c)
       else [c].

Definition escape_output_name (input : list Z) (eight_bit_output : bool) : list Z :=
  concat (escape_char eight_bit_output <$> input).

Record OutFormatArgs := {
  filename : list Z;
  full_path : list Z;
  length_arg : Z;
  perms : list Z;
  owner_arg : list Z;
  group_arg : list Z;
  mtime_arg : Z;
  itemized : list Z;
  symlink_target : option (list Z);
  checksum_arg : option (list Z);
}.

(** The loop both formats have, over what a token stands for. *)
Fixpoint render (token : Z → option (list Z)) (format : list Z) : list Z :=
  match format with
  | [] => []
  | c :: format =>
      if c =? ch "%" then
        match format with
        | [] => [ch "%"]
        | t :: format => default [ch "%"; t] (token t) ++ render token format
        end
      else c :: render token format
  end.

(** The value of the first row that has the token. *)
Definition token_of (rows : list (string * list Z)) (t : Z) : option (list Z) :=
  snd <$> List.find (λ row, Str.contains (lit row.1) t) rows.

Definition render_out_format (format : list Z) (args : OutFormatArgs) : list Z :=
  render (token_of
    [("%", lit "%"); ("n", filename args); ("f", full_path args);
     ("lbc", decimal (length_arg args)); ("p", perms args); ("o", owner_arg args);
     ("g", group_arg args); ("m", decimal (mtime_arg args)); ("i", itemized args);
     ("L", default [] (symlink_target args)); ("C", default [] (checksum_arg args))]) format.

Record TransferLogRecord := {
  log_operation : option (list Z);
  log_path : option (list Z);
  log_bytes : option Z;
  log_itemized : option (list Z);
  log_symlink_target : option (list Z);
  log_message : list Z;
}.

(** The process id and the seconds of the clock are arguments. *)
Record LogTime := { process_id : Z; now_seconds : Z }.

Definition render_client_log_format (at_ : LogTime) (format : option (list Z))
    (record : TransferLogRecord) : list Z :=
  match format with
  | None => log_message record
  | Some format =>
      render (token_of
        [("%", lit "%"); ("mo", default (lit "-") (log_operation record));
         ("i", default (lit "-") (log_itemized record));
         ("nf", default (lit "-") (log_path record));
         ("l", match log_bytes record with Some b => decimal b | None => lit "0" end);
         ("ha", lit "-"); ("p", decimal (process_id at_));
         ("L", default [] (log_symlink_target record)); ("t", decimal (now_seconds at_));
         ("M", log_message record)]) format
  end.

(** [log_transfer_with_format]; each line ends with a line feed. The errors of the log's
    writer, which the code passes on, are left out. *)
Definition log_transfer_with_format (at_ : LogTime) (log_format : option (list Z))
    (record : TransferLogRecord) (self : TransferLog) : TransferLog :=
  {| log_verbosity := log_verbosity self; log_quiet := log_quiet self;
     log_info_flags := log_info_flags self; log_debug_flags := log_debug_flags self;
     log_stderr_mode := log_stderr_mode self; log_config := log_config self;
     log_lines := (λ lines, lines ++ [render_client_log_format at_ log_format record]) <$> log_lines self |}.

Definition log_transfer (at_ : LogTime) : TransferLogRecord → TransferLog → TransferLog :=
  log_transfer_with_format at_ None.

(** ** The actions of a sync *)

Section actions.
Context `{Platform}.

(** [output_name]: the last name of a path, or its text. *)
Definition output_name (path : PathBuf) (eight_bit_output : bool) : list Z :=
  escape_output_name (default (relative_text path) (file_name path)) eight_bit_output.

Definition primary_action_path (action : SyncAction) : PathBuf :=
  match action with
  | CreateDir path | WriteFile path _ | WriteFileInPlace path _ | AppendFile path _
  | PreserveMtime path | DeleteFile path | DeleteDir path | ProtectDelete path
  | CreateSymlink path _ | Warn path _ => path
  | BackupFile from _ => from
  | CreateHardLink _ to => to
  end.

Definition action_len (action : SyncAction) : Z :=
  match action with
  | WriteFile _ len | WriteFileInPlace _ len | AppendFile _ len => len
  | _ => 0
  end.

Definition action_operation (action : SyncAction) : list Z :=
  lit match action with
      | CreateDir _ => "create-dir"
      | WriteFile _ _ => "write"
      | WriteFileInPlace _ _ => "write-inplace"
      | AppendFile _ _ => "append"
      | BackupFile _ _ => "backup"
      | PreserveMtime _ => "preserve-mtime"
      | DeleteFile _ => "delete-file"
      | DeleteDir _ => "delete-dir"
      | ProtectDelete _ => "protect-delete"
      | CreateSymlink _ _ => "symlink"
      | CreateHardLink _ _ => "hardlink"
      | Warn _ _ => "warning"
      end.

Definition itemized_code_for_action (action : SyncAction) : list Z :=
  lit match action with
      | CreateDir _ => "cd+++++++++"
      | WriteFile _ _ => ">f+++++++++"
      | WriteFileInPlace _ _ => ">f..t.i...."
      | AppendFile _ _ => ">f+++++a+++"
      | BackupFile _ _ => "bf+++++++++"
      | PreserveMtime _ => ".f..t......"
      | DeleteFile _ | DeleteDir _ => "*deleting"
      | ProtectDelete _ => ".protect..."
      | CreateSymlink _ _ => "cL+++++++++"
      | CreateHardLink _ _ => "hf+++++++++"
      | Warn _ _ => ".warning..."
      end.

(** [OutputActionRecord] and [OutputRemoteSourceRecord]; the fields that both leave empty
    are left out, and the link of the second is none. *)
Record OutputRecord := {
  operation : list Z;
  name : list Z;
  record_full_path : list Z;
  record_len : Z;
  record_mtime : Z;
  record_itemized : list Z;
  record_symlink_target : option (list Z);
  record_message : list Z;
}.

Definition from_action (action : SyncAction) (eight_bit_output : bool) : OutputRecord :=
  let path := primary_action_path action in
  let name := output_name path eight_bit_output in
  let operation := action_operation action in
  {| operation := operation; name := name;
     record_full_path := escape_output_name (relative_text path) eight_bit_output;
     record_len := action_len action; record_mtime := 0;
     record_itemized := itemized_code_for_action action;
     record_symlink_target :=
       match action with
       | CreateSymlink _ target => Some (escape_output_name (relative_text target) eight_bit_output)
       | _ => None
       end;
     record_message := operation ++ ch " " :: name |}.

Definition from_entry (entry : RemoteSourceEntry) (eight_bit_output : bool) : OutputRecord :=
  let path := wire_path (wire entry) in
  let name := output_name path eight_bit_output in
  {| operation := lit "send"; name := name;
     record_full_path := escape_output_name (relative_text path) eight_bit_output;
     record_len := Flist.len (wire entry); record_mtime := Flist.mtime_unix (wire entry);
     record_itemized := lit ">f+++++++++"; record_symlink_target := None;
     record_message := lit "send " ++ name |}.

Definition out_format_args (record : OutputRecord) : OutFormatArgs :=
  {| filename := name record; full_path := record_full_path record;
     length_arg := record_len record; perms := []; owner_arg := []; group_arg := [];
     mtime_arg := record_mtime record; itemized := record_itemized record;
     symlink_target := record_symlink_target record; checksum_arg := None |}.

Definition client_log_record (record : OutputRecord) : TransferLogRecord :=
  {| log_operation := Some (operation record); log_path := Some (name record);
     log_bytes := Some (record_len record); log_itemized := Some (record_itemized record);
     log_symlink_target := record_symlink_target record; log_message := record_message record |}.

(** The body of both loops: what is appended to the output, and the log. *)
Definition report_record (at_ : LogTime) (cli : Cli) (record : OutputRecord)
    (state : list Z * TransferLog) : list Z * TransferLog :=
  let '(output, client_log) := state in
  (output ++ match out_format cli with
             | Some format => render_out_format format (out_format_args record) ++ [10]
             | None => []
             end,
   if is_some (client_log_file cli)
   then log_transfer_with_format at_ (Some (default (lit "%i %n%L") (client_log_file_format cli)))
          (client_log_record record) client_log
   else client_log).

Definition append_out_format_and_client_log (at_ : LogTime) (output : list Z) (cli : Cli)
    (actions : list SyncAction) (client_log : TransferLog) : list Z * TransferLog :=
  foldl (λ state action,
    report_record at_ cli (from_action action (eight_bit_output cli)) state)
    (output, client_log) actions.

Definition append_remote_source_out_format_and_client_log (at_ : LogTime) (output : list Z)
    (cli : Cli) (entries : list RemoteSourceEntry) (transferred_entry_indexes : list nat)
    (client_log : TransferLog) : list Z * TransferLog :=
  foldl (λ state entry_index,
    match entries !! entry_index with
    | None => state
    | Some entry =>
        if bool_decide (Flist.file_type (wire entry) ≠ Flist.File) then state
        else report_record at_ cli (from_entry entry (eight_bit_output cli)) state
    end) (output, client_log) transferred_entry_indexes.

(** ** Summaries *)

Record ActionStats := {
  file_writes : Z;
  file_write_bytes : Z;
  appended_files : Z;
  created_dirs : Z;
  preserved_mtimes : Z;
  deleted_files : Z;
  deleted_dirs : Z;
  protected_deletes : Z;
  warnings : Z;
}.

#[export] Instance ActionStats_fields : Fields ActionStats := λ s,
  {| file_writes := file_writes s; file_write_bytes := file_write_bytes s;
     appended_files := appended_files s; created_dirs := created_dirs s;
     preserved_mtimes := preserved_mtimes s; deleted_files := deleted_files s;
     deleted_dirs := deleted_dirs s; protected_deletes := protected_deletes s;
     warnings := warnings s |}.

Definition ActionStats_default : ActionStats :=
  {| file_writes := 0; file_write_bytes := 0; appended_files := 0; created_dirs := 0;
     preserved_mtimes := 0; deleted_files := 0; deleted_dirs := 0; protected_deletes := 0;
     warnings := 0 |}.

Definition record_action (self : ActionStats) (action : SyncAction) : ActionStats :=
  match action with
  | CreateDir _ => self <| created_dirs ::= Z.succ |>
  | WriteFile _ len | WriteFileInPlace _ len =>
      self <| file_writes ::= Z.succ |> <| file_write_bytes ::= Z.add len |>
  | AppendFile _ len =>
      self <| appended_files ::= Z.succ |> <| file_write_bytes ::= Z.add len |>
  | BackupFile _ _ => self
  | PreserveMtime _ => self <| preserved_mtimes ::= Z.succ |>
  | DeleteFile _ => self <| deleted_files ::= Z.succ |>
  | DeleteDir _ => self <| deleted_dirs ::= Z.succ |>
  | ProtectDelete _ => self <| protected_deletes ::= Z.succ |>
  | CreateSymlink _ _ | CreateHardLink _ _ => self
  | Warn _ _ => self <| warnings ::= Z.succ |>
  end.

Definition from_actions (actions : list SyncAction) : ActionStats :=
  foldl record_action ActionStats_default actions.

Definition count_of (actions : list SyncAction) : Z := Z.of_nat (length actions).

(** [format!("{n} {what}")], where there are any. *)
Definition part_if (n : Z) (text : list Z) (what : string) : list (list Z) :=
  if 0 <? n then [text ++ lit what] else [].

Definition append_compact_action_summary (output : list Z) (actions : list SyncAction) : list Z :=
  match actions with
  | [] => output ++ lit "changes: none" ++ [10]
  | _ =>
      let s := from_actions actions in
      let deletes := deleted_files s + deleted_dirs s in
      let parts :=
        [decimal (count_of actions) ++ lit " actions"] ++
        part_if (file_writes s) (decimal (file_writes s)) " file writes" ++
        part_if (appended_files s) (decimal (appended_files s)) " appends" ++
        part_if (file_write_bytes s) (format_bytes_human (file_write_bytes s)) " data" ++
        part_if (created_dirs s) (decimal (created_dirs s)) " dirs" ++
        part_if deletes (decimal deletes) " deletes" ++
        part_if (protected_deletes s) (decimal (protected_deletes s)) " protected" ++
        part_if (preserved_mtimes s) (decimal (preserved_mtimes s)) " mtimes" ++
        part_if (warnings s) (decimal (warnings s)) " warnings" in
      output ++ lit "changes: " ++ join (lit ", ") parts ++ [10]
  end.

Definition append_structured_stats (output : list Z) (enabled : bool) (actions : list SyncAction) :
    list Z :=
  if negb enabled then output
  else
    let s := from_actions actions in
    let line (what : string) n := lit what ++ decimal n ++ [10] in
    output ++ lit "structured stats:" ++ [10] ++
    line "- actions: " (count_of actions) ++
    lit "- file writes: " ++ decimal (file_writes s) ++ lit " (" ++
      decimal (file_write_bytes s) ++ lit " bytes)" ++ [10] ++
    line "- appended files: " (appended_files s) ++
    line "- directories created: " (created_dirs s) ++
    line "- mtimes preserved: " (preserved_mtimes s) ++
    line "- deleted files: " (deleted_files s) ++
    line "- deleted directories: " (deleted_dirs s) ++
    line "- protected deletes: " (protected_deletes s) ++
    line "- warnings: " (warnings s).

(** [format!("- warning {}: {message}\n")] *)
Definition warning_line (path : PathBuf) (message : string) : list Z :=
  lit "- warning " ++ relative_text path ++ lit ": " ++ lit message ++ [10].

Definition append_action_warnings (output : list Z) (actions : list SyncAction) : list Z :=
  foldl (λ output action,
    match action with
    | Warn path message => output ++ warning_line path message
    | _ => output
    end) output actions.

Definition append_sync_action (output : list Z) (action : SyncAction) : list Z :=
  let one (what : string) path := output ++ lit what ++ relative_text path ++ [10] in
  let sized (what : string) path len :=
    output ++ lit what ++ relative_text path ++ ch " " :: decimal len ++ lit " bytes" ++ [10] in
  let two (what : string) from to :=
    output ++ lit what ++ relative_text from ++ lit " -> " ++ relative_text to ++ [10] in
  match action with
  | CreateDir path => one "- create-dir " path
  | WriteFile path len => sized "- write-file " path len
  | WriteFileInPlace path len => sized "- write-file-inplace " path len
  | AppendFile path len => sized "- append-file " path len
  | BackupFile from to => two "- backup-file " from to
  | PreserveMtime path => one "- preserve-mtime " path
  | DeleteFile path => one "- delete-file " path
  | DeleteDir path => one "- delete-dir " path
  | ProtectDelete path => one "- protect-delete " path
  | CreateSymlink path target => two "- create-symlink " path target
  | CreateHardLink from to => two "- create-hardlink " from to
  | Warn path message => output ++ warning_line path message
  end.

(** The code is padded for a deletion only. *)
Definition append_itemized_action (output : list Z) (action : SyncAction) : list Z :=
  output ++
  match action with
  | DeleteFile _ | DeleteDir _ => lit "*deleting   "
  | _ => itemized_code_for_action action ++ lit " "
  end ++ relative_text (primary_action_path action) ++ [10].

Definition append_optional_itemized_changes (output : list Z) (enabled : bool)
    (actions : list SyncAction) : list Z :=
  if negb enabled then output
  else
    let output := output ++ lit "itemized changes:" ++ [10] in
    match actions with
    | [] => output ++ lit "- none" ++ [10]
    | _ => foldl append_itemized_action output actions
    end.

Definition append_action_report (output : list Z) (cli : Cli) (actions : list SyncAction) :
    list Z :=
  let output := append_compact_action_summary output actions in
  let output :=
    if dry_run cli || (1 <? verbosity cli) then
      let output := output ++ lit "actions:" ++ [10] in
      match actions with
      | [] => output ++ lit "- no changes" ++ [10]
      | _ => foldl append_sync_action output actions
      end
    else append_action_warnings output actions in
  let output := append_optional_itemized_changes output (itemize_changes cli) actions in
  append_structured_stats output (stats cli) actions.

Definition log_sync_action (progress : ProgressLog) (action : SyncAction) : list Printed :=
  let one (what : string) path := lit what ++ relative_text path in
  let sized (what : string) path len :=
    lit what ++ relative_text path ++ lit " (" ++ format_bytes_human len ++ lit ")" in
  let two (what : string) from to :=
    lit what ++ relative_text from ++ lit " -> " ++ relative_text to in
  match action with
  | CreateDir path => progress_detail progress (one "create dir: " path)
  | WriteFile path len => progress_info progress (sized "write: " path len)
  | WriteFileInPlace path len => progress_info progress (sized "write inplace: " path len)
  | AppendFile path len => progress_info progress (sized "append: " path len)
  | BackupFile from to => progress_detail progress (two "backup: " from to)
  | PreserveMtime path => progress_detail progress (one "preserve mtime: " path)
  | DeleteFile path => progress_info progress (one "delete file: " path)
  | DeleteDir path => progress_info progress (one "delete dir: " path)
  | ProtectDelete path => progress_detail progress (one "protect delete: " path)
  | CreateSymlink path target => progress_info progress (two "symlink: " path target)
  | CreateHardLink from to => progress_info progress (two "hardlink: " from to)
  | Warn path message =>
      progress_info progress (lit "warning: " ++ relative_text path ++ lit ": " ++ lit message)
  end.

Definition log_sync_actions (progress : ProgressLog) (actions : list SyncAction) : list Printed :=
  if negb (progress_enabled progress) then [] else actions ≫= log_sync_action progress.
End actions.

(** ** The labels of a report *)

Definition severity_label (severity : Severity) : list Z :=
  match severity with
  | Info => lit "info"
  | Warning => lit "warning"
  | Error => lit "error"
  end.

Definition append_diagnostics (output : list Z) (report : Report) : list Z :=
  foldl (λ output (d : Diagnostic),
    output ++ lit "- [" ++ severity_label (Core.severity d) ++ lit "] " ++ lit (Core.code d) ++ lit ": " ++
    Core.message d ++ [10] ++
    match Core.hint d with Some hint => lit "  hint: " ++ hint ++ [10] | None => [] end)
    output report.

(** ** The flags that are in force *)

Section flags.
Context `{LettersLaws} (table : FlagTable) (Hmarker : 1 ≤ all_marker table).

(** An item of the list: a sign, a name in any case and a level. *)
Record FlagItem := { item_minus : bool; item_letters : list Z; item_level : option Z }.

Definition item_text (item : FlagItem) : list Z :=
  (if item_minus item then [ch "-"] else []) ++ item_letters item ++
  match item_level item with Some level => decimal level | None => [] end.

Definition item_flag (item : FlagItem) : option Z :=
  flag_named table (to_ascii_uppercase (item_letters item)).

Definition known_item (item : FlagItem) : Prop :=
  item_letters item ≠ [] ∧ Forall (λ c, is_ascii_alphabetic c = true) (item_letters item) ∧
  (∀ level, item_level item = Some level → 0 ≤ level ≤ 255) ∧ is_some (item_flag item) = true.

(** Whether an item is about a bit, and whether it takes it away. *)
Definition mentions (i : Z) (item : FlagItem) : bool :=
  match item_flag item with Some flag => Z.testbit flag i | None => false end.
Definition takes_away (item : FlagItem) : bool :=
  item_minus item || bool_decide (item_level item = Some 0).

(** The last item that is about a bit decides it. *)
Definition last_decision (i : Z) (items : list FlagItem) : bool :=
  foldl (λ set item, if mentions i item then negb (takes_away item) else set) false items.

Lemma all_bits i : 0 ≤ i ≤ all_marker table → Z.testbit (ALL table) i = true.
Proof.
  intros Hi. unfold ALL. rewrite Z.sub_1_r, <-Z.ones_equiv. apply Z.ones_spec_low. lia.
Qed.

Lemma insert_bit flags flag i :
  0 ≤ i ≤ all_marker table →
  Z.testbit (flags_insert table flags flag) i = Z.testbit flag i || Z.testbit flags i.
Proof.
  intros Hi. unfold flags_insert, NONE. destruct (Z.eqb_spec flag (ALL table)) as [->|_].
  - by rewrite all_bits.
  - destruct (Z.eqb_spec flag 0) as [->|_]; cbn [negb]; [by rewrite Z.bits_0|].
    rewrite Z.lor_spec. apply orb_comm.
Qed.

Lemma remove_bit flags flag i :
  0 ≤ i ≤ all_marker table →
  Z.testbit (flags_remove table flags flag) i = negb (Z.testbit flag i) && Z.testbit flags i.
Proof.
  intros Hi. unfold flags_remove. destruct (Z.eqb_spec flag (ALL table)) as [->|_].
  - by rewrite all_bits, Z.bits_0.
  - rewrite Z.ldiff_spec. apply andb_comm.
Qed.

Lemma contains_bit flags i :
  0 ≤ i < all_marker table → flags_contain table flags (2 ^ i) = Z.testbit flags i.
Proof.
  intros Hi. unfold flags_contain, NONE. pose proof (Z.pow_pos_nonneg 2 i ltac:(lia) ltac:(lia)).
  destruct (Z.eqb_spec (2 ^ i) 0) as [|_]; [lia|].
  destruct (Z.eqb_spec (2 ^ i) (ALL table)) as [He|_].
  - pose proof (all_bits (all_marker table) ltac:(lia)) as Ha.
    rewrite <-He, Z.pow2_bits_false in Ha; [done|lia].
  - destruct (Z.testbit flags i) eqn:Hb.
    + apply negb_true_iff, Z.eqb_neq. intros Hz.
      assert (Hn : Z.testbit (Z.land flags (2 ^ i)) i = false) by by rewrite Hz, Z.bits_0.
      rewrite Z.land_spec, Hb, Z.pow2_bits_true in Hn by lia. done.
    + apply negb_false_iff, Z.eqb_eq, Z.bits_inj'. intros n Hn.
      rewrite Z.land_spec, Z.bits_0. destruct (Z.eq_dec n i) as [->|Hne]; [by rewrite Hb|].
      rewrite Z.pow2_bits_false by done. apply andb_false_r.
Qed.

(** *** Reading an item *)

Lemma trim_start_app p (s t : list Z) :
  Forall (λ c, p c = true) s → trim_start_by p (s ++ t) = trim_start_by p t.
Proof. induction 1 as [|c s Hc Hs IH]; cbn; [done|]. by rewrite Hc. Qed.

Lemma alphabetic_no_digit c : is_ascii_alphabetic c = true → is_ascii_digit c = false.
Proof. unfold is_ascii_alphabetic, is_ascii_digit, in_range. lia. Qed.

Lemma split_letters letters digits :
  letters ≠ [] → Forall (λ c, is_ascii_alphabetic c = true) letters →
  Forall (λ c, is_ascii_digit c = true) digits →
  split_flag_level (letters ++ digits) =
  if bool_decide (digits = []) then (letters ++ digits, None)
  else (letters, parse_unsigned 255 digits).
Proof.
  intros Hne Hl Hd. unfold split_flag_level. rewrite rev_app_distr, trim_start_app.
  - assert (Htrim : trim_start_by is_ascii_digit (rev letters) = rev letters).
    { apply List.Forall_rev in Hl. destruct (rev letters) as [|c s] eqn:E; [done|].
      cbn. by rewrite (alphabetic_no_digit _ (Forall_inv Hl)). }
    rewrite Htrim, rev_involutive, drop_app_length. done.
  - by apply List.Forall_rev.
Qed.

Lemma upper_alphabetic letters :
  Forall (λ c, is_ascii_alphabetic c = true) letters → uppercase letters = to_ascii_uppercase letters.
Proof.
  intros Hl. apply uppercase_ascii. apply (Forall_impl _ _ _ Hl). intros c.
  unfold is_ascii_alphabetic, is_ascii, in_range. lia.
Qed.

Lemma level_digits item :
  known_item item →
  Forall (λ c, is_ascii_digit c = true)
    match item_level item with Some level => decimal level | None => [] end.
Proof.
  intros (_ & _ & Hlevel & _). destruct (item_level item) as [level|]; [|done].
  rewrite List.Forall_forall. apply forallb_forall, decimal_digits. by apply Hlevel.
Qed.

(** An item does to every bit what it says. *)
Lemma add_item flags item i :
  known_item item → 0 ≤ i ≤ all_marker table →
  Z.testbit (add_flag table flags
    (item_letters item ++ match item_level item with Some level => decimal level | None => [] end)
    (item_minus item)) i =
  if mentions i item then negb (takes_away item) else Z.testbit flags i.
Proof.
  intros Hk Hi. pose proof (level_digits item Hk) as Hd.
  destruct Hk as (Hne & Hl & Hlevel & Hflag). unfold add_flag. rewrite split_letters by done.
  assert (Hdo : ∀ (negate : bool) flag, item_flag item = Some flag →
    Z.testbit (if negate then flags_remove table flags flag else flags_insert table flags flag) i =
    if Z.testbit flag i then negb negate else Z.testbit flags i).
  { intros negate flag _. destruct negate; rewrite ?remove_bit, ?insert_bit by done;
      by destruct (Z.testbit flag i). }
  unfold mentions, takes_away. destruct (item_flag item) as [flag|] eqn:Hf; [|done].
  destruct (item_level item) as [level|].
  - rewrite bool_decide_false by apply decimal_ne. rewrite parse_decimal by auto.
    rewrite upper_alphabetic by done. unfold item_flag in Hf. rewrite Hf. by apply Hdo.
  - rewrite bool_decide_true by done. rewrite app_nil_r, upper_alphabetic by done.
    unfold item_flag in Hf. rewrite Hf. rewrite bool_decide_false by done. by apply Hdo.
Qed.

(** *** The loop over the characters *)

Definition plain_flag_char (c : Z) : Prop := c ≠ ch "," ∧ c ≠ ch " " ∧ c ≠ ch "-" ∧ c ≠ ch "+".

Lemma loop_plain flags negate buf s rest :
  Forall plain_flag_char s →
  flags_loop table flags negate buf (s ++ rest) = flags_loop table flags negate (buf ++ s) rest.
Proof.
  intros Hs. revert buf. induction Hs as [|c s (H1 & H2 & H3 & H4) Hs IH]; intros buf; cbn [app flags_loop].
  - by rewrite app_nil_r.
  - rewrite !(proj2 (Z.eqb_neq c _)) by done. cbn [orb]. by rewrite IH, <-app_assoc.
Qed.

Lemma item_plain item :
  known_item item →
  Forall plain_flag_char
    (item_letters item ++ match item_level item with Some level => decimal level | None => [] end).
Proof.
  intros Hk. apply Forall_app. split.
  - destruct Hk as (_ & Hl & _). apply (Forall_impl _ _ _ Hl). intros c Hc. repeat split; intros ->; vm_compute in Hc; congruence.
  - apply (Forall_impl _ _ _ (level_digits item Hk)). intros c Hc. repeat split; intros ->; vm_compute in Hc; congruence.
Qed.

Lemma loop_item flags item rest :
  known_item item →
  flags_loop table flags false [] (item_text item ++ rest) =
  flags_loop table flags (item_minus item)
    (item_letters item ++ match item_level item with Some level => decimal level | None => [] end) rest.
Proof.
  intros Hk. unfold item_text. rewrite <-app_assoc. destruct (item_minus item); cbn [app].
  - change (flags_loop table flags false [] (ch "-" :: ?s)) with (flags_loop table flags true [] s).
    by rewrite loop_plain by by apply item_plain.
  - by rewrite loop_plain by by apply item_plain.
Qed.

Lemma loop_items flags items i :
  Forall known_item items → 0 ≤ i ≤ all_marker table →
  Z.testbit (flags_loop table flags false [] (join [ch ","] (item_text <$> items))) i =
  foldl (λ set item, if mentions i item then negb (takes_away item) else set) (Z.testbit flags i) items.
Proof.
  intros Hk Hi. revert flags. induction Hk as [|item items Hk Hks IH]; intros flags; [done|].
  assert (Hne : item_letters item ++ match item_level item with
                 Some level => decimal level | None => [] end ≠ []).
  { destruct Hk as (Hne & _). by destruct (item_letters item). }
  cbn [foldl]. rewrite <-add_item by done. rewrite <-IH. destruct items as [|item' items].
  - cbn [fmap list_fmap join]. rewrite <-(app_nil_r (item_text item)), loop_item by done.
    cbn [flags_loop]. by rewrite bool_decide_false.
  - cbn [fmap list_fmap]. change (join [ch ","] (item_text item :: ?l)) with (item_text item ++ [ch ","] ++ join [ch ","] l).
    rewrite loop_item by done. cbn [app flags_loop]. rewrite bool_decide_false by done. done.
Qed.

(** The texts NONE and ALL alone are no special cases of the loop. *)
Lemma parse_is_loop input : parse_flags table input = flags_loop table 0 false [] input.
Proof.
  assert (Halone : ∀ name, Forall (λ c, is_ascii_alphabetic c = true) (lit name) →
    to_ascii_uppercase input = lit name → lit name ≠ [] →
    flags_loop table 0 false [] input =
    default 0 (flags_insert table 0 <$> flag_named table (lit name))).
  { intros name Hname Hup Hne.
    assert (Hi : Forall (λ c, is_ascii_alphabetic c = true) input).
    { rewrite <-Hup in Hname. unfold to_ascii_uppercase in Hname. rewrite Forall_fmap in Hname.
      apply (Forall_impl _ _ _ Hname). intros c. unfold is_ascii_alphabetic, in_range. cbn.
      destruct ((97 <=? c) && (c <=? 122)) eqn:E; lia. }
    rewrite <-(app_nil_r input) at 1. rewrite loop_plain.
    2: { apply (Forall_impl _ _ _ Hi). intros c Hc.
         repeat split; intros ->; vm_compute in Hc; congruence. }
    cbn [flags_loop app]. rewrite bool_decide_false by (by intros ->).
    unfold add_flag. rewrite <-(app_nil_r input), split_letters; [|by intros ->|done|done].
    rewrite bool_decide_true, app_nil_r, upper_alphabetic, Hup by done.
    rewrite bool_decide_false by done. cbn [orb]. by destruct (flag_named table (lit name)). }
  unfold parse_flags. destruct (bool_decide_reflect (input = [])) as [->|Hne]; [done|]. cbn [orb].
  destruct (bool_decide_reflect (to_ascii_uppercase input = lit "NONE")) as [Hn|_].
  { rewrite (Halone "NONE"%string) by (repeat constructor || done).
    unfold flag_named. rewrite bool_decide_false, bool_decide_true by done.
    cbn [fmap option_fmap option_map default from_option id]. unfold flags_insert, NONE.
    by destruct (Z.eqb_spec 0 (ALL table)). }
  destruct (bool_decide_reflect (to_ascii_uppercase input = lit "ALL")) as [Ha|_]; [|done].
  rewrite (Halone "ALL"%string) by (repeat constructor || done).
  unfold flag_named. rewrite bool_decide_true by done. cbn. unfold flags_insert.
  by rewrite Z.eqb_refl.
Qed.

(** C32. The flags of --info and --debug are what the list of their names says: after items
    in any case, with signs and levels, a flag is in force exactly when the last item that
    names it, or all of them, does not take it away by a minus sign or the level 0. *)
Theorem last_item_decides items i :
  Forall known_item items → 0 ≤ i < all_marker table →
  flags_contain table (parse_flags table (join [ch ","] (item_text <$> items))) (2 ^ i) =
  last_decision i items.
Proof.
  intros Hk Hi. rewrite contains_bit, parse_is_loop, loop_items by (done || lia).
  by rewrite Z.bits_0.
Qed.

(** Over several options, a flag is in force when any of them sets it. *)
Lemma any_option_sets values i :
  0 ≤ i < all_marker table →
  flags_contain table (all_flags table values) (2 ^ i) =
  existsb (λ value, flags_contain table (parse_flags table value) (2 ^ i)) values.
Proof.
  intros Hi. rewrite contains_bit by done. unfold all_flags.
  assert (Hf : ∀ acc, Z.testbit (foldl (λ acc f, flags_insert table acc (parse_flags table f)) acc values) i =
    Z.testbit acc i || existsb (λ value, flags_contain table (parse_flags table value) (2 ^ i)) values).
  { induction values as [|value values IH]; intros acc; cbn [foldl existsb]; [by rewrite orb_false_r|].
    rewrite IH, insert_bit, contains_bit by lia. rewrite orb_assoc. f_equal. apply orb_comm. }
  by rewrite Hf, Z.bits_0.
Qed.
End flags.

(** ** Names in the lines of a report *)

(** A character that neither ends a line nor moves the cursor of a terminal but to the right;
    without --8-bit-output, of ASCII. *)
Definition printable (eight_bit_output : bool) (c : Z) : Prop :=
  (c = 9 ∨ is_control c = false) ∧ (eight_bit_output = false → is_ascii c = true).

Definition printable_text (eight_bit_output : bool) : list Z → Prop :=
  Forall (printable eight_bit_output).

Create HintDb printable.

Ltac each_char := repeat first [apply List.Forall_nil | apply List.Forall_cons].

Lemma printable_range eb c : 32 ≤ c < 127 → printable eb c.
Proof. unfold printable, is_control, is_ascii, in_range. intros Hc. split; lia. Qed.

Lemma printable_lit eb t :
  forallb (λ c, (32 <=? c) && (c <? 127)) (lit t) = true → printable_text eb (lit t).
Proof.
  intros Ht. unfold printable_text. rewrite List.Forall_forall. intros c Hc.
  eapply forallb_forall in Ht; [|done]. apply printable_range. lia.
Qed.

Lemma printable_decimal eb n : printable_text eb (decimal n).
Proof.
  assert (Hd : ∀ m, 0 ≤ m → printable_text eb (decimal m)).
  { intros m Hm. unfold printable_text. rewrite List.Forall_forall. intros c Hc.
    pose proof (decimal_digits m Hm) as Hall. eapply forallb_forall in Hall; [|done].
    apply printable_range. unfold is_ascii_digit, in_range in Hall. lia. }
  destruct (Z.ltb_spec n 0) as [Hn|Hn]; [|by apply Hd].
  specialize (Hd (- n) ltac:(lia)). unfold decimal in *.
  rewrite (proj2 (Z.ltb_lt n 0)) by done. rewrite (proj2 (Z.ltb_ge (- n) 0)) in Hd by lia.
  constructor; [|done]. by apply printable_range.
Qed.

Lemma printable_app eb s t : printable_text eb s → printable_text eb t → printable_text eb (s ++ t).
Proof. intros Hs Ht. by apply Forall_app. Qed.

Lemma printable_default eb s o :
  printable_text eb s → (∀ t, o = Some t → printable_text eb t) → printable_text eb (default s o).
Proof. intros Hs Ho. destruct o as [t|]; [by apply Ho|done]. Qed.

Lemma printable_escaped_byte eb b : printable_text eb (escaped_byte b).
Proof.
  unfold escaped_byte. apply printable_app; [by apply printable_lit|].
  each_char; apply printable_range;
    match goal with |- context [?x mod 8] => pose proof (Z.mod_pos_bound x 8 ltac:(lia)) end; lia.
Qed.

Lemma printable_escape_char eb c : printable_text eb (escape_char eb c).
Proof.
  unfold escape_char. destruct (Z.eqb_spec c 9) as [->|Hc]; [by each_char; split; [left|]|].
  destruct (is_control c || (negb eb && negb (is_ascii c))) eqn:He.
  - induction (encode_utf8 c) as [|b bs IH]; [constructor|]. cbn [fmap list_fmap concat].
    apply printable_app; [apply printable_escaped_byte|done].
  - apply orb_false_iff in He as [Hctl Hasc]. constructor; [|constructor].
    split; [by right|]. intros ->. cbn in Hasc. by apply negb_false_iff in Hasc.
Qed.

Lemma printable_name eb input : printable_text eb (escape_output_name input eb).
Proof.
  unfold escape_output_name. induction input as [|c input IH]; [constructor|].
  cbn [fmap list_fmap concat]. apply printable_app; [apply printable_escape_char|done].
Qed.

Lemma printable_output_name eb path : printable_text eb (output_name path eb).
Proof. apply printable_name. Qed.

#[export] Hint Resolve printable_decimal printable_name printable_output_name printable_app : printable.
#[export] Hint Extern 2 (printable_text _ (lit _)) => apply printable_lit; reflexivity : printable.
#[export] Hint Extern 2 (printable _ (Z.of_nat _)) =>
  apply printable_range; split; vm_compute; congruence : printable.
#[export] Hint Extern 2 (printable_text _ (_ :: _)) => apply List.Forall_cons : printable.
#[export] Hint Extern 2 (printable_text _ []) => constructor : printable.

(** A format of such characters stands for such a text, when its tokens do. *)
Lemma printable_render eb token format :
  printable_text eb format → (∀ t text, token t = Some text → printable_text eb text) →
  printable_text eb (render token format).
Proof.
  intros Hf Ht. assert (Hn : ∀ n f, (length f < n)%nat → printable_text eb f → printable_text eb (render token f)).
  { induction n as [|n IH]; intros f Hl Hp; [lia|]. destruct f as [|c f]; [constructor|].
    cbn [render]. cbn in Hl. apply Forall_cons in Hp as [Hc Hp]. destruct (Z.eqb_spec c (ch "%")) as [->|_].
    - destruct f as [|t f]; [by each_char|]. cbn in Hl. apply Forall_cons in Hp as [Htk Hp].
      apply printable_app; [|apply IH; [lia|done]].
      apply printable_default; [by each_char|apply Ht].
    - constructor; [done|]. apply IH; [lia|done]. }
  apply (Hn (S (length format))); [lia|done].
Qed.

Lemma printable_token eb rows t text :
  Forall (λ row, printable_text eb (snd row)) rows → token_of rows t = Some text → printable_text eb text.
Proof.
  intros Hr Ht. unfold token_of in Ht. destruct (List.find _ rows) as [row|] eqn:Hf; [|done].
  apply find_some in Hf as [Hin _]. injection Ht as <-.
  rewrite List.Forall_forall in Hr. by apply Hr.
Qed.

(** The texts of a record. *)
Record printable_record (eb : bool) (record : OutputRecord) : Prop := {
  pr_operation : printable_text eb (operation record);
  pr_name : printable_text eb (name record);
  pr_path : printable_text eb (record_full_path record);
  pr_itemized : printable_text eb (record_itemized record);
  pr_target : ∀ t, record_symlink_target record = Some t → printable_text eb t;
  pr_message : printable_text eb (record_message record);
}.

Lemma action_printable eb action : printable_record eb (from_action action eb).
Proof.
  assert (Ho : printable_text eb (action_operation action)) by (destruct action; by apply printable_lit).
  assert (Hi : printable_text eb (itemized_code_for_action action)) by (destruct action; by apply printable_lit).
  split; cbn; try done; try apply printable_name.
  - intros t Ht. destruct action; try done. injection Ht as <-. apply printable_name.
  - apply printable_app; [done|]. constructor; [by apply printable_range|apply printable_name].
Qed.

Lemma entry_printable `{Platform} eb entry : printable_record eb (from_entry entry eb).
Proof.
  split; unfold from_entry; cbn [operation name record_full_path record_itemized
    record_symlink_target record_message]; auto with printable; try done.
Qed.

Lemma out_format_printable eb format record :
  printable_text eb format → printable_record eb record →
  printable_text eb (render_out_format format (out_format_args record)).
Proof.
  intros Hf []. apply printable_render; [done|]. intros t text.
  apply printable_token. each_char; cbn beta;
    cbn; auto using printable_default with printable.
Qed.

Lemma client_log_printable eb at_ format record :
  printable_text eb format → printable_record eb record →
  printable_text eb (render_client_log_format at_ (Some format) (client_log_record record)).
Proof.
  intros Hf []. apply printable_render; [done|]. intros t text.
  apply printable_token. each_char; cbn beta;
    cbn; auto using printable_default with printable.
Qed.

(** *** The lines of a run *)

(** What the lines of a report or a log are: as many as there should be, each of one line. *)
Definition lines_added (eb : bool) (n : nat) (old new : list (list Z)) : Prop :=
  ∃ more, new = old ++ more ∧ length more = n ∧ Forall (printable_text eb) more.

Definition text_of_lines (ls : list (list Z)) : list Z := concat ((λ l, l ++ [10]) <$> ls).

(** A step of the loops: at most one line here and one there. *)
Lemma report_record_lines eb at_ cli record output client_log :
  printable_record eb record →
  (∀ format, out_format cli = Some format → printable_text eb format) →
  printable_text eb (default (lit "%i %n%L") (client_log_file_format cli)) →
  let '(output', client_log') := report_record at_ cli record (output, client_log) in
  (∃ more, lines_added eb (if is_some (out_format cli) then 1 else 0) [] more ∧
           output' = output ++ text_of_lines more) ∧
  match log_lines client_log, log_lines client_log' with
  | Some old, Some new => lines_added eb (if is_some (client_log_file cli) then 1 else 0) old new
  | None, None => True
  | _, _ => False
  end.
Proof.
  intros Hr Hformat Hlog. unfold report_record. split.
  - destruct (out_format cli) as [format|].
    + exists [render_out_format format (out_format_args record)]. split; [|unfold text_of_lines; cbn; by rewrite app_nil_r].
      eexists. split; [done|]. split; [done|]. each_char. apply out_format_printable; auto.
    + exists []. split; [|done]. by exists [].
  - destruct (client_log_file cli); cbn [is_some].
    + cbn [log_transfer_with_format log_lines]. destruct (log_lines client_log); [|done].
      eexists. split; [done|]. split; [done|]. each_char. by apply client_log_printable.
    + destruct (log_lines client_log) as [old|]; [|done]. exists []. by rewrite app_nil_r.
Qed.

Lemma lines_added_trans eb n m old mid new :
  lines_added eb n old mid → lines_added eb m mid new → lines_added eb (n + m) old new.
Proof.
  intros (more & -> & <- & Hm) (more' & -> & <- & Hm'). exists (more ++ more').
  rewrite app_assoc, length_app. split; [done|]. split; [done|]. by apply Forall_app.
Qed.

(** C31. No name forges a line: whatever the paths of the actions of a run, --out-format adds
    one line for each action to the output and one to the client's log, in which nothing is a
    control character but tabs, nor outside ASCII without --8-bit-output, provided that the
    formats themselves are such texts. *)
Theorem names_forge_no_lines at_ cli actions output client_log :
  (∀ format, out_format cli = Some format → printable_text (eight_bit_output cli) format) →
  printable_text (eight_bit_output cli) (default (lit "%i %n%L") (client_log_file_format cli)) →
  let eb := eight_bit_output cli in
  let '(output', client_log') :=
    append_out_format_and_client_log at_ output cli actions client_log in
  (∃ more, lines_added eb (if is_some (out_format cli) then length actions else 0) [] more ∧
           output' = output ++ text_of_lines more) ∧
  match log_lines client_log, log_lines client_log' with
  | Some old, Some new => lines_added eb (if is_some (client_log_file cli) then length actions else 0) old new
  | None, None => True
  | _, _ => False
  end.
Proof.
  intros Hformat Hlog eb. revert output client_log.
  induction actions as [|action actions IH]; intros output client_log.
  { cbn. split.
    - exists []. split; [|unfold text_of_lines; cbn; by rewrite app_nil_r]. exists []. by destruct (out_format cli).
    - destruct (log_lines client_log) as [old|]; [|done]. exists [].
      rewrite app_nil_r. by destruct (client_log_file cli). }
  pose proof (report_record_lines eb at_ cli (from_action action eb) output client_log
    (action_printable _ _) Hformat Hlog) as Hstep.
  unfold append_out_format_and_client_log in IH |- *. cbn [foldl]. fold eb in IH |- *.
  destruct (report_record at_ cli (from_action action eb) (output, client_log)) as [output1 log1].
  specialize (IH output1 log1).
  destruct (foldl _ (output1, log1) actions) as [output' log'].
  destruct Hstep as [(more1 & Hm1 & ->) Hl1], IH as [(more & Hm & ->) Hl]. split.
  - exists (more1 ++ more). rewrite <-app_assoc. unfold text_of_lines at 3.
    rewrite fmap_app, concat_app. split; [|done].
    destruct Hm as (? & -> & Hn & Hp). cbn [app].
    replace (if is_some (out_format cli) then length (action :: actions) else 0%nat)
      with ((if is_some (out_format cli) then 1 else 0) + (if is_some (out_format cli) then length actions else 0))%nat
      by by destruct (out_format cli).
    eapply lines_added_trans; [exact Hm1|]. by eexists.
  - destruct (log_lines client_log) as [old|], (log_lines log1) as [mid|], (log_lines log') as [new|]; try done.
    replace (if is_some (client_log_file cli) then length (action :: actions) else 0%nat)
      with ((if is_some (client_log_file cli) then 1 else 0) + (if is_some (client_log_file cli) then length actions else 0))%nat
      by by destruct (client_log_file cli).
    by eapply lines_added_trans.
Qed.

(** ** Escaped names *)

(** The bytes an escaped name stands for: an escape is its byte, any other character the
    bytes of its encoding. *)
Fixpoint unescape (s : list Z) : list Z :=
  match s with
  | [] => []
  | c :: s1 =>
      match s1 with
      | h :: x :: y :: z :: s' =>
          if (c =? 92) && (h =? 35) then (x - 48) * 64 + (y - 48) * 8 + (z - 48) :: unescape s'
          else encode_utf8 c ++ unescape s1
      | _ => encode_utf8 c ++ unescape s1
      end
  end.

Lemma unescape_plain c s :
  c ≠ 92 ∨ head s ≠ Some 35 → unescape (c :: s) = encode_utf8 c ++ unescape s.
Proof.
  intros Hc. destruct s as [|h [|x [|y [|z s]]]]; try done. cbn [unescape head] in *.
  destruct (Z.eqb_spec c 92) as [->|]; [|done]. destruct (Z.eqb_spec h 35) as [->|]; [|done].
  destruct Hc; congruence.
Qed.

Lemma unescape_byte b s : 0 ≤ b < 256 → unescape (escaped_byte b ++ s) = b :: unescape s.
Proof. intros Hb. change (unescape (escaped_byte b ++ s)) with
  ((48 + b / 64 mod 8 - 48) * 64 + (48 + b / 8 mod 8 - 48) * 8 + (48 + b mod 8 - 48) :: unescape s).
  f_equal. rewrite (Z.mod_small (b / 64)) by (split; [apply Z.div_pos|apply Z.div_lt_upper_bound]; lia).
  replace (b / 64) with (b / 8 / 8) by (rewrite Z.div_div by lia; done).
  pose proof (Z.div_mod (b / 8) 8 ltac:(lia)). pose proof (Z.div_mod b 8 ltac:(lia)). lia.
Qed.

Lemma escaped_head eb c input :
  c ≠ 35 → head (escape_output_name (c :: input) eb) ≠ Some 35.
Proof.
  intros Hc. unfold escape_output_name. cbn [fmap list_fmap concat]. unfold escape_char.
  destruct (c =? 9); [by injection|]. destruct (_ || _); [|by injection].
  destruct (encode_utf8 c) as [|b bs] eqn:E; [by apply encode_utf8_ne in E|]. by vm_compute.
Qed.

Lemma encode_utf8_bytes c : is_scalar c = true → Forall (λ b, 0 ≤ b < 256) (encode_utf8 c).
Proof.
  unfold is_scalar, encode_utf8. intros Hc.
  repeat match goal with |- context [if ?x <? ?y then _ else _] => destruct (Z.ltb_spec x y) end;
    each_char; divmod.
Qed.

(** An escaped name gives back the bytes of the name, when the name has no backslash before a
    hash sign: such names stay apart in a report. *)
Theorem escaped_names_are_read_back eb input :
  Forall (λ c, is_scalar c = true) input → contains_str input (lit "\#") = false →
  unescape (escape_output_name input eb) = encode_chars input.
Proof.
  induction input as [|c input IH]; intros Hs Hh; [done|].
  apply Forall_cons in Hs as [Hc Hs]. cbn [contains_str] in Hh. apply orb_false_iff in Hh as [Hh Ht].
  specialize (IH Hs Ht). unfold escape_output_name, encode_chars in *. cbn [fmap list_fmap concat].
  rewrite <-IH. unfold escape_char at 1.
  assert (Hkept : unescape (c :: concat (escape_char eb <$> input)) =
    encode_utf8 c ++ unescape (concat (escape_char eb <$> input))).
  { apply unescape_plain. destruct (Z.eq_dec c 92) as [->|]; [right|by left].
    destruct input as [|d input]; [done|]. apply escaped_head. intros ->. done. }
  destruct (Z.eqb_spec c 9) as [->|]; [exact Hkept|]. destruct (_ || _); [|exact Hkept].
  clear Hkept Hh. pose proof (encode_utf8_bytes c Hc) as Hb.
  induction Hb as [|b bs Hb Hbs IHb]; [done|]. cbn [fmap list_fmap concat].
  rewrite <-app_assoc, unescape_byte by done. cbn [app]. f_equal. exact IHb.
Qed.

(** ** Exit codes, levels and counts *)

(** An error never exits like a success, and with one of the codes of rsync. *)
Lemma errors_have_exit_codes `{Letters} msg :
  exit_code_from_error msg ∈
    [EXIT_SYNTAX_OR_USAGE; EXIT_PROTOCOL; EXIT_FILE_SELECT; EXIT_UNSUPPORTED; EXIT_START_PROTOCOL;
     EXIT_DAEMON_LOG_FILE; EXIT_SOCKET_IO; EXIT_FILE_IO; EXIT_PROTOCOL_STREAM; EXIT_DIAGNOSTICS;
     EXIT_IPC; EXIT_SIGNAL; EXIT_WAITPID; EXIT_ALLOC; EXIT_PARTIAL; EXIT_VANISHED;
     EXIT_MAX_DELETE; EXIT_TIMEOUT].
Proof.
  unfold exit_code_from_error.
  repeat match goal with |- context [if ?b then _ else _] => destruct b end;
    apply (bool_decide_unpack _); vm_compute; exact I.
Qed.

(** Up to 127 options the levels are counted, and a message shows when -v outnumbers -q. *)
Lemma level_counts verbosity quiet :
  0 ≤ verbosity < 128 → 0 ≤ quiet < 128 → level_of verbosity quiet = verbosity - quiet.
Proof.
  intros Hv Hq. unfold level_of, as_i8.
  rewrite (Z.mod_small (verbosity + 128)), (Z.mod_small (quiet + 128)) by lia.
  rewrite Z.mod_small by lia. lia.
Qed.

(** The bytes that are counted are those of the actions. *)
Lemma stats_add_bytes actions :
  file_write_bytes (from_actions actions) = foldr Z.add 0 (action_len <$> actions).
Proof.
  assert (Hf : ∀ s, file_write_bytes (foldl record_action s actions) =
    file_write_bytes s + foldr Z.add 0 (action_len <$> actions)).
  { induction actions as [|action actions IH]; intros s; cbn [foldl fmap list_fmap foldr]; [lia|].
    rewrite IH. destruct action; cbn; lia. }
  apply Hf.
Qed.

(** Every action is counted once, but backups and links. *)
Lemma stats_count_actions actions :
  let s := from_actions actions in
  count_of actions =
    file_writes s + appended_files s + created_dirs s + preserved_mtimes s + deleted_files s +
    deleted_dirs s + protected_deletes s + warnings s +
    count_of (List.filter (λ a, match a with
                                | BackupFile _ _ | CreateSymlink _ _ | CreateHardLink _ _ => true
                                | _ => false end) actions).
Proof.
  cbv zeta. set (uncounted := λ a, _).
  set (total := λ s, file_writes s + appended_files s + created_dirs s + preserved_mtimes s +
    deleted_files s + deleted_dirs s + protected_deletes s + warnings s).
  assert (Hf : ∀ s, count_of actions + total s =
    total (foldl record_action s actions) + count_of (List.filter uncounted actions)).
  { unfold count_of. induction actions as [|action actions IH]; intros s; [cbn; lia|].
    cbn [foldl List.filter length]. specialize (IH (record_action s action)). revert IH.
    destruct action; cbn [uncounted length]; unfold total at 1 3; cbn; lia. }
  specialize (Hf ActionStats_default). unfold total in Hf. cbn in Hf. unfold from_actions. lia.
Qed.

(** ** Concrete reports *)

Section examples.
#[local] Instance sample_letters : Letters :=
  {| lowercase := to_ascii_lowercase; uppercase := to_ascii_uppercase |}.
#[local] Instance sample_letters_laws : LettersLaws.
Proof. by split. Qed.
#[local] Instance output_platform : Platform := false.

(** The messages of the tests, and their codes. *)
Example exit_codes :
  (λ text, exit_code_from_error (lit text)) <$>
    ["unknown option --bogus"; "connection refused: socket error"; "read timed out after 60s";
     "permission denied: cannot open file"; "protocol version mismatch";
     "protocol stream ended during checksum read"; "partial transfer due to error";
     "no such file or directory"; "--max-delete limit reached";
     "unsupported operation on this platform"; "daemon authentication failed: password rejected";
     "some source files vanished during transfer"; "something completely unexpected happened"] =
  [EXIT_SYNTAX_OR_USAGE; EXIT_SOCKET_IO; EXIT_TIMEOUT; EXIT_FILE_IO; EXIT_PROTOCOL;
   EXIT_PROTOCOL_STREAM; EXIT_PARTIAL; EXIT_FILE_SELECT; EXIT_MAX_DELETE; EXIT_UNSUPPORTED;
   EXIT_START_PROTOCOL; EXIT_VANISHED; EXIT_SYNTAX_OR_USAGE].
Proof. vm_compute. reflexivity. Qed.

(** The words are searched for in the names of files as well. *)
Example names_change_exit_codes :
  exit_code_from_error (lit "read /srv/data.txt: no such file or directory") = EXIT_FILE_SELECT ∧
  exit_code_from_error (lit "read /srv/timeout.txt: no such file or directory") = EXIT_TIMEOUT ∧
  exit_code_from_error (lit "read /srv/partial.txt: no such file or directory") = EXIT_PARTIAL.
Proof. vm_compute. done. Qed.

(** Within an option a sign takes a flag back, in a later option it does not. *)
Example later_option_takes_nothing_back :
  flags_contain info_table (all_flags info_table [lit "progress,-progress"]) PROGRESS = false ∧
  flags_contain info_table (all_flags info_table [lit "progress"; lit "-progress"]) PROGRESS = true.
Proof. vm_compute. done. Qed.

(** What is taken out of all categories is printed all the same. *)
Example all_but_one_prints_all :
  let flags := parse_debug_flags (lit "ALL,-IO") in
  let io := 2 ^ 12 in
  flags_contain debug_table flags io = false ∧ flags_intersect debug_table flags io = true.
Proof. vm_compute. done. Qed.

(** The 128th -v silences the log. *)
Example very_verbose_is_silent :
  log_enabled (minimal 127) = true ∧ log_enabled (minimal 128) = false.
Proof. vm_compute. done. Qed.

(** A name that looks like an escape is shown as the name that is escaped to it. *)
Example escapes_collide :
  escape_output_name [ch "a"; 10] false = lit "a\#012" ∧
  escape_output_name (lit "a\#012") false = lit "a\#012".
Proof. vm_compute. done. Qed.

Example escaped_accent : escape_output_name (lit "caf" ++ [233]) false = lit "caf\#303\#251".
Proof. vm_compute. reflexivity. Qed.

(** The list of itemized changes escapes nothing. *)
Example itemized_name_forges_a_line :
  append_optional_itemized_changes [] true [CreateDir [Normal (lit "a" ++ [10] ++ lit "*deleting   b")]] =
  lit "itemized changes:" ++ [10] ++ lit "cd+++++++++ a" ++ [10] ++ lit "*deleting   b" ++ [10].
Proof. vm_compute. reflexivity. Qed.

Example bytes_for_a_reader :
  (λ bytes, format_bytes_human bytes) <$> [42; 1024; 1536; 1048576; 5368709120; 1029; 1034] =
  lit <$> ["42 B"; "1.00 KiB"; "1.50 KiB"; "1.00 MiB"; "5.00 GiB"; "1.00 KiB"; "1.01 KiB"].
Proof. vm_compute. reflexivity. Qed.

Example rates :
  [transfer_rate_label 1048576 (10 ^ 9); transfer_rate_label 1000 (2 * 10 ^ 9);
   transfer_rate_label 1000 999999] = lit <$> ["1.00 MiB/s"; "500 B/s"; "0 B/s"].
Proof. vm_compute. reflexivity. Qed.

Example out_format_tokens :
  render_out_format (lit "%i %n%% (%l bytes) %X %")
    (out_format_args (from_action (WriteFile [Normal (lit "d"); Normal (lit "f")] 1024) false)) =
  lit ">f+++++++++ f% (1024 bytes) %X %".
Proof. vm_compute. reflexivity. Qed.

Definition sample_items : list FlagItem :=
  [{| item_minus := false; item_letters := lit "All"; item_level := None |};
   {| item_minus := true; item_letters := lit "name"; item_level := None |};
   {| item_minus := false; item_letters := lit "Progress"; item_level := Some 2 |};
   {| item_minus := false; item_letters := lit "stats"; item_level := Some 0 |}].

Lemma last_item_decides_witness :
  flags_contain info_table (parse_flags info_table (lit "All,-name,Progress2,stats0")) (2 ^ 7) = true ∧
  flags_contain info_table (parse_flags info_table (lit "All,-name,Progress2,stats0")) (2 ^ 10) = false.
Proof.
  assert (Hk : Forall (known_item info_table) sample_items).
  { each_char; (split; [discriminate|]); (split; [each_char; reflexivity|]);
      (split; [intros level Hl; first [discriminate Hl | injection Hl as <-; lia]|reflexivity]). }
  split.
  - refine (eq_trans (last_item_decides info_table _ sample_items 7 Hk _) _); [cbn; lia|cbn; lia|].
    vm_compute. reflexivity.
  - refine (eq_trans (last_item_decides info_table _ sample_items 10 Hk _) _); [cbn; lia|cbn; lia|].
    vm_compute. reflexivity.
Defined.

Definition report_cli : Cli :=
  Cli_default <| out_format := Some (lit "%i %n%L") |> <| client_log_file := Some (lit "log") |>.

Definition report_actions : list SyncAction :=
  [WriteFile [Normal (lit "d"); Normal (lit "a" ++ [10] ++ lit "b")] 3;
   CreateSymlink [Normal (lit "l")] [ParentDir; Normal [233]]].

Definition report_log : TransferLog :=
  the (transfer_log_from_cli report_cli) ltac:(vm_compute; reflexivity).

Definition reported : list Z * TransferLog :=
  append_out_format_and_client_log {| process_id := 1; now_seconds := 2 |} [] report_cli
    report_actions report_log.

Lemma names_forge_no_lines_witness :
  (∃ more, lines_added false 2 [] more ∧ reported.1 = [] ++ text_of_lines more) ∧
  match log_lines report_log, log_lines reported.2 with
  | Some old, Some new => lines_added false 2 old new
  | None, None => True
  | _, _ => False
  end.
Proof.
  assert (Hf : printable_text false (lit "%i %n%L")) by by apply printable_lit.
  refine (names_forge_no_lines {| process_id := 1; now_seconds := 2 |} report_cli
    report_actions [] report_log _ _); [|exact Hf].
  intros format He. injection He as <-. exact Hf.
Defined.

Example reported_lines :
  reported.1 = lit ">f+++++++++ a\#012b" ++ [10] ++ lit "cL+++++++++ l../\#303\#251" ++ [10] ∧
  log_lines reported.2 = Some [lit ">f+++++++++ a\#012b"; lit "cL+++++++++ l../\#303\#251"].
Proof. vm_compute. done. Qed.
End examples.
